(* ===== verification/_CoqProject ===== *)
-Q . S2P
Prelude.v
GoStr.v
Wire.v
Lz4.v
Codec.v
Fragments.v
ReadReplay.v
Transport.v
Request.v
Stream.v
NetAddr.v
P2PMessage.v
P2PNat.v
P2PTables.v
P2PClient.v
P2PInv.v
P2PSystem.v
P2PProps.v
Replay.v
AllowedIPs.v
AllowedIPsBits.v
AllowedIPsProps.v
AllowedIPsTable.v
Ratelimiter.v
WuspAssembly.v
WuspTransport.v
ControlReplay.v
ControlReplayProps.v
DeviceModel.v
DeviceModelProps.v
UspEvents.v
UspStore.v
UspStoreProps.v
UspAgent.v
UspAgentProps.v
UspAddProps.v
ControlResult.v
ControlResultProps.v
UspRuntime.v
UspRuntimeProps.v
Noise.v
Handshake.v
HandshakeProps.v
Cookie.v
Engine.v
EngineProps.v
Transfer.v
TransferProps.v
ModelCache.v
ModelCacheSnap.v
ModelCacheProps.v
Timers.v
TimersProps.v
Validate.v
ValidateProps.v
ValidStore.v
SmsText.v
SmsTextProps.v
Sms.v
SmsProps.v
Netip.v
ExitNode.v
ExitNat.v
ExitNatProps.v
ExitGuard.v
ExitEngine.v
ExitRouteProps.v
ExitEngineInv.v
ExitEnginePres.v
ExitProps.v
ExitSafety.v
ExitMain.v
