(* ===== verification/Prelude.v ===== *)
(** * Verification of the wantasticd networking agent

    wantasticd (Go) is a device agent: it is managed over WUSP, a binary
    management protocol carried in datagrams, and it joins a WireGuard mesh whose
    peers a coordinator introduces to each other so that they can leave the relay
    for a direct path.  This library models the subsystems that carry the
    program's own protocol logic and proves what makes them correct.

    ** The program's parts

    - Parameter codec, src/internal/wusp/interface.go: typed values and messages,
      the field registry, the frame encoder and decoder, LZ4 block compression.
    - Control plane transport on top of it: fragments (control_fragments.go),
      read replay metadata (read_replay.go), requests and responses
      (usp_transport.go with types and checks of usp_agent.go, methods.go and
      broadband.go), file transfer streams (usp_stream.go).
    - Device model, models.go: schema objects and parameters, their lookups,
      stable path codes and selectors with instance numbers.
    - Management agent, usp_agent.go and usp_events.go: the parameter store,
      instances of multi-instance objects, subscriptions and events, and the
      dispatch of requests to them (HandleRequest of usp_transport.go).
    - Agent runtime, src/internal/agent/usp.go: the cache of control replies that
      makes retransmitted actions execute once and lost fragments recoverable,
      and the dispatcher that decides which frames of which peers reach the
      agent and answers them with a control result (control_result.go); and
      transfer sessions, usp_stream.go, which move files in windows of chunks; and
      the data model cache, usp_cache.go, which answers reads from a snapshot
      that sweeps of the platform refresh.
    - WireGuard engine, src/internal/device/wireguard-go/: allowed IPs
      (device/allowedips.go), the anti-replay filter (replay/replay.go), the
      handshake rate limiter (ratelimiter/ratelimiter.go), reception of WUSP
      fragments inside the tunnel (device/wusp_fragments.go), the Noise handshake
      with its sessions and the index table of receivers (device/noise-*.go,
      keypair.go, indextable.go, peer.go, device.go, tai64n/tai64n.go), cookies
      against floods (cookie.go), and the routines that handle datagrams
      (receive.go, send.go, p2p_control_transport.go, tun_control_transport.go)
      and the timers that drive handshakes (timers.go).
    - P2P, src/internal/device/wireguard-go/device/: coordination messages
      (p2p_message.go), NAT classification and punch planning (p2p_nat.go), the
      client (p2p_client.go), which talks to the coordinator, punches, validates
      a WireGuard handshake, promotes the path and later maintains it.
    - Exit node, src/internal/exitnode/ and src/internal/device/exitnode.go with
      exitnode_guard.go: a device sends its internet traffic through a peer, or
      lets peers send theirs through it.  Plans of routes and NAT rules are pure,
      the engine applies, repairs and removes them as its peer comes and goes.
    - Short messages, src/internal/modem/: the inbox of a modem.
    A request travels as datagrams of the engine, is reassembled, decoded by the
    transport, looked up in the replay cache, executed by the agent over its store
    and answered the same way; the P2P client exchanges its messages through the
    WireGuard device and configures it.

    ** Files and what they model

    - [Prelude]: outcomes of Go code ([res]: value, error, panic), machine
      integers, the allocator's limit, bytes and byte order.
    - [GoStr]: the operations of strings, strconv and sort the sources use.
    - [Wire]: the read and write buffers (rbuf, wbuf of interface.go): bytes,
      uvarints, zigzag, blobs; a reader monad with its round-trip lemmas.
    - [Lz4]: lz4State.compress and lz4State.decompress.
    - [Codec]: Value, Message, registry, Encoder.Encode, Decoder.Decode.
    - [Fragments], [ReadReplay], [Stream]: control_fragments.go, read_replay.go,
      usp_stream.go, one definition per function.
    - [Transport]: the field writers and readers and the size estimates of
      usp_transport.go, with one round-trip lemma per pair (hint database
      [reads]).
    - [Request]: requests and responses, validation, selectors, metadata.  The
      data model is the class [Schema] with the documented behaviour the
      transport relies on.
    - [NetAddr]: net.IP and net.UDPAddr.
    - [P2PMessage], [P2PNat]: p2p_message.go, p2p_nat.go and target selection.
    - [P2PTables]: the state behind P2PClient.mu and the ...Locked functions;
      peers, sessions and gates live in heaps because the source shares them by
      pointer.
    - [P2PClient]: the handlers and loops of p2p_client.go, one definition per
      critical section and per stretch between two of them, and the composed
      handlers.  The device is a record of answers and a list of calls.
    - [P2PInv]: the table invariant and its preservation by every operation.
    - [P2PSystem]: the client as a transition system of interleaved workers,
      with the invariants of its reachable configurations and a concrete run.
    - [P2PProps]: properties of single P2P operations.
    - [Replay]: the RFC 6479 ring, with the sliding-window specification.
    - [AllowedIPs]: the binary trie of prefixes and the per-peer lists;
      [AllowedIPsBits], [AllowedIPsProps]: bits of addresses and the trie
      invariant; [AllowedIPsTable]: refinement of a finite map of prefixes.
    - [Ratelimiter]: token buckets per address and their garbage collection.
    - [WuspAssembly]: pending messages of a peer with budget and expiry;
      [WuspTransport]: the way of a request through fragmentation, padding,
      an unreliable network and assembly.
    - [ControlReplay]: the reply cache and its transition system;
      [ControlReplayProps]: what retransmissions get.
    - [DeviceModel], [DeviceModelProps]: models.go; the device is an instance of
      what [Request] asks of a schema's paths.
    - [UspEvents]: events and subscriptions with their wire form.
    - [UspStore], [UspStoreProps]: the functions of usp_agent.go on the map of
      stored fields.
    - [UspAgent]: the agent's state and operations, HandleRequest; the platform
      behind it is the record [Platform].  [UspAgentProps], [UspAddProps]: its
      invariant and the effects of its operations.
    - [ControlResult], [ControlResultProps]: results and their metadata,
      classification of errors, FinalizeAgentResponse.
    - [UspRuntime]: handleFrameFromPeer and CallController, cut where they wait;
      [UspRuntimeProps]: the runtime as a transition system of concurrent
      handlers, and what a controller reads of an answer.
    - [Transfer]: sessions of usp_stream.go, frame handlers and the goroutine of a
      download cut where it waits; [TransferProps]: both ends of a transfer as a
      transition system over a lossy network.
    - [ModelCache]: snapshots, the file and the sweeps of usp_cache.go, whose
      goroutines are cut where they take the mutex, call the platform or write a
      file; [ModelCacheSnap]: what snapshots hold; [ModelCacheProps]: the cache as
      a transition system.
    - [Noise]: key derivation and the handshake messages; [Handshake]: handshakes,
      sessions, the index table and peers, one definition per function, cut where
      a lock is released; [HandshakeProps]: the device as a transition system.
    - [Cookie]: cookie.go, with the exchange of a cookie.
    - [Engine]: receive.go and send.go per datagram, with endpoints and control
      envelopes; [EngineProps]: what gets through.
    - [Timers]: timers.go with the places that call its hooks, over the handshake
      and staging models; [TimersProps]: the timers under every interleaving.
    - [Validate]: methods.go, the validation of fields and the sample values of
      the schema's parameters; [ValidateProps]: what is accepted, stated per type;
      [ValidStore]: the agent over that schema.
    - [SmsText]: texts of short messages in at_linux.go, with runes and UTF-8;
      [SmsTextProps]: what cleaning leaves; [Sms]: smspdu.go and its callers;
      [SmsProps]: the inbox.
    - [Netip]: net/netip addresses and prefixes with their text.
    - [ExitNode]: classify.go, routes.go and gateway.go; [ExitNat]: nat.go and the
      monad of code that acts on a host; [ExitGuard]: the filter on received
      packets; [ExitEngine]: exitnode.go, one definition per critical section,
      over the class [Machine] of everything around the engine.
    - [ExitRouteProps]: where planned routes send packets; [ExitNatProps]: what
      NAT leaves behind; [ExitEngineInv]: what is assumed of a machine
      ([MachineLaws]), the Hoare triples of its monad and the engine's invariant;
      [ExitEnginePres]: its preservation; [ExitProps]: the engine as a transition
      system; [ExitSafety]: what a pass of the loop ends in; [ExitMain]: the
      theorems, and a small machine on which the engine is run.

    ** What the theorems show

    - Round trips: messages, LZ4, fragments in any delivery order, requests,
      responses, stream frames, resend sets, P2P messages, candidate lists,
      punch packets, selectors of schema paths, events, and values set and read
      through the agent.
    - Robustness on arbitrary input: the codec, LZ4 and fragment decoders and the
      fragment reception never panic and stay within their caps; the two decoders
      that do panic on some input are pinned down exactly (stream frames of 37 to
      44 bytes, which panic in the dispatcher whoever sends them, and huge counts
      in requests).
    - Refinement: the replay filter accepts exactly the fresh counters of a
      sliding window; the trie is longest-prefix match over a finite map;
      validation accepts exactly the values a parameter takes.
    - Delivery: a request sent through the tunnel in any order, with duplicates
      and padding, reaches the agent once (for budgets that need no padding; the
      other budgets are shown to corrupt it); a retransmitted action executes once
      and lost fragments of a kept reply complete it; an executed request is
      answered by a response that decodes to the request's identity and result; a
      completed file transfer is whole.
    - The cache: sweeps never overlap, every write is followed by a sweep that
      begins after it, the work ends; a refreshed snapshot keeps what was
      reported and what must be held; it survives restarts and failed saves.
    - Authority: under every interleaving of handlers only requests the
      controller sent reach the agent; frames of other peers change nothing.
    - The agent: its tables stay consistent over every sequence of operations, a
      stored value is one its parameter takes, the sample model is always valid, a
      request changes only what its method may change, Get returns exactly what
      is asked for, Add creates a free instance and touches nothing else, events
      reach every matching subscription once.
    - The tunnel: a handshake leaves both ends with matching keys and indices;
      the index table names exactly the live handshakes and sessions; accepted
      initiations have increasing timestamps; a cookie proves an address; a sealed
      packet is delivered once and only from an allowed source; no nonce is used
      twice; staged packets are sent or kept; endpoints follow authenticated
      packets only, and the unauthenticated type of a datagram cannot turn one
      kind of content into another; keys are wiped in time, silence is noticed
      and handshakes are retried as often as intended.
    - P2P safety: the tables stay consistent under every interleaving; a direct
      path appears only by a current, validated promotion whose peer
      authenticated a punch; datagrams without a valid MAC and superseded
      attempts have no effect; a peer list cannot take a direct path away.
    - Short messages: every stored message is listed once and can be deleted, and
      texts are clean.
    - Exit node: unless a pass of the engine ends active it leaves none of its
      routes on the host, after panics and crashes of earlier passes too; it ends
      active only with a live direct peer that has granted use, and then all IPv4
      traffic but that of the tunnel itself enters the tunnel; repeated panics
      give the choice up; without the user's consent no peer's packet leaves for
      the internet; enabling and disabling NAT leaves no trace.
    - Limits: handshake packets of an address, reply cache, pending fragments,
      spraying, punch requests and packet-triggered attempts are bounded;
      maintenance leaves nothing stale; the published destination index is exact.

    ** Fuel and bounds

    Loops that are not structural carry fuel equal to a bound the code has: the
    length of the input for LZ4, trimming and UTF-8, 65535 for the spray search
    (the loop's own bound), the declared counts for lists, the number of cached
    replies for trimming, the depth of the trie for removal.  The theorems show
    that it is never exhausted early: the round trips and totality results are
    stated as results, not under the assumption that the fuel suffices.  A [make]
    beyond [maxAlloc] is a panic.

    ** Assumptions and abstractions

    Curve25519, BLAKE2s and the network bind are fields of the class [P2PEnv]; for
    the handshake Curve25519, BLAKE2s and ChaCha20-Poly1305 are the classes
    [NoiseCrypto] and [CookieCrypto] with the laws that are used of them
    ([NoiseLaws], [CookieLaws]: lengths, Diffie-Hellman, opening what was sealed).
    Nothing is assumed of an adversary: what needs secrecy is stated as what the
    code checks.  SHA-256, the Unicode case tables, and regular expressions, base64 and CIDR
    notation (class [TextLib]), tables of Unicode classes and the SMS codec package
    ([UnicodeTables], [SmsLib]) are parameters; the host and the machine of the exit
    node are the classes [Host] and [Machine], every operation of which may fail or
    panic, with the laws [MachineLaws] (only the agent's commands touch its routes,
    an executed delete removes a route) and [IptablesLaws]; the device's answers and
    those of the platform behind the agent are arbitrary per operation; Go's map
    iteration order is an arbitrary permutation.  Logging is left out.  Times are
    integers and may jump between steps.

    ** Not modelled

    The generated data model tables, which are parameters; of the
    runtime Operate commands and start;
    of the WireGuard engine buffers and queues between routines, binds,
    the configuration protocol, starting and closing; of the exit node the TCP/IP
    stack of the userspace exit, the JSON of its state file and its status listing;
    port mapping, the modem's radio state and devices, platform code, configuration, accounts and the command line; in
    p2p_client.go the reading and ranking of network interfaces and the start and
    stop of goroutines.
    Planned in this order: the tenant firewall, the NAT-PMP codec, interface
    ranking. *)

From stdpp Require Export base numbers list list_numbers gmap strings sorting.
From Stdlib Require Export ZArith Lia.
From Stdlib Require Import Strings.Byte.

Declare Scope go_scope.
Delimit Scope go_scope with go.
Open Scope Z_scope.

#[global] Arguments Nat.leb : simpl never.
#[global] Arguments Nat.ltb : simpl never.
#[global] Arguments Nat.eqb : simpl never.
#[global] Arguments Nat.div : simpl never.
#[global] Arguments Nat.modulo : simpl never.
#[global] Arguments Z.shiftl : simpl never.
#[global] Arguments Z.shiftr : simpl never.
#[global] Arguments Z.land : simpl never.
#[global] Arguments Z.lor : simpl never.
#[global] Arguments Z.lxor : simpl never.

(** Closes an equation between closed terms by evaluation. *)
Ltac vm_refl := match goal with |- _ = ?b => vm_cast_no_check (@eq_refl _ b) end.

(** ** Go's outcomes: a value, an error value, or a run-time panic *)

Inductive res (E A : Type) : Type :=
| Ok (a : A)
| Err (e : E)
| Panic.
Arguments Ok {E A} a.
Arguments Err {E A} e.
Arguments Panic {E A}.

#[export] Instance res_ret E : MRet (res E) := fun A a => Ok a.
#[export] Instance res_bind E : MBind (res E) := fun A B f m =>
  match m with Ok a => f a | Err e => Err e | Panic => Panic end.
#[export] Instance res_fmap E : FMap (res E) := fun A B f m =>
  match m with Ok a => Ok (f a) | Err e => Err e | Panic => Panic end.

Definition is_ok {E A} (m : res E A) : bool :=
  match m with Ok _ => true | _ => false end.

(** A guard clause [if cond { return err }]. *)
Definition fail_if {E} (c : bool) (e : E) : res E () := if c then Err e else Ok ().

Lemma bind_ok {E A B} (m : res E A) (f : A → res E B) b :
  m ≫= f = Ok b ↔ ∃ a, m = Ok a ∧ f a = Ok b.
Proof.
  destruct m; simpl; split; [eauto| |by inversion 1| |by inversion 1|].
  all: intros (a' & Ha & ?); inversion Ha; by subst.
Qed.

(** The first error of a sequence of steps. *)
Section MapM.
Context {E A B : Type} (f : A → res E B).
Fixpoint mapM_res (l : list A) : res E (list B) :=
  match l with
  | [] => Ok []
  | x :: l => y ← f x; ys ← mapM_res l; Ok (y :: ys)
  end.

Lemma mapM_res_ok l (g : A → B) :
  (∀ x, x ∈ l → f x = Ok (g x)) → mapM_res l = Ok (g <$> l).
Proof.
  induction l as [|x l IH]; intros H; simpl; [done|].
  rewrite (H x) by set_solver. simpl. rewrite IH by set_solver. done.
Qed.

Lemma mapM_res_Forall2 l es : mapM_res l = Ok es ↔ Forall2 (fun x e => f x = Ok e) l es.
Proof.
  split.
  - revert es. induction l as [|x l IH]; intros es; simpl.
    + intros [= <-]. constructor.
    + rewrite bind_ok. intros (y & Hy & H). apply bind_ok in H as (ys & Hys & [= <-]).
      constructor; auto.
  - induction 1 as [|x e l es Hx _ IH]; simpl; [done|]. by rewrite Hx, IH.
Qed.
End MapM.

Lemma mapM_res_ext {E A B} (f g : A → res E B) l :
  (∀ x, x ∈ l → f x = g x) → mapM_res f l = mapM_res g l.
Proof.
  induction l as [|x l IH]; intros H; simpl; [done|].
  rewrite (H x), IH by set_solver. done.
Qed.
Lemma mapM_res_fmap {E A B C} (f : B → res E C) (h : A → B) l :
  mapM_res f (h <$> l) = mapM_res (f ∘ h) l.
Proof. induction l as [|x l IH]; [done|]. rewrite fmap_cons. simpl. by rewrite IH. Qed.

(** ** Machine integers *)

Definition wrap (w z : Z) : Z := z mod 2 ^ w.
Definition swrap (w z : Z) : Z := (z + 2 ^ (w - 1)) mod 2 ^ w - 2 ^ (w - 1).
Abbreviation u8 := (wrap 8).
Abbreviation u16 := (wrap 16).
Abbreviation u32 := (wrap 32).
Abbreviation u64 := (wrap 64).
Abbreviation i32 := (swrap 32).
Abbreviation i64 := (swrap 64).

Lemma wrap_range w z : 0 ≤ w → 0 ≤ wrap w z < 2 ^ w.
Proof. intros. apply Z.mod_pos_bound. lia. Qed.
Lemma wrap_small w z : 0 ≤ z < 2 ^ w → wrap w z = z.
Proof. apply Z.mod_small. Qed.
Lemma swrap_range w z : 1 ≤ w → - 2 ^ (w - 1) ≤ swrap w z < 2 ^ (w - 1).
Proof.
  intros. unfold swrap. pose proof (Z.mod_pos_bound (z + 2 ^ (w - 1)) (2 ^ w)).
  assert (2 ^ w = 2 * 2 ^ (w - 1)) by (rewrite <- Z.pow_succ_r by lia; f_equal; lia).
  lia.
Qed.
Lemma swrap_small w z : 1 ≤ w → - 2 ^ (w - 1) ≤ z < 2 ^ (w - 1) → swrap w z = z.
Proof.
  intros ? Hz. unfold swrap.
  assert (2 ^ w = 2 * 2 ^ (w - 1)) by (rewrite <- Z.pow_succ_r by lia; f_equal; lia).
  rewrite Z.mod_small; lia.
Qed.

(** The allocator's limit ([maxAlloc] of the Go runtime on linux/amd64): a
    [make] of [n] elements of [size] bytes panics beyond it. *)
Definition maxAlloc : Z := 2 ^ 48.
Definition make_ok (size n : Z) : bool := (0 <=? n) && (size * n <=? maxAlloc).
Definition go_make {E} (size n : Z) : res E () := if make_ok size n then Ok () else Panic.

(** ** Lists *)

Lemma insert_middle {A} (l1 l2 : list A) x y :
  <[length l1 := y]> (l1 ++ x :: l2) = l1 ++ y :: l2.
Proof. replace (length l1) with (length l1 + 0)%nat by lia. by rewrite insert_app_r. Qed.

(** ** Bytes *)

Abbreviation byte := Byte.byte.
Abbreviation bytes := (list Byte.byte).

#[export] Instance byte_eq_dec : EqDecision byte := Byte.byte_eq_dec.
#[export] Instance byte_countable : Countable byte :=
  inj_countable Byte.to_N Byte.of_N Byte.of_to_N.

Definition b2z (b : byte) : Z := Z.of_N (Byte.to_N b).
Definition z2b (z : Z) : byte :=
  match Byte.of_N (Z.to_N (wrap 8 z)) with Some b => b | None => x00 end.

Lemma b2z_range b : 0 ≤ b2z b < 256.
Proof. unfold b2z. pose proof (Byte.to_N_bounded b). lia. Qed.
Lemma b2z_z2b z : b2z (z2b z) = wrap 8 z.
Proof.
  unfold b2z, z2b. pose proof (wrap_range 8 z ltac:(lia)) as Hr.
  destruct (Byte.of_N _) as [b|] eqn:Hb.
  - apply Byte.to_of_N in Hb. lia.
  - apply Byte.of_N_None_iff in Hb. lia.
Qed.
Lemma b2z_z2b_small z : 0 ≤ z < 256 → b2z (z2b z) = z.
Proof. intros. rewrite b2z_z2b. by apply wrap_small. Qed.
Lemma z2b_b2z b : z2b (b2z b) = b.
Proof.
  unfold z2b. rewrite wrap_small by apply b2z_range.
  unfold b2z. by rewrite N2Z.id, Byte.of_to_N.
Qed.
#[export] Instance b2z_inj : Inj (=) (=) b2z.
Proof. intros b1 b2 H. by rewrite <- (z2b_b2z b1), H, z2b_b2z. Qed.
Lemma z2b_wrap z : z2b (wrap 8 z) = z2b z.
Proof.
  apply (inj b2z). rewrite !b2z_z2b. apply wrap_small, wrap_range. lia.
Qed.

(** [data[lo:hi]] *)
Definition slice {A} (lo hi : nat) (data : list A) : list A := take (hi - lo) (drop lo data).

Lemma length_slice {A} lo hi (l : list A) :
  (hi ≤ length l)%nat → length (slice lo hi l) = (hi - lo)%nat.
Proof. intros. unfold slice. rewrite length_take, length_drop. lia. Qed.
Lemma slice_app_here {A} n (a b : list A) : length a = n → slice 0 n (a ++ b) = a.
Proof. intros <-. unfold slice. by rewrite Nat.sub_0_r, drop_0, take_app_length. Qed.
Lemma slice_app_r {A} lo hi (a b : list A) :
  (length a ≤ lo)%nat → slice lo hi (a ++ b) = slice (lo - length a) (hi - length a) b.
Proof.
  intros. unfold slice. rewrite drop_app_ge by lia. f_equal. lia.
Qed.

(** A Go string is a byte sequence; string literals are written as such. *)
Definition bs (s : string) : bytes := String.list_byte_of_string s.

(** ** Fixed-width integers in byte order (package encoding/binary) *)

Fixpoint le_put (n : nat) (z : Z) : bytes :=
  match n with O => [] | S n => z2b z :: le_put n (z / 256) end.
Fixpoint le_get (l : bytes) : Z :=
  match l with [] => 0 | b :: l => b2z b + 256 * le_get l end.
Definition be_put (n : nat) (z : Z) : bytes := reverse (le_put n z).
Definition be_get (l : bytes) : Z := le_get (reverse l).

Lemma length_le_put n z : length (le_put n z) = n.
Proof. revert z; induction n; intros; simpl; auto. Qed.
Lemma length_be_put n z : length (be_put n z) = n.
Proof. unfold be_put. by rewrite length_reverse, length_le_put. Qed.

Lemma le_get_range l : 0 ≤ le_get l < 256 ^ Z.of_nat (length l).
Proof.
  induction l as [|b l IH]; simpl length; [simpl; lia|].
  rewrite Nat2Z.inj_succ, Z.pow_succ_r by lia. simpl.
  pose proof (b2z_range b). lia.
Qed.
Lemma be_get_range l : 0 ≤ be_get l < 256 ^ Z.of_nat (length l).
Proof. unfold be_get. pose proof (le_get_range (reverse l)). by rewrite length_reverse in H. Qed.

Lemma le_get_put n z : le_get (le_put n z) = z mod 256 ^ Z.of_nat n.
Proof.
  revert z; induction n as [|n IH]; intros z; [by rewrite Z.mod_1_r|].
  rewrite Nat2Z.inj_succ, Z.pow_succ_r by lia.
  simpl. rewrite IH, b2z_z2b. unfold wrap. change (2 ^ 8) with 256.
  rewrite Z.rem_mul_r by lia. lia.
Qed.
Lemma le_get_put_small n z : 0 ≤ z < 256 ^ Z.of_nat n → le_get (le_put n z) = z.
Proof. intros. rewrite le_get_put. by apply Z.mod_small. Qed.
Lemma be_get_put_small n z : 0 ≤ z < 256 ^ Z.of_nat n → be_get (be_put n z) = z.
Proof. intros. unfold be_get, be_put. rewrite reverse_involutive. by apply le_get_put_small. Qed.
Lemma le_put_get l : le_put (length l) (le_get l) = l.
Proof.
  induction l as [|b l IH]; simpl; [done|]. pose proof (b2z_range b).
  assert ((b2z b + 256 * le_get l) / 256 = le_get l) as ->.
  { rewrite Z.mul_comm, Z.div_add by lia. rewrite Z.div_small; lia. }
  rewrite IH. f_equal. apply (inj b2z). rewrite b2z_z2b. unfold wrap.
  change (2 ^ 8) with 256. rewrite Z.mul_comm, Z.mod_add by lia. by apply Z.mod_small.
Qed.
#[global] Arguments le_put : simpl never.
#[global] Arguments le_get : simpl never.
