(* ===== verification/GoStr.v ===== *)
(** * Go strings

    The operations of packages strings, strconv and sort that the modelled
    sources use, on byte strings, with the facts about them that the clients
    share: trimming, splitting and joining, decimal formatting and parsing,
    byte-wise order. *)

From S2P Require Import Prelude.

(** ** strings.TrimSpace *)

(** Length in bytes of the white-space rune at the front of a string (0: none):
    the ASCII ones and the UTF-8 encodings of U+0085, U+00A0, U+1680,
    U+2000-U+200A, U+2028, U+2029, U+202F, U+205F and U+3000. *)
Definition space1 (a : Z) : bool := ((9 <=? a) && (a <=? 13)) || (a =? 32).
Definition space2 (a b : Z) : bool := (a =? 0xC2) && ((b =? 0x85) || (b =? 0xA0)).
Definition space3 (a b c : Z) : bool :=
  ((a =? 0xE1) && (b =? 0x9A) && (c =? 0x80))
  || ((a =? 0xE2) && (b =? 0x80) && (((0x80 <=? c) && (c <=? 0x8A)) || (c =? 0xA8) || (c =? 0xA9) || (c =? 0xAF)))
  || ((a =? 0xE2) && (b =? 0x81) && (c =? 0x9F))
  || ((a =? 0xE3) && (b =? 0x80) && (c =? 0x80)).

Definition space_front (s : bytes) : nat :=
  match s with
  | a :: t =>
      if space1 (b2z a) then 1
      else match t with
           | b :: t =>
               if space2 (b2z a) (b2z b) then 2
               else match t with
                    | c :: _ => if space3 (b2z a) (b2z b) (b2z c) then 3 else 0
                    | [] => 0
                    end
           | [] => 0
           end
  | [] => 0
  end.
(** The same on a reversed string. *)
Definition space_back (s : bytes) : nat :=
  match s with
  | a :: t =>
      if space1 (b2z a) then 1
      else match t with
           | b :: t =>
               if space2 (b2z b) (b2z a) then 2
               else match t with
                    | c :: _ => if space3 (b2z c) (b2z b) (b2z a) then 3 else 0
                    | [] => 0
                    end
           | [] => 0
           end
  | [] => 0
  end.

Fixpoint trim_with (space : bytes → nat) (fuel : nat) (s : bytes) : bytes :=
  match fuel with
  | O => s
  | S fuel => match space s with O => s | n => trim_with space fuel (drop n s) end
  end.

Definition TrimSpace (s : bytes) : bytes :=
  let s := trim_with space_front (length s) s in
  reverse (trim_with space_back (length s) (reverse s)).

(** ** strings.ToValidUTF8 with an empty replacement *)

Definition cont (c : Z) : bool := (0x80 <=? c) && (c <=? 0xBF).
(** Whether a sequence of two, three, four bytes is one rune. *)
Definition rune2 (a b : Z) : bool := (0xC2 <=? a) && (a <=? 0xDF) && cont b.
Definition rune3 (a b c : Z) : bool :=
  (0xE0 <=? a) && (a <=? 0xEF) && cont c
  && ((if a =? 0xE0 then 0xA0 else 0x80) <=? b) && (b <=? (if a =? 0xED then 0x9F else 0xBF)).
Definition rune4 (a b c d : Z) : bool :=
  (0xF0 <=? a) && (a <=? 0xF4) && cont c && cont d
  && ((if a =? 0xF0 then 0x90 else 0x80) <=? b) && (b <=? (if a =? 0xF4 then 0x8F else 0xBF)).
(** Width of the rune at the front; 0 when the first byte starts none. *)
Definition rune_len (s : bytes) : nat :=
  match b2z <$> s with
  | [] => 0
  | a :: t =>
      if a <? 0x80 then 1
      else match t with
           | [] => 0
           | b :: t =>
               if rune2 a b then 2
               else match t with
                    | [] => 0
                    | c :: t =>
                        if rune3 a b c then 3
                        else match t with
                             | [] => 0
                             | d :: _ => if rune4 a b c d then 4 else 0
                             end
                    end
           end
  end.
Fixpoint valid_utf8 (fuel : nat) (s : bytes) : bytes :=
  match fuel, s with
  | S fuel, b :: rest =>
      match rune_len s with
      | O => valid_utf8 fuel rest
      | n => take n s ++ valid_utf8 fuel (drop n s)
      end
  | _, _ => []
  end.
Definition ToValidUTF8 (s : bytes) : bytes := valid_utf8 (length s) s.

(** ** Splitting and joining *)

Fixpoint Split (s : bytes) (sep : byte) : list bytes :=
  match s with
  | [] => [[]]
  | c :: s =>
      if decide (c = sep) then [] :: Split s sep
      else match Split s sep with
           | p :: ps => (c :: p) :: ps
           | [] => [[c]]
           end
  end.

Fixpoint Join (ps : list bytes) (sep : byte) : bytes :=
  match ps with
  | [] => []
  | [p] => p
  | p :: ps => p ++ sep :: Join ps sep
  end.

Fixpoint Cut (s : bytes) (sep : byte) : bytes * bytes * bool :=
  match s with
  | [] => ([], [], false)
  | c :: s =>
      if decide (c = sep) then ([], s, true)
      else let '(before, after, found) := Cut s sep in (c :: before, after, found)
  end.

Definition HasPrefix (s p : bytes) : bool := bool_decide (take (length p) s = p).
Definition HasSuffix (s p : bytes) : bool :=
  (length p <=? length s)%nat && bool_decide (drop (length s - length p) s = p).
Definition TrimSuffix (s p : bytes) : bytes :=
  if HasSuffix s p then take (length s - length p) s else s.
(** strings.LastIndex for a one-byte needle; -1 when absent. *)
Fixpoint LastIndexByte (s : bytes) (c : byte) : Z :=
  match s with
  | [] => -1
  | d :: s =>
      let i := LastIndexByte s c in
      if 0 <=? i then i + 1 else if decide (d = c) then 0 else -1
  end.
Fixpoint Contains (s p : bytes) : bool :=
  HasPrefix s p || match s with [] => false | _ :: s => Contains s p end.

(** ** strconv *)

Definition digit (d : Z) : byte := z2b (48 + d).
Fixpoint digits (fuel : nat) (n : Z) (acc : bytes) : bytes :=
  match fuel with
  | O => acc
  | S fuel => if n <? 10 then digit n :: acc else digits fuel (n / 10) (digit (n mod 10) :: acc)
  end.
(** FormatUint(n, 10): 20 digits hold any uint64. *)
Definition FormatUint (n : Z) : bytes := digits 20 n [].
Definition Itoa (n : Z) : bytes :=
  if n <? 0 then z2b 45 :: FormatUint (u64 (- n)) else FormatUint n.

Definition is_digit (c : byte) : bool := (48 <=? b2z c) && (b2z c <=? 57).
Fixpoint parse_loop (maxVal acc : Z) (s : bytes) : option Z :=
  match s with
  | [] => Some acc
  | c :: s =>
      if negb (is_digit c) then None
      else if 1844674407370955162 <=? acc then None
      else let n := acc * 10 in
           let n1 := u64 (n + (b2z c - 48)) in
           if (n1 <? n) || (maxVal <? n1) then None else parse_loop maxVal n1 s
  end.
(** ParseUint(s, 10, bits); [None] is any of its errors. *)
Definition ParseUint (s : bytes) (bits : Z) : option Z :=
  match s with [] => None | _ => parse_loop (2 ^ bits - 1) 0 s end.

Definition Atoi (s : bytes) : option Z :=
  match s with
  | [] => None
  | c :: t =>
      let neg := b2z c =? 45 in
      let body := if neg || (b2z c =? 43) then t else s in
      match ParseUint body 64 with
      | None => None
      | Some un =>
          if negb neg && (2 ^ 63 <=? un) then None
          else if neg && (2 ^ 63 <? un) then None
          else Some (if neg then - un else un)
      end
  end.

(** ** sort.Strings *)

(** Go orders strings bytewise. *)
Fixpoint bytes_leb (a b : bytes) : bool :=
  match a, b with
  | [], _ => true
  | _ :: _, [] => false
  | x :: a, y :: b =>
      if b2z x <? b2z y then true else if b2z y <? b2z x then false else bytes_leb a b
  end.
Definition bytes_le (a b : bytes) : Prop := bytes_leb a b = true.
#[export] Instance bytes_le_dec : RelDecision bytes_le.
Proof. intros a b. unfold bytes_le. apply _. Defined.

Definition SortStrings (l : list bytes) : list bytes := merge_sort bytes_le l.

(** ** Lemmas *)

(** The order of strings is total and transitive. *)
Lemma bytes_leb_total a : ∀ b, bytes_leb a b = true ∨ bytes_leb b a = true.
Proof.
  induction a as [|x a IH]; intros [|y b]; simpl; auto.
  destruct (Z.ltb_spec (b2z x) (b2z y)), (Z.ltb_spec (b2z y) (b2z x)); auto; lia.
Qed.
Lemma bytes_leb_trans a : ∀ b c, bytes_leb a b = true → bytes_leb b c = true → bytes_leb a c = true.
Proof.
  induction a as [|x a IH]; intros [|y b] [|z c]; simpl; auto; [done|].
  destruct (Z.ltb_spec (b2z x) (b2z y)), (Z.ltb_spec (b2z y) (b2z x)), (Z.ltb_spec (b2z y) (b2z z)),
    (Z.ltb_spec (b2z z) (b2z y)), (Z.ltb_spec (b2z x) (b2z z)), (Z.ltb_spec (b2z z) (b2z x)); try done; try lia; eauto.
Qed.
Lemma SortStrings_perm l : SortStrings l ≡ₚ l.
Proof. apply merge_sort_Permutation. Qed.

(** Printable ASCII bytes are not white space. *)
Definition graphic (c : byte) : bool := (33 <=? b2z c) && (b2z c <? 127).

Lemma space_graphic c s : graphic c = true → space_front (c :: s) = 0%nat ∧ space_back (c :: s) = 0%nat.
Proof.
  unfold graphic. rewrite andb_true_iff, Z.leb_le, Z.ltb_lt. intros Hc. simpl.
  assert (space1 (b2z c) = false) as ->.
  { unfold space1. rewrite (proj2 (Z.leb_gt (b2z c) 13)), (proj2 (Z.eqb_neq _ 32)) by lia.
    by rewrite andb_false_r. }
  assert (∀ b, space2 (b2z c) b = false ∧ space2 b (b2z c) = false) as H2.
  { intros b. unfold space2. rewrite !(proj2 (Z.eqb_neq (b2z c) _)) by lia. by rewrite andb_false_r. }
  assert (∀ a b, space3 (b2z c) a b = false ∧ space3 a b (b2z c) = false) as H3.
  { intros a b. unfold space3. rewrite !(proj2 (Z.eqb_neq (b2z c) _)) by lia.
    rewrite (proj2 (Z.leb_gt 0x80 (b2z c))) by lia. by rewrite !andb_false_r. }
  split; repeat case_match; try done; naive_solver congruence.
Qed.

Lemma TrimSpace_graphic s : Forall (fun c => graphic c = true) s → TrimSpace s = s.
Proof.
  intros Hs. unfold TrimSpace.
  assert (trim_with space_front (length s) s = s) as ->.
  { destruct s as [|c s]; [done|]. simpl length. cbn [trim_with].
    apply Forall_cons in Hs as [Hc _]. by rewrite (proj1 (space_graphic c s Hc)). }
  apply Forall_reverse in Hs. rewrite <- (length_reverse s).
  rewrite <- (reverse_involutive s) at 3. f_equal. destruct (reverse s) as [|c t]; [done|]. simpl length. cbn [trim_with].
  apply Forall_cons in Hs as [Hc _]. by rewrite (proj2 (space_graphic c t Hc)).
Qed.
Lemma TrimSpace_ends c s d : graphic c = true → graphic d = true → TrimSpace (c :: s ++ [d]) = c :: s ++ [d].
Proof.
  intros Hc Hd. unfold TrimSpace. cbn [length trim_with]. rewrite (proj1 (space_graphic c (s ++ [d]) Hc)).
  change (c :: s ++ [d]) with ((c :: s) ++ [d]). rewrite reverse_snoc, length_app, Nat.add_comm. cbn [length Nat.add trim_with].
  rewrite (proj2 (space_graphic d (reverse (c :: s)) Hd)). by rewrite reverse_cons, reverse_involutive.
Qed.
Lemma TrimSpace_blank s : TrimSpace (z2b 32 :: s) = TrimSpace s.
Proof. done. Qed.

Lemma Split_nonempty s sep : Split s sep ≠ [].
Proof. destruct s as [|c s]; simpl; [done|]. repeat case_match; done. Qed.

Lemma Split_no_sep p sep : sep ∉ p → Split p sep = [p].
Proof.
  induction p as [|c p IH]; intros H; simpl; [done|].
  rewrite decide_False by set_solver. by rewrite IH by set_solver.
Qed.

Lemma Split_app p s sep : sep ∉ p → Split (p ++ sep :: s) sep = p :: Split s sep.
Proof.
  induction p as [|c p IH]; intros H; simpl.
  - by rewrite decide_True.
  - rewrite decide_False by set_solver. by rewrite IH by set_solver.
Qed.

Lemma Join_cons p ps sep : ps ≠ [] → Join (p :: ps) sep = p ++ sep :: Join ps sep.
Proof. by destruct ps. Qed.

Lemma Split_Join ps sep : ps ≠ [] → Forall (fun p => sep ∉ p) ps → Split (Join ps sep) sep = ps.
Proof.
  induction ps as [|p ps IH]; intros Hne H; [done|].
  apply Forall_cons in H as [Hp H]. destruct ps as [|q ps].
  - by apply Split_no_sep.
  - rewrite Join_cons, Split_app by done. by rewrite IH.
Qed.

Lemma Join_Split s sep : Join (Split s sep) sep = s.
Proof.
  induction s as [|c s IH]; simpl; [done|].
  pose proof (Split_nonempty s sep). case_decide as Hc.
  - subst. destruct (Split s sep); [done|]. by rewrite <- IH.
  - destruct (Split s sep) as [|p ps] eqn:E; [done|]. rewrite <- IH. by destruct ps.
Qed.

Lemma Cut_no_sep p sep : sep ∉ p → Cut p sep = (p, [], false).
Proof.
  induction p as [|c p IH]; intros H; simpl; [done|].
  rewrite decide_False by set_solver. by rewrite IH by set_solver.
Qed.
Lemma Cut_app p s sep : sep ∉ p → Cut (p ++ sep :: s) sep = (p, s, true).
Proof.
  induction p as [|c p IH]; intros H; simpl.
  - by rewrite decide_True.
  - rewrite decide_False by set_solver. by rewrite IH by set_solver.
Qed.

Lemma b2z_digit d : 0 ≤ d < 10 → b2z (digit d) = 48 + d.
Proof. intros. apply b2z_z2b_small. lia. Qed.
Lemma is_digit_digit d : 0 ≤ d < 10 → is_digit (digit d) = true.
Proof.
  intros Hd. unfold is_digit. rewrite b2z_digit by done.
  rewrite andb_true_iff, !Z.leb_le. lia.
Qed.

Lemma digits_ok fuel : ∀ n acc, 0 ≤ n → Forall (fun c => is_digit c = true) acc →
  Forall (fun c => is_digit c = true) (digits fuel n acc).
Proof.
  induction fuel as [|fuel IH]; intros n acc Hn Hacc; simpl; [done|].
  destruct (Z.ltb_spec n 10); [constructor; [apply is_digit_digit; lia|done]|].
  pose proof (Z.mod_pos_bound n 10). apply IH; [apply Z.div_pos; lia|].
  constructor; [apply is_digit_digit; lia|done].
Qed.
Lemma digits_nonempty fuel : ∀ n acc, (0 < fuel)%nat ∨ acc ≠ [] → digits fuel n acc ≠ [].
Proof.
  induction fuel as [|fuel IH]; intros n acc H; simpl; [destruct H; [lia|done]|].
  case_match; [done|]. apply IH. by right.
Qed.
Lemma FormatUint_digits n : 0 ≤ n → Forall (fun c => is_digit c = true) (FormatUint n).
Proof. intros. by apply digits_ok. Qed.
Lemma FormatUint_nonempty n : FormatUint n ≠ [].
Proof. apply digits_nonempty. left. lia. Qed.

Lemma digit_graphic c : is_digit c = true → graphic c = true.
Proof.
  unfold is_digit, graphic. rewrite !andb_true_iff, !Z.leb_le, Z.ltb_lt. lia.
Qed.
Lemma FormatUint_graphic n : 0 ≤ n → Forall (fun c => graphic c = true) (FormatUint n).
Proof. intros. eapply Forall_impl; [by apply FormatUint_digits|]. apply digit_graphic. Qed.

Lemma parse_step maxVal a d s :
  0 ≤ d < 10 → 0 ≤ a → a * 10 + d ≤ maxVal → maxVal < 2 ^ 64 →
  parse_loop maxVal a (digit d :: s) = parse_loop maxVal (a * 10 + d) s.
Proof.
  intros Hd Ha Hle Hmax. cbn [parse_loop]. rewrite is_digit_digit by done. cbn [negb].
  rewrite b2z_digit by done. replace (48 + d - 48) with d by lia.
  rewrite (proj2 (Z.leb_gt _ a)) by lia. rewrite wrap_small by lia.
  rewrite (proj2 (Z.ltb_ge _ (a * 10))), (proj2 (Z.ltb_ge maxVal _)) by lia. done.
Qed.

Lemma parse_digits fuel : ∀ n acc maxVal,
  0 ≤ n < 10 ^ Z.of_nat fuel → n ≤ maxVal → maxVal < 2 ^ 64 → (0 < fuel)%nat →
  parse_loop maxVal 0 (digits fuel n acc) = parse_loop maxVal n acc.
Proof.
  induction fuel as [|fuel IH]; intros n acc maxVal Hn Hle Hmax Hf; [lia|]. cbn [digits].
  rewrite Nat2Z.inj_succ, Z.pow_succ_r in Hn by lia.
  destruct (Z.ltb_spec n 10).
  - rewrite parse_step by lia. f_equal.
  - pose proof (Z.div_mod n 10 ltac:(lia)). pose proof (Z.mod_pos_bound n 10).
    assert (0 < fuel)%nat by (destruct fuel; [simpl in Hn|]; lia).
    rewrite IH; [|split; [apply Z.div_pos|apply Z.div_lt_upper_bound]; lia|
      apply Z.div_le_upper_bound; lia|done|done].
    rewrite parse_step by (try apply Z.div_pos; lia). f_equal. lia.
Qed.

Lemma ParseUint_FormatUint n bits :
  0 ≤ n < 2 ^ bits → 0 ≤ bits ≤ 64 → ParseUint (FormatUint n) bits = Some n.
Proof.
  intros Hn Hb. unfold ParseUint. pose proof (FormatUint_nonempty n).
  pose proof (Z.pow_le_mono_r 2 bits 64 ltac:(lia) ltac:(lia)).
  destruct (FormatUint n) eqn:E; [done|]. rewrite <- E. unfold FormatUint.
  rewrite parse_digits; [done|change (10 ^ Z.of_nat 20) with 100000000000000000000; lia|lia..].
Qed.

Lemma FormatUint_no_byte n c : 0 ≤ n → is_digit c = false → c ∉ FormatUint n.
Proof.
  intros Hn Hc Hin. pose proof (FormatUint_digits n Hn) as H.
  rewrite Forall_forall in H. specialize (H c Hin). congruence.
Qed.

Lemma TrimSpace_FormatUint n : 0 ≤ n → TrimSpace (FormatUint n) = FormatUint n.
Proof. intros. by apply TrimSpace_graphic, FormatUint_graphic. Qed.

Lemma parse_loop_range maxVal s : ∀ acc n,
  0 ≤ acc ≤ maxVal → parse_loop maxVal acc s = Some n → 0 ≤ n ≤ maxVal.
Proof.
  induction s as [|c s IH]; intros acc n Hacc; cbn [parse_loop]; [naive_solver lia|].
  destruct (negb _); [done|]. destruct (_ <=? acc); [done|].
  destruct (Z.ltb_spec (u64 (acc * 10 + (b2z c - 48))) (acc * 10)); [done|].
  destruct (Z.ltb_spec maxVal (u64 (acc * 10 + (b2z c - 48)))); [done|].
  apply IH. lia.
Qed.
Lemma ParseUint_range s bits n : 0 ≤ bits → ParseUint s bits = Some n → 0 ≤ n < 2 ^ bits.
Proof.
  unfold ParseUint. intros Hb. destruct s; [done|]. pose proof (Z.pow_pos_nonneg 2 bits).
  intros Hn%parse_loop_range; lia.
Qed.

(** ** Prefixes and suffixes *)

Lemma HasPrefix_app s p : HasPrefix s p = true ↔ ∃ t, s = p ++ t.
Proof.
  unfold HasPrefix. rewrite bool_decide_eq_true. split.
  - intros Ht. exists (drop (length p) s). rewrite <- Ht at 1. by rewrite take_drop.
  - intros [t ->]. by rewrite take_app_length.
Qed.
Lemma HasPrefix_longer s t p : HasPrefix s p = true → HasPrefix (s ++ t) p = true.
Proof. rewrite !HasPrefix_app. intros [u ->]. exists (u ++ t). by rewrite app_assoc. Qed.
Lemma HasSuffix_last s p : p ≠ [] → HasSuffix s p = true → last s = last p.
Proof.
  unfold HasSuffix. intros Hp [_ Hd%bool_decide_eq_true]%andb_true_iff. rewrite <- (take_drop (length s - length p) s), Hd, last_app.
  destruct (last p) eqn:El; [done|]. by apply last_None in El.
Qed.
