(* ===== verification/Wire.v ===== *)
(** * Byte-level encoding shared by the WUSP codecs

    The variable-length integers of Go's package encoding/binary as
    [wbuf]/[rbuf] (src/internal/wusp/interface.go) and
    [uspTransportBuffer]/[uspTransportReader]
    (src/internal/wusp/usp_transport.go) use them, and the [wbuf]/[rbuf]
    primitives themselves.  A writer method is modelled by the bytes it appends
    to the buffer; a reader method is a function from the unread suffix of the
    input to a value and the new suffix. *)

From S2P Require Import Prelude.

(** ** Error values of package wusp *)

Inductive werr : Type :=
| ErrBadMagic
| ErrBadVersion
| ErrTruncated
| ErrUnknownTag
| ErrUnexpectedEOF
| ErrUvarintOverflow
| ErrNestingTooDeep
| ErrLz4SizeRange
| ErrLz4ZeroOffset
| ErrLz4SizeMismatch
| ErrTransportMalformed (what : string)
| ErrTransportUnsupported (what : string)
| ErrTransportMethodRequired
| ErrValidation (reason : string).

#[export] Instance werr_eq_dec : EqDecision werr.
Proof. solve_decision. Defined.

(** ** binary.PutUvarint and binary.Uvarint *)

Fixpoint put_uvarint_loop (fuel : nat) (x : Z) : bytes :=
  match fuel with
  | O => []
  | S fuel =>
      if 0x80 <=? x
      then z2b (Z.lor (b2z (z2b x)) 0x80) :: put_uvarint_loop fuel (Z.shiftr x 7)
      else [z2b x]
  end.

(** The scratch array has 10 bytes, which hold any uint64. *)
Definition PutUvarint (x : Z) : bytes := put_uvarint_loop 10 x.

Fixpoint uvarint_loop (i : Z) (x s : Z) (buf : bytes) : Z * Z :=
  match buf with
  | [] => (0, 0)
  | b :: buf =>
      if i =? 10 then (0, - (i + 1))
      else if b2z b <? 0x80 then
        if (i =? 9) && (1 <? b2z b) then (0, - (i + 1))
        else (Z.lor x (u64 (Z.shiftl (b2z b) s)), i + 1)
      else uvarint_loop (i + 1) (Z.lor x (u64 (Z.shiftl (Z.land (b2z b) 0x7f) s)))
             (s + 7) buf
  end.
Definition Uvarint (buf : bytes) : Z * Z := uvarint_loop 0 0 0 buf.

(** ** wbuf: what each writer appends *)

Definition writeByte (v : byte) : bytes := [v].
Definition writeUvarint (v : Z) : bytes := PutUvarint v.
Definition writeZigzag (v : Z) : bytes :=
  writeUvarint (u64 (Z.lxor (i64 (Z.shiftl v 1)) (Z.shiftr v 63))).
Definition writeBlob (data : bytes) : bytes :=
  writeUvarint (Z.of_nat (length data)) ++ data.
Definition writeStr (s : bytes) : bytes :=
  writeUvarint (Z.of_nat (length s)) ++ s.

(** ** rbuf: readers over the unread suffix *)

Definition rd (A : Type) : Type := bytes → res werr (A * bytes).

#[export] Instance rd_ret : MRet rd := fun A a b => Ok (a, b).
#[export] Instance rd_bind : MBind rd := fun A B f m b =>
  match m b with Ok (a, b') => f a b' | Err e => Err e | Panic => Panic end.

#[export] Instance rd_fmap : FMap rd := fun A B f m b =>
  match m b with Ok (a, b') => Ok (f a, b') | Err e => Err e | Panic => Panic end.

Definition rd_fail {A} (e : werr) : rd A := fun _ => Err e.

Definition readByte : rd byte := fun b =>
  match b with [] => Err ErrUnexpectedEOF | v :: b => Ok (v, b) end.

Definition readN (n : Z) : rd bytes := fun b =>
  if (n <? 0) || (Z.of_nat (length b) <? n) then Err ErrUnexpectedEOF
  else Ok (take (Z.to_nat n) b, drop (Z.to_nat n) b).

Definition readUvarint : rd Z := fun b =>
  let '(v, n) := Uvarint b in
  if n =? 0 then Err ErrUnexpectedEOF
  else if n <? 0 then Err ErrUvarintOverflow
  else Ok (v, drop (Z.to_nat n) b).

Definition readZigzag : rd Z :=
  u ← readUvarint;
  mret (i64 (Z.lxor (Z.shiftr u 1) (u64 (- (Z.land u 1))))).

Definition readBlob : rd bytes :=
  n ← readUvarint;
  ((fun b => if Z.of_nat (length b) <? n then Err ErrUnexpectedEOF else readN n b) : rd bytes).

Definition readStr : rd bytes := readBlob.

(** [n] repetitions of a reader ([for i := 0; i < n; i++]). *)
Fixpoint rd_repeat {A} (n : nat) (m : rd A) : rd (list A) :=
  match n with
  | O => mret []
  | S n => x ← m; xs ← rd_repeat n m; mret (x :: xs)
  end.

(** ** Lemmas *)

Lemma byte_high_bit b :
  128 ≤ Z.lor (b2z b) 128 < 256 ∧ Z.land (Z.lor (b2z b) 128) 127 = b2z b mod 128.
Proof. destruct b; vm_compute; repeat split; congruence. Qed.

Lemma split_low7 v :
  v = Z.lor (v mod 128) (Z.shiftl (Z.shiftr v 7) 7).
Proof.
  change 128 with (2 ^ 7). rewrite <- Z.land_ones by lia.
  apply Z.bits_inj'. intros n Hn. rewrite Z.lor_spec, Z.land_spec.
  destruct (decide (n < 7)).
  - rewrite Z.ones_spec_low, Z.shiftl_spec_low by lia. by rewrite andb_true_r, orb_false_r.
  - rewrite Z.ones_spec_high by lia. rewrite andb_false_r. simpl.
    rewrite Z.shiftl_spec, Z.shiftr_spec by lia. f_equal. lia.
Qed.

Lemma uvarint_loop_put k : ∀ i x v rest,
  0 ≤ i ≤ 9 → k = Z.to_nat (10 - i) → 0 ≤ v < 2 ^ (64 - 7 * i) →
  uvarint_loop i x (7 * i) (put_uvarint_loop k v ++ rest) =
    (Z.lor x (Z.shiftl v (7 * i)), i + Z.of_nat (length (put_uvarint_loop k v))).
Proof.
  induction k as [|k IH]; intros i x v rest Hi Hk Hv; [lia|]. simpl.
  assert (∀ w, 0 ≤ w ≤ v → u64 (Z.shiftl w (7 * i)) = Z.shiftl w (7 * i)) as Hs.
  { intros w Hw. apply wrap_small. rewrite Z.shiftl_mul_pow2 by lia.
    assert (2 ^ 64 = 2 ^ (64 - 7 * i) * 2 ^ (7 * i)) as ->
      by (rewrite <- Z.pow_add_r by lia; f_equal; lia).
    pose proof (Z.pow_pos_nonneg 2 (7 * i)). nia. }
  destruct (Z.leb_spec 0x80 v) as [Hge|Hlt]; simpl.
  - pose proof (byte_high_bit (z2b v)) as [Hb Hl].
    rewrite (proj2 (Z.eqb_neq i 10)) by lia.
    rewrite b2z_z2b_small by lia. rewrite (proj2 (Z.ltb_ge _ 0x80)) by lia.
    assert (i ≠ 9). { intros ->. change (2 ^ (64 - 7 * 9)) with 2 in Hv. lia. }
    rewrite Hl, b2z_z2b. unfold wrap at 2. change (2 ^ 8) with (128 * 2).
    rewrite Z.rem_mul_r, Z.mul_comm, Z.mod_add, Z.mod_mod by lia.
    rewrite Hs by (pose proof (Z.mod_pos_bound v 128); pose proof (Z.mod_le v 128); lia).
    replace (7 * i + 7) with (7 * (i + 1)) by lia.
    rewrite IH; [|lia|lia|].
    + f_equal; [|lia]. rewrite <- Z.lor_assoc. f_equal.
      rewrite (split_low7 v) at 3. rewrite Z.shiftl_lor. f_equal.
      rewrite Z.shiftl_shiftl by lia. f_equal. lia.
    + rewrite Z.shiftr_div_pow2 by lia. split; [apply Z.div_pos; lia|].
      apply Z.div_lt_upper_bound; [lia|].
      rewrite <- Z.pow_add_r by lia. replace (7 + (64 - 7 * (i + 1))) with (64 - 7 * i) by lia. lia.
  - rewrite (proj2 (Z.eqb_neq i 10)) by lia. rewrite b2z_z2b_small by lia.
    rewrite (proj2 (Z.ltb_lt v 0x80)) by lia.
    destruct (Z.eqb_spec i 9) as [->|?]; simpl.
    + change (2 ^ (64 - 7 * 9)) with 2 in Hv. rewrite (proj2 (Z.ltb_ge 1 v)) by lia.
      rewrite Hs by lia. done.
    + rewrite Hs by lia. done.
Qed.

Lemma Uvarint_put v rest :
  0 ≤ v < 2 ^ 64 →
  Uvarint (PutUvarint v ++ rest) = (v, Z.of_nat (length (PutUvarint v))).
Proof.
  intros Hv. unfold Uvarint, PutUvarint.
  pose proof (uvarint_loop_put 10 0 0 v rest ltac:(lia) eq_refl Hv) as H.
  rewrite Z.mul_0_r, Z.shiftl_0_r, Z.lor_0_l in H. exact H.
Qed.

Lemma length_PutUvarint v : (1 ≤ length (PutUvarint v) ≤ 10)%nat.
Proof.
  unfold PutUvarint.
  assert (∀ k x, (0 < k → 1 ≤ length (put_uvarint_loop k x) ≤ k)%nat) as H; [|apply H; lia].
  intros k. induction k as [|k IH]; intros x Hk; simpl; [lia|].
  destruct (_ <=? _); simpl; [|lia].
  destruct k as [|k]; simpl; [lia|]. specialize (IH (Z.shiftr x 7)). simpl in IH. lia.
Qed.

Lemma readUvarint_write v rest :
  0 ≤ v < 2 ^ 64 → readUvarint (writeUvarint v ++ rest) = Ok (v, rest).
Proof.
  intros Hv. unfold readUvarint, writeUvarint. rewrite Uvarint_put by done.
  pose proof (length_PutUvarint v).
  rewrite (proj2 (Z.eqb_neq _ 0)), (proj2 (Z.ltb_ge _ 0)) by lia.
  by rewrite Nat2Z.id, drop_app_length.
Qed.

Lemma readN_app l rest : readN (Z.of_nat (length l)) (l ++ rest) = Ok (l, rest).
Proof.
  unfold readN. rewrite length_app.
  rewrite (proj2 (Z.ltb_ge _ 0)), (proj2 (Z.ltb_ge _ (Z.of_nat (length l)))) by lia. simpl.
  by rewrite Nat2Z.id, take_app_length, drop_app_length.
Qed.

Lemma readBlob_write d rest :
  Z.of_nat (length d) < 2 ^ 64 → readBlob (writeBlob d ++ rest) = Ok (d, rest).
Proof.
  intros Hd. unfold readBlob, writeBlob, mbind, rd_bind. rewrite <- app_assoc.
  rewrite readUvarint_write by lia. rewrite length_app.
  rewrite (proj2 (Z.ltb_ge _ _)) by lia. apply readN_app.
Qed.

Lemma lxor_ones a n : 0 ≤ n → 0 ≤ a < 2 ^ n → Z.lxor a (2 ^ n - 1) = 2 ^ n - 1 - a.
Proof.
  intros Hn Ha. replace (2 ^ n - 1) with (Z.ones n) by (rewrite Z.ones_equiv; lia).
  rewrite (Z.sub_nocarry_ldiff (Z.ones n) a).
  - apply Z.bits_inj'. intros k Hk. rewrite Z.lxor_spec, Z.ldiff_spec.
    destruct (decide (k < n)).
    + rewrite Z.ones_spec_low by lia. by destruct (Z.testbit a k).
    + rewrite Z.ones_spec_high by lia.
      assert (Z.testbit a k = false) as ->; [|done].
      destruct (decide (a = 0)) as [->|]; [apply Z.bits_0|].
      apply Z.bits_above_log2; [lia|]. apply Z.log2_lt_pow2; [lia|].
      apply Z.lt_le_trans with (2 ^ n); [lia|]. apply Z.pow_le_mono_r; lia.
  - apply Z.bits_inj'. intros k Hk. rewrite Z.ldiff_spec, Z.bits_0.
    destruct (decide (k < n)).
    + rewrite Z.ones_spec_low by lia. apply andb_false_r.
    + destruct (decide (a = 0)) as [->|]; [by rewrite Z.bits_0|].
      rewrite Z.bits_above_log2; [done|lia|]. apply Z.log2_lt_pow2; [lia|].
      apply Z.lt_le_trans with (2 ^ n); [lia|]. apply Z.pow_le_mono_r; lia.
Qed.

(** The zigzag code word of an int64 and its inverse. *)
Lemma zigzag_word v :
  - 2 ^ 63 ≤ v < 2 ^ 63 →
  u64 (Z.lxor (i64 (Z.shiftl v 1)) (Z.shiftr v 63)) = if v <? 0 then -2 * v - 1 else 2 * v.
Proof.
  intros Hv. rewrite Z.shiftl_mul_pow2, Z.shiftr_div_pow2 by lia.
  destruct (Z.ltb_spec v 0).
  - assert (v / 2 ^ 63 = -1) as -> by (symmetry; apply Z.div_unique with (v + 2 ^ 63); lia).
    rewrite Z.lxor_m1_r. unfold Z.lnot. unfold wrap, swrap.
    change (2 ^ 1) with 2. change (64 - 1) with 63.
    symmetry. apply Z.mod_unique with ((v * 2 + 2 ^ 63) / 2 ^ 64); [lia|].
    rewrite (Z.mod_eq (v * 2 + 2 ^ 63)) by lia. lia.
  - rewrite Z.div_small, Z.lxor_0_r by lia. unfold wrap, swrap. change (2 ^ 1) with 2.
    symmetry. apply Z.mod_unique with (- ((v * 2 + 2 ^ 63) / 2 ^ 64)); [lia|].
    change (64 - 1) with 63. rewrite (Z.mod_eq (v * 2 + 2 ^ 63)) by lia. lia.
Qed.

Lemma land_1 u : Z.land u 1 = u mod 2.
Proof. apply (Z.land_ones u 1). lia. Qed.

Lemma readZigzag_write v rest :
  - 2 ^ 63 ≤ v < 2 ^ 63 → readZigzag (writeZigzag v ++ rest) = Ok (v, rest).
Proof.
  intros Hv. unfold readZigzag, writeZigzag, mbind, rd_bind.
  rewrite readUvarint_write by (apply wrap_range; lia). rewrite zigzag_word by done.
  unfold mret, rd_ret. do 2 f_equal. rewrite Z.shiftr_div_pow2 by lia.
  rewrite land_1. change (2 ^ 1) with 2.
  destruct (Z.ltb_spec v 0).
  - assert ((-2 * v - 1) mod 2 = 1) as ->
      by (symmetry; apply Z.mod_unique with (- v - 1); lia).
    assert ((-2 * v - 1) / 2 = - v - 1) as ->
      by (symmetry; apply Z.div_unique with 1; lia).
    change (u64 (- (1))) with (2 ^ 64 - 1). rewrite lxor_ones by lia.
    unfold swrap. change (64 - 1) with 63.
    assert ((2 ^ 64 - 1 - (- v - 1) + 2 ^ 63) mod 2 ^ 64 = v + 2 ^ 63) as ->; [|lia].
    symmetry. apply Z.mod_unique with 1; lia.
  - rewrite (Z.mul_comm 2 v), Z.mod_mul, Z.div_mul by lia.
    change (u64 (- (0))) with 0. rewrite Z.lxor_0_r. apply swrap_small; lia.
Qed.

(** Reading back a list of items written one after the other; [P] is a
    condition on the unread length that shorter inputs inherit. *)
Lemma rd_repeat_Forall2 {A} (m : rd A) (P : nat → Prop) (l : list A) (es : list bytes) rest :
  (∀ n k, P n → (k ≤ n)%nat → P k) →
  Forall2 (fun x e => ∀ r, P (length (e ++ r)) → m (e ++ r) = Ok (x, r)) l es →
  P (length (concat es ++ rest)) →
  rd_repeat (length l) m (concat es ++ rest) = Ok (l, rest).
Proof.
  intros Hmono. induction 1 as [|x e l es Hx Hes IH]; intros HP; [done|].
  simpl in *. unfold mbind, rd_bind. rewrite <- app_assoc in *. rewrite Hx by done.
  rewrite IH; [done|]. eapply Hmono; [exact HP|]. rewrite (length_app e). lia.
Qed.

Lemma rd_repeat_ok {A} (m : rd A) (enc : A → bytes) (l : list A) rest :
  (∀ x r, x ∈ l → m (enc x ++ r) = Ok (x, r)) →
  rd_repeat (length l) m (concat (enc <$> l) ++ rest) = Ok (l, rest).
Proof.
  intros H. apply rd_repeat_Forall2 with (P := fun _ => True); [done| |done].
  apply Forall2_fmap_r, Forall_Forall2_diag, Forall_forall. intros x Hx r _. by apply H.
Qed.

(** A reader that consumes input only from the front and never panics. *)
Definition rd_safe (P : nat → Prop) {A} (m : rd A) : Prop :=
  ∀ b, P (length b) → m b ≠ Panic ∧ ∀ a b', m b = Ok (a, b') → (length b' ≤ length b)%nat.

Section Safe.
Context (P : nat → Prop) (Hmono : ∀ n k, P n → (k ≤ n)%nat → P k).

Lemma rd_safe_ret {A} (a : A) : rd_safe P (mret a).
Proof. intros b _. split; [done|]. intros ?? [= _ <-]. lia. Qed.
Lemma rd_safe_fail {A} e : rd_safe P (rd_fail (A := A) e).
Proof. by intros b _. Qed.
Lemma rd_safe_bind {A B} (m : rd A) (k : A → rd B) :
  rd_safe P m → (∀ a, rd_safe P (k a)) → rd_safe P (m ≫= k).
Proof.
  intros Hm Hk b Hb. unfold mbind, rd_bind. destruct (Hm b Hb) as [Hp Hl].
  destruct (m b) as [[a b']|e|]; [|done|done]. specialize (Hl _ _ eq_refl).
  destruct (Hk a b') as [Hp' Hl']; [by eapply Hmono|].
  split; [done|]. intros a' b'' E. specialize (Hl' _ _ E). lia.
Qed.
Lemma rd_safe_repeat {A} n (m : rd A) : rd_safe P m → rd_safe P (rd_repeat n m).
Proof.
  intros Hm. induction n as [|n IH]; simpl; [apply rd_safe_ret|].
  apply rd_safe_bind; [done|]. intros x. apply rd_safe_bind; [done|].
  intros xs. apply rd_safe_ret.
Qed.
Lemma rd_safe_byte : rd_safe P readByte.
Proof. intros [|v b] _; simpl; split; try done. intros ?? [= _ <-]. lia. Qed.
Lemma rd_safe_N n : rd_safe P (readN n).
Proof.
  intros b _. unfold readN. destruct (_ || _); [done|]. split; [done|].
  intros ?? [= _ <-]. rewrite length_drop. lia.
Qed.
Lemma rd_safe_uvarint : rd_safe P readUvarint.
Proof.
  intros b _. unfold readUvarint. destruct (Uvarint b) as [v n].
  destruct (n =? 0); [done|]. destruct (n <? 0); [done|]. split; [done|].
  intros ?? [= _ <-]. rewrite length_drop. lia.
Qed.
Lemma rd_safe_zigzag : rd_safe P readZigzag.
Proof. apply rd_safe_bind; [apply rd_safe_uvarint|]. intros; apply rd_safe_ret. Qed.
Lemma rd_safe_blob : rd_safe P readBlob.
Proof.
  apply rd_safe_bind; [apply rd_safe_uvarint|]. intros n b Hb.
  destruct (_ <? _); [done|]. by apply rd_safe_N.
Qed.
End Safe.

(** A postcondition of a reader's result. *)
Definition rd_post {A} (m : rd A) (Q : A → Prop) : Prop :=
  ∀ b a b', m b = Ok (a, b') → Q a.

Lemma rd_post_ret {A} (a : A) (Q : A → Prop) : Q a → rd_post (mret a) Q.
Proof. intros H b ?? [= <- _]. done. Qed.
Lemma rd_post_fail {A} e (Q : A → Prop) : rd_post (rd_fail e) Q.
Proof. by intros ???. Qed.
Lemma rd_post_bind {A B} (m : rd A) (k : A → rd B) (R : A → Prop) (Q : B → Prop) :
  rd_post m R → (∀ a, R a → rd_post (k a) Q) → rd_post (m ≫= k) Q.
Proof.
  intros Hm Hk b y b'. unfold mbind, rd_bind.
  destruct (m b) as [[a c]|e|] eqn:E; [|done|done]. apply Hk. by eapply Hm.
Qed.
Lemma rd_post_true {A} (m : rd A) : rd_post m (fun _ => True).
Proof. done. Qed.
Lemma rd_post_repeat {A} n (m : rd A) (Q : A → Prop) :
  rd_post m Q → rd_post (rd_repeat n m) (Forall Q).
Proof.
  intros Hm. induction n as [|n IH]; simpl; [by apply rd_post_ret|].
  eapply rd_post_bind; [exact Hm|]. intros x Hx. eapply rd_post_bind; [exact IH|].
  intros xs Hxs. by apply rd_post_ret, Forall_cons.
Qed.
Lemma rd_post_N n : rd_post (readN n) (fun l => Z.of_nat (length l) = n).
Proof.
  intros b l b'. unfold readN. destruct (Z.ltb_spec n 0); [done|].
  destruct (Z.ltb_spec (Z.of_nat (length b)) n); [done|]. simpl. intros [= <- _].
  rewrite length_take. lia.
Qed.
Lemma uvarint_loop_nonneg buf : ∀ i x s, 0 ≤ x → 0 ≤ fst (uvarint_loop i x s buf).
Proof.
  induction buf as [|b buf IH]; intros i x s Hx; simpl; [lia|].
  assert (∀ z, 0 ≤ Z.lor x (u64 z)).
  { intros z. apply Z.lor_nonneg. split; [done|]. apply wrap_range. lia. }
  destruct (i =? 10); [simpl; lia|]. destruct (_ <? 0x80); [destruct (_ && _); simpl; auto with lia|].
  by apply IH.
Qed.
Lemma rd_post_uvarint : rd_post readUvarint (fun v => 0 ≤ v).
Proof.
  intros b v b'. unfold readUvarint, Uvarint.
  pose proof (uvarint_loop_nonneg b 0 0 0 ltac:(lia)) as H.
  destruct (uvarint_loop 0 0 0 b) as [v' n]. simpl in H.
  destruct (n =? 0); [done|]. destruct (n <? 0); [done|]. by intros [= <- _].
Qed.
Lemma rd_post_zigzag : rd_post readZigzag (fun v => - 2 ^ 63 ≤ v < 2 ^ 63).
Proof.
  eapply rd_post_bind; [apply rd_post_true|]. intros u _. apply rd_post_ret.
  apply (swrap_range 64). lia.
Qed.

Create HintDb wire.
#[export] Hint Resolve rd_safe_ret rd_safe_fail rd_safe_bind rd_safe_repeat rd_safe_byte
  rd_safe_N rd_safe_uvarint rd_safe_zigzag rd_safe_blob rd_post_ret rd_post_fail rd_post_true
  rd_post_N rd_post_uvarint rd_post_zigzag rd_post_repeat : wire.
