(* ===== verification/Lz4.v ===== *)
(** * The LZ4 block codec of package wusp

    [lz4State.compress], [lz4WriteLen] and [lz4State.decompress] of
    src/internal/wusp/interface.go.  The output array [dst] is represented by
    its written prefix: [op] is the length of that prefix, a write beyond the
    allocated [bound] panics.  Positions are [nat], the hash table holds int32
    values as in the source. *)

From S2P Require Import Prelude Wire.
From Stdlib Require Import Strings.Byte.

Definition lz4HashLog : Z := 12.
Definition lz4MinMatch : nat := 4.
Definition lz4LastLits : nat := 5.
Definition lz4MFLimit : nat := lz4MinMatch + lz4LastLits.
Definition maxDecodedPayload : Z := Z.shiftl 16 20.

Definition b2n (b : byte) : nat := Z.to_nat (b2z b).

(** ** Compression *)

Definition lz4hash4 (b : bytes) : res werr Z :=
  match b with
  | b0 :: b1 :: b2 :: b3 :: _ =>
      let v := Z.lor (Z.lor (Z.lor (b2z b0) (Z.shiftl (b2z b1) 8))
                 (Z.shiftl (b2z b2) 16)) (Z.shiftl (b2z b3) 24) in
      Ok (Z.shiftr (u32 (v * 2654435761)) (32 - lz4HashLog))
  | _ => Panic
  end.

(** [dst[op] = b; op++] *)
Definition dst_put (bound : nat) (out : bytes) (b : byte) : res werr bytes :=
  if (length out <? bound)%nat then Ok (out ++ [b]) else Panic.

(** [copy(dst[op:], l); op += len(l)] *)
Definition dst_copy (bound : nat) (out : bytes) (l : bytes) : res werr bytes :=
  if (length out + length l <=? bound)%nat then Ok (out ++ l) else Panic.

Fixpoint lz4_write_overflow (fuel : nat) (bound : nat) (out : bytes) (rem : nat)
    : res werr bytes :=
  match fuel with
  | O => Panic
  | S fuel =>
      if (255 <=? rem)%nat
      then out ← dst_put bound out xff; lz4_write_overflow fuel bound out (rem - 255)
      else dst_put bound out (z2b (Z.of_nat rem))
  end.

Definition lz4WriteLen (bound : nat) (out : bytes) (tok : nat) (isHigh : bool)
    (len : nat) : res werr bytes :=
  p ← (if (15 <=? len)%nat
       then out ← lz4_write_overflow (S len) bound out (len - 15); Ok (15, out)
       else Ok (Z.of_nat len, out));
  let '(nibble, out) := p in
  match out !! tok with
  | Some t =>
      Ok (<[tok := if isHigh
                   then z2b (Z.lor (Z.land (b2z t) 0x0F) (Z.shiftl nibble 4))
                   else z2b (Z.lor (Z.land (b2z t) 0xF0) nibble)]> out)
  | None => Panic
  end.

(** Same four bytes at two positions. *)
Definition eq4 (src : bytes) (i j : nat) : bool :=
  forallb (fun k => bool_decide (src !! (i + k)%nat = src !! (j + k)%nat)) [0; 1; 2; 3]%nat.

(** [for ml < maxML && src[ip+ml] == src[ref+ml] { ml++ }] *)
Fixpoint match_len (fuel : nat) (src : bytes) (ip ref ml maxML : nat) : nat :=
  match fuel with
  | O => ml
  | S fuel =>
      if (ml <? maxML)%nat && bool_decide (src !! (ip + ml)%nat = src !! (ref + ml)%nat)
      then match_len fuel src ip ref (S ml) maxML
      else ml
  end.

(** One match: token, literal length, literals, offset, match length. *)
Definition emit_sequence (bound : nat) (src out : bytes) (anchor ip ref ml : nat)
    : res werr bytes :=
  let litLen := (ip - anchor)%nat in
  let tok := length out in
  out ← dst_put bound out x00;
  out ← lz4WriteLen bound out tok true litLen;
  out ← dst_copy bound out (take litLen (drop anchor src));
  out ← dst_copy bound out (le_put 2 (u16 (Z.of_nat (ip - ref))));
  lz4WriteLen bound out tok false (ml - lz4MinMatch).

(** The closing literal run. *)
Definition emit_last (bound : nat) (src out : bytes) (anchor : nat) : res werr bytes :=
  let litLen := (length src - anchor)%nat in
  let tok := length out in
  out ← dst_put bound out x00;
  out ← lz4WriteLen bound out tok true litLen;
  dst_copy bound out (drop anchor src).

Fixpoint compress_loop (fuel : nat) (bound limit : nat) (src : bytes)
    (table : gmap Z Z) (ip anchor : nat) (out : bytes) : res werr (nat * bytes) :=
  if (limit <? ip)%nat then Ok (anchor, out) else
  match fuel with
  | O => Panic
  | S fuel =>
      h ← lz4hash4 (drop ip src);
      let ref := default 0 (table !! h) - 1 in
      let table := <[h := i32 (Z.of_nat ip + 1)]> table in
      if (0 <=? ref) && (ref <? Z.of_nat ip) && (Z.of_nat ip - ref <=? 65535)
         && eq4 src (Z.to_nat ref) ip
      then
        let ref := Z.to_nat ref in
        let maxML := Nat.min (length src - ip) (Z.to_nat 65535 + lz4MinMatch) in
        let ml := match_len (length src) src ip ref lz4MinMatch maxML in
        out ← emit_sequence bound src out anchor ip ref ml;
        let ip := (ip + ml)%nat in
        table ← (if (ip <=? limit)%nat
                 then h ← lz4hash4 (drop ip src); Ok (<[h := i32 (Z.of_nat ip + 1)]> table)
                 else Ok table);
        compress_loop fuel bound limit src table ip ip out
      else compress_loop fuel bound limit src table (S ip) anchor out
  end.

(** [None] is the nil result: not worth compressing. *)
Definition lz4_compress (src : bytes) : res werr (option bytes) :=
  if (length src <? lz4MFLimit + 1)%nat then Ok None else
  let bound := (length src + length src / 255 + 16)%nat in
  let limit := (length src - lz4MFLimit)%nat in
  p ← compress_loop (S (length src)) bound limit src ∅ 0 0 [];
  let '(anchor, out) := p in
  out ← emit_last bound src out anchor;
  Ok (if (length src <=? length out)%nat then None else Some out).

(** ** Decompression *)

(** The run of extra length bytes after a nibble of 15. *)
Fixpoint read_ext (src : bytes) (len : nat) : res werr (nat * bytes) :=
  match src with
  | [] => Err ErrTruncated
  | extra :: src =>
      let len := (len + b2n extra)%nat in
      if b2z extra <? 255 then Ok (len, src) else read_ext src len
  end.

Definition read_len (nibble : nat) (src : bytes) : res werr (nat * bytes) :=
  if (nibble =? 15)%nat then read_ext src nibble else Ok (nibble, src).

(** [for i := 0; i < ml; i++ { dst[op+i] = dst[mSrc+i] }] *)
Fixpoint copy_match (n : nat) (offset : nat) (out : bytes) : res werr bytes :=
  match n with
  | O => Ok out
  | S n =>
      match out !! (length out - offset)%nat with
      | Some b => copy_match n offset (out ++ [b])
      | None => Panic
      end
  end.

Fixpoint decompress_loop (fuel : nat) (src : bytes) (rawSize : nat) (out : bytes)
    : res werr bytes :=
  match src with
  | [] => Ok out
  | tok :: src =>
    match fuel with
    | O => Panic
    | S fuel =>
      p ← read_len (Z.to_nat (Z.shiftr (b2z tok) 4)) src;
      let '(litLen, src) := p in
      if (length src <? litLen)%nat || (rawSize <? length out + litLen)%nat
      then Err ErrTruncated else
      let out := out ++ take litLen src in
      match drop litLen src with
      | [] => Ok out
      | o0 :: o1 :: src =>
          let offset := Z.to_nat (le_get [o0; o1]) in
          if (offset =? 0)%nat then Err ErrLz4ZeroOffset else
          p ← read_len (Z.to_nat (Z.land (b2z tok) 0x0F)) src;
          let '(n, src) := p in
          let ml := (n + lz4MinMatch)%nat in
          if (length out <? offset)%nat || (rawSize <? length out + ml)%nat
          then Err ErrTruncated
          else out ← copy_match ml offset out; decompress_loop fuel src rawSize out
      | _ => Err ErrTruncated
      end
    end
  end.

Definition lz4_decompress (src : bytes) (rawSize : Z) : res werr bytes :=
  if (rawSize <? 0) || (maxDecodedPayload <? rawSize)
     || (Z.of_nat (length src) * 255 + 64 <? rawSize)
  then Err ErrLz4SizeRange else
  out ← decompress_loop (S (length src)) src (Z.to_nat rawSize) [];
  if Z.of_nat (length out) =? rawSize then Ok out else Err ErrLz4SizeMismatch.

Example lz4_ex :
  let src := bs "abcabcabcabcabcabcabcabcabcabcabc-abcabcabcabcabc" in
  ∃ c, lz4_compress src = Ok (Some c) ∧ (length c < length src)%nat ∧
       lz4_decompress c (Z.of_nat (length src)) = Ok src.
Proof. eexists. vm_compute. repeat split; try reflexivity; lia. Qed.

(** ** The format, declaratively *)

Module Format.

(** Length bytes after a nibble of 15, and the nibble itself. *)
Definition ext (rem : nat) : bytes :=
  replicate (rem / 255) xff ++ [z2b (Z.of_nat (rem mod 255))].
Definition enc_len (n : nat) : bytes := if (15 <=? n)%nat then ext (n - 15) else [].
Definition nib (n : nat) : nat := Nat.min n 15.
Definition token (l m : nat) : byte := z2b (Z.of_nat (16 * nib l + nib m)).

(** A sequence: literals, then a match of length [m + 4] at distance [off]. *)
Definition lz4_seq (lits : bytes) (off m : nat) : bytes :=
  token (length lits) m :: enc_len (length lits) ++ lits ++
    le_put 2 (Z.of_nat off) ++ enc_len m.
Definition lz4_last (lits : bytes) : bytes :=
  token (length lits) 0 :: enc_len (length lits) ++ lits.

End Format.
Import Format.

Lemma length_ext rem : length (ext rem) = S (rem / 255).
Proof. unfold ext. rewrite length_app, length_replicate. simpl. lia. Qed.
Lemma length_enc_len n :
  length (enc_len n) = if (15 <=? n)%nat then S ((n - 15) / 255) else O.
Proof. unfold enc_len. destruct (_ <=? _)%nat; [apply length_ext|done]. Qed.

Lemma ext_step rem : (255 ≤ rem)%nat → ext rem = xff :: ext (rem - 255).
Proof.
  intros H. unfold ext.
  assert (rem / 255 = S ((rem - 255) / 255))%nat as ->.
  { rewrite <- (Nat.div_add_l 1) by lia. f_equal. lia. }
  assert (rem mod 255 = (rem - 255) mod 255)%nat as ->; [|done].
  replace rem with (rem - 255 + 1 * 255)%nat at 1 by lia. apply Nat.Div0.mod_add.
Qed.
Lemma ext_base rem : (rem < 255)%nat → ext rem = [z2b (Z.of_nat rem)].
Proof. intros. unfold ext. by rewrite Nat.div_small, Nat.mod_small by lia. Qed.

Lemma b2n_z2b n : (n < 256)%nat → b2n (z2b (Z.of_nat n)) = n.
Proof. intros. unfold b2n. rewrite b2z_z2b_small by lia. lia. Qed.

Lemma read_ext_ext rem : ∀ len rest,
  read_ext (ext rem ++ rest) len = Ok ((len + rem)%nat, rest).
Proof.
  induction (lt_wf rem) as [rem _ IH]. intros len rest.
  destruct (decide (255 ≤ rem)%nat) as [Hge|Hlt].
  - rewrite ext_step by done. simpl. change (b2n xff) with 255%nat.
    rewrite IH by lia. do 2 f_equal. lia.
  - rewrite ext_base by lia. simpl. rewrite b2n_z2b by lia.
    rewrite b2z_z2b_small by lia. by rewrite (proj2 (Z.ltb_lt _ 255)) by lia.
Qed.

Lemma read_len_enc n rest : read_len (nib n) (enc_len n ++ rest) = Ok (n, rest).
Proof.
  unfold read_len, enc_len, nib. destruct (Nat.leb_spec 15 n).
  - rewrite Nat.min_r by lia. rewrite read_ext_ext. do 2 f_equal. lia.
  - rewrite Nat.min_l by lia. by rewrite (proj2 (Nat.eqb_neq n 15)) by lia.
Qed.

Lemma token_nibbles l m :
  Z.to_nat (Z.shiftr (b2z (token l m)) 4) = nib l ∧
  Z.to_nat (Z.land (b2z (token l m)) 0x0F) = nib m.
Proof.
  unfold token. assert (nib l ≤ 15 ∧ nib m ≤ 15)%nat as [? ?] by (unfold nib; lia).
  rewrite b2z_z2b_small by lia. rewrite Z.shiftr_div_pow2 by lia.
  change 0x0F with (Z.ones 4). rewrite Z.land_ones by lia. change (2 ^ 4) with 16.
  replace (Z.of_nat (16 * nib l + nib m)) with (Z.of_nat (nib m) + Z.of_nat (nib l) * 16) by lia.
  rewrite Z.div_add, Z.mod_add by lia. rewrite Z.div_small, Z.mod_small by lia. lia.
Qed.

(** *** Writing lengths *)

Lemma write_overflow_ok fuel bound out rem :
  (rem < fuel)%nat → (length out + length (ext rem) ≤ bound)%nat →
  lz4_write_overflow fuel bound out rem = Ok (out ++ ext rem).
Proof.
  revert out rem. induction fuel as [|fuel IH]; intros out rem Hf Hb; [lia|]. simpl.
  unfold dst_put. rewrite length_ext in Hb.
  rewrite (proj2 (Nat.ltb_lt (length out) bound)) by lia.
  destruct (Nat.leb_spec 255 rem).
  - simpl. rewrite IH; [|lia|].
    + rewrite <- app_assoc. by rewrite (ext_step rem) by lia.
    + rewrite length_app, length_ext. simpl.
      assert (rem / 255 = S ((rem - 255) / 255))%nat; [|lia].
      rewrite <- (Nat.div_add_l 1) by lia. f_equal. lia.
  - by rewrite ext_base by lia.
Qed.

Lemma nibble_tokens (h l : nat) :
  (h ≤ 15)%nat → (l ≤ 15)%nat →
  z2b (Z.lor (Z.land (b2z x00) 0x0F) (Z.shiftl (Z.of_nat h) 4)) = z2b (Z.of_nat (16 * h)) ∧
  z2b (Z.lor (Z.land (b2z (z2b (Z.of_nat (16 * h)))) 0xF0) (Z.of_nat l))
    = z2b (Z.of_nat (16 * h + l)).
Proof.
  intros Hh Hl.
  assert (∀ h, h ∈ seqZ 0 16 → ∀ l, l ∈ seqZ 0 16 →
    z2b (Z.lor (Z.land (b2z x00) 0x0F) (Z.shiftl h 4)) = z2b (16 * h) ∧
    z2b (Z.lor (Z.land (b2z (z2b (16 * h))) 0xF0) l) = z2b (16 * h + l)) as H.
  { assert (Forall (fun h => Forall (fun l =>
      z2b (Z.lor (Z.land (b2z x00) 0x0F) (Z.shiftl h 4)) = z2b (16 * h) ∧
      z2b (Z.lor (Z.land (b2z (z2b (16 * h))) 0xF0) l) = z2b (16 * h + l)) (seqZ 0 16))
      (seqZ 0 16)) as H.
    { refine (bool_decide_unpack _ _). vm_compute. exact I. }
    intros h' Hh' l' Hl'. rewrite Forall_forall in H. specialize (H _ Hh').
    rewrite Forall_forall in H. by apply H. }
  specialize (H (Z.of_nat h) ltac:(apply elem_of_seqZ; lia)
    (Z.of_nat l) ltac:(apply elem_of_seqZ; lia)).
  rewrite Nat2Z.inj_add, Nat2Z.inj_mul. exact H.
Qed.

(** [lz4WriteLen] appends the length bytes and patches the token's nibble. *)
Lemma writeLen_ok bound pre t mid isHigh n :
  (length (pre ++ t :: mid) + length (enc_len n) ≤ bound)%nat →
  lz4WriteLen bound (pre ++ t :: mid) (length pre) isHigh n =
    Ok (pre ++ (if isHigh
                then z2b (Z.lor (Z.land (b2z t) 0x0F) (Z.shiftl (Z.of_nat (nib n)) 4))
                else z2b (Z.lor (Z.land (b2z t) 0xF0) (Z.of_nat (nib n))))
            :: mid ++ enc_len n).
Proof.
  intros Hb. unfold lz4WriteLen, enc_len, nib in *. destruct (Nat.leb_spec 15 n).
  - rewrite write_overflow_ok by lia. simpl. rewrite <- app_assoc. simpl.
    rewrite list_lookup_middle by done. rewrite Nat.min_r by lia.
    by rewrite insert_middle.
  - simpl. rewrite list_lookup_middle by done. rewrite app_nil_r, Nat.min_l by lia.
    by rewrite insert_middle.
Qed.

Lemma dst_put_ok bound out b :
  (length out < bound)%nat → dst_put bound out b = Ok (out ++ [b]).
Proof. intros. unfold dst_put. by rewrite (proj2 (Nat.ltb_lt _ _)) by lia. Qed.
Lemma dst_copy_ok bound out l :
  (length out + length l ≤ bound)%nat → dst_copy bound out l = Ok (out ++ l).
Proof. intros. unfold dst_copy. by rewrite (proj2 (Nat.leb_le _ _)) by lia. Qed.

Lemma length_lz4_seq lits off m :
  length (lz4_seq lits off m) =
    (3 + length lits + length (enc_len (length lits)) + length (enc_len m))%nat.
Proof. unfold lz4_seq. rewrite length_cons, !length_app, length_le_put. lia. Qed.
Lemma length_lz4_last lits :
  length (lz4_last lits) = (1 + length lits + length (enc_len (length lits)))%nat.
Proof. unfold lz4_last. simpl. rewrite length_app. lia. Qed.

Lemma emit_sequence_ok bound src out anchor ip ref ml :
  (anchor ≤ ip ≤ length src)%nat → (ref < ip)%nat → (ip - ref ≤ Z.to_nat 65535)%nat →
  let s := lz4_seq (take (ip - anchor) (drop anchor src)) (ip - ref) (ml - 4) in
  (length out + length s ≤ bound)%nat →
  emit_sequence bound src out anchor ip ref ml = Ok (out ++ s).
Proof.
  intros Ha Hr Hd s Hb. unfold emit_sequence, lz4MinMatch.
  set (lits := take (ip - anchor) (drop anchor src)) in *.
  assert (length lits = ip - anchor)%nat as Hl.
  { unfold lits. rewrite length_take, length_drop. lia. }
  unfold s in *. rewrite length_lz4_seq in Hb. rewrite <- Hl.
  rewrite dst_put_ok by lia. simpl.
  rewrite writeLen_ok by (rewrite length_app; simpl; lia). simpl.
  rewrite dst_copy_ok by (rewrite length_app; simpl; rewrite ?length_app; lia). simpl.
  rewrite dst_copy_ok by
    (rewrite !length_app, length_le_put; simpl; rewrite ?length_app; lia). simpl.
  rewrite (wrap_small 16) by lia. rewrite <- !app_assoc. simpl.
  rewrite writeLen_ok by
    (rewrite !length_app; simpl; rewrite ?length_app, ?length_le_put; lia).
  do 2 f_equal. unfold lz4_seq, token. f_equal.
  - destruct (nibble_tokens (nib (length lits)) (nib (ml - 4))) as [E1 E2];
      [unfold nib; lia..|]. by rewrite E1, E2.
  - by rewrite <- !app_assoc.
Qed.

Lemma emit_last_ok bound src out anchor :
  (anchor ≤ length src)%nat →
  (length out + length (lz4_last (drop anchor src)) ≤ bound)%nat →
  emit_last bound src out anchor = Ok (out ++ lz4_last (drop anchor src)).
Proof.
  intros Ha Hb. unfold emit_last. rewrite length_lz4_last in Hb.
  assert (length (drop anchor src) = length src - anchor)%nat as Hl by apply length_drop.
  rewrite <- Hl. rewrite dst_put_ok by lia. simpl.
  rewrite writeLen_ok by (rewrite length_app; simpl; lia). simpl.
  rewrite dst_copy_ok by (rewrite length_app; simpl; rewrite ?length_app; lia).
  rewrite <- app_assoc. simpl. unfold lz4_last, token.
  destruct (nibble_tokens (nib (length (drop anchor src))) 0) as [E1 _]; [unfold nib; lia..|].
  rewrite E1. change (nib 0) with 0%nat. by rewrite Nat.add_0_r.
Qed.

(** *** Decoding a sequence *)

Lemma decompress_seq f lits off m rest raw out :
  (1 ≤ off ≤ Z.to_nat 65535)%nat → (off ≤ length out + length lits)%nat →
  (length out + length lits + (m + 4) ≤ raw)%nat →
  decompress_loop (S f) (lz4_seq lits off m ++ rest) raw out =
    (o ← copy_match (m + 4) off (out ++ lits); decompress_loop f rest raw o).
Proof.
  intros Ho1 Ho2 Hr. unfold lz4_seq. cbn [app decompress_loop].
  destruct (token_nibbles (length lits) m) as [-> ->].
  rewrite <- !app_assoc. rewrite read_len_enc. cbn [mbind res_bind].
  rewrite (proj2 (Nat.ltb_ge _ (length lits))) by (rewrite length_app; lia).
  rewrite (proj2 (Nat.ltb_ge raw _)) by lia. cbn [orb].
  rewrite take_app_length, drop_app_length.
  assert (∃ b0 b1, le_put 2 (Z.of_nat off) = [b0; b1]) as (b0 & b1 & E) by (do 2 eexists; done).
  rewrite E. cbn [app]. rewrite <- E. rewrite le_get_put_small by lia. rewrite Nat2Z.id.
  rewrite (proj2 (Nat.eqb_neq off 0)) by lia. rewrite read_len_enc. cbn [mbind res_bind].
  rewrite length_app. unfold lz4MinMatch.
  rewrite (proj2 (Nat.ltb_ge _ off)), (proj2 (Nat.ltb_ge raw _)) by lia. done.
Qed.

Lemma decompress_last f lits raw out :
  (length out + length lits ≤ raw)%nat →
  decompress_loop (S f) (lz4_last lits) raw out = Ok (out ++ lits).
Proof.
  intros Hr. unfold lz4_last. cbn [decompress_loop].
  destruct (token_nibbles (length lits) 0) as [-> _].
  rewrite read_len_enc. cbn [mbind res_bind].
  rewrite (proj2 (Nat.ltb_ge _ (length lits))), (proj2 (Nat.ltb_ge raw _)) by lia.
  cbn [orb]. by rewrite drop_all, take_ge by lia.
Qed.

(** A match copied from the decoded prefix reproduces the source. *)
Lemma copy_match_prefix src n off pos :
  (1 ≤ off ≤ pos)%nat → (pos + n ≤ length src)%nat →
  (∀ k, (k < n)%nat → src !! (pos + k)%nat = src !! (pos - off + k)%nat) →
  copy_match n off (take pos src) = Ok (take (pos + n) src).
Proof.
  revert pos. induction n as [|n IH]; intros pos Ho Hl Hk; simpl.
  { by rewrite Nat.add_0_r. }
  rewrite length_take, Nat.min_l by lia.
  destruct (lookup_lt_is_Some_2 src pos) as [b Hb]; [lia|].
  assert (take pos src !! (pos - off)%nat = Some b) as ->.
  { rewrite lookup_take_lt by lia. specialize (Hk 0%nat). rewrite !Nat.add_0_r in Hk.
    rewrite <- Hk by lia. done. }
  rewrite <- (take_S_r _ _ _ Hb). rewrite IH; [do 2 f_equal; lia|lia|lia|].
  intros k ?. specialize (Hk (S k)).
  replace (S pos + k)%nat with (pos + S k)%nat by lia.
  replace (S pos - off + k)%nat with (pos - off + S k)%nat by lia. apply Hk. lia.
Qed.

Lemma match_len_spec fuel src ip ref ml maxML :
  (ml ≤ maxML)%nat →
  (∀ k, (k < ml)%nat → src !! (ip + k)%nat = src !! (ref + k)%nat) →
  let r := match_len fuel src ip ref ml maxML in
  (ml ≤ r ≤ maxML)%nat ∧ ∀ k, (k < r)%nat → src !! (ip + k)%nat = src !! (ref + k)%nat.
Proof.
  revert ml. induction fuel as [|fuel IH]; intros ml Hm Hk; simpl; [auto with lia|].
  destruct (Nat.ltb_spec ml maxML); simpl; [|auto with lia].
  case_bool_decide as Heq; [|auto with lia].
  destruct (IH (S ml)) as [? ?]; [lia| |split; [lia|done]].
  intros k ?. destruct (decide (k = ml)) as [->|]; [done|apply Hk; lia].
Qed.

Lemma eq4_spec src i j :
  eq4 src i j = true → ∀ k, (k < 4)%nat → src !! (i + k)%nat = src !! (j + k)%nat.
Proof.
  unfold eq4. simpl. rewrite !andb_true_iff, !bool_decide_eq_true. intros H k Hk.
  destruct k as [|[|[|[|k]]]]; [tauto..|lia].
Qed.

Lemma lz4hash4_ok b : (4 ≤ length b)%nat → ∃ h, lz4hash4 b = Ok h.
Proof. destruct b as [|? [|? [|? [|? ?]]]]; simpl; [lia..|eauto]. Qed.

(** What the encoder has emitted for the first [anchor] source bytes: it decodes
    to them, fits the allocated bound and respects the decoder's expansion
    limit. *)
Record emitted (src : bytes) (anchor : nat) (out : bytes) : Prop := {
  em_decodes : ∃ k, (k ≤ length out)%nat ∧ ∀ f rest raw, (length src ≤ raw)%nat →
    decompress_loop (k + f) (out ++ rest) raw [] = decompress_loop f rest raw (take anchor src);
  em_bound : (length out ≤ anchor + anchor / 255)%nat;
  em_ratio : (anchor ≤ 255 * length out)%nat;
}.

Lemma enc_len_bounds n :
  (length (enc_len n) ≤ 1 + n / 255 ∧ length (enc_len n) ≤ n ∧
   n ≤ 255 * length (enc_len n) + 15)%nat.
Proof.
  rewrite length_enc_len. destruct (Nat.leb_spec 15 n); [|lia].
  pose proof (Nat.div_mod_eq (n - 15) 255). pose proof (Nat.mod_upper_bound (n - 15) 255).
  pose proof (Nat.Div0.div_le_mono (n - 15) n 255). lia.
Qed.

Lemma emitted_seq src anchor out ip ref ml :
  emitted src anchor out → (anchor ≤ ip)%nat → (ref < ip)%nat →
  (ip - ref ≤ Z.to_nat 65535)%nat → (4 ≤ ml)%nat → (ip + ml ≤ length src)%nat →
  (∀ k, (k < ml)%nat → src !! (ref + k)%nat = src !! (ip + k)%nat) →
  emitted src (ip + ml)
    (out ++ lz4_seq (take (ip - anchor) (drop anchor src)) (ip - ref) (ml - 4)).
Proof.
  intros [(k & Hk & Hd) Hb Hr] Ha Href Hoff Hml Hlen Heq.
  set (lits := take (ip - anchor) (drop anchor src)).
  assert (length lits = ip - anchor)%nat as Hl.
  { unfold lits. rewrite length_take, length_drop. lia. }
  pose proof (enc_len_bounds (length lits)). pose proof (enc_len_bounds (ml - 4)).
  split.
  - exists (S k). rewrite length_app, length_lz4_seq. split; [lia|].
    intros f rest raw Hraw. rewrite <- app_assoc.
    replace (S k + f)%nat with (k + S f)%nat by lia. rewrite Hd by done.
    assert (take anchor src ++ lits = take ip src) as Htk.
    { unfold lits. rewrite take_take_drop. f_equal. lia. }
    rewrite decompress_seq; [|lia|rewrite length_take; lia..].
    rewrite Htk. rewrite copy_match_prefix with (src := src); [|lia|lia|].
    + simpl. do 2 f_equal. lia.
    + intros j ?. replace (ip - (ip - ref) + j)%nat with (ref + j)%nat by lia.
      symmetry. apply Heq. lia.
  - rewrite length_app, length_lz4_seq.
    assert (anchor / 255 + (ip - anchor) / 255 ≤ (ip + ml) / 255)%nat; [|rewrite Hl in *; lia].
    apply Nat.div_le_lower_bound; [lia|].
    pose proof (Nat.Div0.mul_div_le anchor 255).
    pose proof (Nat.Div0.mul_div_le (ip - anchor) 255). lia.
  - rewrite length_app, length_lz4_seq. lia.
Qed.

Lemma compress_loop_ok fuel src table ip anchor out :
  (10 ≤ length src)%nat → (anchor ≤ ip ≤ length src)%nat → (length src - ip < fuel)%nat →
  emitted src anchor out →
  let bound := (length src + length src / 255 + 16)%nat in
  ∃ anchor' out',
    compress_loop fuel bound (length src - lz4MFLimit) src table ip anchor out
      = Ok (anchor', out') ∧
    (anchor' ≤ length src)%nat ∧ emitted src anchor' out'.
Proof.
  intros Hlen. revert table ip anchor out.
  induction fuel as [|fuel IH]; intros table ip anchor out Ha Hf He bound; [lia|].
  cbn [compress_loop]. unfold lz4MFLimit, lz4MinMatch, lz4LastLits in *.
  destruct (Nat.ltb_spec (length src - (4 + 5)) ip) as [|Hip]; [exists anchor, out; auto with lia|].
  destruct (lz4hash4_ok (drop ip src)) as [h ->]; [rewrite length_drop; lia|].
  cbn [mbind res_bind].
  set (ref := default 0 (table !! h) - 1).
  match goal with |- context [if ?c then _ else _] => destruct c eqn:Hc end;
    [|apply IH; [lia|lia|done]].
  apply andb_true_iff in Hc as [Hc H4]. apply andb_true_iff in Hc as [Hc H3].
  apply andb_true_iff in Hc as [H1 H2]. pose proof (eq4_spec _ _ _ H4) as Hm.
  destruct (match_len_spec (length src) src ip (Z.to_nat ref) 4
    (Nat.min (length src - ip) (Z.to_nat 65535 + 4))) as [Hml Heq].
  { lia. } { intros. symmetry. auto. }
  set (ml := match_len _ _ _ _ _ _) in *.
  assert (emitted src (ip + ml)
    (out ++ lz4_seq (take (ip - anchor) (drop anchor src)) (ip - Z.to_nat ref) (ml - 4))) as He'.
  { apply emitted_seq; [done|lia|lia|lia|lia|lia|]. intros. symmetry. by apply Heq. }
  rewrite emit_sequence_ok; [|lia|lia|lia|].
  2:{ apply em_bound in He'. rewrite length_app in He'. unfold bound.
      pose proof (Nat.Div0.div_le_mono (ip + ml) (length src) 255). lia. }
  cbn [mbind res_bind].
  destruct (Nat.leb_spec (ip + ml) (length src - (4 + 5))).
  - destruct (lz4hash4_ok (drop (ip + ml) src)) as [h' ->]; [rewrite length_drop; lia|].
    cbn [mbind res_bind]. apply IH; [lia|lia|done].
  - cbn [mbind res_bind]. apply IH; [lia|lia|done].
Qed.

Lemma emitted_nil src : emitted src 0 [].
Proof. split; simpl; [|lia..]. exists 0%nat. split; [lia|]. done. Qed.

(** The whole encoder: it never panics, and what it returns for [src] is the
    output of the loop closed by the last literals. *)
Lemma lz4_compress_spec src :
  ∃ o, lz4_compress src = Ok o ∧
    ∀ c, o = Some c → (length c < length src)%nat ∧
      ∃ anchor out, emitted src anchor out ∧ (anchor ≤ length src)%nat ∧
        c = out ++ lz4_last (drop anchor src).
Proof.
  unfold lz4_compress. destruct (Nat.ltb_spec (length src) (lz4MFLimit + 1)) as [|Hl].
  { exists None. split; [done|]. by intros. }
  unfold lz4MFLimit, lz4MinMatch, lz4LastLits in Hl.
  destruct (compress_loop_ok (S (length src)) src ∅ 0 0 []) as (a & out & -> & Ha & He);
    [lia|lia|lia|apply emitted_nil|].
  cbn [mbind res_bind]. rewrite emit_last_ok; [|done|].
  - cbn [mbind res_bind]. eexists. split; [done|]. intros c.
    destruct (Nat.leb_spec (length src) (length (out ++ lz4_last (drop a src)))); [done|].
    intros [= <-]. split; [done|]. exists a, out. auto.
  - rewrite length_lz4_last, length_drop. pose proof (enc_len_bounds (length src - a)).
    pose proof (em_bound _ _ _ He).
    assert (a / 255 + (length src - a) / 255 ≤ length src / 255)%nat; [|lia].
    apply Nat.div_le_lower_bound; [lia|].
    pose proof (Nat.Div0.mul_div_le a 255).
    pose proof (Nat.Div0.mul_div_le (length src - a) 255). lia.
Qed.

Lemma read_len_safe n src :
  read_len n src ≠ Panic ∧
  ∀ m r, read_len n src = Ok (m, r) → (length r ≤ length src)%nat.
Proof.
  unfold read_len. destruct (n =? 15)%nat; [|by split; [|intros ?? [= <- <-]]].
  generalize n. induction src as [|b src IH]; intros acc; simpl; [by split|].
  destruct (b2z b <? 255); [by split; [|intros ?? [= <- <-]; lia]|].
  destruct (IH (acc + b2n b)%nat) as [? Hr]. split; [done|].
  intros m r H'. specialize (Hr _ _ H'). lia.
Qed.

Lemma copy_match_safe n off out :
  (1 ≤ off ≤ length out)%nat → ∃ o, copy_match n off out = Ok o ∧ length o = (length out + n)%nat.
Proof.
  revert out. induction n as [|n IH]; intros out H; simpl; [eauto|].
  destruct (lookup_lt_is_Some_2 out (length out - off)) as [b ->]; [lia|].
  destruct (IH (out ++ [b])) as (o & -> & Ho); [rewrite length_app; simpl; lia|].
  exists o. split; [done|]. rewrite Ho, length_app. simpl. lia.
Qed.

Lemma decompress_loop_safe fuel src raw out :
  (length src < fuel)%nat → decompress_loop fuel src raw out ≠ Panic.
Proof.
  revert src out. induction fuel as [|fuel IH]; intros src out Hf; [lia|].
  destruct src as [|tok src]; [done|]. cbn [decompress_loop]. simpl in Hf.
  destruct (read_len_safe (Z.to_nat (Z.shiftr (b2z tok) 4)) src) as [Hp Hl].
  destruct (read_len _ src) as [[l r]|e|]; [|done|done]. simpl.
  specialize (Hl _ _ eq_refl).
  destruct (_ || _); [done|]. pose proof (length_drop r l) as Hd.
  destruct (drop l r) as [|o0 [|o1 r']]; [done|done|]. simpl in Hd.
  destruct (Nat.eqb_spec (Z.to_nat (le_get [o0; o1])) 0); [done|].
  destruct (read_len_safe (Z.to_nat (Z.land (b2z tok) 0x0F)) r') as [Hp' Hl'].
  destruct (read_len _ r') as [[m r'']|e|]; [|done|done]. simpl.
  specialize (Hl' _ _ eq_refl).
  destruct (Nat.ltb_spec (length (out ++ take l r)) (Z.to_nat (le_get [o0; o1])));
    simpl; [done|].
  destruct (_ <? _)%nat; [done|].
  destruct (copy_match_safe (m + lz4MinMatch) (Z.to_nat (le_get [o0; o1]))
    (out ++ take l r)) as (o & -> & _); [lia|].
  simpl. apply IH. lia.
Qed.

Lemma lz4_decompress_compress (src c : bytes) :
  lz4_compress src = Ok (Some c) → Z.of_nat (length src) ≤ maxDecodedPayload →
  lz4_decompress c (Z.of_nat (length src)) = Ok src.
Proof.
  intros Hc Hmax. destruct (lz4_compress_spec src) as (o & Ho & Hs).
  rewrite Hc in Ho. injection Ho as <-.
  destruct (Hs c eq_refl) as (_ & anchor & out & He & Ha & ->).
  unfold lz4_decompress.
  assert (length src ≤ 255 * length (out ++ lz4_last (drop anchor src)))%nat.
  { rewrite length_app, length_lz4_last, length_drop. pose proof (em_ratio _ _ _ He). lia. }
  destruct (Z.ltb_spec (Z.of_nat (length src)) 0); [lia|].
  destruct (Z.ltb_spec maxDecodedPayload (Z.of_nat (length src))); [lia|].
  destruct (Z.ltb_spec (Z.of_nat (length (out ++ lz4_last (drop anchor src))) * 255 + 64)
    (Z.of_nat (length src))); [lia|]. cbn [orb].
  destruct (em_decodes _ _ _ He) as (k & Hk & Hd). rewrite Nat2Z.id.
  set (l := length (out ++ _)) in *.
  assert (S l = k + S (l - k))%nat as ->.
  { unfold l. rewrite length_app. lia. }
  rewrite Hd by done. rewrite decompress_last.
  - simpl. rewrite take_drop. by rewrite Z.eqb_refl.
  - rewrite length_take, length_drop. lia.
Qed.

Lemma lz4_decompress_result (src : bytes) (rawSize : Z) :
  lz4_decompress src rawSize ≠ Panic ∧
  ∀ out, lz4_decompress src rawSize = Ok out →
    Z.of_nat (length out) = rawSize ∧
    rawSize ≤ Z.min maxDecodedPayload (Z.of_nat (length src) * 255 + 64).
Proof.
  unfold lz4_decompress.
  destruct (_ || _) eqn:Hg; [done|].
  apply orb_false_iff in Hg as [Hg H3]. apply orb_false_iff in Hg as [H1 H2].
  pose proof (decompress_loop_safe (S (length src)) src (Z.to_nat rawSize) [] ltac:(lia)).
  destruct (decompress_loop _ _ _ _) as [o|e|]; [|done|done]. simpl.
  destruct (Z.eqb_spec (Z.of_nat (length o)) rawSize); [|done].
  split; [done|]. intros out [= <-]. lia.
Qed.

(** ** Properties *)

(** LZ4 round trip.  Whatever [compress] returns for a payload within the
    16 MiB decode cap, [decompress] with the payload's length restores exactly
    that payload; in particular the decoder's expansion-ratio and size guards
    accept every frame the encoder produces. *)
Theorem lz4_roundtrip (src c : bytes) :
  lz4_compress src = Ok (Some c) → Z.of_nat (length src) ≤ maxDecodedPayload →
  lz4_decompress c (Z.of_nat (length src)) = Ok src.
Proof. apply lz4_decompress_compress. Qed.

Lemma lz4_roundtrip_witness :
  let src := bs "Device.WiFi.Radio.1.Enable Device.WiFi.Radio.2.Enable Device.WiFi.Radio.3." in
  ∃ c, lz4_compress src = Ok (Some c) ∧ Z.of_nat (length src) ≤ maxDecodedPayload ∧
       lz4_decompress c (Z.of_nat (length src)) = Ok src.
Proof.
  intros src. eexists. split; [vm_compute; reflexivity|]. split; [vm_compute; discriminate|].
  apply (lz4_roundtrip src); [vm_compute; reflexivity|vm_compute; discriminate].
Defined.

(** [compress] is total: for every input it returns (no write lands outside
    the allocated [len + len/255 + 16] bytes, the hash never reads past the
    source), and a non-nil result is strictly shorter than the input. *)
Theorem lz4_compress_total (src : bytes) :
  ∃ o, lz4_compress src = Ok o ∧ ∀ c, o = Some c → (length c < length src)%nat.
Proof.
  destruct (lz4_compress_spec src) as (o & -> & Hs).
  exists o. split; [done|]. intros c Hc. by apply Hs.
Qed.

(** [decompress] is safe on hostile input: for any bytes and any declared
    size it returns a value or an error, never a panic, and a returned buffer
    has exactly the declared size, which is within the decode cap and within
    255 times the input plus 64. *)
Theorem lz4_decompress_safe (src : bytes) (rawSize : Z) :
  lz4_decompress src rawSize ≠ Panic ∧
  ∀ out, lz4_decompress src rawSize = Ok out →
    Z.of_nat (length out) = rawSize ∧
    rawSize ≤ Z.min maxDecodedPayload (Z.of_nat (length src) * 255 + 64).
Proof. apply lz4_decompress_result. Qed.
