(* ===== verification/Codec.v ===== *)
(** * The WUSP parameter codec

    Values, fields, messages, the path registry, and the frame encoder and
    decoder of src/internal/wusp/interface.go.  Buffers are byte lists, a
    float64 is its IEEE-754 bit pattern, a [time.Time] is its UnixNano ([None]
    for the zero time).  The package-level registry is an argument. *)

From S2P Require Import Prelude GoStr Wire Lz4.

(** ** TypeTag and Value *)

Definition TagNull : Z := 0x00.
Definition TagFalse : Z := 0x01.
Definition TagTrue : Z := 0x02.
Definition TagUint : Z := 0x03.
Definition TagInt : Z := 0x04.
Definition TagFloat : Z := 0x05.
Definition TagString : Z := 0x06.
Definition TagBytes : Z := 0x07.
Definition TagTime : Z := 0x08.
Definition TagIP4 : Z := 0x09.
Definition TagIP6 : Z := 0x0A.
Definition TagIP4Pfx : Z := 0x0B.
Definition TagIP6Pfx : Z := 0x0C.
Definition TagMAC : Z := 0x0D.
Definition TagList : Z := 0x0E.

Inductive Value : Type :=
  MkValue (Tag : Z) (ival : Z) (fval : Z) (blob : bytes) (list_ : list Value).

Definition vTag (v : Value) : Z := let 'MkValue t _ _ _ _ := v in t.
Definition vival (v : Value) : Z := let 'MkValue _ i _ _ _ := v in i.
Definition vfval (v : Value) : Z := let 'MkValue _ _ f _ _ := v in f.
Definition vblob (v : Value) : bytes := let 'MkValue _ _ _ b _ := v in b.
Definition vlist (v : Value) : list Value := let 'MkValue _ _ _ _ l := v in l.

Definition Null : Value := MkValue TagNull 0 0 [] [].
Definition VBool (v : bool) : Value :=
  if v then MkValue TagTrue 0 0 [] [] else MkValue TagFalse 0 0 [] [].
Definition Uint (v : Z) : Value := MkValue TagUint (i64 v) 0 [] [].
Definition Int (v : Z) : Value := MkValue TagInt v 0 [] [].
Definition Float (v : Z) : Value := MkValue TagFloat 0 v [] [].
Definition VString (v : bytes) : Value := MkValue TagString 0 0 v [].
Definition Bytes (v : bytes) : Value := MkValue TagBytes 0 0 v [].
Definition Time (v : Z) : Value := MkValue TagTime v 0 [] [].
Definition VList (items : list Value) : Value := MkValue TagList 0 0 [] items.

Definition AsBool (v : Value) : bool := vTag v =? TagTrue.
Definition AsUint (v : Value) : Z := u64 (vival v).

(** ** Fields and messages *)

Record Field : Type := MkField { fid : Z; Path : bytes; Val : Value }.

Record Message : Type := MkMessage
  { DeviceID : bytes; Timestamp : option Z; Fields : list Field }.

Definition ResetAllFieldIDs (m : Message) : Message :=
  MkMessage (DeviceID m) (Timestamp m) ((fun f => MkField 0 (Path f) (Val f)) <$> Fields m).

(** ** The registry: path to field ID and back *)

Record registry : Type := MkRegistry
  { pathToID : gmap bytes Z; idToPath : list bytes; fp : Z }.

Definition fnv32a_byte (h : Z) (b : byte) : Z := u32 (Z.lxor h (b2z b) * 16777619).
Definition fnv32a_write (h : Z) (data : bytes) : Z := foldl fnv32a_byte h data.

(** [sorted] is indexed from 0, IDs start at 1. *)
Fixpoint registry_ids (i : Z) (sorted : list bytes) (m : gmap bytes Z) : gmap bytes Z :=
  match sorted with
  | [] => m
  | p :: sorted => registry_ids (i + 1) sorted (<[p := u16 (i + 1)]> m)
  end.

(** The argument is the list of the parameters' paths. *)
Definition buildRegistry (params : list bytes) : registry :=
  let sorted := merge_sort bytes_le params in
  MkRegistry (registry_ids 0 sorted ∅) sorted
    (u16 (foldl fnv32a_write 2166136261 sorted)).

Definition IDFor (r : registry) (path : bytes) : Z * bool :=
  match pathToID r !! path with Some id => (id, true) | None => (0, false) end.

Definition PathForID (r : registry) (id : Z) : option bytes :=
  if (id =? 0) || (Z.of_nat (length (idToPath r)) <? id) then None
  else idToPath r !! Z.to_nat (id - 1).

(** [Message.Set]: replace the first field with that path, else append. *)
Fixpoint set_field (fs : list Field) (path : bytes) (v : Value) : option (list Field) :=
  match fs with
  | [] => None
  | f :: fs =>
      if bool_decide (Path f = path) then Some (MkField (fid f) (Path f) v :: fs)
      else (fun fs => f :: fs) <$> set_field fs path v
  end.
Definition Message_Set (reg : registry) (m : Message) (path : bytes) (v : Value) : Message :=
  MkMessage (DeviceID m) (Timestamp m)
    match set_field (Fields m) path v with
    | Some fs => fs
    | None => Fields m ++ [MkField (fst (IDFor reg path)) path v]
    end.
Definition Message_Get (m : Message) (path : bytes) : Value * bool :=
  match list_find (fun f => Path f = path) (Fields m) with
  | Some (_, f) => (Val f, true)
  | None => (Null, false)
  end.

(** ** Encoder *)

Definition frameMagic0 : Z := 0x57.
Definition frameMagic1 : Z := 0x55.
Definition frameVersion : Z := 0x01.
Definition frameHdrSize : nat := 8.
Definition maxValueNesting : nat := 8.
Definition flagLZ4 : Z := Z.shiftl 1 0.
Definition flagDeviceID : Z := Z.shiftl 1 1.
Definition flagTS : Z := Z.shiftl 1 2.

Record EncodeOptions : Type := MkEncodeOptions
  { Compress : bool; IncludeDeviceID : bool; IncludeTimestamp : bool }.

(** [append(b.b, blob[:n]...)]: the slice expression panics on a short blob. *)
Definition blob_prefix (n : nat) (blob : bytes) : res werr bytes :=
  if (n <=? length blob)%nat then Ok (take n blob) else Panic.

Fixpoint encodeValue (v : Value) : res werr bytes :=
  let 'MkValue tag ival fval blob list_ := v in
  body ← (if (tag =? TagNull) || (tag =? TagFalse) || (tag =? TagTrue) then Ok []
          else if tag =? TagUint then Ok (writeUvarint (u64 ival))
          else if tag =? TagInt then Ok (writeZigzag ival)
          else if tag =? TagFloat then Ok (le_put 8 fval)
          else if (tag =? TagString) || (tag =? TagBytes) then Ok (writeBlob blob)
          else if tag =? TagTime then Ok (writeZigzag ival)
          else if tag =? TagIP4 then blob_prefix 4 blob
          else if tag =? TagIP6 then blob_prefix 16 blob
          else if tag =? TagIP4Pfx then blob_prefix 5 blob
          else if tag =? TagIP6Pfx then blob_prefix 17 blob
          else if tag =? TagMAC then blob_prefix 6 blob
          else if tag =? TagList then
            items ← mapM_res encodeValue list_;
            Ok (writeUvarint (Z.of_nat (length list_)) ++ concat items)
          else Ok []);
  Ok (writeByte (z2b tag) ++ body).

Definition encodeField (f : Field) : res werr bytes :=
  v ← encodeValue (Val f);
  Ok (writeUvarint (fid f) ++ (if fid f =? 0 then writeStr (Path f) else []) ++ v).

Definition has_device_id (opts : EncodeOptions) (msg : Message) : bool :=
  IncludeDeviceID opts && negb (bool_decide (DeviceID msg = [])).
Definition shown_ts (opts : EncodeOptions) (msg : Message) : option Z :=
  if IncludeTimestamp opts then Timestamp msg else None.

(** The uncompressed payload: device ID, timestamp, field count, fields. *)
Definition encodePayload (opts : EncodeOptions) (msg : Message) : res werr bytes :=
  fields ← mapM_res encodeField (Fields msg);
  Ok ((if has_device_id opts msg then writeStr (DeviceID msg) else [])
      ++ (match shown_ts opts msg with Some ns => writeZigzag ns | None => [] end)
      ++ writeUvarint (Z.of_nat (length (Fields msg))) ++ concat fields).

Definition Encode (reg : registry) (opts : EncodeOptions) (msg : Message) : res werr bytes :=
  payload ← encodePayload opts msg;
  let flags := Z.lor (if has_device_id opts msg then flagDeviceID else 0)
                 (match shown_ts opts msg with Some _ => flagTS | None => 0 end) in
  p ← (if Compress opts then
         comp ← lz4_compress payload;
         match comp with
         | Some comp =>
             Ok (le_put 4 (u32 (Z.of_nat (length payload))) ++ comp, Z.lor flags flagLZ4)
         | None => Ok (payload, flags)
         end
       else Ok (payload, flags));
  let '(finalPayload, flags) := p in
  Ok (map z2b [frameMagic0; frameMagic1; frameVersion] ++ le_put 2 (fp reg)
      ++ map z2b [flags; 0; 0] ++ finalPayload).

(** ** Decoder *)

Definition sizeof_Value : Z := 72.
Definition sizeof_Field : Z := 96.

Definition rd_lift {A} (m : res werr A) : rd A := fun b => a ← m; Ok (a, b).
(** The unread length, [len(r.b)]. *)
Definition rd_len : rd Z := fun b => Ok (Z.of_nat (length b), b).

(** One level of [decodeValue]; [sub] decodes a list item one level deeper and is
    [None] at the nesting limit. *)
Definition decodeValue_level (sub : option (rd Value)) : rd Value :=
  tag ← readByte;
  let tag := b2z tag in
  if tag =? TagNull then mret Null
  else if tag =? TagFalse then mret (VBool false)
  else if tag =? TagTrue then mret (VBool true)
  else if tag =? TagUint then n ← readUvarint; mret (Uint n)
  else if tag =? TagInt then n ← readZigzag; mret (Int n)
  else if tag =? TagFloat then b ← readN 8; mret (Float (le_get b))
  else if tag =? TagString then blob ← readBlob; mret (VString blob)
  else if tag =? TagBytes then blob ← readBlob; mret (Bytes blob)
  else if tag =? TagTime then ns ← readZigzag; mret (Time ns)
  else if tag =? TagIP4 then b ← readN 4; mret (MkValue TagIP4 0 0 b [])
  else if tag =? TagIP6 then b ← readN 16; mret (MkValue TagIP6 0 0 b [])
  else if tag =? TagIP4Pfx then b ← readN 5; mret (MkValue TagIP4Pfx 0 0 b [])
  else if tag =? TagIP6Pfx then b ← readN 17; mret (MkValue TagIP6Pfx 0 0 b [])
  else if tag =? TagMAC then b ← readN 6; mret (MkValue TagMAC 0 0 b [])
  else if tag =? TagList then
    cnt ← readUvarint;
    len ← rd_len;
    if len <? cnt then rd_fail ErrTruncated else
    match sub with
    | None => rd_fail ErrNestingTooDeep
    | Some item =>
        _ ← rd_lift (go_make sizeof_Value cnt);
        items ← rd_repeat (Z.to_nat cnt) item;
        mret (VList items)
    end
  else rd_fail ErrUnknownTag.

(** [nest] counts the list levels still allowed: [maxValueNesting - depth]. *)
Fixpoint decodeValue_at (nest : nat) : rd Value :=
  decodeValue_level match nest with O => None | S nest => Some (decodeValue_at nest) end.

Definition decodeValue (depth : nat) : rd Value := decodeValue_at (maxValueNesting - depth).

(** [None] is the (nil, nil) result for a skipped field. *)
Definition decodeField (reg : registry) (skipUnknown : bool) : rd (option Field) :=
  rawID ← readUvarint;
  let id := u16 rawID in
  if id =? 0 then
    path ← readStr; v ← decodeValue 0; mret (Some (MkField id path v))
  else
    match PathForID reg id with
    | Some path => v ← decodeValue 0; mret (Some (MkField id path v))
    | None =>
        v ← decodeValue 0;
        mret (if skipUnknown then None else Some (MkField id [] v))
    end.

Definition decodeDeviceID (flags : Z) : rd bytes :=
  if negb (Z.land flags flagDeviceID =? 0) then readStr else mret [].
Definition decodeTimestamp (flags : Z) : rd (option Z) :=
  if negb (Z.land flags flagTS =? 0) then ns ← readZigzag; mret (Some ns) else mret None.

(** Everything after the frame header and decompression. *)
Definition decodePayload (reg : registry) (skipUnknown : bool) (flags : Z) : rd Message :=
  dev ← decodeDeviceID flags;
  ts ← decodeTimestamp flags;
  count ← readUvarint;
  len ← rd_len;
  if len <? count then rd_fail ErrTruncated else
  _ ← rd_lift (go_make sizeof_Field count);
  fs ← rd_repeat (Z.to_nat count) (decodeField reg skipUnknown);
  mret (MkMessage dev ts (omap id fs)).

Definition Decode (reg : registry) (skipUnknown : bool) (data : bytes) : res werr Message :=
  match data with
  | m0 :: m1 :: ver :: _ :: _ :: flags :: _ :: _ :: payload =>
      if negb (b2z m0 =? frameMagic0) || negb (b2z m1 =? frameMagic1) then Err ErrBadMagic
      else if negb (b2z ver =? frameVersion) then Err ErrBadVersion
      else
        payload ← (if negb (Z.land (b2z flags) flagLZ4 =? 0) then
                     if (length payload <? 4)%nat then Err ErrTruncated
                     else lz4_decompress (drop 4 payload) (le_get (take 4 payload))
                   else Ok payload);
        p ← decodePayload reg skipUnknown (b2z flags) payload;
        Ok (fst p)
  | _ => Err ErrTruncated
  end.

(** ** Well-formed values *)

Definition blankb (ival fval : Z) (blob : bytes) (l : list Value) : bool :=
  (ival =? 0) && (fval =? 0) && bool_decide (blob = []) && match l with [] => true | _ => false end.
Definition i64b (i : Z) : bool := (- 2 ^ 63 <=? i) && (i <? 2 ^ 63).

(** The shape the constructors and the decoder produce: the payload of the tag
    in its slot, the other slots empty, at most [nest] levels of lists. *)
Definition wf_value_level (sub : option (Value → bool)) (v : Value) : bool :=
  let 'MkValue tag ival fval blob l := v in
  if (tag =? TagNull) || (tag =? TagFalse) || (tag =? TagTrue) then blankb ival fval blob l
  else if (tag =? TagUint) || (tag =? TagInt) || (tag =? TagTime) then
    i64b ival && blankb 0 fval blob l
  else if tag =? TagFloat then (0 <=? fval) && (fval <? 2 ^ 64) && blankb ival 0 blob l
  else if (tag =? TagString) || (tag =? TagBytes) then blankb ival fval [] l
  else if tag =? TagIP4 then (length blob =? 4)%nat && blankb ival fval [] l
  else if tag =? TagIP6 then (length blob =? 16)%nat && blankb ival fval [] l
  else if tag =? TagIP4Pfx then (length blob =? 5)%nat && blankb ival fval [] l
  else if tag =? TagIP6Pfx then (length blob =? 17)%nat && blankb ival fval [] l
  else if tag =? TagMAC then (length blob =? 6)%nat && blankb ival fval [] l
  else if tag =? TagList then
    match sub with
    | None => false
    | Some item => blankb ival fval blob [] && forallb item l
    end
  else false.
Fixpoint wf_value (nest : nat) (v : Value) : bool :=
  wf_value_level match nest with O => None | S nest => Some (wf_value nest) end v.

(** Sizes for which no [make] of the decoder exceeds the allocator's limit. *)
Definition fits (n : nat) : Prop := sizeof_Field * Z.of_nat n ≤ maxAlloc.
Lemma fits_mono n k : fits n → (k ≤ n)%nat → fits k.
Proof. unfold fits, sizeof_Field. lia. Qed.

Lemma blankb_true i f b l :
  blankb i f b l = true → i = 0 ∧ f = 0 ∧ b = [] ∧ l = [].
Proof.
  unfold blankb. rewrite !andb_true_iff, bool_decide_eq_true, !Z.eqb_eq.
  intros [[[? ?] ?] ?]. by destruct l.
Qed.

Lemma blob_prefix_exact n b : length b = n → blob_prefix n b = Ok b.
Proof. intros <-. unfold blob_prefix. by rewrite Nat.leb_refl, firstn_all. Qed.

Lemma decodeValue_at_eq n :
  decodeValue_at n =
    decodeValue_level match n with O => None | S n => Some (decodeValue_at n) end.
Proof. by destruct n. Qed.

Lemma decode_tag sub t body : 
  decodeValue_level sub (writeByte t ++ body) =
  decodeValue_level sub (t :: body).
Proof. done. Qed.

(** The encoding of a value and how it reads back. *)
Definition reads_back (m : rd Value) (v : Value) (e : bytes) : Prop :=
  (1 ≤ length e)%nat ∧ ∀ rest, fits (length (e ++ rest)) → m (e ++ rest) = Ok (v, rest).

Lemma u64_i64 i : - 2 ^ 63 ≤ i < 2 ^ 63 → i64 (u64 i) = i.
Proof.
  intros Hi. unfold wrap, swrap. change (64 - 1) with 63.
  destruct (decide (0 ≤ i)).
  - rewrite (Z.mod_small i) by lia. rewrite Z.mod_small by lia. lia.
  - assert (i mod 2 ^ 64 = i + 2 ^ 64) as ->
      by (symmetry; apply Z.mod_unique with (-1); lia).
    assert ((i + 2 ^ 64 + 2 ^ 63) mod 2 ^ 64 = i + 2 ^ 63) as ->; [|lia].
    symmetry. apply Z.mod_unique with 1; lia.
Qed.

Lemma fits_blob b rest : fits (length (writeBlob b ++ rest)) → Z.of_nat (length b) < 2 ^ 64.
Proof.
  unfold fits, sizeof_Field, maxAlloc, writeBlob. rewrite !length_app. lia.
Qed.
Lemma fits_tail t l rest : fits (length ((writeByte t ++ l) ++ rest)) → fits (length (l ++ rest)).
Proof. intros H. eapply fits_mono; [exact H|]. simpl. lia. Qed.

Lemma value_roundtrip_list n l :
  (∀ v, wf_value n v = true → ∃ e, encodeValue v = Ok e ∧ reads_back (decodeValue_at n) v e) →
  forallb (wf_value n) l = true →
  ∃ es, mapM_res encodeValue l = Ok es ∧
    reads_back (decodeValue_at (S n)) (VList l)
      (writeByte (z2b TagList) ++ writeUvarint (Z.of_nat (length l)) ++ concat es).
Proof.
  intros IH Hl.
  assert (∃ es, Forall2 (fun v e => encodeValue v = Ok e ∧ reads_back (decodeValue_at n) v e) l es)
    as [es Hes].
  { clear -IH Hl. induction l as [|v l IHl]; [by exists []|].
    apply andb_true_iff in Hl as [Hv Hl]. destruct (IHl Hl) as [es Hes].
    destruct (IH v Hv) as (e & ? & ?). exists (e :: es). by constructor. }
  exists es. split.
  { apply mapM_res_Forall2. eapply Forall2_impl; [done|]. by intros ?? [? _]. }
  split; [simpl; lia|]. intros rest Hf. rewrite decodeValue_at_eq.
  rewrite <- app_assoc, decode_tag. apply fits_tail in Hf. rewrite <- app_assoc in *.
  assert (length l ≤ length (concat es))%nat as Hcnt.
  { clear -Hes. induction Hes as [|v e l es [_ [He _]] _ IH]; simpl; [lia|].
    rewrite length_app. lia. }
  unfold fits, sizeof_Field, maxAlloc in Hf. rewrite !length_app in Hf.
  unfold decodeValue_level, mbind, rd_bind. cbn [readByte].
  change (b2z (z2b TagList)) with TagList. cbn [Z.eqb TagList TagNull TagFalse TagTrue TagUint
    TagInt TagFloat TagString TagBytes TagTime TagIP4 TagIP6 TagIP4Pfx TagIP6Pfx TagMAC Pos.eqb].
  rewrite readUvarint_write by lia. unfold rd_len.
  rewrite length_app. rewrite (proj2 (Z.ltb_ge _ _)) by lia.
  unfold rd_lift, go_make, make_ok, sizeof_Value, maxAlloc.
  rewrite (proj2 (Z.leb_le 0 _)), (proj2 (Z.leb_le (72 * _) _)) by lia. cbn [andb mbind res_bind].
  rewrite Nat2Z.id. rewrite rd_repeat_Forall2 with (P := fits); [done|apply fits_mono| |].
  - eapply Forall2_impl; [done|]. intros v e [_ [_ He]]. exact He.
  - unfold fits, sizeof_Field, maxAlloc. rewrite length_app. lia.
Qed.

(** Runs the decoder on a known tag byte. *)
Ltac decode_known_tag :=
  split; [simpl; lia|]; intros rest Hf; rewrite decodeValue_at_eq;
  rewrite <- app_assoc, decode_tag; apply fits_tail in Hf;
  unfold decodeValue_level, mbind, rd_bind; cbn [readByte];
  match goal with |- context [b2z (z2b ?t)] => change (b2z (z2b t)) with t end;
  cbn [Z.eqb TagList TagNull TagFalse TagTrue TagUint TagInt TagFloat TagString TagBytes
       TagTime TagIP4 TagIP6 TagIP4Pfx TagIP6Pfx TagMAC Pos.eqb].

Lemma reads_back_raw n tag blob :
  tag ∈ [TagIP4; TagIP6; TagIP4Pfx; TagIP6Pfx; TagMAC] →
  length blob = Z.to_nat (match tag with 9 => 4 | 10 => 16 | 11 => 5 | 12 => 17 | _ => 6 end) →
  encodeValue (MkValue tag 0 0 blob []) = Ok (writeByte (z2b tag) ++ blob) ∧
  reads_back (decodeValue_at n) (MkValue tag 0 0 blob []) (writeByte (z2b tag) ++ blob).
Proof.
  intros Ht Hb. rewrite !elem_of_cons, elem_of_nil in Ht.
  destruct Ht as [->|[->|[->|[->|[->|[]]]]]]; (split;
    [unfold encodeValue; cbn [Z.eqb TagList TagNull TagFalse TagTrue TagUint TagInt TagFloat
       TagString TagBytes TagTime TagIP4 TagIP6 TagIP4Pfx TagIP6Pfx TagMAC Pos.eqb orb];
     by rewrite blob_prefix_exact by exact Hb
    |decode_known_tag;
     match goal with |- context [readN ?n] => replace n with (Z.of_nat (length blob)) by (rewrite Hb; done) end;
     by rewrite readN_app]).
Qed.

Ltac encode_known_tag :=
  unfold encodeValue; cbn [Z.eqb TagList TagNull TagFalse TagTrue TagUint TagInt TagFloat
    TagString TagBytes TagTime TagIP4 TagIP6 TagIP4Pfx TagIP6Pfx TagMAC Pos.eqb orb mbind res_bind].

Lemma encodeValue_list l :
  encodeValue (MkValue TagList 0 0 [] l) =
    (items ← mapM_res encodeValue l;
     Ok (writeByte (z2b TagList) ++ writeUvarint (Z.of_nat (length l)) ++ concat items)).
Proof. simpl. by destruct (mapM_res encodeValue l). Qed.

Lemma i64b_true i : i64b i = true → - 2 ^ 63 ≤ i < 2 ^ 63.
Proof. unfold i64b. lia. Qed.

(** Splits a well-formed value into one case per tag. *)
Ltac tag_cases tag H :=
  destruct (Z.eqb_spec tag TagNull) as [->|];
    [|destruct (Z.eqb_spec tag TagFalse) as [->|];
    [|destruct (Z.eqb_spec tag TagTrue) as [->|];
    [|destruct (Z.eqb_spec tag TagUint) as [->|];
    [|destruct (Z.eqb_spec tag TagInt) as [->|];
    [|destruct (Z.eqb_spec tag TagTime) as [->|];
    [|destruct (Z.eqb_spec tag TagFloat) as [->|];
    [|destruct (Z.eqb_spec tag TagString) as [->|];
    [|destruct (Z.eqb_spec tag TagBytes) as [->|];
    [|destruct (Z.eqb_spec tag TagIP4) as [->|];
    [|destruct (Z.eqb_spec tag TagIP6) as [->|];
    [|destruct (Z.eqb_spec tag TagIP4Pfx) as [->|];
    [|destruct (Z.eqb_spec tag TagIP6Pfx) as [->|];
    [|destruct (Z.eqb_spec tag TagMAC) as [->|];
    [|destruct (Z.eqb_spec tag TagList) as [->|]; [|done]]]]]]]]]]]]]]];
    cbn [orb] in H; rewrite ?andb_true_iff in H; destruct_and?;
    repeat match goal with H : blankb _ _ _ _ = true |- _ =>
      apply blankb_true in H as (? & ? & ? & ?); subst end.

Lemma value_roundtrip n : ∀ v,
  wf_value n v = true → ∃ e, encodeValue v = Ok e ∧ reads_back (decodeValue_at n) v e.
Proof.
  induction n as [n IHn] using lt_wf_ind. intros [tag i f b l] Hwf.
  assert (wf_value_level match n with O => None | S n => Some (wf_value n) end
    (MkValue tag i f b l) = true) as Hl by (by destruct n).
  clear Hwf. unfold wf_value_level in Hl. tag_cases tag Hl.
  1,2,3: eexists; split; [encode_known_tag; done|]; decode_known_tag; done.
  - apply i64b_true in H. eexists; split; [encode_known_tag; done|]. decode_known_tag.
    rewrite readUvarint_write by (apply wrap_range; lia). unfold Uint. by rewrite u64_i64.
  - apply i64b_true in H. eexists; split; [encode_known_tag; done|]. decode_known_tag.
    by rewrite readZigzag_write.
  - apply i64b_true in H. eexists; split; [encode_known_tag; done|]. decode_known_tag.
    by rewrite readZigzag_write.
  - eexists; split; [encode_known_tag; done|]. decode_known_tag.
    change 8 with (Z.of_nat (length (le_put 8 f))). rewrite readN_app.
    rewrite le_get_put_small by (change (256 ^ Z.of_nat 8) with (2 ^ 64); lia). done.
  - eexists; split; [encode_known_tag; done|]. decode_known_tag.
    rewrite readBlob_write by (by eapply fits_blob). done.
  - eexists; split; [encode_known_tag; done|]. decode_known_tag.
    rewrite readBlob_write by (by eapply fits_blob). done.
  - apply Nat.eqb_eq in H. eexists. apply reads_back_raw; [set_solver|done].
  - apply Nat.eqb_eq in H. eexists. apply reads_back_raw; [set_solver|done].
  - apply Nat.eqb_eq in H. eexists. apply reads_back_raw; [set_solver|done].
  - apply Nat.eqb_eq in H. eexists. apply reads_back_raw; [set_solver|done].
  - apply Nat.eqb_eq in H. eexists. apply reads_back_raw; [set_solver|done].
  - destruct n as [|n]; [done|]. apply andb_true_iff in Hl as [Hb Hl].
    apply blankb_true in Hb as (-> & -> & -> & _).
    destruct (value_roundtrip_list n l) as (es & Hes & Hr); [auto|done|].
    eexists. split; [|exact Hr]. by rewrite encodeValue_list, Hes.
Qed.

(** ** Fields, messages and frames *)

Definition wf_field (reg : registry) (f : Field) : bool :=
  (0 <=? fid f) && (fid f <? 2 ^ 16) &&
  ((fid f =? 0) || bool_decide (PathForID reg (fid f) = Some (Path f))) &&
  wf_value maxValueNesting (Val f).

Definition wf_message (reg : registry) (msg : Message) : bool :=
  match Timestamp msg with Some ns => i64b ns | None => true end &&
  forallb (wf_field reg) (Fields msg).

(** What a receiver sees of a message under the encoder's options. *)
Definition visible (opts : EncodeOptions) (msg : Message) : Message :=
  MkMessage (if IncludeDeviceID opts then DeviceID msg else []) (shown_ts opts msg) (Fields msg).

Lemma field_roundtrip reg sk f :
  wf_field reg f = true →
  ∃ e, encodeField f = Ok e ∧ (1 ≤ length e)%nat ∧
    ∀ rest, fits (length (e ++ rest)) → decodeField reg sk (e ++ rest) = Ok (Some f, rest).
Proof.
  unfold wf_field. rewrite !andb_true_iff. intros [[[H0 H16] Hid] Hv].
  destruct (value_roundtrip maxValueNesting (Val f) Hv) as (e & He & Hlen & Hd).
  unfold encodeField. rewrite He. simpl. eexists. split; [done|].
  pose proof (length_PutUvarint (fid f)). split; [rewrite length_app; unfold writeUvarint; lia|].
  intros rest Hf. unfold decodeField, decodeValue, mbind, rd_bind.
  rewrite <- app_assoc in *. rewrite readUvarint_write by lia.
  assert (fits (length (((if fid f =? 0 then writeStr (Path f) else []) ++ e) ++ rest))) as Hf'.
  { eapply fits_mono; [exact Hf|]. rewrite (length_app (writeUvarint _)). lia. }
  rewrite wrap_small by lia. rewrite Nat.sub_0_r. destruct (Z.eqb_spec (fid f) 0) as [E|E].
  - rewrite <- app_assoc in *. unfold readStr. rewrite readBlob_write by (by eapply fits_blob).
    rewrite Hd by (eapply fits_mono; [exact Hf'|]; rewrite (length_app (writeStr _)); lia).
    destruct f; simpl in *; by subst.
  - simpl in Hid. apply bool_decide_eq_true in Hid. rewrite Hid. simpl app in *.
    rewrite Hd by done. by destruct f.
Qed.

Lemma fields_roundtrip reg sk fs :
  forallb (wf_field reg) fs = true →
  ∃ es, mapM_res encodeField fs = Ok es ∧ (length fs ≤ length (concat es))%nat ∧
    Forall2 (fun x e => ∀ r, fits (length (e ++ r)) →
      decodeField reg sk (e ++ r) = Ok (x, r)) (Some <$> fs) es.
Proof.
  induction fs as [|f fs IH]; intros Hw; [exists []; repeat split; simpl; try lia; constructor|].
  simpl in Hw. apply andb_true_iff in Hw as [Hf Hfs].
  destruct (field_roundtrip reg sk f Hf) as (e & He & Hl & Hd).
  destruct (IH Hfs) as (es & Hes & Hles & Hds).
  exists (e :: es). simpl. rewrite He, Hes. simpl. rewrite length_app.
  repeat split; [lia|]. by constructor.
Qed.

(** The header flags announce exactly the optional parts of the payload. *)
Definition flags_match (opts : EncodeOptions) (msg : Message) (flags : Z) : Prop :=
  (Z.land flags flagDeviceID =? 0) = negb (has_device_id opts msg) ∧
  (Z.land flags flagTS =? 0) = match shown_ts opts msg with Some _ => false | None => true end.

Lemma device_id_roundtrip opts msg flags rest :
  flags_match opts msg flags →
  let e := if has_device_id opts msg then writeStr (DeviceID msg) else [] in
  fits (length (e ++ rest)) →
  decodeDeviceID flags (e ++ rest) = Ok (if IncludeDeviceID opts then DeviceID msg else [], rest).
Proof.
  intros [E1 _] e Hf. unfold decodeDeviceID, e in *. rewrite E1. clear E1. destruct (has_device_id opts msg) eqn:E; simpl.
  - unfold readStr. rewrite readBlob_write by (by eapply fits_blob).
    unfold has_device_id in E. by destruct (IncludeDeviceID opts).
  - unfold has_device_id in E. destruct (IncludeDeviceID opts); [|done]. simpl in E.
    apply negb_false_iff, bool_decide_eq_true in E. by rewrite E.
Qed.

Lemma timestamp_roundtrip opts msg flags rest :
  flags_match opts msg flags →
  match Timestamp msg with Some ns => i64b ns | None => true end = true →
  decodeTimestamp flags
    ((match shown_ts opts msg with Some ns => writeZigzag ns | None => [] end) ++ rest)
  = Ok (shown_ts opts msg, rest).
Proof.
  intros [_ E] Hts. unfold decodeTimestamp. rewrite E.
  destruct (shown_ts opts msg) as [ns|] eqn:Es; [|done]. simpl. unfold mbind, rd_bind.
  rewrite readZigzag_write; [done|]. apply i64b_true. unfold shown_ts in Es.
  destruct (IncludeTimestamp opts); [|done]. by rewrite Es in Hts.
Qed.

Lemma payload_roundtrip reg sk opts msg flags payload :
  wf_message reg msg = true →
  encodePayload opts msg = Ok payload → fits (length payload) →
  flags_match opts msg flags →
  decodePayload reg sk flags payload = Ok (visible opts msg, []).
Proof.
  unfold wf_message. rewrite andb_true_iff. intros [Hts Hfs] Hp Hfit Hfl.
  destruct (fields_roundtrip reg sk _ Hfs) as (es & Hes & Hlen & Hds).
  unfold encodePayload in Hp. rewrite Hes in Hp. injection Hp as <-.
  unfold decodePayload, mbind, rd_bind.
  rewrite device_id_roundtrip by done. rewrite timestamp_roundtrip by done.
  assert (fits (length (concat es))) as Hfit'.
  { eapply fits_mono; [exact Hfit|]. rewrite !length_app. lia. }
  assert (sizeof_Field * Z.of_nat (length (Fields msg)) ≤ maxAlloc).
  { unfold fits, sizeof_Field in *. lia. }
  rewrite readUvarint_write by (unfold sizeof_Field, maxAlloc in *; lia).
  unfold rd_len. rewrite (proj2 (Z.ltb_ge _ _)) by lia.
  unfold rd_lift, go_make, make_ok.
  rewrite (proj2 (Z.leb_le 0 _)), (proj2 (Z.leb_le (sizeof_Field * _) _)) by lia.
  cbn [andb mbind res_bind]. rewrite Nat2Z.id.
  rewrite <- (app_nil_r (concat es)).
  replace (length (Fields msg)) with (length (Some <$> Fields msg)) by apply length_fmap.
  rewrite rd_repeat_Forall2 with (P := fits); [|apply fits_mono|exact Hds|by rewrite app_nil_r].
  unfold mret, rd_ret, visible. do 3 f_equal.
  clear. induction (Fields msg); simpl; [done|]. by f_equal.
Qed.

Lemma encodePayload_ok reg opts msg :
  wf_message reg msg = true → ∃ payload, encodePayload opts msg = Ok payload.
Proof.
  unfold wf_message. rewrite andb_true_iff. intros [_ Hfs].
  destruct (fields_roundtrip reg true _ Hfs) as (es & Hes & _).
  unfold encodePayload. rewrite Hes. simpl. eauto.
Qed.

Lemma encode_flags opts msg z :
  z = 0 ∨ z = flagLZ4 →
  let flags := Z.lor (Z.lor (if has_device_id opts msg then flagDeviceID else 0)
                 (match shown_ts opts msg with Some _ => flagTS | None => 0 end)) z in
  flags_match opts msg (b2z (z2b flags)) ∧
  (Z.land (b2z (z2b flags)) flagLZ4 =? 0) = (z =? 0).
Proof.
  intros Hz. unfold flags_match.
  destruct (has_device_id opts msg), (shown_ts opts msg), Hz as [-> | ->];
    vm_compute; repeat split.
Qed.

Lemma decode_header reg sk flags payload :
  Decode reg sk (map z2b [frameMagic0; frameMagic1; frameVersion] ++ le_put 2 (fp reg)
      ++ map z2b [flags; 0; 0] ++ payload) =
  (payload ← (if negb (Z.land (b2z (z2b flags)) flagLZ4 =? 0) then
                if (length payload <? 4)%nat then Err ErrTruncated
                else lz4_decompress (drop 4 payload) (le_get (take 4 payload))
              else Ok payload);
   p ← decodePayload reg sk (b2z (z2b flags)) payload; Ok (fst p)).
Proof. reflexivity. Qed.

Lemma Decode_Encode (reg : registry) (opts : EncodeOptions) (sk : bool)
    (msg : Message) (payload : bytes) :
  wf_message reg msg = true →
  encodePayload opts msg = Ok payload →
  Z.of_nat (length payload) ≤ maxDecodedPayload →
  ∃ frame, Encode reg opts msg = Ok frame ∧
    Decode reg sk frame = Ok (visible opts msg).
Proof.
  intros Hwf Hp Hmax. unfold Encode. rewrite Hp. cbn [mbind res_bind].
  assert (fits (length payload)) as Hfit.
  { unfold fits, sizeof_Field, maxAlloc. change maxDecodedPayload with 16777216 in Hmax. lia. }
  destruct (Compress opts).
  - destruct (lz4_compress_spec payload) as (o & Ho & _).
    rewrite Ho. cbn [mbind res_bind]. destruct o as [c|].
    + destruct (encode_flags opts msg flagLZ4) as [Hfl Hz]; [auto|].
      eexists. split; [done|]. rewrite decode_header, Hz. change (flagLZ4 =? 0) with false. cbn [negb].
      rewrite (wrap_small 32) by (change maxDecodedPayload with 16777216 in Hmax; lia).
      rewrite length_app, length_le_put. rewrite (proj2 (Nat.ltb_ge _ 4)) by lia.
      rewrite drop_app_length', take_app_length' by (by rewrite length_le_put).
      rewrite le_get_put_small by (change maxDecodedPayload with 16777216 in Hmax; lia).
      rewrite (lz4_decompress_compress payload c) by done. cbn [mbind res_bind].
      by rewrite (payload_roundtrip reg sk opts msg) by done.
    + destruct (encode_flags opts msg 0) as [Hfl Hz]; [auto|]. rewrite Z.lor_0_r in *.
      eexists. split; [done|]. rewrite decode_header, Hz. cbn [negb Z.eqb mbind res_bind].
      by rewrite (payload_roundtrip reg sk opts msg) by done.
  - destruct (encode_flags opts msg 0) as [Hfl Hz]; [auto|]. rewrite Z.lor_0_r in *.
    eexists. split; [done|]. rewrite decode_header, Hz. cbn [negb Z.eqb mbind res_bind].
    by rewrite (payload_roundtrip reg sk opts msg) by done.
Qed.

(** ** Properties *)

(** C1: Frame round trip.  Every well-formed message (values in the shape of
    their tag, at most 8 levels of lists, a nonzero field ID naming its path in
    the registry) whose payload is within the decode cap is encoded, with or
    without LZ4, into a frame that the decoder turns back into exactly the part
    of the message the options include. *)
Theorem message_roundtrip (reg : registry) (opts : EncodeOptions) (sk : bool)
    (msg : Message) (payload : bytes) :
  wf_message reg msg = true →
  encodePayload opts msg = Ok payload →
  Z.of_nat (length payload) ≤ maxDecodedPayload →
  ∃ frame, Encode reg opts msg = Ok frame ∧
    Decode reg sk frame = Ok (visible opts msg).
Proof. apply Decode_Encode. Qed.

Lemma message_roundtrip_witness :
  let reg := buildRegistry [bs "Device.WUSP.Status"; bs "Device.WUSP.Enable"] in
  let msg := MkMessage (bs "dev-1") (Some 1700000000000000000)
    [MkField 1 (bs "Device.WUSP.Enable") (VBool true);
     MkField 0 (bs "Device.Hosts.Host.1.Alias") (VString (bs "laptop"));
     MkField 2 (bs "Device.WUSP.Status") (VList [Int (-5); Uint (2 ^ 64 - 1); VList [Null]])] in
  let opts := MkEncodeOptions true true true in
  ∃ payload frame, encodePayload opts msg = Ok payload ∧ wf_message reg msg = true ∧
    Encode reg opts msg = Ok frame ∧ Decode reg false frame = Ok msg.
Proof.
  intros reg msg opts.
  assert (∃ p, encodePayload opts msg = Ok p ∧ Z.of_nat (length p) ≤ maxDecodedPayload)
    as (p & Hp & Hl).
  { eexists. split; [vm_compute; reflexivity|]. vm_compute. discriminate. }
  destruct (message_roundtrip reg opts false msg p) as (frame & He & Hd);
    [vm_compute; reflexivity|exact Hp|exact Hl|].
  exists p, frame. split; [exact Hp|]. split; [vm_compute; reflexivity|]. split; [exact He|exact Hd].
Defined.

(** *** Decoded messages *)

Lemma decodeValue_safe n : rd_safe fits (decodeValue_at n).
Proof.
  induction n as [n IH] using lt_wf_ind. rewrite decodeValue_at_eq. unfold decodeValue_level.
  apply (rd_safe_bind _ fits_mono); [auto with wire|]. intros tag.
  repeat match goal with |- rd_safe _ (if ?c then _ else _) =>
    destruct c; [solve [eauto using fits_mono with wire]|] end.
  destruct (_ =? TagList); [|auto with wire].
  intros b Hb. unfold mbind, rd_bind. destruct (rd_safe_uvarint fits b Hb) as [Hp Hl].
  destruct (readUvarint b) as [[cnt b1]|e|] eqn:Eu; [|done|done]. specialize (Hl _ _ eq_refl).
  pose proof (rd_post_uvarint _ _ _ Eu) as Hc. simpl in Hc.
  unfold rd_len. destruct (Z.ltb_spec (Z.of_nat (length b1)) cnt); [done|].
  destruct n as [|n]; [done|]. unfold rd_lift, go_make, make_ok.
  unfold fits, sizeof_Field, sizeof_Value in *.
  rewrite (proj2 (Z.leb_le 0 _)), (proj2 (Z.leb_le (72 * _) _)) by lia. cbn [andb mbind res_bind].
  destruct (rd_safe_repeat fits fits_mono (Z.to_nat cnt) (decodeValue_at n)
    (IH n ltac:(lia)) b1) as [Hp' Hl']; [unfold fits, sizeof_Field; lia|].
  destruct (rd_repeat _ _ b1) as [[items b2]|e|]; [|done|done]. split; [done|].
  intros ?? [= _ <-]. specialize (Hl' _ _ eq_refl). lia.
Qed.

Lemma wf_scalar n t i f b l :
  wf_value_level None (MkValue t i f b l) = true → t ≠ TagList →
  wf_value n (MkValue t i f b l) = true.
Proof.
  intros H Ht. destruct n; [done|]. unfold wf_value, wf_value_level in *.
  by rewrite (proj2 (Z.eqb_neq t TagList)) in * by done.
Qed.

Lemma i64b_swrap z : i64b (i64 z) = true.
Proof. unfold i64b. pose proof (swrap_range 64 z ltac:(lia)). lia. Qed.

Ltac wf_known_tag :=
  intros; apply wf_scalar; [|done]; unfold wf_value_level;
  cbn [Z.eqb TagList TagNull TagFalse TagTrue TagUint TagInt TagFloat TagString TagBytes
       TagTime TagIP4 TagIP6 TagIP4Pfx TagIP6Pfx TagMAC Pos.eqb orb].

Lemma wf_Uint n z : wf_value n (Uint z) = true.
Proof. wf_known_tag. by rewrite i64b_swrap. Qed.
Lemma wf_Int n z : - 2 ^ 63 ≤ z < 2 ^ 63 → wf_value n (Int z) = true.
Proof. wf_known_tag. rewrite andb_true_r. unfold i64b. lia. Qed.
Lemma wf_Time n z : - 2 ^ 63 ≤ z < 2 ^ 63 → wf_value n (Time z) = true.
Proof. wf_known_tag. rewrite andb_true_r. unfold i64b. lia. Qed.
Lemma wf_Float n z : 0 ≤ z < 2 ^ 64 → wf_value n (Float z) = true.
Proof. wf_known_tag. rewrite andb_true_r. lia. Qed.
Lemma wf_raw n tag blob :
  (tag, Z.of_nat (length blob)) ∈ [(TagIP4, 4); (TagIP6, 16); (TagIP4Pfx, 5); (TagIP6Pfx, 17); (TagMAC, 6)] →
  wf_value n (MkValue tag 0 0 blob []) = true.
Proof.
  rewrite !elem_of_cons, elem_of_nil. intros H. decompose [or] H; try done; simplify_eq;
    wf_known_tag; rewrite andb_true_r; apply Nat.eqb_eq; lia.
Qed.

Lemma decodeValue_wf n : rd_post (decodeValue_at n) (fun v => wf_value n v = true).
Proof.
  induction n as [n IH] using lt_wf_ind. rewrite decodeValue_at_eq. unfold decodeValue_level.
  eapply rd_post_bind; [apply rd_post_true|]. intros tag _.
  do 3 (destruct (_ =? _); [apply rd_post_ret; by destruct n|]).
  destruct (_ =? _); [eapply rd_post_bind; [apply rd_post_true|]; intros;
    apply rd_post_ret, wf_Uint|].
  destruct (_ =? _); [eapply rd_post_bind; [apply rd_post_zigzag|]; intros;
    by apply rd_post_ret, wf_Int|].
  destruct (_ =? _).
  { eapply rd_post_bind; [apply rd_post_N|]. intros x Hx. apply rd_post_ret, wf_Float.
    pose proof (le_get_range x) as Hr. rewrite Hx in Hr. exact Hr. }
  do 2 (destruct (_ =? _); [eapply rd_post_bind; [apply rd_post_true|]; intros;
    apply rd_post_ret; by destruct n|]).
  destruct (_ =? _); [eapply rd_post_bind; [apply rd_post_zigzag|]; intros;
    by apply rd_post_ret, wf_Time|].
  do 5 (destruct (_ =? _); [eapply rd_post_bind; [apply rd_post_N|]; intros x Hx;
    apply rd_post_ret, wf_raw; simpl; rewrite Hx; set_solver|]).
  destruct (_ =? _); [|apply rd_post_fail].
  eapply rd_post_bind; [apply rd_post_true|]. intros cnt _.
  eapply rd_post_bind; [apply rd_post_true|]. intros len _.
  destruct (len <? cnt); [apply rd_post_fail|]. destruct n as [|n]; [apply rd_post_fail|].
  eapply rd_post_bind; [apply rd_post_true|]. intros _ _.
  eapply rd_post_bind; [apply rd_post_repeat, IH; lia|]. intros items Hi. apply rd_post_ret.
  cbn. clear -Hi. induction Hi as [|v l Hv _ IHl]; simpl; [done|]. by rewrite Hv, IHl.
Qed.

Lemma decode_known_field reg id path :
  0 ≤ id < 2 ^ 16 → (id = 0 ∨ PathForID reg id = Some path) →
  rd_post ((v ← decodeValue 0; mret (Some (MkField id path v))) : rd (option Field))
    (fun o => ∀ f, o = Some f → wf_field reg f = true).
Proof.
  intros Hid Hp. eapply rd_post_bind; [apply decodeValue_wf|].
  intros v Hv. apply rd_post_ret. intros f [= <-]. unfold wf_field.
  cbn [fid Path Val]. rewrite Nat.sub_0_r in Hv. rewrite Hv.
  rewrite (proj2 (Z.leb_le 0 id)), (proj2 (Z.ltb_lt id _)) by lia. simpl.
  destruct Hp as [-> | ->]; [done|]. rewrite bool_decide_eq_true_2 by done.
  by rewrite orb_true_r.
Qed.

Lemma decodeField_wf reg :
  rd_post (decodeField reg true) (fun o => ∀ f, o = Some f → wf_field reg f = true).
Proof.
  unfold decodeField. eapply rd_post_bind; [apply rd_post_true|]. intros rawID _.
  pose proof (wrap_range 16 rawID ltac:(lia)) as Hr.
  destruct (Z.eqb_spec (u16 rawID) 0) as [E|E].
  - eapply rd_post_bind; [apply rd_post_true|]. intros path _. apply decode_known_field; auto.
  - destruct (PathForID reg (u16 rawID)) as [path|] eqn:Hp; [by apply decode_known_field; auto|].
    eapply rd_post_bind; [apply rd_post_true|]. intros v _. by apply rd_post_ret.
Qed.



Lemma decodeField_safe reg sk : rd_safe fits (decodeField reg sk).
Proof.
  unfold decodeField, readStr, decodeValue. pose proof decodeValue_safe.
  apply (rd_safe_bind _ fits_mono); [auto with wire|]. intros rawID.
  destruct (_ =? 0); [|destruct (PathForID _ _)]; eauto 10 using fits_mono with wire.
Qed.

Lemma decodePayload_safe reg sk flags payload :
  fits (length payload) → decodePayload reg sk flags payload ≠ Panic.
Proof.
  intros Hf. unfold decodePayload, mbind, rd_bind.
  assert (rd_safe fits (decodeDeviceID flags)) as Hdev.
  { unfold decodeDeviceID, readStr. destruct (negb _); eauto using fits_mono with wire. }
  destruct (Hdev payload Hf) as [Hp Hl]. destruct (decodeDeviceID flags payload) as [[dev b]|e|];
    [|done|done]. specialize (Hl _ _ eq_refl).
  assert (rd_safe fits (decodeTimestamp flags)) as Hts.
  { unfold decodeTimestamp. destruct (negb _); eauto 10 using fits_mono with wire. }
  destruct (Hts b) as [Hp1 Hl1]; [by eapply fits_mono|].
  destruct (decodeTimestamp flags b) as [[ts b1]|e|]; [|done|done]. specialize (Hl1 _ _ eq_refl).
  assert (fits (length b1)) as Hf1 by (eapply fits_mono; [done|lia]).
  destruct (rd_safe_uvarint fits b1 Hf1) as [Hp2 Hl2].
  destruct (readUvarint b1) as [[count b2]|e|] eqn:Eu; [|done|done]. specialize (Hl2 _ _ eq_refl).
  pose proof (rd_post_uvarint _ _ _ Eu) as Hc. simpl in Hc.
  unfold rd_len. destruct (Z.ltb_spec (Z.of_nat (length b2)) count); [done|].
  unfold rd_lift, go_make, make_ok. unfold fits in Hf1.
  rewrite (proj2 (Z.leb_le 0 _)), (proj2 (Z.leb_le (sizeof_Field * _) _))
    by (unfold sizeof_Field in *; lia). cbn [andb mbind res_bind].
  destruct (rd_safe_repeat fits fits_mono (Z.to_nat count) _ (decodeField_safe reg sk) b2) as [Hp3 _].
  { eapply fits_mono; [exact Hf1|lia]. }
  by destruct (rd_repeat _ _ b2) as [[items b3]|e|].
Qed.

(** The decoder never panics.  On any datagram small enough to be in memory
    ([96 * len] within the allocator's limit) it returns a message or an error:
    no length, count or nesting claimed by the sender reaches an allocation or
    an index unchecked, compressed or not. *)
Theorem decode_no_panic (reg : registry) (sk : bool) (data : bytes) :
  sizeof_Field * Z.of_nat (length data) ≤ maxAlloc → Decode reg sk data ≠ Panic.
Proof.
  intros Hfit. unfold Decode.
  destruct data as [|m0 [|m1 [|ver [|? [|? [|fl [|? [|? payload]]]]]]]]; try done.
  destruct (_ || _); [done|]. destruct (negb _); [done|].
  assert (fits (length payload)) as Hf by (eapply (fits_mono _ _ Hfit); simpl; lia).
  destruct (negb _).
  - destruct (_ <? 4)%nat; [done|].
    pose proof (lz4_decompress_result (drop 4 payload) (le_get (take 4 payload))) as [Hp Hl].
    destruct (lz4_decompress _ _) as [p|e|]; [|done|done]. simpl.
    specialize (Hl _ eq_refl). assert (fits (length p)) as Hfp.
    { unfold fits, sizeof_Field, maxAlloc. change maxDecodedPayload with 16777216 in Hl. lia. }
    pose proof (decodePayload_safe reg sk (b2z fl) p Hfp).
    by destruct (decodePayload reg sk (b2z fl) p).
  - simpl. pose proof (decodePayload_safe reg sk (b2z fl) payload Hf).
    by destruct (decodePayload reg sk (b2z fl) payload).
Qed.

Lemma decode_no_panic_witness :
  let reg := buildRegistry [] in
  let hostile := map z2b ([0x57; 0x55; 1; 0; 0; 0; 0; 0] ++ repeat 0xff 8 ++ [0x3f]) in
  sizeof_Field * Z.of_nat (length hostile) ≤ maxAlloc ∧
  Decode reg false hostile = Err ErrTruncated ∧ Decode reg false hostile ≠ Panic.
Proof.
  intros reg hostile. split; [vm_compute; discriminate|]. split; [vm_compute; reflexivity|].
  apply (decode_no_panic reg false hostile). vm_compute. discriminate.
Defined.

(** *** The registry *)

Lemma registry_ids_lookup sorted : ∀ i m p,
  match registry_ids i sorted m !! p with
  | Some id => (∃ j : nat, sorted !! j = Some p ∧ id = u16 (i + Z.of_nat j + 1)) ∨
               (p ∉ sorted ∧ m !! p = Some id)
  | None => p ∉ sorted ∧ m !! p = None
  end.
Proof.
  induction sorted as [|q sorted IH]; intros i m p; simpl.
  { destruct (m !! p); [right|]; split; auto using not_elem_of_nil. }
  specialize (IH (i + 1) (<[q:=u16 (i + 1)]> m) p).
  destruct (registry_ids _ _ _ !! p) as [id|].
  - destruct IH as [(j & Hj & ->)|[Hn Hm]].
    + left. exists (S j). split; [done|]. f_equal. lia.
    + destruct (decide (q = p)) as [->|Hne].
      * rewrite lookup_insert_eq in Hm. injection Hm as <-. left. exists 0%nat.
        split; [done|]. f_equal. lia.
      * rewrite lookup_insert_ne in Hm by done. right. set_solver.
  - destruct IH as [Hn Hm]. destruct (decide (q = p)) as [->|Hne].
    + by rewrite lookup_insert_eq in Hm.
    + rewrite lookup_insert_ne in Hm by done. set_solver.
Qed.

(** The path registry is invertible.  For any list of at most 65535
    parameter paths, in any order and with duplicates, every listed path has a
    nonzero uint16 field ID and looking that ID up gives the path back; a path
    that is not listed has no ID. *)
Theorem registry_invertible (params : list bytes) :
  Z.of_nat (length params) ≤ 65535 →
  (∀ p, p ∈ params → ∃ id, IDFor (buildRegistry params) p = (id, true) ∧ 0 < id < 2 ^ 16 ∧
     PathForID (buildRegistry params) id = Some p) ∧
  (∀ p, p ∉ params → IDFor (buildRegistry params) p = (0, false)).
Proof.
  intros Hlen. pose proof (merge_sort_Permutation bytes_le params) as Hperm.
  unfold IDFor, PathForID, buildRegistry; simpl. set (sorted := merge_sort bytes_le params) in *.
  assert (Z.of_nat (length sorted) ≤ 65535) by (by rewrite (Permutation_length Hperm)).
  split; intros p Hp; rewrite <- Hperm in Hp; fold sorted in Hp;
    pose proof (registry_ids_lookup sorted 0 ∅ p) as H0;
    destruct (registry_ids 0 sorted ∅ !! p) as [id|].
  - destruct H0 as [(j & Hj & ->)|[? _]]; [|done].
    pose proof (lookup_lt_Some _ _ _ Hj). rewrite wrap_small by lia.
    eexists. split; [done|]. split; [lia|].
    rewrite (proj2 (Z.eqb_neq _ 0)), (proj2 (Z.ltb_ge _ _)) by lia. simpl.
    replace (Z.to_nat (0 + Z.of_nat j + 1 - 1)) with j by lia. done.
  - by destruct H0.
  - destruct H0 as [(j & Hj & _)|[_ Hm]]; [|by rewrite lookup_empty in Hm].
    destruct Hp. by apply list_elem_of_lookup_2 in Hj.
  - done.
Qed.

Lemma registry_invertible_witness :
  let params := [bs "Device.Time.Status"; bs "Device.DHCPv4.Enable"; bs "Device.Time.Status"] in
  Z.of_nat (length params) ≤ 65535 ∧
  ∃ id, IDFor (buildRegistry params) (bs "Device.DHCPv4.Enable") = (id, true) ∧
        PathForID (buildRegistry params) id = Some (bs "Device.DHCPv4.Enable").
Proof.
  intros params. split; [vm_compute; discriminate|].
  destruct (registry_invertible params) as [H _]; [vm_compute; discriminate|].
  destruct (H (bs "Device.DHCPv4.Enable")) as (id & Hid & _ & Hp); [|by exists id].
  apply elem_of_cons. right. apply elem_of_cons. by left.
Defined.
