(* ===== verification/Fragments.v ===== *)
(** * Control-message fragmentation

    src/internal/wusp/control_fragments.go: splitting a control payload into
    datagrams and reassembling them.  The decoder's (fragment, isFragment,
    error) triple is a [res] of an [option]: [Ok None] is "not a fragment". *)

From S2P Require Import Prelude Wire Lz4.

Definition WUSPMaxDatagramPayload : Z := 1200.
Definition uspControlFragmentVersion : Z := 1.
Definition uspControlFragmentMagic : Z := 0x54.
Definition uspControlFragmentHeaderSize : Z := 23.
Definition MaxUSPControlMessageSize : Z := Z.shiftl 16 20.
Definition MaxUSPControlFragmentCount : Z := Z.shiftl 1 16.

Record USPControlFragment : Type := MkFragment
  { MessageID : Z; Index : Z; Count : Z; RawSize : Z; Compressed : bool; Data : bytes }.

Definition validateUSPControlFragment (f : USPControlFragment) : res werr () :=
  _ ← fail_if (MessageID f =? 0) (ErrValidation "control fragment message id required");
  _ ← fail_if (Count f =? 0) (ErrValidation "control fragment count required");
  _ ← fail_if (MaxUSPControlFragmentCount <? Count f)
        (ErrValidation "control fragment count too large");
  _ ← fail_if (MaxUSPControlMessageSize <? RawSize f)
        (ErrValidation "control fragment raw size too large");
  _ ← fail_if (Count f <=? Index f) (ErrValidation "control fragment index out of range");
  _ ← fail_if (length (Data f) =? 0)%nat (ErrValidation "control fragment missing payload");
  fail_if (Compressed f && (RawSize f =? 0))
    (ErrValidation "compressed control fragment missing raw size").

Definition EncodeUSPControlFragment (f : USPControlFragment) : res werr bytes :=
  _ ← validateUSPControlFragment f;
  let flags := if Compressed f then Z.shiftl 1 0 else 0 in
  Ok (map z2b [uspControlFragmentMagic; uspControlFragmentVersion; flags]
      ++ le_put 8 (MessageID f) ++ le_put 4 (Index f) ++ le_put 4 (Count f)
      ++ le_put 4 (RawSize f) ++ Data f).

Definition DecodeUSPControlFragment (data : bytes) : res werr (option USPControlFragment) :=
  match data with
  | [] => Ok None
  | magic :: _ =>
      if negb (b2z magic =? uspControlFragmentMagic) then Ok None
      else if Z.of_nat (length data) <? uspControlFragmentHeaderSize then
        Err (ErrTransportMalformed "control fragment payload too short")
      else if negb (le_get (slice 1 2 data) =? uspControlFragmentVersion) then
        Err (ErrTransportUnsupported "control fragment version")
      else
        let f := {| Compressed := negb (Z.land (le_get (slice 2 3 data)) (Z.shiftl 1 0) =? 0);
                    MessageID := le_get (slice 3 11 data);
                    Index := le_get (slice 11 15 data);
                    Count := le_get (slice 15 19 data);
                    RawSize := le_get (slice 19 23 data);
                    Data := drop 23 data |} in
        _ ← validateUSPControlFragment f;
        Ok (Some f)
  end.

(** LZ4 of control payloads is disabled in the source. *)
Definition compressUSPControlPayload (data : bytes) : option bytes := None.
Definition decompressUSPControlPayload (data : bytes) (rawSize : Z) : res werr bytes :=
  lz4_decompress data rawSize.

(** The datagram budget actually used, and the data bytes per fragment. *)
Definition datagram_budget (maxDatagramPayload : Z) : Z :=
  if maxDatagramPayload <? uspControlFragmentHeaderSize + 1 then WUSPMaxDatagramPayload
  else maxDatagramPayload.

Definition FragmentUSPControlPayload (payload : bytes) (messageID maxDatagramPayload : Z)
    : res werr (list bytes) :=
  _ ← fail_if (length payload =? 0)%nat (ErrValidation "control payload missing bytes");
  _ ← fail_if (messageID =? 0) (ErrValidation "control fragment message id required");
  let fragmentPayloadSize := datagram_budget maxDatagramPayload - uspControlFragmentHeaderSize in
  let '(wirePayload, rawSize, compressed) :=
    match compressUSPControlPayload payload with
    | Some c => (c, u32 (Z.of_nat (length payload)), true)
    | None => (payload, 0, false)
    end in
  let count := u32 (Z.quot (i64 (Z.of_nat (length wirePayload) + fragmentPayloadSize - 1))
                      fragmentPayloadSize) in
  let count := if count =? 0 then 1 else count in
  mapM_res (fun index =>
      let start := index * fragmentPayloadSize in
      let stop := Z.min (start + fragmentPayloadSize) (Z.of_nat (length wirePayload)) in
      EncodeUSPControlFragment
        {| MessageID := messageID; Index := index; Count := count; RawSize := rawSize;
           Compressed := compressed;
           Data := slice (Z.to_nat start) (Z.to_nat stop) wirePayload |})
    (seqZ 0 count).

(** One step of the reassembly loop over [ordered] and [totalSize]. *)
Definition place_fragment (first : USPControlFragment)
    (st : list (option bytes) * Z) (f : USPControlFragment)
    : res werr (list (option bytes) * Z) :=
  let '(ordered, totalSize) := st in
  _ ← validateUSPControlFragment f;
  _ ← fail_if (negb ((MessageID f =? MessageID first) && (Count f =? Count first)
                     && eqb (Compressed f) (Compressed first) && (RawSize f =? RawSize first)))
        (ErrTransportMalformed "mixed control fragment assembly");
  match ordered !! Z.to_nat (Index f) with
  | None => Panic
  | Some (Some _) => Err (ErrTransportMalformed "duplicate control fragment index")
  | Some None =>
      Ok (<[Z.to_nat (Index f) := Some (Data f)]> ordered,
          totalSize + Z.of_nat (length (Data f)))
  end.

Fixpoint place_fragments (first : USPControlFragment) (st : list (option bytes) * Z)
    (fs : list USPControlFragment) : res werr (list (option bytes) * Z) :=
  match fs with
  | [] => Ok st
  | f :: fs => st ← place_fragment first st f; place_fragments first st fs
  end.

Definition ReassembleUSPControlFragments (fragments : list USPControlFragment)
    : res werr bytes :=
  match fragments with
  | [] => Err (ErrValidation "missing control fragments")
  | first :: _ =>
      _ ← validateUSPControlFragment first;
      _ ← fail_if (negb (u32 (Z.of_nat (length fragments)) =? Count first))
            (ErrTransportMalformed "control fragment count mismatch");
      st ← place_fragments first (replicate (Z.to_nat (Count first)) None, 0) fragments;
      let '(ordered, totalSize) := st in
      _ ← fail_if (MaxUSPControlMessageSize <? totalSize)
            (ErrTransportMalformed "control message too large");
      datas ← mapM_res (fun d => match d with
                        | None => Err (ErrTransportMalformed "missing control fragment index")
                        | Some d => Ok d
                        end) ordered;
      let payload := concat datas in
      if negb (Compressed first) then Ok payload
      else if RawSize first =? 0 then
        Err (ErrTransportMalformed "compressed control fragments missing raw size")
      else decompressUSPControlPayload payload (RawSize first)
  end.

Example frag_ex :
  let payload := bs "0123456789abcdefghij" in
  match FragmentUSPControlPayload payload 7 30 with
  | Ok frames =>
      match mapM_res DecodeUSPControlFragment (reverse frames) with
      | Ok fs => ReassembleUSPControlFragments (omap id fs)
      | _ => Panic
      end
  | _ => Panic
  end = Ok payload.
Proof. vm_compute. reflexivity. Qed.

(** ** Single fragments *)

Definition frag_ok (f : USPControlFragment) : Prop :=
  0 < MessageID f < 2 ^ 64 ∧ 0 ≤ Index f < Count f ∧ Count f ≤ MaxUSPControlFragmentCount ∧
  0 ≤ RawSize f ≤ MaxUSPControlMessageSize ∧ Data f ≠ [] ∧
  (Compressed f = true → RawSize f ≠ 0).

Lemma validate_frag_ok f : frag_ok f → validateUSPControlFragment f = Ok ().
Proof.
  intros (? & ? & ? & ? & Hd & Hc). unfold validateUSPControlFragment, fail_if.
  rewrite (proj2 (Z.eqb_neq (MessageID f) 0)) by lia. cbn [mbind res_bind].
  rewrite (proj2 (Z.eqb_neq (Count f) 0)) by lia. cbn [mbind res_bind].
  rewrite (proj2 (Z.ltb_ge _ (Count f))) by lia. cbn [mbind res_bind].
  rewrite (proj2 (Z.ltb_ge _ (RawSize f))) by lia. cbn [mbind res_bind].
  rewrite (proj2 (Z.leb_gt (Count f) _)) by lia. cbn [mbind res_bind].
  rewrite (proj2 (Nat.eqb_neq _ 0)) by (by destruct (Data f)). cbn [mbind res_bind].
  destruct (Compressed f); [|done]. by rewrite (proj2 (Z.eqb_neq _ 0)) by auto.
Qed.

Lemma compressed_flag_bit (c : bool) :
  negb (Z.land (le_get [z2b (if c then Z.shiftl 1 0 else 0)]) (Z.shiftl 1 0) =? 0) = c.
Proof. by destruct c. Qed.

Lemma fragment_decode_encode f :
  frag_ok f →
  ∃ e, EncodeUSPControlFragment f = Ok e ∧ DecodeUSPControlFragment e = Ok (Some f) ∧
    Z.of_nat (length e) = uspControlFragmentHeaderSize + Z.of_nat (length (Data f)).
Proof.
  intros Hf. pose proof Hf as (Hm & Hi & Hc & Hr & Hd & Hz).
  unfold EncodeUSPControlFragment. rewrite validate_frag_ok by done.
  cbn [mbind res_bind]. eexists. split; [done|].
  change MaxUSPControlFragmentCount with 65536 in Hc.
  change MaxUSPControlMessageSize with 16777216 in Hr.
  set (flags := if Compressed f then _ else _).
  set (hd := map z2b [_; _; flags]).
  split; [|rewrite !length_app, !length_le_put; unfold uspControlFragmentHeaderSize; simpl; lia].
  unfold DecodeUSPControlFragment. cbn [hd map app].
  match goal with |- context [z2b uspControlFragmentMagic :: z2b uspControlFragmentVersion ::
    z2b flags :: ?x] => change (z2b uspControlFragmentMagic :: z2b uspControlFragmentVersion ::
    z2b flags :: x) with (hd ++ x) end.
  replace (b2z (z2b uspControlFragmentMagic) =? uspControlFragmentMagic) with true by done.
  cbn [negb].
  assert (length hd = 3%nat) as Hhd by done.
  rewrite (proj2 (Z.ltb_ge _ uspControlFragmentHeaderSize))
    by (rewrite !length_app, !length_le_put, Hhd; unfold uspControlFragmentHeaderSize; lia).
  replace (slice 1 2 (hd ++ _)) with [z2b uspControlFragmentVersion] by done.
  replace (slice 2 3 (hd ++ _)) with [z2b flags] by done.
  rewrite (slice_app_r 3 11), (slice_app_r 11 15), (slice_app_r 15 19), (slice_app_r 19 23)
    by (rewrite ?Hhd; lia).
  rewrite Hhd. cbn [Nat.sub].
  rewrite (slice_app_here 8) by apply length_le_put.
  rewrite !(slice_app_r _ _ (le_put 8 _)) by (rewrite length_le_put; lia).
  rewrite !length_le_put. cbn [Nat.sub].
  rewrite (slice_app_here 4) by apply length_le_put.
  rewrite !(slice_app_r _ _ (le_put 4 (Index f))) by (rewrite length_le_put; lia).
  rewrite !length_le_put. cbn [Nat.sub].
  rewrite (slice_app_here 4) by apply length_le_put.
  rewrite !(slice_app_r _ _ (le_put 4 (Count f))) by (rewrite length_le_put; lia).
  rewrite !length_le_put. cbn [Nat.sub].
  rewrite (slice_app_here 4) by apply length_le_put.
  rewrite !app_assoc, drop_app_length' by (rewrite !length_app, !length_le_put, Hhd; lia).
  rewrite !le_get_put_small by lia. unfold flags. rewrite compressed_flag_bit.
  replace (le_get [z2b uspControlFragmentVersion] =? uspControlFragmentVersion) with true by done.
  cbn [negb]. replace {| MessageID := MessageID f |} with f by (by destruct f).
  by rewrite validate_frag_ok.
Qed.

(** ** Whole messages *)

(** The [i]-th chunk of [s] bytes. *)
Definition chunk (s : nat) (p : bytes) (i : nat) : bytes := take s (drop (i * s) p).

Lemma concat_chunks s p n k :
  (0 < s)%nat → (length p ≤ (k + n) * s)%nat →
  concat (chunk s p <$> seq k n) = drop (k * s) p.
Proof.
  intros Hs. revert k. induction n as [|n IH]; intros k Hk; simpl.
  - rewrite drop_ge; [done|]. lia.
  - rewrite IH by lia. unfold chunk.
    replace (S k * s)%nat with (k * s + s)%nat by lia.
    rewrite <- drop_drop. apply take_drop.
Qed.

Definition frag_at (id count : Z) (s : nat) (p : bytes) (i : nat) : USPControlFragment :=
  {| MessageID := id; Index := Z.of_nat i; Count := count; RawSize := 0;
     Compressed := false; Data := chunk s p i |}.

(** Reassembly of fragments [g i] delivered in any order of distinct indices. *)
Section Reassembly.
Context (g : nat → USPControlFragment) (n : nat) (first : USPControlFragment).
Context (Hg : ∀ i, (i < n)%nat → frag_ok (g i) ∧ Index (g i) = Z.of_nat i ∧
  MessageID (g i) = MessageID first ∧ Count (g i) = Count first ∧
  Compressed (g i) = Compressed first ∧ RawSize (g i) = RawSize first).

Definition slots (got : list nat) : list (option bytes) :=
  (fun i => if decide (i ∈ got) then Some (Data (g i)) else None) <$> seq 0 n.

Lemma slots_insert got i :
  (i < n)%nat → <[i := Some (Data (g i))]> (slots got) = slots (i :: got).
Proof.
  intros Hi. apply list_eq. intros j. unfold slots.
  destruct (decide (i = j)) as [<-|Hne].
  - rewrite list_lookup_insert_eq by (rewrite length_fmap, length_seq; lia).
    rewrite list_lookup_fmap, lookup_seq_lt by done. simpl.
    rewrite decide_True by set_solver. done.
  - rewrite list_lookup_insert_ne by done. rewrite !list_lookup_fmap.
    destruct (seq 0 n !! j) as [k|] eqn:E; [|done].
    apply lookup_seq in E as [-> _]. simpl. f_equal.
    destruct (decide (j ∈ got)), (decide (j ∈ i :: got)); set_solver.
Qed.

Definition sizes (ixs : list nat) : Z :=
  foldr (fun i t => Z.of_nat (length (Data (g i))) + t) 0 ixs.

Lemma place_fragments_ok ixs : ∀ got t,
  NoDup ixs → (∀ i, i ∈ ixs → (i < n)%nat ∧ i ∉ got) →
  place_fragments first (slots got, t) (g <$> ixs) = Ok (slots (reverse ixs ++ got), t + sizes ixs).
Proof.
  induction ixs as [|i ixs IH]; intros got t Hnd Hin; simpl.
  { by rewrite Z.add_0_r. }
  apply NoDup_cons in Hnd as [Hni Hnd]. destruct (Hin i) as [Hi Hgot]; [set_solver|].
  destruct (Hg i Hi) as (Hok & Hx & Hm & Hc & Hz & Hr).
  rewrite validate_frag_ok by done. cbn [mbind res_bind].
  rewrite Hm, Hc, Hz, Hr, !Z.eqb_refl, eqb_reflx. cbn [andb negb fail_if mbind res_bind].
  rewrite Hx, Nat2Z.id. unfold slots at 1. rewrite list_lookup_fmap, lookup_seq_lt by done. simpl.
  rewrite decide_False by done. cbn [mbind res_bind]. rewrite slots_insert by done.
  rewrite IH; [|done|set_solver].
  f_equal. f_equal; [|lia]. f_equal. rewrite reverse_cons, <- app_assoc. done.
Qed.

Lemma slots_all ixs : ixs ≡ₚ seq 0 n → slots (reverse ixs) = (Some ∘ Data ∘ g) <$> seq 0 n.
Proof.
  intros Hp. apply list_fmap_ext. intros j i Hj. rewrite decide_True; [done|].
  rewrite elem_of_reverse, Hp. by eapply list_elem_of_lookup_2.
Qed.

Lemma sizes_perm ixs : ixs ≡ₚ seq 0 n →
  sizes ixs = Z.of_nat (length (concat ((Data ∘ g) <$> seq 0 n))).
Proof.
  intros Hp. transitivity (sizes (seq 0 n)).
  - induction Hp; simpl; lia.
  - clear Hp. induction (seq 0 n) as [|i l IH]; [done|].
    rewrite fmap_cons. cbn [concat sizes foldr]. unfold sizes in IH.
    rewrite length_app, Nat2Z.inj_add, <- IH. done.
Qed.
End Reassembly.

Lemma Reassemble_any_order (g : nat → USPControlFragment) n ixs :
  (0 < n)%nat → Z.of_nat n < 2 ^ 32 →
  (∀ i, (i < n)%nat → frag_ok (g i) ∧ Index (g i) = Z.of_nat i ∧
    MessageID (g i) = MessageID (g 0%nat) ∧ Count (g i) = Z.of_nat n ∧
    Compressed (g i) = false ∧ RawSize (g i) = 0) →
  ixs ≡ₚ seq 0 n →
  Z.of_nat (length (concat ((Data ∘ g) <$> seq 0 n))) ≤ MaxUSPControlMessageSize →
  ReassembleUSPControlFragments (g <$> ixs) = Ok (concat ((Data ∘ g) <$> seq 0 n)).
Proof.
  intros Hn Hn32 Hg Hp Hsz. pose proof (Permutation_length Hp) as Hl. rewrite length_seq in Hl.
  assert (∀ i, i ∈ ixs → (i < n)%nat) as Hin
    by (intros i; rewrite Hp, elem_of_seq; lia).
  assert (NoDup ixs) as Hnd by (rewrite Hp; apply NoDup_seq).
  destruct ixs as [|i0 tl] eqn:His; [simpl in Hl; lia|]. rewrite <- His in *.
  destruct (Hg i0) as (Hok0 & _ & Hm0 & Hc0 & Hz0 & Hr0); [set_solver|].
  unfold ReassembleUSPControlFragments. rewrite His at 1. cbn [fmap list_fmap].
  rewrite validate_frag_ok by done. cbn [mbind res_bind].
  rewrite length_fmap, Hl, Hc0, wrap_small, Z.eqb_refl by lia.
  cbn [negb fail_if mbind res_bind].
  replace (replicate (Z.to_nat (Z.of_nat n)) None) with (slots g n []).
  2:{ rewrite Nat2Z.id. unfold slots. symmetry. apply replicate_as_elem_of. split.
      - by rewrite length_fmap, length_seq.
      - intros o (i & -> & _)%list_elem_of_fmap. rewrite decide_False; [done|set_solver]. }
  rewrite (place_fragments_ok g n (g i0)); [| |done|set_solver].
  2:{ intros i Hi. destruct (Hg i Hi) as (?&?&?&?&?&?).
      split_and!; [done|done|congruence..]. }
  rewrite app_nil_r, (slots_all g n), (sizes_perm g n) by done. cbn [mbind res_bind].
  rewrite (proj2 (Z.ltb_ge _ _)) by lia. cbn [fail_if mbind res_bind].
  rewrite Hz0. cbn [negb].
  rewrite (proj2 (mapM_res_Forall2 _ _ ((Data ∘ g) <$> seq 0 n))); [done|].
  apply Forall2_fmap_2, Forall_Forall2_diag, Forall_forall. done.
Qed.

Lemma count_of_len s len :
  0 < s < 2 ^ 62 → 0 < len < 2 ^ 62 → len ≤ MaxUSPControlFragmentCount * s →
  u32 (Z.quot (i64 (len + s - 1)) s) = (len + s - 1) / s ∧
  0 < (len + s - 1) / s ≤ MaxUSPControlFragmentCount ∧
  len ≤ (len + s - 1) / s * s < len + s.
Proof.
  change MaxUSPControlFragmentCount with 65536. intros Hs Hl Hc.
  rewrite swrap_small, Z.quot_div_nonneg by lia.
  pose proof (Z.div_mod (len + s - 1) s). pose proof (Z.mod_pos_bound (len + s - 1) s).
  assert (0 < (len + s - 1) / s ≤ 65536) by nia.
  split; [apply wrap_small; lia|]. split; [done|nia].
Qed.

Lemma chunk_slice s p i :
  slice (i * s) (min (i * s + s) (length p)) p = chunk s p i.
Proof.
  unfold slice, chunk.
  destruct (decide (i * s + s ≤ length p)%nat).
  - f_equal; lia.
  - rewrite !take_ge; [done|rewrite length_drop; lia..].
Qed.

(** What [FragmentUSPControlPayload] emits within the limits. *)
Lemma Fragment_frames payload id mx n :
  let s := Z.to_nat (datagram_budget mx - uspControlFragmentHeaderSize) in
  payload ≠ [] → 0 < id < 2 ^ 64 → mx < 2 ^ 62 →
  Z.of_nat (length payload) ≤ MaxUSPControlMessageSize →
  Z.of_nat (length payload) ≤ MaxUSPControlFragmentCount * Z.of_nat s →
  Z.of_nat n = (Z.of_nat (length payload) + Z.of_nat s - 1) / Z.of_nat s →
  (0 < s)%nat ∧ (0 < n)%nat ∧ (length payload ≤ n * s)%nat ∧ Z.of_nat n ≤ MaxUSPControlFragmentCount ∧
  (∀ i, (i < n)%nat → frag_ok (frag_at id (Z.of_nat n) s payload i)) ∧
  FragmentUSPControlPayload payload id mx =
    mapM_res EncodeUSPControlFragment (frag_at id (Z.of_nat n) s payload <$> seq 0 n).
Proof.
  intros s Hne Hid Hmx Hmax Hcount Hn.
  assert (Z.of_nat s = datagram_budget mx - uspControlFragmentHeaderSize ∧ 0 < Z.of_nat s < 2 ^ 62)
    as [Hs Hs0].
  { unfold s, datagram_budget, uspControlFragmentHeaderSize, WUSPMaxDatagramPayload in *.
    destruct (Z.ltb_spec mx (23 + 1)); lia. }
  assert (0 < length payload)%nat by (destruct payload; simpl; [done|lia]).
  change MaxUSPControlMessageSize with 16777216 in *.
  destruct (count_of_len (Z.of_nat s) (Z.of_nat (length payload))) as (Hq & Hr & Hb);
    [lia..|]. rewrite <- Hn in *.
  split_and!; [lia|lia|nia|lia| |].
  - intros i Hi. unfold frag_ok, frag_at. simpl. change MaxUSPControlMessageSize with 16777216.
    split_and!; try lia; try done.
    unfold chunk. intros Hd%(f_equal length). rewrite length_take, length_drop in Hd. simpl in Hd.
    assert (i * s < length payload)%nat; [nia|lia].
  - unfold FragmentUSPControlPayload. rewrite (proj2 (Nat.eqb_neq _ 0)) by lia.
    cbn [fail_if mbind res_bind]. rewrite (proj2 (Z.eqb_neq id 0)) by lia.
    cbn [fail_if mbind res_bind compressUSPControlPayload]. rewrite <- Hs, Hq.
    rewrite (proj2 (Z.eqb_neq _ 0)) by lia.
    rewrite mapM_res_fmap. unfold seqZ. rewrite mapM_res_fmap, Nat2Z.id.
    apply mapM_res_ext. intros i Hi. simpl. unfold frag_at. f_equal. rewrite Z.add_0_r.
    f_equal. rewrite <- chunk_slice. f_equal; lia.
Qed.

(** The datagrams of a payload within the size and count limits: datagram [i]
    fits the budget and decodes to the fragment of index [i], and the fragments in
    any order give the payload back. *)
Lemma fragments_indexed payload id mx :
  payload ≠ [] → 0 < id < 2 ^ 64 → mx < 2 ^ 62 →
  Z.of_nat (length payload) ≤ MaxUSPControlMessageSize →
  Z.of_nat (length payload)
    ≤ MaxUSPControlFragmentCount * (datagram_budget mx - uspControlFragmentHeaderSize) →
  ∃ (enc : nat → bytes) (g : nat → USPControlFragment) n, FragmentUSPControlPayload payload id mx = Ok (enc <$> seq 0 n) ∧
    Z.of_nat n ≤ MaxUSPControlFragmentCount ∧
    (∀ i, (i < n)%nat → DecodeUSPControlFragment (enc i) = Ok (Some (g i)) ∧ Index (g i) = Z.of_nat i ∧
       Z.of_nat (length (enc i)) ≤ datagram_budget mx) ∧
    ∀ ixs, ixs ≡ₚ seq 0 n → ReassembleUSPControlFragments (g <$> ixs) = Ok payload.
Proof.
  intros Hne Hid Hmx Hmax Hcount.
  assert (0 < datagram_budget mx - uspControlFragmentHeaderSize) as Hb0.
  { unfold datagram_budget, uspControlFragmentHeaderSize, WUSPMaxDatagramPayload in *.
    destruct (Z.ltb_spec mx (23 + 1)); lia. }
  set (s := Z.to_nat (datagram_budget mx - uspControlFragmentHeaderSize)).
  set (n := Z.to_nat ((Z.of_nat (length payload) + Z.of_nat s - 1) / Z.of_nat s)).
  destruct (Fragment_frames payload id mx n) as (Hs & Hn & Hlen & Hn' & Hok & HF);
    [done..|fold s; lia| |].
  { fold s. unfold n. rewrite Z2Nat.id; [done|]. apply Z.div_pos; lia. }
  fold s in HF, Hok, Hlen. set (g := frag_at id (Z.of_nat n) s payload) in *.
  change MaxUSPControlFragmentCount with 65536 in Hn'.
  set (enc i := match EncodeUSPControlFragment (g i) with Ok e => e | _ => [] end).
  assert (∀ i, (i < n)%nat → EncodeUSPControlFragment (g i) = Ok (enc i) ∧
    DecodeUSPControlFragment (enc i) = Ok (Some (g i)) ∧
    Z.of_nat (length (enc i)) ≤ datagram_budget mx) as Henc.
  { intros i Hi. destruct (fragment_decode_encode (g i)) as (e & He & Hd & Hl); [auto|].
    unfold enc. rewrite He. split_and!; [done|done|]. rewrite Hl. simpl.
    unfold chunk. rewrite length_take. lia. }
  exists enc, g, n. split_and!; [|done| |].
  - rewrite HF, mapM_res_fmap. apply mapM_res_ok. intros i Hi%elem_of_seq. apply Henc. lia.
  - intros i Hi. destruct (Henc i Hi) as (_ & Hd & Hl). by split_and!.
  - intros ixs Hp. assert (concat ((Data ∘ g) <$> seq 0 n) = payload) as Hcat
      by (rewrite <- (drop_0 payload) at 1; apply (concat_chunks s payload n 0); [done|simpl; lia]).
    rewrite (Reassemble_any_order g n ixs); [by f_equal|lia|lia| |done|by rewrite Hcat].
    intros i Hi. split_and!; auto.
Qed.

(** A payload within the size and count limits is split into datagrams that fit
    the budget, and the datagrams delivered in any order give it back. *)
Lemma fragments_reassemble payload id mx :
  payload ≠ [] → 0 < id < 2 ^ 64 → mx < 2 ^ 62 →
  Z.of_nat (length payload) ≤ MaxUSPControlMessageSize →
  Z.of_nat (length payload)
    ≤ MaxUSPControlFragmentCount * (datagram_budget mx - uspControlFragmentHeaderSize) →
  ∃ frames, FragmentUSPControlPayload payload id mx = Ok frames ∧
    Forall (fun e => Z.of_nat (length e) ≤ datagram_budget mx) frames ∧
    ∀ frames', frames' ≡ₚ frames →
      ∃ fs, mapM_res DecodeUSPControlFragment frames' = Ok (Some <$> fs) ∧
        ReassembleUSPControlFragments fs = Ok payload.
Proof.
  intros Hne Hid Hmx Hmax Hcount.
  destruct (fragments_indexed payload id mx Hne Hid Hmx Hmax Hcount) as (enc & g & n & HF & _ & Henc & Hre).
  assert (∀ ixs, ixs ≡ₚ seq 0 n → ∀ i, i ∈ ixs → (i < n)%nat) as Hseq
    by (intros ixs Hp i; rewrite Hp, elem_of_seq; lia).
  exists (enc <$> seq 0 n). split_and!; [done| |].
  - apply Forall_fmap, Forall_forall. intros i Hi. apply Henc. by eapply Hseq.
  - intros frames' Hp. apply Permutation_map_inv in Hp as (ixs & -> & Hp).
    exists (g <$> ixs). symmetry in Hp. split; [|by apply Hre].
    rewrite <- list_fmap_compose. change (map enc ixs) with (enc <$> ixs).
    rewrite mapM_res_fmap. apply mapM_res_ok. intros i Hi. apply Henc. by eapply Hseq.
Qed.

(** ** What a successful reassembly implies *)

Lemma validate_ok_inv f : validateUSPControlFragment f = Ok () →
  MessageID f ≠ 0 ∧ Index f < Count f ≤ MaxUSPControlFragmentCount ∧
  RawSize f ≤ MaxUSPControlMessageSize ∧ Data f ≠ [].
Proof.
  unfold validateUSPControlFragment, fail_if.
  destruct (Z.eqb_spec (MessageID f) 0); cbn [mbind res_bind]; [done|].
  destruct (Z.eqb_spec (Count f) 0); cbn [mbind res_bind]; [done|].
  destruct (Z.ltb_spec MaxUSPControlFragmentCount (Count f)); cbn [mbind res_bind]; [done|].
  destruct (Z.ltb_spec MaxUSPControlMessageSize (RawSize f)); cbn [mbind res_bind]; [done|].
  destruct (Z.leb_spec (Count f) (Index f)); cbn [mbind res_bind]; [done|].
  destruct (Nat.eqb_spec (length (Data f)) 0); cbn [mbind res_bind]; [done|].
  intros _. split_and!; try lia. by intros E; rewrite E in *.
Qed.

Lemma validate_no_panic f : validateUSPControlFragment f ≠ Panic.
Proof.
  unfold validateUSPControlFragment, fail_if. repeat case_match; done.
Qed.

Definition indexN (f : USPControlFragment) : nat := Z.to_nat (Index f).

Section Placed.
Context (first : USPControlFragment).

Lemma place_fragment_inv ordered t f st :
  place_fragment first (ordered, t) f = Ok st →
  validateUSPControlFragment f = Ok () ∧ Count f = Count first ∧
  MessageID f = MessageID first ∧
  ordered !! indexN f = Some None ∧
  st = (<[indexN f := Some (Data f)]> ordered, t + Z.of_nat (length (Data f))).
Proof.
  unfold place_fragment. intros (u & Hv & H)%bind_ok. destruct u.
  apply bind_ok in H as (u & Hm & H). destruct u.
  unfold fail_if in Hm. destruct (_ =? _) eqn:Hmi in Hm; [|done].
  destruct (_ =? _) eqn:Hc in Hm; [|done].
  apply Z.eqb_eq in Hmi. apply Z.eqb_eq in Hc.
  fold (indexN f) in H. destruct (ordered !! indexN f) as [[]|] eqn:E; [done| |done].
  by inversion H.
Qed.

Lemma place_fragments_inv fs : ∀ ordered t ordered' t',
  place_fragments first (ordered, t) fs = Ok (ordered', t') →
  NoDup (indexN <$> fs) ∧
  Forall (fun f => validateUSPControlFragment f = Ok () ∧ Count f = Count first ∧
    ordered !! indexN f = Some None ∧ ordered' !! indexN f = Some (Some (Data f))) fs ∧
  (∀ j, j ∉ indexN <$> fs → ordered' !! j = ordered !! j) ∧ length ordered' = length ordered.
Proof.
  induction fs as [|f fs IH]; intros ordered t ordered' t'; simpl.
  { intros [= <- <-]. split_and!; [constructor|constructor|done|done]. }
  intros (st & Hst & H)%bind_ok.
  apply place_fragment_inv in Hst as (Hv & Hc & _ & Hn & ->).
  apply IH in H as (Hnd & Hall & Hrest & Hlen).
  assert (indexN f ∉ indexN <$> fs) as Hni.
  { intros (f' & E & Hf')%list_elem_of_fmap. rewrite Forall_forall in Hall.
    destruct (Hall f' Hf') as (_ & _ & Hl & _). rewrite <- E in Hl.
    rewrite list_lookup_insert_eq in Hl by (by eapply lookup_lt_Some). done. }
  split_and!.
  - by constructor.
  - constructor.
    + split_and!; [done..|]. rewrite Hrest by done.
      apply list_lookup_insert_eq. by eapply lookup_lt_Some.
    + apply Forall_forall. intros f' Hf'. rewrite Forall_forall in Hall.
      destruct (Hall f' Hf') as (? & ? & Hl & ?). split_and!; try done.
      rewrite list_lookup_insert_ne in Hl; [done|]. intros E. apply Hni.
      rewrite E. by apply list_elem_of_fmap_2.
  - intros j Hj. rewrite Hrest by set_solver. apply list_lookup_insert_ne. set_solver.
  - by rewrite Hlen, length_insert.
Qed.
End Placed.

(** The fragments in index order. *)
Lemma index_order (fs : list USPControlFragment) n :
  NoDup (indexN <$> fs) → Forall (fun f => (indexN f < n)%nat) fs →
  (∀ j, (j < n)%nat → j ∈ indexN <$> fs) →
  ∃ fs', fs' ≡ₚ fs ∧ indexN <$> fs' = seq 0 n.
Proof.
  intros Hnd Hlt Hall.
  assert (indexN <$> fs ≡ₚ seq 0 n) as Hp.
  { apply NoDup_Permutation; [done|apply NoDup_seq|]. intros j. rewrite elem_of_seq. split.
    - intros (f & -> & Hf)%list_elem_of_fmap. rewrite Forall_forall in Hlt. specialize (Hlt f Hf). lia.
    - intros Hj. apply Hall. lia. }
  symmetry in Hp. apply Permutation_map_inv in Hp as (fs' & Heq & Hp').
  exists fs'. split; [by symmetry|]. symmetry. exact Heq.
Qed.

Lemma Reassemble_inv fs first payload :
  head fs = Some first → Compressed first = false → Forall (fun f => 0 ≤ Index f) fs →
  ReassembleUSPControlFragments fs = Ok payload →
  ∃ fs', fs' ≡ₚ fs ∧ Index <$> fs' = seqZ 0 (Count first) ∧ payload = concat (Data <$> fs').
Proof.
  intros Hh Hz Hpos. unfold ReassembleUSPControlFragments.
  destruct fs as [|f0 fs0] eqn:Hfs; [done|]. rewrite <- Hfs in *.
  assert (f0 = first) as -> by (rewrite Hfs in Hh; by injection Hh). clear Hh.
  intros (u & Hv & H)%bind_ok. apply bind_ok in H as (u' & _ & H).
  apply bind_ok in H as ([ordered t] & Hpl & H).
  apply bind_ok in H as (u'' & _ & H). apply bind_ok in H as (datas & Hd & H).
  rewrite Hz in H. injection H as <-.
  set (n := Z.to_nat (Count first)) in *.
  apply place_fragments_inv in Hpl as (Hnd & Hall & Hrest & Hlen).
  rewrite length_replicate in Hlen. apply mapM_res_Forall2 in Hd.
  assert (∀ j, (j < n)%nat → ∃ d, ordered !! j = Some (Some d) ∧ datas !! j = Some d) as Hget.
  { intros j Hj. destruct (ordered !! j) as [o|] eqn:E.
    - destruct (Forall2_lookup_l _ _ _ _ _ Hd E) as (d & Hdj & Ho).
      destruct o; [|done]. injection Ho as ->. eauto.
    - apply lookup_ge_None in E. lia. }
  destruct (index_order fs n) as (fs' & Hp & Hidx); [done| | |].
  - apply Forall_forall. intros f Hf. rewrite Forall_forall in Hall.
    destruct (Hall f Hf) as (_ & _ & Hl & _). apply lookup_lt_Some in Hl.
    by rewrite length_replicate in Hl.
  - intros j Hj. destruct (Hget j Hj) as (d & Ho & _).
    destruct (decide (j ∈ indexN <$> fs)) as [|Hni]; [done|].
    rewrite Hrest in Ho by done. apply lookup_replicate in Ho as [? _]. done.
  - exists fs'. split_and!; [done| |].
    + transitivity (Z.of_nat <$> (indexN <$> fs')).
      * rewrite <- list_fmap_compose. apply list_fmap_ext. intros i f Hf. simpl.
        rewrite Forall_forall in Hpos. unfold indexN. rewrite Z2Nat.id; [done|].
        apply Hpos. rewrite <- Hp. by eapply list_elem_of_lookup_2.
      * rewrite Hidx. apply list_fmap_ext. intros. lia.
    + f_equal. apply list_eq. intros j. rewrite list_lookup_fmap.
      pose proof (f_equal (fun l => l !! j) Hidx) as Hj. simpl in Hj.
      rewrite list_lookup_fmap in Hj. apply Forall2_length in Hd.
      destruct (decide (j < n)%nat) as [Hlt|Hge].
      * rewrite lookup_seq_lt in Hj by done. destruct (fs' !! j) as [f|] eqn:E; [|done].
        injection Hj as Hj. destruct (Hget j Hlt) as (d & Ho & ->). simpl. f_equal.
        rewrite Forall_forall in Hall. destruct (Hall f) as (_ & _ & _ & Ho').
        { rewrite <- Hp. by eapply list_elem_of_lookup_2. }
        rewrite Hj in Ho'. simpl in Ho'. congruence.
      * rewrite lookup_seq_ge in Hj by lia. destruct (fs' !! j); [done|].
        apply lookup_ge_None. lia.
Qed.

Lemma Fragment_too_many payload id mx :
  23 < mx < 2 ^ 31 → id ≠ 0 → Z.of_nat (length payload) ≤ MaxUSPControlMessageSize →
  MaxUSPControlFragmentCount * (mx - uspControlFragmentHeaderSize) < Z.of_nat (length payload) →
  FragmentUSPControlPayload payload id mx = Err (ErrValidation "control fragment count too large").
Proof.
  change MaxUSPControlFragmentCount with 65536. change MaxUSPControlMessageSize with 16777216.
  unfold uspControlFragmentHeaderSize. intros Hmx Hid Hmax Hlen.
  unfold FragmentUSPControlPayload. rewrite (proj2 (Nat.eqb_neq _ 0)) by lia.
  cbn [fail_if mbind res_bind]. rewrite (proj2 (Z.eqb_neq id 0)) by done.
  cbn [fail_if mbind res_bind compressUSPControlPayload].
  unfold datagram_budget, uspControlFragmentHeaderSize.
  rewrite (proj2 (Z.ltb_ge mx _)) by lia.
  set (len := Z.of_nat (length payload)) in *. set (s := mx - 23) in *.
  rewrite swrap_small, Z.quot_div_nonneg by lia.
  pose proof (Z.div_mod (len + s - 1) s). pose proof (Z.mod_pos_bound (len + s - 1) s).
  assert (65536 < (len + s - 1) / s ≤ 16777216) by nia.
  rewrite wrap_small, (proj2 (Z.eqb_neq _ 0)) by lia.
  rewrite seqZ_cons by lia. simpl.
  unfold EncodeUSPControlFragment, validateUSPControlFragment. simpl.
  rewrite (proj2 (Z.eqb_neq id 0)) by done. cbn [fail_if mbind res_bind].
  rewrite (proj2 (Z.eqb_neq _ 0)) by lia. cbn [fail_if mbind res_bind].
  change MaxUSPControlFragmentCount with 65536.
  by rewrite (proj2 (Z.ltb_lt _ _)) by lia.
Qed.

Lemma Decode_no_panic data : DecodeUSPControlFragment data ≠ Panic.
Proof.
  unfold DecodeUSPControlFragment. destruct data; [done|].
  repeat case_match; try done.
  match goal with |- context [validateUSPControlFragment ?f] =>
    pose proof (validate_no_panic f); destruct (validateUSPControlFragment f) end; done.
Qed.

Lemma place_fragment_no_panic first ordered t f :
  0 ≤ Index f → length ordered = Z.to_nat (Count first) →
  place_fragment first (ordered, t) f ≠ Panic.
Proof.
  intros Hi0 Hlen. unfold place_fragment. pose proof (validate_no_panic f).
  destruct (validateUSPControlFragment f) as [[]| |] eqn:Hv; [|done|done].
  apply validate_ok_inv in Hv as (_ & Hi & _). cbn [mbind res_bind].
  unfold fail_if. destruct (_ && _) eqn:Hm; [|done]. cbn [negb mbind res_bind].
  rewrite !andb_true_iff, !Z.eqb_eq in Hm. destruct Hm as (((_ & Hc) & _) & _).
  destruct (ordered !! Z.to_nat (Index f)) as [[]|] eqn:E; [done|done|].
  apply lookup_ge_None in E. lia.
Qed.

Lemma place_fragments_no_panic first fs : ∀ ordered t,
  Forall (fun f => 0 ≤ Index f) fs → length ordered = Z.to_nat (Count first) →
  place_fragments first (ordered, t) fs ≠ Panic.
Proof.
  induction fs as [|f fs IH]; intros ordered t Hpos Hlen; cbn [place_fragments]; [done|].
  apply Forall_cons in Hpos as [Hf Hpos].
  pose proof (place_fragment_no_panic first ordered t f Hf Hlen) as Hp.
  destruct (place_fragment first (ordered, t) f) as [st| |] eqn:E; [|done|done].
  apply place_fragment_inv in E as (_ & _ & _ & _ & ->). cbn [mbind res_bind].
  apply IH; [done|]. by rewrite length_insert.
Qed.

Lemma mapM_slots_no_panic (l : list (option bytes)) :
  mapM_res (fun d => match d with
    | None => Err (ErrTransportMalformed "missing control fragment index")
    | Some d => Ok d end) l ≠ Panic.
Proof.
  induction l as [|[d|] l IH]; simpl; [done| |done].
  destruct (mapM_res _ l); done.
Qed.

Lemma Reassemble_no_panic fs :
  Forall (fun f => 0 ≤ Index f) fs → ReassembleUSPControlFragments fs ≠ Panic.
Proof.
  intros Hpos. unfold ReassembleUSPControlFragments. destruct fs as [|first fs']; [done|].
  set (fs := first :: fs') in *. pose proof (validate_no_panic first).
  destruct (validateUSPControlFragment first); [|done|done]. cbn [mbind res_bind].
  unfold fail_if at 1. destruct (negb (_ =? Count first)); [done|]. cbn [mbind res_bind].
  pose proof (place_fragments_no_panic first fs (replicate (Z.to_nat (Count first)) None) 0 Hpos
    ltac:(apply length_replicate)).
  destruct (place_fragments _ _ _) as [[ordered t]| |]; [|done|done]. cbn [mbind res_bind].
  unfold fail_if at 1. destruct (_ <? _); [done|]. cbn [mbind res_bind].
  pose proof (mapM_slots_no_panic ordered). destruct (mapM_res _ ordered) as [datas| |]; [|done|done].
  cbn [mbind res_bind]. destruct (negb _); [done|]. destruct (_ =? 0); [done|].
  apply lz4_decompress_result.
Qed.

Definition total_size (fs : list USPControlFragment) : Z :=
  foldr (fun f t => Z.of_nat (length (Data f)) + t) 0 fs.

Lemma place_fragments_total first fs : ∀ ordered t ordered' t',
  place_fragments first (ordered, t) fs = Ok (ordered', t') → t' = t + total_size fs.
Proof.
  induction fs as [|f fs IH]; intros ordered t ordered' t'; simpl.
  { intros [= _ <-]. lia. }
  intros (st & Hst & H)%bind_ok. apply place_fragment_inv in Hst as (_ & _ & _ & _ & ->).
  apply IH in H. lia.
Qed.

Lemma total_size_perm fs fs' :
  fs' ≡ₚ fs → Z.of_nat (length (concat (Data <$> fs'))) = total_size fs.
Proof.
  intros Hp. transitivity (total_size fs').
  - clear Hp. induction fs' as [|f l IH]; [done|]. rewrite fmap_cons.
    cbn [concat total_size foldr]. unfold total_size in IH.
    rewrite length_app, Nat2Z.inj_add, IH. done.
  - induction Hp; simpl; lia.
Qed.

Lemma Reassemble_size fs p :
  Forall (fun f => 0 ≤ Index f) fs → ReassembleUSPControlFragments fs = Ok p →
  Z.of_nat (length p) ≤ MaxUSPControlMessageSize.
Proof.
  intros Hpos HR. destruct fs as [|first fs'] eqn:Hfs; [done|]. rewrite <- Hfs in *.
  destruct (Compressed first) eqn:Hz.
  - unfold ReassembleUSPControlFragments in HR. rewrite Hfs in HR. rewrite <- Hfs in HR.
    apply bind_ok in HR as (? & _ & HR). apply bind_ok in HR as (? & _ & HR).
    apply bind_ok in HR as ([] & _ & HR). apply bind_ok in HR as (? & _ & HR).
    apply bind_ok in HR as (? & _ & HR). rewrite Hz in HR. cbn [negb] in HR.
    destruct (_ =? 0); [done|]. apply lz4_decompress_result in HR as [? ?].
    change MaxUSPControlMessageSize with maxDecodedPayload. lia.
  - destruct (Reassemble_inv fs first p) as (fs'' & Hp & _ & ->); [by rewrite Hfs|done..|].
    rewrite (total_size_perm fs) by done.
    unfold ReassembleUSPControlFragments in HR. rewrite Hfs in HR. rewrite <- Hfs in HR.
    apply bind_ok in HR as (? & _ & HR). apply bind_ok in HR as (? & _ & HR).
    apply bind_ok in HR as ([ordered t] & Hpl & HR). apply bind_ok in HR as (? & Ht & _).
    apply place_fragments_total in Hpl. unfold fail_if in Ht.
    destruct (Z.ltb_spec MaxUSPControlMessageSize t); [done|]. lia.
Qed.

(** ** Claims *)

(** C2: A control payload within the size and fragment-count limits is split
    into datagrams none of which exceeds the negotiated budget, and those
    datagrams, delivered in any order, decode and reassemble to exactly that
    payload. *)
Theorem fragment_roundtrip payload id mx :
  payload ≠ [] → 0 < id < 2 ^ 64 → mx < 2 ^ 62 →
  Z.of_nat (length payload) ≤ MaxUSPControlMessageSize →
  Z.of_nat (length payload)
    ≤ MaxUSPControlFragmentCount * (datagram_budget mx - uspControlFragmentHeaderSize) →
  ∃ frames, FragmentUSPControlPayload payload id mx = Ok frames ∧
    Forall (fun e => Z.of_nat (length e) ≤ datagram_budget mx) frames ∧
    ∀ frames', frames' ≡ₚ frames →
      ∃ fs, mapM_res DecodeUSPControlFragment frames' = Ok (Some <$> fs) ∧
        ReassembleUSPControlFragments fs = Ok payload.
Proof. apply fragments_reassemble. Qed.

Lemma fragment_roundtrip_witness :
  ∃ frames, FragmentUSPControlPayload (bs "0123456789abcdefghij") 7 30 = Ok frames ∧
    Forall (fun e => Z.of_nat (length e) ≤ datagram_budget 30) frames ∧
    ∀ frames', frames' ≡ₚ frames →
      ∃ fs, mapM_res DecodeUSPControlFragment frames' = Ok (Some <$> fs) ∧
        ReassembleUSPControlFragments fs = Ok (bs "0123456789abcdefghij").
Proof. apply fragment_roundtrip; [done|lia|lia|vm_compute; congruence..]. Defined.

(** If uncompressed fragments reassemble, every index of the message
    occurs exactly once among them and the payload is their data in index
    order: no fragment is dropped, duplicated or misplaced. *)
Theorem reassemble_sound fs first payload :
  head fs = Some first → Compressed first = false → Forall (fun f => 0 ≤ Index f) fs →
  ReassembleUSPControlFragments fs = Ok payload →
  ∃ fs', fs' ≡ₚ fs ∧ Index <$> fs' = seqZ 0 (Count first) ∧ payload = concat (Data <$> fs').
Proof. apply Reassemble_inv. Qed.

Definition two_fragments : list USPControlFragment :=
  [MkFragment 9 1 2 0 false (bs "world"); MkFragment 9 0 2 0 false (bs "hello ")].

Lemma reassemble_sound_witness :
  ∃ fs', fs' ≡ₚ two_fragments ∧ Index <$> fs' = seqZ 0 2 ∧ bs "hello world" = concat (Data <$> fs').
Proof.
  apply (reassemble_sound two_fragments (MkFragment 9 1 2 0 false (bs "world")));
    [done|done|repeat constructor; simpl; lia|vm_compute; reflexivity].
Defined.

(** The fragment count limit binds before the size limit for small
    budgets: a full-size message of 16 MiB is refused for every negotiated
    budget from 24 to 278 bytes, which the datagram check admits. *)
Theorem fragment_small_budget_refused payload id mx :
  24 ≤ mx ≤ 278 → id ≠ 0 → Z.of_nat (length payload) = MaxUSPControlMessageSize →
  datagram_budget mx = mx ∧
  FragmentUSPControlPayload payload id mx = Err (ErrValidation "control fragment count too large").
Proof.
  intros Hmx Hid Hlen. split.
  - unfold datagram_budget, uspControlFragmentHeaderSize.
    by rewrite (proj2 (Z.ltb_ge _ _)) by lia.
  - apply Fragment_too_many; [lia|done|lia|]. rewrite Hlen.
    unfold uspControlFragmentHeaderSize.
    change MaxUSPControlFragmentCount with 65536. change MaxUSPControlMessageSize with 16777216. lia.
Qed.

Lemma fragment_small_budget_refused_witness :
  let payload := replicate (Z.to_nat MaxUSPControlMessageSize) (z2b 0) in
  datagram_budget 278 = 278 ∧
  FragmentUSPControlPayload payload 1 278 = Err (ErrValidation "control fragment count too large").
Proof.
  intros payload. apply (fragment_small_budget_refused payload 1 278); [lia|lia|].
  unfold payload. rewrite length_replicate. apply Z2Nat.id.
  change MaxUSPControlMessageSize with 16777216. lia.
Defined.

(** Whatever bytes arrive, decoding a fragment returns a value or an
    error, and whatever fragments are combined, reassembly returns a payload
    of at most 16 MiB or an error; neither panics. *)
Theorem fragment_decode_reassemble_safe data (fs : list USPControlFragment) :
  Forall (fun f => 0 ≤ Index f) fs →
  DecodeUSPControlFragment data ≠ Panic ∧ ReassembleUSPControlFragments fs ≠ Panic ∧
  (∀ p, ReassembleUSPControlFragments fs = Ok p → Z.of_nat (length p) ≤ MaxUSPControlMessageSize).
Proof.
  intros H. split; [apply Decode_no_panic|]. split; [by apply Reassemble_no_panic|].
  intros p. by apply Reassemble_size.
Qed.

Lemma fragment_decode_reassemble_safe_witness :
  DecodeUSPControlFragment [z2b 0x54; z2b 1] ≠ Panic ∧
  ReassembleUSPControlFragments two_fragments ≠ Panic ∧
  (∀ p, ReassembleUSPControlFragments two_fragments = Ok p →
    Z.of_nat (length p) ≤ MaxUSPControlMessageSize).
Proof. apply fragment_decode_reassemble_safe. repeat constructor; simpl; lia. Defined.
