(* ===== verification/ReadReplay.v ===== *)
(** * Read replay metadata

    src/internal/wusp/read_replay.go: the metadata keys by which a controller
    asks an agent to re-send some fragments of a kept reply, and the compact
    range-list notation for fragment indices.  Go's nil map and empty map are
    both the empty [gmap]: no modelled operation distinguishes them. *)

From S2P Require Import Prelude Wire GoStr Fragments.

Abbreviation metadata := (gmap bytes bytes).

Definition MetadataKeyReadReplay : bytes := bs "wusp.read_replay".
Definition MetadataKeyResendFragments : bytes := bs "wusp.resend_fragments".
Definition readReplayEnabled : bytes := bs "1".
Definition readReplayMiss : bytes := bs "miss".
Definition maxResendFragmentRanges : nat := 256.

(** Reading a missing key yields the empty string. *)
Definition md_get (m : metadata) (k : bytes) : bytes := default [] (m !! k).

(** The copy a caller may mutate without touching the original. *)
Definition CloneMetadata (m : metadata) : metadata := m.

Definition WithReadReplay (m : metadata) : metadata :=
  <[MetadataKeyReadReplay := readReplayEnabled]> (CloneMetadata m).
Definition WithReadReplayMiss (m : metadata) : metadata :=
  <[MetadataKeyReadReplay := readReplayMiss]> (CloneMetadata m).
Definition SupportsReadReplay (m : metadata) : bool :=
  let value := TrimSpace (md_get m MetadataKeyReadReplay) in
  bool_decide (value = readReplayEnabled) || bool_decide (value = readReplayMiss).
Definition IsReadReplayMiss (m : metadata) : bool :=
  bool_decide (TrimSpace (md_get m MetadataKeyReadReplay) = readReplayMiss).

Definition comma : byte := z2b 44.
Definition dash : byte := z2b 45.

(** The [flush] closure of [FormatFragmentIndexSet]. *)
Definition range_text (start prev : Z) : bytes :=
  FormatUint start ++ (if prev =? start then [] else dash :: FormatUint prev).
Definition flush (b : bytes) (start prev : Z) : bytes :=
  (if (0 <? length b)%nat then b ++ [comma] else b) ++ range_text start prev.

Fixpoint format_loop (b : bytes) (start prev : Z) (rest : list Z) : bytes :=
  match rest with
  | [] => flush b start prev
  | index :: rest =>
      if index =? prev then format_loop b start prev rest
      else if index =? u32 (prev + 1) then format_loop b start index rest
      else format_loop (flush b start prev) index index rest
  end.

Definition FormatFragmentIndexSet (indices : list Z) : bytes :=
  match merge_sort Z.le indices with
  | [] => []
  | first :: rest => format_loop [] first first rest
  end.

(** The indices a range stands for. *)
Definition interval (start stop : Z) : gset Z := list_to_set (seqZ start (stop - start + 1)).

Definition parse_part (out : gset Z) (part : bytes) : res werr (gset Z) :=
  let part := TrimSpace part in
  if (length part =? 0)%nat then Ok out
  else
    let '(lo, hi, found) := Cut part dash in
    match ParseUint (TrimSpace lo) 32 with
    | None => Err (ErrValidation "invalid resend fragment index")
    | Some start =>
        stop ← (if found : bool then
                  match ParseUint (TrimSpace hi) 32 with
                  | None => Err (ErrValidation "invalid resend fragment range")
                  | Some e => if e <? start then Err (ErrValidation "invalid resend fragment range")
                              else Ok e
                  end
                else Ok start);
        if MaxUSPControlFragmentCount <=? stop then
          Err (ErrValidation "resend fragment index too large")
        else Ok (out ∪ interval start stop)
    end.

Fixpoint parse_parts (out : gset Z) (parts : list bytes) : res werr (gset Z) :=
  match parts with
  | [] => Ok out
  | part :: parts => out ← parse_part out part; parse_parts out parts
  end.

Definition ParseFragmentIndexSet (raw : bytes) : res werr (gset Z) :=
  let parts := Split (TrimSpace raw) comma in
  if (maxResendFragmentRanges <? length parts)%nat then
    Err (ErrValidation "too many resend fragment ranges")
  else parse_parts ∅ parts.

Definition WithResendFragments (m : metadata) (indices : list Z) : metadata :=
  let out := CloneMetadata m in
  if (length indices =? 0)%nat then delete MetadataKeyResendFragments out
  else <[MetadataKeyResendFragments := FormatFragmentIndexSet indices]> out.

Definition ResendFragments (m : metadata) : option (gset Z) :=
  let raw := TrimSpace (md_get m MetadataKeyResendFragments) in
  if (length raw =? 0)%nat then None
  else match ParseFragmentIndexSet raw with
       | Ok set => if (size set =? 0)%nat then None else Some set
       | _ => None
       end.

Example fmt_ex : FormatFragmentIndexSet [9; 0; 1; 7; 2; 10; 3; 1] = bs "0-3,7,9-10".
Proof. vm_compute. reflexivity. Qed.

(** ** The maximal runs of a list, the reference notion of the format *)

Fixpoint runs (start prev : Z) (rest : list Z) : list (Z * Z) :=
  match rest with
  | [] => [(start, prev)]
  | index :: rest =>
      if index =? prev then runs start prev rest
      else if index =? prev + 1 then runs start index rest
      else (start, prev) :: runs index index rest
  end.
Definition runs_of (indices : list Z) : list (Z * Z) :=
  match merge_sort Z.le indices with
  | [] => []
  | first :: rest => runs first first rest
  end.

Abbreviation in_count z := (0 ≤ z < MaxUSPControlFragmentCount).

Lemma runs_nonempty rest : ∀ start prev, runs start prev rest ≠ [].
Proof.
  induction rest as [|i rest IH]; intros; simpl; [done|]. repeat case_match; auto; done.
Qed.

Lemma range_text_nonempty s p : range_text s p ≠ [].
Proof.
  unfold range_text. pose proof (FormatUint_nonempty s). by destruct (FormatUint s).
Qed.
Lemma flush_nonempty b s p : flush b s p ≠ [].
Proof.
  unfold flush. intros H%app_nil. destruct H as [_ H]. by eapply range_text_nonempty.
Qed.

Lemma format_loop_runs rest : ∀ b start prev,
  in_count prev → Forall (fun z => in_count z) rest →
  format_loop b start prev rest =
    (if (0 <? length b)%nat then b ++ [comma] else b)
      ++ Join ((uncurry range_text) <$> runs start prev rest) comma.
Proof.
  change MaxUSPControlFragmentCount with 65536.
  induction rest as [|i rest IH]; intros b start prev Hp Hr; cbn [format_loop runs]; [done|].
  apply Forall_cons in Hr as [Hi Hr]. rewrite (wrap_small 32) by lia.
  destruct (i =? prev); [by apply IH|]. destruct (i =? prev + 1); [by apply IH|].
  rewrite IH by done. pose proof (flush_nonempty b start prev) as Hf.
  rewrite fmap_cons. pose proof (runs_nonempty rest i i) as Hn.
  rewrite Join_cons by (by destruct (runs i i rest)).
  rewrite (proj2 (Nat.ltb_lt 0 (length (flush b start prev)))) by
    (destruct (flush b start prev); simpl; [done|lia]).
  unfold flush. simpl uncurry. rewrite <- !app_assoc. done.
Qed.

Lemma runs_bounds rest : ∀ start prev,
  0 ≤ start ≤ prev → in_count prev → Forall (fun z => in_count z) rest →
  Forall (fun r => 0 ≤ r.1 ≤ r.2 ∧ in_count r.2) (runs start prev rest).
Proof.
  induction rest as [|i rest IH]; intros start prev Hs Hp Hr; cbn [runs].
  { constructor; [by simpl|constructor]. }
  apply Forall_cons in Hr as [Hi Hr].
  destruct (i =? prev); [by apply IH|].
  destruct (Z.eqb_spec i (prev + 1)); [apply IH; auto; lia|].
  constructor; [by simpl|]. apply IH; auto; lia.
Qed.

Lemma elem_of_interval z s e : z ∈ interval s e ↔ s ≤ z ≤ e.
Proof. unfold interval. rewrite elem_of_list_to_set, elem_of_seqZ. lia. Qed.

Lemma runs_elements rest : ∀ start prev z, start ≤ prev →
  (∃ r, r ∈ runs start prev rest ∧ r.1 ≤ z ≤ r.2) ↔ start ≤ z ≤ prev ∨ z ∈ rest.
Proof.
  induction rest as [|i rest IH]; intros start prev z Hs; cbn [runs].
  { split.
    - intros (r & ->%list_elem_of_singleton & H). by left.
    - intros [H|H]; [|set_solver]. exists (start, prev). split; [set_solver|done]. }
  destruct (Z.eqb_spec i prev) as [->|]; [|destruct (Z.eqb_spec i (prev + 1)) as [->|]].
  - rewrite IH by lia. rewrite elem_of_cons. split; [naive_solver|].
    intros [?|[->|?]]; [by left|left; lia|by right].
  - rewrite IH by lia. rewrite elem_of_cons. split.
    + intros [?|?]; [|naive_solver]. destruct (decide (z = prev + 1)); [naive_solver|left; lia].
    + intros [?|[->|?]]; [left; lia|left; lia|by right].
  - split.
    + intros (r & [->|Hr]%elem_of_cons & H); [by left|]. right. apply elem_of_cons.
      destruct (proj1 (IH i i z ltac:(lia))) as [?|?]; [eauto|left; lia|by right].
    + intros [H|[->|H]%elem_of_cons].
      * exists (start, prev). split; [set_solver|done].
      * destruct (proj2 (IH i i i ltac:(lia))) as (r & ? & ?); [left; lia|].
        exists r. split; [set_solver|done].
      * destruct (proj2 (IH i i z ltac:(lia))) as (r & ? & ?); [by right|].
        exists r. split; [set_solver|done].
Qed.

Lemma comma_graphic : graphic comma = true. Proof. done. Qed.
Lemma dash_graphic : graphic dash = true. Proof. done. Qed.

Lemma range_text_graphic s p : 0 ≤ s → 0 ≤ p → Forall (fun c => graphic c = true) (range_text s p).
Proof.
  intros. unfold range_text. apply Forall_app. split; [by apply FormatUint_graphic|].
  case_match; [constructor|]. constructor; [done|by apply FormatUint_graphic].
Qed.
Lemma range_text_no_comma s p : 0 ≤ s → 0 ≤ p → comma ∉ range_text s p.
Proof.
  intros. unfold range_text. rewrite elem_of_app.
  intros [H'|H']; [by eapply FormatUint_no_byte in H'|].
  case_match; [set_solver|]. apply elem_of_cons in H' as [?|H']; [done|].
  by eapply FormatUint_no_byte in H'.
Qed.

Lemma parse_range_text out s p :
  0 ≤ s ≤ p → in_count p → parse_part out (range_text s p) = Ok (out ∪ interval s p).
Proof.
  change MaxUSPControlFragmentCount with 65536. intros Hs Hp. unfold parse_part.
  rewrite TrimSpace_graphic by (apply range_text_graphic; lia).
  pose proof (range_text_nonempty s p). rewrite (proj2 (Nat.eqb_neq _ 0))
    by (by destruct (range_text s p)).
  assert (∀ z, 0 ≤ z → dash ∉ FormatUint z) as Hd by (intros; by apply FormatUint_no_byte).
  unfold range_text. destruct (Z.eqb_spec p s) as [->|].
  - rewrite app_nil_r, Cut_no_sep by (apply Hd; lia).
    rewrite TrimSpace_FormatUint, ParseUint_FormatUint by lia. cbn [mbind res_bind].
    change MaxUSPControlFragmentCount with 65536. by rewrite (proj2 (Z.leb_gt 65536 s)) by lia.
  - rewrite Cut_app by (apply Hd; lia).
    rewrite !TrimSpace_FormatUint, !ParseUint_FormatUint by lia.
    rewrite (proj2 (Z.ltb_ge p s)) by lia. cbn [mbind res_bind].
    change MaxUSPControlFragmentCount with 65536. by rewrite (proj2 (Z.leb_gt 65536 p)) by lia.
Qed.

Lemma parse_parts_runs rs : ∀ out,
  Forall (fun r => 0 ≤ r.1 ≤ r.2 ∧ in_count r.2) rs →
  ∃ set, parse_parts out ((uncurry range_text) <$> rs) = Ok set ∧
    ∀ z, z ∈ set ↔ z ∈ out ∨ ∃ r, r ∈ rs ∧ r.1 ≤ z ≤ r.2.
Proof.
  induction rs as [|[s p] rs IH]; intros out Hrs.
  { exists out. split; [done|]. intros z. split; [by left|]. intros [?|(? & ?%elem_of_nil & _)]; done. }
  apply Forall_cons in Hrs as [[Hs Hp] Hrs]. rewrite fmap_cons. cbn [parse_parts uncurry].
  rewrite parse_range_text by done. cbn [mbind res_bind].
  destruct (IH (out ∪ interval s p) Hrs) as (set & -> & Hset). exists set. split; [done|].
  intros z. rewrite Hset, elem_of_union, elem_of_interval. split.
  - intros [[?|?]|(r & ? & ?)]; [by left|right; exists (s, p)|right; exists r]; set_solver.
  - intros [?|(r & [->|?]%elem_of_cons & ?)]; [by left; left|by left; right|right; eauto].
Qed.

Section RoundTrip.
Context (indices : list Z) (Hne : indices ≠ []) (Hin : Forall (fun z => in_count z) indices).

Lemma sorted_cons : ∃ first rest, merge_sort Z.le indices = first :: rest ∧
  in_count first ∧ Forall (fun z => in_count z) rest ∧ indices ≡ₚ first :: rest.
Proof using Hne Hin.
  pose proof (merge_sort_Permutation Z.le indices) as Hp.
  destruct (merge_sort Z.le indices) as [|first rest] eqn:E.
  { apply Permutation_nil_l in Hp. by destruct Hne. }
  exists first, rest. rewrite <- Hp in Hin. apply Forall_cons in Hin as [? ?].
  split_and!; try done; try lia.
Qed.

Lemma Format_runs : FormatFragmentIndexSet indices = Join ((uncurry range_text) <$> runs_of indices) comma.
Proof using Hne Hin.
  destruct sorted_cons as (first & rest & E & Hf & Hr & _).
  unfold FormatFragmentIndexSet, runs_of. rewrite E. by rewrite format_loop_runs.
Qed.

Lemma runs_of_bounds : Forall (fun r => 0 ≤ r.1 ≤ r.2 ∧ in_count r.2) (runs_of indices).
Proof using Hne Hin.
  destruct sorted_cons as (first & rest & E & Hf & Hr & _).
  unfold runs_of. rewrite E. apply runs_bounds; auto; lia.
Qed.

Lemma Join_graphic ps : Forall (Forall (fun c => graphic c = true)) ps →
  Forall (fun c => graphic c = true) (Join ps comma).
Proof.
  induction ps as [|p ps IH]; intros H; [constructor|]. apply Forall_cons in H as [Hp H].
  destruct ps; [done|]. rewrite Join_cons by done.
  apply Forall_app; split; [done|]. constructor; [done|auto].
Qed.

Lemma Format_graphic : Forall (fun c => graphic c = true) (FormatFragmentIndexSet indices).
Proof using Hne Hin.
  rewrite Format_runs. apply Join_graphic, Forall_fmap.
  eapply Forall_impl; [apply runs_of_bounds|]. intros [s p] [? ?]. simpl in *.
  apply range_text_graphic; lia.
Qed.

Lemma Split_Format :
  Split (FormatFragmentIndexSet indices) comma = (uncurry range_text) <$> runs_of indices.
Proof using Hne Hin.
  rewrite Format_runs. apply Split_Join.
  - destruct sorted_cons as (first & rest & E & _). unfold runs_of. rewrite E.
    intros H%fmap_nil_inv. by eapply runs_nonempty.
  - apply Forall_fmap. eapply Forall_impl; [apply runs_of_bounds|]. intros [s p] [? ?]. simpl in *.
    apply range_text_no_comma; lia.
Qed.

Lemma Parse_Format :
  ParseFragmentIndexSet (FormatFragmentIndexSet indices) =
    if (maxResendFragmentRanges <? length (runs_of indices))%nat
    then Err (ErrValidation "too many resend fragment ranges") else Ok (list_to_set indices).
Proof using Hne Hin.
  unfold ParseFragmentIndexSet. rewrite TrimSpace_graphic by apply Format_graphic.
  rewrite Split_Format, length_fmap. destruct (_ <? _)%nat; [done|].
  destruct (parse_parts_runs (runs_of indices) ∅ runs_of_bounds) as (set & -> & Hset).
  f_equal. apply leibniz_equiv. intros z. rewrite Hset, elem_of_list_to_set.
  destruct sorted_cons as (first & rest & E & _ & _ & Hp). rewrite Hp.
  unfold runs_of. rewrite E, runs_elements, elem_of_cons by lia. split.
  - intros [?|[?|?]]; [set_solver|left; lia|by right].
  - intros [->|?]; [right; left; lia|by right; right].
Qed.
End RoundTrip.

Lemma Format_nonempty indices : indices ≠ [] → Forall (fun z => in_count z) indices →
  FormatFragmentIndexSet indices ≠ [].
Proof.
  intros Hne Hin. destruct (sorted_cons indices Hne Hin) as (f & rest & E & Hf & Hr & _).
  rewrite Format_runs by done. unfold runs_of. rewrite E.
  pose proof (runs_nonempty rest f f). destruct (runs f f rest) as [|[s p] rs]; [done|].
  rewrite fmap_cons. cbn [uncurry]. pose proof (range_text_nonempty s p).
  destruct rs; cbn [Join fmap list_fmap]; [done|]. by intros [? _]%app_nil.
Qed.

Lemma ResendFragments_With m indices :
  indices ≠ [] → Forall (fun z => in_count z) indices →
  ResendFragments (WithResendFragments m indices) =
    if (length (runs_of indices) <=? maxResendFragmentRanges)%nat
    then Some (list_to_set indices) else None.
Proof.
  intros Hne Hin. unfold ResendFragments, WithResendFragments, CloneMetadata.
  rewrite (proj2 (Nat.eqb_neq (length indices) 0)) by (by destruct indices).
  unfold md_get. rewrite lookup_insert_eq. simpl default.
  rewrite TrimSpace_graphic by (by apply Format_graphic).
  pose proof (Format_nonempty indices Hne Hin).
  rewrite (proj2 (Nat.eqb_neq (length (FormatFragmentIndexSet indices)) 0))
    by (by destruct (FormatFragmentIndexSet indices)).
  rewrite Parse_Format by done. rewrite Nat.leb_antisym. destruct (_ <? _)%nat; [done|]. simpl.
  rewrite (proj2 (Nat.eqb_neq _ 0)); [done|].
  rewrite size_empty_iff. destruct indices as [|i l]; [done|]. set_solver.
Qed.

(** A resend request survives the metadata round trip: asking for a
    non-empty set of valid fragment indices makes the agent's parser return
    exactly that set when it takes at most 256 ranges, and fall back to the
    whole reply (never to a wrong set) when it takes more. *)
Theorem resend_fragments_roundtrip m indices :
  indices ≠ [] → Forall (fun z => in_count z) indices →
  ResendFragments (WithResendFragments m indices) =
    if (length (runs_of indices) <=? maxResendFragmentRanges)%nat
    then Some (list_to_set indices) else None.
Proof. apply ResendFragments_With. Qed.

Lemma resend_fragments_roundtrip_witness :
  ResendFragments (WithResendFragments ∅ [9; 0; 1; 7; 2; 10; 3]) =
    if (length (runs_of [9; 0; 1; 7; 2; 10; 3]%Z) <=? maxResendFragmentRanges)%nat
    then Some (list_to_set [9; 0; 1; 7; 2; 10; 3]) else None.
Proof.
  apply resend_fragments_roundtrip; [done|]. change MaxUSPControlFragmentCount with 65536.
  repeat constructor; lia.
Defined.
