(* ===== verification/Transport.v ===== *)
(** * The WUSP transport buffer and reader

    [uspTransportBuffer] and [uspTransportReader] of
    src/internal/wusp/usp_transport.go: the byte layout of every structure a
    control request or response carries, the size estimates used to allocate
    the buffer, and the metadata helpers.  A writer is the byte string it
    appends; a reader is an [rd] over the unread suffix ([r.data[r.pos:]]).
    Counts read from the wire size an allocation before anything is checked, so
    [go_make] appears exactly where the source calls [make]. *)

From S2P Require Import Prelude GoStr Wire ReadReplay.

(** ** Data *)

Record uspTransportHeader : Type := MkHeader
  { hVersion : Z; hKind : Z; hMethod : Z; hFlags : Z; hID : Z }.

Record USPTransferRequest : Type := MkTransferRequest
  { trPath : bytes; trURI : bytes; trFilename : bytes; trContentType : bytes;
    trPayload : bytes; trMetadata : metadata }.
Record USPTransferResult : Type := MkTransferResult
  { rsPath : bytes; rsURI : bytes; rsBytes : Z; rsMetadata : metadata }.

Record BroadbandDataModel : Type := MkBroadbandDataModel
  { bmID : bytes; bmName : bytes; bmModelVersion : bytes; bmFirstVersion : bytes;
    bmLatestVersion : bytes; bmSource : bytes; bmSourceURL : bytes;
    bmObjectCount : Z; bmParamCount : Z }.
Record USPSupportedObject : Type := MkSupportedObject
  { soPath : bytes; soMultiInstance : bool; soSinceVersion : bytes }.
Record USPSupportedParam : Type := MkSupportedParam
  { spPath : bytes; spType : bytes; spAccess : bytes; spSinceVersion : bytes }.
Record USPSupportedDataModel : Type := MkSupportedDataModel
  { sdRootDataModelVersion : bytes; sdModels : list BroadbandDataModel;
    sdObjects : list USPSupportedObject; sdParams : list USPSupportedParam }.
Record USPProtocolInfo : Type := MkProtocolInfo
  { piName : bytes; piVersion : Z; piMethods : list bytes; piCompression : list bytes;
    piControlTransport : bytes; piTransferTransport : bytes; piMaxControlPayload : Z;
    piRecommendedChunkSize : Z; piTunnelOnly : bool; piReliableTransfer : bool }.

Definition uspTransportVersion : Z := 1.

(** ** Writers *)

Definition writeHeader (h : uspTransportHeader) : bytes :=
  map z2b [hVersion h; hKind h; hMethod h; hFlags h] ++ le_put 8 (hID h).
Definition writeString (value : bytes) : bytes :=
  writeUvarint (Z.of_nat (length value)) ++ value.
Definition writeBytes (value : bytes) : bytes :=
  writeUvarint (Z.of_nat (length value)) ++ value.
Definition writeStringList (values : list bytes) : bytes :=
  writeUvarint (Z.of_nat (length values)) ++ concat (writeString <$> values).
Definition writeUint64List (values : list Z) : bytes :=
  writeUvarint (Z.of_nat (length values)) ++ concat (writeUvarint <$> values).
Definition writePathSelector (code : Z) (instances : list Z) : bytes :=
  writeUvarint code ++ writeUint64List instances.
(** A code without a recorded instance list is written with an empty one. *)
Fixpoint selector_items (codes : list Z) (instances : list (list Z)) : list (Z * list Z) :=
  match codes with
  | [] => []
  | c :: codes => (c, default [] (head instances)) :: selector_items codes (tail instances)
  end.
Definition writePathSelectors (codes : list Z) (instances : list (list Z)) : bytes :=
  writeUvarint (Z.of_nat (length codes))
    ++ concat ((uncurry writePathSelector) <$> selector_items codes instances).

Definition write_pair (kv : bytes * bytes) : bytes := writeString kv.1 ++ writeString kv.2.
Definition sorted_keys (m : metadata) : list bytes := SortStrings ((map_to_list m).*1).
(** The one-entry case of the source iterates instead of sorting; a one-element
    list is sorted. *)
Definition writeMetadata (m : metadata) : bytes :=
  if (size m =? 0)%nat then writeUvarint 0
  else
    let keys := sorted_keys m in
    writeUvarint (Z.of_nat (length keys))
      ++ concat ((fun k => write_pair (k, md_get m k)) <$> keys).

Definition writeTransferRequest (r : USPTransferRequest) : bytes :=
  writeString (trPath r) ++ writeString (trURI r) ++ writeString (trFilename r)
    ++ writeString (trContentType r) ++ writeBytes (trPayload r) ++ writeMetadata (trMetadata r).
Definition writeTransferResult (r : USPTransferResult) : bytes :=
  writeString (rsPath r) ++ writeString (rsURI r) ++ writeUvarint (u64 (rsBytes r))
    ++ writeMetadata (rsMetadata r).
Definition writeBool (value : bool) : bytes := writeUvarint (if value then 1 else 0).
Definition writeBroadbandDataModel (m : BroadbandDataModel) : bytes :=
  writeString (bmID m) ++ writeString (bmName m) ++ writeString (bmModelVersion m)
    ++ writeString (bmFirstVersion m) ++ writeString (bmLatestVersion m)
    ++ writeString (bmSource m) ++ writeString (bmSourceURL m)
    ++ writeUvarint (u64 (bmObjectCount m)) ++ writeUvarint (u64 (bmParamCount m)).
Definition writeSupportedObject (o : USPSupportedObject) : bytes :=
  writeString (soPath o) ++ writeBool (soMultiInstance o) ++ writeString (soSinceVersion o).
Definition writeSupportedParam (p : USPSupportedParam) : bytes :=
  writeString (spPath p) ++ writeString (spType p) ++ writeString (spAccess p)
    ++ writeString (spSinceVersion p).
Definition writeSupportedDataModel (m : USPSupportedDataModel) : bytes :=
  writeString (sdRootDataModelVersion m)
    ++ writeUvarint (Z.of_nat (length (sdModels m))) ++ concat (writeBroadbandDataModel <$> sdModels m)
    ++ writeUvarint (Z.of_nat (length (sdObjects m))) ++ concat (writeSupportedObject <$> sdObjects m)
    ++ writeUvarint (Z.of_nat (length (sdParams m))) ++ concat (writeSupportedParam <$> sdParams m).
Definition writeProtocolInfo (i : USPProtocolInfo) : bytes :=
  writeString (piName i) ++ writeUvarint (piVersion i) ++ writeStringList (piMethods i)
    ++ writeStringList (piCompression i) ++ writeString (piControlTransport i)
    ++ writeString (piTransferTransport i) ++ writeUvarint (piMaxControlPayload i)
    ++ writeUvarint (piRecommendedChunkSize i) ++ writeBool (piTunnelOnly i)
    ++ writeBool (piReliableTransfer i).

(** ** Readers *)

Definition rd_make (size n : Z) : rd () := fun b => _ ← go_make size n; Ok ((), b).
Definition sizeof_string : Z := 16.
Definition sizeof_uint64 : Z := 8.
Definition sizeof_slice : Z := 24.
Definition sizeof_BroadbandDataModel : Z := 128.
Definition sizeof_USPSupportedObject : Z := 40.
Definition sizeof_USPSupportedParam : Z := 64.

Definition readHeader (data : bytes) : res werr (uspTransportHeader * bytes) :=
  if (length data <? 12)%nat then Err (ErrTransportMalformed "payload too short")
  else
    let h := {| hVersion := le_get (slice 0 1 data); hKind := le_get (slice 1 2 data);
                hMethod := le_get (slice 2 3 data); hFlags := le_get (slice 3 4 data);
                hID := le_get (slice 4 12 data) |} in
    if negb (hVersion h =? uspTransportVersion) then Err (ErrTransportUnsupported "version")
    else Ok (h, drop 12 data).

Definition rUvarint : rd Z := fun b =>
  let '(value, n) := Uvarint b in
  if n <=? 0 then Err (ErrTransportMalformed "bad varint") else Ok (value, drop (Z.to_nat n) b).
Definition rBytes : rd bytes :=
  length_ ← rUvarint;
  ((fun b => if Z.of_nat (length b) <? length_ then Err (ErrTransportMalformed "short blob")
             else Ok (take (Z.to_nat length_) b, drop (Z.to_nat length_) b)) : rd bytes).
Definition rString : rd bytes := rBytes.

(** [count] items after [make(.., 0, count)]; the loop ends with the first
    failing read, which happens at the end of the input at the latest. *)
Fixpoint rd_times {A} (fuel : nat) (count : Z) (item : rd A) : rd (list A) :=
  if count <=? 0 then mret []
  else match fuel with
       | O => fun b => match item b with Err e => Err e | _ => Panic end
       | S fuel => x ← item; xs ← rd_times fuel (count - 1) item; mret (x :: xs)
       end.
Definition rCounted {A} (size : Z) (item : rd A) : rd (list A) :=
  count ← rUvarint;
  _ ← rd_make size count;
  ((fun b => rd_times (length b) count item b) : rd (list A)).

Definition readStringList : rd (list bytes) := rCounted sizeof_string rString.
Definition readUint64List : rd (list Z) := rCounted sizeof_uint64 rUvarint.
Definition readPathSelector : rd (Z * list Z) :=
  code ← rUvarint; instances ← readUint64List; mret (code, instances).
(** Two slices are allocated; the larger element decides. *)
Definition readPathSelectors : rd (list Z * list (list Z)) :=
  items ← rCounted sizeof_slice readPathSelector; mret (items.*1, items.*2).

Definition read_pair : rd (bytes * bytes) := k ← rString; v ← rString; mret (k, v).
(** [make(map, count)] with an absurd hint allocates nothing and does not panic;
    later entries override earlier ones. *)
Definition readMetadata : rd metadata :=
  count ← rUvarint;
  if count =? 0 then mret ∅
  else
    kvs ← ((fun b => rd_times (length b) count read_pair b) : rd _);
    mret (foldl (fun m kv => <[kv.1 := kv.2]> m) ∅ kvs).
Definition readTransferRequest : rd USPTransferRequest :=
  path ← rString; uri ← rString; filename ← rString; ctype ← rString;
  payload ← rBytes; md ← readMetadata;
  mret (MkTransferRequest path uri filename ctype payload md).
Definition readInt64AsUvarint : rd Z :=
  value ← rUvarint;
  if 2 ^ 63 - 1 <? value then rd_fail ErrUnexpectedEOF else mret value.
Definition readTransferResult : rd USPTransferResult :=
  path ← rString; uri ← rString; n ← readInt64AsUvarint; md ← readMetadata;
  mret (MkTransferResult path uri n md).
Definition readBool : rd bool := value ← rUvarint; mret (negb (value =? 0)).
Definition readBroadbandDataModel : rd BroadbandDataModel :=
  id ← rString; name ← rString; mv ← rString; fv ← rString; lv ← rString;
  src ← rString; url ← rString; oc ← rUvarint; pc ← rUvarint;
  mret (MkBroadbandDataModel id name mv fv lv src url (i64 oc) (i64 pc)).
Definition readSupportedObject : rd USPSupportedObject :=
  path ← rString; multi ← readBool; since ← rString; mret (MkSupportedObject path multi since).
Definition readSupportedParam : rd USPSupportedParam :=
  path ← rString; ptype ← rString; access ← rString; since ← rString;
  mret (MkSupportedParam path ptype access since).
Definition readSupportedDataModel : rd USPSupportedDataModel :=
  root ← rString;
  models ← rCounted sizeof_BroadbandDataModel readBroadbandDataModel;
  objects ← rCounted sizeof_USPSupportedObject readSupportedObject;
  params ← rCounted sizeof_USPSupportedParam readSupportedParam;
  mret (MkSupportedDataModel root models objects params).
Definition readProtocolInfo : rd USPProtocolInfo :=
  name ← rString; version ← rUvarint; methods ← readStringList; compression ← readStringList;
  control ← rString; transfer ← rString; maxp ← rUvarint; chunk ← rUvarint;
  tunnel ← readBool; reliable ← readBool;
  mret (MkProtocolInfo name version methods compression control transfer maxp chunk tunnel reliable).

Definition remainingAllZero (b : bytes) : bool := forallb (fun c => b2z c =? 0) b.

(** ** Size estimates (the capacity the buffers are created with) *)

Fixpoint uvarint_size_loop (fuel : nat) (value : Z) : Z :=
  match fuel with
  | O => 1
  | S fuel => if 0x80 <=? value then 1 + uvarint_size_loop fuel (Z.shiftr value 7) else 1
  end.
(** A uint64 shifted right 9 times by 7 is below 0x80. *)
Definition estimateUvarintSize (value : Z) : Z := uvarint_size_loop 9 value.
Definition lenZ {A} (l : list A) : Z := Z.of_nat (length l).
Definition sumZ (l : list Z) : Z := foldr Z.add 0 l.
Definition estimateStringSize (value : bytes) : Z := estimateUvarintSize (lenZ value) + lenZ value.
Definition estimateBlobSize (value : bytes) : Z := estimateUvarintSize (lenZ value) + lenZ value.
Definition estimateStringListSize (values : list bytes) : Z :=
  estimateUvarintSize (lenZ values) + sumZ (estimateStringSize <$> values).
Definition estimateUint64ListSize (values : list Z) : Z :=
  estimateUvarintSize (lenZ values) + sumZ (estimateUvarintSize <$> values).
Definition estimatePathSelectorsSize (codes : list Z) (instances : list (list Z)) : Z :=
  if (length codes =? 0)%nat then 0
  else estimateUvarintSize (lenZ codes)
    + sumZ (imap (fun i code => estimateUvarintSize code
              + match instances !! i with
                | Some inst => estimateUint64ListSize inst
                | None => estimateUvarintSize 0
                end) codes).
Definition estimatePathSelectorSize (code : Z) (instances : list Z) : Z :=
  if (code =? 0) && (length instances =? 0)%nat then 0
  else estimateUvarintSize code + estimateUint64ListSize instances.
(** The iteration order of the map does not matter for a sum. *)
Definition estimateMetadataSize (m : metadata) : Z :=
  estimateUvarintSize (Z.of_nat (size m))
  + sumZ ((fun kv => estimateStringSize kv.1 + estimateStringSize kv.2) <$> map_to_list m).
Definition estimateTransferRequestSize (r : USPTransferRequest) : Z :=
  estimateStringSize (trPath r) + estimateStringSize (trURI r) + estimateStringSize (trFilename r)
  + estimateStringSize (trContentType r) + estimateBlobSize (trPayload r)
  + estimateMetadataSize (trMetadata r).
Definition estimateTransferResultSize (r : USPTransferResult) : Z :=
  estimateStringSize (rsPath r) + estimateStringSize (rsURI r)
  + estimateUvarintSize (u64 (rsBytes r)) + estimateMetadataSize (rsMetadata r).
Definition estimateBroadbandDataModelSize (m : BroadbandDataModel) : Z :=
  estimateStringSize (bmID m) + estimateStringSize (bmName m)
  + estimateStringSize (bmModelVersion m) + estimateStringSize (bmFirstVersion m)
  + estimateStringSize (bmLatestVersion m) + estimateStringSize (bmSource m)
  + estimateStringSize (bmSourceURL m) + estimateUvarintSize (u64 (bmObjectCount m))
  + estimateUvarintSize (u64 (bmParamCount m)).
Definition estimateSupportedDataModelSize (m : USPSupportedDataModel) : Z :=
  estimateStringSize (sdRootDataModelVersion m)
  + estimateUvarintSize (lenZ (sdModels m)) + sumZ (estimateBroadbandDataModelSize <$> sdModels m)
  + estimateUvarintSize (lenZ (sdObjects m))
  + sumZ ((fun o => estimateStringSize (soPath o) + 1 + estimateStringSize (soSinceVersion o))
            <$> sdObjects m)
  + estimateUvarintSize (lenZ (sdParams m))
  + sumZ ((fun p => estimateStringSize (spPath p) + estimateStringSize (spType p)
              + estimateStringSize (spAccess p) + estimateStringSize (spSinceVersion p))
            <$> sdParams m).
Definition estimateProtocolInfoSize (i : USPProtocolInfo) : Z :=
  estimateStringSize (piName i) + estimateUvarintSize (piVersion i)
  + estimateStringListSize (piMethods i) + estimateStringListSize (piCompression i)
  + estimateStringSize (piControlTransport i) + estimateStringSize (piTransferTransport i)
  + estimateUvarintSize (piMaxControlPayload i) + estimateUvarintSize (piRecommendedChunkSize i)
  + 2.

(** ** Reading back what was written *)

(** [m] reads [x] from the front of any input that starts with [e], for inputs
    small enough that the readers' allocations succeed. *)
Definition frame_fits (n : nat) : Prop := 128 * Z.of_nat n ≤ maxAlloc.
Definition reads {A} (m : rd A) (x : A) (e : bytes) : Prop :=
  ∀ r, frame_fits (length (e ++ r)) → m (e ++ r) = Ok (x, r).

Lemma frame_fits_app (a b : bytes) : frame_fits (length (a ++ b)) → frame_fits (length b).
Proof. unfold frame_fits. rewrite length_app. lia. Qed.
Lemma frame_fits_small n : frame_fits n → Z.of_nat n < 2 ^ 63.
Proof. unfold frame_fits, maxAlloc. lia. Qed.

Lemma reads_ret {A} (x : A) : reads (mret x) x [].
Proof. by intros r _. Qed.
Lemma reads_bind {A B} (m : rd A) (k : A → rd B) x y e1 e2 :
  reads m x e1 → reads (k x) y e2 → reads (m ≫= k) y (e1 ++ e2).
Proof.
  intros Hm Hk r Hf. unfold mbind, rd_bind. rewrite <- app_assoc in *.
  rewrite Hm by done. apply Hk. by eapply frame_fits_app.
Qed.
Lemma reads_last {A B} (m : rd A) (k : A → rd B) x y e :
  reads m x e → k x = mret y → reads (m ≫= k) y e.
Proof.
  intros Hm Hk. rewrite <- (app_nil_r e). eapply reads_bind; [done|]. rewrite Hk. apply reads_ret.
Qed.

Lemma reads_uvarint v : 0 ≤ v < 2 ^ 64 → reads rUvarint v (writeUvarint v).
Proof.
  intros Hv r _. unfold rUvarint, writeUvarint. rewrite Uvarint_put by done.
  pose proof (length_PutUvarint v). rewrite (proj2 (Z.leb_gt _ 0)) by lia.
  by rewrite Nat2Z.id, drop_app_length.
Qed.

Lemma reads_bytes d : reads rBytes d (writeBytes d).
Proof.
  intros r Hf. unfold rBytes, writeBytes, mbind, rd_bind in *. rewrite <- app_assoc in *.
  assert (Z.of_nat (length d) < 2 ^ 63).
  { apply frame_fits_app, frame_fits_small in Hf. rewrite length_app in Hf. lia. }
  rewrite reads_uvarint by (done || lia). rewrite length_app, (proj2 (Z.ltb_ge _ _)) by lia.
  by rewrite Nat2Z.id, take_app_length, drop_app_length.
Qed.
Lemma reads_string s : reads rString s (writeString s).
Proof. apply reads_bytes. Qed.
Lemma reads_bool b : reads readBool b (writeBool b).
Proof.
  eapply reads_last; [apply reads_uvarint|]; by destruct b.
Qed.

(** Items that each take at least one byte. *)
Section Lists.
Context {A : Type} (item : rd A) (enc : A → bytes).

Lemma length_concat_enc l :
  (∀ x, x ∈ l → (1 ≤ length (enc x))%nat) → (length l ≤ length (concat (enc <$> l)))%nat.
Proof.
  induction l as [|x l IH]; intros H; [simpl; lia|].
  rewrite fmap_cons. cbn [concat length]. rewrite length_app.
  pose proof (H x ltac:(set_solver)).
  specialize (IH ltac:(intros; apply H; set_solver)). lia.
Qed.

Lemma rd_times_reads l : ∀ fuel r,
  (length l ≤ fuel)%nat →
  (∀ x, x ∈ l → reads item x (enc x)) → frame_fits (length (concat (enc <$> l) ++ r)) →
  rd_times fuel (Z.of_nat (length l)) item (concat (enc <$> l) ++ r) = Ok (l, r).
Proof.
  induction l as [|x l IH]; intros fuel r Hfuel Hl Hf.
  { by destruct fuel. }
  destruct fuel as [|fuel]; [simpl in Hfuel; lia|].
  rewrite fmap_cons in *. cbn [concat length rd_times] in *.
  rewrite (proj2 (Z.leb_gt _ 0)) by lia. unfold mbind, rd_bind. rewrite <- app_assoc in *.
  rewrite Hl by (done || set_solver).
  replace (Z.of_nat (S (length l)) - 1) with (Z.of_nat (length l)) by lia.
  rewrite IH; [done|lia|intros; apply Hl; set_solver|by eapply frame_fits_app].
Qed.

Lemma reads_counted size l :
  0 ≤ size ≤ 128 →
  (∀ x, x ∈ l → reads item x (enc x) ∧ (1 ≤ length (enc x))%nat) →
  reads (rCounted size item) l (writeUvarint (Z.of_nat (length l)) ++ concat (enc <$> l)).
Proof.
  intros Hs Hl r Hf. unfold rCounted, mbind, rd_bind. rewrite <- app_assoc in *.
  pose proof (length_concat_enc l ltac:(intros; by apply Hl)) as Hlen.
  pose proof (frame_fits_app _ _ Hf) as Hf'.
  assert (128 * Z.of_nat (length l) ≤ maxAlloc) as Hfl.
  { unfold frame_fits in Hf'. rewrite length_app in Hf'. lia. }
  rewrite reads_uvarint by (done || (unfold maxAlloc in Hfl; lia)).
  unfold rd_make, go_make, make_ok.
  rewrite (proj2 (Z.leb_le 0 _)), (proj2 (Z.leb_le _ maxAlloc)) by nia. simpl.
  apply rd_times_reads; [rewrite length_app; lia|intros; by apply Hl|done].
Qed.
End Lists.

Lemma writeUvarint_pos v : (1 ≤ length (writeUvarint v))%nat.
Proof. unfold writeUvarint. pose proof (length_PutUvarint v). lia. Qed.
Lemma app_pos {A} (a b : list A) : (1 ≤ length a)%nat → (1 ≤ length (a ++ b))%nat.
Proof. rewrite length_app. lia. Qed.
Lemma writeString_pos s : (1 ≤ length (writeString s))%nat.
Proof. apply app_pos, writeUvarint_pos. Qed.

Definition u64_ok (v : Z) : Prop := 0 ≤ v < 2 ^ 64.
Definition i64_ok (v : Z) : Prop := - 2 ^ 63 ≤ v < 2 ^ 63.

Lemma i64_u64 v : i64_ok v → i64 (u64 v) = v.
Proof.
  intros Hv. unfold i64_ok in Hv. unfold wrap, swrap. change (64 - 1) with 63.
  rewrite Zplus_mod_idemp_l. rewrite Z.mod_small; lia.
Qed.

Create HintDb reads.
#[export] Hint Resolve reads_uvarint reads_bytes reads_string reads_bool writeUvarint_pos
  writeString_pos app_pos : reads.

(** Peels the reader's binds against the writer's appends. *)
Ltac reads_struct :=
  repeat (eapply reads_bind; [solve [eauto with reads]|]);
  eapply reads_last; [solve [eauto with reads]|].

Lemma reads_string_list l : reads readStringList l (writeStringList l).
Proof. apply reads_counted; [done|]. intros x _. split; auto with reads. Qed.
Lemma reads_uint64_list l : Forall u64_ok l → reads readUint64List l (writeUint64List l).
Proof.
  intros Hl. apply reads_counted; [done|]. intros x Hx. rewrite Forall_forall in Hl.
  specialize (Hl x Hx). split; [by apply reads_uvarint|apply writeUvarint_pos].
Qed.
#[export] Hint Resolve reads_string_list reads_uint64_list : reads.

Definition selector_ok (s : Z * list Z) : Prop := u64_ok s.1 ∧ Forall u64_ok s.2.
Lemma reads_selector c l : selector_ok (c, l) → reads readPathSelector (c, l) (writePathSelector c l).
Proof. intros [Hc Hl]. simpl in *. unfold readPathSelector, writePathSelector. reads_struct. done. Qed.
#[export] Hint Resolve reads_selector : reads.

Lemma selector_items_zip codes : ∀ instances, length instances = length codes →
  selector_items codes instances = zip codes instances.
Proof.
  induction codes as [|c codes IH]; intros [|i instances] H; try done. simpl in *.
  rewrite IH by lia. done.
Qed.
Lemma length_selector_items codes : ∀ instances,
  length (selector_items codes instances) = length codes.
Proof. induction codes; intros; simpl; auto. Qed.
Lemma selector_items_nil codes : selector_items codes [] = (fun c => (c, [])) <$> codes.
Proof. induction codes as [|c codes IH]; simpl; [done|]. by rewrite IH. Qed.

Lemma reads_selectors codes instances :
  Forall selector_ok (selector_items codes instances) →
  reads readPathSelectors ((selector_items codes instances).*1, (selector_items codes instances).*2)
    (writePathSelectors codes instances).
Proof.
  intros Hok. unfold readPathSelectors, writePathSelectors.
  rewrite <- (length_selector_items codes instances).
  eapply reads_last; [|done]. apply reads_counted; [done|].
  intros [c l] Hx. rewrite Forall_forall in Hok. split; [by apply reads_selector, Hok|].
  apply app_pos, writeUvarint_pos.
Qed.

(** *** Metadata *)

Lemma length_sorted_keys m : length (sorted_keys m) = size m.
Proof.
  unfold sorted_keys. rewrite (SortStrings_perm _), length_fmap. apply length_map_to_list.
Qed.
Lemma NoDup_sorted_keys m : NoDup (sorted_keys m).
Proof. unfold sorted_keys. rewrite SortStrings_perm. apply NoDup_fst_map_to_list. Qed.
Lemma elem_of_sorted_keys m k : k ∈ sorted_keys m ↔ is_Some (m !! k).
Proof.
  unfold sorted_keys. rewrite SortStrings_perm, list_elem_of_fmap. split.
  - intros ([k' v] & -> & H%elem_of_map_to_list). simpl. eauto.
  - intros [v H]. exists (k, v). split; [done|]. by apply elem_of_map_to_list.
Qed.

Lemma foldl_insert_lookup (kvs : list (bytes * bytes)) : ∀ (m : metadata) k,
  NoDup (kvs.*1) →
  (∀ v, (k, v) ∈ kvs → foldl (fun m kv => <[kv.1 := kv.2]> m) m kvs !! k = Some v) ∧
  (k ∉ kvs.*1 → foldl (fun m kv => <[kv.1 := kv.2]> m) m kvs !! k = m !! k).
Proof.
  induction kvs as [|[k' v'] kvs IH]; intros m k Hnd; simpl.
  { split; [set_solver|done]. }
  apply NoDup_cons in Hnd as [Hk' Hnd]. destruct (IH (<[k' := v']> m) k Hnd) as [IH1 IH2].
  split.
  - intros v [[= -> ->]|Hin]%elem_of_cons; [|by apply IH1].
    rewrite IH2 by done. apply lookup_insert_eq.
  - rewrite not_elem_of_cons. intros [Hne Hni]. rewrite IH2 by done. by apply lookup_insert_ne.
Qed.

Lemma rebuild_metadata m :
  foldl (fun m kv => <[kv.1 := kv.2]> m) ∅ ((fun k => (k, md_get m k)) <$> sorted_keys m) = m.
Proof.
  apply map_eq. intros k. set (kvs := (fun k => (k, md_get m k)) <$> sorted_keys m).
  assert (kvs.*1 = sorted_keys m) as Hfst.
  { unfold kvs. rewrite <- list_fmap_compose. by apply list_fmap_id. }
  destruct (foldl_insert_lookup kvs ∅ k) as [H1 H2].
  { rewrite Hfst. apply NoDup_sorted_keys. }
  destruct (m !! k) as [v|] eqn:E.
  - apply H1, list_elem_of_fmap. exists k. unfold md_get. rewrite E. split; [done|].
    apply elem_of_sorted_keys. eauto.
  - rewrite H2; [done|]. rewrite Hfst, elem_of_sorted_keys, E. by intros [? ?].
Qed.

Lemma reads_metadata m : reads readMetadata m (writeMetadata m).
Proof.
  unfold writeMetadata. destruct (Nat.eqb_spec (size m) 0) as [Hs|Hs].
  { apply map_size_empty_iff in Hs. subst. rewrite <- (app_nil_r (writeUvarint 0)).
    eapply reads_bind; [by apply reads_uvarint|apply reads_ret]. }
  intros r Hf. set (kvs := (fun k => (k, md_get m k)) <$> sorted_keys m).
  assert ((fun k => write_pair (k, md_get m k)) <$> sorted_keys m = write_pair <$> kvs) as E
    by (unfold kvs; by rewrite <- list_fmap_compose).
  assert (length (sorted_keys m) = length kvs) as El by (unfold kvs; by rewrite length_fmap).
  rewrite E, El, <- app_assoc in *. unfold readMetadata, mbind at 1, rd_bind at 1.
  assert (∀ x, (1 ≤ length (write_pair x))%nat) as Hpos by (intros; apply app_pos, writeString_pos).
  pose proof (length_concat_enc write_pair kvs ltac:(intros; apply Hpos)) as Hlen.
  pose proof (frame_fits_app _ _ Hf) as Hf'. pose proof (frame_fits_small _ Hf') as Hsm.
  rewrite length_app in Hsm. rewrite reads_uvarint by (done || lia).
  rewrite (proj2 (Z.eqb_neq _ 0)) by (rewrite <- El, length_sorted_keys; lia).
  unfold mbind, rd_bind. rewrite rd_times_reads; [| | |done].
  - unfold mret, rd_ret. do 2 f_equal. apply rebuild_metadata.
  - rewrite length_app. lia.
  - intros [k v] _. unfold read_pair, write_pair. reads_struct. done.
Qed.
#[export] Hint Resolve reads_metadata : reads.

Lemma reads_transfer_request t : reads readTransferRequest t (writeTransferRequest t).
Proof. unfold readTransferRequest, writeTransferRequest. reads_struct. by destruct t. Qed.

Lemma reads_transfer_result t :
  0 ≤ rsBytes t < 2 ^ 63 → reads readTransferResult t (writeTransferResult t).
Proof.
  intros Hb. assert (reads readInt64AsUvarint (rsBytes t) (writeUvarint (u64 (rsBytes t)))).
  { rewrite wrap_small by lia. eapply reads_last; [apply reads_uvarint; lia|].
    by rewrite (proj2 (Z.ltb_ge _ _)) by lia. }
  unfold readTransferResult, writeTransferResult. reads_struct. by destruct t.
Qed.

Definition bm_ok (m : BroadbandDataModel) : Prop := i64_ok (bmObjectCount m) ∧ i64_ok (bmParamCount m).
Lemma reads_broadband m : bm_ok m → reads readBroadbandDataModel m (writeBroadbandDataModel m).
Proof.
  intros [Ho Hp]. unfold readBroadbandDataModel, writeBroadbandDataModel.
  assert (∀ z, 0 ≤ u64 z < 2 ^ 64) by (intros; by apply wrap_range).
  reads_struct. rewrite !i64_u64 by done. by destruct m.
Qed.

Lemma reads_supported m :
  Forall bm_ok (sdModels m) → reads readSupportedDataModel m (writeSupportedDataModel m).
Proof.
  intros Hm. unfold readSupportedDataModel, writeSupportedDataModel.
  eapply reads_bind; [auto with reads|]. rewrite app_assoc.
  eapply reads_bind.
  { apply reads_counted; [done|]. intros x Hx. rewrite Forall_forall in Hm.
    split; [by apply reads_broadband, Hm|apply app_pos, writeString_pos]. }
  rewrite app_assoc. eapply reads_bind.
  { apply reads_counted; [done|]. intros x _. split; [|apply app_pos, writeString_pos].
    unfold readSupportedObject, writeSupportedObject. reads_struct. by destruct x. }
  eapply reads_last.
  { apply reads_counted; [done|]. intros x _. split; [|apply app_pos, writeString_pos].
    unfold readSupportedParam, writeSupportedParam. reads_struct. by destruct x. }
  by destruct m.
Qed.

Definition pi_ok (i : USPProtocolInfo) : Prop :=
  u64_ok (piVersion i) ∧ u64_ok (piMaxControlPayload i) ∧ u64_ok (piRecommendedChunkSize i).
Lemma reads_protocol i : pi_ok i → reads readProtocolInfo i (writeProtocolInfo i).
Proof.
  intros (? & ? & ?). unfold readProtocolInfo, writeProtocolInfo. reads_struct. by destruct i.
Qed.
#[export] Hint Resolve reads_transfer_request reads_transfer_result reads_supported reads_protocol
  reads_selectors : reads.
