(* ===== verification/Request.v ===== *)
(** * WUSP control requests and responses

    src/internal/wusp/usp_transport.go: the metadata conventions, request and
    response records, their validation, the compaction of schema paths to
    selectors and back, and the request and response codecs.

    What the transport needs from the device data model (models.go, methods.go
    and the generated parameter table) is the class [Schema]: its operations are
    arguments of everything below, and the round-trip theorem states the law it
    relies on. *)

From S2P Require Import Prelude GoStr Wire Lz4 Codec Fragments ReadReplay Transport.

(** ** The data model's interface *)

Class Schema : Type := {
  schema_registry : registry;
  (** [Device.SelectorForPath]: code and instance numbers. *)
  SelectorForPath : bytes → option (Z * list Z);
  PathForSelector : Z → list Z → option bytes;
  (** whether [lookupSafeParam] finds the path *)
  lookupSafeParam : bytes → bool;
  ValidateFieldFast : Field → res werr ();
  ValueToString : Value → bytes }.

(** ** Methods *)

Definition USPAgentMethodGet : Z := 1.
Definition USPAgentMethodSet : Z := 2.
Definition USPAgentMethodAdd : Z := 3.
Definition USPAgentMethodDelete : Z := 4.
Definition USPAgentMethodGetInstances : Z := 5.
Definition USPAgentMethodOperate : Z := 6.
Definition USPAgentMethodNotify : Z := 7.
Definition USPAgentMethodGetSupportedDM : Z := 8.
Definition USPAgentMethodGetSupportedProtocol : Z := 9.
Definition USPAgentMethodUpload : Z := 10.
Definition USPAgentMethodDownload : Z := 11.

Definition uspTransportKindRequest : Z := 1.
Definition uspTransportKindResponse : Z := 2.

Record USPAgentRequest : Type := MkRequest
  { qID : Z; qMethod : Z; qPaths : list bytes; qPathCodes : list Z;
    qPathInstances : list (list Z); qObjectPath : bytes; qObjectCode : Z;
    qObjectInstances : list Z; qMessage : option Message;
    qTransfer : option USPTransferRequest; qMetadata : metadata }.

Record USPAgentResponse : Type := MkResponse
  { pID : Z; pMethod : Z; pPaths : list bytes; pPathCodes : list Z;
    pPathInstances : list (list Z); pObjectPath : bytes; pObjectCode : Z;
    pObjectInstances : list Z; pMessage : option Message;
    pTransfer : option USPTransferResult; pMetadata : metadata;
    pSupportedDataModel : option USPSupportedDataModel;
    pProtocol : option USPProtocolInfo; pError : bytes }.

(** ** Metadata conventions *)

Definition MetadataKeyResponseMaxControlPayload : bytes := bs "wusp.response_max_control_payload".
Definition MetadataKeyRequestSequence : bytes := bs "wusp.request_sequence".
Definition MetadataKeyResponseSequence : bytes := bs "wusp.response_sequence".
Definition MetadataKeyQueuePolicy : bytes := bs "wusp.queue_policy".
Definition MetadataKeyOperationCommandPath : bytes := bs "wusp.operation_command_path".
Definition QueuePolicyAction : bytes := bs "action".

Definition WithResponseMaxControlPayload (m : metadata) (maxPayload : Z) : metadata :=
  let out := CloneMetadata m in
  if maxPayload <=? 0 then out
  else <[MetadataKeyResponseMaxControlPayload := Itoa maxPayload]> out.

Definition RequestedResponseMaxControlPayload (m : metadata) (fallback : Z) : Z :=
  let fallback := if fallback <=? 0 then WUSPMaxDatagramPayload else fallback in
  if (size m =? 0)%nat then fallback
  else
    let value := TrimSpace (md_get m MetadataKeyResponseMaxControlPayload) in
    if (length value =? 0)%nat then fallback
    else match Atoi value with
         | None => fallback
         | Some parsed =>
             if parsed <? uspControlFragmentHeaderSize + 1 then fallback
             else if WUSPMaxDatagramPayload <? parsed then WUSPMaxDatagramPayload
             else parsed
         end.

Definition parseMetadataUint (m : metadata) (key : bytes) : option Z :=
  if (size m =? 0)%nat then None
  else
    let value := TrimSpace (md_get m key) in
    if (length value =? 0)%nat then None
    else match ParseUint value 64 with
         | Some parsed => if parsed =? 0 then None else Some parsed
         | None => None
         end.

Definition WithRequestSequence (m : metadata) (sequence : Z) : metadata :=
  let out := CloneMetadata m in
  if sequence =? 0 then out else <[MetadataKeyRequestSequence := FormatUint sequence]> out.
Definition RequestSequence (m : metadata) : option Z := parseMetadataUint m MetadataKeyRequestSequence.
Definition WithResponseSequence (m : metadata) (sequence : Z) : metadata :=
  let out := CloneMetadata m in
  if sequence =? 0 then out else <[MetadataKeyResponseSequence := FormatUint sequence]> out.
Definition ResponseSequence (m : metadata) : option Z := parseMetadataUint m MetadataKeyResponseSequence.
Definition ResponseMetadataForRequest (req : USPAgentRequest) : metadata :=
  match RequestSequence (qMetadata req) with
  | Some sequence => WithResponseSequence ∅ sequence
  | None => ∅
  end.

Definition WithQueuePolicy (m : metadata) (policy : bytes) : metadata :=
  let policy := TrimSpace policy in
  let out := CloneMetadata m in
  if (length policy =? 0)%nat then out else <[MetadataKeyQueuePolicy := policy]> out.
Definition QueuePolicy (m : metadata) : bytes :=
  if (size m =? 0)%nat then [] else TrimSpace (md_get m MetadataKeyQueuePolicy).

Definition blank (s : bytes) : bool := (length (TrimSpace s) =? 0)%nat.
Definition isObjectPath (path : bytes) : bool := HasSuffix (TrimSpace path) (bs ".").

Definition OperationTarget (path : bytes) : res werr (bytes * bytes) :=
  let path := TrimSpace path in
  if (length path =? 0)%nat then Err (ErrValidation "operate requires a command path")
  else if HasSuffix path (bs ".") then Ok (path, [])
  else if negb (HasSuffix path (bs "()")) then
    Err (ErrValidation "operate command path must end with '()'")
  else
    let commandName := TrimSuffix path (bs "()") in
    let separator := LastIndexByte commandName (z2b 46) in
    if (separator <=? 0) || (separator =? Z.of_nat (length commandName) - 1) then
      Err (ErrValidation "operate command path must include an object path")
    else Ok (take (Z.to_nat (separator + 1)) commandName, path).

Definition WithOperationCommandPath (m : metadata) (commandPath : bytes) : metadata :=
  let commandPath := TrimSpace commandPath in
  if (length commandPath =? 0)%nat then CloneMetadata m
  else <[MetadataKeyOperationCommandPath := commandPath]> (CloneMetadata m).

Definition OperationCommandPath (objectPath : bytes) (m : metadata) : res werr bytes :=
  let objectPath := TrimSpace objectPath in
  let commandPath := TrimSpace (md_get m MetadataKeyOperationCommandPath) in
  if (length commandPath =? 0)%nat then Ok objectPath
  else
    t ← OperationTarget commandPath;
    let '(expectedObjectPath, normalizedCommandPath) := t in
    if negb (bool_decide (expectedObjectPath = objectPath)) then
      Err (ErrValidation "operate command path does not belong to request object path")
    else Ok normalizedCommandPath.

Definition IsWUSPActionMethod (method : Z) : bool :=
  (method =? USPAgentMethodSet) || (method =? USPAgentMethodAdd)
  || (method =? USPAgentMethodDelete) || (method =? USPAgentMethodOperate)
  || (method =? USPAgentMethodNotify) || (method =? USPAgentMethodUpload)
  || (method =? USPAgentMethodDownload).
Definition ShouldQueueUSPRequest (req : USPAgentRequest) : bool :=
  IsWUSPActionMethod (qMethod req)
  || bool_decide (QueuePolicy (qMetadata req) = QueuePolicyAction).
Definition IsReadReplayMethod (method : Z) : bool :=
  (method =? USPAgentMethodGet) || (method =? USPAgentMethodGetInstances).

(** ** Nested message frames *)

Definition safe_opts (compress : bool) : EncodeOptions := MkEncodeOptions compress true true.

Fixpoint estimateValueEncodedSize (v : Value) : Z :=
  let 'MkValue tag ival _ blob l := v in
  if (tag =? TagNull) || (tag =? TagFalse) || (tag =? TagTrue) then 1
  else if tag =? TagUint then 1 + estimateUvarintSize (u64 ival)
  else if (tag =? TagInt) || (tag =? TagTime) then
    1 + estimateUvarintSize (u64 (Z.lxor (i64 (Z.shiftl ival 1)) (Z.shiftr ival 63)))
  else if tag =? TagFloat then 1 + 8
  else if (tag =? TagString) || (tag =? TagBytes) then 1 + estimateBlobSize blob
  else if tag =? TagIP4 then 1 + 4
  else if tag =? TagIP6 then 1 + 16
  else if tag =? TagIP4Pfx then 1 + 5
  else if tag =? TagIP6Pfx then 1 + 17
  else if tag =? TagMAC then 1 + 6
  else if tag =? TagList then
    1 + estimateUvarintSize (lenZ l) + sumZ (map estimateValueEncodedSize l)
  else 1.

Fixpoint nested_over (size : Z) (fields : list Field) : bool :=
  match fields with
  | [] => false
  | f :: fields =>
      let size := size + lenZ (Path f) + estimateValueEncodedSize (Val f) + 3 in
      if 512 <? size then true else nested_over size fields
  end.
Definition shouldCompressNestedMessage (msg : Message) : bool :=
  if (8 <=? length (Fields msg))%nat then true
  else nested_over (lenZ (DeviceID msg) + 16) (Fields msg).

Section WithSchema.
Context `{Schema}.

Definition encodeMessageValidated (msg : Message) (compress : bool) : res werr bytes :=
  Encode schema_registry (safe_opts compress) msg.
Definition encodeNestedValidatedMessage (msg : Message) : res werr bytes :=
  encodeMessageValidated msg (shouldCompressNestedMessage msg).

(** ** Validation *)

(** The loop of [ValidateMessageFast] with its [seen] set. *)
Fixpoint validate_fields (check : Field → res werr ()) (seen : gset bytes) (fields : list Field)
    : res werr () :=
  match fields with
  | [] => Ok ()
  | f :: fields =>
      if (length (Path f) =? 0)%nat then Err (ErrValidation "field has empty path")
      else if bool_decide (Path f ∈ seen) then Err (ErrValidation "duplicate field path")
      else _ ← check f; validate_fields check ({[Path f]} ∪ seen) fields
  end.
Definition ValidateMessageFast (msg : Message) : res werr () :=
  validate_fields ValidateFieldFast ∅ (Fields msg).

Definition DecodeMessageLenient (data : bytes) : res werr Message :=
  Decode schema_registry true data.
Definition DecodeMessage (data : bytes) : res werr Message :=
  msg ← Decode schema_registry true data;
  _ ← ValidateMessageFast msg;
  Ok msg.

Definition validateUnknownOperateInputField (objectPath : bytes) (f : Field) : res werr () :=
  let path := TrimSpace (Path f) in
  let objectPath := TrimSpace objectPath in
  _ ← fail_if (negb (bool_decide (path = Path f)))
        (ErrValidation "operation input path contains surrounding whitespace");
  _ ← fail_if (negb (HasPrefix path (bs "Device.")))
        (ErrValidation "operation input path must be rooted at Device.");
  _ ← fail_if (Contains path (bs "{i}"))
        (ErrValidation "operation input path must use a concrete instance");
  _ ← fail_if (HasSuffix path (bs "()"))
        (ErrValidation "operation input cannot be a command path");
  _ ← fail_if (negb (length objectPath =? 0)%nat && negb (Contains objectPath (bs "{i}"))
               && negb (HasPrefix path objectPath))
        (ErrValidation "operation input path does not belong to request object path");
  _ ← fail_if (512 <? length path)%nat (ErrValidation "operation input path is too long");
  fail_if (16384 <? lenZ (ValueToString (Val f)))
    (ErrValidation "operation input value is too large").

Definition operate_check (objectPath : bytes) (f : Field) : res werr () :=
  match ValidateFieldFast f with
  | Ok _ => Ok ()
  | Panic => Panic
  | Err e =>
      if bool_decide (e = ErrValidation "unknown parameter path")
      then validateUnknownOperateInputField objectPath f
      else Err e
  end.
Definition validateOperateInputMessage (objectPath : bytes) (msg : Message) : res werr () :=
  validate_fields (operate_check objectPath) ∅ (Fields msg).

Definition validateUSPAgentRequestMessage (req : USPAgentRequest) : res werr () :=
  match qMessage req with
  | None => Ok ()
  | Some msg =>
      if qMethod req =? USPAgentMethodOperate
      then validateOperateInputMessage (qObjectPath req) msg
      else ValidateMessageFast msg
  end.

Definition validateTransferRequest (t : USPTransferRequest) : res werr () :=
  _ ← fail_if (blank (trPath t)) (ErrValidation "transfer path is required");
  fail_if (negb (isObjectPath (trPath t)) && negb (lookupSafeParam (trPath t)))
    (ErrValidation "unknown transfer path").

(** The method-specific requirements at the end of [validateUSPAgentRequest]. *)
Definition validate_method (req : USPAgentRequest) : res werr () :=
  let no_object := blank (qObjectPath req) && (qObjectCode req =? 0) in
  let m := qMethod req in
  if m =? USPAgentMethodSet then
    fail_if match qMessage req with Some msg => (length (Fields msg) =? 0)%nat | None => true end
      (ErrValidation "set request missing fields")
  else if m =? USPAgentMethodAdd then
    fail_if no_object (ErrValidation "add request missing object path")
  else if m =? USPAgentMethodDelete then
    fail_if ((length (qPaths req) =? 0)%nat && (length (qPathCodes req) =? 0)%nat)
      (ErrValidation "delete request missing paths")
  else if (m =? USPAgentMethodOperate) || (m =? USPAgentMethodNotify) then
    _ ← fail_if no_object (ErrValidation "request missing object path");
    if (m =? USPAgentMethodOperate) && negb (blank (qObjectPath req)) then
      _ ← OperationCommandPath (qObjectPath req) (qMetadata req); Ok ()
    else Ok ()
  else if (m =? USPAgentMethodUpload) || (m =? USPAgentMethodDownload) then
    fail_if match qTransfer req with Some _ => false | None => true end
      (ErrValidation "transfer request missing transfer block")
  else Ok ().

Definition validateUSPAgentRequest (req : USPAgentRequest) : res werr () :=
  _ ← fail_if (qMethod req =? 0) ErrTransportMethodRequired;
  _ ← fail_if (existsb blank (qPaths req)) (ErrValidation "request contains empty path");
  _ ← fail_if (existsb (Z.eqb 0) (qPathCodes req))
        (ErrValidation "request contains zero path code");
  _ ← fail_if ((0 <? length (qPathInstances req))%nat
               && negb (length (qPathInstances req) =? length (qPathCodes req))%nat)
        (ErrValidation "request path selector metadata length mismatch");
  _ ← fail_if (negb (blank (qObjectPath req)) && negb (isObjectPath (qObjectPath req)))
        (ErrValidation "request object path must end with '.'");
  _ ← fail_if ((qObjectCode req =? 0) && (0 <? length (qObjectInstances req))%nat)
        (ErrValidation "request object selector instances without object code");
  _ ← fail_if ((qObjectCode req =? 0) && (length (qPathCodes req) =? 0)%nat
               && (length (qPaths req) =? 0)%nat
               && ((qMethod req =? USPAgentMethodDelete) || (qMethod req =? USPAgentMethodGetInstances)))
        (ErrValidation "request missing path selector");
  _ ← validateUSPAgentRequestMessage req;
  _ ← match qTransfer req with Some t => validateTransferRequest t | None => Ok () end;
  validate_method req.

Definition validateUSPAgentResponse (resp : USPAgentResponse) : res werr () :=
  _ ← fail_if (pMethod resp =? 0) ErrTransportMethodRequired;
  _ ← fail_if (existsb blank (pPaths resp)) (ErrValidation "response contains empty path");
  _ ← fail_if (existsb (Z.eqb 0) (pPathCodes resp))
        (ErrValidation "response contains zero path code");
  _ ← fail_if ((0 <? length (pPathInstances resp))%nat
               && negb (length (pPathInstances resp) =? length (pPathCodes resp))%nat)
        (ErrValidation "response path selector metadata length mismatch");
  _ ← fail_if (negb (blank (pObjectPath resp)) && negb (isObjectPath (pObjectPath resp)))
        (ErrValidation "response object path must end with '.'");
  fail_if ((pObjectCode resp =? 0) && (0 <? length (pObjectInstances resp))%nat)
    (ErrValidation "response object selector instances without object code").

(** ** Schema paths as selectors *)

Definition strictResolvedObjectCode (path : bytes) : option (Z * list Z) :=
  match SelectorForPath path with
  | Some (code, instances) => if code =? 0 then None else Some (code, instances)
  | None => None
  end.
Fixpoint strictResolvedPathSelectors (paths : list bytes) : option (list (Z * list Z)) :=
  match paths with
  | [] => Some []
  | path :: paths =>
      match strictResolvedObjectCode path, strictResolvedPathSelectors paths with
      | Some s, Some ss => Some (s :: ss)
      | _, _ => None
      end
  end.

(** Both directions work on (paths, codes, instances) and on
    (object path, code, instances) triples shared by requests and responses. *)
Definition compact_paths (p : list bytes * list Z * list (list Z))
    : list bytes * list Z * list (list Z) :=
  let '(paths, codes, instances) := p in
  if (length codes =? 0)%nat && (0 <? length paths)%nat then
    match strictResolvedPathSelectors paths with
    | Some ss => ([], ss.*1, ss.*2)
    | None => p
    end
  else p.
Definition compact_object (o : bytes * Z * list Z) : bytes * Z * list Z :=
  let '(path, code, instances) := o in
  if (code =? 0) && negb (blank path) then
    match strictResolvedObjectCode path with
    | Some (code, instances) => ([], code, instances)
    | None => o
    end
  else o.
Definition resolve_paths (p : list bytes * list Z * list (list Z))
    : list bytes * list Z * list (list Z) :=
  let '(paths, codes, instances) := p in
  if (length paths =? 0)%nat && (0 <? length codes)%nat then
    (omap (uncurry PathForSelector) (selector_items codes instances), codes, instances)
  else p.
Definition resolve_object (o : bytes * Z * list Z) : bytes * Z * list Z :=
  let '(path, code, instances) := o in
  if (length path =? 0)%nat && negb (code =? 0) then
    match PathForSelector code instances with
    | Some path => (path, code, instances)
    | None => o
    end
  else o.

Definition with_request_paths (req : USPAgentRequest) (p : list bytes * list Z * list (list Z))
    (o : bytes * Z * list Z) : USPAgentRequest :=
  {| qID := qID req; qMethod := qMethod req; qPaths := p.1.1; qPathCodes := p.1.2;
     qPathInstances := p.2; qObjectPath := o.1.1; qObjectCode := o.1.2;
     qObjectInstances := o.2; qMessage := qMessage req; qTransfer := qTransfer req;
     qMetadata := qMetadata req |}.
Definition request_paths (req : USPAgentRequest) := (qPaths req, qPathCodes req, qPathInstances req).
Definition request_object (req : USPAgentRequest) :=
  (qObjectPath req, qObjectCode req, qObjectInstances req).

Definition resolveFastRequestPaths (req : USPAgentRequest) : USPAgentRequest :=
  with_request_paths req (resolve_paths (request_paths req)) (resolve_object (request_object req)).
(** An Operate request keeps its object path as a string. *)
Definition compactRequestSelectors (req : USPAgentRequest) : USPAgentRequest :=
  with_request_paths req (compact_paths (request_paths req))
    (if qMethod req =? USPAgentMethodOperate then request_object req
     else compact_object (request_object req)).

Definition with_response_paths (resp : USPAgentResponse) (p : list bytes * list Z * list (list Z))
    (o : bytes * Z * list Z) : USPAgentResponse :=
  {| pID := pID resp; pMethod := pMethod resp; pPaths := p.1.1; pPathCodes := p.1.2;
     pPathInstances := p.2; pObjectPath := o.1.1; pObjectCode := o.1.2;
     pObjectInstances := o.2; pMessage := pMessage resp; pTransfer := pTransfer resp;
     pMetadata := pMetadata resp; pSupportedDataModel := pSupportedDataModel resp;
     pProtocol := pProtocol resp; pError := pError resp |}.
Definition response_paths (r : USPAgentResponse) := (pPaths r, pPathCodes r, pPathInstances r).
Definition response_object (r : USPAgentResponse) :=
  (pObjectPath r, pObjectCode r, pObjectInstances r).
Definition resolveFastResponsePaths (resp : USPAgentResponse) : USPAgentResponse :=
  with_response_paths resp (resolve_paths (response_paths resp))
    (resolve_object (response_object resp)).
Definition compactResponseSelectors (resp : USPAgentResponse) : USPAgentResponse :=
  with_response_paths resp (compact_paths (response_paths resp))
    (compact_object (response_object resp)).

(** ** Flag bytes *)

Fixpoint flag_byte (k : Z) (bs : list bool) : Z :=
  match bs with
  | [] => 0
  | b :: bs => Z.lor (if b then Z.shiftl 1 k else 0) (flag_byte (k + 1) bs)
  end.
Definition flag_set (flags k : Z) : bool := negb (Z.land flags (Z.shiftl 1 k) =? 0).

Definition is_some {A} (o : option A) : bool := match o with Some _ => true | None => false end.
Definition when (b : bool) (e : bytes) : bytes := if b then e else [].
Definition nested_frame (msg : option Message) : res werr (option bytes) :=
  match msg with
  | None => Ok None
  | Some msg => frame ← encodeNestedValidatedMessage msg; Ok (Some frame)
  end.
Definition opt_bytes {A} (write : A → bytes) (o : option A) : bytes :=
  match o with Some a => write a | None => [] end.

(** ** Requests *)

Definition with_message (req : USPAgentRequest) (m : option Message) : USPAgentRequest :=
  {| qID := qID req; qMethod := qMethod req; qPaths := qPaths req; qPathCodes := qPathCodes req;
     qPathInstances := qPathInstances req; qObjectPath := qObjectPath req;
     qObjectCode := qObjectCode req; qObjectInstances := qObjectInstances req; qMessage := m;
     qTransfer := qTransfer req; qMetadata := qMetadata req |}.

Definition request_flags (req : USPAgentRequest) : Z :=
  flag_byte 0 [is_some (qMessage req); is_some (qTransfer req); negb (blank (qObjectPath req));
               (0 <? size (qMetadata req))%nat; (0 <? length (qPathCodes req))%nat;
               negb (qObjectCode req =? 0)].

Definition write_request (req : USPAgentRequest) (nested : option bytes) : bytes :=
  let flags := request_flags req in
  writeHeader {| hVersion := uspTransportVersion; hKind := uspTransportKindRequest;
                 hMethod := qMethod req; hFlags := flags; hID := qID req |}
  ++ writeStringList (qPaths req)
  ++ when (flag_set flags 2) (writeString (qObjectPath req))
  ++ when (flag_set flags 4) (writePathSelectors (qPathCodes req) (qPathInstances req))
  ++ when (flag_set flags 5) (writePathSelector (qObjectCode req) (qObjectInstances req))
  ++ opt_bytes (fun frame => when (0 <? length frame)%nat (writeBytes frame)) nested
  ++ opt_bytes writeTransferRequest (qTransfer req)
  ++ when (flag_set flags 3) (writeMetadata (qMetadata req)).

(** The caller's message has its field IDs cleared in place; the model clears
    them in the copy it encodes. *)
Definition EncodeUSPAgentRequest (req : USPAgentRequest) : res werr bytes :=
  let req := compactRequestSelectors req in
  let req := with_message req (ResetAllFieldIDs <$> qMessage req) in
  _ ← validateUSPAgentRequest req;
  nested ← nested_frame (qMessage req);
  Ok (write_request req nested).

Definition decodeUSPAgentRequestMessage (method : Z) (data : bytes) : res werr Message :=
  if method =? USPAgentMethodOperate then DecodeMessageLenient data else DecodeMessage data.

Definition rd_when {A} (b : bool) (m : rd A) (d : A) : rd A := if b then m else mret d.

(** The body after the header; the unread rest is returned to the caller. *)
Definition read_request (h : uspTransportHeader) : rd USPAgentRequest :=
  let flags := hFlags h in
  paths ← readStringList;
  objectPath ← rd_when (flag_set flags 2) rString [];
  selectors ← rd_when (flag_set flags 4) readPathSelectors ([], []);
  object ← rd_when (flag_set flags 5) readPathSelector (0, []);
  message ← rd_when (flag_set flags 0)
              (frame ← rBytes;
               m ← rd_lift (decodeUSPAgentRequestMessage (hMethod h) frame); mret (Some m)) None;
  transfer ← rd_when (flag_set flags 1) (Some <$> readTransferRequest) None;
  md ← rd_when (flag_set flags 3) readMetadata ∅;
  mret {| qID := hID h; qMethod := hMethod h; qPaths := paths; qPathCodes := selectors.1;
          qPathInstances := selectors.2; qObjectPath := objectPath; qObjectCode := object.1;
          qObjectInstances := object.2; qMessage := message; qTransfer := transfer;
          qMetadata := md |}.

Definition DecodeUSPAgentRequest (data : bytes) : res werr USPAgentRequest :=
  h ← readHeader data;
  let '(header, body) := h in
  if negb (hKind header =? uspTransportKindRequest) then
    Err (ErrTransportMalformed "unexpected request kind")
  else
    r ← read_request header body;
    let '(req, rest) := r in
    if negb (length rest =? 0)%nat && negb (remainingAllZero rest) then
      Err (ErrTransportMalformed "trailing request data")
    else
      let req := resolveFastRequestPaths req in
      _ ← validateUSPAgentRequest req;
      Ok req.

Definition estimateUSPAgentRequestSize (req : USPAgentRequest) (nested : option bytes) : Z :=
  12 + estimateStringListSize (qPaths req)
  + (if (length (qObjectPath req) =? 0)%nat then 0 else estimateStringSize (qObjectPath req))
  + (if (0 <? length (qPathCodes req))%nat
     then estimatePathSelectorsSize (qPathCodes req) (qPathInstances req) else 0)
  + (if qObjectCode req =? 0 then 0
     else estimatePathSelectorSize (qObjectCode req) (qObjectInstances req))
  + match nested with
    | Some frame => if (0 <? length frame)%nat then estimateBlobSize frame else 0
    | None => 0
    end
  + match qTransfer req with Some t => estimateTransferRequestSize t | None => 0 end
  + estimateMetadataSize (qMetadata req).

(** ** Responses *)

Definition with_resp_message (resp : USPAgentResponse) (m : option Message) : USPAgentResponse :=
  {| pID := pID resp; pMethod := pMethod resp; pPaths := pPaths resp;
     pPathCodes := pPathCodes resp; pPathInstances := pPathInstances resp;
     pObjectPath := pObjectPath resp; pObjectCode := pObjectCode resp;
     pObjectInstances := pObjectInstances resp; pMessage := m; pTransfer := pTransfer resp;
     pMetadata := pMetadata resp; pSupportedDataModel := pSupportedDataModel resp;
     pProtocol := pProtocol resp; pError := pError resp |}.

Definition response_flags (r : USPAgentResponse) : Z :=
  flag_byte 0 [is_some (pMessage r); is_some (pTransfer r); (0 <? length (pPaths r))%nat;
               negb (blank (pObjectPath r)); (0 <? size (pMetadata r))%nat;
               is_some (pSupportedDataModel r); is_some (pProtocol r);
               (0 <? length (pPathCodes r))%nat || negb (pObjectCode r =? 0)
               || (0 <? length (pObjectInstances r))%nat].

Definition write_response (r : USPAgentResponse) (nested : option bytes) : bytes :=
  let flags := response_flags r in
  writeHeader {| hVersion := uspTransportVersion; hKind := uspTransportKindResponse;
                 hMethod := pMethod r; hFlags := flags; hID := pID r |}
  ++ writeString (pError r)
  ++ when (flag_set flags 2) (writeStringList (pPaths r))
  ++ when (flag_set flags 3) (writeString (pObjectPath r))
  ++ opt_bytes (fun frame => when (0 <? length frame)%nat (writeBytes frame)) nested
  ++ opt_bytes writeTransferResult (pTransfer r)
  ++ when (flag_set flags 4) (writeMetadata (pMetadata r))
  ++ when (flag_set flags 7) (writePathSelectors (pPathCodes r) (pPathInstances r)
                              ++ writePathSelector (pObjectCode r) (pObjectInstances r))
  ++ opt_bytes writeSupportedDataModel (pSupportedDataModel r)
  ++ opt_bytes writeProtocolInfo (pProtocol r).

Definition EncodeUSPAgentResponse (resp : USPAgentResponse) : res werr bytes :=
  let resp := compactResponseSelectors resp in
  _ ← validateUSPAgentResponse resp;
  let resp := with_resp_message resp (ResetAllFieldIDs <$> pMessage resp) in
  nested ← nested_frame (pMessage resp);
  Ok (write_response resp nested).

Definition read_response (h : uspTransportHeader) : rd USPAgentResponse :=
  let flags := hFlags h in
  err ← rString;
  paths ← rd_when (flag_set flags 2) readStringList [];
  objectPath ← rd_when (flag_set flags 3) rString [];
  message ← rd_when (flag_set flags 0)
              (frame ← rBytes; m ← rd_lift (DecodeMessage frame); mret (Some m)) None;
  transfer ← rd_when (flag_set flags 1) (Some <$> readTransferResult) None;
  md ← rd_when (flag_set flags 4) readMetadata ∅;
  sel ← rd_when (flag_set flags 7)
          (s ← readPathSelectors; o ← readPathSelector; mret (s, o)) (([], []), (0, []));
  sdm ← rd_when (flag_set flags 5) (Some <$> readSupportedDataModel) None;
  proto ← rd_when (flag_set flags 6) (Some <$> readProtocolInfo) None;
  mret {| pID := hID h; pMethod := hMethod h; pPaths := paths; pPathCodes := sel.1.1;
          pPathInstances := sel.1.2; pObjectPath := objectPath; pObjectCode := sel.2.1;
          pObjectInstances := sel.2.2; pMessage := message; pTransfer := transfer;
          pMetadata := md; pSupportedDataModel := sdm; pProtocol := proto; pError := err |}.

Definition DecodeUSPAgentResponse (data : bytes) : res werr USPAgentResponse :=
  h ← readHeader data;
  let '(header, body) := h in
  if negb (hKind header =? uspTransportKindResponse) then
    Err (ErrTransportMalformed "unexpected response kind")
  else
    r ← read_response header body;
    let '(resp, rest) := r in
    if negb (length rest =? 0)%nat && negb (remainingAllZero rest) then
      Err (ErrTransportMalformed "trailing response data")
    else
      let resp := resolveFastResponsePaths resp in
      _ ← validateUSPAgentResponse resp;
      Ok resp.

Definition estimateUSPAgentResponseSize (r : USPAgentResponse) (nested : option bytes) : Z :=
  12 + estimateStringSize (pError r)
  + (if (0 <? length (pPaths r))%nat then estimateStringListSize (pPaths r) else 0)
  + (if (length (pObjectPath r) =? 0)%nat then 0 else estimateStringSize (pObjectPath r))
  + match nested with
    | Some frame => if (0 <? length frame)%nat then estimateBlobSize frame else 0
    | None => 0
    end
  + match pTransfer r with Some t => estimateTransferResultSize t | None => 0 end
  + estimateMetadataSize (pMetadata r)
  + estimatePathSelectorsSize (pPathCodes r) (pPathInstances r)
  + estimatePathSelectorSize (pObjectCode r) (pObjectInstances r)
  + match pSupportedDataModel r with Some m => estimateSupportedDataModelSize m | None => 0 end
  + match pProtocol r with Some i => estimateProtocolInfoSize i | None => 0 end.

End WithSchema.

(** ** Flags and headers *)

Lemma flag_set_testbit f k : 0 ≤ k → flag_set f k = Z.testbit f k.
Proof.
  intros Hk. unfold flag_set. rewrite Z.shiftl_1_l. destruct (Z.testbit f k) eqn:E.
  - apply negb_true_iff, Z.eqb_neq. intros H0.
    assert (Z.testbit (Z.land f (2 ^ k)) k = true) as Ht
      by (rewrite Z.land_spec, E, Z.pow2_bits_true by done; done).
    by rewrite H0, Z.bits_0 in Ht.
  - apply negb_false_iff, Z.eqb_eq, Z.bits_inj'. intros n Hn. rewrite Z.land_spec, Z.bits_0.
    destruct (decide (n = k)) as [->|]; [by rewrite E|].
    rewrite Z.pow2_bits_false by lia. apply andb_false_r.
Qed.

Lemma testbit_flag_byte l : ∀ k n, 0 ≤ k → 0 ≤ n →
  Z.testbit (flag_byte k l) n = if n <? k then false else default false (l !! Z.to_nat (n - k)).
Proof.
  induction l as [|b l IH]; intros k n Hk Hn; cbn [flag_byte].
  { rewrite Z.bits_0. by destruct (n <? k). }
  rewrite Z.lor_spec, IH by lia.
  assert (Z.testbit (if b then Z.shiftl 1 k else 0) n = b && (n =? k)) as ->.
  { destruct b; [|apply Z.bits_0]. rewrite Z.shiftl_1_l. simpl.
    destruct (Z.eqb_spec n k) as [->|]; [by apply Z.pow2_bits_true|].
    by apply Z.pow2_bits_false. }
  destruct (Z.eqb_spec n k) as [->|].
  - rewrite (proj2 (Z.ltb_lt k (k + 1))) by lia. rewrite Z.ltb_irrefl, Z.sub_diag. simpl.
    by rewrite andb_true_r, orb_false_r.
  - rewrite andb_false_r. simpl. destruct (Z.ltb_spec n k).
    + by rewrite (proj2 (Z.ltb_lt n (k + 1))) by lia.
    + rewrite (proj2 (Z.ltb_ge n (k + 1))) by lia.
      replace (Z.to_nat (n - k)) with (S (Z.to_nat (n - (k + 1)))) by lia. done.
Qed.

Lemma flag_set_byte l (i : nat) : flag_set (flag_byte 0 l) (Z.of_nat i) = default false (l !! i).
Proof.
  rewrite flag_set_testbit, testbit_flag_byte by lia.
  rewrite (proj2 (Z.ltb_ge _ 0)) by lia. by rewrite Z.sub_0_r, Nat2Z.id.
Qed.

Lemma flag_byte_range l : (length l ≤ 8)%nat → 0 ≤ flag_byte 0 l < 256.
Proof.
  intros Hl.
  assert (∀ l k, 0 ≤ k → 0 ≤ flag_byte k l) as Hnn.
  { clear. induction l as [|b l IH]; intros k Hk; cbn [flag_byte]; [lia|].
    apply Z.lor_nonneg. split; [|apply IH; lia]. destruct b; [|lia].
    rewrite Z.shiftl_1_l. lia. }
  split; [by apply Hnn|].
  destruct (decide (flag_byte 0 l = 0)) as [->|Hnz]; [lia|].
  pose proof (Hnn l 0 ltac:(lia)). change 256 with (2 ^ 8). apply Z.log2_lt_pow2; [lia|].
  apply Z.nle_gt. intros Hle.
  pose proof (Z.bit_log2 (flag_byte 0 l) ltac:(lia)) as Hb.
  rewrite testbit_flag_byte in Hb by lia. rewrite (proj2 (Z.ltb_ge _ 0)) in Hb by lia.
  rewrite lookup_ge_None_2 in Hb by lia. done.
Qed.

Lemma flag_set_nth l (i : nat) b :
  l !! i = Some b → flag_set (flag_byte 0 l) (Z.of_nat i) = b.
Proof. intros Hb. by rewrite flag_set_byte, Hb. Qed.
(** Evaluates every flag test of the goal against a literal list of flags. *)
Ltac eval_flags :=
  repeat match goal with
  | |- context [flag_set (flag_byte 0 ?l) ?k] =>
      let i := eval vm_compute in (Z.to_nat k) in
      let b := eval cbv [lookup list_lookup] in (l !! i) in
      match b with Some ?b =>
        replace (flag_set (flag_byte 0 l) k) with b by (symmetry; exact (flag_set_nth l i b eq_refl))
      end
  end.

Definition byte_ok (v : Z) : Prop := 0 ≤ v < 256.
Definition header_ok (h : uspTransportHeader) : Prop :=
  hVersion h = uspTransportVersion ∧ byte_ok (hKind h) ∧ byte_ok (hMethod h) ∧ byte_ok (hFlags h)
  ∧ u64_ok (hID h).

Lemma le_get_one z : byte_ok z → le_get [z2b z] = z.
Proof.
  intros Hz. change [z2b z] with (le_put 1 z). apply le_get_put_small. exact Hz.
Qed.

Lemma readHeader_write h r : header_ok h → readHeader (writeHeader h ++ r) = Ok (h, r).
Proof.
  intros (Hv & Hk & Hm & Hf & Hi). unfold readHeader.
  assert (length (writeHeader h) = 12%nat) as Hlen
    by (unfold writeHeader; rewrite length_app, length_le_put; done).
  rewrite (proj2 (Nat.ltb_ge _ 12)) by (rewrite length_app; lia).
  rewrite drop_app_length' by done.
  replace (slice 4 12 (writeHeader h ++ r)) with (le_put 8 (hID h)).
  2:{ unfold writeHeader. rewrite <- app_assoc. rewrite slice_app_r by (simpl; lia).
      cbn [map length Nat.sub]. by rewrite (slice_app_here 8) by apply length_le_put. }
  replace (slice 0 1 (writeHeader h ++ r)) with [z2b (hVersion h)] by done.
  replace (slice 1 2 (writeHeader h ++ r)) with [z2b (hKind h)] by done.
  replace (slice 2 3 (writeHeader h ++ r)) with [z2b (hMethod h)] by done.
  replace (slice 3 4 (writeHeader h ++ r)) with [z2b (hFlags h)] by done.
  rewrite !le_get_one by (done || by rewrite Hv).
  rewrite le_get_put_small by exact Hi. cbn [hVersion]. rewrite Hv, Z.eqb_refl. cbn [negb].
  rewrite <- Hv. by destruct h.
Qed.

(** ** Optional parts *)

Lemma reads_when {A} b (m : rd A) d x e :
  (b = true → reads m x e) → (b = false → x = d) → reads (rd_when b m d) x (when b e).
Proof. intros H1 H2. destruct b; simpl; [by apply H1|]. rewrite H2 by done. apply reads_ret. Qed.

Lemma reads_fmap {A B} (f : A → B) (m : rd A) x e : reads m x e → reads (f <$> m) (f x) e.
Proof. intros Hm r Hf. unfold fmap, rd_fmap. by rewrite Hm. Qed.

Lemma reads_when_opt {A} (m : rd A) (write : A → bytes) (o : option A) :
  (∀ a, o = Some a → reads m a (write a)) →
  reads (rd_when (is_some o) (Some <$> m) None) o (opt_bytes write o).
Proof.
  intros Ho. destruct o as [a|]; simpl; [|apply reads_ret]. apply reads_fmap. by apply Ho.
Qed.

Lemma remainingAllZero_zeros k : remainingAllZero (replicate k (z2b 0)) = true.
Proof. unfold remainingAllZero. induction k; simpl; [done|]. by rewrite IHk. Qed.

Section RoundTrip.
Context `{Schema}.

Lemma Encode_nonempty reg opts msg frame : Encode reg opts msg = Ok frame → (0 < length frame)%nat.
Proof.
  unfold Encode. intros (p & _ & Hf)%bind_ok. apply bind_ok in Hf as ([fin fl] & _ & [= <-]).
  simpl. lia.
Qed.

(** A message the codec transports: well formed once its field IDs are cleared,
    and with a payload within the decode cap. *)
Definition message_ok (m : Message) : Prop :=
  wf_message schema_registry m = true ∧
  ∀ payload c, encodePayload (safe_opts c) m = Ok payload →
    Z.of_nat (length payload) ≤ maxDecodedPayload.

Lemma visible_safe c m : visible (safe_opts c) m = m.
Proof. by destruct m. Qed.

Lemma nested_decodes m frame :
  message_ok m → encodeNestedValidatedMessage m = Ok frame →
  (0 < length frame)%nat ∧ Decode schema_registry true frame = Ok m.
Proof.
  intros [Hwf Hsz] He. split; [by eapply Encode_nonempty|].
  unfold encodeNestedValidatedMessage, encodeMessageValidated in He.
  set (c := shouldCompressNestedMessage m) in *. pose proof He as Hp.
  unfold Encode in Hp. apply bind_ok in Hp as (payload & Hp & _).
  destruct (Decode_Encode schema_registry (safe_opts c) true m payload Hwf Hp (Hsz _ _ Hp))
    as (frame' & He' & Hd).
  rewrite He' in He. injection He as <-. by rewrite Hd, visible_safe.
Qed.

(** What the wire keeps of an encoded request. *)
Definition wire_request (req : USPAgentRequest) : USPAgentRequest :=
  with_request_paths req
    (qPaths req, qPathCodes req, (selector_items (qPathCodes req) (qPathInstances req)).*2)
    (if blank (qObjectPath req) then [] else qObjectPath req, qObjectCode req,
     if qObjectCode req =? 0 then [] else qObjectInstances req).

Definition selectors_ok (codes : list Z) (instances : list (list Z)) (code : Z) (inst : list Z) : Prop :=
  Forall selector_ok (selector_items codes instances) ∧ selector_ok (code, inst).

Definition request_ok (req : USPAgentRequest) : Prop :=
  u64_ok (qID req) ∧ byte_ok (qMethod req) ∧
  selectors_ok (qPathCodes req) (qPathInstances req) (qObjectCode req) (qObjectInstances req).

Lemma selector_items_fst codes : ∀ instances, (selector_items codes instances).*1 = codes.
Proof. induction codes as [|c codes IH]; intros; simpl; [done|]. by rewrite IH. Qed.

Lemma reads_nested (dec : bytes → res werr Message) (m : option Message) nested :
  (∀ msg, m = Some msg → ∃ frame, nested = Some frame ∧ (0 < length frame)%nat ∧ dec frame = Ok msg) →
  (m = None → nested = None) →
  reads (rd_when (is_some m) (frame ← rBytes; msg ← rd_lift (dec frame); mret (Some msg)) None) m
    (opt_bytes (fun frame => when (0 <? length frame)%nat (writeBytes frame)) nested).
Proof.
  intros Hs Hn. destruct m as [msg|]; simpl; [|rewrite Hn by done; apply reads_ret].
  destruct (Hs msg eq_refl) as (frame & -> & Hl & Hd). simpl.
  rewrite (proj2 (Nat.ltb_lt 0 _)) by done. simpl.
  eapply reads_last; [apply reads_bytes|]. unfold mbind, rd_bind, rd_lift, res_bind. by rewrite Hd.
Qed.

Lemma reads_request req nested flags :
  flags = request_flags req →
  request_ok req →
  (∀ msg, qMessage req = Some msg → ∃ frame, nested = Some frame ∧ (0 < length frame)%nat ∧
     decodeUSPAgentRequestMessage (qMethod req) frame = Ok msg) →
  (qMessage req = None → nested = None) →
  reads (read_request {| hVersion := uspTransportVersion; hKind := uspTransportKindRequest;
                         hMethod := qMethod req; hFlags := flags; hID := qID req |})
    (wire_request req)
    (writeStringList (qPaths req)
     ++ when (flag_set flags 2) (writeString (qObjectPath req))
     ++ when (flag_set flags 4) (writePathSelectors (qPathCodes req) (qPathInstances req))
     ++ when (flag_set flags 5) (writePathSelector (qObjectCode req) (qObjectInstances req))
     ++ opt_bytes (fun frame => when (0 <? length frame)%nat (writeBytes frame)) nested
     ++ opt_bytes writeTransferRequest (qTransfer req)
     ++ when (flag_set flags 3) (writeMetadata (qMetadata req))).
Proof.
  intros Hflags (Hid & Hm & Hsel & Hobj) Hs Hn. unfold read_request. cbn [hFlags hMethod hID].
  unfold request_flags in Hflags. subst flags.
  eval_flags.
  eapply reads_bind; [apply reads_string_list|].
  eapply reads_bind.
  { apply (reads_when _ rString [] (if blank (qObjectPath req) then [] else qObjectPath req));
      destruct (blank (qObjectPath req)); try done. intros _. apply reads_string. }
  eapply reads_bind.
  { apply (reads_when _ readPathSelectors ([], [])
      (qPathCodes req, (selector_items (qPathCodes req) (qPathInstances req)).*2)).
    - intros _. rewrite <- (selector_items_fst (qPathCodes req) (qPathInstances req)) at 1.
      by apply reads_selectors.
    - destruct (Nat.ltb_spec 0 (length (qPathCodes req))); [done|].
      destruct (qPathCodes req); [done|simpl in *; lia]. }
  eapply reads_bind.
  { apply (reads_when _ readPathSelector (0, [])
      (qObjectCode req, if qObjectCode req =? 0 then [] else qObjectInstances req)).
    - destruct (qObjectCode req =? 0); [done|]. intros _. by apply reads_selector.
    - destruct (Z.eqb_spec (qObjectCode req) 0) as [->|]; done. }
  eapply reads_bind; [by apply (reads_nested _ (qMessage req))|].
  eapply reads_bind.
  { apply (reads_when_opt readTransferRequest writeTransferRequest (qTransfer req)).
    intros. apply reads_transfer_request. }
  eapply reads_last; [|done]. apply reads_when; [intros _; apply reads_metadata|].
  destruct (Nat.ltb_spec 0 (size (qMetadata req))); [done|]. intros _.
  apply map_size_empty_iff. lia.
Qed.

(** Decoding an encoded request, possibly followed by zero padding. *)
Lemma Decode_write_request req nested k :
  request_ok req →
  (∀ msg, qMessage req = Some msg → ∃ frame, nested = Some frame ∧ (0 < length frame)%nat ∧
     decodeUSPAgentRequestMessage (qMethod req) frame = Ok msg) →
  (qMessage req = None → nested = None) →
  frame_fits (length (write_request req nested ++ replicate k (z2b 0))) →
  DecodeUSPAgentRequest (write_request req nested ++ replicate k (z2b 0)) =
    (_ ← validateUSPAgentRequest (resolveFastRequestPaths (wire_request req));
     Ok (resolveFastRequestPaths (wire_request req))).
Proof.
  intros Hok Hs Hn Hf. pose proof Hok as (Hid & Hm & _).
  unfold DecodeUSPAgentRequest, write_request in *. rewrite <- app_assoc in *.
  rewrite readHeader_write.
  2:{ split_and!; try done. apply flag_byte_range. simpl. lia. }
  cbn [mbind res_bind hKind]. rewrite Z.eqb_refl. cbn [negb].
  rewrite (reads_request req nested _ eq_refl) by (try done; by eapply frame_fits_app).
  cbn [mbind res_bind]. rewrite remainingAllZero_zeros, andb_false_r. done.
Qed.

(** *** String paths through compaction and back *)

(** The data model resolves a selector it produced to the path it came from. *)
Definition path_law (p : bytes) : Prop :=
  ∀ code inst, SelectorForPath p = Some (code, inst) →
    PathForSelector code inst = Some p ∧ selector_ok (code, inst).

Lemma strict_ok p code inst : path_law p → strictResolvedObjectCode p = Some (code, inst) →
  code ≠ 0 ∧ PathForSelector code inst = Some p ∧ selector_ok (code, inst).
Proof.
  unfold strictResolvedObjectCode. intros Hl.
  destruct (SelectorForPath p) as [[c i]|] eqn:E; [|done].
  destruct (Z.eqb_spec c 0); [done|]. intros [= -> ->]. destruct (Hl _ _ E). done.
Qed.

Lemma strict_list_ok paths ss : Forall path_law paths →
  strictResolvedPathSelectors paths = Some ss →
  length ss = length paths ∧ Forall selector_ok ss ∧ Forall (fun s => s.1 ≠ 0) ss ∧
  omap (uncurry PathForSelector) ss = paths.
Proof.
  intros Hl. revert ss. induction Hl as [|p paths Hp _ IH]; intros ss; simpl.
  { intros [= <-]. done. }
  destruct (strictResolvedObjectCode p) as [[c i]|] eqn:E; [|done].
  destruct (strictResolvedPathSelectors paths) as [ss'|]; [|done]. intros [= <-].
  destruct (strict_ok p c i Hp E) as (? & Hpf & ?). destruct (IH ss' eq_refl) as (? & ? & ? & Ho).
  split_and!; [simpl; lia|by constructor|by constructor|].
  simpl. rewrite Hpf. f_equal. exact Ho.
Qed.

Lemma selector_items_pairs (ss : list (Z * list Z)) : selector_items ss.*1 ss.*2 = ss.
Proof. induction ss as [|[c i] ss IH]; [done|]. rewrite !fmap_cons. cbn. f_equal. exact IH. Qed.

Lemma compact_resolve_paths paths p :
  Forall path_law paths → compact_paths (paths, [], []) = p →
  let '(paths', codes, instances) := p in
  Forall selector_ok (selector_items codes instances) ∧
  existsb (Z.eqb 0) codes = false ∧
  length instances = length codes ∧
  (codes = [] → paths' = paths) ∧
  (selector_items codes instances).*2 = instances ∧
  (resolve_paths p) = (paths, codes, instances).
Proof.
  intros Hl Hc. simpl in Hc. destruct paths as [|p0 paths0] eqn:Hp.
  { simpl in Hc. subst p. done. }
  rewrite <- Hp in *. replace (0 <? length paths)%nat with true in Hc
    by (subst; done). simpl in Hc.
  destruct (strictResolvedPathSelectors paths) as [ss|] eqn:E.
  - destruct (strict_list_ok paths ss Hl E) as (Hlen & Hok & Hnz & Ho). subst p.
    rewrite selector_items_pairs. split_and!; try done.
    + destruct (existsb _ _) eqn:Ex; [|done]. apply existsb_exists in Ex as (c & Hin & <-%Z.eqb_eq).
      apply list_elem_of_In, list_elem_of_fmap in Hin as (s & Hs0 & Hs).
      rewrite Forall_forall in Hnz. by destruct (Hnz s Hs).
    + by rewrite !length_fmap.
    + intros Hnil%fmap_nil_inv. subst ss. simpl in Hlen. subst. done.
    + unfold resolve_paths. rewrite length_fmap, selector_items_pairs, Ho.
      rewrite (proj2 (Nat.ltb_lt 0 (length ss))) by (rewrite Hlen; subst; simpl; lia). done.
  - subst p. split_and!; try done. simpl. by rewrite andb_false_r.
Qed.

Lemma compact_resolve_object path o :
  path_law path → compact_object (path, 0, []) = o →
  (path = [] ∨ blank path = false) →
  let '(path', code, inst) := o in
  selector_ok (code, inst) ∧ (code = 0 → inst = [] ∧ path' = path) ∧
  resolve_object (if blank path' then [] else path', code, if code =? 0 then [] else inst)
    = (path, code, inst).
Proof.
  intros Hl Hc Hb. simpl in Hc.
  destruct (blank path) eqn:Hbl; simpl in Hc.
  { subst o. destruct Hb as [->|]; [|done]. rewrite Hbl. split_and!; done. }
  destruct (strictResolvedObjectCode path) as [[c i]|] eqn:E.
  - destruct (strict_ok path c i Hl E) as (Hc0 & Hp & Hok). subst o. split_and!; [done|done|].
    rewrite (proj2 (Z.eqb_neq c 0)) by done. simpl. rewrite (proj2 (Z.eqb_neq c 0)) by done.
    simpl. by rewrite Hp.
  - subst o. rewrite Hbl. split_and!; [split; [done|constructor]|done|]. simpl.
    by rewrite andb_false_r.
Qed.

(** A request addressed by string paths, as the callers of the transport build
    it. *)
Definition plain_request (req : USPAgentRequest) : Prop :=
  u64_ok (qID req) ∧ byte_ok (qMethod req) ∧
  qPathCodes req = [] ∧ qPathInstances req = [] ∧ qObjectCode req = 0 ∧ qObjectInstances req = [] ∧
  Forall (fun p => blank p = false) (qPaths req) ∧
  (qObjectPath req = [] ∨ (blank (qObjectPath req) = false ∧ isObjectPath (qObjectPath req) = true)) ∧
  (∀ m, qMessage req = Some m → message_ok (ResetAllFieldIDs m)).

Definition sent_request (req : USPAgentRequest) : USPAgentRequest :=
  with_message (compactRequestSelectors req) (ResetAllFieldIDs <$> qMessage req).

Definition received_request (req : USPAgentRequest) : USPAgentRequest :=
  with_request_paths (with_message req (ResetAllFieldIDs <$> qMessage req))
    (qPaths req, qPathCodes (sent_request req), qPathInstances (sent_request req))
    (qObjectPath req, qObjectCode (sent_request req), qObjectInstances (sent_request req)).

Ltac req_cbn := cbn [qID qMethod qPaths qPathCodes qPathInstances qObjectPath qObjectCode
  qObjectInstances qMessage qTransfer qMetadata with_message with_request_paths fst snd].

(** What compaction and resolution do to a plain request. *)
Lemma sent_received req :
  plain_request req → Forall path_law (qObjectPath req :: qPaths req) →
  request_ok (sent_request req) ∧
  resolveFastRequestPaths (wire_request (sent_request req)) = received_request req ∧
  (qPathCodes (sent_request req) = [] → qPaths (sent_request req) = qPaths req) ∧
  (qObjectCode (sent_request req) = 0 → qObjectPath (sent_request req) = qObjectPath req) ∧
  (qMethod req = USPAgentMethodOperate → qObjectPath (sent_request req) = qObjectPath req).
Proof.
  intros (Hid & Hm & Hc & Hi & Hoc & Hoi & Hp & Ho & _) [Hlo Hlp]%Forall_cons.
  unfold received_request, wire_request, resolveFastRequestPaths, request_ok, sent_request,
    selectors_ok, compactRequestSelectors, request_paths, request_object. req_cbn.
  rewrite Hc, Hi, Hoc, Hoi.
  destruct (compact_paths (qPaths req, [], [])) as [[ps cs] is'] eqn:Ec.
  pose proof (compact_resolve_paths _ _ Hlp Ec) as (Hs & _ & _ & Hps & H2 & Hr).
  assert (qObjectPath req = [] ∨ blank (qObjectPath req) = false) as Hb by tauto.
  assert (compact_object (qObjectPath req, 0, []) = compact_object (qObjectPath req, 0, [])) as E1 by done.
  destruct (qMethod req =? USPAgentMethodOperate) eqn:Eo.
  - req_cbn. rewrite H2. split_and!; try done.
    assert (resolve_object (if blank (qObjectPath req) then [] else qObjectPath req, 0,
      if 0 =? 0 then [] else []) = (qObjectPath req, 0, [])) as Hro.
    { unfold resolve_object. rewrite andb_false_r.
      destruct (blank (qObjectPath req)) eqn:E; [by destruct Hb as [->|]|done]. }
    unfold with_request_paths. req_cbn. rewrite Hr, Hro. done.
  - destruct (compact_object (qObjectPath req, 0, [])) as [[op oc] oi] eqn:Eco.
    pose proof (compact_resolve_object _ _ Hlo Eco Hb) as (Hso & Hz & Hro).
    req_cbn. rewrite H2. split_and!; try done.
    + unfold with_request_paths. req_cbn. rewrite Hr, Hro. done.
    + apply Hz.
    + intros E. by rewrite E in Eo.
Qed.

Lemma fail_if_ok {E} (c : bool) (e : E) u : fail_if c e = Ok u → c = false.
Proof. by destruct c. Qed.

(** A request whose string paths were restored passes the checks it passed
    before, when only paths and object path differ. *)
Section Restored.
Context (s req : USPAgentRequest).
Context (Em : qMethod req = qMethod s) (Emsg : qMessage req = qMessage s).
Context (Et : qTransfer req = qTransfer s) (Emd : qMetadata req = qMetadata s).
Context (Ec : qPathCodes req = qPathCodes s) (Ei : qPathInstances req = qPathInstances s).
Context (Eoc : qObjectCode req = qObjectCode s) (Eoi : qObjectInstances req = qObjectInstances s).
Context (Hcodes : qPathCodes s = [] → qPaths req = qPaths s).
Context (Hobj : qObjectCode s = 0 → qObjectPath req = qObjectPath s).
Context (Hop : qMethod s = USPAgentMethodOperate → qObjectPath req = qObjectPath s).
Context (Hpaths : Forall (fun p => blank p = false) (qPaths req)).
Context (Hpath : qObjectPath req = [] ∨
  (blank (qObjectPath req) = false ∧ isObjectPath (qObjectPath req) = true)).

Lemma restored_message :
  validateUSPAgentRequestMessage req = validateUSPAgentRequestMessage s.
Proof using Em Emsg Hop.
  unfold validateUSPAgentRequestMessage. rewrite Emsg, Em.
  destruct (Z.eqb_spec (qMethod s) USPAgentMethodOperate) as [E|]; [|done]. by rewrite Hop.
Qed.

Lemma restored_no_object :
  blank (qObjectPath s) && (qObjectCode s =? 0) = false →
  blank (qObjectPath req) && (qObjectCode req =? 0) = false.
Proof using Eoc Hobj.
  rewrite Eoc. destruct (Z.eqb_spec (qObjectCode s) 0); [by rewrite Hobj|by rewrite !andb_false_r].
Qed.

Lemma restored_method : validate_method s = Ok () → validate_method req = Ok ().
Proof using Em Emsg Et Emd Ec Hcodes Eoc Hobj Hop.
  unfold validate_method. rewrite Em.
  destruct (_ =? USPAgentMethodSet); [by rewrite Emsg|].
  destruct (_ =? USPAgentMethodAdd).
  { intros Hs%fail_if_ok. by rewrite restored_no_object. }
  destruct (_ =? USPAgentMethodDelete).
  { rewrite Ec. destruct (qPathCodes s); [by rewrite Hcodes|by rewrite !andb_false_r]. }
  destruct (_ || (_ =? USPAgentMethodNotify)).
  - intros (? & Hs%fail_if_ok & Hv)%bind_ok. rewrite restored_no_object by done.
    cbn [fail_if mbind res_bind].
    destruct (Z.eqb_spec (qMethod s) USPAgentMethodOperate) as [E|]; [|done].
    by rewrite Hop, Emd.
  - destruct (_ || _); [by rewrite Et|done].
Qed.

Lemma restored_valid : validateUSPAgentRequest s = Ok () → validateUSPAgentRequest req = Ok ().
Proof using All.
  unfold validateUSPAgentRequest. intros Hv.
  apply bind_ok in Hv as (? & H1%fail_if_ok & Hv). apply bind_ok in Hv as (? & _ & Hv).
  apply bind_ok in Hv as (? & H3%fail_if_ok & Hv). apply bind_ok in Hv as (? & H4%fail_if_ok & Hv).
  apply bind_ok in Hv as (? & _ & Hv). apply bind_ok in Hv as (? & H6%fail_if_ok & Hv).
  apply bind_ok in Hv as (? & H7%fail_if_ok & Hv). apply bind_ok in Hv as ([] & H8 & Hv).
  apply bind_ok in Hv as ([] & H9 & H10).
  rewrite Em, H1, Ec, H3, Ei, H4, Eoc, Eoi, H6, restored_message, H8, Et, H9.
  assert (existsb blank (qPaths req) = false) as ->.
  { clear -Hpaths. revert Hpaths. generalize (qPaths req).
    induction 1 as [|p ps Hp _ IH]; simpl; [done|]. by rewrite Hp, IH. }
  assert (negb (blank (qObjectPath req)) && negb (isObjectPath (qObjectPath req)) = false) as ->.
  { destruct Hpath as [->|[_ ->]]; [done|apply andb_false_r]. }
  assert ((qObjectCode s =? 0) && (length (qPathCodes s) =? 0)%nat && (length (qPaths req) =? 0)%nat
    && ((qMethod s =? USPAgentMethodDelete) || (qMethod s =? USPAgentMethodGetInstances)) = false) as ->.
  { destruct (decide (qPathCodes s = [])) as [E|E]; [by rewrite Hcodes|].
    destruct (qPathCodes s); [done|]. by rewrite !andb_false_r. }
  cbn [fail_if mbind res_bind]. by apply restored_method.
Qed.
End Restored.

Lemma request_roundtrip_aux req e k :
  plain_request req → Forall path_law (qObjectPath req :: qPaths req) →
  EncodeUSPAgentRequest req = Ok e → frame_fits (length e + k) →
  DecodeUSPAgentRequest (e ++ replicate k (z2b 0)) = Ok (received_request req).
Proof.
  intros Hpl Hlaw He Hf. unfold EncodeUSPAgentRequest in He.
  change (with_message (compactRequestSelectors req) _) with (sent_request req) in He.
  apply bind_ok in He as ([] & Hv & He). apply bind_ok in He as (nested & Hn & [= <-]).
  pose proof (sent_received req Hpl Hlaw) as (Hok & Hres & Hc & Ho & Hop).
  pose proof Hpl as (_ & _ & _ & _ & _ & _ & Hpaths & Hpath & Hmsg).
  assert (validateUSPAgentRequest (received_request req) = Ok ()) as Hv'.
  { apply (restored_valid (sent_request req)); try done; intros E; symmetry; auto. }
  rewrite Decode_write_request; [|done| | |by rewrite length_app, length_replicate].
  - by rewrite Hres, Hv'.
  - intros msg Em. unfold nested_frame in Hn. rewrite Em in Hn.
    apply bind_ok in Hn as (frame & Hfr & [= <-]). exists frame. split; [done|].
    unfold sent_request in Em. simpl in Em. destruct (qMessage req) as [m|] eqn:Eq; [|done].
    injection Em as <-. destruct (nested_decodes _ frame (Hmsg m eq_refl) Hfr) as [Hl Hd].
    split; [done|]. unfold decodeUSPAgentRequestMessage, DecodeMessageLenient, DecodeMessage.
    rewrite Hd. destruct (_ =? USPAgentMethodOperate) eqn:Eo; [done|]. cbn [mbind res_bind].
    unfold validateUSPAgentRequest in Hv. do 7 apply bind_ok in Hv as (? & _ & Hv).
    apply bind_ok in Hv as ([] & Hvm & _). unfold validateUSPAgentRequestMessage in Hvm.
    unfold sent_request in Hvm at 1. simpl in Hvm. rewrite Eq in Hvm. simpl in Hvm.
    change (qMethod (sent_request req)) with (qMethod req) in *.
    rewrite Eo in Hvm. by rewrite Hvm.
  - intros Em. unfold nested_frame in Hn. rewrite Em in Hn. by injection Hn as <-.
Qed.
End RoundTrip.

(** *** Responses *)

(** What the wire keeps of an encoded response. *)
Definition wire_response (r : USPAgentResponse) : USPAgentResponse :=
  with_response_paths r
    (pPaths r, pPathCodes r, (selector_items (pPathCodes r) (pPathInstances r)).*2)
    (if blank (pObjectPath r) then [] else pObjectPath r, pObjectCode r, pObjectInstances r).

Definition response_ok (r : USPAgentResponse) : Prop :=
  u64_ok (pID r) ∧ byte_ok (pMethod r) ∧
  selectors_ok (pPathCodes r) (pPathInstances r) (pObjectCode r) (pObjectInstances r) ∧
  (∀ t, pTransfer r = Some t → 0 ≤ rsBytes t < 2 ^ 63) ∧
  (∀ m, pSupportedDataModel r = Some m → Forall bm_ok (sdModels m)) ∧
  (∀ i, pProtocol r = Some i → pi_ok i).

Section Responses.
Context `{Schema}.

Lemma reads_response r nested flags :
  flags = response_flags r →
  response_ok r →
  (∀ msg, pMessage r = Some msg → ∃ frame, nested = Some frame ∧ (0 < length frame)%nat ∧
     DecodeMessage frame = Ok msg) →
  (pMessage r = None → nested = None) →
  reads (read_response {| hVersion := uspTransportVersion; hKind := uspTransportKindResponse;
                          hMethod := pMethod r; hFlags := flags; hID := pID r |})
    (wire_response r)
    (writeString (pError r)
     ++ when (flag_set flags 2) (writeStringList (pPaths r))
     ++ when (flag_set flags 3) (writeString (pObjectPath r))
     ++ opt_bytes (fun frame => when (0 <? length frame)%nat (writeBytes frame)) nested
     ++ opt_bytes writeTransferResult (pTransfer r)
     ++ when (flag_set flags 4) (writeMetadata (pMetadata r))
     ++ when (flag_set flags 7) (writePathSelectors (pPathCodes r) (pPathInstances r)
                                 ++ writePathSelector (pObjectCode r) (pObjectInstances r))
     ++ opt_bytes writeSupportedDataModel (pSupportedDataModel r)
     ++ opt_bytes writeProtocolInfo (pProtocol r)).
Proof.
  intros Hflags (Hid & Hm & [Hsel Hobj] & Ht & Hsd & Hpi) Hs Hn. unfold read_response.
  cbn [hFlags hMethod hID]. unfold response_flags in Hflags. subst flags. eval_flags.
  eapply reads_bind; [apply reads_string|].
  eapply reads_bind.
  { apply reads_when; [intros _; apply reads_string_list|].
    by destruct (pPaths r). }
  eapply reads_bind.
  { apply (reads_when _ rString [] (if blank (pObjectPath r) then [] else pObjectPath r));
      destruct (blank (pObjectPath r)); try done. intros _. apply reads_string. }
  eapply reads_bind; [by apply (reads_nested DecodeMessage (pMessage r))|].
  eapply reads_bind.
  { apply (reads_when_opt readTransferResult writeTransferResult (pTransfer r)).
    intros t E. by apply reads_transfer_result, Ht. }
  eapply reads_bind.
  { apply reads_when; [intros _; apply reads_metadata|].
    destruct (Nat.ltb_spec 0 (size (pMetadata r))); [done|]. intros _.
    apply map_size_empty_iff. lia. }
  eapply reads_bind.
  { apply (reads_when _ _ _ ((pPathCodes r, (selector_items (pPathCodes r) (pPathInstances r)).*2),
      (pObjectCode r, pObjectInstances r))).
    - intros _. rewrite <- (selector_items_fst (pPathCodes r) (pPathInstances r)) at 1.
      eapply reads_bind; [by apply reads_selectors|].
      eapply reads_last; [by apply reads_selector|done].
    - rewrite !orb_false_iff, negb_false_iff, Z.eqb_eq, !Nat.ltb_ge. intros [[H1 ->] H2].
      by destruct (pPathCodes r), (pObjectInstances r); simpl in *; try lia. }
  eapply reads_bind.
  { apply (reads_when_opt readSupportedDataModel writeSupportedDataModel (pSupportedDataModel r)).
    intros t E. by apply reads_supported, Hsd. }
  eapply reads_last; [|done].
  apply (reads_when_opt readProtocolInfo writeProtocolInfo (pProtocol r)).
  intros t E. by apply reads_protocol, Hpi.
Qed.

Lemma Decode_write_response r nested k :
  response_ok r →
  (∀ msg, pMessage r = Some msg → ∃ frame, nested = Some frame ∧ (0 < length frame)%nat ∧
     DecodeMessage frame = Ok msg) →
  (pMessage r = None → nested = None) →
  frame_fits (length (write_response r nested ++ replicate k (z2b 0))) →
  DecodeUSPAgentResponse (write_response r nested ++ replicate k (z2b 0)) =
    (_ ← validateUSPAgentResponse (resolveFastResponsePaths (wire_response r));
     Ok (resolveFastResponsePaths (wire_response r))).
Proof.
  intros Hok Hs Hn Hf. pose proof Hok as (Hid & Hm & _).
  unfold DecodeUSPAgentResponse, write_response in *. rewrite <- app_assoc in *.
  rewrite readHeader_write.
  2:{ split_and!; try done. apply flag_byte_range. simpl. lia. }
  cbn [mbind res_bind hKind]. rewrite Z.eqb_refl. cbn [negb].
  rewrite (reads_response r nested _ eq_refl) by (try done; by eapply frame_fits_app).
  cbn [mbind res_bind]. rewrite remainingAllZero_zeros, andb_false_r. done.
Qed.

(** A response addressed by string paths; its message passes the schema check
    that only the receiver makes. *)
Definition plain_response (r : USPAgentResponse) : Prop :=
  u64_ok (pID r) ∧ 0 < pMethod r < 256 ∧
  pPathCodes r = [] ∧ pPathInstances r = [] ∧ pObjectCode r = 0 ∧ pObjectInstances r = [] ∧
  Forall (fun p => blank p = false) (pPaths r) ∧
  (pObjectPath r = [] ∨ (blank (pObjectPath r) = false ∧ isObjectPath (pObjectPath r) = true)) ∧
  (∀ m, pMessage r = Some m →
     message_ok (ResetAllFieldIDs m) ∧ ValidateMessageFast (ResetAllFieldIDs m) = Ok ()) ∧
  (∀ t, pTransfer r = Some t → 0 ≤ rsBytes t < 2 ^ 63) ∧
  (∀ m, pSupportedDataModel r = Some m → Forall bm_ok (sdModels m)) ∧
  (∀ i, pProtocol r = Some i → pi_ok i).

Definition sent_response (r : USPAgentResponse) : USPAgentResponse :=
  with_resp_message (compactResponseSelectors r) (ResetAllFieldIDs <$> pMessage r).
Definition received_response (r : USPAgentResponse) : USPAgentResponse :=
  with_response_paths (with_resp_message r (ResetAllFieldIDs <$> pMessage r))
    (pPaths r, pPathCodes (sent_response r), pPathInstances (sent_response r))
    (pObjectPath r, pObjectCode (sent_response r), pObjectInstances (sent_response r)).

Lemma sent_received_response r :
  plain_response r → Forall path_law (pObjectPath r :: pPaths r) →
  response_ok (sent_response r) ∧
  resolveFastResponsePaths (wire_response (sent_response r)) = received_response r ∧
  validateUSPAgentResponse (received_response r) = Ok ().
Proof.
  intros (Hid & Hm & Hc & Hi & Hoc & Hoi & Hp & Ho & _ & Ht & Hsd & Hpi) [Hlo Hlp]%Forall_cons.
  unfold received_response, wire_response, resolveFastResponsePaths, response_ok, sent_response,
    selectors_ok, compactResponseSelectors, response_paths, response_object.
  cbn [pID pMethod pPaths pPathCodes pPathInstances pObjectPath pObjectCode pObjectInstances
    pMessage pTransfer pMetadata pSupportedDataModel pProtocol pError with_resp_message
    with_response_paths fst snd].
  rewrite Hc, Hi, Hoc, Hoi.
  destruct (compact_paths (pPaths r, [], [])) as [[ps cs] is'] eqn:Ec.
  pose proof (compact_resolve_paths _ _ Hlp Ec) as (Hs & Hnz & Hlen & Hps & H2 & Hr).
  assert (pObjectPath r = [] ∨ blank (pObjectPath r) = false) as Hb by tauto.
  destruct (compact_object (pObjectPath r, 0, [])) as [[op oc] oi] eqn:Eco.
  pose proof (compact_resolve_object _ _ Hlo Eco Hb) as (Hso & Hz & Hro).
  assert ((if oc =? 0 then [] else oi) = oi) as Eoi
    by (destruct (Z.eqb_spec oc 0); [by destruct Hz as [-> _]|done]).
  rewrite Eoi in Hro. cbn [fst snd]. rewrite H2, Hr, Hro.
  split_and!; try done; [unfold byte_ok; lia|]. unfold validateUSPAgentResponse. cbn [pMethod pPaths pPathCodes pPathInstances pObjectPath
    pObjectCode pObjectInstances with_response_paths with_resp_message fst snd].
  rewrite (proj2 (Z.eqb_neq (pMethod r) 0)) by lia. rewrite Hnz, Hlen, Nat.eqb_refl, andb_false_r.
  assert (existsb blank (pPaths r) = false) as ->.
  { clear -Hp. revert Hp. generalize (pPaths r).
    induction 1 as [|p ps Hp _ IH]; simpl; [done|]. by rewrite Hp, IH. }
  assert (negb (blank (pObjectPath r)) && negb (isObjectPath (pObjectPath r)) = false) as ->.
  { destruct Ho as [->|[_ ->]]; [done|apply andb_false_r]. }
  cbn [fail_if mbind res_bind].
  destruct (Z.eqb_spec oc 0); [by destruct Hz as [-> _]|done].
Qed.

Lemma response_roundtrip_aux r e k :
  plain_response r → Forall path_law (pObjectPath r :: pPaths r) →
  EncodeUSPAgentResponse r = Ok e → frame_fits (length e + k) →
  DecodeUSPAgentResponse (e ++ replicate k (z2b 0)) = Ok (received_response r).
Proof.
  intros Hpl Hlaw He Hf. unfold EncodeUSPAgentResponse in He.
  apply bind_ok in He as ([] & _ & He).
  change (with_resp_message (compactResponseSelectors r) _) with (sent_response r) in He.
  apply bind_ok in He as (nested & Hn & [= <-]).
  pose proof (sent_received_response r Hpl Hlaw) as (Hok & Hres & Hv).
  pose proof Hpl as (_ & _ & _ & _ & _ & _ & _ & _ & Hmsg & _).
  rewrite Decode_write_response; [|done| | |by rewrite length_app, length_replicate].
  - by rewrite Hres, Hv.
  - intros msg Em. unfold nested_frame in Hn. rewrite Em in Hn.
    apply bind_ok in Hn as (frame & Hfr & [= <-]). exists frame. split; [done|].
    unfold sent_response in Em. simpl in Em. destruct (pMessage r) as [m|] eqn:Eq; [|done].
    injection Em as <-. destruct (Hmsg m eq_refl) as [Hmok Hmv].
    destruct (nested_decodes _ frame Hmok Hfr) as [Hl Hd].
    split; [done|]. unfold DecodeMessage. rewrite Hd. cbn [mbind res_bind]. by rewrite Hmv.
  - intros Em. unfold nested_frame in Hn. rewrite Em in Hn. by injection Hn as <-.
Qed.
End Responses.

(** ** Size estimates are exact *)

Lemma put_uvarint_S k x : put_uvarint_loop (S k) x =
  if 0x80 <=? x then z2b (Z.lor (b2z (z2b x)) 0x80) :: put_uvarint_loop k (Z.shiftr x 7)
  else [z2b x].
Proof. done. Qed.

Lemma est_loop k : ∀ v, 0 ≤ v < 2 ^ (7 * Z.of_nat (S k)) →
  uvarint_size_loop k v = lenZ (put_uvarint_loop (S k) v).
Proof.
  induction k as [|k IH]; intros v Hv; rewrite put_uvarint_S.
  - change (2 ^ (7 * Z.of_nat 1)) with 128 in Hv.
    by rewrite (proj2 (Z.leb_gt 0x80 v)) by lia.
  - cbn [uvarint_size_loop]. destruct (Z.leb_spec 0x80 v); [|done].
    rewrite IH; [unfold lenZ; rewrite length_cons; lia|].
    rewrite Z.shiftr_div_pow2 by lia. split; [apply Z.div_pos; lia|].
    apply Z.div_lt_upper_bound; [lia|]. rewrite <- Z.pow_add_r by lia.
    replace (7 + 7 * Z.of_nat (S k)) with (7 * Z.of_nat (S (S k))) by lia. lia.
Qed.
Lemma est_uvarint v : u64_ok v → estimateUvarintSize v = lenZ (writeUvarint v).
Proof.
  intros Hv. apply (est_loop 9). unfold u64_ok in Hv.
  assert (2 ^ 64 ≤ 2 ^ (7 * Z.of_nat (S 9))) by (vm_compute; congruence). lia.
Qed.
Lemma lenZ_app {A} (a b : list A) : lenZ (a ++ b) = lenZ a + lenZ b.
Proof. unfold lenZ. rewrite length_app. lia. Qed.

(** Lengths of what fits in memory. *)
Definition len_ok {A} (l : list A) : Prop := lenZ l < 2 ^ 63.
Lemma est_string s : len_ok s → estimateStringSize s = lenZ (writeString s).
Proof.
  intros Hs. unfold estimateStringSize, writeString. rewrite lenZ_app.
  rewrite est_uvarint; [done|]. unfold u64_ok, len_ok, lenZ in *. lia.
Qed.
Lemma est_blob s : len_ok s → estimateBlobSize s = lenZ (writeBytes s).
Proof. apply est_string. Qed.
Lemma est_list {A} (est : A → Z) (enc : A → bytes) (l : list A) :
  Forall (fun x => est x = lenZ (enc x)) l → sumZ (est <$> l) = lenZ (concat (enc <$> l)).
Proof.
  induction 1 as [|x l Hx _ IH]; [done|]. rewrite !fmap_cons. cbn [sumZ foldr concat].
  rewrite lenZ_app, <- IH, Hx. done.
Qed.
Lemma est_count {A} (est : A → Z) (enc : A → bytes) (l : list A) :
  len_ok l → Forall (fun x => est x = lenZ (enc x)) l →
  estimateUvarintSize (lenZ l) + sumZ (est <$> l)
    = lenZ (writeUvarint (Z.of_nat (length l)) ++ concat (enc <$> l)).
Proof.
  intros Hl Hx. rewrite lenZ_app, (est_list est enc) by done.
  rewrite est_uvarint; [done|]. unfold u64_ok, len_ok, lenZ in *. lia.
Qed.
Lemma est_string_list l : len_ok l → Forall len_ok l →
  estimateStringListSize l = lenZ (writeStringList l).
Proof.
  intros Hl Hs. apply est_count; [done|]. eapply Forall_impl; [exact Hs|]. apply est_string.
Qed.
Lemma est_uint64_list l : len_ok l → Forall u64_ok l →
  estimateUint64ListSize l = lenZ (writeUint64List l).
Proof.
  intros Hl Hs. apply est_count; [done|]. eapply Forall_impl; [exact Hs|]. apply est_uvarint.
Qed.

Lemma sumZ_perm l l' : l ≡ₚ l' → sumZ l = sumZ l'.
Proof. unfold sumZ. induction 1; simpl; lia. Qed.

Definition md_ok (m : metadata) : Prop :=
  Z.of_nat (size m) < 2 ^ 63 ∧ map_Forall (fun k v => len_ok k ∧ len_ok v) m.
Lemma est_metadata m : md_ok m → estimateMetadataSize m = lenZ (writeMetadata m).
Proof.
  intros [Hs Hm]. unfold estimateMetadataSize, writeMetadata.
  destruct (Nat.eqb_spec (size m) 0) as [E|E].
  { rewrite E. apply map_size_empty_iff in E. subst m. by rewrite map_to_list_empty. }
  rewrite length_sorted_keys, lenZ_app, est_uvarint by (unfold u64_ok; lia). f_equal.
  rewrite <- (est_list (fun k => estimateStringSize k + estimateStringSize (md_get m k))).
  - transitivity (sumZ ((fun k => estimateStringSize k + estimateStringSize (md_get m k))
      <$> (map_to_list m).*1)).
    + rewrite <- list_fmap_compose. f_equal. apply list_fmap_ext. intros i [k v] Hkv. simpl.
      apply list_elem_of_lookup_2, elem_of_map_to_list in Hkv. unfold md_get. by rewrite Hkv.
    + apply sumZ_perm. apply fmap_Permutation. unfold sorted_keys. by rewrite SortStrings_perm.
  - apply Forall_forall. intros k [v Hv]%elem_of_sorted_keys. unfold write_pair. simpl.
    destruct (Hm k v Hv) as [Hk Hv']. rewrite lenZ_app, !est_string; [done| |done].
    unfold md_get. by rewrite Hv.
Qed.

Definition transfer_len_ok (t : USPTransferRequest) : Prop :=
  len_ok (trPath t) ∧ len_ok (trURI t) ∧ len_ok (trFilename t) ∧ len_ok (trContentType t) ∧
  len_ok (trPayload t) ∧ md_ok (trMetadata t).
Lemma est_transfer t : transfer_len_ok t →
  estimateTransferRequestSize t = lenZ (writeTransferRequest t).
Proof.
  intros (? & ? & ? & ? & ? & ?). unfold estimateTransferRequestSize, writeTransferRequest.
  rewrite est_metadata, est_blob, !est_string by done. rewrite !lenZ_app. unfold writeBytes, writeString. lia.
Qed.

Lemma est_selector c l : u64_ok c → len_ok l → Forall u64_ok l →
  estimateUvarintSize c + estimateUint64ListSize l = lenZ (writePathSelector c l).
Proof.
  intros. unfold writePathSelector. rewrite lenZ_app, est_uvarint, est_uint64_list by done. done.
Qed.
Definition selector_len_ok (s : Z * list Z) : Prop := selector_ok s ∧ len_ok s.2.

Lemma est_selectors_sum codes : ∀ instances,
  Forall selector_len_ok (selector_items codes instances) →
  sumZ (imap (fun i code => estimateUvarintSize code
          + match instances !! i with
            | Some inst => estimateUint64ListSize inst
            | None => estimateUvarintSize 0
            end) codes)
  = lenZ (concat (uncurry writePathSelector <$> selector_items codes instances)).
Proof.
  induction codes as [|c codes IH]; intros instances Hok; [done|].
  cbn [selector_items] in *. apply Forall_cons in Hok as [[[Hc Hi] Hl] Hok].
  rewrite fmap_cons. cbn [imap sumZ foldr concat uncurry]. rewrite lenZ_app, <- IH by done.
  f_equal.
  - rewrite <- est_selector by done. destruct instances as [|i0 instances]; done.
  - f_equal. apply imap_ext. intros i code Hcode. simpl.
    by destruct instances.
Qed.

Definition request_len_ok (req : USPAgentRequest) : Prop :=
  byte_ok (qMethod req) ∧ len_ok (qPaths req) ∧ Forall len_ok (qPaths req) ∧
  len_ok (qObjectPath req) ∧ len_ok (qPathCodes req) ∧
  Forall selector_len_ok (selector_items (qPathCodes req) (qPathInstances req)) ∧
  selector_len_ok (qObjectCode req, qObjectInstances req) ∧
  (∀ t, qTransfer req = Some t → transfer_len_ok t) ∧ md_ok (qMetadata req).

Lemma blank_nil : blank [] = true.
Proof. done. Qed.

Lemma lenZ_writeHeader h : lenZ (writeHeader h) = 12.
Proof. unfold lenZ, writeHeader. by rewrite length_app, length_le_put. Qed.

Lemma est_selectors codes instances :
  len_ok codes → Forall selector_len_ok (selector_items codes instances) → codes ≠ [] →
  estimatePathSelectorsSize codes instances = lenZ (writePathSelectors codes instances).
Proof.
  intros Hl Hok Hne. unfold estimatePathSelectorsSize, writePathSelectors.
  rewrite (proj2 (Nat.eqb_neq _ 0)) by (by destruct codes).
  rewrite est_selectors_sum, (lenZ_app (writeUvarint _)), est_uvarint by
    (done || (unfold u64_ok, len_ok, lenZ in *; lia)). done.
Qed.

Lemma sumZ_nonneg l : Forall (fun z => 0 ≤ z) l → 0 ≤ sumZ l.
Proof. unfold sumZ. induction 1; simpl; lia. Qed.

(** The buffer is created large enough: encoding a request never reallocates. *)
Lemma request_estimate_aux req nested :
  request_len_ok req → (∀ frame, nested = Some frame → len_ok frame) →
  lenZ (write_request req nested) ≤ estimateUSPAgentRequestSize req nested.
Proof.
  intros (Hm & Hp & Hps & Ho & Hc & Hsel & [[Hoc Hoi] Hol] & Ht & Hmd) Hn.
  unfold write_request, estimateUSPAgentRequestSize. cbn zeta. unfold request_flags. eval_flags.
  rewrite (lenZ_app (writeHeader _)), lenZ_writeHeader, (lenZ_app (writeStringList _)).
  rewrite (lenZ_app (when _ (writeString _))), (lenZ_app (when _ (writePathSelectors _ _))).
  rewrite (lenZ_app (when _ (writePathSelector _ _))), (lenZ_app (opt_bytes _ nested)).
  rewrite (lenZ_app (opt_bytes _ (qTransfer req))), est_string_list by done.
  assert (lenZ (when (negb (blank (qObjectPath req))) (writeString (qObjectPath req)))
    ≤ if (length (qObjectPath req) =? 0)%nat then 0 else estimateStringSize (qObjectPath req)) as A1.
  { rewrite est_string by done. destruct (Nat.eqb_spec (length (qObjectPath req)) 0) as [E|E].
    - apply nil_length_inv in E. by rewrite E.
    - destruct (negb _); simpl; unfold lenZ; simpl; lia. }
  assert (lenZ (when (0 <? length (qPathCodes req))%nat
      (writePathSelectors (qPathCodes req) (qPathInstances req)))
    ≤ if (0 <? length (qPathCodes req))%nat
      then estimatePathSelectorsSize (qPathCodes req) (qPathInstances req) else 0) as A2.
  { destruct (Nat.ltb_spec 0 (length (qPathCodes req))); [|done]. simpl.
    rewrite est_selectors; [lia|done|done|]. intros E. rewrite E in *. simpl in *. lia. }
  assert (lenZ (when (negb (qObjectCode req =? 0))
      (writePathSelector (qObjectCode req) (qObjectInstances req)))
    ≤ if qObjectCode req =? 0 then 0
      else estimatePathSelectorSize (qObjectCode req) (qObjectInstances req)) as A3.
  { unfold estimatePathSelectorSize. destruct (qObjectCode req =? 0); [done|]. simpl.
    rewrite est_selector by done. lia. }
  assert (lenZ (opt_bytes (fun frame => when (0 <? length frame)%nat (writeBytes frame)) nested)
    ≤ match nested with
      | Some frame => if (0 <? length frame)%nat then estimateBlobSize frame else 0
      | None => 0
      end) as A4.
  { destruct nested as [frame|]; [|done]. cbn [opt_bytes].
    destruct (0 <? length frame)%nat; cbn [when]; [rewrite est_blob by auto; lia|done]. }
  assert (lenZ (opt_bytes writeTransferRequest (qTransfer req))
    = match qTransfer req with Some t => estimateTransferRequestSize t | None => 0 end) as A5.
  { destruct (qTransfer req) as [t|] eqn:Et; [|done]. simpl. symmetry. by apply est_transfer, Ht. }
  assert (lenZ (when (0 <? size (qMetadata req))%nat (writeMetadata (qMetadata req)))
    ≤ estimateMetadataSize (qMetadata req)) as A6.
  { rewrite est_metadata by done. destruct (0 <? size (qMetadata req))%nat; cbn [when]; [lia|].
    unfold lenZ. cbn [length]. lia. }
  lia.
Qed.

(** ** Command paths *)

Lemma LastIndexByte_spec s c : let i := LastIndexByte s c in
  -1 ≤ i < Z.of_nat (length s) ∧ c ∉ drop (Z.to_nat (i + 1)) s.
Proof.
  induction s as [|d s IH]; simpl; [split; [lia|set_solver]|].
  destruct IH as [Hr Hn]. destruct (Z.leb_spec 0 (LastIndexByte s c)).
  - split; [lia|]. replace (Z.to_nat (LastIndexByte s c + 1 + 1))
      with (S (Z.to_nat (LastIndexByte s c + 1))) by lia. done.
  - assert (LastIndexByte s c = -1) as E by lia. rewrite E in Hn. simpl in Hn.
    rewrite drop_0 in Hn. case_decide; simpl; [split; [lia|]|split; [lia|]].
    + by rewrite drop_0.
    + rewrite not_elem_of_cons. split; [congruence|done].
Qed.

Lemma HasSuffix_TrimSuffix s p : HasSuffix s p = true → s = TrimSuffix s p ++ p.
Proof.
  intros Hs. unfold TrimSuffix. rewrite Hs. unfold HasSuffix in Hs.
  apply andb_true_iff in Hs as [_ Hs]. apply bool_decide_eq_true in Hs.
  rewrite <- (take_drop (length s - length p) s) at 1. by rewrite Hs.
Qed.

Definition dot : byte := z2b 46.

Lemma OperationTarget_spec path obj cmd : OperationTarget path = Ok (obj, cmd) →
  (cmd = [] ∧ obj = TrimSpace path) ∨
  ∃ name, name ≠ [] ∧ dot ∉ name ∧ cmd = TrimSpace path ∧ cmd = obj ++ name ++ bs "()".
Proof.
  unfold OperationTarget. set (p := TrimSpace path).
  destruct (length p =? 0)%nat; [done|]. destruct (HasSuffix p (bs ".")).
  { intros [= <- <-]. by left. }
  destruct (HasSuffix p (bs "()")) eqn:Hs; [|done]. cbn [negb].
  apply HasSuffix_TrimSuffix in Hs. set (cn := TrimSuffix p (bs "()")) in *.
  pose proof (LastIndexByte_spec cn (z2b 46)) as [Hr Hn].
  destruct (Z.leb_spec (LastIndexByte cn (z2b 46)) 0); [done|].
  destruct (Z.eqb_spec (LastIndexByte cn (z2b 46)) (Z.of_nat (length cn) - 1)); [done|].
  cbn [orb]. intros [= <- <-]. right.
  exists (drop (Z.to_nat (LastIndexByte cn (z2b 46) + 1)) cn). split_and!; [|done|done|].
  - intros Hd%(f_equal length). rewrite length_drop in Hd. simpl in Hd. lia.
  - rewrite app_assoc, take_drop. exact Hs.
Qed.

(** ** Claims *)

Section Claims.
Context `{Schema}.

(** C24: Request round trip.  A request addressed by string paths that the
    encoder accepts is decoded, also with zero padding behind it, to the same
    request: same ID, method, paths, object path, transfer and metadata, and
    the same message with its registry field IDs cleared; the path selectors
    that replaced schema paths on the wire are resolved back. *)
Theorem request_roundtrip req e k :
  plain_request req → Forall path_law (qObjectPath req :: qPaths req) →
  EncodeUSPAgentRequest req = Ok e → frame_fits (length e + k) →
  ∃ req', DecodeUSPAgentRequest (e ++ replicate k (z2b 0)) = Ok req' ∧
    qID req' = qID req ∧ qMethod req' = qMethod req ∧ qPaths req' = qPaths req ∧
    qObjectPath req' = qObjectPath req ∧ qMessage req' = ResetAllFieldIDs <$> qMessage req ∧
    qTransfer req' = qTransfer req ∧ qMetadata req' = qMetadata req.
Proof.
  intros. exists (received_request req). split; [by apply request_roundtrip_aux|done].
Qed.

(** Response round trip, under the same conditions and provided the
    message also passes the schema validation that only the decoder runs. *)
Theorem response_roundtrip resp e k :
  plain_response resp → Forall path_law (pObjectPath resp :: pPaths resp) →
  EncodeUSPAgentResponse resp = Ok e → frame_fits (length e + k) →
  ∃ resp', DecodeUSPAgentResponse (e ++ replicate k (z2b 0)) = Ok resp' ∧
    pID resp' = pID resp ∧ pMethod resp' = pMethod resp ∧ pPaths resp' = pPaths resp ∧
    pObjectPath resp' = pObjectPath resp ∧ pMessage resp' = ResetAllFieldIDs <$> pMessage resp ∧
    pTransfer resp' = pTransfer resp ∧ pMetadata resp' = pMetadata resp ∧
    pSupportedDataModel resp' = pSupportedDataModel resp ∧ pProtocol resp' = pProtocol resp ∧
    pError resp' = pError resp.
Proof.
  intros. exists (received_response resp). split; [by apply response_roundtrip_aux|done].
Qed.

(** A request datagram can crash the decoder: whatever the schema, a valid
    request header followed by a path count above 2^44 makes [readStringList]
    size an allocation beyond the runtime's limit, which panics, before any
    path is read. *)
Theorem request_count_panics h count rest :
  header_ok h → hKind h = uspTransportKindRequest → 2 ^ 44 < count < 2 ^ 64 →
  DecodeUSPAgentRequest (writeHeader h ++ writeUvarint count ++ rest) = Panic.
Proof.
  intros Hh Hk Hc. unfold DecodeUSPAgentRequest. rewrite readHeader_write by done.
  cbn [mbind res_bind]. rewrite Hk, Z.eqb_refl. cbn [negb].
  unfold read_request, readStringList, rCounted, mbind, rd_bind.
  unfold rUvarint, writeUvarint. rewrite Uvarint_put by lia.
  pose proof (length_PutUvarint count). rewrite (proj2 (Z.leb_gt _ 0)) by lia.
  unfold rd_make, go_make, make_ok, sizeof_string, maxAlloc.
  rewrite (proj2 (Z.leb_gt _ (2 ^ 48))) by lia. by rewrite andb_false_r.
Qed.

(** The command an Operate request executes belongs to the object it
    addresses: it is the object path itself, or that path followed by a
    non-empty, dot-free name and "()", or empty when the metadata repeats the
    object path; a command of another object or instance is refused. *)
Theorem operation_command_confined objectPath m cmd :
  OperationCommandPath objectPath m = Ok cmd →
  cmd = TrimSpace objectPath ∨
  (cmd = [] ∧ TrimSpace (TrimSpace (md_get m MetadataKeyOperationCommandPath)) = TrimSpace objectPath) ∨
  ∃ name, name ≠ [] ∧ dot ∉ name ∧ cmd = TrimSpace objectPath ++ name ++ bs "()".
Proof.
  unfold OperationCommandPath. destruct (length _ =? 0)%nat; [intros [= <-]; by left|].
  intros ([obj cmd'] & Ht & Hr)%bind_ok. right.
  destruct (bool_decide (obj = TrimSpace objectPath)) eqn:E; [|done].
  apply bool_decide_eq_true in E. injection Hr as <-.
  apply OperationTarget_spec in Ht as [[-> Ho]|(name & Hn & Hd & _ & Hc)].
  - left. split; [done|]. congruence.
  - right. exists name. by subst.
Qed.

(** The capacity estimate of the request encoder is never too small, so the
    transport buffer is allocated once. *)
Theorem request_estimate_sufficient req nested :
  request_len_ok req → (∀ frame, nested = Some frame → len_ok frame) →
  lenZ (write_request req nested) ≤ estimateUSPAgentRequestSize req nested.
Proof. apply request_estimate_aux. Qed.
End Claims.

(** ** Witnesses *)

Definition demo_path : bytes := bs "Device.WUSP.".
#[local] Instance demo_schema : Schema :=
  {| schema_registry := buildRegistry [bs "Device.WUSP.Enable"];
     SelectorForPath p := if bool_decide (p = demo_path) then Some (77, []) else None;
     PathForSelector c inst := if c =? 77 then Some demo_path else None;
     lookupSafeParam p := bool_decide (p = bs "Device.WUSP.Enable");
     ValidateFieldFast f := if bool_decide (Path f = bs "Device.WUSP.Enable") then Ok ()
                            else Err (ErrValidation "unknown parameter path");
     ValueToString _ := [] |}.

Definition demo_message : Message :=
  MkMessage (bs "dev-1") None [MkField 1 (bs "Device.WUSP.Enable") (VBool true)].
Definition demo_request : USPAgentRequest :=
  {| qID := 9; qMethod := USPAgentMethodSet; qPaths := [bs "Device.Hosts."]; qPathCodes := [];
     qPathInstances := []; qObjectPath := demo_path; qObjectCode := 0; qObjectInstances := [];
     qMessage := Some demo_message; qTransfer := None;
     qMetadata := {[MetadataKeyRequestSequence := bs "4"]} |}.

Lemma demo_message_ok : message_ok (ResetAllFieldIDs demo_message).
Proof.
  split; [by vm_compute|]. intros payload c Hp.
  assert (encodePayload (safe_opts c) (ResetAllFieldIDs demo_message)
    = encodePayload (safe_opts true) (ResetAllFieldIDs demo_message)) as E by (by destruct c).
  rewrite E in Hp. vm_compute in Hp. injection Hp as <-. by vm_compute.
Qed.
Lemma demo_path_law p : path_law p.
Proof.
  intros code inst. simpl. case_bool_decide; [|done]. intros [= <- <-]. subst.
  split; [done|]. split; [|constructor]. unfold u64_ok. simpl. lia.
Qed.
Lemma demo_plain : plain_request demo_request.
Proof.
  split_and!; try done; try (unfold u64_ok, byte_ok; simpl; unfold USPAgentMethodSet; lia).
  - constructor; [by vm_compute|constructor].
  - right. by vm_compute.
  - intros m [= <-]. apply demo_message_ok.
Qed.

Lemma request_roundtrip_witness :
  ∃ e req', EncodeUSPAgentRequest demo_request = Ok e ∧
    DecodeUSPAgentRequest (e ++ replicate 3 (z2b 0)) = Ok req' ∧
    qID req' = 9 ∧ qMethod req' = USPAgentMethodSet ∧ qPaths req' = [bs "Device.Hosts."] ∧
    qObjectPath req' = demo_path ∧ qMessage req' = Some (ResetAllFieldIDs demo_message) ∧
    qTransfer req' = None ∧ qMetadata req' = {[MetadataKeyRequestSequence := bs "4"]}.
Proof.
  destruct (EncodeUSPAgentRequest demo_request) as [e| |] eqn:E;
    [|vm_compute in E; discriminate|vm_compute in E; discriminate].
  exists e.
  destruct (request_roundtrip demo_request e 3) as (req' & Hd & Hrest).
  - apply demo_plain.
  - apply Forall_forall. intros p _. apply demo_path_law.
  - exact E.
  - vm_compute in E. injection E as <-. vm_compute. discriminate.
  - exists req'. split; [done|]. split; [exact Hd|exact Hrest].
Defined.

Definition demo_response : USPAgentResponse :=
  {| pID := 9; pMethod := USPAgentMethodGet; pPaths := []; pPathCodes := [];
     pPathInstances := []; pObjectPath := demo_path; pObjectCode := 0; pObjectInstances := [];
     pMessage := Some demo_message; pTransfer := None; pMetadata := ∅;
     pSupportedDataModel := Some (MkSupportedDataModel (bs "2.16") []
       [MkSupportedObject demo_path true (bs "1.0")] []);
     pProtocol := None; pError := [] |}.
Lemma demo_plain_response : plain_response demo_response.
Proof.
  split_and!; try done; try (unfold u64_ok; simpl; unfold USPAgentMethodGet; lia).
  - right. by vm_compute.
  - intros m [= <-]. split; [apply demo_message_ok|by vm_compute].
  - intros m [= <-]. constructor.
Qed.

Lemma response_roundtrip_witness :
  ∃ e resp', EncodeUSPAgentResponse demo_response = Ok e ∧
    DecodeUSPAgentResponse (e ++ replicate 0 (z2b 0)) = Ok resp' ∧
    pObjectPath resp' = demo_path ∧ pMessage resp' = Some (ResetAllFieldIDs demo_message).
Proof.
  destruct (EncodeUSPAgentResponse demo_response) as [e| |] eqn:E;
    [|vm_compute in E; discriminate|vm_compute in E; discriminate].
  exists e.
  destruct (response_roundtrip demo_response e 0) as (resp' & Hd & _ & _ & _ & Ho & Hm & _).
  - apply demo_plain_response.
  - apply Forall_forall. intros p _. apply demo_path_law.
  - exact E.
  - vm_compute in E. injection E as <-. vm_compute. discriminate.
  - exists resp'. split; [done|]. split; [exact Hd|]. split; [exact Ho|exact Hm].
Defined.

Lemma request_count_panics_witness :
  DecodeUSPAgentRequest
    (writeHeader (MkHeader 1 1 USPAgentMethodGet 0 5) ++ writeUvarint (2 ^ 63 - 1) ++ []) = Panic.
Proof.
  apply (request_count_panics (MkHeader 1 1 USPAgentMethodGet 0 5) (2 ^ 63 - 1) []); [|done|lia].
  split; [done|]. split; [unfold byte_ok; simpl; lia|]. split; [unfold byte_ok; simpl; unfold USPAgentMethodGet; lia|].
  split; [unfold byte_ok; simpl; lia|unfold u64_ok; simpl; lia].
Defined.

Lemma operation_command_confined_witness :
  OperationCommandPath (bs "Device.WiFi.SSID.1.")
    {[MetadataKeyOperationCommandPath := bs "Device.WiFi.SSID.1.Reset()"]}
    = Ok (bs "Device.WiFi.SSID.1.Reset()") ∧
  (bs "Device.WiFi.SSID.1.Reset()" = TrimSpace (bs "Device.WiFi.SSID.1.") ∨
   (bs "Device.WiFi.SSID.1.Reset()" = [] ∧
    TrimSpace (TrimSpace (md_get {[MetadataKeyOperationCommandPath := bs "Device.WiFi.SSID.1.Reset()"]}
      MetadataKeyOperationCommandPath)) = TrimSpace (bs "Device.WiFi.SSID.1.")) ∨
   ∃ name, name ≠ [] ∧ dot ∉ name ∧
     bs "Device.WiFi.SSID.1.Reset()" = TrimSpace (bs "Device.WiFi.SSID.1.") ++ name ++ bs "()").
Proof.
  split; [vm_compute; reflexivity|]. apply operation_command_confined. vm_compute. reflexivity.
Defined.

Lemma request_estimate_sufficient_witness :
  lenZ (write_request demo_request (Some (bs "frame")))
    ≤ estimateUSPAgentRequestSize demo_request (Some (bs "frame")).
Proof.
  apply request_estimate_sufficient.
  - assert (∀ n : nat, (n < 100)%nat → Z.of_nat n < 2 ^ 63) as Hs by (intros; lia).
    unfold request_len_ok, len_ok, lenZ. split_and!; try (simpl; apply Hs; lia).
    + unfold byte_ok. simpl. unfold USPAgentMethodSet. lia.
    + constructor; [simpl; apply Hs; lia|constructor].
    + constructor.
    + split; [split; [unfold u64_ok; simpl; lia|constructor]|unfold len_ok, lenZ; simpl; lia].
    + intros t [=].
    + split; [simpl; apply Hs; vm_compute; lia|].
      apply map_Forall_singleton. unfold len_ok, lenZ. split; simpl; apply Hs; lia.
  - intros frame [= <-]. unfold len_ok, lenZ. simpl. lia.
Defined.
