(* ===== verification/Stream.v ===== *)
(** * Transfer stream frames

    src/internal/wusp/usp_stream.go: the frames of a chunked upload or download,
    with optional LZ4 of the chunk. *)

From S2P Require Import Prelude GoStr Wire Lz4 Codec ReadReplay Transport Request.

Definition uspTransferStreamVersion : Z := 1.
Definition uspTransferStreamMagic : Z := 0x53.
Definition USPTransferStreamOpen : Z := 1.
Definition USPTransferStreamChunk : Z := 2.
Definition USPTransferStreamAck : Z := 3.
Definition USPTransferStreamComplete : Z := 4.
Definition USPTransferStreamAbort : Z := 5.

Record USPTransferStreamFrame : Type := MkStreamFrame
  { sfSessionID : Z; sfRequestID : Z; sfMethod : Z; sfPhase : Z; sfSequence : Z;
    sfAckSequence : Z; sfOffset : Z; sfTotalSize : Z; sfPath : bytes; sfFilename : bytes;
    sfContentType : bytes; sfMetadata : metadata; sfData : bytes; sfFinal : bool }.

Definition validateUSPTransferStreamFrame (f : USPTransferStreamFrame) : res werr () :=
  _ ← fail_if (negb ((sfMethod f =? USPAgentMethodUpload) || (sfMethod f =? USPAgentMethodDownload)))
        (ErrTransportUnsupported "stream method");
  _ ← fail_if (negb ((sfPhase f =? USPTransferStreamOpen) || (sfPhase f =? USPTransferStreamChunk)
                     || (sfPhase f =? USPTransferStreamAck) || (sfPhase f =? USPTransferStreamComplete)
                     || (sfPhase f =? USPTransferStreamAbort)))
        (ErrTransportUnsupported "stream phase");
  fail_if ((sfPhase f =? USPTransferStreamChunk) && (length (sfData f) =? 0)%nat)
    (ErrValidation "stream chunk frame missing payload").

(** ** Whether a chunk is worth compressing *)

(** [seen[b>>6] |= 1 << (b & 63)] on the four-word bit set. *)
Definition mark_seen (seen : list Z) (b : byte) : list Z :=
  alter (fun w => Z.lor w (u64 (Z.shiftl 1 (Z.land (b2z b) 63)))) (Z.to_nat (Z.shiftr (b2z b) 6)) seen.
Fixpoint sample_loop (first : bool) (last : byte) (seen : list Z) (repeats : Z) (data : bytes)
    : list Z * Z :=
  match data with
  | [] => (seen, repeats)
  | b :: data =>
      sample_loop false b (mark_seen seen b)
        (if negb first && bool_decide (b = last) then repeats + 1 else repeats) data
  end.
Definition OnesCount64 (w : Z) : Z := sumZ ((fun k => Z.b2z (Z.testbit w k)) <$> seqZ 0 64).

Definition likelyCompressibleUSPTransferChunk (data : bytes) : bool :=
  let sampleSize := Z.min (lenZ data) 256 in
  if sampleSize <? 64 then false
  else
    let sample := take (Z.to_nat sampleSize) data in
    let '(seen, repeats) := sample_loop true (default (z2b 0) (head data)) [0; 0; 0; 0] 0 sample in
    if sampleSize / 16 <=? repeats then true
    else sumZ (OnesCount64 <$> seen) <=? sampleSize / 2.

Definition compressUSPTransferChunk (data : bytes) : res werr (option bytes) :=
  if (lenZ data <? 256) || negb (likelyCompressibleUSPTransferChunk data) then Ok None
  else
    c ← lz4_compress data;
    let compressed := default [] c in
    if (length compressed =? 0)%nat || (length data <=? length compressed)%nat then Ok None
    else Ok (Some compressed).
Definition decompressUSPTransferChunk (data : bytes) (rawSize : Z) : res werr bytes :=
  lz4_decompress data rawSize.

(** ** The frame codec *)

Definition stream_flags (f : USPTransferStreamFrame) (compressed : bool) (payload : bytes) : Z :=
  flag_byte 0 [sfFinal f; negb (blank (sfPath f)); negb (blank (sfFilename f));
               negb (blank (sfContentType f)); (0 <? size (sfMetadata f))%nat; compressed;
               (0 <? length payload)%nat].

Definition write_stream (f : USPTransferStreamFrame) (compressed : bool) (payload : bytes) : bytes :=
  let flags := stream_flags f compressed payload in
  map z2b [uspTransferStreamMagic; uspTransferStreamVersion; sfPhase f; sfMethod f; flags]
  ++ le_put 8 (sfSessionID f) ++ le_put 8 (sfRequestID f) ++ le_put 4 (sfSequence f)
  ++ le_put 4 (sfAckSequence f) ++ le_put 8 (sfOffset f) ++ le_put 8 (sfTotalSize f)
  ++ when (flag_set flags 1) (writeString (sfPath f))
  ++ when (flag_set flags 2) (writeString (sfFilename f))
  ++ when (flag_set flags 3) (writeString (sfContentType f))
  ++ when (flag_set flags 4) (writeMetadata (sfMetadata f))
  ++ when (flag_set flags 6)
       (when (flag_set flags 5) (writeUvarint (lenZ (sfData f))) ++ writeBytes payload).

Definition EncodeUSPTransferStreamFrame (f : USPTransferStreamFrame) : res werr bytes :=
  _ ← validateUSPTransferStreamFrame f;
  c ← compressUSPTransferChunk (sfData f);
  Ok match c with
     | Some payload => write_stream f true payload
     | None => write_stream f false (sfData f)
     end.

(** The variable part. *)
Definition read_stream (flags : Z) : rd (bytes * bytes * bytes * metadata * bytes) :=
  path ← rd_when (flag_set flags 1) rString [];
  filename ← rd_when (flag_set flags 2) rString [];
  ctype ← rd_when (flag_set flags 3) rString [];
  md ← rd_when (flag_set flags 4) readMetadata ∅;
  data ← rd_when (flag_set flags 6)
    (rawSize ← rd_when (flag_set flags 5) (v ← rUvarint; mret (i64 v)) 0;
     data ← rBytes;
     if flag_set flags 5 then rd_lift (decompressUSPTransferChunk data rawSize) else mret data) [];
  mret (path, filename, ctype, md, data).

(** The fixed part after the five leading bytes takes 40 bytes.  With fewer the
    reader's position ends beyond the data: either a field's slice or the first
    slice [data[pos:]] taken afterwards is out of range, which panics. *)
Definition DecodeUSPTransferStreamFrame (data : bytes) : res werr USPTransferStreamFrame :=
  if (length data <? 37)%nat then Err (ErrTransportMalformed "transfer stream payload too short")
  else if negb (le_get (slice 0 1 data) =? uspTransferStreamMagic) then
    Err (ErrTransportUnsupported "transfer stream magic")
  else if negb (le_get (slice 1 2 data) =? uspTransferStreamVersion) then
    Err (ErrTransportUnsupported "transfer stream version")
  else
    let flags := le_get (slice 4 5 data) in
    let body := drop 5 data in
    if (length body <? 40)%nat then Panic
    else
      r ← read_stream flags (drop 40 body);
      let '((path, filename, ctype, md, chunk), rest) := r in
      if negb (length rest =? 0)%nat && negb (remainingAllZero rest) then
        Err (ErrTransportMalformed "trailing transfer stream data")
      else
        let f := {| sfSessionID := le_get (slice 0 8 body); sfRequestID := le_get (slice 8 16 body);
                    sfMethod := le_get (slice 3 4 data); sfPhase := le_get (slice 2 3 data);
                    sfSequence := le_get (slice 16 20 body);
                    sfAckSequence := le_get (slice 20 24 body);
                    sfOffset := le_get (slice 24 32 body); sfTotalSize := le_get (slice 32 40 body);
                    sfPath := path; sfFilename := filename; sfContentType := ctype;
                    sfMetadata := md; sfData := chunk; sfFinal := flag_set flags 0 |} in
        _ ← validateUSPTransferStreamFrame f;
        Ok f.

(** ** Lemmas *)

Lemma compress_spec data c :
  compressUSPTransferChunk data = Ok (Some c) → lenZ data ≤ maxDecodedPayload →
  c ≠ [] ∧ lz4_decompress c (lenZ data) = Ok data.
Proof.
  unfold compressUSPTransferChunk. destruct (_ || _); [done|].
  intros (o & Ho & Hc)%bind_ok Hmax. destruct o as [c'|]; simpl in Hc; [|done].
  destruct (Nat.eqb_spec (length c') 0) as [|E]; [done|]. destruct (_ <=? _)%nat; [done|].
  simpl in Hc. injection Hc as <-. split; [by intros ->|].
  by apply lz4_decompress_compress.
Qed.

Lemma compress_total data : compressUSPTransferChunk data ≠ Panic.
Proof.
  unfold compressUSPTransferChunk. destruct (_ || _); [done|].
  destruct (lz4_compress_spec data) as (o & -> & _). cbn [mbind res_bind].
  destruct (_ || _); done.
Qed.

(** A frame whose fields have their Go widths and whose blank strings are empty
    (a blank but non-empty string is not transmitted). *)
Definition stream_ok (f : USPTransferStreamFrame) : Prop :=
  u64_ok (sfSessionID f) ∧ u64_ok (sfRequestID f) ∧ byte_ok (sfMethod f) ∧ byte_ok (sfPhase f) ∧
  0 ≤ sfSequence f < 2 ^ 32 ∧ 0 ≤ sfAckSequence f < 2 ^ 32 ∧ u64_ok (sfOffset f) ∧
  u64_ok (sfTotalSize f) ∧
  Forall (fun s => blank s = true → s = []) [sfPath f; sfFilename f; sfContentType f] ∧
  lenZ (sfData f) ≤ maxDecodedPayload.

Lemma reads_optional_string s : (blank s = true → s = []) →
  reads (rd_when (negb (blank s)) rString []) s (when (negb (blank s)) (writeString s)).
Proof.
  intros Hs. apply reads_when; [intros _; apply reads_string|]. intros ?%negb_false_iff. auto.
Qed.

Lemma reads_stream f compressed payload :
  stream_ok f →
  (if compressed : bool then payload ≠ [] ∧ lz4_decompress payload (lenZ (sfData f)) = Ok (sfData f)
   else payload = sfData f) →
  let flags := stream_flags f compressed payload in
  reads (read_stream flags) (sfPath f, sfFilename f, sfContentType f, sfMetadata f, sfData f)
    (when (flag_set flags 1) (writeString (sfPath f))
     ++ when (flag_set flags 2) (writeString (sfFilename f))
     ++ when (flag_set flags 3) (writeString (sfContentType f))
     ++ when (flag_set flags 4) (writeMetadata (sfMetadata f))
     ++ when (flag_set flags 6)
          (when (flag_set flags 5) (writeUvarint (lenZ (sfData f))) ++ writeBytes payload)).
Proof.
  intros (_ & _ & _ & _ & _ & _ & _ & _ & Hstr & Hmax) Hp flags.
  rewrite !Forall_cons in Hstr. destruct Hstr as (H1 & H2 & H3 & _).
  unfold read_stream, flags, stream_flags. eval_flags.
  do 3 (eapply reads_bind; [by apply reads_optional_string|]).
  eapply reads_bind.
  { apply reads_when; [intros _; apply reads_metadata|].
    destruct (Nat.ltb_spec 0 (size (sfMetadata f))); [done|]. intros _.
    apply map_size_empty_iff. lia. }
  eapply reads_last; [|done]. apply reads_when.
  - intros _. change maxDecodedPayload with 16777216 in Hmax. destruct compressed.
    + destruct Hp as [Hne Hd]. simpl. eapply reads_bind.
      { eapply reads_last; [apply reads_uvarint; unfold lenZ in *; lia|].
        by rewrite swrap_small by (unfold lenZ in *; lia). }
      eapply reads_last; [apply reads_bytes|]. cbn beta.
      unfold rd_lift, decompressUSPTransferChunk. by rewrite Hd.
    + subst payload. simpl. eapply (reads_bind _ _ _ _ []); [apply reads_ret|].
      eapply reads_last; [apply reads_bytes|done].
  - destruct (Nat.ltb_spec 0 (length payload)); [done|]. intros _.
    assert (payload = []) as -> by (by destruct payload; [|simpl in *; lia]).
    destruct compressed; [by destruct Hp|done].
Qed.

(** The fixed part of a frame read back field by field. *)
Lemma slice_le_put n z rest : slice 0 n (le_put n z ++ rest) = le_put n z.
Proof. apply slice_app_here, length_le_put. Qed.
Lemma slice_skip n z lo hi rest : (n ≤ lo)%nat →
  slice lo hi (le_put n z ++ rest) = slice (lo - n) (hi - n) rest.
Proof. intros. rewrite slice_app_r by (by rewrite length_le_put). by rewrite length_le_put. Qed.

Lemma Decode_write_stream f compressed payload k :
  stream_ok f → validateUSPTransferStreamFrame f = Ok () →
  (if compressed : bool then payload ≠ [] ∧ lz4_decompress payload (lenZ (sfData f)) = Ok (sfData f)
   else payload = sfData f) →
  frame_fits (length (write_stream f compressed payload ++ replicate k (z2b 0))) →
  DecodeUSPTransferStreamFrame (write_stream f compressed payload ++ replicate k (z2b 0)) = Ok f.
Proof.
  intros Hok Hv Hp Hf. pose proof (reads_stream f compressed payload Hok Hp) as Hr.
  destruct Hok as (Hs & Hq & Hm & Hph & Hsq & Hak & Hof & Hto & _).
  unfold write_stream in *. cbn zeta in *. set (flags := stream_flags f compressed payload) in *.
  set (tail_ := when (flag_set flags 1) _ ++ _) in *.
  set (hd := map z2b [uspTransferStreamMagic; _; _; _; flags]) in *.
  set (fixed := le_put 8 (sfSessionID f) ++ le_put 8 (sfRequestID f) ++ le_put 4 (sfSequence f)
    ++ le_put 4 (sfAckSequence f) ++ le_put 8 (sfOffset f) ++ le_put 8 (sfTotalSize f)).
  assert (length fixed = 40%nat) as Hfix by (unfold fixed; by rewrite !length_app, !length_le_put).
  assert ((hd ++ le_put 8 (sfSessionID f) ++ le_put 8 (sfRequestID f) ++ le_put 4 (sfSequence f)
    ++ le_put 4 (sfAckSequence f) ++ le_put 8 (sfOffset f) ++ le_put 8 (sfTotalSize f) ++ tail_)
    ++ replicate k (z2b 0) = hd ++ fixed ++ tail_ ++ replicate k (z2b 0)) as E
    by (unfold fixed; by rewrite <- !app_assoc).
  rewrite E in *. clear E. unfold DecodeUSPTransferStreamFrame.
  assert (length hd = 5%nat) as Hhd by done.
  rewrite (proj2 (Nat.ltb_ge _ 37)) by (rewrite !length_app, Hfix; lia).
  replace (slice 0 1 (hd ++ _)) with [z2b uspTransferStreamMagic] by done.
  replace (slice 1 2 (hd ++ _)) with [z2b uspTransferStreamVersion] by done.
  replace (slice 2 3 (hd ++ _)) with [z2b (sfPhase f)] by done.
  replace (slice 3 4 (hd ++ _)) with [z2b (sfMethod f)] by done.
  replace (slice 4 5 (hd ++ _)) with [z2b flags] by done.
  assert (byte_ok flags) as Hfl by (apply flag_byte_range; simpl; lia).
  rewrite !le_get_one by done. cbn [negb Z.eqb].
  rewrite drop_app_length' by done.
  rewrite (proj2 (Nat.ltb_ge _ 40)) by (rewrite length_app, Hfix; lia).
  rewrite drop_app_length' by done. rewrite Hr by (do 2 apply frame_fits_app in Hf; exact Hf).
  cbn [mbind res_bind]. rewrite remainingAllZero_zeros, andb_false_r.
  unfold fixed. rewrite <- !app_assoc.
  rewrite (slice_skip 8 _ 8 16), (slice_skip 8 _ 16 20), (slice_skip 8 _ 20 24),
    (slice_skip 8 _ 24 32), (slice_skip 8 _ 32 40) by lia. cbn [Nat.sub].
  rewrite (slice_skip 8 _ 8 12), (slice_skip 8 _ 12 16), (slice_skip 8 _ 16 24),
    (slice_skip 8 _ 24 32) by lia. cbn [Nat.sub].
  rewrite (slice_skip 4 _ 4 8), (slice_skip 4 _ 8 16), (slice_skip 4 _ 16 24) by lia. cbn [Nat.sub].
  rewrite (slice_skip 4 _ 4 12), (slice_skip 4 _ 12 20) by lia. cbn [Nat.sub].
  rewrite (slice_skip 8 _ 8 16) by lia. cbn [Nat.sub]. rewrite !slice_le_put.
  rewrite !le_get_put_small by assumption.
  assert (flag_set flags 0 = sfFinal f) as -> by (unfold flags, stream_flags; by eval_flags).
  replace {| sfSessionID := sfSessionID f |} with f by (by destruct f). by rewrite Hv.
Qed.

Lemma stream_roundtrip_aux f e k :
  stream_ok f → EncodeUSPTransferStreamFrame f = Ok e → frame_fits (length e + k) →
  DecodeUSPTransferStreamFrame (e ++ replicate k (z2b 0)) = Ok f.
Proof.
  intros Hok He Hf. pose proof Hok as (_ & _ & _ & _ & _ & _ & _ & _ & _ & Hmax).
  unfold EncodeUSPTransferStreamFrame in He. apply bind_ok in He as ([] & Hv & He).
  apply bind_ok in He as (c & Hc & He). destruct c as [payload|]; injection He as <-.
  - apply Decode_write_stream; [done|done| |by rewrite length_app, length_replicate].
    by apply compress_spec.
  - apply Decode_write_stream; [done|done|done|by rewrite length_app, length_replicate].
Qed.

(** ** Claims *)

(** Stream frame round trip.  Every valid frame is encoded, compressed or
    not, into a datagram that decodes, also with zero padding, to exactly that
    frame. *)
Theorem stream_roundtrip f k :
  stream_ok f → validateUSPTransferStreamFrame f = Ok () →
  ∃ e, EncodeUSPTransferStreamFrame f = Ok e ∧
    (frame_fits (length e + k) → DecodeUSPTransferStreamFrame (e ++ replicate k (z2b 0)) = Ok f).
Proof.
  intros Hok Hv. destruct (EncodeUSPTransferStreamFrame f) as [e|er|] eqn:E.
  - exists e. split; [done|]. by apply stream_roundtrip_aux.
  - unfold EncodeUSPTransferStreamFrame in E. rewrite Hv in E. cbn [mbind res_bind] in E.
    unfold compressUSPTransferChunk in E. destruct (_ || _) in E; [done|].
    destruct (lz4_compress_spec (sfData f)) as (o & Ho & _). rewrite Ho in E.
    cbn [mbind res_bind] in E. by destruct (_ || _) in E.
  - unfold EncodeUSPTransferStreamFrame in E. rewrite Hv in E. cbn [mbind res_bind] in E.
    pose proof (compress_total (sfData f)). by destruct (compressUSPTransferChunk (sfData f)).
Qed.

Definition demo_frame : USPTransferStreamFrame :=
  {| sfSessionID := 3; sfRequestID := 4; sfMethod := USPAgentMethodUpload;
     sfPhase := USPTransferStreamChunk; sfSequence := 1; sfAckSequence := 0; sfOffset := 1120;
     sfTotalSize := 4096; sfPath := bs "Device."; sfFilename := []; sfContentType := [];
     sfMetadata := ∅; sfData := replicate 300 (z2b 65); sfFinal := true |}.

Lemma stream_roundtrip_witness :
  ∃ e, EncodeUSPTransferStreamFrame demo_frame = Ok e ∧ (length e < 120)%nat ∧
    DecodeUSPTransferStreamFrame (e ++ replicate 2 (z2b 0)) = Ok demo_frame.
Proof.
  destruct (stream_roundtrip demo_frame 2) as (e & He & Hd).
  - assert (∀ w, 8 ≤ w ≤ 64 → ∀ z, 0 ≤ z < 2 ^ 13 → z < 256 ∨ 16 ≤ w → 0 ≤ z < 2 ^ w) as Hz.
    { intros w Hw z Hz Hs. pose proof (Z.pow_le_mono_r 2 8 w ltac:(lia) ltac:(lia)).
      destruct Hs; [lia|]. pose proof (Z.pow_le_mono_r 2 16 w ltac:(lia) ltac:(lia)). lia. }
    unfold stream_ok, u64_ok, byte_ok. cbn.
    unfold USPAgentMethodUpload, USPTransferStreamChunk.
    split_and!; try lia; [repeat constructor; by vm_compute|by vm_compute].
  - done.
  - exists e. split; [exact He|]. vm_compute in He. injection He as <-.
    split; [simpl; lia|]. apply Hd. vm_compute. discriminate.
Defined.

Lemma short_frame_panics data :
  (37 ≤ length data < 45)%nat →
  le_get (slice 0 1 data) = uspTransferStreamMagic → le_get (slice 1 2 data) = uspTransferStreamVersion →
  DecodeUSPTransferStreamFrame data = Panic.
Proof.
  intros Hl Hm Hv. unfold DecodeUSPTransferStreamFrame.
  rewrite (proj2 (Nat.ltb_ge _ 37)), Hm, Hv by lia. cbn [negb Z.eqb].
  by rewrite (proj2 (Nat.ltb_lt _ 40)) by (rewrite length_drop; lia).
Qed.

(** A stream frame of 37 to 44 bytes with the right magic and version
    passes the length check, which is 8 bytes short of the 45-byte header, and
    makes the decoder panic. *)
Theorem stream_short_frame_panics data :
  (37 ≤ length data < 45)%nat →
  le_get (slice 0 1 data) = uspTransferStreamMagic → le_get (slice 1 2 data) = uspTransferStreamVersion →
  DecodeUSPTransferStreamFrame data = Panic.
Proof. apply short_frame_panics. Qed.

Lemma stream_short_frame_panics_witness :
  DecodeUSPTransferStreamFrame (map z2b [0x53; 1] ++ replicate 35 (z2b 0)) = Panic.
Proof. apply stream_short_frame_panics; [simpl; lia|done|done]. Defined.
