(* ===== verification/NetAddr.v ===== *)
(** * IP and UDP addresses

    Package net's IP (a byte slice of length 4 or 16; nil is the empty slice)
    and UDPAddr, as the P2P code uses them.  The zone of a UDPAddr is always
    empty there and is left out. *)

From S2P Require Import Prelude.

Abbreviation IP := bytes.

Definition v4InV6Prefix : bytes := replicate 10 (z2b 0) ++ [z2b 0xff; z2b 0xff].
Definition ip4 (a b c d : Z) : IP := map z2b [a; b; c; d].
Definition IPv4zero : IP := v4InV6Prefix ++ ip4 0 0 0 0.
Definition IPv4bcast : IP := v4InV6Prefix ++ ip4 255 255 255 255.
Definition IPv6unspecified : IP := replicate 16 (z2b 0).
Definition IPv6loopback : IP := replicate 15 (z2b 0) ++ [z2b 1].

Definition To4 (ip : IP) : option IP :=
  if (length ip =? 4)%nat then Some ip
  else if (length ip =? 16)%nat && bool_decide (take 12 ip = v4InV6Prefix) then Some (drop 12 ip)
  else None.
Definition To16 (ip : IP) : option IP :=
  if (length ip =? 4)%nat then Some (v4InV6Prefix ++ ip)
  else if (length ip =? 16)%nat then Some ip
  else None.
Definition IP_Equal (ip x : IP) : bool :=
  if (length ip =? length x)%nat then bool_decide (ip = x)
  else if (length ip =? 4)%nat && (length x =? 16)%nat then
    bool_decide (take 12 x = v4InV6Prefix) && bool_decide (ip = drop 12 x)
  else if (length ip =? 16)%nat && (length x =? 4)%nat then
    bool_decide (take 12 ip = v4InV6Prefix) && bool_decide (drop 12 ip = x)
  else false.

(** The [i]-th byte; the callers have checked the length. *)
Definition ipb (ip : IP) (i : nat) : Z := default 0 (b2z <$> ip !! i).

Definition IsUnspecified (ip : IP) : bool := IP_Equal ip IPv4zero || IP_Equal ip IPv6unspecified.
Definition IsLoopback (ip : IP) : bool :=
  match To4 ip with Some ip4 => ipb ip4 0 =? 127 | None => IP_Equal ip IPv6loopback end.
Definition IsPrivate (ip : IP) : bool :=
  match To4 ip with
  | Some ip4 =>
      (ipb ip4 0 =? 10) || ((ipb ip4 0 =? 172) && (Z.land (ipb ip4 1) 0xf0 =? 16))
      || ((ipb ip4 0 =? 192) && (ipb ip4 1 =? 168))
  | None => (length ip =? 16)%nat && (Z.land (ipb ip 0) 0xfe =? 0xfc)
  end.
Definition IsMulticast (ip : IP) : bool :=
  match To4 ip with
  | Some ip4 => Z.land (ipb ip4 0) 0xf0 =? 0xe0
  | None => (length ip =? 16)%nat && (ipb ip 0 =? 0xff)
  end.
Definition IsLinkLocalUnicast (ip : IP) : bool :=
  match To4 ip with
  | Some ip4 => (ipb ip4 0 =? 169) && (ipb ip4 1 =? 254)
  | None => (length ip =? 16)%nat && (ipb ip 0 =? 0xfe) && (Z.land (ipb ip 1) 0xc0 =? 0x80)
  end.
Definition IsGlobalUnicast (ip : IP) : bool :=
  ((length ip =? 4)%nat || (length ip =? 16)%nat) && negb (IP_Equal ip IPv4bcast)
  && negb (IsUnspecified ip) && negb (IsLoopback ip) && negb (IsMulticast ip)
  && negb (IsLinkLocalUnicast ip).

Record UDPAddr : Type := MkUDPAddr { aIP : IP; aPort : Z }.
#[export] Instance UDPAddr_eq_dec : EqDecision UDPAddr.
Proof. solve_decision. Defined.

Definition normalizeUDPAddr (addr : UDPAddr) : UDPAddr :=
  match To4 (aIP addr) with
  | Some ip4 => MkUDPAddr ip4 (aPort addr)
  | None =>
      match To16 (aIP addr) with
      | Some ip16 => MkUDPAddr ip16 (aPort addr)
      | None => addr
      end
  end.

Lemma To4_length ip ip' : To4 ip = Some ip' → length ip' = 4%nat.
Proof.
  unfold To4. destruct (Nat.eqb_spec (length ip) 4); [by intros [= <-]|].
  destruct (Nat.eqb_spec (length ip) 16); [|done]. case_bool_decide; [|done].
  intros [= <-]. rewrite length_drop. lia.
Qed.
Lemma To4_4 ip : length ip = 4%nat → To4 ip = Some ip.
Proof. intros H. unfold To4. by rewrite H. Qed.
Lemma To4_idemp ip ip' : To4 ip = Some ip' → To4 ip' = Some ip'.
Proof. intros H. by apply To4_4, (To4_length ip). Qed.

Lemma normalize_idemp addr : normalizeUDPAddr (normalizeUDPAddr addr) = normalizeUDPAddr addr.
Proof.
  unfold normalizeUDPAddr at 2 3. destruct (To4 (aIP addr)) as [ip'|] eqn:E.
  - unfold normalizeUDPAddr. simpl. by rewrite (To4_idemp _ _ E).
  - unfold To16. destruct (Nat.eqb_spec (length (aIP addr)) 4) as [H4|H4].
    { by rewrite To4_4 in E. }
    destruct (Nat.eqb_spec (length (aIP addr)) 16) as [H16|H16].
    + unfold normalizeUDPAddr. simpl. rewrite E. unfold To16.
      by rewrite (proj2 (Nat.eqb_neq _ 4)), (proj2 (Nat.eqb_eq _ 16)) by done.
    + unfold normalizeUDPAddr. rewrite E. unfold To16.
      by rewrite (proj2 (Nat.eqb_neq _ 4)), (proj2 (Nat.eqb_neq _ 16)) by done.
Qed.

Definition normal (addr : UDPAddr) : Prop := normalizeUDPAddr addr = addr.
Lemma normalize_normal addr : normal (normalizeUDPAddr addr).
Proof. apply normalize_idemp. Qed.

(** On addresses of the two proper lengths, normalized equality is equality of
    the address denoted. *)
Lemma IP_Equal_To4 a b :
  length a = 4%nat → length b = 4%nat → IP_Equal a b = bool_decide (a = b).
Proof. intros Ha Hb. unfold IP_Equal. by rewrite Ha, Hb. Qed.
Lemma IP_Equal_refl a : IP_Equal a a = true.
Proof. unfold IP_Equal. rewrite Nat.eqb_refl. by apply bool_decide_eq_true. Qed.
