(* ===== verification/P2PMessage.v ===== *)
(** * P2P coordination messages

    src/internal/device/wireguard-go/device/p2p_message.go: the fixed 84-byte
    message header and the candidate list payload. *)

From S2P Require Import Prelude NetAddr.

Definition p2pCandidatePayloadMagic : bytes := bs "WPC1".
Definition p2pCandidateAddrLen : nat := 18.

Definition P2PSubtypeRegister : Z := 1.
Definition P2PSubtypeRegisterAck : Z := 2.
Definition P2PSubtypePeerList : Z := 3.
Definition P2PSubtypePunchRequest : Z := 4.
Definition P2PSubtypePunchRelay : Z := 5.
Definition P2PSubtypePunchPacket : Z := 6.
Definition P2PSubtypeHeartbeat : Z := 7.
Definition P2PSubtypePeerNames : Z := 8.
(** The outer WireGuard message type ([MessagePunchType]). *)
Definition MessageP2PType : Z := 6.

(** Arrays are byte lists of their length ([wf_message]). *)
Record P2PMessage : Type := MkP2PMessage
  { Subtype : Z; PublicKey : bytes; LocalIP : bytes; LocalPort : Z; ObservedIP : bytes;
    ObservedPort : Z; mTargetID : Z; mNonce : bytes; Payload : bytes }.

Definition P2PMessage_Encode (m : P2PMessage) : bytes :=
  [z2b (Subtype m)] ++ replicate 3 (z2b 0) ++ PublicKey m ++ LocalIP m ++ be_put 2 (LocalPort m)
  ++ ObservedIP m ++ be_put 2 (ObservedPort m) ++ be_put 4 (mTargetID m) ++ mNonce m ++ Payload m.

Definition DecodeP2PMessage (data : bytes) : option P2PMessage :=
  if (length data <? 84)%nat then None
  else Some
    {| Subtype := be_get (slice 0 1 data); PublicKey := slice 4 36 data;
       LocalIP := slice 36 52 data; LocalPort := be_get (slice 52 54 data);
       ObservedIP := slice 54 70 data; ObservedPort := be_get (slice 70 72 data);
       mTargetID := be_get (slice 72 76 data); mNonce := slice 76 84 data;
       Payload := drop 84 data |}.

Definition LocalAddr (m : P2PMessage) : UDPAddr := MkUDPAddr (LocalIP m) (LocalPort m).
Definition ObservedAddr (m : P2PMessage) : UDPAddr := MkUDPAddr (ObservedIP m) (ObservedPort m).

(** [copy] of a possibly nil To16 into a zeroed array. *)
Definition copy16 (dst : bytes) (ip : IP) : bytes :=
  match To16 ip with Some ip16 => ip16 | None => dst end.
Definition SetLocalAddr (m : P2PMessage) (addr : UDPAddr) : P2PMessage :=
  {| Subtype := Subtype m; PublicKey := PublicKey m; LocalIP := copy16 (LocalIP m) (aIP addr);
     LocalPort := u16 (aPort addr); ObservedIP := ObservedIP m; ObservedPort := ObservedPort m;
     mTargetID := mTargetID m; mNonce := mNonce m; Payload := Payload m |}.
Definition SetObservedAddr (m : P2PMessage) (addr : UDPAddr) : P2PMessage :=
  {| Subtype := Subtype m; PublicKey := PublicKey m; LocalIP := LocalIP m;
     LocalPort := LocalPort m; ObservedIP := copy16 (ObservedIP m) (aIP addr);
     ObservedPort := u16 (aPort addr); mTargetID := mTargetID m; mNonce := mNonce m;
     Payload := Payload m |}.

(** ** Candidate payload *)

(** One step of the encoder loop over ([seen], the entries written so far).  The
    de-duplication key is the printed 16-byte address and port, which are equal
    exactly when address and port are. *)
Definition candidate_step (out : list (IP * Z)) (candidate : UDPAddr) : list (IP * Z) * bool :=
  if aPort candidate <=? 0 then (out, true)
  else match To16 (aIP candidate) with
       | None => (out, true)
       | Some ip =>
           if bool_decide ((ip, aPort candidate) ∈ out) then (out, true)
           else if (length out =? 255)%nat then (out, false)
           else (out ++ [(ip, aPort candidate)], true)
       end.
Fixpoint candidate_loop (out : list (IP * Z)) (candidates : list UDPAddr) : list (IP * Z) :=
  match candidates with
  | [] => out
  | c :: candidates =>
      let '(out, continue) := candidate_step out c in
      if continue : bool then candidate_loop out candidates else out
  end.
Definition candidate_bytes (c : IP * Z) : bytes := c.1 ++ be_put 2 (u16 c.2).

(** [nil] is the empty byte string. *)
Definition EncodeP2PCandidatePayload (candidates : list UDPAddr) : bytes :=
  let out := candidate_loop [] candidates in
  if (length out =? 0)%nat then []
  else p2pCandidatePayloadMagic ++ [z2b (Z.of_nat (length out))] ++ concat (candidate_bytes <$> out).

Definition AppendP2PCandidatePayload (prefix : bytes) (candidates : list UDPAddr) : bytes :=
  prefix ++ EncodeP2PCandidatePayload candidates.

Fixpoint decode_candidates (count : nat) (data : bytes) : list UDPAddr :=
  match count with
  | O => []
  | S count =>
      let rawIP := take 16 data in
      let port := be_get (slice 16 18 data) in
      let rawIP := default rawIP (To4 rawIP) in
      let rest := decode_candidates count (drop p2pCandidateAddrLen data) in
      if (0 <? port) && match To16 rawIP with Some _ => true | None => false end
      then MkUDPAddr rawIP port :: rest else rest
  end.

Definition DecodeP2PCandidatePayload (payload : bytes) (offset : Z) : list UDPAddr :=
  let off := Z.to_nat offset in
  if (offset <? 0) || (Z.of_nat (length payload) <? offset + 5)
     || negb (bool_decide (slice off (off + 4) payload = p2pCandidatePayloadMagic)) then []
  else
    let count := Z.to_nat (be_get (slice (off + 4) (off + 5) payload)) in
    let pos := (off + 5)%nat in
    if (length payload <? pos + count * p2pCandidateAddrLen)%nat then []
    else decode_candidates count (drop pos payload).

(** ** The message header *)

Definition wf_p2p (m : P2PMessage) : Prop :=
  0 ≤ Subtype m < 256 ∧ length (PublicKey m) = 32%nat ∧ length (LocalIP m) = 16%nat ∧
  0 ≤ LocalPort m < 2 ^ 16 ∧ length (ObservedIP m) = 16%nat ∧ 0 ≤ ObservedPort m < 2 ^ 16 ∧
  0 ≤ mTargetID m < 2 ^ 32 ∧ length (mNonce m) = 8%nat.

Lemma slice_here {A} (a b : list A) hi : length a = hi → slice 0 hi (a ++ b) = a.
Proof. intros ?. by apply slice_app_here. Qed.
Lemma slice_next {A} (a b : list A) n lo hi :
  length a = n → (n ≤ lo)%nat → slice lo hi (a ++ b) = slice (lo - n) (hi - n) b.
Proof. intros <- ?. by apply slice_app_r. Qed.

Ltac seg_length := first [eassumption | apply length_be_put | apply length_le_put | reflexivity].
(** Reads every fixed-offset slice of a concatenation of segments of known
    length. *)
Ltac peel_slices :=
  repeat (cbn [Nat.sub]; match goal with
  | |- context [slice 0 ?hi (?a ++ ?b)] => rewrite (slice_here a b hi) by seg_length
  | |- context [slice ?lo ?hi (?a ++ ?b)] =>
      erewrite (slice_next a b _ lo hi); [|seg_length|lia]
  end).

Lemma be_get_one z : 0 ≤ z < 256 → be_get [z2b z] = z.
Proof. intros. change [z2b z] with (be_put 1 z). by apply be_get_put_small. Qed.

Lemma P2PMessage_Decode_Encode m : wf_p2p m → DecodeP2PMessage (P2PMessage_Encode m) = Some m.
Proof.
  intros (Hs & Hk & Hl & Hlp & Ho & Hop & Ht & Hn). unfold DecodeP2PMessage, P2PMessage_Encode.
  rewrite (proj2 (Nat.ltb_ge _ 84))
    by (rewrite !length_app, !length_be_put, Hk, Hl, Ho, Hn; simpl; lia).
  rewrite (app_assoc [_] (replicate 3 _)). set (hd := [z2b (Subtype m)] ++ replicate 3 (z2b 0)).
  replace (slice 0 1 (hd ++ _)) with [z2b (Subtype m)] by done.
  assert (length hd = 4%nat) as Hhd by done.
  rewrite (be_get_one (Subtype m)) by done. peel_slices.
  rewrite !app_assoc, drop_app_length'
    by (rewrite !length_app, !length_be_put, Hhd, Hk, Hl, Ho, Hn; done).
  rewrite !be_get_put_small by done. by destruct m.
Qed.

Lemma P2PMessage_decode_wf data m : DecodeP2PMessage data = Some m → wf_p2p m.
Proof.
  unfold DecodeP2PMessage. destruct (Nat.ltb_spec (length data) 84); [done|]. intros [= <-].
  assert (∀ lo hi, (hi ≤ 84)%nat → (lo ≤ hi)%nat →
    0 ≤ be_get (slice lo hi data) < 256 ^ Z.of_nat (hi - lo)) as Hb.
  { intros lo hi ? ?. pose proof (be_get_range (slice lo hi data)) as Hr.
    by rewrite length_slice in Hr by lia. }
  unfold wf_p2p. simpl. rewrite !length_slice by lia.
  pose proof (Hb 0 1 ltac:(lia) ltac:(lia))%nat as H1.
  pose proof (Hb 52 54 ltac:(lia) ltac:(lia))%nat as H2.
  pose proof (Hb 70 72 ltac:(lia) ltac:(lia))%nat as H3.
  pose proof (Hb 72 76 ltac:(lia) ltac:(lia))%nat as H4.
  split_and!; try done; try apply H1; try apply H2; try apply H3; try apply H4.
Qed.

(** ** Candidates *)

(** The 16-byte form of an address and its normalized form denote each other. *)
Lemma To16_length ip ip' : To16 ip = Some ip' → length ip' = 16%nat.
Proof.
  unfold To16. destruct (Nat.eqb_spec (length ip) 4) as [H4|].
  { intros <-%(inj Some). rewrite length_app, H4. done. }
  destruct (Nat.eqb_spec (length ip) 16); [|done]. by intros [= <-].
Qed.

Lemma To4_To16 ip ip' : To16 ip = Some ip' → To4 ip' = To4 ip.
Proof.
  unfold To16. destruct (Nat.eqb_spec (length ip) 4) as [H4|].
  - intros <-%(inj Some). rewrite (To4_4 ip) by done. unfold To4. rewrite length_app, H4. cbn [Nat.eqb].
    replace (length v4InV6Prefix + 4)%nat with 16%nat by done.
    cbn [Nat.eqb]. rewrite take_app_length', drop_app_length' by done.
    by rewrite bool_decide_true.
  - destruct (_ =? 16)%nat; [|done]. by intros [= <-].
Qed.

Definition norm16 (c : IP * Z) : UDPAddr := MkUDPAddr (default c.1 (To4 c.1)) c.2.

Lemma norm16_normalize addr ip : To16 (aIP addr) = Some ip → norm16 (ip, aPort addr) = normalizeUDPAddr addr.
Proof.
  intros H. unfold norm16, normalizeUDPAddr. simpl. rewrite (To4_To16 _ _ H), H.
  by destruct (To4 (aIP addr)).
Qed.

Lemma To16_default ip : length ip = 16%nat →
  match To16 (default ip (To4 ip)) with Some _ => true | None => false end = true.
Proof.
  intros H. destruct (To4 ip) as [ip'|] eqn:E; simpl; unfold To16.
  - by rewrite (To4_length _ _ E).
  - by rewrite H.
Qed.

Definition cand_ok (c : IP * Z) : Prop := length c.1 = 16%nat ∧ 0 < c.2 < 2 ^ 16.

Lemma decode_candidate_cons n ip port rest : length ip = 16%nat → 0 < port < 2 ^ 16 →
  decode_candidates (S n) (candidate_bytes (ip, port) ++ rest)
    = norm16 (ip, port) :: decode_candidates n rest.
Proof.
  intros Hl Hp. unfold candidate_bytes. simpl fst. simpl snd. rewrite (wrap_small 16) by lia.
  cbn [decode_candidates]. rewrite <- app_assoc.
  replace (take 16 (ip ++ be_put 2 port ++ rest)) with ip by (by rewrite take_app_length').
  replace (slice 16 18 (ip ++ be_put 2 port ++ rest)) with (be_put 2 port) by (by peel_slices).
  replace (drop p2pCandidateAddrLen (ip ++ be_put 2 port ++ rest)) with rest.
  2:{ rewrite app_assoc. by rewrite drop_app_length' by (by rewrite length_app, length_be_put, Hl). }
  rewrite be_get_put_small by (change (256 ^ Z.of_nat 2) with (2 ^ 16); lia).
  by rewrite (proj2 (Z.ltb_lt 0 port)), To16_default by (done || lia).
Qed.

Lemma decode_candidates_concat out rest : Forall cand_ok out →
  decode_candidates (length out) (concat (candidate_bytes <$> out) ++ rest) = norm16 <$> out.
Proof.
  induction 1 as [|[ip port] out [Hl Hp] _ IH]; [done|]. simpl in Hl, Hp.
  rewrite !fmap_cons. cbn [length concat]. rewrite <- app_assoc, decode_candidate_cons by done.
  by rewrite IH.
Qed.

(** What the encoder loop keeps: the first 255 distinct usable candidates. *)
Lemma candidate_loop_spec candidates : ∀ out,
  Forall (fun c => aPort c < 2 ^ 16) candidates →
  Forall cand_ok out → NoDup out → (length out ≤ 255)%nat →
  let r := candidate_loop out candidates in
  Forall cand_ok r ∧ NoDup r ∧ (length r ≤ 255)%nat ∧
  (∀ c, c ∈ r → c ∈ out ∨ ∃ a, a ∈ candidates ∧ To16 (aIP a) = Some c.1 ∧ aPort a = c.2) ∧
  ((length r < 255)%nat → ∀ a ip, a ∈ candidates → 0 < aPort a → To16 (aIP a) = Some ip →
     (ip, aPort a) ∈ r) ∧ (∀ c, c ∈ out → c ∈ r).
Proof.
  induction candidates as [|a candidates IH]; intros out Hp Hok Hnd Hlen; cbn [candidate_loop].
  { split_and!; try done; [by left|set_solver]. }
  apply Forall_cons in Hp as [Ha Hp]. unfold candidate_step.
  destruct (Z.leb_spec (aPort a) 0).
  { destruct (IH out Hp Hok Hnd Hlen) as (? & ? & ? & H1 & H2 & ?). split_and!; try done.
    - intros c [?|(a' & ? & ?)]%H1; [by left|right; exists a'; by rewrite elem_of_cons; auto].
    - intros Hr a' ip [->|Hin]%elem_of_cons ? ?; [lia|eauto]. }
  destruct (To16 (aIP a)) as [ip|] eqn:E.
  2:{ destruct (IH out Hp Hok Hnd Hlen) as (? & ? & ? & H1 & H2 & ?). split_and!; try done.
    - intros c [?|(a' & ? & ?)]%H1; [by left|right; exists a'; by rewrite elem_of_cons; auto].
    - intros Hr a' ip [->|Hin]%elem_of_cons ? ?; [congruence|eauto]. }
  case_bool_decide as Hin.
  { destruct (IH out Hp Hok Hnd Hlen) as (? & ? & ? & H1 & H2 & H3). split_and!; try done.
    - intros c [?|(a' & ? & ?)]%H1; [by left|right; exists a'; by rewrite elem_of_cons; auto].
    - intros Hr a' ip' [->|Hin']%elem_of_cons ? Ht; [|eauto].
      rewrite E in Ht. injection Ht as <-. by apply H3. }
  destruct (Nat.eqb_spec (length out) 255) as [E255|N255].
  { split_and!; try done; [by left|]. intros. lia. }
  destruct (IH (out ++ [(ip, aPort a)])) as (? & ? & ? & H1 & H2 & H3); [done| | | |].
  - apply Forall_app; split; [done|]. constructor; [|constructor]. split; simpl; [|lia].
    by eapply To16_length.
  - apply NoDup_app. split_and!; [done| |apply NoDup_singleton].
    intros c Hc Hc'%list_elem_of_singleton. congruence.
  - rewrite length_app. simpl. lia.
  - split_and!; try done.
    + intros c [[?|Hc]%elem_of_app|(a' & ? & ?)]%H1;
        [by left| |right; exists a'; by rewrite elem_of_cons; auto].
      apply list_elem_of_singleton in Hc as ->. right. exists a. rewrite elem_of_cons. auto.
    + intros Hr a' ip' [->|Hin']%elem_of_cons ? Ht; [|eauto].
      rewrite E in Ht. injection Ht as <-. apply H3. rewrite elem_of_app, list_elem_of_singleton. auto.
    + intros c ?. apply H3. rewrite elem_of_app. auto.
Qed.

Lemma Decode_Append prefix candidates :
  Forall (fun c => aPort c < 2 ^ 16) candidates →
  DecodeP2PCandidatePayload (AppendP2PCandidatePayload prefix candidates) (Z.of_nat (length prefix))
    = norm16 <$> candidate_loop [] candidates.
Proof.
  intros Hp. destruct (candidate_loop_spec candidates [] Hp) as (Hok & _ & Hlen & _);
    [constructor|constructor|simpl; lia|].
  unfold AppendP2PCandidatePayload, EncodeP2PCandidatePayload, DecodeP2PCandidatePayload.
  set (out := candidate_loop [] candidates) in *. rewrite Nat2Z.id.
  rewrite (proj2 (Z.ltb_ge _ 0)) by lia.
  destruct (Nat.eqb_spec (length out) 0) as [E|E].
  { rewrite app_nil_r. rewrite (proj2 (Z.ltb_lt _ _)) by lia. simpl.
    apply nil_length_inv in E. by rewrite E. }
  set (body := concat (candidate_bytes <$> out)).
  assert (length body = length out * 18)%nat as Hb.
  { unfold body. clear -Hok. induction Hok as [|[ip p] l [Hl _] _ IH]; [done|].
    rewrite fmap_cons. cbn [concat length].
    assert (length (candidate_bytes (ip, p)) = 18%nat) as Hc
      by (unfold candidate_bytes; rewrite length_app, length_be_put; simpl in *; lia).
    rewrite length_app, Hc, IH. lia. }
  rewrite !length_app, Hb. simpl length.
  rewrite (proj2 (Z.ltb_ge _ _)) by lia. cbn [orb].
  replace (slice (length prefix) (length prefix + 4) _) with p2pCandidatePayloadMagic.
  2:{ erewrite (slice_next prefix); [|done|lia]. rewrite Nat.sub_diag.
      replace (length prefix + 4 - length prefix)%nat with 4%nat by lia.
      by rewrite slice_here. }
  rewrite bool_decide_true by done. cbn [negb].
  replace (slice (length prefix + 4) (length prefix + 5) _) with [z2b (Z.of_nat (length out))].
  2:{ erewrite (slice_next prefix); [|done|lia].
      replace (length prefix + 4 - length prefix)%nat with 4%nat by lia.
      replace (length prefix + 5 - length prefix)%nat with 5%nat by lia.
      rewrite (slice_next p2pCandidatePayloadMagic _ 4) by (done || lia). cbn [Nat.sub].
      by rewrite slice_here. }
  rewrite (be_get_one (Z.of_nat (length out))), Nat2Z.id by lia. unfold p2pCandidateAddrLen.
  rewrite (proj2 (Nat.ltb_ge _ _)) by lia.
  rewrite (app_assoc prefix), (app_assoc (prefix ++ _)), drop_app_length'
    by (rewrite !length_app; simpl; lia).
  rewrite <- (app_nil_r body). by apply decode_candidates_concat.
Qed.

(** ** Claims *)

(** Message round trip.  Decoding an encoded coordination message gives the
    message back, and whatever the decoder accepts is a well-formed message. *)
Theorem p2p_message_roundtrip m :
  wf_p2p m →
  DecodeP2PMessage (P2PMessage_Encode m) = Some m ∧
  (∀ data m', DecodeP2PMessage data = Some m' → wf_p2p m' ∧
     DecodeP2PMessage (P2PMessage_Encode m') = Some m').
Proof.
  intros Hm. split; [by apply P2PMessage_Decode_Encode|]. intros data m' Hd.
  apply P2PMessage_decode_wf in Hd. split; [done|by apply P2PMessage_Decode_Encode].
Qed.

Definition demo_p2p : P2PMessage :=
  MkP2PMessage P2PSubtypePunchRelay (replicate 32 (z2b 7)) (v4InV6Prefix ++ ip4 192 168 1 9) 51820
    (v4InV6Prefix ++ ip4 203 0 113 5) 40001 77 (replicate 8 (z2b 3)) (bs "payload").
Lemma p2p_message_roundtrip_witness :
  DecodeP2PMessage (P2PMessage_Encode demo_p2p) = Some demo_p2p ∧
  (∀ data m', DecodeP2PMessage data = Some m' → wf_p2p m' ∧
     DecodeP2PMessage (P2PMessage_Encode m') = Some m').
Proof.
  apply p2p_message_roundtrip. unfold wf_p2p, demo_p2p. simpl. unfold P2PSubtypePunchRelay.
  split_and!; try done; lia.
Defined.

(** Candidate round trip.  Candidates appended to any payload are read back
    at the payload's end: no duplicates, each one the normalized form of an
    offered candidate with a valid port, and all of those unless the limit of
    255 is reached. *)
Theorem p2p_candidates_roundtrip prefix candidates :
  Forall (fun c => aPort c < 2 ^ 16) candidates →
  let got := DecodeP2PCandidatePayload (AppendP2PCandidatePayload prefix candidates)
               (Z.of_nat (length prefix)) in
  (length got ≤ 255)%nat ∧
  (∀ a, a ∈ got → ∃ c, c ∈ candidates ∧ a = normalizeUDPAddr c ∧ 0 < aPort c) ∧
  ((length got < 255)%nat → ∀ c, c ∈ candidates → 0 < aPort c → is_Some (To16 (aIP c)) →
     normalizeUDPAddr c ∈ got).
Proof.
  intros Hp. cbn zeta. rewrite Decode_Append by done.
  destruct (candidate_loop_spec candidates [] Hp) as (Hok & _ & Hlen & H1 & H2 & _);
    [constructor|constructor|simpl; lia|].
  rewrite length_fmap. split_and!; [done| |].
  - intros a (c & -> & Hc)%list_elem_of_fmap. rewrite Forall_forall in Hok.
    destruct (Hok c Hc) as [_ Hport].
    destruct (H1 c Hc) as [?|(b & Hb & Ht & Hbp)]; [set_solver|]. exists b. split; [done|].
    split; [|lia]. rewrite <- (norm16_normalize b c.1) by done. rewrite Hbp. by destruct c.
  - intros Hl c Hc Hport [ip Hip]. apply list_elem_of_fmap. exists (ip, aPort c).
    split; [by rewrite norm16_normalize|]. by apply H2.
Qed.

Lemma p2p_candidates_roundtrip_witness :
  let cs := [MkUDPAddr (ip4 203 0 113 5) 40001; MkUDPAddr IPv6loopback 51820;
             MkUDPAddr (ip4 203 0 113 5) 40001] in
  let got := DecodeP2PCandidatePayload (AppendP2PCandidatePayload (bs "abcd") cs) 4 in
  got = [MkUDPAddr (ip4 203 0 113 5) 40001; MkUDPAddr IPv6loopback 51820] ∧
  (length got ≤ 255)%nat ∧
  (∀ a, a ∈ got → ∃ c, c ∈ cs ∧ a = normalizeUDPAddr c ∧ 0 < aPort c) ∧
  ((length got < 255)%nat → ∀ c, c ∈ cs → 0 < aPort c → is_Some (To16 (aIP c)) →
     normalizeUDPAddr c ∈ got).
Proof.
  intros cs got. split; [vm_compute; reflexivity|].
  apply (p2p_candidates_roundtrip (bs "abcd") cs). repeat constructor; simpl; lia.
Defined.
