(* ===== verification/P2PNat.v ===== *)
(** * NAT classification and punch planning

    src/internal/device/wireguard-go/device/p2p_nat.go and the target selection
    of p2p_client.go (buildPunchTargets and its helpers).  Times are
    nanoseconds since the epoch, durations nanoseconds. *)

From S2P Require Import Prelude NetAddr.

Definition millisecond : Z := 1000000.
Definition second : Z := 1000000000.
Definition minute : Z := 60 * second.

(** ** The punch session (type P2PSession of p2p_client.go) *)

(** [sdone] is "the done channel is closed". *)
Record P2PSession : Type := MkSession
  { TargetID : Z; TargetPubKey : bytes; sLocalAddr : UDPAddr; sObservedAddr : UDPAddr;
    sCandidateAddrs : list UDPAddr; sAssignedIP : IP; sNonce : bytes; Established : bool;
    Promoting : bool; sdone : bool; altNonce : bytes; hasAltNonce : bool; createdAt : Z;
    promotedAt : Z; lastReply : Z }.

Definition acceptsNonce (s : P2PSession) (nonce : bytes) : bool :=
  bool_decide (nonce = sNonce s) || (hasAltNonce s && bool_decide (nonce = altNonce s)).

(** ** NAT classes *)

Inductive natClass : Type :=
| natClassUnknown
| natClassPublic
| natClassMapped
| natClassPreserving
| natClassRewriting.
#[export] Instance natClass_eq_dec : EqDecision natClass.
Proof. solve_decision. Defined.

Definition easy (n : natClass) : bool :=
  match n with natClassPublic | natClassMapped | natClassPreserving => true | _ => false end.
Definition stableSource (n : natClass) : bool :=
  match n with natClassPublic | natClassPreserving => true | _ => false end.

Definition p2pSprayFirstPorts : Z := 128.
Definition p2pSprayPorts : Z := 256.
Definition p2pSprayMaxAttempts : Z := 4.
Definition p2pSprayDelay : Z := 1500 * millisecond.
Definition p2pSprayInterval : Z := 6 * second.
Definition p2pSpraySweeps : Z := 2.
Definition p2pSprayPerRound : Z := 32.
Definition p2pSprayMinPort : Z := 1024.
Definition p2pDirectKeepalive : Z := 12 * second.
Definition p2pMaxPredictedTargets : nat := 16.

Definition isUsablePunchAddr (addr : UDPAddr) : bool :=
  if (aPort addr <=? 0) || (length (aIP addr) =? 0)%nat then false
  else negb (IsUnspecified (default (aIP addr) (To4 (aIP addr)))).

Definition isPublicInternetPunchAddr (addr : UDPAddr) : bool :=
  if negb (isUsablePunchAddr addr) then false
  else
    let ip := default (aIP addr) (To4 (aIP addr)) in
    IsGlobalUnicast ip && negb (IsPrivate ip) && negb (IsLoopback ip)
    && negb (IsLinkLocalUnicast ip).

(** The value of [p2pIsPublicIPv4] outside tests. *)
Definition isPublicIPv4PunchAddr (addr : UDPAddr) : bool :=
  match To4 (aIP addr) with Some _ => true | None => false end && isPublicInternetPunchAddr addr.

Definition same_endpoint (a b : UDPAddr) : bool :=
  IP_Equal (aIP a) (aIP b) && (aPort a =? aPort b).

(** The candidate loop: [None] when a second public endpoint decides the class. *)
Fixpoint listen_port (observed : UDPAddr) (listenPort : Z) (candidates : list UDPAddr) : option Z :=
  match candidates with
  | [] => Some listenPort
  | candidate :: candidates =>
      let candidate := normalizeUDPAddr candidate in
      if (aPort candidate <=? 0) || same_endpoint candidate observed then
        listen_port observed listenPort candidates
      else if isPublicIPv4PunchAddr candidate then None
      else listen_port observed
             (if listenPort <=? 0 then aPort candidate else listenPort) candidates
  end.

Definition classifyNAT (observed local : UDPAddr) (candidates : list UDPAddr) : natClass :=
  let observed := normalizeUDPAddr observed in
  if negb (isPublicIPv4PunchAddr observed) then natClassUnknown
  else
    let local := normalizeUDPAddr local in
    if same_endpoint local observed then natClassPublic
    else
      match listen_port observed (aPort local) candidates with
      | None => natClassMapped
      | Some listenPort =>
          if listenPort <=? 0 then natClassUnknown
          else if aPort observed =? listenPort then natClassPreserving
          else natClassRewriting
      end.

(** ** Punch targets (p2p_client.go) *)

Definition isAssignedOverlayAddr (candidate : UDPAddr) (assignedIP : IP) : bool :=
  if (length assignedIP =? 0)%nat || IP_Equal assignedIP IPv4zero then false
  else IP_Equal (default (aIP candidate) (To4 (aIP candidate)))
                (default assignedIP (To4 assignedIP)).

(** The printed forms the source compares are equal exactly for equal
    normalized addresses. *)
Definition appendPunchCandidate (candidates : list UDPAddr) (candidate : UDPAddr)
    (assignedIP : IP) : list UDPAddr :=
  let candidate := normalizeUDPAddr candidate in
  if negb (isUsablePunchAddr candidate) || isAssignedOverlayAddr candidate assignedIP then candidates
  else if bool_decide (candidate ∈ candidates) then candidates
  else candidates ++ [candidate].

Definition sanitizePunchTargets (candidates : list UDPAddr) (assignedIP : IP) : list UDPAddr :=
  foldl (fun out c => appendPunchCandidate out c assignedIP) [] candidates.

Definition prediction_deltas : list Z := [1; -1; 2; -2; 3; -3; 5; -5; 8; -8; 13; -13].
Definition predict_step (base : UDPAddr) (assignedIP : IP) (limit : nat)
    (candidates : list UDPAddr) (delta : Z) : list UDPAddr :=
  if (limit <=? length candidates)%nat then candidates
  else
    let port := aPort base + delta in
    if (port <=? 0) || (65535 <? port) then candidates
    else appendPunchCandidate candidates (MkUDPAddr (aIP base) port) assignedIP.
Definition appendPortPredictionCandidates (candidates : list UDPAddr) (base : UDPAddr)
    (assignedIP : IP) (limit : nat) : list UDPAddr :=
  if negb (isPublicIPv4PunchAddr base) then candidates
  else foldl (predict_step base assignedIP limit) candidates prediction_deltas.

Definition is_ipv4 (addr : UDPAddr) : bool :=
  match To4 (aIP addr) with Some _ => true | None => false end.
Definition punch_candidates (session : P2PSession) : list UDPAddr :=
  let ip := sAssignedIP session in
  let all := foldl (fun out c => appendPunchCandidate out c ip) [] (sCandidateAddrs session) in
  appendPunchCandidate (appendPunchCandidate all (sObservedAddr session) ip) (sLocalAddr session) ip.
(** [for i := ipv6; i < baseLen && len(targets) < limit; i++] *)
Fixpoint predict_loop (bases : list UDPAddr) (assignedIP : IP) (limit : nat)
    (targets : list UDPAddr) : list UDPAddr :=
  match bases with
  | [] => targets
  | base :: bases =>
      if (length targets <? limit)%nat
      then predict_loop bases assignedIP limit
             (appendPortPredictionCandidates targets base assignedIP limit)
      else targets
  end.
Definition buildPunchTargets (session : P2PSession) (predict : bool) : list UDPAddr :=
  let all := punch_candidates session in
  let v6 := List.filter (fun a => negb (is_ipv4 a)) all in
  let v4 := List.filter is_ipv4 all in
  let targets := v6 ++ v4 in
  if negb predict then targets
  else predict_loop v4 (sAssignedIP session) (length v6 + p2pMaxPredictedTargets)%nat targets.

(** ** Port spraying *)

Record spray_acc : Type := MkAcc { spOut : list Z; spSkip : gset Z; spBelow : Z }.
Definition spray_add (n : Z) (acc : spray_acc) (port : Z) : spray_acc :=
  if (port <? p2pSprayMinPort) || (65535 <? port) || (n <=? Z.of_nat (length (spOut acc))) then acc
  else if bool_decide (port ∈ spSkip acc) then acc
  else MkAcc (spOut acc ++ [port]) ({[port]} ∪ spSkip acc) (spBelow acc).
(** The body of the loop for distance [d]. *)
Definition spray_body (base n back d : Z) (acc : spray_acc) : spray_acc :=
  let acc := spray_add n acc (base + d) in
  if (spBelow acc <? back) && (p2pSprayMinPort <=? base - d) then
    let acc' := spray_add n acc (base - d) in
    MkAcc (spOut acc') (spSkip acc')
      (spBelow acc' + (Z.of_nat (length (spOut acc')) - Z.of_nat (length (spOut acc))))
  else acc.
(** [fuel] counts down from 65535, the loop's own bound on [d]. *)
Fixpoint spray_loop (fuel : nat) (base n back d : Z) (acc : spray_acc) : spray_acc :=
  match fuel with
  | O => acc
  | S fuel =>
      if n <=? Z.of_nat (length (spOut acc)) then acc
      else spray_loop fuel base n back (d + 1) (spray_body base n back d acc)
  end.
Definition sprayPorts (base : UDPAddr) (n back : Z) (exclude : list UDPAddr) : list UDPAddr :=
  let base := normalizeUDPAddr base in
  let skip : gset Z :=
    {[aPort base]} ∪ list_to_set (aPort <$> List.filter (fun a => IP_Equal (aIP a) (aIP base)) exclude) in
  MkUDPAddr (aIP base)
    <$> spOut (spray_loop (Z.to_nat 65535) (aPort base) n back 1 (MkAcc [] skip 0)).

Record punchPlan : Type := MkPlan
  { plSelf : natClass; plPeer : natClass; plTargets : list UDPAddr; plSpray : list UDPAddr;
    plSweeps : Z }.

Definition planPunch (session : P2PSession) (self : natClass) (attempts : Z) : punchPlan :=
  let peer := classifyNAT (sObservedAddr session) (sLocalAddr session) (sCandidateAddrs session) in
  let spray := bool_decide (peer = natClassRewriting) && stableSource self
               && (attempts <? p2pSprayMaxAttempts) in
  let targets := buildPunchTargets session (negb (easy peer) && negb spray) in
  if spray then
    let '(n, back) := if 0 <? attempts then (p2pSprayPorts, p2pSprayPorts / 2)
                      else (p2pSprayFirstPorts, p2pSprayFirstPorts / 4) in
    let ports := sprayPorts (sObservedAddr session) n back targets in
    MkPlan self peer targets ports (if (0 <? length ports)%nat then p2pSpraySweeps else 0)
  else MkPlan self peer targets [] 0.

(** ** Pacing *)

(** The limiter, an atomic.Bool shared by all sprays of a client, is passed in
    and out. *)
Record punchSpray : Type := MkSpray
  { zSize : Z; zSweeps : Z; zNext : Z; zNextAt : Z; zActive : bool }.

Definition newPunchSpray (size sweeps start : Z) : punchSpray :=
  MkSpray size (if size =? 0 then 0 else sweeps) 0 (start + p2pSprayDelay) false.

Definition spray_release (limiter : bool) (s : punchSpray) : bool * punchSpray :=
  if zActive s then (false, MkSpray (zSize s) (zSweeps s) (zNext s) (zNextAt s) false)
  else (limiter, s).

Definition spray_step (now : Z) (promoted limiter : bool) (s : punchSpray)
    : bool * punchSpray * (Z * Z) :=
  if zSweeps s <=? 0 then (limiter, s, (0, 0))
  else if promoted then
    let '(limiter, s) := spray_release limiter (MkSpray (zSize s) 0 (zNext s) (zNextAt s) (zActive s)) in
    (limiter, s, (0, 0))
  else if negb (zActive s) && ((now <? zNextAt s) || limiter) then (limiter, s, (0, 0))
  else
    let limiter := if zActive s then limiter else true in
    let lo := if zActive s then zNext s else 0 in
    let hi := Z.min (lo + p2pSprayPerRound) (zSize s) in
    if hi =? zSize s then
      let '(limiter, s) := spray_release limiter
        (MkSpray (zSize s) (zSweeps s - 1) hi (now + p2pSprayInterval) true) in
      (limiter, s, (lo, hi))
    else (limiter, MkSpray (zSize s) (zSweeps s) hi (zNextAt s) true, (lo, hi)).

(** ** Target selection *)

(** A target the client is willing to punch for a peer with VPN address [ip]. *)
Definition good_target (ip : IP) (a : UDPAddr) : Prop :=
  normal a ∧ isUsablePunchAddr a = true ∧ isAssignedOverlayAddr a ip = false.
Definition targets_ok (ip : IP) (l : list UDPAddr) : Prop := NoDup l ∧ Forall (good_target ip) l.

Lemma append_cases ip l c :
  appendPunchCandidate l c ip = l ∨
  (appendPunchCandidate l c ip = l ++ [normalizeUDPAddr c] ∧ good_target ip (normalizeUDPAddr c) ∧
   normalizeUDPAddr c ∉ l).
Proof.
  unfold appendPunchCandidate. destruct (isUsablePunchAddr _) eqn:Hu; [|by left]. cbn [negb orb].
  destruct (isAssignedOverlayAddr _ _) eqn:Ho; [by left|].
  case_bool_decide; [by left|]. right. split_and!; try done. split_and!; try done.
  apply normalize_normal.
Qed.

Lemma append_ok ip l c : targets_ok ip l → targets_ok ip (appendPunchCandidate l c ip).
Proof.
  intros [Hn Hg]. destruct (append_cases ip l c) as [->|(-> & Hc & Hni)]; [done|]. split.
  - apply NoDup_app. split_and!; [done| |apply NoDup_singleton].
    intros a Ha ->%list_elem_of_singleton. done.
  - by apply Forall_app; split; [|constructor].
Qed.

Lemma append_incl ip l c a : a ∈ l → a ∈ appendPunchCandidate l c ip.
Proof. destruct (append_cases ip l c) as [->|(-> & _)]; [done|]. rewrite elem_of_app. auto. Qed.
Lemma append_in ip l c : good_target ip (normalizeUDPAddr c) →
  normalizeUDPAddr c ∈ appendPunchCandidate l c ip.
Proof.
  intros (_ & Hu & Ho). unfold appendPunchCandidate. rewrite Hu, Ho. cbn [negb orb].
  case_bool_decide; [done|]. rewrite elem_of_app, list_elem_of_singleton. auto.
Qed.

Lemma foldl_append_ok ip cs : ∀ l, targets_ok ip l →
  targets_ok ip (foldl (fun out c => appendPunchCandidate out c ip) l cs).
Proof. induction cs as [|c cs IH]; intros l Hl; simpl; [done|]. by apply IH, append_ok. Qed.
Lemma foldl_append_incl ip cs : ∀ l a, a ∈ l →
  a ∈ foldl (fun out c => appendPunchCandidate out c ip) l cs.
Proof. induction cs as [|c cs IH]; intros l a Ha; simpl; [done|]. by apply IH, append_incl. Qed.
Lemma foldl_append_in ip cs : ∀ l c, c ∈ cs → good_target ip (normalizeUDPAddr c) →
  normalizeUDPAddr c ∈ foldl (fun out c => appendPunchCandidate out c ip) l cs.
Proof.
  induction cs as [|c' cs IH]; intros l c Hc Hg; simpl; [by apply elem_of_nil in Hc|].
  apply elem_of_cons in Hc as [->|Hc]; [|by apply IH]. by apply foldl_append_incl, append_in.
Qed.

Lemma punch_candidates_ok s : targets_ok (sAssignedIP s) (punch_candidates s).
Proof.
  unfold punch_candidates. apply append_ok, append_ok, foldl_append_ok. split; constructor.
Qed.

Lemma filter_split_perm {A} (f : A → bool) l :
  List.filter (fun a => negb (f a)) l ++ List.filter f l ≡ₚ l.
Proof.
  induction l as [|x l IH]; simpl; [done|]. destruct (f x); simpl; [|by rewrite IH].
  by rewrite <- Permutation_middle, IH.
Qed.

(** The predicted targets extend the list by good IPv4 addresses, up to the
    limit. *)
Definition extends (ip : IP) (limit : nat) (l l' : list UDPAddr) : Prop :=
  ∃ more, l' = l ++ more ∧ Forall (fun a => is_ipv4 a = true) more ∧
    targets_ok ip l' ∧ (length l' ≤ Nat.max (length l) limit)%nat.

Lemma extends_refl ip limit l : targets_ok ip l → extends ip limit l l.
Proof. intros. exists []. rewrite app_nil_r. split_and!; [done|constructor|done|lia]. Qed.
Lemma extends_trans ip limit l1 l2 l3 :
  extends ip limit l1 l2 → extends ip limit l2 l3 → extends ip limit l1 l3.
Proof.
  intros (m1 & -> & H1 & _ & L1) (m2 & -> & H2 & T2 & L2). exists (m1 ++ m2).
  rewrite app_assoc. split_and!; [done|by apply Forall_app|done|lia].
Qed.

Lemma is_ipv4_normalize a : is_ipv4 (normalizeUDPAddr a) = is_ipv4 a.
Proof.
  unfold is_ipv4, normalizeUDPAddr. destruct (To4 (aIP a)) as [ip'|] eqn:E; simpl.
  - by rewrite (To4_idemp _ _ E).
  - unfold To16. destruct (Nat.eqb_spec (length (aIP a)) 4); [by rewrite To4_4 in E|].
    destruct (_ =? 16)%nat; simpl; by rewrite E.
Qed.

Lemma predict_step_extends ip base limit l delta :
  is_ipv4 base = true → targets_ok ip l → extends ip limit l (predict_step base ip limit l delta).
Proof.
  intros Hb Hl. unfold predict_step. destruct (Nat.leb_spec limit (length l)); [by apply extends_refl|].
  destruct (_ || _); [by apply extends_refl|].
  set (c := MkUDPAddr (aIP base) (aPort base + delta)).
  destruct (append_cases ip l c) as [E|(E & Hc & _)].
  { rewrite E. by apply extends_refl. }
  exists [normalizeUDPAddr c]. split_and!; [done| |by apply append_ok|].
  - constructor; [|constructor]. rewrite is_ipv4_normalize. exact Hb.
  - rewrite E, length_app. simpl. lia.
Qed.

Lemma predict_fold_extends ip base limit ds : is_ipv4 base = true → ∀ l, targets_ok ip l →
  extends ip limit l (foldl (predict_step base ip limit) l ds).
Proof.
  intros Hb. induction ds as [|d ds IH]; intros l Hl; simpl; [by apply extends_refl|].
  pose proof (predict_step_extends ip base limit l d Hb Hl) as He. eapply extends_trans; [exact He|].
  apply IH. by destruct He as (? & _ & _ & ? & _).
Qed.

Lemma predict_loop_extends ip limit bases : ∀ l, targets_ok ip l →
  extends ip limit l (predict_loop bases ip limit l).
Proof.
  induction bases as [|b bases IH]; intros l Hl; simpl; [by apply extends_refl|].
  destruct (_ <? _)%nat; [|by apply extends_refl].
  unfold appendPortPredictionCandidates. destruct (isPublicIPv4PunchAddr b) eqn:Hp; cbn [negb].
  2:{ by apply IH. }
  assert (is_ipv4 b = true) as Hb.
  { unfold isPublicIPv4PunchAddr in Hp. by apply andb_true_iff in Hp as [? _]. }
  pose proof (predict_fold_extends ip b limit prediction_deltas Hb l Hl) as He.
  eapply extends_trans; [exact He|]. apply IH. by destruct He as (? & _ & _ & ? & _).
Qed.

Lemma buildPunchTargets_spec s predict :
  ∃ v6 v4, buildPunchTargets s predict = v6 ++ v4 ∧
    Forall (fun a => is_ipv4 a = false) v6 ∧ Forall (fun a => is_ipv4 a = true) v4 ∧
    targets_ok (sAssignedIP s) (v6 ++ v4) ∧
    (∀ a, a ∈ punch_candidates s → a ∈ v6 ++ v4) ∧
    (length v4 ≤ Nat.max (length (punch_candidates s)) p2pMaxPredictedTargets)%nat.
Proof.
  unfold buildPunchTargets. pose proof (punch_candidates_ok s) as [Hn Hg].
  set (all := punch_candidates s) in *.
  set (v6 := List.filter (fun a => negb (is_ipv4 a)) all). set (v4 := List.filter is_ipv4 all).
  assert (v6 ++ v4 ≡ₚ all) as Hperm by apply filter_split_perm.
  assert (Forall (fun a => is_ipv4 a = false) v6) as H6.
  { apply List.Forall_forall. intros a [_ Ha]%filter_In. by apply negb_true_iff. }
  assert (Forall (fun a => is_ipv4 a = true) v4) as H4.
  { apply List.Forall_forall. by intros a [_ Ha]%filter_In. }
  assert (targets_ok (sAssignedIP s) (v6 ++ v4)) as Ht by (split; by rewrite Hperm).
  pose proof (Permutation_length Hperm) as Hlen. rewrite length_app in Hlen.
  destruct (negb predict).
  - exists v6, v4. split_and!; try done; [intros a; by rewrite Hperm|lia].
  - destruct (predict_loop_extends (sAssignedIP s) (length v6 + p2pMaxPredictedTargets) v4 _ Ht)
      as (more & E & Hm & Hok & Hl).
    exists v6, (v4 ++ more). rewrite E, <- app_assoc in *. split_and!; try done.
    + by apply Forall_app.
    + intros a. rewrite <- Hperm, !elem_of_app. tauto.
    + rewrite !length_app in *. lia.
Qed.

(** ** Spray ports *)

Section Spray.
Context (base n back : Z) (skip0 : gset Z).

(** Ports are listed nearest first. *)
Definition nearer (p q : Z) : Prop := Z.abs (p - base) ≤ Z.abs (q - base).

(** What holds of the list whatever the distance reached. *)
Definition spray_out_ok (acc : spray_acc) : Prop :=
  NoDup (spOut acc) ∧
  Forall (fun p => p2pSprayMinPort ≤ p ≤ 65535 ∧ p ∉ skip0) (spOut acc) ∧
  (∀ p, p ∈ spSkip acc ↔ p ∈ skip0 ∨ p ∈ spOut acc).

(** The loop's invariant before distance [d]. *)
Definition spray_inv (d : Z) (acc : spray_acc) : Prop :=
  spray_out_ok acc ∧
  Z.of_nat (length (spOut acc)) ≤ n ∧
  spBelow acc = Z.of_nat (length (List.filter (fun p => p <? base) (spOut acc))) ∧
  spBelow acc ≤ back ∧
  StronglySorted nearer (spOut acc) ∧ Forall (fun p => Z.abs (p - base) < d) (spOut acc) ∧
  (Z.of_nat (length (spOut acc)) < n →
     ∀ p, base < p < base + d → p2pSprayMinPort ≤ p ≤ 65535 → p ∈ spSkip acc).

Lemma spray_add_cases acc p :
  spray_add n acc p = acc ∨
  (spray_add n acc p = MkAcc (spOut acc ++ [p]) ({[p]} ∪ spSkip acc) (spBelow acc) ∧
   p2pSprayMinPort ≤ p ≤ 65535 ∧ p ∉ spSkip acc ∧ Z.of_nat (length (spOut acc)) < n).
Proof.
  unfold spray_add. destruct (Z.ltb_spec p p2pSprayMinPort); [by left|].
  destruct (Z.ltb_spec 65535 p); [by left|].
  destruct (Z.leb_spec n (Z.of_nat (length (spOut acc)))); [by left|]. cbn [orb].
  case_bool_decide; [by left|]. right. split_and!; try done.
Qed.

Lemma spray_add_full acc p : p2pSprayMinPort ≤ p ≤ 65535 →
  Z.of_nat (length (spOut (spray_add n acc p))) < n → p ∈ spSkip (spray_add n acc p).
Proof.
  intros Hp. unfold spray_add. rewrite (proj2 (Z.ltb_ge _ _)), (proj2 (Z.ltb_ge 65535 p)) by lia.
  cbn [orb]. destruct (Z.leb_spec n (Z.of_nat (length (spOut acc)))); [lia|].
  case_bool_decide; simpl; [done|]. set_solver.
Qed.

Lemma spray_out_add acc p :
  spray_out_ok acc → p2pSprayMinPort ≤ p ≤ 65535 → p ∉ spSkip acc → ∀ b,
  spray_out_ok (MkAcc (spOut acc ++ [p]) ({[p]} ∪ spSkip acc) b).
Proof.
  intros (Hn & Hf & Hs) Hp Hni b. rewrite Hs in Hni. split_and!; simpl.
  - apply NoDup_app. split_and!; [done| |apply NoDup_singleton].
    intros q Hq ->%list_elem_of_singleton. tauto.
  - apply Forall_app; split; [done|]. constructor; [|constructor]. split; [done|tauto].
  - intros q. rewrite elem_of_union, elem_of_singleton, elem_of_app, list_elem_of_singleton, Hs.
    tauto.
Qed.

Lemma filter_snoc (f : Z → bool) l p :
  length (List.filter f (l ++ [p])) = (length (List.filter f l) + (if f p then 1 else 0))%nat.
Proof. rewrite List.filter_app, length_app. simpl. by destruct (f p). Qed.

Lemma nearer_snoc l p : StronglySorted nearer l →
  Forall (fun q => Z.abs (q - base) ≤ Z.abs (p - base)) l → StronglySorted nearer (l ++ [p]).
Proof.
  intros Hs Hf. apply StronglySorted_app. split_and!; [|done|repeat constructor].
  intros x1 x2 Hx1 ->%list_elem_of_singleton. rewrite Forall_forall in Hf. by apply Hf.
Qed.

Lemma spray_up_inv d acc : 0 < d → spray_inv d acc → spray_inv (d + 1) (spray_add n acc (base + d)).
Proof.
  intros Hd (Hok & Hlen & Hb & Hback & Hsort & Hdist & Hcomp).
  pose proof (spray_add_full acc (base + d)) as Hfull.
  destruct (spray_add_cases acc (base + d)) as [E|(E & Hp & Hni & Hl)]; rewrite E in *.
  - split_and!; try done; [eapply Forall_impl; [exact Hdist|simpl; lia]|].
    intros Hl p Hp Hr. destruct (Z.eq_dec p (base + d)) as [->|]; [by apply Hfull|].
    apply Hcomp; [done|lia|done].
  - split_and!; simpl.
    + by apply spray_out_add.
    + rewrite length_app; simpl; lia.
    + rewrite filter_snoc, (proj2 (Z.ltb_ge _ _)) by lia. lia.
    + done.
    + apply nearer_snoc; [done|]. eapply Forall_impl; [exact Hdist|simpl; lia].
    + apply Forall_app; split; [eapply Forall_impl; [exact Hdist|simpl; lia]|].
      constructor; [lia|constructor].
    + intros _ p Hpd Hr. rewrite elem_of_union, elem_of_singleton.
      destruct (Z.eq_dec p (base + d)); [by left|right]. apply Hcomp; [lia..|done].
Qed.

Lemma spray_body_inv d acc : 0 < d → spray_inv d acc → spray_inv (d + 1) (spray_body base n back d acc).
Proof.
  intros Hd Hi%spray_up_inv; [|done]. unfold spray_body.
  set (acc1 := spray_add n acc (base + d)) in *.
  destruct (_ && _) eqn:Hc; [|exact Hi].
  apply andb_true_iff in Hc as [Hc _]. apply Z.ltb_lt in Hc.
  destruct Hi as (Hok & Hlen & Hb & Hback & Hsort & Hdist & Hcomp).
  destruct (spray_add_cases acc1 (base - d)) as [->|(-> & Hp & Hni & Hl)].
  { split_and!; simpl; try done; lia. }
  split_and!; simpl; rewrite ?length_app; simpl.
  - by apply spray_out_add.
  - lia.
  - rewrite filter_snoc, (proj2 (Z.ltb_lt (base - d) base)) by lia. lia.
  - lia.
  - apply nearer_snoc; [done|]. eapply Forall_impl; [exact Hdist|simpl; lia].
  - apply Forall_app; split; [done|]. constructor; [lia|constructor].
  - intros Hl' p Hpd Hr. apply elem_of_union_r, Hcomp; [lia..|done].
Qed.

Lemma spray_loop_inv fuel : ∀ d acc, 0 < d → spray_inv d acc →
  ∃ d', spray_inv d' (spray_loop fuel base n back d acc) ∧
    (Z.of_nat (length (spOut (spray_loop fuel base n back d acc))) < n → d + Z.of_nat fuel ≤ d').
Proof.
  induction fuel as [|fuel IH]; intros d acc Hd Hi.
  { exists d. split; [done|]. simpl. lia. }
  cbn [spray_loop]. destruct (Z.leb_spec n (Z.of_nat (length (spOut acc)))); [exists d; split; [done|lia]|].
  destruct (IH (d + 1) (spray_body base n back d acc)) as (d' & ? & Hd');
    [lia|by apply spray_body_inv|].
  exists d'. split; [done|]. intros Hl. specialize (Hd' Hl). lia.
Qed.
End Spray.

Lemma normalize_port a : aPort (normalizeUDPAddr a) = aPort a.
Proof. unfold normalizeUDPAddr. by repeat case_match. Qed.

Lemma filter_ports ip b l :
  length (List.filter (fun a => aPort a <? b) (MkUDPAddr ip <$> l))
  = length (List.filter (fun p => p <? b) l).
Proof.
  induction l as [|p l IH]; [done|]. rewrite fmap_cons. simpl.
  destruct (p <? b); simpl; by rewrite IH.
Qed.

Lemma sprayPorts_spec base n back exclude :
  0 ≤ n → 0 ≤ back → 0 ≤ aPort base →
  let b := normalizeUDPAddr base in
  let out := sprayPorts base n back exclude in
  NoDup out ∧ Z.of_nat (length out) ≤ n ∧
  Forall (fun a => aIP a = aIP b ∧ p2pSprayMinPort ≤ aPort a ≤ 65535 ∧ aPort a ≠ aPort b) out ∧
  (∀ a e, a ∈ out → e ∈ exclude → same_endpoint e a = false) ∧
  Z.of_nat (length (List.filter (fun a => aPort a <? aPort b) out)) ≤ back ∧
  StronglySorted (fun a a' => Z.abs (aPort a - aPort b) ≤ Z.abs (aPort a' - aPort b)) out ∧
  (Z.of_nat (length out) < n → ∀ p, aPort b < p ≤ 65535 → p2pSprayMinPort ≤ p →
     (∀ e, e ∈ exclude → same_endpoint e (MkUDPAddr (aIP b) p) = false) →
     MkUDPAddr (aIP b) p ∈ out).
Proof.
  intros Hn0 Hb0 Hp0 b out. unfold out, sprayPorts. fold b.
  set (skip := {[aPort b]} ∪ _).
  assert (∀ p e, e ∈ exclude → same_endpoint e (MkUDPAddr (aIP b) p) = true → p ∈ skip) as Hskip.
  { intros p e He [Hip Hpt%Z.eqb_eq]%andb_true_iff. simpl in *. unfold skip.
    apply elem_of_union_r, elem_of_list_to_set, list_elem_of_fmap. exists e. split; [done|].
    apply list_elem_of_In, List.filter_In. split; [by apply list_elem_of_In|done]. }
  destruct (spray_loop_inv (aPort b) n back skip (Z.to_nat 65535) 1 (MkAcc [] skip 0))
    as (d' & ((Hn & Hf & Hs) & Hlen & Hbelow & Hback & Hsort & Hdist & Hcomp) & Hd'); [lia| |].
  { unfold spray_inv, spray_out_ok. split_and!; simpl; [apply NoDup_nil_2|apply Forall_nil_2| |done..|apply SSorted_nil
      |apply Forall_nil_2|lia].
    intros p. rewrite elem_of_nil. tauto. }
  set (acc := spray_loop _ _ _ _ _ _) in *. clearbody acc. rewrite Forall_forall in Hf. split_and!.
  - apply NoDup_fmap; [|done]. by intros x y [= ->].
  - by rewrite length_fmap.
  - apply Forall_fmap, Forall_forall. intros p Hp. destruct (Hf p Hp) as [Hr Hk]. simpl.
    split_and!; try lia; try done. intros ->. apply Hk. by apply elem_of_union_l, elem_of_singleton.
  - intros a e (p & -> & Hp)%list_elem_of_fmap He. destruct (Hf p Hp) as [_ Hk].
    destruct (same_endpoint _ _) eqn:E; [|done]. destruct Hk. by eapply Hskip.
  - rewrite Hbelow in Hback. by rewrite filter_ports.
  - clear -Hsort. induction Hsort as [|p l _ IH Hf]; [constructor|].
    rewrite fmap_cons. constructor; [done|]. by apply Forall_fmap.
  - rewrite length_fmap. intros Hl p Hp Hmin He. apply list_elem_of_fmap. exists p. split; [done|].
    specialize (Hd' Hl). assert (p ∈ spSkip acc) as [Hk|Hk]%Hs; [apply Hcomp; [done| |lia]| |done].
    + pose proof (normalize_port base : aPort b = aPort base). lia.
    + exfalso. unfold skip in Hk.
      apply elem_of_union in Hk as [->%elem_of_singleton|Hk]; [lia|].
      apply elem_of_list_to_set, list_elem_of_fmap in Hk as (e & -> & Hin).
      apply list_elem_of_In, List.filter_In in Hin as [Hin Hip].
      apply list_elem_of_In in Hin. specialize (He e Hin). unfold same_endpoint in He. simpl in He.
      rewrite Hip, Z.eqb_refl in He. done.
Qed.

(** ** Claims on planning *)

(** An announced public endpoint other than the observed one. *)
Definition mapped_candidate (observed c : UDPAddr) : bool :=
  let c := normalizeUDPAddr c in
  (0 <? aPort c) && negb (same_endpoint c observed) && isPublicIPv4PunchAddr c.
(** Ports that reveal the listen port: the default route's, then the candidates'. *)
Definition announced_ports (observed local : UDPAddr) (candidates : list UDPAddr) : list Z :=
  List.filter (fun p => 0 <? p)
    (aPort local :: (aPort <$> List.filter (fun c => negb (same_endpoint (normalizeUDPAddr c) observed))
                                 candidates)).

Lemma listen_port_none observed cs : ∀ p,
  listen_port observed p cs = None ↔ Exists (fun c => mapped_candidate observed c = true) cs.
Proof.
  induction cs as [|c cs IH]; intros p; simpl; [by rewrite Exists_nil|].
  rewrite Exists_cons. unfold mapped_candidate at 1.
  destruct (Z.leb_spec (aPort (normalizeUDPAddr c)) 0); cbn [orb].
  { rewrite IH, (proj2 (Z.ltb_ge _ _)) by done. simpl. naive_solver. }
  rewrite (proj2 (Z.ltb_lt _ _)) by done. destruct (same_endpoint _ _); simpl; [rewrite IH; naive_solver|].
  destruct (isPublicIPv4PunchAddr _); [naive_solver|]. rewrite IH. naive_solver.
Qed.

Lemma listen_port_some observed cs : ∀ p q,
  listen_port observed p cs = Some q →
  (0 < q → announced_ports observed (MkUDPAddr [] p) cs = q :: tl (announced_ports observed (MkUDPAddr [] p) cs))
  ∧ (q ≤ 0 → announced_ports observed (MkUDPAddr [] p) cs = []).
Proof.
  induction cs as [|c cs IH]; intros p q; unfold announced_ports; simpl.
  { intros [= ->]. destruct (Z.ltb_spec 0 q); simpl; split; try lia; done. }
  unfold announced_ports in IH. rewrite normalize_port.
  destruct (Z.leb_spec (aPort c) 0); cbn [orb].
  { intros H1%IH. destruct (same_endpoint _ _); simpl in *; [done|].
    rewrite (proj2 (Z.ltb_ge 0 (aPort c))) by done. done. }
  destruct (same_endpoint _ _); simpl; [by intros H1%IH|].
  destruct (isPublicIPv4PunchAddr _); [done|]. intros H1%IH. simpl in *.
  rewrite (proj2 (Z.ltb_lt 0 (aPort c))) by done.
  destruct (Z.leb_spec p 0).
  - rewrite (proj2 (Z.ltb_lt 0 (aPort c))) in H1 by done. rewrite (proj2 (Z.ltb_ge 0 p)) by done. done.
  - rewrite (proj2 (Z.ltb_lt 0 p)) in * by done. destruct H1 as [H1 H2]. split; [|intros Hq; by specialize (H2 Hq)].
    intros Hq. specialize (H1 Hq). by injection H1 as ->.
Qed.

(** what classifyNAT infers, class by class.  Unless the coordinator
    observed a public IPv4 endpoint nothing is known; the device is public when
    its default-route address is that endpoint; it is port-mapped exactly when
    a candidate is another public IPv4 endpoint; otherwise the first positive
    port it announced (default route first, then candidates in order) is taken
    as the listen port and compared with the observed port. *)
Theorem nat_classification observed local candidates :
  let obs := normalizeUDPAddr observed in
  let ports := announced_ports obs local candidates in
  let class := classifyNAT observed local candidates in
  (isPublicIPv4PunchAddr obs = false → class = natClassUnknown) ∧
  (isPublicIPv4PunchAddr obs = true → same_endpoint (normalizeUDPAddr local) obs = true →
     class = natClassPublic) ∧
  (isPublicIPv4PunchAddr obs = true → same_endpoint (normalizeUDPAddr local) obs = false →
     (class = natClassMapped ↔ Exists (fun c => mapped_candidate obs c = true) candidates) ∧
     (¬ Exists (fun c => mapped_candidate obs c = true) candidates →
        class = match ports with
                | [] => natClassUnknown
                | p :: _ => if aPort obs =? p then natClassPreserving else natClassRewriting
                end)).
Proof.
  intros obs ports class. unfold class, classifyNAT. fold obs.
  split_and!; intros Hp; rewrite Hp; cbn [negb]; [done|by intros ->|intros Hs; rewrite Hs].
  rewrite normalize_port. destruct (listen_port obs (aPort local) candidates) as [q|] eqn:E.
  - assert (¬ Exists (fun c => mapped_candidate obs c = true) candidates) as Hno.
    { rewrite <- (listen_port_none obs candidates (aPort local)), E. done. }
    split; [split; [repeat case_match; done|tauto]|]. intros _.
    destruct (listen_port_some _ _ _ _ E) as [H1 H2].
    change (announced_ports obs (MkUDPAddr [] (aPort local)) candidates) with ports in *.
    destruct (Z.leb_spec q 0); [by rewrite H2|]. rewrite H1 by done. done.
  - apply listen_port_none in E. split; [done|tauto].
Qed.

(** the punch targets of a session.  IPv6 targets precede IPv4 ones; no
    target repeats; each is usable, normalized and not the peer's own VPN
    address; every usable address of the session (candidates, observed, local)
    is a target; port prediction never grows the IPv4 targets beyond
    p2pMaxPredictedTargets unless the session's own addresses already do. *)
Theorem punch_targets_correct s predict :
  ∃ v6 v4, buildPunchTargets s predict = v6 ++ v4 ∧
    Forall (fun a => is_ipv4 a = false) v6 ∧ Forall (fun a => is_ipv4 a = true) v4 ∧
    NoDup (v6 ++ v4) ∧ Forall (good_target (sAssignedIP s)) (v6 ++ v4) ∧
    (∀ c, c ∈ sCandidateAddrs s ++ [sObservedAddr s; sLocalAddr s] →
       good_target (sAssignedIP s) (normalizeUDPAddr c) → normalizeUDPAddr c ∈ v6 ++ v4) ∧
    (length v4 ≤ Nat.max (length (punch_candidates s)) p2pMaxPredictedTargets)%nat.
Proof.
  destruct (buildPunchTargets_spec s predict) as (v6 & v4 & E & H6 & H4 & [Hn Hg] & Hin & Hl).
  exists v6, v4. split_and!; try done. intros c Hc Hgc. apply Hin. unfold punch_candidates.
  apply elem_of_app in Hc as [Hc|Hc].
  - by apply append_incl, append_incl, foldl_append_in.
  - apply elem_of_cons in Hc as [->| ->%list_elem_of_singleton].
    + by apply append_incl, append_in.
    + by apply append_in.
Qed.

Lemma planPunch_spray s self attempts :
  plSpray (planPunch s self attempts) ≠ [] →
  plPeer (planPunch s self attempts) = natClassRewriting ∧ stableSource self = true ∧
  attempts < p2pSprayMaxAttempts.
Proof.
  unfold planPunch. case_bool_decide; cbn [andb]; [|done].
  destruct (stableSource self); cbn [andb]; [|done].
  destruct (Z.ltb_spec attempts p2pSprayMaxAttempts); [|done]. simpl. by destruct (0 <? attempts).
Qed.

(** The observed endpoint of a class the client can tell is a real one. *)
Lemma classify_known_port observed local cs :
  classifyNAT observed local cs ≠ natClassUnknown → 0 < aPort observed.
Proof.
  unfold classifyNAT. destruct (isPublicIPv4PunchAddr _) eqn:E; [|done]. intros _.
  apply andb_true_iff in E as [_ E]. unfold isPublicInternetPunchAddr in E.
  destruct (isUsablePunchAddr _) eqn:E2; [|done]. unfold isUsablePunchAddr in E2.
  rewrite normalize_port in E2. destruct (Z.leb_spec (aPort observed) 0); [done|lia].
Qed.

Lemma planPunch_peer s self attempts : plPeer (planPunch s self attempts)
  = classifyNAT (sObservedAddr s) (sLocalAddr s) (sCandidateAddrs s).
Proof. unfold planPunch. destruct (_ && _); [by destruct (0 <? attempts)|done]. Qed.

Lemma planPunch_window s self attempts : plSpray (planPunch s self attempts) ≠ [] →
  ∃ n back, plSpray (planPunch s self attempts)
      = sprayPorts (sObservedAddr s) n back (plTargets (planPunch s self attempts)) ∧
    0 ≤ n ≤ p2pSprayPorts ∧ 0 ≤ back ∧ 0 ≤ aPort (sObservedAddr s).
Proof.
  intros Hne. destruct (planPunch_spray _ _ _ Hne) as (Hpeer & _ & _).
  rewrite planPunch_peer in Hpeer.
  assert (0 < aPort (sObservedAddr s)) by (eapply classify_known_port; by rewrite Hpeer).
  unfold planPunch in *. destruct (_ && _); [|done].
  destruct (0 <? attempts); simpl; eexists _, _; (split; [reflexivity|]);
    unfold p2pSprayPorts, p2pSprayFirstPorts; (split; [done|]); split; [done|lia|done|lia].
Qed.

(** when and what a plan sprays.  Only a side with a stable public source
    sprays, only towards a port-rewriting peer and only during the first
    p2pSprayMaxAttempts attempts; the window is at most p2pSprayPorts distinct
    ports in [1024, 65535] of the peer's observed address, nearest first, none
    of them the observed port or already a target, and it is swept exactly
    p2pSpraySweeps times; without ports there is no sweep. *)
Theorem spray_plan_confined s self attempts :
  let plan := planPunch s self attempts in
  let b := normalizeUDPAddr (sObservedAddr s) in
  (plSpray plan = [] → plSweeps plan = 0) ∧
  (plSpray plan ≠ [] →
     plPeer plan = natClassRewriting ∧ stableSource self = true ∧ attempts < p2pSprayMaxAttempts ∧
     plSweeps plan = p2pSpraySweeps) ∧
  NoDup (plSpray plan) ∧ Z.of_nat (length (plSpray plan)) ≤ p2pSprayPorts ∧
  Forall (fun a => aIP a = aIP b ∧ p2pSprayMinPort ≤ aPort a ≤ 65535 ∧ aPort a ≠ aPort b)
    (plSpray plan) ∧
  StronglySorted (fun a a' => Z.abs (aPort a - aPort b) ≤ Z.abs (aPort a' - aPort b)) (plSpray plan) ∧
  (∀ a t, a ∈ plSpray plan → t ∈ plTargets plan → same_endpoint t a = false).
Proof.
  intros plan b. pose proof (planPunch_spray s self attempts) as Hsp.
  assert (plSweeps plan = if (0 <? length (plSpray plan))%nat then p2pSpraySweeps else 0) as Hsw.
  { unfold plan, planPunch. destruct (_ && _); [|done]. by destruct (0 <? attempts). }
  split_and!; [intros E; by rewrite Hsw, E| |..].
  { intros Hne. destruct (Hsp Hne) as (? & ? & ?). split_and!; try done.
    rewrite Hsw. by destruct (plSpray plan). }
  all: destruct (decide (plSpray plan = [])) as [->|Hne]; simpl; try done; try (by constructor).
  all: try apply NoDup_nil_2; try (intros ? ? ?%elem_of_nil; done).
  all: destruct (planPunch_window s self attempts Hne) as (n & back & Hw & Hn & Hb & Hp).
  all: destruct (sprayPorts_spec (sObservedAddr s) n back (plTargets plan))
    as (? & ? & ? & ? & ? & ? & _); [lia..|]; fold plan in Hw; rewrite Hw; try done.
  lia.
Qed.

(** ** Pacing *)

(** A client's running sprays and the limiter they share. *)
Record spray_system : Type := MkSys { syLimiter : bool; sySprays : list punchSpray }.

(** One atomic action of a punch worker: it starts a spray, steps its own, or
    returns (the deferred release). [sent] is the port range the step sends. *)
Inductive spray_action : spray_system → Z * Z → spray_system → Prop :=
| act_start σ size sweeps start : 0 ≤ size → 0 ≤ sweeps →
    spray_action σ (0, 0)
      (MkSys (syLimiter σ) (sySprays σ ++ [newPunchSpray size sweeps start]))
| act_step l r s now promoted limiter limiter' s' sent :
    spray_step now promoted limiter s = (limiter', s', sent) →
    spray_action (MkSys limiter (l ++ s :: r)) sent (MkSys limiter' (l ++ s' :: r))
| act_return l r s limiter :
    spray_action (MkSys limiter (l ++ s :: r)) (0, 0)
      (MkSys (spray_release limiter s).1 (l ++ r)).
Inductive spray_reachable : spray_system → Prop :=
| spray_init : spray_reachable (MkSys false [])
| spray_next σ sent σ' : spray_reachable σ → spray_action σ sent σ' → spray_reachable σ'.

(** Well-formed pacing state. *)
Definition spray_wf (s : punchSpray) : Prop :=
  0 ≤ zSize s ∧ 0 ≤ zSweeps s ∧ (0 < zSweeps s → 0 < zSize s) ∧
  (zActive s = true → 0 < zSweeps s ∧ 0 ≤ zNext s < zSize s).
(** Packets the spray may still send. *)
Definition spray_budget (s : punchSpray) : Z :=
  zSweeps s * zSize s - (if zActive s then zNext s else 0).

Lemma newPunchSpray_wf size sweeps start : 0 ≤ size → 0 ≤ sweeps →
  spray_wf (newPunchSpray size sweeps start).
Proof.
  intros. unfold spray_wf, newPunchSpray. simpl.
  destruct (Z.eqb_spec size 0); split_and!; try done; lia.
Qed.

Lemma spray_step_wf now promoted limiter s limiter' s' lo hi :
  spray_wf s → spray_step now promoted limiter s = (limiter', s', (lo, hi)) →
  spray_wf s' ∧ 0 ≤ lo ≤ hi ∧ hi ≤ zSize s ∧ hi - lo ≤ p2pSprayPerRound ∧ zSize s' = zSize s ∧
  hi - lo ≤ spray_budget s - spray_budget s' ∧ (promoted = true → lo = hi) ∧ 0 ≤ spray_budget s'.
Proof.
  intros (Hz & Hw & Hp & Ha) H. unfold spray_wf, spray_budget, spray_step, p2pSprayPerRound in *.
  destruct s as [size sweeps next nextAt active]. simpl in *.
  assert (0 ≤ sweeps * size) by nia.
  destruct (Z.leb_spec sweeps 0).
  { simplify_eq. simpl. destruct active; [lia|]. split_and!; try lia; done. }
  destruct promoted.
  { unfold spray_release in H. simpl in H.
    destruct active; simplify_eq; simpl; split_and!; try done; try lia; nia. }
  destruct active; cbn [negb andb] in H.
  - destruct (Z.eqb_spec (Z.min (next + 32) size) size) as [E|E]; unfold spray_release in H;
      simpl in H; simplify_eq; simpl; split_and!; try done; try lia; nia.
  - destruct (_ || _) in H; [simplify_eq; simpl; split_and!; try done; lia|].
    destruct (Z.eqb_spec (Z.min (0 + 32) size) size) as [E|E]; unfold spray_release in H;
      simpl in H; simplify_eq; simpl; split_and!; try done; try lia; nia.
Qed.

(** What a step does to the limiter: it hands the spray's own claim over. *)
Lemma spray_step_limiter now promoted limiter s limiter' s' sent :
  spray_step now promoted limiter s = (limiter', s', sent) →
  (zActive s = true → limiter = true) →
  (zActive s' = true → limiter' = true) ∧
  Z.b2z limiter' - Z.b2z limiter = Z.b2z (zActive s') - Z.b2z (zActive s).
Proof.
  intros H Hl. unfold spray_step, spray_release in H.
  destruct (zSweeps s <=? 0); [by simplify_eq; split; [|lia]|].
  destruct promoted, (zActive s) eqn:Ea, limiter; simpl in *;
    repeat case_match; simplify_eq; simpl; rewrite ?Ea; auto; try (by specialize (Hl eq_refl)).
  all: by rewrite orb_true_r in *.
Qed.

Definition active_count (l : list punchSpray) : Z := Z.of_nat (length (List.filter zActive l)).
Lemma active_count_app l r : active_count (l ++ r) = active_count l + active_count r.
Proof. unfold active_count. rewrite List.filter_app, length_app. lia. Qed.
Lemma active_count_cons s l : active_count (s :: l) = Z.b2z (zActive s) + active_count l.
Proof. unfold active_count. simpl. destruct (zActive s); simpl; lia. Qed.
Lemma active_count_nonneg l : 0 ≤ active_count l.
Proof. unfold active_count. lia. Qed.

Definition sys_inv (σ : spray_system) : Prop :=
  active_count (sySprays σ) = Z.b2z (syLimiter σ) ∧ Forall spray_wf (sySprays σ).

Lemma spray_action_inv σ sent σ' : sys_inv σ → spray_action σ sent σ' → sys_inv σ'.
Proof.
  intros [Hc Hf] Hact. destruct Hact as [σ size sweeps start|l r s now promoted lim lim' s' [lo hi] Hs|l r s lim];
    unfold sys_inv in *; simpl in *.
  - rewrite active_count_app, active_count_cons. split; [simpl; unfold active_count at 2; simpl; lia|].
    apply Forall_app; split; [done|]. constructor; [by apply newPunchSpray_wf|constructor].
  - apply Forall_app in Hf as [Hl [Hs0 Hr]%Forall_cons].
    rewrite !active_count_app, !active_count_cons in *.
    pose proof (active_count_nonneg l). pose proof (active_count_nonneg r).
    destruct (spray_step_limiter _ _ _ _ _ _ _ Hs) as [_ E].
    { intros Ha. rewrite Ha in Hc. simpl in Hc. destruct lim; simpl in Hc; [done|lia]. }
    split; [lia|]. apply Forall_app; split; [done|]. constructor; [|done].
    by eapply spray_step_wf.
  - apply Forall_app in Hf as [Hl [Hs0 Hr]%Forall_cons].
    rewrite !active_count_app, !active_count_cons in *.
    pose proof (active_count_nonneg l). pose proof (active_count_nonneg r).
    split; [|by apply Forall_app]. unfold spray_release.
    destruct (zActive s); simpl in *; [destruct lim; simpl in *; lia|lia].
Qed.

Lemma spray_reachable_inv σ : spray_reachable σ → sys_inv σ.
Proof.
  induction 1 as [|σ sent σ' _ IH Hact]; [split; [done|constructor]|]. by eapply spray_action_inv.
Qed.

(** sprays never add up.  However the punch workers interleave, at most one
    of the sprays of a client is in a sweep, the shared limiter is set exactly
    when one is (so it is never leaked and the next spray can start), and no
    worker sends more than p2pSprayPerRound ports in a round. *)
Theorem one_spray_at_a_time σ lo hi σ' :
  spray_reachable σ → spray_action σ (lo, hi) σ' →
  active_count (sySprays σ') = Z.b2z (syLimiter σ') ∧ active_count (sySprays σ') ≤ 1 ∧
  0 ≤ lo ≤ hi ∧ hi - lo ≤ p2pSprayPerRound.
Proof.
  intros Hr Hact. pose proof (spray_reachable_inv _ Hr) as Hi.
  destruct (spray_action_inv _ _ _ Hi Hact) as [E _]. split; [done|]. split; [by destruct (syLimiter σ'); rewrite E|].
  inversion Hact; subst; unfold p2pSprayPerRound; try lia.
  destruct Hi as [_ Hf]. simpl in Hf. apply Forall_app in Hf as [_ [Hs0 _]%Forall_cons].
  match goal with H : spray_step _ _ _ _ = _ |- _ => apply (spray_step_wf _ _ _ _ _ _ _ _ Hs0) in H end.
  unfold p2pSprayPerRound in *. tauto.
Qed.
Lemma one_spray_at_a_time_witness :
  active_count [MkSpray 40 2 32 1500000000 true; newPunchSpray 9 1 5] ≤ 1.
Proof.
  apply (one_spray_at_a_time
    (MkSys false ([] ++ newPunchSpray 40 2 0 :: [newPunchSpray 9 1 5])) 0 32
    (MkSys true ([] ++ MkSpray 40 2 32 1500000000 true :: [newPunchSpray 9 1 5]))).
  - eapply spray_next; [eapply (spray_next _ _ (MkSys false [newPunchSpray 40 2 0]));
      [apply spray_init|apply (act_start (MkSys false [])); lia]|].
    apply (act_start (MkSys false [newPunchSpray 40 2 0])); lia.
  - apply (act_step [] _ _ 1500000000 false). reflexivity.
Defined.

(** The rounds of one punch loop: the time, whether the peer has answered, and
    the limiter as the loop finds it. *)
Fixpoint spray_rounds (s : punchSpray) (rounds : list (Z * bool * bool)) : list (Z * Z) :=
  match rounds with
  | [] => []
  | (now, promoted, limiter) :: rounds =>
      let '(_, s, sent) := spray_step now promoted limiter s in sent :: spray_rounds s rounds
  end.
Definition packets (sent : list (Z * Z)) : Z := foldr (fun '(lo, hi) n => (hi - lo) + n) 0 sent.

Lemma spray_rounds_budget rounds : ∀ s, spray_wf s → 0 ≤ spray_budget s →
  packets (spray_rounds s rounds) ≤ spray_budget s ∧
  Forall (fun '(lo, hi) => 0 ≤ lo ≤ hi ∧ hi ≤ zSize s ∧ hi - lo ≤ p2pSprayPerRound)
    (spray_rounds s rounds).
Proof.
  induction rounds as [|[[now promoted] limiter] rounds IH]; intros s Hs Hb; simpl; [by split|].
  destruct (spray_step now promoted limiter s) as [[lim' s'] [lo hi]] eqn:E.
  destruct (spray_step_wf _ _ _ _ _ _ _ _ Hs E) as (Hs' & ? & ? & ? & Hz & ? & _ & Hb').
  destruct (IH s' Hs' Hb') as [Hp Hf]. simpl. split; [lia|].
  constructor; [lia|]. by rewrite Hz in Hf.
Qed.

(** a spray's packet budget.  Over any number of rounds, whatever the clock
    and the limiter do, one punch loop sends at most size * sweeps spray
    packets, each round at most p2pSprayPerRound of them and only indexes of
    its port list; with a plan's window that is at most 512 packets. *)
Theorem spray_packet_budget size sweeps start rounds :
  0 ≤ size → 0 ≤ sweeps →
  packets (spray_rounds (newPunchSpray size sweeps start) rounds) ≤ size * sweeps ∧
  Forall (fun '(lo, hi) => 0 ≤ lo ≤ hi ∧ hi ≤ size ∧ hi - lo ≤ p2pSprayPerRound)
    (spray_rounds (newPunchSpray size sweeps start) rounds).
Proof.
  intros Hz Hw.
  assert (spray_budget (newPunchSpray size sweeps start) ≤ size * sweeps
          ∧ 0 ≤ spray_budget (newPunchSpray size sweeps start)) as [H1 H2].
  { unfold spray_budget, newPunchSpray. simpl. destruct (Z.eqb_spec size 0); nia. }
  destruct (spray_rounds_budget rounds _ (newPunchSpray_wf size sweeps start Hz Hw) H2) as [Hp Hf].
  split; [lia|exact Hf].
Qed.
Lemma spray_packet_budget_witness :
  packets (spray_rounds (newPunchSpray 40 2 0)
    [(0, false, false); (2000000000, false, false); (2100000000, false, true);
     (2200000000, false, false); (9000000000, false, false); (9100000000, false, true);
     (9200000000, false, false)]) ≤ 40 * 2.
Proof. apply spray_packet_budget; lia. Defined.
