(* ===== verification/P2PTables.v ===== *)
(** * The P2P client's tables

    The state p2p_client.go guards with P2PClient.mu and the functions that run
    under it (the ...Locked ones), of
    src/internal/device/wireguard-go/device/p2p_client.go.

    Peers, sessions and retry gates are shared by pointer in the source (a gate
    is reachable from attemptGates and from the published destination index, a
    session from sessions, sessionByNonce and from queued jobs), so each kind
    lives in a heap and the maps hold references.  Times are nanoseconds since
    the epoch, with Go's zero time as [zero_time]. *)

From S2P Require Import Prelude NetAddr P2PMessage P2PNat.

(** ** Time *)

Definition zero_time : Z := -62135596800 * second.
Definition IsZeroTime (t : Z) : bool := t =? zero_time.
(** [t.Sub(u)], saturating at the bounds of a Duration. *)
Definition Sub (t u : Z) : Z := Z.max (- 2 ^ 63) (Z.min (2 ^ 63 - 1) (t - u)).
Definition UnixNano (t : Z) : Z := i64 t.

Definition p2pPunchTimeout : Z := 18 * second.
Definition p2pStalledAttemptTTL : Z := 30 * second.
Definition p2pRetryBaseDelay : Z := 5 * second.
Definition p2pRetryMaxDelay : Z := minute.
Definition p2pMaxPeerListEntries : Z := 4096.
Definition p2pControlQueueSize : nat := 256.
Definition p2pAttemptQueueSize : nat := 256.
Definition p2pPunchQueueSize : nat := 128.
Definition p2pPromotionQueueSize : nat := 128.
Definition p2pAttemptGateInterval : Z := 2 * second.
Definition p2pHandshakeTimeout : Z := 20 * second.
Definition p2pDirectStaleAfter : Z := 4 * minute.
Definition p2pPeerForgetAfter : Z := 10 * minute.
Definition p2pReregisterInterval : Z := 60 * second.
Definition p2pPunchReplyInterval : Z := 100 * millisecond.
Definition p2pResponderFallback : Z := 3 * second.
Definition p2pNonceGrace : Z := 2 * second.
Definition p2pEstablishedRelayGrace : Z := 5 * second.

Definition p2pRetryDelay (attempts : Z) : Z :=
  if attempts <=? 0 then p2pRetryBaseDelay
  else
    let delay := Z.shiftl p2pRetryBaseDelay (Z.min attempts 3) in
    if p2pRetryMaxDelay <? delay then p2pRetryMaxDelay else delay.

Definition p2pPunchInterval (round : Z) : Z :=
  if round <? 5 then 45 * millisecond
  else if round <? 25 then (90 + Z.rem (round * 17) 45) * millisecond
  else (220 + Z.rem (round * 29) 90) * millisecond.

(** ** Data *)

(** NoisePublicKey is a [32]byte array. *)
Definition IsZeroKey (k : bytes) : bool := forallb (fun b => bool_decide (b = z2b 0)) k.
Definition zero_key : bytes := replicate 32 (z2b 0).
Abbreviation key_eqb k k' := (bool_decide (k = k')).

Inductive P2PState : Type :=
| P2PStateDiscovered
| P2PStateTrying
| P2PStateEstablished
| P2PStateFailed.
#[export] Instance P2PState_eq_dec : EqDecision P2PState.
Proof. solve_decision. Defined.

(** What the client uses of the outside: the network bind's endpoints, the
    Curve25519 shared secret of this device's private key with a public key
    (an error for a low-order key) and keyed BLAKE2s-256. *)
Class P2PEnv : Type := {
  Endpoint : Type;
  ParseEndpoint : UDPAddr → option Endpoint;
  sharedSecret : bytes → option bytes;
  blake2s256 : bytes → bytes → bytes;
  myPublicKey : bytes }.

(** A *Peer of the WireGuard device: its identity and its static key. *)
Record Peer : Type := MkPeer { wgRef : Z; remoteStatic : bytes }.
#[export] Instance Peer_eq_dec : EqDecision Peer.
Proof. solve_decision. Defined.

Section Tables.
Context `{Env : P2PEnv}.

(** The never assigned DirectConn is left out. *)
Record DiscoveredPeer : Type := MkDiscovered
  { dID : Z; dPublicKey : bytes; dLocalAddr : UDPAddr; dObservedAddr : UDPAddr;
    dCandidateAddrs : list UDPAddr; dNATType : Z; dP2PCapable : bool; dState : P2PState;
    dEndpoint : option Endpoint; dRelayPeer : option Peer; dLastUsed : Z; dLastSeen : Z;
    dEstablishedAt : Z; dAssignedIP : IP; dPunchAttempts : Z; dlastTxBytes : Z; dlastTxAt : Z }.

Definition state_is (d : DiscoveredPeer) (st : P2PState) : bool := bool_decide (dState d = st).

Definition no_addr : UDPAddr := MkUDPAddr [] 0.
(** [&DiscoveredPeer{ID: id, P2PCapable: capable}] *)
Definition new_peer (id : Z) (capable : bool) : DiscoveredPeer :=
  MkDiscovered id zero_key no_addr no_addr [] 0 capable P2PStateDiscovered None None
    zero_time zero_time zero_time [] 0 0 zero_time.

Record Tables : Type := MkTables
  { pheap : gmap Z DiscoveredPeer; sheap : gmap Z P2PSession; gheap : gmap Z Z; nextRef : Z;
    peers : gmap Z Z; sessions : gmap Z Z; sessionByNonce : gmap bytes Z;
    peerKeyIndex : gmap bytes Z; attemptGates : gmap Z Z;
    destinations : gmap bytes (Z * Z); serverPeerKey : bytes }.

(** ** Field updates *)

Definition with_pheap (t : Tables) (h : gmap Z DiscoveredPeer) : Tables :=
  MkTables h (sheap t) (gheap t) (nextRef t) (peers t) (sessions t) (sessionByNonce t)
    (peerKeyIndex t) (attemptGates t) (destinations t) (serverPeerKey t).
Definition with_sheap (t : Tables) (h : gmap Z P2PSession) : Tables :=
  MkTables (pheap t) h (gheap t) (nextRef t) (peers t) (sessions t) (sessionByNonce t)
    (peerKeyIndex t) (attemptGates t) (destinations t) (serverPeerKey t).
Definition with_gheap (t : Tables) (h : gmap Z Z) : Tables :=
  MkTables (pheap t) (sheap t) h (nextRef t) (peers t) (sessions t) (sessionByNonce t)
    (peerKeyIndex t) (attemptGates t) (destinations t) (serverPeerKey t).
Definition with_nextRef (t : Tables) (n : Z) : Tables :=
  MkTables (pheap t) (sheap t) (gheap t) n (peers t) (sessions t) (sessionByNonce t)
    (peerKeyIndex t) (attemptGates t) (destinations t) (serverPeerKey t).
Definition with_peers (t : Tables) (m : gmap Z Z) : Tables :=
  MkTables (pheap t) (sheap t) (gheap t) (nextRef t) m (sessions t) (sessionByNonce t)
    (peerKeyIndex t) (attemptGates t) (destinations t) (serverPeerKey t).
Definition with_sessions (t : Tables) (m : gmap Z Z) (n : gmap bytes Z) : Tables :=
  MkTables (pheap t) (sheap t) (gheap t) (nextRef t) (peers t) m n
    (peerKeyIndex t) (attemptGates t) (destinations t) (serverPeerKey t).
Definition with_keys (t : Tables) (m : gmap bytes Z) : Tables :=
  MkTables (pheap t) (sheap t) (gheap t) (nextRef t) (peers t) (sessions t) (sessionByNonce t)
    m (attemptGates t) (destinations t) (serverPeerKey t).
Definition with_gates (t : Tables) (m : gmap Z Z) : Tables :=
  MkTables (pheap t) (sheap t) (gheap t) (nextRef t) (peers t) (sessions t) (sessionByNonce t)
    (peerKeyIndex t) m (destinations t) (serverPeerKey t).
Definition with_destinations (t : Tables) (m : gmap bytes (Z * Z)) : Tables :=
  MkTables (pheap t) (sheap t) (gheap t) (nextRef t) (peers t) (sessions t) (sessionByNonce t)
    (peerKeyIndex t) (attemptGates t) m (serverPeerKey t).
Definition with_server (t : Tables) (k : bytes) : Tables :=
  MkTables (pheap t) (sheap t) (gheap t) (nextRef t) (peers t) (sessions t) (sessionByNonce t)
    (peerKeyIndex t) (attemptGates t) (destinations t) k.

Definition set_peer (t : Tables) (p : Z) (d : DiscoveredPeer) : Tables :=
  with_pheap t (<[p := d]> (pheap t)).
Definition set_session (t : Tables) (s : Z) (x : P2PSession) : Tables :=
  with_sheap t (<[s := x]> (sheap t)).

Definition with_state (d : DiscoveredPeer) (st : P2PState) : DiscoveredPeer :=
  MkDiscovered (dID d) (dPublicKey d) (dLocalAddr d) (dObservedAddr d) (dCandidateAddrs d)
    (dNATType d) (dP2PCapable d) st (dEndpoint d) (dRelayPeer d) (dLastUsed d) (dLastSeen d)
    (dEstablishedAt d) (dAssignedIP d) (dPunchAttempts d) (dlastTxBytes d) (dlastTxAt d).
Definition with_id (d : DiscoveredPeer) (id : Z) : DiscoveredPeer :=
  MkDiscovered id (dPublicKey d) (dLocalAddr d) (dObservedAddr d) (dCandidateAddrs d)
    (dNATType d) (dP2PCapable d) (dState d) (dEndpoint d) (dRelayPeer d) (dLastUsed d) (dLastSeen d)
    (dEstablishedAt d) (dAssignedIP d) (dPunchAttempts d) (dlastTxBytes d) (dlastTxAt d).
Definition with_key (d : DiscoveredPeer) (k : bytes) : DiscoveredPeer :=
  MkDiscovered (dID d) k (dLocalAddr d) (dObservedAddr d) (dCandidateAddrs d)
    (dNATType d) (dP2PCapable d) (dState d) (dEndpoint d) (dRelayPeer d) (dLastUsed d) (dLastSeen d)
    (dEstablishedAt d) (dAssignedIP d) (dPunchAttempts d) (dlastTxBytes d) (dlastTxAt d).
Definition with_link (d : DiscoveredPeer) (e : option Endpoint) (r : option Peer) : DiscoveredPeer :=
  MkDiscovered (dID d) (dPublicKey d) (dLocalAddr d) (dObservedAddr d) (dCandidateAddrs d)
    (dNATType d) (dP2PCapable d) (dState d) e r (dLastUsed d) (dLastSeen d)
    (dEstablishedAt d) (dAssignedIP d) (dPunchAttempts d) (dlastTxBytes d) (dlastTxAt d).
Definition with_used (d : DiscoveredPeer) (now : Z) (attempts : Z) : DiscoveredPeer :=
  MkDiscovered (dID d) (dPublicKey d) (dLocalAddr d) (dObservedAddr d) (dCandidateAddrs d)
    (dNATType d) (dP2PCapable d) (dState d) (dEndpoint d) (dRelayPeer d) now (dLastSeen d)
    (dEstablishedAt d) (dAssignedIP d) attempts (dlastTxBytes d) (dlastTxAt d).
Definition with_seen (d : DiscoveredPeer) (now : Z) : DiscoveredPeer :=
  MkDiscovered (dID d) (dPublicKey d) (dLocalAddr d) (dObservedAddr d) (dCandidateAddrs d)
    (dNATType d) (dP2PCapable d) (dState d) (dEndpoint d) (dRelayPeer d) (dLastUsed d) now
    (dEstablishedAt d) (dAssignedIP d) (dPunchAttempts d) (dlastTxBytes d) (dlastTxAt d).
Definition with_addrs (d : DiscoveredPeer) (local observed : UDPAddr) (cs : list UDPAddr) (ip : IP)
    : DiscoveredPeer :=
  MkDiscovered (dID d) (dPublicKey d) local observed cs
    (dNATType d) (dP2PCapable d) (dState d) (dEndpoint d) (dRelayPeer d) (dLastUsed d) (dLastSeen d)
    (dEstablishedAt d) ip (dPunchAttempts d) (dlastTxBytes d) (dlastTxAt d).
Definition with_nat (d : DiscoveredPeer) (nat : Z) (capable : bool) : DiscoveredPeer :=
  MkDiscovered (dID d) (dPublicKey d) (dLocalAddr d) (dObservedAddr d) (dCandidateAddrs d)
    nat capable (dState d) (dEndpoint d) (dRelayPeer d) (dLastUsed d) (dLastSeen d)
    (dEstablishedAt d) (dAssignedIP d) (dPunchAttempts d) (dlastTxBytes d) (dlastTxAt d).
Definition with_established (d : DiscoveredPeer) (now : Z) : DiscoveredPeer :=
  MkDiscovered (dID d) (dPublicKey d) (dLocalAddr d) (dObservedAddr d) (dCandidateAddrs d)
    (dNATType d) (dP2PCapable d) (dState d) (dEndpoint d) (dRelayPeer d) (dLastUsed d) (dLastSeen d)
    now (dAssignedIP d) (dPunchAttempts d) (dlastTxBytes d) (dlastTxAt d).
Definition with_tx (d : DiscoveredPeer) (tx at_ : Z) : DiscoveredPeer :=
  MkDiscovered (dID d) (dPublicKey d) (dLocalAddr d) (dObservedAddr d) (dCandidateAddrs d)
    (dNATType d) (dP2PCapable d) (dState d) (dEndpoint d) (dRelayPeer d) (dLastUsed d) (dLastSeen d)
    (dEstablishedAt d) (dAssignedIP d) (dPunchAttempts d) tx at_.

(** [c.peers[id]] and [c.sessions[id]], with the object they point to. *)
Definition get_peer (t : Tables) (id : Z) : option (Z * DiscoveredPeer) :=
  p ← peers t !! id; d ← pheap t !! p; Some (p, d).
Definition get_session (t : Tables) (id : Z) : option (Z * P2PSession) :=
  s ← sessions t !! id; x ← sheap t !! s; Some (s, x).

(** ** Sessions *)

Definition signalDone (t : Tables) (s : Z) : Tables :=
  match sheap t !! s with
  | None => t
  | Some x =>
      set_session t s
        (MkSession (TargetID x) (TargetPubKey x) (sLocalAddr x) (sObservedAddr x)
           (sCandidateAddrs x) (sAssignedIP x) (sNonce x) (Established x) (Promoting x) true
           (altNonce x) (hasAltNonce x) (createdAt x) (promotedAt x) (lastReply x))
  end.

Definition forget_nonce (m : gmap bytes Z) (nonce : bytes) (s : Z) : gmap bytes Z :=
  if bool_decide (m !! nonce = Some s) then delete nonce m else m.
Definition forgetSessionLocked (t : Tables) (peerID s : Z) : Tables :=
  match sheap t !! s with
  | None => t
  | Some x =>
      let ss := if bool_decide (sessions t !! peerID = Some s)
                then delete peerID (sessions t) else sessions t in
      let byNonce := forget_nonce (sessionByNonce t) (sNonce x) s in
      let byNonce := if hasAltNonce x then forget_nonce byNonce (altNonce x) s else byNonce in
      with_sessions t ss byNonce
  end.
Definition discardSessionLocked (t : Tables) (peerID : Z) : Tables :=
  match sessions t !! peerID with
  | None => t
  | Some s => signalDone (forgetSessionLocked t peerID s) s
  end.

(** ** Gates and indexes *)

Definition setRetryGateLocked (t : Tables) (p : Z) : Tables :=
  match pheap t !! p with
  | None => t
  | Some d =>
      match attemptGates t !! dID d with
      | None => t
      | Some g =>
          with_gheap t (<[g := UnixNano (dLastUsed d + p2pRetryDelay (dPunchAttempts d))]> (gheap t))
      end
  end.

(** [peer.State = Failed; peer.LastUsed = now; peer.PunchAttempts++] and the
    retry gate, the four statements every failure path runs. *)
Definition mark_failed (t : Tables) (p now : Z) : Tables :=
  match pheap t !! p with
  | None => t
  | Some d =>
      setRetryGateLocked
        (set_peer t p (with_used (with_state d P2PStateFailed) now (dPunchAttempts d + 1))) p
  end.

Definition ipv4Netip (ip : IP) : option bytes := To4 ip.

Definition new_gate (t : Tables) (id : Z) : Tables :=
  with_gates (with_nextRef (with_gheap t (<[nextRef t := 0]> (gheap t))) (nextRef t + 1))
    (<[id := nextRef t]> (attemptGates t)).

(** [if _, ok := c.attemptGates[id]; !ok { c.attemptGates[id] = new(atomic.Int64) }] *)
Definition ensure_gate (t : Tables) (id : Z) : Tables :=
  match attemptGates t !! id with None => new_gate t id | Some _ => t end.

(** The body of the loop of rebuildIndexesLocked for one peer. *)
Definition rebuild_step (acc : Tables * gmap bytes Z * gmap bytes (Z * Z)) (entry : Z * Z)
    : Tables * gmap bytes Z * gmap bytes (Z * Z) :=
  let '(t, keys, byIP) := acc in
  match pheap t !! entry.2 with
  | None => acc
  | Some d =>
      let keys := if IsZeroKey (dPublicKey d) then keys else <[dPublicKey d := dID d]> keys in
      if negb (dP2PCapable d) || state_is d P2PStateTrying || state_is d P2PStateEstablished
         || (negb (IsZeroKey (serverPeerKey t)) && key_eqb (dPublicKey d) (serverPeerKey t))
      then (t, keys, byIP)
      else
        match ipv4Netip (dAssignedIP d) with
        | None => (t, keys, byIP)
        | Some addr =>
            let t := ensure_gate t (dID d) in
            let gate := default 0 (attemptGates t !! dID d) in
            (t, keys, <[addr := (dID d, gate)]> byIP)
        end
  end.

(** [order] is the order in which Go ranges over the peer map; it is arbitrary
    ([is_order]) and can differ from call to call. *)
Definition is_order (order : gmap Z Z → list (Z * Z)) : Prop := ∀ m, order m ≡ₚ map_to_list m.

Definition rebuildIndexesLocked (order : gmap Z Z → list (Z * Z)) (t : Tables) : Tables :=
  let '(t, keys, byIP) := foldl rebuild_step (t, ∅, ∅) (order (peers t)) in
  with_destinations (with_keys t keys) byIP.

(** ** Peers *)

Definition udpAddrMoved (prev next : UDPAddr) : bool :=
  if (length (aIP prev) =? 0)%nat || IsUnspecified (aIP prev) || (aPort prev =? 0) then false
  else negb (IP_Equal (aIP prev) (aIP next)) || negb (aPort prev =? aPort next).

Definition renumberPeerLocked (t : Tables) (publicKey : bytes) (newID : Z) : Tables * bool :=
  if IsZeroKey publicKey then (t, false)
  else
    match peerKeyIndex t !! publicKey with
    | None => (t, false)
    | Some oldID =>
        if oldID =? newID then (t, false)
        else
          let old := get_peer t oldID in
          let t := with_keys t (delete publicKey (peerKeyIndex t)) in
          match old with
          | None => (t, false)
          | Some (p, d) =>
              if negb (key_eqb (dPublicKey d) publicKey) then (t, false)
              else
                let t := discardSessionLocked t oldID in
                let t := match peers t !! newID with
                         | Some _ => discardSessionLocked t newID
                         | None => t
                         end in
                let d := if state_is d P2PStateTrying then with_state d P2PStateDiscovered else d in
                let t := set_peer t p (with_id d newID) in
                let t := with_peers t (<[newID := p]> (delete oldID (peers t))) in
                let t := match attemptGates t !! oldID with
                         | Some g => with_gates t (delete oldID (<[newID := g]> (attemptGates t)))
                         | None => t
                         end in
                (with_keys t (<[publicKey := newID]> (peerKeyIndex t)), true)
          end
    end.

(** One iteration of the range loop, for the entry [id ↦ p]. *)
Definition forget_step (now : Z) (acc : Tables * bool) (entry : Z * Z) : Tables * bool :=
  let '(t, changed) := acc in
  match pheap t !! entry.2 with
  | None => acc
  | Some d =>
      if state_is d P2PStateTrying || state_is d P2PStateEstablished || IsZeroTime (dLastSeen d)
         || (Sub now (dLastSeen d) <=? p2pPeerForgetAfter) then acc
      else
        let t := discardSessionLocked t entry.1 in
        let t := with_peers t (delete entry.1 (peers t)) in
        (with_gates t (delete entry.1 (attemptGates t)), true)
  end.
Definition forgetUnlistedPeersLocked (order : gmap Z Z → list (Z * Z)) (t : Tables) (now : Z)
    : Tables * bool :=
  foldl (forget_step now) (t, false) (order (peers t)).

Definition failPunchSessionIfCurrentLocked (order : gmap Z Z → list (Z * Z)) (t : Tables)
    (peer session : option Z) (now : Z) : Tables * bool :=
  match peer, session with
  | Some p, Some s =>
      match pheap t !! p, sheap t !! s with
      | Some d, Some x =>
          if Established x || state_is d P2PStateEstablished then (t, false)
          else if negb (bool_decide (sessions t !! dID d = Some s)) then (t, false)
          else
            let t := mark_failed t p now in
            let t := forgetSessionLocked t (dID d) s in
            let t := signalDone t s in
            (rebuildIndexesLocked order t, true)
      | _, _ => (t, false)
      end
  | _, _ => (t, false)
  end.

Definition GetEndpoint (t : Tables) (peerID : Z) : option Endpoint :=
  match get_peer t peerID with
  | Some (_, d) => if state_is d P2PStateEstablished then dEndpoint d else None
  | None => None
  end.
Definition GetEndpointForPeer (t : Tables) (pk : bytes) : option Endpoint :=
  match peerKeyIndex t !! pk with Some peerID => GetEndpoint t peerID | None => None end.
End Tables.
