(* ===== verification/P2PClient.v ===== *)
(** * The P2P client

    The message handlers, the punch, promotion and maintenance loops of
    src/internal/device/wireguard-go/device/p2p_client.go, one definition per
    critical section of P2PClient.mu and per stretch of code between two of
    them, for a running client (its context not cancelled).

    The WireGuard device is on the other side of an interface: an operation
    takes the answers the device gives while it runs ([Device]) and returns the
    calls it makes ([Call]) in order. *)

From S2P Require Import Prelude GoStr NetAddr P2PMessage P2PNat P2PTables.

Section Client.
Context `{Env : P2PEnv}.

(** ** The device *)

(** The lines of a configuration passed to IpcSet; the allowed IP is a /32, the
    keepalive interval is 25 s. *)
Inductive ipc_line : Type :=
| IpcPublicKey (k : bytes)
| IpcUpdateOnly
| IpcReplaceAllowedIPs
| IpcEndpoint (e : Endpoint)
| IpcAllowedIP (ip : IP)
| IpcKeepalive.

Inductive Call : Type :=
| CSendControl (to : Peer) (packet : bytes)
| CBindSend (packet : bytes) (e : Endpoint)
| CIpcSet (conf : list ipc_line)
| CRemovePeer (k : bytes)
| CEnableRoaming (p : Peer)
| CSendKeepalive (p : Peer)
| CAddPeerRoute (ip : IP).

Record Device : Type := MkDevice
  { LookupPeer : bytes → option Peer; allowedips_Lookup : IP → option Peer;
    IpcSet_ok : list ipc_line → bool; endpointPeer : option Peer;
    lastHandshakeNano : Peer → Z; txBytes : Peer → Z; hasPeerRouteHandler : bool }.

(** ** Client state *)

(** A session is named by its reference in the session heap. *)
Record p2pPunchJob : Type := MkPunchJob
  { pjPeerID : Z; pjSession : Z; pjPacket : bytes; pjTargets : list Endpoint;
    pjSpray : list Endpoint; pjSweeps : Z }.
Record p2pPromotionJob : Type := MkPromotionJob
  { jPeerID : Z; jSession : Z; jPublicKey : bytes; jAssignedIP : IP; jEndpoint : Endpoint;
    jRelayPeer : option Peer; jStartedAt : Z }.
Inductive p2pControlEvent : Type :=
| EvMessage (m : P2PMessage)
| EvPunch (punch : bytes) (addr : UDPAddr).

Record Client : Type := MkClient
  { tb : Tables; myID : Z; cLocalAddr : UDPAddr; cObservedAddr : UDPAddr;
    registered : list UDPAddr; extraCandidates : option (list UDPAddr); reregister : bool;
    lastRegister : Z; spraying : bool; peerNames : gmap bytes bytes;
    controlQueue : list p2pControlEvent; attemptQueue : list Z; punchQueue : list p2pPunchJob;
    promotionQueue : list p2pPromotionJob; droppedControl : Z; droppedAttempts : Z }.

Definition with_tb (c : Client) (t : Tables) : Client :=
  MkClient t (myID c) (cLocalAddr c) (cObservedAddr c) (registered c) (extraCandidates c)
    (reregister c) (lastRegister c) (spraying c) (peerNames c) (controlQueue c) (attemptQueue c)
    (punchQueue c) (promotionQueue c) (droppedControl c) (droppedAttempts c).
Definition with_ack (c : Client) (id : Z) (observed : UDPAddr) : Client :=
  MkClient (tb c) id (cLocalAddr c) observed (registered c) (extraCandidates c)
    (reregister c) (lastRegister c) (spraying c) (peerNames c) (controlQueue c) (attemptQueue c)
    (punchQueue c) (promotionQueue c) (droppedControl c) (droppedAttempts c).
Definition with_registration (c : Client) (local : UDPAddr) (cands : list UDPAddr) (now : Z) : Client :=
  MkClient (tb c) (myID c) local (cObservedAddr c) cands (extraCandidates c)
    (reregister c) now (spraying c) (peerNames c) (controlQueue c) (attemptQueue c)
    (punchQueue c) (promotionQueue c) (droppedControl c) (droppedAttempts c).
Definition with_extra (c : Client) (extra : option (list UDPAddr)) (again : bool) : Client :=
  MkClient (tb c) (myID c) (cLocalAddr c) (cObservedAddr c) (registered c) extra
    again (lastRegister c) (spraying c) (peerNames c) (controlQueue c) (attemptQueue c)
    (punchQueue c) (promotionQueue c) (droppedControl c) (droppedAttempts c).
Definition with_spraying (c : Client) (b : bool) : Client :=
  MkClient (tb c) (myID c) (cLocalAddr c) (cObservedAddr c) (registered c) (extraCandidates c)
    (reregister c) (lastRegister c) b (peerNames c) (controlQueue c) (attemptQueue c)
    (punchQueue c) (promotionQueue c) (droppedControl c) (droppedAttempts c).
Definition with_names (c : Client) (m : gmap bytes bytes) : Client :=
  MkClient (tb c) (myID c) (cLocalAddr c) (cObservedAddr c) (registered c) (extraCandidates c)
    (reregister c) (lastRegister c) (spraying c) m (controlQueue c) (attemptQueue c)
    (punchQueue c) (promotionQueue c) (droppedControl c) (droppedAttempts c).
Definition with_control (c : Client) (q : list p2pControlEvent) (dropped : Z) : Client :=
  MkClient (tb c) (myID c) (cLocalAddr c) (cObservedAddr c) (registered c) (extraCandidates c)
    (reregister c) (lastRegister c) (spraying c) (peerNames c) q (attemptQueue c)
    (punchQueue c) (promotionQueue c) dropped (droppedAttempts c).
Definition with_attempts (c : Client) (q : list Z) (dropped : Z) : Client :=
  MkClient (tb c) (myID c) (cLocalAddr c) (cObservedAddr c) (registered c) (extraCandidates c)
    (reregister c) (lastRegister c) (spraying c) (peerNames c) (controlQueue c) q
    (punchQueue c) (promotionQueue c) (droppedControl c) dropped.
Definition with_jobs (c : Client) (pq : list p2pPunchJob) (mq : list p2pPromotionJob) : Client :=
  MkClient (tb c) (myID c) (cLocalAddr c) (cObservedAddr c) (registered c) (extraCandidates c)
    (reregister c) (lastRegister c) (spraying c) (peerNames c) (controlQueue c) (attemptQueue c)
    pq mq (droppedControl c) (droppedAttempts c).

(** NewP2PClient. *)
Definition empty_tables (serverKey : bytes) : Tables :=
  MkTables ∅ ∅ ∅ 0 ∅ ∅ ∅ ∅ ∅ ∅ serverKey.
Definition NewP2PClient (serverKey : bytes) : Client :=
  MkClient (empty_tables serverKey) 0 no_addr no_addr [] None false 0 false ∅ [] [] [] [] 0 0.

(** ** Bounded queues: a send that would block is dropped *)

Definition enqueue_control (c : Client) (e : p2pControlEvent) : Client * bool :=
  if (length (controlQueue c) <? p2pControlQueueSize)%nat
  then (with_control c (controlQueue c ++ [e]) (droppedControl c), true)
  else (with_control c (controlQueue c) (u64 (droppedControl c + 1)), false).
Definition EnqueueMessage (c : Client) (m : P2PMessage) : Client * bool :=
  enqueue_control c (EvMessage m).
Definition EnqueuePunch (c : Client) (packet : bytes) (addr : UDPAddr) : Client * bool :=
  if negb (length packet =? 41)%nat then (c, false)
  else enqueue_control c (EvPunch packet (normalizeUDPAddr addr)).
Definition queueP2PAttempt (c : Client) (peerID : Z) : Client * bool :=
  if (length (attemptQueue c) <? p2pAttemptQueueSize)%nat
  then (with_attempts c (attemptQueue c ++ [peerID]) (droppedAttempts c), true)
  else (with_attempts c (attemptQueue c) (u64 (droppedAttempts c + 1)), false).
Definition enqueuePunchJob (c : Client) (job : p2pPunchJob) : Client * bool :=
  if (length (punchQueue c) <? p2pPunchQueueSize)%nat
  then (with_jobs c (punchQueue c ++ [job]) (promotionQueue c), true)
  else (c, false).
Definition enqueuePromotion (c : Client) (job : p2pPromotionJob) : Client * bool :=
  if (length (promotionQueue c) <? p2pPromotionQueueSize)%nat
  then (with_jobs c (punchQueue c) (promotionQueue c ++ [job]), true)
  else (c, false).

(** ** Messages to the coordinator *)

Definition zeros (n : nat) : bytes := replicate n (z2b 0).
Definition client_message (subtype target : Z) (payload : bytes) : P2PMessage :=
  MkP2PMessage subtype myPublicKey (zeros 16) 0 (zeros 16) 0 target (zeros 8) payload.

Definition sendToServer (dev : Device) (c : Client) (msg : P2PMessage) : Client * list Call :=
  let serverKey := serverPeerKey (tb c) in
  match (if IsZeroKey serverKey then None else LookupPeer dev serverKey) with
  | Some serverPeer => (c, [CSendControl serverPeer (P2PMessage_Encode msg)])
  | None =>
      match endpointPeer dev with
      | None => (c, [])
      | Some serverPeer =>
          ((if IsZeroKey serverKey then with_tb c (with_server (tb c) (remoteStatic serverPeer)) else c),
           [CSendControl serverPeer (P2PMessage_Encode msg)])
      end
  end.

Definition isCoordinatorPeer (c : Client) (peer : option Peer) : bool :=
  match peer with
  | None => false
  | Some p => negb (IsZeroKey (serverPeerKey (tb c))) && key_eqb (serverPeerKey (tb c)) (remoteStatic p)
  end.

Definition requestPeerList (dev : Device) (c : Client) : Client * list Call :=
  sendToServer dev c (client_message P2PSubtypePeerList 0 []).

Definition SetExtraCandidates (c : Client) (addrs : list UDPAddr) : Client :=
  with_extra c (Some addrs) true.

(** [collected] is the result of collectLocalCandidates, read from the operating
    system's interfaces; [port] the device's listen port. *)
Definition register (dev : Device) (c : Client) (collected : list UDPAddr) (port now : Z)
    : Client * list Call :=
  let candidates := foldl (fun out a => appendPunchCandidate out a []) collected
                      (default [] (extraCandidates c)) in
  let localAddr := match candidates with a :: _ => a | [] => MkUDPAddr IPv4zero port end in
  let c := with_registration c localAddr candidates (UnixNano now) in
  sendToServer dev c
    (SetLocalAddr (client_message P2PSubtypeRegister 0 (EncodeP2PCandidatePayload candidates)) localAddr).

Definition registerDue (c : Client) (now : Z) : Client * bool :=
  if myID c =? 0 then (c, true)
  else if reregister c then (with_extra c (extraCandidates c) false, true)
  else (c, p2pReregisterInterval <=? Sub now (lastRegister c)).

(** ** Messages from the coordinator *)

Definition handleRegisterAck (dev : Device) (c : Client) (msg : P2PMessage) : Client * list Call :=
  requestPeerList dev (with_ack c (mTargetID msg) (normalizeUDPAddr (ObservedAddr msg))).

Fixpoint names_loop (count : nat) (rest : bytes) (names : gmap bytes bytes) : gmap bytes bytes :=
  match count with
  | O => names
  | S count =>
      if p2pMaxPeerListEntries <? Z.of_nat (size names) then names
      else if (length rest <? 33)%nat then names
      else
        let key := take 32 rest in
        let n := Z.to_nat (be_get (slice 32 33 rest)) in
        let rest := drop 33 rest in
        if (length rest <? n)%nat then names
        else
          let name := TrimSpace (ToValidUTF8 (take n rest)) in
          let rest := drop n rest in
          if IsZeroKey key then names_loop count rest names
          else if (length name =? 0)%nat then names_loop count rest (delete key names)
          else names_loop count rest (<[key := name]> names)
  end.
Definition handlePeerNames (c : Client) (msg : P2PMessage) : Client :=
  let payload := Payload msg in
  if (length payload <? 2)%nat then c
  else with_names c (names_loop (Z.to_nat (be_get (take 2 payload))) (drop 2 payload) (peerNames c)).
Definition PeerName (c : Client) (key : bytes) : bytes := default [] (peerNames c !! key).

(** One 78-byte entry of a peer list. *)
Record list_entry : Type := MkEntry
  { leID : Z; leKey : bytes; leLocal : UDPAddr; leObserved : UDPAddr; leNAT : Z; leCapable : bool;
    leAssigned : IP }.
Definition read_entry (e : bytes) : list_entry :=
  MkEntry (be_get (slice 0 4 e)) (slice 4 36 e)
    (normalizeUDPAddr (MkUDPAddr (slice 36 52 e) (be_get (slice 52 54 e))))
    (normalizeUDPAddr (MkUDPAddr (slice 54 70 e) (be_get (slice 70 72 e))))
    (be_get (slice 72 73 e)) (be_get (slice 73 74 e) =? 1) (slice 74 78 e).
Fixpoint read_entries (count : nat) (data : bytes) : list list_entry :=
  match count with
  | O => []
  | S count => read_entry (take 78 data) :: read_entries count (drop 78 data)
  end.

Definition active (d : DiscoveredPeer) : bool :=
  state_is d P2PStateTrying || state_is d P2PStateEstablished.

(** The guard against a recycled ID replacing an active session. *)
Definition recycled (t : Tables) (e : list_entry) : bool :=
  match get_peer t (leID e) with
  | Some (_, d) =>
      negb (IsZeroKey (dPublicKey d)) && negb (IsZeroKey (leKey e))
      && negb (key_eqb (dPublicKey d) (leKey e)) && active d
  | None => false
  end.

(** [c.peers[id]], or a fresh entry put there. *)
Definition find_or_new (t : Tables) (id : Z) (d0 : DiscoveredPeer) : Tables * Z * DiscoveredPeer * bool :=
  match get_peer t id with
  | Some (p, d) => (t, p, d, true)
  | None =>
      let p := nextRef t in
      (set_peer (with_peers (with_nextRef t (p + 1)) (<[id := p]> (peers t))) p d0, p, d0, false)
  end.

Definition list_step (now : Z) (acc : Tables * bool * list Z) (e : list_entry)
    : Tables * bool * list Z :=
  let '(t, renumbered, retry) := acc in
  if recycled t e then acc
  else
    let '(t, moved) := renumberPeerLocked t (leKey e) (leID e) in
    let '(t, p, d, ok) := find_or_new t (leID e) (with_used (new_peer (leID e) false) now 0) in
    let again := ok && state_is d P2PStateFailed && udpAddrMoved (dObservedAddr d) (leObserved e) in
    let t := if again
             then match attemptGates t !! leID e with
                  | Some g => with_gheap t (<[g := 0]> (gheap t))
                  | None => t
                  end
             else t in
    let d := if again then with_used (with_state d P2PStateDiscovered) (dLastUsed d) 0 else d in
    let d := with_addrs (with_key d (leKey e)) (leLocal e) (leObserved e) (dCandidateAddrs d)
               (leAssigned e) in
    let t := set_peer t p (with_seen (with_nat d (leNAT e) (leCapable e)) now) in
    let t := ensure_gate t (leID e) in
    let t := if IsZeroKey (leKey e) then t
             else with_keys t (<[leKey e := leID e]> (peerKeyIndex t)) in
    (t, renumbered || moved, if again then retry ++ [leID e] else retry).

Definition peer_list_tables (order : gmap Z Z → list (Z * Z)) (t : Tables) (now : Z)
    (es : list list_entry) : Tables * bool * list Z :=
  let '(t, renumbered, retry) := foldl (list_step now) (t, false, []) es in
  (rebuildIndexesLocked order t, renumbered, retry).

Definition handlePeerList (order : gmap Z Z → list (Z * Z)) (c : Client) (now : Z) (msg : P2PMessage)
    : Client :=
  let payload := Payload msg in
  if (length payload <? 4)%nat then c
  else
    let count := be_get (take 4 payload) in
    if (p2pMaxPeerListEntries <? count) || (Z.of_nat (length payload) <? 4 + count * 78) then c
    else
      let es := read_entries (Z.to_nat count) (drop 4 payload) in
      let '(t, renumbered, retry) := peer_list_tables order (tb c) now es in
      let c := with_tb c t in
      let c := if renumbered then with_extra c (extraCandidates c) true else c in
      foldl (fun c id => (queueP2PAttempt c id).1) c retry.
(** ** Starting an attempt *)

(** The packet path's trigger.  Another goroutine winning the CompareAndSwap
    makes this one return without effect, which is the case of a later gate. *)
Definition ObserveDestination (c : Client) (now : Z) (dst : bytes) : Client :=
  if negb ((length dst =? 4)%nat || (length dst =? 16)%nat) then c
  else
    match destinations (tb c) !! dst with
    | None => c
    | Some (peerID, g) =>
        let next := default 0 (gheap (tb c) !! g) in
        if UnixNano now <? next then c
        else
          let set_gate c v := with_tb c (with_gheap (tb c) (<[g := v]> (gheap (tb c)))) in
          let c := set_gate c (UnixNano (now + p2pAttemptGateInterval)) in
          let '(c, queued) := queueP2PAttempt c peerID in
          if queued then c else set_gate c (UnixNano now)
    end.

(** The critical section: the answer, and whether to send the request. *)
Definition try_locked (order : gmap Z Z → list (Z * Z)) (t : Tables) (now peerID : Z)
    : Tables * bool * bool :=
  match get_peer t peerID with
  | None => (t, false, false)
  | Some (p, d) =>
      if negb (dP2PCapable d) || IsZeroKey (dPublicKey d)
         || match To4 (dAssignedIP d) with Some _ => false | None => true end
         || key_eqb (dPublicKey d) (serverPeerKey t) then (t, false, false)
      else if active d then (t, true, false)
      else
        let retryAt := dLastUsed d + p2pRetryDelay (dPunchAttempts d) in
        if state_is d P2PStateFailed && (now <? retryAt) then
          (match attemptGates t !! dID d with
           | Some g => with_gheap t (<[g := UnixNano retryAt]> (gheap t))
           | None => t
           end, false, false)
        else
          (rebuildIndexesLocked order
             (set_peer t p (with_used (with_state d P2PStateTrying) now (dPunchAttempts d))),
           true, true)
  end.
Definition tryP2PByID (order : gmap Z Z → list (Z * Z)) (dev : Device) (c : Client) (now peerID : Z)
    : Client * bool * list Call :=
  let '(t, result, request) := try_locked order (tb c) now peerID in
  let c := with_tb c t in
  if request : bool then
    let '(c, calls) := sendToServer dev c (client_message P2PSubtypePunchRequest peerID []) in
    (c, result, calls)
  else (c, result, []).

(** ** Leaving a direct path *)

Record p2pDirectTeardown : Type := MkTeardown
  { tdKey : bytes; tdAssignedIP : IP; tdRelayPeer : option Peer }.

Definition relayPeerForIP (dev : Device) (t : Tables) (ip : IP) : option Peer :=
  match (if IsZeroKey (serverPeerKey t) then None else LookupPeer dev (serverPeerKey t)) with
  | Some serverPeer => Some serverPeer
  | None => match To4 ip with Some ip4 => allowedips_Lookup dev ip4 | None => None end
  end.

Definition restoreRelayRoute (dev : Device) (ip : IP) (relayPeer : option Peer) : list Call :=
  match relayPeer, To4 ip with
  | Some r, Some ip4 =>
      if IP_Equal ip IPv4zero then []
      else if negb (bool_decide (LookupPeer dev (remoteStatic r) = Some r)) then []
      else [CIpcSet [IpcPublicKey (remoteStatic r); IpcAllowedIP ip4]]
  | _, _ => []
  end.

Definition teardownDirect (dev : Device) (t : Tables) (d : p2pDirectTeardown) : list Call :=
  if IsZeroKey (tdKey d) then []
  else
    let relayPeer := match tdRelayPeer d with
                     | Some r => Some r
                     | None => relayPeerForIP dev t (tdAssignedIP d)
                     end in
    CRemovePeer (tdKey d) :: restoreRelayRoute dev (tdAssignedIP d) relayPeer.

(** ** Punch relays *)

(** What the critical section of handlePunchRelay hands to the code after it. *)
Record relay_punch : Type := MkRelay
  { rpPeer : Z; rpSession : Z; rpTarget : Z; rpAttempts : Z; rpTeardown : option p2pDirectTeardown }.

Definition join_session (t : Tables) (s : Z) (x : P2PSession) (nonce : bytes) : Tables :=
  if negb (bool_decide (sNonce x = nonce)) && negb (hasAltNonce x && bool_decide (altNonce x = nonce))
  then
    let byNonce := if hasAltNonce x then delete (altNonce x) (sessionByNonce t) else sessionByNonce t in
    with_sessions
      (set_session t s
         (MkSession (TargetID x) (TargetPubKey x) (sLocalAddr x) (sObservedAddr x)
            (sCandidateAddrs x) (sAssignedIP x) (sNonce x) (Established x) (Promoting x) (sdone x)
            nonce true (createdAt x) (promotedAt x) (lastReply x)))
      (sessions t) (<[nonce := s]> byNonce)
  else t.

Definition relay_assigned (payload : bytes) (ip : IP) : IP :=
  if (4 <=? length payload)%nat && negb (IP_Equal (take 4 payload) IPv4zero) then take 4 payload else ip.

(** The new session replaces the one of the target. *)
Definition start_session (t : Tables) (x : P2PSession) : Tables * Z :=
  let s := nextRef t in
  let t := set_session (with_nextRef t (s + 1)) s x in
  let t := discardSessionLocked t (TargetID x) in
  (with_sessions t (<[TargetID x := s]> (sessions t)) (<[sNonce x := s]> (sessionByNonce t)), s).

(** From [if peer.State == P2PStateEstablished] on, for the peer [p ↦ d]. *)
Definition relay_peer (order : gmap Z Z → list (Z * Z)) (t : Tables) (now : Z) (msg : P2PMessage)
    (p : Z) (d : DiscoveredPeer) : Tables * option relay_punch :=
  let k := PublicKey msg in
  let target := mTargetID msg in
  let established := state_is d P2PStateEstablished in
  if established && ((Sub now (dEstablishedAt d) <? p2pEstablishedRelayGrace)
                     || (negb (IsZeroKey k) && negb (key_eqb (dPublicKey d) k)))
  then (set_peer t p d, None)
  else
    let teardown := if established
                    then Some (MkTeardown (dPublicKey d) (dAssignedIP d) (dRelayPeer d)) else None in
    let d := if established then with_state (with_link d None None) P2PStateTrying else d in
    let mismatch := negb (IsZeroKey k) && negb (IsZeroKey (dPublicKey d))
                    && negb (key_eqb (dPublicKey d) k) in
    let d := if negb (IsZeroKey k) && IsZeroKey (dPublicKey d) then with_key d k else d in
    if mismatch || IsZeroKey (dPublicKey d)
       || (negb (IsZeroKey (serverPeerKey t)) && key_eqb (dPublicKey d) (serverPeerKey t))
    then (rebuildIndexesLocked order (mark_failed (set_peer t p d) p now), None)
    else
      let current := match get_session t target with
                     | Some (s, x) =>
                         if negb established && (Sub now (createdAt x) <? p2pNonceGrace)
                            && key_eqb (TargetPubKey x) (dPublicKey d)
                         then Some (s, x) else None
                     | None => None
                     end in
      match current with
      | Some (s, x) =>
          (set_peer (join_session t s x (mNonce msg)) p (with_used d now (dPunchAttempts d)), None)
      | None =>
          let ip := relay_assigned (Payload msg) (dAssignedIP d) in
          let cands := sanitizePunchTargets (DecodeP2PCandidatePayload (Payload msg) 4) ip in
          let d := with_addrs d (normalizeUDPAddr (LocalAddr msg))
                     (normalizeUDPAddr (ObservedAddr msg)) cands ip in
          let d := with_state (with_used d now (dPunchAttempts d)) P2PStateTrying in
          let '(t, s) := start_session (set_peer t p d)
            (MkSession target (dPublicKey d) (dLocalAddr d) (dObservedAddr d) cands ip (mNonce msg)
               false false false (zeros 8) false now zero_time zero_time) in
          let t := with_keys t (<[dPublicKey d := target]> (peerKeyIndex t)) in
          (rebuildIndexesLocked order t,
           Some (MkRelay p s target (dPunchAttempts d) teardown))
      end.

Definition relay_locked (order : gmap Z Z → list (Z * Z)) (t : Tables) (now : Z) (msg : P2PMessage)
    : Tables * option relay_punch :=
  let k := PublicKey msg in
  let target := mTargetID msg in
  let rename := negb (IsZeroKey k)
                && match get_peer t target with
                   | None => true
                   | Some (_, d) => IsZeroKey (dPublicKey d) || key_eqb (dPublicKey d) k
                   end in
  let t := if rename then (renumberPeerLocked t k target).1 else t in
  let '(t, p, d, _) := find_or_new t target (new_peer target true) in
  relay_peer order t now msg p (with_seen d now).

Definition selfNATLocked (c : Client) : natClass :=
  classifyNAT (cObservedAddr c) (cLocalAddr c) (registered c).

(** ** Punch packets *)

(** [nil] is the empty packet. *)
Definition makePunchPacket (x : P2PSession) : bytes :=
  if IsZeroKey (TargetPubKey x) then []
  else match sharedSecret (TargetPubKey x) with
       | None => []
       | Some ss => z2b P2PSubtypePunchPacket :: sNonce x ++ blake2s256 ss (sNonce x)
       end.
Definition outer_packet (raw : bytes) : bytes := le_put 4 MessageP2PType ++ raw.
Definition makeOuterPunchPacket (x : P2PSession) : bytes :=
  match makePunchPacket x with [] => [] | raw => outer_packet raw end.

Definition verifyPunchMAC (packet targetPubKey : bytes) : bool :=
  if negb (length packet =? 41)%nat || negb (be_get (take 1 packet) =? P2PSubtypePunchPacket) then false
  else match sharedSecret targetPubKey with
       | None => false
       | Some ss => bool_decide (blake2s256 ss (slice 1 9 packet) = drop 9 packet)
       end.
Definition verifyPunchPacket (packet : bytes) (x : P2PSession) : bool :=
  if negb (length packet =? 41)%nat || negb (be_get (take 1 packet) =? P2PSubtypePunchPacket) then false
  else if negb (acceptsNonce x (slice 1 9 packet)) then false
  else verifyPunchMAC packet (TargetPubKey x).

Definition parsePunchTargets (targets : list UDPAddr) : list Endpoint := omap ParseEndpoint targets.

(** The rest of handlePunchRelay: leave the direct path, plan, queue the job.
    The result says whether the job could not be scheduled. *)
Definition relay_schedule (dev : Device) (c : Client) (self : natClass) (r : relay_punch)
    : Client * bool * list Call :=
  let calls := match rpTeardown r with Some td => teardownDirect dev (tb c) td | None => [] end in
  match sheap (tb c) !! rpSession r with
  | None => (c, false, calls)
  | Some x =>
      let plan := planPunch x self (rpAttempts r) in
      let job := MkPunchJob (rpTarget r) (rpSession r) (makeOuterPunchPacket x)
                   (parsePunchTargets (plTargets plan)) (parsePunchTargets (plSpray plan))
                   (plSweeps plan) in
      if (length (pjPacket job) =? 0)%nat || (length (pjTargets job) =? 0)%nat then (c, true, calls)
      else let '(c, queued) := enqueuePunchJob c job in (c, negb queued, calls)
  end.

(** The whole handler, when nothing interleaves. *)
Definition handlePunchRelay (order : gmap Z Z → list (Z * Z)) (dev : Device) (c : Client) (now : Z)
    (msg : P2PMessage) : Client * list Call :=
  let self := selfNATLocked c in
  let '(t, r) := relay_locked order (tb c) now msg in
  let c := with_tb c t in
  match r with
  | None => (c, [])
  | Some r =>
      let '(c, failed, calls) := relay_schedule dev c self r in
      if failed : bool then
        (with_tb c (failPunchSessionIfCurrentLocked order (tb c) (Some (rpPeer r))
                      (Some (rpSession r)) now).1, calls)
      else (c, calls)
  end.

Definition HandleMessage (order : gmap Z Z → list (Z * Z)) (dev : Device) (c : Client) (now : Z)
    (msg : P2PMessage) : Client * list Call :=
  if Subtype msg =? P2PSubtypeRegisterAck then handleRegisterAck dev c msg
  else if Subtype msg =? P2PSubtypePeerList then (handlePeerList order c now msg, [])
  else if Subtype msg =? P2PSubtypePunchRelay then handlePunchRelay order dev c now msg
  else if Subtype msg =? P2PSubtypePeerNames then (handlePeerNames c msg, [])
  else (c, []).
(** ** Authenticated punches *)

(** The lookup under the read lock, the MAC check and the endpoint: the session
    the packet belongs to. *)
Definition punch_lookup (t : Tables) (packet : bytes) (addr : UDPAddr) : option (Z * Endpoint) :=
  if negb (length packet =? 41)%nat || negb (be_get (take 1 packet) =? P2PSubtypePunchPacket) then None
  else
    let nonce := slice 1 9 packet in
    s ← sessionByNonce t !! nonce;
    x ← sheap t !! s;
    if bool_decide (sessions t !! TargetID x = Some s) && acceptsNonce x nonce then
      _ ← get_peer t (TargetID x);
      if verifyPunchMAC packet (TargetPubKey x) then
        e ← ParseEndpoint addr;
        Some (s, e)
      else None
    else None.

(** The second critical section: whether to answer, and the promotion to start. *)
Definition punch_locked (t : Tables) (now s : Z) (e : Endpoint)
    : Tables * bool * option p2pPromotionJob :=
  match sheap t !! s with
  | None => (t, false, None)
  | Some x =>
      match get_peer t (TargetID x) with
      | None => (t, false, None)
      | Some (p, d) =>
          if negb (bool_decide (sessions t !! TargetID x = Some s)) || state_is d P2PStateEstablished
          then (t, false, None)
          else
            let t := set_peer t p (with_used d now (dPunchAttempts d)) in
            let reply := p2pPunchReplyInterval <=? Sub now (lastReply x) in
            let start := negb (Promoting x) in
            let t := set_session t s
              (MkSession (TargetID x) (TargetPubKey x) (sLocalAddr x) (sObservedAddr x)
                 (sCandidateAddrs x) (sAssignedIP x) (sNonce x)
                 (if start then true else Established x) (if start then true else Promoting x)
                 (sdone x) (altNonce x) (hasAltNonce x) (createdAt x)
                 (if start then now else promotedAt x) (if reply then now else lastReply x)) in
            (t, reply,
             if start
             then Some (MkPromotionJob (dID d) s (dPublicKey d) (dAssignedIP d) e None now)
             else None)
      end
  end.

Definition initiatesHandshake (remote : bytes) : bool :=
  bytes_leb myPublicKey remote && negb (key_eqb myPublicKey remote).

(** [true] is the nil error. *)
Definition prepareDirectPeer (dev : Device) (t : Tables) (pubKey : bytes) (assignedIP : IP)
    (e : Endpoint) : bool * list Call :=
  if IsZeroKey pubKey || match To4 assignedIP with Some _ => false | None => true end
     || IP_Equal assignedIP IPv4zero then (false, [])
  else if negb (IsZeroKey (serverPeerKey t)) && key_eqb pubKey (serverPeerKey t) then (false, [])
  else
    let initiate := initiatesHandshake pubKey in
    let conf := [IpcPublicKey pubKey; IpcReplaceAllowedIPs; IpcEndpoint e]
                ++ (if initiate then [IpcKeepalive] else []) in
    if negb (IpcSet_ok dev conf) then (false, [CIpcSet conf])
    else (true, CIpcSet conf ::
            match LookupPeer dev pubKey with
            | Some wgPeer => CEnableRoaming wgPeer :: (if initiate then [CSendKeepalive wgPeer] else [])
            | None => []
            end).

(** The rest of HandlePunch after the second critical section: the answer, the
    WireGuard candidate and the queue; [true] when the promotion fails here. *)
Definition punch_reply (reply : bool) (packet : bytes) (e : Endpoint) : list Call :=
  if reply then [CBindSend (outer_packet packet) e] else [].
Definition punch_prepare (dev : Device) (c : Client) (job : p2pPromotionJob)
    : Client * p2pPromotionJob * bool * list Call :=
  let job := MkPromotionJob (jPeerID job) (jSession job) (jPublicKey job) (jAssignedIP job)
               (jEndpoint job) (relayPeerForIP dev (tb c) (jAssignedIP job)) (jStartedAt job) in
  let '(ok, calls) := prepareDirectPeer dev (tb c) (jPublicKey job) (jAssignedIP job) (jEndpoint job) in
  if negb ok then (c, job, true, calls)
  else let '(c, queued) := enqueuePromotion c job in (c, job, negb queued, calls).

(** ** Promotion *)

(** The critical section of failDirectPromotion and the signalDone after it. *)
Definition fail_promotion_locked (order : gmap Z Z → list (Z * Z)) (t : Tables) (now : Z)
    (job : p2pPromotionJob) : Tables * bool :=
  let '(t, removeCandidate) :=
    match get_peer t (jPeerID job) with
    | Some (p, d) =>
        if bool_decide (sessions t !! jPeerID job = Some (jSession job))
           && negb (state_is d P2PStateEstablished)
        then (rebuildIndexesLocked order
                (forgetSessionLocked (mark_failed t p now) (jPeerID job) (jSession job)), true)
        else (t, false)
    | None => (t, false)
    end in
  (signalDone t (jSession job), removeCandidate).

Definition owned_by (t : Tables) (id : Z) : bool :=
  match sessions t !! id with
  | Some _ => true
  | None => match get_peer t id with Some (_, d) => state_is d P2PStateEstablished | None => false end
  end.
Definition dropOrphanCandidate (dev : Device) (t : Tables) (job : p2pPromotionJob) : list Call :=
  if IsZeroKey (jPublicKey job) then []
  else
    let owned := owned_by t (jPeerID job)
                 || match peerKeyIndex t !! jPublicKey job with
                    | Some id => negb (id =? jPeerID job) && owned_by t id
                    | None => false
                    end in
    if owned then []
    else CRemovePeer (jPublicKey job) :: restoreRelayRoute dev (jAssignedIP job) (jRelayPeer job).

Definition failDirectPromotion (order : gmap Z Z → list (Z * Z)) (dev : Device) (c : Client) (now : Z)
    (job : p2pPromotionJob) : Client * list Call :=
  let '(t, removeCandidate) := fail_promotion_locked order (tb c) now job in
  (with_tb c t,
   if removeCandidate && negb (IsZeroKey (jPublicKey job))
   then CRemovePeer (jPublicKey job) :: restoreRelayRoute dev (jAssignedIP job) (jRelayPeer job)
   else dropOrphanCandidate dev t job).

(** The whole of HandlePunch, when nothing interleaves. *)
Definition HandlePunch (order : gmap Z Z → list (Z * Z)) (dev : Device) (c : Client) (now : Z)
    (packet : bytes) (addr : UDPAddr) : Client * list Call :=
  match punch_lookup (tb c) packet addr with
  | None => (c, [])
  | Some (s, e) =>
      let '(t, reply, job) := punch_locked (tb c) now s e in
      let c := with_tb c t in
      match job with
      | None => (c, punch_reply reply packet e)
      | Some job =>
          let '(c, job, failed, calls) := punch_prepare dev c job in
          if failed : bool then
            let '(c, calls') := failDirectPromotion order dev c now job in
            (c, punch_reply reply packet e ++ calls ++ calls')
          else (c, punch_reply reply packet e ++ calls)
      end
  end.

(** [true] is the nil error. *)
Definition activateDirectPeer (dev : Device) (pubKey : bytes) (assignedIP : IP) : bool * list Call :=
  match To4 assignedIP with
  | None => (false, [])
  | Some ip4 =>
      if IP_Equal assignedIP IPv4zero then (false, [])
      else
        let conf := [IpcPublicKey pubKey; IpcAllowedIP ip4; IpcKeepalive] in
        if IpcSet_ok dev conf
        then (true, CIpcSet conf :: (if hasPeerRouteHandler dev then [CAddPeerRoute ip4] else []))
        else (false, [CIpcSet conf])
  end.

(** A tick of validateAndPromote: wait (with the [initiate] flag of the next
    tick), give up a superseded promotion, or activate. *)
Inductive poll_result : Type :=
| PollWait (initiate : bool)
| PollObsolete
| PollFresh (handshake : Z).
Definition validate_poll (dev : Device) (t : Tables) (job : p2pPromotionJob) (initiate : bool) (now : Z)
    : poll_result * list Call :=
  let waiting wgPeer :=
    if negb initiate && wgPeer && (jStartedAt job + p2pResponderFallback <? now)
    then (PollWait true, [CIpcSet [IpcPublicKey (jPublicKey job); IpcUpdateOnly; IpcKeepalive]])
    else (PollWait initiate, []) in
  match LookupPeer dev (jPublicKey job) with
  | None => waiting false
  | Some wgPeer =>
      if lastHandshakeNano dev wgPeer <? UnixNano (jStartedAt job) then waiting true
      else
        let current := match get_peer t (jPeerID job) with
                       | Some (_, d) => state_is d P2PStateTrying
                                        && bool_decide (sessions t !! jPeerID job = Some (jSession job))
                       | None => false
                       end in
        (if current then PollFresh (lastHandshakeNano dev wgPeer) else PollObsolete, [])
  end.

(** The critical section after the activation; [true] when the session was
    replaced meanwhile. *)
Definition promote_locked (order : gmap Z Z → list (Z * Z)) (t : Tables) (now : Z)
    (job : p2pPromotionJob) : Tables * bool :=
  let '(t, obsolete) :=
    match get_peer t (jPeerID job) with
    | Some (p, d) =>
        if state_is d P2PStateTrying && bool_decide (sessions t !! jPeerID job = Some (jSession job))
        then
          let d := with_link (with_state d P2PStateEstablished) (Some (jEndpoint job)) (jRelayPeer job) in
          let d := with_used (with_established d now) now 0 in
          (rebuildIndexesLocked order
             (forgetSessionLocked (set_peer t p d) (jPeerID job) (jSession job)), false)
        else (t, true)
    | None => (t, true)
    end in
  (signalDone t (jSession job), obsolete).
Definition promote_after (dev : Device) (obsolete : bool) (job : p2pPromotionJob) : list Call :=
  if obsolete then CRemovePeer (jPublicKey job) :: restoreRelayRoute dev (jAssignedIP job) (jRelayPeer job)
  else [].

(** ** The punch loop *)

Record punch_loop : Type := MkLoop
  { lpJob : p2pPunchJob; lpDeadline : Z; lpRound : Z; lpSpray : punchSpray }.
Definition holePunch_start (job : p2pPunchJob) (start : Z) : punch_loop :=
  MkLoop job (start + p2pPunchTimeout) 0
    (newPunchSpray (Z.of_nat (length (pjSpray job))) (pjSweeps job) start).
(** Return from the loop: the deferred release. *)
Definition holePunch_return (c : Client) (lp : punch_loop) : Client :=
  with_spraying c (spray_release (spraying c) (lpSpray lp)).1.

Definition send_all (packet : bytes) (targets : list Endpoint) : list Call :=
  CBindSend packet <$> targets.

(** The sending half of a round, for the session [x]. *)
Definition punch_send (c : Client) (lp : punch_loop) (x : P2PSession) (deadline now : Z)
    : Client * option punch_loop * list Call :=
  let job := lpJob lp in
  let calls := send_all (pjPacket job) (pjTargets job) in
  if (length (pjSpray job) =? 0)%nat
  then (c, Some (MkLoop job deadline (lpRound lp + 1) (lpSpray lp)), calls)
  else
    let '(limiter, spray, (lo, hi)) := spray_step now (Promoting x) (spraying c) (lpSpray lp) in
    (with_spraying c limiter, Some (MkLoop job deadline (lpRound lp + 1) spray),
     calls ++ send_all (pjPacket job) (slice (Z.to_nat lo) (Z.to_nat hi) (pjSpray job))).

(** One round, once the timer fired; [None] when the loop returns. *)
Definition holePunch_round (order : gmap Z Z → list (Z * Z)) (c : Client) (lp : punch_loop) (now : Z)
    : Client * option punch_loop * list Call :=
  let job := lpJob lp in
  match sheap (tb c) !! pjSession job with
  | None => (holePunch_return c lp, None, [])
  | Some x =>
      if lpDeadline lp <? now then
        if Promoting x then
          let deadline := promotedAt x + (p2pHandshakeTimeout + second) in
          if deadline <? now then (holePunch_return c lp, None, [])
          else punch_send c lp x deadline now
        else
          let t := (failPunchSessionIfCurrentLocked order (tb c) (peers (tb c) !! pjPeerID job)
                      (Some (pjSession job)) now).1 in
          (holePunch_return (with_tb c t) lp, None, [])
      else punch_send c lp x (lpDeadline lp) now
  end.

(** ** Maintenance *)

Definition directKeepaliveDue (d : DiscoveredPeer) (tx now : Z) : DiscoveredPeer * bool :=
  if negb (tx =? dlastTxBytes d) || IsZeroTime (dlastTxAt d) then (with_tx d tx now, false)
  else if Sub now (dlastTxAt d) <? p2pDirectKeepalive then (d, false)
  else (with_tx d (dlastTxBytes d) now, true).

Record maint_acc : Type := MkMaint
  { maT : Tables; maChanged : bool; maRemove : list p2pDirectTeardown; maKeepalive : list Peer }.
Definition maint_step (dev : Device) (now : Z) (acc : maint_acc) (entry : Z * Z) : maint_acc :=
  let '(id, p) := entry in
  let t := maT acc in
  match pheap t !! p with
  | None => acc
  | Some d =>
      match dState d with
      | P2PStateTrying =>
          if p2pStalledAttemptTTL <? Sub now (dLastUsed d)
          then MkMaint (discardSessionLocked (mark_failed t p now) id) true (maRemove acc) (maKeepalive acc)
          else acc
      | P2PStateEstablished =>
          let wgPeer := LookupPeer dev (dPublicKey d) in
          let lastHandshake := match wgPeer with Some w => lastHandshakeNano dev w | None => 0 end in
          let '(d, due) := match wgPeer with
                           | Some w => directKeepaliveDue d (txBytes dev w) now
                           | None => (d, false)
                           end in
          let keepalive := maKeepalive acc
            ++ match wgPeer with Some w => if due : bool then [w] else [] | None => [] end in
          if (lastHandshake =? 0) || (p2pDirectStaleAfter <? Sub now lastHandshake)
          then MkMaint (mark_failed (set_peer t p (with_link d None (dRelayPeer d))) p now) true
                 (maRemove acc ++ [MkTeardown (dPublicKey d) (dAssignedIP d) (dRelayPeer d)]) keepalive
          else MkMaint (set_peer t p d) (maChanged acc) (maRemove acc) keepalive
      | _ => acc
      end
  end.
(** The critical section of a tick; [order] is used by its three range loops. *)
Definition maint_locked (order : gmap Z Z → list (Z * Z)) (dev : Device) (t : Tables) (now : Z) : maint_acc :=
  let '(t, changed) := forgetUnlistedPeersLocked order t now in
  let acc := foldl (maint_step dev now) (MkMaint t changed [] []) (order (peers t)) in
  if maChanged acc
  then MkMaint (rebuildIndexesLocked order (maT acc)) true (maRemove acc) (maKeepalive acc)
  else acc.

(** A whole tick; [collected] and [port] as in [register]. *)
Definition maintenance (order : gmap Z Z → list (Z * Z)) (dev : Device) (c : Client)
    (collected : list UDPAddr) (port now : Z) : Client * list Call :=
  let id := myID c in
  let '(c, due) := registerDue c now in
  let '(c, calls1) := if due : bool then register dev c collected port now else (c, []) in
  if id =? 0 then (c, calls1)
  else
    let '(c, calls2) := requestPeerList dev c in
    let acc := maint_locked order dev (tb c) now in
    let c := with_tb c (maT acc) in
    let calls3 := mjoin (teardownDirect dev (tb c) <$> maRemove acc) in
    let c := with_attempts (with_control c (controlQueue c) 0) (attemptQueue c) 0 in
    (c, calls1 ++ calls2 ++ calls3 ++ (CSendKeepalive <$> maKeepalive acc)).
End Client.
