(* ===== verification/P2PInv.v ===== *)
(** * The invariant of the P2P tables

    The sessions, peers and nonces of a client refer to each other
    consistently ([tinv]), and every operation under the lock keeps it so. *)

From S2P Require Import Prelude GoStr NetAddr P2PMessage P2PNat P2PTables P2PClient.

Section Inv.
Context `{Env : P2PEnv}.
Implicit Types (t : Tables) (d : DiscoveredPeer) (x : P2PSession).

Record tinv t : Prop := {
  (** a peer is listed under its own ID (so under one ID only); *)
  ti_peers : ∀ id p, peers t !! id = Some p → ∃ d, pheap t !! p = Some d ∧ dID d = id;
  (** a session is listed under the ID it targets, which is a known peer; *)
  ti_sess : ∀ id s, sessions t !! id = Some s →
    (∃ x, sheap t !! s = Some x ∧ TargetID x = id) ∧ is_Some (peers t !! id);
  (** a nonce leads to the current session of a peer, which accepts it; *)
  ti_nonce : ∀ n s, sessionByNonce t !! n = Some s →
    ∃ x, sheap t !! s = Some x ∧ sessions t !! TargetID x = Some s ∧ acceptsNonce x n = true;
  (** a peer with a direct path has no punch session; *)
  ti_est : ∀ id s p d, sessions t !! id = Some s → peers t !! id = Some p →
    pheap t !! p = Some d → dState d ≠ P2PStateEstablished;
  ti_pfresh : ∀ p, is_Some (pheap t !! p) → p < nextRef t;
  ti_sfresh : ∀ s, is_Some (sheap t !! s) → s < nextRef t }.

Lemma tinv_empty k : tinv (empty_tables k).
Proof. split; simpl; intros *; try by rewrite lookup_empty. all: rewrite lookup_empty; by intros []. Qed.

(** Gates, indexes and the coordinator key play no part. *)
Definition same_core t t' : Prop :=
  pheap t' = pheap t ∧ sheap t' = sheap t ∧ peers t' = peers t ∧ sessions t' = sessions t ∧
  sessionByNonce t' = sessionByNonce t ∧ nextRef t ≤ nextRef t'.

Lemma same_core_inv t t' : same_core t t' → tinv t → tinv t'.
Proof.
  intros (H1 & H2 & H3 & H4 & H5 & H6) [Ha Hb Hc Hd He Hf].
  split; rewrite ?H1, ?H2, ?H3, ?H4, ?H5; try done.
  - intros p Hp. specialize (He p Hp). lia.
  - intros s Hs. specialize (Hf s Hs). lia.
Qed.
#[export] Instance same_core_refl : Reflexive same_core.
Proof. intros t. unfold same_core. split_and!; lia || done. Qed.
#[export] Instance same_core_trans : Transitive same_core.
Proof.
  intros t1 t2 t3 (?&?&?&?&?&?) (?&?&?&?&?&?). unfold same_core. split_and!; try congruence. lia.
Qed.

(** ** Gates and indexes *)

Lemma gheap_core t h : same_core t (with_gheap t h).
Proof. by unfold same_core; split_and!. Qed.
Lemma gates_core t h : same_core t (with_gates t h).
Proof. by unfold same_core; split_and!. Qed.
Lemma keys_core t h : same_core t (with_keys t h).
Proof. by unfold same_core; split_and!. Qed.
Lemma server_core t k : same_core t (with_server t k).
Proof. by unfold same_core; split_and!. Qed.
Lemma new_gate_core t id : same_core t (new_gate t id).
Proof. unfold same_core, new_gate; simpl; split_and!; done || lia. Qed.
Lemma ensure_gate_core t id : same_core t (ensure_gate t id).
Proof. unfold ensure_gate. destruct (attemptGates t !! id); [done|apply new_gate_core]. Qed.
Lemma retry_gate_core t p : same_core t (setRetryGateLocked t p).
Proof. unfold setRetryGateLocked. repeat case_match; [apply gheap_core|done..]. Qed.

Lemma rebuild_step_core acc e : same_core acc.1.1 (rebuild_step acc e).1.1.
Proof.
  destruct acc as [[t keys] byIP]. unfold rebuild_step. simpl.
  destruct (pheap t !! e.2) as [d|]; [|done]. destruct (_ || _); [done|].
  destruct (ipv4Netip _); [|done]. simpl. apply ensure_gate_core.
Qed.
Lemma rebuild_core order t : same_core t (rebuildIndexesLocked order t).
Proof.
  unfold rebuildIndexesLocked.
  assert (∀ l acc, same_core acc.1.1 (foldl rebuild_step acc l).1.1) as H.
  { induction l as [|e l IH]; intros acc; simpl; [done|].
    etransitivity; [apply rebuild_step_core|apply IH]. }
  specialize (H (order (peers t)) (t, ∅, ∅)). destruct (foldl _ _ _) as [[t' keys] byIP]. simpl in H.
  etransitivity; [exact H|]. by unfold same_core; split_and!.
Qed.

(** ** Peers *)

(** An update of a peer that keeps its ID, and gives it a direct path only when
    it has no session. *)
Lemma set_peer_inv t p d0 d : tinv t → pheap t !! p = Some d0 → dID d = dID d0 →
  (dState d = P2PStateEstablished → dState d0 = P2PStateEstablished ∨ sessions t !! dID d0 = None) →
  tinv (set_peer t p d).
Proof.
  intros [Ha Hb Hc Hd He Hf] Hp Hid Hst. split; simpl; try done.
  - intros id p' Hp'. destruct (Ha _ _ Hp') as (d' & Hd' & <-). destruct (decide (p = p')) as [<-|].
    + rewrite lookup_insert_eq. exists d. split; [done|]. congruence.
    + rewrite lookup_insert_ne by done. eauto.
  - intros id s p' d' Hs Hp' Hd'. destruct (decide (p = p')) as [<-|].
    + rewrite lookup_insert_eq in Hd'. injection Hd' as <-. intros E.
      destruct (Ha _ _ Hp') as (d1 & Hd1 & Hid1). assert (d1 = d0) as -> by congruence.
      destruct (Hst E) as [E0|E0]; [by eapply Hd|]. rewrite Hid1 in E0. congruence.
    + rewrite lookup_insert_ne in Hd' by done. by eapply Hd.
  - intros p'. destruct (decide (p = p')) as [<-|].
    + intros _. apply He. by rewrite Hp.
    + rewrite lookup_insert_ne by done. apply He.
Qed.

Lemma set_peer_same t p d : tinv t → pheap t !! p = Some d → set_peer t p d = t.
Proof. intros _ H. unfold set_peer, with_pheap. rewrite insert_id by done. by destruct t. Qed.

Lemma mark_failed_inv t p now : tinv t → tinv (mark_failed t p now).
Proof.
  intros H. unfold mark_failed. destruct (pheap t !! p) as [d|] eqn:E; [|done].
  eapply same_core_inv; [apply retry_gate_core|]. by eapply set_peer_inv.
Qed.
Lemma mark_failed_tables t p now :
  peers (mark_failed t p now) = peers t ∧ sessions (mark_failed t p now) = sessions t ∧
  sheap (mark_failed t p now) = sheap t.
Proof.
  unfold mark_failed. destruct (pheap t !! p); [|done].
  destruct (retry_gate_core (set_peer t p (with_used (with_state d P2PStateFailed) now (dPunchAttempts d + 1))) p)
    as (_ & H2 & H3 & H4 & _). by rewrite H2, H3, H4.
Qed.

(** ** Sessions *)

Lemma set_session_inv t s x0 x : tinv t → sheap t !! s = Some x0 → TargetID x = TargetID x0 →
  (∀ n, sessionByNonce t !! n = Some s → acceptsNonce x n = true) → tinv (set_session t s x).
Proof.
  intros [Ha Hb Hc Hd He Hf] Hs Hid Hacc. split; simpl; try done.
  - intros id s' Hs'. destruct (Hb _ _ Hs') as [(x' & Hx' & <-) ?]. split; [|done].
    destruct (decide (s = s')) as [<-|].
    + rewrite lookup_insert_eq. exists x. split; [done|]. congruence.
    + rewrite lookup_insert_ne by done. eauto.
  - intros n s' Hn. destruct (Hc _ _ Hn) as (x' & Hx' & Hcur & Hax).
    destruct (decide (s = s')) as [<-|].
    + rewrite lookup_insert_eq. exists x. assert (x' = x0) as -> by congruence.
      split_and!; [done| |by apply Hacc]. by rewrite Hid.
    + rewrite lookup_insert_ne by done. eauto.
  - intros s'. destruct (decide (s = s')) as [<-|].
    + intros _. apply Hf. by rewrite Hs.
    + rewrite lookup_insert_ne by done. apply Hf.
Qed.

Lemma signalDone_inv t s : tinv t → tinv (signalDone t s).
Proof.
  intros H. unfold signalDone. destruct (sheap t !! s) as [x|] eqn:E; [|done].
  eapply set_session_inv; try done. intros n Hn.
  destruct (ti_nonce _ H n s Hn) as (x' & Hx' & _ & Hacc). by assert (x' = x) as <- by congruence.
Qed.
Lemma signalDone_tables t s : pheap (signalDone t s) = pheap t ∧ peers (signalDone t s) = peers t ∧
  sessions (signalDone t s) = sessions t ∧ peerKeyIndex (signalDone t s) = peerKeyIndex t ∧
  attemptGates (signalDone t s) = attemptGates t ∧ serverPeerKey (signalDone t s) = serverPeerKey t.
Proof. unfold signalDone. by destruct (sheap t !! s). Qed.

Lemma forget_nonce_some m nonce s n s' :
  forget_nonce m nonce s !! n = Some s' → m !! n = Some s' ∧ (s' = s → n ≠ nonce).
Proof.
  unfold forget_nonce. case_bool_decide as E.
  - rewrite lookup_delete_Some. intros [? ?]. split; [done|]. by intros _ ->.
  - intros H. split; [done|]. by intros -> ->.
Qed.

Lemma forget_both t id s : tinv t → sessions t !! id = Some s →
  tinv (forgetSessionLocked t id s) ∧
  sessions (forgetSessionLocked t id s) = delete id (sessions t).
Proof.
  intros H Hs. pose proof H as [Ha Hb Hc Hd He Hf]. unfold forgetSessionLocked.
  destruct (Hb _ _ Hs) as [(x & Hx & Hid) _]. rewrite Hx, bool_decide_true by done.
  split; [|done]. split; simpl; try done.
  - intros id' s' [? ?]%lookup_delete_Some. by apply Hb.
  - intros n s' Hn.
    assert (sessionByNonce t !! n = Some s' ∧ (s' = s → acceptsNonce x n = false)) as [Hn0 Hno].
    { destruct (hasAltNonce x) eqn:Ealt.
      - apply forget_nonce_some in Hn as [[Hn Hne]%forget_nonce_some Hne'].
        split; [done|]. intros E. unfold acceptsNonce. rewrite !bool_decide_false by auto. by rewrite andb_false_r.
      - apply forget_nonce_some in Hn as [Hn Hne]. split; [done|]. intros E.
        unfold acceptsNonce. by rewrite Ealt, bool_decide_false by auto. }
    destruct (Hc _ _ Hn0) as (x' & Hx' & Hcur & Hacc). exists x'. split_and!; try done.
    rewrite lookup_delete_ne; [done|]. intros E. rewrite <- E in Hcur.
    assert (s' = s) as -> by congruence. assert (x' = x) as -> by congruence.
    by rewrite Hno in Hacc.
  - intros id' s' p d [? ?]%lookup_delete_Some. intros Hp Hd'. by eapply Hd.
Qed.
Lemma forget_inv t id s : tinv t → sessions t !! id = Some s → tinv (forgetSessionLocked t id s).
Proof. intros H Hs. by apply forget_both. Qed.
Lemma forget_sessions t id s : tinv t → sessions t !! id = Some s →
  sessions (forgetSessionLocked t id s) = delete id (sessions t).
Proof. intros H Hs. by apply forget_both. Qed.
Lemma forget_tables t id s : pheap (forgetSessionLocked t id s) = pheap t ∧
  peers (forgetSessionLocked t id s) = peers t ∧ sheap (forgetSessionLocked t id s) = sheap t ∧
  peerKeyIndex (forgetSessionLocked t id s) = peerKeyIndex t ∧
  attemptGates (forgetSessionLocked t id s) = attemptGates t ∧
  serverPeerKey (forgetSessionLocked t id s) = serverPeerKey t.
Proof. unfold forgetSessionLocked. by destruct (sheap t !! s). Qed.

Lemma discard_inv t id : tinv t → tinv (discardSessionLocked t id).
Proof.
  intros H. unfold discardSessionLocked. destruct (sessions t !! id) as [s|] eqn:E; [|done].
  by apply signalDone_inv, forget_inv.
Qed.
Lemma discard_tables t id : pheap (discardSessionLocked t id) = pheap t ∧
  peers (discardSessionLocked t id) = peers t ∧
  peerKeyIndex (discardSessionLocked t id) = peerKeyIndex t ∧
  attemptGates (discardSessionLocked t id) = attemptGates t ∧
  serverPeerKey (discardSessionLocked t id) = serverPeerKey t.
Proof.
  unfold discardSessionLocked. destruct (sessions t !! id) as [s|]; [|done].
  destruct (signalDone_tables (forgetSessionLocked t id s) s) as (-> & -> & _ & -> & -> & ->).
  by destruct (forget_tables t id s) as (-> & -> & _ & -> & -> & ->).
Qed.
Lemma discard_sessions t id : tinv t → sessions (discardSessionLocked t id) = delete id (sessions t).
Proof.
  intros H. unfold discardSessionLocked. destruct (sessions t !! id) as [s|] eqn:E.
  - destruct (signalDone_tables (forgetSessionLocked t id s) s) as (_ & _ & -> & _).
    by apply forget_sessions.
  - by rewrite delete_id.
Qed.

(** ** Renumbering and forgetting *)

(** A peer moves to another ID; neither ID has a session. *)
Lemma move_inv t p d d' old new : tinv t → peers t !! old = Some p → pheap t !! p = Some d →
  dID d' = new → sessions t !! old = None → sessions t !! new = None →
  tinv (with_peers (set_peer t p d') (<[new := p]> (delete old (peers t)))).
Proof.
  intros [Ha Hb Hc Hd He Hf] Hp Hd0 Hid Hold Hnew. split; simpl; try done.
  - intros id p' [[<- <-]|[Hne Hp']]%lookup_insert_Some.
    { rewrite lookup_insert_eq. eauto. }
    apply lookup_delete_Some in Hp' as [Hne' Hp']. destruct (Ha _ _ Hp') as (d1 & Hd1 & Hid1).
    rewrite lookup_insert_ne; [eauto|]. intros ->.
    destruct (Ha _ _ Hp) as (d2 & Hd2 & Hid2). congruence.
  - intros id s Hs. destruct (Hb _ _ Hs) as [? Hp0]. split; [done|].
    rewrite lookup_insert_ne, lookup_delete_ne by congruence. done.
  - intros id s p' d1 Hs Hp' Hd1.
    rewrite lookup_insert_ne, lookup_delete_ne in Hp' by congruence.
    rewrite lookup_insert_ne in Hd1; [by eapply Hd|]. intros ->.
    destruct (Ha _ _ Hp) as (d2 & Hd2 & Hid2). destruct (Ha _ _ Hp') as (d3 & Hd3 & Hid3). congruence.
  - intros p'. destruct (decide (p = p')) as [<-|]; [intros _; apply He; by rewrite Hd0|].
    rewrite lookup_insert_ne by done. apply He.
Qed.

Lemma get_peer_some t id p d :
  get_peer t id = Some (p, d) ↔ peers t !! id = Some p ∧ pheap t !! p = Some d.
Proof.
  unfold get_peer. destruct (peers t !! id) as [p'|]; simpl; [|naive_solver].
  destruct (pheap t !! p') eqn:E; simpl; naive_solver congruence.
Qed.
Lemma get_session_some t id s x :
  get_session t id = Some (s, x) ↔ sessions t !! id = Some s ∧ sheap t !! s = Some x.
Proof.
  unfold get_session. destruct (sessions t !! id) as [s'|]; simpl; [|naive_solver].
  destruct (sheap t !! s') eqn:E; simpl; naive_solver congruence.
Qed.
Lemma get_peer_none t id : tinv t → get_peer t id = None → peers t !! id = None.
Proof.
  intros H Hg. destruct (peers t !! id) as [p|] eqn:E; [|done].
  destruct (ti_peers _ H _ _ E) as (d & Hd & _).
  by rewrite (proj2 (get_peer_some t id p d)) in Hg.
Qed.
Lemma no_peer_no_session t id : tinv t → peers t !! id = None → sessions t !! id = None.
Proof.
  intros H E. destruct (sessions t !! id) eqn:Es; [|done].
  destruct (ti_sess _ H _ _ Es) as [_ [p Hp]]. congruence.
Qed.

Lemma renumber_inv t k new : tinv t → tinv (renumberPeerLocked t k new).1.
Proof.
  intros H. unfold renumberPeerLocked. destruct (IsZeroKey k); [done|].
  destruct (peerKeyIndex t !! k) as [old|]; [|done]. destruct (Z.eqb_spec old new); [done|].
  pose proof (same_core_inv _ _ (keys_core t (delete k (peerKeyIndex t))) H) as H1.
  destruct (get_peer t old) as [[p d]|] eqn:Eg; [|done].
  apply get_peer_some in Eg as [Hp Hd]. destruct (negb _); [done|]. cbn [fst].
  set (t1 := with_keys t _) in *.
  pose proof (discard_inv t1 old H1) as H2. pose proof (discard_sessions t1 old H1) as Hs2.
  destruct (discard_tables t1 old) as (Hph & Hpe & _). set (t2 := discardSessionLocked t1 old) in *.
  set (t3 := match peers t2 !! new with Some _ => _ | None => _ end).
  assert (tinv t3 ∧ pheap t3 = pheap t ∧ peers t3 = peers t ∧ sessions t3 !! old = None
          ∧ sessions t3 !! new = None) as (H3 & Hph3 & Hpe3 & Hso & Hsn).
  { unfold t3. destruct (peers t2 !! new) eqn:En.
    - destruct (discard_tables t2 new) as (-> & -> & _). rewrite Hph, Hpe.
      rewrite (discard_sessions t2 new H2), Hs2. split_and!; try done; [by apply discard_inv| |].
      + rewrite lookup_delete_ne by done. apply lookup_delete_eq.
      + apply lookup_delete_eq.
    - split_and!; try done; [by rewrite Hs2, lookup_delete_eq|]. by apply no_peer_no_session. }
  clearbody t3. set (d' := with_id _ new).
  assert (tinv (with_peers (set_peer t3 p d') (<[new := p]> (delete old (peers t3))))) as H4.
  { eapply move_inv; rewrite ?Hpe3, ?Hph3; done. }
  eapply same_core_inv; [apply keys_core|]. simpl. case_match; [|exact H4].
  eapply same_core_inv; [apply gates_core|exact H4].
Qed.

Lemma remove_peer_inv t id : tinv t → sessions t !! id = None →
  tinv (with_peers t (delete id (peers t))).
Proof.
  intros [Ha Hb Hc Hd He Hf] Hs. split; simpl; try done.
  - intros id' p [_ ?]%lookup_delete_Some. by apply Ha.
  - intros id' s Hs'. destruct (Hb _ _ Hs') as [? ?]. split; [done|].
    by rewrite lookup_delete_ne by congruence.
  - intros id' s p d Hs' [_ ?]%lookup_delete_Some. by eapply Hd.
Qed.

Lemma forget_unlisted_inv order t now : tinv t → tinv (forgetUnlistedPeersLocked order t now).1.
Proof.
  unfold forgetUnlistedPeersLocked. generalize (order (peers t)). intros l.
  assert (∀ acc, tinv acc.1 → tinv (foldl (forget_step now) acc l).1) as H; [|intros Ht; by apply (H (t, false))].
  induction l as [|e l IH]; intros [t0 ch] H; simpl; [done|]. apply IH. clear IH.
  unfold forget_step. destruct (pheap t0 !! e.2) as [d|]; [|done]. destruct (_ || _); [done|]. simpl.
  eapply same_core_inv; [apply gates_core|].
  apply remove_peer_inv; [by apply discard_inv|]. by rewrite discard_sessions, lookup_delete_eq.
Qed.

Lemma fail_punch_inv order t p s now :
  tinv t → tinv (failPunchSessionIfCurrentLocked order t p s now).1.
Proof.
  intros H. unfold failPunchSessionIfCurrentLocked. destruct p as [p|], s as [s|]; try done.
  destruct (pheap t !! p) as [d|] eqn:Ep, (sheap t !! s) as [x|] eqn:Es; try done.
  destruct (_ || _); [done|]. case_bool_decide as Hcur; [|done]. simpl.
  eapply same_core_inv; [apply rebuild_core|]. apply signalDone_inv, forget_inv.
  - by apply mark_failed_inv.
  - by destruct (mark_failed_tables t p now) as (_ & -> & _).
Qed.
(** ** Peer lists *)

Lemma find_or_new_inv t id d0 t' p d ok : tinv t → dID d0 = id → dState d0 ≠ P2PStateEstablished →
  find_or_new t id d0 = (t', p, d, ok) →
  tinv t' ∧ peers t' !! id = Some p ∧ pheap t' !! p = Some d ∧ dID d = id ∧ sessions t' = sessions t.
Proof.
  intros H Hid Hne. unfold find_or_new. destruct (get_peer t id) as [[p' d']|] eqn:Eg.
  - intros [= <- <- <- <-]. apply get_peer_some in Eg as [Hp Hd].
    destruct (ti_peers _ H _ _ Hp) as (d1 & Hd1 & <-). split_and!; try done. congruence.
  - intros [= <- <- <- <-]. apply (get_peer_none t id H) in Eg.
    pose proof (no_peer_no_session t id H Eg) as Hs. simpl.
    rewrite !lookup_insert_eq. split_and!; try done.
    destruct H as [Ha Hb Hc Hd He Hf].
    assert (pheap t !! nextRef t = None) as Hfresh.
    { destruct (pheap t !! nextRef t) eqn:E; [|done]. specialize (He (nextRef t) ltac:(by rewrite E)). lia. }
    split; simpl; try done.
    + intros id' p' [[<- <-]|[Hne' Hp']]%lookup_insert_Some; [rewrite lookup_insert_eq; eauto|].
      destruct (Ha _ _ Hp') as (d' & Hd' & ?). rewrite lookup_insert_ne by congruence. eauto.
    + intros id' s Hs'. destruct (Hb _ _ Hs') as [? ?]. split; [done|].
      by rewrite lookup_insert_ne by congruence.
    + intros id' s p' d' Hs' Hp' Hd'. rewrite lookup_insert_ne in Hp' by congruence.
      destruct (Ha _ _ Hp') as (d1 & Hd1 & _). rewrite lookup_insert_ne in Hd' by congruence.
      by eapply Hd.
    + intros p' Hp'. destruct (decide (p' = nextRef t)) as [->|]; [lia|].
      rewrite lookup_insert_ne in Hp' by done. specialize (He p' Hp'). lia.
    + intros s Hs'. specialize (Hf s Hs'). lia.
Qed.

Lemma new_not_est id now : dState (with_used (new_peer id false) now 0) ≠ P2PStateEstablished.
Proof. done. Qed.
Lemma new_not_est' id : dState (new_peer id true) ≠ P2PStateEstablished.
Proof. done. Qed.

Lemma list_step_inv now acc e : tinv acc.1.1 → tinv (list_step now acc e).1.1.
Proof.
  destruct acc as [[t ren] retry]. simpl. intros H. unfold list_step.
  destruct (recycled t e); [done|].
  pose proof (renumber_inv t (leKey e) (leID e) H) as H1.
  destruct (renumberPeerLocked t (leKey e) (leID e)) as [t1 moved]. simpl in H1.
  destruct (find_or_new t1 (leID e) _) as [[[t2 p] d] ok] eqn:Ef.
  destruct (find_or_new_inv _ _ _ _ _ _ _ H1 eq_refl (new_not_est _ _) Ef) as (H2 & Hp & Hd & Hid & _).
  set (again := _ && _ && _). simpl.
  set (t3 := if again then _ else t2).
  assert (tinv t3 ∧ pheap t3 !! p = Some d) as [H3 Hd3].
  { unfold t3. destruct again; [|done]. case_match; [|done].
    split; [|done]. by eapply same_core_inv; [apply gheap_core|]. }
  clearbody t3.
  set (d' := with_seen _ now). assert (tinv (set_peer t3 p d')) as H4.
  { eapply set_peer_inv; [done|done| |]; unfold d'; destruct again; simpl; try done; by left. }
  assert (tinv (ensure_gate (set_peer t3 p d') (leID e))) as H5
    by (by eapply same_core_inv; [apply ensure_gate_core|]).
  destruct (IsZeroKey (leKey e)); [done|]. by eapply same_core_inv; [apply keys_core|].
Qed.

Lemma peer_list_inv order t now es : tinv t → tinv (peer_list_tables order t now es).1.1.
Proof.
  intros H. unfold peer_list_tables.
  assert (∀ acc, tinv acc.1.1 → tinv (foldl (list_step now) acc es).1.1) as Hf.
  { induction es as [|e es IH]; intros acc Hacc; simpl; [done|]. by apply IH, list_step_inv. }
  specialize (Hf (t, false, []) H). destruct (foldl _ _ _) as [[t' ren] retry]. simpl in *.
  by eapply same_core_inv; [apply rebuild_core|].
Qed.

(** ** Relays *)

Lemma acceptsNonce_iff x n :
  acceptsNonce x n = true ↔ n = sNonce x ∨ (hasAltNonce x = true ∧ n = altNonce x).
Proof.
  unfold acceptsNonce. rewrite orb_true_iff, andb_true_iff, !bool_decide_eq_true. done.
Qed.

Lemma join_inv t s x n : tinv t → sheap t !! s = Some x → sessions t !! TargetID x = Some s →
  tinv (join_session t s x n) ∧ pheap (join_session t s x n) = pheap t
  ∧ sessions (join_session t s x n) = sessions t.
Proof.
  intros H Hx Hcur. unfold join_session. destruct (_ && _) eqn:E; [|done].
  split; [|done]. apply andb_true_iff in E as [E1 E2].
  set (x' := MkSession _ _ _ _ _ _ _ _ _ _ n true _ _ _).
  set (byNonce := if hasAltNonce x then _ else _).
  assert (∀ n' s', byNonce !! n' = Some s' → sessionByNonce t !! n' = Some s'
            ∧ (s' = s → n' = sNonce x)) as Hby.
  { intros n' s' Hn'. unfold byNonce in Hn'.
    assert (sessionByNonce t !! n' = Some s' ∧ (hasAltNonce x = true → n' ≠ altNonce x)) as [Hs' Hno].
    { destruct (hasAltNonce x); [|done]. apply lookup_delete_Some in Hn' as [? ?]. naive_solver. }
    split; [done|]. intros ->. destruct (ti_nonce _ H _ _ Hs') as (x1 & Hx1 & _ & Hacc).
    assert (x1 = x) as -> by congruence. apply acceptsNonce_iff in Hacc as [?|[? ?]]; naive_solver. }
  destruct H as [Ha Hb Hc Hd He Hf]. split; simpl; try done.
  - intros id s' Hs'. destruct (Hb _ _ Hs') as [(x1 & Hx1 & <-) ?]. split; [|done].
    destruct (decide (s = s')) as [<-|]; [|rewrite lookup_insert_ne by done; eauto].
    rewrite lookup_insert_eq. exists x'. split; [done|]. simpl. congruence.
  - intros n' s' [[<- <-]|[Hne Hn']]%lookup_insert_Some.
    { rewrite lookup_insert_eq. exists x'. split_and!; try done. apply acceptsNonce_iff. by right. }
    apply Hby in Hn' as [Hn' Hs']. destruct (Hc _ _ Hn') as (x1 & Hx1 & Hcur1 & Hacc1).
    destruct (decide (s = s')) as [<-|]; [|rewrite lookup_insert_ne by done; eauto].
    rewrite lookup_insert_eq. exists x'. split_and!; try done. apply acceptsNonce_iff. left. by apply Hs'.
  - intros s'. destruct (decide (s = s')) as [<-|]; [|rewrite lookup_insert_ne by done; apply Hf].
    intros _. apply Hf. by rewrite Hx.
Qed.

(** Adding an unreferenced session object. *)
Lemma alloc_session_inv t x : tinv t →
  let t' := set_session (with_nextRef t (nextRef t + 1)) (nextRef t) x in
  tinv t' ∧ sheap t' !! nextRef t = Some x.
Proof.
  intros [Ha Hb Hc Hd He Hf] t'. split; [|apply lookup_insert_eq].
  assert (sheap t !! nextRef t = None) as Hfresh.
  { destruct (sheap t !! nextRef t) eqn:E; [|done]. specialize (Hf (nextRef t) ltac:(by rewrite E)). lia. }
  split; simpl; try done.
  - intros id s Hs. destruct (Hb _ _ Hs) as [(x1 & Hx1 & ?) ?]. split; [|done].
    rewrite lookup_insert_ne by congruence. eauto.
  - intros n s Hn. destruct (Hc _ _ Hn) as (x1 & Hx1 & ? & ?).
    rewrite lookup_insert_ne by congruence. eauto.
  - intros p Hp. specialize (He p Hp). lia.
  - intros s Hs. destruct (decide (s = nextRef t)) as [->|]; [lia|].
    rewrite lookup_insert_ne in Hs by done. specialize (Hf s Hs). lia.
Qed.

Lemma discard_sheap t id s x : sheap t !! s = Some x → sessions t !! id ≠ Some s →
  sheap (discardSessionLocked t id) !! s = Some x.
Proof.
  intros Hx Hne. unfold discardSessionLocked. destruct (sessions t !! id) as [s'|]; [|done].
  unfold signalDone. destruct (forget_tables t id s') as (_ & _ & -> & _).
  destruct (sheap t !! s') as [x'|] eqn:Ex'; simpl; [|by destruct (forget_tables t id s') as (_ & _ & -> & _)].
  destruct (forget_tables t id s') as (_ & _ & -> & _). rewrite lookup_insert_ne by congruence. done.
Qed.

Lemma install_inv t s x : tinv t → sheap t !! s = Some x → sessions t !! TargetID x = None →
  (∃ p d, peers t !! TargetID x = Some p ∧ pheap t !! p = Some d ∧ dState d ≠ P2PStateEstablished) →
  tinv (with_sessions t (<[TargetID x := s]> (sessions t)) (<[sNonce x := s]> (sessionByNonce t))).
Proof.
  intros [Ha Hb Hc Hd He Hf] Hx Hno (p & d & Hp & Hpd & Hst). split; simpl; try done.
  - intros id s' [[<- <-]|[Hne Hs']]%lookup_insert_Some; [|by apply Hb]. split; eauto.
  - intros n s' [[<- <-]|[Hne Hn]]%lookup_insert_Some.
    { exists x. rewrite lookup_insert_eq. split_and!; try done. apply acceptsNonce_iff. by left. }
    destruct (Hc _ _ Hn) as (x' & Hx' & Hcur & Hacc). exists x'. split_and!; try done.
    rewrite lookup_insert_ne by congruence. done.
  - intros id s' p' d' [[<- <-]|[Hne Hs']]%lookup_insert_Some Hp' Hd'; [congruence|by eapply Hd].
Qed.

Lemma start_session_inv t x p d : tinv t → peers t !! TargetID x = Some p → pheap t !! p = Some d →
  dState d ≠ P2PStateEstablished →
  tinv (start_session t x).1 ∧ pheap (start_session t x).1 = pheap t ∧
  sessions (start_session t x).1 !! TargetID x = Some (start_session t x).2 ∧
  sheap (start_session t x).1 !! (start_session t x).2 = Some x.
Proof.
  intros H Hp Hd Hst. unfold start_session. simpl.
  destruct (alloc_session_inv t x H) as [H1 Hx1].
  set (t1 := set_session _ _ x) in *.
  assert (sessions t1 !! TargetID x ≠ Some (nextRef t)) as Hne.
  { intros E. destruct (ti_sess _ H _ _ E) as [(x' & Hx' & _) _].
    pose proof (ti_sfresh _ H (nextRef t) ltac:(by rewrite Hx')). lia. }
  pose proof (discard_sheap t1 (TargetID x) _ _ Hx1 Hne) as Hx2.
  destruct (discard_tables t1 (TargetID x)) as (Hph & Hpe & _).
  split_and!; [|done|apply lookup_insert_eq|done].
  apply install_inv; [by apply discard_inv|done| |].
  - by rewrite discard_sessions, lookup_delete_eq.
  - exists p, d. by rewrite Hpe, Hph.
Qed.

Lemma relay_peer_inv order t now msg p d d0 : tinv t → pheap t !! p = Some d0 →
  peers t !! mTargetID msg = Some p → dID d = dID d0 → dState d = dState d0 →
  tinv (relay_peer order t now msg p d).1.
Proof.
  intros H Hp Htgt Hid Hst. unfold relay_peer.
  assert (∀ d1, dID d1 = dID d0 → (dState d1 = P2PStateEstablished → dState d0 = P2PStateEstablished) →
          tinv (set_peer t p d1)) as Hset.
  { intros d1 Hd1 Hs1. eapply set_peer_inv; try done. intros E. left. auto. }
  assert (dID d = mTargetID msg) as Hdid.
  { destruct (ti_peers _ H _ _ Htgt) as (d1 & Hd1 & <-). congruence. }
  destruct (_ && (_ || _)); [apply Hset; congruence|].
  set (established := state_is d P2PStateEstablished).
  set (d1 := if established then _ else d).
  assert (dID d1 = dID d0 ∧ dState d1 ≠ P2PStateEstablished) as [Hid1 Hst1].
  { unfold d1, established, state_is. case_bool_decide; simpl; by rewrite ?Hid. }
  set (d2 := if negb (IsZeroKey (PublicKey msg)) && _ then _ else d1).
  assert (dID d2 = dID d0 ∧ dState d2 ≠ P2PStateEstablished) as [Hid2 Hst2].
  { unfold d2. by destruct (_ && _). }
  clearbody d1 d2.
  destruct (_ || _ || _).
  { eapply same_core_inv; [apply rebuild_core|]. apply mark_failed_inv, Hset; done. }
  case_match eqn:Ecur.
  - destruct p0 as [s x]. simpl.
    assert (sessions t !! mTargetID msg = Some s ∧ sheap t !! s = Some x) as [Hs Hx].
    { destruct (get_session t (mTargetID msg)) as [[s' x']|] eqn:Eg; [|done].
      destruct (_ && _ && _); [|done]. injection Ecur as -> ->. by apply get_session_some. }
    assert (TargetID x = mTargetID msg) as Htx.
    { destruct (ti_sess _ H _ _ Hs) as [(x' & Hx' & ?) _]. congruence. }
    destruct (join_inv t s x (mNonce msg) H Hx) as (Hj & Hph & Hse); [by rewrite Htx|].
    eapply set_peer_inv; [done|by rewrite Hph|done|]. simpl. done.
  - set (d3 := with_state _ P2PStateTrying).
    assert (tinv (set_peer t p d3)) as H3 by (apply Hset; done).
    set (x := MkSession _ _ _ _ _ _ _ _ _ _ _ _ _ _ _).
    destruct (start_session_inv (set_peer t p d3) x p d3) as (H4 & _); [done..| |done|].
    { apply lookup_insert_eq. }
    destruct (start_session (set_peer t p d3) x) as [t4 s] eqn:Es. simpl in *.
    eapply same_core_inv; [apply rebuild_core|]. by eapply same_core_inv; [apply keys_core|].
Qed.

Lemma relay_inv order t now msg : tinv t → tinv (relay_locked order t now msg).1.
Proof.
  intros H. unfold relay_locked. set (t1 := if _ && _ then _ else t).
  assert (tinv t1) as H1 by (unfold t1; destruct (_ && _); [by apply renumber_inv|done]).
  clearbody t1. destruct (find_or_new t1 _ _) as [[[t2 p] d] ok] eqn:Ef.
  destruct (find_or_new_inv _ _ _ _ _ _ _ H1 eq_refl (new_not_est' _) Ef) as (H2 & Hp & Hd & Hid & _).
  by eapply relay_peer_inv.
Qed.

(** ** Attempts, punches, promotions, maintenance *)

Lemma try_inv order t now id : tinv t → tinv (try_locked order t now id).1.1.
Proof.
  intros H. unfold try_locked. destruct (get_peer t id) as [[p d]|] eqn:Eg; [|done].
  apply get_peer_some in Eg as [Hp Hd]. destruct (_ || _ || _ || _); [done|].
  destruct (active d); [done|]. destruct (_ && _); simpl.
  - case_match; [|done]. by eapply same_core_inv; [apply gheap_core|].
  - eapply same_core_inv; [apply rebuild_core|]. by eapply set_peer_inv.
Qed.

Lemma punch_inv t now s e : tinv t → tinv (punch_locked t now s e).1.1.
Proof.
  intros H. unfold punch_locked. destruct (sheap t !! s) as [x|] eqn:Ex; [|done].
  destruct (get_peer t (TargetID x)) as [[p d]|] eqn:Eg; [|done].
  apply get_peer_some in Eg as [Hp Hd]. destruct (_ || _); [done|]. simpl.
  set (x' := MkSession _ _ _ _ _ _ _ _ _ _ _ _ _ _ _).
  assert (tinv (set_peer t p (with_used d now (dPunchAttempts d)))) as H1.
  { eapply set_peer_inv; try done. by left. }
  eapply set_session_inv; try done. intros n Hn.
  destruct (ti_nonce _ H n s Hn) as (x1 & Hx1 & _ & Hacc). by assert (x1 = x) as -> by congruence.
Qed.

Lemma fail_promotion_inv order t now job : tinv t → tinv (fail_promotion_locked order t now job).1.
Proof.
  intros H. unfold fail_promotion_locked.
  destruct (get_peer t (jPeerID job)) as [[p d]|]; [|by apply signalDone_inv].
  case_bool_decide as Hs; cbn [andb]; [|by apply signalDone_inv].
  destruct (negb _); [|by apply signalDone_inv]. simpl. apply signalDone_inv.
  eapply same_core_inv; [apply rebuild_core|]. apply forget_inv; [by apply mark_failed_inv|].
  by destruct (mark_failed_tables t p now) as (_ & -> & _).
Qed.

(** The peer gets its direct path as its session is forgotten. *)
Lemma forget_set_peer t p d id s : set_peer (forgetSessionLocked t id s) p d
  = forgetSessionLocked (set_peer t p d) id s.
Proof. unfold forgetSessionLocked. simpl. by destruct (sheap t !! s). Qed.

Lemma promote_inv order t now job : tinv t → tinv (promote_locked order t now job).1.
Proof.
  intros H. unfold promote_locked.
  destruct (get_peer t (jPeerID job)) as [[p d]|] eqn:Eg; [|by apply signalDone_inv].
  apply get_peer_some in Eg as [Hp Hd].
  destruct (state_is d _); cbn [andb]; [|by apply signalDone_inv].
  case_bool_decide as Hs; [|by apply signalDone_inv]. simpl. apply signalDone_inv.
  eapply same_core_inv; [apply rebuild_core|]. rewrite <- forget_set_peer.
  destruct (ti_peers _ H _ _ Hp) as (d1 & Hd1 & Hid). assert (d1 = d) as -> by congruence.
  apply (set_peer_inv _ _ d); [by apply forget_inv| |done|].
  - by destruct (forget_tables t (jPeerID job) (jSession job)) as (-> & _).
  - intros _. right. rewrite forget_sessions by done. rewrite Hid. apply lookup_delete_eq.
Qed.

Lemma maint_step_inv dev now acc e : tinv (maT acc) → tinv (maT (maint_step dev now acc e)).
Proof.
  intros H. unfold maint_step. destruct e as [id p].
  destruct (pheap (maT acc) !! p) as [d|] eqn:Ed; [|done]. destruct (dState d) eqn:Est; try done.
  - destruct (_ <? _); [|done]. by apply discard_inv, mark_failed_inv.
  - set (due := match LookupPeer dev (dPublicKey d) with Some _ => _ | None => _ end).
    assert (dID due.1 = dID d ∧ dState due.1 = dState d) as [Hid Hst].
    { unfold due, directKeepaliveDue. repeat case_match; done. }
    destruct due as [d' b]. simpl in Hid, Hst. destruct (_ || _); simpl.
    + apply mark_failed_inv. eapply set_peer_inv; try done. by left.
    + eapply set_peer_inv; try done. by left.
Qed.

Lemma maint_inv order dev t now : tinv t → tinv (maT (maint_locked order dev t now)).
Proof.
  intros H. unfold maint_locked.
  pose proof (forget_unlisted_inv order t now H) as H1.
  destruct (forgetUnlistedPeersLocked order t now) as [t1 changed]. simpl in H1.
  assert (∀ l acc, tinv (maT acc) → tinv (maT (foldl (maint_step dev now) acc l))) as Hf.
  { induction l as [|e l IH]; intros acc Ha; simpl; [done|]. by apply IH, maint_step_inv. }
  specialize (Hf (order (peers t1)) (MkMaint t1 changed [] []) H1).
  destruct (maChanged _); [|done]. by eapply same_core_inv; [apply rebuild_core|].
Qed.
End Inv.
