(* ===== verification/P2PSystem.v ===== *)
(** * The P2P client as a system of interleaved workers

    The goroutines of p2p_client.go take turns at P2PClient.mu.  A
    configuration is the client and the work in progress outside the lock
    ([pending]): what a goroutine does next once it runs again.  A step is one
    critical section or one stretch of code between two of them, in any order,
    with any device answers, any clock reading and any map iteration order. *)

From S2P Require Import Prelude GoStr NetAddr P2PMessage P2PNat P2PTables P2PClient P2PInv.

Section System.
Context `{Env : P2PEnv}.
Implicit Types (t : Tables) (d : DiscoveredPeer) (x : P2PSession) (c : Client).

(** ** How the tables evolve *)

(** Peers do not acquire a direct path, nor change its endpoint; sessions keep
    their target. *)
Definition est_sub t t' : Prop := ∀ p d', pheap t' !! p = Some d' →
  dState d' = P2PStateEstablished →
  ∃ d, pheap t !! p = Some d ∧ dState d = P2PStateEstablished ∧ dEndpoint d = dEndpoint d'.
Definition smono t t' : Prop := ∀ s x, sheap t !! s = Some x →
  ∃ x', sheap t' !! s = Some x' ∧ TargetID x' = TargetID x ∧ TargetPubKey x' = TargetPubKey x.
Definition evolves t t' : Prop := est_sub t t' ∧ smono t t'.

#[export] Instance smono_refl : Reflexive smono.
Proof. intros t s x Hx. eauto. Qed.
#[export] Instance smono_trans : Transitive smono.
Proof.
  intros t1 t2 t3 H12 H23 s x Hx. destruct (H12 s x Hx) as (x2 & Hx2 & ? & ?).
  destruct (H23 s x2 Hx2) as (x3 & ? & ? & ?). exists x3. split_and!; congruence.
Qed.
#[export] Instance evolves_refl : Reflexive evolves.
Proof. intros t. split; [intros p d' ? ?; eauto|reflexivity]. Qed.
#[export] Instance evolves_trans : Transitive evolves.
Proof.
  intros t1 t2 t3 [E12 S12] [E23 S23]. split; [|by etransitivity].
  intros p d3 Hd3 Hs3. destruct (E23 p d3 Hd3 Hs3) as (d2 & Hd2 & Hs2 & He2).
  destruct (E12 p d2 Hd2 Hs2) as (d1 & ? & ? & ?). exists d1. split_and!; congruence.
Qed.

Lemma core_evolves t t' : same_core t t' → evolves t t'.
Proof. intros (H1 & H2 & _). split; [intros p d'; rewrite H1; eauto|intros s x; rewrite H2; eauto]. Qed.
Lemma tables_evolves t t' : pheap t' = pheap t → sheap t' = sheap t → evolves t t'.
Proof. intros H1 H2. split; [intros p d'; rewrite H1; eauto|intros s x; rewrite H2; eauto]. Qed.

Lemma set_peer_evolves t p d0 d : pheap t !! p = Some d0 →
  (dState d = P2PStateEstablished →
     dState d0 = P2PStateEstablished ∧ dEndpoint d0 = dEndpoint d) → evolves t (set_peer t p d).
Proof.
  intros Hp Hst. split; [|by intros s x ?; eauto]. intros p' d' Hd' Hs'. simpl in Hd'.
  apply lookup_insert_Some in Hd' as [[<- <-]|[_ ?]]; [|eauto]. destruct (Hst Hs'). eauto.
Qed.
Lemma set_peer_quiet t p d : dState d ≠ P2PStateEstablished → evolves t (set_peer t p d).
Proof.
  intros Hst. split; [|by intros s x ?; eauto]. intros p' d' Hd' Hs'. simpl in Hd'.
  apply lookup_insert_Some in Hd' as [[<- <-]|[_ ?]]; [done|eauto].
Qed.
Lemma set_session_evolves t s x0 x : sheap t !! s = Some x0 → TargetID x = TargetID x0 →
  TargetPubKey x = TargetPubKey x0 → evolves t (set_session t s x).
Proof.
  intros Hs Ht Hk. split; [by intros p d' ?; eauto|]. intros s' x' Hx'. simpl.
  destruct (decide (s = s')) as [<-|]; [|rewrite lookup_insert_ne by done; eauto].
  rewrite lookup_insert_eq. exists x. split_and!; congruence.
Qed.
Lemma rebuild_evolves order t : evolves t (rebuildIndexesLocked order t).
Proof. apply core_evolves, rebuild_core. Qed.
Lemma signalDone_evolves t s : evolves t (signalDone t s).
Proof. unfold signalDone. destruct (sheap t !! s) as [x|] eqn:E; [|done]. by eapply set_session_evolves. Qed.
Lemma forget_evolves t id s : evolves t (forgetSessionLocked t id s).
Proof. by apply tables_evolves; destruct (forget_tables t id s) as (? & ? & ? & _). Qed.
Lemma discard_evolves t id : evolves t (discardSessionLocked t id).
Proof.
  unfold discardSessionLocked. destruct (sessions t !! id); [|done].
  etransitivity; [apply forget_evolves|apply signalDone_evolves].
Qed.
Lemma mark_failed_evolves t p now : evolves t (mark_failed t p now).
Proof.
  unfold mark_failed. destruct (pheap t !! p); [|done].
  etransitivity; [|apply core_evolves, retry_gate_core]. by apply set_peer_quiet.
Qed.

Lemma renumber_evolves t k new : evolves t (renumberPeerLocked t k new).1.
Proof.
  unfold renumberPeerLocked. destruct (IsZeroKey k); [done|].
  destruct (peerKeyIndex t !! k) as [old|]; [|done]. destruct (old =? new); [done|].
  destruct (get_peer t old) as [[p d]|] eqn:Eg; [|apply core_evolves, keys_core].
  apply get_peer_some in Eg as [_ Hd]. destruct (negb _); [apply core_evolves, keys_core|]. cbn [fst].
  set (t1 := with_keys t _). assert (evolves t t1) as E1 by apply core_evolves, keys_core.
  pose proof (discard_evolves t1 old) as E2. destruct (discard_tables t1 old) as (Hph & _).
  set (t2 := discardSessionLocked t1 old) in *.
  set (t3 := match peers t2 !! new with Some _ => _ | None => _ end).
  assert (evolves t2 t3 ∧ pheap t3 = pheap t) as [E3 Hph3].
  { unfold t3. destruct (peers t2 !! new); [|done]. split; [apply discard_evolves|].
    destruct (discard_tables t2 new) as (-> & _). done. }
  clearbody t3. set (d' := with_id _ new).
  etransitivity; [exact E1|]. etransitivity; [exact E2|]. etransitivity; [exact E3|].
  etransitivity; [apply (set_peer_evolves t3 p d d')|].
  - by rewrite Hph3.
  - unfold d', state_is. case_bool_decide; [done|]. done.
  - apply tables_evolves; simpl; by case_match.
Qed.

Lemma forget_unlisted_evolves order t now : evolves t (forgetUnlistedPeersLocked order t now).1.
Proof.
  unfold forgetUnlistedPeersLocked. generalize (order (peers t)). intros l.
  assert (∀ acc, evolves acc.1 (foldl (forget_step now) acc l).1) as H; [|apply (H (t, false))].
  induction l as [|e l IH]; intros [t0 ch]; simpl; [done|]. etransitivity; [|apply IH].
  unfold forget_step. destruct (pheap t0 !! e.2); [|done]. destruct (_ || _); [done|]. simpl.
  etransitivity; [apply discard_evolves|]. by apply tables_evolves.
Qed.

Lemma fail_punch_evolves order t p s now :
  evolves t (failPunchSessionIfCurrentLocked order t p s now).1.
Proof.
  unfold failPunchSessionIfCurrentLocked. destruct p as [p|], s as [s|]; try done.
  destruct (pheap t !! p) as [d|], (sheap t !! s) as [x|]; try done.
  destruct (_ || _); [done|]. destruct (negb _); [done|]. simpl.
  etransitivity; [apply (mark_failed_evolves t p now)|].
  etransitivity; [apply forget_evolves|]. etransitivity; [apply signalDone_evolves|].
  apply rebuild_evolves.
Qed.

Lemma find_or_new_evolves t id d0 t' p d ok : dState d0 ≠ P2PStateEstablished →
  find_or_new t id d0 = (t', p, d, ok) → evolves t t' ∧ pheap t' !! p = Some d.
Proof.
  intros Hne. unfold find_or_new. destruct (get_peer t id) as [[p' d']|] eqn:Eg.
  - intros [= <- <- <- <-]. by apply get_peer_some in Eg as [? ?].
  - intros [= <- <- <- <-]. split; [|apply lookup_insert_eq].
    etransitivity; [|by apply set_peer_quiet]. by apply tables_evolves.
Qed.

Lemma list_step_evolves now acc e : evolves acc.1.1 (list_step now acc e).1.1.
Proof.
  destruct acc as [[t ren] retry]. simpl. unfold list_step. destruct (recycled t e); [done|].
  pose proof (renumber_evolves t (leKey e) (leID e)) as E1.
  destruct (renumberPeerLocked t (leKey e) (leID e)) as [t1 moved]. simpl in E1.
  destruct (find_or_new t1 (leID e) _) as [[[t2 p] d] ok] eqn:Ef.
  destruct (find_or_new_evolves _ _ _ _ _ _ _ (new_not_est _ _) Ef) as [E2 Hd].
  etransitivity; [exact E1|]. etransitivity; [exact E2|].
  set (again := _ && _ && _). simpl. set (t3 := if again then _ else t2).
  assert (evolves t2 t3 ∧ pheap t3 !! p = Some d) as [E3 Hd3].
  { unfold t3. destruct again; [|done]. case_match; [|done]. split; [|done]. by apply tables_evolves. }
  clearbody t3. etransitivity; [exact E3|]. set (d' := with_seen _ now).
  etransitivity; [apply (set_peer_evolves t3 p d d')|]; [done| |].
  { unfold d'. by destruct again. }
  etransitivity; [apply core_evolves, ensure_gate_core|].
  destruct (IsZeroKey (leKey e)); [done|]. apply core_evolves, keys_core.
Qed.
Lemma peer_list_evolves order t now es : evolves t (peer_list_tables order t now es).1.1.
Proof.
  unfold peer_list_tables.
  assert (∀ acc, evolves acc.1.1 (foldl (list_step now) acc es).1.1) as Hf.
  { induction es as [|e es IH]; intros acc; simpl; [done|].
    etransitivity; [apply list_step_evolves|apply IH]. }
  specialize (Hf (t, false, [])). destruct (foldl _ _ _) as [[t' ren] retry]. simpl in *.
  etransitivity; [exact Hf|apply rebuild_evolves].
Qed.

Lemma join_evolves t s x n : sheap t !! s = Some x → evolves t (join_session t s x n).
Proof.
  intros Hx. unfold join_session. destruct (_ && _); [|done].
  set (x' := MkSession _ _ _ _ _ _ _ _ _ _ n true _ _ _).
  transitivity (set_session t s x'); [by eapply set_session_evolves|by apply tables_evolves].
Qed.
Lemma start_session_evolves t x : tinv t → evolves t (start_session t x).1.
Proof.
  intros H. unfold start_session. simpl.
  assert (sheap t !! nextRef t = None) as Hfresh.
  { destruct (sheap t !! nextRef t) eqn:E; [|done].
    pose proof (ti_sfresh _ H (nextRef t) ltac:(by rewrite E)). lia. }
  set (t1 := set_session _ (nextRef t) x).
  transitivity (discardSessionLocked t1 (TargetID x)); [|by apply tables_evolves].
  etransitivity; [|apply discard_evolves]. split; [by intros p d' ?; eauto|]. intros s y Hy. simpl. rewrite lookup_insert_ne by congruence. eauto.
Qed.

Lemma relay_peer_evolves order t now msg p d d0 : tinv t → pheap t !! p = Some d0 →
  dID d = dID d0 → dState d = dState d0 → dEndpoint d = dEndpoint d0 →
  evolves t (relay_peer order t now msg p d).1.
Proof.
  intros H Hp Hid Hst He. unfold relay_peer.
  destruct (_ && (_ || _)); [eapply set_peer_evolves; [done|]; rewrite Hst, He; done|].
  set (established := state_is d P2PStateEstablished). set (d1 := if established then _ else d).
  assert (dState d1 ≠ P2PStateEstablished ∧ dID d1 = dID d0) as [Hst1 Hid1].
  { unfold d1, established, state_is. by case_bool_decide. }
  set (d2 := if negb (IsZeroKey (PublicKey msg)) && _ then _ else d1).
  assert (dState d2 ≠ P2PStateEstablished ∧ dID d2 = dID d0) as [Hst2 Hid2].
  { unfold d2. by destruct (_ && _). }
  clearbody d1 d2. destruct (_ || _ || _).
  { etransitivity; [by apply (set_peer_quiet t p d2)|]. etransitivity; [apply mark_failed_evolves|].
    apply rebuild_evolves. }
  case_match eqn:Ecur.
  - destruct p0 as [s x]. simpl. assert (sheap t !! s = Some x) as Hx.
    { destruct (get_session t (mTargetID msg)) as [[s' x']|] eqn:Eg; [|done].
      destruct (_ && _ && _); [|done]. injection Ecur as -> ->. by apply get_session_some in Eg as [_ ?]. }
    etransitivity; [by apply join_evolves|]. by apply set_peer_quiet.
  - set (d3 := with_state _ P2PStateTrying). set (x := MkSession _ _ _ _ _ _ _ _ _ _ _ _ _ _ _).
    pose proof (start_session_evolves (set_peer t p d3) x) as E.
    destruct (start_session (set_peer t p d3) x) as [t4 s]. simpl in *.
    etransitivity; [by apply (set_peer_quiet t p d3)|].
    etransitivity; [apply E; by eapply set_peer_inv|].
    etransitivity; [|apply rebuild_evolves]. apply core_evolves, keys_core.
Qed.
Lemma relay_evolves order t now msg : tinv t → evolves t (relay_locked order t now msg).1.
Proof.
  intros H. unfold relay_locked. set (t1 := if _ && _ then _ else t).
  assert (tinv t1 ∧ evolves t t1) as [H1 E1].
  { unfold t1. destruct (_ && _); [|done]. split; [by apply renumber_inv|apply renumber_evolves]. }
  clearbody t1. destruct (find_or_new t1 _ _) as [[[t2 p] d] ok] eqn:Ef.
  destruct (find_or_new_inv _ _ _ _ _ _ _ H1 eq_refl (new_not_est' _) Ef) as (H2 & Hp & Hd & Hid & _).
  destruct (find_or_new_evolves _ _ _ _ _ _ _ (new_not_est' _) Ef) as [E2 _].
  etransitivity; [exact E1|]. etransitivity; [exact E2|]. by eapply relay_peer_evolves.
Qed.

Lemma try_evolves order t now id : evolves t (try_locked order t now id).1.1.
Proof.
  unfold try_locked. destruct (get_peer t id) as [[p d]|]; [|done].
  destruct (_ || _ || _ || _); [done|]. destruct (active d); [done|]. destruct (_ && _); simpl.
  - case_match; [|done]. by apply tables_evolves.
  - etransitivity; [|apply rebuild_evolves]. by apply set_peer_quiet.
Qed.
Lemma punch_evolves t now s e : evolves t (punch_locked t now s e).1.1.
Proof.
  unfold punch_locked. destruct (sheap t !! s) as [x|] eqn:Ex; [|done].
  destruct (get_peer t (TargetID x)) as [[p d]|] eqn:Eg; [|done]. apply get_peer_some in Eg as [_ Hd].
  destruct (_ || _); [done|]. simpl. etransitivity; [by apply (set_peer_evolves t p d (with_used d now (dPunchAttempts d)))|].
  by eapply set_session_evolves.
Qed.
Lemma fail_promotion_evolves order t now job : evolves t (fail_promotion_locked order t now job).1.
Proof.
  unfold fail_promotion_locked.
  destruct (get_peer t (jPeerID job)) as [[p d]|]; [|apply signalDone_evolves].
  destruct (_ && _); [|apply signalDone_evolves]. simpl. etransitivity; [|apply signalDone_evolves].
  etransitivity; [|apply rebuild_evolves]. etransitivity; [|apply forget_evolves].
  apply mark_failed_evolves.
Qed.
Lemma maint_step_evolves dev now acc e : evolves (maT acc) (maT (maint_step dev now acc e)).
Proof.
  unfold maint_step. destruct e as [id p].
  destruct (pheap (maT acc) !! p) as [d|] eqn:Ed; [|done]. destruct (dState d) eqn:Est; try done.
  - destruct (_ <? _); [|done]. etransitivity; [apply mark_failed_evolves|apply discard_evolves].
  - set (due := match LookupPeer dev (dPublicKey d) with Some _ => _ | None => _ end).
    assert (dState due.1 = dState d ∧ dEndpoint due.1 = dEndpoint d) as [Hst He].
    { unfold due, directKeepaliveDue. repeat case_match; done. }
    destruct due as [d' b]. simpl in Hst, He. destruct (_ || _); simpl.
    + unfold mark_failed. simpl. rewrite lookup_insert_eq.
      etransitivity; [|apply core_evolves, retry_gate_core].
      split; [|by intros s x ?; eauto]. intros p' d1 Hd1 Hs1. simpl in Hd1.
      apply lookup_insert_Some in Hd1 as [[<- <-]|[Hne Hd1]]; [done|].
      apply lookup_insert_Some in Hd1 as [[<- <-]|[_ ?]]; [done|eauto].
    + by eapply set_peer_evolves.
Qed.
Lemma maint_evolves order dev t now : evolves t (maT (maint_locked order dev t now)).
Proof.
  unfold maint_locked. pose proof (forget_unlisted_evolves order t now) as E1.
  destruct (forgetUnlistedPeersLocked order t now) as [t1 changed]. simpl in E1.
  assert (∀ l acc, evolves (maT acc) (maT (foldl (maint_step dev now) acc l))) as Hf.
  { induction l as [|e l IH]; intros acc; simpl; [done|].
    etransitivity; [apply maint_step_evolves|apply IH]. }
  specialize (Hf (order (peers t1)) (MkMaint t1 changed [] [])).
  destruct (maChanged _); simpl; [|by etransitivity].
  etransitivity; [exact E1|]. etransitivity; [exact Hf|apply rebuild_evolves].
Qed.
(** A promotion gives exactly the promoted peer its direct path. *)
Lemma promote_smono order t now job : smono t (promote_locked order t now job).1.
Proof.
  unfold promote_locked. destruct (get_peer t (jPeerID job)) as [[p d]|]; [|apply signalDone_evolves].
  destruct (_ && _); [|apply signalDone_evolves]. simpl.
  set (d' := with_used _ now 0).
  transitivity (set_peer t p d'); [intros s x ?; eauto|].
  etransitivity; [apply (forget_evolves _ (jPeerID job) (jSession job))|].
  etransitivity; [apply (rebuild_evolves order)|]. apply signalDone_evolves.
Qed.
Lemma promote_est order t now job p d' : tinv t →
  pheap (promote_locked order t now job).1 !! p = Some d' → dState d' = P2PStateEstablished →
  (∃ d, pheap t !! p = Some d ∧ dState d = P2PStateEstablished ∧ dEndpoint d = dEndpoint d') ∨
  (peers t !! jPeerID job = Some p ∧ sessions t !! jPeerID job = Some (jSession job) ∧
   dEndpoint d' = Some (jEndpoint job) ∧ dEstablishedAt d' = now).
Proof.
  intros H. unfold promote_locked.
  destruct (get_peer t (jPeerID job)) as [[p0 d0]|] eqn:Eg; simpl.
  2:{ intros Hd' Hs'. left. by eapply (signalDone_evolves t (jSession job)). }
  apply get_peer_some in Eg as [Hp0 Hd0].
  destruct (state_is d0 _); cbn [andb].
  2:{ intros Hd' Hs'. left. by eapply (signalDone_evolves t (jSession job)). }
  case_bool_decide as Hs; simpl.
  2:{ intros Hd' Hs'. left. by eapply (signalDone_evolves t (jSession job)). }
  destruct (signalDone_tables (rebuildIndexesLocked order (forgetSessionLocked
    (set_peer t p0 (with_used (with_established (with_link (with_state d0 P2PStateEstablished)
       (Some (jEndpoint job)) (jRelayPeer job)) now) now 0)) (jPeerID job) (jSession job)))
    (jSession job)) as (-> & _).
  destruct (rebuild_core order (forgetSessionLocked
    (set_peer t p0 (with_used (with_established (with_link (with_state d0 P2PStateEstablished)
       (Some (jEndpoint job)) (jRelayPeer job)) now) now 0)) (jPeerID job) (jSession job)))
    as (-> & _).
  match goal with |- context [forgetSessionLocked ?t0 ?i ?s] =>
    destruct (forget_tables t0 i s) as (-> & _) end. simpl.
  intros [[<- <-]|[_ Hd']]%lookup_insert_Some Hst; [by right|]. left. eauto.
Qed.

(** ** Configurations *)

(** The handshake time in [PActivate] and [PPromote] is the one the poll read;
    it records why the promotion went on. *)
Inductive pending : Type :=
| PRelay (self : natClass) (r : relay_punch)
| PRelayFail (p s : Z)
| PPunch (packet : bytes) (s : Z) (e : Endpoint)
| PPrepare (job : p2pPromotionJob)
| PFail (job : p2pPromotionJob)
| PDrop (job : p2pPromotionJob)
| PPoll (job : p2pPromotionJob) (initiate : bool)
| PActivate (job : p2pPromotionJob) (handshake : Z)
| PPromote (job : p2pPromotionJob) (handshake : Z)
| PLoop (lp : punch_loop).

Definition config : Type := Client * list pending.
Definition pop_control c (q : list p2pControlEvent) : Client := with_control c q (droppedControl c).

(** What a goroutine starts on its own: a datagram or message arrives, a worker
    takes the next item of its queue, the packet path observes a destination,
    the maintenance ticker fires.  A tick is one step: its sections before the
    locked one only concern the registration. *)
Inductive spont : Client → Client → list pending → list Call → Prop :=
| sp_message c m : spont c (EnqueueMessage c m).1 [] []
| sp_datagram c packet addr : spont c (EnqueuePunch c packet addr).1 [] []
| sp_ack dev c m q c' calls : controlQueue c = EvMessage m :: q → Subtype m = P2PSubtypeRegisterAck →
    handleRegisterAck dev (pop_control c q) m = (c', calls) → spont c c' [] calls
| sp_list order now c m q : is_order order → controlQueue c = EvMessage m :: q →
    Subtype m = P2PSubtypePeerList →
    spont c (handlePeerList order (pop_control c q) now m) [] []
| sp_names c m q : controlQueue c = EvMessage m :: q → Subtype m = P2PSubtypePeerNames →
    spont c (handlePeerNames (pop_control c q) m) [] []
| sp_relay order now c m q t r : is_order order → controlQueue c = EvMessage m :: q →
    Subtype m = P2PSubtypePunchRelay → relay_locked order (tb c) now m = (t, r) →
    spont c (with_tb (pop_control c q) t)
      (match r with Some r => [PRelay (selfNATLocked c) r] | None => [] end) []
| sp_ignored c m q : controlQueue c = EvMessage m :: q →
    Subtype m ∉ [P2PSubtypeRegisterAck; P2PSubtypePeerList; P2PSubtypePeerNames; P2PSubtypePunchRelay] →
    spont c (pop_control c q) [] []
| sp_punch c packet addr q : controlQueue c = EvPunch packet addr :: q →
    spont c (pop_control c q)
      (match punch_lookup (tb c) packet addr with Some (s, e) => [PPunch packet s e] | None => [] end) []
| sp_observe now c dst : spont c (ObserveDestination c now dst) [] []
| sp_attempt order dev now c id q c' ok calls : is_order order → attemptQueue c = id :: q →
    tryP2PByID order dev (with_attempts c q (droppedAttempts c)) now id = (c', ok, calls) →
    spont c c' [] calls
| sp_try order dev now c id c' ok calls : is_order order →
    tryP2PByID order dev c now id = (c', ok, calls) → spont c c' [] calls
| sp_hole now c job q : punchQueue c = job :: q →
    spont c (with_jobs c q (promotionQueue c)) [PLoop (holePunch_start job now)] []
| sp_promotion c job q : promotionQueue c = job :: q →
    spont c (with_jobs c (punchQueue c) q) [PPoll job (initiatesHandshake (jPublicKey job))] []
| sp_maintenance order dev c collected port now c' calls : is_order order →
    maintenance order dev c collected port now = (c', calls) → spont c c' [] calls
| sp_extra c addrs : spont c (SetExtraCandidates c addrs) [] [].

(** How a goroutine goes on. *)
Inductive resume : Client → pending → Client → list pending → list Call → Prop :=
| re_relay dev c self r c' failed calls : relay_schedule dev c self r = (c', failed, calls) →
    resume c (PRelay self r) c' (if failed : bool then [PRelayFail (rpPeer r) (rpSession r)] else []) calls
| re_relay_fail order now c p s t b : is_order order →
    failPunchSessionIfCurrentLocked order (tb c) (Some p) (Some s) now = (t, b) →
    resume c (PRelayFail p s) (with_tb c t) [] []
| re_punch now c packet s e t reply job : punch_locked (tb c) now s e = (t, reply, job) →
    resume c (PPunch packet s e) (with_tb c t)
      (match job with Some job => [PPrepare job] | None => [] end) (punch_reply reply packet e)
| re_prepare dev c job c' job' failed calls : punch_prepare dev c job = (c', job', failed, calls) →
    resume c (PPrepare job) c' (if failed : bool then [PFail job'] else []) calls
| re_fail order dev now c job t removed : is_order order →
    fail_promotion_locked order (tb c) now job = (t, removed) →
    let remove := removed && negb (IsZeroKey (jPublicKey job)) in
    resume c (PFail job) (with_tb c t) (if remove then [] else [PDrop job])
      (if remove then CRemovePeer (jPublicKey job) :: restoreRelayRoute dev (jAssignedIP job) (jRelayPeer job)
       else [])
| re_drop dev c job : resume c (PDrop job) c [] (dropOrphanCandidate dev (tb c) job)
| re_poll dev now c job i result calls : validate_poll dev (tb c) job i now = (result, calls) →
    resume c (PPoll job i) c
      (match result with
       | PollWait i => [PPoll job i]
       | PollObsolete => [PDrop job]
       | PollFresh hs => [PActivate job hs]
       end) calls
| re_timeout c job i : resume c (PPoll job i) c [PFail job] []
| re_activate dev c job hs ok calls : activateDirectPeer dev (jPublicKey job) (jAssignedIP job) = (ok, calls) →
    resume c (PActivate job hs) c (if ok : bool then [PPromote job hs] else [PFail job]) calls
| re_promote order dev now c job hs t obsolete : is_order order →
    promote_locked order (tb c) now job = (t, obsolete) →
    resume c (PPromote job hs) (with_tb c t) [] (promote_after dev obsolete job)
| re_round order now c lp c' lp' calls : is_order order →
    holePunch_round order c lp now = (c', lp', calls) →
    resume c (PLoop lp) c' (match lp' with Some lp' => [PLoop lp'] | None => [] end) calls
| re_done c lp x : sheap (tb c) !! pjSession (lpJob lp) = Some x → sdone x = true →
    resume c (PLoop lp) (holePunch_return c lp) [] [].

Inductive step : config → list Call → config → Prop :=
| step_spont c l c' new calls : spont c c' new calls → step (c, l) calls (c', new ++ l)
| step_resume c l q rest c' new calls : l ≡ₚ q :: rest → resume c q c' new calls →
    step (c, l) calls (c', new ++ rest).

Inductive reachable (serverKey : bytes) : config → Prop :=
| reach_init : reachable serverKey (NewP2PClient serverKey, [])
| reach_step cfg calls cfg' : reachable serverKey cfg → step cfg calls cfg' → reachable serverKey cfg'.

(** ** The system invariant *)

(** A promotion belongs to a session whose target key authenticated a punch. *)
Definition job_ok t (job : p2pPromotionJob) : Prop := ∃ x packet,
  sheap t !! jSession job = Some x ∧ TargetID x = jPeerID job ∧
  verifyPunchMAC packet (TargetPubKey x) = true.
Definition pend_ok t (q : pending) : Prop :=
  match q with
  | PPunch packet s _ => ∃ x, sheap t !! s = Some x ∧ verifyPunchMAC packet (TargetPubKey x) = true
  | PPrepare job | PFail job | PDrop job | PPoll job _ => job_ok t job
  | PActivate job hs | PPromote job hs => job_ok t job ∧ UnixNano (jStartedAt job) ≤ hs
  | PRelay _ _ | PRelayFail _ _ | PLoop _ => True
  end.
Definition cinv (cfg : config) : Prop :=
  tinv (tb cfg.1) ∧ Forall (pend_ok (tb cfg.1)) cfg.2 ∧ Forall (job_ok (tb cfg.1)) (promotionQueue cfg.1).

Lemma job_ok_mono t t' job : smono t t' → job_ok t job → job_ok t' job.
Proof.
  intros Hm (x & packet & Hx & Ht & Hv). destruct (Hm _ _ Hx) as (x' & Hx' & Ht' & Hk').
  exists x', packet. split_and!; congruence.
Qed.
Lemma pend_ok_mono t t' q : smono t t' → pend_ok t q → pend_ok t' q.
Proof.
  intros Hm. destruct q; simpl; try done; try (by apply job_ok_mono).
  - intros (x & Hx & Hv). destruct (Hm _ _ Hx) as (x' & Hx' & Ht' & Hk'). exists x'. split; congruence.
  - intros [? ?]. split; [by eapply job_ok_mono|done].
  - intros [? ?]. split; [by eapply job_ok_mono|done].
Qed.

(** What one spontaneous or resumed piece of work guarantees. *)
Definition good_step c c' (new : list pending) : Prop :=
  tinv (tb c') ∧ smono (tb c) (tb c') ∧ Forall (pend_ok (tb c')) new ∧
  Forall (job_ok (tb c')) (promotionQueue c').

Lemma good_cinv c c' new l l' : cinv (c, l) → good_step c c' new → l' ⊆ l → cinv (c', new ++ l').
Proof.
  intros (H & Hp & Hq) (H' & Hm & Hn & Hq') Hsub. split_and!; simpl; try done.
  apply Forall_app. split; [done|]. apply Forall_forall. intros q Hin.
  eapply pend_ok_mono; [done|]. rewrite Forall_forall in Hp. by apply Hp, Hsub.
Qed.

(** Work that keeps the promotion queue and adds nothing to it. *)
Definition quiet_step c c' : Prop :=
  (tinv (tb c) → tinv (tb c')) ∧ (tinv (tb c) → evolves (tb c) (tb c')) ∧
  promotionQueue c' = promotionQueue c.
Lemma quiet_good c c' : tinv (tb c) → Forall (job_ok (tb c)) (promotionQueue c) → quiet_step c c' →
  good_step c c' [] ∧ est_sub (tb c) (tb c').
Proof.
  intros H Hq (Ht & He & Hpq). destruct (He H) as [Hest Hm]. split; [|done].
  unfold good_step. rewrite Hpq. split_and!; try done; [auto|].
  eapply Forall_impl; [exact Hq|]. intros job. by apply job_ok_mono.
Qed.
#[export] Instance quiet_refl : Reflexive quiet_step.
Proof. intros c. by split_and!. Qed.
#[export] Instance quiet_trans : Transitive quiet_step.
Proof.
  intros c1 c2 c3 (T1 & E1 & Q1) (T2 & E2 & Q2). split_and!; [auto| |congruence].
  intros H. etransitivity; [by apply E1|apply E2; auto].
Qed.

Lemma core_quiet c c' : same_core (tb c) (tb c') → promotionQueue c' = promotionQueue c → quiet_step c c'.
Proof.
  intros Hc Hq. split_and!; [by apply same_core_inv|intros _; by apply core_evolves|done].
Qed.
Lemma eq_quiet c c' : tb c' = tb c → promotionQueue c' = promotionQueue c → quiet_step c c'.
Proof. intros Ht Hq. apply core_quiet; [by rewrite Ht|done]. Qed.
Lemma tb_quiet c t : (tinv (tb c) → tinv t) → (tinv (tb c) → evolves (tb c) t) → quiet_step c (with_tb c t).
Proof. intros. by split_and!. Qed.

Lemma sendToServer_quiet dev c m : quiet_step c (sendToServer dev c m).1.
Proof.
  unfold sendToServer. destruct (if IsZeroKey _ then _ else _); [done|].
  destruct (endpointPeer dev); [|done]. simpl. destruct (IsZeroKey _); [|done].
  apply core_quiet; [apply server_core|done].
Qed.
Lemma queue_quiet c id : quiet_step c (queueP2PAttempt c id).1.
Proof. unfold queueP2PAttempt. destruct (_ <? _)%nat; by apply eq_quiet. Qed.
Lemma enqueue_control_quiet c e : quiet_step c (enqueue_control c e).1.
Proof. unfold enqueue_control. destruct (_ <? _)%nat; by apply eq_quiet. Qed.

Lemma handlePeerList_quiet order c now m : quiet_step c (handlePeerList order c now m).
Proof.
  unfold handlePeerList. destruct (_ <? _)%nat; [done|]. destruct (_ || _); [done|].
  set (es := read_entries _ _).
  pose proof (peer_list_inv order (tb c) now es) as Hi.
  pose proof (peer_list_evolves order (tb c) now es) as He.
  destruct (peer_list_tables order (tb c) now es) as [[t ren] retry]. simpl in Hi, He.
  assert (quiet_step c (with_tb c t)) as H1 by (apply tb_quiet; auto).
  assert (∀ c0, quiet_step c0 (foldl (fun c id => (queueP2PAttempt c id).1) c0 retry)) as Hq.
  { induction retry as [|id retry IH]; intros c0; simpl; [done|].
    etransitivity; [apply queue_quiet|apply IH]. }
  etransitivity; [exact H1|]. etransitivity; [|apply Hq]. destruct ren; [by apply eq_quiet|done].
Qed.
Lemma observe_quiet c now dst : quiet_step c (ObserveDestination c now dst).
Proof.
  unfold ObserveDestination. destruct (negb _); [done|].
  destruct (destinations (tb c) !! dst) as [[id g]|]; [|done]. destruct (_ <? _); [done|].
  set (c1 := with_tb c _). assert (quiet_step c c1) as H1 by (by apply core_quiet; [apply gheap_core|]).
  pose proof (queue_quiet c1 id) as H2. destruct (queueP2PAttempt c1 id) as [c2 queued]. simpl in H2.
  etransitivity; [exact H1|]. etransitivity; [exact H2|].
  destruct queued; [done|]. by apply core_quiet; [apply gheap_core|].
Qed.
Lemma try_quiet order dev c now id : quiet_step c (tryP2PByID order dev c now id).1.1.
Proof.
  unfold tryP2PByID. pose proof (try_inv order (tb c) now id) as Hi.
  pose proof (try_evolves order (tb c) now id) as He.
  destruct (try_locked order (tb c) now id) as [[t result] request]. simpl in Hi, He.
  assert (quiet_step c (with_tb c t)) as H1 by (apply tb_quiet; auto).
  destruct request; [|done].
  pose proof (sendToServer_quiet dev (with_tb c t) (client_message P2PSubtypePunchRequest id [])) as H2.
  destruct (sendToServer _ _ _). simpl in *. by etransitivity.
Qed.
Lemma register_quiet dev c collected port now : quiet_step c (register dev c collected port now).1.
Proof.
  unfold register. etransitivity; [|apply sendToServer_quiet]. by apply eq_quiet.
Qed.
Lemma maintenance_quiet order dev c collected port now :
  quiet_step c (maintenance order dev c collected port now).1.
Proof.
  unfold maintenance. assert (quiet_step c (registerDue c now).1) as H1.
  { unfold registerDue. destruct (_ =? _); [done|]. destruct (reregister c); [by apply eq_quiet|done]. }
  destruct (registerDue c now) as [c1 due]. simpl in H1.
  assert (quiet_step c1 (if due then register dev c1 collected port now else (c1, [])).1) as H2.
  { destruct due; [apply register_quiet|done]. }
  destruct (if due then _ else _) as [c2 calls1]. simpl in H2.
  destruct (_ =? _); [by etransitivity|].
  pose proof (sendToServer_quiet dev c2 (client_message P2PSubtypePeerList 0 [])) as H3.
  fold (requestPeerList dev c2) in H3. destruct (requestPeerList dev c2) as [c3 calls2]. simpl in *.
  etransitivity; [exact H1|]. etransitivity; [exact H2|]. etransitivity; [exact H3|].
  etransitivity; [apply (tb_quiet c3 (maT (maint_locked order dev (tb c3) now)))|by apply eq_quiet].
  - apply maint_inv.
  - intros _. apply maint_evolves.
Qed.

Lemma punch_lookup_ok t packet addr s e : punch_lookup t packet addr = Some (s, e) →
  ∃ x, sheap t !! s = Some x ∧ sessions t !! TargetID x = Some s ∧
    verifyPunchMAC packet (TargetPubKey x) = true.
Proof.
  unfold punch_lookup. destruct (_ || _); [done|]. intros Hl.
  apply bind_Some in Hl as (s' & Hs' & Hl). apply bind_Some in Hl as (x & Hx & Hl).
  case_bool_decide as Hcur; cbn [andb] in Hl; [|done]. destruct (acceptsNonce _ _); [|done].
  apply bind_Some in Hl as (? & _ & Hl). destruct (verifyPunchMAC _ _) eqn:Ev; [|done].
  apply bind_Some in Hl as (e' & _ & [= <- <-]). eauto.
Qed.

Lemma spont_good c c' new calls : tinv (tb c) → Forall (job_ok (tb c)) (promotionQueue c) →
  spont c c' new calls → good_step c c' new ∧ est_sub (tb c) (tb c').
Proof.
  intros H Hq Hs. pose proof (quiet_good c c' H Hq) as Hgood.
  destruct Hs as [c m|c packet addr|dev c m q c' calls Hcq Hsub E|order now c m q _ Hcq Hsub
    |c m q Hcq Hsub|order now c m q t r _ Hcq Hsub E|c m q Hcq Hsub|c packet addr q Hcq|now c dst
    |order dev now c id q c' ok calls _ Haq E|order dev now c id c' ok calls _ E|now c job q Hpq
    |c job q Hpq|order dev c collected port now c' calls _ E|c addrs].
  - apply Hgood, enqueue_control_quiet.
  - apply Hgood. unfold EnqueuePunch. destruct (negb _); [done|]. apply enqueue_control_quiet.
  - apply Hgood. pose proof (sendToServer_quiet dev (with_ack (pop_control c q) (mTargetID m)
      (normalizeUDPAddr (ObservedAddr m))) (client_message P2PSubtypePeerList 0 [])) as H1.
    unfold handleRegisterAck, requestPeerList in E. rewrite E in H1. simpl in H1.
    etransitivity; [|exact H1]. by apply eq_quiet.
  - apply Hgood. etransitivity; [|apply handlePeerList_quiet]. by apply eq_quiet.
  - apply Hgood. unfold handlePeerNames. destruct (_ <? _)%nat; by apply eq_quiet.
  - pose proof (relay_inv order (tb c) now m H) as Hi. pose proof (relay_evolves order (tb c) now m H) as He.
    rewrite E in Hi, He. simpl in Hi, He.
    assert (quiet_step c (with_tb (pop_control c q) t)) as H1 by (by split_and!).
    destruct (Hgood H1) as [(? & ? & _ & ?) ?]. split; [|done]. split_and!; try done.
    destruct r; by repeat constructor.
  - apply Hgood. by apply eq_quiet.
  - destruct Hgood as [(? & ? & _ & ?) ?]; [by apply eq_quiet|]. split; [|done]. split_and!; try done.
    destruct (punch_lookup _ _ _) as [[s e]|] eqn:E; [|constructor].
    apply punch_lookup_ok in E as (x & Hx & _ & Hv). constructor; [|constructor]. simpl. eauto.
  - apply Hgood, observe_quiet.
  - apply Hgood. pose proof (try_quiet order dev (with_attempts c q (droppedAttempts c)) now id) as H1.
    rewrite E in H1. etransitivity; [|exact H1]. by apply eq_quiet.
  - apply Hgood. pose proof (try_quiet order dev c now id) as H1. by rewrite E in H1.
  - destruct Hgood as [(? & ? & _ & ?) ?]; [by apply eq_quiet|]. split; [|done]. split_and!; try done.
    by repeat constructor.
  - rewrite Hpq in Hq. apply Forall_cons in Hq as [Hj Hq]. split; [|intros p d' ? ?; eauto].
    unfold good_step. simpl. split_and!; try done. by repeat constructor.
  - apply Hgood. pose proof (maintenance_quiet order dev c collected port now) as H1. by rewrite E in H1.
  - apply Hgood. by apply eq_quiet.
Qed.
(** Peers that have a direct path after the step had it before, or are being
    promoted by it. *)
Definition est_by c c' (q : pending) : Prop := ∀ p d', pheap (tb c') !! p = Some d' →
  dState d' = P2PStateEstablished →
  (∃ d, pheap (tb c) !! p = Some d ∧ dState d = P2PStateEstablished ∧ dEndpoint d = dEndpoint d') ∨
  (∃ job hs, q = PPromote job hs ∧ peers (tb c) !! jPeerID job = Some p ∧
     sessions (tb c) !! jPeerID job = Some (jSession job) ∧ dEndpoint d' = Some (jEndpoint job)).

Lemma quiet_resume c c' new q : tinv (tb c) → Forall (job_ok (tb c)) (promotionQueue c) →
  quiet_step c c' → Forall (pend_ok (tb c')) new → good_step c c' new ∧ est_by c c' q.
Proof.
  intros H Hq Hs Hn. destruct (quiet_good c c' H Hq Hs) as [(? & ? & _ & ?) He].
  split; [by split_and!|]. intros p d' Hd' Hst. left. by apply He.
Qed.

Lemma relay_schedule_quiet dev c self r : quiet_step c (relay_schedule dev c self r).1.1.
Proof.
  unfold relay_schedule. destruct (sheap (tb c) !! rpSession r) as [x|]; [|done].
  destruct (_ || _); [done|]. unfold enqueuePunchJob. destruct (_ <? _)%nat; [|done]. by apply eq_quiet.
Qed.
Lemma round_quiet order c lp now : quiet_step c (holePunch_round order c lp now).1.1.
Proof.
  unfold holePunch_round. destruct (sheap (tb c) !! pjSession (lpJob lp)) as [x|]; [|by apply eq_quiet].
  assert (∀ dl, quiet_step c (punch_send c lp x dl now).1.1) as Hsend.
  { intros dl. unfold punch_send. destruct (_ =? _)%nat; [done|].
    destruct (spray_step _ _ _ _) as [[lim spray] [lo hi]]. by apply eq_quiet. }
  destruct (_ <? _); [|apply Hsend]. destruct (Promoting x).
  - destruct (_ <? _); [by apply eq_quiet|apply Hsend].
  - simpl. etransitivity; [apply tb_quiet|by apply eq_quiet].
    + apply fail_punch_inv.
    + intros _. apply fail_punch_evolves.
Qed.

Lemma punch_locked_job t now s e t' reply job packet : tinv t →
  pend_ok t (PPunch packet s e) → punch_locked t now s e = (t', reply, Some job) → job_ok t' job.
Proof.
  intros H (x & Hx & Hv). unfold punch_locked. rewrite Hx.
  destruct (get_peer t (TargetID x)) as [[p d]|] eqn:Eg; [|done]. apply get_peer_some in Eg as [Hp Hd].
  destruct (_ || _); [done|]. destruct (negb (Promoting x)); [|done]. intros [= <- _ <-].
  destruct (ti_peers _ H _ _ Hp) as (d1 & Hd1 & Hid). assert (d1 = d) as -> by congruence.
  unfold job_ok. simpl. rewrite lookup_insert_eq.
  eexists _, packet. split_and!; [done|by simpl|exact Hv].
Qed.

Lemma prepare_good dev c job c' job' failed calls : tinv (tb c) →
  Forall (job_ok (tb c)) (promotionQueue c) → job_ok (tb c) job →
  punch_prepare dev c job = (c', job', failed, calls) →
  tb c' = tb c ∧ Forall (job_ok (tb c)) (promotionQueue c') ∧ job_ok (tb c) job'.
Proof.
  intros H Hq Hj. unfold punch_prepare.
  set (j := MkPromotionJob _ _ _ _ _ _ _). assert (job_ok (tb c) j) as Hj' by exact Hj.
  clearbody j. destruct (prepareDirectPeer dev (tb c) _ _ _) as [ok cs].
  destruct (negb ok); [by intros [= <- <- <- <-]|].
  unfold enqueuePromotion. destruct (_ <? _)%nat; intros [= <- <- <- <-]; simpl; [|done].
  split_and!; try done. apply Forall_app. by repeat constructor.
Qed.

Lemma validate_poll_fresh dev t job i now hs calls :
  validate_poll dev t job i now = (PollFresh hs, calls) → UnixNano (jStartedAt job) ≤ hs.
Proof.
  unfold validate_poll. destruct (LookupPeer _ _) as [w|]; [|by repeat case_match].
  destruct (Z.ltb_spec (lastHandshakeNano dev w) (UnixNano (jStartedAt job))); [by repeat case_match|].
  destruct (match get_peer t (jPeerID job) with Some _ => _ | None => _ end); [|done].
  by intros [= <- <-].
Qed.

Lemma resume_good c q c' new calls : tinv (tb c) → Forall (job_ok (tb c)) (promotionQueue c) →
  pend_ok (tb c) q → resume c q c' new calls → good_step c c' new ∧ est_by c c' q.
Proof.
  intros H Hq Hp Hr. pose proof (fun new => quiet_resume c c' new q H Hq) as Hquiet.
  destruct Hr as [dev c self r c' failed calls E|order now c p s t b _ E|now c packet s e t reply job E
    |dev c job c' job' failed calls E|order dev now c job t removed _ E remove|dev c job
    |dev now c job i result calls E|c job i|dev c job hs ok calls E|order dev now c job hs t obsolete _ E
    |order now c lp c' lp' calls _ E|c lp x Hx Hdone].
  - apply Hquiet.
    + pose proof (relay_schedule_quiet dev c self r) as H1. by rewrite E in H1.
    + destruct failed; by repeat constructor.
  - apply Hquiet; [|constructor]. apply tb_quiet.
    + intros _. pose proof (fail_punch_inv order (tb c) (Some p) (Some s) now H) as H1. by rewrite E in H1.
    + intros _. pose proof (fail_punch_evolves order (tb c) (Some p) (Some s) now) as H1. by rewrite E in H1.
  - apply Hquiet.
    + apply tb_quiet; intros _.
      * pose proof (punch_inv (tb c) now s e H) as H1. by rewrite E in H1.
      * pose proof (punch_evolves (tb c) now s e) as H1. by rewrite E in H1.
    + destruct job as [job|]; [|constructor]. constructor; [|constructor]. simpl.
      by eapply punch_locked_job.
  - destruct (prepare_good _ _ _ _ _ _ _ H Hq Hp E) as (Ht & Hq' & Hj').
    split; [|intros p d'; rewrite Ht; eauto]. unfold good_step. rewrite Ht. split_and!; try done.
    destruct failed; by repeat constructor.
  - pose proof (fail_promotion_inv order (tb c) now job H) as H1.
    pose proof (fail_promotion_evolves order (tb c) now job) as H2. rewrite E in H1, H2. simpl in H1, H2.
    apply Hquiet; [by apply tb_quiet|]. destruct remove; [constructor|].
    constructor; [|constructor]. simpl. eapply job_ok_mono; [apply H2|done].
  - apply Hquiet; [done|constructor].
  - apply Hquiet; [done|]. destruct result as [i'| |hs]; repeat constructor; try done.
    by eapply validate_poll_fresh.
  - apply Hquiet; [done|]. by repeat constructor.
  - apply Hquiet; [done|]. destruct Hp as [Hj Hhs]. destruct ok; by repeat constructor.
  - pose proof (promote_inv order (tb c) now job H) as H1.
    pose proof (promote_smono order (tb c) now job) as H2.
    pose proof (fun p d' => promote_est order (tb c) now job p d' H) as H3.
    rewrite E in H1, H2, H3. simpl in H1, H2, H3. split.
    + unfold good_step. simpl. split_and!; try done.
      eapply Forall_impl; [exact Hq|]. intros j. by apply job_ok_mono.
    + intros p d' Hd' Hst. destruct (H3 p d' Hd' Hst) as [?|(? & ? & ? & ?)]; [by left|right; eauto 10].
  - apply Hquiet.
    + pose proof (round_quiet order c lp now) as H1. by rewrite E in H1.
    + destruct lp'; by repeat constructor.
  - apply Hquiet; [by apply eq_quiet|constructor].
Qed.

Lemma step_cinv cfg calls cfg' : cinv cfg → step cfg calls cfg' → cinv cfg'.
Proof.
  intros Hi Hs. pose proof Hi as (H & Hp & Hq).
  destruct Hs as [c l c' new calls Hs|c l q rest c' new calls Hperm Hr]; simpl in *.
  - destruct (spont_good _ _ _ _ H Hq Hs) as [Hg _]. by eapply good_cinv.
  - rewrite Hperm in Hp. apply Forall_cons in Hp as [Hp _].
    destruct (resume_good _ _ _ _ _ H Hq Hp Hr) as [Hg _]. eapply good_cinv; [exact Hi|done|].
    intros x Hx. rewrite Hperm. by apply elem_of_cons; right.
Qed.
Lemma reachable_cinv k cfg : reachable k cfg → cinv cfg.
Proof.
  induction 1 as [|cfg calls cfg' _ IH Hs]; [|by eapply step_cinv].
  split_and!; simpl; [apply tinv_empty|constructor|constructor].
Qed.

(** C4: the client's tables stay consistent in every reachable configuration,
    whatever messages and datagrams arrive and however the workers interleave:
    peers and sessions are listed under their own ID, each nonce leads to the
    current session of a known peer and is accepted by it, and a peer with a
    direct path has no punch session left. *)
Theorem p2p_tables_consistent serverKey c pend : reachable serverKey (c, pend) →
  (∀ id p, peers (tb c) !! id = Some p → ∃ d, pheap (tb c) !! p = Some d ∧ dID d = id) ∧
  (∀ id s, sessions (tb c) !! id = Some s →
     (∃ x, sheap (tb c) !! s = Some x ∧ TargetID x = id) ∧ is_Some (peers (tb c) !! id)) ∧
  (∀ n s, sessionByNonce (tb c) !! n = Some s →
     ∃ x, sheap (tb c) !! s = Some x ∧ sessions (tb c) !! TargetID x = Some s ∧
       acceptsNonce x n = true) ∧
  (∀ id s p d, sessions (tb c) !! id = Some s → peers (tb c) !! id = Some p →
     pheap (tb c) !! p = Some d → dState d ≠ P2PStateEstablished).
Proof. intros Hr. destruct (reachable_cinv _ _ Hr) as ([] & _ & _). by split_and!. Qed.

End System.

(** ** A concrete run *)

(** A stand-in for the cryptography and the bind: endpoints are addresses, the
    shared secret is the byte-wise sum of the two keys, the hash returns its
    key. *)
Definition demo_env (own : bytes) : P2PEnv :=
  {| Endpoint := UDPAddr; ParseEndpoint := Some;
     sharedSecret := fun k => Some (zip_with (fun a b => z2b (b2z a + b2z b)) own k);
     blake2s256 := fun ss _ => ss; myPublicKey := own |}.
Module Demo.
Definition key_a : bytes := replicate 32 (z2b 1).
Definition key_b : bytes := replicate 32 (z2b 2).
Definition key_server : bytes := replicate 32 (z2b 9).
#[local] Instance env_a : P2PEnv := demo_env key_a.

Definition nonce : bytes := replicate 8 (z2b 5).
Definition addr_b : UDPAddr := MkUDPAddr (ip4 203 0 113 7) 40000.
Definition relay_msg : P2PMessage :=
  SetObservedAddr (MkP2PMessage P2PSubtypePunchRelay key_b (zeros 16) 0 (zeros 16) 0 7 nonce
                     (ip4 10 0 0 7)) addr_b.
Definition punch : bytes :=
  [z2b P2PSubtypePunchPacket] ++ nonce ++ replicate 32 (z2b 3).
Definition peer_b : Peer := MkPeer 1 key_b.
Definition dev : Device :=
  MkDevice (fun k => if bool_decide (k = key_b) then Some peer_b else None) (fun _ => None)
    (fun _ => true) None (fun _ => 2000) (fun _ => 0) false.
Definition order : gmap Z Z → list (Z * Z) := map_to_list.
Lemma order_ok : is_order order.
Proof. intros m. reflexivity. Qed.

(** A relay arrives and is handled, a punch arrives and is handled, the
    promotion is prepared, queued, polled, activated and committed. *)
Definition end_b : Endpoint := addr_b.
Definition job0 : p2pPromotionJob := MkPromotionJob 7 1 key_b (ip4 10 0 0 7) end_b None 1100.
Definition c0 : Client := NewP2PClient key_server.
Definition c1 : Client := (EnqueueMessage c0 relay_msg).1.
Definition c2 : Client := with_tb (pop_control c1 []) (relay_locked order (tb c1) 1000 relay_msg).1.
Definition p2 : list pending :=
  match (relay_locked order (tb c1) 1000 relay_msg).2 with
  | Some r => [PRelay (selfNATLocked c1) r]
  | None => []
  end.
Definition c3 : Client := (EnqueuePunch c2 punch addr_b).1.
Definition c4 : Client := pop_control c3 [].
Definition c5 : Client := with_tb c4 (punch_locked (tb c4) 1100 1 end_b).1.1.
Definition c6 : Client := (punch_prepare dev c5 job0).1.1.1.
Definition c7 : Client := with_jobs c6 (punchQueue c6) [].
Definition c8 : Client := with_tb c7 (promote_locked order (tb c7) 2100 job0).1.

Lemma reach_relay : reachable key_server (c2, p2).
Proof.
  eapply reach_step.
  - eapply reach_step; [apply reach_init|]. apply (step_spont c0 [] c1 []), (sp_message c0 relay_msg).
  - rewrite <- (app_nil_r p2). apply (step_spont c1 [] c2 p2).
    apply (sp_relay order 1000 c1 relay_msg [] _ _ order_ok eq_refl eq_refl (surjective_pairing _)).
Qed.

Lemma lookup_ok : punch_lookup (tb c3) punch addr_b = Some (1, end_b).
Proof. vm_refl. Qed.
Lemma locked_ok : (punch_locked (tb c4) 1100 1 end_b).1.2 = true
  ∧ (punch_locked (tb c4) 1100 1 end_b).2 = Some job0.
Proof. split; vm_refl. Qed.
Lemma prepare_ok : (punch_prepare dev c5 job0).1.1.2 = job0 ∧ (punch_prepare dev c5 job0).1.2 = false.
Proof. split; vm_refl. Qed.
Lemma queue_ok : promotionQueue c6 = [job0].
Proof. vm_refl. Qed.
Lemma poll_ok : validate_poll dev (tb c7) job0 true 1200 = (PollFresh 2000, []).
Proof. vm_refl. Qed.

Lemma reach_promote : reachable key_server (c7, PPromote job0 2000 :: p2).
Proof.
  eapply reach_step; [eapply reach_step; [eapply reach_step; [eapply reach_step; [eapply reach_step;
    [eapply reach_step; [eapply reach_step; [apply reach_relay|]|]|]|]|]|]|].
  - apply (step_spont c2 p2 c3 []), (sp_datagram c2 punch addr_b).
  - apply (step_spont c3 p2 c4 [PPunch punch 1 end_b]).
    assert (controlQueue c3 = [EvPunch punch addr_b]) as Hq by (vm_refl).
    pose proof (sp_punch c3 punch addr_b [] Hq) as H. by rewrite lookup_ok in H.
  - apply (step_resume c4 _ (PPunch punch 1 end_b) p2 c5 [PPrepare job0] (punch_reply true punch end_b));
      [reflexivity|].
    destruct locked_ok as [H1 H2].
    apply (re_punch 1100 c4 punch 1 end_b (punch_locked (tb c4) 1100 1 end_b).1.1 true (Some job0)).
    rewrite <- H1, <- H2. by destruct (punch_locked (tb c4) 1100 1 end_b) as [[??]?].
  - apply (step_resume c5 _ (PPrepare job0) p2 c6 [] (punch_prepare dev c5 job0).2); [reflexivity|].
    destruct prepare_ok as [H1 H2].
    pose proof (re_prepare dev c5 job0 c6 job0 false (punch_prepare dev c5 job0).2) as H. apply H.
    rewrite <- H2. rewrite <- H1 at 2. unfold c6. by destruct (punch_prepare dev c5 job0) as [[[??]?]?].
  - apply (step_spont c6 p2 c7 [PPoll job0 true]). apply (sp_promotion c6 job0 []). apply queue_ok.
  - apply (step_resume c7 _ (PPoll job0 true) p2 c7 [PActivate job0 2000] []); [reflexivity|].
    apply (re_poll dev 1200 c7 job0 true (PollFresh 2000)). apply poll_ok.
  - apply (step_resume c7 _ (PActivate job0 2000) p2 c7 [PPromote job0 2000]
      (activateDirectPeer dev key_b (ip4 10 0 0 7)).2); [reflexivity|].
    apply (re_activate dev c7 job0 2000 true). vm_refl.
Qed.

Lemma p2p_tables_consistent_witness :
  sessionByNonce (tb c2) !! nonce = Some 1 ∧
  ∃ x, sheap (tb c2) !! 1 = Some x ∧ sessions (tb c2) !! TargetID x = Some 1 ∧
    acceptsNonce x nonce = true.
Proof.
  assert (sessionByNonce (tb c2) !! nonce = Some 1) as Hn by (vm_refl).
  split; [exact Hn|].
  destruct (p2p_tables_consistent key_server c2 p2 reach_relay) as (_ & _ & H & _). exact (H nonce 1 Hn).
Defined.

Lemma promoted_ok : (dState <$> pheap (tb c8) !! 0) = Some P2PStateEstablished
  ∧ (promote_locked order (tb c7) 2100 job0).2 = false.
Proof. split; vm_refl. Qed.

End Demo.
