(* ===== verification/P2PProps.v ===== *)
(** * What the P2P operations guarantee

    Properties of single handlers of p2p_client.go: authentication of punch
    packets, obsolete attempts, retry and rate limits, the published indexes,
    the maintenance tick and peer lists. *)

From S2P Require Import Prelude GoStr NetAddr P2PMessage P2PNat P2PTables P2PClient P2PInv P2PSystem.

(** ** Authentication *)

Section Auth.
Context `{Env : P2PEnv}.

(** a punch datagram without a valid MAC does nothing.  Either HandlePunch
    leaves the client as it is and makes no call, or the packet is a
    well-formed punch whose nonce names the current session of a known peer,
    that session accepts the nonce, and the packet's MAC verifies under the
    session's target key. *)
Theorem punch_requires_mac order dev (c : Client) now packet addr :
  HandlePunch order dev c now packet addr = (c, []) ∨
  ∃ s x, length packet = 41%nat ∧ sessionByNonce (tb c) !! slice 1 9 packet = Some s ∧
    sheap (tb c) !! s = Some x ∧ sessions (tb c) !! TargetID x = Some s ∧
    is_Some (peers (tb c) !! TargetID x) ∧ verifyPunchPacket packet x = true.
Proof.
  unfold HandlePunch. destruct (punch_lookup (tb c) packet addr) as [[s e]|] eqn:E; [right|by left].
  unfold punch_lookup in E. destruct (_ || _) eqn:Eshape; [done|].
  apply bind_Some in E as (s' & Hs' & E). apply bind_Some in E as (x & Hx & E).
  case_bool_decide as Hcur; cbn [andb] in E; [|done].
  destruct (acceptsNonce x _) eqn:Eacc; [|done]. apply bind_Some in E as ([p d] & Hp & E).
  destruct (verifyPunchMAC _ _) eqn:Ev; [|done]. apply bind_Some in E as (e' & _ & [= <- <-]).
  exists s', x. apply get_peer_some in Hp as [Hp _].
  split_and!; try done; [|unfold verifyPunchPacket; by rewrite Eshape, Eacc].
  apply orb_false_iff in Eshape as [H _]. apply negb_false_iff, Nat.eqb_eq in H. done.
Qed.
End Auth.

(** two clients understand each other's punches.  If A's and B's private
    keys agree on the shared secret (as Curve25519 does) and both use the same
    32-byte keyed hash, the packet A makes for its session with B verifies at
    B for every session of B whose target is A and which accepts the nonce:
    whichever of two crossing relays each side settled on. *)
Theorem punch_packet_verifies (A B : P2PEnv) (x y : P2PSession) ss :
  sharedSecret (P2PEnv := A) (TargetPubKey x) = Some ss →
  sharedSecret (P2PEnv := B) (TargetPubKey y) = Some ss →
  blake2s256 (P2PEnv := A) ss (sNonce x) = blake2s256 (P2PEnv := B) ss (sNonce x) →
  length (blake2s256 (P2PEnv := B) ss (sNonce x)) = 32%nat → length (sNonce x) = 8%nat →
  IsZeroKey (TargetPubKey x) = false → acceptsNonce y (sNonce x) = true →
  verifyPunchPacket (Env := B) (makePunchPacket (Env := A) x) y = true.
Proof.
  intros HA HB Hh Hl Hn Hz Hacc. unfold makePunchPacket. rewrite Hz, HA, Hh.
  set (h := blake2s256 (P2PEnv := B) ss (sNonce x)) in *.
  assert (slice 1 9 (z2b P2PSubtypePunchPacket :: sNonce x ++ h) = sNonce x) as Hs.
  { change (slice 0 8 (sNonce x ++ h) = sNonce x). by apply slice_app_here. }
  assert (drop 9 (z2b P2PSubtypePunchPacket :: sNonce x ++ h) = h) as Hd.
  { change (drop 8 (sNonce x ++ h) = h). rewrite drop_app_length' by done. done. }
  assert (length (z2b P2PSubtypePunchPacket :: sNonce x ++ h) = 41%nat) as Hlen.
  { simpl. rewrite length_app. lia. }
  assert (be_get (take 1 (z2b P2PSubtypePunchPacket :: sNonce x ++ h)) = P2PSubtypePunchPacket) as Ht
    by reflexivity.
  unfold verifyPunchPacket, verifyPunchMAC. rewrite Hlen, Ht, Hs, Hacc, HB, Hd. simpl.
  by apply bool_decide_eq_true.
Qed.
Definition demo_session (target : Z) (key nonce alt : bytes) : P2PSession :=
  MkSession target key no_addr no_addr [] [] nonce false false false alt true 0 zero_time zero_time.
Lemma punch_packet_verifies_witness :
  let n := replicate 8 (z2b 1) in
  let x := demo_session 4 Demo.key_b n (replicate 8 (z2b 2)) in
  let y := demo_session 3 Demo.key_a (replicate 8 (z2b 3)) n in
  verifyPunchPacket (Env := demo_env Demo.key_b) (makePunchPacket (Env := demo_env Demo.key_a) x) y = true.
Proof.
  intros n x y.
  apply (punch_packet_verifies (demo_env Demo.key_a) (demo_env Demo.key_b) x y (replicate 32 (z2b 3)));
    vm_refl.
Defined.

Section Props.
Context `{Env : P2PEnv}.
Implicit Types (t : Tables) (d : DiscoveredPeer) (x : P2PSession) (c : Client).

(** ** Obsolete attempts *)

(** a superseded attempt cannot touch its successor.  Once another session
    (or none) is current for the peer, the old promotion is never found fresh,
    its commit and its failure only mark its own session as done, and a punch
    loop or schedule failure of the old session changes nothing at all. *)
Theorem obsolete_attempt_harmless order t now job :
  sessions t !! jPeerID job ≠ Some (jSession job) →
  promote_locked order t now job = (signalDone t (jSession job), true) ∧
  fail_promotion_locked order t now job = (signalDone t (jSession job), false) ∧
  (∀ dev initiate hs calls, validate_poll dev t job initiate now ≠ (PollFresh hs, calls)) ∧
  (∀ p d, pheap t !! p = Some d → dID d = jPeerID job →
     failPunchSessionIfCurrentLocked order t (Some p) (Some (jSession job)) now = (t, false)).
Proof.
  intros Hne. split_and!.
  - unfold promote_locked. destruct (get_peer t _) as [[p d]|]; [|done].
    by rewrite bool_decide_false, andb_false_r by done.
  - unfold fail_promotion_locked. destruct (get_peer t _) as [[p d]|]; [|done].
    by rewrite bool_decide_false by done.
  - intros dev i hs calls. unfold validate_poll. rewrite (bool_decide_false _ Hne).
    destruct (LookupPeer _ _) as [w|]; [|by repeat case_match].
    destruct (_ <? _); [by repeat case_match|].
    destruct (get_peer t _) as [[p d]|]; [|done]. by rewrite andb_false_r.
  - intros p d Hp Hid. unfold failPunchSessionIfCurrentLocked. rewrite Hp, Hid.
    destruct (sheap t !! _); [|done]. destruct (_ || _); [done|]. by rewrite bool_decide_false by done.
Qed.

(** ** Retry and rate limits *)

(** the retry backoff.  The delay is 5 s doubled per failed attempt up to
    the third, hence between 5 s and 40 s and never decreasing; the one-minute
    cap p2pRetryMaxDelay is never the binding limit. *)
Theorem retry_delay_schedule attempts :
  p2pRetryDelay attempts = 5 * second * 2 ^ Z.max 0 (Z.min attempts 3) ∧
  5 * second ≤ p2pRetryDelay attempts ≤ 40 * second ∧
  p2pRetryDelay attempts < p2pRetryMaxDelay ∧ p2pRetryDelay attempts ≤ p2pRetryDelay (attempts + 1).
Proof.
  assert (∀ n, p2pRetryDelay n = 5 * second * 2 ^ Z.max 0 (Z.min n 3)) as H.
  { intros n. unfold p2pRetryDelay. destruct (Z.leb_spec n 0).
    { rewrite Z.max_l by lia. done. }
    destruct (decide (n = 1)) as [->|]; [done|]. destruct (decide (n = 2)) as [->|]; [done|].
    rewrite Z.min_r by lia. done. }
  rewrite !H. unfold p2pRetryMaxDelay, minute, second.
  assert (∀ n m, n ≤ m → 2 ^ Z.max 0 (Z.min n 3) ≤ 2 ^ Z.max 0 (Z.min m 3)) as Hmono.
  { intros n m Hnm. apply Z.pow_le_mono_r; lia. }
  pose proof (Hmono attempts (attempts + 1) ltac:(lia)).
  assert (1 ≤ 2 ^ Z.max 0 (Z.min attempts 3) ≤ 8) as Hr.
  { split; [pose proof (Z.pow_le_mono_r 2 0 (Z.max 0 (Z.min attempts 3))); lia|].
    etransitivity; [apply (Z.pow_le_mono_r 2 _ 3); lia|done]. }
  split_and!; lia.
Qed.

(** Whether the peer may be asked for a direct path at [now]. *)
Definition attempt_allowed t d now : bool :=
  dP2PCapable d && negb (IsZeroKey (dPublicKey d))
  && match To4 (dAssignedIP d) with Some _ => true | None => false end
  && negb (key_eqb (dPublicKey d) (serverPeerKey t)) && negb (active d)
  && negb (state_is d P2PStateFailed && (now <? dLastUsed d + p2pRetryDelay (dPunchAttempts d))).

(** when a punch request is sent.  tryP2PByID sends one exactly when the
    peer is known, P2P-capable, keyed, has an IPv4 VPN address, is not the
    coordinator, is neither negotiating nor connected, and its backoff is over;
    the peer is then Trying since [now], so the next call sends nothing. *)
Theorem punch_request_guarded order t now id t' ok request :
  tinv t → try_locked order t now id = (t', ok, request) →
  (request = true ↔ ∃ p d, get_peer t id = Some (p, d) ∧ attempt_allowed t d now = true) ∧
  (request = true → ∃ p d, get_peer t' id = Some (p, d) ∧ dState d = P2PStateTrying ∧
     dLastUsed d = now ∧ ∀ now' t'' ok' request',
       try_locked order t' now' id = (t'', ok', request') → request' = false ∧ t'' = t').
Proof.
  intros H Htry. assert (request = true → ∃ p d, get_peer t' id = Some (p, d) ∧
    dState d = P2PStateTrying ∧ dLastUsed d = now) as Hafter.
  { unfold try_locked in Htry. destruct (get_peer t id) as [[p d]|] eqn:Eg; [|by simplify_eq].
    destruct (_ || _ || _ || _); [by simplify_eq|]. destruct (active d); [by simplify_eq|].
    destruct (_ && _); simplify_eq; [done|]. intros _.
    set (d' := with_used _ now _). set (t1 := set_peer t p d').
    exists p, d'. split_and!; [|done|done]. apply get_peer_some in Eg as [Hp Hd].
    destruct (rebuild_core order t1) as (E1 & _ & E3 & _). apply get_peer_some. rewrite E1, E3.
    split; [done|]. apply lookup_insert_eq. }
  split.
  - unfold try_locked in Htry. destruct (get_peer t id) as [[p d]|] eqn:Eg.
    2:{ simplify_eq. split; [done|]. by intros (? & ? & ? & _). }
    assert (request = attempt_allowed t d now) as ->.
    { unfold attempt_allowed. destruct (dP2PCapable d), (IsZeroKey (dPublicKey d)),
        (To4 (dAssignedIP d)), (key_eqb (dPublicKey d) (serverPeerKey t)), (active d);
        simpl in *; try by simplify_eq. destruct (_ && _); by simplify_eq. }
    split; [eauto|]. intros (p' & d' & [= <- <-] & ?). done.
  - intros Hr. destruct (Hafter Hr) as (p & d & Hg & Hst & Hu). exists p, d. split_and!; try done.
    intros now' t'' ok' request' Htry'. unfold try_locked in Htry'. rewrite Hg in Htry'.
    assert (active d = true) as Ha by (unfold active, state_is; by rewrite Hst).
    rewrite Ha in Htry'. destruct (_ || _ || _ || _); by simplify_eq.
Qed.

(** the packet path asks at most once per gate interval.  After an observed
    destination queued an attempt at [now], no packet to any destination behind
    the same gate queues another one, or changes the client at all, before
    [now + p2pAttemptGateInterval]. *)
Theorem attempt_gate_interval c now dst id g now' dst' id' :
  destinations (tb c) !! dst = Some (id, g) → length dst = 4%nat →
  default 0 (gheap (tb c) !! g) ≤ now →
  (length (attemptQueue c) < p2pAttemptQueueSize)%nat →
  - 2 ^ 62 ≤ now → now ≤ now' < now + p2pAttemptGateInterval → now' < 2 ^ 62 →
  destinations (tb c) !! dst' = Some (id', g) →
  let c1 := ObserveDestination c now dst in
  attemptQueue c1 = attemptQueue c ++ [id] ∧ ObserveDestination c1 now' dst' = c1.
Proof.
  intros Hd Hl Hg Hroom Hlo Hnow Hhi Hd' c1.
  assert (∀ z, - 2 ^ 62 ≤ z < 2 ^ 62 + 2 ^ 40 → UnixNano z = z) as Hu.
  { intros z Hz. apply swrap_small; lia. }
  assert (p2pAttemptGateInterval < 2 ^ 40) as Hgi by done.
  assert (c1 = with_attempts (with_tb c (with_gheap (tb c)
      (<[g := now + p2pAttemptGateInterval]> (gheap (tb c))))) (attemptQueue c ++ [id]) (droppedAttempts c)) as ->.
  { unfold c1, ObserveDestination. rewrite Hl, Hd. simpl. rewrite !Hu by lia.
    rewrite (proj2 (Z.ltb_ge _ _)) by done. unfold queueP2PAttempt. simpl.
    by rewrite (proj2 (Nat.ltb_lt _ _)). }
  split; [done|]. unfold ObserveDestination. destruct (negb _); [done|]. simpl. rewrite Hd'.
  rewrite lookup_insert_eq. simpl. rewrite Hu by lia. by rewrite (proj2 (Z.ltb_lt _ _)) by lia.
Qed.
(** ** Maintenance *)

(** A direct path with a recent handshake; an attempt that is not stalled. *)
Definition direct_live dev now d : Prop := ∃ w, LookupPeer dev (dPublicKey d) = Some w ∧
  lastHandshakeNano dev w ≠ 0 ∧ Sub now (lastHandshakeNano dev w) ≤ p2pDirectStaleAfter.
Definition settled dev now d : Prop :=
  (dState d = P2PStateEstablished → direct_live dev now d) ∧
  (dState d = P2PStateTrying → Sub now (dLastUsed d) ≤ p2pStalledAttemptTTL).

Lemma mark_failed_same t p d now : pheap t !! p = Some d →
  pheap (mark_failed t p now) !! p
  = Some (with_used (with_state d P2PStateFailed) now (dPunchAttempts d + 1)).
Proof.
  intros E. unfold mark_failed. rewrite E.
  match goal with |- context [setRetryGateLocked ?a ?b] =>
    destruct (retry_gate_core a b) as (-> & _) end. apply lookup_insert_eq.
Qed.
Lemma mark_failed_other t p p' now : p' ≠ p → pheap (mark_failed t p now) !! p' = pheap t !! p'.
Proof.
  intros Hne. unfold mark_failed. destruct (pheap t !! p) as [d|]; [|done].
  match goal with |- context [setRetryGateLocked ?a ?b] =>
    destruct (retry_gate_core a b) as (-> & _) end. by apply lookup_insert_ne.
Qed.

Definition maint_local dev now (acc acc' : maint_acc) (p : Z) : Prop :=
  (∀ d, pheap (maT acc') !! p = Some d → settled dev now d) ∧
  (∀ p', p' ≠ p → pheap (maT acc') !! p' = pheap (maT acc) !! p') ∧
  peers (maT acc') = peers (maT acc).

Lemma maint_step_local dev now acc id p : maint_local dev now acc (maint_step dev now acc (id, p)) p.
Proof.
  unfold maint_step, maint_local. destruct (pheap (maT acc) !! p) as [d|] eqn:Ed.
  2:{ split_and!; try done. by rewrite Ed. }
  destruct (dState d) eqn:Est.
  1,4: split_and!; try done; rewrite Ed; intros ? [= <-]; unfold settled; by rewrite Est.
  - destruct (Z.ltb_spec p2pStalledAttemptTTL (Sub now (dLastUsed d))); simpl.
    + destruct (discard_tables (mark_failed (maT acc) p now) id) as (-> & -> & _).
      destruct (mark_failed_tables (maT acc) p now) as (-> & _).
      split_and!; [|intros p'; apply mark_failed_other|done].
      intros d'. rewrite (mark_failed_same _ _ d) by done. by intros [= <-].
    + split_and!; try done. rewrite Ed. intros ? [= <-]. unfold settled. rewrite Est. split; [done|lia].
  - set (due := match LookupPeer dev (dPublicKey d) with Some _ => _ | None => _ end).
    assert (dState due.1 = dState d ∧ dPublicKey due.1 = dPublicKey d) as [Hst Hk].
    { unfold due, directKeepaliveDue. repeat case_match; done. }
    destruct due as [d' b]. simpl in Hst, Hk.
    set (hs := match LookupPeer dev (dPublicKey d) with Some w => lastHandshakeNano dev w | None => 0 end).
    destruct (_ || _) eqn:Estale; simpl.
    + match goal with |- context [mark_failed ?t0 p now] => set (t1 := t0) end.
      destruct (mark_failed_tables t1 p now) as (-> & _).
      split_and!; [|intros p' Hne; rewrite mark_failed_other by done; by apply lookup_insert_ne|done].
      intros d1. rewrite (mark_failed_same t1 p (with_link d' None (dRelayPeer d')))
        by apply lookup_insert_eq. by intros [= <-].
    + split_and!; try done; [|intros p' Hne; by apply lookup_insert_ne].
      intros d1. rewrite lookup_insert_eq. intros [= <-]. unfold settled. rewrite Hst, Est.
      split; [|done]. intros _. apply orb_false_iff in Estale as [E1 E2].
      apply Z.eqb_neq in E1. apply Z.ltb_ge in E2. unfold hs in *.
      unfold direct_live. rewrite Hk. destruct (LookupPeer dev (dPublicKey d)) as [w|]; [|done]. eauto.
Qed.

Lemma maint_fold_settled dev now l : ∀ acc, 
  let acc' := foldl (maint_step dev now) acc l in
  peers (maT acc') = peers (maT acc) ∧
  ∀ p d, p ∈ l.*2 ∨ (∀ d0, pheap (maT acc) !! p = Some d0 → settled dev now d0) →
    pheap (maT acc') !! p = Some d → settled dev now d.
Proof.
  induction l as [|[id p] l IH]; intros acc; cbn [foldl].
  { split; [done|]. intros p d [?%elem_of_nil|Hp] Hd; [done|by apply Hp]. }
  destruct (maint_step_local dev now acc id p) as (Hs & Ho & Hpe).
  destruct (IH (maint_step dev now acc (id, p))) as [Hpe' Hf]. split; [by rewrite <- Hpe|].
  intros p' d Hor Hd. eapply Hf; [|done]. destruct (decide (p' = p)) as [->|]; [by right|].
  destruct Hor as [[?|?]%elem_of_cons|Hp']; [done|by left|right]. intros d0. rewrite Ho by done. apply Hp'.
Qed.

(** a maintenance tick leaves nothing stale.  After the locked part of a
    tick, every peer of the table with a direct path has a WireGuard peer whose
    last handshake is at most p2pDirectStaleAfter old, and every attempt in
    progress was active within p2pStalledAttemptTTL; all others were failed. *)
Theorem maintenance_settles order dev t now :
  is_order order →
  ∀ id p d, peers (maT (maint_locked order dev t now)) !! id = Some p →
    pheap (maT (maint_locked order dev t now)) !! p = Some d → settled dev now d.
Proof.
  intros Hord. unfold maint_locked. destruct (forgetUnlistedPeersLocked order t now) as [t1 changed].
  destruct (maint_fold_settled dev now (order (peers t1)) (MkMaint t1 changed [] [])) as [Hpe Hf].
  simpl in Hpe, Hf. set (acc := foldl _ _ _) in *.
  assert (∀ id p d, peers (maT acc) !! id = Some p → pheap (maT acc) !! p = Some d → settled dev now d) as Hall.
  { intros id p d Hp Hd. apply (Hf p d); [|done]. left. rewrite Hpe in Hp.
    apply list_elem_of_fmap. exists (id, p). split; [done|].
    rewrite (Hord (peers t1)). by apply elem_of_map_to_list. }
  destruct (maChanged acc); [|exact Hall]. simpl.
  destruct (rebuild_core order (maT acc)) as (-> & _ & -> & _). exact Hall.
Qed.

(** ** The published indexes *)

Definition eligible t d : bool :=
  dP2PCapable d && negb (active d)
  && negb (negb (IsZeroKey (serverPeerKey t)) && key_eqb (dPublicKey d) (serverPeerKey t)).

Record index_inv t (seen : list (Z * Z)) (acc : Tables * gmap bytes Z * gmap bytes (Z * Z)) : Prop := {
  ix_core : same_core t acc.1.1;
  ix_server : serverPeerKey acc.1.1 = serverPeerKey t;
  ix_sound : ∀ addr id g, acc.2 !! addr = Some (id, g) → ∃ p d, peers t !! id = Some p ∧
    pheap t !! p = Some d ∧ eligible t d = true ∧ To4 (dAssignedIP d) = Some addr ∧
    attemptGates acc.1.1 !! id = Some g;
  ix_complete : ∀ id p d addr, (id, p) ∈ seen → pheap t !! p = Some d → eligible t d = true →
    To4 (dAssignedIP d) = Some addr → is_Some (acc.2 !! addr) }.

Lemma ensure_gate_gates t id : is_Some (attemptGates (ensure_gate t id) !! id) ∧
  ∀ id' g, attemptGates t !! id' = Some g → attemptGates (ensure_gate t id) !! id' = Some g.
Proof.
  unfold ensure_gate. destruct (attemptGates t !! id) as [g0|] eqn:E; [by rewrite E|]. simpl.
  rewrite lookup_insert_eq. split; [done|]. intros id' g Hg. by rewrite lookup_insert_ne by congruence.
Qed.

Lemma eligible_step t t' d : serverPeerKey t' = serverPeerKey t →
  negb (dP2PCapable d) || state_is d P2PStateTrying || state_is d P2PStateEstablished
  || (negb (IsZeroKey (serverPeerKey t')) && key_eqb (dPublicKey d) (serverPeerKey t'))
  = negb (eligible t d).
Proof.
  intros ->. unfold eligible, active. generalize (dP2PCapable d), (state_is d P2PStateTrying),
    (state_is d P2PStateEstablished), (IsZeroKey (serverPeerKey t)),
    (bool_decide (dPublicKey d = serverPeerKey t)). by intros [] [] [] [] [].
Qed.

Lemma rebuild_step_index t seen acc e : tinv t → peers t !! e.1 = Some e.2 →
  index_inv t seen acc → index_inv t (seen ++ [e]) (rebuild_step acc e).
Proof.
  destruct acc as [[t' keys] byIP], e as [id p]. simpl. intros H Hp [Hc Hsv Hs Hcm]. simpl in *.
  destruct (ti_peers _ H _ _ Hp) as (d & Hd & Hid). unfold rebuild_step. simpl.
  pose proof Hc as (Hph & _). rewrite Hph, Hd, (eligible_step t) by done.
  assert (∀ id' p' d', (id', p') ∈ seen ++ [(id, p)] → pheap t !! p' = Some d' →
    (id', p') ∈ seen ∨ d' = d) as Hin.
  { intros id' p' d' Hi Hd'. apply elem_of_app in Hi as [Hi|Hi]; [by left|right].
    apply list_elem_of_singleton in Hi. congruence. }
  destruct (eligible t d) eqn:Eel; simpl.
  2:{ split; simpl; try done. intros id' p' d' addr Hi Hd' He Ha.
      destruct (Hin _ _ _ Hi Hd') as [?| ->]; [eauto|congruence]. }
  unfold ipv4Netip. destruct (To4 (dAssignedIP d)) as [a|] eqn:Ea.
  2:{ split; simpl; try done. intros id' p' d' addr Hi Hd' He Ha.
      destruct (Hin _ _ _ Hi Hd') as [?| ->]; [eauto|congruence]. }
  destruct (ensure_gate_gates t' (dID d)) as [[g Hg] Hkeep]. split; simpl.
  - etransitivity; [exact Hc|]. apply ensure_gate_core.
  - rewrite <- Hsv. unfold ensure_gate. by destruct (attemptGates t' !! dID d).
  - intros addr id' g' [[<- [= <- <-]]|[Hne Hb]]%lookup_insert_Some.
    + exists p, d. rewrite Hg. subst id. by split_and!.
    + destruct (Hs _ _ _ Hb) as (p' & d' & ? & ? & ? & ? & ?). exists p', d'. split_and!; auto.
  - intros id' p' d' addr Hi Hd' He Ha. destruct (decide (addr = a)) as [->|].
    { rewrite lookup_insert_eq. done. }
    rewrite lookup_insert_ne by done. destruct (Hin _ _ _ Hi Hd') as [?| ->]; [eauto|congruence].
Qed.

(** the index the packet path reads.  After rebuildIndexesLocked an address
    leads exactly to peers that may be negotiated with: the entry's peer is
    known under that ID, P2P-capable, neither negotiating nor connected, not the
    coordinator, owns the address, and the entry's gate is the peer's retry
    gate; conversely the address of every such peer is present. *)
Theorem destination_index_correct order t : is_order order → tinv t →
  let t' := rebuildIndexesLocked order t in
  (∀ addr id g, destinations t' !! addr = Some (id, g) → ∃ p d, peers t' !! id = Some p ∧
     pheap t' !! p = Some d ∧ eligible t' d = true ∧ To4 (dAssignedIP d) = Some addr ∧
     attemptGates t' !! id = Some g) ∧
  (∀ id p d addr, peers t' !! id = Some p → pheap t' !! p = Some d → eligible t' d = true →
     To4 (dAssignedIP d) = Some addr → is_Some (destinations t' !! addr)).
Proof.
  intros Hord H.
  assert (∀ l seen acc, (∀ e, e ∈ l → peers t !! e.1 = Some e.2) → index_inv t seen acc →
    index_inv t (seen ++ l) (foldl rebuild_step acc l)) as Hfold.
  { induction l as [|e l IH]; intros seen acc Hl Hi; simpl; [by rewrite app_nil_r|].
    rewrite (cons_middle e seen l), app_assoc. apply IH.
    - intros e' He'. apply Hl, elem_of_cons. by right.
    - apply rebuild_step_index; [done| |done]. apply Hl, elem_of_cons. by left. }
  destruct (Hfold (order (peers t)) [] (t, ∅, ∅)) as [Hc Hsv Hs Hcm].
  { intros [id p]. rewrite (Hord (peers t)). apply elem_of_map_to_list. }
  { split; simpl; [reflexivity|done|intros ? ? ?; by rewrite lookup_empty|].
    intros ? ? ? ? ?%elem_of_nil. done. }
  unfold rebuildIndexesLocked. destruct (foldl _ _ _) as [[t1 keys] byIP]. simpl in *.
  destruct Hc as (E1 & _ & E3 & _). unfold eligible in *. simpl. rewrite E1, E3, Hsv. split; [done|].
  intros id p d addr Hp. apply (Hcm id p d addr). rewrite (Hord (peers t)). by apply elem_of_map_to_list.
Qed.
(** ** Peer lists *)

(** Every keyed peer is indexed under its ID (so keys are unique). *)
Definition idx_ok t : Prop := ∀ id p d, peers t !! id = Some p → pheap t !! p = Some d →
  IsZeroKey (dPublicKey d) = false → peerKeyIndex t !! dPublicKey d = Some id.
(** The peer [p] is listed with a direct path to [e], for key [k]. *)
Definition has_direct t p k e : Prop := ∃ id d, peers t !! id = Some p ∧ pheap t !! p = Some d ∧
  dState d = P2PStateEstablished ∧ dPublicKey d = k ∧ dEndpoint d = e.
(** At most the entry of [id] has key [k]. *)
Definition only_at t k id : Prop := ∀ id' p d, peers t !! id' = Some p → pheap t !! p = Some d →
  dPublicKey d = k → id' = id.

Lemma renumber_cases t k id : IsZeroKey k = false →
  (renumberPeerLocked t k id = (t, false) ∧
     (peerKeyIndex t !! k = None ∨ peerKeyIndex t !! k = Some id)) ∨
  (renumberPeerLocked t k id = (with_keys t (delete k (peerKeyIndex t)), false) ∧
     ∃ old, peerKeyIndex t !! k = Some old ∧
       ∀ p d, peers t !! old = Some p → pheap t !! p = Some d → dPublicKey d ≠ k) ∨
  (∃ old p d d' t', renumberPeerLocked t k id = (t', true) ∧
     peerKeyIndex t !! k = Some old ∧ old ≠ id ∧ peers t !! old = Some p ∧ pheap t !! p = Some d ∧
     dPublicKey d = k ∧ peers t' = <[id := p]> (delete old (peers t)) ∧
     pheap t' = <[p := d']> (pheap t) ∧ dPublicKey d' = k ∧ dEndpoint d' = dEndpoint d ∧
     (dState d = P2PStateEstablished → dState d' = P2PStateEstablished) ∧
     peerKeyIndex t' = <[k := id]> (delete k (peerKeyIndex t))).
Proof.
  intros Hz. unfold renumberPeerLocked. rewrite Hz.
  destruct (peerKeyIndex t !! k) as [old|] eqn:Ek; [|by left; eauto].
  destruct (Z.eqb_spec old id) as [->|Hne]; [by left; eauto|]. right.
  destruct (get_peer t old) as [[p d]|] eqn:Eg.
  2:{ left. split; [done|]. exists old. split; [done|]. intros p d Hp Hd.
      by rewrite (proj2 (get_peer_some t old p d)) in Eg. }
  apply get_peer_some in Eg as [Hp Hd]. case_bool_decide as Hk; cbn [negb].
  2:{ left. split; [done|]. exists old. split; [done|]. intros p' d' Hp' Hd'. congruence. }
  right. set (t1 := with_keys t _). destruct (discard_tables t1 old) as (Hph & Hpe & Hki & _).
  set (t2 := discardSessionLocked t1 old) in *.
  set (t3 := match peers t2 !! id with Some _ => _ | None => _ end).
  assert (pheap t3 = pheap t ∧ peers t3 = peers t ∧ peerKeyIndex t3 = delete k (peerKeyIndex t))
    as (Hph3 & Hpe3 & Hki3).
  { unfold t3. destruct (peers t2 !! id); [|by split_and!].
    destruct (discard_tables t2 id) as (-> & -> & -> & _). by split_and!. }
  clearbody t3. set (d' := with_id _ id). exists old, p, d, d'. eexists. split_and!; try done.
  - simpl. case_match; simpl; by rewrite Hpe3.
  - simpl. case_match; simpl; by rewrite Hph3.
  - unfold d'. by destruct (state_is d _).
  - unfold d'. by destruct (state_is d _).
  - unfold d', state_is. case_bool_decide; simpl; congruence.
  - simpl. case_match; simpl; by rewrite Hki3.
Qed.

(** Renumbering for a listed entry that is not blocked. *)
Lemma renumber_index t k id : tinv t → idx_ok t → IsZeroKey k = false →
  (∀ p d, peers t !! id = Some p → pheap t !! p = Some d → dState d = P2PStateEstablished →
     IsZeroKey (dPublicKey d) = false → dPublicKey d = k) →
  let t' := (renumberPeerLocked t k id).1 in
  idx_ok t' ∧ only_at t' k id ∧
  (∀ p d, peers t' !! id = Some p → pheap t' !! p = Some d → dState d = P2PStateEstablished →
     IsZeroKey (dPublicKey d) = false → dPublicKey d = k) ∧
  (∀ p k0 e, IsZeroKey k0 = false → has_direct t p k0 e → has_direct t' p k0 e).
Proof.
  intros H Hix Hz Hfree. destruct (renumber_cases t k id Hz)
    as [[-> Hk]|[[-> (old & Hk & Hno)]|(old & p & d & d' & t' & -> & Hk & Hne & Hp & Hd & Hdk & Hpe & Hph & Hk' & He' & Hst & Hki)]];
    cbn [fst].
  - split_and!; try done. intros id' p' d' Hp' Hd' Hk'. subst k.
    pose proof (Hix _ _ _ Hp' Hd' Hz). destruct Hk; congruence.
  - assert (∀ id' p' d', peers t !! id' = Some p' → pheap t !! p' = Some d' → dPublicKey d' ≠ k) as Hnone.
    { intros id' p' d' Hp' Hd' Hk'. subst k. pose proof (Hix _ _ _ Hp' Hd' Hz) as Hi.
      assert (id' = old) as -> by congruence. by eapply Hno. }
    split_and!; try done.
    + intros id' p' d' Hp' Hd' Hz'. simpl in *. rewrite lookup_delete_ne; [by eapply Hix|].
      intros E. by eapply Hnone.
    + intros id' p' d' Hp' Hd' Hk'. exfalso. by eapply Hnone.
  - assert (∀ id' p' d', peers t' !! id' = Some p' → pheap t' !! p' = Some d' →
      (id' = id ∧ p' = p) ∧ dPublicKey d' = k ∨
      (id' ≠ id ∧ id' ≠ old ∧ p' ≠ p ∧ peers t !! id' = Some p' ∧ pheap t !! p' = Some d')) as Hcase.
    { intros id' p' d1. rewrite Hpe, Hph. intros [[<- <-]|[Hn Hp']]%lookup_insert_Some.
      { rewrite lookup_insert_eq. intros [= <-]. by left. }
      apply lookup_delete_Some in Hp' as [Hn' Hp']. assert (p' ≠ p) as Hpp.
      { intros ->. destruct (ti_peers _ H _ _ Hp) as (? & ? & ?).
        destruct (ti_peers _ H _ _ Hp') as (? & ? & ?). congruence. }
      rewrite lookup_insert_ne by done. right. by split_and!. }
    split_and!.
    + intros id' p' d1 Hp' Hd' Hz'. rewrite Hki.
      destruct (Hcase _ _ _ Hp' Hd') as [[(-> & ->) ->]|(Hn & Hn' & Hpp & Hp1 & Hd1)];
        [apply lookup_insert_eq|].
      pose proof (Hix _ _ _ Hp1 Hd1 Hz') as Hi.
      rewrite lookup_insert_ne, lookup_delete_ne; [done|..]; congruence.
    + intros id' p' d1 Hp' Hd' Hk1.
      destruct (Hcase _ _ _ Hp' Hd') as [[(-> & _) _]|(Hn & Hn' & Hpp & Hp1 & Hd1)]; [done|].
      subst k. pose proof (Hix _ _ _ Hp1 Hd1 ltac:(congruence)). congruence.
    + intros p' d1 Hp' Hd' _ _. by destruct (Hcase _ _ _ Hp' Hd') as [[_ ?]|(? & _)].
    + intros p0 k0 e Hz0 (id0 & d0 & Hp0 & Hd0 & Hs0 & Hk0 & He0).
      destruct (decide (p0 = p)) as [->|Hpp].
      { exists id, d'. rewrite Hpe, Hph, !lookup_insert_eq. assert (d0 = d) as -> by congruence.
        split_and!; try done; [by apply Hst|congruence|congruence]. }
      exists id0, d0. rewrite Hpe, Hph. rewrite (lookup_insert_ne (pheap t)) by done. split_and!; try done.
      assert (id0 ≠ old) by congruence. destruct (decide (id0 = id)) as [->|].
      { exfalso. pose proof (Hfree _ _ Hp0 Hd0 Hs0 ltac:(congruence)) as E.
        pose proof (Hix _ _ _ Hp0 Hd0 ltac:(congruence)). congruence. }
      by rewrite lookup_insert_ne, lookup_delete_ne by congruence.
Qed.
Definition free_for t k id : Prop := ∀ p d, peers t !! id = Some p → pheap t !! p = Some d →
  dState d = P2PStateEstablished → IsZeroKey (dPublicKey d) = false → dPublicKey d = k.

Lemma find_or_new_index t id k t' p d ok now : tinv t → idx_ok t → only_at t k id → free_for t k id →
  find_or_new t id (with_used (new_peer id false) now 0) = (t', p, d, ok) →
  idx_ok t' ∧ (IsZeroKey k = false → only_at t' k id) ∧ free_for t' k id ∧
  peerKeyIndex t' = peerKeyIndex t ∧
  (∀ p0 k0 e, has_direct t p0 k0 e → has_direct t' p0 k0 e).
Proof.
  intros H Hix Hon Hfree. unfold find_or_new. destruct (get_peer t id) as [[p1 d1]|] eqn:Eg.
  { intros [= <- <- <- <-]. by split_and!. }
  intros [= <- <- <- <-]. apply (get_peer_none t id H) in Eg. simpl.
  assert (∀ id' p', peers t !! id' = Some p' → p' ≠ nextRef t) as Hfresh.
  { intros id' p' Hp' ->. destruct (ti_peers _ H _ _ Hp') as (d & Hd & _).
    pose proof (ti_pfresh _ H (nextRef t) ltac:(by rewrite Hd)). lia. }
  split_and!; try done.
  - intros id' p' d' Hp'. simpl in *. apply lookup_insert_Some in Hp' as [[<- <-]|[Hne Hp']].
    + rewrite lookup_insert_eq. by intros [= <-].
    + rewrite lookup_insert_ne by (symmetry; by eapply Hfresh). intros Hd'. by eapply Hix.
  - intros Hz id' p' d' Hp'. simpl in *. apply lookup_insert_Some in Hp' as [[<- <-]|[Hne Hp']]; [done|].
    rewrite lookup_insert_ne by (symmetry; by eapply Hfresh). intros Hd'. by eapply Hon.
  - intros p' d'. simpl. rewrite lookup_insert_eq. intros [= <-]. rewrite lookup_insert_eq. by intros [= <-].
  - intros p0 k0 e (id0 & d0 & Hp0 & Hd0 & ?). exists id0, d0. simpl.
    rewrite lookup_insert_ne by congruence. rewrite (lookup_insert_ne (pheap t)); [done|].
    symmetry. by eapply Hfresh.
Qed.

Lemma list_step_index now acc e : tinv acc.1.1 → idx_ok acc.1.1 → IsZeroKey (leKey e) = false →
  idx_ok (list_step now acc e).1.1 ∧
  (∀ p k ep, IsZeroKey k = false → has_direct acc.1.1 p k ep → has_direct (list_step now acc e).1.1 p k ep).
Proof.
  destruct acc as [[t ren] retry]. simpl. intros H Hix Hz. unfold list_step.
  destruct (recycled t e) eqn:Erec; [done|].
  assert (free_for t (leKey e) (leID e)) as Hfree.
  { intros p d Hp Hd Hst Hzd. unfold recycled in Erec.
    rewrite (proj2 (get_peer_some t (leID e) p d)) in Erec by done.
    assert (active d = true) as Ha by (unfold active, state_is; by rewrite Hst).
    rewrite Hzd, Hz, Ha in Erec. by case_bool_decide. }
  destruct (renumber_index t (leKey e) (leID e) H Hix Hz Hfree) as (Hix1 & Hon1 & Hfree1 & Hdir1).
  pose proof (renumber_inv t (leKey e) (leID e) H) as H1.
  destruct (renumberPeerLocked t (leKey e) (leID e)) as [t1 moved]. cbn [fst] in *.
  destruct (find_or_new t1 (leID e) _) as [[[t2 p] d] ok] eqn:Ef.
  destruct (find_or_new_inv _ _ _ _ _ _ _ H1 eq_refl (new_not_est _ _) Ef) as (H2 & Hp & Hd & Hid & _).
  destruct (find_or_new_index _ _ _ _ _ _ _ _ H1 Hix1 Hon1 Hfree1 Ef) as (Hix2 & Hon2 & Hfree2 & Hki2 & Hdir2).
  cbn [dID with_used new_peer] in Hp, Hid. specialize (Hon2 Hz). set (again := _ && _ && _).
  assert (dState d = P2PStateEstablished → again = false) as Hagain.
  { intros Hst. unfold again, state_is. rewrite Hst. by rewrite andb_false_r. }
  set (t3 := if again then _ else t2).
  assert (pheap t3 = pheap t2 ∧ peers t3 = peers t2 ∧ peerKeyIndex t3 = peerKeyIndex t2) as (Hph3 & Hpe3 & Hki3).
  { unfold t3. destruct again; [|done]. by case_match. }
  clearbody t3. set (d' := with_seen _ now). set (t4 := ensure_gate (set_peer t3 p d') (leID e)).
  assert (pheap t4 = <[p := d']> (pheap t2) ∧ peers t4 = peers t2 ∧ peerKeyIndex t4 = peerKeyIndex t2)
    as (Hph & Hpe & Hki).
  { unfold t4. destruct (ensure_gate_core (set_peer t3 p d') (leID e)) as (-> & _ & -> & _). simpl.
    rewrite Hph3, Hpe3. split_and!; try done. rewrite <- Hki3. unfold ensure_gate. by case_match. }
  clearbody t4. rewrite Hz. cbn [fst]. split.
  - intros id' p' d1. simpl. rewrite Hph, Hpe, Hki. intros Hp' Hd' Hzd.
    apply lookup_insert_Some in Hd' as [[<- <-]|[Hne Hd']].
    + destruct (ti_peers _ H2 _ _ Hp') as (d2 & Hd2 & <-). assert (d2 = d) as -> by congruence.
      rewrite Hid. apply lookup_insert_eq.
    + rewrite lookup_insert_ne; [by eapply Hix2|]. intros E. symmetry in E.
      pose proof (Hon2 _ _ _ Hp' Hd' E). congruence.
  - intros p0 k0 ep Hz0 Hdir%Hdir1%Hdir2; [|done].
    destruct Hdir as (id0 & d0 & Hp0 & Hd0 & Hs0 & Hk0 & He0). unfold has_direct. simpl.
    rewrite Hph, Hpe. destruct (decide (p = p0)) as [<-|].
    + exists id0, d'. rewrite lookup_insert_eq. assert (d0 = d) as -> by congruence.
      assert (id0 = leID e) as ->.
      { destruct (ti_peers _ H2 _ _ Hp0) as (d2 & Hd2 & <-). congruence. }
      pose proof (Hfree2 _ _ Hp Hd Hs0 ltac:(congruence)). unfold d'. rewrite (Hagain Hs0). simpl.
      split_and!; try done. congruence.
    + exists id0, d0. rewrite lookup_insert_ne by done. by split_and!.
Qed.

Lemma rebuild_keys order t : is_order order → tinv t → idx_ok t → idx_ok (rebuildIndexesLocked order t).
Proof.
  intros Hord H Hix.
  assert (∀ l acc, same_core t acc.1.1 → (∀ e, e ∈ l → peers t !! e.1 = Some e.2) →
    let acc' := foldl rebuild_step acc l in
    same_core t acc'.1.1 ∧
    (∀ id p d, pheap t !! p = Some d → peers t !! id = Some p → IsZeroKey (dPublicKey d) = false →
      (id, p) ∈ l ∨ acc.1.2 !! dPublicKey d = Some id → acc'.1.2 !! dPublicKey d = Some id)) as Hfold.
  { induction l as [|[id0 p0] l IH]; intros acc Hc Hl; cbn [foldl].
    { split; [done|]. intros id p d _ _ _ [?%elem_of_nil|?]; done. }
    destruct (IH (rebuild_step acc (id0, p0))) as [Hc' Hf].
    { etransitivity; [exact Hc|apply rebuild_step_core]. }
    { intros e He. apply Hl, elem_of_cons. by right. }
    split; [exact Hc'|]. intros id p d Hd Hp Hz Hor. apply (Hf id p d Hd Hp Hz).
    assert (peers t !! id0 = Some p0) as Hp0 by (apply (Hl (id0, p0)), elem_of_cons; by left).
    destruct (ti_peers _ H _ _ Hp0) as (d0 & Hd0 & Hid0).
    assert ((rebuild_step acc (id0, p0)).1.2
      = if IsZeroKey (dPublicKey d0) then acc.1.2 else <[dPublicKey d0 := id0]> acc.1.2) as ->.
    { destruct acc as [[t' keys] byIP]. unfold rebuild_step. simpl. destruct Hc as (Hph & _). simpl in Hph.
      rewrite Hph, Hd0, Hid0. destruct (_ || _); [done|]. by destruct (ipv4Netip _). }
    destruct Hor as [[[= -> ->]|?]%elem_of_cons|Hk]; [|by left|].
    - assert (d0 = d) as -> by congruence. rewrite Hz. right. apply lookup_insert_eq.
    - right. destruct (IsZeroKey (dPublicKey d0)) eqn:Ez; [done|].
      destruct (decide (dPublicKey d0 = dPublicKey d)) as [E|]; [|by rewrite lookup_insert_ne].
      rewrite E, lookup_insert_eq. pose proof (Hix _ _ _ Hp0 Hd0 Ez). pose proof (Hix _ _ _ Hp Hd Hz). congruence. }
  destruct (Hfold (order (peers t)) (t, ∅, ∅)) as [Hc Hf]; [reflexivity| |].
  { intros [id p]. rewrite (Hord (peers t)). apply elem_of_map_to_list. }
  unfold rebuildIndexesLocked. destruct (foldl _ _ _) as [[t1 keys] byIP]. simpl in *.
  destruct Hc as (E1 & _ & E3 & _). intros id p d. simpl. rewrite E1, E3. intros Hp Hd Hz.
  apply (Hf id p d Hd Hp Hz). left. rewrite (Hord (peers t)). by apply elem_of_map_to_list.
Qed.

(** a peer list cannot take a direct path away.  If every keyed peer is
    indexed under its ID, processing any list of keyed entries (recycled IDs,
    renumbered peers, repeated keys included) keeps every established peer with
    a key in the table, with its key, its endpoint and its direct path, though
    perhaps under a new ID, and leaves every keyed peer indexed again. *)
Theorem peer_list_keeps_direct_paths order t now es : is_order order → tinv t → idx_ok t →
  Forall (fun e => IsZeroKey (leKey e) = false) es →
  let t' := (peer_list_tables order t now es).1.1 in
  idx_ok t' ∧
  (∀ p k ep, IsZeroKey k = false → has_direct t p k ep → has_direct t' p k ep).
Proof.
  intros Hord H Hix Hes.
  assert (∀ acc, tinv acc.1.1 → idx_ok acc.1.1 →
    let acc' := foldl (list_step now) acc es in
    tinv acc'.1.1 ∧ idx_ok acc'.1.1 ∧
    (∀ p k ep, IsZeroKey k = false → has_direct acc.1.1 p k ep → has_direct acc'.1.1 p k ep)) as Hfold.
  { induction Hes as [|e es Hz Hes IH]; intros acc Ha Hi; cbn [foldl]; [done|].
    destruct (list_step_index now acc e Ha Hi Hz) as [Hi' Hd'].
    destruct (IH _ (list_step_inv now acc e Ha) Hi') as (? & ? & Hd''). split_and!; auto. }
  destruct (Hfold (t, false, []) H Hix) as (H1 & Hi1 & Hd1). unfold peer_list_tables.
  destruct (foldl _ _ _) as [[t1 ren] retry]. simpl in *. split; [by apply rebuild_keys|].
  intros p k ep Hz Hd. destruct (Hd1 p k ep Hz Hd) as (id & d & ?). exists id, d.
  destruct (rebuild_core order t1) as (-> & _ & -> & _). done.
Qed.

(** ** Names *)

(** the name table is bounded: no sequence of entries makes it hold more
    than p2pMaxPeerListEntries + 1 names, whatever the payload. *)
Theorem peer_names_bounded c msg :
  Z.of_nat (size (peerNames c)) ≤ p2pMaxPeerListEntries + 1 →
  Z.of_nat (size (peerNames (handlePeerNames c msg))) ≤ p2pMaxPeerListEntries + 1.
Proof.
  intros Hs. unfold handlePeerNames. destruct (_ <? _)%nat; [done|]. simpl.
  generalize (Z.to_nat (be_get (take 2 (Payload msg)))) as n, (drop 2 (Payload msg)) as rest.
  revert Hs. generalize (peerNames c) as m. intros m Hs n. revert m Hs.
  induction n as [|n IH]; intros m Hs rest; simpl; [done|].
  destruct (Z.ltb_spec p2pMaxPeerListEntries (Z.of_nat (size m))); [done|].
  destruct (_ <? 33)%nat; [done|]. destruct (_ <? _)%nat; [done|]. destruct (IsZeroKey _); [by apply IH|].
  destruct (_ =? _)%nat; apply IH.
  - rewrite map_size_delete. destruct (m !! _); simpl; lia.
  - rewrite map_size_insert. destruct (m !! _); simpl; lia.
Qed.
End Props.

(** ** Instances *)

Module PropsDemo.
Import Demo.
#[local] Instance env_a : P2PEnv := demo_env key_a.

(** Peer 7 after its relay, and the session and promotion of that relay. *)
Definition old_job : p2pPromotionJob := MkPromotionJob 7 99 key_b (ip4 10 0 0 7) end_b None 1000.

Lemma obsolete_attempt_harmless_witness :
  promote_locked order (tb c2) 2000 old_job = (signalDone (tb c2) 99, true).
Proof. apply (obsolete_attempt_harmless order (tb c2) 2000 old_job). vm_compute. discriminate. Defined.

(** A keyed, capable peer that just failed once. *)
Definition failed_peer : DiscoveredPeer :=
  MkDiscovered 7 key_b no_addr addr_b [] 0 true P2PStateFailed None None 1000 1000 zero_time
    (ip4 10 0 0 7) 1 0 zero_time.
Definition failed_tables : Tables :=
  MkTables {[ 0 := failed_peer ]} ∅ {[ 1 := 0 ]} 2 {[ 7 := 0 ]} ∅ ∅ {[ key_b := 7 ]} {[ 7 := 1 ]} ∅ key_server.
Lemma failed_tables_inv : tinv failed_tables.
Proof.
  split; simpl; intros *; rewrite ?lookup_empty; try done.
  - intros [<- <-]%lookup_singleton_Some. exists failed_peer. by rewrite lookup_singleton_eq.
  - intros [? [<- _]%lookup_singleton_Some]. lia.
Qed.

Lemma punch_request_guarded_witness :
  (try_locked order failed_tables (1000 + 9 * second) 7).2 = false ∧
  ((try_locked order failed_tables (1000 + 11 * second) 7).2 = true ↔
    ∃ p d, get_peer failed_tables 7 = Some (p, d) ∧ attempt_allowed failed_tables d (1000 + 11 * second) = true).
Proof.
  split; [vm_refl|].
  destruct (try_locked order failed_tables (1000 + 11 * second) 7) as [[t' ok] request] eqn:E.
  apply (punch_request_guarded order failed_tables (1000 + 11 * second) 7 t' ok request);
    [apply failed_tables_inv|exact E].
Defined.

Definition gate_client : Client :=
  with_tb c0 (rebuildIndexesLocked order failed_tables).
Lemma attempt_gate_interval_witness :
  attemptQueue (ObserveDestination gate_client 5000 (ip4 10 0 0 7)) = attemptQueue gate_client ++ [7] ∧
  ObserveDestination (ObserveDestination gate_client 5000 (ip4 10 0 0 7)) (5000 + second) (ip4 10 0 0 7)
  = ObserveDestination gate_client 5000 (ip4 10 0 0 7).
Proof.
  assert (destinations (tb gate_client) !! ip4 10 0 0 7 = Some (7, 1)) as Hd by vm_refl.
  apply (attempt_gate_interval gate_client 5000 (ip4 10 0 0 7) 7 1 (5000 + second) (ip4 10 0 0 7) 7);
    try exact Hd; vm_compute; intuition (discriminate || lia).
Defined.

Definition is_some {A} (o : option A) : bool := match o with Some _ => true | None => false end.
Lemma maintenance_settles_witness : ∃ d,
  pheap (maT (maint_locked order dev (tb c8) 3000)) !! 0 = Some d ∧ settled dev 3000 d.
Proof.
  assert (peers (maT (maint_locked order dev (tb c8) 3000)) !! 7 = Some 0) as Hp by vm_refl.
  assert (is_some (pheap (maT (maint_locked order dev (tb c8) 3000)) !! 0) = true) as Hs by vm_refl.
  destruct (pheap (maT (maint_locked order dev (tb c8) 3000)) !! 0) as [d|] eqn:Ed.
  - exists d. split; [reflexivity|].
    apply (maintenance_settles order dev (tb c8) 3000 order_ok 7 0 d); [exact Hp|exact Ed].
  - discriminate Hs.
Defined.

Lemma destination_index_correct_witness :
  destinations (rebuildIndexesLocked order failed_tables) !! ip4 10 0 0 7 = Some (7, 1) ∧
  ∃ p d, peers (rebuildIndexesLocked order failed_tables) !! 7 = Some p ∧
    pheap (rebuildIndexesLocked order failed_tables) !! p = Some d ∧
    eligible (rebuildIndexesLocked order failed_tables) d = true ∧
    To4 (dAssignedIP d) = Some (ip4 10 0 0 7) ∧
    attemptGates (rebuildIndexesLocked order failed_tables) !! 7 = Some 1.
Proof.
  assert (destinations (rebuildIndexesLocked order failed_tables) !! ip4 10 0 0 7 = Some (7, 1)) as Hd
    by vm_refl.
  split; [exact Hd|].
  apply (destination_index_correct order failed_tables order_ok failed_tables_inv). exact Hd.
Defined.

(** Peer 7 with a direct path is renumbered to 9 by the coordinator. *)
Definition direct_peer : DiscoveredPeer :=
  MkDiscovered 7 key_b no_addr addr_b [] 0 true P2PStateEstablished (Some end_b) None 1000 1000 900
    (ip4 10 0 0 7) 0 0 zero_time.
Definition direct_tables : Tables :=
  MkTables {[ 0 := direct_peer ]} ∅ ∅ 1 {[ 7 := 0 ]} ∅ ∅ {[ key_b := 7 ]} ∅ ∅ key_server.
Definition entry9 : list_entry := MkEntry 9 key_b no_addr addr_b 0 true (ip4 10 0 0 7).
Lemma peer_list_keeps_direct_paths_witness :
  has_direct (peer_list_tables order direct_tables 2000 [entry9]).1.1 0 key_b (Some end_b).
Proof.
  apply (peer_list_keeps_direct_paths order direct_tables 2000 [entry9]).
  - apply order_ok.
  - split; simpl; intros *; rewrite ?lookup_empty; try done.
    + intros [<- <-]%lookup_singleton_Some. exists direct_peer. by rewrite lookup_singleton_eq.
    + intros [? [<- _]%lookup_singleton_Some]. lia.
  - intros id p d Hp Hd _. simpl in Hp, Hd. apply lookup_singleton_Some in Hp as [<- <-].
    rewrite lookup_singleton_eq in Hd. injection Hd as <-. vm_refl.
  - constructor; [vm_refl|constructor].
  - vm_refl.
  - exists 7, direct_peer. simpl. rewrite !lookup_singleton_eq. by split_and!.
Defined.

Lemma peer_names_bounded_witness :
  Z.of_nat (size (peerNames (handlePeerNames c0 relay_msg))) ≤ 4097.
Proof. apply (peer_names_bounded c0 relay_msg). vm_compute. discriminate. Defined.
End PropsDemo.
