(* ===== verification/Replay.v ===== *)
(** * The anti-replay filter

    src/internal/device/wireguard-go/replay/replay.go: the sliding window of RFC
    6479 over a ring of 64-bit blocks.  [Filter_spec] is what it promises: a
    counter passes when it is below the limit, not further than [windowSize]
    behind the newest one, and has not passed before.  The ring implements this
    although [Reset] clears one block only: blocks that the window has not
    reached hold arbitrary bits until the window moves over them. *)

From S2P Require Import Prelude.

Definition blockBitLog : Z := 6.
Definition blockBits : Z := Z.shiftl 1 blockBitLog.
Definition ringBlocks : Z := Z.shiftl 1 7.
Definition windowSize : Z := (ringBlocks - 1) * blockBits.
Definition blockMask : Z := ringBlocks - 1.
Definition bitMask : Z := blockBits - 1.

Record Filter := { last : Z; ring : list Z }.

(** [f.ring[i]]; a ring has [ringBlocks] blocks and every index is masked. *)
Definition ring_get (r : list Z) (i : Z) : Z := default 0 (r !! Z.to_nat i).

Definition Filter_zero : Filter := {| last := 0; ring := replicate 128 0 |}.

Definition Reset (f : Filter) : Filter := {| last := 0; ring := <[0%nat := 0]> (ring f) |}.

(** [for i := current + 1; i <= current+diff; i++ { f.ring[i&blockMask] = 0 }] *)
Definition clear_blocks (current diff : Z) (r : list Z) : list Z :=
  foldl (fun r i => <[Z.to_nat (Z.land i blockMask) := 0]> r) r (seqZ (current + 1) diff).

(** Check and set the bit of [counter]. *)
Definition check_and_set (f : Filter) (counter : Z) : Filter * bool :=
  let indexBlock := Z.land (Z.shiftr counter blockBitLog) blockMask in
  let indexBit := Z.land counter bitMask in
  let old := ring_get (ring f) indexBlock in
  let new := Z.lor old (Z.shiftl 1 indexBit) in
  ({| last := last f; ring := <[Z.to_nat indexBlock := new]> (ring f) |}, negb (old =? new)).

Definition ValidateCounter (f : Filter) (counter limit : Z) : Filter * bool :=
  if counter >=? limit then (f, false) else
  let indexBlock := Z.shiftr counter blockBitLog in
  if last f <? counter then
    let current := Z.shiftr (last f) blockBitLog in
    let diff := u64 (indexBlock - current) in
    let diff := if ringBlocks <? diff then ringBlocks else diff in
    check_and_set {| last := counter; ring := clear_blocks current diff (ring f) |} counter
  else if windowSize <? u64 (last f - counter) then (f, false)
  else check_and_set f counter.

(** ** The specification: a set of accepted counters *)

Record Filter_spec := { newest : Z; seen : gset Z }.

Definition spec_empty : Filter_spec := {| newest := 0; seen := ∅ |}.

Definition spec_validate (a : Filter_spec) (counter limit : Z) : Filter_spec * bool :=
  if bool_decide (counter < limit ∧ newest a - counter ≤ windowSize ∧ counter ∉ seen a)
  then ({| newest := Z.max (newest a) counter; seen := {[counter]} ∪ seen a |}, true)
  else (a, false).

(** A history of calls; a counter is a uint64. *)
Inductive filter_op := OpReset | OpValidate (counter limit : Z).
Definition op_ok (o : filter_op) : Prop :=
  match o with OpReset => True | OpValidate c _ => 0 ≤ c < 2 ^ 64 end.
#[export] Instance op_ok_dec o : Decision (op_ok o).
Proof. destruct o; apply _. Defined.

Section Run.
Context {S : Type} (reset : S → S) (validate : S → Z → Z → S * bool).
Fixpoint run_filter (s : S) (ops : list filter_op) : list bool :=
  match ops with
  | [] => []
  | OpReset :: ops => run_filter (reset s) ops
  | OpValidate c l :: ops => let '(s', b) := validate s c l in b :: run_filter s' ops
  end.
End Run.

(** ** The representation *)

Definition block_of (c : Z) : Z := c / 64.
Definition slot (b : Z) : Z := b mod 128.
Definition bit_at (r : list Z) (c : Z) : bool := Z.testbit (ring_get r (slot (block_of c))) (c mod 64).

(** The ring holds the bits of the 128 blocks up to that of the newest counter. *)
Definition in_ring (n c : Z) : Prop := 0 ≤ c ∧ block_of n - 127 ≤ block_of c ≤ block_of n.

Record represents (f : Filter) (a : Filter_spec) : Prop := {
  rep_len : length (ring f) = 128%nat;
  rep_last : last f = newest a;
  rep_range : 0 ≤ newest a < 2 ^ 64;
  rep_seen : ∀ c, c ∈ seen a → 0 ≤ c ≤ newest a;
  rep_bits : ∀ c, in_ring (newest a) c → bit_at (ring f) c = bool_decide (c ∈ seen a);
}.

Lemma shiftr_block c : Z.shiftr c blockBitLog = block_of c.
Proof. unfold block_of. by rewrite Z.shiftr_div_pow2. Qed.
Lemma land_slot b : Z.land b blockMask = slot b.
Proof. change blockMask with (Z.ones 7). by rewrite Z.land_ones. Qed.
Lemma land_bit c : Z.land c bitMask = c mod 64.
Proof. change bitMask with (Z.ones 6). by rewrite Z.land_ones. Qed.
Lemma slot_range b : 0 ≤ slot b < 128.
Proof. apply Z.mod_pos_bound. lia. Qed.
Lemma block_mono c d : c ≤ d → block_of c ≤ block_of d.
Proof. intros. by apply Z.div_le_mono. Qed.
Lemma block_bit_inj c d : block_of c = block_of d → c mod 64 = d mod 64 → c = d.
Proof. unfold block_of. pose proof (Z.div_mod c 64). pose proof (Z.div_mod d 64). lia. Qed.
Lemma slot_inj b d : slot b = slot d → Z.abs (b - d) < 128 → b = d.
Proof.
  unfold slot. intros H ?. pose proof (Z.div_mod b 128). pose proof (Z.div_mod d 128).
  assert (Z.abs (b / 128 - d / 128) < 1) by lia. lia.
Qed.

Lemma ring_get_insert r i j v :
  length r = 128%nat → 0 ≤ i < 128 → 0 ≤ j →
  ring_get (<[Z.to_nat i := v]> r) j = if decide (i = j) then v else ring_get r j.
Proof.
  intros Hl Hi Hj. unfold ring_get. case_decide as Hij.
  - subst j. by rewrite list_lookup_insert_eq by lia.
  - by rewrite list_lookup_insert_ne by lia.
Qed.

Lemma clear_blocks_len current diff r : length (clear_blocks current diff r) = length r.
Proof.
  unfold clear_blocks. generalize (seqZ (current + 1) diff). intros l. revert r.
  induction l as [|i l IH]; intros r; simpl; [done|]. by rewrite IH, length_insert.
Qed.

Lemma clear_fold l r j :
  length r = 128%nat → 0 ≤ j →
  ring_get (foldl (fun r i => <[Z.to_nat (Z.land i blockMask) := 0]> r) r l) j =
    if decide (j ∈ slot <$> l) then 0 else ring_get r j.
Proof.
  revert r. induction l as [|i l IH]; intros r Hl Hj; simpl foldl.
  { rewrite decide_False; [done|]. by intros ?%elem_of_nil. }
  rewrite fmap_cons, IH by (rewrite ?length_insert; lia).
  rewrite land_slot, ring_get_insert by (try apply slot_range; lia).
  destruct (decide (j ∈ slot <$> l)) as [Hin|Hin].
  - rewrite decide_True; [done|]. rewrite elem_of_cons. by right.
  - case_decide as He.
    + rewrite decide_True; [done|]. rewrite elem_of_cons. by left.
    + rewrite decide_False; [done|]. rewrite elem_of_cons. naive_solver.
Qed.

Lemma clear_blocks_get current diff r j :
  length r = 128%nat → 0 ≤ j →
  ring_get (clear_blocks current diff r) j =
    if decide (j ∈ slot <$> seqZ (current + 1) diff) then 0 else ring_get r j.
Proof. apply clear_fold. Qed.

(** A block the window newly covers is cleared, an old one it keeps is not. *)
Lemma clear_blocks_slot current target r b :
  length r = 128%nat → 0 ≤ current ≤ target → target - 127 ≤ b ≤ target →
  ring_get (clear_blocks current (Z.min 128 (target - current)) r) (slot b) =
    if decide (current < b) then 0 else ring_get r (slot b).
Proof.
  intros Hl Hct Hb. rewrite clear_blocks_get by (try apply slot_range; done || apply slot_range).
  destruct (decide (current < b)) as [Hlt|Hge].
  - rewrite decide_True; [done|]. apply list_elem_of_fmap.
    exists (if decide (b ≤ current + 128) then b else current + 1 + (b - (current + 1)) mod 128).
    case_decide; [split; [done|]; apply elem_of_seqZ; lia|].
    pose proof (Z.mod_pos_bound (b - (current + 1)) 128). split.
    + unfold slot. rewrite Z.add_mod_idemp_r by lia. f_equal. lia.
    + apply elem_of_seqZ. lia.
  - rewrite decide_False; [done|]. rewrite list_elem_of_fmap. intros (i & Hi & Hin).
    apply elem_of_seqZ in Hin. apply slot_inj in Hi; lia.
Qed.

Lemma bit_at_set r c d :
  length r = 128%nat → 0 ≤ c → 0 ≤ d → Z.abs (block_of c - block_of d) < 128 →
  bit_at (<[Z.to_nat (slot (block_of c)) := Z.lor (ring_get r (slot (block_of c))) (Z.shiftl 1 (c mod 64))]> r) d =
    bool_decide (d = c) || bit_at r d.
Proof.
  intros Hl Hc Hd Hnear. unfold bit_at. rewrite ring_get_insert by (try apply slot_range; done || apply slot_range).
  pose proof (Z.mod_pos_bound d 64). pose proof (Z.mod_pos_bound c 64).
  destruct (decide (slot (block_of c) = slot (block_of d))) as [He|Hne].
  - apply slot_inj in He as He'; [|done]. rewrite He' at 1.
    rewrite Z.lor_spec, Z.shiftl_1_l, Z.pow2_bits_eqb, orb_comm by lia. f_equal.
    apply eq_true_iff_eq. rewrite Z.eqb_eq, bool_decide_eq_true. split; [|by intros ->].
    intros. symmetry. by apply block_bit_inj.
  - rewrite bool_decide_false; [done|]. by intros ->.
Qed.

Lemma lor_bit_same x k : 0 ≤ k → (x =? Z.lor x (Z.shiftl 1 k)) = Z.testbit x k.
Proof.
  intros Hk. apply eq_true_iff_eq. rewrite Z.eqb_eq. rewrite Z.shiftl_1_l. split.
  - intros He. rewrite He, Z.lor_spec, Z.pow2_bits_true by lia. apply orb_true_r.
  - intros Ht. apply Z.bits_inj'. intros n Hn. rewrite Z.lor_spec, Z.pow2_bits_eqb by lia.
    destruct (Z.eqb_spec k n) as [->|]; [by rewrite Ht|by rewrite orb_false_r].
Qed.

#[global] Arguments check_and_set : simpl never.

(** ** Every call simulates the specification *)

Lemma represents_zero : represents Filter_zero spec_empty.
Proof.
  constructor; [done|done|simpl; lia|simpl; set_solver|]. intros c _.
  rewrite bool_decide_false by (simpl; set_solver). unfold bit_at, ring_get, Filter_zero, ring.
  destruct (replicate 128 0 !! _) as [x|] eqn:Hx; [|apply Z.testbit_0_l].
  apply lookup_replicate in Hx as [-> _]. apply (Z.testbit_0_l).
Qed.

Lemma Reset_sim f a : represents f a → represents (Reset f) spec_empty.
Proof.
  intros [Hl _ _ _ _]. constructor; simpl; [by rewrite length_insert|done|lia|set_solver|].
  intros c [Hc Hb]. rewrite bool_decide_false by set_solver. unfold bit_at.
  assert (block_of c = 0) as ->.
  { change (block_of 0) with 0 in Hb. unfold block_of in *. pose proof (Z.div_pos c 64). lia. }
  change (slot 0) with 0. change 0%nat with (Z.to_nat 0).
  rewrite ring_get_insert by lia. rewrite decide_True by done. apply Z.testbit_0_l.
Qed.

Lemma advance_sim f a counter :
  represents f a → newest a < counter < 2 ^ 64 →
  let current := block_of (last f) in
  let diff := u64 (block_of counter - current) in
  represents {| last := counter;
                ring := clear_blocks current (if ringBlocks <? diff then ringBlocks else diff) (ring f) |}
             {| newest := counter; seen := seen a |}.
Proof.
  intros [Hl Hlast Hr Hseen Hbits] Hc current diff.
  assert (Hcur : 0 ≤ current ≤ block_of counter).
  { subst current. rewrite Hlast. split; [apply Z.div_pos; lia|apply block_mono; lia]. }
  assert (Hhi : block_of counter < 2 ^ 64) by (apply Z.div_lt_upper_bound; lia).
  assert ((if ringBlocks <? diff then ringBlocks else diff) = Z.min 128 (block_of counter - current)) as ->.
  { subst diff. rewrite wrap_small by lia. change ringBlocks with 128. destruct (Z.ltb_spec 128 (block_of counter - current)); lia. }
  constructor; simpl; [by rewrite clear_blocks_len|done|lia| |].
  - intros d Hd. specialize (Hseen d Hd). lia.
  - intros d [Hd Hb]. unfold bit_at. rewrite clear_blocks_slot by done. subst current. rewrite Hlast in *.
    case_decide as Hlt.
    + rewrite Z.testbit_0_l, bool_decide_false; [done|]. intros Hin. specialize (Hseen d Hin).
      pose proof (block_mono d (newest a)). lia.
    + apply Hbits. split; lia.
Qed.

Lemma check_and_set_sim f a counter :
  represents f a → in_ring (newest a) counter → counter ≤ newest a →
  (check_and_set f counter).2 = negb (bool_decide (counter ∈ seen a)) ∧
  represents (check_and_set f counter).1 {| newest := newest a; seen := {[counter]} ∪ seen a |}.
Proof.
  intros [Hl Hlast Hr Hseen Hbits] Hin Hle. pose proof Hin as [Hc Hb]. unfold check_and_set; simpl.
  rewrite shiftr_block, land_slot, land_bit. split.
  - rewrite lor_bit_same by (apply Z.mod_pos_bound; lia). f_equal. by apply Hbits.
  - constructor; simpl; [by rewrite length_insert|done|done| |].
    + intros d. rewrite elem_of_union, elem_of_singleton. intros [->|Hd]; [lia|by apply Hseen].
    + intros d [Hd Hbd]. rewrite bit_at_set by (done || lia). rewrite Hbits by done.
      apply eq_true_iff_eq. rewrite orb_true_iff, !bool_decide_eq_true. set_solver.
Qed.

Lemma ValidateCounter_sim f a counter limit :
  represents f a → 0 ≤ counter < 2 ^ 64 →
  let '(f', b) := ValidateCounter f counter limit in
  let '(a', b') := spec_validate a counter limit in
  b = b' ∧ represents f' a'.
Proof.
  intros Hrep Hc. pose proof Hrep as [Hl Hlast Hr Hseen _]. unfold ValidateCounter, spec_validate.
  rewrite Z.geb_leb. destruct (Z.leb_spec limit counter) as [Hlim|Hlim].
  { rewrite bool_decide_false by lia. done. }
  rewrite !shiftr_block. destruct (Z.ltb_spec (last f) counter) as [Hlt|Hge].
  - rewrite Hlast in Hlt. pose proof (advance_sim f a counter Hrep ltac:(lia)) as Hadv.
    cbv zeta in Hadv. pose proof (check_and_set_sim _ _ counter Hadv) as Hset. cbn [newest seen] in Hset.
    destruct (check_and_set _ counter) as [f' b]. cbn [fst snd] in Hset.
    destruct Hset as [-> Hrep']; [split; lia|lia|].
    assert (counter ∉ seen a) by (intros Hin; specialize (Hseen _ Hin); lia).
    rewrite bool_decide_true by (change windowSize with 8128; split_and!; [lia|lia|done]).
    rewrite bool_decide_false by done. by rewrite Z.max_r by lia.
  - rewrite Hlast in *. rewrite wrap_small by lia. change windowSize with 8128.
    destruct (Z.ltb_spec 8128 (newest a - counter)) as [Hold|Hwin].
    { rewrite bool_decide_false by lia. done. }
    assert (Hin : in_ring (newest a) counter).
    { split; [lia|]. split; [|by apply block_mono].
      transitivity (block_of (newest a - 8128)); [|apply block_mono; lia].
      unfold block_of. replace (newest a - 8128) with (newest a + (-127) * 64) by lia.
      rewrite Z.div_add; lia. }
    pose proof (check_and_set_sim f a counter Hrep Hin Hge) as Hset.
    destruct (check_and_set _ _) as [f' b]. simpl in Hset. destruct Hset as [-> Hrep'].
    destruct (decide (counter ∈ seen a)) as [Hs|Hs].
    + rewrite (bool_decide_true (counter ∈ seen a)) by done. rewrite bool_decide_false by tauto.
      split; [done|]. replace ({[counter]} ∪ seen a) with (seen a) in Hrep' by set_solver.
      destruct a; done.
    + rewrite (bool_decide_false (counter ∈ seen a)) by done. rewrite bool_decide_true by (split_and!; done).
      split; [done|]. by rewrite Z.max_l by lia.
Qed.

Lemma run_filter_sim ops f a :
  represents f a → Forall op_ok ops →
  run_filter Reset ValidateCounter f ops = run_filter (fun _ => spec_empty) spec_validate a ops.
Proof.
  intros Hrep Hops. revert f a Hrep. induction Hops as [|o ops Ho _ IH]; intros f a Hrep; [done|].
  destruct o as [|c l]; simpl.
  - apply IH. by apply (Reset_sim f a).
  - pose proof (ValidateCounter_sim f a c l Hrep Ho) as Hsim.
    destruct (ValidateCounter f c l) as [f' b], (spec_validate a c l) as [a' b'].
    destruct Hsim as [-> Hrep']. f_equal. by apply IH.
Qed.

(** C36: The ring implements the specification: on every history of [Reset] and
    [ValidateCounter] calls, starting from the zero value, it accepts exactly the
    counters that are below the limit, at most [windowSize] behind the newest
    accepted one, and not accepted before since the last reset. *)
Theorem replay_filter_refines_spec ops :
  Forall op_ok ops →
  run_filter Reset ValidateCounter Filter_zero ops =
  run_filter (fun _ => spec_empty) spec_validate spec_empty ops.
Proof. apply run_filter_sim, represents_zero. Qed.

(** A history that wraps the ring, falls behind the window, replays and resets. *)
Definition demo_ops : list filter_op :=
  ((fun c => OpValidate c 20000) <$> [5; 5; 8200; 72; 71; 5; 19000; 8200; 20000; 18999; 18999])
  ++ [OpReset; OpValidate 5 10; OpValidate 5 10; OpValidate 100 200; OpValidate 100 200].
Lemma replay_filter_refines_spec_witness :
  run_filter Reset ValidateCounter Filter_zero demo_ops =
    [true; false; true; true; false; false; true; false; false; true; false; true; false; true; false] ∧
  run_filter Reset ValidateCounter Filter_zero demo_ops =
  run_filter (fun _ => spec_empty) spec_validate spec_empty demo_ops.
Proof.
  split; [vm_refl|]. apply replay_filter_refines_spec. repeat constructor; simpl; lia.
Defined.
