(* ===== verification/AllowedIPs.v ===== *)
(** * Allowed IPs: the crypto-routing trie

    src/internal/device/wireguard-go/device/allowedips.go, one definition per
    function.  A trie is a value: a pointer to a node is the path of child bits
    that leads to it, so a [parentIndirection] is a path too (the empty path is
    the table's root field, whose [parentBitType] is 2).  [bitAtByte] and
    [bitAtShift] are functions of [cidr], as the constructor sets them; a node
    is in its peer's [trieEntries] list exactly while [peer] is set, which is what
    [perPeerElem] records; a list element names its node by (bits, cidr).  An
    index out of range and the explicit panics are [Panic]. *)

From S2P Require Import Prelude.

(** Only panics interrupt this code: there are no error values. *)
Abbreviation go := (res Empty_set).

(** [bits.LeadingZeros32] and [bits.LeadingZeros64] *)
Definition LeadingZeros (w x : Z) : Z := if x =? 0 then w else w - 1 - Z.log2 x.

Definition commonBits (ip1 ip2 : bytes) : go Z :=
  let size := Z.of_nat (length ip1) in
  if size =? 4 then
    if (length ip2 <? 4)%nat then Panic else
    let x := Z.lxor (be_get ip1) (be_get (take 4 ip2)) in
    Ok (u8 (LeadingZeros 32 x))
  else if size =? 16 then
    if (length ip2 <? 16)%nat then Panic else
    let x := Z.lxor (be_get (take 8 ip1)) (be_get (take 8 ip2)) in
    if negb (x =? 0) then Ok (u8 (LeadingZeros 64 x)) else
    let x := Z.lxor (be_get (take 8 (drop 8 ip1))) (be_get (take 8 (drop 8 ip2))) in
    Ok (u8 (64 + u8 (LeadingZeros 64 x)))
  else Panic.

Definition bitAtByte (cidr : Z) : Z := cidr / 8.
Definition bitAtShift (cidr : Z) : Z := u8 (7 - cidr mod 8).

(** [node.choose(ip)] of a node with the given [cidr]; [true] is child 1. *)
Definition choose (cidr : Z) (ip : bytes) : go bool :=
  match ip !! Z.to_nat (bitAtByte cidr) with
  | Some b => Ok (Z.land (Z.shiftr (b2z b) (bitAtShift cidr)) 1 =? 1)
  | None => Panic
  end.

(** [net.CIDRMask]; nil when the arguments are out of range. *)
Fixpoint cidr_mask_bytes (l : nat) (n : Z) : list Z :=
  match l with
  | O => []
  | S l => if 8 <=? n then 255 :: cidr_mask_bytes l (n - 8)
           else Z.lxor 255 (Z.shiftr 255 n) :: cidr_mask_bytes l 0
  end.
Definition CIDRMask (ones bits : Z) : list Z :=
  if negb (bits =? 32) && negb (bits =? 128) then []
  else if (ones <? 0) || (bits <? ones) then []
  else cidr_mask_bytes (Z.to_nat (bits / 8)) ones.

(** [for i := 0; i < len(mask); i++ { node.bits[i] &= mask[i] }] *)
Fixpoint and_mask (bits : bytes) (mask : list Z) : bytes :=
  match bits, mask with
  | b :: bits, m :: mask => z2b (Z.land (b2z b) m) :: and_mask bits mask
  | _, _ => bits
  end.
Definition maskSelf (cidr : Z) (bits : bytes) : bytes :=
  and_mask bits (CIDRMask cidr (Z.of_nat (length bits) * 8)).

(** [netip.Addr] and [netip.Prefix]; [Bits] is -1 for an invalid prefix. *)
Inductive Addr := AddrZero | Addr4 (a : bytes) | Addr6 (a : bytes).
Record Prefix := { prefix_addr : Addr; prefix_bits : Z }.

Section AllowedIPs.
Context {Peer : Type} `{Countable Peer}.

Inductive trieEntry :=
| Nil
| Node (peer : option Peer) (cidr : Z) (bits : bytes) (child0 child1 : trieEntry).

Definition is_nil (t : trieEntry) : bool := match t with Nil => true | _ => false end.
Definition node_child (t : trieEntry) (bit : bool) : trieEntry :=
  match t with Nil => Nil | Node _ _ _ c0 c1 => if bit then c1 else c0 end.
Definition set_child (t : trieEntry) (bit : bool) (c : trieEntry) : trieEntry :=
  match t with
  | Nil => Nil
  | Node p n b c0 c1 => if bit then Node p n b c0 c else Node p n b c c1
  end.

(** What a pointer into the trie refers to, and a store through it. *)
Fixpoint subtrie (t : trieEntry) (path : list bool) : trieEntry :=
  match path with [] => t | bit :: path => subtrie (node_child t bit) path end.
Fixpoint set_subtrie (t : trieEntry) (path : list bool) (new : trieEntry) : trieEntry :=
  match path with
  | [] => new
  | bit :: path => set_child t bit (set_subtrie (node_child t bit) path new)
  end.

(** [perPeer p] is [p.trieEntries]. *)
Abbreviation per_peer := (gmap Peer (list (bytes * Z))).
Definition entries_of (e : per_peer) (p : Peer) : list (bytes * Z) := default [] (e !! p).
Definition addToPeerEntries (e : per_peer) (p : Peer) (n : bytes * Z) : per_peer :=
  <[p := entries_of e p ++ [n]]> e.
Definition removeFromPeerEntries (e : per_peer) (p : option Peer) (n : bytes * Z) : per_peer :=
  match p with
  | Some p => <[p := List.filter (fun n' => negb (bool_decide (n' = n))) (entries_of e p)]> e
  | None => e
  end.

(** The loop of [nodePlacement]: [path] leads to [node]; the result is the last
    node passed. *)
Fixpoint nodePlacement_loop (node : trieEntry) (ip : bytes) (cidr : Z)
    (path : list bool) (parent : option (list bool)) : go (option (list bool) * bool) :=
  match node with
  | Nil => Ok (parent, false)
  | Node _ n bits c0 c1 =>
      if cidr <? n then Ok (parent, false) else
      common ← commonBits bits ip;
      if common <? n then Ok (parent, false) else
      if n =? cidr then Ok (Some path, true) else
      bit ← choose n ip;
      if (bit : bool) then nodePlacement_loop c1 ip cidr (path ++ [true]) (Some path)
      else nodePlacement_loop c0 ip cidr (path ++ [false]) (Some path)
  end.
Definition nodePlacement (node : trieEntry) (ip : bytes) (cidr : Z) :=
  nodePlacement_loop node ip cidr [] None.

(** [parentIndirection.insert] on the root field [t].  [bits: ip] shares the
    caller's array, so after [newNode.maskSelf] the parameter is masked too. *)
Definition trie_insert (t : trieEntry) (e : per_peer) (ip : bytes) (cidr : Z) (peer : Peer)
    : go (trieEntry * per_peer) :=
  if is_nil t then
    let bits := maskSelf cidr ip in
    Ok (Node (Some peer) cidr bits Nil Nil, addToPeerEntries e peer (bits, cidr))
  else
  '(node, exact) ← nodePlacement t ip cidr;
  match node, exact with
  | Some path, true =>
      match subtrie t path with
      | Nil => Panic
      | Node old n bits c0 c1 =>
          Ok (set_subtrie t path (Node (Some peer) n bits c0 c1),
              addToPeerEntries (removeFromPeerEntries e old (bits, n)) peer (bits, n))
      end
  | None, true => Panic
  | _, false =>
      let ip := maskSelf cidr ip in
      let e := addToPeerEntries e peer (ip, cidr) in
      (* where the new subtree goes: below [node], or at the root *)
      where_ ← match node with
               | None => Ok []
               | Some path =>
                   match subtrie t path with
                   | Nil => Panic
                   | Node _ n _ _ _ => bit ← choose n ip; Ok (path ++ [bit])
                   end
               end;
      match subtrie t where_ with
      | Nil => Ok (set_subtrie t where_ (Node (Some peer) cidr ip Nil Nil), e)
      | Node _ _ dbits _ _ as down =>
          common ← commonBits dbits ip;
          let cidr' := if common <? cidr then common else cidr in
          if cidr =? cidr' then
            bit ← choose cidr dbits;
            Ok (set_subtrie t where_ (set_child (Node (Some peer) cidr ip Nil Nil) bit down), e)
          else
            let bits := maskSelf cidr' ip in
            let node := Node None cidr' bits Nil Nil in
            bit ← choose cidr' dbits;
            let node := set_child node bit down in
            bit ← choose cidr' ip;
            Ok (set_subtrie t where_ (set_child node bit (Node (Some peer) cidr ip Nil Nil)), e)
      end
  end.

Fixpoint trie_lookup_loop (node : trieEntry) (ip : bytes) (found : option Peer) : go (option Peer) :=
  match node with
  | Nil => Ok found
  | Node peer cidr bits c0 c1 =>
      common ← commonBits bits ip;
      if common <? cidr then Ok found else
      let found := match peer with Some _ => peer | None => found end in
      if bitAtByte cidr =? u8 (Z.of_nat (length ip)) then Ok found else
      bit ← choose cidr ip;
      if (bit : bool) then trie_lookup_loop c1 ip found else trie_lookup_loop c0 ip found
  end.
Definition trie_lookup (node : trieEntry) (ip : bytes) : go (option Peer) := trie_lookup_loop node ip None.

(** [node.remove()] of the node at [path]. *)
Definition trie_remove (t : trieEntry) (e : per_peer) (path : list bool) : go (trieEntry * per_peer) :=
  match subtrie t path with
  | Nil => Panic
  | Node peer cidr bits c0 c1 =>
      let e := removeFromPeerEntries e peer (bits, cidr) in
      if negb (is_nil c0) && negb (is_nil c1) then
        Ok (set_subtrie t path (Node None cidr bits c0 c1), e)
      else
      let child := if is_nil c0 then c1 else c0 in
      let t := set_subtrie t path child in
      if negb (is_nil c0) || negb (is_nil c1) then Ok (t, e) else
      match path with
      | [] => Ok (t, e)
      | _ =>
          let up := List.removelast path in
          match subtrie t up with
          | Nil => Panic
          | Node (Some _) _ _ _ _ => Ok (t, e)
          | Node None _ _ _ _ as parent =>
              Ok (set_subtrie t up (node_child parent (negb (List.last path false))), e)
          end
      end
  end.

Record AllowedIPs := { IPv4 : trieEntry; IPv6 : trieEntry; trieEntries : per_peer }.

Definition AllowedIPs_zero : AllowedIPs := {| IPv4 := Nil; IPv6 := Nil; trieEntries := ∅ |}.

Definition Insert (table : AllowedIPs) (prefix : Prefix) (peer : Peer) : go AllowedIPs :=
  match prefix_addr prefix with
  | Addr6 ip =>
      '(t, e) ← trie_insert (IPv6 table) (trieEntries table) ip (u8 (prefix_bits prefix)) peer;
      Ok {| IPv4 := IPv4 table; IPv6 := t; trieEntries := e |}
  | Addr4 ip =>
      '(t, e) ← trie_insert (IPv4 table) (trieEntries table) ip (u8 (prefix_bits prefix)) peer;
      Ok {| IPv4 := t; IPv6 := IPv6 table; trieEntries := e |}
  | AddrZero => Panic
  end.

Definition Lookup (table : AllowedIPs) (ip : bytes) : go (option Peer) :=
  if (length ip =? 16)%nat then trie_lookup (IPv6 table) ip
  else if (length ip =? 4)%nat then trie_lookup (IPv4 table) ip
  else Panic.

(** [if !exact || node == nil || peer != node.peer { return }; node.remove()] *)
Definition remove_placed (t : trieEntry) (e : per_peer) (ip : bytes) (cidr : Z) (peer : Peer)
    : go (trieEntry * per_peer) :=
  '(node, exact) ← nodePlacement t ip cidr;
  match node, exact with
  | Some path, true =>
      match subtrie t path with
      | Node (Some p) _ _ _ _ => if decide (peer = p) then trie_remove t e path else Ok (t, e)
      | _ => Ok (t, e)
      end
  | _, _ => Ok (t, e)
  end.

Definition Remove (table : AllowedIPs) (prefix : Prefix) (peer : Peer) : go AllowedIPs :=
  match prefix_addr prefix with
  | Addr6 ip =>
      '(t, e) ← remove_placed (IPv6 table) (trieEntries table) ip (u8 (prefix_bits prefix)) peer;
      Ok {| IPv4 := IPv4 table; IPv6 := t; trieEntries := e |}
  | Addr4 ip =>
      '(t, e) ← remove_placed (IPv4 table) (trieEntries table) ip (u8 (prefix_bits prefix)) peer;
      Ok {| IPv4 := t; IPv6 := IPv6 table; trieEntries := e |}
  | AddrZero => Panic
  end.

(** The body of [RemoveByPeer]'s loop: the element's node is found by its bits
    and cidr; an element without its node would be a dangling pointer. *)
Definition remove_elem (t : trieEntry) (e : per_peer) (elem : bytes * Z) : go (trieEntry * per_peer) :=
  '(node, exact) ← nodePlacement t elem.1 elem.2;
  match node, exact with
  | Some path, true => trie_remove t e path
  | _, _ => Panic
  end.
Definition remove_elem_table (table : AllowedIPs) (elem : bytes * Z) : go AllowedIPs :=
  if (length elem.1 =? 16)%nat then
    '(t, e) ← remove_elem (IPv6 table) (trieEntries table) elem;
    Ok {| IPv4 := IPv4 table; IPv6 := t; trieEntries := e |}
  else
    '(t, e) ← remove_elem (IPv4 table) (trieEntries table) elem;
    Ok {| IPv4 := t; IPv6 := IPv6 table; trieEntries := e |}.

Fixpoint remove_elems (table : AllowedIPs) (elems : list (bytes * Z)) : go AllowedIPs :=
  match elems with
  | [] => Ok table
  | elem :: elems => table ← remove_elem_table table elem; remove_elems table elems
  end.
Definition RemoveByPeer (table : AllowedIPs) (peer : Peer) : go AllowedIPs :=
  remove_elems table (entries_of (trieEntries table) peer).

(** The prefixes passed to the callback, which stops by returning false. *)
Definition elem_prefix (elem : bytes * Z) : Prefix :=
  {| prefix_addr := if (length elem.1 =? 16)%nat then Addr6 elem.1
                    else if (length elem.1 =? 4)%nat then Addr4 elem.1 else AddrZero;
     prefix_bits := elem.2 |}.
Fixpoint entries_loop (elems : list (bytes * Z)) (cb : Prefix → bool) : list Prefix :=
  match elems with
  | [] => []
  | elem :: elems =>
      elem_prefix elem :: if cb (elem_prefix elem) then entries_loop elems cb else []
  end.
Definition EntriesForPeer (table : AllowedIPs) (peer : Peer) (cb : Prefix → bool) : list Prefix :=
  entries_loop (entries_of (trieEntries table) peer) cb.

End AllowedIPs.
Arguments trieEntry Peer : clear implicits.
Arguments AllowedIPs Peer {_ _}.
