(* ===== verification/AllowedIPsBits.v ===== *)
(** * Addresses as bit strings

    What [commonBits], [choose] and [maskSelf] of [AllowedIPs] compute, in terms
    of the bits of an address from the most significant one on: the length of the
    common prefix, the bit after a prefix, and the prefix padded with zeros. *)

From S2P Require Import Prelude AllowedIPs.

(** The bits of a byte and of an address, most significant first. *)
Definition byte_bits (b : byte) : list bool := (fun i => Z.testbit (b2z b) (7 - i)) <$> seqZ 0 8.
Definition to_bits (ip : bytes) : list bool := ip ≫= byte_bits.

(** The length of the longest common prefix. *)
Fixpoint lcp (l1 l2 : list bool) : nat :=
  match l1, l2 with
  | b1 :: l1, b2 :: l2 => if Bool.eqb b1 b2 then S (lcp l1 l2) else O
  | _, _ => O
  end.

(** The number a bit string denotes. *)
Fixpoint of_bits (l : list bool) : Z :=
  match l with [] => 0 | b :: l => Z.b2z b * 2 ^ Z.of_nat (length l) + of_bits l end.

(** ** Bit strings *)

Lemma lcp_take_eq l1 l2 n :
  (n ≤ length l1)%nat → (n ≤ length l2)%nat → (n ≤ lcp l1 l2)%nat ↔ take n l1 = take n l2.
Proof.
  revert l2 n. induction l1 as [|b1 l1 IH]; intros [|b2 l2] [|n]; simpl; try (intros; split; [done|lia] || lia).
  intros. destruct (Bool.eqb_spec b1 b2) as [->|Hne].
  - rewrite <- Nat.succ_le_mono, IH by lia. split; [by intros ->|by intros [= ->]].
  - split; [lia|]. by intros [= ? _].
Qed.
Lemma lcp_max l1 l2 : (lcp l1 l2 ≤ length l1)%nat ∧ (lcp l1 l2 ≤ length l2)%nat.
Proof.
  revert l2. induction l1 as [|b1 l1 IH]; intros [|b2 l2]; simpl; try lia.
  destruct (Bool.eqb b1 b2); [|lia]. specialize (IH l2). lia.
Qed.
(** After the common prefix the strings differ. *)
Lemma lcp_differ l1 l2 b1 b2 : l1 !! lcp l1 l2 = Some b1 → l2 !! lcp l1 l2 = Some b2 → b2 = negb b1.
Proof.
  revert l2. induction l1 as [|a1 l1 IH]; intros [|a2 l2]; simpl; try done.
  destruct (Bool.eqb_spec a1 a2); simpl; [apply IH|]. intros [= <-] [= <-]. by destruct a1, a2.
Qed.
Lemma lcp_app l1 l2 m1 m2 :
  length l1 = length l2 →
  lcp (l1 ++ m1) (l2 ++ m2) = if decide (l1 = l2) then (length l1 + lcp m1 m2)%nat else lcp l1 l2.
Proof.
  revert l2. induction l1 as [|a1 l1 IH]; intros [|a2 l2]; simpl; try done.
  intros [= Hl]. rewrite IH by done. destruct (Bool.eqb_spec a1 a2) as [->|Hne].
  - repeat case_decide; simplify_eq; done.
  - rewrite decide_False by congruence. done.
Qed.
Lemma take_S_snoc {A} (l : list A) n x : l !! n = Some x → take (S n) l = take n l ++ [x].
Proof. intros. by apply take_S_r. Qed.

(** ** Numbers and their leading zeros *)

Lemma of_bits_range l : 0 ≤ of_bits l < 2 ^ Z.of_nat (length l).
Proof.
  induction l as [|b l IH]; simpl of_bits; [simpl; lia|]. simpl length.
  rewrite Nat2Z.inj_succ, Z.pow_succ_r by lia. destruct b; simpl Z.b2z; lia.
Qed.
Lemma of_bits_app l1 l2 : of_bits (l1 ++ l2) = of_bits l1 * 2 ^ Z.of_nat (length l2) + of_bits l2.
Proof.
  induction l1 as [|b l1 IH]; simpl; [done|]. rewrite IH, length_app, Nat2Z.inj_add, Z.pow_add_r by lia. lia.
Qed.
Lemma of_bits_testbit l k :
  Z.testbit (of_bits l) (Z.of_nat k) =
  if decide (k < length l)%nat then default false (l !! (length l - 1 - k)%nat) else false.
Proof.
  induction l as [|b l IH]; [by rewrite Z.testbit_0_l|]. simpl of_bits. simpl length.
  pose proof (of_bits_range l) as Hr. set (n := Z.of_nat (length l)) in *.
  destruct (decide (k = length l)) as [->|Hk]; [|destruct (decide (k < length l)%nat) as [Hlt|Hge]].
  - rewrite decide_True by lia. replace (S (length l) - 1 - length l)%nat with 0%nat by lia. simpl.
    fold n. rewrite <- (Z.div_pow2_bits _ n 0) by lia.
    rewrite Z.add_comm, Z.div_add, Z.div_small by lia. by destruct b.
  - rewrite decide_True by lia. rewrite <- (Z.mod_pow2_bits_low _ n) by lia.
    rewrite Z.add_comm, Z.mod_add, Z.mod_small, IH by lia.
    by replace (S (length l) - 1 - k)%nat with (S (length l - 1 - k)) by lia.
  - rewrite decide_False by lia. rewrite <- (Z.mod_small _ (2 ^ (n + 1))), Z.mod_pow2_bits_high; [done|lia|].
    rewrite Z.pow_add_r by lia. destruct b; simpl Z.b2z; lia.
Qed.

Lemma lxor_of_bits_0 l : Z.lxor (of_bits l) (of_bits l) = 0.
Proof. apply Z.lxor_nilpotent. Qed.

(** Below the length the bits decide the leading zeros of an exclusive or. *)
Lemma LeadingZeros_lcp l1 l2 :
  length l1 = length l2 →
  LeadingZeros (Z.of_nat (length l1)) (Z.lxor (of_bits l1) (of_bits l2)) = Z.of_nat (lcp l1 l2).
Proof.
  intros Hl. unfold LeadingZeros. pose proof (lcp_max l1 l2) as [Hm1 Hm2].
  destruct (decide (lcp l1 l2 = length l1)) as [He|Hne].
  - assert (l1 = l2) as ->.
    { rewrite <- (firstn_all l1), <- (firstn_all l2). rewrite <- Hl. apply lcp_take_eq; lia. }
    rewrite lxor_of_bits_0. simpl. by rewrite He.
  - set (m := lcp l1 l2) in *. set (k := (length l1 - 1 - m)%nat).
    destruct (lookup_lt_is_Some_2 l1 m) as [b1 Hb1]; [lia|].
    destruct (lookup_lt_is_Some_2 l2 m) as [b2 Hb2]; [lia|].
    assert (Hx : Z.log2 (Z.lxor (of_bits l1) (of_bits l2)) = Z.of_nat k ∧ Z.lxor (of_bits l1) (of_bits l2) ≠ 0).
    { assert (Hbit : Z.testbit (Z.lxor (of_bits l1) (of_bits l2)) (Z.of_nat k) = true).
      { rewrite Z.lxor_spec, !of_bits_testbit, !decide_True by lia.
        replace (length l1 - 1 - k)%nat with m by lia. replace (length l2 - 1 - k)%nat with m by lia.
        rewrite Hb1, Hb2, (lcp_differ l1 l2 b1 b2) by done. by destruct b1. }
      split; [|intros Hz; by rewrite Hz, Z.testbit_0_l in Hbit].
      apply Z.log2_bits_unique; [done|]. intros j Hj. replace j with (Z.of_nat (Z.to_nat j)) by lia.
      rewrite Z.lxor_spec, !of_bits_testbit. rewrite <- Hl. case_decide; [|done].
      assert (Ht : take m l1 = take m l2) by (apply lcp_take_eq; lia).
      set (i := (length l1 - 1 - Z.to_nat j)%nat).
      rewrite <- (lookup_take_lt l1 m i), <- (lookup_take_lt l2 m i), Ht by lia. apply xorb_nilpotent. }
    destruct Hx as [-> Hx]. destruct (Z.eqb_spec (Z.lxor (of_bits l1) (of_bits l2)) 0); [done|]. lia.
Qed.

(** ** Bytes *)

Definition all_bytes : list byte := z2b <$> seqZ 0 256.
Lemma all_bytes_spec b : b ∈ all_bytes.
Proof.
  apply list_elem_of_fmap. exists (b2z b). rewrite z2b_b2z. split; [done|].
  apply elem_of_seqZ. pose proof (b2z_range b). lia.
Qed.
(** A fact about every byte that evaluation settles. *)
Lemma byte_check (P : byte → bool) : forallb P all_bytes = true → ∀ b, P b = true.
Proof. intros Hf b. eapply forallb_forall in Hf; [done|]. apply list_elem_of_In, all_bytes_spec. Qed.

Lemma length_byte_bits b : length (byte_bits b) = 8%nat.
Proof. done. Qed.
Lemma of_byte_bits b : of_bits (byte_bits b) = b2z b.
Proof.
  apply Z.eqb_eq. revert b. apply byte_check. vm_refl.
Qed.
Lemma to_bits_cons b ip : to_bits (b :: ip) = byte_bits b ++ to_bits ip.
Proof. done. Qed.
Lemma to_bits_app a b : to_bits (a ++ b) = to_bits a ++ to_bits b.
Proof. apply bind_app. Qed.
Lemma length_to_bits ip : length (to_bits ip) = (8 * length ip)%nat.
Proof. induction ip as [|b ip IH]; [done|]. rewrite to_bits_cons, length_app, IH, length_byte_bits. simpl. lia. Qed.

Lemma be_get_cons b l : be_get (b :: l) = b2z b * 256 ^ Z.of_nat (length l) + be_get l.
Proof.
  unfold be_get. rewrite reverse_cons. generalize (reverse l) (length_reverse l). intros r <-.
  induction r as [|c r IH]; [change (b2z b + 256 * 0 = b2z b * 1 + 0); lia|]. rewrite <- app_comm_cons.
  change (b2z c + 256 * le_get (r ++ [b]) = b2z b * 256 ^ Z.of_nat (S (length r)) + (b2z c + 256 * le_get r)).
  rewrite IH, Nat2Z.inj_succ, Z.pow_succ_r by lia. lia.
Qed.
Lemma be_get_bits l : be_get l = of_bits (to_bits l).
Proof.
  induction l as [|b l IH]; [done|]. rewrite be_get_cons, to_bits_cons, of_bits_app, of_byte_bits, IH, length_to_bits.
  rewrite Nat2Z.inj_mul, Z.pow_mul_r by lia. done.
Qed.
Lemma be_get_inj a b : length a = length b → be_get a = be_get b → a = b.
Proof.
  intros Hl Hb. rewrite <- (reverse_involutive a), <- (reverse_involutive b). f_equal.
  rewrite <- (le_put_get (reverse a)), <- (le_put_get (reverse b)), !length_reverse, Hl. by f_equal.
Qed.
Lemma to_bits_inj a b : length a = length b → to_bits a = to_bits b → a = b.
Proof. intros Hl Hb. apply be_get_inj; [done|]. by rewrite !be_get_bits, Hb. Qed.
Lemma LeadingZeros_bytes a b :
  length a = length b →
  LeadingZeros (8 * Z.of_nat (length a)) (Z.lxor (be_get a) (be_get b)) = Z.of_nat (lcp (to_bits a) (to_bits b)).
Proof.
  intros Hl. rewrite !be_get_bits, <- LeadingZeros_lcp by (rewrite !length_to_bits; lia). f_equal. rewrite length_to_bits. lia.
Qed.

(** ** The operations *)

Definition addr_len (n : nat) : Prop := n = 4%nat ∨ n = 16%nat.

Lemma commonBits_spec a b :
  addr_len (length a) → length a = length b → commonBits a b = Ok (Z.of_nat (lcp (to_bits a) (to_bits b))).
Proof.
  intros Ha Hl. unfold commonBits. rewrite <- Hl. pose proof (lcp_max (to_bits a) (to_bits b)) as [Hm _].
  rewrite length_to_bits in Hm. destruct Ha as [Ha|Ha]; rewrite Ha in *; simpl.
  - rewrite (firstn_all2 b) by lia. f_equal.
    pose proof (LeadingZeros_bytes a b ltac:(lia)) as Hz. rewrite Ha in Hz. change (8 * Z.of_nat 4) with 32 in Hz.
    rewrite Hz. apply wrap_small. lia.
  - assert (Hsplit : ∀ l : bytes, length l = 16%nat → ∃ l1 l2, l = l1 ++ l2 ∧ length l1 = 8%nat ∧ length l2 = 8%nat).
    { intros l Hlen. exists (take 8 l), (drop 8 l). rewrite take_drop, length_take, length_drop, Hlen. done. }
    destruct (Hsplit a) as (a1 & a2 & -> & La1 & La2); [done|].
    destruct (Hsplit b) as (b1 & b2 & -> & Lb1 & Lb2); [done|].
    rewrite !take_app_length', !drop_app_length' by done.
    rewrite (firstn_all2 a2), (firstn_all2 b2) by lia.
    rewrite !to_bits_app in *.
    rewrite lcp_app in * by (rewrite !length_to_bits; lia).
    rewrite length_to_bits in *.
    pose proof (LeadingZeros_bytes a1 b1 ltac:(lia)) as Hz1. rewrite La1 in *. change (8 * Z.of_nat 8) with 64 in Hz1.
    pose proof (LeadingZeros_bytes a2 b2 ltac:(lia)) as Hz2. rewrite La2 in *. change (8 * Z.of_nat 8) with 64 in Hz2.
    pose proof (lcp_max (to_bits a2) (to_bits b2)) as [Hm2 _]. rewrite length_to_bits in Hm2.
    rewrite Hz1, Hz2. destruct (Z.eqb_spec (Z.lxor (be_get a1) (be_get b1)) 0) as [H0|H0]; simpl.
    + apply Z.lxor_eq in H0. apply be_get_inj in H0; [|lia]. subst b1. rewrite decide_True by done.
      f_equal. rewrite (wrap_small 8 (Z.of_nat _)) by lia. rewrite wrap_small; lia.
    + rewrite decide_False in * by (intros He; apply H0; rewrite !be_get_bits, He; apply Z.lxor_nilpotent).
      f_equal. apply wrap_small. lia.
Qed.

Lemma to_bits_lookup ip (i : nat) b :
  ip !! (i / 8)%nat = Some b → to_bits ip !! i = Some (Z.testbit (b2z b) (7 - Z.of_nat (i mod 8))).
Proof.
  revert i. induction ip as [|c ip IH]; intros i; [done|]. rewrite to_bits_cons.
  destruct (decide (i < 8)%nat) as [Hi|Hi].
  - rewrite Nat.div_small, Nat.mod_small by lia. intros [= ->].
    rewrite lookup_app_l by (rewrite length_byte_bits; lia). unfold byte_bits.
    rewrite list_lookup_fmap, lookup_seqZ_lt by lia. done.
  - intros Hb. rewrite lookup_app_r by (rewrite length_byte_bits; lia). rewrite length_byte_bits.
    replace i with ((i - 8) + 1 * 8)%nat in Hb by lia. rewrite Nat.div_add in Hb by lia.
    rewrite Nat.add_1_r in Hb. rewrite (IH (i - 8)%nat Hb). do 4 f_equal.
    replace i with ((i - 8) + 1 * 8)%nat at 2 by lia. by rewrite Nat.Div0.mod_add.
Qed.

Lemma choose_spec cidr ip :
  0 ≤ cidr < 8 * Z.of_nat (length ip) → (length ip ≤ 16)%nat →
  ∃ b, choose cidr ip = Ok b ∧ to_bits ip !! Z.to_nat cidr = Some b.
Proof.
  intros Hc Hl. unfold choose, bitAtByte, bitAtShift.
  assert (Hi : Z.to_nat (cidr / 8) = (Z.to_nat cidr / 8)%nat) by (rewrite Z2Nat.inj_div by lia; done).
  destruct (lookup_lt_is_Some_2 ip (Z.to_nat (cidr / 8))) as [b Hb].
  { assert (cidr / 8 < Z.of_nat (length ip)) by (apply Z.div_lt_upper_bound; lia). lia. }
  rewrite Hb. eexists. split; [done|]. rewrite Hi in Hb. rewrite (to_bits_lookup _ _ _ Hb). f_equal.
  assert (Hm : Z.of_nat (Z.to_nat cidr mod 8) = cidr mod 8) by (rewrite Nat2Z.inj_mod; f_equal; lia).
  rewrite Hm. pose proof (Z.mod_pos_bound cidr 8). rewrite wrap_small by lia.
  rewrite <- (Z.add_0_l (7 - cidr mod 8)) at 1. rewrite <- Z.shiftr_spec by lia. change 1 with (Z.ones 1) at 1.
  rewrite Z.land_ones, <- Z.bit0_mod by lia. by destruct (Z.testbit _ 0).
Qed.

(** *** Masks *)

Definition keep (n : nat) (l : list bool) : list bool := take n l ++ replicate (length l - n) false.

Lemma keep_app_ge n l1 l2 : (length l1 ≤ n)%nat → keep n (l1 ++ l2) = l1 ++ keep (n - length l1) l2.
Proof.
  intros. unfold keep. rewrite take_app_ge, length_app, <- app_assoc by done. do 3 f_equal. lia.
Qed.
Lemma keep_app_lt n l1 l2 :
  (n ≤ length l1)%nat → keep n (l1 ++ l2) = keep n l1 ++ replicate (length l2) false.
Proof.
  intros. unfold keep. rewrite take_app_le, length_app, <- app_assoc, <- replicate_add by done. do 2 f_equal. lia.
Qed.

Definition mask_byte_ok (n : Z) (b : byte) : bool :=
  bool_decide (byte_bits (z2b (Z.land (b2z b) (Z.lxor 255 (Z.shiftr 255 n)))) = keep (Z.to_nat n) (byte_bits b)).
Lemma mask_byte n b : 0 ≤ n < 8 → mask_byte_ok n b = true.
Proof.
  intros Hn. revert b. apply byte_check.
  assert (Hall : forallb (fun n => forallb (mask_byte_ok n) all_bytes) (seqZ 0 8) = true) by vm_refl.
  eapply forallb_forall in Hall; [exact Hall|]. apply list_elem_of_In, elem_of_seqZ. lia.
Qed.

Lemma and_mask_bits bits n :
  0 ≤ n ≤ 8 * Z.of_nat (length bits) →
  to_bits (and_mask bits (cidr_mask_bytes (length bits) n)) = keep (Z.to_nat n) (to_bits bits).
Proof.
  revert n. induction bits as [|b bits IH]; intros n Hn; [by destruct (Z.to_nat n)|].
  simpl length in *. cbn [cidr_mask_bytes]. destruct (Z.leb_spec 8 n) as [H8|H8]; cbn [and_mask]; rewrite to_bits_cons.
  - rewrite IH by lia. assert (z2b (Z.land (b2z b) 255) = b) as ->.
    { change 255 with (Z.ones 8). rewrite Z.land_ones by lia. change (z2b (wrap 8 (b2z b)) = b). by rewrite z2b_wrap, z2b_b2z. }
    rewrite to_bits_cons, keep_app_ge by (rewrite length_byte_bits; lia). rewrite length_byte_bits. do 2 f_equal. lia.
  - rewrite IH by lia. pose proof (mask_byte n b ltac:(lia)) as Hb. apply bool_decide_eq_true in Hb. rewrite Hb.
    rewrite to_bits_cons, keep_app_lt by (rewrite length_byte_bits; lia). f_equal.
    unfold keep. change (Z.to_nat 0) with 0%nat. rewrite take_0. simpl. f_equal. lia.
Qed.
Lemma length_and_mask bits mask : length (and_mask bits mask) = length bits.
Proof. revert mask. induction bits as [|b bits IH]; intros [|m mask]; simpl; auto. Qed.
Lemma length_maskSelf cidr bits : length (maskSelf cidr bits) = length bits.
Proof. apply length_and_mask. Qed.

Lemma maskSelf_bits cidr bits :
  addr_len (length bits) → 0 ≤ cidr ≤ 8 * Z.of_nat (length bits) →
  to_bits (maskSelf cidr bits) = keep (Z.to_nat cidr) (to_bits bits).
Proof.
  intros Hl Hc. unfold maskSelf, CIDRMask.
  assert (Hdiv : Z.to_nat (Z.of_nat (length bits) * 8 / 8) = length bits) by (rewrite Z.div_mul by lia; lia).
  rewrite Hdiv.
  destruct (Z.eqb_spec (Z.of_nat (length bits) * 8) 32), (Z.eqb_spec (Z.of_nat (length bits) * 8) 128);
    simpl; try (destruct Hl; lia).
  all: destruct (Z.ltb_spec cidr 0), (Z.ltb_spec (Z.of_nat (length bits) * 8) cidr); simpl; try lia.
  all: apply and_mask_bits; lia.
Qed.
