(* ===== verification/AllowedIPsProps.v ===== *)
(** * Allowed IPs: the trie implements longest-prefix matching

    The invariant of the trie ([wf]): nodes are masked, a child extends its
    parent's prefix by its own bit, and a node without a peer has two children.
    [ins] and [del] are the recursive forms of insertion and removal, which the
    pointer-based operations compute; the table refines a finite map from
    prefixes to peers. *)

From S2P Require Import Prelude AllowedIPs AllowedIPsBits.

(** The prefix of a node, as a bit string. *)
Definition node_key (n : bytes * Z) : list bool := take (Z.to_nat n.2) (to_bits n.1).
Record node_ok (size : nat) (n : bytes * Z) : Prop := {
  nok_len : length n.1 = size;
  nok_cidr : 0 ≤ n.2 ≤ 8 * Z.of_nat size;
  nok_masked : to_bits n.1 = keep (Z.to_nat n.2) (to_bits n.1);
}.

Definition bit_of (A : list bool) (n : Z) : bool := default false (A !! Z.to_nat n).
Definition key_of (ip : bytes) (cidr : Z) : list bool := take (Z.to_nat cidr) (to_bits ip).
Definition matches (bits : bytes) (n : Z) (ip : bytes) : bool :=
  bool_decide (node_key (bits, n) `prefix_of` to_bits ip).

Section Nodes.
Context (size : nat) (Hsize : addr_len size).

Lemma size_le : (size ≤ 16)%nat.
Proof. destruct Hsize; lia. Qed.

Lemma length_node_key n : node_ok size n → length (node_key n) = Z.to_nat n.2.
Proof.
  intros [Hl Hc _]. unfold node_key. rewrite length_take, length_to_bits, Hl. lia.
Qed.
Lemma length_key_of ip cidr :
  length ip = size → 0 ≤ cidr ≤ 8 * Z.of_nat size → length (key_of ip cidr) = Z.to_nat cidr.
Proof. intros. unfold key_of. rewrite length_take, length_to_bits. lia. Qed.

Lemma node_ok_mask ip cidr :
  length ip = size → 0 ≤ cidr ≤ 8 * Z.of_nat size → node_ok size (maskSelf cidr ip, cidr).
Proof.
  intros Hl Hc. constructor; simpl; [by rewrite length_maskSelf|done|].
  rewrite maskSelf_bits by (by rewrite Hl). unfold keep. rewrite length_app, length_take, length_replicate, length_to_bits.
  rewrite take_app_le by (rewrite length_take, length_to_bits; lia). rewrite take_take, Nat.min_id. do 2 f_equal. lia.
Qed.
Lemma node_key_mask ip cidr :
  length ip = size → 0 ≤ cidr ≤ 8 * Z.of_nat size → node_key (maskSelf cidr ip, cidr) = key_of ip cidr.
Proof.
  intros Hl Hc. unfold node_key, key_of. simpl. rewrite maskSelf_bits by (by rewrite Hl). unfold keep.
  rewrite take_app_le by (rewrite length_take, length_to_bits; lia). by rewrite take_take, Nat.min_id.
Qed.
(** A masked node is determined by its prefix. *)
Lemma node_key_inj n1 n2 : node_ok size n1 → node_ok size n2 → node_key n1 = node_key n2 → n1 = n2.
Proof.
  intros H1 H2 Hk. pose proof (length_node_key n1 H1) as L1. pose proof (length_node_key n2 H2) as L2.
  destruct n1 as [b1 c1], n2 as [b2 c2], H1 as [Hl1 Hc1 Hm1], H2 as [Hl2 Hc2 Hm2]; simpl in *.
  assert (c1 = c2) as <- by (rewrite Hk in L1; lia). f_equal. apply to_bits_inj; [lia|].
  rewrite Hm1, Hm2. unfold node_key in Hk; simpl in Hk. unfold keep. rewrite Hk, !length_to_bits. do 2 f_equal. lia.
Qed.

Lemma commonBits_matches bits n ip :
  node_ok size (bits, n) → length ip = size →
  ∃ common, commonBits bits ip = Ok common ∧ (common <? n) = negb (matches bits n ip).
Proof.
  intros [Hl Hc _] Hip; simpl in *. eexists. rewrite commonBits_spec by (rewrite ?Hl; done). split; [done|].
  unfold matches, node_key; simpl. pose proof (length_to_bits bits). pose proof (length_to_bits ip).
  pose proof (lcp_take_eq (to_bits bits) (to_bits ip) (Z.to_nat n) ltac:(lia) ltac:(lia)) as Hle.
  case_bool_decide as Hp; simpl.
  - apply Z.ltb_ge. destruct Hp as [r Hr]. assert (Htake : take (Z.to_nat n) (to_bits bits) = take (Z.to_nat n) (to_bits ip)).
    { rewrite Hr. rewrite take_app_le by (rewrite length_take; lia). by rewrite take_take, Nat.min_id. }
    apply Hle in Htake. lia.
  - apply Z.ltb_lt. apply Z.lt_nge. intros Hge. apply Hp. rewrite (proj1 Hle) by lia. apply prefix_take.
Qed.
Lemma choose_bit_of cidr ip :
  length ip = size → 0 ≤ cidr < 8 * Z.of_nat size → choose cidr ip = Ok (bit_of (to_bits ip) cidr).
Proof.
  intros Hl Hc. pose proof size_le. destruct (choose_spec cidr ip) as (b & -> & Hb); [lia|lia|].
  unfold bit_of. by rewrite Hb.
Qed.
Lemma mask_lookup ip cidr i :
  length ip = size → 0 ≤ cidr ≤ 8 * Z.of_nat size → (i < Z.to_nat cidr)%nat →
  to_bits (maskSelf cidr ip) !! i = to_bits ip !! i.
Proof.
  intros Hl Hc Hi. rewrite maskSelf_bits by (by rewrite Hl). unfold keep.
  rewrite lookup_app_l by (rewrite length_take, length_to_bits; lia). by apply lookup_take_lt.
Qed.
Lemma bit_of_mask ip cidr n :
  length ip = size → 0 ≤ n < cidr → cidr ≤ 8 * Z.of_nat size →
  bit_of (to_bits (maskSelf cidr ip)) n = bit_of (to_bits ip) n.
Proof. intros. unfold bit_of. rewrite mask_lookup by lia. done. Qed.
End Nodes.

(** Prefix steps: what extends [K] by its own next bit extends the child's key. *)
Lemma prefix_snoc_bit K (L : list bool) n :
  K `prefix_of` L → length K = Z.to_nat n → (Z.to_nat n < length L)%nat → K ++ [bit_of L n] `prefix_of` L.
Proof.
  intros [r ->] Hl Hlt. rewrite length_app in Hlt. unfold bit_of.
  rewrite lookup_app_r by lia. rewrite Hl, Nat.sub_diag. destruct r as [|b r]; simpl in *; [lia|].
  exists r. by rewrite <- app_assoc.
Qed.
Lemma prefix_snoc_ne (K : list bool) b L : K ++ [b] `prefix_of` L → ¬ K ++ [negb b] `prefix_of` L.
Proof.
  intros [r ->] [r' Hr]. rewrite <- !app_assoc in Hr. apply app_inv_head in Hr. by destruct b.
Qed.
Lemma prefix_snoc_length (K : list bool) b (L : list bool) : K ++ [b] `prefix_of` L → (length K < length L)%nat.
Proof. intros Hp%prefix_length. rewrite length_app in Hp. simpl in Hp. lia. Qed.
Lemma prefix_snoc_neq (K : list bool) b : ¬ K ++ [b] `prefix_of` K.
Proof. intros Hp%prefix_snoc_length. lia. Qed.
Lemma prefix_take_le (K L : list bool) n : K `prefix_of` L → (length K ≤ n)%nat → K `prefix_of` take n L.
Proof. intros [r ->] Hn. rewrite take_app_ge by done. by apply prefix_app_r. Qed.
Lemma prefix_same_length (K L : list bool) : K `prefix_of` L → length K = length L → K = L.
Proof.
  intros [r ->] Hl. rewrite length_app in Hl. destruct r; [by rewrite app_nil_r|simpl in Hl; lia].
Qed.

Section Trie.
Context {Peer : Type} `{Countable Peer} (size : nat) (Hsize : addr_len size).
Implicit Types (t : trieEntry Peer) (K N : list bool).

(** Every key below the position extends the prefix [K]. *)
Fixpoint wf K t : Prop :=
  match t with
  | Nil => True
  | Node peer cidr bits c0 c1 =>
      node_ok size (bits, cidr) ∧ K `prefix_of` node_key (bits, cidr) ∧
      (peer = None → c0 ≠ Nil ∧ c1 ≠ Nil) ∧
      wf (node_key (bits, cidr) ++ [false]) c0 ∧ wf (node_key (bits, cidr) ++ [true]) c1
  end.

(** The prefixes a trie holds, with their peers. *)
Fixpoint entry t K (q : Peer) : Prop :=
  match t with
  | Nil => False
  | Node peer cidr bits c0 c1 =>
      (peer = Some q ∧ K = node_key (bits, cidr)) ∨ entry c0 K q ∨ entry c1 K q
  end.

Lemma entry_prefix t K L q : wf K t → entry t L q → K `prefix_of` L.
Proof.
  revert K. induction t as [|peer cidr bits c0 IH0 c1 IH1]; intros K; simpl; [done|].
  intros (_ & Hp & _ & Hw0 & Hw1) [[_ ->]|[He|He]]; [done| |].
  - transitivity (node_key (bits, cidr)); [done|]. etransitivity; [|by apply (IH0 _ Hw0)]. by apply prefix_app_r.
  - transitivity (node_key (bits, cidr)); [done|]. etransitivity; [|by apply (IH1 _ Hw1)]. by apply prefix_app_r.
Qed.

(** A child's entries lie on its side of the node. *)
Lemma entry_child K b L q t : wf (K ++ [b]) t → entry t L q → L ≠ K ∧ ¬ K ++ [negb b] `prefix_of` L.
Proof.
  intros Hw He%(entry_prefix _ _ _ _ Hw). split.
  - intros ->. by apply prefix_snoc_neq in He.
  - by apply prefix_snoc_ne.
Qed.
Lemma entry_functional t K L q q' : wf K t → entry t L q → entry t L q' → q = q'.
Proof.
  revert K. induction t as [|peer cidr bits c0 IH0 c1 IH1]; intros K; simpl; [done|].
  intros (_ & _ & _ & Hw0 & Hw1).
  intros [[Hq HL]|[Hq|Hq]] [[Hq' HL']|[Hq'|Hq']].
  - congruence.
  - apply (entry_child _ _ _ _ _ Hw0) in Hq' as [? _]. done.
  - apply (entry_child _ _ _ _ _ Hw1) in Hq' as [? _]. done.
  - apply (entry_child _ _ _ _ _ Hw0) in Hq as [? _]. done.
  - by apply (IH0 _ Hw0).
  - apply (entry_child _ _ _ _ _ Hw0) in Hq as [_ []]. by apply (entry_prefix _ _ _ _ Hw1 Hq').
  - apply (entry_child _ _ _ _ _ Hw1) in Hq as [? _]. done.
  - apply (entry_child _ _ _ _ _ Hw0) in Hq' as [_ []]. by apply (entry_prefix _ _ _ _ Hw1 Hq).
  - by apply (IH1 _ Hw1).
Qed.
Lemma wf_weaken K K' t : K' `prefix_of` K → wf K t → wf K' t.
Proof. destruct t; simpl; [done|]. intros Hp (? & ? & ?). split_and!; try done; [|tauto..]. by transitivity K. Qed.

(** ** Where an address and prefix length lead *)

Section Place.
Context (ip : bytes) (cidr : Z) (Hip : length ip = size) (Hcidr : 0 ≤ cidr ≤ 8 * Z.of_nat size).

Definition stops (n : Z) (bits : bytes) : bool := (cidr <? n) || negb (matches bits n ip).

(** The path at which [nodePlacement] stops, and whether the node is there. *)
Fixpoint place t : list bool * bool :=
  match t with
  | Nil => ([], false)
  | Node _ n bits c0 c1 =>
      if stops n bits then ([], false) else
      if n =? cidr then ([], true) else
      let bit := bit_of (to_bits ip) n in
      let '(w, x) := place (if bit then c1 else c0) in (bit :: w, x)
  end.

Lemma nodePlacement_place K t path parent :
  wf K t →
  nodePlacement_loop t ip cidr path parent =
    let '(w, x) := place t in
    Ok (if x then Some (path ++ w) else match w with [] => parent | _ => Some (path ++ List.removelast w) end, x).
Proof.
  revert K path parent. induction t as [|peer n bits c0 IH0 c1 IH1]; intros K path parent; simpl; [done|].
  intros (Hok & _ & _ & Hw0 & Hw1). unfold stops. destruct (Z.ltb_spec cidr n) as [Hlt|Hge]; simpl; [done|].
  destruct (commonBits_matches size Hsize bits n ip Hok Hip) as (common & -> & Hm). simpl. rewrite Hm.
  destruct (negb (matches bits n ip)); [done|].
  destruct (Z.eqb_spec n cidr) as [->|Hne]; [by rewrite app_nil_r|].
  rewrite (choose_bit_of size) by (done || (destruct Hok; simpl in *; lia)). simpl.
  destruct (bit_of (to_bits ip) n).
  - rewrite (IH1 _ _ _ Hw1). destruct (place c1) as [w x]. destruct x; [by rewrite <- app_assoc|].
    destruct w; simpl; [by rewrite app_nil_r|]. by rewrite <- app_assoc.
  - rewrite (IH0 _ _ _ Hw0). destruct (place c0) as [w x]. destruct x; [by rewrite <- app_assoc|].
    destruct w; simpl; [by rewrite app_nil_r|]. by rewrite <- app_assoc.
Qed.

(** What a node the loop passes has in common with the target. *)
Lemma passed_key n bits :
  node_ok size (bits, n) → stops n bits = false → n ≤ cidr ∧ node_key (bits, n) `prefix_of` key_of ip cidr.
Proof.
  intros Hok. unfold stops. rewrite orb_false_iff, Z.ltb_ge, negb_false_iff. intros [Hle Hm%bool_decide_eq_true].
  split; [done|]. apply prefix_take_le; [done|]. rewrite (length_node_key size) by done. destruct Hok; simpl in *; lia.
Qed.
Lemma key_bit n : 0 ≤ n < cidr → bit_of (key_of ip cidr) n = bit_of (to_bits ip) n.
Proof. intros. unfold bit_of, key_of. by rewrite lookup_take_lt by lia. Qed.
Lemma passed_snoc n bits :
  node_ok size (bits, n) → stops n bits = false → n ≠ cidr →
  node_key (bits, n) ++ [bit_of (to_bits ip) n] `prefix_of` key_of ip cidr.
Proof.
  intros Hok Hs Hne. destruct (passed_key n bits Hok Hs) as [Hle Hp]. pose proof (nok_cidr _ _ Hok) as Hn; simpl in Hn.
  rewrite <- key_bit by lia. apply prefix_snoc_bit; [done|by apply (length_node_key size)|].
  rewrite (length_key_of size) by done. lia.
Qed.
Lemma passed_here bits :
  node_ok size (bits, cidr) → stops cidr bits = false →
  node_key (bits, cidr) = key_of ip cidr ∧ bits = maskSelf cidr ip.
Proof.
  intros Hok Hs. destruct (passed_key cidr bits Hok Hs) as [_ Hp].
  assert (He : node_key (bits, cidr) = key_of ip cidr).
  { apply prefix_same_length; [done|]. by rewrite (length_node_key size), (length_key_of size). }
  split; [done|]. rewrite <- (node_key_mask size) in He by done.
  apply (node_key_inj size) in He; [congruence|done|by apply node_ok_mask].
Qed.

(** Only the chosen child can hold the target. *)
Lemma entry_descend (K L : list bool) bit c0 c1 q :
  K ++ [bit] `prefix_of` L → wf (K ++ [false]) c0 → wf (K ++ [true]) c1 →
  entry (if bit then c0 else c1) L q → False.
Proof.
  intros Hp Hw0 Hw1 He. destruct bit; [apply (entry_child _ _ _ _ _ Hw0) in He|apply (entry_child _ _ _ _ _ Hw1) in He]; by destruct He.
Qed.

Lemma entry_enter K pe n bits c0 c1 q :
  wf K (Node pe n bits c0 c1) → stops n bits = false → n ≠ cidr →
  entry (Node pe n bits c0 c1) (key_of ip cidr) q ↔
  entry (if bit_of (to_bits ip) n then c1 else c0) (key_of ip cidr) q.
Proof.
  intros (Hok & _ & _ & Hw0 & Hw1) Hs Hne. pose proof (passed_snoc n bits Hok Hs Hne) as Hp. simpl. split.
  - intros [[_ Hk]|He]; [rewrite Hk in Hp; by apply prefix_snoc_neq in Hp|].
    pose proof (entry_descend _ _ _ c0 c1 q Hp Hw0 Hw1). destruct (bit_of _ _); destruct He; tauto.
  - destruct (bit_of _ _); tauto.
Qed.

(** An exact placement is the node with that prefix; otherwise there is none. *)
Lemma place_exact K t w x :
  wf K t → place t = (w, x) →
  if x then ∃ peer c0 c1, subtrie t w = Node peer cidr (maskSelf cidr ip) c0 c1 ∧
              ∀ q, entry t (key_of ip cidr) q ↔ peer = Some q
  else ∀ q, ¬ entry t (key_of ip cidr) q.
Proof.
  revert K w. induction t as [|peer n bits c0 IH0 c1 IH1]; intros K w; simpl; [by intros _ [= <- <-] ? ?|].
  intros (Hok & HK & Hcomp & Hw0 & Hw1). destruct (stops n bits) eqn:Hs.
  { intros [= <- <-] q. unfold stops in Hs.
    assert (Hnp : node_key (bits, n) `prefix_of` key_of ip cidr → False).
    { intros Hp. apply orb_true_iff in Hs as [Hlt%Z.ltb_lt|Hm%negb_true_iff].
      - apply prefix_length in Hp. rewrite (length_node_key size), (length_key_of size) in Hp by done. simpl in Hp. lia.
      - apply bool_decide_eq_false in Hm. apply Hm. etransitivity; [done|]. apply prefix_take. }
    intros [[_ Hk]|[He|He]]; apply Hnp; [by rewrite Hk| |].
    - apply (entry_prefix _ _ _ _ Hw0) in He. etransitivity; [|exact He]. by apply prefix_app_r.
    - apply (entry_prefix _ _ _ _ Hw1) in He. etransitivity; [|exact He]. by apply prefix_app_r. }
  destruct (Z.eqb_spec n cidr) as [->|Hne].
  { intros [= <- <-]. destruct (passed_here bits Hok Hs) as [Hk ->]. exists peer, c0, c1. split; [done|].
    intros q. rewrite <- Hk. split; [|by left].
    intros [[? _]|[He|He]]; [done| |].
    - by apply (entry_child _ _ _ _ _ Hw0) in He as [? _].
    - by apply (entry_child _ _ _ _ _ Hw1) in He as [? _]. }
  pose proof (fun q => entry_enter K peer n bits c0 c1 q ltac:(split_and!; done) Hs Hne) as Hent.
  destruct (place (if bit_of (to_bits ip) n then c1 else c0)) as [w' x'] eqn:Hpl. intros [= <- <-].
  assert (Hrec : if x' then ∃ peer d0 d1, subtrie (if bit_of (to_bits ip) n then c1 else c0) w' =
      Node peer cidr (maskSelf cidr ip) d0 d1 ∧
      (∀ q, entry (if bit_of (to_bits ip) n then c1 else c0) (key_of ip cidr) q ↔ peer = Some q)
    else ∀ q, ¬ entry (if bit_of (to_bits ip) n then c1 else c0) (key_of ip cidr) q).
  { destruct (bit_of _ _); [by apply (IH1 _ _ Hw1)|by apply (IH0 _ _ Hw0)]. }
  destruct x'.
  - destruct Hrec as (pe & d0 & d1 & Hsub & Hq). exists pe, d0, d1. split; [done|].
    intros q. by rewrite <- Hq, <- Hent.
  - intros q He. by apply (Hrec q), Hent.
Qed.

(** ** Insertion *)

Definition ip' : bytes := maskSelf cidr ip.
Lemma ip'_len : length ip' = size.
Proof. unfold ip'. by rewrite length_maskSelf. Qed.
Lemma ip'_take n : n ≤ cidr → take (Z.to_nat n) (to_bits ip') = take (Z.to_nat n) (to_bits ip).
Proof.
  intros. unfold ip'. rewrite maskSelf_bits by (by rewrite Hip). unfold keep.
  rewrite take_app_le by (rewrite length_take, length_to_bits; lia). by rewrite take_take, Nat.min_l by lia.
Qed.

(** The new subtree in the place of a subtree that the address does not enter. *)
Definition graft (peer : Peer) t : trieEntry Peer :=
  let leaf := Node (Some peer) cidr ip' Nil Nil in
  match t with
  | Nil => leaf
  | Node _ _ d _ _ =>
      let m := Z.of_nat (lcp (to_bits d) (to_bits ip')) in
      if cidr <=? m then set_child leaf (bit_of (to_bits d) cidr) t
      else set_child (set_child (Node None m (maskSelf m ip') Nil Nil) (bit_of (to_bits d) m) t)
                     (bit_of (to_bits ip') m) leaf
  end.

Fixpoint ins (peer : Peer) t : trieEntry Peer :=
  match t with
  | Nil => graft peer Nil
  | Node pe n bits c0 c1 =>
      if stops n bits then graft peer t else
      if n =? cidr then Node (Some peer) n bits c0 c1 else
      if bit_of (to_bits ip) n then Node pe n bits c0 (ins peer c1) else Node pe n bits (ins peer c0) c1
  end.

Definition set_peer (peer : Peer) t : trieEntry Peer :=
  match t with Nil => Nil | Node _ n bits c0 c1 => Node (Some peer) n bits c0 c1 end.

Lemma ins_place peer t w x :
  place t = (w, x) →
  ins peer t = set_subtrie t w ((if x then set_peer peer else graft peer) (subtrie t w)).
Proof.
  revert w. induction t as [|pe n bits c0 IH0 c1 IH1]; intros w; simpl; [by intros [= <- <-]|].
  destruct (stops n bits); [by intros [= <- <-]|]. destruct (n =? cidr); [by intros [= <- <-]|].
  destruct (bit_of (to_bits ip) n).
  - destruct (place c1) as [w' x']. intros [= <- <-]. simpl. by rewrite (IH1 w' eq_refl).
  - destruct (place c0) as [w' x']. intros [= <- <-]. simpl. by rewrite (IH0 w' eq_refl).
Qed.

(** Where placement is not exact, the node found there is not entered. *)
Lemma place_down K t w :
  wf K t → place t = (w, false) →
  match subtrie t w with Nil => True | Node _ n d _ _ => node_ok size (d, n) ∧ stops n d = true end.
Proof.
  revert K w. induction t as [|pe n bits c0 IH0 c1 IH1]; intros K w; simpl; [by intros _ [= <-]|].
  intros (Hok & _ & _ & Hw0 & Hw1). destruct (stops n bits) eqn:Hs; [by intros [= <-]|].
  destruct (n =? cidr); [done|]. destruct (bit_of (to_bits ip) n).
  - destruct (place c1) as [w' x'] eqn:Hp. intros [= <- ->]. by apply (IH1 _ _ Hw1).
  - destruct (place c0) as [w' x'] eqn:Hp. intros [= <- ->]. by apply (IH0 _ _ Hw0).
Qed.
Lemma place_parent K t w x :
  wf K t → place t = (w, x) → w ≠ [] →
  ∃ pe n bits c0 c1, subtrie t (List.removelast w) = Node pe n bits c0 c1 ∧ 0 ≤ n < cidr ∧
    w = List.removelast w ++ [bit_of (to_bits ip) n].
Proof.
  revert K w. induction t as [|pe n bits c0 IH0 c1 IH1]; intros K w; simpl; [by intros _ [= <- <-]|].
  intros (Hok & _ & _ & Hw0 & Hw1). destruct (stops n bits) eqn:Hs; [by intros [= <- <-]|].
  destruct (Z.eqb_spec n cidr) as [|Hne]; [by intros [= <- <-]|].
  assert (Hn : 0 ≤ n < cidr).
  { destruct (passed_key n bits Hok Hs). destruct Hok; simpl in *; lia. }
  destruct (place (if bit_of (to_bits ip) n then c1 else c0)) as [w' x'] eqn:Hp. intros [= <- <-] _.
  destruct (decide (w' = [])) as [->|Hne'].
  - exists pe, n, bits, c0, c1. done.
  - assert (Hrec : ∃ pe n' bits d0 d1,
      subtrie (if bit_of (to_bits ip) n then c1 else c0) (List.removelast w') = Node pe n' bits d0 d1 ∧ 0 ≤ n' < cidr ∧
      w' = List.removelast w' ++ [bit_of (to_bits ip) n']).
    { destruct (bit_of (to_bits ip) n); [by apply (IH1 _ _ Hw1)|by apply (IH0 _ _ Hw0)]. }
    destruct Hrec as (pe' & n' & b' & d0 & d1 & Hsub & Hn' & Hw'). exists pe', n', b', d0, d1.
    destruct w' as [|b w']; [done|]. simpl List.removelast. split; [done|]. split; [done|].
    rewrite <- app_comm_cons. f_equal. exact Hw'.
Qed.

(** The node in the way lies below the new prefix, or they part earlier. *)
Lemma graft_cases d n :
  node_ok size (d, n) → stops n d = true →
  let m := Z.of_nat (lcp (to_bits d) (to_bits ip')) in
  (cidr ≤ m → cidr < n ∧ key_of ip cidr `prefix_of` node_key (d, n)) ∧ (m < cidr → m < n).
Proof.
  intros Hok Hs m. pose proof (length_to_bits d). pose proof (length_to_bits ip'). pose proof ip'_len.
  pose proof (nok_len _ _ Hok) as Hl. pose proof (nok_cidr _ _ Hok) as Hn. simpl in *.
  assert (Hmatch : n ≤ cidr → n ≤ m → False).
  { intros Hnc Hnm. unfold stops in Hs. apply orb_true_iff in Hs as [Hs%Z.ltb_lt|Hs%negb_true_iff]; [lia|].
    apply bool_decide_eq_false in Hs. apply Hs. unfold node_key; simpl.
    rewrite (proj1 (lcp_take_eq (to_bits d) (to_bits ip') (Z.to_nat n) ltac:(lia) ltac:(lia)) ltac:(lia)).
    rewrite ip'_take by done. apply prefix_take. }
  split; [|intros; destruct (decide (m < n)); [done|]; exfalso; apply Hmatch; lia].
  intros Hcm. assert (cidr < n) by (destruct (decide (cidr < n)); [done|]; exfalso; apply Hmatch; lia).
  split; [done|]. unfold key_of, node_key; simpl. rewrite <- ip'_take by done.
  rewrite <- (proj1 (lcp_take_eq (to_bits d) (to_bits ip') (Z.to_nat cidr) ltac:(lia) ltac:(lia)) ltac:(lia)).
  apply prefix_take_le; [apply prefix_take|]. rewrite length_take. lia.
Qed.

(** The code that builds the new subtree computes [graft]. *)
Lemma graft_code (peer : Peer) (t s : trieEntry Peer) (e : gmap Peer (list (bytes * Z))) w :
  match s with Nil => True | Node _ n d _ _ => node_ok size (d, n) ∧ stops n d = true end →
  match s with
  | Nil => Ok (set_subtrie t w (Node (Some peer) cidr ip' Nil Nil), e)
  | Node _ _ dbits _ _ as down =>
      common ← commonBits dbits ip';
      let cidr' := if common <? cidr then common else cidr in
      if cidr =? cidr' then
        bit ← choose cidr dbits;
        Ok (set_subtrie t w (set_child (Node (Some peer) cidr ip' Nil Nil) bit down), e)
      else
        let bits := maskSelf cidr' ip' in
        let node := Node None cidr' bits Nil Nil in
        bit ← choose cidr' dbits;
        let node := set_child node bit down in
        bit ← choose cidr' ip';
        Ok (set_subtrie t w (set_child node bit (Node (Some peer) cidr ip' Nil Nil)), e)
  end = (Ok (set_subtrie t w (graft peer s), e) : go _).
Proof.
  destruct s as [|pe n d c0 c1]; [done|]. intros [Hok Hs].
  pose proof (graft_cases d n Hok Hs) as [Hin Hout]. destruct Hok as [Hl Hn _]; simpl in Hl, Hn. pose proof ip'_len.
  rewrite commonBits_spec by (rewrite ?Hl; done). unfold graft.
  set (m := Z.of_nat (lcp (to_bits d) (to_bits ip'))) in *. cbn [mbind res_bind]. cbv zeta.
  destruct (Z.ltb_spec m cidr), (Z.leb_spec cidr m); try lia.
  - destruct (Z.eqb_spec cidr m); [lia|]. rewrite !(choose_bit_of size) by (done || lia). done.
  - rewrite Z.eqb_refl. rewrite (choose_bit_of size) by (done || lia). done.
Qed.

Lemma trie_insert_eq (peer : Peer) t e :
  wf [] t →
  ∃ old, (∀ q, entry t (key_of ip cidr) q ↔ old = Some q) ∧
  trie_insert t e ip cidr peer =
    Ok (ins peer t, addToPeerEntries (removeFromPeerEntries e old (ip', cidr)) peer (ip', cidr)).
Proof.
  intros Hw. unfold trie_insert. destruct (is_nil t) eqn:Hnil.
  { destruct t; [|done]. by exists None. }
  unfold nodePlacement. rewrite (nodePlacement_place [] t [] None Hw).
  destruct (place t) as [w x] eqn:Hp. pose proof (place_exact _ _ _ _ Hw Hp) as Hex.
  rewrite (ins_place peer t w x Hp). destruct x.
  - destruct Hex as (old & c0 & c1 & Hsub & Hq). exists old. split; [done|]. simpl. by rewrite Hsub.
  - exists None. split; [intros q; split; [by intros ?%Hex|done]|]. cbn [mbind res_bind app]. cbv beta iota zeta. fold ip'.
    assert (Hwhere : match (match w with [] => None | _ => Some (List.removelast w) end) with
       | None => Ok []
       | Some path => match subtrie t path with Nil => Panic | Node _ n _ _ _ => bit ← choose n ip'; Ok (path ++ [bit]) end
       end = (Ok w : go (list bool))).
    { destruct w as [|b w]; [done|]. destruct (place_parent _ _ _ _ Hw Hp) as (pe & n & bits & c0 & c1 & -> & Hn & Hlast); [done|].
      rewrite (choose_bit_of size Hsize) by (apply ip'_len || lia). unfold ip'. rewrite (bit_of_mask size) by (done || lia).
      exact (f_equal Ok (eq_sym Hlast)). }
    pose proof (graft_code peer t (subtrie t w) (addToPeerEntries e peer (ip', cidr)) w (place_down _ _ _ Hw Hp)) as Hg.
    destruct w as [|b w]; [|cbv beta iota in Hwhere; rewrite Hwhere]; cbn [mbind res_bind].
    + revert Hg. destruct (subtrie t []); intros Hg; exact Hg.
    + revert Hg. destruct (subtrie t (b :: w)); intros Hg; exact Hg.
Qed.

Lemma ip'_key : node_key (ip', cidr) = key_of ip cidr.
Proof. by apply (node_key_mask size). Qed.
Lemma ip'_ok : node_ok size (ip', cidr).
Proof. by apply node_ok_mask. Qed.

(** A longer node on the same side is a child of a shorter prefix. *)
Lemma wf_below K L pe n d c0 c1 :
  wf K (Node pe n d c0 c1) → L `prefix_of` node_key (d, n) → Z.of_nat (length L) < n →
  wf (L ++ [bit_of (to_bits d) (Z.of_nat (length L))]) (Node pe n d c0 c1).
Proof.
  intros (Hok & _ & Hrest) HL Hn. split; [done|]. split; [|done].
  pose proof (length_node_key size _ Hok) as Hlen; simpl in Hlen.
  assert (bit_of (to_bits d) (Z.of_nat (length L)) = bit_of (node_key (d, n)) (Z.of_nat (length L))) as ->.
  { unfold bit_of, node_key; simpl. by rewrite lookup_take_lt by lia. }
  apply prefix_snoc_bit; [done|lia|lia].
Qed.

Lemma lcp_prefix_le (K L1 L2 : list bool) : K `prefix_of` L1 → K `prefix_of` L2 → (length K ≤ lcp L1 L2)%nat.
Proof.
  intros H1 H2. pose proof (prefix_length _ _ H1). pose proof (prefix_length _ _ H2). apply lcp_take_eq; [done..|].
  destruct H1 as [r1 ->], H2 as [r2 ->]. by rewrite !take_app_length.
Qed.

(** Where a node and the new prefix part: both extend the common prefix, with
    different next bits, and what both extend, it extends. *)
Lemma branch_facts K d n :
  node_ok size (d, n) → K `prefix_of` node_key (d, n) → K `prefix_of` key_of ip cidr →
  let m := Z.of_nat (lcp (to_bits d) (to_bits ip')) in
  m < cidr → m < n →
  let M := node_key (maskSelf m ip', m) in
  node_ok size (maskSelf m ip', m) ∧ Z.of_nat (length M) = m ∧ K `prefix_of` M ∧
  M `prefix_of` node_key (d, n) ∧ M `prefix_of` node_key (ip', cidr) ∧
  bit_of (to_bits ip') m = negb (bit_of (to_bits d) m).
Proof.
  intros Hok HKd HK m Hcm Hout. pose proof ip'_len as Hl'. pose proof (nok_len _ _ Hok) as Hld.
  pose proof (nok_cidr _ _ Hok) as Hn. simpl in Hld, Hn.
  pose proof (lcp_max (to_bits d) (to_bits ip')) as [Hmd Hmi]. rewrite length_to_bits in Hmd, Hmi.
  assert (Hm : 0 ≤ m ≤ 8 * Z.of_nat size) by lia. cbv zeta.
  rewrite (node_key_mask size Hsize ip' m Hl' Hm), (length_key_of size ip' m Hl' Hm).
  rewrite <- ip'_key in HK. unfold key_of.
  assert (HM : take (Z.to_nat m) (to_bits ip') = take (Z.to_nat m) (to_bits d)).
  { symmetry. apply lcp_take_eq; rewrite ?length_to_bits; lia. }
  split_and!.
  - by apply node_ok_mask.
  - lia.
  - apply prefix_take_le; [etransitivity; [exact HK|apply prefix_take]|].
    assert (length K ≤ lcp (to_bits d) (to_bits ip'))%nat; [|lia].
    apply lcp_prefix_le; [etransitivity; [exact HKd|]|etransitivity; [exact HK|]]; apply prefix_take.
  - rewrite HM. unfold node_key; simpl. apply prefix_take_le; [apply prefix_take|]. rewrite length_take. lia.
  - unfold node_key; simpl. apply prefix_take_le; [apply prefix_take|]. rewrite length_take. lia.
  - unfold bit_of. subst m. rewrite !Nat2Z.id.
    destruct (lookup_lt_is_Some_2 (to_bits d) (lcp (to_bits d) (to_bits ip'))) as [b1 Hb1]; [rewrite length_to_bits; lia|].
    destruct (lookup_lt_is_Some_2 (to_bits ip') (lcp (to_bits d) (to_bits ip'))) as [b2 Hb2]; [rewrite length_to_bits; lia|].
    rewrite Hb1, Hb2. simpl. by apply (lcp_differ (to_bits d) (to_bits ip')).
Qed.

Lemma graft_spec peer K t :
  wf K t → K `prefix_of` key_of ip cidr →
  match t with Nil => True | Node _ n d _ _ => stops n d = true end →
  wf K (graft peer t) ∧
  ∀ L q, entry (graft peer t) L q ↔ (L = key_of ip cidr ∧ q = peer) ∨ entry t L q.
Proof.
  intros Hw HK Hs. destruct t as [|pe n d c0 c1].
  { simpl. rewrite ip'_key. split; [split_and!; try done; apply ip'_ok|]. naive_solver. }
  pose proof Hw as (Hok & HKd & _). pose proof (graft_cases d n Hok Hs) as [Hin Hout]. unfold graft.
  set (m := Z.of_nat (lcp (to_bits d) (to_bits ip'))) in *. destruct (Z.leb_spec cidr m) as [Hcm|Hcm].
  - destruct (Hin Hcm) as [Hcn HN]. pose proof (length_key_of size ip cidr Hip Hcidr) as HlN.
    pose proof (wf_below K _ pe n d c0 c1 Hw HN ltac:(lia)) as Hwb. rewrite HlN, Z2Nat.id in Hwb by lia.
    set (s := Node pe n d c0 c1) in *. clearbody s.
    destruct (bit_of (to_bits d) cidr); cbn [set_child wf entry]; rewrite ip'_key.
    all: split; [split_and!; try done; apply ip'_ok|naive_solver].
  - destruct (branch_facts K d n Hok HKd HK Hcm (Hout Hcm)) as (Hokm & HlM & HKM & HMd & HMN & Hdiff).
    fold m in Hokm, HlM, HKM, HMd, HMN, Hdiff. set (M := node_key (maskSelf m ip', m)) in *. specialize (Hout Hcm).
    pose proof (wf_below K M pe n d c0 c1 Hw HMd ltac:(lia)) as Hwd.
    assert (Hwl : wf K (Node (Some peer) cidr ip' Nil Nil)) by (simpl; rewrite ip'_key; split_and!; try done; apply ip'_ok).
    pose proof (wf_below K M _ _ _ _ _ Hwl HMN ltac:(lia)) as Hwn. rewrite HlM in Hwd, Hwn.
    rewrite Hdiff in *. set (s := Node pe n d c0 c1) in *. assert (s ≠ Nil) by done. clearbody s.
    assert (Hent : ∀ L q, entry (Node (Some peer) cidr ip' Nil Nil) L q ↔ L = key_of ip cidr ∧ q = peer).
    { intros L q. cbn [entry]. rewrite ip'_key. naive_solver. }
    set (l := Node (Some peer) cidr ip' Nil Nil) in *. assert (l ≠ Nil) by done. clearbody l.
    destruct (bit_of (to_bits d) m); cbn [negb set_child wf entry]; fold M.
    all: split; [split_and!; done|]; intros L q; rewrite <- Hent; naive_solver.
Qed.

Lemma ins_spec peer K t :
  wf K t → K `prefix_of` key_of ip cidr →
  wf K (ins peer t) ∧
  ∀ L q, entry (ins peer t) L q ↔ (L = key_of ip cidr ∧ q = peer) ∨ (L ≠ key_of ip cidr ∧ entry t L q).
Proof.
  revert K. induction t as [|pe n bits c0 IH0 c1 IH1]; intros K Hw HK.
  { destruct (graft_spec peer K Nil Hw HK I) as [Hwf Hent]. split; [done|]. intros L q. cbn [ins]. rewrite Hent. naive_solver. }
  cbn [ins]. pose proof Hw as (Hok & HKn & Hcomp & Hw0 & Hw1). destruct (stops n bits) eqn:Hs.
  { destruct (graft_spec peer K _ Hw HK Hs) as [Hwf Hent]. split; [done|]. intros L q. rewrite Hent. split; [|naive_solver].
    intros [?|He]; [by left|]. right. split; [|done]. intros ->. revert He.
    apply (place_exact K _ [] false Hw). cbn [place]. by rewrite Hs. }
  destruct (Z.eqb_spec n cidr) as [->|Hne].
  { destruct (passed_here bits Hok Hs) as [Hk _]. cbn [wf entry]. split; [done|]. rewrite <- Hk. intros L q. split.
    - intros [[[= <-] ->]|[He|He]]; [by left| |]; right.
      + apply (entry_child _ _ _ _ _ Hw0) in He as Hc. naive_solver.
      + apply (entry_child _ _ _ _ _ Hw1) in He as Hc. naive_solver.
    - naive_solver. }
  pose proof (passed_snoc n bits Hok Hs Hne) as Hp.
  assert (Hnk : node_key (bits, n) ≠ key_of ip cidr) by (intros Hk; rewrite Hk in Hp; by apply prefix_snoc_neq in Hp).
  pose proof (fun q => entry_descend _ _ _ c0 c1 q Hp Hw0 Hw1) as Hother.
  assert (Hnil : ∀ c, ins peer c ≠ Nil).
  { clear. intros [|pe n d d0 d1]; [done|]. cbn [ins]. destruct (stops n d); [|by repeat case_match].
    unfold graft, set_child. by repeat case_match. }
  destruct (bit_of (to_bits ip) n).
  - destruct (IH1 _ Hw1 Hp) as [Hwf Hent]. cbn [wf entry]. split; [naive_solver|]. intros L q. rewrite Hent.
    split; [|naive_solver]. intros [[? ->]|[He|?]]; [naive_solver| |naive_solver]. right. split; [|tauto]. intros ->. by apply (Hother q).
  - destruct (IH0 _ Hw0 Hp) as [Hwf Hent]. cbn [wf entry]. split; [naive_solver|]. intros L q. rewrite Hent.
    split; [|naive_solver]. intros [[? ->]|[?|He]]; [naive_solver|naive_solver|]. right. split; [|tauto]. intros ->. by apply (Hother q).
Qed.

(** ** Removal *)

(** A node whose child on side [bit] became [c]; without a peer and a child it
    gives way to the other child. *)
Definition prune (pe : option Peer) (n : Z) (bits : bytes) (bit : bool) (other c : trieEntry Peer) :=
  match pe, c with
  | None, Nil => other
  | _, _ => if bit then Node pe n bits other c else Node pe n bits c other
  end.
Fixpoint del t : trieEntry Peer :=
  match t with
  | Nil => Nil
  | Node pe n bits c0 c1 =>
      if stops n bits then t else
      if n =? cidr then
        if negb (is_nil c0) && negb (is_nil c1) then Node None n bits c0 c1
        else if is_nil c0 then c1 else c0
      else if bit_of (to_bits ip) n then prune pe n bits true c0 (del c1)
      else prune pe n bits false c1 (del c0)
  end.

Lemma trie_remove_cons (pe : option Peer) n bits c0 c1 e b w :
  w ≠ [] →
  trie_remove (Node pe n bits c0 c1) e (b :: w) =
    '(c, e') ← trie_remove (if b then c1 else c0) e w;
    Ok (if b then Node pe n bits c0 c else Node pe n bits c c1, e').
Proof.
  intros Hw. unfold trie_remove. cbn [subtrie node_child].
  destruct (subtrie (if b then c1 else c0) w) as [|pe' n' b' d0 d1]; [done|].
  destruct w as [|b2 w]; [done|].
  change (List.removelast (b :: b2 :: w)) with (b :: List.removelast (b2 :: w)).
  change (List.last (b :: b2 :: w) false) with (List.last (b2 :: w) false).
  set (w2 := b2 :: w) in *. clearbody w2. cbn [set_subtrie subtrie].
  destruct b; cbn [node_child set_child]; repeat case_match; simplify_eq; try done.
Qed.

Lemma del_nil K t w : wf K t → place t = (w, true) → del t = Nil → w = [].
Proof.
  destruct t as [|pe n bits c0 c1]; [done|]. intros (_ & _ & Hcomp & _). cbn [place del].
  destruct (stops n bits); [done|]. destruct (n =? cidr); [congruence|]. intros _. unfold prune.
  destruct (bit_of (to_bits ip) n), pe; try by (repeat case_match).
  - case_match; [|done]. intros ->. by destruct Hcomp.
  - case_match; [|done]. intros ->. by destruct Hcomp.
Qed.

Lemma place_here pe n bits c0 c1 :
  place (Node pe n bits c0 c1) = ([], true) → stops n bits = false ∧ n = cidr.
Proof.
  cbn [place]. destruct (stops n bits); [done|]. destruct (Z.eqb_spec n cidr); [done|].
  by destruct (place (if bit_of (to_bits ip) n then c1 else c0)).
Qed.

Lemma trie_remove_eq K t e w :
  wf K t → place t = (w, true) →
  ∃ pe, (∀ q, entry t (key_of ip cidr) q ↔ pe = Some q) ∧
    trie_remove t e w = Ok (del t, removeFromPeerEntries e pe (ip', cidr)).
Proof.
  revert K w. induction t as [|pe n bits c0 IH0 c1 IH1]; intros K w; [done|].
  intros Hw Hp. pose proof (place_exact _ _ _ _ Hw Hp) as Hex. revert Hp. cbn [place].
  destruct (stops n bits) eqn:Hs; [done|]. destruct (Z.eqb_spec n cidr) as [->|Hne].
  { intros [= <-]. destruct Hex as (pe' & d0 & d1 & [= -> -> -> ->] & Hq). exists pe'. split; [done|].
    unfold trie_remove. cbn [subtrie del set_subtrie]. rewrite Hs, Z.eqb_refl.
    fold ip'. by destruct (is_nil d0), (is_nil d1). }
  pose proof (fun q => entry_enter K pe n bits c0 c1 q Hw Hs Hne) as Hent. clear Hex.
  pose proof Hw as (_ & _ & _ & Hw0 & Hw1).
  set (c := if bit_of (to_bits ip) n then c1 else c0) in *.
  assert (Hc : ∃ K', wf K' c) by (subst c; destruct (bit_of _ _); eauto). destruct Hc as [K' Hwc].
  assert (IH : ∀ w, place c = (w, true) → ∃ pe, (∀ q, entry c (key_of ip cidr) q ↔ pe = Some q) ∧
    trie_remove c e w = Ok (del c, removeFromPeerEntries e pe (ip', cidr))).
  { intros w' Hp'. subst c. destruct (bit_of _ _); [by apply (IH1 _ _ Hw1)|by apply (IH0 _ _ Hw0)]. }
  clear IH0 IH1. destruct (place c) as [w' x'] eqn:Hpc. intros [= <- ->].
  destruct (IH w' eq_refl) as (cpe & Hq & Hrm). exists cpe. split; [intros q; by rewrite Hent|].
  assert (Hdel : del (Node pe n bits c0 c1) =
    prune pe n bits (bit_of (to_bits ip) n) (if bit_of (to_bits ip) n then c0 else c1) (del c)).
  { cbn [del]. rewrite Hs. destruct (Z.eqb_spec n cidr); [done|]. subst c. by destruct (bit_of _ _). }
  rewrite Hdel. destruct (decide (w' = [])) as [->|Hw'].
  - pose proof (place_exact _ _ _ _ Hwc Hpc) as (p2 & d0 & d1 & Hsub & _). cbn [subtrie] in Hsub.
    revert Hrm. generalize (del c). intros dc. unfold trie_remove. cbn [subtrie node_child set_subtrie set_child List.removelast List.last].
    fold c. rewrite Hsub. unfold prune.
    destruct d0, d1; cbn [is_nil negb andb orb]; intros [= <- <-]; destruct (bit_of _ _), pe; done.
  - rewrite trie_remove_cons by done. fold c. rewrite Hrm. cbn [mbind res_bind].
    pose proof (del_nil _ _ _ Hwc Hpc) as Hnil. unfold prune. destruct (del c) eqn:Hd; [by destruct Hw'; apply Hnil|].
    by destruct pe, (bit_of _ _).
Qed.

Lemma prune_spec K (pe : option Peer) n bits c0 c1 (bit : bool) c' :
  let c := if bit then c1 else c0 in
  let other := if bit then c0 else c1 in
  wf K (Node pe n bits c0 c1) →
  wf (node_key (bits, n) ++ [bit]) c' → node_key (bits, n) ≠ key_of ip cidr →
  (∀ L q, entry c' L q ↔ L ≠ key_of ip cidr ∧ entry c L q) →
  (∀ L q, entry other L q → L ≠ key_of ip cidr) →
  wf K (prune pe n bits bit other c') ∧
  ∀ L q, entry (prune pe n bits bit other c') L q ↔ L ≠ key_of ip cidr ∧ entry (Node pe n bits c0 c1) L q.
Proof.
  intros c other (Hok & HKn & Hcomp & Hw0 & Hw1) Hwf Hnk Hent Hside.
  assert (Hwk : wf K other).
  { subst other. destruct bit; [apply (wf_weaken (node_key (bits, n) ++ [false]))|apply (wf_weaken (node_key (bits, n) ++ [true]))]; try done.
    all: etransitivity; [exact HKn|]; by apply prefix_app_r. }
  assert (Hsplit : ∀ L q, entry (Node pe n bits c0 c1) L q ↔ (pe = Some q ∧ L = node_key (bits, n)) ∨ entry other L q ∨ entry c L q).
  { intros L q. subst c other. cbn [entry]. destruct bit; tauto. }
  assert (Hnode : (pe = None → c' ≠ Nil) →
    wf K (if bit then Node pe n bits other c' else Node pe n bits c' other) ∧
    ∀ L q, entry (if bit then Node pe n bits other c' else Node pe n bits c' other) L q ↔
      L ≠ key_of ip cidr ∧ entry (Node pe n bits c0 c1) L q).
  { intros Hnil. split; [subst c other; destruct bit; cbn [wf]; naive_solver|].
    intros L q. rewrite Hsplit. specialize (Hent L q). specialize (Hside L q).
    destruct bit; cbn [entry]; rewrite Hent; naive_solver. }
  unfold prune. destruct pe as [p0|], c' as [|]; try (apply Hnode; done).
  split; [done|]. intros L q. rewrite Hsplit. specialize (Hent L q). specialize (Hside L q). cbn [entry] in Hent. naive_solver.
Qed.

Lemma del_spec K t :
  wf K t → wf K (del t) ∧ ∀ L q, entry (del t) L q ↔ L ≠ key_of ip cidr ∧ entry t L q.
Proof.
  revert K. induction t as [|pe n bits c0 IH0 c1 IH1]; intros K Hw.
  { split; [done|]. simpl. naive_solver. }
  cbn [del]. pose proof Hw as (Hok & HKn & Hcomp & Hw0 & Hw1). destruct (stops n bits) eqn:Hs.
  { split; [done|]. intros L q. split; [|naive_solver]. intros He. split; [|done]. intros ->. revert He.
    apply (place_exact K _ [] false Hw). cbn [place]. by rewrite Hs. }
  assert (Hwk : ∀ c b, wf (node_key (bits, n) ++ [b]) c → wf K c).
  { intros c b. apply wf_weaken. etransitivity; [exact HKn|]. by apply prefix_app_r. }
  destruct (Z.eqb_spec n cidr) as [->|Hne].
  { destruct (passed_here bits Hok Hs) as [Hk _]. rewrite <- Hk.
    assert (H0 : ∀ L q, entry c0 L q → L ≠ node_key (bits, cidr)) by (intros L q He; by apply (entry_child _ _ _ _ _ Hw0) in He as [? _]).
    assert (H1 : ∀ L q, entry c1 L q → L ≠ node_key (bits, cidr)) by (intros L q He; by apply (entry_child _ _ _ _ _ Hw1) in He as [? _]).
    destruct (is_nil c0) eqn:Hn0; [destruct c0; [|done]|]; cbn [negb andb].
    - split; [by apply (Hwk c1 true)|]. intros L q. cbn [entry]. specialize (H1 L q). naive_solver.
    - destruct (is_nil c1) eqn:Hn1; [destruct c1; [|done]|]; cbn [negb].
      + split; [by apply (Hwk c0 false)|]. intros L q. cbn [entry]. specialize (H0 L q). naive_solver.
      + split; [cbn [wf]; split_and!; try done; intros _; split; intros ->; done|].
        intros L q. specialize (H0 L q). specialize (H1 L q). cbn [entry]. naive_solver. }
  pose proof (passed_snoc n bits Hok Hs Hne) as Hp.
  assert (Hnk : node_key (bits, n) ≠ key_of ip cidr) by (intros Hk; rewrite Hk in Hp; by apply prefix_snoc_neq in Hp).
  pose proof (fun q => entry_descend _ _ _ c0 c1 q Hp Hw0 Hw1) as Hother.
  destruct (bit_of (to_bits ip) n).
  - destruct (IH1 _ Hw1) as [Hwf Hent]. apply (prune_spec K pe n bits c0 c1 true); try done.
    intros L q He ->. by apply (Hother q).
  - destruct (IH0 _ Hw0) as [Hwf Hent]. apply (prune_spec K pe n bits c0 c1 false); try done.
    intros L q He ->. by apply (Hother q).
Qed.
End Place.

(** ** Lookup *)

(** [r] is the peer of the longest prefix of [A] in the trie, or the default. *)
Definition longest t (A : list bool) (found r : option Peer) : Prop :=
  (∃ L q, r = Some q ∧ entry t L q ∧ L `prefix_of` A ∧
     ∀ L' q', entry t L' q' → L' `prefix_of` A → (length L' ≤ length L)%nat) ∨
  (r = found ∧ ∀ L q, entry t L q → ¬ L `prefix_of` A).

Lemma wf_full_child K b t : Z.of_nat (length K) = 8 * Z.of_nat size → wf (K ++ [b]) t → t = Nil.
Proof.
  destruct t as [|pe n bits c0 c1]; [done|]. intros Hl (Hok & Hp & _). exfalso.
  apply prefix_snoc_length in Hp. rewrite (length_node_key size _ Hok) in Hp. destruct Hok; simpl in *; lia.
Qed.

(** The continuation of the loop at a node the address matches. *)
Definition lookup_rest (n : Z) (c0 c1 : trieEntry Peer) (ip : bytes) (found : option Peer) : go (option Peer) :=
  if bitAtByte n =? u8 (Z.of_nat (length ip)) then Ok found else
  bit ← choose n ip;
  if (bit : bool) then trie_lookup_loop c1 ip found else trie_lookup_loop c0 ip found.

Lemma entry_side (A : list bool) K b c L q :
  K ++ [b] `prefix_of` A → wf (K ++ [negb b]) c → entry c L q → ¬ L `prefix_of` A.
Proof.
  intros Hb Hw He HL. apply (entry_prefix _ _ _ _ Hw) in He. apply (prefix_snoc_ne _ _ _ Hb). by transitivity L.
Qed.

(** It goes into a child that has all longer matches, or stops at full length. *)
Lemma lookup_enter pe n bits c0 c1 ip found :
  node_ok size (bits, n) → wf (node_key (bits, n) ++ [false]) c0 → wf (node_key (bits, n) ++ [true]) c1 →
  node_key (bits, n) `prefix_of` to_bits ip → length ip = size →
  (∃ r, trie_lookup_loop c0 ip found = Ok r ∧ longest c0 (to_bits ip) found r) →
  (∃ r, trie_lookup_loop c1 ip found = Ok r ∧ longest c1 (to_bits ip) found r) →
  ∃ c r, lookup_rest n c0 c1 ip found = Ok r ∧ longest c (to_bits ip) found r ∧
    (∀ L q, entry c L q → entry (Node pe n bits c0 c1) L q ∧ (length (node_key (bits, n)) < length L)%nat) ∧
    ∀ L q, entry (Node pe n bits c0 c1) L q → L `prefix_of` to_bits ip → (pe = Some q ∧ L = node_key (bits, n)) ∨ entry c L q.
Proof.
  intros Hok Hw0 Hw1 Hm Hip IH0 IH1. unfold lookup_rest.
  pose proof (length_node_key size _ Hok) as HlK. pose proof (nok_cidr _ _ Hok) as Hn. simpl in HlK, Hn.
  rewrite wrap_small by (destruct Hsize; lia). unfold bitAtByte.
  destruct (Z.eqb_spec (n / 8) (Z.of_nat (length ip))) as [He|Hne].
  - assert (n = 8 * Z.of_nat size) by (pose proof (Z.mul_div_le n 8); lia).
    assert (c0 = Nil) as -> by (eapply wf_full_child; [|exact Hw0]; lia).
    assert (c1 = Nil) as -> by (eapply wf_full_child; [|exact Hw1]; lia).
    exists Nil, found. split; [done|]. split; [by right|]. split; [done|]. cbn [entry]. tauto.
  - assert (Hlt : n < 8 * Z.of_nat size).
    { destruct (decide (n = 8 * Z.of_nat size)) as [->|]; [|lia]. rewrite Z.mul_comm, Z.div_mul in Hne by lia. lia. }
    rewrite (choose_bit_of size) by (done || lia). cbn [mbind res_bind].
    assert (Hsn : node_key (bits, n) ++ [bit_of (to_bits ip) n] `prefix_of` to_bits ip)
      by (apply prefix_snoc_bit; [done|done|rewrite length_to_bits; lia]).
    assert (Hlen : ∀ b c L q, wf (node_key (bits, n) ++ [b]) c → entry c L q → (length (node_key (bits, n)) < length L)%nat).
    { intros b c L q Hwc He. apply (entry_prefix _ _ _ _ Hwc) in He. by apply prefix_snoc_length in He. }
    destruct (bit_of (to_bits ip) n).
    + destruct IH1 as (r & Hr & Hlong). exists c1, r. split; [done|]. split; [done|].
      split; [intros L q He; split; [cbn [entry]; tauto|by apply (Hlen true c1 L q)]|].
      intros L q [?|[He|?]] HL; [tauto| |tauto]. by destruct (entry_side _ _ true c0 L q Hsn Hw0 He HL).
    + destruct IH0 as (r & Hr & Hlong). exists c0, r. split; [done|]. split; [done|].
      split; [intros L q He; split; [cbn [entry]; tauto|by apply (Hlen false c0 L q)]|].
      intros L q [?|[?|He]] HL; [tauto|tauto|]. by destruct (entry_side _ _ false c1 L q Hsn Hw1 He HL).
Qed.

Lemma lookup_longest K t ip found :
  wf K t → length ip = size → ∃ r, trie_lookup_loop t ip found = Ok r ∧ longest t (to_bits ip) found r.
Proof.
  revert K found. induction t as [|pe n bits c0 IH0 c1 IH1]; intros K found Hw Hip.
  { exists found. split; [done|]. right. done. }
  pose proof Hw as (Hok & _ & _ & Hw0 & Hw1). cbn [trie_lookup_loop].
  destruct (commonBits_matches size Hsize bits n ip Hok Hip) as (common & -> & Hcm). cbn [mbind res_bind]. rewrite Hcm.
  destruct (matches bits n ip) eqn:Hm; cbn [negb]; [apply bool_decide_eq_true in Hm|apply bool_decide_eq_false in Hm].
  2: { exists found. split; [done|]. right. split; [done|]. intros L q He HL. apply Hm.
       assert (Hw' : wf (node_key (bits, n)) (Node pe n bits c0 c1)) by (cbn [wf] in Hw |- *; naive_solver).
       etransitivity; [by apply (entry_prefix _ _ _ _ Hw' He)|done]. }
  set (found' := match pe with Some _ => pe | None => found end).
  destruct (lookup_enter pe n bits c0 c1 ip found' Hok Hw0 Hw1 Hm Hip) as (c & r & Hr & Hlong & Hsub & Hall); [eauto..|].
  exists r. split; [exact Hr|]. destruct Hlong as [(L & q & Hq & He & HL & Hmax)|[-> Hnone]].
  - left. exists L, q. split_and!; [done|by apply Hsub|done|]. intros L' q' He' HL'.
    destruct (Hall L' q' He' HL') as [[_ ->]|Hc]; [|by eapply Hmax]. destruct (Hsub L q He). lia.
  - destruct pe as [p0|].
    + left. exists (node_key (bits, n)), p0. split_and!; [done|cbn [entry]; by left|done|].
      intros L' q' He' HL'. destruct (Hall L' q' He' HL') as [[_ ->]|Hc]; [done|]. by apply Hnone in Hc.
    + right. split; [done|]. intros L q He HL. destruct (Hall L q He HL) as [[? _]|Hc]; [done|]. by apply (Hnone L q).
Qed.
End Trie.
