(* ===== verification/AllowedIPsTable.v ===== *)
(** * Allowed IPs: the table refines a map from prefixes to peers

    The specification is a finite map keyed by address length and prefix bits;
    lookup takes the longest prefix in the map.  Every history of [Insert],
    [Remove] and [RemoveByPeer] on valid prefixes runs without a panic and leaves
    a table that answers [Lookup] and [EntriesForPeer] as the map does. *)

From S2P Require Import Prelude AllowedIPs AllowedIPsBits AllowedIPsProps.

Section Table.
Context {Peer : Type} `{Countable Peer}.
Implicit Types (e : gmap Peer (list (bytes * Z))) (p q : Peer).

(** ** Specification *)

Abbreviation spec_table := (gmap (nat * list bool) Peer).

Fixpoint longest_from (m : spec_table) (size : nat) (A : list bool) (n : nat) : option Peer :=
  match m !! (size, take n A), n with
  | Some p, _ => Some p
  | None, O => None
  | None, S n => longest_from m size A n
  end.
Definition spec_lookup (m : spec_table) (ip : bytes) : option Peer :=
  longest_from m (length ip) (to_bits ip) (8 * length ip).

Definition addr_bytes (a : Addr) : bytes := match a with AddrZero => [] | Addr4 ip | Addr6 ip => ip end.
Definition valid_prefix (pre : Prefix) : Prop :=
  match prefix_addr pre with
  | AddrZero => False
  | Addr4 ip => length ip = 4%nat ∧ 0 ≤ prefix_bits pre ≤ 32
  | Addr6 ip => length ip = 16%nat ∧ 0 ≤ prefix_bits pre ≤ 128
  end.
#[export] Instance valid_prefix_dec pre : Decision (valid_prefix pre).
Proof. unfold valid_prefix. destruct (prefix_addr pre); apply _. Defined.
Definition prefix_key (pre : Prefix) : nat * list bool :=
  (length (addr_bytes (prefix_addr pre)), key_of (addr_bytes (prefix_addr pre)) (prefix_bits pre)).

Definition spec_insert (m : spec_table) (pre : Prefix) (p : Peer) : spec_table := <[prefix_key pre := p]> m.
Definition spec_remove (m : spec_table) (pre : Prefix) (p : Peer) : spec_table :=
  if decide (m !! prefix_key pre = Some p) then delete (prefix_key pre) m else m.
Definition spec_remove_by_peer (m : spec_table) (p : Peer) : spec_table := filter (fun kq => kq.2 ≠ p) m.

(** Histories *)
Inductive aip_op := OpInsert (pre : Prefix) (p : Peer) | OpRemove (pre : Prefix) (p : Peer) | OpRemoveByPeer (p : Peer).
Definition aip_op_ok (o : aip_op) : Prop :=
  match o with OpInsert pre _ | OpRemove pre _ => valid_prefix pre | OpRemoveByPeer _ => True end.

Definition step_table (t : AllowedIPs Peer) (o : aip_op) : go (AllowedIPs Peer) :=
  match o with
  | OpInsert pre p => Insert t pre p
  | OpRemove pre p => Remove t pre p
  | OpRemoveByPeer p => RemoveByPeer t p
  end.
Fixpoint run_table (t : AllowedIPs Peer) (ops : list aip_op) : go (AllowedIPs Peer) :=
  match ops with [] => Ok t | o :: ops => t ← step_table t o; run_table t ops end.
Definition step_spec (m : spec_table) (o : aip_op) : spec_table :=
  match o with
  | OpInsert pre p => spec_insert m pre p
  | OpRemove pre p => spec_remove m pre p
  | OpRemoveByPeer p => spec_remove_by_peer m p
  end.
Definition run_spec (m : spec_table) (ops : list aip_op) : spec_table := foldl step_spec m ops.

(** ** The refinement relation *)

Definition trie_of (t : AllowedIPs Peer) (size : nat) : trieEntry Peer :=
  if (size =? 16)%nat then IPv6 t else if (size =? 4)%nat then IPv4 t else Nil.
Definition set_trie (t : AllowedIPs Peer) (size : nat) (x : trieEntry Peer) e : AllowedIPs Peer :=
  if (size =? 16)%nat then {| IPv4 := IPv4 t; IPv6 := x; trieEntries := e |}
  else {| IPv4 := x; IPv6 := IPv6 t; trieEntries := e |}.

Record refines (t : AllowedIPs Peer) (m : spec_table) : Prop := {
  ref_wf : ∀ size, wf size [] (trie_of t size);
  ref_map : ∀ size K q, m !! (size, K) = Some q ↔ entry (trie_of t size) K q;
  ref_nodup : ∀ q, NoDup (entries_of (trieEntries t) q);
  ref_list : ∀ q n, n ∈ entries_of (trieEntries t) q ↔
    node_ok (length n.1) n ∧ entry (trie_of t (length n.1)) (node_key n) q;
}.

Lemma trie_of_set t size size' x e :
  addr_len size → trie_of (set_trie t size x e) size' = if decide (size' = size) then x else trie_of t size'.
Proof.
  intros Hs. unfold trie_of, set_trie. destruct Hs as [-> | ->]; case_decide as Hd; subst; try done.
  - destruct (Nat.eqb_spec size' 16); [done|]. destruct (Nat.eqb_spec size' 4); done.
  - destruct (Nat.eqb_spec size' 16); done.
Qed.
Lemma entries_set t size x e : trieEntries (set_trie t size x e) = e.
Proof. unfold set_trie. by destruct (size =? 16)%nat. Qed.
Lemma trie_of_other t size : ¬ addr_len size → trie_of t size = Nil.
Proof.
  intros Hn. unfold trie_of. destruct (Nat.eqb_spec size 16), (Nat.eqb_spec size 4); try done; destruct Hn; red; lia.
Qed.
Lemma entry_addr_len t size K q : entry (trie_of t size) K q → addr_len size.
Proof.
  intros He. destruct (decide (size = 4%nat)); [by left|]. destruct (decide (size = 16%nat)); [by right|].
  rewrite trie_of_other in He; [done|]. intros [|]; lia.
Qed.

Lemma refines_zero : refines AllowedIPs_zero ∅.
Proof.
  assert (Hnil : ∀ size, trie_of AllowedIPs_zero size = Nil) by (intros; unfold trie_of; by repeat case_match).
  constructor; intros *; rewrite ?Hnil.
  - done.
  - rewrite lookup_empty. done.
  - unfold entries_of; simpl. rewrite lookup_empty. constructor.
  - unfold entries_of; simpl. rewrite lookup_empty. simpl. rewrite elem_of_nil. naive_solver.
Qed.

(** ** The peers' lists *)

Lemma entries_of_insert e p q l : entries_of (<[p := l]> e) q = if decide (p = q) then l else entries_of e q.
Proof.
  unfold entries_of. case_decide; subst; [by rewrite lookup_insert_eq|by rewrite lookup_insert_ne].
Qed.

Definition listed e (P : Peer → bytes * Z → Prop) : Prop :=
  ∀ q, NoDup (entries_of e q) ∧ ∀ n, n ∈ entries_of e q ↔ P q n.

Lemma NoDup_filter' {A} (f : A → bool) (l : list A) : NoDup l → NoDup (List.filter f l).
Proof.
  induction 1 as [|x l Hx _ IH]; simpl; [constructor|]. destruct (f x); [|done]. constructor; [|done].
  intros Hin. apply Hx. apply list_elem_of_In, List.filter_In in Hin as [? _]. by apply list_elem_of_In.
Qed.

(** Removing a node from its owner's list removes it from every list. *)
Lemma listed_remove e P old n :
  listed e P → (∀ q, P q n ↔ old = Some q) →
  listed (removeFromPeerEntries e old n) (fun q n' => n' ≠ n ∧ P q n').
Proof.
  intros Hl Hold q. destruct (Hl q) as [Hnd Hin]. destruct old as [p|]; simpl; rewrite ?entries_of_insert.
  - case_decide as Hpq; [subst q|].
    + split; [by apply NoDup_filter'|]. intros n'. rewrite list_elem_of_In, List.filter_In, <- list_elem_of_In, Hin.
      rewrite negb_true_iff, bool_decide_eq_false. naive_solver.
    + split; [done|]. intros n'. rewrite Hin. split; [|naive_solver]. intros HP. split; [|done].
      intros ->. apply Hold in HP. congruence.
  - split; [done|]. intros n'. rewrite Hin. split; [|naive_solver]. intros HP. split; [|done].
    intros ->. apply Hold in HP. done.
Qed.
Lemma listed_add e P p n :
  listed e P → (∀ q, ¬ P q n) → listed (addToPeerEntries e p n) (fun q n' => (n' = n ∧ q = p) ∨ P q n').
Proof.
  intros Hl Hn q. destruct (Hl q) as [Hnd Hin]. unfold addToPeerEntries. rewrite entries_of_insert.
  case_decide as Hpq; [subst q|].
  - split.
    + apply NoDup_app. split_and!; [done| |apply NoDup_singleton]. intros n' Hn'. rewrite list_elem_of_singleton.
      intros ->. apply Hin in Hn'. by apply Hn in Hn'.
    + intros n'. rewrite elem_of_app, list_elem_of_singleton, Hin. naive_solver.
  - split; [done|]. intros n'. rewrite Hin. naive_solver.
Qed.

Lemma refines_listed t m : refines t m →
  listed (trieEntries t) (fun q n => node_ok (length n.1) n ∧ entry (trie_of t (length n.1)) (node_key n) q).
Proof. intros [_ _ Hnd Hl] q. split; [apply Hnd|apply Hl]. Qed.

(** Replacing the trie of one address length by one with other entries. *)
Lemma refines_set t m size x e m' :
  refines t m → addr_len size → wf size [] x →
  (∀ K q, m' !! (size, K) = Some q ↔ entry x K q) →
  (∀ size' K, size' ≠ size → m' !! (size', K) = m !! (size', K)) →
  listed e (fun q n => node_ok (length n.1) n ∧ entry (trie_of (set_trie t size x e) (length n.1)) (node_key n) q) →
  refines (set_trie t size x e) m'.
Proof.
  intros [Hw Hm _ _] Hs Hx Hin Hout Hl. constructor.
  - intros size'. rewrite trie_of_set by done. case_decide; [by subst|done].
  - intros size' K q. rewrite trie_of_set by done. case_decide; [by subst|]. by rewrite Hout, Hm.
  - intros q. rewrite entries_set. apply Hl.
  - intros q n. rewrite entries_set. apply Hl.
Qed.

(** ** Each operation *)

(** Both address families at once. *)
Lemma valid_prefix_size pre :
  valid_prefix pre →
  let ip := addr_bytes (prefix_addr pre) in
  addr_len (length ip) ∧ 0 ≤ prefix_bits pre ≤ 8 * Z.of_nat (length ip) ∧ u8 (prefix_bits pre) = prefix_bits pre.
Proof.
  unfold valid_prefix. destruct (prefix_addr pre); simpl; [done|..]; intros [Hl Hb]; rewrite Hl.
  - split; [by left|]. split; [lia|]. apply wrap_small. lia.
  - split; [by right|]. split; [lia|]. apply wrap_small. lia.
Qed.
Lemma by_family pre (f : trieEntry Peer → bytes → Z → go (trieEntry Peer * gmap Peer (list (bytes * Z)))) t :
  valid_prefix pre →
  match prefix_addr pre with
  | Addr6 ip => '(x, e) ← f (IPv6 t) ip (u8 (prefix_bits pre)); Ok {| IPv4 := IPv4 t; IPv6 := x; trieEntries := e |}
  | Addr4 ip => '(x, e) ← f (IPv4 t) ip (u8 (prefix_bits pre)); Ok {| IPv4 := x; IPv6 := IPv6 t; trieEntries := e |}
  | AddrZero => Panic
  end =
  let ip := addr_bytes (prefix_addr pre) in
  '(x, e) ← f (trie_of t (length ip)) ip (prefix_bits pre); Ok (set_trie t (length ip) x e).
Proof.
  intros Hv. pose proof (valid_prefix_size pre Hv) as (_ & _ & ->). unfold valid_prefix in Hv.
  destruct (prefix_addr pre); simpl; [done|..]; destruct Hv as [-> _]; done.
Qed.

Lemma listed_iff e P P' : (∀ q n, P' q n ↔ P q n) → listed e P → listed e P'.
Proof. intros Hiff Hl q. destruct (Hl q) as [Hnd Hin]. split; [done|]. intros n. by rewrite Hiff. Qed.
(** Among masked nodes of one address length the prefix names the node. *)
Lemma same_key size n n' :
  node_ok size n → length n'.1 = size → (node_ok size n' ∧ n' = n) ↔ (node_ok size n' ∧ node_key n' = node_key n).
Proof. intros Hn Hl. split; [naive_solver|]. intros [Hn' Hk]. split; [done|]. by apply (node_key_inj size). Qed.

Lemma key_neq_size (size size' : nat) (K K' : list bool) : size' ≠ size → (size, K') ≠ (size', K).
Proof. congruence. Qed.

Lemma Insert_refines t m pre p :
  refines t m → valid_prefix pre → ∃ t', Insert t pre p = Ok t' ∧ refines t' (spec_insert m pre p).
Proof.
  intros Href Hv. unfold Insert.
  rewrite (by_family pre (fun x ip c => trie_insert x (trieEntries t) ip c p)) by done. cbv zeta.
  pose proof (valid_prefix_size pre Hv) as (Hs & Hb & _). unfold spec_insert, prefix_key.
  set (ip := addr_bytes (prefix_addr pre)) in *. set (c := prefix_bits pre) in *. clearbody ip c. clear pre Hv.
  pose proof (ref_wf _ _ Href (length ip)) as Hw.
  destruct (trie_insert_eq (length ip) Hs ip c eq_refl Hb p _ (trieEntries t) Hw) as (old & Hold & ->).
  destruct (ins_spec (length ip) Hs ip c eq_refl Hb p [] _ Hw (prefix_nil _)) as [Hwf Hent].
  eexists. split; [reflexivity|]. set (n := (ip' ip c, c)) in *.
  assert (Hn : node_ok (length ip) n) by by apply ip'_ok.
  assert (Hk : node_key n = key_of ip c) by by apply (ip'_key (length ip)).
  apply refines_set with m; [done..| | |].
  - intros K q. rewrite Hent, lookup_insert_Some, (ref_map _ _ Href). naive_solver.
  - intros size' K Hne. by apply lookup_insert_ne, key_neq_size.
  - pose proof (listed_remove _ _ old n (refines_listed t m Href)) as Hl.
    cbv beta in Hl. rewrite (nok_len _ _ Hn), Hk in Hl.
    specialize (Hl ltac:(naive_solver)). apply (listed_add _ _ p n) in Hl; [|naive_solver].
    eapply listed_iff; [|exact Hl]. intros q n'. rewrite trie_of_set by done. case_decide as Hd.
    + rewrite Hd, Hent. pose proof (same_key _ _ n' Hn Hd) as Hsk. rewrite Hk in Hsk. naive_solver.
    + assert (n' ≠ n) by (intros ->; apply Hd, Hn). naive_solver.
Qed.

(** Removing the entry at a prefix that is in the trie. *)
Lemma remove_refines t m ip c :
  refines t m → addr_len (length ip) → 0 ≤ c ≤ 8 * Z.of_nat (length ip) →
  ∀ w, place ip c (trie_of t (length ip)) = (w, true) →
  ∃ x e, trie_remove (trie_of t (length ip)) (trieEntries t) w = Ok (x, e) ∧
    refines (set_trie t (length ip) x e) (delete (length ip, key_of ip c) m).
Proof.
  intros Href Hs Hb w Hp. pose proof (ref_wf _ _ Href (length ip)) as Hw.
  destruct (trie_remove_eq (length ip) Hs ip c eq_refl Hb [] _ (trieEntries t) w Hw Hp) as (old & Hold & ->).
  destruct (del_spec (length ip) Hs ip c eq_refl Hb [] _ Hw) as [Hwf Hent].
  do 2 eexists. split; [reflexivity|]. set (n := (ip' ip c, c)) in *.
  assert (Hn : node_ok (length ip) n) by by apply ip'_ok.
  assert (Hk : node_key n = key_of ip c) by by apply (ip'_key (length ip)).
  apply refines_set with m; [done..| | |].
  - intros K q. rewrite Hent, lookup_delete_Some, (ref_map _ _ Href). naive_solver.
  - intros size' K Hne. by apply lookup_delete_ne, key_neq_size.
  - pose proof (listed_remove _ _ old n (refines_listed t m Href)) as Hl.
    cbv beta in Hl. rewrite (nok_len _ _ Hn), Hk in Hl.
    specialize (Hl ltac:(naive_solver)).
    eapply listed_iff; [|exact Hl]. intros q n'. rewrite trie_of_set by done. case_decide as Hd.
    + rewrite Hd, Hent. pose proof (same_key _ _ n' Hn Hd) as Hsk. rewrite Hk in Hsk. naive_solver.
    + assert (n' ≠ n) by (intros ->; apply Hd, Hn). naive_solver.
Qed.

Lemma set_trie_id t size : addr_len size → set_trie t size (trie_of t size) (trieEntries t) = t.
Proof. destruct t. by intros [-> | ->]. Qed.

Lemma Remove_refines t m pre p :
  refines t m → valid_prefix pre → ∃ t', Remove t pre p = Ok t' ∧ refines t' (spec_remove m pre p).
Proof.
  intros Href Hv. unfold Remove.
  rewrite (by_family pre (fun x ip c => remove_placed x (trieEntries t) ip c p)) by done. cbv zeta.
  pose proof (valid_prefix_size pre Hv) as (Hs & Hb & _). unfold spec_remove, prefix_key.
  set (ip := addr_bytes (prefix_addr pre)) in *. set (c := prefix_bits pre) in *. clearbody ip c. clear pre Hv.
  pose proof (ref_wf _ _ Href (length ip)) as Hw. unfold remove_placed, nodePlacement.
  rewrite (nodePlacement_place (length ip) Hs ip c eq_refl Hb [] _ [] None Hw).
  destruct (place ip c (trie_of t (length ip))) as [w x] eqn:Hp.
  pose proof (place_exact (length ip) Hs ip c eq_refl Hb [] _ _ _ Hw Hp) as Hex. destruct x.
  - destruct Hex as (pe & c0 & c1 & Hsub & Hq). cbn [mbind res_bind app]. rewrite Hsub.
    assert (Hpe : m !! (length ip, key_of ip c) = pe).
    { apply option_eq. intros q. by rewrite (ref_map _ _ Href), Hq. }
    rewrite Hpe. destruct pe as [q|]; [destruct (decide (p = q)) as [->|Hpq]|].
    + rewrite decide_True by done.
      destruct (remove_refines t m ip c Href Hs Hb w Hp) as (x & e & -> & Href'). by eexists.
    + rewrite decide_False by congruence. eexists. split; [done|]. by rewrite set_trie_id.
    + rewrite decide_False by done. eexists. split; [done|]. by rewrite set_trie_id.
  - rewrite decide_False by (rewrite (ref_map _ _ Href); apply Hex).
    exists t. split; [|done]. destruct w; simpl; by rewrite set_trie_id.
Qed.

(** The prefix of a listed element is bound to the peer. *)
Lemma listed_bound t m p n :
  refines t m → n ∈ entries_of (trieEntries t) p →
  node_ok (length n.1) n ∧ addr_len (length n.1) ∧ m !! (length n.1, node_key n) = Some p.
Proof.
  intros Href [Hok He]%(ref_list _ _ Href). split; [done|]. split; [by apply entry_addr_len in He|].
  by apply (ref_map _ _ Href).
Qed.

Lemma remove_elem_refines t m p n :
  refines t m → n ∈ entries_of (trieEntries t) p →
  ∃ t', remove_elem_table t n = Ok t' ∧ refines t' (delete (length n.1, node_key n) m).
Proof.
  intros Href Hin. destruct (listed_bound t m p n Href Hin) as (Hok & Hs & Hm).
  pose proof (nok_cidr _ _ Hok) as Hb. destruct n as [ip c]; simpl in *.
  pose proof (ref_wf _ _ Href (length ip)) as Hw.
  destruct (place ip c (trie_of t (length ip))) as [w x] eqn:Hp.
  pose proof (place_exact (length ip) Hs ip c eq_refl Hb [] _ _ _ Hw Hp) as Hex.
  destruct x; [|by apply (ref_map _ _ Href), Hex in Hm].
  destruct (remove_refines t m ip c Href Hs Hb w Hp) as (x & e & Hrm & Href').
  exists (set_trie t (length ip) x e). split; [|done].
  assert (Hel : remove_elem (trie_of t (length ip)) (trieEntries t) (ip, c) = Ok (x, e)).
  { unfold remove_elem, nodePlacement. cbn [fst snd].
    rewrite (nodePlacement_place (length ip) Hs ip c eq_refl Hb [] _ [] None Hw), Hp. simpl. exact Hrm. }
  unfold remove_elem_table, set_trie, trie_of in *. cbn [fst].
  destruct Hs as [Hs|Hs]; rewrite Hs in *; simpl in *; by rewrite Hel.
Qed.

Lemma remove_elems_refines p l t m :
  refines t m → NoDup l → (∀ n, n ∈ l → n ∈ entries_of (trieEntries t) p) →
  ∃ t', remove_elems t l = Ok t' ∧
    refines t' (foldl (fun m n => delete (length n.1, node_key n) m) m l).
Proof.
  revert t m. induction l as [|n l IH]; intros t m Href Hnd Hin; simpl; [by exists t|].
  apply NoDup_cons in Hnd as [Hn Hnd].
  destruct (remove_elem_refines t m p n Href) as (t1 & -> & Href1); [apply Hin; by left|]. simpl.
  apply IH; [done|done|]. intros n' Hn'.
  destruct (listed_bound t m p n Href) as (Hok & _ & _); [apply Hin; by left|].
  destruct (listed_bound t m p n' Href) as (Hok' & _ & Hm'); [apply Hin; by right|].
  apply (ref_list _ _ Href1). split; [done|]. apply (ref_map _ _ Href1). rewrite lookup_delete_ne; [done|].
  intros [= Hl Hk]. apply Hn. rewrite <- (node_key_inj (length n.1) n' n); [done| |done|done]. by rewrite Hl.
Qed.

Lemma foldl_delete_lookup (l : list (bytes * Z)) (m : spec_table) k :
  foldl (fun m n => delete (length n.1, node_key n) m) m l !! k =
  if decide (k ∈ (fun n => (length n.1, node_key n)) <$> l) then None else m !! k.
Proof.
  revert m. induction l as [|n l IH]; intros m; simpl foldl.
  { rewrite decide_False; [done|]. by intros ?%elem_of_nil. }
  rewrite IH, fmap_cons. destruct (decide (k ∈ _ <$> l)) as [Hin|Hin].
  - rewrite decide_True; [done|]. rewrite elem_of_cons. by right.
  - destruct (decide (k = (length n.1, node_key n))) as [->|Hne].
    + rewrite lookup_delete_eq, decide_True; [done|]. rewrite elem_of_cons. by left.
    + rewrite lookup_delete_ne, decide_False; [done| |done]. rewrite elem_of_cons. naive_solver.
Qed.

(** Every bound prefix is that of a masked node. *)
Lemma entry_node size K L (t : trieEntry Peer) q : wf size K t → entry t L q → ∃ n, node_ok size n ∧ node_key n = L.
Proof.
  revert K. induction t as [|pe n bits c0 IH0 c1 IH1]; intros K; simpl; [done|].
  intros (Hok & _ & _ & Hw0 & Hw1) [[_ ->]|[He|He]]; eauto.
Qed.
Lemma bound_listed t m p k :
  refines t m → m !! k = Some p → ∃ n, n ∈ entries_of (trieEntries t) p ∧ k = (length n.1, node_key n).
Proof.
  intros Href Hk. destruct k as [size K]. apply (ref_map _ _ Href) in Hk.
  destruct (entry_node size [] K _ p (ref_wf _ _ Href size) Hk) as (n & Hok & <-). exists n.
  rewrite (nok_len _ _ Hok). split; [|done]. apply (ref_list _ _ Href). by rewrite (nok_len _ _ Hok).
Qed.

Lemma RemoveByPeer_refines t m p :
  refines t m → ∃ t', RemoveByPeer t p = Ok t' ∧ refines t' (spec_remove_by_peer m p).
Proof.
  intros Href. unfold RemoveByPeer.
  destruct (remove_elems_refines p (entries_of (trieEntries t) p) t m Href) as (t' & -> & Href');
    [apply (ref_nodup _ _ Href)|done|].
  exists t'. split; [done|]. eapply (eq_ind _ (refines t') Href'). apply map_eq. intros k.
  rewrite foldl_delete_lookup. unfold spec_remove_by_peer. apply option_eq. intros q.
  rewrite map_lookup_filter_Some. simpl. case_decide as Hin.
  - split; [done|]. intros [Hk Hne]. apply list_elem_of_fmap in Hin as (n & -> & Hn).
    destruct (listed_bound t m p n Href Hn) as (_ & _ & Hm). congruence.
  - split; [|naive_solver]. intros Hk. split; [done|]. intros ->. apply Hin.
    destruct (bound_listed t m p k Href Hk) as (n & Hn & ->). apply list_elem_of_fmap. by exists n.
Qed.

Lemma longest_from_spec (m : spec_table) size A n :
  (∃ j p, (j ≤ n)%nat ∧ longest_from m size A n = Some p ∧ m !! (size, take j A) = Some p ∧
     ∀ i, (j < i ≤ n)%nat → m !! (size, take i A) = None) ∨
  (longest_from m size A n = None ∧ ∀ i, (i ≤ n)%nat → m !! (size, take i A) = None).
Proof.
  induction n as [|n IH]; simpl.
  - destruct (m !! (size, take 0 A)) as [p|] eqn:Hm.
    + left. exists 0%nat, p. split_and!; [lia|done|done|]. intros; lia.
    + right. split; [done|]. intros i Hi. by replace i with 0%nat by lia.
  - destruct (m !! (size, take (S n) A)) as [p|] eqn:Hm.
    + left. exists (S n), p. split_and!; [lia|done|done|]. intros; lia.
    + destruct IH as [(j & p & Hj & Hl & Hp & Hmax)|[Hl Hnone]].
      * left. exists j, p. split_and!; [lia|done|done|]. intros i Hi.
        destruct (decide (i = S n)) as [->|]; [done|]. apply Hmax. lia.
      * right. split; [done|]. intros i Hi. destruct (decide (i = S n)) as [->|]; [done|]. apply Hnone. lia.
Qed.

Lemma prefix_is_take (L A : list bool) : L `prefix_of` A → L = take (length L) A.
Proof. intros [r ->]. by rewrite take_app_length. Qed.

Lemma Lookup_refines t m ip :
  refines t m → addr_len (length ip) → Lookup t ip = Ok (spec_lookup m ip).
Proof.
  intros Href Hs. assert (Lookup t ip = trie_lookup (trie_of t (length ip)) ip) as ->.
  { unfold Lookup, trie_of. by destruct Hs as [-> | ->]. }
  unfold trie_lookup, spec_lookup.
  destruct (lookup_longest (length ip) Hs [] _ ip None (ref_wf _ _ Href _) eq_refl) as (r & -> & Hlong). f_equal.
  pose proof (longest_from_spec m (length ip) (to_bits ip) (8 * length ip)) as Hspec.
  set (A := to_bits ip) in *. assert (HA : length A = (8 * length ip)%nat) by apply length_to_bits.
  destruct Hlong as [(L & q & -> & He & HL & Hmax)|[-> Hnone]].
  - apply (ref_map _ _ Href) in He. pose proof (prefix_length _ _ HL) as HLl.
    rewrite (prefix_is_take _ _ HL) in He. destruct Hspec as [(j & p & Hj & -> & Hp & Hlater)|[_ Hno]].
    + f_equal. assert (Hjl : (j ≤ length L)%nat).
      { apply (ref_map _ _ Href), Hmax in Hp; [|apply prefix_take]. rewrite length_take in Hp. lia. }
      destruct (decide (j = length L)) as [->|]; [congruence|]. rewrite Hlater in He by lia. done.
    + rewrite Hno in He by lia. done.
  - destruct Hspec as [(j & p & Hj & _ & Hp & _)|[-> _]]; [|done].
    apply (ref_map _ _ Href), Hnone in Hp. destruct Hp. apply prefix_take.
Qed.

(** A prefix without bits beyond its length, as [EntriesForPeer] reports it. *)
Definition masked_prefix (pre : Prefix) : Prop :=
  valid_prefix pre ∧ node_ok (length (addr_bytes (prefix_addr pre))) (addr_bytes (prefix_addr pre), prefix_bits pre).

Lemma entries_loop_all l : entries_loop l (fun _ => true) = elem_prefix <$> l.
Proof. induction l as [|n l IH]; [done|]. simpl. by rewrite IH. Qed.
Lemma elem_prefix_bytes n : addr_len (length n.1) → addr_bytes (prefix_addr (elem_prefix n)) = n.1.
Proof. intros Hs. unfold elem_prefix. simpl. by destruct Hs as [-> | ->]. Qed.

Lemma EntriesForPeer_refines t m p :
  refines t m →
  NoDup (EntriesForPeer t p (fun _ => true)) ∧
  ∀ pre, pre ∈ EntriesForPeer t p (fun _ => true) ↔ masked_prefix pre ∧ m !! prefix_key pre = Some p.
Proof.
  intros Href. unfold EntriesForPeer. rewrite entries_loop_all.
  assert (Hlen : ∀ n, n ∈ entries_of (trieEntries t) p → addr_len (length n.1)).
  { intros n Hn. by destruct (listed_bound t m p n Href Hn) as (_ & ? & _). }
  split.
  - pose proof (ref_nodup _ _ Href p) as Hnd. revert Hlen. induction Hnd as [|n l Hn Hnd IH]; intros Hlen; [constructor|].
    rewrite fmap_cons. constructor; [|apply IH; intros; apply Hlen; by right].
    rewrite list_elem_of_fmap. intros (n' & He & Hn'). apply Hn.
    pose proof (f_equal (fun pre => (addr_bytes (prefix_addr pre), prefix_bits pre)) He) as Heq.
    cbv beta in Heq. rewrite !elem_prefix_bytes in Heq by (apply Hlen; rewrite elem_of_cons; tauto).
    simpl in Heq. destruct n, n'; simpl in *. by simplify_eq.
  - intros pre. rewrite list_elem_of_fmap. split.
    + intros (n & -> & Hn). destruct (listed_bound t m p n Href Hn) as (Hok & Hs & Hm).
      unfold prefix_key, masked_prefix. rewrite elem_prefix_bytes by done. destruct n as [b c]. split; [|done].
      split; [|done]. destruct Hok as [_ Hc _]; simpl in *.
      unfold valid_prefix, elem_prefix. simpl. destruct Hs as [Hs|Hs]; rewrite Hs in *; simpl; split; done || lia.
    + intros [[Hv Hok] Hm]. exists (addr_bytes (prefix_addr pre), prefix_bits pre). split.
      * unfold elem_prefix, valid_prefix in *. destruct pre as [[|a|a] c]; simpl in *; [done|..]; by destruct Hv as [-> _].
      * apply (ref_list _ _ Href). split; [done|]. by apply (ref_map _ _ Href).
Qed.

Lemma run_refines ops t m :
  refines t m → Forall aip_op_ok ops → ∃ t', run_table t ops = Ok t' ∧ refines t' (run_spec m ops).
Proof.
  intros Href Hops. revert t m Href. induction Hops as [|o ops Ho _ IH]; intros t m Href; [by exists t|].
  assert (Hstep : ∃ t1, step_table t o = Ok t1 ∧ refines t1 (step_spec m o)).
  { destruct o; simpl in *; [by apply Insert_refines|by apply Remove_refines|by apply RemoveByPeer_refines]. }
  destruct Hstep as (t1 & Hstep & Href1). cbn [run_table]. rewrite Hstep. by apply IH.
Qed.
End Table.
Arguments aip_op Peer : clear implicits.

(** C35: The allowed-IPs table implements longest-prefix matching: any history of
    [Insert], [Remove] and [RemoveByPeer] with valid prefixes, from the empty
    table, runs without a panic, and afterwards [Lookup] of every IPv4 or IPv6
    address returns the peer of the longest prefix that the history leaves bound. *)
Theorem allowedips_longest_prefix {Peer} `{Countable Peer} (ops : list (aip_op Peer)) :
  Forall aip_op_ok ops →
  ∃ table, run_table AllowedIPs_zero ops = Ok table ∧
    ∀ ip, addr_len (length ip) → Lookup table ip = Ok (spec_lookup (run_spec ∅ ops) ip).
Proof.
  intros Hops. destruct (run_refines ops _ _ refines_zero Hops) as (t & Ht & Href).
  exists t. split; [done|]. intros ip. by apply Lookup_refines.
Qed.

(** After any such history [EntriesForPeer] reports every prefix bound to the
    peer exactly once, and nothing else: the per-peer lists never hold a node that
    left the trie or changed owner. *)
Theorem allowedips_entries_exact {Peer} `{Countable Peer} (ops : list (aip_op Peer)) (p : Peer) :
  Forall aip_op_ok ops →
  ∃ table, run_table AllowedIPs_zero ops = Ok table ∧
    NoDup (EntriesForPeer table p (fun _ => true)) ∧
    ∀ pre, pre ∈ EntriesForPeer table p (fun _ => true) ↔
      masked_prefix pre ∧ run_spec ∅ ops !! prefix_key pre = Some p.
Proof.
  intros Hops. destruct (run_refines ops _ _ refines_zero Hops) as (t & Ht & Href).
  exists t. split; [done|]. by apply EntriesForPeer_refines.
Qed.

Module AllowedIPsDemo.
Definition v4 (a b c d : Z) : bytes := [z2b a; z2b b; z2b c; z2b d].
Definition pre4 (ip : bytes) (n : Z) : Prefix := {| prefix_addr := Addr4 ip; prefix_bits := n |}.
(** Peer 1 takes 10.0.0.0/8, peer 2 a subnet and a host, then the subnet moves to
    peer 1, peer 2 leaves and the host route returns to the wide prefix. *)
Definition ops : list (aip_op nat) :=
  [OpInsert (pre4 (v4 10 1 2 3) 8) 1%nat; OpInsert (pre4 (v4 10 5 0 0) 16) 2%nat;
   OpInsert (pre4 (v4 10 5 7 9) 32) 2%nat; OpInsert (pre4 (v4 192 168 0 0) 16) 3%nat;
   OpInsert (pre4 (v4 10 5 0 0) 16) 1%nat; OpRemove (pre4 (v4 192 168 0 0) 16) 1%nat; OpRemoveByPeer 2%nat].
Lemma ops_ok : Forall aip_op_ok ops.
Proof. repeat constructor; simpl; lia. Qed.
End AllowedIPsDemo.

Lemma allowedips_longest_prefix_witness :
  ∃ table, run_table AllowedIPs_zero AllowedIPsDemo.ops = Ok table ∧
    Lookup table (AllowedIPsDemo.v4 10 5 7 9) = Ok (Some 1%nat) ∧
    Lookup table (AllowedIPsDemo.v4 11 0 0 0) = Ok None.
Proof.
  destruct (allowedips_longest_prefix AllowedIPsDemo.ops AllowedIPsDemo.ops_ok) as (t & Ht & Hl).
  exists t. split; [exact Ht|]. split; (rewrite Hl; [vm_refl|by left]).
Defined.

Lemma allowedips_entries_exact_witness :
  ∃ table, run_table AllowedIPs_zero AllowedIPsDemo.ops = Ok table ∧
    AllowedIPsDemo.pre4 (AllowedIPsDemo.v4 10 0 0 0) 8 ∈ EntriesForPeer table 1%nat (fun _ => true).
Proof.
  destruct (allowedips_entries_exact AllowedIPsDemo.ops 1%nat AllowedIPsDemo.ops_ok) as (t & Ht & _ & Hl).
  exists t. split; [exact Ht|]. apply Hl. split; [|vm_refl].
  split; [split; [done|simpl; lia]|]. constructor; [done|simpl; lia|vm_refl].
Defined.
