(* ===== verification/Ratelimiter.v ===== *)
(** * The handshake rate limiter

    src/internal/device/wireguard-go/ratelimiter/ratelimiter.go: a token bucket
    per source address and its garbage collector.  A call of [Allow] or [cleanup]
    is one step; times are nanoseconds.  The collector's ticker is the flag
    [ticking]: a message on [stopReset] starts it, an empty table stops it. *)

From S2P Require Import Prelude.

Definition packetsPerSecond : Z := 20.
Definition packetsBurstable : Z := 5.
Definition garbageCollectTime : Z := 1000000000.
Definition packetCost : Z := 1000000000 / packetsPerSecond.
Definition maxTokens : Z := packetCost * packetsBurstable.

(** [time.Time.Sub] saturates at the range of a Duration. *)
Definition time_Sub (t u : Z) : Z := Z.max (- 2 ^ 63) (Z.min (2 ^ 63 - 1) (t - u)).

Record RatelimiterEntry := { lastTime : Z; tokens : Z }.

Section Ratelimiter.
Context {Addr : Type} `{Countable Addr}.

Record Ratelimiter := { table : gmap Addr RatelimiterEntry; ticking : bool }.

Definition Init : Ratelimiter := {| table := ∅; ticking := false |}.

Definition cleanup (rate : Ratelimiter) (now : Z) : Ratelimiter * bool :=
  let t := filter (fun kv => ¬ garbageCollectTime < time_Sub now (lastTime kv.2)) (table rate) in
  let empty := bool_decide (size t = 0%nat) in
  ({| table := t; ticking := if empty then false else ticking rate |}, empty).

Definition Allow (rate : Ratelimiter) (ip : Addr) (now : Z) : Ratelimiter * bool :=
  match table rate !! ip with
  | None =>
      let entry := {| lastTime := now; tokens := maxTokens - packetCost |} in
      let t := <[ip := entry]> (table rate) in
      ({| table := t; ticking := if bool_decide (size t = 1%nat) then true else ticking rate |}, true)
  | Some entry =>
      let tok := i64 (tokens entry + time_Sub now (lastTime entry)) in
      let tok := if maxTokens <? tok then maxTokens else tok in
      if packetCost <? tok then
        ({| table := <[ip := {| lastTime := now; tokens := tok - packetCost |}]> (table rate);
            ticking := ticking rate |}, true)
      else
        ({| table := <[ip := {| lastTime := now; tokens := tok |}]> (table rate); ticking := ticking rate |}, false)
  end.

(** ** Histories *)

Inductive rl_op := RAllow (ip : Addr) (now : Z) | RCleanup (now : Z).
Definition op_time (o : rl_op) : Z := match o with RAllow _ t | RCleanup t => t end.

Definition rl_step (rate : Ratelimiter) (o : rl_op) : Ratelimiter * bool :=
  match o with RAllow ip now => Allow rate ip now | RCleanup now => ((cleanup rate now).1, false) end.
Definition rl_run (rate : Ratelimiter) (ops : list rl_op) : Ratelimiter :=
  foldl (fun r o => (rl_step r o).1) rate ops.
(** The answers of the [Allow] calls, with and without collection. *)
Fixpoint answers (rate : Ratelimiter) (ops : list rl_op) : list bool :=
  match ops with
  | [] => []
  | RAllow ip now :: ops => let '(rate', b) := Allow rate ip now in b :: answers rate' ops
  | RCleanup now :: ops => answers (cleanup rate now).1 ops
  end.
Definition is_allow (o : rl_op) : bool := match o with RAllow _ _ => true | RCleanup _ => false end.
(** How many packets of [ip] pass. *)
Fixpoint passed (ip : Addr) (rate : Ratelimiter) (ops : list rl_op) : Z :=
  match ops with
  | [] => 0
  | o :: ops =>
      let '(rate', b) := rl_step rate o in
      (match o with RAllow ip' _ => if decide (ip' = ip) then Z.b2z b else 0 | RCleanup _ => 0 end) + passed ip rate' ops
  end.

(** The clock does not run backwards, and a history is shorter than 146 years. *)
Fixpoint times_from (t : Z) (ops : list rl_op) : Prop :=
  match ops with [] => True | o :: ops => t ≤ op_time o < 2 ^ 62 ∧ times_from (op_time o) ops end.
Fixpoint times_upto (t : Z) (ops : list rl_op) : Prop :=
  match ops with [] => True | o :: ops => op_time o ≤ t ∧ times_upto t ops end.

(** ** Invariant and potential *)

Definition rl_inv (now : Z) (rate : Ratelimiter) : Prop :=
  0 ≤ now < 2 ^ 62 ∧
  ∀ ip e, table rate !! ip = Some e → 0 < tokens e ≤ maxTokens ∧ 0 ≤ lastTime e ≤ now.

(** The tokens an address has at a time. *)
Definition potential (rate : Ratelimiter) (ip : Addr) (now : Z) : Z :=
  match table rate !! ip with
  | None => maxTokens
  | Some e => Z.min maxTokens (tokens e + (now - lastTime e))
  end.

Lemma time_Sub_small t u : 0 ≤ t < 2 ^ 62 → 0 ≤ u < 2 ^ 62 → time_Sub t u = t - u.
Proof. unfold time_Sub. lia. Qed.

(** [Allow] spends from the potential. *)
Lemma Allow_some rate ip now e :
  rl_inv now rate → table rate !! ip = Some e →
  Allow rate ip now =
    let tok := potential rate ip now in
    if packetCost <? tok
    then ({| table := <[ip := {| lastTime := now; tokens := tok - packetCost |}]> (table rate); ticking := ticking rate |}, true)
    else ({| table := <[ip := {| lastTime := now; tokens := tok |}]> (table rate); ticking := ticking rate |}, false).
Proof.
  intros [Hnow Hinv] He. destruct (Hinv ip e He) as [Htok Hlast].
  unfold Allow, potential. rewrite He, time_Sub_small by lia.
  change maxTokens with 250000000 in *. rewrite swrap_small by lia.
  destruct (Z.ltb_spec 250000000 (tokens e + (now - lastTime e))); [rewrite Z.min_l by lia|rewrite Z.min_r by lia]; done.
Qed.

Lemma Allow_inv rate ip now : rl_inv now rate → rl_inv now (Allow rate ip now).1.
Proof.
  intros Hi. pose proof Hi as [Hnow Hinv]. split; [done|]. intros ip' e'. destruct (table rate !! ip) as [e|] eqn:He.
  - rewrite (Allow_some rate ip now e Hi He). pose proof (Hinv ip e He) as [Htok Hlast]. cbv zeta.
    assert (Hpot : 0 < potential rate ip now ≤ maxTokens).
    { unfold potential. rewrite He. change maxTokens with 250000000 in *. lia. }
    change packetCost with 50000000. destruct (Z.ltb_spec 50000000 (potential rate ip now)); simpl;
      intros [[_ <-]|[_ He']]%lookup_insert_Some; simpl; try (by apply Hinv in He'); lia.
  - unfold Allow. rewrite He. simpl. intros [[_ <-]|[_ He']]%lookup_insert_Some; simpl; [|by apply Hinv in He'].
    change packetCost with 50000000. change maxTokens with 250000000. lia.
Qed.
Lemma cleanup_lookup rate now ip :
  rl_inv now rate →
  table (cleanup rate now).1 !! ip =
    e ← table rate !! ip; if decide (garbageCollectTime < now - lastTime e) then None else Some e.
Proof.
  intros [Hnow Hinv]. apply option_eq. intros e. simpl. rewrite map_lookup_filter_Some. simpl.
  destruct (table rate !! ip) as [e'|] eqn:He; simpl; [|naive_solver].
  destruct (Hinv ip e' He) as [_ Hl]. split.
  - intros [[= <-] Hc]. rewrite time_Sub_small in Hc by lia. by rewrite decide_False.
  - case_decide as Hc; [done|]. intros [= <-]. rewrite time_Sub_small by lia. done.
Qed.
Lemma cleanup_inv rate now : rl_inv now rate → rl_inv now (cleanup rate now).1.
Proof.
  intros Hi. pose proof Hi as [Hnow Hinv]. split; [done|]. intros ip e. rewrite cleanup_lookup by done.
  destruct (table rate !! ip) as [e'|] eqn:He; simpl; [|done]. case_decide; [done|]. intros [= <-]. by apply (Hinv ip).
Qed.
Lemma rl_step_inv rate o : rl_inv (op_time o) rate → rl_inv (op_time o) (rl_step rate o).1.
Proof. destruct o; [apply Allow_inv|apply cleanup_inv]. Qed.
Lemma rl_inv_later now now' rate : rl_inv now rate → now ≤ now' < 2 ^ 62 → rl_inv now' rate.
Proof. intros [Hnow Hinv] ?. split; [lia|]. intros ip e He. destruct (Hinv ip e He). lia. Qed.

Lemma potential_later rate ip now now' :
  rl_inv now rate → now ≤ now' → potential rate ip now' ≤ potential rate ip now + (now' - now) ∧ 0 ≤ potential rate ip now.
Proof.
  intros [Hnow Hinv] Hle. unfold potential. destruct (table rate !! ip) as [e|] eqn:He; [|change maxTokens with 250000000; lia].
  destruct (Hinv ip e He). change maxTokens with 250000000 in *. lia.
Qed.

(** Collecting an entry does not change what its address may send. *)
Lemma cleanup_potential rate ip now : rl_inv now rate → potential (cleanup rate now).1 ip now = potential rate ip now.
Proof.
  intros Hi. unfold potential. rewrite cleanup_lookup by done. destruct (table rate !! ip) as [e|] eqn:He; simpl; [|done].
  case_decide as Hc; [|done]. destruct (proj2 Hi ip e He). change garbageCollectTime with 1000000000 in Hc.
  change maxTokens with 250000000 in *. lia.
Qed.
(** Neither does a packet of another address; its own costs [packetCost]. *)
Lemma Allow_potential rate ip ip' now :
  rl_inv now rate →
  potential (Allow rate ip now).1 ip' now =
    potential rate ip' now - if decide (ip = ip') then packetCost * Z.b2z (Allow rate ip now).2 else 0.
Proof.
  intros Hi. destruct (table rate !! ip) as [e|] eqn:He.
  - rewrite (Allow_some rate ip now e Hi He). destruct (proj2 Hi ip e He).
    set (tok := potential rate ip now). cbv zeta.
    assert (Hpot : tok ≤ maxTokens) by (subst tok; unfold potential; rewrite He; lia).
    change packetCost with 50000000.
    destruct (Z.ltb_spec 50000000 tok); simpl; unfold potential at 1; simpl; case_decide; subst;
      rewrite ?lookup_insert_eq, ?lookup_insert_ne by done; simpl.
    all: try (fold tok); try (change maxTokens with 250000000 in *; lia); unfold potential; lia.
  - unfold Allow. rewrite He. unfold potential. simpl. case_decide; subst.
    + rewrite lookup_insert_eq, He. simpl. change packetCost with 50000000. change maxTokens with 250000000. lia.
    + rewrite lookup_insert_ne by done. lia.
Qed.

(** The answer depends on the potential only, and the potential grows with time. *)
Lemma Allow_answer rate ip now : rl_inv now rate → (Allow rate ip now).2 = (packetCost <? potential rate ip now).
Proof.
  intros Hi. destruct (table rate !! ip) as [e|] eqn:He.
  - rewrite (Allow_some rate ip now e Hi He). cbv zeta. by destruct (packetCost <? potential rate ip now).
  - unfold Allow, potential. by rewrite He.
Qed.
Lemma potential_shift rate ip now now' :
  rl_inv now rate → now ≤ now' → potential rate ip now' = Z.min maxTokens (potential rate ip now + (now' - now)).
Proof.
  intros [_ Hinv] Hle. unfold potential. destruct (table rate !! ip) as [e|] eqn:He; [destruct (Hinv ip e He)|]; lia.
Qed.

Lemma passed_potential ip t1 ops rate now :
  rl_inv now rate → times_from now ops → times_upto t1 ops → now ≤ t1 →
  packetCost * passed ip rate ops ≤ potential rate ip now + (t1 - now).
Proof.
  revert rate now. induction ops as [|o ops IH]; intros rate now Hi Hfrom Hupto Ht1.
  { simpl. destruct (potential_later rate ip now t1 Hi Ht1). lia. }
  destruct Hfrom as [Ho Hfrom], Hupto as [Ho1 Hupto].
  pose proof (rl_inv_later now (op_time o) rate Hi ltac:(lia)) as Hi'.
  destruct (potential_later rate ip now (op_time o) Hi ltac:(lia)) as [Hpot _].
  pose proof (IH _ _ (rl_step_inv rate o Hi') Hfrom Hupto ltac:(lia)) as Hrest.
  assert (Hstep : potential (rl_step rate o).1 ip (op_time o) = potential rate ip (op_time o) -
    packetCost * match o with RAllow ip' _ => if decide (ip' = ip) then Z.b2z (rl_step rate o).2 else 0 | RCleanup _ => 0 end).
  { destruct o as [ip' t|t]; cbn [rl_step op_time fst snd]; [rewrite Allow_potential by done; case_decide; lia|].
    rewrite cleanup_potential by done. lia. }
  cbn [passed]. destruct (rl_step rate o) as [rate' b]. cbn [fst snd] in *. lia.
Qed.

Lemma answers_potential ops r r' now :
  rl_inv now r → rl_inv now r' → (∀ ip, potential r ip now = potential r' ip now) → times_from now ops →
  answers r ops = answers r' (List.filter is_allow ops).
Proof.
  revert r r' now. induction ops as [|o ops IH]; intros r r' now Hi Hi' Hpot Hfrom; [done|].
  destruct Hfrom as [Ho Hfrom].
  pose proof (rl_inv_later now (op_time o) r Hi ltac:(lia)) as Hi1.
  pose proof (rl_inv_later now (op_time o) r' Hi' ltac:(lia)) as Hi1'.
  assert (Hpot1 : ∀ ip, potential r ip (op_time o) = potential r' ip (op_time o)).
  { intros ip. by rewrite (potential_shift r ip now), (potential_shift r' ip now), Hpot by (done || lia). }
  destruct o as [ip t|t]; cbn [List.filter is_allow answers op_time] in *.
  - pose proof (Allow_answer r ip t Hi1) as Ha. pose proof (Allow_answer r' ip t Hi1') as Ha'.
    assert (Hn : ∀ ip', potential (Allow r ip t).1 ip' t = potential (Allow r' ip t).1 ip' t).
    { intros ip'. by rewrite !Allow_potential, Hpot1, Ha, Ha', Hpot1 by done. }
    pose proof (Allow_inv r ip t Hi1) as Hn1. pose proof (Allow_inv r' ip t Hi1') as Hn1'.
    destruct (Allow r ip t) as [r1 b], (Allow r' ip t) as [r1' b']. cbn [fst snd] in *.
    rewrite Ha, Ha', Hpot1. f_equal. by apply (IH r1 r1' t).
  - apply (IH _ _ t); [by apply cleanup_inv|done| |done]. intros ip. by rewrite cleanup_potential.
Qed.

Lemma rl_inv_Init : rl_inv 0 Init.
Proof. split; [lia|]. intros ip e. simpl. by rewrite lookup_empty. Qed.
Lemma rl_run_inv ops rate now :
  rl_inv now rate → times_from now ops → ∃ now', rl_inv now' (rl_run rate ops) ∧ (∀ t, times_upto t ops → now ≤ t → now' ≤ t).
Proof.
  revert rate now. induction ops as [|o ops IH]; intros rate now Hi Hfrom; [by exists now|].
  destruct Hfrom as [Ho Hfrom]. pose proof (rl_step_inv rate o (rl_inv_later now (op_time o) rate Hi ltac:(lia))) as Hi'.
  destruct (IH _ _ Hi' Hfrom) as (now' & Hn & Hle). exists now'. split; [done|].
  intros t [Hot Hup] _. by apply Hle.
Qed.

(** The collector runs while there is something to collect. *)
Lemma rl_step_ticking rate o :
  (table rate ≠ ∅ → ticking rate = true) → table (rl_step rate o).1 ≠ ∅ → ticking (rl_step rate o).1 = true.
Proof.
  intros Ht. destruct o as [ip t|t]; cbn [rl_step].
  - unfold Allow. destruct (table rate !! ip) as [e|] eqn:He.
    + assert (table rate ≠ ∅) by (intros E; by rewrite E, lookup_empty in He).
      destruct (packetCost <? _); simpl; auto.
    + simpl. intros _. case_bool_decide as Hs; [done|]. apply Ht. intros E. apply Hs.
      rewrite E, map_size_insert_None by apply lookup_empty. by rewrite map_size_empty.
  - simpl. case_bool_decide as Hs; [by apply map_size_empty_iff in Hs|]. intros _. apply Ht. intros E. apply Hs.
    rewrite E, map_filter_empty. apply map_size_empty.
Qed.
End Ratelimiter.
Arguments rl_op Addr : clear implicits.


(** Garbage collection is unobservable: the answers of a history are those of
    the same history without its collections. *)
Theorem ratelimiter_cleanup_transparent {Addr} `{Countable Addr} (ops : list (rl_op Addr)) :
  times_from 0 ops → answers Init ops = answers Init (List.filter is_allow ops).
Proof. intros. by apply (answers_potential ops Init Init 0); [apply rl_inv_Init|apply rl_inv_Init|done|]. Qed.

Module RatelimiterDemo.
Definition ms : Z := 1000000.
Definition burst : list (rl_op nat) := (fun i => RAllow 7%nat (i * ms)) <$> [0; 1; 2; 3; 4; 5; 6].
Definition later : list (rl_op nat) :=
  [RAllow 7%nat (100 * ms); RAllow 8%nat (110 * ms); RCleanup (2000 * ms); RAllow 7%nat (2000 * ms)].
End RatelimiterDemo.

Lemma ratelimiter_cleanup_transparent_witness :
  answers Init (RatelimiterDemo.burst ++ RatelimiterDemo.later) = [true; true; true; true; true; false; false; true; true; true] ∧
  answers Init (RatelimiterDemo.burst ++ RatelimiterDemo.later) =
    answers Init (List.filter is_allow (RatelimiterDemo.burst ++ RatelimiterDemo.later)).
Proof.
  split; [vm_refl|]. apply ratelimiter_cleanup_transparent. vm_compute. repeat split; congruence.
Defined.
