(* ===== verification/WuspAssembly.v ===== *)
(** * Receiving WUSP messages over the encrypted transport

    src/internal/device/wireguard-go/device/wusp_fragments.go: the pending
    assemblies of fragmented WUSP messages with their byte budget per peer, and
    what the encrypted transport does to a datagram on the way (calculatePaddingSize
    of send.go: plaintexts are padded with zeros to a multiple of 16 and the
    receiver gets them padded).  An assembly is shared by pointer in the source;
    here every change of it is stored back into [pending]. *)

From S2P Require Import Prelude Wire Fragments.

Definition wuspFragmentAssemblyTTL : Z := 30 * 1000000000.
Definition maxWUSPFragmentBytesPerPeer : Z := 2 * MaxUSPControlMessageSize.
(** unsafe.Sizeof of USPControlFragment on a 64-bit platform. *)
Definition wuspFragmentSlotCost : Z := 48.

Definition zero_fragment : USPControlFragment := MkFragment 0 0 0 0 false [].
Definition slot_empty (f : USPControlFragment) : bool := (length (Data f) =? 0)%nat.

Record wuspFragmentAssembly := MkAssembly
  { updated : Z; fragments : list USPControlFragment; received : Z; abytes : Z }.

Section Assembly.
Context {Peer : Type} `{Countable Peer}.

Record WuspFragments := MkFrags
  { pending : gmap (Peer * Z) wuspFragmentAssembly; bytesByPeer : gmap Peer Z }.
Definition frags_empty : WuspFragments := MkFrags ∅ ∅.
Definition bytes_of (st : WuspFragments) (p : Peer) : Z := default 0 (bytesByPeer st !! p).

(** [assembly.bytes += n; bytesByPeer[peer] += n] *)
Definition chargeWUSPFragmentsLocked (st : WuspFragments) (key : Peer * Z) (a : wuspFragmentAssembly) (n : Z)
    : WuspFragments * wuspFragmentAssembly :=
  let a := MkAssembly (updated a) (fragments a) (received a) (abytes a + n) in
  (MkFrags (<[key := a]> (pending st)) (<[key.1 := bytes_of st key.1 + n]> (bytesByPeer st)), a).

Definition dropWUSPAssemblyLocked (st : WuspFragments) (key : Peer * Z) (a : wuspFragmentAssembly) : WuspFragments :=
  let remaining := bytes_of st key.1 - abytes a in
  MkFrags (delete key (pending st))
    (if remaining <=? 0 then delete key.1 (bytesByPeer st) else <[key.1 := remaining]> (bytesByPeer st)).

Definition pruneExpiredWUSPFragmentsLocked (st : WuspFragments) (now : Z) : WuspFragments :=
  foldr (fun '(key, a) st =>
      if wuspFragmentAssemblyTTL <? now - updated a then dropWUSPAssemblyLocked st key a else st)
    st (map_to_list (pending st)).

(** The part of consumeWUSPPayload after the assembly is found or made. *)
Definition add_fragment (st : WuspFragments) (key : Peer * Z) (a : wuspFragmentAssembly)
    (f : USPControlFragment) (now : Z) : WuspFragments * res werr (option bytes) :=
  if negb (Z.of_nat (length (fragments a)) =? Count f) then
    (dropWUSPAssemblyLocked st key a, Err (ErrTransportMalformed "mismatched control fragment count"))
  else
  match fragments a !! Z.to_nat (Index f) with
  | None => (st, Panic)
  | Some slot =>
      if slot_empty slot && (maxWUSPFragmentBytesPerPeer <? bytes_of st key.1 + Z.of_nat (length (Data f))) then
        (dropWUSPAssemblyLocked st key a, Err (ErrTransportMalformed "peer fragment buffer exceeded"))
      else
      let '(st, a) :=
        if slot_empty slot then
          chargeWUSPFragmentsLocked st key
            (MkAssembly (updated a) (<[Z.to_nat (Index f) := f]> (fragments a)) (u32 (received a + 1)) (abytes a))
            (Z.of_nat (length (Data f)))
        else (st, a) in
      let a := MkAssembly now (fragments a) (received a) (abytes a) in
      let st := MkFrags (<[key := a]> (pending st)) (bytesByPeer st) in
      if negb (received a =? Count f) then (st, Ok None)
      else (dropWUSPAssemblyLocked st key a, Some <$> ReassembleUSPControlFragments (fragments a))
  end.

(** The result: [Ok (Some payload)] is an assembled payload, [Ok None] that
    fragments are missing. *)
Definition consumeWUSPPayload (st : WuspFragments) (peer : Peer) (payload : bytes) (now : Z)
    : WuspFragments * res werr (option bytes) :=
  match DecodeUSPControlFragment payload with
  | Err e => (st, Err e)
  | Panic => (st, Panic)
  | Ok None => (st, Ok (Some payload))
  | Ok (Some f) =>
      let key := (peer, MessageID f) in
      let st := pruneExpiredWUSPFragmentsLocked st now in
      match pending st !! key with
      | Some a => add_fragment st key a f now
      | None =>
          let slots := Count f * wuspFragmentSlotCost in
          if maxWUSPFragmentBytesPerPeer <? bytes_of st peer + slots then
            (st, Err (ErrTransportMalformed "peer fragment buffer exceeded"))
          else
            let a := MkAssembly now (replicate (Z.to_nat (Count f)) zero_fragment) 0 0 in
            let '(st, a) := chargeWUSPFragmentsLocked st key a slots in
            add_fragment st key a f now
      end
  end.

(** ** Invariant *)

Definition data_size (fs : list USPControlFragment) : Z := foldr (fun f t => Z.of_nat (length (Data f)) + t) 0 fs.
Definition filled (fs : list USPControlFragment) : Z := foldr (fun f t => (if slot_empty f then 0 else 1) + t) 0 fs.

Record asm_ok (key : Peer * Z) (a : wuspFragmentAssembly) : Prop := {
  ao_len : 0 < Z.of_nat (length (fragments a)) ≤ MaxUSPControlFragmentCount;
  ao_slots : ∀ i f, fragments a !! i = Some f → slot_empty f = false →
    Index f = Z.of_nat i ∧ MessageID f = key.2 ∧ Count f = Z.of_nat (length (fragments a));
  ao_index : Forall (fun f => 0 ≤ Index f) (fragments a);
  ao_received : received a = filled (fragments a);
  ao_bytes : abytes a = wuspFragmentSlotCost * Z.of_nat (length (fragments a)) + data_size (fragments a);
}.

(** The bytes charged for a peer's assemblies. *)
Definition charge_of (p : Peer) (key : Peer * Z) (a : wuspFragmentAssembly) : Z :=
  if decide (key.1 = p) then abytes a else 0.
Definition charged (m : gmap (Peer * Z) wuspFragmentAssembly) (p : Peer) : Z :=
  map_fold (fun key a t => charge_of p key a + t) 0 m.

Record frags_ok (st : WuspFragments) : Prop := {
  fo_asm : ∀ key a, pending st !! key = Some a → asm_ok key a;
  fo_charged : ∀ p, bytes_of st p = charged (pending st) p;
  fo_budget : ∀ p, bytes_of st p ≤ maxWUSPFragmentBytesPerPeer;
}.

Lemma charged_insert_new m p key a : m !! key = None → charged (<[key := a]> m) p = charge_of p key a + charged m p.
Proof. intros Hn. unfold charged. rewrite map_fold_insert_L; [done| |done]. intros. lia. Qed.
Lemma charged_delete m p key a : m !! key = Some a → charged m p = charge_of p key a + charged (delete key m) p.
Proof. intros Ha. unfold charged. rewrite <- (map_fold_delete_L (fun key a t => charge_of p key a + t) 0 key a m); [done| |done]. intros. lia. Qed.
Lemma charged_update m p key a a' :
  m !! key = Some a → charged (<[key := a']> m) p = charged m p - charge_of p key a + charge_of p key a'.
Proof.
  intros Ha. rewrite (charged_delete m p key a Ha), <- insert_delete_eq, charged_insert_new by apply lookup_delete_eq. lia.
Qed.

Lemma data_size_nonneg fs : 0 ≤ data_size fs.
Proof. induction fs; simpl; lia. Qed.
Lemma asm_bytes_pos key a : asm_ok key a → 0 < abytes a.
Proof. intros [Hl _ _ _ ->]. pose proof (data_size_nonneg (fragments a)). unfold wuspFragmentSlotCost. lia. Qed.
Lemma charged_nonneg m p : (∀ key a, m !! key = Some a → 0 < abytes a) → 0 ≤ charged m p.
Proof.
  unfold charged. induction m as [|key a m Hn IH] using map_ind; intros Hp; [done|].
  rewrite map_fold_insert_L; [|intros; lia|done].
  assert (0 ≤ charge_of p key a) by (unfold charge_of; case_decide; [|lia]; specialize (Hp key a); rewrite lookup_insert_eq in Hp; specialize (Hp eq_refl); lia).
  assert (0 ≤ map_fold (fun key a t => charge_of p key a + t) 0 m); [|lia].
  apply IH. intros k b Hk. apply (Hp k). rewrite lookup_insert_ne; [done|]. intros ->. congruence.
Qed.

Lemma bytes_of_insert m b p q n : bytes_of (MkFrags m (<[p := n]> b)) q = if decide (p = q) then n else bytes_of (MkFrags m b) q.
Proof. unfold bytes_of; simpl. case_decide; subst; [by rewrite lookup_insert_eq|by rewrite lookup_insert_ne]. Qed.

(** Dropping an assembly returns its bytes to its peer. *)
Lemma drop_ok st key a :
  frags_ok st → pending st !! key = Some a →
  frags_ok (dropWUSPAssemblyLocked st key a) ∧
  pending (dropWUSPAssemblyLocked st key a) = delete key (pending st) ∧
  ∀ p, bytes_of (dropWUSPAssemblyLocked st key a) p = bytes_of st p - charge_of p key a.
Proof.
  intros [Hasm Hch Hbud] Ha.
  assert (Hpend : pending (dropWUSPAssemblyLocked st key a) = delete key (pending st)) by done.
  assert (Hnn : ∀ p, 0 ≤ charged (delete key (pending st)) p).
  { intros p. apply charged_nonneg. intros k b [_ Hk]%lookup_delete_Some. by apply (asm_bytes_pos k), Hasm. }
  assert (Hbytes : ∀ p, bytes_of (dropWUSPAssemblyLocked st key a) p = bytes_of st p - charge_of p key a).
  { intros p. pose proof (charged_delete _ p key a Ha) as Hd. rewrite <- Hch in Hd. specialize (Hnn p).
    unfold dropWUSPAssemblyLocked, bytes_of, charge_of in *. simpl.
    case_decide as Hp; [subst p|].
    - destruct (Z.leb_spec (default 0 (bytesByPeer st !! key.1) - abytes a) 0).
      + rewrite lookup_delete_eq. simpl. lia.
      + by rewrite lookup_insert_eq.
    - destruct (_ <=? 0); [rewrite lookup_delete_ne by done|rewrite lookup_insert_ne by done]; lia. }
  split; [|done]. constructor; rewrite ?Hpend.
  - intros k b [_ Hk]%lookup_delete_Some. by apply Hasm.
  - intros p. rewrite Hbytes, Hch, (charged_delete _ p key a Ha). lia.
  - intros p. rewrite Hbytes. specialize (Hbud p).
    assert (0 ≤ charge_of p key a); [|lia]. unfold charge_of. case_decide; [|lia].
    apply Hasm, asm_bytes_pos in Ha. lia.
Qed.

Lemma prune_fold st now l :
  frags_ok st → NoDup (l.*1) → (∀ key a, (key, a) ∈ l → pending st !! key = Some a) →
  let st' := foldr (fun '(key, a) st => if wuspFragmentAssemblyTTL <? now - updated a then dropWUSPAssemblyLocked st key a else st) st l in
  frags_ok st' ∧ (∀ p, bytes_of st' p ≤ bytes_of st p) ∧
  (∀ key, pending st' !! key = pending st !! key ∨ pending st' !! key = None) ∧
  ∀ key, (∀ a, (key, a) ∈ l → now - updated a ≤ wuspFragmentAssemblyTTL) → pending st' !! key = pending st !! key.
Proof.
  intros Hok. induction l as [|[key a] l IH]; intros Hnd Hin.
  { split_and!; [done|done|by left|done]. }
  rewrite fmap_cons in Hnd. apply NoDup_cons in Hnd as [Hk Hnd].
  destruct IH as (Hok' & Hle & Hsub & Hkeep); [done|intros; apply Hin; by right|].
  cbn [foldr]. set (st1 := foldr _ st l) in *. clearbody st1.
  destruct (Z.ltb_spec wuspFragmentAssemblyTTL (now - updated a)) as [Hexp|Hfresh]; [|].
  2:{ split_and!; [done|done|done|]. intros key' Hk'. apply Hkeep. intros b Hb. apply Hk'. by right. }
  assert (Ha : pending st1 !! key = Some a).
  { rewrite Hkeep; [apply Hin; by left|]. intros b Hb. destruct Hk. apply list_elem_of_fmap. by exists (key, b). }
  destruct (drop_ok st1 key a Hok' Ha) as (Hok2 & Hp & Hb). split_and!; [done| | |].
  - intros p. rewrite Hb. specialize (Hle p).
    assert (0 ≤ charge_of p key a); [|lia]. unfold charge_of. case_decide; [|lia].
    apply (fo_asm _ Hok'), asm_bytes_pos in Ha. lia.
  - intros key'. rewrite Hp. destruct (decide (key = key')) as [<-|Hne]; [right; apply lookup_delete_eq|].
    rewrite lookup_delete_ne by done. apply Hsub.
  - intros key' Hk'. rewrite Hp, lookup_delete_ne.
    + apply Hkeep. intros b Hb'. apply Hk'. by right.
    + intros <-. specialize (Hk' a ltac:(by left)). lia.
Qed.

Lemma prune_ok st now :
  frags_ok st →
  let st' := pruneExpiredWUSPFragmentsLocked st now in
  frags_ok st' ∧ (∀ p, bytes_of st' p ≤ bytes_of st p) ∧
  (∀ key, pending st' !! key = pending st !! key ∨ pending st' !! key = None) ∧
  ∀ key, (∀ a, pending st !! key = Some a → now - updated a ≤ wuspFragmentAssemblyTTL) →
    pending st' !! key = pending st !! key.
Proof.
  intros Hok. destruct (prune_fold st now (map_to_list (pending st)) Hok) as (H1 & H2 & H3 & H4).
  - apply NoDup_fst_map_to_list.
  - intros key a. by rewrite elem_of_map_to_list.
  - split_and!; [done..|]. intros key Hk. apply H4. intros a. rewrite elem_of_map_to_list. apply Hk.
Qed.

(** ** Fragments into slots *)

Lemma filled_le fs : 0 ≤ filled fs ≤ Z.of_nat (length fs).
Proof. induction fs as [|f fs IH]; simpl; [lia|]. destruct (slot_empty f); lia. Qed.
Lemma insert_slot fs i f g :
  fs !! i = Some g → slot_empty g = true → slot_empty f = false →
  filled (<[i := f]> fs) = filled fs + 1 ∧ data_size (<[i := f]> fs) = data_size fs + Z.of_nat (length (Data f)) ∧
  filled fs < Z.of_nat (length fs).
Proof.
  intros Hi Hg Hf. revert i Hi. induction fs as [|h fs IH]; intros [|i]; simpl; try done.
  - intros [= ->]. rewrite Hg, Hf. assert (length (Data g) = 0)%nat by by apply Nat.eqb_eq.
    pose proof (filled_le fs). lia.
  - intros Hi. destruct (IH i Hi) as (-> & -> & ?). destruct (slot_empty h); lia.
Qed.
Lemma replicate_slots n : filled (replicate n zero_fragment) = 0 ∧ data_size (replicate n zero_fragment) = 0.
Proof. induction n as [|n [IH1 IH2]]; [done|]. simpl. by rewrite IH1, IH2. Qed.

Lemma decode_valid payload f :
  DecodeUSPControlFragment payload = Ok (Some f) →
  validateUSPControlFragment f = Ok () ∧ 0 ≤ Index f < Count f ∧ Count f ≤ MaxUSPControlFragmentCount ∧ slot_empty f = false.
Proof.
  unfold DecodeUSPControlFragment. destruct payload as [|b payload]; [done|].
  destruct (negb _); [done|]. destruct (_ <? _); [done|]. destruct (negb _); [done|]. cbv zeta.
  match goal with |- context [validateUSPControlFragment ?f] => set (g := f) end.
  destruct (validateUSPControlFragment g) as [[]| |] eqn:Hv; simpl; [|done|done]. intros [= <-].
  pose proof (validate_ok_inv g Hv) as (_ & Hc & _ & Hd). split; [done|].
  assert (0 ≤ Index g) by (subst g; simpl; apply le_get_range). split; [lia|]. split; [lia|].
  unfold slot_empty. apply Nat.eqb_neq. by destruct (Data g).
Qed.

(** Storing a changed assembly back. *)
Lemma update_ok st key a a' n :
  frags_ok st → pending st !! key = Some a → asm_ok key a' → abytes a' = abytes a + n →
  bytes_of st key.1 + n ≤ maxWUSPFragmentBytesPerPeer →
  frags_ok (MkFrags (<[key := a']> (pending st)) (<[key.1 := bytes_of st key.1 + n]> (bytesByPeer st))).
Proof.
  intros [Hasm Hch Hbud] Ha Hok' Hn Hmax. destruct st as [m b]; simpl in *. constructor; simpl.
  - intros k c [[<- <-]|[_ Hk]]%lookup_insert_Some; [done|by apply Hasm].
  - intros p. rewrite bytes_of_insert, (charged_update _ p key a a' Ha), <- Hch.
    unfold charge_of. case_decide; subst; [lia|]. change (bytes_of (MkFrags m b) p = bytes_of (MkFrags m b) p - 0 + 0). lia.
  - intros p. rewrite bytes_of_insert. case_decide; [done|]. apply Hbud.
Qed.
Lemma touch_ok st key a a' :
  frags_ok st → pending st !! key = Some a → asm_ok key a' → abytes a' = abytes a →
  frags_ok (MkFrags (<[key := a']> (pending st)) (bytesByPeer st)).
Proof.
  intros [Hasm Hch Hbud] Ha Hok' Hn. constructor; simpl.
  - intros k c [[<- <-]|[_ Hk]]%lookup_insert_Some; [done|by apply Hasm].
  - intros p. rewrite (charged_update _ p key a a' Ha), <- Hch. unfold charge_of. rewrite Hn.
    unfold bytes_of; simpl. case_decide; lia.
  - done.
Qed.

Lemma asm_touch key a now : asm_ok key a → asm_ok key (MkAssembly now (fragments a) (received a) (abytes a)).
Proof. intros [? ? ? ? ?]. by constructor. Qed.
Lemma asm_store key a f g now :
  asm_ok key a → fragments a !! Z.to_nat (Index f) = Some g → slot_empty g = true → slot_empty f = false →
  0 ≤ Index f → MessageID f = key.2 → Count f = Z.of_nat (length (fragments a)) →
  asm_ok key (MkAssembly now (<[Z.to_nat (Index f) := f]> (fragments a)) (u32 (received a + 1))
                (abytes a + Z.of_nat (length (Data f)))).
Proof.
  intros [Hl Hs Hx Hr Hb] Hg Hge Hfe Hi Hm Hc. destruct (insert_slot _ _ f g Hg Hge Hfe) as (Hfil & Hds & Hlt).
  change MaxUSPControlFragmentCount with 65536 in *. pose proof (filled_le (fragments a)).
  constructor; simpl; rewrite ?length_insert.
  - done.
  - intros i h [(<- & <- & _)|[Hne Hh]]%list_lookup_insert_Some Hhe; [|by apply Hs].
    split; [lia|done].
  - by apply Forall_insert.
  - rewrite Hfil, Hr. apply wrap_small. lia.
  - rewrite Hds. lia.
Qed.

Lemma fmap_no_panic {E A B} (f : A → B) (m : res E A) : m ≠ Panic → f <$> m ≠ Panic.
Proof. by destruct m. Qed.

Lemma add_fragment_ok st key a f now :
  frags_ok st → pending st !! key = Some a →
  0 ≤ Index f < Count f → slot_empty f = false → MessageID f = key.2 →
  frags_ok (add_fragment st key a f now).1 ∧ (add_fragment st key a f now).2 ≠ Panic.
Proof.
  intros Hok Ha Hi Hfe Hm. pose proof (fo_asm _ Hok _ _ Ha) as Hao. unfold add_fragment.
  destruct (Z.eqb_spec (Z.of_nat (length (fragments a))) (Count f)) as [Hc|]; simpl; [|split; [by apply drop_ok|done]].
  destruct (lookup_lt_is_Some_2 (fragments a) (Z.to_nat (Index f))) as [g Hg]; [lia|]. rewrite Hg.
  assert (Hfin : ∀ st1 a1, frags_ok st1 → pending st1 !! key = Some a1 →
    let st2 := MkFrags (<[key := MkAssembly now (fragments a1) (received a1) (abytes a1)]> (pending st1)) (bytesByPeer st1) in
    frags_ok st2 ∧ frags_ok (dropWUSPAssemblyLocked st2 key (MkAssembly now (fragments a1) (received a1) (abytes a1)))).
  { intros st1 a1 Hok1 Ha1 st2. assert (Hok2 : frags_ok st2).
    { apply (touch_ok st1 key a1); [done|done| |done]. by apply asm_touch, (fo_asm _ Hok1). }
    split; [done|]. apply drop_ok; [done|]. apply lookup_insert_eq. }
  destruct (slot_empty g) eqn:Hge; cbn [andb].
  - destruct (Z.ltb_spec maxWUSPFragmentBytesPerPeer (bytes_of st key.1 + Z.of_nat (length (Data f)))) as [|Hmax];
      simpl; [split; [by apply drop_ok|done]|].
    pose proof (asm_store key a f g (updated a) Hao Hg Hge Hfe ltac:(lia) Hm ltac:(lia)) as Hao1.
    pose proof (update_ok st key a _ _ Hok Ha Hao1 eq_refl Hmax) as Hok1.
    destruct (Hfin _ _ Hok1 (lookup_insert_eq _ _ _)) as [H1 H2].
    destruct (negb _); simpl in *; [done|]. split; [done|]. apply fmap_no_panic, Reassemble_no_panic, Hao1.
  - destruct (Hfin st a Hok Ha) as [H1 H2]. destruct (negb _); simpl in *; [done|]. split; [done|]. apply fmap_no_panic, Reassemble_no_panic, Hao.
Qed.

(** A fresh assembly: its slots are charged to the peer. *)
Lemma fresh_ok st key f now :
  frags_ok st → pending st !! key = None → 0 < Count f ≤ MaxUSPControlFragmentCount →
  bytes_of st key.1 + Count f * wuspFragmentSlotCost ≤ maxWUSPFragmentBytesPerPeer →
  frags_ok (chargeWUSPFragmentsLocked st key (MkAssembly now (replicate (Z.to_nat (Count f)) zero_fragment) 0 0)
              (Count f * wuspFragmentSlotCost)).1.
Proof.
  intros [Hasm Hch Hbud] Hn Hc Hmax. destruct (replicate_slots (Z.to_nat (Count f))) as [Hf Hd].
  destruct st as [m b]. simpl in *. constructor; simpl.
  - intros k c [[<- <-]|[_ Hk]]%lookup_insert_Some; [|by apply Hasm].
    constructor; simpl; rewrite ?length_replicate, ?Hf, ?Hd; [lia| |by apply Forall_replicate|done|lia].
    intros i g [-> _]%lookup_replicate Hg. done.
  - intros p. rewrite bytes_of_insert, charged_insert_new, <- Hch by done. unfold charge_of. simpl. case_decide; subst; [lia|].
    change (bytes_of (MkFrags m b) p = 0 + bytes_of (MkFrags m b) p). lia.
  - intros p. rewrite bytes_of_insert. case_decide; [done|]. apply Hbud.
Qed.

Lemma consume_ok st p payload now :
  frags_ok st → frags_ok (consumeWUSPPayload st p payload now).1 ∧ (consumeWUSPPayload st p payload now).2 ≠ Panic.
Proof.
  intros Hok. unfold consumeWUSPPayload. destruct (DecodeUSPControlFragment payload) as [[f|]| |] eqn:Hd; [|done|done|].
  2:{ by apply Decode_no_panic in Hd. }
  destruct (decode_valid _ _ Hd) as (_ & Hi & Hc & Hfe).
  destruct (prune_ok st now Hok) as (Hok1 & _). set (st1 := pruneExpiredWUSPFragmentsLocked st now) in *. clearbody st1.
  destruct (pending st1 !! (p, MessageID f)) as [a|] eqn:Ha; [by apply add_fragment_ok|].
  destruct (Z.ltb_spec maxWUSPFragmentBytesPerPeer (bytes_of st1 p + Count f * wuspFragmentSlotCost)) as [|Hmax]; [done|].
  pose proof (fresh_ok st1 (p, MessageID f) f now Hok1 Ha ltac:(lia) Hmax) as Hok2.
  destruct (chargeWUSPFragmentsLocked _ _ _ _) as [st2 a2] eqn:E. simpl in Hok2.
  apply add_fragment_ok; [done| |done|done|done]. unfold chargeWUSPFragmentsLocked in E. injection E as <- <-. apply lookup_insert_eq.
Qed.

(** ** Traffic *)

Record event := MkEvent { ev_peer : Peer; ev_data : bytes; ev_time : Z }.
Fixpoint receive_all (st : WuspFragments) (evs : list event) : WuspFragments * list (Peer * res werr (option bytes)) :=
  match evs with
  | [] => (st, [])
  | e :: evs =>
      let '(st, r) := consumeWUSPPayload st (ev_peer e) (ev_data e) (ev_time e) in
      let '(st, rs) := receive_all st evs in (st, (ev_peer e, r) :: rs)
  end.

Lemma receive_all_ok evs st :
  frags_ok st → frags_ok (receive_all st evs).1 ∧ ∀ pr, pr ∈ (receive_all st evs).2 → pr.2 ≠ Panic.
Proof.
  revert st. induction evs as [|e evs IH]; intros st Hok; simpl.
  { split; [done|]. by intros ? ?%elem_of_nil. }
  destruct (consume_ok st (ev_peer e) (ev_data e) (ev_time e) Hok) as [Hok1 Hnp].
  destruct (consumeWUSPPayload st (ev_peer e) (ev_data e) (ev_time e)) as [st1 r]. simpl in *.
  destruct (IH st1 Hok1) as [Hok2 Hnp2]. destruct (receive_all st1 evs) as [st2 rs]. simpl in *.
  split; [done|]. intros pr [->|Hin]%elem_of_cons; [done|by apply Hnp2].
Qed.
Lemma frags_empty_ok : frags_ok frags_empty.
Proof.
  constructor; [intros key a; simpl; by rewrite lookup_empty| |].
  - intros p. unfold bytes_of, charged; simpl. by rewrite lookup_empty, map_fold_empty.
  - intros p. unfold bytes_of; simpl. rewrite lookup_empty. simpl. vm_compute. congruence.
Qed.

(** The packets of one peer, and what was returned for them. *)
Definition from_peer (p : Peer) (evs : list event) : list bytes :=
  ev_data <$> List.filter (fun e => bool_decide (ev_peer e = p)) evs.
Definition results_for (p : Peer) (rs : list (Peer * res werr (option bytes))) : list (res werr (option bytes)) :=
  snd <$> List.filter (fun pr => bool_decide (pr.1 = p)) rs.

Lemma results_cons_own p r rs : results_for p ((p, r) :: rs) = r :: results_for p rs.
Proof. unfold results_for. cbn [List.filter fst]. by rewrite bool_decide_true. Qed.
Lemma results_cons_other p q r rs : q ≠ p → results_for p ((q, r) :: rs) = results_for p rs.
Proof. intros. unfold results_for. cbn [List.filter fst]. by rewrite bool_decide_false. Qed.
Lemma results_none p evs st : from_peer p evs = [] → results_for p (receive_all st evs).2 = [].
Proof.
  revert st. induction evs as [|e evs IH]; intros st; [done|]. unfold from_peer. cbn [List.filter receive_all].
  case_bool_decide as Hp; [done|]. intros Hev. destruct (consumeWUSPPayload _ _ _ _) as [st1 r].
  specialize (IH st1 Hev). destruct (receive_all st1 evs). cbn [snd] in *. by rewrite results_cons_other.
Qed.

(** ** Delivery of one message *)

(** An operation on another key leaves a key's assembly and another peer's
    account alone. *)
Lemma drop_frame st key a k p :
  (k ≠ key → pending (dropWUSPAssemblyLocked st key a) !! k = pending st !! k) ∧
  (key.1 ≠ p → bytes_of (dropWUSPAssemblyLocked st key a) p = bytes_of st p).
Proof.
  split; intros Hne; simpl; [by apply lookup_delete_ne|].
  unfold bytes_of; simpl. destruct (_ <=? 0); [by rewrite lookup_delete_ne|by rewrite lookup_insert_ne].
Qed.
Lemma add_fragment_frame st key a f now k p :
  k ≠ key → key.1 ≠ p →
  pending (add_fragment st key a f now).1 !! k = pending st !! k ∧ bytes_of (add_fragment st key a f now).1 p = bytes_of st p.
Proof.
  intros Hk Hp. unfold add_fragment.
  destruct (negb _); [split; by apply drop_frame|]. destruct (fragments a !! _) as [g|]; [|done].
  destruct (slot_empty g); cbn [andb].
  - destruct (_ <? _); [split; by apply drop_frame|]. cbn [chargeWUSPFragmentsLocked]. cbv zeta.
    destruct (negb _); cbn [fst].
    + split; simpl; [by rewrite !lookup_insert_ne|]. destruct st as [m b]. rewrite bytes_of_insert. by rewrite decide_False.
    + destruct (drop_frame (MkFrags (<[key := MkAssembly now (<[Z.to_nat (Index f) := f]> (fragments a)) (u32 (received a + 1)) (abytes a + Z.of_nat (length (Data f)))]>
         (<[key := MkAssembly (updated a) (<[Z.to_nat (Index f) := f]> (fragments a)) (u32 (received a + 1)) (abytes a + Z.of_nat (length (Data f)))]> (pending st)))
         (<[key.1 := bytes_of st key.1 + Z.of_nat (length (Data f))]> (bytesByPeer st))) key
         (MkAssembly now (<[Z.to_nat (Index f) := f]> (fragments a)) (u32 (received a + 1)) (abytes a + Z.of_nat (length (Data f)))) k p) as [H1 H2].
      split; [etransitivity; [by apply H1|]; simpl; by rewrite !lookup_insert_ne|].
      etransitivity; [by apply H2|]. destruct st as [m b]. rewrite bytes_of_insert. by rewrite decide_False.
  - cbv zeta. destruct (negb _); cbn [fst].
    + split; simpl; [by rewrite !lookup_insert_ne|done].
    + match goal with |- context [dropWUSPAssemblyLocked ?s key ?b] => destruct (drop_frame s key b k p) as [H1 H2] end.
      split; [etransitivity; [by apply H1|]; simpl; by rewrite !lookup_insert_ne|]. etransitivity; [by apply H2|]. done.
Qed.

Lemma length_concat_data (fs : list USPControlFragment) : Z.of_nat (length (concat (Data <$> fs))) = data_size fs.
Proof. induction fs as [|f fs IH]; [done|]. rewrite fmap_cons. cbn [concat data_size foldr]. unfold data_size in IH. rewrite length_app. lia. Qed.

Section Deliver.
Context (p : Peer) (id : Z) (n : nat) (g : nat → USPControlFragment) (enc : nat → bytes).
Context (t0 base : Z).
Context (Hn : (0 < n)%nat) (Hn16 : Z.of_nat n ≤ MaxUSPControlFragmentCount).
Context (Hg : ∀ i, (i < n)%nat → frag_ok (g i) ∧ Index (g i) = Z.of_nat i ∧ MessageID (g i) = id ∧
  Count (g i) = Z.of_nat n ∧ Compressed (g i) = false ∧ RawSize (g i) = 0).
Context (Henc : ∀ i, (i < n)%nat → DecodeUSPControlFragment (enc i) = Ok (Some (g i))).
Context (Hsize : data_size (g <$> seq 0 n) ≤ MaxUSPControlMessageSize).
Context (Hroom : base + wuspFragmentSlotCost * Z.of_nat n + data_size (g <$> seq 0 n) ≤ maxWUSPFragmentBytesPerPeer).

Definition slots_of (got : gset nat) : list USPControlFragment :=
  (fun i => if decide (i ∈ got) then g i else zero_fragment) <$> seq 0 n.

Lemma frag_nonempty i : (i < n)%nat → slot_empty (g i) = false.
Proof. intros Hi. destruct (Hg i Hi) as ((_ & _ & _ & _ & Hd & _) & _). unfold slot_empty. apply Nat.eqb_neq. by destruct (Data (g i)). Qed.
Lemma slots_of_lookup got i :
  (i < n)%nat → slots_of got !! i = Some (if decide (i ∈ got) then g i else zero_fragment).
Proof. intros Hi. unfold slots_of. rewrite list_lookup_fmap, lookup_seq_lt by done. done. Qed.
Lemma length_slots_of got : length (slots_of got) = n.
Proof. unfold slots_of. by rewrite length_fmap, length_seq. Qed.
Lemma slots_of_insert got i : (i < n)%nat → <[i := g i]> (slots_of got) = slots_of ({[i]} ∪ got).
Proof.
  intros Hi. apply list_eq. intros j. destruct (decide (j < n)%nat) as [Hj|Hj].
  - rewrite slots_of_lookup by done. destruct (decide (i = j)) as [->|Hne].
    + rewrite list_lookup_insert_eq by (by rewrite length_slots_of). rewrite decide_True by set_solver. done.
    + rewrite list_lookup_insert_ne, slots_of_lookup by done. f_equal.
      destruct (decide (j ∈ got)), (decide (j ∈ {[i]} ∪ got)); set_solver.
  - rewrite !lookup_ge_None_2; rewrite ?length_insert, ?length_slots_of; lia || done.
Qed.
Lemma slots_of_all got : (∀ i, (i < n)%nat → i ∈ got) → slots_of got = g <$> seq 0 n.
Proof. intros Hall. apply list_fmap_ext. intros j i Hj. apply lookup_seq in Hj as [-> ?]. rewrite decide_True; [done|]. apply Hall. lia. Qed.
Lemma slots_of_empty : slots_of ∅ = replicate n zero_fragment.
Proof.
  unfold slots_of. symmetry. apply replicate_as_elem_of. split; [by rewrite length_fmap, length_seq|].
  intros f (i & -> & _)%list_elem_of_fmap. rewrite decide_False; [done|set_solver].
Qed.
(** One fragment more. *)
Lemma slots_of_step got i :
  (i < n)%nat → i ∉ got →
  filled (slots_of ({[i]} ∪ got)) = filled (slots_of got) + 1 ∧
  data_size (slots_of ({[i]} ∪ got)) = data_size (slots_of got) + Z.of_nat (length (Data (g i))).
Proof.
  intros Hi Hni. rewrite <- slots_of_insert by done.
  destruct (insert_slot (slots_of got) i (g i) zero_fragment) as (H1 & H2 & _); [|done|by apply frag_nonempty|done].
  rewrite slots_of_lookup, decide_False by done. done.
Qed.
Lemma filled_slots got : (∀ i, i ∈ got → (i < n)%nat) → filled (slots_of got) = Z.of_nat (size got).
Proof.
  induction got as [|i got Hi IH] using set_ind_L; intros Hlt.
  - rewrite slots_of_empty, size_empty. apply replicate_slots.
  - rewrite (proj1 (slots_of_step got i ltac:(apply Hlt; set_solver) Hi)), IH by set_solver.
    rewrite size_union, size_singleton by set_solver. lia.
Qed.
Lemma data_slots_le got : data_size (slots_of got) ≤ data_size (g <$> seq 0 n).
Proof.
  clear Hsize Hroom. unfold slots_of. induction (seq 0 n) as [|i l IH]; [done|]. rewrite !fmap_cons. cbn [data_size foldr].
  unfold data_size in IH. case_decide; simpl; lia.
Qed.
Lemma complete_iff (got : gset nat) :
  (∀ i, i ∈ got → (i < n)%nat) → size got = n → ∀ i, (i < n)%nat → i ∈ got.
Proof.
  intros Hlt Hsz i Hi. destruct (decide (i ∈ got)) as [|Hni]; [done|exfalso].
  assert (Hsub : {[i]} ∪ got ⊆ list_to_set (C := gset nat) (seq 0 n)).
  { intros j. rewrite elem_of_list_to_set, elem_of_seq, elem_of_union, elem_of_singleton. intros [->|Hj%Hlt]; lia. }
  apply subseteq_size in Hsub. rewrite size_list_to_set, length_seq in Hsub by apply NoDup_seq.
  assert (size ({[i]} ∪ got) = S (size got)); [|lia].
  rewrite size_union, size_singleton; [done|]. intros j. rewrite elem_of_singleton. by intros ->.
Qed.

(** What is known of the state while fragments [got] of the message are in. *)
Record mid (got : gset nat) (st : WuspFragments) : Prop := {
  mid_ok : frags_ok st;
  mid_lt : ∀ i, i ∈ got → (i < n)%nat;
  mid_pending : if decide (got = ∅) then pending st !! (p, id) = None
    else ∃ a, pending st !! (p, id) = Some a ∧ fragments a = slots_of got ∧ t0 ≤ updated a;
  mid_bytes : bytes_of st p ≤ base + if decide (got = ∅) then 0 else wuspFragmentSlotCost * Z.of_nat n + data_size (slots_of got);
}.

Lemma mid_prune got st now :
  mid got st → now ≤ t0 + wuspFragmentAssemblyTTL → mid got (pruneExpiredWUSPFragmentsLocked st now).
Proof.
  intros [Hok Hlt Hp Hb] Hnow. destruct (prune_ok st now Hok) as (Hok1 & Hle & _ & Hkeep).
  constructor; [done|done| |].
  - rewrite Hkeep; [done|]. intros a Ha. case_decide; [congruence|].
    destruct Hp as (a' & Ha' & _ & Hu). rewrite Ha in Ha'. injection Ha' as <-. lia.
  - specialize (Hle p). case_decide; lia.
Qed.

(** Other peers' packets do not disturb it. *)
Lemma mid_other got st q data now :
  mid got st → q ≠ p → now ≤ t0 + wuspFragmentAssemblyTTL → mid got (consumeWUSPPayload st q data now).1.
Proof.
  intros Hmid Hq Hnow. pose proof (consume_ok st q data now (mid_ok _ _ Hmid)) as [Hok' _]. revert Hok'.
  unfold consumeWUSPPayload. destruct (DecodeUSPControlFragment data) as [[f|]| |]; [|done|done|done].
  pose proof (mid_prune got st now Hmid Hnow) as Hmid1. set (st1 := pruneExpiredWUSPFragmentsLocked st now) in *. clearbody st1.
  assert (Hk : (p, id) ≠ (q, MessageID f)) by congruence.
  assert (Hframe : ∀ st2, frags_ok st2 → pending st2 !! (p, id) = pending st1 !! (p, id) → bytes_of st2 p = bytes_of st1 p → mid got st2).
  { intros st2 H2 Hp Hb. destruct Hmid1 as [_ Hlt Hp1 Hb1]. constructor; rewrite ?Hp, ?Hb; done. }
  cbv zeta. destruct (pending st1 !! (q, MessageID f)) as [a|] eqn:Ha.
  - intros Hok'. destruct (add_fragment_frame st1 (q, MessageID f) a f now (p, id) p Hk Hq) as [H1 H2]. by apply Hframe.
  - destruct (_ <? _); [done|]. unfold chargeWUSPFragmentsLocked. cbv zeta. intros Hok'.
    match goal with |- context [add_fragment ?s ?k ?a f now] =>
      destruct (add_fragment_frame s k a f now (p, id) p Hk Hq) as [H1 H2] end.
    apply Hframe; [done|rewrite H1; simpl; by rewrite lookup_insert_ne|].
    rewrite H2. destruct st1 as [m b]. rewrite bytes_of_insert. by rewrite decide_False.
Qed.

(** A fragment of the message into its assembly. *)
Lemma add_own got st a i now :
  frags_ok st → (∀ j, j ∈ got → (j < n)%nat) → (∃ j, (j < n)%nat ∧ j ∉ got) →
  pending st !! (p, id) = Some a → fragments a = slots_of got →
  bytes_of st p ≤ base + wuspFragmentSlotCost * Z.of_nat n + data_size (slots_of got) →
  (i < n)%nat → t0 ≤ now →
  let '(st', r) := add_fragment st (p, id) a (g i) now in
  if decide (size ({[i]} ∪ got) = n) then r = Ok (Some (concat ((Data ∘ g) <$> seq 0 n)))
  else r = Ok None ∧ mid ({[i]} ∪ got) st'.
Proof.
  intros Hok Hlt Hmiss Ha Hfr Hb Hi Hnow. pose proof (fo_asm _ Hok _ _ Ha) as Hao.
  destruct (Hg i Hi) as (_ & Hix & Hid & Hcnt & _ & _). pose proof (frag_nonempty i Hi) as Hne.
  destruct (add_fragment_ok st (p, id) a (g i) now Hok Ha ltac:(lia) Hne Hid) as [Hok' _].
  revert Hok'. unfold add_fragment. rewrite Hfr, length_slots_of, Hcnt, Z.eqb_refl. cbn [negb].
  rewrite Hix, Nat2Z.id, slots_of_lookup by done.
  assert (Hrec : received a = Z.of_nat (size got)) by (rewrite (ao_received _ _ Hao), Hfr; by apply filled_slots).
  destruct (decide (i ∈ got)) as [Hin|Hni].
  - rewrite Hne. cbn [andb]. cbv beta iota zeta. cbn [received fragments updated abytes]. rewrite Hrec.
    replace ({[i]} ∪ got) with got by set_solver.
    assert (Hsz : size got ≠ n).
    { intros Hsz. destruct Hmiss as (j & Hj & Hnj). apply Hnj. by apply (complete_iff got). }
    destruct (Z.eqb_spec (Z.of_nat (size got)) (Z.of_nat n)); [lia|]. cbn [negb fst]. intros Hok'.
    rewrite decide_False by done. split; [done|]. assert (got ≠ ∅) by set_solver.
    constructor; [done|done| |]; rewrite decide_False by done.
    + eexists. split; [apply lookup_insert_eq|done].
    + change (bytes_of st p ≤ base + (wuspFragmentSlotCost * Z.of_nat n + data_size (slots_of got))). lia.
  - cbn [andb slot_empty zero_fragment Data length Nat.eqb]. change (slot_empty zero_fragment) with true. cbn [andb fst].
    pose proof (slots_of_step got i Hi Hni) as [Hfil Hds]. pose proof (data_slots_le ({[i]} ∪ got)) as Hdle.
    destruct (Z.ltb_spec maxWUSPFragmentBytesPerPeer (bytes_of st p + Z.of_nat (length (Data (g i))))) as [|_]; [lia|].
    unfold chargeWUSPFragmentsLocked. cbv beta iota zeta. cbn [received fragments updated abytes fst snd].
    rewrite slots_of_insert by done.
    assert (Hlt' : ∀ j, j ∈ {[i]} ∪ got → (j < n)%nat) by set_solver.
    pose proof (filled_slots _ Hlt') as Hfs. rewrite Hfil, (filled_slots got Hlt) in Hfs.
    assert (Hle : (size ({[i]} ∪ got) ≤ n)%nat).
    { pose proof (filled_le (slots_of ({[i]} ∪ got))) as Hf. rewrite (filled_slots _ Hlt'), length_slots_of in Hf. lia. }
    change MaxUSPControlFragmentCount with 65536 in Hn16. rewrite Hrec, wrap_small by lia. rewrite Hfs.
    destruct (Z.eqb_spec (Z.of_nat (size ({[i]} ∪ got))) (Z.of_nat n)) as [Hfull|Hpart]; cbn [negb fst]; intros Hok'.
    + rewrite decide_True by lia. rewrite slots_of_all by (apply complete_iff; [done|lia]).
      rewrite (Reassemble_any_order g n (seq 0 n)); [done|done|lia| |done|].
      * intros j Hj. destruct (Hg j Hj) as (? & ? & -> & ? & ? & ?), (Hg 0%nat Hn) as (_ & _ & -> & _). done.
      * change MaxUSPControlMessageSize with 16777216 in *. rewrite list_fmap_compose, length_concat_data. done.
    + rewrite decide_False by lia. split; [done|]. assert ({[i]} ∪ got ≠ ∅) by set_solver.
      constructor; [done|done| |]; rewrite decide_False by done.
      * eexists. split; [apply lookup_insert_eq|done].
      * destruct st as [m b]. cbn [bytesByPeer pending]. rewrite bytes_of_insert, decide_True by done. rewrite Hds. lia.
Qed.

(** The next fragment of the message arrives. *)
Lemma mid_own got st i now :
  mid got st → (∃ j, (j < n)%nat ∧ j ∉ got) → (i < n)%nat → t0 ≤ now ≤ t0 + wuspFragmentAssemblyTTL →
  let '(st', r) := consumeWUSPPayload st p (enc i) now in
  if decide (size ({[i]} ∪ got) = n) then r = Ok (Some (concat ((Data ∘ g) <$> seq 0 n)))
  else r = Ok None ∧ mid ({[i]} ∪ got) st'.
Proof.
  intros Hmid Hmiss Hi Hnow. unfold consumeWUSPPayload. rewrite Henc by done.
  pose proof (mid_prune got st now Hmid ltac:(lia)) as [Hok Hlt Hp Hb].
  set (st1 := pruneExpiredWUSPFragmentsLocked st now) in *. clearbody st1. cbv zeta.
  destruct (Hg i Hi) as (_ & _ & Hid & Hcnt & _ & _). rewrite Hid, Hcnt.
  destruct (decide (got = ∅)) as [->|Hgot].
  - rewrite Hp. pose proof (data_size_nonneg (g <$> seq 0 n)).
    destruct (Z.ltb_spec maxWUSPFragmentBytesPerPeer (bytes_of st1 p + Z.of_nat n * wuspFragmentSlotCost)) as [|Hmax]; [lia|].
    pose proof (fresh_ok st1 (p, id) (g i) now Hok Hp ltac:(rewrite Hcnt; change MaxUSPControlFragmentCount with 65536 in *; lia)
      ltac:(rewrite Hcnt; exact Hmax)) as Hok2. rewrite Hcnt, Nat2Z.id in Hok2. rewrite Nat2Z.id.
    unfold chargeWUSPFragmentsLocked in Hok2 |- *. cbv beta iota zeta in Hok2 |- *. cbn [fst updated fragments received abytes] in Hok2 |- *.
    apply add_own; [done|done|done|apply lookup_insert_eq|by rewrite slots_of_empty| |done|lia].
    destruct st1 as [m b]. rewrite bytes_of_insert, decide_True by done.
    pose proof (data_size_nonneg (slots_of ∅)). lia.
  - destruct Hp as (a & Ha & Hfr & _). rewrite Ha. apply add_own; [done..|lia|done|lia].
Qed.

Lemma deliver_events evs pre l got st :
  mid got st → (∀ i, i ∈ pre → (i < n)%nat) → (l < n)%nat → l ∉ got → l ∉ pre →
  (∀ i, (i < n)%nat → i ∈ got ∨ i ∈ pre ∨ i = l) →
  from_peer p evs = (enc <$> pre) ++ [enc l] →
  Forall (fun e => t0 ≤ ev_time e ≤ t0 + wuspFragmentAssemblyTTL) evs →
  results_for p (receive_all st evs).2 = replicate (length pre) (Ok None) ++ [Ok (Some (concat ((Data ∘ g) <$> seq 0 n)))].
Proof.
  intros Hmid Hpre Hl Hlg Hlp Hall Hev Htimes. revert pre got st Hmid Hpre Hlg Hlp Hall Hev.
  induction Htimes as [|[q data now] evs Hnow _ IH]; intros pre got st Hmid Hpre Hlg Hlp Hall Hev; [by destruct pre|].
  cbn [receive_all ev_peer ev_data ev_time] in Hnow |- *. unfold from_peer in Hev. cbn [List.filter ev_peer] in Hev.
  destruct (decide (q = p)) as [->|Hq].
  - rewrite bool_decide_true, fmap_cons in Hev by done. cbn [ev_data] in Hev.
    destruct pre as [|i pre]; cbn [fmap list_fmap app] in Hev; injection Hev as -> Hev.
    + pose proof (mid_own got st l now Hmid ltac:(eauto) Hl Hnow) as Hstep.
      destruct (consumeWUSPPayload st p (enc l) now) as [st' r].
      rewrite decide_True in Hstep.
      2:{ assert (Heq : {[l]} ∪ got = list_to_set (seq 0 n)).
          { apply set_eq. intros j. rewrite elem_of_list_to_set, elem_of_seq, elem_of_union, elem_of_singleton.
            split; [intros [->|Hj%(mid_lt _ _ Hmid)]; lia|]. intros [_ Hj]. destruct (Hall j ltac:(lia)) as [?|[Hj'|?]]; auto.
            by apply elem_of_nil in Hj'. }
          rewrite Heq, size_list_to_set by apply NoDup_seq. apply length_seq. }
      subst r. pose proof (results_none p evs st' Hev) as Hnone.
      destruct (receive_all st' evs) as [st2 rs]. cbn [snd] in *. rewrite results_cons_own, Hnone. done.
    + pose proof (mid_own got st i now Hmid ltac:(eauto) ltac:(apply Hpre; by left) Hnow) as Hstep.
      destruct (consumeWUSPPayload st p (enc i) now) as [st' r].
      assert (Hli : l ∉ {[i]} ∪ got).
      { rewrite elem_of_union, elem_of_singleton. intros [->|?]; [|done]. apply Hlp. by left. }
      rewrite decide_False in Hstep.
      2:{ intros Hsz. apply Hli, (complete_iff ({[i]} ∪ got)); [|done|done].
          intros j [->%elem_of_singleton|Hj]%elem_of_union; [apply Hpre; by left|by apply (mid_lt _ _ Hmid)]. }
      destruct Hstep as [-> Hmid'].
      specialize (IH pre _ st' Hmid' ltac:(intros; apply Hpre; by right) Hli ltac:(intros ?; apply Hlp; by right)).
      cbn [length replicate app]. rewrite <- IH; [|intros j Hj; destruct (Hall j Hj) as [?|[[->|?]%elem_of_cons|?]]; set_solver|done].
      destruct (receive_all st' evs) as [st2 rs]. cbn [snd] in *. by rewrite results_cons_own.
  - rewrite bool_decide_false in Hev by done.
    pose proof (mid_other got st q data now Hmid Hq ltac:(lia)) as Hmid'.
    destruct (consumeWUSPPayload st q data now) as [st' r]. cbn [fst] in Hmid'.
    rewrite <- (IH pre got st' Hmid' Hpre Hlg Hlp Hall Hev).
    destruct (receive_all st' evs) as [st2 rs]. cbn [snd]. by rewrite results_cons_other.
Qed.
End Deliver.
End Assembly.
Arguments event Peer : clear implicits.
Arguments WuspFragments Peer {_ _}.
