(* ===== verification/WuspTransport.v ===== *)
(** * WUSP messages over the encrypted transport, end to end

    Composition of [Fragments] (the sender), the transport's padding
    (calculatePaddingSize and RoutineEncryption of
    src/internal/device/wireguard-go/device/send.go) and [WuspAssembly] (the
    receiver).  The receiver sees each datagram with its padding: the fragment
    header has no length field, so what a fragment gains in zeros stays in its
    data.  With a datagram budget that is a multiple of the padding unit only the
    last fragment is padded, and the message arrives followed by fewer than 16
    zeros, which the request and response decoders accept; with another budget
    the zeros land inside the message. *)

From S2P Require Import Prelude Wire Fragments Transport Request WuspAssembly.

Definition PaddingMultiple : Z := 16.

Definition calculatePaddingSize (packetSize mtu : Z) : Z :=
  let lastUnit := packetSize in
  if mtu =? 0 then Z.land (lastUnit + PaddingMultiple - 1) (Z.lnot (PaddingMultiple - 1)) - lastUnit else
  let lastUnit := if mtu <? lastUnit then Z.rem lastUnit mtu else lastUnit in
  let paddedSize := Z.land (lastUnit + PaddingMultiple - 1) (Z.lnot (PaddingMultiple - 1)) in
  let paddedSize := if mtu <? paddedSize then mtu else paddedSize in
  paddedSize - lastUnit.

(** The plaintext the receiver decrypts for a staged packet. *)
Definition transported (mtu : Z) (packet : bytes) : bytes :=
  packet ++ replicate (Z.to_nat (calculatePaddingSize (Z.of_nat (length packet)) mtu)) (z2b 0).

Lemma land_lnot_15 x : 0 ≤ x → Z.land x (Z.lnot 15) = x / 16 * 16.
Proof.
  intros Hx. change 15 with (Z.ones 4). rewrite <- Z.ldiff_land, Z.ldiff_ones_r, Z.shiftl_mul_pow2, Z.shiftr_div_pow2 by lia. done.
Qed.

(** Within the MTU the padding completes a unit of 16. *)
Lemma calculatePaddingSize_spec len budget mtu :
  0 ≤ len ≤ budget → budget mod 16 = 0 → mtu = 0 ∨ budget ≤ mtu →
  0 ≤ calculatePaddingSize len mtu < 16 ∧ (len + calculatePaddingSize len mtu) mod 16 = 0.
Proof.
  intros Hlen Hb Hm. unfold calculatePaddingSize, PaddingMultiple. change (16 - 1) with 15.
  pose proof (Z.div_mod (len + 16 - 1) 16 ltac:(lia)) as Hdm. pose proof (Z.mod_pos_bound (len + 16 - 1) 16 ltac:(lia)).
  assert (Hround : Z.land (len + 16 - 1) (Z.lnot 15) = (len + 16 - 1) / 16 * 16) by (apply land_lnot_15; lia).
  assert (Hup : (len + 16 - 1) / 16 * 16 ≤ budget).
  { pose proof (Z.div_mod budget 16 ltac:(lia)).
    assert ((len + 16 - 1) / 16 ≤ (budget + 15) / 16) by (apply Z.div_le_mono; lia).
    assert ((budget + 15) / 16 = budget / 16).
    { symmetry. apply (Z.div_unique (budget + 15) 16 (budget / 16) 15); lia. } lia. }
  assert (Hmod : ((len + 16 - 1) / 16 * 16) mod 16 = 0) by (apply Z.mod_mul; lia).
  destruct (Z.eqb_spec mtu 0) as [|Hne].
  - rewrite Hround. split; [lia|]. by replace (len + ((len + 16 - 1) / 16 * 16 - len)) with ((len + 16 - 1) / 16 * 16) by lia.
  - destruct (Z.ltb_spec mtu len); [lia|]. rewrite Hround.
    destruct (Z.ltb_spec mtu ((len + 16 - 1) / 16 * 16)); [lia|].
    split; [lia|]. by replace (len + ((len + 16 - 1) / 16 * 16 - len)) with ((len + 16 - 1) / 16 * 16) by lia.
Qed.
Lemma calculatePaddingSize_full len mtu : len mod 16 = 0 → 0 ≤ len → mtu = 0 ∨ len ≤ mtu → calculatePaddingSize len mtu = 0.
Proof.
  intros Hl H0 Hm. destruct (calculatePaddingSize_spec len len mtu) as [Hr Hmod]; [lia|done|done|].
  pose proof (Z.div_mod len 16). pose proof (Z.div_mod (len + calculatePaddingSize len mtu) 16). lia.
Qed.

(** A padded frame is the frame of a fragment with padded data. *)
Definition pad_fragment (k : nat) (f : USPControlFragment) : USPControlFragment :=
  MkFragment (MessageID f) (Index f) (Count f) (RawSize f) (Compressed f) (Data f ++ replicate k (z2b 0)).

Lemma pad_decode f e k :
  frag_ok f → EncodeUSPControlFragment f = Ok e →
  frag_ok (pad_fragment k f) ∧ DecodeUSPControlFragment (e ++ replicate k (z2b 0)) = Ok (Some (pad_fragment k f)).
Proof.
  intros Hf He. assert (Hf' : frag_ok (pad_fragment k f)).
  { destruct Hf as (? & ? & ? & ? & Hd & ?). unfold frag_ok, pad_fragment; simpl. split_and!; try done; try lia.
    by destruct (Data f). }
  split; [done|]. destruct (fragment_decode_encode _ Hf') as (e' & He' & Hd & _).
  unfold EncodeUSPControlFragment in He, He'. rewrite validate_frag_ok in He, He' by done. cbn [mbind res_bind] in He, He'.
  apply (f_equal (fun r => match r with Ok x => x | _ => [] end)) in He, He'. cbv beta iota in He, He'.
  cbn [pad_fragment Compressed MessageID Index Count RawSize Data] in He'. rewrite <- He' in Hd. rewrite <- He, <- Hd.
  by rewrite <- !app_assoc.
Qed.

Section Sent.
Context (payload : bytes) (id mx mtu : Z).
Context (Hne : payload ≠ []) (Hid : 0 < id < 2 ^ 64) (Hmx : mx < 2 ^ 62).
Context (Hlen : Z.of_nat (length payload) + 15 ≤ MaxUSPControlMessageSize).
Context (Hcount : Z.of_nat (length payload) ≤ MaxUSPControlFragmentCount * (datagram_budget mx - uspControlFragmentHeaderSize)).
Context (Hunit : datagram_budget mx mod 16 = 0) (Hmtu : mtu = 0 ∨ datagram_budget mx ≤ mtu).

Definition chunk_size : nat := Z.to_nat (datagram_budget mx - uspControlFragmentHeaderSize).
Definition nfrags : nat := Z.to_nat ((Z.of_nat (length payload) + Z.of_nat chunk_size - 1) / Z.of_nat chunk_size).
Definition sent_frag (i : nat) : USPControlFragment := frag_at id (Z.of_nat nfrags) chunk_size payload i.
Definition sent_frame (i : nat) : bytes := match EncodeUSPControlFragment (sent_frag i) with Ok e => e | _ => [] end.
Definition pad_of (i : nat) : nat := Z.to_nat (calculatePaddingSize (Z.of_nat (length (sent_frame i))) mtu).
(** What the receiver decodes. *)
Definition got_frag (i : nat) : USPControlFragment := pad_fragment (pad_of i) (sent_frag i).

Lemma chunk_size_budget : Z.of_nat chunk_size = datagram_budget mx - uspControlFragmentHeaderSize ∧ (0 < chunk_size)%nat.
Proof.
  unfold chunk_size, datagram_budget, uspControlFragmentHeaderSize, WUSPMaxDatagramPayload. destruct (Z.ltb_spec mx (23 + 1)); lia.
Qed.

Lemma sent_frames :
  (0 < nfrags)%nat ∧ Z.of_nat nfrags ≤ MaxUSPControlFragmentCount ∧ (length payload ≤ nfrags * chunk_size)%nat ∧
  FragmentUSPControlPayload payload id mx = Ok (sent_frame <$> seq 0 nfrags) ∧
  ∀ i, (i < nfrags)%nat → frag_ok (sent_frag i) ∧ EncodeUSPControlFragment (sent_frag i) = Ok (sent_frame i) ∧
    Z.of_nat (length (sent_frame i)) = uspControlFragmentHeaderSize + Z.of_nat (length (chunk chunk_size payload i)).
Proof.
  destruct chunk_size_budget as [Hcs Hcs0].
  destruct (Fragment_frames payload id mx nfrags) as (_ & Hn & Hl & Hn16 & Hok & HF); [done..|lia| | |].
  { fold chunk_size. lia. }
  { fold chunk_size. unfold nfrags. rewrite Z2Nat.id; [done|]. apply Z.div_pos; lia. }
  fold chunk_size in Hok, HF, Hl.
  assert (Hall : ∀ i, (i < nfrags)%nat → frag_ok (sent_frag i) ∧ EncodeUSPControlFragment (sent_frag i) = Ok (sent_frame i) ∧
    Z.of_nat (length (sent_frame i)) = uspControlFragmentHeaderSize + Z.of_nat (length (chunk chunk_size payload i))).
  { intros i Hi. specialize (Hok i Hi). fold (sent_frag i) in Hok. split; [done|].
    destruct (fragment_decode_encode _ Hok) as (e & He & _ & Hle). unfold sent_frame. rewrite He. by split. }
  split_and!; [done|done|done| |done]. rewrite HF, mapM_res_fmap. apply mapM_res_ok.
  intros i Hi. apply elem_of_seq in Hi. apply Hall. lia.
Qed.

Lemma length_chunk i : length (chunk chunk_size payload i) = Nat.min chunk_size (length payload - i * chunk_size).
Proof. unfold chunk. by rewrite length_take, length_drop. Qed.

(** Only the last fragment is padded, by less than a unit. *)
Lemma pad_of_spec i : (i < nfrags)%nat → (pad_of i < 16)%nat ∧ (S i < nfrags → pad_of i = 0)%nat.
Proof.
  intros Hi. destruct chunk_size_budget as [Hcs Hcs0], sent_frames as (_ & _ & Hl & _ & Hall).
  destruct (Hall i Hi) as (_ & _ & Hlf). unfold pad_of. rewrite length_chunk in Hlf.
  change uspControlFragmentHeaderSize with 23 in *. split.
  - destruct (calculatePaddingSize_spec (Z.of_nat (length (sent_frame i))) (datagram_budget mx) mtu); [lia|done|done|lia].
  - intros Hlast. rewrite calculatePaddingSize_full; [done| | |]; [|lia|lia].
    assert (Hfull : (chunk_size ≤ length payload - i * chunk_size)%nat).
    { assert ((Z.of_nat nfrags - 1) * Z.of_nat chunk_size < Z.of_nat (length payload)); [|nia].
      unfold nfrags. rewrite Z2Nat.id by (apply Z.div_pos; lia).
      pose proof (Z.mul_div_le (Z.of_nat (length payload) + Z.of_nat chunk_size - 1) (Z.of_nat chunk_size)). lia. }
    rewrite Nat.min_l in Hlf by lia. rewrite Hlf, Hcs. replace (23 + (datagram_budget mx - 23)) with (datagram_budget mx) by lia. done.
Qed.

Lemma got_payload :
  concat ((Data ∘ got_frag) <$> seq 0 nfrags) = payload ++ replicate (pad_of (nfrags - 1)) (z2b 0).
Proof.
  destruct sent_frames as (Hn & _ & Hl & _ & _), chunk_size_budget as [_ Hcs0].
  assert (Hseq : seq 0 nfrags = seq 0 (nfrags - 1) ++ [(nfrags - 1)%nat]).
  { replace nfrags with ((nfrags - 1) + 1)%nat at 1 by lia. by rewrite seq_app. }
  rewrite Hseq, fmap_app, concat_app. cbn [fmap list_fmap concat]. rewrite app_nil_r. unfold compose at 2. cbn [got_frag pad_fragment Data].
  rewrite app_assoc. f_equal. transitivity (concat (chunk chunk_size payload <$> seq 0 nfrags)).
  - rewrite Hseq, fmap_app, concat_app. cbn [fmap list_fmap concat]. rewrite app_nil_r. f_equal.
    f_equal. apply list_fmap_ext. intros j i Hj. apply lookup_seq in Hj as [-> Hj]. unfold compose, got_frag, pad_fragment. cbn [Data].
    rewrite (proj2 (pad_of_spec (0 + j) ltac:(lia))) by lia. by rewrite app_nil_r.
  - rewrite concat_chunks by (done || lia). done.
Qed.

Lemma got_frag_props i :
  (i < nfrags)%nat →
  frag_ok (got_frag i) ∧ Index (got_frag i) = Z.of_nat i ∧ MessageID (got_frag i) = id ∧
  Count (got_frag i) = Z.of_nat nfrags ∧ Compressed (got_frag i) = false ∧ RawSize (got_frag i) = 0.
Proof.
  intros Hi. destruct sent_frames as (_ & _ & _ & _ & Hall). destruct (Hall i Hi) as (Hok & He & _).
  destruct (pad_decode _ _ (pad_of i) Hok He) as [Hok' _]. by split_and!.
Qed.

(** Every frame arrives, in any order and with repetitions before the last one is
    there, among other peers' traffic. *)
Lemma sent_delivered {Peer} `{Countable Peer} (p : Peer) (st : WuspFragments Peer) evs pre last frames t0 :
  FragmentUSPControlPayload payload id mx = Ok frames →
  frags_ok st → pending st !! (p, id) = None →
  bytes_of st p + wuspFragmentSlotCost * Z.of_nat (length frames) + Z.of_nat (length payload) + 15 ≤ maxWUSPFragmentBytesPerPeer →
  from_peer p evs = transported mtu <$> (pre ++ [last]) → last ∉ pre → (∀ f, f ∈ frames ↔ f ∈ pre ++ [last]) →
  Forall (fun e => t0 ≤ ev_time e ≤ t0 + wuspFragmentAssemblyTTL) evs →
  ∃ k, (k < 16)%nat ∧
    results_for p (receive_all st evs).2 = replicate (length pre) (Ok None) ++ [Ok (Some (payload ++ replicate k (z2b 0)))].
Proof.
  intros HF Hok Hpend Hroom Hev Hlast Hsame Htimes.
  destruct sent_frames as (Hn & Hn16 & _ & HF' & Hall). rewrite HF in HF'. injection HF' as ->.
  rewrite length_fmap, length_seq in Hroom. exists (pad_of (nfrags - 1)).
  split; [apply pad_of_spec; lia|]. rewrite <- got_payload.
  assert (Hidx : ∀ f, f ∈ pre ++ [last] → ∃ i, (i < nfrags)%nat ∧ f = sent_frame i).
  { intros f (i & -> & Hi)%Hsame%list_elem_of_fmap. apply elem_of_seq in Hi. exists i. split; [lia|done]. }
  assert (Hpre : ∃ ixs, pre = sent_frame <$> ixs ∧ ∀ i, i ∈ ixs → (i < nfrags)%nat).
  { clear Hev Hlast Hsame Hroom Htimes. induction pre as [|f pre IH]; [exists []; split; [done|by intros ? ?%elem_of_nil]|].
    destruct IH as (ixs & -> & Hix). { intros g Hg. apply Hidx. by right. }
    destruct (Hidx f) as (i & Hi & ->); [by left|]. exists (i :: ixs). split; [done|].
    intros j [->|Hj]%elem_of_cons; [done|by apply Hix]. }
  destruct Hpre as (ixs & -> & Hix). destruct (Hidx last) as (l & Hl & ->); [apply elem_of_app; right; by left|].
  assert (Hinj : ∀ i j, (i < nfrags)%nat → (j < nfrags)%nat → sent_frame i = sent_frame j → i = j).
  { intros i j Hi Hj He. destruct (Hall i Hi) as (Hoi & Hei & _), (Hall j Hj) as (Hoj & Hej & _).
    destruct (fragment_decode_encode _ Hoi) as (ei & Hei' & Hdi & _), (fragment_decode_encode _ Hoj) as (ej & Hej' & Hdj & _).
    assert (ei = ej) as <- by congruence. rewrite Hdi in Hdj. injection Hdj. lia. }
  pose proof (f_equal (fun l => Z.of_nat (length l)) got_payload) as Hsz. cbv beta in Hsz.
  rewrite list_fmap_compose, length_concat_data, length_app, length_replicate in Hsz.
  destruct (pad_of_spec (nfrags - 1) ltac:(lia)) as [Hpad _].
  set (enc i := transported mtu (sent_frame i)).
  rewrite length_fmap.
  apply (deliver_events p id nfrags got_frag enc t0 (bytes_of st p) Hn Hn16 got_frag_props) with (l := l) (got := ∅);
    [| | | |exact Hix|exact Hl| | | | |exact Htimes].
  - intros i Hi. destruct (Hall i Hi) as (Hoi & Hei & _). by apply pad_decode.
  - lia.
  - lia.
  - constructor; [done|set_solver| |]; rewrite decide_True by done; [done|lia].
  - set_solver.
  - intros Hin. apply Hlast. apply list_elem_of_fmap. by exists l.
  - intros i Hi. right. assert (Hin : sent_frame i ∈ (sent_frame <$> ixs) ++ [sent_frame l]).
    { apply Hsame, list_elem_of_fmap. exists i. split; [done|]. apply elem_of_seq. lia. }
    apply elem_of_app in Hin as [(j & Hj & Hjx)%list_elem_of_fmap|Hin%list_elem_of_singleton].
    + left. by rewrite (Hinj i j Hi (Hix j Hjx) Hj).
    + right. by apply Hinj.
  - rewrite Hev, fmap_app, <- list_fmap_compose. done.
Qed.
End Sent.

(** ** Claims *)

(** Receiving WUSP traffic, whatever peers send and in whatever order: no
    packet makes the receiver panic, and the memory held for a peer's incomplete
    messages (slots and data) is exactly what is charged to it and never exceeds
    the per-peer budget. *)
Theorem wusp_assembly_bounded {Peer} `{Countable Peer} (evs : list (event Peer)) :
  let '(st, rs) := receive_all frags_empty evs in
  (∀ p, bytes_of st p = charged (pending st) p ∧ bytes_of st p ≤ maxWUSPFragmentBytesPerPeer) ∧
  (∀ key a, pending st !! key = Some a →
     abytes a = wuspFragmentSlotCost * Z.of_nat (length (fragments a)) + data_size (fragments a)) ∧
  ∀ pr, pr ∈ rs → pr.2 ≠ Panic.
Proof.
  pose proof (receive_all_ok evs frags_empty frags_empty_ok) as [Hok Hnp].
  destruct (receive_all frags_empty evs) as [st rs]. cbn [fst snd] in *. split_and!; [| |done].
  - intros p. split; [apply (fo_charged _ Hok)|apply (fo_budget _ Hok)].
  - intros key a Ha. by apply (ao_bytes key), (fo_asm _ Hok).
Qed.


Module PaddingDemo.
Definition message : bytes := replicate 1000 (z2b 7).
Definition frames : list bytes := match FragmentUSPControlPayload message 5 700 with Ok fs => fs | _ => [] end.
Definition arrivals : list (event nat) := (fun f => MkEvent 1%nat (transported 1420 f) 0) <$> frames.
End PaddingDemo.


Module DeliveryDemo.
#[local] Existing Instance demo_schema.
Definition e : bytes := match EncodeUSPAgentRequest demo_request with Ok e => e | _ => [] end.
(** Datagrams of at most 48 bytes, the first one last, the second one twice, and a
    packet of another peer before them. *)
Definition frames : list bytes := match FragmentUSPControlPayload e 5 48 with Ok fs => fs | _ => [] end.
Definition frame (i : nat) : bytes := default [] (frames !! i).
Definition pre : list bytes := frame <$> (seq 1 (length frames - 1) ++ [1%nat]).
Definition evs : list (event nat) :=
  MkEvent 2%nat (transported 1420 (frame 0)) 10 ::
  ((fun f => MkEvent 1%nat (transported 1420 f) 20) <$> (pre ++ [frame 0])).
End DeliveryDemo.

