(* ===== verification/ControlReplay.v ===== *)
(** * The agent's replay cache of control replies

    src/internal/agent/usp.go: requests are retried by the controller, so the
    agent keeps the reply of each request identity (peer, ID, sequence) and
    answers a repetition from it instead of executing it again.
    beginControlReplay is two critical sections with a wait between them:
    [begin_locked] and [resume_wait].  A [ready] channel is a number and the set of
    closed ones; closing a closed channel is a panic.  [range] is the order in
    which a [for range] visits the map. *)

From S2P Require Import Prelude Wire GoStr Fragments ReadReplay Transport Request.

Definition seconds : Z := 1000000000.
Definition wuspControlReplayTTL : Z := 2 * 60 * seconds.
Definition wuspControlReplayMaxEntries : nat := 256.
Definition wuspReadReplayTTL : Z := 30 * seconds.
Definition wuspReadReplayMaxBytes : Z := Z.shiftl 2 20.
Definition wuspReadReplayMaxReply : Z := Z.shiftl 512 10.

Record uspControlReplayKey := MkKey { kPeer : bytes; kRequest : Z; kSequence : Z }.
#[export] Instance key_eq_dec : EqDecision uspControlReplayKey.
Proof. solve_decision. Defined.
#[export] Instance key_countable : Countable uspControlReplayKey.
Proof.
  apply (inj_countable' (fun k => (kPeer k, kRequest k, kSequence k)) (fun '(p, r, s) => MkKey p r s)). by intros [].
Defined.

Record uspControlReplayEntry := MkEntry
  { eFingerprint : bytes; eFrames : list bytes; eBytes : Z; eRead : bool; eReady : nat; eExpiresAt : Z }.
Record uspControlReplayTicket := MkTicket { tKey : uspControlReplayKey; tFingerprint : bytes }.

(** The state behind controlReplayMu. *)
Record ReplayCache := MkCache
  { controlReplay : gmap uspControlReplayKey uspControlReplayEntry; closed : gset nat; nextChan : nat }.
Definition cache_empty : ReplayCache := MkCache ∅ ∅ 0.
Definition with_entries (r : ReplayCache) (m : gmap uspControlReplayKey uspControlReplayEntry) : ReplayCache :=
  MkCache m (closed r) (nextChan r).

Definition replayableWUSPControlMethod (method : Z) : bool :=
  IsReadReplayMethod method ||
  (method =? USPAgentMethodSet) || (method =? USPAgentMethodAdd) || (method =? USPAgentMethodDelete) ||
  (method =? USPAgentMethodOperate) || (method =? USPAgentMethodNotify).

Inductive begin_outcome :=
| NotReplayable                          (* nil ticket, no error *)
| FingerprintErr (e : werr)
| FingerprintPanic
| Reused                                 (* same identity, other content *)
| Waiting (key : uspControlReplayKey) (ready : nat)
| ReplayMiss
| QueueFull
| Execute (t : uspControlReplayTicket).

Inductive wait_outcome := Replay (frames : list bytes) | WaitMiss | NoReplayable.

(** [close(c)] *)
Definition close_chan (r : ReplayCache) (c : nat) : res werr ReplayCache :=
  if decide (c ∈ closed r) then Panic else Ok (MkCache (controlReplay r) ({[c]} ∪ closed r) (nextChan r)).

Definition frames_size (frames : list bytes) : Z := foldr (fun f t => Z.of_nat (length f) + t) 0 frames.
Definition no_frames (e : uspControlReplayEntry) : bool := (length (eFrames e) =? 0)%nat.

Section Replay.
Context `{Schema} (sha256 : bytes → bytes).
Context (range : gmap uspControlReplayKey uspControlReplayEntry → list (uspControlReplayKey * uspControlReplayEntry)).

Definition wuspControlRequestFingerprint (req : USPAgentRequest) : res werr bytes :=
  let md := delete MetadataKeyResendFragments (delete MetadataKeyResponseMaxControlPayload (CloneMetadata (qMetadata req))) in
  let semantic := {| qID := qID req; qMethod := qMethod req; qPaths := qPaths req; qPathCodes := qPathCodes req;
                     qPathInstances := qPathInstances req; qObjectPath := qObjectPath req; qObjectCode := qObjectCode req;
                     qObjectInstances := qObjectInstances req; qMessage := qMessage req; qTransfer := qTransfer req;
                     qMetadata := md |} in
  payload ← EncodeUSPAgentRequest semantic;
  Ok (sha256 payload).

Definition replay_key (peer : bytes) (req : USPAgentRequest) : uspControlReplayKey :=
  MkKey peer (qID req) (default 0 (RequestSequence (qMetadata req))).

(** [for k, e := range m { if now.After(e.expiresAt) { delete(m, k) } }] *)
Definition expire (m : gmap uspControlReplayKey uspControlReplayEntry) (now : Z) : gmap uspControlReplayKey uspControlReplayEntry :=
  filter (fun kv => ¬ eExpiresAt kv.2 < now) m.

(** The entry a scan picks: the first one with the smallest expiry among those
    that satisfy [p]. *)
Definition oldest_step (p : uspControlReplayKey → uspControlReplayEntry → bool)
    (best : option (uspControlReplayKey * uspControlReplayEntry)) (kv : uspControlReplayKey * uspControlReplayEntry) :=
  if p kv.1 kv.2 then
    match best with
    | None => Some kv
    | Some b => if eExpiresAt kv.2 <? eExpiresAt b.2 then Some kv else best
    end
  else best.
Definition oldest (p : uspControlReplayKey → uspControlReplayEntry → bool) (m : gmap uspControlReplayKey uspControlReplayEntry)
    : option (uspControlReplayKey * uspControlReplayEntry) :=
  foldl (oldest_step p) None (range m).

Definition begin_locked (r : ReplayCache) (peer : bytes) (req : USPAgentRequest) (now : Z) : ReplayCache * begin_outcome :=
  if negb (replayableWUSPControlMethod (qMethod req)) then (r, NotReplayable) else
  match wuspControlRequestFingerprint req with
  | Err e => (r, FingerprintErr e)
  | Panic => (r, FingerprintPanic)
  | Ok fingerprint =>
      let key := replay_key peer req in
      let m := expire (controlReplay r) now in
      match m !! key with
      | Some entry =>
          if negb (bool_decide (eFingerprint entry = fingerprint)) then (with_entries r m, Reused)
          else (with_entries r m, Waiting key (eReady entry))
      | None =>
          if bool_decide (is_Some (ResendFragments (qMetadata req))) && IsReadReplayMethod (qMethod req)
          then (with_entries r m, ReplayMiss) else
          let room := if (wuspControlReplayMaxEntries <=? size m)%nat then
                        match oldest (fun _ e => negb (no_frames e)) m with
                        | None => None
                        | Some (k, _) => Some (delete k m)
                        end
                      else Some m in
          match room with
          | None => (with_entries r m, QueueFull)
          | Some m =>
              let entry := MkEntry fingerprint [] 0 (IsReadReplayMethod (qMethod req)) (nextChan r) (now + wuspControlReplayTTL) in
              (MkCache (<[key := entry]> m) (closed r) (S (nextChan r)), Execute (MkTicket key fingerprint))
          end
      end
  end.

(** After the wait: the entry is looked up again. *)
Definition resume_wait (r : ReplayCache) (key : uspControlReplayKey) (req : USPAgentRequest) : wait_outcome :=
  match controlReplay r !! key with
  | Some entry =>
      if no_frames entry then (if IsReadReplayMethod (qMethod req) then WaitMiss else NoReplayable) else Replay (eFrames entry)
  | None => if IsReadReplayMethod (qMethod req) then WaitMiss else NoReplayable
  end.

Definition kept_read (e : uspControlReplayEntry) : bool := eRead e && negb (no_frames e).
Definition read_total (l : list (uspControlReplayKey * uspControlReplayEntry)) : Z :=
  foldr (fun kv t => (if kept_read kv.2 then eBytes kv.2 else 0) + t) 0 l.

(** The loop of trimReadReplayLocked; every round but the last deletes an entry. *)
Fixpoint trim_loop (fuel : nat) (m : gmap uspControlReplayKey uspControlReplayEntry) (keep : uspControlReplayKey)
    : gmap uspControlReplayKey uspControlReplayEntry :=
  match fuel with
  | O => m
  | S fuel =>
      let total := read_total (range m) in
      match oldest (fun k e => kept_read e && negb (bool_decide (k = keep))) m with
      | None => m
      | Some (k, _) => if total <=? wuspReadReplayMaxBytes then m else trim_loop fuel (delete k m) keep
      end
  end.
Definition trimReadReplayLocked (r : ReplayCache) (keep : uspControlReplayKey) : ReplayCache :=
  with_entries r (trim_loop (S (size (controlReplay r))) (controlReplay r) keep).

Definition completeControlReplay (r : ReplayCache) (ticket : option uspControlReplayTicket) (frames : list bytes) (now : Z)
    : res werr ReplayCache :=
  match ticket with
  | None => Ok r
  | Some ticket =>
      if (length frames =? 0)%nat then Ok r else
      match controlReplay r !! tKey ticket with
      | None => Ok r
      | Some entry =>
          if negb (bool_decide (eFingerprint entry = tFingerprint ticket)) || negb (no_frames entry) then Ok r else
          let size := frames_size frames in
          if eRead entry && (wuspReadReplayMaxReply <? size) then
            close_chan (with_entries r (delete (tKey ticket) (controlReplay r))) (eReady entry)
          else
            let ttl := if eRead entry then wuspReadReplayTTL else wuspControlReplayTTL in
            let entry' := MkEntry (eFingerprint entry) frames size (eRead entry) (eReady entry) (now + ttl) in
            r ← close_chan (with_entries r (<[tKey ticket := entry']> (controlReplay r))) (eReady entry);
            Ok (if eRead entry then trimReadReplayLocked r (tKey ticket) else r)
      end
  end.

Definition abortControlReplay (r : ReplayCache) (ticket : option uspControlReplayTicket) : res werr ReplayCache :=
  match ticket with
  | None => Ok r
  | Some ticket =>
      match controlReplay r !! tKey ticket with
      | None => Ok r
      | Some entry =>
          if negb (bool_decide (eFingerprint entry = tFingerprint ticket)) || negb (no_frames entry) then Ok r else
          close_chan (with_entries r (delete (tKey ticket) (controlReplay r))) (eReady entry)
      end
  end.

(** The frames whose fragment index is wanted; what is no fragment is kept. *)
Definition wanted (want : gset Z) (frame : bytes) : bool :=
  match DecodeUSPControlFragment frame with
  | Ok (Some f) => bool_decide (Index f ∈ want)
  | _ => true
  end.
Definition selectControlFrames (frames : list bytes) (want : gset Z) : list bytes := List.filter (wanted want) frames.

Definition fragmentControlPayload (req : USPAgentRequest) (payload : bytes) : res werr (list bytes) :=
  FragmentUSPControlPayload payload (qID req) (RequestedResponseMaxControlPayload (qMetadata req) WUSPMaxDatagramPayload).

(** ** The cache as a transition system

    The handlers of concurrent packets interleave at these critical sections; a
    ticket is completed or aborted by the handler that got it. *)
Inductive rstep (r : ReplayCache) : ReplayCache → Prop :=
| RBegin peer req now r' o : begin_locked r peer req now = (r', o) → rstep r r'
| RComplete t frames now r' : completeControlReplay r t frames now = Ok r' → rstep r r'
| RAbort t r' : abortControlReplay r t = Ok r' → rstep r r'.
Inductive rreach : ReplayCache → Prop :=
| rreach_init : rreach cache_empty
| rreach_step r r' : rreach r → rstep r r' → rreach r'.

(** ** Scans *)

Context (Hrange : ∀ m, range m ≡ₚ map_to_list m).

Lemma range_in m k e : (k, e) ∈ range m ↔ m !! k = Some e.
Proof. by rewrite Hrange, elem_of_map_to_list. Qed.

Lemma oldest_foldl p l best :
  match foldl (oldest_step p) best l with
  | Some b => (Some b = best ∨ (b ∈ l ∧ p b.1 b.2 = true))
  | None => best = None ∧ ∀ kv, kv ∈ l → p kv.1 kv.2 = false
  end.
Proof.
  revert best. induction l as [|kv l IH]; intros best; simpl.
  { destruct best; [by left|]. split; [done|]. by intros ? ?%elem_of_nil. }
  specialize (IH (oldest_step p best kv)). destruct (foldl (oldest_step p) (oldest_step p best kv) l) as [b|].
  - destruct IH as [Hb|[Hin Hp]]; [|right; split; [by right|done]].
    unfold oldest_step in Hb. destruct (p kv.1 kv.2) eqn:Hp; [|by left].
    destruct best as [b0|]; [destruct (_ <? _)|]; [| by left |].
    all: injection Hb as ->; right; split; [by left|done].
  - destruct IH as [Hbest Hall]. unfold oldest_step in Hbest. destruct (p kv.1 kv.2) eqn:Hp.
    { destruct best as [b0|]; [by destruct (_ <? _)|done]. }
    split; [done|]. intros kv' [->|Hin]%elem_of_cons; [done|by apply Hall].
Qed.
Lemma oldest_some p m k e : oldest p m = Some (k, e) → m !! k = Some e ∧ p k e = true.
Proof.
  unfold oldest. intros Ho. pose proof (oldest_foldl p (range m) None) as Hf. rewrite Ho in Hf.
  destruct Hf as [?|[Hin Hp]]; [done|]. by apply range_in in Hin.
Qed.
Lemma oldest_none p m k e : oldest p m = None → m !! k = Some e → p k e = false.
Proof.
  unfold oldest. intros Ho Hk. pose proof (oldest_foldl p (range m) None) as Hf. rewrite Ho in Hf.
  destruct Hf as [_ Hall]. by apply (Hall (k, e)), range_in.
Qed.

(** ** Kept bytes *)

Definition rtotal (m : gmap uspControlReplayKey uspControlReplayEntry) : Z := read_total (map_to_list m).
Definition kept (e : uspControlReplayEntry) : Z := if kept_read e then eBytes e else 0.

Lemma read_total_perm l l' : l ≡ₚ l' → read_total l = read_total l'.
Proof. induction 1; simpl; lia. Qed.
Lemma read_total_range m : read_total (range m) = rtotal m.
Proof. by apply read_total_perm. Qed.
Lemma rtotal_insert m k e : m !! k = None → rtotal (<[k := e]> m) = kept e + rtotal m.
Proof. intros Hn. unfold rtotal. rewrite (read_total_perm _ _ (map_to_list_insert m k e Hn)). done. Qed.
Lemma rtotal_delete m k e : m !! k = Some e → rtotal m = kept e + rtotal (delete k m).
Proof. intros Hk. rewrite <- (rtotal_insert (delete k m) k e) by apply lookup_delete_eq. by rewrite insert_delete_id. Qed.
Lemma rtotal_update m k e e' : m !! k = Some e → rtotal (<[k := e']> m) = rtotal m - kept e + kept e'.
Proof. intros Hk. rewrite (rtotal_delete m k e Hk), <- insert_delete_eq, rtotal_insert by apply lookup_delete_eq. lia. Qed.

Definition small_reads (m : gmap uspControlReplayKey uspControlReplayEntry) : Prop :=
  ∀ k e, m !! k = Some e → 0 ≤ kept e ≤ wuspReadReplayMaxReply.
Lemma small_reads_sub m m' : m' ⊆ m → small_reads m → small_reads m'.
Proof. intros Hsub Hs k e Hk. apply (Hs k). by eapply lookup_weaken. Qed.
Lemma rtotal_sub m m' : small_reads m → m' ⊆ m → rtotal m' ≤ rtotal m.
Proof.
  revert m'. induction m as [|k e m Hk IH] using map_ind; intros m' Hs Hsub.
  { apply map_empty_subseteq in Hsub || (assert (m' = ∅) as -> by (apply map_subseteq_empty || (by apply (anti_symm (⊆)); [done|apply map_empty_subseteq]))). done. }
  assert (Hsm : small_reads m).
  { intros k' e' Hk'. apply (Hs k'). rewrite lookup_insert_ne; [done|]. intros ->. congruence. }
  rewrite rtotal_insert by done. assert (Hke := Hs k e (lookup_insert_eq _ _ _)).
  destruct (m' !! k) as [e'|] eqn:Hk'.
  - assert (e' = e) as -> by (eapply lookup_weaken in Hk'; [|exact Hsub]; rewrite lookup_insert_eq in Hk'; congruence).
    rewrite (rtotal_delete m' k e Hk'). assert (rtotal (delete k m') ≤ rtotal m); [|lia]. apply IH; [done|].
    rewrite <- (delete_insert_id m k e) by done. by apply delete_mono.
  - assert (rtotal m' ≤ rtotal m); [|lia]. apply IH; [done|].
    rewrite <- (delete_insert_id m k e) by done. rewrite <- (delete_id m' k) by done. by apply delete_mono.
Qed.

Lemma trim_loop_spec fuel m keep :
  (size m < fuel)%nat → small_reads m →
  trim_loop fuel m keep ⊆ m ∧ trim_loop fuel m keep !! keep = m !! keep ∧
  rtotal (trim_loop fuel m keep) ≤ wuspReadReplayMaxBytes ∧
  ∀ k e, m !! k = Some e → kept_read e = false → trim_loop fuel m keep !! k = Some e.
Proof.
  revert m. induction fuel as [|fuel IH]; intros m Hsz Hs; [lia|]. cbn [trim_loop].
  destruct (oldest _ m) as [[k e]|] eqn:Ho.
  - apply oldest_some in Ho as [Hk [Hkr Hne]%andb_true_iff]. apply negb_true_iff, bool_decide_eq_false in Hne.
    rewrite read_total_range. destruct (Z.leb_spec (rtotal m) wuspReadReplayMaxBytes) as [Hle|Hgt]; [done|].
    destruct (IH (delete k m)) as (H1 & H2 & H3 & H4).
    + rewrite map_size_delete_Some by (by exists e). assert (size m ≠ 0%nat); [|lia].
      intros Hz%map_size_empty_iff. by rewrite Hz, lookup_empty in Hk.
    + eapply small_reads_sub; [|done]. apply delete_subseteq.
    + split_and!; [|by rewrite H2, lookup_delete_ne|done|].
      * etransitivity; [exact H1|apply delete_subseteq].
      * intros k' e' Hk' Hkr'. apply H4; [|done]. rewrite lookup_delete_ne; [done|]. intros ->. congruence.
  - split_and!; [done|done| |done].
    assert (Hall : ∀ k e, m !! k = Some e → k ≠ keep → kept e = 0).
    { intros k e Hk Hne. pose proof (oldest_none _ _ k e Ho Hk) as Hp. cbv beta in Hp. unfold kept. rewrite (bool_decide_false (k = keep)) in Hp by done.
      cbn [negb] in Hp. by rewrite andb_true_r in Hp; rewrite Hp. }
    assert (Hrest : rtotal (delete keep m) ≤ 0).
    { revert Hall. clear. intros Hall. unfold rtotal.
      assert (Hz : ∀ l, (∀ kv, kv ∈ l → kept kv.2 = 0) → read_total l ≤ 0).
      { induction l as [|kv l IHl]; intros Hl; [done|]. cbn [read_total foldr]. pose proof (Hl kv ltac:(by left)) as Hkv. unfold kept in Hkv.
        assert (read_total l ≤ 0) by (apply IHl; intros; apply Hl; by right). unfold read_total in *. lia. }
      apply Hz. intros [k e] [Hne Hk]%elem_of_map_to_list%lookup_delete_Some. by apply (Hall k). }
    destruct (m !! keep) as [e|] eqn:Hk.
    + rewrite (rtotal_delete m keep e Hk). pose proof (Hs keep e Hk). change wuspReadReplayMaxBytes with 2097152.
      change wuspReadReplayMaxReply with 524288 in *. lia.
    + rewrite delete_id in Hrest by done. change wuspReadReplayMaxBytes with 2097152. lia.
Qed.

(** ** The invariant of the cache *)

Definition entry_ok (e : uspControlReplayEntry) : Prop :=
  eBytes e = frames_size (eFrames e) ∧ (eRead e = true → eBytes e ≤ wuspReadReplayMaxReply).
Record cache_ok (r : ReplayCache) : Prop := {
  ok_entry : ∀ k e, controlReplay r !! k = Some e → entry_ok e;
  ok_ready : ∀ k e, controlReplay r !! k = Some e → (eReady e < nextChan r)%nat ∧ (eReady e ∈ closed r ↔ eFrames e ≠ []);
  ok_unique : ∀ k k' e e', controlReplay r !! k = Some e → controlReplay r !! k' = Some e' → eReady e = eReady e' → k = k';
  ok_closed : ∀ c, c ∈ closed r → (c < nextChan r)%nat;
  ok_size : (size (controlReplay r) ≤ wuspControlReplayMaxEntries)%nat;
  ok_total : rtotal (controlReplay r) ≤ wuspReadReplayMaxBytes }.

Lemma frames_size_nonneg frames : 0 ≤ frames_size frames.
Proof. induction frames; simpl; lia. Qed.
Lemma no_frames_true e : no_frames e = true ↔ eFrames e = [].
Proof. unfold no_frames. rewrite Nat.eqb_eq. apply length_zero_iff_nil. Qed.
Lemma no_frames_false e : no_frames e = false ↔ eFrames e ≠ [].
Proof. rewrite <- no_frames_true. by destruct (no_frames e). Qed.
Lemma kept_bounds e : entry_ok e → 0 ≤ kept e ≤ wuspReadReplayMaxReply.
Proof.
  intros [Hb Hr]. unfold kept, kept_read. pose proof (frames_size_nonneg (eFrames e)).
  change wuspReadReplayMaxReply with 524288 in *. destruct (eRead e), (no_frames e); simpl; lia.
Qed.
Lemma cache_small r : cache_ok r → small_reads (controlReplay r).
Proof. intros Hok k e Hk. by eapply kept_bounds, ok_entry. Qed.

Lemma cache_ok_empty : cache_ok cache_empty.
Proof.
  split; cbn [cache_empty controlReplay closed nextChan]; intros *; rewrite ?lookup_empty; try done; try set_solver.
  rewrite map_size_empty. lia.
Qed.

Lemma cache_ok_sub r m : cache_ok r → m ⊆ controlReplay r → cache_ok (with_entries r m).
Proof.
  intros Hok Hsub. pose proof (λ k e Hk, lookup_weaken m (controlReplay r) k e Hk Hsub) as Hw. destruct Hok as [H1 H2 H3 H4 H5 H6] eqn:E.
  split; cbn [with_entries controlReplay closed nextChan].
  - intros k e Hk. by eapply H1, Hw.
  - intros k e Hk. by eapply H2, Hw.
  - intros k k' e e' Hk Hk'. eapply H3; by apply Hw.
  - done.
  - etransitivity; [by apply map_subseteq_size|done].
  - etransitivity; [apply rtotal_sub; [by apply cache_small|done]|done].
Qed.

(** Closing the channel of an entry that has no reply yet, with the entry
    deleted or given its reply. *)
Lemma cache_ok_close_delete r k e :
  cache_ok r → controlReplay r !! k = Some e → eFrames e = [] →
  ∃ r', close_chan (with_entries r (delete k (controlReplay r))) (eReady e) = Ok r' ∧ cache_ok r' ∧
    controlReplay r' = delete k (controlReplay r).
Proof.
  intros Hok Hk Hf. destruct (ok_ready r Hok k e Hk) as [Hlt Hcl]. unfold close_chan. cbn [with_entries controlReplay closed nextChan].
  rewrite decide_False by tauto. eexists; split_and!; [done| |done].
  pose proof (cache_ok_sub r (delete k (controlReplay r)) Hok (delete_subseteq _ _)) as [H1 H2 H3 H4 H5 H6].
  split; cbn [with_entries controlReplay closed nextChan] in *; try done.
  - intros k' e' Hk'. split; [by apply (H2 k')|]. apply lookup_delete_Some in Hk' as [Hne Hk']. rewrite elem_of_union, elem_of_singleton.
    assert (eReady e' ≠ eReady e) by (intros Heq; apply Hne; symmetry; by eapply (ok_unique r Hok)).
    destruct (ok_ready r Hok k' e' Hk'); tauto.
  - intros c [->%elem_of_singleton|Hc]%elem_of_union; [done|by apply H4].
Qed.

Lemma close_update r k e e' :
  cache_ok r → controlReplay r !! k = Some e → eFrames e = [] → eReady e' = eReady e → eFrames e' ≠ [] → entry_ok e' →
  ∃ r', close_chan (with_entries r (<[k := e']> (controlReplay r))) (eReady e) = Ok r' ∧
    controlReplay r' = <[k := e']> (controlReplay r) ∧
    ∀ m, m ⊆ <[k := e']> (controlReplay r) → rtotal m ≤ wuspReadReplayMaxBytes → cache_ok (with_entries r' m).
Proof.
  intros Hok Hk Hf Hr Hf' He. destruct (ok_ready r Hok k e Hk) as [Hlt Hcl]. unfold close_chan. cbn [with_entries controlReplay closed nextChan].
  rewrite decide_False by tauto. eexists; split_and!; [done|done|].
  intros m Hsub Ht. destruct Hok as [H1 H2 H3 H4 H5 H6].
  assert (Hcase : ∀ k' f, m !! k' = Some f → (k' = k ∧ f = e') ∨ (k' ≠ k ∧ controlReplay r !! k' = Some f)).
  { intros k' f Hm. eapply lookup_weaken in Hm; [|exact Hsub]. apply lookup_insert_Some in Hm as [[-> ->]|[Hne Hm]]; [by left|right; by split]. }
  split; cbn [with_entries controlReplay closed nextChan].
  - intros k' f [[-> ->]|[_ Hm]]%Hcase; [done|by apply (H1 k')].
  - intros k' f [[-> ->]|[Hne Hm]]%Hcase.
    { rewrite Hr. split; [done|]. rewrite elem_of_union, elem_of_singleton. tauto. }
    destruct (H2 k' f Hm) as [Hl Hc]. split; [done|]. rewrite elem_of_union, elem_of_singleton, <- Hc.
    assert (eReady f ≠ eReady e) by (intros Heq; apply Hne; by eapply H3). tauto.
  - intros k1 k2 f1 f2 [[-> ->]|[Hn1 Hm1]]%Hcase [[-> ->]|[Hn2 Hm2]]%Hcase Heq; [done| | |by eapply H3].
    + rewrite Hr in Heq. by eapply H3.
    + rewrite Hr in Heq. by eapply H3.
  - intros c [->%elem_of_singleton|Hc]%elem_of_union; [done|by apply H4].
  - etransitivity; [by apply map_subseteq_size|]. by rewrite map_size_insert_Some by (by exists e).
  - done.
Qed.

Lemma expire_sub m now : expire m now ⊆ m.
Proof. apply map_filter_subseteq. Qed.
Lemma expire_lookup m now k e : m !! k = Some e → now ≤ eExpiresAt e → expire m now !! k = Some e.
Proof. intros Hk Hle. apply map_lookup_filter_Some. split; [done|simpl; lia]. Qed.

(** Inserting the entry of a request that starts to execute. *)
Lemma cache_ok_start r m k e :
  cache_ok r → m ⊆ controlReplay r → m !! k = None → (size m < wuspControlReplayMaxEntries)%nat →
  eReady e = nextChan r → eFrames e = [] → eBytes e = 0 →
  cache_ok (MkCache (<[k := e]> m) (closed r) (S (nextChan r))).
Proof.
  intros Hok Hsub Hn Hsz Hr Hf Hb. destruct (cache_ok_sub r m Hok Hsub) as [H1 H2 H3 H4 H5 H6].
  cbn [with_entries controlReplay closed nextChan] in *. split; cbn [controlReplay closed nextChan].
  - intros k' f [[<- <-]|[_ Hm]]%lookup_insert_Some; [|by apply (H1 k')]. split; [by rewrite Hf|]. rewrite Hb. done.
  - intros k' f [[<- <-]|[_ Hm]]%lookup_insert_Some.
    + rewrite Hr, Hf. split; [lia|]. split; [intros Hc%H4; lia|done].
    + destruct (H2 k' f Hm). split; [lia|done].
  - intros k1 k2 f1 f2 [[<- <-]|[Hn1 Hm1]]%lookup_insert_Some [[<- <-]|[Hn2 Hm2]]%lookup_insert_Some Heq; [done| | |by eapply H3].
    + destruct (H2 k2 f2 Hm2). lia.
    + destruct (H2 k1 f1 Hm1). lia.
  - intros c Hc%H4. lia.
  - rewrite map_size_insert_None by done. lia.
  - rewrite rtotal_insert by done. unfold kept, kept_read, no_frames. rewrite Hf. simpl. rewrite andb_false_r. done.
Qed.

(** What the locked part of beginControlReplay does when it lets the request
    execute: [m] is the cache after expiry and eviction. *)
Lemma begin_execute r peer req now r' t :
  begin_locked r peer req now = (r', Execute t) →
  ∃ fp m, wuspControlRequestFingerprint req = Ok fp ∧ t = MkTicket (replay_key peer req) fp ∧
    replayableWUSPControlMethod (qMethod req) = true ∧
    expire (controlReplay r) now !! replay_key peer req = None ∧
    r' = MkCache (<[replay_key peer req := MkEntry fp [] 0 (IsReadReplayMethod (qMethod req)) (nextChan r) (now + wuspControlReplayTTL)]> m)
           (closed r) (S (nextChan r)) ∧
    ((m = expire (controlReplay r) now ∧ (size m < wuspControlReplayMaxEntries)%nat) ∨
     (∃ k e, expire (controlReplay r) now !! k = Some e ∧ eFrames e ≠ [] ∧ m = delete k (expire (controlReplay r) now) ∧
             (wuspControlReplayMaxEntries ≤ size (expire (controlReplay r) now))%nat)).
Proof.
  unfold begin_locked. destruct (replayableWUSPControlMethod _) eqn:Hrep; cbn [negb]; [|done].
  destruct (wuspControlRequestFingerprint req) as [fp|e|] eqn:Hfp; [|done|done].
  set (m := expire (controlReplay r) now). destruct (m !! replay_key peer req) as [en|] eqn:Hk.
  { by destruct (negb _). }
  destruct (_ && _); [done|]. destruct (Nat.leb_spec wuspControlReplayMaxEntries (size m)) as [Hfull|Hroom].
  - destruct (oldest _ m) as [[k e]|] eqn:Ho; [|done]. apply oldest_some in Ho as [Hke Hp]. apply negb_true_iff, no_frames_false in Hp.
    intros [= <- <-]. exists fp, (delete k m). split_and!; try done. right. by exists k, e.
  - intros [= <- <-]. exists fp, m. split_and!; try done. by left.
Qed.
Lemma begin_other r peer req now r' o :
  begin_locked r peer req now = (r', o) → (∀ t, o ≠ Execute t) →
  r' = r ∨ r' = with_entries r (expire (controlReplay r) now).
Proof.
  unfold begin_locked. intros Hb Hne. repeat (case_match; simplify_eq; try (by left); try (by right)); exfalso; by eapply Hne.
Qed.

Lemma begin_ok r peer req now r' o : cache_ok r → begin_locked r peer req now = (r', o) → cache_ok r'.
Proof.
  intros Hok Hb. assert ((∃ t, o = Execute t) ∨ ∀ t, o ≠ Execute t) as [[t ->]|Hne] by (destruct o; eauto).
  2:{ destruct (begin_other _ _ _ _ _ _ Hb Hne) as [->| ->]; [done|]. apply cache_ok_sub; [done|apply expire_sub]. }
  apply begin_execute in Hb as (fp & m & _ & _ & _ & Hn & -> & Hm).
  assert (m ⊆ expire (controlReplay r) now ∧ (size m < wuspControlReplayMaxEntries)%nat) as [Hsub Hsz].
  { destruct Hm as [[-> Hsz]|(k & e & Hk & _ & -> & _)]; [done|]. split; [apply delete_subseteq|].
    pose proof (ok_size _ (cache_ok_sub r _ Hok (expire_sub _ now))) as Hle. cbn [with_entries controlReplay] in Hle.
    rewrite map_size_delete_Some by (by exists e). change wuspControlReplayMaxEntries with 256%nat in *. lia. }
  apply cache_ok_start; try done.
  - etransitivity; [exact Hsub|apply expire_sub].
  - destruct (m !! replay_key peer req) as [e|] eqn:Hk; [|done]. eapply lookup_weaken in Hk; [|exact Hsub]. congruence.
Qed.

Definition completed (e : uspControlReplayEntry) (frames : list bytes) (now : Z) : uspControlReplayEntry :=
  MkEntry (eFingerprint e) frames (frames_size frames) (eRead e) (eReady e)
    (now + (if eRead e then wuspReadReplayTTL else wuspControlReplayTTL)).
Definition answers (r : ReplayCache) (t : uspControlReplayTicket) (e : uspControlReplayEntry) : Prop :=
  controlReplay r !! tKey t = Some e ∧ eFingerprint e = tFingerprint t ∧ eFrames e = [].

(** completeControlReplay never panics and keeps the invariant; it does nothing,
    drops the entry of an oversized read, or stores the reply and evicts only
    other kept reads. *)
Lemma complete_cases r t frames now :
  cache_ok r → ∃ r', completeControlReplay r t frames now = Ok r' ∧ cache_ok r' ∧
    (r' = r ∧ (∀ tk, t = Some tk → frames ≠ [] → ∀ e, ¬ answers r tk e) ∨
     ∃ tk e, t = Some tk ∧ answers r tk e ∧ frames ≠ [] ∧
       (eRead e = true ∧ wuspReadReplayMaxReply < frames_size frames ∧ controlReplay r' = delete (tKey tk) (controlReplay r) ∨
        controlReplay r' ⊆ <[tKey tk := completed e frames now]> (controlReplay r) ∧
        controlReplay r' !! tKey tk = Some (completed e frames now) ∧
        ∀ k f, k ≠ tKey tk → controlReplay r !! k = Some f → kept_read f = false → controlReplay r' !! k = Some f)).
Proof.
  intros Hok. unfold completeControlReplay. destruct t as [tk|]; [|exists r; split_and!; [done|done|by left]].
  destruct (Nat.eqb_spec (length frames) 0) as [Hz|Hnz].
  { apply length_zero_iff_nil in Hz. exists r. split_and!; [done|done|left]. by split. }
  destruct (controlReplay r !! tKey tk) as [e|] eqn:Hk.
  2:{ exists r. split_and!; [done|done|left; split; [done|]]. intros ? [= <-] _ e [He _]. congruence. }
  destruct (bool_decide_reflect (eFingerprint e = tFingerprint tk)) as [Hfp|Hfp]; cbn [negb orb].
  2:{ exists r. split_and!; [done|done|left; split; [done|]]. intros ? [= <-] _ e' (He & Hf & _). congruence. }
  destruct (no_frames e) eqn:Hnf; cbn [negb].
  2:{ apply no_frames_false in Hnf. exists r. split_and!; [done|done|left; split; [done|]]. intros ? [= <-] _ e' (He & _ & Hf). congruence. }
  apply no_frames_true in Hnf. assert (Hfr : frames ≠ []) by (by intros ->).
  destruct (eRead e && (wuspReadReplayMaxReply <? frames_size frames)) eqn:Hbig.
  - apply andb_true_iff in Hbig as [Hr Hbig%Z.ltb_lt].
    destruct (cache_ok_close_delete r (tKey tk) e Hok Hk Hnf) as (r' & Hc & Hok' & Hm). exists r'. split_and!; [done|done|right].
    exists tk, e. split_and!; try done. by left.
  - destruct (close_update r (tKey tk) e (completed e frames now) Hok Hk Hnf) as (r' & Hc & Hm & Hall); [done|done| |].
    { split; [done|]. cbn [eRead eBytes completed]. intros Hr. rewrite Hr in Hbig. cbn [andb] in Hbig. by apply Z.ltb_ge. }
    unfold completed in Hc. rewrite Hc. cbn [res_bind]. destruct (eRead e) eqn:Hread.
    + assert (Hs : small_reads (controlReplay r')).
      { rewrite Hm. intros k f [[<- <-]|[_ Hf]]%lookup_insert_Some; [apply kept_bounds|by apply (cache_small r Hok k)].
        split; [done|]. cbn [eRead eBytes completed]. intros _. by apply Z.ltb_ge in Hbig. }
      destruct (trim_loop_spec (S (size (controlReplay r'))) (controlReplay r') (tKey tk)) as (T1 & T2 & T3 & T4); [lia|done|].
      eexists. split_and!; [done| |].
      { apply Hall; [by rewrite <- Hm|done]. }
      right. exists tk, e. split_and!; try done. right. cbn [trimReadReplayLocked with_entries controlReplay].
      split_and!; [by rewrite <- Hm|by rewrite T2, Hm, lookup_insert_eq|].
      intros k f Hne Hf Hkr. apply T4; [|done]. by rewrite Hm, lookup_insert_ne.
    + exists r'. split_and!; [done| |].
      { replace r' with (with_entries r' (<[tKey tk := completed e frames now]> (controlReplay r))) by (rewrite <- Hm; by destruct r').
        apply Hall; [done|]. rewrite (rtotal_update _ _ _ _ Hk). unfold kept, kept_read. cbn [eRead completed]. rewrite Hread. cbn [andb].
        pose proof (ok_total r Hok). lia. }
      right. exists tk, e. split_and!; try done. right. rewrite Hm. split_and!; [done|by rewrite lookup_insert_eq|].
      intros k f Hne Hf _. by rewrite lookup_insert_ne.
Qed.

Lemma abort_cases r t :
  cache_ok r → ∃ r', abortControlReplay r t = Ok r' ∧ cache_ok r' ∧
    (r' = r ∨ ∃ tk e, t = Some tk ∧ answers r tk e ∧ controlReplay r' = delete (tKey tk) (controlReplay r)).
Proof.
  intros Hok. unfold abortControlReplay. destruct t as [tk|]; [|exists r; split_and!; [done|done|by left]].
  destruct (controlReplay r !! tKey tk) as [e|] eqn:Hk; [|exists r; split_and!; [done|done|by left]].
  destruct (bool_decide_reflect (eFingerprint e = tFingerprint tk)) as [Hfp|Hfp]; cbn [negb orb]; [|exists r; split_and!; [done|done|by left]].
  destruct (no_frames e) eqn:Hnf; cbn [negb]; [|exists r; split_and!; [done|done|by left]]. apply no_frames_true in Hnf.
  destruct (cache_ok_close_delete r (tKey tk) e Hok Hk Hnf) as (r' & Hc & Hok' & Hm). exists r'. split_and!; [done|done|right].
  by exists tk, e.
Qed.

Lemma rreach_ok r : rreach r → cache_ok r.
Proof.
  induction 1 as [|r r' _ IH Hs]; [apply cache_ok_empty|]. destruct Hs as [peer req now r' o Hb|t frames now r' Hc|t r' Ha].
  - by eapply begin_ok.
  - destruct (complete_cases r t frames now IH) as (r2 & Hc2 & Hok & _). congruence.
  - destruct (abort_cases r t IH) as (r2 & Ha2 & Hok & _). congruence.
Qed.

(** The bytes of read replies the cache holds. *)
Definition retained (m : gmap uspControlReplayKey uspControlReplayEntry) : Z :=
  foldr (fun kv t => (if eRead kv.2 then frames_size (eFrames kv.2) else 0) + t) 0 (map_to_list m).

Lemma retained_rtotal r : cache_ok r → retained (controlReplay r) = rtotal (controlReplay r).
Proof.
  intros Hok. unfold retained, rtotal. assert (Hin : ∀ kv, kv ∈ map_to_list (controlReplay r) → entry_ok kv.2).
  { intros [k e] Hk%elem_of_map_to_list. by eapply ok_entry. }
  induction (map_to_list (controlReplay r)) as [|kv l IH]; [done|]. cbn [foldr read_total]. unfold read_total in IH.
  rewrite IH by (intros; apply Hin; by right). destruct (Hin kv ltac:(by left)) as [Hb _]. rewrite Hb. unfold kept_read, no_frames.
  destruct (eRead kv.2); cbn [andb]; [|done]. destruct (eFrames kv.2); done.
Qed.

(** ** Runs of the cache *)

Inductive revent :=
| EBegin (peer : bytes) (req : USPAgentRequest) (now : Z)
| EComplete (t : uspControlReplayTicket) (frames : list bytes) (now : Z)
| EAbort (t : uspControlReplayTicket).
Definition event (r : ReplayCache) (ev : revent) : res werr (ReplayCache * list begin_outcome) :=
  match ev with
  | EBegin peer req now => let '(r, o) := begin_locked r peer req now in Ok (r, [o])
  | EComplete t frames now => r ← completeControlReplay r (Some t) frames now; Ok (r, [])
  | EAbort t => r ← abortControlReplay r (Some t); Ok (r, [])
  end.
Fixpoint run_events (r : ReplayCache) (evs : list revent) : res werr (ReplayCache * list begin_outcome) :=
  match evs with
  | [] => Ok (r, [])
  | ev :: evs =>
      s ← event r ev;
      s' ← run_events s.1 evs;
      Ok (s'.1, s.2 ++ s'.2)
  end.

Definition event_time (ev : revent) : option Z :=
  match ev with EBegin _ _ now => Some now | EComplete _ _ now => Some now | EAbort _ => None end.
(** The reply a ticket is completed with: the first non-empty one. *)
Definition reply_of (t : uspControlReplayTicket) (evs : list revent) : list bytes :=
  foldr (fun ev rest => match ev with
                        | EComplete t' frames _ => if bool_decide (tKey t' = tKey t ∧ tFingerprint t' = tFingerprint t) && negb (length frames =? 0)%nat then frames else rest
                        | _ => rest end) [] evs.
Definition then_reply (frames rest : list bytes) : list bytes := if (length frames =? 0)%nat then rest else frames.

(** The entry of an action in the window in which it is kept. *)
Definition holds (r : ReplayCache) (t : uspControlReplayTicket) (until : Z) (frames : list bytes) : Prop :=
  ∃ e, controlReplay r !! tKey t = Some e ∧ eFingerprint e = tFingerprint t ∧ eFrames e = frames ∧ eRead e = false ∧ until ≤ eExpiresAt e.

Definition keeps (r : ReplayCache) (t : uspControlReplayTicket) (until : Z) (frames : list bytes)
    (out : res werr (ReplayCache * list begin_outcome)) : Prop :=
  ∃ r' outs, out = Ok (r', outs) ∧ cache_ok r' ∧ (size (controlReplay r') ≤ S (size (controlReplay r)))%nat ∧
    (∀ t', Execute t' ∈ outs → tKey t' ≠ tKey t) ∧ holds r' t until frames.

Lemma size_sub (m m' : gmap uspControlReplayKey uspControlReplayEntry) : m ⊆ m' → (size m ≤ S (size m'))%nat.
Proof. intros Hs%map_subseteq_size. lia. Qed.

Section Kept.
Context (r : ReplayCache) (t : uspControlReplayTicket) (t0 : Z) (frames : list bytes).
Let until := t0 + wuspControlReplayTTL.
Context (Hok : cache_ok r) (Hholds : holds r t until frames).

Lemma begin_keeps peer req now :
  t0 ≤ now ≤ until → (size (controlReplay r) < wuspControlReplayMaxEntries)%nat →
  keeps r t until frames (event r (EBegin peer req now)).
Proof.
  destruct Hholds as (e & Hk & Hfp & Hfr & Hread & Hexp). intros Htime Hsz. cbn [event].
  destruct (begin_locked r peer req now) as [r' o] eqn:Hb. exists r', [o].
  pose proof (begin_ok _ _ _ _ _ _ Hok Hb) as Hok'. assert (Hk' := expire_lookup _ now _ _ Hk ltac:(lia)).
  assert ((∃ t', o = Execute t') ∨ ∀ t', o ≠ Execute t') as [[t' ->]|Hne] by (destruct o; eauto).
  - apply begin_execute in Hb as (fp & m & _ & -> & _ & Hn & -> & Hm).
    assert (Hne : replay_key peer req ≠ tKey t) by (intros Heq; rewrite Heq in Hn; congruence).
    assert (Hle : (size (expire (controlReplay r) now) ≤ size (controlReplay r))%nat) by apply map_subseteq_size, expire_sub.
    destruct Hm as [[-> Hlt]|(? & ? & _ & _ & _ & Hge)]; [|lia].
    cbn [controlReplay]. split_and!; [done|done| | |].
    + rewrite map_size_insert_None by done. lia.
    + intros t' [[= ->]|Hin%elem_of_nil]%elem_of_cons; [done|done].
    + exists e. cbn [controlReplay]. by rewrite lookup_insert_ne.
  - assert (Hno : ∀ t', Execute t' ∈ [o] → tKey t' ≠ tKey t).
    { intros t' [Heq|Hin%elem_of_nil]%elem_of_cons; [by destruct (Hne t')|done]. }
    destruct (begin_other _ _ _ _ _ _ Hb Hne) as [->| ->]; (split_and!; [done|done| |done|]); cbn [with_entries controlReplay].
    1: lia. 2: apply size_sub, expire_sub. all: by exists e.
Qed.

Lemma complete_keeps tk fs now :
  t0 ≤ now → keeps r t until (then_reply frames (reply_of t [EComplete tk fs now])) (event r (EComplete tk fs now)).
Proof.
  destruct Hholds as (e & Hk & Hfp & Hfr & Hread & Hexp). intros Htime. cbn [event].
  destruct (complete_cases r (Some tk) fs now Hok) as (r' & Hc & Hok' & Hcase). rewrite Hc. cbn [res_bind].
  exists r', []. unfold then_reply. cbn [reply_of foldr].
  destruct Hcase as [[-> Hno]|(tk' & e' & [= <-] & (Hk' & Hf' & He') & Hfs & Hcase)].
  - split_and!; [done|done|lia|by intros ? ?%elem_of_nil|]. exists e. split_and!; try done.
    destruct frames as [|f0 fs0]; [|done]. simpl.
    destruct (bool_decide_reflect (tKey tk = tKey t ∧ tFingerprint tk = tFingerprint t)) as [[Hkk Hff]|]; [|done].
    destruct fs as [|f0 fs0]; [done|]. exfalso. apply (Hno tk eq_refl ltac:(done) e). split_and!; [by rewrite Hkk|by rewrite Hff|done].
  - assert (Hsz : (size (controlReplay r') ≤ S (size (controlReplay r)))%nat).
    { destruct Hcase as [(_ & _ & ->)|(Hsub & _)]; [apply size_sub, delete_subseteq|].
      apply map_subseteq_size in Hsub. rewrite map_size_insert_Some in Hsub by (by exists e'). lia. }
    split_and!; [done|done|done|by intros ? ?%elem_of_nil|].
    destruct (decide (tKey tk = tKey t)) as [Hkk|Hkk].
    + rewrite Hkk in *. assert (e' = e) as -> by congruence. destruct Hcase as [(Hr & _)|(_ & Hl & _)]; [congruence|].
      rewrite bool_decide_true by (split; congruence). replace frames with (@nil bytes) by congruence.
      assert ((length fs =? 0)%nat = false) as -> by (by destruct fs). simpl.
      exists (completed e fs now). split_and!; try done. unfold completed. rewrite Hread. cbn [eExpiresAt]. lia.
    + rewrite bool_decide_false by tauto. exists e. split_and!; try done.
      { destruct Hcase as [(_ & _ & ->)|(_ & _ & Hkeep)]; [by rewrite lookup_delete_ne|].
        apply Hkeep; [done|done|]. unfold kept_read. by rewrite Hread. }
      by destruct frames.
Qed.

Lemma abort_keeps tk : tk ≠ t → keeps r t until frames (event r (EAbort tk)).
Proof.
  destruct Hholds as (e & Hk & Hfp & Hfr & Hread & Hexp). intros Hna. cbn [event].
  destruct (abort_cases r (Some tk) Hok) as (r' & Hc & Hok' & Hcase). rewrite Hc. cbn [res_bind].
  exists r', []. destruct Hcase as [->|(tk' & e' & [= <-] & (Hk' & Hf' & _) & Hm)].
  - split_and!; [done|done|lia|by intros ? ?%elem_of_nil|by exists e].
  - split_and!; [done|done|rewrite Hm; apply size_sub, delete_subseteq|by intros ? ?%elem_of_nil|].
    exists e. split_and!; try done. rewrite Hm, lookup_delete_ne; [done|]. intros Heq. apply Hna. destruct tk, t; simpl in *. congruence.
Qed.

Lemma event_keeps ev :
  (∀ now, event_time ev = Some now → t0 ≤ now ≤ until) → ev ≠ EAbort t → (size (controlReplay r) < wuspControlReplayMaxEntries)%nat →
  keeps r t until (then_reply frames (reply_of t [ev])) (event r ev).
Proof.
  intros Htime Hna Hsz. assert (Hnil : then_reply frames [] = frames) by (unfold then_reply; by destruct frames).
  destruct ev as [peer req now|tk fs now|tk]; cbn [reply_of foldr]; rewrite ?Hnil.
  - apply begin_keeps; [by apply Htime|done].
  - apply (complete_keeps tk fs now). by apply Htime.
  - apply abort_keeps. by intros ->.
Qed.
End Kept.

Lemma reply_of_cons t ev evs : reply_of t (ev :: evs) = then_reply (reply_of t [ev]) (reply_of t evs).
Proof.
  unfold then_reply. destruct ev as [| tk fs now|]; try done. cbn [reply_of foldr].
  destruct (bool_decide _); cbn [andb]; [|done]. destruct (Nat.eqb_spec (length fs) 0) as [Hz|Hz]; [done|]. cbn [negb].
  by rewrite (proj2 (Nat.eqb_neq _ _) Hz).
Qed.
Lemma then_reply_assoc a b c : then_reply (then_reply a b) c = then_reply a (then_reply b c).
Proof. unfold then_reply. by destruct a. Qed.

Lemma run_keeps t t0 evs : ∀ r frames,
  cache_ok r → holds r t (t0 + wuspControlReplayTTL) frames →
  Forall (fun ev => (∀ now, event_time ev = Some now → t0 ≤ now ≤ t0 + wuspControlReplayTTL) ∧ ev ≠ EAbort t) evs →
  (size (controlReplay r) + length evs ≤ wuspControlReplayMaxEntries)%nat →
  ∃ r' outs, run_events r evs = Ok (r', outs) ∧ cache_ok r' ∧ (∀ t', Execute t' ∈ outs → tKey t' ≠ tKey t) ∧
    holds r' t (t0 + wuspControlReplayTTL) (then_reply frames (reply_of t evs)).
Proof.
  induction evs as [|ev evs IH]; intros r frames Hok Hh Hall Hsz; cbn [run_events].
  { exists r, []. split_and!; [done|done|by intros ? ?%elem_of_nil|]. unfold then_reply. simpl. by destruct frames. }
  apply Forall_cons in Hall as [[Htime Hna] Hall]. cbn [length] in Hsz.
  destruct (event_keeps r t t0 frames Hok Hh ev Htime Hna ltac:(lia)) as (r1 & o1 & He & Hok1 & Hs1 & Ho1 & Hh1).
  rewrite He. cbn [mbind res_bind fst snd].
  destruct (IH r1 _ Hok1 Hh1 Hall ltac:(lia)) as (r2 & o2 & Hr & Hok2 & Ho2 & Hh2). rewrite Hr. cbn [mbind res_bind fst snd].
  exists r2, (o1 ++ o2). split_and!; [done|done| |].
  - intros t' [Hin|Hin]%elem_of_app; auto.
  - by rewrite reply_of_cons, <- then_reply_assoc.
Qed.
End Replay.
