(* ===== verification/ControlReplayProps.v ===== *)
(** * What the agent's replay cache guarantees

    The bounds of the cache, at-most-once execution of actions and the recovery
    of lost fragments of a read reply, for any order in which Go's [range] visits
    the map. *)

From S2P Require Import Prelude Wire GoStr Fragments ReadReplay Transport Codec Request ControlReplay.

(** ** Requests that are the same request *)

Definition with_metadata (req : USPAgentRequest) (m : metadata) : USPAgentRequest :=
  {| qID := qID req; qMethod := qMethod req; qPaths := qPaths req; qPathCodes := qPathCodes req;
     qPathInstances := qPathInstances req; qObjectPath := qObjectPath req; qObjectCode := qObjectCode req;
     qObjectInstances := qObjectInstances req; qMessage := qMessage req; qTransfer := qTransfer req; qMetadata := m |}.
(** The request by which a controller asks again for some fragments. *)
Definition resend_request (req : USPAgentRequest) (missing : list Z) : USPAgentRequest :=
  with_metadata req (WithResendFragments (qMetadata req) missing).

Lemma RequestSequence_resend m missing : missing ≠ [] → RequestSequence (WithResendFragments m missing) = RequestSequence m.
Proof.
  intros Hne. unfold WithResendFragments, CloneMetadata. rewrite (proj2 (Nat.eqb_neq _ 0)) by (by destruct missing).
  unfold RequestSequence, parseMetadataUint, md_get. rewrite lookup_insert_ne by done.
  set (v := FormatFragmentIndexSet missing). assert (size (<[MetadataKeyResendFragments := v]> m) ≠ 0%nat) as Hz.
  { intros Hz%map_size_empty_iff. by apply insert_non_empty in Hz. }
  rewrite (proj2 (Nat.eqb_neq _ 0) Hz). destruct (Nat.eqb_spec (size m) 0) as [Hm|_]; [|done].
  apply map_size_empty_iff in Hm as ->. done.
Qed.

Lemma delete_delete_insert (m : metadata) k1 k2 v : delete k2 (delete k1 (<[k2 := v]> m)) = delete k2 (delete k1 m).
Proof.
  apply map_eq. intros k. destruct (decide (k = k2)) as [->|Hk]; [by rewrite !lookup_delete_eq|].
  rewrite !(lookup_delete_ne _ k2) by done. destruct (decide (k = k1)) as [->|Hk']; [by rewrite !lookup_delete_eq|].
  by rewrite !(lookup_delete_ne _ k1), lookup_insert_ne by done.
Qed.

Section Claims.
Context `{Schema} (sha256 : bytes → bytes).
Context (range : gmap uspControlReplayKey uspControlReplayEntry → list (uspControlReplayKey * uspControlReplayEntry)).
Context (Hrange : ∀ m, range m ≡ₚ map_to_list m).

Lemma fingerprint_resend req missing :
  wuspControlRequestFingerprint sha256 (resend_request req missing) = wuspControlRequestFingerprint sha256 req.
Proof.
  assert (Hd : delete MetadataKeyResendFragments (delete MetadataKeyResponseMaxControlPayload (WithResendFragments (qMetadata req) missing)) =
          delete MetadataKeyResendFragments (delete MetadataKeyResponseMaxControlPayload (qMetadata req))).
  { unfold WithResendFragments, CloneMetadata. destruct (_ =? _)%nat; [|apply delete_delete_insert]. 
    apply map_eq. intros k. destruct (decide (k = MetadataKeyResendFragments)) as [->|Hk]; [by rewrite !lookup_delete_eq|].
    rewrite !(lookup_delete_ne _ MetadataKeyResendFragments) by done. destruct (decide (k = MetadataKeyResponseMaxControlPayload)) as [->|Hk'].
    - by rewrite !lookup_delete_eq.
    - rewrite !(lookup_delete_ne _ MetadataKeyResponseMaxControlPayload) by done. by rewrite lookup_delete_ne. }
  unfold wuspControlRequestFingerprint, resend_request. cbn [with_metadata qMetadata qID qMethod qPaths qPathCodes qPathInstances qObjectPath qObjectCode qObjectInstances qMessage qTransfer].
  unfold CloneMetadata. by rewrite Hd.
Qed.

(** ** Selecting the frames of a fragmented reply *)

Lemma NoDup_enc (enc : nat → bytes) (g : nat → USPControlFragment) n :
  (∀ i, (i < n)%nat → DecodeUSPControlFragment (enc i) = Ok (Some (g i)) ∧ Index (g i) = Z.of_nat i) →
  NoDup (enc <$> seq 0 n).
Proof.
  intros Henc. apply NoDup_fmap_2_strong; [|apply NoDup_seq]. intros i j Hi%elem_of_seq Hj%elem_of_seq Heq.
  destruct (Henc i ltac:(lia)) as [Hi' Hii], (Henc j ltac:(lia)) as [Hj' Hjj]. rewrite Heq in Hi'. assert (g i = g j) as Hg by congruence.
  rewrite Hg in Hii. lia.
Qed.

Definition frame_index (frame : bytes) : option Z :=
  match DecodeUSPControlFragment frame with Ok (Some f) => Some (Index f) | _ => None end.

Lemma select_lost (enc : nat → bytes) (g : nat → USPControlFragment) n held lost missing :
  (∀ i, (i < n)%nat → DecodeUSPControlFragment (enc i) = Ok (Some (g i)) ∧ Index (g i) = Z.of_nat i) →
  held ++ lost ≡ₚ enc <$> seq 0 n →
  (∀ z, z ∈ missing ↔ ∃ f, f ∈ lost ∧ frame_index f = Some z) →
  selectControlFrames (enc <$> seq 0 n) (list_to_set missing) ≡ₚ lost.
Proof.
  intros Henc Hp Hmiss. pose proof (NoDup_enc enc g n Henc) as Hnd. assert (Hnd' := Hnd). rewrite <- Hp in Hnd'.
  apply NoDup_app in Hnd' as (_ & _ & Hlost).
  apply NoDup_Permutation; [apply NoDup_ListNoDup, List.NoDup_filter, NoDup_ListNoDup, Hnd|done|].
  intros f. unfold selectControlFrames. rewrite list_elem_of_In, filter_In, <- list_elem_of_In.
  assert (Hin : ∀ f, f ∈ enc <$> seq 0 n → ∃ i, f = enc i ∧ (i < n)%nat).
  { intros f' (i & -> & Hi%elem_of_seq)%list_elem_of_fmap. exists i. split; [done|lia]. }
  split.
  - intros [Hf Hw]. destruct (Hin f Hf) as (i & -> & Hi). destruct (Henc i Hi) as [Hd Hx]. unfold wanted in Hw. rewrite Hd in Hw.
    apply bool_decide_eq_true, elem_of_list_to_set, Hmiss in Hw as (f & Hfl & Hfi).
    assert (Hf' : f ∈ enc <$> seq 0 n) by (rewrite <- Hp; apply elem_of_app; by right).
    destruct (Hin f Hf') as (j & -> & Hj). destruct (Henc j Hj) as [Hdj Hxj]. unfold frame_index in Hfi. rewrite Hdj in Hfi.
    assert (j = i) as -> by (assert (Index (g j) = Index (g i)) by congruence; lia). done.
  - intros Hf. assert (Hf' : f ∈ enc <$> seq 0 n) by (rewrite <- Hp; apply elem_of_app; by right). split; [done|].
    destruct (Hin f Hf') as (i & -> & Hi). destruct (Henc i Hi) as [Hd Hx]. unfold wanted. rewrite Hd.
    apply bool_decide_eq_true, elem_of_list_to_set, Hmiss. exists (enc i). split; [done|]. unfold frame_index. by rewrite Hd.
Qed.

Lemma budget_range m : 23 < RequestedResponseMaxControlPayload m WUSPMaxDatagramPayload < 2 ^ 31.
Proof.
  unfold RequestedResponseMaxControlPayload, WUSPMaxDatagramPayload, uspControlFragmentHeaderSize. simpl.
  repeat case_match; try lia.
Qed.

(** The frames of a reply that was fragmented, one per index. *)
Lemma reply_frames req payload frames :
  fragmentControlPayload req payload = Ok frames → 0 ≤ qID req < 2 ^ 64 → Z.of_nat (length payload) ≤ MaxUSPControlMessageSize →
  (∃ enc g n, frames = enc <$> seq 0 n ∧ Z.of_nat n ≤ MaxUSPControlFragmentCount ∧
    ∀ i, (i < n)%nat → DecodeUSPControlFragment (enc i) = Ok (Some (g i)) ∧ Index (g i) = Z.of_nat i) ∧
  ∀ frames', frames' ≡ₚ frames →
    ∃ fs, mapM_res DecodeUSPControlFragment frames' = Ok (Some <$> fs) ∧ ReassembleUSPControlFragments fs = Ok payload.
Proof.
  unfold fragmentControlPayload. pose proof (budget_range (qMetadata req)) as Hmx.
  set (mx := RequestedResponseMaxControlPayload (qMetadata req) WUSPMaxDatagramPayload) in *. intros Hfrag Hid Hmax.
  assert (Hne : payload ≠ []) by (intros ->; done).
  assert (Hid0 : qID req ≠ 0).
  { intros Hz. unfold FragmentUSPControlPayload in Hfrag. rewrite Hz in Hfrag. destruct payload; done. }
  assert (Hb : datagram_budget mx = mx).
  { unfold datagram_budget, uspControlFragmentHeaderSize. by rewrite (proj2 (Z.ltb_ge _ _)) by lia. }
  assert (Hc : Z.of_nat (length payload) ≤ MaxUSPControlFragmentCount * (datagram_budget mx - uspControlFragmentHeaderSize)).
  { rewrite Hb. destruct (Z.le_gt_cases (Z.of_nat (length payload)) (MaxUSPControlFragmentCount * (mx - uspControlFragmentHeaderSize))) as [Hle|Hgt]; [done|].
    by rewrite (Fragment_too_many payload (qID req) mx Hmx Hid0 Hmax Hgt) in Hfrag. }
  split.
  - destruct (fragments_indexed payload (qID req) mx Hne ltac:(lia) ltac:(lia) Hmax Hc) as (enc & g & n & HF & Hn & Henc & _).
    exists enc, g, n. split_and!; [congruence|done|]. intros i Hi. by destruct (Henc i Hi) as (? & ? & _).
  - destruct (fragments_reassemble payload (qID req) mx Hne ltac:(lia) ltac:(lia) Hmax Hc) as (frames2 & HF & _ & Hany).
    assert (frames2 = frames) as -> by congruence. done.
Qed.

(** A repetition within the window finds the entry, whatever it asks to be
    sent again. *)
Lemma begin_repeat r peer req now fp e :
  wuspControlRequestFingerprint sha256 req = Ok fp → replayableWUSPControlMethod (qMethod req) = true →
  controlReplay r !! replay_key peer req = Some e → eFingerprint e = fp → now ≤ eExpiresAt e →
  begin_locked sha256 range r peer req now = (with_entries r (expire (controlReplay r) now), Waiting (replay_key peer req) (eReady e)).
Proof.
  intros Hfp Hm Hk He Hexp. unfold begin_locked. rewrite Hm, Hfp. cbn [negb]. rewrite (expire_lookup _ _ _ _ Hk Hexp), bool_decide_true by done. done.
Qed.

(** In every state the handlers of concurrent packets can bring the cache
    to, it holds at most 256 entries and at most 2 MiB of read replies, no kept read
    reply is over 512 KiB, and completing or aborting any ticket returns: no ready
    channel is ever closed twice. *)
Theorem replay_cache_bounded r :
  rreach sha256 range r →
  (size (controlReplay r) ≤ 256)%nat ∧ retained (controlReplay r) ≤ 2 * 1024 * 1024 ∧
  (∀ k e, controlReplay r !! k = Some e → eRead e = true → frames_size (eFrames e) ≤ 512 * 1024) ∧
  (∀ t frames now, completeControlReplay range r t frames now ≠ Panic) ∧ (∀ t, abortControlReplay r t ≠ Panic).
Proof using Hrange.
  intros Hok%(rreach_ok sha256 range Hrange). split_and!.
  - apply Hok.
  - rewrite retained_rtotal by done. apply Hok.
  - intros k e Hk Hr. destruct (ok_entry r Hok k e Hk) as [<- Hb]. by apply Hb.
  - intros t frames now. destruct (complete_cases range Hrange r t frames now Hok) as (r' & -> & _). done.
  - intros t. destruct (abort_cases r t Hok) as (r' & -> & _). done.
Qed.

(** C30: At-most-once execution.  Once beginControlReplay has let an action of a
    peer execute, then for two minutes, whatever requests arrive and replies are
    stored in the meantime (fewer than fill the cache, and the handler does not
    abort), no repetition of that identity executes again; the first reply stored
    for it stays, and repeating the request is answered with exactly those
    frames. *)
Theorem action_executed_once r peer req t0 r1 t evs :
  rreach sha256 range r →
  begin_locked sha256 range r peer req t0 = (r1, Execute t) → IsReadReplayMethod (qMethod req) = false →
  Forall (fun ev => (∀ now, event_time ev = Some now → t0 ≤ now ≤ t0 + wuspControlReplayTTL) ∧ ev ≠ EAbort t) evs →
  (size (controlReplay r1) + length evs ≤ wuspControlReplayMaxEntries)%nat →
  ∃ r2 outs, run_events sha256 range r1 evs = Ok (r2, outs) ∧
    (∀ t', Execute t' ∈ outs → tKey t' ≠ tKey t) ∧
    ∀ now, now ≤ t0 + wuspControlReplayTTL →
      ∃ r3 ready, begin_locked sha256 range r2 peer req now = (r3, Waiting (tKey t) ready) ∧
        (ready ∈ closed r3 ↔ reply_of t evs ≠ []) ∧
        (reply_of t evs ≠ [] → resume_wait r3 (tKey t) req = Replay (reply_of t evs)).
Proof using Hrange.
  intros Hr Hb Hread Hall Hsz. assert (Hok := rreach_ok sha256 range Hrange _ Hr).
  assert (Hok1 := begin_ok sha256 range Hrange _ _ _ _ _ _ Hok Hb).
  apply begin_execute in Hb as (fp & m & Hfp & -> & Hm & _ & -> & _); [|done]. cbn [tKey tFingerprint] in *.
  match type of Hok1 with cache_ok ?r1 => set (r1' := r1) in * end.
  assert (Hh : holds r1' (MkTicket (replay_key peer req) fp) (t0 + wuspControlReplayTTL) []).
  { eexists. split; [apply lookup_insert_eq|]. by rewrite Hread. }
  destruct (run_keeps sha256 range Hrange _ t0 evs r1' [] Hok1 Hh Hall Hsz) as (r2 & outs & Hrun & Hok2 & Ho & e & Hk & Hf & Hfr & Hre & Hexp).
  cbn [tKey tFingerprint] in *. change (then_reply [] ?x) with x in Hfr.
  exists r2, outs. split_and!; [done|done|]. intros now Hnow. eexists _, (eReady e). split_and!.
  - apply (begin_repeat _ _ _ _ fp); [done|done|done|done|lia].
  - cbn [with_entries closed]. rewrite <- Hfr. by apply (ok_ready r2 Hok2 _ _ Hk).
  - intros Hne. unfold resume_wait. cbn [with_entries controlReplay]. rewrite (expire_lookup _ _ _ _ Hk) by lia.
    rewrite <- Hfr in Hne |- *. by rewrite (proj2 (no_frames_false e) Hne).
Qed.

(** Recovery of lost fragments.  When the fragments of a kept read reply
    are split in any way into those the controller holds and those it lost, asking
    again for the indices of the lost ones (in at most 256 ranges) is the same
    request for the cache, the agent sends exactly the lost fragments, and these
    with the ones held, in any order, reassemble to the reply. *)
Theorem lost_fragments_recovered r peer req now fp e payload held lost missing :
  wuspControlRequestFingerprint sha256 req = Ok fp → IsReadReplayMethod (qMethod req) = true →
  controlReplay r !! replay_key peer req = Some e → eFingerprint e = fp → now ≤ eExpiresAt e →
  fragmentControlPayload req payload = Ok (eFrames e) →
  0 ≤ qID req < 2 ^ 64 → Z.of_nat (length payload) ≤ MaxUSPControlMessageSize →
  held ++ lost ≡ₚ eFrames e → lost ≠ [] →
  (∀ z, z ∈ missing ↔ ∃ f, f ∈ lost ∧ frame_index f = Some z) → (length (runs_of missing) ≤ maxResendFragmentRanges)%nat →
  ∃ r' want, begin_locked sha256 range r peer (resend_request req missing) now = (r', Waiting (replay_key peer req) (eReady e)) ∧
    resume_wait r' (replay_key peer req) (resend_request req missing) = Replay (eFrames e) ∧
    ResendFragments (qMetadata (resend_request req missing)) = Some want ∧
    selectControlFrames (eFrames e) want ≡ₚ lost ∧
    ∀ sent, sent ≡ₚ held ++ selectControlFrames (eFrames e) want →
      ∃ fs, mapM_res DecodeUSPControlFragment sent = Ok (Some <$> fs) ∧ ReassembleUSPControlFragments fs = Ok payload.
Proof.
  intros Hfp Hread Hk He Hexp Hfrag Hid Hlen Hsplit Hlost Hmiss Hruns.
  destruct (reply_frames req payload (eFrames e) Hfrag Hid Hlen) as [(enc & g & n & Hfr & Hn & Henc') Hany].
  assert (Hidx : ∀ f, f ∈ lost → ∃ i, frame_index f = Some (Z.of_nat i) ∧ (i < n)%nat).
  { intros f Hf. assert (Hf' : f ∈ eFrames e) by (rewrite <- Hsplit; apply elem_of_app; by right).
    rewrite Hfr in Hf'. apply list_elem_of_fmap in Hf' as (i & -> & Hi%elem_of_seq). exists i. split; [|lia].
    unfold frame_index. by destruct (Henc' i ltac:(lia)) as [-> ->]. }
  assert (Hmn : missing ≠ []).
  { destruct lost as [|f lost]; [done|]. destruct (Hidx f ltac:(by left)) as (i & Hi & _). intros ->.
    assert (Z.of_nat i ∈ @nil Z) as []%elem_of_nil. apply Hmiss. exists f. split; [by left|done]. }
  assert (Hmc : Forall (fun z => in_count z) missing).
  { apply Forall_forall. intros z (f & Hf & Hz)%Hmiss. destruct (Hidx f Hf) as (i & Hi & Hin). assert (z = Z.of_nat i) as -> by congruence. lia. }
  assert (Hkey : replay_key peer (resend_request req missing) = replay_key peer req).
  { unfold replay_key, resend_request. cbn [with_metadata qMetadata qID]. by rewrite RequestSequence_resend. }
  exists (with_entries r (expire (controlReplay r) now)), (list_to_set missing).
  assert (Hsel : selectControlFrames (eFrames e) (list_to_set missing) ≡ₚ lost).
  { rewrite Hfr in Hsplit |- *. by eapply select_lost. }
  split_and!; [| | |done|].
  - rewrite <- Hkey. apply (begin_repeat _ _ _ _ fp); [by rewrite fingerprint_resend| |by rewrite Hkey|done|done].
    unfold replayableWUSPControlMethod. cbn [resend_request with_metadata qMethod]. by rewrite Hread.
  - unfold resume_wait. cbn [with_entries controlReplay]. rewrite (expire_lookup _ _ _ _ Hk Hexp), (proj2 (no_frames_false e)); [done|].
    intros Hz. rewrite Hz in Hsplit. by apply Permutation_nil_r, app_nil in Hsplit as [_ ->].
  - cbn [resend_request with_metadata qMetadata]. rewrite ResendFragments_With by done. by rewrite (proj2 (Nat.leb_le _ _) Hruns).
  - intros sent Hs. apply Hany. by rewrite Hs, Hsel.
Qed.
End Claims.

(** ** Witnesses *)

#[local] Existing Instance demo_schema.
Definition demo_begin (r : ReplayCache) (req : USPAgentRequest) (now : Z) : ReplayCache * begin_outcome :=
  begin_locked id map_to_list r (bs "p1") req now.
Definition demo_ticket : uspControlReplayTicket :=
  match (demo_begin cache_empty demo_request 0).2 with Execute t => t | _ => MkTicket (MkKey [] 0 0) [] end.
Definition demo_started : ReplayCache := (demo_begin cache_empty demo_request 0).1.

Lemma demo_begin_execute : demo_begin cache_empty demo_request 0 = (demo_started, Execute demo_ticket).
Proof. vm_compute. reflexivity. Qed.

Lemma replay_cache_bounded_witness :
  size (controlReplay demo_started) = 1%nat ∧ (size (controlReplay demo_started) ≤ 256)%nat ∧
  completeControlReplay map_to_list demo_started (Some demo_ticket) [bs "done"] 5 ≠ Panic.
Proof.
  split; [vm_compute; reflexivity|]. assert (rreach id map_to_list demo_started) as Hr.
  { eapply rreach_step; [apply rreach_init|]. eapply RBegin. apply demo_begin_execute. }
  destruct (replay_cache_bounded id map_to_list (λ m, Permutation_refl _) demo_started Hr) as (Hs & _ & _ & Hc & _).
  split; [exact Hs|apply Hc].
Defined.

Definition demo_events : list revent :=
  [EBegin (bs "p1") demo_request 5; EComplete demo_ticket [bs "done"] 6; EBegin (bs "p2") demo_request 7;
   EComplete demo_ticket [bs "late"] 8; EAbort (MkTicket (MkKey (bs "p2") 9 4) [])].
Lemma action_executed_once_witness :
  ∃ r2 outs, run_events id map_to_list demo_started demo_events = Ok (r2, outs) ∧
    (∀ t', Execute t' ∈ outs → tKey t' ≠ tKey demo_ticket) ∧
    ∃ r3 ready, demo_begin r2 demo_request 60 = (r3, Waiting (tKey demo_ticket) ready) ∧
      resume_wait r3 (tKey demo_ticket) demo_request = Replay [bs "done"].
Proof.
  assert (Hreply : reply_of demo_ticket demo_events = [bs "done"]) by (vm_compute; reflexivity).
  destruct (action_executed_once id map_to_list (λ m, Permutation_refl _) cache_empty (bs "p1") demo_request 0 demo_started demo_ticket demo_events)
    as (r2 & outs & Hrun & Ho & Hnext).
  - apply rreach_init.
  - apply demo_begin_execute.
  - reflexivity.
  - unfold wuspControlReplayTTL, seconds.
    repeat (constructor; [split; [intros now [= <-]; lia || (intros now [=])|try discriminate]|]).
    all: try apply Forall_nil_2.
    all: try (intros [=]). all: try (vm_compute; congruence).
  - vm_compute. lia.
  - exists r2, outs. split; [exact Hrun|]. split; [exact Ho|]. destruct (Hnext 60) as (r3 & ready & Hb & _ & Hres).
    { unfold wuspControlReplayTTL, seconds. lia. }
    exists r3, ready. split; [exact Hb|]. rewrite Hreply in Hres. apply Hres. discriminate.
Defined.

(** A Get whose controller takes datagrams of 44 bytes, and its reply in three
    fragments of which the second is lost. *)
Definition demo_get : USPAgentRequest :=
  {| qID := 9; qMethod := USPAgentMethodGet; qPaths := [bs "Device.Hosts."]; qPathCodes := [];
     qPathInstances := []; qObjectPath := []; qObjectCode := 0; qObjectInstances := [];
     qMessage := None; qTransfer := None; qMetadata := WithResponseMaxControlPayload ∅ 44 |}.
Definition demo_payload : bytes := bs "a reply of about sixty bytes, which takes three fragments".
Definition demo_frames : list bytes :=
  match fragmentControlPayload demo_get demo_payload with Ok frames => frames | _ => [] end.
Definition demo_frame (i : nat) : bytes := default [] (demo_frames !! i).
Definition demo_fingerprint : bytes :=
  match wuspControlRequestFingerprint id demo_get with Ok fp => fp | _ => [] end.
Definition demo_entry : uspControlReplayEntry :=
  MkEntry demo_fingerprint demo_frames (frames_size demo_frames) true 0 (30 * seconds).
Definition demo_kept : ReplayCache := MkCache {[replay_key (bs "p1") demo_get := demo_entry]} {[0%nat]} 1.

Lemma lost_fragments_recovered_witness :
  ∃ want, ResendFragments (qMetadata (resend_request demo_get [1])) = Some want ∧
    selectControlFrames demo_frames want ≡ₚ [demo_frame 1] ∧
    ∃ fs, mapM_res DecodeUSPControlFragment [demo_frame 1; demo_frame 2; demo_frame 0] = Ok (Some <$> fs) ∧
      ReassembleUSPControlFragments fs = Ok demo_payload.
Proof.
  destruct (lost_fragments_recovered id map_to_list demo_kept (bs "p1") demo_get 7 demo_fingerprint demo_entry demo_payload
    [demo_frame 0; demo_frame 2] [demo_frame 1] [1]) as (r' & want & _ & _ & Hw & Hsel & Hall).
  - vm_compute. reflexivity.
  - reflexivity.
  - vm_compute. reflexivity.
  - reflexivity.
  - vm_compute. discriminate.
  - vm_compute. reflexivity.
  - vm_compute. split; [discriminate|reflexivity].
  - apply (bool_decide_unpack _). vm_compute. exact I.
  - replace (eFrames demo_entry) with [demo_frame 0; demo_frame 1; demo_frame 2] by (vm_compute; reflexivity).
    apply perm_skip, perm_swap.
  - discriminate.
  - intros z. split.
    + intros ->%list_elem_of_singleton. exists (demo_frame 1). split; [by left|]. vm_compute. reflexivity.
    + intros (f & ->%list_elem_of_singleton & Hf). vm_compute in Hf. injection Hf as <-. by left.
  - apply (bool_decide_unpack _). vm_compute. exact I.
  - exists want. split; [exact Hw|]. split; [exact Hsel|]. apply Hall. change (eFrames demo_entry) with demo_frames.
    rewrite Hsel. cbn [app]. apply (Permutation_trans (perm_skip _ (perm_swap _ _ _))), (Permutation_trans (perm_swap _ _ _)), perm_skip, perm_swap.
Defined.
