(* ===== verification/DeviceModel.v ===== *)
(** * The device data model and its path selectors

    src/internal/wusp/models.go and the path helpers of methods.go: the indexed
    container of parameter and object definitions, the stable 64-bit path codes,
    and the compact selectors (code plus instance numbers) that requests carry
    instead of paths.  The generated tables are arguments of [NewDevice].  A
    [Device] is a non-nil pointer of the source. *)

From S2P Require Import Prelude GoStr Wire.

(** ** Letter case

    strings.ToLower and strings.EqualFold treat ASCII strings themselves; for the
    rest they consult the tables of package unicode, which are a parameter. *)
Class UnicodeCase : Type := {
  unicode_ToLower : bytes → bytes;
  unicode_EqualFold : bytes → bytes → bool }.

Definition ascii (s : bytes) : bool := forallb (fun c => b2z c <? 128) s.
Definition lower_byte (c : byte) : byte := if (65 <=? b2z c) && (b2z c <=? 90) then z2b (b2z c + 32) else c.
Definition ToLower `{UnicodeCase} (s : bytes) : bytes := if ascii s then lower_byte <$> s else unicode_ToLower s.
Definition EqualFold `{UnicodeCase} (s t : bytes) : bool :=
  if ascii s && ascii t then bool_decide (lower_byte <$> s = lower_byte <$> t) else unicode_EqualFold s t.

(** strings.Count for a non-empty needle: occurrences that do not overlap. *)
Fixpoint count_loop (fuel : nat) (s p : bytes) : nat :=
  match fuel with
  | O => 0
  | S fuel =>
      match s with
      | [] => 0
      | _ :: t => if HasPrefix s p then S (count_loop fuel (drop (length p) s) p) else count_loop fuel t p
      end
  end.
Definition Count (s p : bytes) : nat := count_loop (length s) s p.

(** ** Definitions *)

Record Limits := MkLimits
  { lMin : option Z; lMax : option Z; lMinF : option Z; lMaxF : option Z; lMinLength : Z; lMaxLength : Z;
    lEnums : list bytes; lPattern : bytes; lMinItems : Z; lMaxItems : Z }.
Record Param := MkParam
  { mPath : bytes; mType : bytes; mAccess : bytes; mSinceVersion : bytes; mDescription : bytes; mLimits : Limits }.
Record Object := MkObject
  { oPath : bytes; oMultiInstance : bool; oSinceVersion : bytes; oDescription : bytes }.
Record ImportedModelSummary := MkSummary
  { sID : bytes; sFileName : bytes; sName : bytes; sModelVersion : bytes; sSource : bytes; sSourceURL : bytes;
    sObjectCount : Z; sParamCount : Z }.
Record Device := MkDevice
  { Root : bytes; Summary : ImportedModelSummary; Objects : list Object; Params : list Param;
    objectIndex : gmap bytes nat; paramIndex : gmap bytes nat; pathCode : gmap bytes Z; codePath : gmap Z bytes }.
Record PathSelector := MkSelector { Code : Z; Instances : list Z }.

Definition dot : byte := z2b 46.
Definition token : bytes := bs "{i}".

Definition isNumericPathSegment (part : bytes) : bool :=
  negb (length part =? 0)%nat && forallb is_digit part.
Definition canonical_segment (part : bytes) : bytes :=
  if (length part =? 0)%nat || bool_decide (part = token) then part
  else if isNumericPathSegment part then token else part.
Definition canonicalParamPath (path : bytes) : bytes :=
  if (length path =? 0)%nat then [] else Join (canonical_segment <$> Split path dot) dot.

Section Model.
Context `{UnicodeCase}.

Definition normalizeDeviceLookupPath (path : bytes) : bytes :=
  let path := TrimSpace path in
  if (length path =? 0)%nat then [] else ToLower path.
Definition normalizeCanonicalDeviceLookupPath (path : bytes) : bytes :=
  normalizeDeviceLookupPath (canonicalParamPath path).

Definition fnv64a_byte (h : Z) (b : byte) : Z := u64 (Z.lxor h (b2z b) * 1099511628211).
Definition fnv64a (data : bytes) : Z := foldl fnv64a_byte 14695981039346656037 data.
Definition EncodePathCode (path : bytes) : Z :=
  let path := normalizeCanonicalDeviceLookupPath path in
  if (length path =? 0)%nat then 0
  else let code := fnv64a path in if code =? 0 then 1 else code.

Definition rootFromPath (path : bytes) : bytes :=
  let path := TrimSpace path in
  if (length path =? 0)%nat then [] else
  match Split path dot with
  | [] | [] :: _ => []
  | first :: _ => ToLower first ++ [dot]
  end.
Definition detectDeviceRoot (objects : list Object) (params : list Param) : bytes :=
  match List.filter (fun r => negb (length r =? 0)%nat)
          (((rootFromPath ∘ oPath) <$> objects) ++ ((rootFromPath ∘ mPath) <$> params)) with
  | root :: _ => root
  | [] => bs "device."
  end.

Definition Paths (d : Device) : list bytes := SortStrings ((oPath <$> Objects d) ++ (mPath <$> Params d)).

(** Path codes: a collision of two different paths is a panic of the program's
    start. *)
Definition assignPathCode (d : Device) (key path : bytes) : res werr Device :=
  if (length key =? 0)%nat then Ok d else
  match pathCode d !! key with
  | Some _ => Ok d
  | None =>
      let code := EncodePathCode path in
      if code =? 0 then Ok d else
      let assign := Ok (MkDevice (Root d) (Summary d) (Objects d) (Params d) (objectIndex d) (paramIndex d)
                          (<[key := code]> (pathCode d)) (<[code := path]> (codePath d))) in
      match codePath d !! code with
      | Some existing => if bool_decide (normalizeDeviceLookupPath existing = key) then assign else Panic
      | None => assign
      end
  end.
Fixpoint assign_paths (d : Device) (paths : list bytes) : res werr Device :=
  match paths with
  | [] => Ok d
  | path :: paths =>
      let key := normalizeDeviceLookupPath path in
      d ← (match pathCode d !! key with Some _ => Ok d | None => assignPathCode d key path end);
      assign_paths d paths
  end.
Definition buildPathCodes (d : Device) : res werr Device := assign_paths d (Paths d).

(** [for i, x := range xs { index[normalize(x.Path)] = i }] *)
Fixpoint build_index (i : nat) (paths : list bytes) (index : gmap bytes nat) : gmap bytes nat :=
  match paths with
  | [] => index
  | path :: paths => build_index (S i) paths (<[normalizeDeviceLookupPath path := i]> index)
  end.
Definition NewDevice (summary : ImportedModelSummary) (objects : list Object) (params : list Param) : res werr Device :=
  buildPathCodes (MkDevice (detectDeviceRoot objects params) summary objects params
    (build_index 0 (oPath <$> objects) ∅) (build_index 0 (mPath <$> params) ∅) ∅ ∅).
Definition Clone (d : Device) : res werr Device := NewDevice (Summary d) (Objects d) (Params d).

(** ** Lookups *)

(** The index of a path as given, or of its schema form. *)
Definition find_index (index : gmap bytes nat) (path : bytes) : option nat :=
  match index !! normalizeDeviceLookupPath path with
  | Some i => Some i
  | None => index !! normalizeCanonicalDeviceLookupPath path
  end.
(** [xs[i]]: out of range is a panic. *)
Definition at_index {A} (l : list A) (i : nat) : res werr (option A) :=
  match l !! i with Some x => Ok (Some x) | None => Panic end.
Definition GetParam (d : Device) (path : bytes) : res werr (option Param) :=
  match find_index (paramIndex d) path with Some i => at_index (Params d) i | None => Ok None end.
Definition GetObject (d : Device) (path : bytes) : res werr (option Object) :=
  match find_index (objectIndex d) path with Some i => at_index (Objects d) i | None => Ok None end.

Definition Search (d : Device) (prefix : bytes) : res werr Device :=
  let prefix := normalizeDeviceLookupPath prefix in
  if (length prefix =? 0)%nat then Clone d else
  let objects := List.filter (fun o => HasPrefix (normalizeDeviceLookupPath (oPath o)) prefix) (Objects d) in
  let params := List.filter (fun p => HasPrefix (normalizeDeviceLookupPath (mPath p)) prefix) (Params d) in
  let s := Summary d in
  NewDevice (MkSummary (sID s) (sFileName s) (sName s) (sModelVersion s) (sSource s) (sSourceURL s)
               (Z.of_nat (length objects)) (Z.of_nat (length params))) objects params.

Definition PathCode (d : Device) (path : bytes) : option Z :=
  match pathCode d !! normalizeDeviceLookupPath path with
  | Some code => Some code
  | None => pathCode d !! normalizeCanonicalDeviceLookupPath path
  end.
Definition PathByCode (d : Device) (code : Z) : option bytes :=
  if code =? 0 then None else codePath d !! code.
Definition GetParamByCode (d : Device) (code : Z) : res werr (option Param) :=
  match PathByCode d code with Some path => GetParam d path | None => Ok None end.
Definition GetObjectByCode (d : Device) (code : Z) : res werr (option Object) :=
  match PathByCode d code with Some path => GetObject d path | None => Ok None end.
Definition BatchPathCodes (d : Device) (paths : list bytes) : list Z := omap (PathCode d) paths.
Definition BatchPathsByCode (d : Device) (codes : list Z) : list bytes := omap (PathByCode d) codes.

Definition CanonicalPath (d : Device) (path : bytes) : option bytes :=
  let known key := bool_decide (is_Some (paramIndex d !! key)) || bool_decide (is_Some (objectIndex d !! key)) in
  if known (normalizeDeviceLookupPath path) then Some path else
  let canonical := canonicalParamPath (TrimSpace path) in
  if known (normalizeDeviceLookupPath canonical) then Some canonical else None.

(** ** Selectors *)

(** The loop over the segments; [hasConcrete] is the second component. *)
Fixpoint instances_loop (pathParts canonicalParts : list bytes) : option (list Z * bool) :=
  match pathParts, canonicalParts with
  | part :: pathParts, canonical :: canonicalParts =>
      if bool_decide (canonical = token) then
        if bool_decide (part = token) then
          match instances_loop pathParts canonicalParts with
          | Some (instances, concrete) => Some (0 :: instances, concrete)
          | None => None
          end
        else if isNumericPathSegment part then
          match ParseUint part 64 with
          | Some value =>
              if value =? 0 then None else
              match instances_loop pathParts canonicalParts with
              | Some (instances, _) => Some (value :: instances, true)
              | None => None
              end
          | None => None
          end
        else None
      else if EqualFold part canonical then instances_loop pathParts canonicalParts else None
  | _, _ => Some ([], false)
  end.
Definition selectorInstancesFromPath (path canonical : bytes) : option (list Z) :=
  let path := TrimSpace path in
  let canonical := TrimSpace canonical in
  if (length path =? 0)%nat || (length canonical =? 0)%nat then None else
  let pathParts := Split path dot in
  let canonicalParts := Split canonical dot in
  if negb (length pathParts =? length canonicalParts)%nat then None else
  match instances_loop pathParts canonicalParts with
  | Some (instances, hasConcrete) => Some (if hasConcrete then instances else [])
  | None => None
  end.

(** [instances[index]] past the end is a panic. *)
Fixpoint apply_loop (parts : list bytes) (instances : list Z) : res werr (list bytes) :=
  match parts with
  | [] => Ok []
  | part :: parts =>
      if bool_decide (part = token) then
        match instances with
        | [] => Panic
        | n :: instances =>
            rest ← apply_loop parts instances;
            Ok ((if n =? 0 then part else FormatUint n) :: rest)
        end
      else rest ← apply_loop parts instances; Ok (part :: rest)
  end.
Definition applySelectorInstances (canonical : bytes) (instances : list Z) : res werr (option bytes) :=
  if (length canonical =? 0)%nat then Ok None else
  let tokenCount := Count canonical token in
  if (tokenCount =? 0)%nat then Ok (if (length instances =? 0)%nat then Some canonical else None) else
  if (length instances =? 0)%nat then Ok (Some canonical) else
  if negb (length instances =? tokenCount)%nat then Ok None else
  parts ← apply_loop (Split canonical dot) instances;
  Ok (Some (Join parts dot)).

Definition Device_SelectorForPath (d : Device) (path : bytes) : option PathSelector :=
  match CanonicalPath d path with
  | None => None
  | Some canonical =>
      match PathCode d canonical with
      | None => None
      | Some code =>
          if code =? 0 then None else
          match selectorInstancesFromPath path canonical with
          | Some instances => Some (MkSelector code instances)
          | None => None
          end
      end
  end.
Definition Device_PathForSelector (d : Device) (selector : PathSelector) : res werr (option bytes) :=
  if Code selector =? 0 then Ok None else
  match PathByCode d (Code selector) with
  | None => Ok None
  | Some canonical => applySelectorInstances canonical (Instances selector)
  end.
Definition BatchSelectors (d : Device) (paths : list bytes) : list PathSelector := omap (Device_SelectorForPath d) paths.

(** ** Extending the model *)

Definition SetParam (d : Device) (param : Param) : res werr Device :=
  if (length (TrimSpace (mPath param)) =? 0)%nat then Ok d else
  let key := normalizeDeviceLookupPath (mPath param) in
  match paramIndex d !! key with
  | Some idx =>
      if (idx <? length (Params d))%nat then
        Ok (MkDevice (Root d) (Summary d) (Objects d) (<[idx := param]> (Params d)) (objectIndex d) (paramIndex d) (pathCode d) (codePath d))
      else Panic
  | None =>
      d ← assignPathCode (MkDevice (Root d) (Summary d) (Objects d) (Params d) (objectIndex d)
                            (<[key := length (Params d)]> (paramIndex d)) (pathCode d) (codePath d)) key (mPath param);
      Ok (MkDevice (Root d) (Summary d) (Objects d) (Params d ++ [param]) (objectIndex d) (paramIndex d) (pathCode d) (codePath d))
  end.
Definition SetObject (d : Device) (object : Object) : res werr Device :=
  if (length (TrimSpace (oPath object)) =? 0)%nat then Ok d else
  let key := normalizeDeviceLookupPath (oPath object) in
  match objectIndex d !! key with
  | Some idx =>
      if (idx <? length (Objects d))%nat then
        Ok (MkDevice (Root d) (Summary d) (<[idx := object]> (Objects d)) (Params d) (objectIndex d) (paramIndex d) (pathCode d) (codePath d))
      else Panic
  | None =>
      d ← assignPathCode (MkDevice (Root d) (Summary d) (Objects d) (Params d) (<[key := length (Objects d)]> (objectIndex d))
                            (paramIndex d) (pathCode d) (codePath d)) key (oPath object);
      Ok (MkDevice (Root d) (Summary d) (Objects d ++ [object]) (Params d) (objectIndex d) (paramIndex d) (pathCode d) (codePath d))
  end.
Fixpoint BatchSetParams (d : Device) (params : list Param) : res werr Device :=
  match params with [] => Ok d | p :: params => d ← SetParam d p; BatchSetParams d params end.
Fixpoint BatchAddObjects (d : Device) (objects : list Object) : res werr Device :=
  match objects with [] => Ok d | o :: objects => d ← SetObject d o; BatchAddObjects d objects end.
End Model.
