(* ===== verification/DeviceModelProps.v ===== *)
(** * Selectors name paths

    Codes and instance numbers resolve back to the path they were made from, for
    every path spelled as in the model; this is what the request codec needs of
    the data model, and with it request round trips hold for real data models. *)

From S2P Require Import Prelude GoStr Wire Codec Fragments ReadReplay Transport Request DeviceModel.

(** ** Splitting *)

Lemma Split_Forall (P : byte → Prop) s sep : Forall P s → Forall (Forall P) (Split s sep).
Proof.
  induction 1 as [|c s Hc Hs IH]; [by repeat constructor|]. cbn [Split]. destruct (decide (c = sep)); [by constructor|].
  destruct (Split s sep) as [|p ps]; [by repeat constructor|]. apply Forall_cons in IH as [Hp Hps]. by repeat constructor.
Qed.
Lemma Split_no_dot s sep : Forall (fun p => sep ∉ p) (Split s sep).
Proof.
  induction s as [|c s IH]; cbn [Split]; [constructor; [by intros ?%elem_of_nil|done]|]. destruct (decide (c = sep)); [constructor; [by intros ?%elem_of_nil|done]|].
  destruct (Split s sep) as [|p ps]; [constructor; [set_solver|done]|]. apply Forall_cons in IH as [Hp Hps]. constructor; [|done].
  intros [->|?]%elem_of_cons; done.
Qed.
Lemma Join_Forall (P : byte → Prop) ps sep : P sep → Forall (Forall P) ps → Forall P (Join ps sep).
Proof.
  intros Hsep. induction 1 as [|p ps Hp Hps IH]; [done|]. destruct ps as [|q ps]; [done|].
  rewrite Join_cons by done. apply Forall_app. split; [done|]. by constructor.
Qed.
Lemma Split_inj s t sep : Split s sep = Split t sep → s = t.
Proof. intros He. rewrite <- (Join_Split s sep), <- (Join_Split t sep). by rewrite He. Qed.
Lemma Split_map (f : byte → byte) (s : bytes) sep :
  (∀ c, f c = sep ↔ c = sep) → Split (f <$> s) sep = (fun p : bytes => f <$> p) <$> Split s sep.
Proof.
  intros Hf. induction s as [|c s IH]; [done|]. rewrite fmap_cons. cbn [Split]. destruct (decide (c = sep)) as [->|Hc].
  - rewrite decide_True by (by apply Hf). by rewrite IH.
  - rewrite decide_False by (by rewrite Hf). rewrite IH. by destruct (Split s sep).
Qed.

(** ** Letter case of graphic strings *)

Lemma graphic_ascii s : Forall (fun c => graphic c = true) s → ascii s = true.
Proof.
  intros Hs. unfold ascii. apply forallb_forall. intros c Hc%list_elem_of_In. rewrite Forall_forall in Hs.
  specialize (Hs c Hc). unfold graphic in Hs. apply andb_true_iff in Hs as [_ Hlt%Z.ltb_lt]. apply Z.ltb_lt. lia.
Qed.
Lemma lower_byte_dot c : lower_byte c = dot ↔ c = dot.
Proof. by destruct c. Qed.
Lemma lower_byte_digit c : is_digit (lower_byte c) = is_digit c.
Proof. by destruct c. Qed.
Lemma lower_numeric x : isNumericPathSegment (lower_byte <$> x) = isNumericPathSegment x.
Proof.
  unfold isNumericPathSegment. rewrite length_fmap. f_equal. induction x as [|c x IH]; [done|].
  rewrite fmap_cons. cbn [forallb]. by rewrite lower_byte_digit, IH.
Qed.

Section Props.
Context `{UnicodeCase}.

Lemma EqualFold_refl s : ascii s = true → EqualFold s s = true.
Proof. intros Hs. unfold EqualFold. rewrite Hs. cbn [andb]. by apply bool_decide_eq_true. Qed.
Lemma normalize_graphic s : s ≠ [] → Forall (fun c => graphic c = true) s → normalizeDeviceLookupPath s = lower_byte <$> s.
Proof.
  intros Hne Hs. unfold normalizeDeviceLookupPath. rewrite TrimSpace_graphic by done. rewrite (proj2 (Nat.eqb_neq _ 0)) by (by destruct s).
  unfold ToLower. by rewrite graphic_ascii.
Qed.

(** ** Well-formed model paths and their instances *)

Definition tokens (parts : list bytes) : nat := length (List.filter (fun s => bool_decide (s = token)) parts).
Definition model_path (m : bytes) : Prop :=
  m ≠ [] ∧ Forall (fun c => graphic c = true) m ∧ Forall (fun s => isNumericPathSegment s = false) (Split m dot) ∧
  Count m token = tokens (Split m dot).
#[export] Instance model_path_dec m : Decision (model_path m).
Proof. unfold model_path. apply _. Defined.

(** A segment of a concrete path: instance numbers, or the token itself, in the
    place of a token. *)
Definition segment_of (s x : bytes) : Prop :=
  if decide (s = token) then x = token ∨ ∃ n, 0 < n < 2 ^ 64 ∧ x = FormatUint n else x = s.
Definition instance_of (m p : bytes) : Prop := Forall2 segment_of (Split m dot) (Split p dot).

Lemma FormatUint_numeric n : 0 ≤ n → isNumericPathSegment (FormatUint n) = true.
Proof.
  intros Hn. unfold isNumericPathSegment. pose proof (FormatUint_nonempty n) as Hne. rewrite (proj2 (Nat.eqb_neq _ 0)) by (by destruct (FormatUint n)).
  cbn [negb andb]. apply forallb_forall. intros c Hc%list_elem_of_In. pose proof (FormatUint_digits n Hn) as Hd. rewrite Forall_forall in Hd. by apply Hd.
Qed.
Lemma numeric_not_token x : isNumericPathSegment x = true → x ≠ token.
Proof. by intros Hx ->. Qed.

Lemma canonical_segment_of s x : isNumericPathSegment s = false → segment_of s x → canonical_segment x = s.
Proof.
  unfold segment_of, canonical_segment. intros Hs Hx. destruct (decide (s = token)) as [->|Hne].
  - destruct Hx as [->|(n & Hn & ->)]; [done|]. pose proof (FormatUint_nonempty n) as Hf.
    rewrite (proj2 (Nat.eqb_neq _ 0)) by (by destruct (FormatUint n)). cbn [orb].
    rewrite bool_decide_false by (apply numeric_not_token, FormatUint_numeric; lia). by rewrite FormatUint_numeric by lia.
  - subst x. destruct (_ || _); [done|]. by rewrite Hs.
Qed.
Lemma segment_graphic s x : Forall (fun c => graphic c = true) s → segment_of s x → Forall (fun c => graphic c = true) x.
Proof.
  unfold segment_of. destruct (decide (s = token)) as [->|Hne]; [|by intros ? ->].
  intros Ht [->|(n & Hn & ->)]; [done|]. apply FormatUint_graphic. lia.
Qed.

Lemma segments_graphic ss xs :
  Forall2 segment_of ss xs → Forall (Forall (fun c => graphic c = true)) ss → Forall (Forall (fun c => graphic c = true)) xs.
Proof.
  induction 1 as [|s x ss xs Hs _ IH]; [done|]. intros [Hg1 Hg2]%Forall_cons. constructor; [by eapply segment_graphic|by apply IH].
Qed.
Lemma segments_canonical ss xs :
  Forall2 segment_of ss xs → Forall (fun s => isNumericPathSegment s = false) ss → canonical_segment <$> xs = ss.
Proof.
  induction 1 as [|s x ss xs Hs _ IH]; [done|]. intros [Hn1 Hn2]%Forall_cons. rewrite fmap_cons.
  rewrite (canonical_segment_of s x Hn1 Hs). f_equal. by apply IH.
Qed.
Lemma segments_differ ss xs :
  Forall2 segment_of ss xs → xs ≠ ss → Exists (fun x => isNumericPathSegment x = true) xs.
Proof.
  induction 1 as [|s x ss xs Hsx _ IH]; [done|]. intros Hne. unfold segment_of in Hsx.
  destruct (decide (s = token)) as [->|_]; [destruct Hsx as [->|(n & Hn & ->)]|subst x].
  - apply Exists_cons_tl, IH. congruence.
  - apply Exists_cons_hd, FormatUint_numeric. lia.
  - apply Exists_cons_tl, IH. congruence.
Qed.

Section Instance.
Context (m p : bytes) (Hm : model_path m) (Hp : instance_of m p).

Lemma instance_nonempty : p ≠ [].
Proof using Hm Hp.
  destruct Hm as (Hne & _). intros ->. unfold instance_of in Hp. cbn [Split] in Hp.
  apply Forall2_cons_inv_r in Hp as (s & ss & Hs & ->%Forall2_nil_inv_r & E). unfold segment_of in Hs.
  destruct (decide (s = token)) as [->|_].
  - destruct Hs as [Hs|(n & _ & Hs)]; [done|]. by apply (FormatUint_nonempty n).
  - subst s. apply Hne. by apply (Split_inj m [] dot).
Qed.
Lemma instance_graphic : Forall (fun c => graphic c = true) p.
Proof using Hm Hp.
  rewrite <- (Join_Split p dot). apply Join_Forall; [done|]. eapply segments_graphic; [exact Hp|]. apply Split_Forall, Hm.
Qed.
Lemma instance_canonical : canonicalParamPath p = m.
Proof using Hm Hp.
  unfold canonicalParamPath. pose proof instance_nonempty as Hne. rewrite (proj2 (Nat.eqb_neq _ 0)) by (by destruct p).
  rewrite (segments_canonical _ _ Hp) by apply Hm. apply Join_Split.
Qed.
Lemma instance_differs : p ≠ m → Exists (fun x => isNumericPathSegment x = true) (Split p dot).
Proof using Hp. intros Hne. eapply segments_differ; [exact Hp|]. intros He. apply Hne. by eapply Split_inj. Qed.
End Instance.

(** ** The two loops over the segments are inverse *)

Lemma segments_instances ss xs :
  Forall2 segment_of ss xs → Forall (fun s => ascii s = true) ss →
  ∃ insts concrete, instances_loop xs ss = Some (insts, concrete) ∧ length insts = tokens ss ∧
    Forall (fun n => 0 ≤ n < 2 ^ 64) insts ∧ apply_loop ss insts = Ok xs ∧ (concrete = false → xs = ss) ∧ (concrete = true → insts ≠ []).
Proof.
  induction 1 as [|s x ss xs Hs _ IH]; [intros _; by exists [], false|]. intros [Ha1 Ha2]%Forall_cons.
  destruct (IH Ha2) as (insts & c & Hi & Hl & Hr & Happ & Hc & Hcne). unfold segment_of in Hs. cbn [instances_loop apply_loop].
  unfold tokens. cbn [List.filter]. fold (tokens ss). destruct (decide (s = token)) as [->|Hne].
  - rewrite (bool_decide_true (token = token)) by done. destruct Hs as [->|(n & Hn & ->)].
    + rewrite bool_decide_true by done. rewrite Hi. exists (0 :: insts), c. split_and!; [done|cbn [length]; by rewrite Hl| |by rewrite Happ|intros ->; by rewrite Hc|done].
      constructor; [lia|done].
    + rewrite bool_decide_false by (apply numeric_not_token, FormatUint_numeric; lia). rewrite FormatUint_numeric by lia.
      rewrite ParseUint_FormatUint by lia. rewrite (proj2 (Z.eqb_neq n 0)) by lia. rewrite Hi. exists (n :: insts), true.
      split_and!; [done|cbn [length]; by rewrite Hl|constructor; [lia|done]| |done|done].
      rewrite Happ. cbn [mbind res_bind]. by rewrite (proj2 (Z.eqb_neq n 0)) by lia.
  - subst x. rewrite bool_decide_false by done. rewrite EqualFold_refl by done. rewrite Hi. exists insts, c.
    rewrite Happ. cbn [mbind res_bind]. split_and!; [done|done|done|done|intros ->; by rewrite Hc|done].
Qed.

Lemma segments_ascii m : Forall (fun c => graphic c = true) m → Forall (fun s => ascii s = true) (Split m dot).
Proof. intros Hg%(Split_Forall _ _ dot). eapply Forall_impl; [exact Hg|]. apply graphic_ascii. Qed.

(** What the selector of an instance carries, and that it gives the instance
    back. *)
Lemma instance_selector m p :
  model_path m → instance_of m p →
  ∃ insts, selectorInstancesFromPath p m = Some insts ∧ Forall (fun n => 0 ≤ n < 2 ^ 64) insts ∧
    applySelectorInstances m insts = Ok (Some p).
Proof.
  intros Hm Hp. pose proof (instance_nonempty m p Hm Hp) as Hpne. pose proof (instance_graphic m p Hm Hp) as Hpg.
  destruct Hm as (Hne & Hg & _ & Hcount). unfold selectorInstancesFromPath. rewrite !TrimSpace_graphic by done.
  rewrite (proj2 (Nat.eqb_neq (length p) 0)) by (by destruct p). rewrite (proj2 (Nat.eqb_neq (length m) 0)) by (by destruct m). cbn [orb].
  rewrite <- (Forall2_length _ _ _ Hp), Nat.eqb_refl. cbn [negb].
  destruct (segments_instances _ _ Hp (segments_ascii m Hg)) as (insts & c & -> & Hl & Hr & Happ & Hc & Hcne).
  exists (if c then insts else []). split_and!; [done|by destruct c|]. unfold applySelectorInstances.
  rewrite (proj2 (Nat.eqb_neq (length m) 0)) by (by destruct m). rewrite Hcount, <- Hl. destruct c.
  - assert (length insts ≠ 0%nat) by (specialize (Hcne eq_refl); by destruct insts). rewrite (proj2 (Nat.eqb_neq _ 0)) by done.
    rewrite Nat.eqb_refl. cbn [negb]. rewrite Happ. cbn [mbind res_bind]. by rewrite Join_Split.
  - assert (p = m) as -> by (eapply Split_inj; by apply Hc). by destruct (length insts =? 0)%nat.
Qed.

(** Whatever the instance numbers, a model path's selector does not panic. *)
Lemma apply_loop_ok parts insts : length insts = tokens parts → ∃ out, apply_loop parts insts = Ok out.
Proof.
  revert insts. induction parts as [|s parts IH]; intros insts Hl; [by eexists|]. cbn [apply_loop]. unfold tokens in Hl. cbn [List.filter] in Hl.
  destruct (bool_decide (s = token)).
  - destruct insts as [|n insts]; [done|]. cbn [length] in Hl. destruct (IH insts) as (out & ->); [unfold tokens; lia|]. by eexists.
  - destruct (IH insts) as (out & ->); [done|]. by eexists.
Qed.
Lemma apply_no_panic m insts : model_path m → ∃ o, applySelectorInstances m insts = Ok o.
Proof.
  intros (_ & _ & _ & Hcount). unfold applySelectorInstances. destruct (length m =? 0)%nat; [by eexists|].
  destruct (Count m token =? 0)%nat; [by eexists|]. destruct (length insts =? 0)%nat; [by eexists|].
  destruct (Nat.eqb_spec (length insts) (Count m token)) as [Hl|]; cbn [negb]; [|by eexists].
  destruct (apply_loop_ok (Split m dot) insts) as (out & ->); [by rewrite <- Hcount|]. by eexists.
Qed.

(** ** Path codes *)

Definition model_paths (d : Device) : list bytes := (oPath <$> Objects d) ++ (mPath <$> Params d).

(** Codes and paths are in bijection, and every code is the code of its path. *)
Record codes_ok (d : Device) (known : list bytes) : Prop := {
  code_has_path : ∀ key code, pathCode d !! key = Some code →
    ∃ path, codePath d !! code = Some path ∧ normalizeDeviceLookupPath path = key;
  path_has_code : ∀ code path, codePath d !! code = Some path →
    pathCode d !! normalizeDeviceLookupPath path = Some code ∧ code = EncodePathCode path ∧ code ≠ 0 ∧ path ∈ known }.

Lemma EncodePathCode_range path : 0 ≤ EncodePathCode path < 2 ^ 64.
Proof.
  unfold EncodePathCode. destruct (_ =? _)%nat; [lia|]. assert (0 ≤ fnv64a (normalizeCanonicalDeviceLookupPath path) < 2 ^ 64); [|destruct (_ =? 0); lia].
  unfold fnv64a. assert (Hf : ∀ l h, 0 ≤ h < 2 ^ 64 → 0 ≤ foldl fnv64a_byte h l < 2 ^ 64); [|by apply Hf].
  induction l as [|b l IH]; intros h Hh; [done|]. cbn [foldl]. apply IH. unfold fnv64a_byte. apply wrap_range. lia.
Qed.

Lemma assign_code d key path known d' :
  assignPathCode d key path = Ok d' → key = normalizeDeviceLookupPath path → path ∈ known → codes_ok d known →
  codes_ok d' known ∧ Objects d' = Objects d ∧ Params d' = Params d ∧ objectIndex d' = objectIndex d ∧ paramIndex d' = paramIndex d ∧
  (∀ k, is_Some (pathCode d !! k) → is_Some (pathCode d' !! k)) ∧
  (key ≠ [] → EncodePathCode path ≠ 0 → is_Some (pathCode d' !! key)).
Proof.
  unfold assignPathCode. intros Ha -> Hin Hok. destruct (Nat.eqb_spec (length (normalizeDeviceLookupPath path)) 0) as [Hz|Hz].
  { injection Ha as <-. split_and!; try done. by apply length_zero_iff_nil in Hz. }
  destruct (pathCode d !! normalizeDeviceLookupPath path) as [c|] eqn:Hc.
  { injection Ha as <-. split_and!; try done. }
  destruct (Z.eqb_spec (EncodePathCode path) 0) as [Hz0|Hz0]; [injection Ha as <-; by split_and!|].
  destruct (codePath d !! EncodePathCode path) as [existing|] eqn:He.
  { destruct (path_has_code d known Hok _ _ He) as (Hpc & _). case_bool_decide; [|done]. congruence. }
  injection Ha as <-. cbn [Objects Params objectIndex paramIndex pathCode codePath]. split_and!; try done.
  - split; cbn [pathCode codePath].
    + intros key code [[<- <-]|[Hne Hk]]%lookup_insert_Some.
      * exists path. by rewrite lookup_insert_eq.
      * destruct (code_has_path d known Hok key code Hk) as (q & Hq & Hn). exists q. split; [|done]. rewrite lookup_insert_ne; [done|]. congruence.
    + intros code q [[<- <-]|[Hne Hq]]%lookup_insert_Some.
      * by rewrite lookup_insert_eq.
      * destruct (path_has_code d known Hok code q Hq) as (Hk & Hcode & Hnz & Hin'). split_and!; try done.
        rewrite lookup_insert_ne; [done|]. congruence.
  - intros k [c Hk]. destruct (decide (k = normalizeDeviceLookupPath path)) as [->|Hne]; [by rewrite lookup_insert_eq|].
    rewrite lookup_insert_ne by done. by exists c.
  - intros _ _. rewrite lookup_insert_eq. by eexists.
Qed.

Lemma assign_paths_codes paths known : ∀ d d',
  assign_paths d paths = Ok d' → (∀ q, q ∈ paths → q ∈ known) → codes_ok d known →
  codes_ok d' known ∧ Objects d' = Objects d ∧ Params d' = Params d ∧ objectIndex d' = objectIndex d ∧ paramIndex d' = paramIndex d ∧
  (∀ k, is_Some (pathCode d !! k) → is_Some (pathCode d' !! k)) ∧
  (∀ q, q ∈ paths → normalizeDeviceLookupPath q ≠ [] → EncodePathCode q ≠ 0 → is_Some (pathCode d' !! normalizeDeviceLookupPath q)).
Proof.
  induction paths as [|path paths IH]; intros d d' Ha Hin Hok; cbn [assign_paths] in Ha.
  { injection Ha as <-. split_and!; try done. by intros q ?%elem_of_nil. }
  apply bind_ok in Ha as (d1 & H1 & Ha).
  assert (Hstep : codes_ok d1 known ∧ Objects d1 = Objects d ∧ Params d1 = Params d ∧ objectIndex d1 = objectIndex d ∧ paramIndex d1 = paramIndex d ∧
    (∀ k, is_Some (pathCode d !! k) → is_Some (pathCode d1 !! k)) ∧
    (normalizeDeviceLookupPath path ≠ [] → EncodePathCode path ≠ 0 → is_Some (pathCode d1 !! normalizeDeviceLookupPath path))).
  { destruct (pathCode d !! normalizeDeviceLookupPath path) as [c|] eqn:Hc.
    - injection H1 as <-. split_and!; try done.
    - eapply assign_code; [exact H1|done| |done]. apply Hin. by left. }
  destruct Hstep as (Hok1 & E1 & E2 & E3 & E4 & Hmono1 & Hset1).
  destruct (IH d1 d' Ha) as (Hok2 & F1 & F2 & F3 & F4 & Hmono2 & Hset2); [intros q Hq; apply Hin; by right|done|].
  split_and!; try congruence; try done.
  - intros k Hk. by apply Hmono2, Hmono1.
  - intros q [->|Hq]%elem_of_cons Hne Hz; [by apply Hmono2, Hset1|by apply Hset2].
Qed.

Lemma build_index_lookup paths key : ∀ i index,
  is_Some (build_index i paths index !! key) ↔ is_Some (index !! key) ∨ key ∈ normalizeDeviceLookupPath <$> paths.
Proof.
  induction paths as [|path paths IH]; intros i index; cbn [build_index]; [rewrite fmap_nil; set_solver|].
  rewrite IH, fmap_cons, elem_of_cons. destruct (decide (key = normalizeDeviceLookupPath path)) as [->|Hne].
  - rewrite lookup_insert_eq. split; [tauto|]. intros _. left. by eexists.
  - rewrite lookup_insert_ne by done. tauto.
Qed.

(** ** A device built from a well-formed model *)

Definition same_case (m m' : bytes) : Prop := lower_byte <$> m = lower_byte <$> m' → m = m'.
#[export] Instance same_case_dec m m' : Decision (same_case m m').
Proof. unfold same_case. apply _. Defined.
Definition model_wf (paths : list bytes) : Prop :=
  Forall model_path paths ∧ Forall (fun m => Forall (same_case m) paths) paths.
#[export] Instance model_wf_dec paths : Decision (model_wf paths).
Proof. unfold model_wf. apply _. Defined.

Section Device.
Context (summary : ImportedModelSummary) (objects : list Object) (params : list Param) (d : Device).
Let paths := (oPath <$> objects) ++ (mPath <$> params).
Context (Hnew : NewDevice summary objects params = Ok d) (Hwf : model_wf paths).

Lemma model_graphic m : m ∈ paths → model_path m ∧ normalizeDeviceLookupPath m = lower_byte <$> m.
Proof using Hwf.
  intros Hm. destruct Hwf as [Hall _]. rewrite Forall_forall in Hall. pose proof (Hall m Hm) as Hmp. split; [done|].
  apply normalize_graphic; apply Hmp.
Qed.
Lemma model_case m m' : m ∈ paths → m' ∈ paths → lower_byte <$> m = lower_byte <$> m' → m = m'.
Proof using Hwf.
  intros Hm Hm'. destruct Hwf as [_ Hall]. rewrite Forall_forall in Hall. specialize (Hall m Hm). rewrite Forall_forall in Hall.
  exact (Hall m' Hm').
Qed.
Lemma instance_self m : model_path m → instance_of m m.
Proof.
  intros _. unfold instance_of. induction (Split m dot) as [|s ss IH]; constructor; [|done]. unfold segment_of.
  destruct (decide (s = token)) as [->|_]; [by left|done].
Qed.
Lemma model_code_nonzero m : model_path m → EncodePathCode m ≠ 0.
Proof.
  intros Hm. unfold EncodePathCode, normalizeCanonicalDeviceLookupPath.
  rewrite (instance_canonical m m Hm (instance_self m Hm)), normalize_graphic by apply Hm. rewrite length_fmap.
  rewrite (proj2 (Nat.eqb_neq _ 0)) by (destruct Hm as [Hne _]; by destruct m). by destruct (Z.eqb_spec (fnv64a (lower_byte <$> m)) 0).
Qed.

(** What NewDevice leaves in the maps. *)
Lemma device_maps :
  codes_ok d paths ∧ paramIndex d = build_index 0 (mPath <$> params) ∅ ∧ objectIndex d = build_index 0 (oPath <$> objects) ∅ ∧
  Params d = params ∧ Objects d = objects ∧ ∀ m, m ∈ paths → is_Some (pathCode d !! (lower_byte <$> m)).
Proof using Hnew Hwf.
  unfold NewDevice, buildPathCodes in Hnew.
  destruct (assign_paths_codes _ paths _ _ Hnew) as (Hok & E1 & E2 & E3 & E4 & _ & Hset).
  - intros q Hq. unfold Paths in Hq. rewrite SortStrings_perm in Hq. exact Hq.
  - split; cbn [pathCode codePath]; intros *; by rewrite lookup_empty.
  - split_and!; try done. intros m Hm. destruct (model_graphic m Hm) as [Hmp Hn]. rewrite <- Hn. apply Hset.
    + unfold Paths. rewrite SortStrings_perm. exact Hm.
    + rewrite Hn. destruct Hmp as [Hne _]. by destruct m.
    + by apply model_code_nonzero.
Qed.
Lemma device_known q :
  bool_decide (is_Some (paramIndex d !! q)) || bool_decide (is_Some (objectIndex d !! q)) = true ↔ ∃ m, m ∈ paths ∧ q = lower_byte <$> m.
Proof using Hnew Hwf.
  destruct device_maps as (_ & -> & -> & _). rewrite orb_true_iff, !bool_decide_eq_true, !build_index_lookup, !lookup_empty, !list_elem_of_fmap.
  split.
  - intros [[[? [=]]|(m & -> & Hm)]|[[? [=]]|(m & -> & Hm)]]; exists m;
      (assert (Hin : m ∈ paths) by (apply elem_of_app; auto)); split; try done; by apply model_graphic.
  - intros (m & Hm & ->). apply elem_of_app in Hm as Hm'. destruct (model_graphic m Hm) as [_ <-].
    destruct Hm' as [Ho|Hp]; [right|left]; right; by exists m.
Qed.

(** Only the schema form of an instance is in the model. *)
Lemma device_canonical m p : m ∈ paths → instance_of m p → CanonicalPath d p = Some m.
Proof using Hnew Hwf.
  intros Hm Hp. destruct (model_graphic m Hm) as [Hmp Hn]. unfold CanonicalPath.
  pose proof (instance_graphic m p Hmp Hp) as Hpg. pose proof (instance_nonempty m p Hmp Hp) as Hpne.
  rewrite (normalize_graphic p) by done. destruct (_ || _) eqn:Hk.
  - apply device_known in Hk as (m' & Hm' & He). destruct (decide (p = m)) as [->|Hne]; [done|]. exfalso.
    apply (instance_differs m p Hp), Exists_exists in Hne as (x & Hx & Hnum).
    destruct (model_graphic m' Hm') as [(_ & _ & Hnon & _) _].
    apply (f_equal (λ s, Split s dot)) in He. rewrite !Split_map in He by apply lower_byte_dot.
    assert (Hxin : (lower_byte <$> x) ∈ (fun p : bytes => lower_byte <$> p) <$> Split p dot) by (apply list_elem_of_fmap; by exists x).
    rewrite He in Hxin. apply list_elem_of_fmap in Hxin as (y & Hxy & Hy). rewrite Forall_forall in Hnon.
    apply (f_equal isNumericPathSegment) in Hxy. rewrite !lower_numeric, Hnum, (Hnon y Hy) in Hxy. done.
  - rewrite TrimSpace_graphic by done. rewrite (instance_canonical m p Hmp Hp), Hn.
    rewrite (proj2 (device_known (lower_byte <$> m))) by (by exists m). done.
Qed.
Lemma device_code m : m ∈ paths → ∃ code, PathCode d m = Some code ∧ codePath d !! code = Some m ∧ 0 < code < 2 ^ 64.
Proof using Hnew Hwf.
  intros Hm. destruct (model_graphic m Hm) as [Hmp Hn]. destruct device_maps as (Hok & _ & _ & _ & _ & Hall).
  destruct (Hall m Hm) as [code Hc]. exists code. unfold PathCode. rewrite Hn, Hc. split; [done|].
  destruct (code_has_path _ _ Hok _ _ Hc) as (q & Hq & Hqn). destruct (path_has_code _ _ Hok _ _ Hq) as (_ & Hcode & Hnz & Hin).
  destruct (model_graphic q Hin) as [_ Hqn']. rewrite Hqn' in Hqn. rewrite (model_case q m Hin Hm Hqn) in Hq. split; [done|].
  pose proof (EncodePathCode_range q). lia.
Qed.

Lemma device_selector m p :
  m ∈ paths → instance_of m p →
  ∃ sel, Device_SelectorForPath d p = Some sel ∧ Device_PathForSelector d sel = Ok (Some p) ∧
    0 < Code sel < 2 ^ 64 ∧ Forall (fun n => 0 ≤ n < 2 ^ 64) (Instances sel).
Proof using Hnew Hwf.
  intros Hm Hp. destruct (model_graphic m Hm) as [Hmp Hn]. unfold Device_SelectorForPath. rewrite (device_canonical m p Hm Hp).
  destruct (device_code m Hm) as (code & -> & Hcp & Hcode). rewrite (proj2 (Z.eqb_neq code 0)) by lia.
  destruct (instance_selector m p Hmp Hp) as (insts & -> & Hr & Happ). exists (MkSelector code insts). split_and!; [done| |cbn [Code]; lia..|done].
  unfold Device_PathForSelector, PathByCode. cbn [Code Instances]. rewrite (proj2 (Z.eqb_neq code 0)) by lia. by rewrite Hcp.
Qed.
Lemma device_resolve_total sel : ∃ o, Device_PathForSelector d sel = Ok o.
Proof using Hnew Hwf.
  unfold Device_PathForSelector, PathByCode. destruct (Code sel =? 0); [by eexists|]. destruct (codePath d !! Code sel) as [q|] eqn:Hq; [|by eexists].
  destruct device_maps as (Hok & _). destruct (path_has_code _ _ Hok _ _ Hq) as (_ & _ & _ & Hin).
  apply apply_no_panic. by apply model_graphic.
Qed.
End Device.

(** ** The indexes *)

Section Index.
Context {A : Type} (path : A → bytes).

Record index_ok (l : list A) (index : gmap bytes nat) : Prop := {
  index_points : ∀ key i, index !! key = Some i → ∃ x, l !! i = Some x ∧ normalizeDeviceLookupPath (path x) = key;
  index_has : ∀ i x, l !! i = Some x → is_Some (index !! normalizeDeviceLookupPath (path x)) }.

Lemma index_extend l index x : index_ok l index → index_ok (l ++ [x]) (<[normalizeDeviceLookupPath (path x) := length l]> index).
Proof.
  intros [Hp Hh]. split.
  - intros key i [[<- <-]|[Hne Hi]]%lookup_insert_Some.
    + exists x. split; [|done]. by rewrite lookup_app_r, Nat.sub_diag by lia.
    + destruct (Hp key i Hi) as (y & Hy & Hn). exists y. split; [|done]. by apply lookup_app_l_Some.
  - intros i y Hy. destruct (decide (normalizeDeviceLookupPath (path y) = normalizeDeviceLookupPath (path x))) as [->|Hne]; [by rewrite lookup_insert_eq|].
    rewrite lookup_insert_ne by done. apply lookup_app_Some in Hy as [Hy|[_ Hy]]; [by apply (Hh i)|].
    apply list_lookup_singleton_Some in Hy as [_ ->]. done.
Qed.
Lemma index_update l index i x : index_ok l index → index !! normalizeDeviceLookupPath (path x) = Some i → index_ok (<[i := x]> l) index.
Proof.
  intros [Hp Hh] Hi. destruct (Hp _ _ Hi) as (y & Hy & Hn). split.
  - intros key j Hj. destruct (decide (j = i)) as [->|Hne].
    + exists x. rewrite list_lookup_insert_eq by (by eapply lookup_lt_Some). split; [done|]. destruct (Hp key i Hj) as (z & Hz & Hnz). congruence.
    + destruct (Hp key j Hj) as (z & Hz & Hnz). exists z. by rewrite list_lookup_insert_ne.
  - intros j z Hz. apply list_lookup_insert_Some in Hz as [(-> & <- & _)|[_ Hz]]; [by eexists|by apply (Hh j)].
Qed.
Lemma build_index_ok xs : ∀ l index, index_ok l index → index_ok (l ++ xs) (build_index (length l) (path <$> xs) index).
Proof.
  induction xs as [|x xs IH]; intros l index Hok; [by rewrite app_nil_r|]. rewrite fmap_cons. cbn [build_index].
  replace (l ++ x :: xs) with ((l ++ [x]) ++ xs) by (by rewrite <- app_assoc). replace (S (length l)) with (length (l ++ [x])) by (rewrite length_app; simpl; lia).
  by apply IH, index_extend.
Qed.
Lemma find_index_ok l index p i : index_ok l index → find_index index p = Some i →
  ∃ x, l !! i = Some x ∧ (normalizeDeviceLookupPath (path x) = normalizeDeviceLookupPath p ∨ normalizeDeviceLookupPath (path x) = normalizeCanonicalDeviceLookupPath p).
Proof.
  intros [Hp _] Hf. unfold find_index in Hf. destruct (index !! normalizeDeviceLookupPath p) as [j|] eqn:Hj.
  - injection Hf as ->. destruct (Hp _ _ Hj) as (x & Hx & Hn). exists x. auto.
  - destruct (Hp _ _ Hf) as (x & Hx & Hn). exists x. auto.
Qed.
End Index.

Inductive dreach : Device → Prop :=
| dreach_new summary objects params d : NewDevice summary objects params = Ok d → dreach d
| dreach_param d param d' : dreach d → SetParam d param = Ok d' → dreach d'
| dreach_object d object d' : dreach d → SetObject d object = Ok d' → dreach d'.

Definition device_ok (d : Device) : Prop :=
  index_ok mPath (Params d) (paramIndex d) ∧ index_ok oPath (Objects d) (objectIndex d) ∧ ∃ known, codes_ok d known.

Lemma codes_weaken d known known' : codes_ok d known → (∀ q, q ∈ known → q ∈ known') → codes_ok d known'.
Proof. intros [H1 H2] Hk. split; [done|]. intros code q Hq. destruct (H2 code q Hq) as (? & ? & ? & ?). auto. Qed.
Lemma codes_same d d' known : pathCode d' = pathCode d → codePath d' = codePath d → codes_ok d known → codes_ok d' known.
Proof. intros E1 E2 [H1 H2]. split; rewrite E1, E2; done. Qed.

Lemma device_ok_new summary objects params d : NewDevice summary objects params = Ok d → device_ok d.
Proof.
  unfold NewDevice, buildPathCodes. intros Hn. set (known := (oPath <$> objects) ++ (mPath <$> params)).
  destruct (assign_paths_codes _ known _ _ Hn) as (Hok & E1 & E2 & E3 & E4 & _).
  - intros q Hq. unfold Paths in Hq. rewrite SortStrings_perm in Hq. exact Hq.
  - split; cbn [pathCode codePath]; intros *; by rewrite lookup_empty.
  - unfold device_ok. rewrite E1, E2, E3, E4. cbn [Objects Params objectIndex paramIndex].
    split_and!; [apply (build_index_ok mPath params [] ∅)|apply (build_index_ok oPath objects [] ∅)|by exists known].
    all: split; intros *; by rewrite ?lookup_nil, ?lookup_empty.
Qed.
Lemma device_ok_param d param d' : device_ok d → SetParam d param = Ok d' → device_ok d'.
Proof.
  intros (Hp & Ho & known & Hc) Hs. unfold SetParam in Hs. destruct (_ =? 0)%nat; [by injection Hs as <-; split_and!; try done; exists known|].
  destruct (paramIndex d !! _) as [i|] eqn:Hi.
  - destruct (i <? _)%nat; [|done]. injection Hs as <-. split_and!; [by apply index_update|done|].
    exists known. by eapply codes_same, Hc.
  - apply bind_ok in Hs as (d1 & Ha & [= <-]). apply (assign_code _ _ _ (mPath param :: known)) in Ha as (Hc1 & E1 & E2 & E3 & E4 & _); [|done|by left|].
    + unfold device_ok. cbn [Objects Params objectIndex paramIndex]. rewrite E1, E2, E3, E4. cbn [Objects Params objectIndex paramIndex].
      split_and!; [by apply index_extend|done|]. eexists. by eapply codes_same, Hc1.
    + eapply codes_weaken; [by eapply codes_same, Hc|]. intros q Hq. by right.
Qed.
Lemma device_ok_object d object d' : device_ok d → SetObject d object = Ok d' → device_ok d'.
Proof.
  intros (Hp & Ho & known & Hc) Hs. unfold SetObject in Hs. destruct (_ =? 0)%nat; [by injection Hs as <-; split_and!; try done; exists known|].
  destruct (objectIndex d !! _) as [i|] eqn:Hi.
  - destruct (i <? _)%nat; [|done]. injection Hs as <-. split_and!; [done|by apply index_update|].
    exists known. by eapply codes_same, Hc.
  - apply bind_ok in Hs as (d1 & Ha & [= <-]). apply (assign_code _ _ _ (oPath object :: known)) in Ha as (Hc1 & E1 & E2 & E3 & E4 & _); [|done|by left|].
    + unfold device_ok. cbn [Objects Params objectIndex paramIndex]. rewrite E1, E2, E3, E4. cbn [Objects Params objectIndex paramIndex].
      split_and!; [done|by apply index_extend|]. eexists. by eapply codes_same, Hc1.
    + eapply codes_weaken; [by eapply codes_same, Hc|]. intros q Hq. by right.
Qed.
Lemma dreach_ok d : dreach d → device_ok d.
Proof. induction 1; [by eapply device_ok_new|by eapply device_ok_param|by eapply device_ok_object]. Qed.

(** ** The data model behind the request codec *)

(** The device as the schema the transport resolves selectors with. *)
Definition device_schema (d : Device) (reg : registry) (safe : bytes → bool) (validate : Field → res werr ()) (text : Value → bytes) : Schema :=
  {| schema_registry := reg;
     SelectorForPath p := (fun s => (Code s, Instances s)) <$> Device_SelectorForPath d p;
     PathForSelector code insts := match Device_PathForSelector d (MkSelector code insts) with Ok o => o | _ => None end;
     Request.lookupSafeParam := safe; Request.ValidateFieldFast := validate; Request.ValueToString := text |}.

(** A path the model spells, with instance numbers filled in, or a path it
    does not know at all. *)
Definition plain_path (d : Device) (paths : list bytes) (p : bytes) : Prop :=
  (∃ m, m ∈ paths ∧ instance_of m p) ∨ Device_SelectorForPath d p = None.

Lemma device_path_law summary objects params d reg safe validate text p :
  NewDevice summary objects params = Ok d → model_wf ((oPath <$> objects) ++ (mPath <$> params)) →
  plain_path d ((oPath <$> objects) ++ (mPath <$> params)) p →
  @path_law (device_schema d reg safe validate text) p.
Proof.
  intros Hn Hwf Hp code insts. cbn [SelectorForPath PathForSelector device_schema]. destruct Hp as [(m & Hm & Hp)|Hp]; [|by rewrite Hp].
  destruct (device_selector _ _ _ _ Hn Hwf m p Hm Hp) as ([c i] & -> & Hr & Hc & Hi). intros [= <- <-]. cbn [Code Instances] in *.
  rewrite Hr. split; [done|]. split; [unfold u64_ok; simpl; lia|exact Hi].
Qed.

(** Selectors name paths.  In a device built from a model whose paths are
    graphic ASCII, differ by more than letter case and have instance tokens only as
    whole segments, every path the model spells, with any positive instance
    numbers or tokens in the places of its tokens, has a selector that fits 64-bit
    fields and resolves to exactly that path; and resolving any selector, also one
    from a hostile datagram, never panics. *)
Theorem selector_roundtrip summary objects params d :
  NewDevice summary objects params = Ok d → model_wf ((oPath <$> objects) ++ (mPath <$> params)) →
  (∀ m p, m ∈ (oPath <$> objects) ++ (mPath <$> params) → instance_of m p →
     ∃ sel, Device_SelectorForPath d p = Some sel ∧ Device_PathForSelector d sel = Ok (Some p) ∧
       0 < Code sel < 2 ^ 64 ∧ Forall (fun n => 0 ≤ n < 2 ^ 64) (Instances sel)) ∧
  ∀ sel, Device_PathForSelector d sel ≠ Panic.
Proof.
  intros Hn Hwf. split; [intros m p; by apply (device_selector _ _ _ _ Hn Hwf)|]. intros sel.
  by destruct (device_resolve_total _ _ _ _ Hn Hwf sel) as (o & ->).
Qed.

(** The data model of the program's start stays consistent under every
    later extension: looking up any path never panics and yields a definition
    filed under that path or its schema form, every definition is found under its
    own path, and codes and paths are inverse to each other. *)
Theorem device_model_consistent d :
  dreach d →
  (∀ p, GetParam d p ≠ Panic ∧ GetObject d p ≠ Panic) ∧
  (∀ p prm, GetParam d p = Ok (Some prm) → prm ∈ Params d ∧
     (normalizeDeviceLookupPath (mPath prm) = normalizeDeviceLookupPath p ∨
      normalizeDeviceLookupPath (mPath prm) = normalizeCanonicalDeviceLookupPath p)) ∧
  (∀ prm, prm ∈ Params d → ∃ prm', GetParam d (mPath prm) = Ok (Some prm') ∧
     normalizeDeviceLookupPath (mPath prm') = normalizeDeviceLookupPath (mPath prm)) ∧
  ∀ p code, PathCode d p = Some code → ∃ q, PathByCode d code = Some q ∧ PathCode d q = Some code ∧ EncodePathCode q = code.
Proof.
  intros (Hp & Ho & known & Hc)%dreach_ok. split_and!.
  - intros p. unfold GetParam, GetObject, at_index. split.
    + destruct (find_index (paramIndex d) p) as [i|] eqn:Hf; [|done]. by destruct (find_index_ok _ _ _ _ _ Hp Hf) as (x & -> & _).
    + destruct (find_index (objectIndex d) p) as [i|] eqn:Hf; [|done]. by destruct (find_index_ok _ _ _ _ _ Ho Hf) as (x & -> & _).
  - intros p prm. unfold GetParam, at_index. destruct (find_index (paramIndex d) p) as [i|] eqn:Hf; [|done].
    destruct (find_index_ok _ _ _ _ _ Hp Hf) as (x & Hx & Hn). rewrite Hx. intros [= ->]. split; [by eapply list_elem_of_lookup_2|done].
  - intros prm [i Hi]%list_elem_of_lookup_1. destruct (index_has _ _ _ Hp _ _ Hi) as [j Hj]. destruct (index_points _ _ _ Hp _ _ Hj) as (x & Hx & Hn).
    exists x. unfold GetParam, find_index, at_index. by rewrite Hj, Hx.
  - intros p code Hcode. assert (∃ key, pathCode d !! key = Some code) as (key & Hk).
    { unfold PathCode in Hcode. destruct (pathCode d !! normalizeDeviceLookupPath p) as [c|] eqn:E; [injection Hcode as <-|]; eauto. }
    destruct (code_has_path d known Hc key code Hk) as (q & Hq & Hn). destruct (path_has_code d known Hc code q Hq) as (Hpc & He & Hnz & _).
    exists q. unfold PathByCode, PathCode. rewrite (proj2 (Z.eqb_neq code 0)) by done. by rewrite Hpc.
Qed.

(** Requests over the real data model.  A request whose paths the model
    spells (or does not know) is decoded to the same request by a peer with the
    same model, although schema paths travel as codes and instance numbers. *)
Theorem device_request_roundtrip summary objects params d reg safe validate text req e k :
  NewDevice summary objects params = Ok d → model_wf ((oPath <$> objects) ++ (mPath <$> params)) →
  Forall (plain_path d ((oPath <$> objects) ++ (mPath <$> params))) (qObjectPath req :: qPaths req) →
  let _ := device_schema d reg safe validate text in
  plain_request req → EncodeUSPAgentRequest req = Ok e → frame_fits (length e + k) →
  ∃ req', DecodeUSPAgentRequest (e ++ replicate k (z2b 0)) = Ok req' ∧
    qID req' = qID req ∧ qMethod req' = qMethod req ∧ qPaths req' = qPaths req ∧ qObjectPath req' = qObjectPath req ∧
    qMessage req' = ResetAllFieldIDs <$> qMessage req ∧ qTransfer req' = qTransfer req ∧ qMetadata req' = qMetadata req.
Proof.
  intros Hn Hwf Hp schema Hpl He Hf. exists (@received_request schema req).
  split; [|done]. apply request_roundtrip_aux; try done. eapply Forall_impl; [exact Hp|]. intros p Hpp. by eapply device_path_law.
Qed.
End Props.

(** ** Witnesses *)

#[local] Instance ascii_only : UnicodeCase := {| unicode_ToLower s := s; unicode_EqualFold s t := bool_decide (s = t) |}.
Definition demo_limits : Limits := MkLimits None None None None 0 0 [] [] 0 0.
Definition demo_object (p : string) (multi : bool) : Object := MkObject (bs p) multi (bs "2.12") [].
Definition demo_param (p : string) : Param := MkParam (bs p) (bs "string") (bs "readWrite") (bs "2.12") [] demo_limits.
Definition demo_objects : list Object := [demo_object "Device." false; demo_object "Device.WiFi.SSID.{i}." true].
Definition demo_params : list Param := [demo_param "Device.WiFi.SSID.{i}.Enable"; demo_param "Device.WiFi.SSID.{i}.Stats.{i}.Value"; demo_param "Device.RootDataModelVersion"].
Definition demo_summary : ImportedModelSummary := MkSummary [] [] [] [] [] [] 2 3.
Definition demo_device : Device :=
  match NewDevice demo_summary demo_objects demo_params with Ok d => d | _ => MkDevice [] demo_summary [] [] ∅ ∅ ∅ ∅ end.

Lemma demo_device_new : NewDevice demo_summary demo_objects demo_params = Ok demo_device.
Proof. vm_refl. Qed.
Lemma demo_model_wf : model_wf ((oPath <$> demo_objects) ++ (mPath <$> demo_params)).
Proof. apply (bool_decide_unpack _). vm_compute. exact I. Qed.
Lemma demo_instance : instance_of (bs "Device.WiFi.SSID.{i}.Stats.{i}.Value") (bs "Device.WiFi.SSID.12.Stats.{i}.Value").
Proof.
  unfold instance_of. replace (Split (bs "Device.WiFi.SSID.{i}.Stats.{i}.Value") dot) with
    [bs "Device"; bs "WiFi"; bs "SSID"; token; bs "Stats"; token; bs "Value"] by (vm_compute; reflexivity).
  replace (Split (bs "Device.WiFi.SSID.12.Stats.{i}.Value") dot) with
    [bs "Device"; bs "WiFi"; bs "SSID"; bs "12"; bs "Stats"; token; bs "Value"] by (vm_compute; reflexivity).
  assert (Htok : segment_of token (bs "12")).
  { unfold segment_of. rewrite decide_True by done. right. exists 12. split; [lia|]. vm_compute. reflexivity. }
  assert (Htok' : segment_of token token) by (unfold segment_of; rewrite decide_True by done; by left).
  repeat (apply Forall2_cons; split; [first [exact Htok|exact Htok'|unfold segment_of; rewrite decide_False by done; reflexivity]|]).
  apply Forall2_nil_2.
Qed.

Lemma selector_roundtrip_witness :
  ∃ sel, Device_SelectorForPath demo_device (bs "Device.WiFi.SSID.12.Stats.{i}.Value") = Some sel ∧
    Device_PathForSelector demo_device sel = Ok (Some (bs "Device.WiFi.SSID.12.Stats.{i}.Value")) ∧ Instances sel = [12; 0].
Proof.
  destruct (selector_roundtrip demo_summary demo_objects demo_params demo_device demo_device_new demo_model_wf) as [Hall _].
  destruct (Hall (bs "Device.WiFi.SSID.{i}.Stats.{i}.Value") (bs "Device.WiFi.SSID.12.Stats.{i}.Value")) as (sel & Hs & Hp & _).
  - apply (bool_decide_unpack _). vm_compute. exact I.
  - apply demo_instance.
  - exists sel. split; [exact Hs|]. split; [exact Hp|]. vm_compute in Hs. injection Hs as <-. reflexivity.
Defined.

Lemma device_model_consistent_witness :
  ∃ prm, GetParam demo_device (bs "device.wifi.SSID.3.enable") = Ok (Some prm) ∧ prm ∈ Params demo_device.
Proof.
  destruct (device_model_consistent demo_device (dreach_new _ _ _ _ demo_device_new)) as (_ & Hfound & _).
  eexists. split; [vm_compute; reflexivity|]. apply (Hfound (bs "device.wifi.SSID.3.enable")). vm_compute. reflexivity.
Defined.

Definition demo_get : USPAgentRequest :=
  {| qID := 9; qMethod := USPAgentMethodGet; qPaths := [bs "Device.WiFi.SSID.12.Stats.{i}.Value"]; qPathCodes := [];
     qPathInstances := []; qObjectPath := []; qObjectCode := 0; qObjectInstances := []; qMessage := None; qTransfer := None; qMetadata := ∅ |}.
Lemma demo_get_plain (schema : Schema) : plain_request demo_get.
Proof.
  unfold plain_request, u64_ok, byte_ok, demo_get, USPAgentMethodGet.
  cbn [qID qMethod qPaths qPathCodes qPathInstances qObjectPath qObjectCode qObjectInstances qMessage].
  split_and!; try reflexivity; try lia; [|by left|done]. constructor; [by vm_compute|constructor].
Qed.
Definition demo_real_schema : Schema :=
  device_schema demo_device (buildRegistry (mPath <$> demo_params)) (fun _ => false) (fun _ => Ok ()) (fun _ => []).
Lemma device_request_roundtrip_witness :
  let _ := demo_real_schema in
  ∃ e req', EncodeUSPAgentRequest demo_get = Ok e ∧ DecodeUSPAgentRequest (e ++ replicate 5 (z2b 0)) = Ok req' ∧
    qPaths req' = [bs "Device.WiFi.SSID.12.Stats.{i}.Value"].
Proof.
  intros schema. destruct (EncodeUSPAgentRequest demo_get) as [e| |] eqn:E;
    [|vm_compute in E; discriminate|vm_compute in E; discriminate].
  destruct (device_request_roundtrip demo_summary demo_objects demo_params demo_device (buildRegistry (mPath <$> demo_params))
    (fun _ => false) (fun _ => Ok ()) (fun _ => []) demo_get e 5) as (req' & Hd & _ & _ & Hp & _).
  - apply demo_device_new.
  - apply demo_model_wf.
  - constructor; [right; vm_compute; reflexivity|]. constructor; [|constructor]. left. exists (bs "Device.WiFi.SSID.{i}.Stats.{i}.Value").
    split; [|apply demo_instance]. apply (bool_decide_unpack _). vm_compute. exact I.
  - apply demo_get_plain.
  - exact E.
  - vm_compute in E. injection E as <-. vm_compute. discriminate.
  - exists e, req'. split; [exact eq_refl|]. split; [exact Hd|exact Hp].
Defined.
