(* ===== verification/UspEvents.v ===== *)
(** * Agent events and subscriptions

    src/internal/wusp/usp_events.go: notifications of the agent packed into
    Notify requests, subscription management requests, and the matching of events
    against subscriptions.  [range] is the order in which a [for range] visits a
    map of parameters; a nil map is the empty one.  Handlers of subscriptions are
    named by the numbers of the functions installed. *)

From S2P Require Import Prelude GoStr Wire Codec Fragments ReadReplay Transport Request.

(** ** Text of values

    strconv.FormatFloat, time formatting and net.IP.String are parameters. *)
Class ValueFormat : Type := {
  FormatFloat : Z → bytes;
  FormatTime : Z → bytes;
  IP_String : bytes → bytes }.

Definition hex_digit (n : Z) : byte := if n <? 10 then z2b (48 + n) else z2b (87 + n).
Definition hex_byte (c : byte) : bytes := [hex_digit (Z.shiftr (b2z c) 4); hex_digit (Z.land (b2z c) 15)].
Definition EncodeToString (b : bytes) : bytes := concat (hex_byte <$> b).
Definition HardwareAddr_String (b : bytes) : bytes := Join (hex_byte <$> b) (z2b 58).

Fixpoint value_text `{ValueFormat} (v : Value) : bytes :=
  let 'MkValue tag ival fval blob l := v in
  if tag =? TagNull then []
  else if tag =? TagFalse then bs "false"
  else if tag =? TagTrue then bs "true"
  else if tag =? TagUint then FormatUint (u64 ival)
  else if tag =? TagInt then Itoa ival
  else if tag =? TagFloat then FormatFloat fval
  else if tag =? TagString then blob
  else if tag =? TagTime then FormatTime ival
  else if tag =? TagIP4 then if (length blob =? 4)%nat then IP_String blob else []
  else if tag =? TagIP6 then if (length blob =? 16)%nat then IP_String blob else []
  else if tag =? TagMAC then HardwareAddr_String blob
  else if tag =? TagBytes then EncodeToString blob
  else if tag =? TagList then Join (map value_text l) (z2b 44)
  else blob.

Lemma value_text_string `{ValueFormat} s : value_text (VString s) = s.
Proof. done. Qed.

(** ** The value strconv.ParseUint returns beside its error

    0 for a syntax error, the largest value for one out of range. *)
Fixpoint parse_value (maxVal acc : Z) (s : bytes) : Z :=
  match s with
  | [] => acc
  | c :: s =>
      if negb (is_digit c) then 0
      else if 1844674407370955162 <=? acc then maxVal
      else let n := acc * 10 in
           let n1 := u64 (n + (b2z c - 48)) in
           if (n1 <? n) || (maxVal <? n1) then maxVal else parse_value maxVal n1 s
  end.
Definition ParseUint_value (s : bytes) (bits : Z) : Z :=
  match s with [] => 0 | _ => parse_value (2 ^ bits - 1) 0 s end.
Lemma ParseUint_value_ok s bits n : ParseUint s bits = Some n → ParseUint_value s bits = n.
Proof.
  unfold ParseUint, ParseUint_value. destruct s as [|c s]; [done|]. generalize (c :: s) as l. generalize 0 as acc.
  intros acc l. revert acc. induction l as [|d l IH]; intros acc; cbn [parse_loop parse_value]; [congruence|].
  destruct (negb (is_digit d)); [done|]. destruct (_ <=? acc); [done|]. destruct (_ || _); [done|]. apply IH.
Qed.

(** ** Events *)

Definition USPEventTypeEvent : Z := 1.
Definition USPEventTypeValueChange : Z := 2.
Definition USPEventTypeObjectCreation : Z := 3.
Definition USPEventTypeObjectDeletion : Z := 4.
Definition USPEventTypeOperationComplete : Z := 5.
Definition USPEventTypeOnBoardRequest : Z := 6.

Record USPEventError := MkEventError { eeCode : Z; eeMessage : bytes }.
Record USPOnBoardInfo := MkOnBoard
  { obOUI : bytes; obProductClass : bytes; obSerialNumber : bytes; obManufacturer : bytes; obSoftwareVersion : bytes;
    obProtocolVersions : bytes }.
Record USPEvent := MkEvent
  { evType : Z; evSubscriptionID : bytes; evObjPath : bytes; evEventName : bytes; evCommandKey : bytes; evParams : metadata;
    evParamMessage : option Message; evParamValue : bytes; evErr : option USPEventError; evOnBoard : option USPOnBoardInfo }.
Record USPSubscription := MkSubscription
  { subID : bytes; subTypes : list Z; subPathFilter : list bytes; subEventFilter : list bytes; subHandler : option nat }.

Definition eventMetaType : bytes := bs "event_type".
Definition eventMetaSubID : bytes := bs "subscription_id".
Definition eventMetaName : bytes := bs "event_name".
Definition eventMetaCmdKey : bytes := bs "command_key".
Definition eventMetaParamValue : bytes := bs "param_value".
Definition eventMetaErrCode : bytes := bs "error_code".
Definition eventMetaErrMsg : bytes := bs "error_message".
Definition eventMetaOUI : bytes := bs "oui".
Definition eventMetaPC : bytes := bs "product_class".
Definition eventMetaSN : bytes := bs "serial_number".
Definition eventMetaMfg : bytes := bs "manufacturer".
Definition eventMetaSWVer : bytes := bs "software_version".
Definition eventMetaPV : bytes := bs "protocol_versions".
Definition subMetaAction : bytes := bs "wusp_action".
Definition subMetaID : bytes := bs "wusp_sub_id".
Definition subMetaTypes : bytes := bs "wusp_sub_types".
Definition subMetaPaths : bytes := bs "wusp_sub_paths".
Definition subMetaEvents : bytes := bs "wusp_sub_events".
Definition subMetaStatus : bytes := bs "wusp_sub_status".
Definition subActionAdd : bytes := bs "subscribe".
Definition subActionRemove : bytes := bs "unsubscribe".

(** [if v != "" { meta[k] = v }] *)
Definition set_text (m : metadata) (k v : bytes) : metadata := if (length v =? 0)%nat then m else <[k := v]> m.

Definition parentObjectPath (path : bytes) : bytes :=
  let path := TrimSpace path in
  let separator := LastIndexByte path (z2b 46) in
  if separator <? 0 then [] else take (Z.to_nat (separator + 1)) path.

Definition subscriptionMatches (sub : USPSubscription) (event : USPEvent) : bool :=
  let types := (length (subTypes sub) =? 0)%nat || existsb (Z.eqb (evType event)) (subTypes sub) in
  let paths := (length (subPathFilter sub) =? 0)%nat || existsb (HasPrefix (evObjPath event)) (subPathFilter sub) in
  let names := negb (evType event =? USPEventTypeEvent) || (length (subEventFilter sub) =? 0)%nat
               || existsb (fun name => bool_decide (name = evEventName event)) (subEventFilter sub) in
  types && paths && names.

Section Events.
Context `{Schema}.
Context (range : metadata → list (bytes * bytes)).

Definition eventParamsToMessage (params : metadata) : option Message :=
  if (size params =? 0)%nat then None
  else Some (MkMessage [] None ((fun kv => MkField 0 kv.1 (VString kv.2)) <$> range params)).
Definition eventMessageToParams (msg : option Message) : metadata :=
  match msg with
  | None => ∅
  | Some msg => foldl (fun out f => <[Path f := ValueToString (Val f)]> out) ∅ (Fields msg)
  end.

(** The type-specific part of the metadata and the message. *)
Definition event_payload (event : USPEvent) (meta : metadata) : metadata * option Message :=
  let t := evType event in
  if t =? USPEventTypeEvent then
    (set_text meta eventMetaName (evEventName event),
     match evParamMessage event with Some msg => Some msg | None => eventParamsToMessage (evParams event) end)
  else if t =? USPEventTypeValueChange then (<[eventMetaParamValue := evParamValue event]> meta, None)
  else if t =? USPEventTypeObjectCreation then (meta, eventParamsToMessage (evParams event))
  else if t =? USPEventTypeObjectDeletion then (meta, None)
  else if t =? USPEventTypeOperationComplete then
    let meta := set_text (set_text meta eventMetaName (evEventName event)) eventMetaCmdKey (evCommandKey event) in
    match evErr event with
    | Some e => (set_text (<[eventMetaErrCode := FormatUint (eeCode e)]> meta) eventMetaErrMsg (eeMessage e), None)
    | None => (meta, eventParamsToMessage (evParams event))
    end
  else if t =? USPEventTypeOnBoardRequest then
    match evOnBoard event with
    | Some ob =>
        (set_text (set_text (set_text (set_text (set_text (set_text meta eventMetaOUI (obOUI ob)) eventMetaPC (obProductClass ob))
           eventMetaSN (obSerialNumber ob)) eventMetaMfg (obManufacturer ob)) eventMetaSWVer (obSoftwareVersion ob))
           eventMetaPV (obProtocolVersions ob), None)
    | None => (meta, None)
    end
  else (meta, None).

Definition notify_request (id : Z) (objPath : bytes) (paths : list bytes) (msg : option Message) (meta : metadata) : USPAgentRequest :=
  {| qID := id; qMethod := USPAgentMethodNotify; qPaths := paths; qPathCodes := []; qPathInstances := []; qObjectPath := objPath;
     qObjectCode := 0; qObjectInstances := []; qMessage := msg; qTransfer := None; qMetadata := meta |}.

Definition EncodeEventToRequest (event : USPEvent) (id : Z) : USPAgentRequest :=
  let meta := set_text {[eventMetaType := Itoa (evType event)]} eventMetaSubID (evSubscriptionID event) in
  let '(meta, msg) := event_payload event meta in
  let objPath := TrimSpace (evObjPath event) in
  let parameter := (evType event =? USPEventTypeValueChange) && negb (length objPath =? 0)%nat && negb (isObjectPath objPath) in
  let paths := if parameter then [objPath] else [] in
  let objPath := if parameter then parentObjectPath objPath else objPath in
  if isObjectPath objPath then notify_request id objPath paths msg meta
  else notify_request id [] (if (length objPath =? 0)%nat then paths else [objPath]) msg meta.

Definition DecodeEventFromRequest (req : USPAgentRequest) : res werr USPEvent :=
  let meta := qMetadata req in
  if negb (qMethod req =? USPAgentMethodNotify) then Err (ErrTransportMalformed "event") else
  match meta !! eventMetaType with
  | None => Err (ErrTransportMalformed "event")
  | Some typeStr =>
      match Atoi typeStr with
      | None => Err (ErrTransportMalformed "event")
      | Some typeVal =>
          if (typeVal <? 1) || (6 <? typeVal) then Err (ErrTransportMalformed "event") else
          let objPath := match qPaths req with
                         | p :: _ => if (typeVal =? USPEventTypeValueChange) || (length (qObjectPath req) =? 0)%nat then p else qObjectPath req
                         | [] => qObjectPath req
                         end in
          let event name key params value err ob :=
            Ok (MkEvent typeVal (md_get meta eventMetaSubID) objPath name key params None value err ob) in
          let name := md_get meta eventMetaName in
          if typeVal =? USPEventTypeEvent then event name [] (eventMessageToParams (qMessage req)) [] None None
          else if typeVal =? USPEventTypeValueChange then event [] [] ∅ (md_get meta eventMetaParamValue) None None
          else if typeVal =? USPEventTypeObjectCreation then event [] [] (eventMessageToParams (qMessage req)) [] None None
          else if typeVal =? USPEventTypeObjectDeletion then event [] [] ∅ [] None None
          else if typeVal =? USPEventTypeOperationComplete then
            match meta !! eventMetaErrCode with
            | Some codeStr =>
                event name (md_get meta eventMetaCmdKey) ∅ []
                  (Some (MkEventError (ParseUint_value codeStr 32) (md_get meta eventMetaErrMsg))) None
            | None => event name (md_get meta eventMetaCmdKey) (eventMessageToParams (qMessage req)) [] None None
            end
          else event [] [] ∅ [] None
                 (Some (MkOnBoard (md_get meta eventMetaOUI) (md_get meta eventMetaPC) (md_get meta eventMetaSN)
                          (md_get meta eventMetaMfg) (md_get meta eventMetaSWVer) (md_get meta eventMetaPV)))
      end
  end.

Definition IsEventNotifyRequest (req : USPAgentRequest) : bool :=
  (qMethod req =? USPAgentMethodNotify) && bool_decide (is_Some (qMetadata req !! eventMetaType)).
Definition IsSubscriptionRequest (req : USPAgentRequest) : bool :=
  let action := TrimSpace (md_get (qMetadata req) subMetaAction) in
  (qMethod req =? USPAgentMethodNotify) && (bool_decide (action = subActionAdd) || bool_decide (action = subActionRemove)).

(** ** Subscription management requests *)

Definition EncodeSubscribeRequest (id : Z) (subID_ : bytes) (types : list Z) (pathFilter eventFilter : list bytes) : USPAgentRequest :=
  let meta : metadata := <[subMetaID := subID_]> {[subMetaAction := subActionAdd]} in
  let meta := if (length types =? 0)%nat then meta else <[subMetaTypes := Join (Itoa <$> types) comma]> meta in
  let meta := if (length pathFilter =? 0)%nat then meta else <[subMetaPaths := Join pathFilter comma]> meta in
  let meta := if (length eventFilter =? 0)%nat then meta else <[subMetaEvents := Join eventFilter comma]> meta in
  notify_request id [] [] None meta.
Definition EncodeUnsubscribeRequest (id : Z) (subID_ : bytes) : USPAgentRequest :=
  notify_request id [] [] None (<[subMetaID := subID_]> {[subMetaAction := subActionRemove]}).

Definition nonblank_items (text : bytes) : list bytes :=
  if (length text =? 0)%nat then []
  else List.filter (fun p => negb (length p =? 0)%nat) (TrimSpace <$> Split text comma).
Definition decode_types (text : bytes) : list Z :=
  if (length text =? 0)%nat then []
  else omap (fun t => match Atoi (TrimSpace t) with
                      | Some n => if (1 <=? n) && (n <=? 6) then Some n else None
                      | None => None
                      end) (Split text comma).
Definition DecodeSubscriptionFromRequest (req : USPAgentRequest) : bytes * USPSubscription :=
  let meta := qMetadata req in
  (TrimSpace (md_get meta subMetaAction),
   MkSubscription (TrimSpace (md_get meta subMetaID)) (decode_types (md_get meta subMetaTypes))
     (nonblank_items (md_get meta subMetaPaths)) (nonblank_items (md_get meta subMetaEvents)) None).
End Events.

(** ** Trimming paths *)

Lemma trim_front_snoc c : graphic c = true → ∀ fuel s, ∃ s', trim_with space_front fuel (s ++ [c]) = s' ++ [c].
Proof.
  intros Hc. assert (Hn : ∀ s, (space_front (s ++ [c]) ≤ length s)%nat).
  { destruct (space_graphic c [] Hc) as [H1 _]. unfold graphic in Hc. apply andb_true_iff in Hc as [Hlo%Z.leb_le Hhi%Z.ltb_lt].
    assert (H2 : ∀ b, space2 b (b2z c) = false) by (intros b; unfold space2; rewrite !(proj2 (Z.eqb_neq (b2z c) _)) by lia; apply andb_false_r).
    assert (H3 : ∀ a b, space3 a b (b2z c) = false).
    { intros a b. unfold space3. rewrite !(proj2 (Z.eqb_neq (b2z c) _)) by lia. rewrite (proj2 (Z.leb_gt 0x80 (b2z c))) by lia. by rewrite !andb_false_r. }
    intros [|a [|b [|d s]]].
    - change ([] ++ [c]) with [c]. rewrite H1. simpl. lia.
    - cbn [app space_front]. rewrite H2. repeat case_match; cbn [length]; lia.
    - cbn [app space_front]. rewrite H3. repeat case_match; cbn [length]; lia.
    - cbn [app space_front]. repeat case_match; cbn [length]; lia. }
  induction fuel as [|fuel IH]; intros s; cbn [trim_with]; [by eexists|]. specialize (Hn s).
  destruct (space_front (s ++ [c])) as [|n]; [by eexists|]. rewrite drop_app_le by lia. apply IH.
Qed.
Lemma TrimSpace_snoc s c : graphic c = true → ∃ s', TrimSpace (s ++ [c]) = s' ++ [c].
Proof.
  intros Hc. unfold TrimSpace. destruct (trim_front_snoc c Hc (length (s ++ [c])) s) as (s' & ->). exists s'.
  rewrite reverse_snoc, length_app. rewrite Nat.add_comm. cbn [length Nat.add trim_with].
  destruct (space_graphic c (reverse s') Hc) as [_ ->]. by rewrite reverse_cons, reverse_involutive.
Qed.
Lemma isObjectPath_snoc s : isObjectPath (s ++ [z2b 46]) = true.
Proof.
  unfold isObjectPath. destruct (TrimSpace_snoc s (z2b 46)) as (s' & ->); [done|]. unfold HasSuffix.
  rewrite length_app. change (length (bs ".")) with 1%nat. change (length [z2b 46]) with 1%nat.
  rewrite (proj2 (Nat.leb_le _ _)) by lia. replace (length s' + 1 - 1)%nat with (length s') by lia. rewrite drop_app_length. by apply bool_decide_eq_true.
Qed.
Lemma LastIndexByte_split s c : 0 ≤ LastIndexByte s c → ∃ a b, s = a ++ c :: b ∧ LastIndexByte s c = Z.of_nat (length a).
Proof.
  induction s as [|d s IH]; cbn [LastIndexByte]; [lia|]. destruct (Z.leb_spec 0 (LastIndexByte s c)) as [Hle|Hlt].
  - intros _. destruct (IH Hle) as (a & b & -> & ->). exists (d :: a), b. split; [done|]. cbn [length]. lia.
  - destruct (decide (d = c)) as [->|]; [|lia]. intros _. by exists [], s.
Qed.
(** The parent of a parameter path is an object path or empty. *)
Lemma parent_object p : parentObjectPath p = [] ∨ isObjectPath (parentObjectPath p) = true.
Proof.
  unfold parentObjectPath. destruct (Z.ltb_spec (LastIndexByte (TrimSpace p) (z2b 46)) 0) as [|Hge]; [by left|right].
  destruct (LastIndexByte_split _ _ Hge) as (a & b & Hs & ->). rewrite Hs.
  replace (Z.to_nat (Z.of_nat (length a) + 1)) with (length (a ++ [z2b 46])) by (rewrite length_app; simpl; lia).
  replace (a ++ z2b 46 :: b) with ((a ++ [z2b 46]) ++ b) by (by rewrite <- app_assoc). rewrite take_app_length. apply isObjectPath_snoc.
Qed.

(** ** Metadata that holds a text unless it is empty *)

Lemma md_set_eq m k v : md_get m k = [] → md_get (set_text m k v) k = v.
Proof.
  intros Hm. unfold set_text. destruct (Nat.eqb_spec (length v) 0) as [Hz|_].
  - apply length_zero_iff_nil in Hz as ->. done.
  - unfold md_get. by rewrite lookup_insert_eq.
Qed.
Lemma set_text_ne m k k' v : k ≠ k' → set_text m k v !! k' = m !! k'.
Proof. intros Hne. unfold set_text. destruct (_ =? _)%nat; [done|]. by rewrite lookup_insert_ne. Qed.
Lemma md_set_ne m k k' v : k ≠ k' → md_get (set_text m k v) k' = md_get m k'.
Proof. intros Hne. unfold md_get. by rewrite set_text_ne. Qed.
Lemma md_insert_eq m k v : md_get (<[k := v]> m) k = v.
Proof. unfold md_get. by rewrite lookup_insert_eq. Qed.
Lemma md_insert_ne m k k' v : k ≠ k' → md_get (<[k := v]> m) k' = md_get m k'.
Proof. intros Hne. unfold md_get. by rewrite lookup_insert_ne. Qed.

Section RoundTrip.
Context `{Schema}.
Context (range : metadata → list (bytes * bytes)).
Context (Hrange : ∀ m, range m ≡ₚ map_to_list m).
Context (Htext : ∀ s, ValueToString (VString s) = s).

Lemma params_fold (l : list (bytes * bytes)) : ∀ m : metadata, NoDup l.*1 →
  foldl (fun out f => <[Path f := ValueToString (Val f)]> out) m ((fun kv => MkField 0 kv.1 (VString kv.2)) <$> l) = list_to_map l ∪ m.
Proof using Htext.
  induction l as [|[k v] l IH]; intros m Hnd; [symmetry; apply (left_id_L ∅ (∪))|]. rewrite fmap_cons. cbn [foldl Path Val fst snd].
  rewrite fmap_cons in Hnd. apply NoDup_cons in Hnd as [Hk Hnd]. rewrite Htext, IH by done. cbn [list_to_map foldr uncurry].
  rewrite <- insert_union_r by (by apply not_elem_of_list_to_map_1). by rewrite insert_union_l.
Qed.
Lemma params_roundtrip (params : metadata) : eventMessageToParams (eventParamsToMessage range params) = params.
Proof using Hrange Htext.
  unfold eventParamsToMessage. destruct (Nat.eqb_spec (size params) 0) as [Hz|Hz]; [by apply map_size_empty_iff in Hz as ->|].
  cbn [eventMessageToParams Fields]. assert (Hnd : NoDup (range params).*1) by (rewrite Hrange; apply NoDup_fst_map_to_list).
  rewrite params_fold, (right_id_L ∅ (∪)) by done. rewrite (list_to_map_proper (range params) (map_to_list params)); [apply list_to_map_to_list|done|by rewrite Hrange].
Qed.

(** What an event of its type says. *)
Definition event_content (ev : USPEvent) : USPEvent :=
  let t := evType ev in
  let event name key params value err ob := MkEvent t (evSubscriptionID ev) (TrimSpace (evObjPath ev)) name key params None value err ob in
  if t =? USPEventTypeEvent then
    event (evEventName ev) [] (match evParamMessage ev with Some msg => eventMessageToParams (Some msg) | None => evParams ev end) [] None None
  else if t =? USPEventTypeValueChange then event [] [] ∅ (evParamValue ev) None None
  else if t =? USPEventTypeObjectCreation then event [] [] (evParams ev) [] None None
  else if t =? USPEventTypeObjectDeletion then event [] [] ∅ [] None None
  else if t =? USPEventTypeOperationComplete then
    event (evEventName ev) (evCommandKey ev) (match evErr ev with Some _ => ∅ | None => evParams ev end) [] (evErr ev) None
  else event [] [] ∅ [] None (Some (default (MkOnBoard [] [] [] [] [] []) (evOnBoard ev))).

Definition event_ok (ev : USPEvent) : Prop :=
  1 ≤ evType ev ≤ 6 ∧ ∀ e, evErr ev = Some e → 0 ≤ eeCode e < 2 ^ 32.

Lemma Atoi_type t : 1 ≤ t ≤ 6 → Atoi (Itoa t) = Some t.
Proof. intros Ht. assert (t = 1 ∨ t = 2 ∨ t = 3 ∨ t = 4 ∨ t = 5 ∨ t = 6) as Hc by lia. by destruct Hc as [-> | [-> | [-> | [-> | [-> | ->]]]]]. Qed.

(** The path an event request carries, whatever the kind of path. *)
Lemma event_path ev id :
  let req := EncodeEventToRequest range ev id in
  match qPaths req with
  | p :: _ => if (evType ev =? USPEventTypeValueChange) || (length (qObjectPath req) =? 0)%nat then p else qObjectPath req
  | [] => qObjectPath req
  end = TrimSpace (evObjPath ev).
Proof.
  unfold EncodeEventToRequest. destruct (event_payload _ _ _) as [meta msg]. set (p := TrimSpace (evObjPath ev)).
  destruct (evType ev =? USPEventTypeValueChange) eqn:Ht; cbn [andb].
  - destruct (Nat.eqb_spec (length p) 0) as [Hz|Hz]; cbn [negb andb].
    { apply length_zero_iff_nil in Hz as ->. done. }
    destruct (isObjectPath p) eqn:Hp; cbn [negb]; [by rewrite Hp|].
    destruct (parent_object p) as [->|Ho]; [done|]. by rewrite Ho.
  - destruct (isObjectPath p); [done|]. destruct (Nat.eqb_spec (length p) 0) as [Hz|Hz]; [by apply length_zero_iff_nil in Hz as ->|done].
Qed.
Lemma event_meta ev id :
  qMetadata (EncodeEventToRequest range ev id) =
    (event_payload range ev (set_text {[eventMetaType := Itoa (evType ev)]} eventMetaSubID (evSubscriptionID ev))).1 ∧
  qMessage (EncodeEventToRequest range ev id) =
    (event_payload range ev (set_text {[eventMetaType := Itoa (evType ev)]} eventMetaSubID (evSubscriptionID ev))).2 ∧
  qMethod (EncodeEventToRequest range ev id) = USPAgentMethodNotify.
Proof. unfold EncodeEventToRequest. destruct (event_payload _ _ _) as [meta msg]. by destruct (isObjectPath _). Qed.

Definition base_meta (ev : USPEvent) : metadata := set_text {[eventMetaType := Itoa (evType ev)]} eventMetaSubID (evSubscriptionID ev).

Lemma payload_type ev k : k ≠ eventMetaName → k ≠ eventMetaCmdKey → k ≠ eventMetaParamValue → k ≠ eventMetaErrCode → k ≠ eventMetaErrMsg →
  k ≠ eventMetaOUI → k ≠ eventMetaPC → k ≠ eventMetaSN → k ≠ eventMetaMfg → k ≠ eventMetaSWVer → k ≠ eventMetaPV →
  (event_payload range ev (base_meta ev)).1 !! k = base_meta ev !! k.
Proof.
  intros. unfold event_payload. repeat case_match; cbn [fst]; rewrite ?set_text_ne, ?lookup_insert_ne, ?set_text_ne by done; done.
Qed.

Lemma base_meta_none ev k : k ≠ eventMetaType → k ≠ eventMetaSubID → base_meta ev !! k = None.
Proof. intros Hk1 Hk2. unfold base_meta. rewrite set_text_ne by done. by apply lookup_singleton_ne. Qed.
Lemma base_meta_empty ev k : k ≠ eventMetaType → k ≠ eventMetaSubID → md_get (base_meta ev) k = [].
Proof. intros Hk1 Hk2. unfold md_get. by rewrite base_meta_none. Qed.

(** Reading back what the encoder set on top of the common keys. *)
Ltac read_back := repeat first [rewrite md_set_ne by done | rewrite md_insert_ne by done];
  first [ rewrite md_insert_eq; done
        | rewrite md_set_eq; [done|repeat first [rewrite md_set_ne by done | rewrite md_insert_ne by done]; by apply base_meta_empty]
        | by apply base_meta_empty ].

Lemma onboard_read ev ob :
  let m := set_text (set_text (set_text (set_text (set_text (set_text (base_meta ev) eventMetaOUI (obOUI ob)) eventMetaPC (obProductClass ob))
             eventMetaSN (obSerialNumber ob)) eventMetaMfg (obManufacturer ob)) eventMetaSWVer (obSoftwareVersion ob)) eventMetaPV (obProtocolVersions ob) in
  MkOnBoard (md_get m eventMetaOUI) (md_get m eventMetaPC) (md_get m eventMetaSN) (md_get m eventMetaMfg) (md_get m eventMetaSWVer)
    (md_get m eventMetaPV) = ob.
Proof. destruct ob. cbv zeta. cbn [obOUI obProductClass obSerialNumber obManufacturer obSoftwareVersion obProtocolVersions]. f_equal; read_back. Qed.

Lemma error_read ev e :
  0 ≤ eeCode e < 2 ^ 32 →
  let m := set_text (<[eventMetaErrCode := FormatUint (eeCode e)]> (set_text (set_text (base_meta ev) eventMetaName (evEventName ev)) eventMetaCmdKey (evCommandKey ev)))
             eventMetaErrMsg (eeMessage e) in
  m !! eventMetaErrCode = Some (FormatUint (eeCode e)) ∧ ParseUint_value (FormatUint (eeCode e)) 32 = eeCode e ∧
  md_get m eventMetaErrMsg = eeMessage e ∧ md_get m eventMetaName = evEventName ev ∧ md_get m eventMetaCmdKey = evCommandKey ev.
Proof.
  intros Hc m. split_and!; [unfold m; by rewrite set_text_ne, lookup_insert_eq| |unfold m; read_back..].
  apply ParseUint_value_ok, ParseUint_FormatUint; lia.
Qed.
Lemma operation_read ev :
  let m := set_text (set_text (base_meta ev) eventMetaName (evEventName ev)) eventMetaCmdKey (evCommandKey ev) in
  m !! eventMetaErrCode = None ∧ md_get m eventMetaName = evEventName ev ∧ md_get m eventMetaCmdKey = evCommandKey ev.
Proof. split_and!; [rewrite !set_text_ne by done; by apply base_meta_none|read_back..]. Qed.

Lemma event_decoded ev id req :
  event_ok ev → qMethod req = USPAgentMethodNotify →
  qMetadata req = qMetadata (EncodeEventToRequest range ev id) → qPaths req = qPaths (EncodeEventToRequest range ev id) →
  qObjectPath req = qObjectPath (EncodeEventToRequest range ev id) →
  eventMessageToParams (qMessage req) = eventMessageToParams (qMessage (EncodeEventToRequest range ev id)) →
  DecodeEventFromRequest req = Ok (event_content ev).
Proof using Hrange Htext.
  intros [Ht Herr] Hm Hmeta Hpaths Hobj Hmsg. destruct (event_meta ev id) as (Em & Emsg & _). fold (base_meta ev) in Em, Emsg.
  pose proof (event_path ev id) as Hp. cbv zeta in Hp. unfold DecodeEventFromRequest.
  rewrite Hm, Hmeta, Hmsg, Hpaths, Hobj, Em, Emsg. rewrite Z.eqb_refl. cbn [negb].
  assert (Htype : base_meta ev !! eventMetaType = Some (Itoa (evType ev))) by (unfold base_meta; rewrite set_text_ne by done; apply lookup_singleton_eq).
  rewrite payload_type, Htype, Atoi_type by done. rewrite (proj2 (Z.ltb_ge (evType ev) 1)), (proj2 (Z.ltb_ge 6 (evType ev))) by lia. cbn [orb].
  rewrite Hp. assert (Hsub : md_get (event_payload range ev (base_meta ev)).1 eventMetaSubID = evSubscriptionID ev).
  { unfold md_get. rewrite payload_type by done. fold (md_get (base_meta ev) eventMetaSubID). unfold base_meta. by rewrite md_set_eq. }
  rewrite Hsub. unfold event_content, event_payload.
  destruct (Z.eqb_spec (evType ev) USPEventTypeEvent) as [|H1]; cbn [fst snd].
  { rewrite md_set_eq by (by apply base_meta_empty). destruct (evParamMessage ev); [done|]. by rewrite params_roundtrip. }
  destruct (Z.eqb_spec (evType ev) USPEventTypeValueChange) as [|H2]; cbn [fst snd]; [by rewrite md_insert_eq|].
  destruct (Z.eqb_spec (evType ev) USPEventTypeObjectCreation) as [|H3]; cbn [fst snd]; [by rewrite params_roundtrip|].
  destruct (Z.eqb_spec (evType ev) USPEventTypeObjectDeletion) as [|H4]; [done|].
  destruct (Z.eqb_spec (evType ev) USPEventTypeOperationComplete) as [|H5].
  { destruct (evErr ev) as [err|] eqn:Ee; cbn [fst snd].
    - destruct (error_read ev err (Herr err eq_refl)) as (-> & -> & -> & -> & ->). by destruct err.
    - destruct (operation_read ev) as (-> & -> & ->). by rewrite params_roundtrip. }
  unfold USPEventTypeEvent, USPEventTypeValueChange, USPEventTypeObjectCreation, USPEventTypeObjectDeletion, USPEventTypeOperationComplete in *.
  rewrite (proj2 (Z.eqb_eq (evType ev) USPEventTypeOnBoardRequest)) by (unfold USPEventTypeOnBoardRequest; lia).
  destruct (evOnBoard ev) as [ob|]; cbn [fst snd default]; [by rewrite onboard_read|]. by rewrite !base_meta_empty.
Qed.
End RoundTrip.

Section Claims.
Context `{Schema}.
Context (range : metadata → list (bytes * bytes)).

Lemma params_reset msg : eventMessageToParams (ResetAllFieldIDs <$> msg) = eventMessageToParams msg.
Proof.
  destruct msg as [m|]; [|done]. cbn [fmap option_fmap option_map eventMessageToParams ResetAllFieldIDs Fields]. generalize (∅ : metadata) as out.
  induction (Fields m) as [|f l IH]; intros out; [done|]. rewrite fmap_cons. cbn [foldl Path Val]. apply IH.
Qed.

(** Events reach the controller.  When the transport accepts the Notify
    request of an event, the controller that decodes the (padded) bytes recognises
    an event notification and reads the event's type, subscription, path and all
    that its type says: parameters, value, command result or identity. *)
Theorem event_delivered ev id e k :
  (∀ m, range m ≡ₚ map_to_list m) → (∀ s, ValueToString (VString s) = s) → event_ok ev →
  let req := EncodeEventToRequest range ev id in
  plain_request req → Forall path_law (qObjectPath req :: qPaths req) →
  EncodeUSPAgentRequest req = Ok e → frame_fits (length e + k) →
  ∃ req', DecodeUSPAgentRequest (e ++ replicate k (z2b 0)) = Ok req' ∧ qID req' = id ∧
    IsEventNotifyRequest req' = true ∧ DecodeEventFromRequest req' = Ok (event_content ev).
Proof.
  intros Hrange Htext Hok req Hpl Hlaw He Hf. exists (received_request req).
  destruct (event_meta range ev id) as (Em & _ & Hm). fold (base_meta ev) in Em.
  split_and!; [by apply request_roundtrip_aux| | |].
  - unfold received_request, req, EncodeEventToRequest. destruct (event_payload _ _ _). by destruct (isObjectPath _).
  - unfold IsEventNotifyRequest. cbn [received_request with_request_paths with_message qMethod qMetadata]. unfold req. rewrite Hm, Z.eqb_refl, Em.
    rewrite payload_type by done. cbn [andb]. apply bool_decide_eq_true. exists (Itoa (evType ev)). unfold base_meta.
    rewrite set_text_ne by done. apply lookup_singleton_eq.
  - apply (event_decoded range Hrange Htext ev id); try done. apply params_reset.
Qed.

(** No subscription request can be sent.  EncodeSubscribeRequest and
    EncodeUnsubscribeRequest build Notify requests without an object path, which
    the transport's validation refuses, whatever the arguments. *)
Theorem subscription_request_refused id sub types paths events :
  EncodeUSPAgentRequest (EncodeSubscribeRequest id sub types paths events) = Err (ErrValidation "request missing object path") ∧
  EncodeUSPAgentRequest (EncodeUnsubscribeRequest id sub) = Err (ErrValidation "request missing object path").
Proof. done. Qed.

Lemma validate_fields_each check fields : ∀ seen, validate_fields check seen fields = Ok () → ∀ f, f ∈ fields → check f = Ok ().
Proof.
  induction fields as [|f fields IH]; intros seen Hv g Hg; [by apply elem_of_nil in Hg|]. cbn [validate_fields] in Hv.
  destruct (_ =? _)%nat; [done|]. case_bool_decide; [done|]. apply bind_ok in Hv as ([] & Hc & Hv).
  apply elem_of_cons in Hg as [->|Hg]; [done|by eapply IH].
Qed.

Lemma validate_message_ok req : validateUSPAgentRequest req = Ok () → validateUSPAgentRequestMessage req = Ok ().
Proof. unfold validateUSPAgentRequest. intros Hv. do 7 (apply bind_ok in Hv as ([] & _ & Hv)). by apply bind_ok in Hv as ([] & Hm & _). Qed.

(** The message of an event with parameters. *)
Definition carries_params (ev : USPEvent) : Prop :=
  (evType ev = USPEventTypeEvent ∧ evParamMessage ev = None) ∨ evType ev = USPEventTypeObjectCreation ∨
  (evType ev = USPEventTypeOperationComplete ∧ evErr ev = None).
Lemma carries_message ev id : carries_params ev → qMessage (EncodeEventToRequest range ev id) = eventParamsToMessage range (evParams ev).
Proof.
  intros Hc. destruct (event_meta range ev id) as (_ & -> & _). unfold event_payload. by destruct Hc as [[-> ->]|[->|[-> ->]]].
Qed.

(** Event arguments must be schema parameters.  A custom event, an object
    creation or a completed operation with an argument whose name the schema does
    not know is never sent: the transport refuses the whole notification. *)
Theorem event_arguments_refused ev id k v :
  (∀ m, range m ≡ₚ map_to_list m) → carries_params ev → evParams ev !! k = Some v →
  ValidateFieldFast (MkField 0 k (VString v)) = Err (ErrValidation "unknown parameter path") →
  ∀ e, EncodeUSPAgentRequest (EncodeEventToRequest range ev id) ≠ Ok e.
Proof.
  intros Hrange Hc Hk Hunknown e He. unfold EncodeUSPAgentRequest in He. apply bind_ok in He as ([] & Hv & _).
  pose proof (carries_message ev id Hc) as Hmsg. destruct (event_meta range ev id) as (_ & _ & Hmethod).
  set (req := EncodeEventToRequest range ev id) in *. pose proof (validate_message_ok _ Hv) as Hval.
  unfold validateUSPAgentRequestMessage in Hval. cbn [with_message compactRequestSelectors with_request_paths qMessage qMethod] in Hval.
  rewrite Hmsg, Hmethod in Hval. unfold eventParamsToMessage in Hval.
  assert (size (evParams ev) ≠ 0%nat) as Hz by (intros Hz%map_size_empty_iff; by rewrite Hz, lookup_empty in Hk).
  rewrite (proj2 (Nat.eqb_neq _ _) Hz) in Hval. cbn [fmap option_fmap option_map] in Hval.
  match type of Hval with context [ValidateMessageFast ?m] => set (msg := m) in * end.
  assert (MkField 0 k (VString v) ∈ Fields msg) as Hin.
  { apply list_elem_of_fmap. exists (MkField 0 k (VString v)). split; [done|]. apply list_elem_of_fmap. exists (k, v). split; [done|].
    by rewrite Hrange, elem_of_map_to_list. }
  pose proof (validate_fields_each _ _ _ Hval _ Hin). congruence.
Qed.
End Claims.

(** ** Witnesses *)

#[local] Instance plain_format : ValueFormat := {| FormatFloat _ := []; FormatTime _ := []; IP_String b := b |}.
#[local] Instance bare_schema : Schema :=
  {| schema_registry := buildRegistry [bs "Device.WUSP.Enable"]; SelectorForPath _ := None; PathForSelector _ _ := None;
     lookupSafeParam p := bool_decide (p = bs "Device.WUSP.Enable");
     ValidateFieldFast f := if bool_decide (Path f = bs "Device.WUSP.Enable") then Ok () else Err (ErrValidation "unknown parameter path");
     ValueToString := value_text |}.
Definition demo_completed : USPEvent :=
  MkEvent USPEventTypeOperationComplete (bs "sub-1") (bs "Device.WUSP.") (bs "Reboot()") (bs "key") ∅ None [] (Some (MkEventError 7022 (bs "busy"))) None.
Definition demo_boot : USPEvent :=
  MkEvent USPEventTypeEvent [] (bs "Device.") (bs "Boot!") [] {[bs "Cause" := bs "LocalReboot"]} None [] None None.

Lemma demo_completed_request :
  EncodeEventToRequest map_to_list demo_completed 5 =
    notify_request 5 (bs "Device.WUSP.") [] None (qMetadata (EncodeEventToRequest map_to_list demo_completed 5)).
Proof. vm_refl. Qed.
Lemma demo_completed_plain : plain_request (EncodeEventToRequest map_to_list demo_completed 5).
Proof.
  rewrite demo_completed_request. generalize (qMetadata (EncodeEventToRequest map_to_list demo_completed 5)) as meta. intros meta.
  unfold plain_request, u64_ok, byte_ok, notify_request, USPAgentMethodNotify.
  cbn [qID qMethod qPaths qPathCodes qPathInstances qObjectPath qObjectCode qObjectInstances qMessage].
  split_and!; try reflexivity; try lia; [constructor|right; split; vm_compute; reflexivity|done].
Qed.

Lemma event_delivered_witness :
  ∃ e req', EncodeUSPAgentRequest (EncodeEventToRequest map_to_list demo_completed 5) = Ok e ∧
    DecodeUSPAgentRequest (e ++ replicate 4 (z2b 0)) = Ok req' ∧ DecodeEventFromRequest req' = Ok demo_completed.
Proof.
  destruct (EncodeUSPAgentRequest (EncodeEventToRequest map_to_list demo_completed 5)) as [e| |] eqn:E;
    [|vm_compute in E; discriminate|vm_compute in E; discriminate].
  destruct (event_delivered map_to_list demo_completed 5 e 4) as (req' & Hd & _ & _ & Hev).
  - done.
  - apply value_text_string.
  - split; [vm_compute; split; discriminate|]. intros err [= <-]. vm_compute. split; [discriminate|reflexivity].
  - apply demo_completed_plain.
  - rewrite demo_completed_request. cbn [notify_request qObjectPath qPaths]. constructor; [intros code inst [=]|constructor].
  - exact E.
  - vm_compute in E. injection E as <-. vm_compute. discriminate.
  - exists e, req'. split; [reflexivity|]. split; [exact Hd|]. rewrite Hev. vm_compute. reflexivity.
Defined.

Lemma event_arguments_refused_witness :
  match EncodeUSPAgentRequest (EncodeEventToRequest map_to_list demo_boot 5) with Ok _ => False | _ => True end.
Proof.
  destruct (EncodeUSPAgentRequest (EncodeEventToRequest map_to_list demo_boot 5)) as [e| |] eqn:E; [|exact I|exact I].
  apply (event_arguments_refused map_to_list demo_boot 5 (bs "Cause") (bs "LocalReboot")) with (e := e).
  - intros m. reflexivity.
  - left. split; reflexivity.
  - apply lookup_singleton_eq.
  - vm_compute. reflexivity.
  - exact E.
Defined.
