(* ===== verification/UspStore.v ===== *)
(** * The agent's parameter store

    src/internal/wusp/usp_agent.go, the part that works on the map of stored
    values: selecting fields for requested paths, deleting subtrees, finding the
    instances of a multi-instance object and choosing the next instance number.
    [range] is the order in which a [for range] visits the map.  Cloning a field
    is the identity: a stored value is never mutated in place. *)

From S2P Require Import Prelude GoStr Wire Codec Fragments ReadReplay Transport Request DeviceModel.

Abbreviation store := (gmap bytes Field).

(** Errors of the agent; the text of an error is taken from it where a response
    carries one. *)
Inductive aerr : Type :=
| AValidation (path : bytes) (reason : string)
| ANotFound (path : bytes)
| AUnsupported
| ATransferUnsupported
| AWire (e : werr)
| ABackend (text : bytes).

Definition lift {A} (m : res werr A) : res aerr A :=
  match m with Ok a => Ok a | Err e => Err (AWire e) | Panic => Panic end.

(** err.Error(), for given texts of the transport's errors. *)
Definition Error (wire_text : werr → bytes) (e : aerr) : bytes :=
  match e with
  | AValidation path reason =>
      if (length path =? 0)%nat then bs "wusp: invalid message: " ++ bs reason else bs "wusp: invalid " ++ path ++ bs ": " ++ bs reason
  | ANotFound path => bs "wusp: path not found: " ++ path
  | AUnsupported => bs "wusp: path unsupported"
  | ATransferUnsupported => bs "wusp: transfer handler not configured"
  | AWire e => wire_text e
  | ABackend text => text
  end.

(** ** Selecting stored fields *)

Definition field_le (a b : Field) : Prop := bytes_le (Path a) (Path b).
#[export] Instance field_le_dec : RelDecision field_le.
Proof. intros a b. unfold field_le. apply _. Defined.
Definition sort_fields (l : list Field) : list Field := merge_sort field_le l.

Section Store.
Context (range : store → list (bytes * Field)).

Definition sortedStoredFields (values : store) : list Field := sort_fields ((range values).*2).
Definition buildSnapshotMessage (values : store) : Message := MkMessage [] None (sortedStoredFields values).

(** Whether an object path selects a stored path: template paths only when
    they are asked for. *)
Definition under_object (path key : bytes) : bool :=
  HasPrefix key path && negb (negb (Contains path token) && Contains key token).

(** The loop of getStored over the map for one object path. *)
Fixpoint take_matching (path : bytes) (l : list (bytes * Field)) (out : list Field) (seen : gset bytes) (matched : bool)
    : list Field * gset bytes * bool :=
  match l with
  | [] => (out, seen, matched)
  | (key, field) :: l =>
      if under_object path key && negb (bool_decide (key ∈ seen))
      then take_matching path l (out ++ [field]) ({[key]} ∪ seen) true
      else take_matching path l out seen matched
  end.
Fixpoint get_loop (values : store) (paths : list bytes) (out : list Field) (seen : gset bytes) : res aerr (list Field) :=
  match paths with
  | [] => Ok out
  | path :: paths =>
      let path := TrimSpace path in
      if (length path =? 0)%nat then Err (AValidation [] "empty get path") else
      if isObjectPath path then
        let '(out, seen, matched) := take_matching path (range values) out seen false in
        if matched then get_loop values paths out seen else Err (ANotFound path)
      else
        match values !! path with
        | None => Err (ANotFound path)
        | Some field =>
            if bool_decide (path ∈ seen) then get_loop values paths out seen
            else get_loop values paths (out ++ [field]) ({[path]} ∪ seen)
        end
  end.
Definition getStored (values : store) (paths : list bytes) : res aerr Message :=
  if (length paths =? 0)%nat then Ok (buildSnapshotMessage values)
  else out ← get_loop values paths [] ∅; Ok (MkMessage [] None (sort_fields out)).

(** filterValuesForPaths: the same selection over the sorted fields, in which an
    object path that selects nothing new is no error. *)
Fixpoint filter_loop (values : store) (paths : list bytes) (out : list Field) (seen : gset bytes) : res aerr (list Field) :=
  match paths with
  | [] => Ok out
  | path :: paths =>
      let path := TrimSpace path in
      if (length path =? 0)%nat then Err (AValidation [] "empty get path") else
      if isObjectPath path then
        let '(out, seen, _) := take_matching path ((fun f => (Path f, f)) <$> sortedStoredFields values) out seen false in
        filter_loop values paths out seen
      else
        match values !! path with
        | None => Err (ANotFound path)
        | Some field =>
            if bool_decide (path ∈ seen) then filter_loop values paths out seen
            else filter_loop values paths (out ++ [field]) ({[path]} ∪ seen)
        end
  end.
Definition filterValuesForPaths (values : store) (paths : list bytes) : res aerr Message :=
  out ← filter_loop values paths [] ∅; Ok (MkMessage [] None (sort_fields out)).

Definition mergeMessageFields (values : store) (fields : list Field) : store :=
  foldl (fun m f => <[Path f := f]> m) values fields.

Definition deletePathLocked (values : store) (path : bytes) : store * bool :=
  if isObjectPath path then
    (filter (fun kv => ¬ HasPrefix kv.1 path = true) values, bool_decide (map_Exists (fun k _ => HasPrefix k path = true) values))
  else match values !! path with
       | None => (values, false)
       | Some _ => (delete path values, true)
       end.
Definition hasFieldsWithPrefix (values : store) (prefix : bytes) : bool :=
  existsb (fun kv => HasPrefix kv.1 prefix) (range values).

(** ** Instances *)

Definition splitObjectParts (path : bytes) : list bytes := Split (TrimSuffix (TrimSpace path) (bs ".")) dot.

(** The segments of a stored path that fit the object's segments. *)
Fixpoint match_parts (objectParts fieldParts : list bytes) : option (list bytes) :=
  match objectParts, fieldParts with
  | [], _ => Some []
  | o :: objectParts, f :: fieldParts =>
      if (bool_decide (o = token) && isNumericPathSegment f) || bool_decide (o = f)
      then match match_parts objectParts fieldParts with Some l => Some (f :: l) | None => None end
      else None
  | _ :: _, [] => None
  end.
Definition extractActualObjectPath (canonicalObjectPath fieldPath : bytes) : option bytes :=
  let objectParts := splitObjectParts canonicalObjectPath in
  let fieldParts := Split (TrimSpace fieldPath) dot in
  if (length fieldParts <? length objectParts + 1)%nat then None
  else match match_parts objectParts fieldParts with
       | Some actual => Some (Join actual dot ++ [dot])
       | None => None
       end.

Fixpoint dedup (seen : gset bytes) (l : list bytes) : list bytes :=
  match l with
  | [] => []
  | p :: l => if bool_decide (p ∈ seen) then dedup seen l else p :: dedup ({[p]} ∪ seen) l
  end.
Definition instancePathsForObject (values : store) (canonicalObjectPath : bytes) : list bytes :=
  SortStrings (dedup ∅ (omap (fun kv => extractActualObjectPath canonicalObjectPath kv.1) (range values))).

(** fmt.Sscanf of a numeric segment into an int. *)
Definition scan_int (s : bytes) : option Z :=
  match ParseUint s 64 with Some n => if n <? 2 ^ 63 then Some n else None | None => None end.
Definition parseObjectInstanceAt (objectPath : bytes) (instanceOrdinal : nat) : option Z :=
  match List.filter isNumericPathSegment (splitObjectParts objectPath) !! instanceOrdinal with
  | Some part => scan_int part
  | None => None
  end.

(** The instance values of the request, with the position of the unresolved
    one; it is the empty string until its number is chosen. *)
Fixpoint request_instances (requestedPath : bytes) (template request : list bytes) (acc : list bytes) (unresolved : option nat)
    : res aerr (list bytes * option nat) :=
  match template, request with
  | t :: template, r :: request =>
      if bool_decide (t = token) then
        if bool_decide (r = token) then
          match unresolved with
          | Some _ => Err (AValidation requestedPath "only the final instance token may be unresolved")
          | None => request_instances requestedPath template request (acc ++ [[]]) (Some (length acc))
          end
        else if isNumericPathSegment r then request_instances requestedPath template request (acc ++ [r]) unresolved
        else Err (AValidation requestedPath "instance segments must be numeric or {i}")
      else if bool_decide (t = r) then request_instances requestedPath template request acc unresolved
      else Err (AValidation requestedPath "object path does not match schema")
  | _, _ => Ok (acc, unresolved)
  end.
(** Whether a candidate has the request's resolved instances. *)
Fixpoint same_instances (template parts instanceValues : list bytes) (valueIdx unresolved : nat) : bool :=
  match template, parts with
  | t :: template, p :: parts =>
      if bool_decide (t = token) then
        ((valueIdx =? unresolved)%nat || bool_decide (instanceValues !! valueIdx = Some p))
        && same_instances template parts instanceValues (S valueIdx) unresolved
      else same_instances template parts instanceValues valueIdx unresolved
  | _, _ => true
  end.
Definition instance_number (values : store) (canonical : bytes) (instanceValues : list bytes) (unresolved : nat) (fieldPath : bytes) : option Z :=
  match extractActualObjectPath canonical fieldPath with
  | None => None
  | Some candidate =>
      if same_instances (splitObjectParts canonical) (splitObjectParts candidate) instanceValues 0 unresolved
      then parseObjectInstanceAt candidate unresolved else None
  end.
Definition max_instance (values : store) (canonical : bytes) (instanceValues : list bytes) (unresolved : nat) : Z :=
  foldl (fun m kv => match instance_number values canonical instanceValues unresolved kv.1 with
                     | Some n => if m <? n then n else m
                     | None => m
                     end) 0 (range values).
(** Fill the tokens of a template, in order, while there are values. *)
Fixpoint fill_tokens (parts values : list bytes) : list bytes :=
  match parts with
  | [] => []
  | part :: parts =>
      if bool_decide (part = token) then
        match values with v :: values => v :: fill_tokens parts values | [] => part :: fill_tokens parts [] end
      else part :: fill_tokens parts values
  end.

Definition nextObjectInstance (values : store) (requestedPath canonical : bytes) : res aerr (list bytes * bytes) :=
  let template := splitObjectParts canonical in
  let request := splitObjectParts (TrimSpace requestedPath) in
  if negb (length template =? length request)%nat then Err (AValidation requestedPath "object path shape does not match schema") else
  r ← request_instances requestedPath template request [] None;
  match r with
  | (_, None) => Err (AValidation requestedPath "add requires an unresolved {i} token")
  | (instanceValues, Some unresolved) =>
      let number := i64 (max_instance values canonical instanceValues unresolved + 1) in
      let instanceValues := <[unresolved := Itoa number]> instanceValues in
      Ok (instanceValues, Join (fill_tokens template instanceValues) dot ++ [dot])
  end.

(** The path of a parameter below the new instance: tokens are filled at the
    positions of the object's tokens. *)
Fixpoint fill_at (template parts values : list bytes) : list bytes :=
  match template, parts with
  | t :: template, p :: parts =>
      if bool_decide (t = token) then
        match values with v :: values => v :: fill_at template parts values | [] => p :: fill_at template parts [] end
      else p :: fill_at template parts values
  | [], parts => parts
  | _, [] => []
  end.
Definition materializePathForInstance (path canonicalObjectPath : bytes) (instanceValues : list bytes) : bytes :=
  Join (fill_at (Split canonicalObjectPath dot) (Split path dot) instanceValues) dot.
End Store.

(** ** The schema tables *)

Section Tables.
Context (AllDeviceObjects : list Object) (AllDeviceParams : list Param).
(** safeFilledValueForParam for the realistic profile. *)
Context (fill : Param → nat → Value).
Context (range : store → list (bytes * Field)).

Definition lookupObjectDefinition (path : bytes) : option (Object * bytes) :=
  let canonical := canonicalParamPath (TrimSpace path) in
  match find (fun o => bool_decide (oPath o = canonical)) AllDeviceObjects with
  | Some o => Some (o, canonical)
  | None =>
      let addCanonical := TrimSuffix canonical (bs ".") ++ bs ".{i}." in
      match find (fun o => oMultiInstance o && bool_decide (oPath o = addCanonical)) AllDeviceObjects with
      | Some o => Some (o, addCanonical)
      | None => None
      end
  end.
Definition collectAllMultiInstanceObjectPaths : list bytes := oPath <$> List.filter oMultiInstance AllDeviceObjects.

(** A map of fields by path, built over the parameter table. *)
Fixpoint object_fields (i : nat) (params : list Param) (canonicalObjectPath : bytes) (instanceValues : list bytes) (fields : store) : store :=
  match params with
  | [] => fields
  | param :: params =>
      let fields := if HasPrefix (mPath param) canonicalObjectPath then
                      let path := materializePathForInstance (mPath param) canonicalObjectPath instanceValues in
                      <[path := MkField 0 path (fill param i)]> fields
                    else fields in
      object_fields (S i) params canonicalObjectPath instanceValues fields
  end.
Definition buildObjectFieldsForAdd (canonicalObjectPath : bytes) (instanceValues : list bytes) : store :=
  object_fields 0 AllDeviceParams canonicalObjectPath instanceValues ∅.

Definition instancePathsForRequest (values : store) (path : bytes) : res aerr (list bytes) :=
  match lookupObjectDefinition path with
  | Some (object, canonical) =>
      if oMultiInstance object then Ok (instancePathsForObject range values canonical)
      else if hasFieldsWithPrefix range values canonical then Ok [canonical] else Err (ANotFound path)
  | None =>
      if negb (isObjectPath path) then Err (AValidation path "get-instances requires object paths") else
      let instances := instancePathsForObject range values (canonicalParamPath path) in
      if (length instances =? 0)%nat then Err (ANotFound path) else Ok instances
  end.

Definition normalizeSupportedDMFilters (paths : list bytes) : list bytes :=
  SortStrings (dedup ∅ (canonicalParamPath <$> List.filter (fun p => negb (length p =? 0)%nat) (TrimSpace <$> paths))).
Definition supportedPathMatches (filters : list bytes) (candidate : bytes) : bool :=
  (length filters =? 0)%nat ||
  existsb (fun f => bool_decide (candidate = f) || HasPrefix candidate f || HasPrefix f candidate) filters.
End Tables.
