(* ===== verification/UspStoreProps.v ===== *)
(** * Properties of the parameter store

    What Get returns, and that Add chooses a free instance. *)

From S2P Require Import Prelude GoStr Wire Codec Fragments ReadReplay Transport Request DeviceModel DeviceModelProps UspStore.

(** The store files every field under its own path. *)
Definition keyed (values : store) : Prop := ∀ k f, values !! k = Some f → Path f = k.
(** Whether a requested path selects a stored one. *)
Definition selects (path key : bytes) : Prop := if isObjectPath path then under_object path key = true else key = path.

(** The entries one object path adds: those it selects that were not seen. *)
Definition fresh_under (path : bytes) (seen : gset bytes) (kv : bytes * Field) : bool :=
  under_object path kv.1 && negb (bool_decide (kv.1 ∈ seen)).
Lemma filter_ext_in' {A} (P Q : A → bool) l : (∀ x, x ∈ l → P x = Q x) → List.filter P l = List.filter Q l.
Proof. intros He. apply filter_ext_in. intros x Hx. apply He. by apply list_elem_of_In. Qed.

Lemma take_matching_eq path l : ∀ out seen matched, NoDup l.*1 →
  let new := List.filter (fresh_under path seen) l in
  take_matching path l out seen matched = (out ++ new.*2, list_to_set new.*1 ∪ seen, matched || negb (length new =? 0)%nat).
Proof.
  induction l as [|[k f] l IH]; intros out seen matched Hnd; cbv zeta; cbn [take_matching List.filter].
  { rewrite app_nil_r. cbn [length Nat.eqb negb]. rewrite orb_false_r. f_equal. f_equal. set_solver. }
  rewrite fmap_cons in Hnd. apply NoDup_cons in Hnd as [Hk Hnd]. fold (fresh_under path seen (k, f)).
  change (under_object path k && negb (bool_decide (k ∈ seen))) with (fresh_under path seen (k, f)).
  destruct (fresh_under path seen (k, f)) eqn:Hf; [|by apply IH]. rewrite IH by done.
  rewrite (filter_ext_in' (fresh_under path ({[k]} ∪ seen)) (fresh_under path seen)).
  - rewrite <- app_assoc, !fmap_cons. cbn [list_to_set foldr fst snd length Nat.eqb negb]. rewrite orb_true_r. f_equal. f_equal. set_solver.
  - intros [k' f'] Hin. unfold fresh_under. cbn [fst]. f_equal. f_equal. apply bool_decide_ext. rewrite elem_of_union, elem_of_singleton.
    split; [|by right]. intros [->|?]; [|done]. exfalso. apply Hk. apply list_elem_of_fmap. by exists (k, f').
Qed.

Section Get.
Context (range : store → list (bytes * Field)) (Hrange : ∀ m, range m ≡ₚ map_to_list m).
Context (values : store) (Hkeyed : keyed values).

Lemma range_values k f : (k, f) ∈ range values ↔ values !! k = Some f.
Proof using Hrange. by rewrite Hrange, elem_of_map_to_list. Qed.

(** Fields selected so far: each once, and exactly those seen. *)
Definition selection (out : list Field) (seen : gset bytes) : Prop :=
  NoDup (Path <$> out) ∧ (∀ k, k ∈ seen ↔ k ∈ Path <$> out) ∧ ∀ f, f ∈ out → values !! Path f = Some f.

Lemma selection_app out seen (new : list (bytes * Field)) :
  selection out seen → NoDup new.*1 → (∀ k f, (k, f) ∈ new → values !! k = Some f ∧ k ∉ seen) →
  selection (out ++ new.*2) (list_to_set new.*1 ∪ seen).
Proof using Hkeyed.
  intros (Hnd & Hseen & Hin) Hnew Hfresh.
  assert (Hpaths : Path <$> new.*2 = new.*1).
  { clear Hnew. induction new as [|[k f] new IH]; [done|]. rewrite !fmap_cons. cbn [fst snd]. rewrite IH by (intros; apply Hfresh; by right).
    f_equal. apply Hkeyed, Hfresh. by left. }
  split_and!.
  - rewrite fmap_app, Hpaths. apply NoDup_app. split_and!; [done| |done]. intros k Hk%Hseen Hk'.
    apply list_elem_of_fmap in Hk' as ([k' f] & -> & Hkf). by apply Hfresh in Hkf as [_ ?].
  - intros k. rewrite elem_of_union, elem_of_list_to_set, fmap_app, elem_of_app, Hseen, Hpaths. tauto.
  - intros f [Hf|Hf]%elem_of_app; [by apply Hin|]. apply list_elem_of_fmap in Hf as ([k g] & -> & Hkf). cbn [snd].
    destruct (Hfresh k g Hkf) as [Hv _]. by rewrite (Hkeyed k g Hv).
Qed.

Lemma range_nodup : NoDup (range values).*1.
Proof using Hrange. rewrite Hrange. apply NoDup_fst_map_to_list. Qed.
Lemma new_nodup (P : bytes * Field → bool) : NoDup (List.filter P (range values)).*1.
Proof using Hrange.
  pose proof range_nodup as Hnd. induction (range values) as [|kv l IH]; [done|]. cbn [List.filter]. rewrite fmap_cons in Hnd. apply NoDup_cons in Hnd as [Hk Hnd].
  destruct (P kv); [|by apply IH]. rewrite fmap_cons. constructor; [|by apply IH]. intros Hin. apply Hk.
  apply list_elem_of_fmap in Hin as (x & -> & Hx). apply list_elem_of_fmap. exists x. split; [done|].
  apply list_elem_of_In, filter_In in Hx as [Hx _]. by apply list_elem_of_In.
Qed.

(** One requested path. *)
Lemma get_step out seen path paths :
  selection out seen →
  match get_loop range values (path :: paths) out seen with
  | Ok res => ∃ out' seen', selection out' seen' ∧ get_loop range values paths out' seen' = Ok res ∧
      ∀ f, f ∈ out' ↔ f ∈ out ∨ ∃ k, values !! k = Some f ∧ selects (TrimSpace path) k
  | _ => True
  end.
Proof using Hrange Hkeyed.
  intros Hsel. cbn [get_loop]. destruct (_ =? 0)%nat; [done|]. unfold selects. destruct (isObjectPath (TrimSpace path)) eqn:Ho.
  - rewrite take_matching_eq by apply range_nodup. set (new := List.filter _ _). destruct (_ || _); [|done].
    destruct (get_loop range values paths _ _) as [res| |] eqn:Hg; [|done|done]. eexists _, _. split_and!; [|exact Hg|].
    + apply selection_app; [done|apply new_nodup|]. intros k f Hkf. apply list_elem_of_In, filter_In in Hkf as [Hin Hf]. apply list_elem_of_In, range_values in Hin.
      split; [done|]. unfold fresh_under in Hf. apply andb_true_iff in Hf as [_ Hf]. by apply negb_true_iff, bool_decide_eq_false in Hf.
    + intros f. rewrite elem_of_app, list_elem_of_fmap. split.
      * intros [?|([k g] & -> & Hkf)]; [by left|right]. apply list_elem_of_In, filter_In in Hkf as [Hin Hf]. exists k. split; [by apply range_values, list_elem_of_In|].
        unfold fresh_under in Hf. by apply andb_true_iff in Hf as [? _].
      * intros [?|(k & Hk & Hu)]; [by left|]. destruct (decide (k ∈ seen)) as [Hin|Hin].
        { left. destruct Hsel as (_ & Hseen & Hval). apply Hseen, list_elem_of_fmap in Hin as (h & -> & Hh). specialize (Hval h Hh). congruence. }
        right. exists (k, f). split; [done|]. apply list_elem_of_In, filter_In. split; [by apply list_elem_of_In, range_values|].
        unfold fresh_under. cbn [fst]. by rewrite Hu, bool_decide_false.
  - destruct (values !! TrimSpace path) as [g|] eqn:Hv; [|done]. case_bool_decide as Hs.
    + destruct (get_loop range values paths out seen) as [res| |] eqn:Hg; [|done|done]. exists out, seen. split_and!; [done|done|].
      intros f. split; [by left|]. intros [?|(k & Hk & ->)]; [done|]. destruct Hsel as (_ & Hseen & Hval).
      apply Hseen, list_elem_of_fmap in Hs as (h & Heq & Hh). specialize (Hval h Hh). congruence.
    + destruct (get_loop range values paths _ _) as [res| |] eqn:Hg; [|done|done]. eexists _, _. split_and!; [|exact Hg|].
      * pose proof (selection_app out seen [(TrimSpace path, g)] Hsel) as Hsa. cbn [fmap list_fmap fst snd list_to_set foldr] in Hsa.
        rewrite (right_id_L ∅ (∪)) in Hsa. apply Hsa; [apply NoDup_singleton|]. intros k f [= -> ->]%list_elem_of_singleton. done.
      * intros f. rewrite elem_of_app, list_elem_of_singleton. split; [intros [?| ->]; [by left|right; by exists (TrimSpace path)]|].
        intros [?|(k & Hk & ->)]; [by left|right; congruence].
Qed.

Lemma get_loop_spec paths : ∀ out seen res,
  selection out seen → get_loop range values paths out seen = Ok res →
  NoDup (Path <$> res) ∧ ∀ f, f ∈ res ↔ f ∈ out ∨ ∃ k p, values !! k = Some f ∧ p ∈ paths ∧ selects (TrimSpace p) k.
Proof using Hrange Hkeyed.
  induction paths as [|path paths IH]; intros out seen res Hsel Hg.
  { injection Hg as <-. split; [apply Hsel|]. intros f. split; [by left|]. intros [?|(k & p & _ & []%elem_of_nil & _)]. done. }
  pose proof (get_step out seen path paths Hsel) as Hstep. rewrite Hg in Hstep. destruct Hstep as (out' & seen' & Hsel' & Hg' & Hout).
  destruct (IH out' seen' res Hsel' Hg') as [Hnd Hres]. split; [done|]. intros f. rewrite Hres, Hout. split.
  - intros [[?|(k & ? & ?)]|(k & p & ? & ? & ?)]; [by left|right; exists k, path; split_and!; [done|by left|done]|right; exists k, p; split_and!; [done|by right|done]].
  - intros [?|(k & p & ? & [->|?]%elem_of_cons & ?)]; [by left; left|left; right; by exists k|right; by exists k, p].
Qed.
End Get.

#[export] Instance field_le_total : Total field_le.
Proof. intros a b. apply bytes_leb_total. Qed.
Lemma sort_fields_perm l : sort_fields l ≡ₚ l.
Proof. apply merge_sort_Permutation. Qed.
Lemma sort_fields_sorted l : Sorted field_le (sort_fields l).
Proof. apply Sorted_merge_sort, _. Qed.

(** ** Choosing the next instance *)

Lemma max_fold {A} (number : A → option Z) l : ∀ m,
  m ≤ foldl (fun m x => match number x with Some n => if m <? n then n else m | None => m end) m l ∧
  ∀ x n, x ∈ l → number x = Some n → n ≤ foldl (fun m x => match number x with Some n => if m <? n then n else m | None => m end) m l.
Proof.
  induction l as [|y l IH]; intros m; cbn [foldl].
  { split; [lia|]. by intros x n ?%elem_of_nil. }
  set (m' := match number y with Some n => if m <? n then n else m | None => m end). destruct (IH m') as [Hm Hl].
  assert (m ≤ m' ∧ ∀ n, number y = Some n → n ≤ m') as [Hmm Hy].
  { unfold m'. destruct (number y) as [n|]; [|split; [lia|done]]. destruct (Z.ltb_spec m n); split; try lia; intros ? [= <-]; lia. }
  split; [lia|]. intros x n [->|Hx]%elem_of_cons Hn; [specialize (Hy n Hn); lia|by eapply Hl].
Qed.

(** Instance values of a request: numbers but for the unresolved one. *)
Definition values_ok (iv : list bytes) (unresolved : option nat) : Prop :=
  (∀ i x, iv !! i = Some x → isNumericPathSegment x = true ∨ unresolved = Some i) ∧
  (∀ u, unresolved = Some u → (u < length iv)%nat).
Lemma request_instances_ok path template : ∀ request acc un iv un',
  request_instances path template request acc un = Ok (iv, un') → length template = length request → values_ok acc un →
  values_ok iv un' ∧ length iv = (length acc + tokens template)%nat.
Proof.
  induction template as [|t template IH]; intros [|r request] acc un iv un' Hr Hl Hok; try done.
  { injection Hr as <- <-. split; [done|]. unfold tokens. simpl. lia. }
  cbn [request_instances] in Hr. injection Hl as Hl. unfold tokens. cbn [List.filter]. case_bool_decide as Ht.
  - case_bool_decide as Hrt; [destruct un as [u|]; [done|]|destruct (isNumericPathSegment r) eqn:Hn; [|done]].
    + apply IH in Hr as [Hv Hlen]; [|done|].
      * split; [done|]. rewrite Hlen, length_app. cbn [length]. unfold tokens. lia.
      * destruct Hok as [Hi _]. split; [|intros u [= <-]; rewrite length_app; simpl; lia].
        intros i x [Hx|[Hge Hx]]%lookup_app_Some; [destruct (Hi i x Hx); [by left|done]|].
        apply list_lookup_singleton_Some in Hx as [Hz _]. right. f_equal. lia.
    + apply IH in Hr as [Hv Hlen]; [|done|].
      * split; [done|]. rewrite Hlen, length_app. cbn [length]. unfold tokens. lia.
      * destruct Hok as [Hi Hu]. split; [|intros u Hun; specialize (Hu u Hun); rewrite length_app; lia].
        intros i x [Hx|[Hge Hx]]%lookup_app_Some; [by apply Hi|]. apply list_lookup_singleton_Some in Hx as [_ <-]. by left.
  - case_bool_decide; [|done]. apply IH in Hr as [Hv Hlen]; [|done|done]. by split.
Qed.

Lemma fill_numeric template : ∀ iv,
  Forall (fun s => isNumericPathSegment s = false) template → Forall (fun s => isNumericPathSegment s = true) iv → length iv = tokens template →
  List.filter isNumericPathSegment (fill_tokens template iv) = iv.
Proof.
  induction template as [|t template IH]; intros iv Ht Hiv Hl; cbn [fill_tokens].
  { unfold tokens in Hl. simpl in Hl. by destruct iv. }
  apply Forall_cons in Ht as [Ht1 Ht2]. unfold tokens in Hl. cbn [List.filter] in Hl. case_bool_decide as Htok.
  - destruct iv as [|v iv]; [done|]. apply Forall_cons in Hiv as [Hv Hiv]. cbn [List.filter]. rewrite Hv. f_equal. apply IH; [done|done|].
    cbn [length] in Hl. unfold tokens. lia.
  - cbn [List.filter]. rewrite Ht1. by apply IH.
Qed.
Lemma same_fill template : ∀ iv iv0 idx u,
  (∀ i, i ≠ u → iv !! i = iv0 !! i) → length iv = (idx + tokens template)%nat →
  same_instances template (fill_tokens template (drop idx iv)) iv0 idx u = true.
Proof.
  induction template as [|t template IH]; intros iv iv0 idx u Hag Hl; [done|]. cbn [fill_tokens same_instances]. unfold tokens in Hl. cbn [List.filter] in Hl.
  destruct (bool_decide (t = token)) eqn:Htok.
  - cbn [length] in Hl. destruct (lookup_lt_is_Some_2 iv idx) as [v Hv]; [lia|]. rewrite (drop_S _ _ _ Hv). cbn [same_instances]. rewrite ?Htok.
    rewrite IH; [|done|unfold tokens; lia]. rewrite andb_true_r. destruct (Nat.eqb_spec idx u) as [|Hne]; [done|]. cbn [orb].
    apply bool_decide_eq_true. by rewrite <- Hag.
  - cbn [same_instances]. rewrite ?Htok. by apply IH.
Qed.

Lemma fill_Forall (P : bytes → Prop) template : ∀ iv, Forall P template → Forall P iv → Forall P (fill_tokens template iv).
Proof.
  induction template as [|t template IH]; intros iv Ht Hiv; cbn [fill_tokens]; [done|]. apply Forall_cons in Ht as [Ht1 Ht2].
  case_bool_decide; [destruct iv as [|v iv]|]; constructor; try done; try (by apply IH).
  - by apply Forall_cons in Hiv as [? _].
  - apply Forall_cons in Hiv as [_ ?]. by apply IH.
Qed.
Lemma fill_length template : ∀ iv, length (fill_tokens template iv) = length template.
Proof. induction template as [|t template IH]; intros iv; cbn [fill_tokens]; [done|]. case_bool_decide; [destruct iv|]; cbn [length]; by rewrite IH. Qed.

(** The segments of an object path joined from graphic segments. *)
Lemma split_joined parts :
  parts ≠ [] → Forall (fun p => dot ∉ p) parts → Forall (Forall (fun c => graphic c = true)) parts →
  splitObjectParts (Join parts dot ++ [dot]) = parts.
Proof.
  intros Hne Hdot Hg. unfold splitObjectParts. rewrite TrimSpace_graphic.
  2:{ apply Forall_app. split; [by apply Join_Forall|by repeat constructor]. }
  assert (TrimSuffix (Join parts dot ++ [dot]) (bs ".") = Join parts dot) as ->; [|by apply Split_Join].
  unfold TrimSuffix, HasSuffix. rewrite length_app. change (length (bs ".")) with 1%nat. change (length [dot]) with 1%nat.
  rewrite (proj2 (Nat.leb_le 1 _)) by lia. replace (length (Join parts dot) + 1 - 1)%nat with (length (Join parts dot)) by lia.
  rewrite drop_app_length, bool_decide_true by done. cbn [andb]. apply take_app_length.
Qed.

Section Add.
Context (range : store → list (bytes * Field)) (Hrange : ∀ m, range m ≡ₚ map_to_list m).

Lemma Itoa_numeric n : 0 ≤ n → isNumericPathSegment (Itoa n) = true ∧ Itoa n = FormatUint n.
Proof. intros Hn. unfold Itoa. rewrite (proj2 (Z.ltb_ge n 0)) by lia. split; [by apply FormatUint_numeric|done]. Qed.
Lemma numeric_graphic s : isNumericPathSegment s = true → Forall (fun c => graphic c = true) s ∧ dot ∉ s.
Proof.
  unfold isNumericPathSegment. intros [_ Hd]%andb_true_iff. rewrite forallb_forall in Hd. split.
  - apply Forall_forall. intros c Hc. apply digit_graphic, Hd. by apply list_elem_of_In.
  - intros Hin%list_elem_of_In%Hd. done.
Qed.
Lemma max_instance_nonneg values canonical iv u : 0 ≤ max_instance range values canonical iv u.
Proof. unfold max_instance. apply (max_fold (λ kv : bytes * Field, instance_number values canonical iv u kv.1)). Qed.

(** The shape of what nextObjectInstance returns. *)
Lemma next_instance_shape values requested canonical iv actual :
  nextObjectInstance range values requested canonical = Ok (iv, actual) →
  ∃ iv0 u, let n := i64 (max_instance range values canonical iv0 u + 1) in
    values_ok iv0 (Some u) ∧ length iv0 = tokens (splitObjectParts canonical) ∧
    iv = <[u := Itoa n]> iv0 ∧ actual = Join (fill_tokens (splitObjectParts canonical) iv) dot ++ [dot].
Proof.
  unfold nextObjectInstance. destruct (Nat.eqb_spec (length (splitObjectParts canonical)) (length (splitObjectParts (TrimSpace requested)))) as [Hl|]; cbn [negb]; [|done].
  intros Hn. apply bind_ok in Hn as ([iv0 [u|]] & Hr & Hn); [|done]. injection Hn as <- <-. exists iv0, u.
  apply request_instances_ok in Hr as [Hv Hlen]; [|done|by split]. by split_and!.
Qed.

Lemma next_instance_segments values requested canonical iv actual :
  nextObjectInstance range values requested canonical = Ok (iv, actual) →
  Forall (fun c => graphic c = true) canonical → Forall (fun s => isNumericPathSegment s = false) (splitObjectParts canonical) →
  (∀ iv0 u, max_instance range values canonical iv0 u < 2 ^ 63 - 1) →
  Forall (fun s => isNumericPathSegment s = true) iv ∧ splitObjectParts actual = fill_tokens (splitObjectParts canonical) iv ∧
  length iv = tokens (splitObjectParts canonical).
Proof.
  intros Hn Hg Hnon Hmax. apply next_instance_shape in Hn as (iv0 & u & [Hv Hu] & Hlen & -> & ->).
  pose proof (max_instance_nonneg values canonical iv0 u) as Hm0. specialize (Hmax iv0 u).
  set (n := max_instance range values canonical iv0 u + 1) in *. rewrite (swrap_small 64 n) by lia.
  destruct (Itoa_numeric n ltac:(lia)) as [Hnum _].
  assert (Hiv : Forall (fun s => isNumericPathSegment s = true) (<[u := Itoa n]> iv0)).
  { apply Forall_lookup. intros i x [(-> & <- & _)|[Hne Hx]]%list_lookup_insert_Some; [done|]. destruct (Hv i x Hx) as [?|[= <-]]; done. }
  split_and!; [done| |by rewrite length_insert].
  assert (Hparts : Forall (fun s => Forall (fun c => graphic c = true) s ∧ dot ∉ s) (splitObjectParts canonical)).
  { unfold splitObjectParts. rewrite TrimSpace_graphic by done. apply Forall_forall. intros s Hs. split.
    - assert (Hgs : Forall (Forall (fun c => graphic c = true)) (Split (TrimSuffix canonical (bs ".")) dot)).
      { apply Split_Forall. unfold TrimSuffix. destruct (HasSuffix _ _); [by apply Forall_take|done]. }
      rewrite Forall_forall in Hgs. by apply Hgs.
    - pose proof (Split_no_dot (TrimSuffix canonical (bs ".")) dot) as Hnd. rewrite Forall_forall in Hnd. by apply Hnd. }
  assert (Hfill : Forall (fun s => Forall (fun c => graphic c = true) s ∧ dot ∉ s) (fill_tokens (splitObjectParts canonical) (<[u := Itoa n]> iv0))).
  { apply fill_Forall; [done|]. eapply Forall_impl; [exact Hiv|]. apply numeric_graphic. }
  apply split_joined.
  - intros Hz%(f_equal length). rewrite fill_length in Hz. unfold splitObjectParts in Hz. by apply length_zero_iff_nil, Split_nonempty in Hz.
  - eapply Forall_impl; [exact Hfill|]. by intros s [_ ?].
  - eapply Forall_impl; [exact Hfill|]. by intros s [? _].
Qed.

(** No stored path belongs to the instance that is chosen. *)
Lemma next_instance_fresh values requested canonical iv actual k f :
  nextObjectInstance range values requested canonical = Ok (iv, actual) →
  Forall (fun c => graphic c = true) canonical → Forall (fun s => isNumericPathSegment s = false) (splitObjectParts canonical) →
  (∀ iv0 u, max_instance range values canonical iv0 u < 2 ^ 63 - 1) →
  values !! k = Some f → extractActualObjectPath canonical k ≠ Some actual.
Proof using Hrange.
  intros Hn Hg Hnon Hmax Hk Hex. destruct (next_instance_segments _ _ _ _ _ Hn Hg Hnon Hmax) as (Hiv & Hsplit & Hl).
  apply next_instance_shape in Hn as (iv0 & u & [Hv Hu] & Hlen & -> & _).
  pose proof (max_instance_nonneg values canonical iv0 u) as Hm0. specialize (Hmax iv0 u).
  set (n := max_instance range values canonical iv0 u + 1) in *. rewrite (swrap_small 64 n) in Hiv, Hsplit, Hl by lia.
  assert (Hnum : instance_number values canonical iv0 u k = Some n).
  { unfold instance_number. rewrite Hex, Hsplit.
    rewrite <- (drop_0 (<[u := Itoa n]> iv0)), same_fill; [|by intros i Hi; apply list_lookup_insert_ne|done]. rewrite ?drop_0.
    unfold parseObjectInstanceAt. rewrite Hsplit, fill_numeric by done. rewrite list_lookup_insert_eq by (by apply Hu).
    unfold scan_int. destruct (Itoa_numeric n ltac:(lia)) as [_ ->]. rewrite ParseUint_FormatUint by lia. by rewrite (proj2 (Z.ltb_lt _ _)) by lia. }
  destruct (max_fold (λ kv : bytes * Field, instance_number values canonical iv0 u kv.1) (range values) 0) as [_ Hall].
  assert (n ≤ max_instance range values canonical iv0 u); [|lia]. apply (Hall (k, f)); [|done]. by rewrite Hrange, elem_of_map_to_list.
Qed.
End Add.

Section Claims.
Context (range : store → list (bytes * Field)).

(** Get returns exactly what is asked for: from a store that files fields
    under their paths, a successful Get of one or more paths returns, sorted by
    path and each once, precisely the stored fields whose path is one of the
    requested parameter paths or lies under one of the requested object paths
    (template paths only when asked for). *)
Theorem get_selects_exactly values paths msg :
  (∀ m, range m ≡ₚ map_to_list m) → keyed values → paths ≠ [] → getStored range values paths = Ok msg →
  NoDup (Path <$> Fields msg) ∧ Sorted field_le (Fields msg) ∧
  ∀ f, f ∈ Fields msg ↔ values !! Path f = Some f ∧ ∃ p, p ∈ paths ∧ selects (TrimSpace p) (Path f).
Proof.
  intros Hrange Hkeyed Hne Hg. unfold getStored in Hg. rewrite (proj2 (Nat.eqb_neq _ 0)) in Hg by (by destruct paths).
  apply bind_ok in Hg as (out & Hg & [= <-]). cbn [Fields].
  destruct (get_loop_spec range Hrange values Hkeyed paths [] ∅ out) as [Hnd Hout]; [|done|].
  { split_and!; [constructor|set_solver|by intros f ?%elem_of_nil]. }
  split_and!; [by rewrite sort_fields_perm|apply sort_fields_sorted|]. intros f. rewrite sort_fields_perm, Hout. split.
  - intros [[]%elem_of_nil|(k & p & Hk & Hp & Hs)]. rewrite (Hkeyed k f Hk). split; [done|by exists p].
  - intros [Hv (p & Hp & Hs)]. right. by exists (Path f), p.
Qed.

(** Asking for an object twice fails.  A Get of an object path that selects
    stored fields succeeds, but repeating the path (or asking for a parameter and
    then for an object that holds nothing else) is answered with path not found. *)
Theorem get_repeated_object_not_found values p k f :
  (∀ m, range m ≡ₚ map_to_list m) → keyed values → TrimSpace p = p → p ≠ [] → isObjectPath p = true →
  values !! k = Some f → under_object p k = true →
  (∃ msg, getStored range values [p] = Ok msg) ∧ getStored range values [p; p] = Err (ANotFound p).
Proof.
  intros Hrange Hkeyed Htrim Hne Hobj Hk Hu. pose proof (range_nodup range Hrange values) as Hnd.
  assert (Hnew : List.filter (fresh_under p ∅) (range values) ≠ []).
  { intros Hz. assert ((k, f) ∈ List.filter (fresh_under p ∅) (range values)) as Hin; [|rewrite Hz in Hin; by apply elem_of_nil in Hin].
    apply list_elem_of_In, filter_In. split; [apply list_elem_of_In; by rewrite Hrange, elem_of_map_to_list|]. unfold fresh_under. cbn [fst].
    rewrite Hu, bool_decide_false by set_solver. done. }
  unfold getStored. cbn [length Nat.eqb get_loop]. rewrite Htrim, (proj2 (Nat.eqb_neq (length p) 0)) by (by destruct p). rewrite Hobj.
  rewrite take_matching_eq by done. rewrite (proj2 (Nat.eqb_neq (length (List.filter _ _)) 0)) by (by destruct (List.filter (fresh_under p ∅) (range values))).
  cbn [orb negb]. split; [by eexists|]. rewrite take_matching_eq by done. set (seen := list_to_set _ ∪ ∅).
  assert (List.filter (fresh_under p seen) (range values) = []) as ->; [|done].
  destruct (List.filter (fresh_under p seen) (range values)) as [|[k' f'] l] eqn:E; [done|exfalso].
  assert (In (k', f') (List.filter (fresh_under p seen) (range values))) as [Hin Hf]%filter_In by (rewrite E; by left).
  unfold fresh_under in Hf. cbn [fst] in Hf. apply andb_true_iff in Hf as [Hu' Hs]. apply negb_true_iff, bool_decide_eq_false in Hs. apply Hs.
  unfold seen. apply elem_of_union_l, elem_of_list_to_set, list_elem_of_fmap. exists (k', f'). split; [done|].
  apply list_elem_of_In, filter_In. split; [done|]. unfold fresh_under. cbn [fst]. by rewrite Hu', bool_decide_false by set_solver.
Qed.
End Claims.

(** ** Witnesses *)

Definition demo_store : store :=
  <[bs "Device.WiFi.SSID.1.Enable" := MkField 0 (bs "Device.WiFi.SSID.1.Enable") (VString (bs "true"))]>
    {[bs "Device.WUSP.Enable" := MkField 0 (bs "Device.WUSP.Enable") (VString (bs "false"))]}.
Lemma demo_store_keyed : keyed demo_store.
Proof. unfold demo_store. intros k f [[<- <-]|[_ [<- <-]%lookup_singleton_Some]]%lookup_insert_Some; done. Qed.

Lemma get_selects_exactly_witness :
  ∃ msg, getStored map_to_list demo_store [bs " Device.WUSP.Enable "; bs "Device.WiFi."] = Ok msg ∧
    ∀ f, f ∈ Fields msg ↔ demo_store !! Path f = Some f ∧
      ∃ p, p ∈ [bs " Device.WUSP.Enable "; bs "Device.WiFi."] ∧ selects (TrimSpace p) (Path f).
Proof.
  destruct (getStored map_to_list demo_store [bs " Device.WUSP.Enable "; bs "Device.WiFi."]) as [msg| |] eqn:E;
    [|vm_compute in E; discriminate|vm_compute in E; discriminate].
  destruct (get_selects_exactly map_to_list demo_store [bs " Device.WUSP.Enable "; bs "Device.WiFi."] msg) as (_ & _ & Hin).
  - done.
  - apply demo_store_keyed.
  - done.
  - exact E.
  - exists msg. split; [reflexivity|exact Hin].
Defined.

Lemma get_repeated_object_not_found_witness :
  getStored map_to_list demo_store [bs "Device.WiFi."; bs "Device.WiFi."] = Err (ANotFound (bs "Device.WiFi.")).
Proof.
  apply (get_repeated_object_not_found map_to_list demo_store (bs "Device.WiFi.") (bs "Device.WiFi.SSID.1.Enable")
    (MkField 0 (bs "Device.WiFi.SSID.1.Enable") (VString (bs "true")))).
  - done.
  - apply demo_store_keyed.
  - vm_compute. reflexivity.
  - done.
  - vm_compute. reflexivity.
  - apply lookup_insert_eq.
  - vm_compute. reflexivity.
Defined.
