(* ===== verification/UspAgent.v ===== *)
(** * The agent's request handling

    src/internal/wusp/usp_agent.go and USPAgent.HandleRequest of
    usp_transport.go: the store, the subscriptions and the dispatch of requests.
    The platform behind the agent (collector, setter, operation, notify and
    transfer handlers, event sender, subscription handlers) is a record of
    functions over a state of its own, which they may change; [range] and
    [srange] are the orders in which a [for range] visits the maps.  Operations
    that hold the mutex are atomic; HandleRequest is one step of the agent. *)

From S2P Require Import Prelude GoStr Wire Codec Fragments ReadReplay Transport Request DeviceModel UspEvents UspStore.

Record berr := MkBackendError { bUnsupported : bool; bText : bytes }.

Record Platform (B : Type) := MkPlatform
  { xCollect : option (list bytes → B → B * res berr Message);
    xSet : option (bytes → Value → B → B * res berr ());
    xDelete : list bytes → B → B * res berr ();
    xAdd : option (bytes → option Message → B → B * res berr (list bytes));
    xOperate : option (bytes → option Message → metadata → B → B * res berr (option Message));
    xNotify : option (bytes → option Message → metadata → B → B * res berr ());
    xUpload : option (USPTransferRequest → B → B * res berr USPTransferResult);
    xDownload : option (USPTransferRequest → B → B * res berr USPTransferResult);
    xSend : bytes → B → B * res berr ();
    xHandler : nat → USPEvent → B → B * res berr () }.
Arguments xCollect {B} p. Arguments xSet {B} p. Arguments xDelete {B} p. Arguments xAdd {B} p.
Arguments xOperate {B} p. Arguments xNotify {B} p. Arguments xUpload {B} p. Arguments xDownload {B} p.
Arguments xSend {B} p. Arguments xHandler {B} p.

Record Agent (B : Type) := MkAgent
  { values : store; subscriptions : gmap bytes USPSubscription; nextEventID : Z; eventSender : bool; platform : B }.
Arguments MkAgent {B}. Arguments values {B} a. Arguments subscriptions {B} a. Arguments nextEventID {B} a.
Arguments eventSender {B} a. Arguments platform {B} a.

Definition NewUSPAgent {B} (sender : bool) (b : B) : Agent B := MkAgent ∅ ∅ 0 sender b.

Definition with_values {B} (a : Agent B) (v : store) : Agent B :=
  MkAgent v (subscriptions a) (nextEventID a) (eventSender a) (platform a).
Definition with_platform {B} (a : Agent B) (b : B) : Agent B :=
  MkAgent (values a) (subscriptions a) (nextEventID a) (eventSender a) b.
Definition with_subs {B} (a : Agent B) (s : gmap bytes USPSubscription) : Agent B :=
  MkAgent (values a) s (nextEventID a) (eventSender a) (platform a).

Definition backend_err (e : berr) : aerr := if bUnsupported e then AUnsupported else ABackend (bText e).
Definition from_backend {A} (r : res berr A) : res aerr A :=
  match r with Ok a => Ok a | Err e => Err (backend_err e) | Panic => Panic end.

Definition isWUSPConfigPath (path : bytes) : bool := HasPrefix path (bs "Device.WUSP.").
Definition isExplicitlySetPath (path : bytes) : bool := HasPrefix path (bs "Device.RootDataModelVersion").
Definition TrimPrefix (s p : bytes) : bytes := if HasPrefix s p then drop (length p) s else s.
Definition normalizeModelVersion (value : bytes) : bytes := TrimPrefix (TrimPrefix (TrimSpace value) (bs "v")) (bs "V").
Definition USPRecommendedChunkSize : Z := 1120.
Definition WUSPControlTransport : bytes := bs "wireguard-noise-fragmented-datagram".
Definition GetSupportedProtocol : USPProtocolInfo :=
  MkProtocolInfo (bs "wantastic-wusp-over-wireguard") 1
    (bs <$> ["Get"; "Set"; "Add"; "Delete"; "GetInstances"; "Operate"; "Notify"; "GetSupportedDM"; "GetSupportedProtocol"; "Upload"; "Download"]%string)
    (bs <$> ["nested-message-lz4"; "stream-chunk-lz4"]%string) WUSPControlTransport (bs "wireguard-noise-stream-packets")
    WUSPMaxDatagramPayload USPRecommendedChunkSize true true.

Section Agent.
Context `{Schema} {B : Type} (P : Platform B).
Context (AllDeviceObjects : list Object) (AllDeviceParams : list Param).
Context (fill : Param → nat → Value).
Context (rootVersion : bytes) (models : list BroadbandDataModel).
Context (range : store → list (bytes * Field)) (srange : gmap bytes USPSubscription → list (bytes * USPSubscription)).
Context (mrange : metadata → list (bytes * bytes)).

Abbreviation agent := (Agent B).
Abbreviation step A := (agent → agent * res aerr A).

(** ** Events *)

Definition with_sub (ev : USPEvent) (id : bytes) : USPEvent :=
  MkEvent (evType ev) id (evObjPath ev) (evEventName ev) (evCommandKey ev) (evParams ev) (evParamMessage ev) (evParamValue ev) (evErr ev) (evOnBoard ev).
Definition matching (a : agent) (ev : USPEvent) : list USPSubscription :=
  List.filter (fun s => subscriptionMatches s ev) (srange (subscriptions a)).*2.

Definition sendEventWire (ev : USPEvent) : step () := fun a =>
  let id := u64 (nextEventID a + 1) in
  let a := MkAgent (values a) (subscriptions a) id (eventSender a) (platform a) in
  match EncodeUSPAgentRequest (EncodeEventToRequest mrange ev id) with
  | Ok encoded => let '(b, r) := xSend P encoded (platform a) in (with_platform a b, from_backend r)
  | Err e => (a, Err (AWire e))
  | Panic => (a, Panic)
  end.
Fixpoint each {A} (f : A → step ()) (l : list A) : step () := fun a =>
  match l with
  | [] => (a, Ok ())
  | x :: l => let '(a, r) := f x a in match r with Ok _ => each f l a | Err e => (a, Err e) | Panic => (a, Panic) end
  end.
Definition call_handler (ev : USPEvent) (sub : USPSubscription) : step () := fun a =>
  match subHandler sub with
  | None => (a, Ok ())
  | Some h => let '(b, r) := xHandler P h (with_sub ev (subID sub)) (platform a) in (with_platform a b, from_backend r)
  end.
Definition Emit (ev : USPEvent) : step () := fun a =>
  let subs := matching a ev in
  let '(a', r) := each (call_handler ev) subs a in
  match r with
  | Ok _ =>
      if negb (eventSender a) then (a', Ok ())
      else if (length subs =? 0)%nat then sendEventWire ev a'
      else each (fun sub => sendEventWire (with_sub ev (subID sub))) subs a'
  | Err e => (a', Err e)
  | Panic => (a', Panic)
  end.

Definition EmitValueChange (paramPath newValue : bytes) : step () :=
  Emit (MkEvent USPEventTypeValueChange [] paramPath [] [] ∅ None newValue None None).
Definition EmitObjectCreation (objPath : bytes) (uniqueKeys : metadata) : step () :=
  Emit (MkEvent USPEventTypeObjectCreation [] objPath [] [] uniqueKeys None [] None None).
Definition EmitObjectDeletion (objPath : bytes) : step () :=
  Emit (MkEvent USPEventTypeObjectDeletion [] objPath [] [] ∅ None [] None None).
Definition EmitOperationComplete (objPath commandName commandKey : bytes) (outputArgs : metadata) (opErr : option USPEventError) : step () :=
  Emit (MkEvent USPEventTypeOperationComplete [] objPath commandName commandKey outputArgs None [] opErr None).
Definition EmitEvent (objPath eventName : bytes) (params : metadata) : step () :=
  Emit (MkEvent USPEventTypeEvent [] objPath eventName [] params None [] None None).
Definition EmitOnBoardRequest (info : USPOnBoardInfo) : step () :=
  Emit (MkEvent USPEventTypeOnBoardRequest [] (bs "Device.") [] [] ∅ None [] None (Some info)).

Definition Subscribe (sub : USPSubscription) : step () := fun a =>
  if (length (TrimSpace (subID sub)) =? 0)%nat then (a, Err (AValidation [] "subscription id required"))
  else (with_subs a (<[subID sub := sub]> (subscriptions a)), Ok ()).
Definition Unsubscribe (id : bytes) (a : agent) : agent := with_subs a (delete id (subscriptions a)).
Definition SetEventSender (on : bool) (a : agent) : agent :=
  MkAgent (values a) (subscriptions a) (nextEventID a) on (platform a).

(** ** Writing *)

Definition trim_field (f : Field) : Field := MkField (fid f) (TrimSpace (Path f)) (Val f).
Fixpoint apply_setter (set : bytes → Value → B → B * res berr ()) (fields : list Field) : step () := fun a =>
  match fields with
  | [] => (a, Ok ())
  | f :: fields =>
      let '(b, r) := set (TrimSpace (Path f)) (Val f) (platform a) in
      let a := with_platform a b in
      match r with
      | Ok _ => apply_setter set fields a
      | Err e => if bUnsupported e then apply_setter set fields a else (a, Err (ABackend (bText e)))
      | Panic => (a, Panic)
      end
  end.
(** The field as stored: under its trimmed path, with its registry ID. *)
Definition stored_field (f : Field) : Field :=
  let f := trim_field f in
  match IDFor schema_registry (Path f) with
  | (id, true) => MkField id (Path f) (Val f)
  | (_, false) => f
  end.
Definition store_all (v : store) (fields : list Field) : store :=
  foldl (fun v f => <[TrimSpace (Path f) := stored_field f]> v) v fields.
Definition value_change (f : Field) : USPEvent :=
  MkEvent USPEventTypeValueChange [] (Path f) (bs "ValueChange") [] ∅ None (ValueToString (Val f)) None None.
(** Emission errors are dropped; a panic is not. *)
Fixpoint emit_changes (fields : list Field) : step () := fun a =>
  match fields with
  | [] => (a, Ok ())
  | f :: fields =>
      let '(a, r) := Emit (value_change f) a in
      match r with Panic => (a, Panic) | _ => emit_changes fields a end
  end.
Definition storeFields (fields : list Field) (alreadyValidated : bool) : step () := fun a =>
  if (length fields =? 0)%nat then (a, Ok ()) else
  let normalized := if alreadyValidated then fields else trim_field <$> fields in
  match (if alreadyValidated then Ok () else lift (ValidateMessageFast (MkMessage [] None normalized))) with
  | Err e => (a, Err e)
  | Panic => (a, Panic)
  | Ok _ =>
      let '(a, r) := match xSet P with Some set => apply_setter set normalized a | None => (a, Ok ()) end in
      match r with
      | Err e => (a, Err e)
      | Panic => (a, Panic)
      | Ok _ =>
          let a := with_values a (store_all (values a) normalized) in
          if eventSender a then emit_changes normalized a else (a, Ok ())
      end
  end.
Definition Set_ (path : bytes) (value : Value) : step () := storeFields [MkField 0 (TrimSpace path) value] false.
Definition SetBatch (fields : list Field) : step () := storeFields fields false.

Fixpoint delete_paths (paths : list bytes) (handledBySetter : bool) : step () := fun a =>
  match paths with
  | [] => (a, Ok ())
  | path :: paths =>
      let '(v, removed) := deletePathLocked (values a) path in
      let a := with_values a v in
      if negb removed && negb handledBySetter then (a, Err (ANotFound path)) else delete_paths paths handledBySetter a
  end.
Definition Delete (paths : list bytes) : step () := fun a =>
  if (length paths =? 0)%nat then (a, Ok ()) else
  let normalized := TrimSpace <$> paths in
  if existsb (fun p => (length p =? 0)%nat) normalized then (a, Err (AValidation [] "empty delete path")) else
  let '(a, handled) := match xSet P with
                       | None => (a, Ok false)
                       | Some _ =>
                           let '(b, r) := xDelete P normalized (platform a) in
                           (with_platform a b, match r with
                                               | Ok _ => Ok true
                                               | Err e => if bUnsupported e then Ok false else Err (ABackend (bText e))
                                               | Panic => Panic
                                               end)
                       end in
  match handled with
  | Ok handled => delete_paths normalized handled a
  | Err e => (a, Err e)
  | Panic => (a, Panic)
  end.

(** ** Reading *)

Definition collected (a : agent) (fields : list Field) : store :=
  mergeMessageFields ∅ fields ∪ filter (fun kv => isWUSPConfigPath kv.1 || isExplicitlySetPath kv.1 = true) (values a).
Definition GetContext (paths : list bytes) : step Message := fun a =>
  match xCollect P with
  | None => (a, getStored range (values a) paths)
  | Some collect =>
      let '(b, r) := collect paths (platform a) in
      let a := with_platform a b in
      match r with
      | Ok msg =>
          let live := collected a (Fields msg) in
          (a, if (length paths =? 0)%nat then Ok (buildSnapshotMessage range live) else filterValuesForPaths range live paths)
      | Err e => (a, Err (backend_err e))
      | Panic => (a, Panic)
      end
  end.
(** What the collector reports over the stored values; its errors are dropped. *)
Definition Snapshot (a : agent) : agent * res aerr Message :=
  match xCollect P with
  | None => (a, Ok (buildSnapshotMessage range (values a)))
  | Some collect =>
      let '(b, r) := collect [] (platform a) in
      let a := with_platform a b in
      (a, match r with
          | Ok msg => Ok (buildSnapshotMessage range (mergeMessageFields (values a) (Fields msg)))
          | Err _ => Ok (buildSnapshotMessage range (values a))
          | Panic => Panic
          end)
  end.
(** Each instance path once, in the order found; the caller sorts them. *)
Fixpoint instances_of (v : store) (paths out : list bytes) : res aerr (list bytes) :=
  match paths with
  | [] => Ok out
  | path :: paths =>
      let path := TrimSpace path in
      if (length path =? 0)%nat then Err (AValidation [] "empty get-instances path") else
      found ← instancePathsForRequest AllDeviceObjects range v path;
      instances_of v paths (out ++ dedup (list_to_set out) found)
  end.
Definition GetInstancesContext (paths : list bytes) : step (list bytes) := fun a =>
  let '(a, live) := match xCollect P with
                    | None => (a, Ok (values a))
                    | Some collect =>
                        let '(b, r) := collect paths (platform a) in
                        (with_platform a b, match r with
                                            | Ok msg => Ok (mergeMessageFields (values a) (Fields msg))
                                            | Err e => Err (backend_err e)
                                            | Panic => Panic
                                            end)
                    end in
  (a, live ← live;
      let paths := if (length paths =? 0)%nat then collectAllMultiInstanceObjectPaths AllDeviceObjects else paths in
      out ← instances_of live paths [];
      Ok (SortStrings out)).

(** ** Adding an instance *)

Definition add_check (objectPath : bytes) : res aerr bytes :=
  if (length objectPath =? 0)%nat || negb (isObjectPath objectPath) then Err (AValidation objectPath "add requires an object path") else
  match lookupObjectDefinition AllDeviceObjects objectPath with
  | None => Err (ANotFound objectPath)
  | Some (object, canonical) =>
      if negb (oMultiInstance object) then Err (AValidation objectPath "object is not multi-instance")
      else if (Count canonical token =? 0)%nat then Err (AValidation objectPath "object path does not expose an instance token")
      else if (1 <? Count objectPath token)%nat then Err (AValidation objectPath "add requires parent instances to be concrete")
      else Ok canonical
  end.
(** The fields of the request over the sample values of the new instance. *)
Fixpoint initial_fields (fields : list Field) (canonical actual : bytes) (iv : list bytes) (m : store) : res aerr store :=
  match fields with
  | [] => Ok m
  | f :: fields =>
      let path := TrimSpace (Path f) in
      if (length path =? 0)%nat then Err (AValidation [] "add payload contains empty field path") else
      let path := materializePathForInstance (canonicalParamPath path) canonical iv in
      if negb (HasPrefix path (TrimSuffix actual (bs "."))) then Err (AValidation (Path f) "field does not belong to added object")
      else initial_fields fields canonical actual iv (<[path := MkField 0 path (Val f)]> m)
  end.
Definition objectCountParamPath (objectPath : bytes) : option bytes :=
  let parts := splitObjectParts objectPath in
  (* the last token *)
  match List.filter (fun i => bool_decide (parts !! i = Some token)) (reverse (seq 0 (length parts))) with
  | [] => None
  | O :: _ => None
  | S i :: _ =>
      let child := default [] (parts !! i) in
      let prefix := if (0 <? i)%nat then Join (take i parts) dot ++ [dot] else [] in
      let countPath := prefix ++ child ++ bs "NumberOfEntries" in
      if lookupSafeParam countPath then Some countPath else None
  end.
Definition refreshEntryCount (objectPath : bytes) (a : agent) : agent :=
  match objectCountParamPath objectPath with
  | None => a
  | Some countPath =>
      let count := Z.of_nat (length (instancePathsForObject range (values a) objectPath)) in
      with_values a (<[countPath := MkField 0 countPath (Uint count)]> (values a))
  end.
(** Add without a backend that adds itself. *)
Definition add_local (objectPath canonical : bytes) (initial : option Message) : step (list bytes) := fun a =>
  let request := if bool_decide (canonicalParamPath objectPath = canonical) then objectPath
                 else TrimSuffix objectPath (bs ".") ++ bs ".{i}." in
  match nextObjectInstance range (values a) request canonical with
  | Err e => (a, Err e)
  | Panic => (a, Panic)
  | Ok (iv, actual) =>
      match initial_fields (match initial with Some m => Fields m | None => [] end) canonical actual iv
              (buildObjectFieldsForAdd AllDeviceParams fill canonical iv) with
      | Err e => (a, Err e)
      | Panic => (a, Panic)
      | Ok fields =>
          let '(a, r) := storeFields (sort_fields (range fields).*2) false a in
          match r with
          | Ok _ => (refreshEntryCount canonical a, Ok [actual])
          | Err e => (a, Err e)
          | Panic => (a, Panic)
          end
      end
  end.
Definition Add (objectPath : bytes) (initial : option Message) : step (list bytes) := fun a =>
  let objectPath := TrimSpace objectPath in
  match add_check objectPath with
  | Err e => (a, Err e)
  | Panic => (a, Panic)
  | Ok canonical =>
      match xSet P, xAdd P with
      | Some _, Some add =>
          let '(b, r) := add objectPath initial (platform a) in
          let a := with_platform a b in
          match r with
          | Ok paths => (a, Ok paths)
          | Err e => if bUnsupported e then add_local objectPath canonical initial a else (a, Err (ABackend (bText e)))
          | Panic => (a, Panic)
          end
      | _, _ => add_local objectPath canonical initial a
      end
  end.

(** ** Delegated operations *)

Definition delegate {A} (h : option (B → B * res berr A)) (missing : aerr) : step A := fun a =>
  match h with
  | None => (a, Err missing)
  | Some h => let '(b, r) := h (platform a) in (with_platform a b, from_backend r)
  end.
Definition Operate (commandPath : bytes) (input : option Message) (md : metadata) : step (option Message) := fun a =>
  let commandPath := TrimSpace commandPath in
  if (length commandPath =? 0)%nat then (a, Err (AValidation [] "operate requires a command path"))
  else delegate ((fun h => h commandPath input md) <$> xOperate P) AUnsupported a.
Definition Notify (eventPath : bytes) (payload : option Message) (md : metadata) : step () := fun a =>
  let eventPath := TrimSpace eventPath in
  if (length eventPath =? 0)%nat then (a, Err (AValidation [] "notify requires an event path"))
  else delegate ((fun h => h eventPath payload md) <$> xNotify P) AUnsupported a.
Definition transfer (h : option (USPTransferRequest → B → B * res berr USPTransferResult)) (req : USPTransferRequest) : step USPTransferResult := fun a =>
  match validateTransferRequest req with
  | Ok _ => delegate ((fun h => h req) <$> h) ATransferUnsupported a
  | Err e => (a, Err (AWire e))
  | Panic => (a, Panic)
  end.
Definition GetSupportedDM (paths : list bytes) : USPSupportedDataModel :=
  let filters := normalizeSupportedDMFilters paths in
  MkSupportedDataModel rootVersion models
    ((fun o => MkSupportedObject (oPath o) (oMultiInstance o) (normalizeModelVersion (oSinceVersion o)))
       <$> List.filter (fun o => supportedPathMatches filters (oPath o)) AllDeviceObjects)
    ((fun p => MkSupportedParam (mPath p) (mType p) (mAccess p) (normalizeModelVersion (mSinceVersion p)))
       <$> List.filter (fun p => supportedPathMatches filters (mPath p)) AllDeviceParams).

(** ** Requests *)

(** err.Error() *)
Context (error_text : aerr → bytes).

Definition response (id method : Z) (md : metadata) (paths : list bytes) (objectPath : bytes) (msg : option Message)
    (transfer : option USPTransferResult) (dm : option USPSupportedDataModel) (protocol : option USPProtocolInfo) (error : bytes) : USPAgentResponse :=
  {| pID := id; pMethod := method; pPaths := paths; pPathCodes := []; pPathInstances := []; pObjectPath := objectPath; pObjectCode := 0;
     pObjectInstances := []; pMessage := msg; pTransfer := transfer; pMetadata := md; pSupportedDataModel := dm; pProtocol := protocol; pError := error |}.

Definition handleSubscriptionRequest (req : USPAgentRequest) (a : agent) : agent * USPAgentResponse :=
  let '(action, sub) := DecodeSubscriptionFromRequest req in
  let reply md error := response (qID req) (qMethod req) md [] [] None None None None error in
  let ok : metadata := <[subMetaStatus := bs "ok"]> {[subMetaID := subID sub]} in
  if (length (TrimSpace (subID sub)) =? 0)%nat then (a, reply ∅ (bs "subscription id required"))
  else if bool_decide (action = subActionAdd) then
    let '(a, r) := Subscribe sub a in
    match r with Err e => (a, reply ∅ (error_text e)) | _ => (a, reply ok []) end
  else if bool_decide (action = subActionRemove) then (Unsubscribe (subID sub) a, reply ok [])
  else (a, reply ∅ (bs "unknown wusp subscription action")).

(** A result in a response: an error is reported in it. *)
Definition respond {A} (fail : bytes → USPAgentResponse) (ok : A → USPAgentResponse) (s : agent * res aerr A) : agent * res aerr USPAgentResponse :=
  let '(a, r) := s in
  match r with Ok x => (a, Ok (ok x)) | Err e => (a, Ok (fail (error_text e))) | Panic => (a, Panic) end.

(** [queued]: whether an action got the queue's slot before its deadline. *)
Definition HandleRequest (queued : bool) (req : USPAgentRequest) : step USPAgentResponse := fun a =>
  let req := resolveFastRequestPaths req in
  let reply := response (qID req) (qMethod req) (ResponseMetadataForRequest req) in
  let fail error := reply [] [] None None None None error in
  let m := qMethod req in
  if ShouldQueueUSPRequest req && negb queued then (a, Ok (fail (bs "action queue wait: context deadline exceeded"))) else
  if m =? USPAgentMethodGet then
    respond fail (fun msg => reply [] [] (Some msg) None None None []) (GetContext (qPaths req) a)
  else if m =? USPAgentMethodSet then
    match qMessage req with
    | Some (MkMessage _ _ (f :: fields)) => respond fail (fun _ => reply [] [] None None None None []) (storeFields (f :: fields) true a)
    | _ => (a, Ok (fail (bs "set request missing fields")))
    end
  else if m =? USPAgentMethodAdd then
    respond fail (fun paths => reply paths (qObjectPath req) None None None None []) (Add (qObjectPath req) (qMessage req) a)
  else if m =? USPAgentMethodDelete then
    if (length (qPaths req) =? 0)%nat then (a, Ok (fail (bs "delete request missing paths")))
    else respond fail (fun _ => reply [] [] None None None None []) (Delete (qPaths req) a)
  else if m =? USPAgentMethodGetInstances then
    respond fail (fun paths => reply paths [] None None None None []) (GetInstancesContext (qPaths req) a)
  else if m =? USPAgentMethodOperate then
    match OperationCommandPath (qObjectPath req) (qMetadata req) with
    | Err e => (a, Ok (fail (error_text (AWire e))))
    | Panic => (a, Panic)
    | Ok commandPath =>
        respond fail (fun msg => reply [] (qObjectPath req) msg None None None []) (Operate commandPath (qMessage req) (qMetadata req) a)
    end
  else if m =? USPAgentMethodNotify then
    if IsSubscriptionRequest req then let '(a, r) := handleSubscriptionRequest req a in (a, Ok r)
    else respond fail (fun _ => reply [] (qObjectPath req) None None None None []) (Notify (qObjectPath req) (qMessage req) (qMetadata req) a)
  else if m =? USPAgentMethodGetSupportedDM then
    (a, Ok (reply [] [] None None (Some (GetSupportedDM (qPaths req))) None []))
  else if m =? USPAgentMethodGetSupportedProtocol then
    (a, Ok (reply [] [] None None None (Some GetSupportedProtocol) []))
  else if m =? USPAgentMethodUpload then
    match qTransfer req with
    | None => (a, Ok (fail (bs "upload request missing transfer")))
    | Some t => respond fail (fun result => reply [] [] None (Some result) None None []) (transfer (xUpload P) t a)
    end
  else if m =? USPAgentMethodDownload then
    match qTransfer req with
    | None => (a, Ok (fail (bs "download request missing transfer")))
    | Some t => respond fail (fun result => reply [] [] None (Some result) None None []) (transfer (xDownload P) t a)
    end
  else (a, Err (AWire (ErrTransportUnsupported "method"))).
End Agent.
