(* ===== verification/UspAgentProps.v ===== *)
(** * Properties of the agent's request handling

    What a request may change, what the store keeps invariant over any sequence
    of operations, and that the operations do what they say: Set is read back by
    Get, Emit notifies every matching subscription, Add creates a free instance. *)

From S2P Require Import Prelude GoStr Wire Codec Fragments ReadReplay Transport Request DeviceModel DeviceModelProps UspEvents UspStore UspStoreProps UspAgent.

(** What events, reads and delegated operations leave alone. *)
Definition quiet {B} (a a' : Agent B) : Prop :=
  values a' = values a ∧ subscriptions a' = subscriptions a ∧ eventSender a' = eventSender a.
#[export] Instance quiet_preorder {B} : PreOrder (@quiet B).
Proof. split; [done|]. intros a b c (? & ? & ?) (? & ? & ?). split_and!; congruence. Qed.

(** The store files fields under their paths, subscriptions under their
    (nonblank) identifiers, and the event counter is a uint64. *)
Definition agent_ok {B} (a : Agent B) : Prop :=
  keyed (values a) ∧ (∀ id s, subscriptions a !! id = Some s → subID s = id ∧ TrimSpace id ≠ []) ∧ 0 ≤ nextEventID a < 2 ^ 64.
Definition keeps_ok {B} (a a' : Agent B) : Prop := agent_ok a → agent_ok a'.
#[export] Instance keeps_ok_preorder {B} : PreOrder (@keeps_ok B).
Proof. split; [by intros a Ha|]. intros a b c Hab Hbc Ha. by apply Hbc, Hab. Qed.

Lemma keyed_insert v k f : keyed v → Path f = k → keyed (<[k := f]> v).
Proof. intros Hv Hf k' f' [[<- <-]|[_ ?]]%lookup_insert_Some; [done|by apply Hv]. Qed.
Lemma keyed_filter (P : bytes * Field → Prop) `{!∀ x, Decision (P x)} v : keyed v → keyed (filter P v).
Proof. intros Hv k f [? _]%map_lookup_filter_Some. by apply Hv. Qed.
Lemma keyed_deletePath v path : keyed v → keyed (deletePathLocked v path).1.
Proof.
  intros Hv. unfold deletePathLocked. destruct (isObjectPath path); [by apply (keyed_filter _)|]. destruct (v !! path) as [g|]; [|done].
  cbn [fst]. intros k f [_ ?]%lookup_delete_Some. by apply Hv.
Qed.

Section Steps.
Context `{Schema} {B : Type} (P : Platform B).
Context (AllDeviceObjects : list Object) (AllDeviceParams : list Param).
Context (fill : Param → nat → Value).
Context (rootVersion : bytes) (models : list BroadbandDataModel).
Context (range : store → list (bytes * Field)) (srange : gmap bytes USPSubscription → list (bytes * USPSubscription)).
Context (mrange : metadata → list (bytes * bytes)).
Context (error_text : aerr → bytes).

Abbreviation agent := (Agent B).
Abbreviation step A := (agent → agent * res aerr A).
Abbreviation Emit := (Emit P srange mrange).
Abbreviation storeFields := (storeFields P srange mrange).
Abbreviation Add := (Add P AllDeviceObjects AllDeviceParams fill range srange mrange).
Abbreviation HandleRequest := (HandleRequest P AllDeviceObjects AllDeviceParams fill rootVersion models range srange mrange error_text).

(** Every run of an operation stays within a relation. *)
Definition within {A} (R : agent → agent → Prop) (s : step A) : Prop := ∀ a, R a (s a).1.

Lemma each_within {A} R `{!PreOrder R} (f : A → step ()) l : (∀ x, within R (f x)) → within R (each f l).
Proof.
  intros Hf. induction l as [|x l IH]; intros a; cbn [each]; [done|]. pose proof (Hf x a) as Hx. destruct (f x a) as [a' [ | | ]]; cbn [fst] in *; try done.
  etransitivity; [exact Hx|apply IH].
Qed.

(** ** Events *)

Lemma send_quiet ev : within quiet (sendEventWire P mrange ev).
Proof. intros a. unfold sendEventWire. cbv zeta. destruct (EncodeUSPAgentRequest _); [|done|done]. by destruct (xSend P _ _). Qed.
Lemma handler_quiet ev sub : within quiet (call_handler P ev sub).
Proof. intros a. unfold call_handler. destruct (subHandler sub); [|done]. by destruct (xHandler P _ _ _). Qed.
Lemma emit_within R `{!PreOrder R} ev :
  (∀ sub, within R (call_handler P ev sub)) → (∀ ev', within R (sendEventWire P mrange ev')) → within R (Emit ev).
Proof.
  intros Hh Hs a. unfold UspAgent.Emit. set (subs := matching srange a ev). pose proof (each_within R (call_handler P ev) subs Hh a) as H1.
  destruct (each _ subs a) as [a' [ | | ]]; cbn [fst] in *; try done. destruct (negb _); [done|].
  destruct (_ =? _)%nat; (etransitivity; [exact H1|]); [apply Hs|]. by apply each_within.
Qed.
Lemma emit_quiet ev : within quiet (Emit ev).
Proof. apply emit_within; [apply _|apply handler_quiet|apply send_quiet]. Qed.

Lemma counter_ok (a : agent) n (b : B) : agent_ok a → 0 ≤ n < 2 ^ 64 → agent_ok (MkAgent (values a) (subscriptions a) n (eventSender a) b).
Proof. intros (? & ? & _) [? ?]. by split_and!. Qed.
Lemma send_keeps ev : within keeps_ok (sendEventWire P mrange ev).
Proof.
  intros a Ha. pose proof (wrap_range 64 (nextEventID a + 1)) as Hr. unfold sendEventWire. cbv zeta.
  destruct (EncodeUSPAgentRequest _); [destruct (xSend P _ _)|..]; apply (counter_ok a); try done; apply Hr; lia.
Qed.
Lemma platform_keeps a b : @keeps_ok B a (with_platform a b).
Proof. intros (? & ? & ? & ?). by split_and!. Qed.
Lemma handler_keeps ev sub : within keeps_ok (call_handler P ev sub).
Proof. intros a. unfold call_handler. destruct (subHandler sub); [|done]. destruct (xHandler P _ _ _). apply platform_keeps. Qed.
Lemma emit_keeps ev : within keeps_ok (Emit ev).
Proof. apply emit_within; [apply _|apply handler_keeps|apply send_keeps]. Qed.

(** ** Writing *)

Lemma emit_changes_within R `{!PreOrder R} fields : (∀ ev, within R (Emit ev)) → within R (emit_changes P srange mrange fields).
Proof.
  intros He. induction fields as [|f fields IH]; intros a; cbn [emit_changes]; [done|]. pose proof (He (value_change f) a) as H1.
  destruct (UspAgent.Emit _ _ _ _ a) as [a' [ | | ]]; cbn [fst] in *; try done; (etransitivity; [exact H1|apply IH]).
Qed.
Lemma setter_within R `{!PreOrder R} set fields : (∀ a b, R a (with_platform a b)) → within R (apply_setter set fields).
Proof.
  intros Hp. induction fields as [|f fields IH]; intros a; cbn [apply_setter]; [done|]. destruct (set _ _ _) as [b [|e|]]; cbn [fst]; try apply Hp.
  - etransitivity; [apply (Hp a b)|apply IH].
  - destruct (bUnsupported e); [|apply Hp]. etransitivity; [apply (Hp a b)|apply IH].
Qed.
Lemma store_all_keyed fields : ∀ v, keyed v → keyed (store_all v fields).
Proof.
  induction fields as [|f fields IH]; intros v Hv; [done|]. cbn [store_all foldl]. apply IH, keyed_insert; [done|].
  unfold stored_field. by destruct (IDFor _ _) as [id []].
Qed.
Lemma values_ok_step a v : @agent_ok B a → keyed v → agent_ok (with_values a v).
Proof. intros (_ & ? & ? & ?) ?. by split_and!. Qed.

(** What the writer stores: nothing, or all of the fields. *)
Definition normalized (fields : list Field) (validated : bool) : list Field := if validated then fields else trim_field <$> fields.
Lemma storeFields_result fields validated a :
  let '(a', r) := storeFields fields validated a in
  subscriptions a' = subscriptions a ∧ eventSender a' = eventSender a ∧ (agent_ok a → agent_ok a') ∧
  (values a' = values a ∨ values a' = store_all (values a) (normalized fields validated)) ∧
  (r = Ok () → values a' = store_all (values a) (normalized fields validated)).
Proof.
  unfold UspAgent.storeFields. destruct fields as [|f fields].
  { split_and!; try done; [by left|]. by destruct validated. }
  change (length (f :: fields) =? 0)%nat with false. cbv iota.
  fold (normalized (f :: fields) validated). set (l := normalized (f :: fields) validated).
  destruct (if validated then _ else _) as [u|e|]; [|by split_and!; [..|left|]|by split_and!; [..|left|]].
  assert (∃ a1 r1, (match xSet P with Some set => apply_setter set l a | None => (a, Ok ()) end) = (a1, r1) ∧ quiet a a1 ∧ (agent_ok a → agent_ok a1)) as (a1 & r1 & -> & (Hv & Hs & He) & Hok).
  { destruct (xSet P) as [set|]; [|by exists a, (Ok ())]. exists (apply_setter set l a).1, (apply_setter set l a).2.
    split_and!; [by destruct (apply_setter set l a)|apply (setter_within quiet set l); done|apply (setter_within keeps_ok set l), platform_keeps]. }
  destruct r1 as [[]|e|]; [|by split_and!; [..|left|]|by split_and!; [..|left|]].
  rewrite Hv. set (a2 := with_values a1 _). assert (agent_ok a → agent_ok a2) as Hok2.
  { intros Ha. apply values_ok_step; [by apply Hok|]. apply store_all_keyed. by destruct Ha. }
  destruct (eventSender a2); [|by split_and!; [..|right|]].
  pose proof (emit_changes_within quiet l emit_quiet a2) as (Hv2 & Hs2 & He2). pose proof (emit_changes_within keeps_ok l emit_keeps a2) as Hok3.
  destruct (emit_changes P srange mrange l a2) as [a3 r3]; cbn [fst] in *. cbv iota beta. rewrite Hv2, Hs2, He2.
  split_and!; try done; [|by right]. intros Ha. by apply Hok3, Hok2.
Qed.
Lemma storeFields_keeps fields validated : within keeps_ok (storeFields fields validated).
Proof. intros a. pose proof (storeFields_result fields validated a) as Hs. destruct (UspAgent.storeFields _ _ _ _ _ a). by destruct Hs as (_ & _ & ? & _). Qed.
Lemma storeFields_subs fields validated a : subscriptions (storeFields fields validated a).1 = subscriptions a.
Proof. pose proof (storeFields_result fields validated a) as Hs. destruct (UspAgent.storeFields _ _ _ _ _ a). by destruct Hs as (? & _). Qed.

Lemma delete_paths_result paths h : ∀ a,
  let a' := (delete_paths (B:=B) paths h a).1 in subscriptions a' = subscriptions a ∧ (agent_ok a → agent_ok a').
Proof.
  induction paths as [|p paths IH]; intros a; cbn [delete_paths]; [done|]. destruct (deletePathLocked (values a) p) as [v removed] eqn:E.
  assert (agent_ok a → agent_ok (with_values a v)) as Hok.
  { intros Ha. apply values_ok_step; [done|]. replace v with (deletePathLocked (values a) p).1 by (by rewrite E). apply keyed_deletePath. by destruct Ha. }
  destruct (negb removed && negb h); [done|]. destruct (IH (with_values a v)) as [Hs Hk]. split; [by rewrite Hs|]. intros Ha. by apply Hk, Hok.
Qed.
Lemma Delete_result paths a : let a' := (Delete P paths a).1 in subscriptions a' = subscriptions a ∧ (agent_ok a → agent_ok a').
Proof.
  unfold Delete. destruct (_ =? _)%nat; [done|]. destruct (existsb _ _); [done|]. destruct (xSet P) as [set|]; [|apply delete_paths_result].
  destruct (xDelete P _ _) as [b r]. set (a1 := with_platform a b). assert (agent_ok a → agent_ok a1) as Hok by apply platform_keeps.
  assert (∀ h, let a' := (delete_paths (TrimSpace <$> paths) h a1).1 in subscriptions a' = subscriptions a ∧ (agent_ok a → agent_ok a')) as Hd.
  { intros h. cbv zeta. destruct (delete_paths_result (TrimSpace <$> paths) h a1) as [-> Hk]. split; [done|]. intros Ha. by apply Hk, Hok. }
  destruct r as [|e|]; [apply Hd| |done]. destruct (bUnsupported e); [apply Hd|done].
Qed.

Lemma count_result path (a : agent) : let a' := refreshEntryCount range path a in subscriptions a' = subscriptions a ∧ (agent_ok a → agent_ok a').
Proof.
  unfold refreshEntryCount. destruct (objectCountParamPath path) as [c|]; [|done]. split; [done|]. intros Ha.
  apply values_ok_step; [done|]. apply keyed_insert; [by destruct Ha|done].
Qed.
Lemma add_local_result path canonical initial a :
  let a' := (add_local P AllDeviceParams fill range srange mrange path canonical initial a).1 in
  subscriptions a' = subscriptions a ∧ (agent_ok a → agent_ok a').
Proof.
  unfold add_local. destruct (nextObjectInstance _ _ _ _) as [[iv actual]|e|]; [|done|done]. destruct (initial_fields _ _ _ _ _) as [fields|e|]; [|done|done].
  pose proof (storeFields_keeps (sort_fields (range fields).*2) false a) as Hk. pose proof (storeFields_subs (sort_fields (range fields).*2) false a) as Hs.
  destruct (UspAgent.storeFields _ _ _ _ _ a) as [a1 [u|e|]]; cbn [fst] in *; [|done|done].
  cbv zeta. destruct (count_result canonical a1) as [-> Hc]. split; [done|]. intros Ha. by apply Hc, Hk.
Qed.
Lemma Add_result path initial a : let a' := (Add path initial a).1 in subscriptions a' = subscriptions a ∧ (agent_ok a → agent_ok a').
Proof.
  unfold UspAgent.Add. destruct (add_check _ _) as [canonical|e|]; [|done|done]. destruct (xSet P) as [set|]; [|apply add_local_result].
  destruct (xAdd P) as [add|]; [|apply add_local_result]. destruct (add _ _ _) as [b [l|e|]]; [by split; [|apply platform_keeps]| |by split; [|apply platform_keeps]].
  destruct (bUnsupported e); [|by split; [|apply platform_keeps]]. cbv zeta. destruct (add_local_result (TrimSpace path) canonical initial (with_platform a b)) as [-> Hk].
  split; [done|]. intros Ha. by apply Hk, platform_keeps.
Qed.

(** ** Reading and delegated operations *)

Lemma delegate_quiet {A} (h : option (B → B * res berr A)) missing a : quiet a (delegate h missing a).1 ∧ (agent_ok a → agent_ok (delegate h missing a).1).
Proof. unfold delegate. destruct h as [h|]; [|done]. destruct (h (platform a)). split; [done|apply platform_keeps]. Qed.
Lemma GetContext_quiet paths a : quiet a (GetContext P range paths a).1 ∧ (agent_ok a → agent_ok (GetContext P range paths a).1).
Proof. unfold GetContext. destruct (xCollect P) as [c|]; [|done]. destruct (c _ _) as [b [m|e|]]; (split; [done|apply platform_keeps]). Qed.
Lemma GetInstances_quiet paths a :
  quiet a (GetInstancesContext P AllDeviceObjects range paths a).1 ∧ (agent_ok a → agent_ok (GetInstancesContext P AllDeviceObjects range paths a).1).
Proof. unfold GetInstancesContext. destruct (xCollect P) as [c|]; [|done]. destruct (c _ _) as [b r]. split; [done|apply platform_keeps]. Qed.
Lemma Operate_quiet path input md a : quiet a (Operate P path input md a).1 ∧ (agent_ok a → agent_ok (Operate P path input md a).1).
Proof. unfold Operate. destruct (_ =? _)%nat; [done|apply delegate_quiet]. Qed.
Lemma Notify_quiet path payload md a : quiet a (Notify P path payload md a).1 ∧ (agent_ok a → agent_ok (Notify P path payload md a).1).
Proof. unfold Notify. destruct (_ =? _)%nat; [done|apply delegate_quiet]. Qed.
Lemma transfer_quiet h t (a : agent) : quiet a (transfer h t a).1 ∧ (agent_ok a → agent_ok (transfer h t a).1).
Proof. unfold transfer. destruct (validateTransferRequest t); [apply delegate_quiet|done|done]. Qed.

Lemma Subscribe_ok sub (a : agent) : agent_ok a → agent_ok (Subscribe sub a).1.
Proof.
  intros (? & Hs & ? & ?). unfold Subscribe. destruct (Nat.eqb_spec (length (TrimSpace (subID sub))) 0) as [|Hne]; [by split_and!|]. split_and!; try done.
  cbn [fst with_subs subscriptions]. intros id s [[<- <-]|[_ ?]]%lookup_insert_Some; [|by apply Hs]. split; [done|]. by intros Hz%(f_equal length).
Qed.
Lemma Unsubscribe_ok id (a : agent) : agent_ok a → agent_ok (Unsubscribe id a).
Proof. intros (? & Hs & ? & ?). split_and!; try done. cbn [Unsubscribe with_subs subscriptions]. intros i s [_ ?]%lookup_delete_Some. by apply Hs. Qed.
Lemma subscription_result req (a : agent) :
  let '(a', resp) := handleSubscriptionRequest error_text req a in
  values a' = values a ∧ (agent_ok a → agent_ok a') ∧ pID resp = qID req ∧ pMethod resp = qMethod req.
Proof.
  unfold handleSubscriptionRequest. destruct (DecodeSubscriptionFromRequest req) as [action sub]. destruct (_ =? _)%nat; [done|].
  destruct (bool_decide (action = subActionAdd)).
  - pose proof (Subscribe_ok sub a) as Hok. assert (values (Subscribe sub a).1 = values a) as Hv by (unfold Subscribe; by destruct (_ =? _)%nat).
    destruct (Subscribe sub a) as [a' [|e|]]; by split_and!.
  - destruct (bool_decide _); [|done]. split_and!; try done. apply Unsubscribe_ok.
Qed.

(** ** A request *)

Lemma respond_state {A} fail ok (s : agent * res aerr A) : (respond error_text fail ok s).1 = s.1.
Proof. by destruct s as [a [x|e|]]. Qed.
Lemma respond_shape {A} (C : USPAgentResponse → Prop) fail ok (s : agent * res aerr A) resp :
  (∀ e, C (fail e)) → (∀ x, C (ok x)) → (respond error_text fail ok s).2 = Ok resp → C resp.
Proof. intros Hf Ho. destruct s as [a [x|e|]]; [| |done]; intros [= <-]; [apply Ho|apply Hf]. Qed.

Definition answers (req : USPAgentRequest) (resp : USPAgentResponse) : Prop := pID resp = qID req ∧ pMethod resp = qMethod req.
Definition writes (req : USPAgentRequest) : bool :=
  (qMethod req =? USPAgentMethodSet) || (qMethod req =? USPAgentMethodAdd) || (qMethod req =? USPAgentMethodDelete).
(** The effect of a request on the agent, and whom it answers. *)
Definition confined (req : USPAgentRequest) (a : agent) (s : agent * res aerr USPAgentResponse) : Prop :=
  (agent_ok a → agent_ok s.1) ∧ (writes req = false → values s.1 = values a) ∧
  (IsSubscriptionRequest req = false → subscriptions s.1 = subscriptions a) ∧
  ∀ resp, s.2 = Ok resp → answers req resp.

Lemma confined_same req a r : (∀ resp, r = Ok resp → answers req resp) → confined req a (a, r).
Proof. intros Hr. by split_and!. Qed.
Lemma confined_quiet {A} req a fail ok (s : agent * res aerr A) :
  quiet a s.1 ∧ (agent_ok a → agent_ok s.1) → (∀ e, answers req (fail e)) →
  (∀ x, answers req (ok x)) → confined req a (respond error_text fail ok s).
Proof.
  intros [(Hv & Hs & _) Hk] Hf Ho. split_and!; rewrite ?respond_state; try done. intros resp. by apply (respond_shape (answers req)).
Qed.
Lemma confined_write {A} req a fail ok (s : agent * res aerr A) :
  writes req = true → subscriptions s.1 = subscriptions a ∧ (agent_ok a → agent_ok s.1) → (∀ e, answers req (fail e)) →
  (∀ x, answers req (ok x)) → confined req a (respond error_text fail ok s).
Proof.
  intros Hw [Hs Hk] Hf Ho. split_and!; rewrite ?respond_state; try done; [by rewrite Hw|]. intros resp. by apply (respond_shape (answers req)).
Qed.

Lemma request_confined q req a : confined req a (HandleRequest q req a).
Proof.
  unfold UspAgent.HandleRequest. cbv zeta. set (rq := resolveFastRequestPaths req).
  change (qMethod rq) with (qMethod req). change (qID rq) with (qID req). change (IsSubscriptionRequest rq) with (IsSubscriptionRequest req).
  destruct (_ && negb q); [apply confined_same; by intros resp [= <-]|].
  destruct (_ =? USPAgentMethodGet); [by apply confined_quiet; [apply GetContext_quiet|..]|].
  destruct (_ =? USPAgentMethodSet) eqn:Hset.
  { destruct (qMessage rq) as [[? ? [|f fields]]|]; try (apply confined_same; by intros resp [= <-]).
    apply confined_write; [unfold writes; by rewrite Hset|split; [apply storeFields_subs|apply storeFields_keeps]|done|done]. }
  destruct (_ =? USPAgentMethodAdd) eqn:Hadd; [apply confined_write; [unfold writes; by rewrite Hadd, orb_true_r|apply Add_result|done|done]|].
  destruct (_ =? USPAgentMethodDelete) eqn:Hdel.
  { destruct (_ =? _)%nat; [apply confined_same; by intros resp [= <-]|].
    apply confined_write; [unfold writes; by rewrite Hdel, orb_true_r|apply Delete_result|done|done]. }
  destruct (_ =? USPAgentMethodGetInstances); [by apply confined_quiet; [apply GetInstances_quiet|..]|].
  destruct (_ =? USPAgentMethodOperate).
  { destruct (OperationCommandPath _ _); [|apply confined_same; by intros resp [= <-]|by apply confined_same].
    by apply confined_quiet; [apply Operate_quiet|..]. }
  destruct (_ =? USPAgentMethodNotify).
  { destruct (IsSubscriptionRequest req) eqn:Hsub; [|by apply confined_quiet; [apply Notify_quiet|..]].
    pose proof (subscription_result rq a) as Hr. destruct (handleSubscriptionRequest error_text rq a) as [a' resp]. destruct Hr as (? & ? & ? & ?).
    split_and!; [done|done|by rewrite Hsub|]. by intros ? [= <-]. }
  clear Hset Hadd Hdel. do 2 (destruct (_ =? _); [apply confined_same; by intros resp [= <-]|]).
  do 2 (destruct (_ =? _); [destruct (qTransfer rq); [by apply confined_quiet; [apply transfer_quiet|..]|apply confined_same; by intros resp [= <-]]|]).
  by apply confined_same.
Qed.

(** ** Reading back what was set *)

Lemma store_all_cons v f l : store_all v (f :: l) = store_all (<[TrimSpace (Path f) := stored_field f]> v) l.
Proof. done. Qed.
Lemma store_all_app v l1 l2 : store_all v (l1 ++ l2) = store_all (store_all v l1) l2.
Proof. apply foldl_app. Qed.
Lemma store_all_other p l : ∀ v, p ∉ (fun f => TrimSpace (Path f)) <$> l → store_all v l !! p = v !! p.
Proof.
  induction l as [|f l IH]; intros v Hp; [done|]. rewrite fmap_cons in Hp. apply not_elem_of_cons in Hp as [Hne Hp].
  rewrite store_all_cons, IH by done. by apply lookup_insert_ne.
Qed.
Lemma store_all_last v l1 f l2 : TrimSpace (Path f) ∉ (fun g => TrimSpace (Path g)) <$> l2 →
  store_all v (l1 ++ f :: l2) !! TrimSpace (Path f) = Some (stored_field f).
Proof. intros Hp. rewrite store_all_app, store_all_cons, store_all_other by done. apply lookup_insert_eq. Qed.
Lemma getStored_one v p g :
  TrimSpace p ≠ [] → isObjectPath (TrimSpace p) = false → v !! TrimSpace p = Some g → getStored range v [p] = Ok (MkMessage [] None [g]).
Proof.
  intros Hne Ho Hg. unfold getStored. change (length [p] =? 0)%nat with false. cbn [get_loop].
  rewrite (proj2 (Nat.eqb_neq (length (TrimSpace p)) 0)) by (by destruct (TrimSpace p)). rewrite Ho, Hg, bool_decide_false by set_solver. done.
Qed.

(** Requests that write nothing, in any number and order. *)
Definition read_step (a a' : agent) : Prop := ∃ q req, writes req = false ∧ a' = (HandleRequest q req a).1.
Lemma reads_values a a' : rtc read_step a a' → values a' = values a.
Proof. induction 1 as [|a b c (q & req & Hw & ->) _ IH]; [done|]. rewrite IH. by apply (request_confined q req a). Qed.

Lemma set_request q req a a' resp sch ts f fields :
  (∀ e, error_text e ≠ []) → qMethod req = USPAgentMethodSet → qMessage req = Some (MkMessage sch ts (f :: fields)) →
  HandleRequest q req a = (a', Ok resp) → pError resp = [] → values a' = store_all (values a) (f :: fields).
Proof.
  intros Htext Hm Hmsg Hh Herr. unfold UspAgent.HandleRequest in Hh. cbv zeta in Hh. change (qMethod (resolveFastRequestPaths req)) with (qMethod req) in Hh.
  change (qMessage (resolveFastRequestPaths req)) with (qMessage req) in Hh. rewrite Hm, Hmsg in Hh. destruct (_ && negb q); [by injection Hh as _ <-|].
  change (USPAgentMethodSet =? USPAgentMethodGet) with false in Hh. rewrite Z.eqb_refl in Hh. cbv iota in Hh.
  pose proof (storeFields_result (f :: fields) true a) as Hs. destruct (UspAgent.storeFields _ _ _ _ _ a) as [a1 [[]|e|]]; cbn [respond] in Hh.
  - injection Hh as <- _. destruct Hs as (_ & _ & _ & _ & Hs). by apply Hs.
  - injection Hh as <- <-. by apply Htext in Herr.
  - done.
Qed.
Lemma get_request q req a p :
  xCollect P = None → qMethod req = USPAgentMethodGet → ShouldQueueUSPRequest req = false ∨ q = true → qPaths (resolveFastRequestPaths req) = [p] →
  ∀ g, TrimSpace p ≠ [] → isObjectPath (TrimSpace p) = false → values a !! TrimSpace p = Some g →
  ∃ resp, HandleRequest q req a = (a, Ok resp) ∧ pError resp = [] ∧ pMessage resp = Some (MkMessage [] None [g]).
Proof.
  intros Hc Hm Hq Hp g Hne Ho Hg. unfold UspAgent.HandleRequest. cbv zeta. change (ShouldQueueUSPRequest (resolveFastRequestPaths req)) with (ShouldQueueUSPRequest req).
  change (qMethod (resolveFastRequestPaths req)) with (qMethod req). rewrite Hm, Z.eqb_refl, Hp.
  assert (ShouldQueueUSPRequest req && negb q = false) as -> by (destruct Hq as [-> | ->]; [done|by rewrite andb_false_r]).
  unfold GetContext. rewrite Hc, (getStored_one _ _ g) by done. cbn [respond]. by eexists.
Qed.

(** ** Notifications *)

(** The notifications of an event: one per matching subscription, or one
    without a subscription when none matches. *)
Definition notifications (a : agent) (ev : USPEvent) : list USPEvent :=
  match matching srange a ev with [] => [ev] | subs => (fun s => with_sub ev (subID s)) <$> subs end.
(** The datagrams for them, numbered consecutively from the counter. *)
Fixpoint datagrams (n : Z) (evs : list USPEvent) : res werr (list bytes) :=
  match evs with
  | [] => Ok []
  | ev :: evs => e ← EncodeUSPAgentRequest (EncodeEventToRequest mrange ev (u64 (n + 1))); l ← datagrams (u64 (n + 1)) evs; Ok (e :: l)
  end.

(** A platform that sends every datagram and whose handlers send none. *)
Definition delivers (sent : B → list bytes) : Prop :=
  (∀ e b, ∃ b', xSend P e b = (b', Ok ()) ∧ sent b' = sent b ++ [e]) ∧
  ∀ h ev b, ∃ b', xHandler P h ev b = (b', Ok ()) ∧ sent b' = sent b.

Lemma send_all sent (Hd : delivers sent) {A} (f : A → USPEvent) l : ∀ a es,
  datagrams (nextEventID a) (f <$> l) = Ok es →
  ∃ a', each (fun x => sendEventWire P mrange (f x)) l a = (a', Ok ()) ∧ sent (platform a') = sent (platform a) ++ es.
Proof.
  induction l as [|x l IH]; intros a es Hes.
  { injection Hes as <-. exists a. by rewrite app_nil_r. }
  rewrite fmap_cons in Hes. cbn [datagrams] in Hes. apply bind_ok in Hes as (e & He & Hes). apply bind_ok in Hes as (l' & Hl & [= <-]).
  cbn [each]. unfold sendEventWire at 1. cbv zeta. rewrite He. cbn [platform]. destruct (proj1 Hd e (platform a)) as (b' & -> & Hb).
  cbn [from_backend]. destruct (IH (with_platform (MkAgent (values a) (subscriptions a) (u64 (nextEventID a + 1)) (eventSender a) (platform a)) b') l' Hl)
    as (a' & Ha & Hs). exists a'. split; [exact Ha|]. rewrite Hs. cbn [platform with_platform]. rewrite Hb, <- app_assoc. done.
Qed.
Lemma handlers_all sent (Hd : delivers sent) ev l : ∀ a,
  ∃ a', each (call_handler P ev) l a = (a', Ok ()) ∧ sent (platform a') = sent (platform a) ∧ nextEventID a' = nextEventID a.
Proof.
  induction l as [|s l IH]; intros a; cbn [each]; [by exists a|]. unfold call_handler at 1. destruct (subHandler s) as [h|]; [|apply IH].
  destruct (proj2 Hd h (with_sub ev (subID s)) (platform a)) as (b' & -> & Hb). cbn [from_backend].
  destruct (IH (with_platform a b')) as (a' & -> & Hs & Hn). exists a'. rewrite Hs, Hn. by split_and!.
Qed.
Lemma emit_sends sent ev a es :
  delivers sent → eventSender a = true → datagrams (nextEventID a) (notifications a ev) = Ok es →
  ∃ a', Emit ev a = (a', Ok ()) ∧ sent (platform a') = sent (platform a) ++ es.
Proof.
  intros Hd Hon Hes. unfold UspAgent.Emit. rewrite Hon. cbn [negb]. unfold notifications in Hes.
  destruct (handlers_all sent Hd ev (matching srange a ev) a) as (a1 & -> & Hs & Hn). rewrite <- Hn in Hes. rewrite <- Hs.
  destruct (matching srange a ev) as [|s subs]; cbn [length Nat.eqb].
  - destruct (send_all sent Hd (fun _ : unit => ev) [()] a1 es Hes) as (a' & He & Ha). exists a'. split; [|done]. cbn [each] in He.
    destruct (sendEventWire P mrange ev a1) as [a2 [[]| |]]; by injection He as ->.
  - apply (send_all sent Hd (fun s => with_sub ev (subID s)) (s :: subs) a1 es). exact Hes.
Qed.
Lemma matching_elem (a : agent) ev s : (∀ m, srange m ≡ₚ map_to_list m) →
  s ∈ matching srange a ev ↔ ∃ id, subscriptions a !! id = Some s ∧ subscriptionMatches s ev = true.
Proof.
  intros Hr. unfold matching. rewrite list_elem_of_In, filter_In, <- list_elem_of_In, list_elem_of_fmap. split.
  - intros [([id s'] & -> & Hin) Hm]. exists id. rewrite Hr, elem_of_map_to_list in Hin. done.
  - intros (id & Hid & Hm). split; [|done]. exists (id, s). by rewrite Hr, elem_of_map_to_list.
Qed.
Lemma matching_ids (a : agent) ev : (∀ m, srange m ≡ₚ map_to_list m) → agent_ok a → NoDup (subID <$> matching srange a ev).
Proof.
  intros Hr (_ & Hs & _). unfold matching.
  assert (Hall : ∀ id s, (id, s) ∈ srange (subscriptions a) → subID s = id) by (intros id s; rewrite Hr, elem_of_map_to_list; apply Hs).
  assert (Hnd : NoDup (srange (subscriptions a)).*1) by (rewrite Hr; apply NoDup_fst_map_to_list).
  induction (srange (subscriptions a)) as [|[id s] l IH]; [constructor|]. rewrite fmap_cons in *. apply NoDup_cons in Hnd as [Hid Hnd]. cbn [snd fst List.filter].
  specialize (IH ltac:(intros; apply Hall; by right) Hnd). destruct (subscriptionMatches s ev); [|done]. rewrite fmap_cons. constructor; [|done].
  rewrite (Hall id s) by (by left). cbn [fst] in Hid. intros (s' & -> & Hin)%list_elem_of_fmap. apply list_elem_of_In, filter_In in Hin as [Hin _].
  apply list_elem_of_In, list_elem_of_fmap in Hin as ([id' s''] & -> & Hin). apply Hid, list_elem_of_fmap. exists (id', s''). split; [|done].
  cbn [fst snd]. apply Hall. by right.
Qed.

(** ** Everything that changes an agent *)

Inductive agent_move : agent → agent → Prop :=
| move_request q req a : agent_move a (HandleRequest q req a).1
| move_set fields a : agent_move a (storeFields fields false a).1
| move_add path initial a : agent_move a (Add path initial a).1
| move_delete paths a : agent_move a (Delete P paths a).1
| move_subscribe sub a : agent_move a (Subscribe sub a).1
| move_unsubscribe id a : agent_move a (Unsubscribe id a)
| move_sender on a : agent_move a (SetEventSender on a)
| move_emit ev a : agent_move a (Emit ev a).1.

Lemma move_keeps a a' : agent_move a a' → keeps_ok a a'.
Proof.
  destruct 1; [exact (proj1 (request_confined q req a))|apply storeFields_keeps|exact (proj2 (Add_result path initial a))|exact (proj2 (Delete_result paths a))|intros ?; by apply Subscribe_ok
    |intros ?; by apply Unsubscribe_ok| |apply emit_keeps]. intros (? & ? & ? & ?). by split_and!.
Qed.
Lemma reachable_ok sender b a : rtc agent_move (NewUSPAgent sender b) a → agent_ok a.
Proof.
  intros Hr. assert (keeps_ok (NewUSPAgent sender b) a) as Hk.
  { induction Hr as [|? ? ? Hm _ IH]; [reflexivity|]. etransitivity; [by apply move_keeps|exact IH]. }
  apply Hk. split_and!; try done.
Qed.

(** C33: The agent's tables stay well formed.  Through any sequence of requests,
    local writes, additions, deletions, subscriptions and events, from an empty
    agent and whatever its platform does, every field is filed under its own path
    and every subscription under its nonblank identifier; so a snapshot lists each
    stored field once, sorted by path. *)
Theorem agent_tables_consistent sender b a :
  (∀ m, range m ≡ₚ map_to_list m) → rtc agent_move (NewUSPAgent sender b) a →
  agent_ok a ∧ NoDup (Path <$> Fields (buildSnapshotMessage range (values a))) ∧ Sorted field_le (Fields (buildSnapshotMessage range (values a))) ∧
  ∀ f, f ∈ Fields (buildSnapshotMessage range (values a)) ↔ values a !! Path f = Some f.
Proof.
  intros Hrange Hr. apply reachable_ok in Hr as Hok. pose proof Hok as [Hkeyed _]. split; [done|].
  assert (Path <$> (range (values a)).*2 = (range (values a)).*1) as Hpaths.
  { rewrite <- list_fmap_compose. apply list_fmap_ext. intros i [k f] Hkf. apply Hkeyed. apply list_elem_of_lookup_2 in Hkf. by rewrite Hrange, elem_of_map_to_list in Hkf. }
  unfold buildSnapshotMessage, sortedStoredFields. cbn [Fields]. split_and!.
  - rewrite sort_fields_perm, Hpaths. by apply range_nodup.
  - apply sort_fields_sorted.
  - intros f. rewrite sort_fields_perm, list_elem_of_fmap. split.
    + intros ([k g] & -> & Hin). rewrite Hrange, elem_of_map_to_list in Hin. cbn [snd]. by rewrite (Hkeyed k g Hin).
    + intros Hf. exists (Path f, f). by rewrite Hrange, elem_of_map_to_list.
Qed.

(** Requests have only the effects of their method, and are answered.  Only
    Set, Add and Delete requests change stored values, only subscription requests
    change the subscriptions, and every response carries the request's identifier
    and method; an action that does not get the queue leaves the agent as it is. *)
Theorem request_effects_confined q req a :
  let '(a', r) := HandleRequest q req a in
  (writes req = false → values a' = values a) ∧ (IsSubscriptionRequest req = false → subscriptions a' = subscriptions a) ∧
  (∀ resp, r = Ok resp → pID resp = qID req ∧ pMethod resp = qMethod req) ∧
  (ShouldQueueUSPRequest req = true → q = false → a' = a).
Proof.
  pose proof (request_confined q req a) as (_ & Hv & Hs & Hr). destruct (UspAgent.HandleRequest _ _ _ _ _ _ _ _ _ _ q req a) as [a' r] eqn:E. cbn [fst snd] in *.
  split_and!; try done. intros Hq ->. unfold UspAgent.HandleRequest in E. cbv zeta in E.
  change (ShouldQueueUSPRequest (resolveFastRequestPaths req)) with (ShouldQueueUSPRequest req) in E. rewrite Hq in E. by injection E as <- _.
Qed.


(** Every matching subscription is notified.  When an event is emitted on an
    agent whose sender delivers, the sender is handed, in order and with
    consecutive event identifiers, one Notify datagram for each subscription the
    event matches (one without a subscription when none matches), and no
    subscription is notified twice. *)
Theorem emit_notifies_subscribers sent ev a es :
  (∀ m, srange m ≡ₚ map_to_list m) → delivers sent → agent_ok a → eventSender a = true →
  datagrams (nextEventID a) (notifications a ev) = Ok es →
  (∃ a', Emit ev a = (a', Ok ()) ∧ sent (platform a') = sent (platform a) ++ es) ∧
  (∀ s, s ∈ matching srange a ev ↔ ∃ id, subscriptions a !! id = Some s ∧ subscriptionMatches s ev = true) ∧
  NoDup (subID <$> matching srange a ev).
Proof.
  intros Hr Hd Hok Hon Hes. split_and!; [by apply emit_sends|intros s; by apply matching_elem|by apply matching_ids].
Qed.
End Steps.

(** ** Witnesses

    An agent whose platform records what is sent and has no other handlers. *)

#[local] Instance plain_format : ValueFormat := {| FormatFloat _ := []; FormatTime _ := []; IP_String b := b |}.
Definition no_limits : Limits := MkLimits None None None None 0 0 [] [] 0 0.
Definition wifi_params : list Param :=
  [MkParam (bs "Device.WiFi.SSID.{i}.Enable") (bs "boolean") [] [] [] no_limits;
   MkParam (bs "Device.WiFi.SSIDNumberOfEntries") (bs "unsignedInt") [] [] [] no_limits].
Definition wifi_objects : list Object := [MkObject (bs "Device.WiFi.SSID.{i}.") true [] []].
#[local] Instance demo_schema : Schema :=
  {| schema_registry := buildRegistry (mPath <$> wifi_params); SelectorForPath _ := None; PathForSelector _ _ := None;
     lookupSafeParam p := bool_decide (p ∈ mPath <$> wifi_params); ValidateFieldFast _ := Ok (); ValueToString := value_text |}.
Definition recorder : Platform (list bytes) :=
  {| xCollect := None; xSet := None; xDelete _ b := (b, Ok ()); xAdd := None; xOperate := None; xNotify := None;
     xUpload := None; xDownload := None; xSend e b := (b ++ [e], Ok ()); xHandler _ _ b := (b, Ok ()) |}.
Definition demo_text (e : aerr) : bytes := bs "error".
Definition demo_fill (p : Param) (i : nat) : Value := VString (bs "sample").
Definition demo_sub (id : bytes) : USPSubscription := MkSubscription id [] [bs "Device.WiFi."] [] None.
Definition demo_agent : Agent (list bytes) :=
  (Subscribe (demo_sub (bs "s2")) (Subscribe (demo_sub (bs "s1")) (NewUSPAgent true [])).1).1.
Abbreviation demo_handle := (HandleRequest recorder wifi_objects wifi_params demo_fill [] [] map_to_list map_to_list map_to_list demo_text).
Abbreviation demo_moves := (agent_move recorder wifi_objects wifi_params demo_fill [] [] map_to_list map_to_list map_to_list demo_text).
Definition demo_request (method : Z) (paths : list bytes) (msg : option Message) : USPAgentRequest :=
  {| qID := 9; qMethod := method; qPaths := paths; qPathCodes := []; qPathInstances := []; qObjectPath := []; qObjectCode := 0;
     qObjectInstances := []; qMessage := msg; qTransfer := None; qMetadata := ∅ |}.
Definition demo_enable : bytes := bs "Device.WiFi.SSID.1.Enable".
Definition write_enable : USPAgentRequest :=
  demo_request USPAgentMethodSet [] (Some (MkMessage [] None [MkField 0 demo_enable (VString (bs "false")); MkField 0 demo_enable (VString (bs "true"))])).
Definition read_enable : USPAgentRequest := demo_request USPAgentMethodGet [demo_enable] None.

Lemma demo_reachable : rtc demo_moves (NewUSPAgent true []) demo_agent.
Proof. eapply rtc_l; [apply move_subscribe|]. eapply rtc_l; [apply move_subscribe|]. apply rtc_refl. Qed.

Lemma agent_tables_consistent_witness :
  let a := (demo_handle true write_enable demo_agent).1 in
  agent_ok a ∧ ∀ f, f ∈ Fields (buildSnapshotMessage map_to_list (values a)) ↔ values a !! Path f = Some f.
Proof.
  cbv zeta. destruct (agent_tables_consistent recorder wifi_objects wifi_params demo_fill [] [] map_to_list map_to_list map_to_list demo_text true []
    (demo_handle true write_enable demo_agent).1) as (Hok & _ & _ & Hall).
  - done.
  - eapply rtc_r; [exact demo_reachable|apply move_request].
  - split; [exact Hok|exact Hall].
Defined.

Lemma request_effects_confined_witness : subscriptions (demo_handle true write_enable demo_agent).1 = subscriptions demo_agent.
Proof.
  pose proof (request_effects_confined recorder wifi_objects wifi_params demo_fill [] [] map_to_list map_to_list map_to_list demo_text true write_enable demo_agent) as Hr.
  destruct (demo_handle true write_enable demo_agent) as [a' r]. apply Hr. vm_compute. reflexivity.
Defined.

Definition quiet_agent : Agent (list bytes) := NewUSPAgent false [].
Lemma demo_set_succeeds : ∃ a1 r1, demo_handle true write_enable quiet_agent = (a1, Ok r1) ∧ pError r1 = [].
Proof.
  assert (match (demo_handle true write_enable quiet_agent).2 with Ok r => bool_decide (pError r = []) | _ => false end = true) as Hc by vm_refl.
  destruct (demo_handle true write_enable quiet_agent) as [a1 [r1| |]]; [|done|done]. exists a1, r1. split; [done|]. by apply bool_decide_eq_true in Hc.
Qed.

Definition demo_change : USPEvent := value_change (MkField 0 demo_enable (VString (bs "true"))).
Lemma demo_datagrams : ∃ es, datagrams map_to_list (nextEventID demo_agent) (notifications map_to_list demo_agent demo_change) = Ok es ∧ length es = 2%nat.
Proof.
  assert (match datagrams map_to_list (nextEventID demo_agent) (notifications map_to_list demo_agent demo_change) with
          | Ok es => (length es =? 2)%nat | _ => false end = true) as Hc by vm_refl.
  destruct (datagrams map_to_list (nextEventID demo_agent) (notifications map_to_list demo_agent demo_change)) as [es| |]; [|done|done].
  exists es. split; [done|]. by apply Nat.eqb_eq.
Qed.
Lemma recorder_delivers : delivers recorder (fun b => b).
Proof. split; [intros e b; by exists (b ++ [e])|intros h ev b; by exists b]. Qed.
Lemma emit_notifies_subscribers_witness :
  ∃ a', Emit recorder map_to_list map_to_list demo_change demo_agent = (a', Ok ()) ∧ length (platform a') = 2%nat.
Proof.
  destruct demo_datagrams as (es & E & Hl).
  destruct (emit_notifies_subscribers recorder map_to_list map_to_list (fun b => b) demo_change demo_agent es) as [(a' & He & Hs) _].
  - done.
  - exact recorder_delivers.
  - exact (reachable_ok recorder wifi_objects wifi_params demo_fill [] [] map_to_list map_to_list map_to_list demo_text true [] demo_agent demo_reachable).
  - reflexivity.
  - exact E.
  - exists a'. split; [exact He|]. rewrite Hs. exact Hl.
Defined.
