(* ===== verification/UspAddProps.v ===== *)
(** * Adding an object instance

    What USPAgent.Add of src/internal/wusp/usp_agent.go does to the store: the
    instance it returns was free, every schema parameter of the object is there
    afterwards, and nothing outside the instance changes but the entry count. *)

From S2P Require Import Prelude GoStr Wire Codec Fragments ReadReplay Transport Request DeviceModel DeviceModelProps UspEvents UspStore UspStoreProps UspAgent UspAgentProps.

Abbreviation plain := (Forall (fun c => graphic c = true)).
Abbreviation dotless := (Forall (fun s : bytes => dot ∉ s)).

(** ** Prefixes of joined paths *)

Lemma dotless_prefix (x y z s : bytes) : dot ∉ x → y ++ dot :: z = x ++ s → ∃ t, y = x ++ t.
Proof.
  revert y. induction x as [|c x IH]; intros y Hx He; [by exists y|]. apply not_elem_of_cons in Hx as [Hc Hx].
  destruct y as [|d y]; [by injection He as <- _|]. injection He as <- He. destruct (IH y Hx He) as [t ->]. by exists t.
Qed.
Lemma dotless_unique (x y z s : bytes) : dot ∉ x → dot ∉ y → y ++ dot :: z = x ++ dot :: s → y = x ∧ z = s.
Proof.
  revert y. induction x as [|c x IH]; intros [|d y] Hx Hy He; cbn [app] in He.
  - by injection He as ->.
  - injection He as -> _. apply not_elem_of_cons in Hy as [? _]. done.
  - injection He as <- _. apply not_elem_of_cons in Hx as [? _]. done.
  - apply not_elem_of_cons in Hx as [_ Hx]. apply not_elem_of_cons in Hy as [_ Hy]. injection He as -> He. by destruct (IH y Hx Hy He) as [-> ->].
Qed.

(** A joined path that begins with another one has its segments, but for the
    last, which begins with that one's last. *)
Lemma join_prefix (F0 : list bytes) x : ∀ A : list bytes, A ≠ [] → dotless A → dotless (F0 ++ [x]) →
  HasPrefix (Join A dot) (Join (F0 ++ [x]) dot) = true → ∃ t rest, A = F0 ++ (x ++ t) :: rest.
Proof.
  induction F0 as [|z F0 IH]; intros A Hne HA HF Hp; (destruct A as [|y A]; [by destruct Hne|]); apply Forall_cons in HA as [Hy HA];
    cbn [app] in *; apply Forall_cons in HF as [Hz HF]; apply HasPrefix_app in Hp as [s Hp].
  - change (Join [x] dot) with x in Hp. destruct A as [|y' A]; [exists s, []; by rewrite <- Hp|]. rewrite Join_cons in Hp by done.
    destruct (dotless_prefix x y _ _ Hz Hp) as [t ->]. by exists t, (y' :: A).
  - rewrite (Join_cons z) in Hp by (by destruct F0). rewrite <- app_assoc in Hp. cbn [app] in Hp. destruct A as [|y' A].
    { cbn [Join] in Hp. exfalso. apply Hy. rewrite Hp. apply elem_of_app. right. by left. }
    rewrite Join_cons in Hp by done. destruct (dotless_unique z y _ _ Hz Hy Hp) as [-> Hp'].
    destruct (IH (y' :: A)) as (t & rest & ->); [done|done|done|apply HasPrefix_app; by exists s|]. by exists t, rest.
Qed.

(** ** Filling the tokens of a template *)

Lemma tokens_cons t l : tokens (t :: l) = ((if bool_decide (t = token) then 1 else 0) + tokens l)%nat.
Proof. unfold tokens. cbn [List.filter]. by case_bool_decide. Qed.

Lemma fill_at_exact parts : ∀ iv X rest, length iv = tokens parts → token ∉ X →
  fill_at (parts ++ X) (parts ++ rest) iv = fill_tokens parts iv ++ rest.
Proof.
  induction parts as [|t parts IH]; intros iv X rest Hl HX; cbn [app fill_at fill_tokens].
  - revert rest iv Hl. induction X as [|y X IHX]; intros [|r rest] iv Hl; try done. cbn [fill_at].
    apply not_elem_of_cons in HX as [Hy HX]. rewrite bool_decide_false by done. by rewrite IHX.
  - rewrite tokens_cons in Hl. case_bool_decide; [destruct iv as [|v iv]; [done|]|]; cbn [app]; f_equal; by apply IH; [simpl in Hl; lia|].
Qed.

(** Positions of tokens get the same values whatever the path had there. *)
Lemma fill_at_token parts X : ∀ C iv i v, parts !! i = Some token → fill_tokens parts iv !! i = Some v → length iv = tokens parts →
  is_Some (fill_at (parts ++ X) C iv !! i) → fill_at (parts ++ X) C iv !! i = Some v.
Proof.
  induction parts as [|t parts IH]; intros C iv i v Ht Hv Hl [w Hw]; [done|]. destruct C as [|c C]; [done|]. cbn [app fill_at fill_tokens] in *.
  rewrite tokens_cons in Hl. destruct i as [|i]; cbn [lookup list_lookup] in *.
  - injection Ht as ->. rewrite bool_decide_true in * by done. by destruct iv.
  - case_bool_decide; [destruct iv as [|u iv]; [done|]|]; cbn [lookup list_lookup] in *; (eapply IH; [done|done|simpl in Hl; lia|by eexists]).
Qed.
Lemma fill_at_nonempty T C iv : C ≠ [] → fill_at T C iv ≠ [].
Proof. destruct T as [|t T], C as [|c C]; try done. cbn [fill_at]. case_bool_decide; [destruct iv|]; done. Qed.
Lemma fill_at_Forall (Q : bytes → Prop) T : ∀ C iv, Forall Q C → Forall Q iv → Forall Q (fill_at T C iv).
Proof.
  induction T as [|t T IH]; intros [|c C] iv HC Hiv; cbn [fill_at]; try done. apply Forall_cons in HC as [Hc HC].
  case_bool_decide; [destruct iv as [|v iv]|]; constructor; try done; try (by apply IH).
  - by apply Forall_cons in Hiv as [? _].
  - apply Forall_cons in Hiv as [_ ?]. by apply IH.
Qed.

Lemma match_fill parts : ∀ iv rest, length iv = tokens parts → Forall (fun s => isNumericPathSegment s = true) iv →
  match_parts parts (fill_tokens parts iv ++ rest) = Some (fill_tokens parts iv).
Proof.
  induction parts as [|t parts IH]; intros iv rest Hl Hiv; [done|]. rewrite tokens_cons in Hl. cbn [fill_tokens]. case_bool_decide as Ht.
  - destruct iv as [|v iv]; [done|]. apply Forall_cons in Hiv as [Hv Hiv]. cbn [app match_parts]. rewrite bool_decide_true, Hv by done. cbn [andb orb].
    by rewrite IH by (simpl in Hl; first [lia|done]).
  - cbn [app match_parts]. rewrite (bool_decide_false (t = token)) by done. rewrite (bool_decide_true (t = t)) by done. cbn [andb orb]. by rewrite IH.
Qed.

(** ** The shape of a multi-instance object's path *)

Lemma Join_app A B' sep : A ≠ [] → B' ≠ [] → Join (A ++ B') sep = Join A sep ++ sep :: Join B' sep.
Proof.
  induction A as [|x A IH]; intros HA HB; [done|]. destruct A as [|y A]; [by apply Join_cons|].
  cbn [app]. rewrite !(Join_cons x) by done. rewrite <- app_assoc. cbn [app]. f_equal. f_equal. by apply IH.
Qed.
Lemma Split_sep s t sep : Split (s ++ sep :: t) sep = Split s sep ++ Split t sep.
Proof.
  rewrite <- (Join_Split s sep) at 1. rewrite <- (Join_Split t sep) at 1.
  rewrite <- Join_app by apply Split_nonempty. apply Split_Join.
  - intros Hz%app_eq_nil. destruct Hz as [Hz _]. by apply Split_nonempty in Hz.
  - apply Forall_app. split; apply Split_no_dot.
Qed.
Lemma TrimSuffix_app (s : bytes) : TrimSuffix (s ++ [dot]) (bs ".") = s.
Proof.
  unfold TrimSuffix, HasSuffix. rewrite length_app. change (length (bs ".")) with 1%nat. change (length [dot]) with 1%nat.
  rewrite (proj2 (Nat.leb_le 1 _)) by lia. replace (length s + 1 - 1)%nat with (length s) by lia.
  rewrite drop_app_length, bool_decide_true by done. cbn [andb]. apply take_app_length.
Qed.

(** A schema path of a multi-instance object: printable, no numbers for
    segments, and the instance token last. *)
Definition table_path (canonical : bytes) : Prop :=
  plain canonical ∧ Forall (fun s => isNumericPathSegment s = false) (splitObjectParts canonical) ∧ ∃ c, canonical = c ++ bs ".{i}.".
Lemma table_parts canonical : table_path canonical →
  ∃ parts0, splitObjectParts canonical = parts0 ++ [token] ∧ canonical = Join (parts0 ++ [token]) dot ++ [dot] ∧
    Split canonical dot = (parts0 ++ [token]) ++ [[]] ∧ dotless (parts0 ++ [token]) ∧ Forall plain (parts0 ++ [token]).
Proof.
  intros (Hg & _ & c & ->). exists (Split c dot).
  assert (c ++ bs ".{i}." = (c ++ dot :: token) ++ [dot]) as Hc by (by rewrite <- app_assoc). rewrite Hc in *.
  assert (Hparts : Split (c ++ dot :: token) dot = Split c dot ++ [token]) by (rewrite Split_sep; by rewrite (Split_no_sep token) by (vm_compute; set_solver)).
  apply Forall_app in Hg as [Hg1 Hg2]. split_and!.
  - unfold splitObjectParts. rewrite TrimSpace_graphic by (by apply Forall_app). by rewrite TrimSuffix_app.
  - by rewrite <- Hparts, Join_Split.
  - rewrite Split_sep, Hparts. done.
  - rewrite <- Hparts. apply Split_no_dot.
  - rewrite <- Hparts. by apply Split_Forall.
Qed.

(** ** Paths below the new instance *)

Section Instance.
Context (canonical : bytes) (Htable : table_path canonical) (iv : list bytes).
Context (Hiv : Forall (fun s => isNumericPathSegment s = true) iv) (Hlen : length iv = tokens (splitObjectParts canonical)).
Abbreviation parts := (splitObjectParts canonical).
Definition instance_path : bytes := Join (fill_tokens parts iv) dot ++ [dot].

(** A stored path that the addition may write. *)
Definition of_instance (k : bytes) : Prop := extractActualObjectPath canonical k = Some instance_path ∨ k ++ [dot] = instance_path.

Lemma iv_plain : Forall plain iv ∧ dotless iv.
Proof using Hiv. split; (eapply Forall_impl; [exact Hiv|]); intros s Hs; by apply numeric_graphic in Hs as [? ?]. Qed.
Lemma filled_ok : fill_tokens parts iv ≠ [] ∧ dotless (fill_tokens parts iv) ∧ Forall plain (fill_tokens parts iv).
Proof using Hiv Hlen Htable.
  destruct (table_parts canonical Htable) as (parts0 & Hp & _ & _ & Hd & Hg). destruct iv_plain as [Hpl Hdl]. rewrite Hp. split_and!.
  - intros Hz%(f_equal length). rewrite fill_length, length_app in Hz. simpl in Hz. lia.
  - by apply fill_Forall.
  - by apply fill_Forall.
Qed.

Lemma extended_path rest : dotless rest → Forall plain rest → let k := Join (fill_tokens parts iv ++ rest) dot in
  plain k ∧ (rest ≠ [] → extractActualObjectPath canonical k = Some instance_path) ∧ (rest = [] → k ++ [dot] = instance_path).
Proof using Hiv Hlen Htable.
  intros Hd Hg k. destruct filled_ok as (Hne & Hfd & Hfg).
  assert (Hk : plain k) by (apply Join_Forall; [done|by apply Forall_app]). split_and!; [done| |intros ->; unfold k; by rewrite app_nil_r].
  intros Hr. unfold extractActualObjectPath. rewrite TrimSpace_graphic by done. unfold k. rewrite Split_Join; [| |by apply Forall_app].
  2:{ intros Hz%app_eq_nil. by destruct Hz. }
  rewrite length_app, fill_length. assert (0 < length rest)%nat by (destruct rest; [done|simpl; lia]).
  rewrite (proj2 (Nat.ltb_ge _ _)) by lia. by rewrite match_fill.
Qed.
Lemma extended_of_instance rest : dotless rest → Forall plain rest → of_instance (Join (fill_tokens parts iv ++ rest) dot).
Proof using Hiv Hlen Htable.
  intros Hd Hg. destruct (extended_path rest Hd Hg) as (_ & Hne & He). destruct rest; [right; by apply He|left; by apply Hne].
Qed.

(** A parameter of the schema, materialized. *)
Lemma schema_param_path m : HasPrefix m canonical = true → plain m →
  let k := materializePathForInstance m canonical iv in plain k ∧ extractActualObjectPath canonical k = Some instance_path.
Proof using Hiv Hlen Htable.
  intros [t ->]%HasPrefix_app Hg k. destruct (table_parts canonical Htable) as (parts0 & Hp & Hc & Hs & Hd & Hgp). rewrite <- Hp in Hc, Hs.
  apply Forall_app in Hg as [_ Hg]. assert (Split (canonical ++ t) dot = parts ++ Split t dot) as Hm.
  { rewrite Hc at 1. rewrite <- app_assoc. cbn [app]. rewrite Split_sep, Split_Join; [done|rewrite Hp; by destruct parts0|by rewrite Hp]. }
  assert (k = Join (fill_tokens parts iv ++ Split t dot) dot) as ->.
  { unfold k, materializePathForInstance. rewrite Hm, Hs, fill_at_exact; [done|done|]. vm_compute. set_solver. }
  destruct (extended_path (Split t dot)) as (? & Hx & _); [apply Split_no_dot|by apply Split_Forall|]. split; [done|]. apply Hx, Split_nonempty.
Qed.

(** A parameter of the request, materialized and checked. *)
Lemma request_param_path p : plain p → p ≠ [] →
  let k := materializePathForInstance (canonicalParamPath p) canonical iv in
  HasPrefix k (TrimSuffix instance_path (bs ".")) = true → plain k ∧ of_instance k.
Proof using Hiv Hlen Htable.
  intros Hg Hne k Hpre. destruct (table_parts canonical Htable) as (parts0 & Hp & Hc & Hs & Hd & Hgp). destruct filled_ok as (_ & Hfd & Hfg). destruct iv_plain as [Hpl Hdl].
  unfold instance_path in Hpre. rewrite TrimSuffix_app in Hpre.
  set (C := Split (canonicalParamPath p) dot). set (A := fill_at (parts ++ [[]]) C iv).
  assert (HC : C ≠ [] ∧ dotless C ∧ Forall plain C).
  { split_and!; [apply Split_nonempty|apply Split_no_dot|]. apply Split_Forall. unfold canonicalParamPath. rewrite (proj2 (Nat.eqb_neq _ 0)) by (by destruct p).
    apply Join_Forall; [done|]. apply Forall_fmap. apply (Split_Forall _ _ dot) in Hg. eapply Forall_impl; [exact Hg|]. intros s Hsg. cbn beta. unfold compose, canonical_segment.
    destruct (_ || _); [done|]. by destruct (isNumericPathSegment s); [repeat constructor|]. }
  destruct HC as (HCne & HCd & HCg). assert (k = Join A dot) as Hk by (unfold k, materializePathForInstance; by rewrite Hs, <- Hp).
  assert (HA : A ≠ [] ∧ dotless A ∧ Forall plain A) by (split_and!; [by apply fill_at_nonempty|by apply fill_at_Forall|by apply fill_at_Forall]).
  destruct HA as (HAne & HAd & HAg). split; [rewrite Hk; by apply Join_Forall|].
  destruct (exists_last (proj1 filled_ok)) as (F0 & x & HF). rewrite HF in Hpre, Hfd. rewrite Hk in Hpre.
  destruct (join_prefix F0 x A HAne HAd Hfd Hpre) as (t & rest & HAeq).
  assert (length F0 = length parts0) as HlF by (apply (f_equal length) in HF; rewrite fill_length, Hp, !length_app in HF; simpl in HF; lia).
  assert (A !! length F0 = Some x) as Hx.
  { apply (fill_at_token parts [[]] C iv (length F0) x); [|by rewrite HF, list_lookup_middle|done|fold A; rewrite HAeq, list_lookup_middle by done; by eexists].
    rewrite HlF, Hp. by apply list_lookup_middle. }
  rewrite HAeq, list_lookup_middle in Hx by done. injection Hx as Hx. rewrite Hx in HAeq.
  rewrite Hk, HAeq. replace (F0 ++ x :: rest) with (fill_tokens parts iv ++ rest) by (by rewrite HF, <- app_assoc).
  rewrite HAeq in HAd, HAg. apply Forall_app in HAd as [_ [_ HAd]%Forall_cons]. apply Forall_app in HAg as [_ [_ HAg]%Forall_cons].
  by apply extended_of_instance.
Qed.
End Instance.

(** ** The fields that are stored *)

Section Fields.
Context (fill : Param → nat → Value).
Context (canonical : bytes) (Htable : table_path canonical) (iv : list bytes).
Context (Hiv : Forall (fun s => isNumericPathSegment s = true) iv) (Hlen : length iv = tokens (splitObjectParts canonical)).
Abbreviation at_instance m := (materializePathForInstance m canonical iv).

Definition instance_store (m : store) : Prop := ∀ k f, m !! k = Some f → Path f = k ∧ plain k ∧ of_instance canonical iv k.
Lemma instance_store_insert m k v : instance_store m → plain k ∧ of_instance canonical iv k → instance_store (<[k := MkField 0 k v]> m).
Proof. intros Hm [? ?] k' f [[<- <-]|[_ ?]]%lookup_insert_Some; [done|by apply Hm]. Qed.

Lemma object_fields_spec params : ∀ i m, Forall (fun p => plain (mPath p)) params → instance_store m →
  let m' := object_fields fill i params canonical iv m in
  instance_store m' ∧ dom m ⊆ dom m' ∧
  ∀ prm, prm ∈ params → HasPrefix (mPath prm) canonical = true → at_instance (mPath prm) ∈ dom m'.
Proof using Hiv Hlen Htable.
  induction params as [|p params IH]; intros i m Hp Hm; cbn [object_fields].
  { split_and!; [done|done|]. by intros prm ?%elem_of_nil. }
  apply Forall_cons in Hp as [Hg Hp]. destruct (HasPrefix (mPath p) canonical) eqn:Hpre.
  - destruct (schema_param_path canonical Htable iv Hiv Hlen (mPath p) Hpre Hg) as [Hk Hof].
    destruct (IH (S i) (<[at_instance (mPath p) := MkField 0 (at_instance (mPath p)) (fill p i)]> m)) as (Hs & Hd & Hall); [done| |].
    { apply instance_store_insert; [done|]. split; [done|by left]. }
    rewrite dom_insert in Hd. split_and!; [done|set_solver|]. intros prm [->|Hin]%elem_of_cons Hx; [set_solver|by apply Hall].
  - destruct (IH (S i) m) as (Hs & Hd & Hall); [done|done|]. split_and!; [done|done|].
    intros prm [->|Hin]%elem_of_cons Hx; [congruence|by apply Hall].
Qed.
Lemma initial_fields_spec fields : ∀ m m', Forall (fun f => plain (Path f)) fields → instance_store m →
  initial_fields fields canonical (instance_path canonical iv) iv m = Ok m' → instance_store m' ∧ dom m ⊆ dom m'.
Proof using Hiv Hlen Htable.
  induction fields as [|f fields IH]; intros m m' Hg Hm Hi; cbn [initial_fields] in Hi.
  { injection Hi as <-. done. }
  apply Forall_cons in Hg as [Hf Hg]. rewrite TrimSpace_graphic in Hi by done. destruct (Nat.eqb_spec (length (Path f)) 0) as [|Hne]; [done|].
  destruct (HasPrefix (at_instance (canonicalParamPath (Path f))) _) eqn:Hpre; [|done]. cbn [negb] in Hi.
  apply IH in Hi as [Hs Hd]; [|done|].
  - split; [done|]. rewrite dom_insert in Hd. set_solver.
  - apply instance_store_insert; [done|]. apply (request_param_path canonical Htable iv Hiv Hlen (Path f)); [done|intros Hz; by rewrite Hz in Hne|done].
Qed.
End Fields.

Section Stored.
Context `{Schema}.
Lemma store_all_dom l : ∀ v, (∀ k, is_Some (v !! k) → is_Some (store_all v l !! k)) ∧ ∀ f, f ∈ l → is_Some (store_all v l !! TrimSpace (Path f)).
Proof.
  induction l as [|f l IH]; intros v; [split; [done|by intros f ?%elem_of_nil]|]. rewrite store_all_cons.
  destruct (IH (<[TrimSpace (Path f) := stored_field f]> v)) as [Hk Hl]. split.
  - intros k Hv. apply Hk. destruct (decide (TrimSpace (Path f) = k)) as [->|]; [rewrite lookup_insert_eq; by eexists|by rewrite lookup_insert_ne].
  - intros g [->|Hg]%elem_of_cons; [|by apply Hl]. apply Hk. rewrite lookup_insert_eq. by eexists.
Qed.
End Stored.

Lemma dedup_elem l : ∀ seen p, p ∈ dedup seen l ↔ p ∈ l ∧ p ∉ seen.
Proof.
  induction l as [|x l IH]; intros seen p; cbn [dedup]; [set_solver|]. case_bool_decide; rewrite ?elem_of_cons, ?IH; [set_solver|].
  destruct (decide (p = x)); set_solver.
Qed.
Lemma instance_listed range values canonical k f actual : (∀ m, range m ≡ₚ map_to_list m) →
  values !! k = Some f → extractActualObjectPath canonical k = Some actual → actual ∈ instancePathsForObject range values canonical.
Proof.
  intros Hr Hk He. unfold instancePathsForObject. rewrite SortStrings_perm, dedup_elem. split; [|set_solver].
  apply list_elem_of_omap. exists (k, f). split; [|done]. by rewrite Hr, elem_of_map_to_list.
Qed.

Section Claim.
Context `{Schema} {B : Type} (P : Platform B).
Context (AllDeviceObjects : list Object) (AllDeviceParams : list Param).
Context (fill : Param → nat → Value).
Context (range : store → list (bytes * Field)) (srange : gmap bytes USPSubscription → list (bytes * USPSubscription)).
Context (mrange : metadata → list (bytes * bytes)).
Abbreviation add_local := (add_local P AllDeviceParams fill range srange mrange).

(** The fields of the new instance, and what the addition does to the store. *)
Lemma add_local_stores objectPath canonical initial a a' paths :
  (∀ m, range m ≡ₚ map_to_list m) → add_local objectPath canonical initial a = (a', Ok paths) →
  ∃ iv actual fields, paths = [actual] ∧
    (∃ request, nextObjectInstance range (values a) request canonical = Ok (iv, actual)) ∧
    initial_fields (match initial with Some m => Fields m | None => [] end) canonical actual iv
      (buildObjectFieldsForAdd AllDeviceParams fill canonical iv) = Ok fields ∧
    values a' = values (refreshEntryCount range canonical (with_values a (store_all (values a) (trim_field <$> sort_fields (range fields).*2)))).
Proof.
  intros Hrange. unfold UspAgent.add_local. destruct (nextObjectInstance _ _ _ _) as [[iv actual]|e|] eqn:Hn; [|done|done].
  destruct (initial_fields _ _ _ _ _) as [fields|e|] eqn:Hi; [|done|done].
  pose proof (storeFields_result P srange mrange (sort_fields (range fields).*2) false a) as Hs.
  destruct (storeFields _ _ _ _ _ a) as [a1 [[]|e|]]; [|done|done]. intros [= <- <-]. destruct Hs as (_ & _ & _ & _ & Hs).
  exists iv, actual, fields. split_and!; [done|by eexists|done|]. unfold refreshEntryCount. specialize (Hs eq_refl). unfold normalized in Hs.
  destruct (objectCountParamPath canonical); cbn [values with_values]; by rewrite Hs.
Qed.

Lemma count_changes canonical (a : Agent B) k :
  values (refreshEntryCount range canonical a) !! k ≠ values a !! k → objectCountParamPath canonical = Some k.
Proof.
  unfold refreshEntryCount. destruct (objectCountParamPath canonical) as [c|]; [|done]. cbn [values with_values]. intros Hk.
  destruct (decide (c = k)) as [->|Hne]; [done|]. by rewrite lookup_insert_ne in Hk.
Qed.
Lemma count_keeps canonical (a : Agent B) k : is_Some (values a !! k) → is_Some (values (refreshEntryCount range canonical a) !! k).
Proof.
  intros Hk. unfold refreshEntryCount. destruct (objectCountParamPath canonical) as [c|]; [|done]. cbn [values with_values].
  destruct (decide (c = k)) as [->|]; [rewrite lookup_insert_eq; by eexists|by rewrite lookup_insert_ne].
Qed.

Lemma add_fields canonical iv initial fields :
  table_path canonical → Forall (fun p => plain (mPath p)) AllDeviceParams →
  Forall (fun s => isNumericPathSegment s = true) iv → length iv = tokens (splitObjectParts canonical) →
  Forall (fun f => plain (Path f)) initial →
  initial_fields initial canonical (instance_path canonical iv) iv (buildObjectFieldsForAdd AllDeviceParams fill canonical iv) = Ok fields →
  instance_store canonical iv fields ∧
  ∀ prm, prm ∈ AllDeviceParams → HasPrefix (mPath prm) canonical = true → materializePathForInstance (mPath prm) canonical iv ∈ dom fields.
Proof.
  intros Ht Hp Hiv Hl Hi Hf. destruct (object_fields_spec fill canonical Ht iv Hiv Hl AllDeviceParams 0 ∅ Hp) as (Hs & _ & Hall); [by intros k f ?%lookup_empty_Some|].
  destruct (initial_fields_spec canonical Ht iv Hiv Hl initial _ fields Hi Hs Hf) as [Hs' Hd]. split; [done|].
  intros prm Hin Hpre. apply Hd. by apply Hall.
Qed.

Lemma add_local_creates objectPath canonical initial a a' paths :
  (∀ m, range m ≡ₚ map_to_list m) → table_path canonical → Forall (fun p => plain (mPath p)) AllDeviceParams →
  Forall (fun f => plain (Path f)) (match initial with Some m => Fields m | None => [] end) →
  (∀ iv u, max_instance range (values a) canonical iv u < 2 ^ 63 - 1) →
  add_local objectPath canonical initial a = (a', Ok paths) →
  ∃ iv actual, paths = [actual] ∧ (∀ k f, values a !! k = Some f → extractActualObjectPath canonical k ≠ Some actual) ∧
    (∀ k, values a' !! k ≠ values a !! k →
       extractActualObjectPath canonical k = Some actual ∨ k ++ [dot] = actual ∨ objectCountParamPath canonical = Some k) ∧
    ∀ prm, prm ∈ AllDeviceParams → HasPrefix (mPath prm) canonical = true →
      is_Some (values a' !! materializePathForInstance (mPath prm) canonical iv) ∧ actual ∈ instancePathsForObject range (values a') canonical.
Proof.
  intros Hrange Ht Hp Hi Hmax Hadd. apply add_local_stores in Hadd as (iv & actual & fields & -> & (request & Hn) & Hf & Hv); [|done].
  exists iv, actual. pose proof Ht as (Hg & Hnum & _).
  destruct (next_instance_segments range (values a) request canonical iv actual Hn Hg Hnum Hmax) as (Hiv & _ & Hl).
  assert (actual = instance_path canonical iv) as -> by (by apply next_instance_shape in Hn as (? & ? & _ & _ & _ & ->)).
  destruct (add_fields canonical iv _ fields Ht Hp Hiv Hl Hi Hf) as [Hs Hall]. set (l := sort_fields (range fields).*2) in *.
  assert (Hin : ∀ f, f ∈ l ↔ fields !! Path f = Some f).
  { intros f. unfold l. rewrite sort_fields_perm, list_elem_of_fmap. split.
    - intros ([k g] & -> & Hk). rewrite Hrange, elem_of_map_to_list in Hk. cbn [snd]. by destruct (Hs k g Hk) as [-> _].
    - intros Hk. exists (Path f, f). by rewrite Hrange, elem_of_map_to_list. }
  split_and!; [done|intros k f; by eapply next_instance_fresh| |].
  - intros k Hk. destruct (decide (k ∈ (fun f => TrimSpace (Path f)) <$> (trim_field <$> l))) as [He|He].
    2:{ right; right. apply (count_changes canonical (with_values a (store_all (values a) (trim_field <$> l)))). rewrite <- Hv. cbn [values with_values]. by rewrite store_all_other. }
    apply list_elem_of_fmap in He as (g & -> & (f & -> & Hfl)%list_elem_of_fmap). apply Hin in Hfl. destruct (Hs _ _ Hfl) as (_ & Hpl & Hof).
    cbn [trim_field Path]. rewrite !TrimSpace_graphic by (by rewrite ?TrimSpace_graphic). destruct Hof as [?|?]; [by left|right; by left].
  - intros prm Hprm Hpre. specialize (Hall prm Hprm Hpre). apply elem_of_dom in Hall as [f Hfk]. destruct (Hs _ _ Hfk) as (Hpath & Hpl & _).
    set (k := materializePathForInstance (mPath prm) canonical iv) in *.
    assert (is_Some (values a' !! k)) as Hst.
    { rewrite Hv. apply count_keeps. cbn [values with_values]. destruct (store_all_dom (trim_field <$> l) (values a)) as [_ Hd].
      assert (TrimSpace (Path (trim_field f)) = k) as <- by (cbn [trim_field Path]; rewrite Hpath, !TrimSpace_graphic; [done|done|by rewrite TrimSpace_graphic]).
      apply Hd, list_elem_of_fmap. exists f. split; [done|]. apply Hin. by rewrite Hpath. }
    split; [done|]. destruct Hst as [g Hg']. eapply instance_listed; [done|done|].
    apply (schema_param_path canonical Ht iv Hiv Hl (mPath prm) Hpre). rewrite Forall_forall in Hp. by apply Hp.
Qed.

Lemma add_check_table objectPath canonical : add_check AllDeviceObjects objectPath = Ok canonical →
  ∃ o, o ∈ AllDeviceObjects ∧ oMultiInstance o = true ∧ oPath o = canonical.
Proof.
  unfold add_check. destruct (_ || _); [done|]. destruct (lookupObjectDefinition _ _) as [[o c]|] eqn:Hl; [|done].
  destruct (oMultiInstance o) eqn:Hm; [|done]. cbn [negb]. destruct (_ =? 0)%nat; [done|]. destruct (_ <? _)%nat; [done|]. intros [= <-]. exists o.
  unfold lookupObjectDefinition in Hl. destruct (find _ AllDeviceObjects) as [o1|] eqn:Hf.
  - injection Hl as -> <-. apply find_some in Hf as [Hin Hp%bool_decide_eq_true]. by rewrite list_elem_of_In.
  - clear Hf. destruct (find _ AllDeviceObjects) as [o2|] eqn:Hf; [|done]. injection Hl as -> <-.
    apply find_some in Hf as [Hin [_ Hp%bool_decide_eq_true]%andb_true_iff]. by rewrite list_elem_of_In.
Qed.

(** Add creates a new instance and touches nothing else.  When the agent
    itself adds an instance of a multi-instance object, it returns one path that no
    stored field belonged to; afterwards GetInstances of the object lists it (if
    the object has parameters), every parameter the schema has for the object is
    stored, and the only stored paths that changed are the instance's own and the
    object's entry count. *)
Theorem add_creates_instance objectPath initial a a' paths :
  (∀ m, range m ≡ₚ map_to_list m) → (∀ o, o ∈ AllDeviceObjects → oMultiInstance o = true → table_path (oPath o)) →
  Forall (fun p => plain (mPath p)) AllDeviceParams → xSet P = None ∨ xAdd P = None →
  Forall (fun f => plain (Path f)) (match initial with Some m => Fields m | None => [] end) →
  (∀ canonical iv u, max_instance range (values a) canonical iv u < 2 ^ 63 - 1) →
  Add P AllDeviceObjects AllDeviceParams fill range srange mrange objectPath initial a = (a', Ok paths) →
  ∃ canonical iv actual, add_check AllDeviceObjects (TrimSpace objectPath) = Ok canonical ∧ paths = [actual] ∧
    (∀ k f, values a !! k = Some f → extractActualObjectPath canonical k ≠ Some actual) ∧
    (∀ k, values a' !! k ≠ values a !! k →
       extractActualObjectPath canonical k = Some actual ∨ k ++ [dot] = actual ∨ objectCountParamPath canonical = Some k) ∧
    ∀ prm, prm ∈ AllDeviceParams → HasPrefix (mPath prm) canonical = true →
      is_Some (values a' !! materializePathForInstance (mPath prm) canonical iv) ∧ actual ∈ instancePathsForObject range (values a') canonical.
Proof.
  intros Hrange Htab Hp Hx Hi Hmax Hadd. unfold Add in Hadd. destruct (add_check AllDeviceObjects (TrimSpace objectPath)) as [canonical|e|] eqn:Hc; [|done|done].
  exists canonical. apply add_check_table in Hc as (o & Ho & Hm & <-).
  assert (add_local (TrimSpace objectPath) (oPath o) initial a = (a', Ok paths)) as Hl by (destruct Hx as [Hx|Hx]; rewrite Hx in Hadd; [done|by destruct (xSet P)]).
  destruct (add_local_creates _ _ _ _ _ _ Hrange (Htab o Ho Hm) Hp Hi (Hmax (oPath o)) Hl) as (iv & actual & Hrest). by exists iv, actual.
Qed.
End Claim.

(** ** Witness *)

#[local] Existing Instance demo_schema.

Lemma demo_table o : o ∈ wifi_objects → oMultiInstance o = true → table_path (oPath o).
Proof.
  unfold wifi_objects. intros ->%list_elem_of_singleton _. split_and!.
  - apply (bool_decide_unpack _). vm_compute. exact I.
  - apply (bool_decide_unpack _). vm_compute. exact I.
  - exists (bs "Device.WiFi.SSID"). reflexivity.
Qed.
Lemma demo_max canonical iv u : max_instance map_to_list (values quiet_agent) canonical iv u < 2 ^ 63 - 1.
Proof. reflexivity. Qed.

Lemma demo_added : ∃ a', Add recorder wifi_objects wifi_params demo_fill map_to_list map_to_list map_to_list (bs "Device.WiFi.SSID.") None quiet_agent
  = (a', Ok [bs "Device.WiFi.SSID.1."]).
Proof.
  assert (match (Add recorder wifi_objects wifi_params demo_fill map_to_list map_to_list map_to_list (bs "Device.WiFi.SSID.") None quiet_agent).2 with
          | Ok paths => bool_decide (paths = [bs "Device.WiFi.SSID.1."]) | _ => false end = true) as Hc by vm_refl.
  destruct (Add _ _ _ _ _ _ _ _ _ _) as [a' [paths| |]]; [|done|done]. exists a'. by apply bool_decide_eq_true in Hc as ->.
Qed.
Lemma add_creates_instance_witness :
  ∃ a' canonical, Add recorder wifi_objects wifi_params demo_fill map_to_list map_to_list map_to_list (bs "Device.WiFi.SSID.") None quiet_agent
      = (a', Ok [bs "Device.WiFi.SSID.1."]) ∧ bs "Device.WiFi.SSID.1." ∈ instancePathsForObject map_to_list (values a') canonical.
Proof.
  destruct demo_added as [a' E].
  destruct (add_creates_instance recorder wifi_objects wifi_params demo_fill map_to_list map_to_list map_to_list
    (bs "Device.WiFi.SSID.") None quiet_agent a' [bs "Device.WiFi.SSID.1."]) as (canonical & iv & actual & Hc & Hp & _ & _ & Hall).
  - done.
  - exact demo_table.
  - apply (bool_decide_unpack _). vm_compute. exact I.
  - by left.
  - constructor.
  - exact demo_max.
  - exact E.
  - injection Hp as <-. exists a', canonical. split; [exact E|].
    apply (Hall (MkParam (bs "Device.WiFi.SSID.{i}.Enable") (bs "boolean") [] [] [] no_limits)); [by left|].
    vm_compute in Hc. injection Hc as <-. vm_compute. reflexivity.
Defined.
