(* ===== verification/ControlResult.v ===== *)
(** * Control results

    src/internal/wusp/control_result.go: the machine-readable outcome that every
    response carries in its metadata, how it is derived from a response and from
    the text of an error, and how the controller reads it. *)

From S2P Require Import Prelude GoStr Wire Codec Fragments ReadReplay Transport Request DeviceModel UspEvents UspStore.

Definition ControlResultPending : bytes := bs "pending".
Definition ControlResultSuccess : bytes := bs "success".
Definition ControlResultError : bytes := bs "error".
Definition ControlCodeOK : bytes := bs "WUSP_OK".
Definition ControlCodeOperationAccepted : bytes := bs "WUSP_OPERATION_ACCEPTED".
Definition ControlCodeOperationSuccess : bytes := bs "WUSP_OPERATION_SUCCEEDED".
Definition ControlCodeDeviceRejected : bytes := bs "WUSP_DEVICE_REJECTED".
Definition ControlCodeInvalidRequest : bytes := bs "WUSP_INVALID_REQUEST".
Definition ControlCodeUnsupported : bytes := bs "WUSP_UNSUPPORTED".
Definition ControlCodeAgentTimeout : bytes := bs "WUSP_AGENT_TIMEOUT".
Definition ControlCodeAgentError : bytes := bs "WUSP_AGENT_ERROR".
Definition MetadataKeyResultState : bytes := bs "wusp.result.state".
Definition MetadataKeyResultCode : bytes := bs "wusp.result.code".
Definition MetadataKeyResultMessage : bytes := bs "wusp.result.message".
Definition MetadataKeyResultRequestID : bytes := bs "wusp.result.request_id".
Definition MetadataKeyResultRetryable : bytes := bs "wusp.result.retryable".

Record ControlResult := MkResult { crState : bytes; crCode : bytes; crMessage : bytes; crRequestID : Z; crRetryable : bool }.

Definition FormatBool (b : bool) : bytes := if b then bs "true" else bs "false".
(** The value strconv.ParseBool returns beside its error. *)
Definition ParseBool_value (s : bytes) : bool :=
  existsb (fun t => bool_decide (s = bs t)) ["1"; "t"; "T"; "TRUE"; "true"; "True"]%string.

Definition WithControlResult (m : metadata) (result : ControlResult) : metadata :=
  <[MetadataKeyResultRetryable := FormatBool (crRetryable result)]>
    (<[MetadataKeyResultRequestID := FormatUint (crRequestID result)]>
       (<[MetadataKeyResultMessage := TrimSpace (crMessage result)]>
          (<[MetadataKeyResultCode := TrimSpace (crCode result)]>
             (<[MetadataKeyResultState := crState result]> (CloneMetadata m))))).
Definition ControlResultFromMetadata (m : metadata) : option ControlResult :=
  let state := TrimSpace (md_get m MetadataKeyResultState) in
  if negb (bool_decide (state = ControlResultPending)) && negb (bool_decide (state = ControlResultSuccess)) && negb (bool_decide (state = ControlResultError))
  then None
  else Some (MkResult state (TrimSpace (md_get m MetadataKeyResultCode)) (TrimSpace (md_get m MetadataKeyResultMessage))
               (ParseUint_value (TrimSpace (md_get m MetadataKeyResultRequestID)) 64)
               (ParseBool_value (TrimSpace (md_get m MetadataKeyResultRetryable)))).

Section Results.
Context `{UnicodeCase} `{Schema}.

Definition bare_request (method : Z) : USPAgentRequest :=
  {| qID := 0; qMethod := method; qPaths := []; qPathCodes := []; qPathInstances := []; qObjectPath := []; qObjectCode := 0;
     qObjectInstances := []; qMessage := None; qTransfer := None; qMetadata := ∅ |}.
Definition classifyAgentError (requestID method : Z) (message : bytes) : ControlResult :=
  let lower := ToLower (TrimSpace message) in
  let result state code retryable := MkResult state code (TrimSpace message) requestID retryable in
  if Contains lower (bs "deadline exceeded") || Contains lower (bs "timed out") || Contains lower (bs "timeout") then
    result (if ShouldQueueUSPRequest (bare_request method) then ControlResultPending else ControlResultError) ControlCodeAgentTimeout true
  else if Contains lower (bs "unsupported") then result ControlResultError ControlCodeUnsupported false
  else if Contains lower (bs "invalid") || Contains lower (bs "missing") || Contains lower (bs "required")
       then result ControlResultError ControlCodeInvalidRequest false
  else result ControlResultError ControlCodeAgentError false.

Definition status_step (acc : bytes * bytes) (f : Field) : bytes * bytes :=
  let path := TrimSpace (Path f) in
  if HasSuffix path (bs ".LastOperationStatus") || HasSuffix path (bs ".LastCommandStatus") then (TrimSpace (ValueToString (Val f)), acc.2)
  else if HasSuffix path (bs ".LastOperationMessage") || HasSuffix path (bs ".LastCommandOutput") then (acc.1, TrimSpace (ValueToString (Val f)))
  else acc.
Definition operationStatus (msg : option Message) : bytes * bytes :=
  match msg with None => ([], []) | Some m => foldl status_step ([], []) (Fields m) end.

Definition agentControlResult (requestID : Z) (resp : USPAgentResponse) : ControlResult :=
  if negb (length (TrimSpace (pError resp)) =? 0)%nat then classifyAgentError requestID (pMethod resp) (pError resp) else
  let '(status, message) := operationStatus (pMessage resp) in
  let status := ToLower status in
  if bool_decide (status = bs "pending") then MkResult ControlResultPending ControlCodeOperationAccepted message requestID false
  else if bool_decide (status = bs "error") then MkResult ControlResultError ControlCodeDeviceRejected message requestID false
  else if bool_decide (status = bs "success") then MkResult ControlResultSuccess ControlCodeOperationSuccess message requestID false
  else MkResult ControlResultSuccess ControlCodeOK [] requestID false.

(** A response with other identity and metadata. *)
Definition with_identity (resp : USPAgentResponse) (id method : Z) (m : metadata) : USPAgentResponse :=
  {| pID := id; pMethod := method; pPaths := pPaths resp; pPathCodes := pPathCodes resp; pPathInstances := pPathInstances resp;
     pObjectPath := pObjectPath resp; pObjectCode := pObjectCode resp; pObjectInstances := pObjectInstances resp; pMessage := pMessage resp;
     pTransfer := pTransfer resp; pMetadata := m; pSupportedDataModel := pSupportedDataModel resp; pProtocol := pProtocol resp; pError := pError resp |}.
Definition FinalizeAgentResponse (req : USPAgentRequest) (resp : USPAgentResponse) : USPAgentResponse :=
  let resp := with_identity resp (qID req) (qMethod req) (pMetadata resp) in
  let m := CloneMetadata (pMetadata resp) in
  let m := match RequestSequence (qMetadata req) with Some sequence => WithResponseSequence m sequence | None => m end in
  match ControlResultFromMetadata m with
  | Some _ => with_identity resp (qID req) (qMethod req) m
  | None => with_identity resp (qID req) (qMethod req) (WithControlResult m (agentControlResult (qID req) resp))
  end.
End Results.
