(* ===== verification/ControlResultProps.v ===== *)
(** * Properties of control results

    Results survive the metadata, every finalized response carries one that
    matches it, and a missing path whose name contains the word timeout is
    reported as a timeout. *)

From S2P Require Import Prelude GoStr Wire Codec Fragments ReadReplay Transport Request DeviceModel DeviceModelProps UspEvents UspStore UspStoreProps UspAgent UspAgentProps UspAddProps ControlResult.

Definition result_state (s : bytes) : Prop := s = ControlResultPending ∨ s = ControlResultSuccess ∨ s = ControlResultError.

Lemma md_get_insert_eq (m : metadata) k v : md_get (<[k := v]> m) k = v.
Proof. unfold md_get. by rewrite lookup_insert_eq. Qed.
Lemma md_get_insert_ne (m : metadata) k k' v : k ≠ k' → md_get (<[k := v]> m) k' = md_get m k'.
Proof. intros Hne. unfold md_get. by rewrite lookup_insert_ne. Qed.
Ltac md_read := repeat first [rewrite md_get_insert_eq | rewrite md_get_insert_ne by done].

Lemma result_stored m r : result_state (crState r) → 0 ≤ crRequestID r < 2 ^ 64 →
  ControlResultFromMetadata (WithControlResult m r) =
    Some (MkResult (crState r) (TrimSpace (TrimSpace (crCode r))) (TrimSpace (TrimSpace (crMessage r))) (crRequestID r) (crRetryable r)).
Proof.
  intros Hs Hid. unfold ControlResultFromMetadata, WithControlResult, CloneMetadata. cbv zeta. md_read.
  rewrite TrimSpace_FormatUint by lia. rewrite (ParseUint_value_ok _ _ (crRequestID r)) by (apply ParseUint_FormatUint; lia).
  assert (TrimSpace (crState r) = crState r) as -> by (by destruct Hs as [-> | [-> | ->]]).
  assert (ParseBool_value (TrimSpace (FormatBool (crRetryable r))) = crRetryable r) as -> by (by destruct (crRetryable r)).
  by destruct Hs as [-> | [-> | ->]].
Qed.

(** Results survive the metadata.  A control result with one of the three
    states, a 64-bit request identifier and trimmed texts, stored in any metadata,
    is read back as it was, and the other metadata is kept. *)
Theorem control_result_roundtrip m r :
  result_state (crState r) → 0 ≤ crRequestID r < 2 ^ 64 → TrimSpace (crCode r) = crCode r → TrimSpace (crMessage r) = crMessage r →
  ControlResultFromMetadata (WithControlResult m r) = Some r ∧
  ∀ k, k ∉ [MetadataKeyResultState; MetadataKeyResultCode; MetadataKeyResultMessage; MetadataKeyResultRequestID; MetadataKeyResultRetryable] →
    WithControlResult m r !! k = m !! k.
Proof.
  intros Hs Hid Hc Hm. split.
  - rewrite result_stored, !Hc, !Hm by done. by destruct r.
  - intros k Hk. rewrite !not_elem_of_cons in Hk. destruct Hk as (? & ? & ? & ? & ? & _). unfold WithControlResult. by rewrite !lookup_insert_ne.
Qed.

Section Finalize.
Context `{UnicodeCase} `{Schema}.

Lemma classified_state id method message :
  crState (classifyAgentError id method message) ∈ [ControlResultPending; ControlResultError] ∧ crRequestID (classifyAgentError id method message) = id.
Proof.
  unfold classifyAgentError. cbv zeta. destruct (_ || _ || _); [destruct (ShouldQueueUSPRequest _)|destruct (Contains _ _); [|destruct (_ || _ || _)]];
    cbn [crState crRequestID]; split; (by left) || (by right; left) || done.
Qed.
Lemma agent_result_state id resp :
  let r := agentControlResult id resp in
  result_state (crState r) ∧ crRequestID r = id ∧ (blank (pError resp) = false → crState r ≠ ControlResultSuccess).
Proof.
  unfold agentControlResult, blank. destruct (length (TrimSpace (pError resp)) =? 0)%nat; cbn [negb].
  - destruct (operationStatus (pMessage resp)) as [status message]. unfold result_state.
    destruct (bool_decide _); [|destruct (bool_decide _); [|destruct (bool_decide _)]]; cbn [crState crRequestID]; split_and!; try done; auto.
  - destruct (classified_state id (pMethod resp) (pError resp)) as [Hs ->]. unfold result_state.
    apply elem_of_cons in Hs as [-> | ->%list_elem_of_singleton]; split_and!; auto; done.
Qed.

Lemma sequence_bounds m s : RequestSequence m = Some s → 0 < s < 2 ^ 64.
Proof.
  unfold RequestSequence, parseMetadataUint. destruct (_ =? 0)%nat; [done|]. destruct (_ =? 0)%nat; [done|].
  destruct (ParseUint _ 64) as [n|] eqn:Hp; [|done]. apply ParseUint_range in Hp; [|lia]. destruct (Z.eqb_spec n 0); [done|]. intros [= <-]. lia.
Qed.
Lemma sequence_read (m : metadata) s : 0 < s < 2 ^ 64 → m !! MetadataKeyResponseSequence = Some (FormatUint s) → ResponseSequence m = Some s.
Proof.
  intros Hs Hm. unfold ResponseSequence, parseMetadataUint, md_get. rewrite Hm. change (default [] (Some (FormatUint s))) with (FormatUint s). cbv zeta.
  rewrite (proj2 (Nat.eqb_neq (size m) 0)) by (intros Hz%map_size_empty_iff; by rewrite Hz, lookup_empty in Hm).
  rewrite TrimSpace_FormatUint by lia. rewrite (proj2 (Nat.eqb_neq (length (FormatUint s)) 0)) by (pose proof (FormatUint_nonempty s); by destruct (FormatUint s)).
  rewrite ParseUint_FormatUint by lia. by rewrite (proj2 (Z.eqb_neq s 0)) by lia.
Qed.

(** What finalizing leaves of a response. *)
Definition same_content (a b : USPAgentResponse) : Prop :=
  pPaths a = pPaths b ∧ pPathCodes a = pPathCodes b ∧ pPathInstances a = pPathInstances b ∧ pObjectPath a = pObjectPath b ∧ pObjectCode a = pObjectCode b ∧
  pObjectInstances a = pObjectInstances b ∧ pMessage a = pMessage b ∧ pTransfer a = pTransfer b ∧ pSupportedDataModel a = pSupportedDataModel b ∧
  pProtocol a = pProtocol b ∧ pError a = pError b.

(** The metadata a response is finalized with. *)
Definition sequenced (req : USPAgentRequest) (m : metadata) : metadata :=
  match RequestSequence (qMetadata req) with Some sequence => WithResponseSequence m sequence | None => m end.
Lemma finalize_eq req resp : ControlResultFromMetadata (pMetadata resp) = None →
  FinalizeAgentResponse req resp = with_identity resp (qID req) (qMethod req)
    (WithControlResult (sequenced req (pMetadata resp)) (agentControlResult (qID req) (with_identity resp (qID req) (qMethod req) (pMetadata resp)))).
Proof.
  intros Hnone. unfold FinalizeAgentResponse, CloneMetadata. cbv zeta. cbn [with_identity pMetadata]. fold (sequenced req (pMetadata resp)).
  assert (ControlResultFromMetadata (sequenced req (pMetadata resp)) = None) as ->; [|done].
  assert (md_get (sequenced req (pMetadata resp)) MetadataKeyResultState = md_get (pMetadata resp) MetadataKeyResultState) as Hm.
  { unfold sequenced, WithResponseSequence. destruct (RequestSequence _) as [s|]; [|done]. destruct (s =? 0); [done|]. by apply md_get_insert_ne. }
  unfold ControlResultFromMetadata in *. cbv zeta in *. rewrite Hm. destruct (negb _ && negb _ && negb _); [done|discriminate].
Qed.
Lemma request_metadata_none req : ControlResultFromMetadata (ResponseMetadataForRequest req) = None.
Proof.
  assert (md_get (ResponseMetadataForRequest req) MetadataKeyResultState = []) as Hm; [|unfold ControlResultFromMetadata; cbv zeta; by rewrite Hm].
  unfold ResponseMetadataForRequest, WithResponseSequence, CloneMetadata. destruct (RequestSequence _) as [s|]; [|done]. destruct (s =? 0); [done|]. by rewrite md_get_insert_ne.
Qed.

Lemma finalized req resp :
  0 ≤ qID req < 2 ^ 64 → ControlResultFromMetadata (pMetadata resp) = None →
  let out := FinalizeAgentResponse req resp in
  pID out = qID req ∧ pMethod out = qMethod req ∧ same_content out resp ∧
  (∃ r, ControlResultFromMetadata (pMetadata out) = Some r ∧ crRequestID r = qID req ∧ (blank (pError resp) = false → crState r ≠ ControlResultSuccess)) ∧
  ∀ s, RequestSequence (qMetadata req) = Some s → ResponseSequence (pMetadata out) = Some s.
Proof.
  intros Hid Hnone. cbv zeta. rewrite finalize_eq by done. set (resp' := with_identity resp (qID req) (qMethod req) (pMetadata resp)).
  destruct (agent_result_state (qID req) resp') as (Hst & Hrid & Herr). split_and!; try done.
  - eexists. split; [apply result_stored; [done|by rewrite Hrid]|]. by split.
  - intros s Hs. apply sequence_bounds in Hs as Hb. apply sequence_read; [done|]. cbn [with_identity pMetadata]. unfold WithControlResult, CloneMetadata, sequenced.
    rewrite Hs, !lookup_insert_ne by done. unfold WithResponseSequence. rewrite (proj2 (Z.eqb_neq s 0)) by lia. apply lookup_insert_eq.
Qed.

(** Every response reports how the request ended.  Finalizing a response that
    has no result yet keeps its content, gives it the request's identifier, method
    and sequence number, and adds a result of that request; a response with an
    error is never reported as a success. *)
Theorem finalized_response_reports req resp :
  0 ≤ qID req < 2 ^ 64 → ControlResultFromMetadata (pMetadata resp) = None →
  let out := FinalizeAgentResponse req resp in
  pID out = qID req ∧ pMethod out = qMethod req ∧ same_content out resp ∧
  (∃ r, ControlResultFromMetadata (pMetadata out) = Some r ∧ crRequestID r = qID req ∧ (blank (pError resp) = false → crState r ≠ ControlResultSuccess)) ∧
  ∀ s, RequestSequence (qMetadata req) = Some s → ResponseSequence (pMetadata out) = Some s.
Proof. apply finalized. Qed.
End Finalize.

(** ** A missing path that looks like a timeout *)

Lemma Contains_app a b p : Contains b p = true → Contains (a ++ b) p = true.
Proof. intros Hb. induction a as [|c a IH]; [done|]. cbn [app Contains]. rewrite IH. by rewrite orb_true_r. Qed.

Section Missing.
Context `{UnicodeCase} `{Schema} {B : Type} (P : Platform B).
Context (AllDeviceObjects : list Object) (AllDeviceParams : list Param).
Context (fill : Param → nat → Value).
Context (rootVersion : bytes) (models : list BroadbandDataModel).
Context (range : store → list (bytes * Field)) (srange : gmap bytes USPSubscription → list (bytes * USPSubscription)).
Context (mrange : metadata → list (bytes * bytes)).
Context (wire_text : werr → bytes).

Definition not_found_text (p : bytes) : bytes := bs "wusp: path not found: " ++ p.
Lemma not_found_trim p : plain p → p ≠ [] → TrimSpace (not_found_text p) = not_found_text p.
Proof.
  intros Hg Hne. destruct (exists_last Hne) as (q & d & ->). apply Forall_app in Hg as [_ [Hd _]%Forall_cons].
  apply (TrimSpace_ends (z2b 119) (bs "usp: path not found: " ++ q) d); done.
Qed.
Lemma not_found_classified id method p : plain p → p ≠ [] → Contains (ToLower p) (bs "timeout") = true → IsWUSPActionMethod method = true →
  classifyAgentError id method (not_found_text p) = MkResult ControlResultPending ControlCodeAgentTimeout (not_found_text p) id true.
Proof.
  intros Hg Hne Ht Hm. pose proof (not_found_trim p Hg Hne) as Htrim.
  assert (ascii p = true ∧ ascii (not_found_text p) = true) as [Hap Han].
  { assert (ascii p = true) as Hap by (by apply graphic_ascii). split; [done|]. unfold ascii, not_found_text. rewrite forallb_app. by apply andb_true_iff. }
  unfold classifyAgentError. cbv zeta. rewrite Htrim. unfold ToLower in *. rewrite Hap in Ht. rewrite Han.
  assert (Contains (lower_byte <$> not_found_text p) (bs "timeout") = true) as ->.
  { unfold not_found_text. rewrite fmap_app. by apply Contains_app. }
  rewrite orb_true_r. unfold ShouldQueueUSPRequest. cbn [bare_request qMethod]. by rewrite Hm.
Qed.

Lemma delete_missing req (a : Agent B) p :
  xSet P = None → qMethod req = USPAgentMethodDelete → qPaths (resolveFastRequestPaths req) = [p] →
  plain p → p ≠ [] → isObjectPath p = false → values a !! p = None →
  ∃ resp, HandleRequest P AllDeviceObjects AllDeviceParams fill rootVersion models range srange mrange (Error wire_text) true req a = (a, Ok resp) ∧
    pMetadata resp = ResponseMetadataForRequest req ∧ pError resp = not_found_text p.
Proof.
  intros Hset Hm Hp Hg Hne Ho Hv. unfold HandleRequest. cbv zeta. change (qMethod (resolveFastRequestPaths req)) with (qMethod req).
  rewrite Hm, Hp. cbn [negb]. rewrite andb_false_r.
  change (USPAgentMethodDelete =? USPAgentMethodGet) with false. change (USPAgentMethodDelete =? USPAgentMethodSet) with false.
  change (USPAgentMethodDelete =? USPAgentMethodAdd) with false. rewrite Z.eqb_refl. change (length [p] =? 0)%nat with false. cbv iota.
  unfold Delete. rewrite Hset. change (length [p] =? 0)%nat with false. cbn [fmap list_fmap]. rewrite TrimSpace_graphic by done. cbn [existsb].
  rewrite (proj2 (Nat.eqb_neq (length p) 0)) by (by destruct p). cbn [orb delete_paths]. unfold deletePathLocked. rewrite Ho, Hv. cbn [negb andb respond].
  eexists. split; [by destruct a|]. done.
Qed.

(** A missing parameter with timeout in its name is reported as pending.
    Deleting a parameter that is not stored, such as
    Device.IPsec.Profile.1.IKEv2DeadPeerDetectionTimeout, leaves the agent
    unchanged and answers path not found; but the result the controller gets says
    that the operation timed out, is pending and may be retried, because the text
    of the error is searched for the word timeout, wherever it stands. *)
Theorem missing_path_reported_pending req (a : Agent B) p :
  xSet P = None → qMethod req = USPAgentMethodDelete → qPaths (resolveFastRequestPaths req) = [p] → 0 ≤ qID req < 2 ^ 64 →
  plain p → p ≠ [] → isObjectPath p = false → values a !! p = None → Contains (ToLower p) (bs "timeout") = true →
  ∃ resp, HandleRequest P AllDeviceObjects AllDeviceParams fill rootVersion models range srange mrange (Error wire_text) true req a = (a, Ok resp) ∧
    pError resp = not_found_text p ∧
    ControlResultFromMetadata (pMetadata (FinalizeAgentResponse req resp)) =
      Some (MkResult ControlResultPending ControlCodeAgentTimeout (not_found_text p) (qID req) true).
Proof.
  intros Hset Hm Hp Hid Hg Hne Ho Hv Ht. destruct (delete_missing req a p) as (resp & Hh & Hmd & Herr); try done. exists resp. split_and!; [done|done|].
  rewrite finalize_eq by (rewrite Hmd; apply request_metadata_none). cbn [with_identity pMetadata].
  unfold agentControlResult. cbn [pError pMethod with_identity]. rewrite Herr, Hm, not_found_trim by done.
  rewrite (proj2 (Nat.eqb_neq (length (not_found_text p)) 0)) by done. cbn [negb]. rewrite not_found_classified by done.
  rewrite result_stored by (try done; by left). cbn [crState crCode crMessage crRequestID crRetryable]. by rewrite !not_found_trim by done.
Qed.
End Missing.

(** ** Witnesses *)

#[local] Existing Instance demo_schema.
#[local] Instance ascii_case : UnicodeCase := {| unicode_ToLower s := s; unicode_EqualFold s t := bool_decide (s = t) |}.
Definition demo_result : ControlResult := MkResult ControlResultError ControlCodeInvalidRequest (bs "set request missing fields") 77 false.
Lemma control_result_roundtrip_witness : ControlResultFromMetadata (WithControlResult {[bs "a" := bs "b"]} demo_result) = Some demo_result.
Proof.
  apply (control_result_roundtrip {[bs "a" := bs "b"]} demo_result).
  - right; right. reflexivity.
  - cbn. lia.
  - vm_compute. reflexivity.
  - vm_compute. reflexivity.
Defined.

Definition timeout_path : bytes := bs "Device.IPsec.Profile.1.IKEv2DeadPeerDetectionTimeout".
Definition delete_timeout : USPAgentRequest := demo_request USPAgentMethodDelete [timeout_path] None.
Definition failed_delete : USPAgentResponse := response 9 USPAgentMethodDelete ∅ [] [] None None None None (bs "wusp: path not found: Device.X").
Lemma finalized_response_reports_witness :
  ∃ r, ControlResultFromMetadata (pMetadata (FinalizeAgentResponse delete_timeout failed_delete)) = Some r ∧ crState r ≠ ControlResultSuccess.
Proof.
  destruct (finalized_response_reports delete_timeout failed_delete) as (_ & _ & _ & (r & Hr & _ & Hs) & _).
  - cbn. lia.
  - vm_compute. reflexivity.
  - exists r. split; [exact Hr|]. apply Hs. vm_compute. reflexivity.
Defined.

Lemma missing_path_reported_pending_witness :
  ∃ resp, HandleRequest recorder wifi_objects wifi_params demo_fill [] [] map_to_list map_to_list map_to_list (Error (fun _ => [])) true delete_timeout quiet_agent
      = (quiet_agent, Ok resp) ∧
    ControlResultFromMetadata (pMetadata (FinalizeAgentResponse delete_timeout resp)) =
      Some (MkResult ControlResultPending ControlCodeAgentTimeout (not_found_text timeout_path) 9 true).
Proof.
  destruct (missing_path_reported_pending recorder wifi_objects wifi_params demo_fill [] [] map_to_list map_to_list map_to_list (fun _ => [])
    delete_timeout quiet_agent timeout_path) as (resp & Hh & _ & Hr).
  - reflexivity.
  - reflexivity.
  - vm_compute. reflexivity.
  - cbn. lia.
  - apply (bool_decide_unpack _). vm_compute. exact I.
  - discriminate.
  - vm_compute. reflexivity.
  - reflexivity.
  - vm_compute. reflexivity.
  - exists resp. split; [exact Hh|exact Hr].
Defined.
