(* ===== verification/UspRuntime.v ===== *)
(** * The runtime's frame dispatcher

    src/internal/agent/usp.go: handleFrameFromPeer and what it uses: which frames
    of which peers reach the agent, the replay cache in front of it, and how
    replies are finalized, encoded, fragmented and sent.  The handler is cut where
    it waits: [frame_arrives] runs until the frame is handled, handed to the
    transfer sessions, waits for another handler's reply or calls the agent;
    [frame_ready], [frame_wait_timeout] and [frame_finish] are what follows.  The
    agent itself runs in a goroutine of its own ([agent_runs]), which the handler
    does not wait for longer than its deadline.  Marking the data model cache as
    watched changes only that cache ([ModelCache]) and is left out.  CallController is cut in the same
    way; calls in flight at the same time have different IDs, so that a channel is
    found by its ID.  A [chan] of capacity one is an optional value. *)

From S2P Require Import Prelude GoStr Wire Codec Fragments ReadReplay Transport Request Stream DeviceModel UspEvents UspStore UspAgent ControlReplay ControlResult.

(** uspRuntimeStats, the counters the dispatcher touches. *)
Inductive stat :=
| inboundFrames | inboundBytes | inboundRequests | inboundResponses | unauthorizedRequests | outboundResponses
| controlResponseReplays | responseFragmentsSent | fragmentedResponses | transferFramesReceived | transferFrameBytesReceived.
#[export] Instance stat_eq_dec : EqDecision stat.
Proof. solve_decision. Defined.

Record uspRuntime (B : Type) := MkRuntime
  { rAgent : Agent B; rCache : ReplayCache; rPending : gmap Z (option USPAgentResponse); rStats : stat → Z; rNextID : Z }.
Arguments MkRuntime {B}. Arguments rAgent {B} u. Arguments rCache {B} u. Arguments rPending {B} u. Arguments rStats {B} u. Arguments rNextID {B} u.

Definition with_agent {B} (r : uspRuntime B) (a : Agent B) : uspRuntime B := MkRuntime a (rCache r) (rPending r) (rStats r) (rNextID r).
Definition with_cache {B} (r : uspRuntime B) (c : ReplayCache) : uspRuntime B := MkRuntime (rAgent r) c (rPending r) (rStats r) (rNextID r).
Definition with_pending {B} (r : uspRuntime B) (p : gmap Z (option USPAgentResponse)) : uspRuntime B := MkRuntime (rAgent r) (rCache r) p (rStats r) (rNextID r).
(** r.stats.s.Add(n) *)
Definition count {B} (r : uspRuntime B) (s : stat) (n : Z) : uspRuntime B :=
  MkRuntime (rAgent r) (rCache r) (rPending r) (fun t => if decide (t = s) then u64 (rStats r t + n) else rStats r t) (rNextID r).

Inductive rterr :=
| RMissingReply (id : Z)
| RUnauthorized (peer : bytes)
| RNoController
| RWire (e : werr)
| RBackend (e : berr).

Definition method_string (m : Z) : bytes :=
  if m =? USPAgentMethodGet then bs "Get" else if m =? USPAgentMethodSet then bs "Set" else if m =? USPAgentMethodAdd then bs "Add"
  else if m =? USPAgentMethodDelete then bs "Delete" else if m =? USPAgentMethodGetInstances then bs "GetInstances"
  else if m =? USPAgentMethodOperate then bs "Operate" else if m =? USPAgentMethodNotify then bs "Notify"
  else if m =? USPAgentMethodGetSupportedDM then bs "GetSupportedDM" else if m =? USPAgentMethodGetSupportedProtocol then bs "GetSupportedProtocol"
  else if m =? USPAgentMethodUpload then bs "Upload" else if m =? USPAgentMethodDownload then bs "Download"
  else bs "Method(" ++ FormatUint m ++ bs ")".
Definition WUSPControlTransportReliable : bytes := bs "wireguard-noise-fragmented-datagram+request-replay-v1".
Definition wuspReadReplayMissMessage : bytes := bs "read replay unavailable".

Section Runtime.
Context `{UnicodeCase} `{Schema} {B : Type} (P : Platform B).
Context (AllDeviceObjects : list Object) (AllDeviceParams : list Param).
Context (fill : Param → nat → Value).
Context (rootVersion : bytes) (models : list BroadbandDataModel).
Context (range : store → list (bytes * Field)) (srange : gmap bytes USPSubscription → list (bytes * USPSubscription)).
Context (mrange : metadata → list (bytes * bytes)).
Context (crange : gmap uspControlReplayKey uspControlReplayEntry → list (uspControlReplayKey * uspControlReplayEntry)).
Context (sha256 : bytes → bytes) (wire_text : werr → bytes).
(** r.controllerPublicKeyHex, set at start. *)
Context (controllerPublicKeyHex : bytes).

Abbreviation runtime := (uspRuntime B).
(** The reply function of a frame, over the state of the platform. *)
Abbreviation replier := (bytes → B → B * res berr ()).

Definition isControllerPeer (peerPublicKeyHex : bytes) : bool :=
  if (length controllerPublicKeyHex =? 0)%nat then false else EqualFold (TrimSpace peerPublicKeyHex) controllerPublicKeyHex.

Fixpoint send_loop (reply : replier) (frames : list bytes) (r : runtime) : runtime * res rterr () :=
  match frames with
  | [] => (r, Ok ())
  | frame :: frames =>
      let '(b, out) := reply frame (platform (rAgent r)) in
      let r := with_agent r (with_platform (rAgent r) b) in
      match out with Ok _ => send_loop reply frames r | Err e => (r, Err (RBackend e)) | Panic => (r, Panic) end
  end.
(** The pacing between frames only takes time. *)
Definition sendControlFrames (reply : option replier) (req : USPAgentRequest) (frames : list bytes) (r : runtime) : runtime * res rterr () :=
  match reply with
  | None => (r, Err (RMissingReply (qID req)))
  | Some reply =>
      let n := length frames in
      let r := count (count r outboundResponses 1) responseFragmentsSent (Z.of_nat n) in
      let r := if (1 <? n)%nat then count r fragmentedResponses 1 else r in
      send_loop reply frames r
  end.
Definition replyControlPayload (reply : option replier) (req : USPAgentRequest) (payload : bytes) (r : runtime) : runtime * res rterr () :=
  match fragmentControlPayload req payload with
  | Ok frames => sendControlFrames reply req frames r
  | Err e => (r, Err (RWire e))
  | Panic => (r, Panic)
  end.
Definition replyControlResponse (reply : option replier) (req : USPAgentRequest) (resp : USPAgentResponse) (r : runtime) : runtime * res rterr () :=
  let resp := FinalizeAgentResponse req resp in
  let resp := if SupportsReadReplay (pMetadata resp) then resp
              else with_identity resp (pID resp) (pMethod resp) (WithReadReplay (pMetadata resp)) in
  match EncodeUSPAgentResponse resp with
  | Ok frame => replyControlPayload reply req frame r
  | Err e => (r, Err (RWire e))
  | Panic => (r, Panic)
  end.

(** A response with an error text. *)
Definition error_reply (req : USPAgentRequest) (m : metadata) (text : bytes) : USPAgentResponse :=
  response (qID req) (qMethod req) m [] [] None None None None text.

Definition dispatchResponse (resp : USPAgentResponse) (r : runtime) : runtime :=
  match rPending r !! pID resp with
  | Some None => with_pending r (<[pID resp := Some resp]> (rPending r))
  | _ => r
  end.

Inductive frame_outcome :=
| Handled (out : res rterr ())
| ToStream (f : USPTransferStreamFrame)
| ToTransfer (req : USPAgentRequest)
| ToWait (req : USPAgentRequest) (key : uspControlReplayKey) (ready : nat)
| ToAgent (req : USPAgentRequest) (ticket : option uspControlReplayTicket).

Definition handled (s : runtime * res rterr ()) : runtime * frame_outcome := (s.1, Handled s.2).
(** The answer to a request that was not begun. *)
Definition replay_refused (reply : option replier) (req : USPAgentRequest) (miss : bool) (text : bytes) (r : runtime) : runtime * res rterr () :=
  let m := ResponseMetadataForRequest req in
  replyControlResponse reply req (error_reply req (if miss then WithReadReplayMiss m else m) text) r.
Definition sequence_of (req : USPAgentRequest) : Z := default 0 (RequestSequence (qMetadata req)).

(** A decoded request. *)
Definition request_arrives (peer : bytes) (req : USPAgentRequest) (reply : option replier) (now : Z) (r : runtime) : runtime * frame_outcome :=
  if negb (isControllerPeer peer) then
    let r := count r unauthorizedRequests 1 in
    match reply with
    | None => (r, Handled (Err (RUnauthorized peer)))
    | Some _ =>
        let '(r, out) := replyControlResponse reply req (error_reply req ∅ (bs "unauthorized")) r in
        (r, Handled (match out with Panic => Panic | _ => Err (RUnauthorized peer) end))
    end
  else match reply with
  | None => (r, Handled (Err (RMissingReply (qID req))))
  | Some _ =>
      if (qMethod req =? USPAgentMethodUpload) || (qMethod req =? USPAgentMethodDownload) then (r, ToTransfer req)
      else if qMethod req =? USPAgentMethodGetSupportedProtocol then
        let p := GetSupportedProtocol in
        let p := MkProtocolInfo (piName p) (piVersion p) (piMethods p) (piCompression p) WUSPControlTransportReliable (piTransferTransport p)
                   (piMaxControlPayload p) (piRecommendedChunkSize p) (piTunnelOnly p) (piReliableTransfer p) in
        handled (replyControlResponse reply req (response (qID req) (qMethod req) ∅ [] [] None None None (Some p) []) r)
      else
        let '(c, begun) := begin_locked sha256 crange (rCache r) peer req now in
        let r := with_cache r c in
        match begun with
        | NotReplayable => (r, ToAgent req None)
        | Execute ticket => (r, ToAgent req (Some ticket))
        | Waiting key ready => (r, ToWait req key ready)
        | FingerprintErr e => handled (replay_refused reply req false (bs "fingerprint WUSP request: " ++ wire_text e) r)
        | FingerprintPanic => (r, Handled Panic)
        | Reused => handled (replay_refused reply req false
            (bs "request identity " ++ FormatUint (qID req) ++ bs "/" ++ FormatUint (sequence_of req) ++ bs " was reused with different action data") r)
        | ReplayMiss => handled (replay_refused reply req true wuspReadReplayMissMessage r)
        | QueueFull => handled (replay_refused reply req false (bs "reliable control queue is full") r)
        end
  end.

Definition frame_arrives (peer data : bytes) (reply : option replier) (now : Z) (r : runtime) : runtime * frame_outcome :=
  if (length data =? 0)%nat then (r, Handled (Ok ())) else
  let size := Z.of_nat (length data) in
  let r := count (count r inboundFrames 1) inboundBytes size in
  match DecodeUSPTransferStreamFrame data with
  | Panic => (r, Handled Panic)
  | Ok f => (count (count r transferFramesReceived 1) transferFrameBytesReceived size, ToStream f)
  | Err _ =>
      match DecodeUSPAgentResponse data with
      | Panic => (r, Handled Panic)
      | Ok resp =>
          let r := count r inboundResponses 1 in
          (if isControllerPeer peer then dispatchResponse resp r else r, Handled (Ok ()))
      | Err _ =>
          match DecodeUSPAgentRequest data with
          | Panic => (r, Handled Panic)
          | Err _ => (r, Handled (Ok ()))
          | Ok req => request_arrives peer req reply now (count r inboundRequests 1)
          end
      end
  end.

(** The original request's reply is there. *)
Definition frame_ready (req : USPAgentRequest) (key : uspControlReplayKey) (reply : option replier) (r : runtime) : runtime * res rterr () :=
  match resume_wait (rCache r) key req with
  | Replay frames =>
      let r := count r controlResponseReplays 1 in
      match ResendFragments (qMetadata req) with
      | Some resend => sendControlFrames reply req (selectControlFrames frames resend) r
      | None => sendControlFrames reply req frames r
      end
  | WaitMiss => replay_refused reply req true wuspReadReplayMissMessage r
  | NoReplayable => replay_refused reply req false (bs "original request " ++ FormatUint (qID req) ++ bs " completed without a replayable response") r
  end.
(** The handler's deadline passes first. *)
Definition frame_wait_timeout (req : USPAgentRequest) (reply : option replier) (r : runtime) : runtime * res rterr () :=
  replay_refused reply req false (bs "wait for original request " ++ FormatUint (qID req) ++ bs ": context deadline exceeded") r.

Definition agent_runs (queued : bool) (req : USPAgentRequest) (r : runtime) : runtime * res aerr USPAgentResponse :=
  let '(a, out) := HandleRequest P AllDeviceObjects AllDeviceParams fill rootVersion models range srange mrange (Error wire_text) queued req (rAgent r) in
  (with_agent r a, out).

(** abortControlReplay of the deferred function, before returning. *)
Definition abandon (ticket : option uspControlReplayTicket) (out : res rterr ()) (r : runtime) : runtime * res rterr () :=
  match abortControlReplay (rCache r) ticket with
  | Ok c => (with_cache r c, out)
  | Err _ => (r, out)
  | Panic => (r, Panic)
  end.
Definition timeout_text (req : USPAgentRequest) : bytes :=
  bs "USP " ++ method_string (qMethod req) ++ bs " request exceeded 5s: context deadline exceeded".
(** What the agent answered, or the error in its place; [None] is the deadline. *)
Definition agent_reply (req : USPAgentRequest) (result : option (res aerr USPAgentResponse)) : res werr USPAgentResponse :=
  match result with
  | None => Ok (error_reply req (ResponseMetadataForRequest req) (timeout_text req))
  | Some (Ok resp) => Ok resp
  | Some (Err e) => Ok (error_reply req (ResponseMetadataForRequest req) (Error wire_text e))
  | Some Panic => Panic
  end.
Definition finished_reply (req : USPAgentRequest) (resp : USPAgentResponse) : USPAgentResponse :=
  let resp := FinalizeAgentResponse req resp in
  with_identity resp (pID resp) (pMethod resp) (WithReadReplay (pMetadata resp)).
Definition fallback_reply (req : USPAgentRequest) (e : werr) : USPAgentResponse :=
  FinalizeAgentResponse req (error_reply req (WithReadReplay (ResponseMetadataForRequest req)) (wire_text e)).
Definition reply_payload (req : USPAgentRequest) (resp : USPAgentResponse) : res werr bytes :=
  match EncodeUSPAgentResponse (finished_reply req resp) with
  | Err e => EncodeUSPAgentResponse (fallback_reply req e)
  | r => r
  end.
Definition frame_finish (req : USPAgentRequest) (ticket : option uspControlReplayTicket) (result : option (res aerr USPAgentResponse))
    (reply : option replier) (now : Z) (r : runtime) : runtime * res rterr () :=
  match (resp ← agent_reply req result; payload ← reply_payload req resp; frames ← fragmentControlPayload req payload; Ok frames) with
  | Err e => abandon ticket (Err (RWire e)) r
  | Panic => abandon ticket Panic r
  | Ok frames =>
      match completeControlReplay crange (rCache r) ticket frames now with
      | Ok c => sendControlFrames reply req frames (with_cache r c)
      | Err e => (r, Err (RWire e))
      | Panic => (r, Panic)
      end
  end.

(** ** Requests to the controller *)

(** CallController until it waits. *)
Definition call_begin (send : bytes → B → B * res berr ()) (req : USPAgentRequest) (r : runtime) : runtime * res rterr Z :=
  if (length controllerPublicKeyHex =? 0)%nat then (r, Err RNoController) else
  let '(r, id) := if qID req =? 0 then (MkRuntime (rAgent r) (rCache r) (rPending r) (rStats r) (u64 (rNextID r + 1)), u64 (rNextID r + 1)) else (r, qID req) in
  let req := {| qID := id; qMethod := qMethod req; qPaths := qPaths req; qPathCodes := qPathCodes req; qPathInstances := qPathInstances req;
                qObjectPath := qObjectPath req; qObjectCode := qObjectCode req; qObjectInstances := qObjectInstances req; qMessage := qMessage req;
                qTransfer := qTransfer req; qMetadata := qMetadata req |} in
  match EncodeUSPAgentRequest req with
  | Err e => (r, Err (RWire e))
  | Panic => (r, Panic)
  | Ok frame =>
      let r := with_pending r (<[id := None]> (rPending r)) in
      let '(b, out) := send frame (platform (rAgent r)) in
      let r := with_agent r (with_platform (rAgent r) b) in
      match out with
      | Ok _ => (r, Ok id)
      | Err e => (with_pending r (delete id (rPending r)), Err (RBackend e))
      | Panic => (r, Panic)
      end
  end.
(** A response is there, or the caller gives up ([None]). *)
Definition call_end (id : Z) (r : runtime) : runtime * option USPAgentResponse :=
  (with_pending r (delete id (rPending r)), mjoin (rPending r !! id)).
End Runtime.
