(* ===== verification/UspRuntimeProps.v ===== *)
(** * Properties of the frame dispatcher

    Only the controller's requests reach the agent, under every interleaving of
    handlers; an executed request is answered by frames from which the controller
    reads a response to it; and two ways in which a frame is not answered. *)

From S2P Require Import Prelude GoStr Wire Codec Fragments ReadReplay Transport Request Stream DeviceModel DeviceModelProps UspEvents UspStore UspStoreProps UspAgent UspAgentProps UspAddProps ControlReplay ControlReplayProps ControlResult ControlResultProps UspRuntime.

(** What replies and counters leave alone. *)
Definition undisturbed {B} (r r' : uspRuntime B) : Prop :=
  quiet (rAgent r) (rAgent r') ∧ nextEventID (rAgent r') = nextEventID (rAgent r) ∧ rCache r' = rCache r ∧ rPending r' = rPending r ∧ rNextID r' = rNextID r.
#[export] Instance undisturbed_preorder {B} : PreOrder (@undisturbed B).
Proof.
  split; [intros r; by split_and!|]. intros a b c (Hq & ? & ? & ? & ?) (Hq' & ? & ? & ? & ?).
  split; [by etransitivity|]. split_and!; congruence.
Qed.
Lemma count_undisturbed {B} (r : uspRuntime B) s n : undisturbed r (count r s n).
Proof. by split_and!. Qed.
Lemma platform_undisturbed {B} (r : uspRuntime B) b : undisturbed r (with_agent r (with_platform (rAgent r) b)).
Proof. by split_and!. Qed.

Lemma control_message_fits n : Z.of_nat n ≤ MaxUSPControlMessageSize → frame_fits n.
Proof. unfold frame_fits, maxAlloc, MaxUSPControlMessageSize. rewrite Z.shiftl_mul_pow2 by done. lia. Qed.

(** ** Responses whose message the receiver refuses *)

Definition fails {A} (m : rd A) (e : bytes) (err : werr) : Prop := ∀ r, frame_fits (length (e ++ r)) → m (e ++ r) = Err err.
Lemma fails_later {A C} (m : rd A) (k : A → rd C) x e1 e2 err : reads m x e1 → fails (k x) e2 err → fails (m ≫= k) (e1 ++ e2) err.
Proof. intros Hm Hk r Hf. unfold mbind, rd_bind. rewrite <- app_assoc in *. rewrite Hm by done. apply Hk. by eapply frame_fits_app. Qed.
Lemma fails_here {A C} (m : rd A) (k : A → rd C) e1 e2 err : fails m e1 err → fails (m ≫= k) (e1 ++ e2) err.
Proof. intros Hm r Hf. unfold mbind, rd_bind. rewrite <- app_assoc in *. by rewrite Hm. Qed.

Section Refused.
Context `{Schema}.
Lemma response_message_fails r msg frame err : pMessage r = Some msg → (0 < length frame)%nat → DecodeMessage frame = Err err →
  fails (read_response {| hVersion := uspTransportVersion; hKind := uspTransportKindResponse; hMethod := pMethod r; hFlags := response_flags r; hID := pID r |})
    (writeString (pError r)
     ++ when (flag_set (response_flags r) 2) (writeStringList (pPaths r))
     ++ when (flag_set (response_flags r) 3) (writeString (pObjectPath r))
     ++ opt_bytes (fun frame => when (0 <? length frame)%nat (writeBytes frame)) (Some frame)
     ++ opt_bytes writeTransferResult (pTransfer r)
     ++ when (flag_set (response_flags r) 4) (writeMetadata (pMetadata r))
     ++ when (flag_set (response_flags r) 7) (writePathSelectors (pPathCodes r) (pPathInstances r)
                                 ++ writePathSelector (pObjectCode r) (pObjectInstances r))
     ++ opt_bytes writeSupportedDataModel (pSupportedDataModel r)
     ++ opt_bytes writeProtocolInfo (pProtocol r)) err.
Proof.
  intros Hm Hl Hd. unfold read_response. cbn [hFlags hMethod hID]. unfold response_flags. eval_flags. rewrite Hm.
  eapply fails_later; [apply reads_string|].
  eapply fails_later; [apply reads_when; [intros _; apply reads_string_list|by destruct (pPaths r)]|].
  eapply fails_later.
  { apply (reads_when _ rString [] (if blank (pObjectPath r) then [] else pObjectPath r)); destruct (blank (pObjectPath r)); try done.
    intros _. apply reads_string. }
  apply fails_here. cbn [opt_bytes rd_when]. rewrite (proj2 (Nat.ltb_lt 0 _)) by done. cbn [when].
  rewrite <- (app_nil_r (writeBytes frame)). eapply fails_later; [apply reads_bytes|].
  intros rest _. unfold mbind, rd_bind, rd_lift, mbind, res_bind. by rewrite Hd.
Qed.

Lemma response_refused r payload msg err : 0 ≤ pID r < 2 ^ 64 → 0 ≤ pMethod r < 256 → pMessage r = Some msg →
  message_ok (ResetAllFieldIDs msg) → ValidateMessageFast (ResetAllFieldIDs msg) = Err err →
  EncodeUSPAgentResponse r = Ok payload → frame_fits (length payload) → DecodeUSPAgentResponse payload = Err err.
Proof.
  intros Hid Hmt Hmsg Hok Hv He Hf. unfold EncodeUSPAgentResponse in He. apply bind_ok in He as ([] & _ & He).
  change (with_resp_message (compactResponseSelectors r) _) with (sent_response r) in He. apply bind_ok in He as (nested & Hn & [= <-]).
  assert (pMessage (sent_response r) = Some (ResetAllFieldIDs msg)) as Hs by (cbn; by rewrite Hmsg).
  unfold nested_frame in Hn. rewrite Hs in Hn. apply bind_ok in Hn as (frame & Hfr & [= <-]).
  destruct (nested_decodes _ frame Hok Hfr) as [Hl Hd].
  pose proof (response_message_fails (sent_response r) _ frame err Hs Hl) as Hfail.
  unfold DecodeUSPAgentResponse, write_response in *. rewrite readHeader_write.
  2:{ split_and!; try done. apply flag_byte_range. simpl. lia. }
  cbn [mbind res_bind hKind]. rewrite Z.eqb_refl. cbn [negb].
  match goal with |- context [read_response _ ?b] => rewrite <- (app_nil_r b) end.
  rewrite Hfail; [done| |rewrite app_nil_r; by eapply frame_fits_app].
  unfold DecodeMessage. rewrite Hd. cbn [mbind res_bind]. by rewrite Hv.
Qed.
End Refused.

Section Dispatcher.
Context `{UnicodeCase} `{Schema} {B : Type} (P : Platform B).
Context (AllDeviceObjects : list Object) (AllDeviceParams : list Param).
Context (fill : Param → nat → Value).
Context (rootVersion : bytes) (models : list BroadbandDataModel).
Context (range : store → list (bytes * Field)) (srange : gmap bytes USPSubscription → list (bytes * USPSubscription)).
Context (mrange : metadata → list (bytes * bytes)).
Context (crange : gmap uspControlReplayKey uspControlReplayEntry → list (uspControlReplayKey * uspControlReplayEntry)).
Context (sha256 : bytes → bytes) (wire_text : werr → bytes).
Context (controllerPublicKeyHex : bytes).

Abbreviation runtime := (uspRuntime B).
Abbreviation replier := (bytes → B → B * res berr ()).
Abbreviation isControllerPeer := (isControllerPeer controllerPublicKeyHex).
Abbreviation frame_arrives := (frame_arrives crange sha256 wire_text controllerPublicKeyHex).
Abbreviation frame_ready := (frame_ready (B:=B)).
Abbreviation frame_finish := (frame_finish crange wire_text).
Abbreviation agent_runs := (agent_runs P AllDeviceObjects AllDeviceParams fill rootVersion models range srange mrange wire_text).
Abbreviation call_begin := (call_begin controllerPublicKeyHex).

(** ** Replies *)

Lemma send_loop_undisturbed (reply : replier) frames : ∀ r : runtime, undisturbed r (send_loop reply frames r).1.
Proof.
  induction frames as [|f frames IH]; intros r; cbn [send_loop]; [done|]. destruct (reply f _) as [b out].
  pose proof (platform_undisturbed r b) as Hp. destruct out; cbn [fst]; [|done|done]. etransitivity; [exact Hp|apply IH].
Qed.
Lemma send_undisturbed (reply : option replier) req frames (r : runtime) : undisturbed r (sendControlFrames reply req frames r).1.
Proof.
  unfold sendControlFrames. destruct reply as [reply|]; [|done]. etransitivity; [|apply send_loop_undisturbed].
  destruct (_ <? _)%nat; by split_and!.
Qed.
Lemma reply_undisturbed (reply : option replier) req resp (r : runtime) : undisturbed r (replyControlResponse reply req resp r).1.
Proof.
  unfold replyControlResponse, replyControlPayload. cbv zeta. destruct (EncodeUSPAgentResponse _); [|done|done].
  destruct (fragmentControlPayload _ _); [apply send_undisturbed|done|done].
Qed.
Lemma refused_undisturbed (reply : option replier) req miss text (r : runtime) : undisturbed r (replay_refused reply req miss text r).1.
Proof. apply reply_undisturbed. Qed.

(** ** Arriving frames *)

(** What a decoded request may do before it is handed on. *)
Definition arrived (peer : bytes) (req : USPAgentRequest) (now : Z) (r r' : runtime) : Prop :=
  quiet (rAgent r) (rAgent r') ∧ nextEventID (rAgent r') = nextEventID (rAgent r) ∧ rPending r' = rPending r ∧ rNextID r' = rNextID r ∧
  (rCache r' = rCache r ∨ ∃ o, isControllerPeer peer = true ∧ begin_locked sha256 crange (rCache r) peer req now = (rCache r', o)).
Lemma arrived_undisturbed peer req now r r' : undisturbed r r' → arrived peer req now r r'.
Proof. intros (? & ? & ? & ? & ?). split; [done|]. split_and!; try done. by left. Qed.
Lemma arrived_begun peer req now (r r' : runtime) c o : isControllerPeer peer = true → begin_locked sha256 crange (rCache r) peer req now = (c, o) →
  undisturbed (with_cache r c) r' → arrived peer req now r r'.
Proof. intros Hc Hb (Hq & ? & Hcc & ? & ?). split; [exact Hq|]. split_and!; try done. right. exists o. by rewrite Hcc, Hb. Qed.

Lemma request_cases peer req reply now (r : runtime) :
  let '(r', out) := request_arrives crange sha256 wire_text controllerPublicKeyHex peer req reply now r in
  arrived peer req now r r' ∧
  match out with
  | Handled _ => True
  | ToStream _ => False
  | ToTransfer q | ToWait q _ _ | ToAgent q _ => isControllerPeer peer = true ∧ q = req
  end.
Proof.
  unfold request_arrives. destruct (isControllerPeer peer) eqn:Hc; cbn [negb].
  - destruct reply as [reply|]; [|split; [by apply arrived_undisturbed|done]].
    destruct (_ || _); [split; [by apply arrived_undisturbed|done]|].
    destruct (_ =? _); [split; [apply arrived_undisturbed, reply_undisturbed|done]|].
    destruct (begin_locked sha256 crange (rCache r) peer req now) as [c begun] eqn:Hb.
    assert (∀ r', undisturbed (with_cache r c) r' → arrived peer req now r r') as Hw by (intros r'; by eapply arrived_begun).
    destruct begun; cbn [handled fst snd]; (split; [apply Hw; first [apply refused_undisturbed|reflexivity]|done]).
  - destruct reply as [reply|]; [|split; [apply arrived_undisturbed, count_undisturbed|done]].
    pose proof (reply_undisturbed (Some reply) req (error_reply req ∅ (bs "unauthorized")) (count r unauthorizedRequests 1)) as Hr.
    destruct (replyControlResponse _ _ _ _) as [r' out]. split; [|done]. apply arrived_undisturbed. etransitivity; [apply count_undisturbed|exact Hr].
Qed.

Lemma frame_cases peer data reply now (r : runtime) :
  let '(r', out) := frame_arrives peer data reply now r in
  quiet (rAgent r) (rAgent r') ∧ nextEventID (rAgent r') = nextEventID (rAgent r) ∧ rNextID r' = rNextID r ∧
  (rCache r' = rCache r ∨ ∃ req o, isControllerPeer peer = true ∧ begin_locked sha256 crange (rCache r) peer req now = (rCache r', o)) ∧
  (rPending r' = rPending r ∨ ∃ resp, isControllerPeer peer = true ∧ DecodeUSPAgentResponse data = Ok resp ∧
     rPending r !! pID resp = Some None ∧ rPending r' = <[pID resp := Some resp]> (rPending r)) ∧
  match out with
  | Handled _ => True
  | ToStream f => DecodeUSPTransferStreamFrame data = Ok f
  | ToTransfer q | ToWait q _ _ | ToAgent q _ => isControllerPeer peer = true ∧ DecodeUSPAgentRequest data = Ok q
  end.
Proof.
  unfold UspRuntime.frame_arrives. destruct (_ =? 0)%nat; [by split_and!; [..|left|left|]|]. cbv zeta.
  destruct (DecodeUSPTransferStreamFrame data) as [f|e|]; [by split_and!; [..|left|left|]| |by split_and!; [..|left|left|]].
  destruct (DecodeUSPAgentResponse data) as [resp|e'|] eqn:Hr; [| |by split_and!; [..|left|left|]].
  { destruct (isControllerPeer peer); [|by split_and!; [..|left|left|]]. unfold dispatchResponse. cbn [count rPending].
    destruct (rPending r !! pID resp) as [[x|]|] eqn:Hp; [by split_and!; [..|left|left|]| |by split_and!; [..|left|left|]].
    split_and!; try done; [by left|right; by exists resp]. }
  destruct (DecodeUSPAgentRequest data) as [req|e''|] eqn:Hq; [|by split_and!; [..|left|left|]|by split_and!; [..|left|left|]].
  pose proof (request_cases peer req reply now (count (count (count r inboundFrames 1) inboundBytes (Z.of_nat (length data))) inboundRequests 1)) as Hc.
  destruct (request_arrives _ _ _ _ _ _ _ _ _) as [r' out]. destruct Hc as ((Ha & Hn & Hp & Hi & Hcache) & Hout).
  split; [exact Ha|]. split_and!; try done.
  - destruct Hcache as [?|(o & ? & ?)]; [by left|right; by exists req, o].
  - by left.
  - destruct out; try done; by destruct Hout as [? ->].
Qed.

(** ** Concurrent handlers

    A job is a frame's handler past [frame_arrives]; an orphan is an agent call
    whose handler gave up waiting.  Transfers are handed to the sessions of
    usp_stream.go and leave the system. *)
Inductive task :=
| TWait (key : uspControlReplayKey) (ready : nat)
| TRun (ticket : option uspControlReplayTicket)
| TRan (ticket : option uspControlReplayTicket) (result : res aerr USPAgentResponse)
| TOrphan.
Record job := MkJob { jPeer : bytes; jData : bytes; jReply : option replier; jReq : USPAgentRequest; jTask : task }.
Record system := MkSystem { sRuntime : runtime; sJobs : list job }.

Definition job_of (peer data : bytes) (reply : option replier) (out : frame_outcome) : list job :=
  match out with
  | ToWait req key ready => [MkJob peer data reply req (TWait key ready)]
  | ToAgent req ticket => [MkJob peer data reply req (TRun ticket)]
  | _ => []
  end.
Definition with_task (j : job) (t : task) : job := MkJob (jPeer j) (jData j) (jReply j) (jReq j) t.

Inductive sys_step : system → system → Prop :=
| s_arrive r jobs peer data reply now r' out :
    frame_arrives peer data reply now r = (r', out) → sys_step (MkSystem r jobs) (MkSystem r' (jobs ++ job_of peer data reply out))
| s_ready r l1 j l2 key ready r' out : jTask j = TWait key ready → ready ∈ closed (rCache r) →
    frame_ready (jReq j) key (jReply j) r = (r', out) → sys_step (MkSystem r (l1 ++ j :: l2)) (MkSystem r' (l1 ++ l2))
| s_wait_timeout r l1 j l2 key ready r' out : jTask j = TWait key ready →
    frame_wait_timeout (jReq j) (jReply j) r = (r', out) → sys_step (MkSystem r (l1 ++ j :: l2)) (MkSystem r' (l1 ++ l2))
| s_run r l1 j l2 ticket queued r' result : jTask j = TRun ticket →
    agent_runs queued (jReq j) r = (r', result) → sys_step (MkSystem r (l1 ++ j :: l2)) (MkSystem r' (l1 ++ with_task j (TRan ticket result) :: l2))
| s_finish r l1 j l2 ticket result now r' out : jTask j = TRan ticket result →
    frame_finish (jReq j) ticket (Some result) (jReply j) now r = (r', out) → sys_step (MkSystem r (l1 ++ j :: l2)) (MkSystem r' (l1 ++ l2))
| s_deadline r l1 j l2 ticket now r' out : jTask j = TRun ticket →
    frame_finish (jReq j) ticket None (jReply j) now r = (r', out) → sys_step (MkSystem r (l1 ++ j :: l2)) (MkSystem r' (l1 ++ with_task j TOrphan :: l2))
| s_orphan r l1 j l2 queued r' result : jTask j = TOrphan →
    agent_runs queued (jReq j) r = (r', result) → sys_step (MkSystem r (l1 ++ j :: l2)) (MkSystem r' (l1 ++ l2))
| s_call r jobs send req r' out : call_begin send req r = (r', out) → sys_step (MkSystem r jobs) (MkSystem r' jobs)
| s_return r jobs id r' out : call_end id r = (r', out) → sys_step (MkSystem r jobs) (MkSystem r' jobs).

Definition runtime_init (a : Agent B) : runtime := MkRuntime a cache_empty ∅ (fun _ => 0) 0.

(** Jobs are the controller's, replies to calls are the controller's and belong
    to the call, and the replay cache is reachable by its own operations. *)
Definition job_ok (j : job) : Prop := isControllerPeer (jPeer j) = true ∧ DecodeUSPAgentRequest (jData j) = Ok (jReq j).
Definition pending_ok (p : gmap Z (option USPAgentResponse)) : Prop :=
  ∀ id resp, p !! id = Some (Some resp) → pID resp = id ∧ ∃ peer data, isControllerPeer peer = true ∧ DecodeUSPAgentResponse data = Ok resp.
Definition sys_ok (s : system) : Prop :=
  Forall job_ok (sJobs s) ∧ pending_ok (rPending (sRuntime s)) ∧ rreach sha256 crange (rCache (sRuntime s)).

(** What a handler does besides calling the agent. *)
Definition settled (r r' : runtime) : Prop :=
  quiet (rAgent r) (rAgent r') ∧ rPending r' = rPending r ∧ (rCache r' = rCache r ∨ rstep sha256 crange (rCache r) (rCache r')).
Lemma undisturbed_settled r r' : undisturbed r r' → settled r r'.
Proof. intros (? & ? & ? & ? & ?). split; [done|]. split; [done|by left]. Qed.
Lemma finish_settled req ticket result reply now (r : runtime) : settled r (frame_finish req ticket result reply now r).1.
Proof.
  assert (∀ out, settled r (abandon ticket out r).1) as Hab.
  { intros out. unfold abandon. destruct (abortControlReplay (rCache r) ticket) as [c|e'|] eqn:Ha; [|by apply undisturbed_settled|by apply undisturbed_settled].
    split; [done|]. split; [done|]. right. by eapply RAbort. }
  unfold UspRuntime.frame_finish. destruct (agent_reply wire_text req result ≫= _) as [frames|e|]; [|apply Hab|apply Hab].
   destruct (completeControlReplay crange (rCache r) ticket frames now) as [c|e|] eqn:Hc; [|by apply undisturbed_settled|by apply undisturbed_settled].
    destruct (send_undisturbed reply req frames (with_cache r c)) as (Hq & _ & Hcc & Hp & _). split; [exact Hq|]. split; [done|].
    right. rewrite Hcc. by eapply RComplete.
Qed.
Lemma ready_undisturbed req key reply (r : runtime) : undisturbed r (frame_ready req key reply r).1.
Proof.
  unfold UspRuntime.frame_ready. destruct (resume_wait _ _ _) as [frames| |]; [|apply refused_undisturbed|apply refused_undisturbed].
  destruct (ResendFragments _); (etransitivity; [apply count_undisturbed|apply send_undisturbed]).
Qed.
Lemma call_cases send req (r : runtime) :
  let r' := (call_begin send req r).1 in
  quiet (rAgent r) (rAgent r') ∧ rCache r' = rCache r ∧ (pending_ok (rPending r) → pending_ok (rPending r')).
Proof.
  unfold UspRuntime.call_begin. cbv zeta. destruct (_ =? 0)%nat; [done|].
  set (p := if qID req =? 0 then _ else _). assert (∃ r1 id, p = (r1, id) ∧ rAgent r1 = rAgent r ∧ rCache r1 = rCache r ∧ rPending r1 = rPending r) as (r1 & id & -> & Ha & Hc & Hp).
  { unfold p. destruct (qID req =? 0); [by eexists _, _|by exists r, (qID req)]. }
  destruct (EncodeUSPAgentRequest _); [|cbn [fst]; rewrite Ha, Hc, Hp; by split_and!|cbn [fst]; rewrite Ha, Hc, Hp; by split_and!].
  assert (pending_ok (rPending r) → pending_ok (<[id := None]> (rPending r1))) as Hok.
  { intros Hr i resp [[_ ?]|[_ ?]]%lookup_insert_Some; [done|]. apply Hr. by rewrite <- Hp. }
  destruct (send _ _) as [b [u|e|]]; cbn [fst with_pending with_agent with_platform rAgent rCache rPending]; rewrite <- Ha; (split; [done|]); (split; [done|]); try done.
  intros Hr i resp [_ ?]%lookup_delete_Some. by apply Hok.
Qed.

Lemma cache_moves r r' : rreach sha256 crange r → r' = r ∨ rstep sha256 crange r r' → rreach sha256 crange r'.
Proof. intros Hr [-> | ?]; [done|by eapply rreach_step]. Qed.
Lemma jobs_middle l1 j l2 : Forall job_ok (l1 ++ j :: l2) → job_ok j ∧ Forall job_ok (l1 ++ l2).
Proof. rewrite !Forall_app, Forall_cons. tauto. Qed.
Lemma jobs_replace l1 j l2 t : Forall job_ok (l1 ++ j :: l2) → Forall job_ok (l1 ++ with_task j t :: l2).
Proof. rewrite !Forall_app, !Forall_cons. tauto. Qed.

(** One step: the invariant holds, and the agent changes only by its own run of
    a job's request. *)
Definition agent_call (a a' : Agent B) : Prop :=
  ∃ peer data req queued, isControllerPeer peer = true ∧ DecodeUSPAgentRequest data = Ok req ∧
    a' = (HandleRequest P AllDeviceObjects AllDeviceParams fill rootVersion models range srange mrange (Error wire_text) queued req a).1.
Lemma run_agent queued req (r : runtime) :
  rAgent (agent_runs queued req r).1 = (HandleRequest P AllDeviceObjects AllDeviceParams fill rootVersion models range srange mrange (Error wire_text) queued req (rAgent r)).1 ∧
  rPending (agent_runs queued req r).1 = rPending r ∧ rCache (agent_runs queued req r).1 = rCache r.
Proof. unfold UspRuntime.agent_runs. by destruct (HandleRequest _ _ _ _ _ _ _ _ _ _ _ _ _). Qed.

Definition within_rights (r r' : runtime) : Prop := quiet (rAgent r) (rAgent r') ∨ agent_call (rAgent r) (rAgent r').
Lemma sys_settled r r' jobs : Forall job_ok jobs → pending_ok (rPending r) → rreach sha256 crange (rCache r) → settled r r' →
  sys_ok (MkSystem r' jobs) ∧ within_rights r r'.
Proof.
  intros Hj Hp Hc (Hq & Hpp & Hcc). split; [|by left]. split; [done|]. cbn [sRuntime]. rewrite Hpp. split; [done|by eapply cache_moves].
Qed.
Lemma sys_ran queued (j : job) jobs (r : runtime) : Forall job_ok jobs → job_ok j → pending_ok (rPending r) → rreach sha256 crange (rCache r) →
  let r' := (agent_runs queued (jReq j) r).1 in sys_ok (MkSystem r' jobs) ∧ within_rights r r'.
Proof.
  intros Hj [Hctl Hd] Hp Hc. cbv zeta. destruct (run_agent queued (jReq j) r) as (Ha & Hpp & Hcc). split.
  - split; [done|]. cbn [sRuntime]. by rewrite Hpp, Hcc.
  - right. by exists (jPeer j), (jData j), (jReq j), queued.
Qed.

Lemma step_ok s s' : sys_ok s → sys_step s s' → sys_ok s' ∧ within_rights (sRuntime s) (sRuntime s').
Proof.
  intros (Hj & Hp & Hc) Hs. destruct Hs as [r jobs peer data reply now r' out Hf|r l1 j l2 key ready r' out _ _ Hf|r l1 j l2 key ready r' out _ Hf
    |r l1 j l2 ticket q r' result _ Hf|r l1 j l2 ticket result now r' out _ Hf|r l1 j l2 ticket now r' out _ Hf|r l1 j l2 q r' result _ Hf|r jobs send req r' out Hf|r jobs id r' out Hf];
    cbn [sJobs sRuntime] in *; try destruct (jobs_middle _ _ _ Hj) as [Hjob Hrest].
  2-9: apply (f_equal fst) in Hf; cbn [fst] in Hf; subst r'.
  - pose proof (frame_cases peer data reply now r) as Hcase. rewrite Hf in Hcase. destruct Hcase as (Hq & _ & _ & Hcache & Hpend & Hout). split; [|by left]. split_and!; cbn [sJobs sRuntime].
    + apply Forall_app. split; [done|]. destruct out; try constructor; try done; constructor.
    + destruct Hpend as [-> |(resp & Hctl & Hd & _ & ->)]; [done|]. intros i x [[<- [= <-]]|[_ ?]]%lookup_insert_Some; [|by apply Hp]. split; [done|by exists peer, data].
    + eapply cache_moves; [done|]. destruct Hcache as [?|(req & o & _ & Hb)]; [by left|right; by eapply RBegin].
  - apply sys_settled; try done. apply undisturbed_settled, ready_undisturbed.
  - apply sys_settled; try done. apply undisturbed_settled, refused_undisturbed.
  - apply sys_ran; try done. by apply jobs_replace.
  - apply sys_settled; try done. apply finish_settled.
  - apply sys_settled; [by apply jobs_replace|done|done|apply finish_settled].
  - by apply sys_ran.
  - destruct (call_cases send req r) as (Hq & Hcc & Hpp). split; [|by left]. split_and!; cbn [sRuntime]; [done|by apply Hpp|by rewrite Hcc].
  - split; [|by left]. split_and!; [done| |done].
    intros i resp. cbn [sRuntime call_end fst with_pending rPending]. intros [_ ?]%lookup_delete_Some. by apply Hp.
Qed.

Lemma steps_ok s s' : sys_ok s → rtc sys_step s s' → sys_ok s'.
Proof. induction 2 as [|a b c Hs _ IH]; [done|]. by apply IH, (step_ok a b). Qed.
Lemma sys_ok_init a : sys_ok (MkSystem (runtime_init a) []).
Proof. split_and!; [constructor| |apply rreach_init]. intros i resp. cbn [sRuntime runtime_init rPending]. by rewrite lookup_empty. Qed.

(** ** Completed requests *)

(** A reply function that delivers every frame; [sent] is what was delivered. *)
Definition delivers (sent : B → list bytes) (reply : replier) : Prop :=
  ∀ f b, ∃ b', reply f b = (b', Ok ()) ∧ sent b' = sent b ++ [f].

Lemma delivered sent reply frames : delivers sent reply → ∀ r : runtime,
  ∃ r', send_loop reply frames r = (r', Ok ()) ∧ sent (platform (rAgent r')) = sent (platform (rAgent r)) ++ frames.
Proof.
  intros Hd. induction frames as [|f frames IH]; intros r; cbn [send_loop].
  - exists r. by rewrite app_nil_r.
  - destruct (Hd f (platform (rAgent r))) as (b' & -> & Hs). destruct (IH (with_agent r (with_platform (rAgent r) b'))) as (r' & -> & Hs').
    exists r'. split; [done|]. rewrite Hs'. cbn [with_agent with_platform rAgent platform]. by rewrite Hs, <- app_assoc.
Qed.
Lemma frames_delivered sent reply req frames (r : runtime) : delivers sent reply →
  ∃ r', sendControlFrames (Some reply) req frames r = (r', Ok ()) ∧ sent (platform (rAgent r')) = sent (platform (rAgent r)) ++ frames.
Proof.
  intros Hd. unfold sendControlFrames.
  destruct (1 <? length frames)%nat; match goal with |- context [send_loop reply frames ?x] => destruct (delivered sent reply frames Hd x) as (r' & -> & Hs) end; by exists r'.
Qed.

(** The last stage on a request the agent answered. *)
Lemma finish_delivers sent reply req ticket result resp payload frames now (r : runtime) :
  (∀ m, crange m ≡ₚ map_to_list m) → delivers sent reply → rreach sha256 crange (rCache r) →
  agent_reply wire_text req result = Ok resp → reply_payload wire_text req resp = Ok payload → fragmentControlPayload req payload = Ok frames →
  ∃ r', frame_finish req ticket result (Some reply) now r = (r', Ok ()) ∧ sent (platform (rAgent r')) = sent (platform (rAgent r)) ++ frames.
Proof.
  intros Hrange Hd Hc Ha Hp Hf. unfold UspRuntime.frame_finish.
  rewrite (proj2 (bind_ok (agent_reply wire_text req result) _ frames)).
  2:{ exists resp. split; [done|]. apply bind_ok. exists payload. split; [done|]. apply bind_ok. by exists frames. }
  destruct (complete_cases crange Hrange (rCache r) ticket frames now) as (c & -> & _); [by eapply rreach_ok|].
  destruct (frames_delivered sent reply req frames (with_cache r c) Hd) as (r' & -> & Hs). exists r'. by split.
Qed.

Lemma finished_identity req resp : 0 ≤ qID req < 2 ^ 64 → ControlResultFromMetadata (pMetadata resp) = None →
  let out := finished_reply req resp in
  pID out = qID req ∧ pMethod out = qMethod req ∧ pMessage out = pMessage resp ∧ pError out = pError resp ∧
  SupportsReadReplay (pMetadata out) = true ∧ ∃ cr, ControlResultFromMetadata (pMetadata out) = Some cr ∧ crRequestID cr = qID req.
Proof.
  intros Hid Hn. destruct (finalized req resp Hid Hn) as (Hi & Hm & Hsame & (cr & Hcr & Hr & _) & _).
  cbv zeta. unfold finished_reply. cbv zeta. cbn [with_identity pID pMethod pMessage pError pMetadata].
  destruct Hsame as (_ & _ & _ & _ & _ & _ & Hmsg & _ & _ & _ & He). split_and!; try done.
  - unfold SupportsReadReplay, WithReadReplay. cbv zeta. by rewrite md_get_insert_eq.
  - exists cr. split; [|done]. revert Hcr. unfold ControlResultFromMetadata, WithReadReplay, CloneMetadata. cbv zeta. by md_read.
Qed.

(** Frames of a peer other than the controller are powerless, also with the
    platform misbehaving while the reply is sent: data model, subscriptions and
    event numbering, the replay cache, the calls in flight and the request
    numbering stay as they are, no request is executed or begun, and the frame is
    handled at once unless it is one of a transfer stream. *)
Theorem unauthorized_frames_powerless peer data reply now (r : runtime) :
  isControllerPeer peer = false →
  let '(r', out) := frame_arrives peer data reply now r in
  undisturbed r r' ∧ match out with Handled _ => True | ToStream f => DecodeUSPTransferStreamFrame data = Ok f | _ => False end.
Proof.
  intros Hc. pose proof (frame_cases peer data reply now r) as Hcase. destruct (frame_arrives peer data reply now r) as [r' out].
  destruct Hcase as (Hq & Hn & Hi & Hcache & Hp & Hout).
  assert (rCache r' = rCache r) by (destruct Hcache as [?|(? & ? & ? & _)]; congruence).
  assert (rPending r' = rPending r) by (destruct Hp as [?|(? & ? & _)]; congruence).
  split; [by split_and!|]. destruct out; try done; destruct Hout; congruence.
Qed.



(** C40: A datagram of 37 to 44 bytes with the magic and version of transfer
    stream frames, from any peer, panics in the dispatcher, which the receive
    routine has to recover: transfer frames are decoded before the peer is looked
    at, and the decoder's length check is 8 bytes short of the header. *)
Theorem short_frame_panics_dispatcher peer data reply now (r : runtime) :
  (37 ≤ length data < 45)%nat →
  le_get (slice 0 1 data) = uspTransferStreamMagic → le_get (slice 1 2 data) = uspTransferStreamVersion →
  (frame_arrives peer data reply now r).2 = Handled Panic.
Proof.
  intros Hl Hm Hv. unfold UspRuntime.frame_arrives. destruct (Nat.eqb_spec (length data) 0); [lia|]. cbv zeta. by rewrite short_frame_panics.
Qed.

(** An ill-typed value silences the answer.  When the platform returns a
    message that the schema check refuses, the response is nevertheless encoded,
    and the handler succeeds; no error reply is sent in its place, and what the
    controller reassembles from the frames it cannot decode. *)
Theorem ill_typed_reply_undecodable sent reply req ticket resp msg err payload frames now (r : runtime) :
  (∀ m, crange m ≡ₚ map_to_list m) → delivers sent reply → rreach sha256 crange (rCache r) →
  ControlResultFromMetadata (pMetadata resp) = None → pMessage resp = Some msg →
  message_ok (ResetAllFieldIDs msg) → ValidateMessageFast (ResetAllFieldIDs msg) = Err err →
  EncodeUSPAgentResponse (finished_reply req resp) = Ok payload → fragmentControlPayload req payload = Ok frames →
  0 ≤ qID req < 2 ^ 64 → 0 ≤ qMethod req < 256 → Z.of_nat (length payload) ≤ MaxUSPControlMessageSize →
  ∃ r', frame_finish req ticket (Some (Ok resp)) (Some reply) now r = (r', Ok ()) ∧ sent (platform (rAgent r')) = sent (platform (rAgent r)) ++ frames ∧
  (∃ fs, mapM_res DecodeUSPControlFragment frames = Ok (Some <$> fs) ∧ ReassembleUSPControlFragments fs = Ok payload) ∧
  DecodeUSPAgentResponse payload = Err err.
Proof.
  intros Hrange Hd Hc Hnone Hmsg Hok Hv He Hf Hid Hm Hlen.
  destruct (finish_delivers sent reply req ticket (Some (Ok resp)) resp payload frames now r Hrange Hd Hc eq_refl) as (r' & Hfin & Hs); [|done|].
  { unfold reply_payload. by rewrite He. }
  exists r'. split; [done|]. split; [done|]. split; [by apply (reply_frames req payload frames Hf Hid Hlen)|].
  destruct (finished_identity req resp Hid Hnone) as (Hi & Hmm & Hms & _).
  apply (response_refused (finished_reply req resp) payload msg err); rewrite ?Hi, ?Hmm; try done; [congruence|].
  by apply control_message_fits.
Qed.
End Dispatcher.

(** ** Witnesses *)

#[local] Instance runtime_case : UnicodeCase := {| unicode_ToLower s := s; unicode_EqualFold s t := bool_decide (s = t) |}.
(** A schema with one boolean parameter. *)
#[local] Instance typed_schema : Schema :=
  {| schema_registry := buildRegistry [bs "Device.WUSP.Enable"]; SelectorForPath _ := None; PathForSelector _ _ := None;
     lookupSafeParam p := bool_decide (p = bs "Device.WUSP.Enable");
     ValidateFieldFast f := if (vTag (Val f) =? TagTrue) || (vTag (Val f) =? TagFalse) then Ok () else Err (ErrValidation "value does not match schema type");
     ValueToString _ := [] |}.
Definition demo_key : bytes := bs "c0ffee".
Definition demo_runtime : uspRuntime (list bytes) := runtime_init quiet_agent.
Definition demo_reply (f : bytes) (b : list bytes) : list bytes * res berr () := (b ++ [f], Ok ()).
Lemma demo_reply_delivers : delivers (fun b => b) demo_reply.
Proof. intros f b. by exists (b ++ [f]). Qed.
Definition demo_data : bytes := match EncodeUSPAgentRequest read_enable with Ok e => e | _ => [] end.

Lemma unauthorized_frames_powerless_witness :
  let '(r', out) := frame_arrives map_to_list id (fun _ => []) demo_key (bs "beef") demo_data (Some demo_reply) 0 demo_runtime in
  undisturbed demo_runtime r' ∧ out = Handled (Err (RUnauthorized (bs "beef"))).
Proof.
  pose proof (unauthorized_frames_powerless map_to_list id (fun _ => []) demo_key (bs "beef") demo_data (Some demo_reply) 0 demo_runtime eq_refl) as Hw.
  assert (match (frame_arrives map_to_list id (fun _ => []) demo_key (bs "beef") demo_data (Some demo_reply) 0 demo_runtime).2 with
          | Handled (Err (RUnauthorized p)) => bool_decide (p = bs "beef") | _ => false end = true) as Ho by vm_refl.
  destruct (frame_arrives _ _ _ _ _ _ _ _ _) as [r' out]. destruct Hw as [Hu _]. split; [exact Hu|].
  destruct out as [[| [| p | | |] |]| | | |]; try discriminate. apply bool_decide_eq_true in Ho. rewrite Ho. reflexivity.
Defined.

Lemma short_frame_panics_dispatcher_witness :
  (frame_arrives map_to_list id (fun _ => []) demo_key [] (map z2b [0x53; 1] ++ replicate 35 (z2b 0)) None 0 demo_runtime).2 = Handled Panic.
Proof. apply short_frame_panics_dispatcher; [simpl; lia|reflexivity|reflexivity]. Defined.

Abbreviation demo_step := (sys_step recorder [] [] demo_fill [] [] map_to_list map_to_list map_to_list map_to_list id (fun _ => []) demo_key).
Definition demo_waiting : system (B:=list bytes) :=
  let '(r, out) := frame_arrives map_to_list id (fun _ => []) demo_key demo_key demo_data (Some demo_reply) 0 demo_runtime in
  MkSystem r ([] ++ job_of demo_key demo_data (Some demo_reply) out).
Definition demo_given : option uspControlReplayTicket :=
  match (frame_arrives map_to_list id (fun _ => []) demo_key demo_key demo_data (Some demo_reply) 0 demo_runtime).2 with ToAgent _ t => t | _ => None end.
Definition demo_job : job (B:=list bytes) := MkJob demo_key demo_data (Some demo_reply) read_enable (TRun demo_given).
Lemma demo_waiting_jobs : sJobs demo_waiting = [] ++ demo_job :: [].
Proof. vm_compute. reflexivity. Qed.

(** The deadline of a Delete passes. *)
Definition demo_late : USPAgentResponse := error_reply delete_timeout (ResponseMetadataForRequest delete_timeout) (timeout_text delete_timeout).
Definition demo_late_payload : bytes := match EncodeUSPAgentResponse (finished_reply delete_timeout demo_late) with Ok e => e | _ => [] end.
Definition demo_late_frames : list bytes := match fragmentControlPayload delete_timeout demo_late_payload with Ok f => f | _ => [] end.
Lemma demo_late_plain : plain_response (finished_reply delete_timeout demo_late).
Proof.
  unfold finished_reply. rewrite finalize_eq by (vm_compute; reflexivity).
  split_and!; try done; try (unfold u64_ok; cbn; unfold USPAgentMethodDelete; lia); try apply Forall_nil_2. by left.
Qed.

(** A boolean parameter the platform returned as a string. *)
Definition mistyped : Message := MkMessage [] None [MkField 1 (bs "Device.WUSP.Enable") (VString (bs "yes"))].
Definition demo_bad : USPAgentResponse := response 9 USPAgentMethodGet ∅ [] [] (Some mistyped) None None None [].
Definition demo_bad_payload : bytes := match EncodeUSPAgentResponse (finished_reply read_enable demo_bad) with Ok e => e | _ => [] end.
Definition demo_bad_frames : list bytes := match fragmentControlPayload read_enable demo_bad_payload with Ok f => f | _ => [] end.
Lemma mistyped_ok : message_ok (ResetAllFieldIDs mistyped).
Proof.
  split; [by vm_compute|]. intros payload c Hp.
  assert (encodePayload (safe_opts c) (ResetAllFieldIDs mistyped) = encodePayload (safe_opts true) (ResetAllFieldIDs mistyped)) as E by (by destruct c).
  rewrite E in Hp. vm_compute in Hp. injection Hp as <-. by vm_compute.
Qed.
Lemma ill_typed_reply_undecodable_witness :
  ∃ r', frame_finish map_to_list (fun _ => []) read_enable None (Some (Ok demo_bad)) (Some demo_reply) 0 demo_runtime = (r', Ok ()) ∧
    platform (rAgent r') = demo_bad_frames ∧ DecodeUSPAgentResponse demo_bad_payload = Err (ErrValidation "value does not match schema type").
Proof.
  destruct (ill_typed_reply_undecodable map_to_list id (fun _ => []) (fun b => b) demo_reply read_enable None demo_bad mistyped
    (ErrValidation "value does not match schema type") demo_bad_payload demo_bad_frames 0 demo_runtime) as (r' & Hf & Hs & _ & Hd).
  - intros m. reflexivity.
  - exact demo_reply_delivers.
  - apply rreach_init.
  - vm_compute. reflexivity.
  - reflexivity.
  - exact mistyped_ok.
  - vm_compute. reflexivity.
  - vm_compute. reflexivity.
  - vm_compute. reflexivity.
  - cbn. lia.
  - cbn. unfold USPAgentMethodGet. lia.
  - vm_compute. discriminate.
  - exists r'. split; [exact Hf|]. split; [exact Hs|exact Hd].
Defined.
