(* ===== verification/Noise.v ===== *)
(** * Noise primitives and handshake messages

    src/internal/device/wireguard-go/device/noise-helpers.go (HMAC and key
    derivation, private keys), the messages of noise-protocol.go with their wire
    form, and tai64n/tai64n.go.  BLAKE2s, Curve25519 and ChaCha20-Poly1305 are
    other packages: the class [NoiseCrypto], with what the handshake relies on in
    [NoiseLaws].  HMAC is written out, as Go's crypto/hmac computes it. *)

From S2P Require Import Prelude GoStr.

Class NoiseCrypto : Type := {
  (** blake2s.Sum256 *)
  blake2s : bytes → bytes;
  (** curve25519.ScalarMult and ScalarBaseMult, private key first *)
  ScalarMult : bytes → bytes → bytes;
  ScalarBaseMult : bytes → bytes;
  (** chacha20poly1305: key, nonce, text, additional data *)
  Seal : bytes → bytes → bytes → bytes → bytes;
  Open : bytes → bytes → bytes → bytes → option bytes }.

Class NoiseLaws `{NoiseCrypto} : Prop := {
  length_blake2s m : length (blake2s m) = 32%nat;
  length_ScalarBaseMult sk : length (ScalarBaseMult sk) = 32%nat;
  (** Diffie-Hellman: both sides compute the same secret. *)
  shared_secret a b : ScalarMult a (ScalarBaseMult b) = ScalarMult b (ScalarBaseMult a);
  length_Seal k n p ad : length (Seal k n p ad) = (length p + 16)%nat;
  Open_Seal k n p ad : Open k n (Seal k n p ad) ad = Some p;
  (** What opens is what would be sealed. *)
  Open_only k n c ad p : Open k n c ad = Some p → c = Seal k n p ad }.

Section Helpers.
Context `{NoiseCrypto}.

(** hmac.New over BLAKE2s, whose block has 64 bytes. *)
Definition xor_pad (pad : Z) (key : bytes) : bytes := (fun b => z2b (Z.lxor (b2z b) pad)) <$> key.
Definition hmac (key msg : bytes) : bytes :=
  let key := if (64 <? length key)%nat then blake2s key else key in
  let key := key ++ replicate (64 - length key) (z2b 0) in
  blake2s (xor_pad 0x5c key ++ blake2s (xor_pad 0x36 key ++ msg)).
Definition HMAC1 (key in0 : bytes) : bytes := hmac key in0.
Definition HMAC2 (key in0 in1 : bytes) : bytes := hmac key (in0 ++ in1).

Definition KDF1 (key input : bytes) : bytes :=
  let t0 := HMAC1 key input in
  HMAC1 t0 [z2b 1].
Definition KDF2 (key input : bytes) : bytes * bytes :=
  let prk := HMAC1 key input in
  let t0 := HMAC1 prk [z2b 1] in
  let t1 := HMAC2 prk t0 [z2b 2] in
  (t0, t1).
Definition KDF3 (key input : bytes) : bytes * bytes * bytes :=
  let prk := HMAC1 key input in
  let t0 := HMAC1 prk [z2b 1] in
  let t1 := HMAC2 prk t0 [z2b 2] in
  let t2 := HMAC2 prk t1 [z2b 3] in
  (t0, t1, t2).

Definition isZero (val : bytes) : bool := forallb (fun b => b2z b =? 0) val.
Definition clamp (sk : bytes) : bytes :=
  alter (fun b => z2b (Z.lor (Z.land (b2z b) 127) 64)) 31%nat (alter (fun b => z2b (Z.land (b2z b) 248)) 0%nat sk).

(** What crypto/rand returned, and whether it failed. *)
Record random := MkRandom { rndBytes : bytes; rndFailed : bool }.
Definition newPrivateKey (r : random) : bytes * bool := (clamp (rndBytes r), rndFailed r).
Definition publicKey (sk : bytes) : bytes := ScalarBaseMult sk.
Definition sharedSecret (sk pk : bytes) : option bytes :=
  let ss := ScalarMult sk pk in
  if isZero ss then None else Some ss.

(** ** The transcript *)

Definition NoiseConstruction : bytes := bs "Noise_IKpsk2_25519_ChaChaPoly_BLAKE2s".
Definition WGIdentifier : bytes := bs "WireGuard v1 zx2c4 Jason@zx2c4.com".
Definition mixKey (c data : bytes) : bytes := KDF1 c data.
Definition mixHash (h data : bytes) : bytes := blake2s (h ++ data).
Definition InitialChainKey : bytes := blake2s NoiseConstruction.
Definition InitialHash : bytes := mixHash InitialChainKey WGIdentifier.
Definition ZeroNonce : bytes := replicate 12 (z2b 0).
End Helpers.

(** Conversion unfolds these last. *)
#[global] Strategy 100 [hmac HMAC1 HMAC2 KDF1 KDF2 KDF3 mixKey mixHash InitialHash InitialChainKey sharedSecret isZero clamp publicKey].

(** ** Messages *)

Definition MessageInitiationType : Z := 1.
Definition MessageResponseType : Z := 2.
Definition MessageCookieReplyType : Z := 3.
Definition MessageTransportType : Z := 4.
Definition MessagePunchType : Z := 6.
Definition MessageTUNControlType : Z := 7.
Definition MessageWUSPType : Z := 8.
Definition MessageP2PControlType : Z := 9.
Definition MessageInitiationSize : nat := 148.
Definition MessageResponseSize : nat := 92.
Definition MessageCookieReplySize : nat := 64.
Definition MessageTransportHeaderSize : nat := 16.
Definition MessagePunchSize : nat := 56.
Definition MessageTransportSize : nat := MessageTransportHeaderSize + 16.
Definition MessageKeepaliveSize : nat := MessageTransportSize.

Record MessageInitiation := MkInitiation
  { miType : Z; miSender : Z; miEphemeral : bytes; miStatic : bytes; miTimestamp : bytes; miMAC1 : bytes; miMAC2 : bytes }.
Record MessageResponse := MkMessageResponse
  { mrType : Z; mrSender : Z; mrReceiver : Z; mrEphemeral : bytes; mrEmpty : bytes; mrMAC1 : bytes; mrMAC2 : bytes }.
Record MessageCookieReply := MkCookieReply { mcType : Z; mcReceiver : Z; mcNonce : bytes; mcCookie : bytes }.
Record MessagePunch := MkPunch { mpType : Z; mpReceiver : Z; mpSender : Z; mpTimestamp : bytes; mpMAC1 : bytes; mpMAC2 : bytes }.
Record MessageStats := MkStats { msType : Z; msReceiver : Z; msCounter : Z; msStats : bytes }.

Inductive merr := ErrMessageLengthMismatch.

Definition initiation_unmarshal (b : bytes) : res merr MessageInitiation :=
  if negb (length b =? MessageInitiationSize)%nat then Err ErrMessageLengthMismatch
  else Ok (MkInitiation (le_get (slice 0 4 b)) (le_get (slice 4 8 b)) (slice 8 40 b) (slice 40 88 b) (slice 88 116 b) (slice 116 132 b) (slice 132 148 b)).
Definition initiation_marshal (msg : MessageInitiation) (b : bytes) : res merr bytes :=
  if negb (length b =? MessageInitiationSize)%nat then Err ErrMessageLengthMismatch
  else Ok (le_put 4 (miType msg) ++ le_put 4 (miSender msg) ++ miEphemeral msg ++ miStatic msg ++ miTimestamp msg ++ miMAC1 msg ++ miMAC2 msg).

Definition response_unmarshal (b : bytes) : res merr MessageResponse :=
  if negb (length b =? MessageResponseSize)%nat then Err ErrMessageLengthMismatch
  else Ok (MkMessageResponse (le_get (slice 0 4 b)) (le_get (slice 4 8 b)) (le_get (slice 8 12 b)) (slice 12 44 b) (slice 44 60 b) (slice 60 76 b) (slice 76 92 b)).
Definition response_marshal (msg : MessageResponse) (b : bytes) : res merr bytes :=
  if negb (length b =? MessageResponseSize)%nat then Err ErrMessageLengthMismatch
  else Ok (le_put 4 (mrType msg) ++ le_put 4 (mrSender msg) ++ le_put 4 (mrReceiver msg) ++ mrEphemeral msg ++ mrEmpty msg ++ mrMAC1 msg ++ mrMAC2 msg).

Definition cookie_unmarshal (b : bytes) : res merr MessageCookieReply :=
  if negb (length b =? MessageCookieReplySize)%nat then Err ErrMessageLengthMismatch
  else Ok (MkCookieReply (le_get (slice 0 4 b)) (le_get (slice 4 8 b)) (slice 8 32 b) (slice 32 64 b)).
Definition cookie_marshal (msg : MessageCookieReply) (b : bytes) : res merr bytes :=
  if negb (length b =? MessageCookieReplySize)%nat then Err ErrMessageLengthMismatch
  else Ok (le_put 4 (mcType msg) ++ le_put 4 (mcReceiver msg) ++ mcNonce msg ++ mcCookie msg).

Definition punch_unmarshal (b : bytes) : res merr MessagePunch :=
  if negb (length b =? MessagePunchSize)%nat then Err ErrMessageLengthMismatch
  else Ok (MkPunch (le_get (slice 0 4 b)) (le_get (slice 4 8 b)) (le_get (slice 8 12 b)) (slice 12 24 b) (slice 24 40 b) (slice 40 56 b)).
Definition punch_marshal (msg : MessagePunch) (b : bytes) : res merr bytes :=
  if negb (length b =? MessagePunchSize)%nat then Err ErrMessageLengthMismatch
  else Ok (le_put 4 (mpType msg) ++ le_put 4 (mpReceiver msg) ++ le_put 4 (mpSender msg) ++ mpTimestamp msg ++ mpMAC1 msg ++ mpMAC2 msg).

(** The copy stops at the end of the buffer. *)
Definition stats_unmarshal (b : bytes) : res merr MessageStats :=
  if (length b <? MessageTransportHeaderSize)%nat then Err ErrMessageLengthMismatch
  else Ok (MkStats (le_get (slice 0 4 b)) (le_get (slice 4 8 b)) (le_get (slice 8 16 b)) (drop 16 b)).
Definition stats_marshal (msg : MessageStats) (b : bytes) : res merr bytes :=
  if (length b <? MessageTransportHeaderSize)%nat then Err ErrMessageLengthMismatch
  else let copied := take (length b - 16) (msStats msg) in
       Ok (le_put 4 (msType msg) ++ le_put 4 (msReceiver msg) ++ le_put 8 (msCounter msg) ++ copied ++ drop (16 + length copied) b).

(** ** Timestamps *)

Definition tai64n_base : Z := 0x400000000000000a.
Definition whitenerMask : Z := 0x1000000 - 1.
(** A time is given by its Unix seconds and nanoseconds. *)
Definition stamp (unix nano : Z) : bytes :=
  let secs := u64 (tai64n_base + u64 unix) in
  let nano := Z.ldiff nano whitenerMask in
  be_put 8 secs ++ be_put 4 nano.
(** bytes.Compare(t1, t2) > 0 *)
Definition After (t1 t2 : bytes) : bool := negb (bytes_leb t1 t2).

(** ** Lemmas *)

Lemma bytes_leb_refl a : bytes_leb a a = true.
Proof. induction a as [|x a IH]; cbn [bytes_leb]; [done|]. by rewrite Z.ltb_irrefl. Qed.
Lemma After_irrefl t : After t t = false.
Proof. unfold After. by rewrite bytes_leb_refl. Qed.
Lemma After_le_trans a b c : After a b = true → bytes_leb c b = true → After a c = true.
Proof.
  unfold After. rewrite !negb_true_iff. intros Hab Hcb. destruct (bytes_leb a c) eqn:Hac; [|done].
  by rewrite (bytes_leb_trans a c b Hac Hcb) in Hab.
Qed.
Lemma After_le t1 t2 : After t1 t2 = true → bytes_leb t2 t1 = true.
Proof. unfold After. rewrite negb_true_iff. intros Hf. destruct (bytes_leb_total t1 t2); congruence. Qed.

(** Big-endian numbers of one width compare like their values. *)
Lemma be_put_S n z : be_put (S n) z = z2b (z / 256 ^ Z.of_nat n) :: be_put n z.
Proof.
  revert z. induction n as [|n IH]; intros z; [by rewrite Z.div_1_r|].
  unfold be_put in *. change (le_put (S (S n)) z) with (z2b z :: le_put (S n) (z / 256)). rewrite reverse_cons, IH.
  change (le_put (S n) z) with (z2b z :: le_put n (z / 256)). rewrite reverse_cons. cbn [app].
  f_equal. f_equal. rewrite Z.div_div by lia. f_equal. rewrite Nat2Z.inj_succ, Z.pow_succ_r by lia. done.
Qed.
Lemma be_put_mod n z : be_put n z = be_put n (z mod 256 ^ Z.of_nat n).
Proof.
  unfold be_put. f_equal. rewrite <- le_get_put. rewrite <- (le_put_get (le_put n z)) at 1. by rewrite length_le_put.
Qed.
Lemma bytes_leb_be n : ∀ a b x y, 0 ≤ a < 256 ^ Z.of_nat n → 0 ≤ b < 256 ^ Z.of_nat n →
  bytes_leb (be_put n a ++ x) (be_put n b ++ y) = if a <? b then true else if b <? a then false else bytes_leb x y.
Proof.
  induction n as [|n IH]; intros a b x y Ha Hb.
  - change (256 ^ Z.of_nat 0) with 1 in *. assert (a = 0) as -> by lia. assert (b = 0) as -> by lia. done.
  - rewrite !be_put_S. set (w := 256 ^ Z.of_nat n) in *.
    assert (0 < w) by (apply Z.pow_pos_nonneg; lia). assert (256 ^ Z.of_nat (S n) = 256 * w) as Hw by (rewrite Nat2Z.inj_succ, Z.pow_succ_r by lia; done).
    rewrite Hw in *. pose proof (Z.div_mod a w ltac:(lia)) as Ea. pose proof (Z.div_mod b w ltac:(lia)) as Eb.
    pose proof (Z.mod_pos_bound a w ltac:(lia)) as Ra. pose proof (Z.mod_pos_bound b w ltac:(lia)) as Rb.
    assert (0 ≤ a / w < 256) as Qa by (split; [apply Z.div_pos; lia|apply Z.div_lt_upper_bound; lia]).
    assert (0 ≤ b / w < 256) as Qb by (split; [apply Z.div_pos; lia|apply Z.div_lt_upper_bound; lia]).
    cbn [app bytes_leb]. rewrite !b2z_z2b_small by done. rewrite (be_put_mod n a), (be_put_mod n b). fold w. rewrite IH by done.
    destruct (Z.ltb_spec (a / w) (b / w)); [destruct (Z.ltb_spec a b); [done|nia]|].
    destruct (Z.ltb_spec (b / w) (a / w)); [destruct (Z.ltb_spec a b); [nia|destruct (Z.ltb_spec b a); [done|nia]]|].
    assert (a / w = b / w) as Eq by lia. rewrite Eq in Ea.
    destruct (Z.ltb_spec (a mod w) (b mod w)), (Z.ltb_spec (b mod w) (a mod w)), (Z.ltb_spec a b), (Z.ltb_spec b a); done || lia.
Qed.

Definition whitened (nano : Z) : Z := nano / 2 ^ 24.
Lemma ldiff_whitener nano : 0 ≤ nano → Z.ldiff nano whitenerMask = 2 ^ 24 * whitened nano.
Proof.
  intros. unfold whitenerMask, whitened. change (0x1000000 - 1) with (Z.ones 24). rewrite Z.ldiff_ones_r by lia.
  rewrite Z.shiftl_mul_pow2, Z.shiftr_div_pow2 by lia. lia.
Qed.
(** Stamps are ordered like the times, up to the whitening of nanoseconds. *)
Lemma After_stamp s1 n1 s2 n2 : 0 ≤ s1 < 2 ^ 61 → 0 ≤ s2 < 2 ^ 61 → 0 ≤ n1 < 2 ^ 30 → 0 ≤ n2 < 2 ^ 30 →
  After (stamp s2 n2) (stamp s1 n1) = true ↔ s1 < s2 ∨ s1 = s2 ∧ whitened n1 < whitened n2.
Proof.
  intros H1 H2 Hn1 Hn2. unfold After, stamp. cbv zeta. rewrite !ldiff_whitener by lia. unfold whitened in *.
  assert (∀ s, 0 ≤ s < 2 ^ 61 → u64 (tai64n_base + u64 s) = tai64n_base + s) as Hu.
  { intros s Hs. rewrite (wrap_small 64 s) by lia. apply wrap_small. unfold tai64n_base. lia. }
  assert (∀ n, 0 ≤ n < 2 ^ 30 → 0 ≤ 2 ^ 24 * (n / 2 ^ 24) < 256 ^ Z.of_nat 4) as Hw.
  { intros n Hn. pose proof (Z.mul_div_le n (2 ^ 24)). pose proof (Z.div_pos n (2 ^ 24)). lia. }
  rewrite !Hu by done. rewrite <- (app_nil_r (be_put 4 (2 ^ 24 * (n2 / 2 ^ 24)))), <- (app_nil_r (be_put 4 (2 ^ 24 * (n1 / 2 ^ 24)))).
  rewrite bytes_leb_be by (unfold tai64n_base; lia). rewrite bytes_leb_be by (by apply Hw).
  rewrite negb_true_iff.
  repeat match goal with |- context [?a <? ?b] => destruct (Z.ltb_spec a b) end; split; intros; try done; try lia.
Qed.

(** ** Wire forms *)

Definition initiation_wf (m : MessageInitiation) : Prop :=
  0 ≤ miType m < 2 ^ 32 ∧ 0 ≤ miSender m < 2 ^ 32 ∧ length (miEphemeral m) = 32%nat ∧ length (miStatic m) = 48%nat ∧
  length (miTimestamp m) = 28%nat ∧ length (miMAC1 m) = 16%nat ∧ length (miMAC2 m) = 16%nat.
Definition response_wf (m : MessageResponse) : Prop :=
  0 ≤ mrType m < 2 ^ 32 ∧ 0 ≤ mrSender m < 2 ^ 32 ∧ 0 ≤ mrReceiver m < 2 ^ 32 ∧ length (mrEphemeral m) = 32%nat ∧
  length (mrEmpty m) = 16%nat ∧ length (mrMAC1 m) = 16%nat ∧ length (mrMAC2 m) = 16%nat.
Definition cookie_wf (m : MessageCookieReply) : Prop :=
  0 ≤ mcType m < 2 ^ 32 ∧ 0 ≤ mcReceiver m < 2 ^ 32 ∧ length (mcNonce m) = 24%nat ∧ length (mcCookie m) = 32%nat.
Definition punch_wf (m : MessagePunch) : Prop :=
  0 ≤ mpType m < 2 ^ 32 ∧ 0 ≤ mpReceiver m < 2 ^ 32 ∧ 0 ≤ mpSender m < 2 ^ 32 ∧ length (mpTimestamp m) = 12%nat ∧
  length (mpMAC1 m) = 16%nat ∧ length (mpMAC2 m) = 16%nat.

(** Reads the fields of a concatenation back. *)
Lemma slice_all {A} n (l : list A) : length l = n → slice 0 n l = l.
Proof. intros <-. unfold slice. rewrite drop_0, Nat.sub_0_r. apply firstn_all. Qed.
Ltac field_len := rewrite ?length_le_put; (assumption || lia).
Ltac slices := repeat first
  [ rewrite slice_app_here by field_len
  | rewrite slice_all by field_len
  | rewrite slice_app_r by field_len; rewrite ?length_le_put;
    repeat match goal with H : length ?a = _ |- context [length ?a] => rewrite H end; cbn [Nat.sub] ].
Lemma le_get_put4 z : 0 ≤ z < 2 ^ 32 → le_get (le_put 4 z) = z.
Proof. intros. by apply le_get_put_small. Qed.

(** Marshalling into a buffer of the right size and reading it back. *)
Ltac wire_roundtrip m :=
  destruct m; cbn [miType miSender miEphemeral miStatic miTimestamp miMAC1 miMAC2 mrType mrSender mrReceiver mrEphemeral mrEmpty mrMAC1 mrMAC2
    mcType mcReceiver mcNonce mcCookie mpType mpReceiver mpSender mpTimestamp mpMAC1 mpMAC2] in *; eexists; split; [reflexivity|];
  match goal with |- length ?x = ?n ∧ _ =>
    let Hl := fresh in assert (length x = n) as Hl by (rewrite !length_app, !length_le_put; unfold MessageInitiationSize, MessageResponseSize, MessageCookieReplySize, MessagePunchSize; lia);
    split; [exact Hl|]; rewrite Hl
  end;
  rewrite Nat.eqb_refl; cbn [negb]; f_equal; slices; rewrite !le_get_put4 by assumption; reflexivity.

Lemma initiation_roundtrip m b : initiation_wf m → length b = MessageInitiationSize →
  ∃ e, initiation_marshal m b = Ok e ∧ length e = MessageInitiationSize ∧ initiation_unmarshal e = Ok m.
Proof.
  intros (? & ? & ? & ? & ? & ? & ?) Hb. unfold initiation_marshal, initiation_unmarshal. rewrite Hb, Nat.eqb_refl. cbn [negb]. wire_roundtrip m.
Qed.
Lemma response_message_roundtrip m b : response_wf m → length b = MessageResponseSize →
  ∃ e, response_marshal m b = Ok e ∧ length e = MessageResponseSize ∧ response_unmarshal e = Ok m.
Proof.
  intros (? & ? & ? & ? & ? & ? & ?) Hb. unfold response_marshal, response_unmarshal. rewrite Hb, Nat.eqb_refl. cbn [negb]. wire_roundtrip m.
Qed.
Lemma cookie_roundtrip m b : cookie_wf m → length b = MessageCookieReplySize →
  ∃ e, cookie_marshal m b = Ok e ∧ length e = MessageCookieReplySize ∧ cookie_unmarshal e = Ok m.
Proof.
  intros (? & ? & ? & ?) Hb. unfold cookie_marshal, cookie_unmarshal. rewrite Hb, Nat.eqb_refl. cbn [negb]. wire_roundtrip m.
Qed.
Lemma punch_roundtrip m b : punch_wf m → length b = MessagePunchSize →
  ∃ e, punch_marshal m b = Ok e ∧ length e = MessagePunchSize ∧ punch_unmarshal e = Ok m.
Proof.
  intros (? & ? & ? & ? & ? & ?) Hb. unfold punch_marshal, punch_unmarshal. rewrite Hb, Nat.eqb_refl. cbn [negb]. wire_roundtrip m.
Qed.
