(* ===== verification/Handshake.v ===== *)
(** * The Noise handshake and its sessions

    src/internal/device/wireguard-go/device/: indextable.go, keypair.go, the
    handshake of noise-protocol.go and the operations of peer.go and device.go on
    handshakes, sessions and peers.  Peers, with the handshake inside, and
    key pairs are shared by pointer and live in heaps; a handshake pointer is the
    peer it belongs to.  A handler that takes a lock twice is cut there.  Whoever
    calls supplies the randomness and the clock.  A time.Time is [None] when zero. *)

From S2P Require Import Prelude GoStr Replay Noise.

Inductive handshakeState :=
| handshakeZeroed | handshakeInitiationCreated | handshakeInitiationConsumed | handshakeResponseCreated | handshakeResponseConsumed.
#[export] Instance handshakeState_eq_dec : EqDecision handshakeState.
Proof. solve_decision. Defined.

Record Handshake := MkHandshake
  { state : handshakeState; hash : bytes; chainKey : bytes; presharedKey : bytes; localEphemeral : bytes; localIndex : Z; remoteIndex : Z;
    remoteStatic : bytes; remoteEphemeral : bytes; precomputedStaticStatic : bytes; lastTimestamp : bytes;
    lastInitiationConsumption : option Z; lastSentHandshake : option Z }.

(** Assignments to fields. *)
Definition with_symmetric (h : Handshake) (hash' chainKey' : bytes) : Handshake :=
  MkHandshake (state h) hash' chainKey' (presharedKey h) (localEphemeral h) (localIndex h) (remoteIndex h) (remoteStatic h) (remoteEphemeral h)
    (precomputedStaticStatic h) (lastTimestamp h) (lastInitiationConsumption h) (lastSentHandshake h).
Definition with_localEphemeral (h : Handshake) (sk : bytes) : Handshake :=
  MkHandshake (state h) (hash h) (chainKey h) (presharedKey h) sk (localIndex h) (remoteIndex h) (remoteStatic h) (remoteEphemeral h)
    (precomputedStaticStatic h) (lastTimestamp h) (lastInitiationConsumption h) (lastSentHandshake h).
Definition with_localIndex (h : Handshake) (i : Z) : Handshake :=
  MkHandshake (state h) (hash h) (chainKey h) (presharedKey h) (localEphemeral h) i (remoteIndex h) (remoteStatic h) (remoteEphemeral h)
    (precomputedStaticStatic h) (lastTimestamp h) (lastInitiationConsumption h) (lastSentHandshake h).
Definition with_state (h : Handshake) (s : handshakeState) : Handshake :=
  MkHandshake s (hash h) (chainKey h) (presharedKey h) (localEphemeral h) (localIndex h) (remoteIndex h) (remoteStatic h) (remoteEphemeral h)
    (precomputedStaticStatic h) (lastTimestamp h) (lastInitiationConsumption h) (lastSentHandshake h).
Definition with_remote (h : Handshake) (i : Z) (ephemeral : bytes) : Handshake :=
  MkHandshake (state h) (hash h) (chainKey h) (presharedKey h) (localEphemeral h) (localIndex h) i (remoteStatic h) ephemeral
    (precomputedStaticStatic h) (lastTimestamp h) (lastInitiationConsumption h) (lastSentHandshake h).
Definition with_consumed (h : Handshake) (ts : bytes) (t : option Z) : Handshake :=
  MkHandshake (state h) (hash h) (chainKey h) (presharedKey h) (localEphemeral h) (localIndex h) (remoteIndex h) (remoteStatic h) (remoteEphemeral h)
    (precomputedStaticStatic h) ts t (lastSentHandshake h).
Definition with_sent (h : Handshake) (t : option Z) : Handshake :=
  MkHandshake (state h) (hash h) (chainKey h) (presharedKey h) (localEphemeral h) (localIndex h) (remoteIndex h) (remoteStatic h) (remoteEphemeral h)
    (precomputedStaticStatic h) (lastTimestamp h) (lastInitiationConsumption h) t.
Definition with_precomputed (h : Handshake) (ss : bytes) : Handshake :=
  MkHandshake (state h) (hash h) (chainKey h) (presharedKey h) (localEphemeral h) (localIndex h) (remoteIndex h) (remoteStatic h) (remoteEphemeral h)
    ss (lastTimestamp h) (lastInitiationConsumption h) (lastSentHandshake h).

Definition zeros (n : nat) : bytes := replicate n (z2b 0).
Definition Handshake_zero : Handshake :=
  MkHandshake handshakeZeroed (zeros 32) (zeros 32) (zeros 32) (zeros 32) 0 0 (zeros 32) (zeros 32) (zeros 32) (zeros 12) None None.

(** cipher.AEAD values are their keys. *)
Record Keypair := MkKeypair
  { sendNonce : Z; send : bytes; receive : bytes; replayFilter : Filter; isInitiator : bool; created : Z; kLocalIndex : Z; kRemoteIndex : Z }.
Record Keypairs := MkKeypairs { current : option nat; previous : option nat; next : option nat }.
Record IndexTableEntry := MkEntry { ePeer : option nat; eHandshake : option nat; eKeypair : option nat }.
Abbreviation IndexTable := (gmap Z IndexTableEntry).
Record Peer := MkPeer { handshake : Handshake; keypairs : Keypairs; isRunning : bool; handshakeCount : Z }.
Record Device := MkDevice
  { privateKey : bytes; dPublicKey : bytes; keyMap : gmap bytes nat; peers : gmap nat Peer; indexTable : IndexTable;
    pairs : gmap nat Keypair; nextPeer : nat; nextPair : nat }.

Definition with_peer (d : Device) (p : nat) (x : Peer) : Device :=
  MkDevice (privateKey d) (dPublicKey d) (keyMap d) (<[p := x]> (peers d)) (indexTable d) (pairs d) (nextPeer d) (nextPair d).
Definition with_table (d : Device) (t : IndexTable) : Device :=
  MkDevice (privateKey d) (dPublicKey d) (keyMap d) (peers d) t (pairs d) (nextPeer d) (nextPair d).
Definition with_pairs (d : Device) (ps : gmap nat Keypair) : Device :=
  MkDevice (privateKey d) (dPublicKey d) (keyMap d) (peers d) (indexTable d) ps (nextPeer d) (nextPair d).
Definition with_handshake (x : Peer) (h : Handshake) : Peer := MkPeer h (keypairs x) (isRunning x) (handshakeCount x).
Definition with_keypairs (x : Peer) (k : Keypairs) : Peer := MkPeer (handshake x) k (isRunning x) (handshakeCount x).
Definition set_handshake (d : Device) (p : nat) (x : Peer) (h : Handshake) : Device := with_peer d p (with_handshake x h).

Inductive herr :=
| ERandom | EInvalidPublicKey | EInitiationNotConsumed | EInvalidState (s : handshakeState) | EClosed | ETooManyPeers | EExistingPeer.

(** ** The index table *)

Definition IndexTable_Init : IndexTable := ∅.
Definition IndexTable_Delete (t : IndexTable) (index : Z) : IndexTable := delete index t.
Definition SwapIndexForKeypair (t : IndexTable) (index : Z) (keypair : nat) : IndexTable :=
  match t !! index with
  | None => t
  | Some entry => <[index := MkEntry (ePeer entry) None (Some keypair)]> t
  end.
(** The draws are what randUint32 returns in turn, with its error; [None] is that
    the loop has used them up and goes on. *)
Fixpoint NewIndexForHandshake (t : IndexTable) (p : nat) (draws : list (Z * bool)) : option (IndexTable * Z * bool) :=
  match draws with
  | [] => None
  | (index, failed) :: draws =>
      if failed then Some (t, index, true) else
      match t !! index with
      | Some _ => NewIndexForHandshake t p draws
      | None => Some (<[index := MkEntry (Some p) (Some p) None]> t, index, false)
      end
  end.
Definition IndexTable_Lookup (t : IndexTable) (id : Z) : IndexTableEntry := default (MkEntry None None None) (t !! id).

Definition DeleteKeypair (d : Device) (key : option nat) : Device :=
  match key ≫= (pairs d !!.) with
  | None => d
  | Some k => with_table d (IndexTable_Delete (indexTable d) (kLocalIndex k))
  end.

Section Protocol.
Context `{NoiseCrypto}.

Definition Clear (h : Handshake) : Handshake :=
  with_state (with_localIndex (with_symmetric (with_remote (with_localEphemeral h (zeros 32)) (remoteIndex h) (zeros 32)) (zeros 32) (zeros 32)) 0) handshakeZeroed.

(** ** Initiation *)

(** handshake.hash and handshake.chainKey are [hs] and [ck] until the function
    returns, which stores them.  The outcome [None] is that no free index has been
    drawn yet. *)
Definition CreateMessageInitiation (p : nat) (rnd : random) (timestamp : bytes) (draws : list (Z * bool)) (d : Device)
    : Device * option (res herr MessageInitiation) :=
  match peers d !! p with
  | None => (d, Some Panic)
  | Some peer =>
      let '(sk, failed) := newPrivateKey rnd in
      let h := with_localEphemeral (handshake peer) sk in
      let leave d hs ck := set_handshake d p peer (with_symmetric h hs ck) in
      if failed then (leave d InitialHash InitialChainKey, Some (Err ERandom)) else
      let hs := mixHash InitialHash (remoteStatic h) in
      let ephemeral := publicKey (localEphemeral h) in
      let ck := mixKey InitialChainKey ephemeral in
      let hs := mixHash hs ephemeral in
      match sharedSecret (localEphemeral h) (remoteStatic h) with
      | None => (leave d hs ck, Some (Err EInvalidPublicKey))
      | Some ss =>
          let '(ck, key) := KDF2 ck ss in
          let static := Seal key ZeroNonce (dPublicKey d) hs in
          let hs := mixHash hs static in
          if isZero (precomputedStaticStatic h) then (leave d hs ck, Some (Err EInvalidPublicKey)) else
          let '(ck, key) := KDF2 ck (precomputedStaticStatic h) in
          let ts := Seal key ZeroNonce timestamp hs in
          let d := with_table d (IndexTable_Delete (indexTable d) (localIndex h)) in
          match NewIndexForHandshake (indexTable d) p draws with
          | None => (leave d hs ck, None)
          | Some (_, _, true) => (leave d hs ck, Some (Err ERandom))
          | Some (t, sender, false) =>
              let hs := mixHash hs ts in
              (set_handshake (with_table d t) p peer (with_state (with_localIndex (with_symmetric h hs ck) sender) handshakeInitiationCreated),
               Some (Ok (MkInitiation MessageInitiationType sender ephemeral static ts (zeros 16) (zeros 16))))
          end
      end
  end.

(** What the check of an initiation leaves for the update. *)
Record verified_initiation := MkVerified
  { vPeer : nat; vHash : bytes; vChainKey : bytes; vSender : Z; vEphemeral : bytes; vTimestamp : bytes }.

Definition HandshakeInitationRate : Z := 1000000000 / 50.
(** time.Since(t) <= HandshakeInitationRate *)
Definition recently (now : Z) (t : option Z) : bool := match t with Some t => now - t <=? HandshakeInitationRate | None => false end.

Definition consume_initiation_check (msg : MessageInitiation) (now : Z) (d : Device) : option verified_initiation :=
  if negb (miType msg =? MessageInitiationType) then None else
  let h := mixHash InitialHash (dPublicKey d) in
  let h := mixHash h (miEphemeral msg) in
  let ck := mixKey InitialChainKey (miEphemeral msg) in
  ss ← sharedSecret (privateKey d) (miEphemeral msg);
  let '(ck, key) := KDF2 ck ss in
  peerPK ← Open key ZeroNonce (miStatic msg) h;
  let h := mixHash h (miStatic msg) in
  p ← keyMap d !! peerPK;
  peer ← peers d !! p;
  if negb (isRunning peer) then None else
  let handshake := handshake peer in
  if isZero (precomputedStaticStatic handshake) then None else
  let '(ck, key) := KDF2 ck (precomputedStaticStatic handshake) in
  timestamp ← Open key ZeroNonce (miTimestamp msg) h;
  let h := mixHash h (miTimestamp msg) in
  let replay := negb (After timestamp (lastTimestamp handshake)) in
  let flood := recently now (lastInitiationConsumption handshake) in
  if replay then None else if flood then None else
  Some (MkVerified p h ck (miSender msg) (miEphemeral msg) timestamp).

(** now.After(t) *)
Definition later (now : Z) (t : option Z) : bool := match t with Some t => t <? now | None => true end.
Definition consume_initiation_update (v : verified_initiation) (now : Z) (d : Device) : Device :=
  match peers d !! vPeer v with
  | None => d
  | Some peer =>
      let h := handshake peer in
      let h := with_symmetric h (vHash v) (vChainKey v) in
      let h := with_remote h (vSender v) (vEphemeral v) in
      let h := with_consumed h (if After (vTimestamp v) (lastTimestamp h) then vTimestamp v else lastTimestamp h)
                 (if later now (lastInitiationConsumption h) then Some now else lastInitiationConsumption h) in
      set_handshake d (vPeer v) peer (with_state h handshakeInitiationConsumed)
  end.
Definition ConsumeMessageInitiation (msg : MessageInitiation) (now now' : Z) (d : Device) : Device * option nat :=
  match consume_initiation_check msg now d with
  | None => (d, None)
  | Some v => (consume_initiation_update v now' d, Some (vPeer v))
  end.

(** ** Response *)

Definition CreateMessageResponse (p : nat) (rnd : random) (draws : list (Z * bool)) (d : Device) : Device * option (res herr MessageResponse) :=
  match peers d !! p with
  | None => (d, Some Panic)
  | Some peer =>
      let h := handshake peer in
      if negb (bool_decide (state h = handshakeInitiationConsumed)) then (d, Some (Err EInitiationNotConsumed)) else
      let d := with_table d (IndexTable_Delete (indexTable d) (localIndex h)) in
      match NewIndexForHandshake (indexTable d) p draws with
      | None => (d, None)
      | Some (_, index, true) => (set_handshake d p peer (with_localIndex h index), Some (Err ERandom))
      | Some (t, index, false) =>
          let d := with_table d t in
          let '(sk, failed) := newPrivateKey rnd in
          let h := with_localEphemeral (with_localIndex h index) sk in
          let leave hs ck := set_handshake d p peer (with_symmetric h hs ck) in
          if failed then (leave (hash h) (chainKey h), Some (Err ERandom)) else
          let ephemeral := publicKey (localEphemeral h) in
          let hs := mixHash (hash h) ephemeral in
          let ck := mixKey (chainKey h) ephemeral in
          match sharedSecret (localEphemeral h) (remoteEphemeral h) with
          | None => (leave hs ck, Some (Err EInvalidPublicKey))
          | Some ss =>
              let ck := mixKey ck ss in
              match sharedSecret (localEphemeral h) (remoteStatic h) with
              | None => (leave hs ck, Some (Err EInvalidPublicKey))
              | Some ss =>
                  let ck := mixKey ck ss in
                  let '(ck, tau, key) := KDF3 ck (presharedKey h) in
                  let hs := mixHash hs tau in
                  let empty := Seal key ZeroNonce [] hs in
                  let hs := mixHash hs empty in
                  (set_handshake d p peer (with_state (with_symmetric h hs ck) handshakeResponseCreated),
                   Some (Ok (MkMessageResponse MessageResponseType index (remoteIndex h) ephemeral empty (zeros 16) (zeros 16))))
              end
          end
      end
  end.

Record verified_response := MkVerifiedResponse { wHandshake : nat; wPeer : option nat; wHash : bytes; wChainKey : bytes; wSender : Z }.

Definition consume_response_check (msg : MessageResponse) (d : Device) : option verified_response :=
  if negb (mrType msg =? MessageResponseType) then None else
  let lookup := IndexTable_Lookup (indexTable d) (mrReceiver msg) in
  p ← eHandshake lookup;
  peer ← peers d !! p;
  let handshake := handshake peer in
  if negb (bool_decide (state handshake = handshakeInitiationCreated)) then None else
  let h := mixHash (hash handshake) (mrEphemeral msg) in
  let ck := mixKey (chainKey handshake) (mrEphemeral msg) in
  ss ← sharedSecret (localEphemeral handshake) (mrEphemeral msg);
  let ck := mixKey ck ss in
  ss ← sharedSecret (privateKey d) (mrEphemeral msg);
  let ck := mixKey ck ss in
  let '(ck, tau, key) := KDF3 ck (presharedKey handshake) in
  let h := mixHash h tau in
  _ ← Open key ZeroNonce (mrEmpty msg) h;
  let h := mixHash h (mrEmpty msg) in
  Some (MkVerifiedResponse p (ePeer lookup) h ck (mrSender msg)).

(** The handshake may have changed since the check. *)
Definition consume_response_update (v : verified_response) (d : Device) : Device * option nat :=
  match peers d !! wHandshake v with
  | None => (d, None)
  | Some peer =>
      let h := handshake peer in
      if negb (bool_decide (state h = handshakeInitiationCreated)) then (d, None) else
      let h := with_symmetric h (wHash v) (wChainKey v) in
      let h := with_remote h (wSender v) (remoteEphemeral h) in
      (set_handshake d (wHandshake v) peer (with_state h handshakeResponseConsumed), wPeer v)
  end.
Definition ConsumeMessageResponse (msg : MessageResponse) (d : Device) : Device * option nat :=
  match consume_response_check msg d with
  | None => (d, None)
  | Some v => consume_response_update v d
  end.
End Protocol.

(** ** Sessions *)

Section Sessions.
Context `{NoiseCrypto}.

Definition RejectAfterMessages : Z := 2 ^ 64 - 2 ^ 13 - 1.
Definition RekeyTimeout : Z := 2 * 1000000000.

(** The keys of the session, or the error. *)
Definition derive_keys (h : Handshake) : res herr (bytes * bytes * bool) :=
  match state h with
  | handshakeResponseConsumed => let '(sendKey, recvKey) := KDF2 (chainKey h) [] in Ok (sendKey, recvKey, true)
  | handshakeResponseCreated => let '(recvKey, sendKey) := KDF2 (chainKey h) [] in Ok (sendKey, recvKey, false)
  | s => Err (EInvalidState s)
  end.
Definition set_keypairs (d : Device) (p : nat) (k : Keypairs) : Device :=
  match peers d !! p with None => d | Some x => with_peer d p (with_keypairs x k) end.
(** The rotation of key pairs, the new one being [keypair]. *)
Definition rotate (p keypair : nat) (initiator : bool) (d : Device) : Device :=
  match peers d !! p with
  | None => d
  | Some x =>
      let k := keypairs x in
      if initiator then
        let '(previous', d) := match next k with
                               | Some n => (Some n, DeleteKeypair d (current k))
                               | None => (current k, d)
                               end in
        let d := DeleteKeypair d (previous k) in
        set_keypairs d p (MkKeypairs (Some keypair) previous' None)
      else
        let d := DeleteKeypair d (next k) in
        let d := DeleteKeypair d (previous k) in
        set_keypairs d p (MkKeypairs (current k) None (Some keypair))
  end.
Definition count_handshake (d : Device) (p : nat) : Device :=
  match peers d !! p with
  | None => d
  | Some x => with_peer d p (MkPeer (handshake x) (keypairs x) (isRunning x) (u64 (handshakeCount x + 1)))
  end.
Definition BeginSymmetricSession (p : nat) (now : Z) (d : Device) : Device * res herr () :=
  match peers d !! p with
  | None => (d, Panic)
  | Some peer =>
      let h := handshake peer in
      match derive_keys h with
      | Err e => (d, Err e)
      | Panic => (d, Panic)
      | Ok (sendKey, recvKey, initiator) =>
          let h' := with_state (with_localEphemeral (with_symmetric h (zeros 32) (zeros 32)) (zeros 32)) handshakeZeroed in
          let keypair := MkKeypair 0 sendKey recvKey (Reset Filter_zero) initiator now (localIndex h) (remoteIndex h) in
          let k := nextPair d in
          let d := MkDevice (privateKey d) (dPublicKey d) (keyMap d) (peers d) (SwapIndexForKeypair (indexTable d) (localIndex h) k)
                     (<[k := keypair]> (pairs d)) (nextPeer d) (S k) in
          let d := set_handshake d p peer (with_localIndex h' 0) in
          (count_handshake (rotate p k initiator d) p, Ok ())
      end
  end.

Definition ReceivedWithKeypair (p receivedKeypair : nat) (d : Device) : Device * bool :=
  match peers d !! p with
  | None => (d, false)
  | Some x =>
      let k := keypairs x in
      if negb (bool_decide (next k = Some receivedKeypair)) then (d, false) else
      let d := DeleteKeypair d (previous k) in
      (set_keypairs d p (MkKeypairs (next k) (current k) None), true)
  end.

(** ** Peers *)

Definition MaxPeers : nat := 65536.
Definition NewPeer (pk : bytes) (closed : bool) (d : Device) : Device * res herr nat :=
  if closed then (d, Err EClosed)
  else if (MaxPeers <=? size (keyMap d))%nat then (d, Err ETooManyPeers)
  else match keyMap d !! pk with
  | Some _ => (d, Err EExistingPeer)
  | None =>
      let h := MkHandshake handshakeZeroed (zeros 32) (zeros 32) (zeros 32) (zeros 32) 0 0 pk (zeros 32) (ScalarMult (privateKey d) pk) (zeros 12) None None in
      let p := nextPeer d in
      (MkDevice (privateKey d) (dPublicKey d) (<[pk := p]> (keyMap d)) (<[p := MkPeer h (MkKeypairs None None None) false 0]> (peers d))
         (indexTable d) (pairs d) (S p) (nextPair d), Ok p)
  end.

(** The staged packets are not part of this state. *)
Definition ZeroAndFlushAll (p : nat) (d : Device) : Device :=
  match peers d !! p with
  | None => d
  | Some x =>
      let k := keypairs x in
      let d := DeleteKeypair d (previous k) in
      let d := DeleteKeypair d (current k) in
      let d := DeleteKeypair d (next k) in
      let d := with_table d (IndexTable_Delete (indexTable d) (localIndex (handshake x))) in
      with_peer d p (with_handshake (with_keypairs x (MkKeypairs None None None)) (Clear (handshake x)))
  end.

(** keypair.sendNonce.Store(RejectAfterMessages) *)
Definition reject_nonce (kp : Keypair) : Keypair :=
  MkKeypair RejectAfterMessages (send kp) (receive kp) (replayFilter kp) (isInitiator kp) (created kp) (kLocalIndex kp) (kRemoteIndex kp).
Definition reject_pair (d : Device) (key : option nat) : Device :=
  match key with
  | None => d
  | Some k => match pairs d !! k with None => d | Some kp => with_pairs d (<[k := reject_nonce kp]> (pairs d)) end
  end.
Definition ExpireCurrentKeypairs (p : nat) (now : Z) (d : Device) : Device :=
  match peers d !! p with
  | None => d
  | Some x =>
      let h := handshake x in
      let d := with_table d (IndexTable_Delete (indexTable d) (localIndex h)) in
      let d := set_handshake d p x (with_sent (Clear h) (Some (now - (RekeyTimeout + 1000000000)))) in
      reject_pair (reject_pair d (current (keypairs x))) (next (keypairs x))
  end.

Definition set_running (d : Device) (p : nat) (b : bool) : Device :=
  match peers d !! p with
  | None => d
  | Some x => with_peer d p (MkPeer (handshake x) (keypairs x) b (handshakeCount x))
  end.
(** Queues, timers and routines are not part of this state. *)
Definition Start (p : nat) (closed : bool) (now : Z) (d : Device) : Device :=
  match peers d !! p with
  | None => d
  | Some x =>
      if closed then d else if isRunning x then d else
      set_running (set_handshake d p x (with_sent (handshake x) (Some (now - (RekeyTimeout + 1000000000))))) p true
  end.
Definition Stop (p : nat) (d : Device) : Device :=
  match peers d !! p with
  | None => d
  | Some x => if isRunning x then ZeroAndFlushAll p (set_running d p false) else d
  end.
Definition removePeerLocked (key : bytes) (p : nat) (d : Device) : Device :=
  let d := Stop p d in
  MkDevice (privateKey d) (dPublicKey d) (delete key (keyMap d)) (peers d) (indexTable d) (pairs d) (nextPeer d) (nextPair d).
Definition RemovePeer (key : bytes) (d : Device) : Device :=
  match keyMap d !! key with None => d | Some p => removePeerLocked key p d end.
Definition set_presharedKey (p : nat) (psk : bytes) (d : Device) : Device :=
  match peers d !! p with
  | None => d
  | Some x =>
      let h := handshake x in
      set_handshake d p x (MkHandshake (state h) (hash h) (chainKey h) psk (localEphemeral h) (localIndex h) (remoteIndex h) (remoteStatic h)
        (remoteEphemeral h) (precomputedStaticStatic h) (lastTimestamp h) (lastInitiationConsumption h) (lastSentHandshake h))
  end.

(** Go's map iteration order is the parameter [range]. *)
Context (range : gmap bytes nat → list (bytes * nat)).
Definition remove_matching (publicKey : bytes) (d : Device) : Device :=
  foldl (fun d kp => match peers d !! kp.2 with
                     | Some x => if bool_decide (remoteStatic (handshake x) = publicKey) then removePeerLocked kp.1 kp.2 d else d
                     | None => d
                     end) d (range (keyMap d)).
Definition precompute (p : nat) (d : Device) : Device :=
  match peers d !! p with
  | None => d
  | Some x => set_handshake d p x (with_precomputed (handshake x) (ScalarMult (privateKey d) (remoteStatic (handshake x))))
  end.
Definition SetPrivateKey (sk : bytes) (now : Z) (d : Device) : Device :=
  if bool_decide (sk = privateKey d) then d else
  let pk := publicKey sk in
  let d := remove_matching pk d in
  let d := MkDevice sk pk (keyMap d) (peers d) (indexTable d) (pairs d) (nextPeer d) (nextPair d) in
  let expiredPeers := (range (keyMap d)).*2 in
  let d := foldl (fun d p => precompute p d) d expiredPeers in
  foldl (fun d p => ExpireCurrentKeypairs p now d) d expiredPeers.
End Sessions.
