(* ===== verification/HandshakeProps.v ===== *)
(** * Properties of the handshake

    The two sides of an undisturbed handshake derive the same keys; the index
    table names exactly the pending handshakes and the live sessions, whatever the
    order of operations; accepted initiations of a peer have increasing
    timestamps; and an index that can be lost. *)

From S2P Require Import Prelude GoStr Replay Noise Handshake.

Lemma peers_delete d k : peers (DeleteKeypair d k) = peers d.
Proof. unfold DeleteKeypair. by destruct (k ≫= _). Qed.
Lemma pairs_delete d k : pairs (DeleteKeypair d k) = pairs d.
Proof. unfold DeleteKeypair. by destruct (k ≫= _). Qed.

Section Agreement.
Context `{NoiseLaws}.

Lemma sharedSecret_sym a b : sharedSecret a (ScalarBaseMult b) = sharedSecret b (ScalarBaseMult a).
Proof. unfold sharedSecret. by rewrite shared_secret. Qed.
Lemma new_index_ok t p draws t' i : NewIndexForHandshake t p draws = Some (t', i, false) → t !! i = None ∧ t' = <[i := MkEntry (Some p) (Some p) None]> t ∧ (i, false) ∈ draws.
Proof.
  induction draws as [|[j failed] draws IH]; cbn [NewIndexForHandshake]; [done|]. destruct failed; [done|].
  destruct (t !! j) eqn:Hj.
  - intros Hn. destruct (IH Hn) as (? & ? & ?). split_and!; [done|done|by right].
  - intros [= <- <-]. split_and!; [done|done|by left].
Qed.

(** What both sides have to know of each other. *)
Record introduced (d1 d2 : Device) (p1 p2 : nat) (x1 x2 : Peer) : Prop := {
  in_keys1 : dPublicKey d1 = publicKey (privateKey d1);
  in_keys2 : dPublicKey d2 = publicKey (privateKey d2);
  in_peer1 : peers d1 !! p2 = Some x2;
  in_peer2 : peers d2 !! p1 = Some x1;
  in_map2 : keyMap d2 !! dPublicKey d1 = Some p1;
  in_running2 : isRunning x1 = true;
  in_static1 : remoteStatic (handshake x2) = dPublicKey d2;
  in_static2 : remoteStatic (handshake x1) = dPublicKey d1;
  in_pre1 : precomputedStaticStatic (handshake x2) = ScalarMult (privateKey d1) (dPublicKey d2);
  in_pre2 : precomputedStaticStatic (handshake x1) = ScalarMult (privateKey d2) (dPublicKey d1);
  in_psk : presharedKey (handshake x1) = presharedKey (handshake x2) }.

(** The responder's view of an initiation is the initiator's. *)
Lemma initiation_accepted d1 d2 p1 p2 x1 x2 rnd ts draws now d1' m :
  introduced d1 d2 p1 p2 x1 x2 → CreateMessageInitiation p2 rnd ts draws d1 = (d1', Some (Ok m)) →
  After ts (lastTimestamp (handshake x1)) = true → recently now (lastInitiationConsumption (handshake x1)) = false →
  ∃ h, d1' = set_handshake (with_table d1 (indexTable d1')) p2 x2 h ∧ indexTable d1' !! miSender m = Some (MkEntry (Some p2) (Some p2) None) ∧
    localIndex h = miSender m ∧ state h = handshakeInitiationCreated ∧ miEphemeral m = publicKey (localEphemeral h) ∧
    presharedKey h = presharedKey (handshake x2) ∧
    consume_initiation_check m now d2 = Some (MkVerified p1 (hash h) (chainKey h) (miSender m) (miEphemeral m) ts).
Proof.
  intros [HK1 HK2 HP1 HP2 HM HR HS1 HS2 HE1 HE2 HPSK] Hc Hts Hnow. unfold CreateMessageInitiation in Hc. rewrite HP1 in Hc. cbn [newPrivateKey] in Hc.
  destruct (rndFailed rnd); [done|].
  cbn [with_symmetric with_localEphemeral localEphemeral remoteStatic hash chainKey precomputedStaticStatic] in Hc.
  set (sk := clamp (rndBytes rnd)) in *. destruct (sharedSecret sk _) as [ss|] eqn:Hss; [|done].
  destruct (KDF2 _ ss) as [ck1 key1] eqn:Hk1. cbn [with_symmetric hash chainKey precomputedStaticStatic] in Hc. destruct (isZero _) eqn:Hz; [done|].
  destruct (KDF2 ck1 _) as [ck2 key2] eqn:Hk2. cbn [with_symmetric hash chainKey localIndex] in Hc.
  destruct (NewIndexForHandshake _ _ _) as [[[t i] []]|] eqn:Hn; [done| |done].
  apply new_index_ok in Hn as (_ & -> & _). injection Hc as <- <-. eexists. split; [reflexivity|]. split; [apply lookup_insert_eq|].
  split; [reflexivity|]. split; [reflexivity|]. split; [reflexivity|]. split; [reflexivity|].
  unfold consume_initiation_check. cbn [miType miEphemeral miStatic miTimestamp miSender]. rewrite Z.eqb_refl. cbn [negb].
  assert (sharedSecret (privateKey d2) (publicKey sk) = Some ss) as Hss2 by (rewrite HS1, HK2 in Hss; by rewrite <- Hss; apply sharedSecret_sym).
  assert (precomputedStaticStatic (handshake x1) = precomputedStaticStatic (handshake x2)) as Hpre by (rewrite HE1, HE2, HK1, HK2; apply shared_secret).
  rewrite Hss2. cbn [mbind option_bind]. rewrite Hk1, HS1. rewrite Open_Seal. cbn [mbind option_bind]. rewrite HM. cbn [mbind option_bind].
  rewrite HP2. cbn [mbind option_bind]. rewrite HR, Hpre, Hz. cbn [negb]. rewrite Hk2, Open_Seal. cbn [mbind option_bind]. rewrite Hts, Hnow. cbn [negb].
  reflexivity.
Qed.

(** The initiator's view of the response is the responder's. *)
Lemma response_accepted d1 d2 p1 p2 x1 x2 h1 h2 rnd draws d2' m :
  peers d1 !! p2 = Some (with_handshake x2 h1) → peers d2 !! p1 = Some (with_handshake x1 h2) →
  indexTable d1 !! localIndex h1 = Some (MkEntry (Some p2) (Some p2) None) →
  state h1 = handshakeInitiationCreated → remoteStatic h2 = publicKey (privateKey d1) →
  hash h1 = hash h2 → chainKey h1 = chainKey h2 → presharedKey h1 = presharedKey h2 →
  remoteEphemeral h2 = publicKey (localEphemeral h1) → remoteIndex h2 = localIndex h1 →
  CreateMessageResponse p1 rnd draws d2 = (d2', Some (Ok m)) →
  ∃ h, d2' = set_handshake (with_table d2 (indexTable d2')) p1 (with_handshake x1 h2) h ∧ indexTable d2' !! mrSender m = Some (MkEntry (Some p1) (Some p1) None) ∧
    localIndex h = mrSender m ∧ remoteIndex h = localIndex h1 ∧ state h = handshakeResponseCreated ∧
    consume_response_check m d1 = Some (MkVerifiedResponse p2 (Some p2) (hash h) (chainKey h) (mrSender m)).
Proof.
  intros HP1 HP2 HT Hst HS Hh Hck Hpsk Heph Hidx Hc. unfold CreateMessageResponse in Hc. rewrite HP2 in Hc. cbn [with_handshake handshake] in Hc.
  destruct (negb _); [done|]. destruct (NewIndexForHandshake _ _ _) as [[[t i] []]|] eqn:Hn; [done| |done].
  apply new_index_ok in Hn as (_ & -> & _). cbn [newPrivateKey] in Hc. destruct (rndFailed rnd); [done|].
  cbn [with_symmetric with_localEphemeral with_localIndex localEphemeral remoteEphemeral remoteStatic hash chainKey presharedKey] in Hc.
  set (sk := clamp (rndBytes rnd)) in *. destruct (sharedSecret sk (remoteEphemeral h2)) as [ss1|] eqn:Hs1; [|done].
  destruct (sharedSecret sk (remoteStatic h2)) as [ss2|] eqn:Hs2; [|done].
  destruct (KDF3 _ _) as [[ck tau] key] eqn:Hk. injection Hc as <- <-.
  eexists. split; [reflexivity|]. split; [apply lookup_insert_eq|]. split; [reflexivity|]. split; [exact Hidx|]. split; [reflexivity|].
  unfold consume_response_check. cbn [mrType mrReceiver mrEphemeral mrEmpty mrSender with_handshake handshake set_handshake remoteIndex]. rewrite Z.eqb_refl. cbn [negb].
  unfold IndexTable_Lookup. cbn [remoteIndex with_state with_symmetric with_localEphemeral with_localIndex]. rewrite Hidx, HT. cbn [default id eHandshake ePeer mbind option_bind].
  rewrite HP1. cbn [mbind option_bind with_handshake handshake]. rewrite bool_decide_true by done. cbn [negb].
  rewrite Heph in Hs1. rewrite HS in Hs2. unfold publicKey in *. rewrite sharedSecret_sym in Hs1, Hs2. rewrite Hs1. cbn [mbind option_bind]. rewrite Hs2. cbn [mbind option_bind].
  rewrite Hck, Hpsk, Hk, Hh, Open_Seal. cbn [mbind option_bind]. reflexivity.
Qed.

(** The key pairs after a rotation. *)
Definition rotated (k : Keypairs) (n : nat) (initiator : bool) : Keypairs :=
  if initiator then MkKeypairs (Some n) (match next k with Some x => Some x | None => current k end) None
  else MkKeypairs (current k) None (Some n).
Lemma rotate_eq p n ini d x : peers d !! p = Some x →
  rotate p n ini d =
    with_peer (DeleteKeypair (DeleteKeypair d (if ini then next (keypairs x) ≫= (fun _ => current (keypairs x)) else next (keypairs x))) (previous (keypairs x)))
      p (with_keypairs x (rotated (keypairs x) n ini)).
Proof.
  intros Hx. unfold rotate, rotated. rewrite Hx. destruct ini.
  - destruct (next (keypairs x)) as [k|] eqn:Hn; cbn [mbind option_bind]; unfold set_keypairs; by rewrite !peers_delete, Hx.
  - unfold set_keypairs. by rewrite !peers_delete, Hx.
Qed.

(** A session begins with the keys of the handshake. *)
Lemma begin_session p x h now d sk rk ini : peers d !! p = Some (with_handshake x h) → derive_keys h = Ok (sk, rk, ini) →
  ∃ d' x', BeginSymmetricSession p now d = (d', Ok ()) ∧ peers d' !! p = Some x' ∧
    (if ini then current (keypairs x') else next (keypairs x')) = Some (nextPair d) ∧
    pairs d' !! nextPair d = Some (MkKeypair 0 sk rk (Reset Filter_zero) ini now (localIndex h) (remoteIndex h)).
Proof.
  intros Hx Hk. unfold BeginSymmetricSession. rewrite Hx. cbn [with_handshake handshake]. rewrite Hk.
  erewrite rotate_eq by apply lookup_insert_eq. unfold count_handshake. cbn [with_peer peers]. rewrite lookup_insert_eq.
  eexists _, _. split; [reflexivity|]. split; [apply lookup_insert_eq|]. split; [by destruct ini|].
  cbn [with_peer pairs]. rewrite !pairs_delete. apply lookup_insert_eq.
Qed.

(** C5: Handshake agreement.  Two devices that know each other's keys and share
    the preshared key: when the one creates an initiation, the other accepts it,
    when that one creates a response, the first accepts it, and both begin
    sessions with each other's keys: what one sends the other receives, the indexes
    name each other, the initiator uses the session at once and the responder waits
    for its first packet. *)
Theorem handshake_agreement d1 d2 p1 p2 x1 x2 rnd1 rnd2 ts draws1 draws2 t1 t2 t3 t4 d1' m1 d2'' m2 :
  introduced d1 d2 p1 p2 x1 x2 →
  After ts (lastTimestamp (handshake x1)) = true → recently t1 (lastInitiationConsumption (handshake x1)) = false →
  CreateMessageInitiation p2 rnd1 ts draws1 d1 = (d1', Some (Ok m1)) →
  let '(d2', from) := ConsumeMessageInitiation m1 t1 t2 d2 in
  from = Some p1 ∧
  (CreateMessageResponse p1 rnd2 draws2 d2' = (d2'', Some (Ok m2)) →
   let '(d1'', from) := ConsumeMessageResponse m2 d1' in
   from = Some p2 ∧
   ∃ e1 e2 y1 y2 k1 k2, BeginSymmetricSession p2 t3 d1'' = (e1, Ok ()) ∧ BeginSymmetricSession p1 t4 d2'' = (e2, Ok ()) ∧
     peers e1 !! p2 = Some y2 ∧ peers e2 !! p1 = Some y1 ∧
     (current (keypairs y2) ≫= (pairs e1 !!.)) = Some k1 ∧ (next (keypairs y1) ≫= (pairs e2 !!.)) = Some k2 ∧
     send k1 = receive k2 ∧ receive k1 = send k2 ∧ kRemoteIndex k1 = kLocalIndex k2 ∧ kRemoteIndex k2 = kLocalIndex k1 ∧
     isInitiator k1 = true ∧ isInitiator k2 = false).
Proof.
  intros Hin Hts Hnow Hc. destruct (initiation_accepted d1 d2 p1 p2 x1 x2 rnd1 ts draws1 t1 d1' m1 Hin Hc Hts Hnow)
    as (h1 & Hd1 & Ht1 & Hi1 & Hs1 & He1 & Hpsk & Hcheck).
  unfold ConsumeMessageInitiation. rewrite Hcheck. cbn [vPeer]. split; [done|]. destruct Hin as [HK1 HK2 HP1 HP2 HM HR HS1 HS2 HE1 HE2 HPSK].
  unfold consume_initiation_update. cbn [vPeer vHash vChainKey vSender vEphemeral vTimestamp]. rewrite HP2. cbv zeta.
  match goal with |- context [set_handshake d2 p1 x1 ?h] => set (h2 := h) end. intros Hr.
  assert (peers d1' !! p2 = Some (with_handshake x2 h1)) as HP1' by (rewrite Hd1; apply lookup_insert_eq).
  assert (privateKey d1' = privateKey d1) as Hpk by (by rewrite Hd1).
  destruct (response_accepted d1' (set_handshake d2 p1 x1 h2) p1 p2 x1 x2 h1 h2 rnd2 draws2 d2'' m2) as (h & Hd2 & Ht2 & Hi2 & Hri & Hs2 & Hcheck2); try done.
  { apply lookup_insert_eq. }
  { by rewrite Hi1. }
  { rewrite Hpk. cbn. by rewrite HS2. }
  { cbn. by rewrite Hpsk. }
  unfold ConsumeMessageResponse. rewrite Hcheck2. unfold consume_response_update. cbn [wHandshake wHash wChainKey wSender wPeer]. rewrite HP1'. cbn [with_handshake handshake].
  rewrite bool_decide_true by done. cbn [negb]. split; [done|].
  set (h1' := with_state _ handshakeResponseConsumed). set (d1'' := set_handshake d1' p2 (with_handshake x2 h1) h1').
  destruct (derive_keys h) as [[[sk2 rk2] i2]| |] eqn:Hk2; unfold derive_keys in Hk2; rewrite Hs2 in Hk2; destruct (KDF2 (chainKey h) []) as [ka kb] eqn:Hkdf; try done.
  injection Hk2 as <- <- <-.
  destruct (begin_session p2 x2 h1' t3 d1'' ka kb true) as (e1 & y2 & Hb1 & Hy2 & Hc1 & Hk1); [apply lookup_insert_eq| |].
  { unfold derive_keys. change (state h1') with handshakeResponseConsumed. change (chainKey h1') with (chainKey h). by rewrite Hkdf. }
  destruct (begin_session p1 x1 h t4 d2'' kb ka false) as (e2 & y1 & Hb2 & Hy1 & Hc2 & Hk2); [rewrite Hd2; apply lookup_insert_eq|unfold derive_keys; by rewrite Hs2, Hkdf|].
  eexists e1, e2, y1, y2, _, _. split_and!; [done|done|done|done|by rewrite Hc1; cbn [mbind option_bind]; apply Hk1|by rewrite Hc2; cbn [mbind option_bind]; apply Hk2|..]; try done.
Qed.
End Agreement.

(** ** The index table *)

Definition live (k : Keypairs) : list nat := option_list (current k) ++ option_list (previous k) ++ option_list (next k).
Lemma elem_of_slot (o : option nat) k : k ∈ option_list o ↔ o = Some k.
Proof. destruct o as [n|]; cbn; [rewrite list_elem_of_singleton; naive_solver|rewrite elem_of_nil; naive_solver]. Qed.
Definition hs_entry (p : nat) : IndexTableEntry := MkEntry (Some p) (Some p) None.
Definition kp_entry (p k : nat) : IndexTableEntry := MkEntry (Some p) None (Some k).
Definition active (s : handshakeState) : Prop :=
  s = handshakeInitiationCreated ∨ s = handshakeResponseCreated ∨ s = handshakeResponseConsumed.

(** Key pairs a peer holds; [ex] are new ones not yet in their place. *)
Definition held (ex : nat → list nat) (p : nat) (x : Peer) : list nat := live (keypairs x) ++ ex p.
Definition none : nat → list nat := fun _ => [].
(** What the index [i] should be. *)
Definition names (d : Device) (ex : nat → list nat) (i : Z) (e : IndexTableEntry) : Prop :=
  ∃ p x, peers d !! p = Some x ∧
    (e = hs_entry p ∧ i = localIndex (handshake x) ∧ i ≠ 0 ∨
     ∃ k kp, e = kp_entry p k ∧ k ∈ held ex p x ∧ pairs d !! k = Some kp ∧ kLocalIndex kp = i).
Record device_ok (ex : nat → list nat) (d : Device) : Prop := {
  ok_table : ∀ i e, indexTable d !! i = Some e ↔ names d ex i e;
  ok_held : ∀ p x, peers d !! p = Some x → NoDup (held ex p x) ∧ ∀ k, k ∈ held ex p x → ∃ kp, pairs d !! k = Some kp ∧ kLocalIndex kp ≠ 0;
  ok_active : ∀ p x, peers d !! p = Some x → active (state (handshake x)) → localIndex (handshake x) ≠ 0;
  ok_pairs : ∀ k, (nextPair d ≤ k)%nat → pairs d !! k = None;
  ok_peers : ∀ p, (nextPeer d ≤ p)%nat → peers d !! p = None }.

(** Changes of a peer that keep its indexes. *)
Lemma ok_same_index ex d p x x' : device_ok ex d → peers d !! p = Some x → keypairs x' = keypairs x →
  localIndex (handshake x') = localIndex (handshake x) → (active (state (handshake x')) → localIndex (handshake x') ≠ 0) → device_ok ex (with_peer d p x').
Proof.
  intros [Ht Hh Ha Hp Hq] Hx Hk Hi Hs. split; cbn [with_peer indexTable peers pairs nextPair nextPeer].
  - intros i e. rewrite Ht. unfold names, held. cbn [with_peer peers pairs]. split; intros (q & y & Hy & Hc).
    + destruct (decide (q = p)) as [-> | Hne].
      * assert (y = x) as -> by congruence. exists p, x'. rewrite lookup_insert_eq. by rewrite Hk, Hi.
      * exists q, y. by rewrite lookup_insert_ne.
    + apply lookup_insert_Some in Hy as [[<- <-] | [Hne Hy]]; [exists p, x; by rewrite Hk, Hi in Hc|by exists q, y].
  - intros q y [[<- <-] | [Hne Hy]]%lookup_insert_Some; [|by apply Hh]. unfold held. rewrite Hk. by apply Hh.
  - intros q y [[<- <-] | [Hne Hy]]%lookup_insert_Some; [done|by eapply Ha].
  - done.
  - intros q Hle. rewrite lookup_insert_ne; [by apply Hq|]. intros <-. by rewrite Hq in Hx.
Qed.

(** An index names one thing. *)
Lemma names_det ex d i e e' : device_ok ex d → names d ex i e → names d ex i e' → e = e'.
Proof. intros Hok. rewrite <- !(ok_table _ _ Hok). congruence. Qed.

(** The pending handshake's index is given up. *)
Lemma ok_unindex ex d p x h : device_ok ex d → peers d !! p = Some x → localIndex h = 0 → ¬ active (state h) →
  device_ok ex (set_handshake (with_table d (IndexTable_Delete (indexTable d) (localIndex (handshake x)))) p x h).
Proof.
  intros Hok Hx Hi Hs. destruct (Hok) as [Ht Hh Ha Hp Hq]. set (L := localIndex (handshake x)).
  split; cbn [set_handshake with_peer with_table indexTable peers pairs nextPair nextPeer]; unfold IndexTable_Delete.
  - intros i e. rewrite lookup_delete_Some, Ht. split.
    + intros [Hne (q & y & Hy & Hc)]. destruct (decide (q = p)) as [-> | Hqp].
      * assert (y = x) as -> by congruence. exists p, (with_handshake x h). cbn. rewrite lookup_insert_eq. split; [done|].
        destruct Hc as [(_ & Hl & _)|Hc]; [by destruct Hne|]. by right.
      * exists q, y. cbn. by rewrite lookup_insert_ne.
    + intros (q & y & Hy & Hc). cbn in Hy.
      assert (names d ex i e ∧ e ≠ hs_entry p) as [Hn Hep].
      { apply lookup_insert_Some in Hy as [[<- <-] | [Hne Hy]].
        - destruct Hc as [(_ & Hl & Hl')|(k & kp & -> & Hc)]; [cbn in Hl; congruence|]. split; [|done]. exists p, x. split; [done|]. right. by exists k, kp.
        - split; [by exists q, y|]. destruct Hc as [(-> & _)|(k & kp & -> & _)]; [intros [= ?]; congruence|done]. }
      split; [|exact Hn]. intros <-. apply Hep. eapply names_det; [exact Hok|exact Hn|].
      exists p, x. split; [done|]. left. split; [done|]. split; [done|].
      destruct Hn as (q' & y' & Hy' & [(_ & _ & ?)|(k & kp & _ & Hk & Hkp & <-)]); [done|]. destruct (Hh q' y' Hy') as [_ Hall]. destruct (Hall k Hk) as (kp' & ? & ?). congruence.
  - intros q y [[<- <-] | [Hne Hy]]%lookup_insert_Some; [|by apply Hh]. exact (Hh p x Hx).
  - intros q y [[<- <-] | [Hne Hy]]%lookup_insert_Some; [done|by eapply Ha].
  - done.
  - intros q Hle. rewrite lookup_insert_ne; [by apply Hq|]. intros <-. by rewrite Hq in Hx.
Qed.

(** A fresh index is given to a handshake that has none. *)
Lemma ok_index ex d p x h i : device_ok ex d → peers d !! p = Some x → localIndex (handshake x) = 0 → indexTable d !! i = None → i ≠ 0 → localIndex h = i →
  device_ok ex (set_handshake (with_table d (<[i := hs_entry p]> (indexTable d))) p x h).
Proof.
  intros Hok Hx H0 Hfree Hi Hh'. destruct (Hok) as [Ht Hh Ha Hp Hq].
  split; cbn [set_handshake with_peer with_table indexTable peers pairs nextPair nextPeer].
  - intros j e. rewrite lookup_insert_Some, Ht. split.
    + intros [[<- <-] | [Hne (q & y & Hy & Hc)]].
      * exists p, (with_handshake x h). cbn. rewrite lookup_insert_eq. split; [done|]. by left.
      * destruct (decide (q = p)) as [-> | Hqp]; [|exists q, y; cbn; by rewrite lookup_insert_ne].
        assert (y = x) as -> by congruence. exists p, (with_handshake x h). cbn. rewrite lookup_insert_eq. split; [done|].
        destruct Hc as [(_ & Hl & ?)|Hc]; [congruence|]. by right.
    + intros (q & y & Hy & Hc). cbn in Hy. apply lookup_insert_Some in Hy as [[<- <-] | [Hne Hy]].
      * destruct Hc as [(-> & -> & _)|Hc]; [left; cbn; done|]. right.
        assert (names d ex j e) as Hn by (exists p, x; split; [done|by right]). split; [|done]. intros <-. apply Ht in Hn. congruence.
      * right. assert (names d ex j e) as Hn by (by exists q, y). split; [|done]. intros <-. apply Ht in Hn. congruence.
  - intros q y [[<- <-] | [Hne Hy]]%lookup_insert_Some; [|by apply Hh]. exact (Hh p x Hx).
  - intros q y [[<- <-] | [Hne Hy]]%lookup_insert_Some; [cbn; congruence|by eapply Ha].
  - done.
  - intros q Hle. rewrite lookup_insert_ne; [by apply Hq|]. intros <-. by rewrite Hq in Hx.
Qed.

Definition fail_free (draws : list (Z * bool)) : Prop := Forall (fun x => x.1 ≠ 0 ∧ x.2 = false) draws.
(** The old index is given up and a new one drawn. *)
Lemma ok_reindex d p x h t i draws : device_ok none d → peers d !! p = Some x → fail_free draws →
  NewIndexForHandshake (IndexTable_Delete (indexTable d) (localIndex (handshake x))) p draws = Some (t, i, false) → localIndex h = i →
  device_ok none (set_handshake (with_table d t) p x h).
Proof.
  intros Hok Hx Hd (Hfree & -> & Hin)%new_index_ok Hi. apply (proj1 (Forall_forall _ _) Hd) in Hin as [Hi0 _].
  set (h0 := with_state (with_localIndex (handshake x) 0) handshakeZeroed).
  pose proof (ok_unindex none d p x h0 Hok Hx eq_refl ltac:(intros [?|[?|?]]; done)) as Hun.
  pose proof (ok_index none _ p (with_handshake x h0) h i Hun (lookup_insert_eq _ _ _) eq_refl Hfree Hi0 Hi) as Hnew.
  unfold set_handshake, with_peer, with_table in *. cbn in *. by rewrite insert_insert_eq in Hnew.
Qed.

(** Key pairs are dropped with their indexes. *)
Definition retired (d : Device) (dels : list (option nat)) : Device := foldl DeleteKeypair d dels.
Lemma retired_frame dels : ∀ d, peers (retired d dels) = peers d ∧ pairs (retired d dels) = pairs d ∧
  nextPair (retired d dels) = nextPair d ∧ nextPeer (retired d dels) = nextPeer d.
Proof.
  unfold retired. induction dels as [|k dels IH]; intros d; [done|]. cbn [foldl]. destruct (IH (DeleteKeypair d k)) as (-> & -> & -> & ->).
  unfold DeleteKeypair. by destruct (k ≫= _).
Qed.
Lemma retired_table dels : ∀ d i e, indexTable (retired d dels) !! i = Some e ↔
  indexTable d !! i = Some e ∧ ∀ k kp, Some k ∈ dels → pairs d !! k = Some kp → kLocalIndex kp ≠ i.
Proof.
  induction dels as [|k dels IH]; intros d i e; cbn [retired foldl].
  - split; [intros ?; split; [done|]; intros k kp Hk; by apply elem_of_nil in Hk|by intros [? _]].
  - unfold retired in IH. rewrite IH, pairs_delete. unfold DeleteKeypair. destruct k as [k|]; cbn [mbind option_bind].
    + destruct (pairs d !! k) as [kp|] eqn:Hk; cbn [with_table indexTable]; unfold IndexTable_Delete; rewrite ?lookup_delete_Some; split.
      * intros [[Hne Hi] Hall]. split; [done|]. intros k' kp' [[= ->] | ?]%elem_of_cons ?; [congruence|by eapply Hall].
      * intros [Hi Hall]. split; [split; [|done]|intros; eapply Hall; [by right|done]]. by eapply Hall; [left|].
      * intros [Hi Hall]. split; [done|]. intros k' kp' [[= ->] | ?]%elem_of_cons ?; [congruence|by eapply Hall].
      * intros [Hi Hall]. split; [done|]. intros; eapply Hall; [by right|done].
    + split; intros [Hi Hall]; (split; [done|]); intros k' kp' Hin ?; (eapply Hall; [|done]); [by apply elem_of_cons in Hin as [?|?]|by right].
Qed.
Lemma ok_retire ex d p x K dels : device_ok ex d → peers d !! p = Some x → (∀ q, q ≠ p → ex q = []) →
  held ex p x ≡ₚ live K ++ omap id dels → device_ok none (with_peer (retired d dels) p (with_keypairs x K)).
Proof.
  intros Hok Hx Hex Hperm. destruct (Hok) as [Ht Hh Ha Hp Hq]. destruct (retired_frame dels d) as (Ep & Er & En & Eq).
  destruct (Hh p x Hx) as [Hnd Hall]. rewrite Hperm in Hnd. apply NoDup_app in Hnd as (Hnd1 & Hdisj & _).
  split; cbn [with_peer indexTable peers pairs nextPair nextPeer]; rewrite ?Ep, ?Er, ?En, ?Eq.
  - intros i e. rewrite retired_table, Ht. unfold names. cbn [with_peer peers pairs]. rewrite Ep, Er. split.
    + intros [(q & y & Hy & Hc) Hkeep]. destruct (decide (q = p)) as [-> | Hqp].
      * assert (y = x) as -> by congruence. exists p, (with_keypairs x K). rewrite lookup_insert_eq. split; [done|].
        destruct Hc as [?|(k & kp & -> & Hk & Hkp & Hi)]; [by left|]. right. exists k, kp. split_and!; try done.
        rewrite Hperm in Hk. unfold held. cbn. rewrite app_nil_r. apply elem_of_app in Hk as [?|(o & Ho & Hid)%list_elem_of_omap]; [done|].
        cbn in Hid. subst o. exfalso. by eapply Hkeep.
      * exists q, y. rewrite lookup_insert_ne by done. split; [done|]. unfold held in Hc. by rewrite Hex in Hc by done.
    + intros (q & y & Hy & Hc).
      assert (names d ex i e ∧ ∀ k, e = kp_entry p k → k ∈ live K) as [Hn Hlive].
      { apply lookup_insert_Some in Hy as [[<- <-] | [Hne Hy]].
        - split; [|intros k ->; destruct Hc as [(? & _)|(k' & kp & [= <-] & Hk & _)]; [done|]; unfold held in Hk; cbn in Hk; by rewrite app_nil_r in Hk].
          exists p, x. split; [done|]. destruct Hc as [?|(k & kp & -> & Hk & Hc)]; [by left|]. right. exists k, kp. split; [done|]. split; [|done].
          rewrite Hperm. apply elem_of_app. left. unfold held in Hk. cbn in Hk. by rewrite app_nil_r in Hk.
        - split; [|intros k ->; destruct Hc as [(? & _)|(k' & kp & [= ? <-] & _)]; done].
          exists q, y. split; [done|]. unfold held in *. by rewrite Hex by done. }
      split; [exact Hn|]. intros k kp Hin Hkp <-.
      assert (k ∈ omap id dels) as Hk by (apply list_elem_of_omap; by exists (Some k)).
      apply (Hdisj k); [|exact Hk]. apply Hlive. eapply names_det; [exact Hok|exact Hn|]. exists p, x. split; [done|]. right.
      exists k, kp. split_and!; try done. rewrite Hperm. apply elem_of_app. by right.
  - intros q y [[<- <-] | [Hne Hy]]%lookup_insert_Some; unfold held; cbn [none with_keypairs keypairs]; rewrite app_nil_r.
    + split; [done|]. intros k Hk. apply Hall. rewrite Hperm. apply elem_of_app. by left.
    + destruct (Hh q y Hy) as [H1 H2]. unfold held in *. rewrite Hex in * by done. by rewrite app_nil_r in *.
  - intros q y [[<- <-] | [Hne Hy]]%lookup_insert_Some; [cbn; by eapply Ha|by eapply Ha].
  - done.
  - intros q Hle. rewrite lookup_insert_ne; [by apply Hq|]. intros <-. by rewrite Hq in Hx.
Qed.

(** A handshake's index becomes that of a new key pair. *)
Definition fresh_for (p k : nat) : nat → list nat := fun q => if decide (q = p) then [k] else [].
Definition promoted (d : Device) (p : nat) (x : Peer) (h : Handshake) (kp : Keypair) : Device :=
  set_handshake (MkDevice (privateKey d) (dPublicKey d) (keyMap d) (peers d) (SwapIndexForKeypair (indexTable d) (localIndex (handshake x)) (nextPair d))
    (<[nextPair d := kp]> (pairs d)) (nextPeer d) (S (nextPair d))) p x h.
Section Promote.
Context (d : Device) (p : nat) (x : Peer) (h : Handshake) (kp : Keypair).
Context (Hok : device_ok none d) (Hx : peers d !! p = Some x) (HL : localIndex (handshake x) ≠ 0) (Hkp : kLocalIndex kp = localIndex (handshake x)).
Context (H0 : localIndex h = 0) (Hs : ¬ active (state h)).
Abbreviation L := (localIndex (handshake x)).
Abbreviation d' := (promoted d p x h kp).

Lemma held_none q y : held none q y = live (keypairs y).
Proof. unfold held. by rewrite app_nil_r. Qed.
Lemma live_old q y k : peers d !! q = Some y → k ∈ live (keypairs y) → k ≠ nextPair d.
Proof using Hok.
  intros Hy Hk ->. destruct (ok_held _ _ Hok q y Hy) as [_ Hall]. destruct (Hall (nextPair d)) as (kp' & Hl & _); [by rewrite held_none|].
  by rewrite (ok_pairs _ _ Hok) in Hl by done.
Qed.
Lemma promoted_entry : indexTable d !! L = Some (hs_entry p).
Proof using Hok Hx HL. apply (ok_table _ _ Hok). exists p, x. split; [done|by left]. Qed.
(** Peers keep their key pairs, and all but the promoted one their index. *)
Lemma promoted_peers q y : peers d' !! q = Some y ↔ ∃ y', peers d !! q = Some y' ∧ y = if decide (q = p) then with_handshake x h else y'.
Proof using Hx.
  cbn. rewrite lookup_insert_Some. split.
  - intros [[<- <-] | [Hne Hy]]; [exists x; by rewrite decide_True|exists y; by rewrite decide_False].
  - intros (y' & Hy' & ->). destruct (decide (q = p)) as [-> | ?]; [by left|by right].
Qed.
Lemma promoted_live q y y' : peers d !! q = Some y' → y = (if decide (q = p) then with_handshake x h else y') → live (keypairs y) = live (keypairs y').
Proof using Hx. intros Hy' ->. destruct (decide (q = p)) as [-> |]; [|done]. assert (y' = x) as -> by congruence. done. Qed.

Lemma promoted_names i e : names d' (fresh_for p (nextPair d)) i e ↔ i = L ∧ e = kp_entry p (nextPair d) ∨ i ≠ L ∧ names d none i e.
Proof using Hok Hx HL Hkp H0.
  pose proof promoted_entry as Hent. split.
  - intros (q & y & (y' & Hy' & Hyy)%promoted_peers & [(-> & -> & Hi0)|(k & kp' & -> & Hk & Hkp' & Hi)]).
    + destruct (decide (q = p)) as [-> | Hne]; [subst y; cbn in Hi0; congruence|subst y]. right.
      assert (names d none (localIndex (handshake y')) (hs_entry q)) as Hn by (exists q, y'; split; [done|by left]).
      split; [|exact Hn]. intros Heq. apply (ok_table _ _ Hok) in Hn. rewrite Heq, Hent in Hn. by injection Hn as ?.
    + unfold held in Hk. rewrite (promoted_live q y y' Hy' Hyy) in Hk. apply elem_of_app in Hk as [Hk|Hk]; cbn in Hkp'.
      * rewrite lookup_insert_ne in Hkp' by (apply not_eq_sym; by eapply live_old). right.
        assert (names d none i (kp_entry q k)) as Hn by (exists q, y'; split; [done|right; exists k, kp'; by rewrite held_none]).
        split; [|exact Hn]. intros ->. apply (ok_table _ _ Hok) in Hn. rewrite Hent in Hn. done.
      * unfold fresh_for in Hk. destruct (decide (q = p)) as [-> |]; [|by apply elem_of_nil in Hk]. apply list_elem_of_singleton in Hk as ->.
        rewrite lookup_insert_eq in Hkp'. injection Hkp' as <-. left. split; [congruence|done].
  - intros [[-> ->] | [Hne (q & y' & Hy' & Hc)]].
    + exists p, (with_handshake x h). split; [apply promoted_peers; exists x; by rewrite decide_True|]. right. exists (nextPair d), kp. cbn. rewrite lookup_insert_eq.
      split_and!; try done. unfold held, fresh_for. rewrite decide_True by done. apply elem_of_app. right. by left.
    + exists q, (if decide (q = p) then with_handshake x h else y'). split; [apply promoted_peers; by exists y'|].
      destruct Hc as [(-> & Hi & Hi0)|(k & kp' & -> & Hk & Hkp' & Hi)].
      * left. rewrite decide_False; [done|]. intros ->. assert (y' = x) as -> by congruence. done.
      * right. exists k, kp'. rewrite held_none in Hk. cbn. rewrite lookup_insert_ne by (apply not_eq_sym; by eapply live_old). split_and!; try done.
        unfold held. erewrite promoted_live by done. apply elem_of_app. by left.
Qed.

Lemma ok_promote : device_ok (fresh_for p (nextPair d)) d'.
Proof using Hok Hx HL Hkp H0 Hs.
  pose proof promoted_entry as Hent. destruct (Hok) as [Ht Hh Ha Hp Hq]. split.
  - intros i e. rewrite promoted_names. unfold promoted, SwapIndexForKeypair. rewrite Hent. cbn. rewrite lookup_insert_Some, Ht. naive_solver.
  - intros q y (y' & Hy' & Hyy)%promoted_peers. destruct (Hh q y' Hy') as [Hnd Hall]. rewrite held_none in Hnd, Hall.
    unfold held. rewrite (promoted_live q y y' Hy' Hyy). unfold fresh_for. cbn. split.
    + apply NoDup_app. split; [done|]. destruct (decide (q = p)); [|split; [set_solver|constructor]].
      split; [|apply NoDup_singleton]. intros k Hk ->%list_elem_of_singleton. by eapply live_old.
    + intros k [Hk|Hk]%elem_of_app.
      * rewrite lookup_insert_ne by (apply not_eq_sym; by eapply live_old). by apply Hall.
      * destruct (decide (q = p)); [|by apply elem_of_nil in Hk]. apply list_elem_of_singleton in Hk as ->.
        exists kp. rewrite lookup_insert_eq. split; [done|congruence].
  - intros q y (y' & Hy' & ->)%promoted_peers. destruct (decide (q = p)); [done|by eapply Ha].
  - intros k Hle. cbn in *. rewrite lookup_insert_ne by lia. apply Hp. lia.
  - intros q Hle. cbn in *. rewrite lookup_insert_ne; [by apply Hq|]. intros <-. by rewrite Hq in Hx.
Qed.
End Promote.

(** ** Operations keep the table exact *)

Lemma ok_keys ex d sk pk km : device_ok ex d → device_ok ex (MkDevice sk pk km (peers d) (indexTable d) (pairs d) (nextPeer d) (nextPair d)).
Proof. intros [Ht Hh Ha Hp Hq]. by split. Qed.
Lemma ok_pair ex d k kp kp' : device_ok ex d → pairs d !! k = Some kp → kLocalIndex kp' = kLocalIndex kp → device_ok ex (with_pairs d (<[k := kp']> (pairs d))).
Proof.
  intros [Ht Hh Ha Hp Hq] Hk Hi.
  assert (∀ j q, pairs d !! j = Some q → ∃ q', <[k := kp']> (pairs d) !! j = Some q' ∧ kLocalIndex q' = kLocalIndex q) as Hto.
  { intros j q Hj. destruct (decide (j = k)) as [-> |]; [exists kp'; rewrite lookup_insert_eq; split; [done|congruence]|exists q; by rewrite lookup_insert_ne]. }
  assert (∀ j q, <[k := kp']> (pairs d) !! j = Some q → ∃ q', pairs d !! j = Some q' ∧ kLocalIndex q' = kLocalIndex q) as Hfrom.
  { intros j q [[<- <-] | [_ ?]]%lookup_insert_Some; [by exists kp|by exists q]. }
  split; cbn; try done.
  - intros i e. rewrite Ht. unfold names. cbn. split; intros (p & x & Hx & [?|(j & q & He & Hj & Hq' & Hl)]).
    + exists p, x. split; [done|by left].
    + destruct (Hto j q Hq') as (q' & ? & ?). exists p, x. split; [done|]. right. exists j, q'. split_and!; try done. congruence.
    + exists p, x. split; [done|by left].
    + destruct (Hfrom j q Hq') as (q' & ? & ?). exists p, x. split; [done|]. right. exists j, q'. split_and!; try done. congruence.
  - intros p x Hx. destruct (Hh p x Hx) as [? Hall]. split; [done|]. intros j Hj. destruct (Hall j Hj) as (q & Hq' & ?). destruct (Hto j q Hq') as (q' & ? & ?). exists q'. split; [done|congruence].
  - intros j Hj. rewrite lookup_insert_ne; [by apply Hp|]. intros <-. by rewrite Hp in Hk.
Qed.
Lemma new_index_fails t p draws t' i : fail_free draws → NewIndexForHandshake t p draws ≠ Some (t', i, true).
Proof.
  induction 1 as [|[j failed] draws [_ Hf] _ IH]; cbn [NewIndexForHandshake]; [done|]. cbn in Hf. subst failed. by destruct (t !! j).
Qed.

(** Concrete permutations. *)
Lemma perm_second {A} (a b : A) l r : l ≡ₚ b :: r → a :: l ≡ₚ b :: a :: r.
Proof. apply (Permutation_cons_app [b] r a). Qed.
Lemma perm_third {A} (a b c : A) l r : l ≡ₚ b :: c :: r → a :: l ≡ₚ b :: c :: a :: r.
Proof. apply (Permutation_cons_app [b; c] r a). Qed.
Lemma perm_fourth {A} (a b c d : A) l r : l ≡ₚ b :: c :: d :: r → a :: l ≡ₚ b :: c :: d :: a :: r.
Proof. apply (Permutation_cons_app [b; c; d] r a). Qed.
Ltac perm := solve [repeat first [reflexivity | apply perm_skip | apply perm_second | apply perm_third | apply perm_fourth]].

Section Preserve.
Context `{NoiseCrypto}.

Lemma create_initiation_keeps p rnd ts draws d d' out : device_ok none d → fail_free draws → CreateMessageInitiation p rnd ts draws d = (d', Some out) → device_ok none d'.
Proof.
  intros Hok Hf. unfold CreateMessageInitiation. destruct (peers d !! p) as [x|] eqn:Hx; [|by intros [= <- _]]. cbn [newPrivateKey].
  assert (∀ sk hs ck, device_ok none (set_handshake d p x (with_symmetric (with_localEphemeral (handshake x) sk) hs ck))) as Hsame.
  { intros. apply (ok_same_index none d p x); try done. cbn. by apply (ok_active _ _ Hok p x). }
  destruct (rndFailed rnd); [intros [= <- _]; apply Hsame|]. destruct (sharedSecret _ _) as [ss|]; [|intros [= <- _]; apply Hsame].
  destruct (KDF2 _ ss) as [ck key]. destruct (isZero _); [intros [= <- _]; apply Hsame|]. destruct (KDF2 ck _) as [ck2 key2].
  destruct (NewIndexForHandshake _ _ _) as [[[t i] []]|] eqn:Hn; [by destruct (new_index_fails _ _ _ _ _ Hf Hn)| |done].
  intros [= <- _]. by eapply (ok_reindex d p x).
Qed.
Lemma create_response_keeps p rnd draws d d' out : device_ok none d → fail_free draws → CreateMessageResponse p rnd draws d = (d', Some out) → device_ok none d'.
Proof.
  intros Hok Hf. unfold CreateMessageResponse. destruct (peers d !! p) as [x|] eqn:Hx; [|by intros [= <- _]]. cbv zeta.
  destruct (negb _); [by intros [= <- _]|].
  destruct (NewIndexForHandshake _ _ _) as [[[t i] []]|] eqn:Hn; [by destruct (new_index_fails _ _ _ _ _ Hf Hn)| |done].
  assert (∀ h, localIndex h = i → device_ok none (set_handshake (with_table d t) p x h)) as Hre by (intros h Hi; by eapply (ok_reindex d p x)).
  cbn [newPrivateKey]. destruct (rndFailed rnd); [intros [= <- _]; by apply Hre|].
  destruct (sharedSecret _ _) as [ss|]; [|intros [= <- _]; by apply Hre]. destruct (sharedSecret _ _) as [ss2|]; [|intros [= <- _]; by apply Hre].
  destruct (KDF3 _ _) as [[ck tau] key]. intros [= <- _]. by apply Hre.
Qed.
Lemma update_initiation_keeps v now d : device_ok none d → device_ok none (consume_initiation_update v now d).
Proof.
  intros Hok. unfold consume_initiation_update. destruct (peers d !! vPeer v) as [x|] eqn:Hx; [|done].
  apply (ok_same_index none d _ x); try done. intros [?|[?|?]]; done.
Qed.
Lemma update_response_keeps v d : device_ok none d → device_ok none (consume_response_update v d).1.
Proof.
  intros Hok. unfold consume_response_update. destruct (peers d !! wHandshake v) as [x|] eqn:Hx; [|done].
  destruct (bool_decide_reflect (state (handshake x) = handshakeInitiationCreated)) as [Hs|]; [|done].
  apply (ok_same_index none d _ x); try done. intros _. apply (ok_active _ _ Hok _ x Hx). rewrite Hs. by left.
Qed.
Lemma session_keeps p now d : device_ok none d → device_ok none (BeginSymmetricSession p now d).1.
Proof.
  intros Hok. unfold BeginSymmetricSession. destruct (peers d !! p) as [x|] eqn:Hx; [|done].
  destruct (derive_keys (handshake x)) as [[[sk rk] ini]| |] eqn:Hk; [|done|done]. cbn [fst].
  set (h := with_localIndex _ 0). set (kp := MkKeypair _ _ _ _ _ _ _ _).
  assert (localIndex (handshake x) ≠ 0) as HL.
  { apply (ok_active _ _ Hok p x Hx). unfold derive_keys in Hk. unfold active. destruct (state (handshake x)); try done; tauto. }
  pose proof (ok_promote d p x h kp Hok Hx HL eq_refl eq_refl ltac:(intros [?|[?|?]]; done)) as Hpro.
  change (set_handshake _ p x h) with (promoted d p x h kp). unfold count_handshake.
  erewrite rotate_eq by apply lookup_insert_eq.
  match goal with |- context [with_peer (DeleteKeypair (DeleteKeypair ?e ?a) ?b) p (with_keypairs ?y ?K)] =>
    change (DeleteKeypair (DeleteKeypair e a) b) with (retired e [a; b]); pose proof (ok_retire _ e p y K [a; b] Hpro (lookup_insert_eq _ _ _)) as Hret end.
  cbn [with_peer peers] in *. rewrite lookup_insert_eq. eapply (ok_same_index none); [apply Hret|apply lookup_insert_eq|done|done|].
  - intros q Hq. unfold fresh_for. by rewrite decide_False.
  - unfold held, fresh_for, rotated, live. rewrite decide_True by done. cbn [with_handshake keypairs]. destruct (keypairs x) as [[c|] [pr|] [n|]]; destruct ini; cbn; perm.
  - intros [?|[?|?]]; done.
Qed.
Lemma received_keeps p k d : device_ok none d → device_ok none (ReceivedWithKeypair p k d).1.
Proof.
  intros Hok. unfold ReceivedWithKeypair. destruct (peers d !! p) as [x|] eqn:Hx; [|done]. destruct (negb _); [done|]. cbn [fst].
  unfold set_keypairs. rewrite peers_delete, Hx. change (DeleteKeypair d (previous (keypairs x))) with (retired d [previous (keypairs x)]).
  apply (ok_retire none); [done|done|done|]. unfold held, live. destruct (keypairs x) as [[c|] [pr|] [n|]]; cbn; perm.
Qed.

Lemma new_peer_keeps pk closed d : device_ok none d → device_ok none (NewPeer pk closed d).1.
Proof.
  intros Hok. unfold NewPeer. destruct closed; [done|]. destruct (_ <=? _)%nat; [done|]. destruct (keyMap d !! pk); [done|]. cbn [fst].
  destruct (Hok) as [Ht Hh Ha Hp Hq]. split; cbn.
  - intros i e. rewrite Ht. unfold names. cbn. split; intros (p & x & Hx & Hc).
    + exists p, x. split; [|done]. rewrite lookup_insert_ne; [done|]. intros <-. by rewrite Hq in Hx.
    + apply lookup_insert_Some in Hx as [[<- <-] | [Hne Hx]]; [|by exists p, x]. cbn in Hc.
      destruct Hc as [(_ & -> & ?)|(k & kp & _ & Hk & _)]; [done|]. by apply elem_of_nil in Hk.
  - intros p x [[<- <-] | [Hne Hx]]%lookup_insert_Some; [|by apply Hh]. split; [constructor|]. intros k Hk. by apply elem_of_nil in Hk.
  - intros p x [[<- <-] | [Hne Hx]]%lookup_insert_Some; [|by eapply Ha]. intros [?|[?|?]]; done.
  - done.
  - intros p Hle. rewrite lookup_insert_ne by lia. apply Hq. lia.
Qed.
Lemma zero_keeps p d : device_ok none d → device_ok none (ZeroAndFlushAll p d).
Proof.
  intros Hok. unfold ZeroAndFlushAll. destruct (peers d !! p) as [x|] eqn:Hx; [|done]. cbv zeta.
  set (K := MkKeypairs None None None). set (dels := [previous (keypairs x); current (keypairs x); next (keypairs x)]).
  change (DeleteKeypair (DeleteKeypair (DeleteKeypair d _) _) _) with (retired d dels).
  assert (device_ok none (with_peer (retired d dels) p (with_keypairs x K))) as Hret.
  { apply (ok_retire none); [done|done|done|]. unfold held, live, dels. destruct (keypairs x) as [[c|] [pr|] [n|]]; cbn; perm. }
  pose proof (ok_unindex none _ p (with_keypairs x K) (Clear (handshake x)) Hret (lookup_insert_eq _ _ _) eq_refl ltac:(intros [?|[?|?]]; done)) as Hun.
  unfold set_handshake, with_peer, with_table in *. cbn in *. by rewrite insert_insert_eq in Hun.
Qed.
Lemma reject_keeps d k : device_ok none d → device_ok none (reject_pair d k).
Proof. intros Hok. unfold reject_pair. destruct k as [k|]; [|done]. destruct (pairs d !! k) as [kp|] eqn:Hk; [|done]. by eapply ok_pair. Qed.
Lemma expire_keeps p now d : device_ok none d → device_ok none (ExpireCurrentKeypairs p now d).
Proof.
  intros Hok. unfold ExpireCurrentKeypairs. destruct (peers d !! p) as [x|] eqn:Hx; [|done]. apply reject_keeps, reject_keeps.
  apply (ok_unindex none); try done. intros [?|[?|?]]; done.
Qed.
Lemma same_keeps d p x x' : device_ok none d → peers d !! p = Some x → keypairs x' = keypairs x → localIndex (handshake x') = localIndex (handshake x) →
  state (handshake x') = state (handshake x) → device_ok none (with_peer d p x').
Proof. intros Hok Hx Hk Hi Hs. apply (ok_same_index none d p x); try done. rewrite Hi, Hs. by apply (ok_active _ _ Hok p x). Qed.
Lemma running_keeps d p b : device_ok none d → device_ok none (set_running d p b).
Proof. intros Hok. unfold set_running. destruct (peers d !! p) as [x|] eqn:Hx; [|done]. by eapply same_keeps. Qed.
Lemma start_keeps p closed now d : device_ok none d → device_ok none (Start p closed now d).
Proof.
  intros Hok. unfold Start. destruct (peers d !! p) as [x|] eqn:Hx; [|done]. destruct closed; [done|]. destruct (isRunning x); [done|].
  apply running_keeps. by eapply same_keeps.
Qed.
Lemma stop_keeps p d : device_ok none d → device_ok none (Stop p d).
Proof. intros Hok. unfold Stop. destruct (peers d !! p) as [x|]; [|done]. destruct (isRunning x); [|done]. by apply zero_keeps, running_keeps. Qed.
Lemma remove_keeps key p d : device_ok none d → device_ok none (removePeerLocked key p d).
Proof. intros Hok. apply ok_keys. by apply stop_keeps. Qed.
Lemma psk_keeps p psk d : device_ok none d → device_ok none (set_presharedKey p psk d).
Proof. intros Hok. unfold set_presharedKey. destruct (peers d !! p) as [x|] eqn:Hx; [|done]. by eapply same_keeps. Qed.
Lemma fold_keeps {A} (f : Device → A → Device) l : (∀ d a, device_ok none d → device_ok none (f d a)) → ∀ d, device_ok none d → device_ok none (foldl f d l).
Proof. intros Hf. induction l as [|a l IH]; intros d Hok; [done|]. by apply IH, Hf. Qed.
Lemma set_key_keeps range sk now d : device_ok none d → device_ok none (SetPrivateKey range sk now d).
Proof.
  intros Hok. unfold SetPrivateKey. destruct (bool_decide _); [done|]. cbv zeta. apply fold_keeps; [intros; by apply expire_keeps|].
  apply fold_keeps; [intros e p He; unfold precompute; destruct (peers e !! p) as [x|] eqn:Hx; [|done]; by eapply same_keeps|]. apply ok_keys.
  apply fold_keeps; [|done]. intros e [k p] He. cbn [fst snd]. destruct (peers e !! p) as [x|]; [|done]. destruct (bool_decide _); [by apply remove_keeps|done].
Qed.
End Preserve.

(** ** The device under concurrent handlers

    Between the check and the update of a consumed message other handlers run. *)
Record net := MkNet { nDevice : Device; nInitiations : list verified_initiation; nResponses : list verified_response }.

Section System.
Context `{NoiseCrypto} (range : gmap bytes nat → list (bytes * nat)).

Inductive local_step (d : Device) : Device → Prop :=
| l_initiate p rnd ts draws d' out : fail_free draws → CreateMessageInitiation p rnd ts draws d = (d', Some out) → local_step d d'
| l_respond p rnd draws d' out : fail_free draws → CreateMessageResponse p rnd draws d = (d', Some out) → local_step d d'
| l_begin p now : local_step d (BeginSymmetricSession p now d).1
| l_received p k : local_step d (ReceivedWithKeypair p k d).1
| l_new_peer pk closed : local_step d (NewPeer pk closed d).1
| l_zero p : local_step d (ZeroAndFlushAll p d)
| l_expire p now : local_step d (ExpireCurrentKeypairs p now d)
| l_start p closed now : local_step d (Start p closed now d)
| l_stop p : local_step d (Stop p d)
| l_remove key : local_step d (RemovePeer key d)
| l_psk p psk : local_step d (set_presharedKey p psk d)
| l_set_key sk now : local_step d (SetPrivateKey range sk now d).

Inductive net_step : net → net → Prop :=
| n_local d vs ws d' : local_step d d' → net_step (MkNet d vs ws) (MkNet d' vs ws)
| n_check_initiation d vs ws msg now v : consume_initiation_check msg now d = Some v → net_step (MkNet d vs ws) (MkNet d (v :: vs) ws)
| n_update_initiation d l1 v l2 ws now : net_step (MkNet d (l1 ++ v :: l2) ws) (MkNet (consume_initiation_update v now d) (l1 ++ l2) ws)
| n_check_response d vs ws msg w : consume_response_check msg d = Some w → net_step (MkNet d vs ws) (MkNet d vs (w :: ws))
| n_update_response d vs l1 w l2 : net_step (MkNet d vs (l1 ++ w :: l2)) (MkNet (consume_response_update w d).1 vs (l1 ++ l2)).

Lemma local_keeps d d' : device_ok none d → local_step d d' → device_ok none d'.
Proof.
  intros Hok [p rnd ts draws e out Hf Hc|p rnd draws e out Hf Hc|p now|p k|pk closed|p|p now|p closed now|p|key|p psk|sk now].
  - by eapply create_initiation_keeps.
  - by eapply create_response_keeps.
  - by apply session_keeps.
  - by apply received_keeps.
  - by apply new_peer_keeps.
  - by apply zero_keeps.
  - by apply expire_keeps.
  - by apply start_keeps.
  - by apply stop_keeps.
  - unfold RemovePeer. destruct (keyMap d !! key); [by apply remove_keeps|done].
  - by apply psk_keeps.
  - by apply set_key_keeps.
Qed.
Lemma net_keeps s s' : device_ok none (nDevice s) → net_step s s' → device_ok none (nDevice s').
Proof.
  intros Hok Hs. destruct Hs as [d vs ws d' Hl|d vs ws msg now v _|d l1 v l2 ws now|d vs ws msg w _|d vs l1 w l2]; cbn in *.
  - exact (local_keeps d d' Hok Hl).
  - done.
  - by apply update_initiation_keeps.
  - done.
  - by apply update_response_keeps.
Qed.

Definition device_init (sk : bytes) : Device := MkDevice sk (publicKey sk) ∅ ∅ IndexTable_Init ∅ 0 0.
Lemma device_init_ok sk : device_ok none (device_init sk).
Proof.
  split; cbn.
  - intros i e. unfold IndexTable_Init. rewrite lookup_empty. split; [done|]. intros (p & x & Hx & _). cbn in Hx. by rewrite lookup_empty in Hx.
  - intros p x. by rewrite lookup_empty.
  - intros p x. by rewrite lookup_empty.
  - intros k _. apply lookup_empty.
  - intros p _. apply lookup_empty.
Qed.
Lemma reachable_device sk s : rtc net_step (MkNet (device_init sk) [] []) s → device_ok none (nDevice s).
Proof.
  intros Hr. assert (device_ok none (nDevice (MkNet (device_init sk) [] []))) as Hok by apply device_init_ok.
  induction Hr as [|a b c Hs _ IH]; [done|]. by apply IH, (net_keeps a).
Qed.


(** ** Replays of initiations *)

(** Peers stay, and what they remember of initiations only grows. *)
Definition remembers (x x' : Peer) : Prop :=
  bytes_leb (lastTimestamp (handshake x)) (lastTimestamp (handshake x')) = true ∧
  ∀ t, lastInitiationConsumption (handshake x) = Some t → ∃ t', lastInitiationConsumption (handshake x') = Some t' ∧ t ≤ t'.
Definition grows (d d' : Device) : Prop := ∀ p x, peers d !! p = Some x → ∃ x', peers d' !! p = Some x' ∧ remembers x x'.
Lemma remembers_same x x' : lastTimestamp (handshake x') = lastTimestamp (handshake x) → lastInitiationConsumption (handshake x') = lastInitiationConsumption (handshake x) →
  remembers x x'.
Proof. intros Ht Hl. split; [rewrite Ht; apply bytes_leb_refl|]. intros t ?. exists t. split; [congruence|lia]. Qed.
#[local] Instance remembers_preorder : PreOrder remembers.
Proof.
  split; [intros x; by apply remembers_same|]. intros x y z [Ht Hl] [Ht' Hl']. split; [by eapply bytes_leb_trans|].
  intros t Hx. destruct (Hl t Hx) as (t' & Hy & ?). destruct (Hl' t' Hy) as (t'' & Hz & ?). exists t''. split; [done|lia].
Qed.
#[local] Instance grows_preorder : PreOrder grows.
Proof.
  split; [intros d p x Hx; by exists x|]. intros a b c Hab Hbc p x Hx. destruct (Hab p x Hx) as (y & Hy & ?). destruct (Hbc p y Hy) as (z & Hz & ?).
  exists z. split; [done|by etransitivity].
Qed.
Lemma grows_peers d d' : peers d' = peers d → grows d d'.
Proof. intros He p x Hx. exists x. by rewrite He. Qed.
Lemma grows_with d p x x' : peers d !! p = Some x → remembers x x' → grows d (with_peer d p x').
Proof.
  intros Hx Hr q y Hy. cbn. destruct (decide (q = p)) as [-> |]; [|exists y; by rewrite lookup_insert_ne].
  exists x'. rewrite lookup_insert_eq. split; [done|]. by assert (y = x) as -> by congruence.
Qed.
Lemma grows_same d p x x' : peers d !! p = Some x → lastTimestamp (handshake x') = lastTimestamp (handshake x) →
  lastInitiationConsumption (handshake x') = lastInitiationConsumption (handshake x) → grows d (with_peer d p x').
Proof. intros. eapply grows_with; [done|]. by apply remembers_same. Qed.
Lemma grows_fold {A} (f : Device → A → Device) l : (∀ d a, grows d (f d a)) → ∀ d, grows d (foldl f d l).
Proof. intros Hf. induction l as [|a l IH]; intros d; [done|]. cbn. etransitivity; [apply Hf|apply IH]. Qed.

Lemma grows_at d e p x x' : peers e = peers d → peers d !! p = Some x → lastTimestamp (handshake x') = lastTimestamp (handshake x) →
  lastInitiationConsumption (handshake x') = lastInitiationConsumption (handshake x) → grows d (with_peer e p x').
Proof. intros He Hx ? ?. etransitivity; [by apply (grows_peers d e)|]. eapply grows_same; [by rewrite He|done|done]. Qed.

(** With the peer at hand and unchanged memory. *)
Ltac grow := first [done | by apply grows_peers | by eapply grows_same | eapply grows_same; [|reflexivity|reflexivity]; eassumption].

Lemma initiate_grows p rnd ts draws d d' out : CreateMessageInitiation p rnd ts draws d = (d', Some out) → grows d d'.
Proof.
  unfold CreateMessageInitiation. destruct (peers d !! p) as [x|] eqn:Hx; [|by intros [= <- _]]. cbn [newPrivateKey].
  destruct (rndFailed rnd); [intros [= <- _]; grow|]. destruct (sharedSecret _ _) as [ss|]; [|intros [= <- _]; grow].
  destruct (KDF2 _ ss) as [ck key]. destruct (isZero _); [intros [= <- _]; grow|]. destruct (KDF2 ck _) as [ck2 key2].
  destruct (NewIndexForHandshake _ _ _) as [[[t i] []]|]; intros [= <- _]; by eapply grows_at.
Qed.
Lemma respond_grows p rnd draws d d' out : CreateMessageResponse p rnd draws d = (d', Some out) → grows d d'.
Proof.
  unfold CreateMessageResponse. destruct (peers d !! p) as [x|] eqn:Hx; [|by intros [= <- _]]. cbv zeta. destruct (negb _); [by intros [= <- _]|].
  destruct (NewIndexForHandshake _ _ _) as [[[t i] []]|]; [intros [= <- _]; by eapply grows_at| |done]. cbn [newPrivateKey].
  destruct (rndFailed rnd); [intros [= <- _]; by eapply grows_at|].
  destruct (sharedSecret _ _); [|intros [= <- _]; by eapply grows_at]. destruct (sharedSecret _ _); [|intros [= <- _]; by eapply grows_at].
  destruct (KDF3 _ _) as [[ck tau] key]. intros [= <- _]. by eapply grows_at.
Qed.

Lemma delete_grows d k : grows d (DeleteKeypair d k).
Proof. apply grows_peers, peers_delete. Qed.
Lemma begin_grows p now d : grows d (BeginSymmetricSession p now d).1.
Proof.
  unfold BeginSymmetricSession. destruct (peers d !! p) as [x|] eqn:Hx; [|done]. destruct (derive_keys _) as [[[sk rk] ini]| |]; [|done|done]. cbn [fst].
  unfold count_handshake. erewrite rotate_eq by apply lookup_insert_eq. cbn [with_peer peers]. rewrite lookup_insert_eq.
  intros q y Hy. cbn. rewrite !peers_delete. cbn. destruct (decide (q = p)) as [-> |].
  - rewrite !lookup_insert_eq. eexists. split; [reflexivity|]. assert (y = x) as -> by congruence. by apply remembers_same.
  - rewrite !lookup_insert_ne by done. by exists y.
Qed.
Lemma received_grows p k d : grows d (ReceivedWithKeypair p k d).1.
Proof.
  unfold ReceivedWithKeypair. destruct (peers d !! p) as [x|] eqn:Hx; [|done]. destruct (negb _); [done|]. cbn [fst].
  unfold set_keypairs. rewrite peers_delete, Hx. eapply grows_at; [apply peers_delete|done|done|done].
Qed.
Lemma zero_grows p d : grows d (ZeroAndFlushAll p d).
Proof.
  unfold ZeroAndFlushAll. destruct (peers d !! p) as [x|] eqn:Hx; [|done]. cbv zeta. eapply grows_at; [cbn; by rewrite !peers_delete|done|done|done].
Qed.
Lemma expire_grows p now d : grows d (ExpireCurrentKeypairs p now d).
Proof.
  unfold ExpireCurrentKeypairs. destruct (peers d !! p) as [x|] eqn:Hx; [|done].
  assert (∀ e k, grows e (reject_pair e k)) as Hr.
  { intros e k. unfold reject_pair. destruct k as [k|]; [|done]. destruct (pairs e !! k); [by apply grows_peers|done]. }
  etransitivity; [|apply Hr]. etransitivity; [|apply Hr]. by eapply grows_at.
Qed.
Lemma running_grows p b d : grows d (set_running d p b).
Proof. unfold set_running. destruct (peers d !! p) eqn:Hx; [|done]. by eapply grows_same. Qed.
Lemma stop_grows p d : grows d (Stop p d).
Proof. unfold Stop. destruct (peers d !! p) as [x|]; [|done]. destruct (isRunning x); [|done]. etransitivity; [apply running_grows|apply zero_grows]. Qed.
Lemma remove_grows key p d : grows d (removePeerLocked key p d).
Proof. etransitivity; [apply stop_grows|]. by apply grows_peers. Qed.
Lemma set_key_grows sk now d : grows d (SetPrivateKey range sk now d).
Proof.
  unfold SetPrivateKey. destruct (bool_decide _); [done|]. cbv zeta. etransitivity; [|apply grows_fold; intros; apply expire_grows].
  etransitivity; [|apply grows_fold; intros e p; unfold precompute; destruct (peers e !! p) eqn:Hx; [by eapply grows_same|done]].
  etransitivity; [|by apply (grows_peers (remove_matching range (publicKey sk) d))].
  apply grows_fold. intros e [k p]. cbn [fst snd]. destruct (peers e !! p) as [x|]; [|done]. destruct (bool_decide _); [apply remove_grows|done].
Qed.
Lemma local_grows d d' : device_ok none d → local_step d d' → grows d d'.
Proof.
  intros Hok [p rnd ts draws e out Hf Hc|p rnd draws e out Hf Hc|p now|p k|pk closed|p|p now|p closed now|p|key|p psk|sk now].
  - by eapply initiate_grows.
  - by eapply respond_grows.
  - apply begin_grows.
  - apply received_grows.
  - unfold NewPeer. destruct closed; [done|]. destruct (_ <=? _)%nat; [done|]. destruct (keyMap d !! pk); [done|].
    intros p x Hx. exists x. cbn. rewrite lookup_insert_ne; [done|]. intros <-. by rewrite (ok_peers _ _ Hok) in Hx.
  - apply zero_grows.
  - apply expire_grows.
  - unfold Start. destruct (peers d !! p) as [x|] eqn:Hx; [|done]. destruct closed; [done|]. destruct (isRunning x); [done|].
    etransitivity; [|apply running_grows]. by eapply grows_same.
  - apply stop_grows.
  - unfold RemovePeer. destruct (keyMap d !! key); [apply remove_grows|done].
  - unfold set_presharedKey. destruct (peers d !! p) as [x|] eqn:Hx; [|done]. by eapply grows_same.
  - apply set_key_grows.
Qed.

(** An update records the initiation. *)
Lemma update_records v now d x : peers d !! vPeer v = Some x →
  ∃ x' t, peers (consume_initiation_update v now d) !! vPeer v = Some x' ∧ remembers x x' ∧ bytes_leb (vTimestamp v) (lastTimestamp (handshake x')) = true ∧
    lastInitiationConsumption (handshake x') = Some t ∧ now ≤ t.
Proof.
  intros Hx. unfold consume_initiation_update. rewrite Hx.
  match goal with |- context [with_consumed _ ?ts ?t] => set (ts' := ts); set (t' := t) end.
  assert (bytes_leb (lastTimestamp (handshake x)) ts' = true ∧ bytes_leb (vTimestamp v) ts' = true) as [H1 H2].
  { subst ts'. cbn. destruct (After (vTimestamp v) (lastTimestamp (handshake x))) eqn:Ha; [split; [by apply After_le|apply bytes_leb_refl]|].
    split; [apply bytes_leb_refl|]. unfold After in Ha. by rewrite negb_false_iff in Ha. }
  assert (∃ t, t' = Some t ∧ now ≤ t ∧ ∀ t0, lastInitiationConsumption (handshake x) = Some t0 → t0 ≤ t) as (t & Et & Hnow & Hold).
  { subst t'. cbn. unfold later. destruct (lastInitiationConsumption (handshake x)) as [t0|]; [|exists now; split_and!; [done|lia|done]].
    destruct (Z.ltb_spec t0 now); [exists now|exists t0]; split_and!; try done; try lia; intros ? [= <-]; lia. }
  eexists _, t. split; [apply lookup_insert_eq|]. split_and!; try done. split; [done|]. intros t0 Ht0. exists t. split; [done|by apply Hold].
Qed.
Lemma net_grows s s' : device_ok none (nDevice s) → net_step s s' → grows (nDevice s) (nDevice s').
Proof.
  intros Hok Hs. destruct Hs as [d vs ws d' Hl|d vs ws msg now v _|d l1 v l2 ws now|d vs ws msg w _|d vs l1 w l2]; cbn in *; try done.
  - by apply local_grows.
  - destruct (peers d !! vPeer v) as [x|] eqn:Hx; [|unfold consume_initiation_update; by rewrite Hx].
    intros q y Hy. destruct (decide (q = vPeer v)) as [-> | Hne].
    + destruct (update_records v now d x Hx) as (x' & t & Hx' & ? & _). exists x'. split; [done|]. by assert (y = x) as -> by congruence.
    + exists y. split; [|done]. unfold consume_initiation_update. rewrite Hx. cbn. by rewrite lookup_insert_ne.
  - unfold consume_response_update. destruct (peers d !! wHandshake w) as [x|] eqn:Hx; [|done]. destruct (negb _); [done|]. by eapply grows_same.
Qed.
Lemma nets_grow s s' : device_ok none (nDevice s) → rtc net_step s s' → grows (nDevice s) (nDevice s').
Proof. intros Hok Hr. induction Hr as [|a b c Hs _ IH]; [done|]. etransitivity; [by apply net_grows|]. by apply IH, (net_keeps a). Qed.

Lemma checked_peer msg now d v : consume_initiation_check msg now d = Some v → ∃ x, peers d !! vPeer v = Some x ∧
  After (vTimestamp v) (lastTimestamp (handshake x)) = true ∧ recently now (lastInitiationConsumption (handshake x)) = false.
Proof.
  unfold consume_initiation_check. destruct (negb _); [done|]. intros (ss & _ & Hc)%bind_Some. destruct (KDF2 _ ss) as [ck key].
  apply bind_Some in Hc as (pk & _ & Hc). apply bind_Some in Hc as (p & _ & Hc). apply bind_Some in Hc as (x & Hx & Hc).
  destruct (negb (isRunning x)); [done|]. destruct (isZero _); [done|]. destruct (KDF2 ck _) as [ck2 key2].
  apply bind_Some in Hc as (ts & _ & Hc). destruct (After ts _) eqn:Ha; [|done]. cbn [negb] in Hc. destruct (recently _ _) eqn:Hr; [done|].
  injection Hc as <-. by exists x.
Qed.
(** Initiations under way belong to peers the device has had. *)
Definition inits_ok (s : net) : Prop := Forall (fun v => is_Some (peers (nDevice s) !! vPeer v)) (nInitiations s).
Lemma grows_some d d' p : grows d d' → is_Some (peers d !! p) → is_Some (peers d' !! p).
Proof. intros Hg [x Hx]. destruct (Hg p x Hx) as (x' & ? & _). by exists x'. Qed.
Lemma inits_keep s s' : device_ok none (nDevice s) → inits_ok s → net_step s s' → inits_ok s'.
Proof.
  unfold inits_ok. intros Hok Hi Hs. assert (Forall (fun v => is_Some (peers (nDevice s') !! vPeer v)) (nInitiations s)) as Hg.
  { eapply Forall_impl; [exact Hi|]. intros v. apply grows_some. by apply net_grows. }
  destruct Hs as [d vs ws d' Hl|d vs ws msg now v Hc|d l1 v l2 ws now|d vs ws msg w _|d vs l1 w l2]; cbn in *; try done.
  - constructor; [|done]. destruct (checked_peer msg now d v Hc) as (x & Hx & _). by exists x.
  - rewrite !Forall_app in *. rewrite Forall_cons in Hg. tauto.
Qed.
Lemma reachable_inits sk s : rtc net_step (MkNet (device_init sk) [] []) s → inits_ok s.
Proof.
  intros Hr. assert (device_ok none (nDevice (MkNet (device_init sk) [] []))) as Hok by apply device_init_ok.
  assert (inits_ok (MkNet (device_init sk) [] [])) as Hi by constructor.
  revert Hi. induction Hr as [|a b c Hs _ IH]; [done|]. intros Hi. apply IH; [by apply (net_keeps a)|by apply (inits_keep a)].
Qed.

(** Replay protection of handshakes.  Once a checked initiation of a peer has
    been taken over, then after whatever else the handlers of the device do, an
    initiation of that peer passes the check only if its authenticated timestamp is
    later and more than the rate limit has passed; in particular the same message
    is refused. *)
Theorem initiations_increase sk d l1 v l2 ws t s msg now v' :
  rtc net_step (MkNet (device_init sk) [] []) (MkNet d (l1 ++ v :: l2) ws) →
  rtc net_step (MkNet (consume_initiation_update v t d) (l1 ++ l2) ws) s →
  consume_initiation_check msg now (nDevice s) = Some v' → vPeer v' = vPeer v →
  After (vTimestamp v') (vTimestamp v) = true ∧ HandshakeInitationRate < now - t.
Proof.
  intros Hr Hs Hc Hp. pose proof (reachable_device sk _ Hr) as Hok. pose proof (reachable_inits sk _ Hr) as Hi. cbn in Hok.
  apply Forall_app in Hi as [_ [[x Hx] _]%Forall_cons]. cbn in Hx.
  destruct (update_records v t d x Hx) as (x1 & t1 & Hx1 & _ & Hts & Hl1 & Ht1).
  apply nets_grow in Hs; [|by apply update_initiation_keeps]. destruct (Hs _ x1 Hx1) as (x2 & Hx2 & Hle & Hlast). destruct (Hlast t1 Hl1) as (t2 & Hl2 & Ht2).
  destruct (checked_peer msg now _ v' Hc) as (x3 & Hx3 & Ha & Hrec). rewrite Hp in Hx3. assert (x3 = x2) as -> by (cbn in *; congruence).
  split; [eapply After_le_trans; [exact Ha|]; by eapply bytes_leb_trans|]. unfold recently in Hrec. rewrite Hl2 in Hrec. apply Z.leb_gt in Hrec. lia.
Qed.

(** Index 0 can be lost.  The table hands out any index, but a handshake
    without index has localIndex 0 and frees that index when it starts: when a
    session got index 0, the next initiation to another peer takes it out of the
    table, and packets for the session, which the peer keeps, are no longer
    found. *)
Theorem index_zero_lost d p q x y k rnd ts draws d' m :
  indexTable d !! 0 = Some (MkEntry (Some q) None (Some k)) → peers d !! q = Some y → current (keypairs y) = Some k →
  peers d !! p = Some x → p ≠ q → localIndex (handshake x) = 0 → fail_free draws →
  CreateMessageInitiation p rnd ts draws d = (d', Some (Ok m)) →
  IndexTable_Lookup (indexTable d') 0 = MkEntry None None None ∧ ∃ y', peers d' !! q = Some y' ∧ current (keypairs y') = Some k.
Proof.
  intros Hent Hy Hk Hx Hne H0 Hf. unfold CreateMessageInitiation. rewrite Hx. cbn [newPrivateKey].
  destruct (rndFailed rnd); [done|]. destruct (sharedSecret _ _) as [ss|]; [|done]. destruct (KDF2 _ ss) as [ck key].
  destruct (isZero _); [done|]. destruct (KDF2 ck _) as [ck2 key2].
  destruct (NewIndexForHandshake _ _ _) as [[[t i] []]|] eqn:Hn; [done| |done]. apply new_index_ok in Hn as (_ & -> & Hin).
  apply (proj1 (Forall_forall _ _) Hf) in Hin as [Hi0 _]. cbn in Hi0. intros [= <- _]. split.
  - unfold IndexTable_Lookup, IndexTable_Delete. cbn. rewrite H0, lookup_insert_ne by done. by rewrite lookup_delete_eq.
  - exists y. cbn. by rewrite lookup_insert_ne.
Qed.
End System.

(** ** Witnesses

    A toy cryptography with the laws: a rolling checksum, exclusive or as
    Diffie-Hellman, and text in clear with a tag. *)

Definition toy_step (acc : bytes) (b : byte) : bytes :=
  drop 1 acc ++ [z2b (3 * b2z (default (z2b 0) (acc !! 0%nat)) + 5 * b2z (default (z2b 0) (acc !! 31%nat)) + b2z b + 7)].
Definition toy_hash (m : bytes) : bytes := foldl toy_step (zeros 32) m.
Definition pad32 (b : bytes) : bytes := take 32 (b ++ zeros 32).
Definition toy_seal (k n p ad : bytes) : bytes := p ++ take 16 (toy_hash (k ++ n ++ ad ++ p)).
#[local] Instance toy_crypto : NoiseCrypto :=
  {| blake2s := toy_hash; ScalarMult a b := zip_with (fun x y => z2b (Z.lxor (b2z x) (b2z y))) (pad32 a) (pad32 b); ScalarBaseMult := pad32;
     Seal := toy_seal;
     Open k n c ad := let p := take (length c - 16) c in if decide (c = toy_seal k n p ad) then Some p else None |}.
Lemma length_toy_hash m : length (toy_hash m) = 32%nat.
Proof.
  unfold toy_hash. assert (∀ acc, length acc = 32%nat → length (foldl toy_step acc m) = 32%nat) as Hl; [|by apply Hl].
  induction m as [|b m IH]; intros acc Ha; [done|]. cbn. apply IH. unfold toy_step. rewrite length_app, length_drop. cbn [length]. lia.
Qed.
Lemma length_pad32 b : length (pad32 b) = 32%nat.
Proof. unfold pad32. rewrite length_take, length_app. unfold zeros. rewrite length_replicate. lia. Qed.
Lemma pad32_pad32 b : pad32 (pad32 b) = pad32 b.
Proof. pose proof (length_pad32 b) as Hl. unfold pad32 at 1. by rewrite take_app_le, firstn_all2 by lia. Qed.
#[local] Instance toy_laws : NoiseLaws.
Proof.
  split; cbn [toy_crypto blake2s ScalarMult ScalarBaseMult Seal Open].
  - apply length_toy_hash.
  - apply length_pad32.
  - intros a b. rewrite !pad32_pad32. generalize (pad32 a), (pad32 b). intros l. induction l as [|x l IH]; intros [|y k]; cbn; try done. f_equal; [|apply IH]. by rewrite Z.lxor_comm.
  - intros. unfold toy_seal. rewrite length_app, length_take, length_toy_hash. lia.
  - intros k n p ad. assert (take (length (toy_seal k n p ad) - 16) (toy_seal k n p ad) = p) as ->.
    { unfold toy_seal. rewrite length_app, length_take, length_toy_hash. rewrite take_app_le by lia. apply firstn_all2. lia. }
    by rewrite decide_True.
  - intros k n c ad p Ho. case_decide as Hd; [|done]. injection Ho as <-. done.
Qed.

Definition alice_key : bytes := replicate 32 (z2b 1).
Definition bob_key : bytes := replicate 32 (z2b 6).
(** A device with the other one as its peer 0. *)
Definition met (sk pk : bytes) : Device := Start 0 false 0 (NewPeer pk false (device_init sk)).1.
Definition alice : Device := met alice_key (publicKey bob_key).
Definition bob : Device := met bob_key (publicKey alice_key).
Definition peer_of (d : Device) (p : nat) : Peer := default (MkPeer Handshake_zero (MkKeypairs None None None) false 0) (peers d !! p).
Definition dice (b : Z) : random := MkRandom (replicate 32 (z2b b)) false.
Definition alice_sent := CreateMessageInitiation 0 (dice 40) (stamp 100 0) [(7, false)] alice.
Definition hello : MessageInitiation :=
  match alice_sent.2 with Some (Ok m) => m | _ => MkInitiation 0 0 [] [] [] [] [] end.
Lemma alice_sent_ok : CreateMessageInitiation 0 (dice 40) (stamp 100 0) [(7, false)] alice = (alice_sent.1, Some (Ok hello)).
Proof. vm_compute. reflexivity. Qed.
Definition bob_heard := (ConsumeMessageInitiation hello 5 6 bob).1.
Definition bob_sent := CreateMessageResponse 0 (dice 90) [(9, false)] bob_heard.
Definition reply : MessageResponse := match bob_sent.2 with Some (Ok m) => m | _ => MkMessageResponse 0 0 0 [] [] [] [] end.
Lemma bob_sent_ok : CreateMessageResponse 0 (dice 90) [(9, false)] bob_heard = (bob_sent.1, Some (Ok reply)).
Proof. vm_compute. reflexivity. Qed.
Lemma alice_bob_met : introduced alice bob 0 0 (peer_of bob 0) (peer_of alice 0).
Proof. split; vm_compute; reflexivity. Qed.

Lemma handshake_agreement_witness :
  ∃ e1 e2 y1 y2 k1 k2, BeginSymmetricSession 0 10 (ConsumeMessageResponse reply alice_sent.1).1 = (e1, Ok ()) ∧ BeginSymmetricSession 0 11 bob_sent.1 = (e2, Ok ()) ∧
    peers e1 !! 0%nat = Some y2 ∧ peers e2 !! 0%nat = Some y1 ∧ (current (keypairs y2) ≫= (pairs e1 !!.)) = Some k1 ∧ (next (keypairs y1) ≫= (pairs e2 !!.)) = Some k2 ∧
    send k1 = receive k2 ∧ receive k1 = send k2.
Proof.
  pose proof (handshake_agreement alice bob 0 0 (peer_of bob 0) (peer_of alice 0) (dice 40) (dice 90) (stamp 100 0) [(7, false)] [(9, false)] 5 6 10 11
    alice_sent.1 hello bob_sent.1 reply alice_bob_met eq_refl eq_refl alice_sent_ok) as Ha.
  pose proof bob_sent_ok as Hb. unfold bob_heard in Hb. destruct (ConsumeMessageInitiation hello 5 6 bob) as [d2 from]. destruct Ha as [_ Ha].
  specialize (Ha Hb). destruct (ConsumeMessageResponse reply alice_sent.1) as [d1 from1].
  destruct Ha as (_ & e1 & e2 & y1 & y2 & k1 & k2 & Hb1 & Hb2 & Hy2 & Hy1 & Hk1 & Hk2 & Hs & Hr & _).
  exists e1, e2, y1, y2, k1, k2. split; [exact Hb1|]. split; [exact Hb2|]. split; [exact Hy2|]. split; [exact Hy1|]. split; [exact Hk1|]. split; [exact Hk2|]. split; [exact Hs|exact Hr].
Defined.

Abbreviation toy_step_net := (net_step map_to_list).
Definition net_start (d : Device) : net := MkNet d [] [].
(** Meeting a peer takes two steps. *)
Lemma met_reachable sk pk : rtc toy_step_net (net_start (device_init sk)) (net_start (met sk pk)).
Proof.
  eapply rtc_l; [apply n_local, (l_new_peer map_to_list _ pk false)|]. eapply rtc_l; [apply n_local, (l_start map_to_list _ 0 false 0)|]. apply rtc_refl.
Qed.
Lemma dice_fair i : i ≠ 0 → fail_free [(i, false)].
Proof. intros. constructor; [done|constructor]. Qed.

Definition heard : verified_initiation :=
  default (MkVerified 0 [] [] 0 [] []) (consume_initiation_check hello 5 bob).
Definition alice_again := CreateMessageInitiation 0 (dice 44) (stamp 101 0) [(8, false)] alice_sent.1.
Definition hello_again : MessageInitiation := match alice_again.2 with Some (Ok m) => m | _ => hello end.
Definition heard_again : verified_initiation :=
  default (MkVerified 0 [] [] 0 [] []) (consume_initiation_check hello_again 30000000 (consume_initiation_update heard 6 bob)).
Lemma initiations_increase_witness :
  consume_initiation_check hello 30000000 (consume_initiation_update heard 6 bob) = None ∧
  After (vTimestamp heard_again) (vTimestamp heard) = true ∧ HandshakeInitationRate < 30000000 - 6.
Proof.
  split; [vm_compute; reflexivity|].
  apply (initiations_increase map_to_list bob_key bob [] heard [] [] 6 (net_start (consume_initiation_update heard 6 bob)) hello_again 30000000 heard_again).
  - eapply rtc_r; [apply met_reachable|]. apply (n_check_initiation map_to_list bob [] [] hello 5 heard). vm_compute. reflexivity.
  - apply rtc_refl.
  - vm_compute. reflexivity.
  - vm_compute. reflexivity.
Defined.

(** Alice's session with bob got index 0; a third peer is new. *)
Definition unlucky : Device :=
  let d := (CreateMessageInitiation 0 (dice 40) (stamp 100 0) [(0, false)] alice).1 in
  let d := with_peer d 0 (with_handshake (peer_of d 0) (with_state (handshake (peer_of d 0)) handshakeResponseConsumed)) in
  (NewPeer (replicate 32 (z2b 77)) false (BeginSymmetricSession 0 3 d).1).1.
Lemma index_zero_lost_witness :
  ∃ d', (CreateMessageInitiation 1 (dice 50) (stamp 102 0) [(8, false)] unlucky).1 = d' ∧
    IndexTable_Lookup (indexTable unlucky) 0 = MkEntry (Some 0%nat) None (Some 0%nat) ∧ IndexTable_Lookup (indexTable d') 0 = MkEntry None None None.
Proof.
  eexists. split; [reflexivity|]. split; [vm_compute; reflexivity|].
  refine (proj1 (index_zero_lost unlucky 1 0 (peer_of unlucky 1) (peer_of unlucky 0) 0 (dice 50) (stamp 102 0) [(8, false)]
    (CreateMessageInitiation 1 (dice 50) (stamp 102 0) [(8, false)] unlucky).1
    (match (CreateMessageInitiation 1 (dice 50) (stamp 102 0) [(8, false)] unlucky).2 with Some (Ok m) => m | _ => hello end) _ _ _ _ _ _ _ _)).
  - vm_compute. reflexivity.
  - vm_compute. reflexivity.
  - vm_compute. reflexivity.
  - vm_compute. reflexivity.
  - discriminate.
  - vm_compute. reflexivity.
  - by apply (dice_fair 8).
  - vm_compute. reflexivity.
Defined.
