(* ===== verification/Cookie.v ===== *)
(** * Cookies

    src/internal/device/wireguard-go/device/cookie.go: the MACs on handshake
    messages and the cookies with which a device under load makes senders prove
    their address.  Keyed BLAKE2s-128 and XChaCha20-Poly1305 are another package:
    the class [CookieCrypto]. *)

From S2P Require Import Prelude GoStr Noise Handshake.

Class CookieCrypto : Type := {
  (** blake2s.New128: key, text *)
  mac128 : bytes → bytes → bytes;
  (** chacha20poly1305.NewX: key, nonce, text, additional data *)
  XSeal : bytes → bytes → bytes → bytes → bytes;
  XOpen : bytes → bytes → bytes → bytes → option bytes }.
Class CookieLaws `{CookieCrypto} : Prop := {
  length_mac128 k m : length (mac128 k m) = 16%nat;
  length_XSeal k n p ad : length (XSeal k n p ad) = (length p + 16)%nat;
  XOpen_XSeal k n p ad : XOpen k n (XSeal k n p ad) ad = Some p }.

Definition WGLabelMAC1 : bytes := bs "mac1----".
Definition WGLabelCookie : bytes := bs "cookie--".
Definition CookieRefreshTime : Z := 120 * 1000000000.

Record CookieChecker := MkChecker { cMac1Key : bytes; cSecret : bytes; cSecretSet : option Z; cEncryptionKey : bytes }.
Record CookieGenerator := MkGenerator
  { gMac1Key : bytes; gCookie : bytes; gCookieSet : option Z; gHasLastMAC1 : bool; gLastMAC1 : bytes; gEncryptionKey : bytes }.

(** time.Since(t) > CookieRefreshTime, also for the zero time *)
Definition stale (now : Z) (t : option Z) : bool := match t with Some t => CookieRefreshTime <? now - t | None => true end.

Section Cookies.
Context `{NoiseCrypto} `{CookieCrypto}.

Definition CookieChecker_Init (st : CookieChecker) (pk : bytes) : CookieChecker :=
  MkChecker (blake2s (WGLabelMAC1 ++ pk)) (cSecret st) None (blake2s (WGLabelCookie ++ pk)).
Definition CookieGenerator_Init (st : CookieGenerator) (pk : bytes) : CookieGenerator :=
  MkGenerator (blake2s (WGLabelMAC1 ++ pk)) (gCookie st) None (gHasLastMAC1 st) (gLastMAC1 st) (blake2s (WGLabelCookie ++ pk)).

(** Slicing a message too short for its MACs panics. *)
Definition CheckMAC1 (st : CookieChecker) (msg : bytes) : res herr bool :=
  let size := length msg in
  if (size <? 32)%nat then Panic else
  let smac2 := (size - 16)%nat in
  let smac1 := (smac2 - 16)%nat in
  Ok (bool_decide (mac128 (cMac1Key st) (take smac1 msg) = slice smac1 smac2 msg)).
Definition CheckMAC2 (st : CookieChecker) (msg src : bytes) (now : Z) : res herr bool :=
  if stale now (cSecretSet st) then Ok false else
  if (length msg <? 16)%nat then Panic else
  let cookie := mac128 (cSecret st) src in
  let smac2 := (length msg - 16)%nat in
  Ok (bool_decide (mac128 cookie (take smac2 msg) = drop smac2 msg)).

(** The secret of the checker after a refresh, if it is due. *)
Definition refreshed (st : CookieChecker) (rnd : random) (now now' : Z) : CookieChecker * bool :=
  if stale now (cSecretSet st) then
    if rndFailed rnd then (MkChecker (cMac1Key st) (rndBytes rnd) (cSecretSet st) (cEncryptionKey st), false)
    else (MkChecker (cMac1Key st) (rndBytes rnd) (Some now') (cEncryptionKey st), true)
  else (st, true).
Definition CreateReply (st : CookieChecker) (msg : bytes) (recv : Z) (src : bytes) (rnd nonce : random) (now now' : Z)
    : CookieChecker * res herr MessageCookieReply :=
  let '(st, ok) := refreshed st rnd now now' in
  if negb ok then (st, Err ERandom) else
  let cookie := mac128 (cSecret st) src in
  let smac2 := (length msg - 16)%nat in
  let smac1 := (smac2 - 16)%nat in
  if rndFailed nonce then (st, Err ERandom) else
  if (length msg <? 32)%nat then (st, Panic) else
  (st, Ok (MkCookieReply MessageCookieReplyType recv (rndBytes nonce) (XSeal (cEncryptionKey st) (rndBytes nonce) cookie (slice smac1 smac2 msg)))).

Definition ConsumeReply (st : CookieGenerator) (msg : MessageCookieReply) (now : Z) : CookieGenerator * bool :=
  if negb (gHasLastMAC1 st) then (st, false) else
  match XOpen (gEncryptionKey st) (mcNonce msg) (mcCookie msg) (gLastMAC1 st) with
  | None => (st, false)
  | Some cookie => (MkGenerator (gMac1Key st) cookie (Some now) (gHasLastMAC1 st) (gLastMAC1 st) (gEncryptionKey st), true)
  end.

Definition AddMacs (st : CookieGenerator) (msg : bytes) (now : Z) : CookieGenerator * res herr bytes :=
  let size := length msg in
  if (size <? 32)%nat then (st, Panic) else
  let smac2 := (size - 16)%nat in
  let smac1 := (smac2 - 16)%nat in
  let mac1 := mac128 (gMac1Key st) (take smac1 msg) in
  let msg := take smac1 msg ++ mac1 ++ drop smac2 msg in
  let st := MkGenerator (gMac1Key st) (gCookie st) (gCookieSet st) true mac1 (gEncryptionKey st) in
  if stale now (gCookieSet st) then (st, Ok msg)
  else (st, Ok (take smac2 msg ++ mac128 (gCookie st) (take smac2 msg))).
End Cookies.

(** ** Properties *)

Section Claims.
Context {NC : NoiseCrypto} {CC : CookieCrypto} {CL : CookieLaws}.

(** The layout of a message with MACs. *)
Lemma add_macs_ok g msg now : (32 ≤ length msg)%nat →
  ∃ mac2, let body := take (length msg - 32) msg in let mac1 := mac128 (gMac1Key g) body in
    AddMacs g msg now = (MkGenerator (gMac1Key g) (gCookie g) (gCookieSet g) true mac1 (gEncryptionKey g), Ok (body ++ mac1 ++ mac2)) ∧ length mac2 = 16%nat ∧
    (stale now (gCookieSet g) = false → mac2 = mac128 (gCookie g) (body ++ mac1)).
Proof.
  intros Hl. unfold AddMacs. rewrite (proj2 (Nat.ltb_ge _ _)) by lia. replace (length msg - 16 - 16)%nat with (length msg - 32)%nat by lia.
  set (body := take _ msg). set (mac1 := mac128 _ body). assert (length body = (length msg - 32)%nat) as Hb by (unfold body; rewrite length_take; lia).
  assert (length mac1 = 16%nat) as Hm by apply length_mac128. cbn [gCookieSet gCookie]. destruct (stale now (gCookieSet g)) eqn:Hst.
  - exists (drop (length msg - 16) msg). split; [done|]. rewrite length_drop. split; [lia|done].
  - assert (take (length msg - 16) (body ++ mac1 ++ drop (length msg - 16) msg) = body ++ mac1) as ->.
    { rewrite app_assoc, take_app_le by (rewrite length_app; lia). apply firstn_all2. rewrite length_app. lia. }
    exists (mac128 (gCookie g) (body ++ mac1)). split; [by rewrite <- app_assoc|]. split; [apply length_mac128|done].
Qed.
Lemma check_mac1_layout st body mac1 mac2 : length mac1 = 16%nat → length mac2 = 16%nat →
  CheckMAC1 st (body ++ mac1 ++ mac2) = Ok (bool_decide (mac128 (cMac1Key st) body = mac1)).
Proof.
  intros H1 H2. unfold CheckMAC1. rewrite !length_app, H1, H2. rewrite (proj2 (Nat.ltb_ge _ _)) by lia.
  replace (length body + (16 + 16) - 16 - 16)%nat with (length body) by lia. rewrite take_app_length. do 3 f_equal.
  unfold slice. rewrite drop_app_length. replace (length body + (16 + 16) - 16 - length body)%nat with (length mac1) by lia. by rewrite take_app_length.
Qed.
Lemma check_mac2_layout st body mac1 mac2 src now : length mac1 = 16%nat → length mac2 = 16%nat → stale now (cSecretSet st) = false →
  CheckMAC2 st (body ++ mac1 ++ mac2) src now = Ok (bool_decide (mac128 (mac128 (cSecret st) src) (body ++ mac1) = mac2)).
Proof.
  intros H1 H2 Hs. unfold CheckMAC2. rewrite Hs, !length_app, H1, H2, (proj2 (Nat.ltb_ge _ _)) by lia.
  replace (length body + (16 + 16) - 16)%nat with (length (body ++ mac1)) by (rewrite length_app; lia). rewrite app_assoc, take_app_length, drop_app_length. done.
Qed.

(** The cookie exchange.  A handshake message with the sender's MACs passes
    the first check of the device it is for; a device under load answers it with a
    cookie that the sender accepts; and every message the sender adds MACs to while
    the cookie is fresh passes the second check from the same address, as long as
    the device's secret is. *)
Theorem cookie_exchange st g pk msg now m g1 src recv rnd nonce t1 t2 st' reply t3 msg' t4 m' g3 t5 :
  cMac1Key st = blake2s (WGLabelMAC1 ++ pk) → cEncryptionKey st = blake2s (WGLabelCookie ++ pk) →
  gMac1Key g = blake2s (WGLabelMAC1 ++ pk) → gEncryptionKey g = blake2s (WGLabelCookie ++ pk) →
  (32 ≤ length msg)%nat → (32 ≤ length msg')%nat →
  AddMacs g msg now = (g1, Ok m) → CreateReply st m recv src rnd nonce t1 t2 = (st', Ok reply) →
  stale t4 (Some t3) = false → stale t5 (cSecretSet st') = false →
  CheckMAC1 st m = Ok true ∧
  ∃ g2, ConsumeReply g1 reply t3 = (g2, true) ∧
    (AddMacs g2 msg' t4 = (g3, Ok m') → CheckMAC1 st' m' = Ok true ∧ CheckMAC2 st' m' src t5 = Ok true).
Proof.
  intros Hc1 Hc2 Hg1 Hg2 Hl Hl' Ha Hr Ht4 Ht5. destruct (add_macs_ok g msg now Hl) as (mac2 & Ha' & Hm2 & _). rewrite Ha' in Ha. injection Ha as <- <-.
  set (body := take _ msg) in *. rewrite Hg1 in *. set (k1 := blake2s _) in *.
  split; [rewrite check_mac1_layout by (done || apply length_mac128); by rewrite Hc1, bool_decide_true|].
  assert (∃ cookie, mcCookie reply = XSeal (cEncryptionKey st') (mcNonce reply) cookie (mac128 k1 body) ∧ cookie = mac128 (cSecret st') src ∧
    cMac1Key st' = cMac1Key st ∧ cEncryptionKey st' = cEncryptionKey st) as (cookie & Hcookie & Hck & E1 & E2).
  { unfold CreateReply in Hr. destruct (refreshed st rnd t1 t2) as [st1 ok] eqn:Href.
    assert (cMac1Key st1 = cMac1Key st ∧ cEncryptionKey st1 = cEncryptionKey st) as [? ?].
    { unfold refreshed in Href. destruct (stale t1 _); [destruct (rndFailed rnd)|]; by injection Href as <- _. }
    destruct ok; [|done]. cbn [negb] in Hr. destruct (rndFailed nonce); [done|]. destruct (_ <? _)%nat; [done|]. injection Hr as <- <-.
    eexists. split_and!; try done. cbn [mcCookie mcNonce]. do 2 f_equal. rewrite !length_app, Hm2, length_mac128. unfold slice.
    replace (length body + (16 + 16) - 16 - 16)%nat with (length body) by lia. rewrite drop_app_length.
    replace (length body + (16 + 16) - 16 - length body)%nat with (length (mac128 k1 body)) by (rewrite length_mac128; lia). apply take_app_length. }
  unfold ConsumeReply. cbn [gHasLastMAC1 negb gEncryptionKey gLastMAC1]. rewrite Hcookie, Hg2, E2, Hc2, XOpen_XSeal. eexists. split; [done|].
  intros Ha2. match type of Ha2 with AddMacs ?g2 _ _ = _ => destruct (add_macs_ok g2 msg' t4 Hl') as (mac2' & Ha2' & Hm2' & Hfresh) end.
  rewrite Ha2' in Ha2. injection Ha2 as _ <-. specialize (Hfresh Ht4). cbn [gMac1Key gCookie] in *. subst mac2'.
  rewrite check_mac1_layout, check_mac2_layout by (done || apply length_mac128). rewrite E1, Hc1, Hck. by rewrite !bool_decide_true.
Qed.
End Claims.

(** ** Witnesses *)

Definition toy_mac (k m : bytes) : bytes := take 16 (foldl (fun acc b => drop 1 acc ++ [z2b (b2z (default (z2b 0) (acc !! 0%nat)) + b2z b + 3)]) (zeros 16) (k ++ m)).
Lemma length_toy_mac k m : length (toy_mac k m) = 16%nat.
Proof.
  unfold toy_mac. rewrite length_take.
  assert (∀ l acc, length acc = 16%nat → length (foldl (fun acc b => drop 1 acc ++ [z2b (b2z (default (z2b 0) (acc !! 0%nat)) + b2z b + 3)]) acc l) = 16%nat) as Hl.
  { induction l as [|b l IH]; intros acc Ha; [done|]. cbn. apply IH. rewrite length_app, length_drop. cbn [length]. lia. }
  rewrite Hl by done. lia.
Qed.
#[local] Instance toy_cookies : CookieCrypto :=
  {| mac128 := toy_mac; XSeal k n p ad := p ++ toy_mac k (n ++ ad ++ p); XOpen k n c ad := Some (take (length c - 16) c) |}.
#[local] Instance toy_cookie_laws : CookieLaws.
Proof.
  split; cbn [toy_cookies mac128 XSeal XOpen].
  - apply length_toy_mac.
  - intros. by rewrite length_app, length_toy_mac.
  - intros. rewrite length_app, length_toy_mac, Nat.add_sub. f_equal. apply take_app_length.
Qed.
#[local] Instance toy_noise : NoiseCrypto :=
  {| blake2s m := take 32 (m ++ zeros 32); ScalarMult _ _ := []; ScalarBaseMult s := s; Seal _ _ p _ := p; Open _ _ c _ := Some c |}.
Definition the_key : bytes := replicate 32 (z2b 9).
Definition fresh_checker : CookieChecker := CookieChecker_Init (MkChecker [] [] None []) the_key.
Definition fresh_generator : CookieGenerator := CookieGenerator_Init (MkGenerator [] [] None false [] []) the_key.
Definition first_macs := AddMacs fresh_generator (zeros 148) 0.
Definition first_packet : bytes := match first_macs.2 with Ok m => m | _ => [] end.
Definition the_secret : random := MkRandom (replicate 32 (z2b 11)) false.
Definition the_nonce : random := MkRandom (replicate 24 (z2b 12)) false.
Definition answered := CreateReply fresh_checker first_packet 5 (bs "10.0.0.1:7") the_secret the_nonce 1 2.
Definition cookie_reply : MessageCookieReply := match answered.2 with Ok m => m | _ => MkCookieReply 0 0 [] [] end.
Definition second_macs := AddMacs (ConsumeReply first_macs.1 cookie_reply 3).1 (zeros 92) 4.
Definition second_packet : bytes := match second_macs.2 with Ok m => m | _ => [] end.
Lemma cookie_exchange_witness :
  CheckMAC1 fresh_checker first_packet = Ok true ∧ CheckMAC2 fresh_checker first_packet (bs "10.0.0.1:7") 1 = Ok false ∧
  CheckMAC2 answered.1 second_packet (bs "10.0.0.1:7") 5 = Ok true.
Proof.
  destruct (cookie_exchange fresh_checker fresh_generator the_key (zeros 148) 0 first_packet first_macs.1 (bs "10.0.0.1:7") 5 the_secret the_nonce 1 2
    answered.1 cookie_reply 3 (zeros 92) 4 second_packet second_macs.1 5) as (H1 & g2 & Hg2 & Hnext).
  - reflexivity.
  - reflexivity.
  - reflexivity.
  - reflexivity.
  - apply Nat.leb_le. reflexivity.
  - apply Nat.leb_le. reflexivity.
  - vm_compute. reflexivity.
  - vm_compute. reflexivity.
  - reflexivity.
  - vm_compute. reflexivity.
  - split; [exact H1|]. split; [reflexivity|]. apply Hnext.
    assert (g2 = (ConsumeReply first_macs.1 cookie_reply 3).1) as -> by (rewrite Hg2; reflexivity). vm_compute. reflexivity.
Defined.
