(* ===== verification/Engine.v ===== *)
(** * The packet paths of the WireGuard engine

    src/internal/device/wireguard-go/device/: receive.go (classification of
    datagrams, decryption, the handshake worker and the sequential receiver),
    send.go (handshake messages, nonces and encryption), the endpoints of peer.go
    and the envelopes of p2p_control_transport.go and tun_control_transport.go.
    Buffers, queues between the routines and timers are left out; what a routine
    hands to the network, the TUN device or a handler is a list of outputs.  The
    clock readings of a handler are [clock 0], [clock 1], ... in the order taken. *)

From S2P Require Import Prelude GoStr Replay AllowedIPs Ratelimiter Wire Fragments WuspAssembly WuspTransport P2PMessage Noise Handshake Cookie.

(** ** Control envelopes *)

Definition maxP2PControlPayload : nat := 1200.
Definition p2pControlMagic : bytes := bs "WPC" ++ [z2b 1].
Definition maxTUNControlPayload : nat := 1200.
Definition tunControlMagic : bytes := bs "WTC" ++ [z2b 1].

Inductive eerr := EPayloadTooLarge | EMissingHeader | EUnsupportedEnvelope | EInvalidLength | EExcessPadding | EInvalidPadding.

Definition frameP2PControlPayload (payload : bytes) : res eerr bytes :=
  if (maxP2PControlPayload <? length payload)%nat then Err EPayloadTooLarge
  else Ok (p2pControlMagic ++ le_put 2 (u16 (Z.of_nat (length payload))) ++ payload).
Definition consumeP2PControlPayload (plaintext : bytes) : res eerr bytes :=
  if (length plaintext <? 6)%nat then Err EMissingHeader
  else if negb (bool_decide (take 4 plaintext = p2pControlMagic)) then Err EUnsupportedEnvelope
  else
    let len := Z.to_nat (le_get (slice 4 6 plaintext)) in
    if (maxP2PControlPayload <? len)%nat || (length plaintext - 6 <? len)%nat then Err EInvalidLength else
    let end_ := (6 + len)%nat in
    if (16 <=? length plaintext - end_)%nat then Err EExcessPadding
    else if negb (forallb (fun b => b2z b =? 0) (drop end_ plaintext)) then Err EInvalidPadding
    else Ok (slice 6 end_ plaintext).
Definition frameTUNControlPayload (payload : bytes) : res eerr bytes :=
  if (maxTUNControlPayload <? length payload)%nat then Err EPayloadTooLarge
  else Ok (tunControlMagic ++ le_put 2 (u16 (Z.of_nat (length payload))) ++ payload).
Definition consumeTUNControlPayload (plaintext : bytes) : res eerr bytes :=
  if (length plaintext <? 6)%nat then Err EMissingHeader
  else if negb (bool_decide (take 4 plaintext = tunControlMagic)) then Err EUnsupportedEnvelope
  else
    let len := Z.to_nat (le_get (slice 4 6 plaintext)) in
    if (maxTUNControlPayload <? len)%nat || (length plaintext - 6 <? len)%nat then Err EInvalidLength else
    let end_ := (6 + len)%nat in
    if (16 <=? length plaintext - end_)%nat then Err EExcessPadding
    else if negb (forallb (fun b => b2z b =? 0) (drop end_ plaintext)) then Err EInvalidPadding
    else Ok (slice 6 end_ plaintext).

(** ** State *)

(** conn.Endpoint: DstToString, DstToBytes and DstIP. *)
Record Endpoint := MkEndpoint { DstToString : bytes; DstToBytes : bytes; DstIP : bytes }.
#[export] Instance Endpoint_eq_dec : EqDecision Endpoint.
Proof. solve_decision. Defined.
(** peer.endpoint *)
Record PeerEndpoint := MkPeerEndpoint { epVal : option Endpoint; disableRoaming : bool; clearSrcOnTx : bool }.

Record Engine := MkEngine
  { eDevice : Device; eEndpoints : gmap nat PeerEndpoint; eAllowed : AllowedIPs nat; eFragments : WuspFragments nat;
    eChecker : CookieChecker; eGenerators : gmap nat CookieGenerator; eLimiter : Ratelimiter (Addr:=bytes); eUnderLoadUntil : Z }.
Definition with_device (e : Engine) (d : Device) : Engine :=
  MkEngine d (eEndpoints e) (eAllowed e) (eFragments e) (eChecker e) (eGenerators e) (eLimiter e) (eUnderLoadUntil e).
Definition with_endpoint (e : Engine) (p : nat) (x : PeerEndpoint) : Engine :=
  MkEngine (eDevice e) (<[p := x]> (eEndpoints e)) (eAllowed e) (eFragments e) (eChecker e) (eGenerators e) (eLimiter e) (eUnderLoadUntil e).
Definition with_fragments (e : Engine) (f : WuspFragments nat) : Engine :=
  MkEngine (eDevice e) (eEndpoints e) (eAllowed e) f (eChecker e) (eGenerators e) (eLimiter e) (eUnderLoadUntil e).
Definition with_checker (e : Engine) (c : CookieChecker) : Engine :=
  MkEngine (eDevice e) (eEndpoints e) (eAllowed e) (eFragments e) c (eGenerators e) (eLimiter e) (eUnderLoadUntil e).
Definition with_generator (e : Engine) (p : nat) (g : CookieGenerator) : Engine :=
  MkEngine (eDevice e) (eEndpoints e) (eAllowed e) (eFragments e) (eChecker e) (<[p := g]> (eGenerators e)) (eLimiter e) (eUnderLoadUntil e).
Definition with_limiter (e : Engine) (l : Ratelimiter (Addr:=bytes)) (until : Z) : Engine :=
  MkEngine (eDevice e) (eEndpoints e) (eAllowed e) (eFragments e) (eChecker e) (eGenerators e) l until.
Definition endpoint_of (e : Engine) (p : nat) : PeerEndpoint := default (MkPeerEndpoint None false false) (eEndpoints e !! p).
Definition generator_of (e : Engine) (p : nat) : CookieGenerator := default (MkGenerator [] [] None false [] []) (eGenerators e !! p).
Definition running (e : Engine) (p : nat) : bool := match peers (eDevice e) !! p with Some x => isRunning x | None => false end.

(** What leaves the routines. *)
Inductive output :=
| OSend (to : Endpoint) (packet : bytes)
| OStaged (p : nat)
| OKeepalive (p : nat)
| OTun (packet : bytes)
| OP2P (p : nat) (payload : bytes)
| OTunControl (p : nat) (payload : bytes)
| OWusp (p : nat) (payload : bytes).

Definition SetEndpointFromPacket (p : nat) (endpoint : Endpoint) (e : Engine) : Engine :=
  let x := endpoint_of e p in
  if disableRoaming x then e else with_endpoint e p (MkPeerEndpoint (Some endpoint) (disableRoaming x) false).
Definition EnableRoaming (p : nat) (e : Engine) : Engine :=
  let x := endpoint_of e p in with_endpoint e p (MkPeerEndpoint (epVal x) false (clearSrcOnTx x)).
Definition markEndpointSrcForClearing (p : nat) (e : Engine) : Engine :=
  let x := endpoint_of e p in
  match epVal x with None => e | Some _ => with_endpoint e p (MkPeerEndpoint (epVal x) (disableRoaming x) true) end.
(** ClearSrc only drops the cached source address. *)
Definition SendBuffers (p : nat) (packet : bytes) (e : Engine) : Engine * list output :=
  let x := endpoint_of e p in
  match epVal x with
  | None => (e, [])
  | Some endpoint => (with_endpoint e p (MkPeerEndpoint (epVal x) (disableRoaming x) false), [OSend endpoint packet])
  end.

(** ** Datagrams *)

Definition RejectAfterTime : Z := 300 * 1000000000.
Definition MinMessageSize : nat := MessageKeepaliveSize.

Inductive incoming :=
| Dropped
| Inbound (p : nat) (keypair : nat)
| HandshakeQueue
| PunchQueue (p2pData : bytes).

(** One datagram of RoutineReceiveIncoming. *)
Definition receive_packet (packet : bytes) (now : Z) (d : Device) : incoming :=
  if (length packet <? MinMessageSize)%nat then Dropped else
  let msgType := le_get (slice 0 4 packet) in
  if (msgType =? MessageTransportType) || (msgType =? MessageTUNControlType) || (msgType =? MessageWUSPType) || (msgType =? MessageP2PControlType) then
    if (length packet <? MessageTransportSize)%nat then Dropped else
    let value := IndexTable_Lookup (indexTable d) (le_get (slice 4 8 packet)) in
    match eKeypair value, ePeer value with
    | Some k, Some p =>
        match pairs d !! k with
        | None => Dropped
        | Some kp => if created kp + RejectAfterTime <? now then Dropped else Inbound p k
        end
    | _, _ => Dropped
    end
  else if msgType =? MessageInitiationType then if (length packet =? MessageInitiationSize)%nat then HandshakeQueue else Dropped
  else if msgType =? MessageResponseType then if (length packet =? MessageResponseSize)%nat then HandshakeQueue else Dropped
  else if msgType =? MessageCookieReplyType then if (length packet =? MessageCookieReplySize)%nat then HandshakeQueue else Dropped
  else if msgType =? MessagePunchType then
    let p2pData := drop 4 packet in
    if (length p2pData =? 41)%nat && bool_decide (le_get (slice 0 1 p2pData) = P2PSubtypePunchPacket) then PunchQueue p2pData
    else if (length packet =? MessagePunchSize)%nat then HandshakeQueue else Dropped
  else Dropped.

Record inbound_elem := MkElem { elPacket : option bytes; elCounter : Z; elKeypair : nat; elEndpoint : Endpoint; elMsgType : Z }.

Section Paths.
Context `{NoiseCrypto} `{CookieCrypto}.

Definition nonce_bytes (counter : Z) : bytes := zeros 4 ++ le_put 8 counter.
(** RoutineDecryption *)
Definition decrypt (d : Device) (k : nat) (endpoint : Endpoint) (packet : bytes) : inbound_elem :=
  let counter := le_get (slice 8 16 packet) in
  let content := drop 16 packet in
  MkElem (kp ← pairs d !! k; Open (receive kp) (nonce_bytes counter) content []) counter k endpoint (le_get (slice 0 4 packet)).

(** ** Sequential reception *)

(** elem.keypair.replayFilter.ValidateCounter *)
Definition validate_counter (d : Device) (k : nat) (counter : Z) : Device * bool :=
  match pairs d !! k with
  | None => (d, false)
  | Some kp =>
      let '(f, ok) := ValidateCounter (replayFilter kp) counter RejectAfterMessages in
      (with_pairs d (<[k := MkKeypair (sendNonce kp) (send kp) (receive kp) f (isInitiator kp) (created kp) (kLocalIndex kp) (kRemoteIndex kp)]> (pairs d)), ok)
  end.

(** The IP packet inside, cut to its length, if its source may come from the peer. *)
Definition inner_packet (allowed : AllowedIPs nat) (p : nat) (packet : bytes) : option bytes :=
  let version := Z.shiftr (le_get (slice 0 1 packet)) 4 in
  if version =? 4 then
    if (length packet <? 20)%nat then None else
    let len := be_get (slice 2 4 packet) in
    if (Z.of_nat (length packet) <? len) || (len <? 20) then None else
    match Lookup allowed (slice 12 16 packet) with
    | Ok (Some q) => if bool_decide (q = p) then Some (take (Z.to_nat len) packet) else None
    | _ => None
    end
  else if version =? 6 then
    if (length packet <? 40)%nat then None else
    let len := u16 (be_get (slice 4 6 packet) + 40) in
    if Z.of_nat (length packet) <? len then None else
    match Lookup allowed (slice 8 24 packet) with
    | Ok (Some q) => if bool_decide (q = p) then Some (take (Z.to_nat len) packet) else None
    | _ => None
    end
  else None.

(** What an authenticated packet is for; also whether it counts as data. *)
Definition dispatch_packet (p : nat) (msgType : Z) (packet : bytes) (now : Z) (e : Engine) : Engine * list output * bool :=
  if msgType =? MessageP2PControlType then
    (e, match consumeP2PControlPayload packet with Ok payload => [OP2P p payload] | _ => [] end, false)
  else if msgType =? MessageTUNControlType then
    (e, match consumeTUNControlPayload packet with Ok payload => [OTunControl p payload] | _ => [] end, false)
  else if msgType =? MessageWUSPType then
    let '(f, out) := consumeWUSPPayload (eFragments e) p packet now in
    (with_fragments e f, match out with Ok (Some payload) => [OWusp p payload] | _ => [] end, false)
  else if (length packet =? 0)%nat then (e, [], false)
  else (e, match inner_packet (eAllowed e) p packet with Some inner => [OTun inner] | None => [] end, true).

(** One element of RoutineSequentialReceiver; [None] when it is skipped. *)
Definition receive_elem (p : nat) (elem : inbound_elem) (now : Z) (e : Engine) : Engine * option (list output * bool) :=
  match elPacket elem with
  | None => (e, None)
  | Some packet =>
      let '(d, ok) := validate_counter (eDevice e) (elKeypair elem) (elCounter elem) in
      let e := with_device e d in
      if negb ok then (e, None) else
      let '(d, confirmed) := ReceivedWithKeypair p (elKeypair elem) (eDevice e) in
      let e := with_device e d in
      let '(e, staged) := if confirmed then (SetEndpointFromPacket p (elEndpoint elem) e, [OStaged p]) else (e, []) in
      let '(e, out, data) := dispatch_packet p (elMsgType elem) packet now e in
      (e, Some (staged ++ out, data))
  end.
(** The loop over a batch, with the endpoint of the last valid element.  The
    packets for the TUN device are written together when it ends. *)
Fixpoint receive_loop (p : nat) (elems : list inbound_elem) (now : Z) (tail : option Endpoint) (e : Engine) : Engine * list output * option Endpoint :=
  match elems with
  | [] => (e, [], tail)
  | elem :: elems =>
      let '(e, r) := receive_elem p elem now e in
      match r with
      | None => receive_loop p elems now tail e
      | Some (out, _) =>
          let '(e, outs, tail) := receive_loop p elems now (Some (elEndpoint elem)) e in
          (e, out ++ outs, tail)
      end
  end.
Definition receive_batch (p : nat) (elems : list inbound_elem) (now : Z) (e : Engine) : Engine * list output :=
  let '(e, out, tail) := receive_loop p elems now None e in
  (match tail with Some endpoint => SetEndpointFromPacket p endpoint e | None => e end, out).

(** ** Handshake messages *)

Definition QueueHandshakeSize : nat := 1024.
Definition UnderLoadAfterTime : Z := 1000000000.
Definition IsUnderLoad (queued : nat) (now : Z) (e : Engine) : Engine * bool :=
  if (QueueHandshakeSize / 8 <=? queued)%nat then (with_limiter e (eLimiter e) (now + UnderLoadAfterTime), true)
  else (e, now <? eUnderLoadUntil e).

Definition touch_sent (p : nat) (now : Z) (d : Device) : Device :=
  match peers d !! p with None => d | Some x => set_handshake d p x (with_sent (handshake x) (Some now)) end.
(** msg.marshal into a zeroed packet, then AddMacs *)
Definition seal_packet (p : nat) (marshalled : res merr bytes) (now : Z) (e : Engine) : Engine * res herr bytes :=
  match marshalled with
  | Ok packet => let '(g, out) := AddMacs (generator_of e p) packet now in (with_generator e p g, out)
  | _ => (e, Panic)
  end.

(** The result [None] is that no free index has been drawn yet. *)
Definition SendHandshakeResponse (p : nat) (rnd : random) (draws : list (Z * bool)) (clock : nat → Z) (e : Engine) : Engine * option (list output) :=
  let e := with_device e (touch_sent p (clock 0%nat) (eDevice e)) in
  let '(d, out) := CreateMessageResponse p rnd draws (eDevice e) in
  let e := with_device e d in
  match out with
  | None => (e, None)
  | Some (Ok response) =>
      let '(e, packet) := seal_packet p (response_marshal response (zeros MessageResponseSize)) (clock 1%nat) e in
      match packet with
      | Ok packet =>
          let '(d, began) := BeginSymmetricSession p (clock 2%nat) (eDevice e) in
          let e := with_device e d in
          match began with
          | Ok _ => let '(e, out) := SendBuffers p packet e in (e, Some out)
          | _ => (e, Some [])
          end
      | _ => (e, Some [])
      end
  | Some _ => (e, Some [])
  end.

(** time.Since(t) < RekeyTimeout *)
Definition sent_recently (now : Z) (t : option Z) : bool := match t with Some t => now - t <? RekeyTimeout | None => false end.
Definition SendHandshakeInitiation (p : nat) (rnd : random) (timestamp : bytes) (draws : list (Z * bool)) (clock : nat → Z) (e : Engine)
    : Engine * option (list output) :=
  match peers (eDevice e) !! p with
  | None => (e, Some [])
  | Some x =>
      if sent_recently (clock 0%nat) (lastSentHandshake (handshake x)) then (e, Some [])
      else if sent_recently (clock 1%nat) (lastSentHandshake (handshake x)) then (e, Some [])
      else
      let e := with_device e (touch_sent p (clock 2%nat) (eDevice e)) in
      let '(d, out) := CreateMessageInitiation p rnd timestamp draws (eDevice e) in
      let e := with_device e d in
      match out with
      | None => (e, None)
      | Some (Ok msg) =>
          let '(e, packet) := seal_packet p (initiation_marshal msg (zeros MessageInitiationSize)) (clock 3%nat) e in
          match packet with
          | Ok packet => let '(e, out) := SendBuffers p packet e in (e, Some out)
          | _ => (e, Some [])
          end
      | Some _ => (e, Some [])
      end
  end.

Definition SendHandshakeCookie (packet : bytes) (endpoint : Endpoint) (secret nonce : random) (clock : nat → Z) (e : Engine) : Engine * list output :=
  let sender := le_get (slice 4 8 packet) in
  let '(c, reply) := CreateReply (eChecker e) packet sender (DstToBytes endpoint) secret nonce (clock 0%nat) (clock 1%nat) in
  let e := with_checker e c in
  match reply with
  | Ok reply => match cookie_marshal reply (zeros MessageCookieReplySize) with Ok b => (e, [OSend endpoint b]) | _ => (e, []) end
  | _ => (e, [])
  end.

(** The randomness and clock of one handshake message. *)
Record chance := MkChance { chSecret : random; chNonce : random; chKey : random; chDraws : list (Z * bool); chClock : nat → Z }.

(** MACs and rate limit; whether to go on. *)
Definition admit_handshake (packet : bytes) (endpoint : Endpoint) (queued : nat) (c : chance) (e : Engine) : Engine * list output * bool :=
  match CheckMAC1 (eChecker e) packet with
  | Ok true =>
      let '(e, underLoad) := IsUnderLoad queued (chClock c 0%nat) e in
      if negb underLoad then (e, [], true) else
      match CheckMAC2 (eChecker e) packet (DstToBytes endpoint) (chClock c 1%nat) with
      | Ok true =>
          let '(l, ok) := Allow (eLimiter e) (DstIP endpoint) (chClock c 2%nat) in
          (with_limiter e l (eUnderLoadUntil e), [], ok)
      | Ok false =>
          let '(e, out) := SendHandshakeCookie packet endpoint (chSecret c) (chNonce c) (fun i => chClock c (2 + i)%nat) e in
          (e, out, false)
      | _ => (e, [], false)
      end
  | _ => (e, [], false)
  end.

(** One element of RoutineHandshake.  A punch message does not pass the first
    switch of the routine. *)
Definition handle_handshake (msgType : Z) (packet : bytes) (endpoint : Endpoint) (queued : nat) (c : chance) (e : Engine) : Engine * option (list output) :=
  let clock i := chClock c (8 + i)%nat in
  if msgType =? MessageCookieReplyType then
    match cookie_unmarshal packet with
    | Ok reply =>
        match ePeer (IndexTable_Lookup (indexTable (eDevice e)) (mcReceiver reply)) with
        | Some p => if running e p then (with_generator e p (ConsumeReply (generator_of e p) reply (clock 0%nat)).1, Some []) else (e, Some [])
        | None => (e, Some [])
        end
    | _ => (e, Some [])
    end
  else if (msgType =? MessageInitiationType) || (msgType =? MessageResponseType) then
    let '(e, out, go_on) := admit_handshake packet endpoint queued c e in
    if negb go_on then (e, Some out) else
    if msgType =? MessageInitiationType then
      match initiation_unmarshal packet with
      | Ok msg =>
          let '(d, from) := ConsumeMessageInitiation msg (clock 0%nat) (clock 1%nat) (eDevice e) in
          let e := with_device e d in
          match from with
          | None => (e, Some out)
          | Some p => SendHandshakeResponse p (chKey c) (chDraws c) (fun i => clock (2 + i)%nat) (SetEndpointFromPacket p endpoint e)
          end
      | _ => (e, Some out)
      end
    else
      match response_unmarshal packet with
      | Ok msg =>
          let '(d, from) := ConsumeMessageResponse msg (eDevice e) in
          let e := with_device e d in
          match from with
          | None => (e, Some out)
          | Some p =>
              let e := SetEndpointFromPacket p endpoint e in
              let '(d, began) := BeginSymmetricSession p (clock 0%nat) (eDevice e) in
              let e := with_device e d in
              (e, Some match began with Ok _ => [OKeepalive p] | _ => [] end)
          end
      | _ => (e, Some out)
      end
  else (e, Some []).

(** ** Sending *)

(** keypair.sendNonce.Add(1) - 1 *)
Definition take_nonce (kp : Keypair) : Keypair * Z :=
  let n := u64 (sendNonce kp + 1) in
  (MkKeypair n (send kp) (receive kp) (replayFilter kp) (isInitiator kp) (created kp) (kLocalIndex kp) (kRemoteIndex kp), u64 (n - 1)).
(** RoutineEncryption of one element. *)
Definition encrypt (kp : Keypair) (nonce : Z) (msgType : Z) (mtu : Z) (packet : bytes) : bytes :=
  let msgType := if msgType =? 0 then MessageTransportType else msgType in
  let header := le_put 4 msgType ++ le_put 4 (kRemoteIndex kp) ++ le_put 8 nonce in
  let padded := transported mtu packet in
  header ++ Seal (send kp) (nonce_bytes nonce) padded [].
(** A keypair that SendStagedPackets may use. *)
Definition usable (kp : Keypair) (now : Z) : bool := negb ((RejectAfterMessages <=? sendNonce kp) || (RejectAfterTime <=? now - created kp)).

(** A packet of the TUN device goes to the peer that owns its destination. *)
Definition outbound_peer (allowed : AllowedIPs nat) (packet : bytes) : option nat :=
  if (length packet <? 1)%nat then None else
  let version := Z.shiftr (le_get (slice 0 1 packet)) 4 in
  let dst := if (version =? 4) && (20 <=? length packet)%nat then Some (slice 16 20 packet)
             else if (version =? 6) && (40 <=? length packet)%nat then Some (slice 24 40 packet) else None in
  match dst with
  | None => None
  | Some dst => match Lookup allowed dst with Ok q => q | _ => None end
  end.

Definition RekeyAfterMessages : Z := 2 ^ 60.
Definition RekeyAfterTime : Z := 120 * 1000000000.
Definition KeepaliveTimeout : Z := 10 * 1000000000.
(** Whether a new handshake is due, after sending and after receiving. *)
Definition keepKeyFreshSending (kp : option Keypair) (now : Z) : bool :=
  match kp with
  | None => false
  | Some kp => (RekeyAfterMessages <? sendNonce kp) || (isInitiator kp && (RekeyAfterTime <? now - created kp))
  end.
Definition keepKeyFreshReceiving (sentLastMinuteHandshake : bool) (kp : option Keypair) (now : Z) : bool * bool :=
  if sentLastMinuteHandshake then (true, false) else
  match kp with
  | None => (false, false)
  | Some kp =>
      let due := isInitiator kp && (RejectAfterTime - KeepaliveTimeout - RekeyTimeout <? now - created kp) in (due, due)
  end.

(** The loop over one container: what gets a nonce, and what has to wait. *)
Fixpoint assign_nonces (kp : Keypair) (elems : list bytes) : Keypair * list (Z * bytes) * list bytes :=
  match elems with
  | [] => (kp, [], [])
  | elem :: elems =>
      let '(kp, nonce) := take_nonce kp in
      if RejectAfterMessages <=? nonce then
        let '(kp, sent, waiting) := assign_nonces (reject_nonce kp) elems in (kp, sent, elem :: waiting)
      else
        let '(kp, sent, waiting) := assign_nonces kp elems in (kp, (nonce, elem) :: sent, waiting)
  end.
Definition IdealBatchSize : nat := 128.
Definition QueueStagedSize : nat := IdealBatchSize * 4.
(** The containers a peer has staged, the oldest first; the oldest makes room. *)
Definition StagePackets (elems : list bytes) (staged : list (list bytes)) : list (list bytes) :=
  if (length staged <? QueueStagedSize)%nat then staged ++ [elems] else drop 1 staged ++ [elems].
Inductive staged_result := SentAll | NeedsHandshake | OutOfFuel.
(** SendStagedPackets of a peer whose device is up, with nobody else at its key
    pair; [top] is whether the keypair is to be looked at again.  The nonces
    assigned go to the encryption queue if the peer runs. *)
Fixpoint send_staged (fuel : nat) (top running : bool) (now : Z) (staged : list (list bytes)) (kp : Keypair)
    : Keypair * list (list bytes) * list (Z * bytes) * staged_result :=
  match fuel with
  | O => (kp, staged, [], OutOfFuel)
  | S fuel =>
      match staged with
      | [] => (kp, [], [], SentAll)
      | elems :: staged' =>
          if top && negb (usable kp now) then (kp, staged, [], NeedsHandshake) else
          let '(kp, sent, waiting) := assign_nonces kp elems in
          let staged := match waiting with [] => staged' | _ => StagePackets waiting staged' end in
          let again := match sent, waiting with _ :: _, [] => false | _, _ => true end in
          let '(kp, staged, rest, r) := send_staged fuel again running now staged kp in
          (kp, staged, (if running then sent else []) ++ rest, r)
      end
  end.
End Paths.
