(* ===== verification/EngineProps.v ===== *)
(** * The packet paths: what gets through, and what does not

    Proofs about [Engine]: a packet sealed by one end of a session comes out at the
    other once, nonces are never used twice, a peer's endpoint follows only
    authenticated packets, and the unauthenticated type of a datagram cannot turn
    one kind of content into another. *)

From S2P Require Import Prelude GoStr Replay AllowedIPs Ratelimiter Wire Fragments WuspAssembly WuspTransport P2PMessage Transport Request Stream Noise Handshake HandshakeProps Cookie Engine.

(** ** Sealing and opening *)

(** A keypair of one end, seen from the other: its send key is the receive key
    there, and it addresses the index there. *)
Definition mirrors (kpA kpB : Keypair) : Prop := send kpA = receive kpB ∧ kRemoteIndex kpA = kLocalIndex kpB.

Definition wire_type (msgType : Z) : Z := if msgType =? 0 then MessageTransportType else msgType.
Definition transport_type (t : Z) : Prop :=
  t = MessageTransportType ∨ t = MessageTUNControlType ∨ t = MessageWUSPType ∨ t = MessageP2PControlType.

Lemma message_sizes : MinMessageSize = 32%nat ∧ MessageTransportSize = 32%nat.
Proof. by split. Qed.

Section Transport.
Context `{NC : NoiseCrypto, NL : !NoiseLaws}.

Lemma transport_type_range t : transport_type t → 0 ≤ t < 2 ^ 32.
Proof. intros [->|[->|[->| ->]]]; vm_compute; done. Qed.

Lemma encrypt_shape kp n t mtu pkt : ∃ c, encrypt kp n t mtu pkt = le_put 4 (wire_type t) ++ le_put 4 (kRemoteIndex kp) ++ le_put 8 n ++ c ∧
  c = Seal (send kp) (nonce_bytes n) (transported mtu pkt) [].
Proof. eexists. split; [|reflexivity]. unfold encrypt, wire_type. by rewrite <- !app_assoc. Qed.

Lemma encrypt_length kp n t mtu pkt : (length (encrypt kp n t mtu pkt) = 32 + length (transported mtu pkt))%nat.
Proof.
  destruct (encrypt_shape kp n t mtu pkt) as (c & -> & ->). rewrite !length_app, !length_le_put, length_Seal. lia.
Qed.

(** What the receiver reads in the header. *)
Lemma encrypt_header kp n t mtu pkt : transport_type (wire_type t) → 0 ≤ kRemoteIndex kp < 2 ^ 32 → 0 ≤ n < 2 ^ 64 →
  le_get (slice 0 4 (encrypt kp n t mtu pkt)) = wire_type t ∧ le_get (slice 4 8 (encrypt kp n t mtu pkt)) = kRemoteIndex kp ∧
  le_get (slice 8 16 (encrypt kp n t mtu pkt)) = n ∧ drop 16 (encrypt kp n t mtu pkt) = Seal (send kp) (nonce_bytes n) (transported mtu pkt) [].
Proof.
  intros Ht%transport_type_range Hi Hn. destruct (encrypt_shape kp n t mtu pkt) as (c & -> & <-). split_and!.
  - rewrite slice_app_here by apply length_le_put. by rewrite le_get_put_small.
  - rewrite slice_app_r by (rewrite length_le_put; lia). rewrite length_le_put. cbn [Nat.sub].
    rewrite slice_app_here by apply length_le_put. by rewrite le_get_put_small.
  - rewrite slice_app_r by (rewrite length_le_put; lia). rewrite length_le_put. cbn [Nat.sub].
    rewrite slice_app_r by (rewrite length_le_put; lia). rewrite length_le_put. cbn [Nat.sub].
    rewrite slice_app_here by apply length_le_put. by rewrite le_get_put_small.
  - rewrite !app_assoc. apply drop_app_length'. rewrite !length_app, !length_le_put. done.
Qed.

Lemma encrypt_arrives d kpA kpB p k n t mtu pkt now : pairs d !! k = Some kpB → indexTable d !! kLocalIndex kpB = Some (kp_entry p k) →
  mirrors kpA kpB → transport_type (wire_type t) → 0 ≤ kLocalIndex kpB < 2 ^ 32 → 0 ≤ n < 2 ^ 64 → now ≤ created kpB + RejectAfterTime →
  receive_packet (encrypt kpA n t mtu pkt) now d = Inbound p k.
Proof.
  intros Hk Hx [Hs Hr] Ht Hi Hn Hnow. rewrite <- Hr in Hi. destruct (encrypt_header kpA n t mtu pkt Ht Hi Hn) as (H0 & H1 & _).
  unfold receive_packet. rewrite encrypt_length, H0, H1.
  rewrite (proj2 (Nat.ltb_ge _ MinMessageSize)) by (rewrite (proj1 message_sizes); lia).
  assert ((wire_type t =? MessageTransportType) || (wire_type t =? MessageTUNControlType) || (wire_type t =? MessageWUSPType) || (wire_type t =? MessageP2PControlType) = true) as ->.
  { destruct Ht as [->|[->|[->| ->]]]; done. }
  rewrite (proj2 (Nat.ltb_ge _ MessageTransportSize)) by (rewrite (proj2 message_sizes); lia).
  unfold IndexTable_Lookup. rewrite Hr, Hx. cbn [default from_option id kp_entry eKeypair ePeer]. rewrite Hk.
  by destruct (Z.ltb_spec (created kpB + RejectAfterTime) now) as [?|_]; [lia|].
Qed.

Lemma decrypt_encrypt d kpA kpB k n t mtu pkt ep : pairs d !! k = Some kpB → mirrors kpA kpB → transport_type (wire_type t) →
  0 ≤ kLocalIndex kpB < 2 ^ 32 → 0 ≤ n < 2 ^ 64 →
  decrypt d k ep (encrypt kpA n t mtu pkt) = MkElem (Some (transported mtu pkt)) n k ep (wire_type t).
Proof.
  intros Hk [Hs Hr] Ht Hi Hn. rewrite <- Hr in Hi. destruct (encrypt_header kpA n t mtu pkt Ht Hi Hn) as (H0 & _ & H2 & H3).
  unfold decrypt. rewrite H0, H2, H3, Hk. cbn [mbind option_bind]. by rewrite <- Hs, Open_Seal.
Qed.
End Transport.

(** ** Inner packets *)

Lemma slice_in_front {A} lo hi (a b : list A) : (hi ≤ length a)%nat → slice lo hi (a ++ b) = slice lo hi a.
Proof.
  intros H. unfold slice. destruct (Nat.le_gt_cases lo hi) as [Hl|Hl].
  - rewrite drop_app_le by lia. apply take_app_le. rewrite length_drop. lia.
  - by replace (hi - lo)%nat with 0%nat by lia.
Qed.

(** A packet that is what its IP header says, with its source address. *)
Definition ip_source (pkt : bytes) : option bytes :=
  let version := Z.shiftr (le_get (slice 0 1 pkt)) 4 in
  if (version =? 4) && (20 <=? length pkt)%nat && (be_get (slice 2 4 pkt) =? Z.of_nat (length pkt)) then Some (slice 12 16 pkt)
  else if (version =? 6) && (40 <=? length pkt)%nat && (be_get (slice 4 6 pkt) + 40 =? Z.of_nat (length pkt)) && (Z.of_nat (length pkt) <? 65536)
  then Some (slice 8 24 pkt) else None.
Definition from_peer_source (allowed : AllowedIPs nat) (p : nat) (src : bytes) : bool :=
  match Lookup allowed src with Ok (Some q) => bool_decide (q = p) | _ => false end.

(** The padding of the transport is cut off again. *)
Lemma inner_packet_padded allowed p pkt pad src : ip_source pkt = Some src →
  inner_packet allowed p (pkt ++ pad) = if from_peer_source allowed p src then Some pkt else None.
Proof.
  unfold ip_source, inner_packet, from_peer_source. intros H.
  assert (1 ≤ length pkt)%nat as H1.
  { destruct pkt; [|cbn; lia]. exfalso. revert H. by vm_compute. }
  rewrite (slice_in_front 0 1) by lia. set (v := Z.shiftr (le_get (slice 0 1 pkt)) 4) in *.
  destruct ((v =? 4) && (20 <=? length pkt)%nat && (be_get (slice 2 4 pkt) =? Z.of_nat (length pkt))) eqn:E4.
  - injection H as <-. apply andb_true_iff in E4 as [[->%Z.eqb_eq H20%Nat.leb_le]%andb_true_iff Hlen%Z.eqb_eq]. cbn [Z.eqb Pos.eqb].
    rewrite !slice_in_front by lia. rewrite (proj2 (Nat.ltb_ge _ 20)) by (rewrite length_app; lia). rewrite Hlen.
    rewrite (proj2 (Z.ltb_ge _ _)) by (rewrite length_app; lia). rewrite (proj2 (Z.ltb_ge _ 20)) by lia. cbn [orb].
    rewrite Nat2Z.id, take_app_length. by destruct (Lookup _ _) as [[q|]| |].
  - clear E4. destruct ((v =? 6) && (40 <=? length pkt)%nat && (be_get (slice 4 6 pkt) + 40 =? Z.of_nat (length pkt)) && (Z.of_nat (length pkt) <? 65536)) eqn:E6; [|done].
    injection H as <-. apply andb_true_iff in E6 as [[[->%Z.eqb_eq H40%Nat.leb_le]%andb_true_iff Hlen%Z.eqb_eq]%andb_true_iff Hmax%Z.ltb_lt].
    cbn [Z.eqb Pos.eqb]. rewrite !slice_in_front by lia. rewrite (proj2 (Nat.ltb_ge _ 40)) by (rewrite length_app; lia).
    rewrite Hlen, wrap_small by lia. rewrite (proj2 (Z.ltb_ge _ _)) by (rewrite length_app; lia).
    rewrite Nat2Z.id, take_app_length. by destruct (Lookup _ _) as [[q|]| |].
Qed.

(** ** Counters *)

Definition with_filter (kp : Keypair) (f : Filter) : Keypair :=
  MkKeypair (sendNonce kp) (send kp) (receive kp) f (isInitiator kp) (created kp) (kLocalIndex kp) (kRemoteIndex kp).
Definition with_pair (d : Device) (k : nat) (kp : Keypair) : Device := with_pairs d (<[k := kp]> (pairs d)).

Definition fresh_counter (a : Filter_spec) (n : Z) : Prop := newest a - n ≤ windowSize ∧ n ∉ seen a.
Definition accepted (a : Filter_spec) (n : Z) : Filter_spec := {| newest := Z.max (newest a) n; seen := {[n]} ∪ seen a |}.

Lemma counter_accepted d k kp a n : pairs d !! k = Some kp → represents (replayFilter kp) a → 0 ≤ n < RejectAfterMessages → fresh_counter a n →
  ∃ f, represents f (accepted a n) ∧ validate_counter d k n = (with_pair d k (with_filter kp f), true).
Proof.
  intros Hk Hrep Hn [Hw Hs]. unfold validate_counter. rewrite Hk.
  pose proof (ValidateCounter_sim (replayFilter kp) a n RejectAfterMessages Hrep) as Hsim. destruct (ValidateCounter _ n _) as [f b].
  unfold spec_validate in Hsim. rewrite bool_decide_true in Hsim by (split_and!; [apply Hn|done..]).
  destruct Hsim as [-> Hf]; [split; [apply Hn|]; etransitivity; [apply Hn|]; vm_compute; done|]. by exists f.
Qed.
Lemma counter_refused d k kp a n : pairs d !! k = Some kp → represents (replayFilter kp) a → 0 ≤ n < 2 ^ 64 → n ∈ seen a →
  (validate_counter d k n).2 = false.
Proof.
  intros Hk Hrep Hn Hs. unfold validate_counter. rewrite Hk.
  pose proof (ValidateCounter_sim (replayFilter kp) a n RejectAfterMessages Hrep Hn) as Hsim. destruct (ValidateCounter _ n _) as [f b].
  unfold spec_validate in Hsim. rewrite bool_decide_false in Hsim by tauto. by destruct Hsim as [-> _].
Qed.

(** ** Delivery *)

(** The first packet of a new session confirms it. *)
Definition confirms (d : Device) (p k : nat) : bool :=
  match peers d !! p with Some x => bool_decide (next (keypairs x) = Some k) | None => false end.

Lemma received_confirms d p k : (ReceivedWithKeypair p k d).2 = confirms d p k.
Proof. unfold ReceivedWithKeypair, confirms. destruct (peers d !! p) as [x|]; [|done]. by case_bool_decide. Qed.
Lemma received_pairs d p k : pairs (ReceivedWithKeypair p k d).1 = pairs d.
Proof.
  unfold ReceivedWithKeypair. destruct (peers d !! p) as [x|]; [|done]. case_bool_decide; [|done]. cbn [negb fst].
  unfold set_keypairs. rewrite peers_delete. destruct (peers d !! p); cbn [pairs with_peer]; by rewrite pairs_delete.
Qed.
Lemma set_endpoint_device p ep e : eDevice (SetEndpointFromPacket p ep e) = eDevice e.
Proof. unfold SetEndpointFromPacket. by destruct (disableRoaming _). Qed.
Lemma set_endpoint_allowed p ep e : eAllowed (SetEndpointFromPacket p ep e) = eAllowed e.
Proof. unfold SetEndpointFromPacket. by destruct (disableRoaming _). Qed.
Lemma dispatch_device p t pkt now e : eDevice (dispatch_packet p t pkt now e).1.1 = eDevice e.
Proof.
  unfold dispatch_packet. by repeat case_match.
Qed.

(** What one accepted element does. *)
Lemma receive_batch_accepted p pkt n k ep t now e d : validate_counter (eDevice e) k n = (d, true) →
  ∃ e' out, receive_batch p [MkElem (Some pkt) n k ep t] now e = (e', (if confirms d p k then [OStaged p] else []) ++ out) ∧
    pairs (eDevice e') = pairs d ∧ (∃ e0, eAllowed e0 = eAllowed e ∧ eFragments e0 = eFragments e ∧ (dispatch_packet p t pkt now e0).1.2 = out).
Proof.
  intros Hv. unfold receive_batch. cbn [receive_loop]. unfold receive_elem. cbn [elPacket elKeypair elCounter elMsgType elEndpoint]. rewrite Hv. cbn [negb].
  pose proof (received_confirms d p k) as Hc. pose proof (received_pairs d p k) as Hp. cbn [eDevice with_device].
  destruct (ReceivedWithKeypair p k d) as [d1 c]. cbn [fst snd] in Hc, Hp. subst c.
  set (e1 := with_device (with_device e d) d1).
  assert (∃ e2, (if confirms d p k then (SetEndpointFromPacket p ep e1, [OStaged p]) else (e1, [])) = (e2, if confirms d p k then [OStaged p] else []) ∧
    eDevice e2 = d1 ∧ eAllowed e2 = eAllowed e ∧ eFragments e2 = eFragments e) as (e2 & -> & Hd & Ha & Hf).
  { destruct (confirms d p k); eexists; (split; [reflexivity|]); [|done].
    rewrite set_endpoint_device, set_endpoint_allowed. unfold SetEndpointFromPacket. by destruct (disableRoaming _). }
  pose proof (dispatch_device p t pkt now e2) as Hdd. destruct (dispatch_packet p t pkt now e2) as [[e3 out] data] eqn:Ed. cbn [fst] in Hdd.
  eexists _, out. rewrite app_nil_r. split; [reflexivity|]. rewrite set_endpoint_device, Hdd, Hd. split; [done|]. exists e2. by rewrite Ed.
Qed.
Lemma receive_batch_refused p pkt n k ep t now e : (validate_counter (eDevice e) k n).2 = false → (receive_batch p [MkElem (Some pkt) n k ep t] now e).2 = [].
Proof.
  intros Hv. unfold receive_batch. cbn [receive_loop]. unfold receive_elem. cbn [elPacket elKeypair elCounter].
  destruct (validate_counter _ k n) as [d ok]. cbn [snd] in Hv. by subst ok.
Qed.

Lemma dispatch_ip p pkt pad src now e : ip_source pkt = Some src →
  (dispatch_packet p MessageTransportType (pkt ++ pad) now e).1.2 = if from_peer_source (eAllowed e) p src then [OTun pkt] else [].
Proof.
  intros Hs. unfold dispatch_packet. cbn [Z.eqb]. change (MessageTransportType =? MessageP2PControlType) with false.
  change (MessageTransportType =? MessageTUNControlType) with false. change (MessageTransportType =? MessageWUSPType) with false. cbv iota.
  rewrite (proj2 (Nat.eqb_neq _ _)). 2:{ destruct pkt; [by vm_compute in Hs|done]. }
  cbn [fst snd]. rewrite (inner_packet_padded _ _ _ _ src Hs). by destruct (from_peer_source _ _ _).
Qed.

Section Delivery.
Context `{NC : NoiseCrypto, NL : !NoiseLaws}.

(** C6: A packet that one end of a session seals and the other end receives, fresh
    and in time, is recognised as belonging to that session, is opened, and its IP
    packet goes to the TUN device without the padding exactly if its source address
    is one of the peer's; if it is the first of a new session, staged packets are
    sent.  Receiving the same datagram again, from wherever, does nothing. *)
Theorem transport_delivered e p k kpA kpB a n mtu pkt src ep now :
  let d := eDevice e in let datagram := encrypt kpA n 0 mtu pkt in
  pairs d !! k = Some kpB → indexTable d !! kLocalIndex kpB = Some (kp_entry p k) → mirrors kpA kpB → 0 ≤ kLocalIndex kpB < 2 ^ 32 →
  represents (replayFilter kpB) a → 0 ≤ n < RejectAfterMessages → fresh_counter a n → now ≤ created kpB + RejectAfterTime → ip_source pkt = Some src →
  receive_packet datagram now d = Inbound p k ∧
  let '(e', out) := receive_batch p [decrypt d k ep datagram] now e in
  out = (if confirms d p k then [OStaged p] else []) ++ (if from_peer_source (eAllowed e) p src then [OTun pkt] else []) ∧
  ∀ ep' now', (receive_batch p [decrypt (eDevice e') k ep' datagram] now' e').2 = [].
Proof.
  intros d datagram Hk Hx Hm Hi Hrep Hn Hfresh Hnow Hsrc. assert (Hn' : 0 ≤ n < 2 ^ 64) by (split; [apply Hn|etransitivity; [apply Hn|done]]).
  assert (Ht : transport_type (wire_type 0)) by by left.
  split; [by apply (encrypt_arrives d kpA kpB)|]. unfold datagram. rewrite (decrypt_encrypt d kpA kpB) by done.
  destruct (counter_accepted d k kpB a n Hk Hrep Hn Hfresh) as (f & Hf & Hv).
  destruct (receive_batch_accepted p (transported mtu pkt) n k ep (wire_type 0) now e _ Hv) as (e' & out & -> & Hp & e0 & Ha & _ & Hout).
  unfold transported in Hout. rewrite (dispatch_ip _ _ _ src _ _ Hsrc), Ha in Hout. subst out. split; [done|]. intros ep' now'.
  assert (Hk' : pairs (eDevice e') !! k = Some (with_filter kpB f)) by (rewrite Hp; apply lookup_insert_eq).
  rewrite (decrypt_encrypt (eDevice e') kpA (with_filter kpB f)) by done.
  apply receive_batch_refused, (counter_refused _ _ _ _ _ Hk' Hf Hn'). cbn. set_solver.
Qed.
End Delivery.

(** ** Nonces *)

(** Routines that send with one keypair: [nsUsed] are the nonces given out, the
    last first, [nsStoring] the routines that drew one past the limit and have not
    put the counter back yet. *)
Record nonce_state := MkNonces { nsPair : Keypair; nsUsed : list Z; nsStoring : gset nat }.
Section Nonces.
Context (routines : gset nat).

Inductive nonce_step : nonce_state → nonce_state → Prop :=
| step_use s t kp n : t ∈ routines → t ∉ nsStoring s → take_nonce (nsPair s) = (kp, n) → n < RejectAfterMessages →
    nonce_step s (MkNonces kp (n :: nsUsed s) (nsStoring s))
| step_exhausted s t kp n : t ∈ routines → t ∉ nsStoring s → take_nonce (nsPair s) = (kp, n) → RejectAfterMessages ≤ n →
    nonce_step s (MkNonces kp (nsUsed s) ({[t]} ∪ nsStoring s))
| step_store s t : t ∈ nsStoring s → nonce_step s (MkNonces (reject_nonce (nsPair s)) (nsUsed s) (nsStoring s ∖ {[t]}))
| step_expire s : nonce_step s (MkNonces (reject_nonce (nsPair s)) (nsUsed s) (nsStoring s)).

Record nonces_ok (s : nonce_state) : Prop := {
  no_range : 0 ≤ sendNonce (nsPair s) ≤ RejectAfterMessages + Z.of_nat (size (nsStoring s));
  no_storing : nsStoring s ⊆ routines;
  no_used : ∀ n, n ∈ nsUsed s → 0 ≤ n < RejectAfterMessages ∧ n < sendNonce (nsPair s);
  no_nodup : NoDup (nsUsed s) }.

Lemma nonces_step (Hfew : Z.of_nat (size routines) ≤ 2 ^ 13) s s' : nonces_ok s → nonce_step s s' → nonces_ok s'.
Proof.
  intros [Hr Hsub Hu Hd] Hstep.
  assert (Hlim : RejectAfterMessages = 2 ^ 64 - 2 ^ 13 - 1) by done.
  assert (Htake : ∀ t kp n, t ∈ routines → t ∉ nsStoring s → take_nonce (nsPair s) = (kp, n) →
    n = sendNonce (nsPair s) ∧ sendNonce kp = n + 1 ∧ Z.of_nat (size ({[t]} ∪ nsStoring s)) = Z.of_nat (size (nsStoring s)) + 1).
  { intros t kp n Ht Hnt E. assert (size ({[t]} ∪ nsStoring s) = S (size (nsStoring s))) as Hs by (rewrite size_union, size_singleton by set_solver; done).
    assert (size ({[t]} ∪ nsStoring s) ≤ size routines)%nat by (apply subseteq_size; set_solver).
    unfold take_nonce in E. injection E as <- <-. cbn [sendNonce]. rewrite (wrap_small 64 (sendNonce (nsPair s) + 1)) by lia.
    rewrite wrap_small by lia. lia. }
  destruct Hstep as [s t kp n Ht Hnt E Hn|s t kp n Ht Hnt E Hn|s t Ht|s].
  - destruct (Htake t kp n Ht Hnt E) as (-> & Hkp & _). split; cbn [nsPair nsUsed nsStoring]; rewrite ?Hkp.
    + lia.
    + done.
    + intros m [->|Hm]%elem_of_cons; [lia|]. specialize (Hu m Hm). lia.
    + constructor; [|done]. intros Hin%Hu. lia.
  - destruct (Htake t kp n Ht Hnt E) as (-> & Hkp & Hsz). split; cbn [nsPair nsUsed nsStoring]; rewrite ?Hkp, ?Hsz.
    + lia.
    + set_solver.
    + intros m Hm%Hu. lia.
    + done.
  - split; cbn [nsPair nsUsed nsStoring reject_nonce sendNonce]; [lia|set_solver| |done]. intros m Hm%Hu. lia.
  - split; cbn [nsPair nsUsed nsStoring reject_nonce sendNonce]; [lia|done| |done]. intros m Hm%Hu. lia.
Qed.

(** C13: However the routines that send for a peer interleave their atomic
    operations on the counter of a new session, with its expiry at any time, no
    nonce is given out twice and none reaches RejectAfterMessages, provided that no
    more than 2^13 routines send at once: then the counter cannot wrap round before
    one of those that found it exhausted puts it back. *)
Theorem nonces_unique kp s : Z.of_nat (size routines) ≤ 2 ^ 13 → sendNonce kp = 0 → rtc nonce_step (MkNonces kp [] ∅) s →
  NoDup (nsUsed s) ∧ Forall (fun n => 0 ≤ n < RejectAfterMessages) (nsUsed s).
Proof.
  intros Hfew H0 Hs. assert (nonces_ok (MkNonces kp [] ∅)) as Hok.
  { split; cbn [nsPair nsUsed nsStoring]; [rewrite H0; vm_compute; done|set_solver|by intros ? ?%not_elem_of_nil|constructor]. }
  assert (nonces_ok s) as [_ _ Hu Hd] by (revert Hok; induction Hs as [|x y z Hxy _ IH]; [done|]; intros Hx; by apply IH, (nonces_step Hfew x)).
  split; [done|]. apply Forall_forall. intros n Hn%Hu. lia.
Qed.
End Nonces.

(** ** Staged packets *)

Definition nonce_left (kp : Keypair) : Prop := 0 ≤ sendNonce kp ≤ RejectAfterMessages.
Lemma reject_bound : 0 < RejectAfterMessages ∧ RejectAfterMessages + 1 < 2 ^ 64.
Proof. by vm_compute. Qed.

Lemma take_nonce_eq kp : nonce_left kp → (take_nonce kp).2 = sendNonce kp ∧ sendNonce (take_nonce kp).1 = sendNonce kp + 1 ∧ created (take_nonce kp).1 = created kp.
Proof.
  intros Hk. unfold nonce_left in Hk. pose proof reject_bound. unfold take_nonce. cbn [fst snd sendNonce created]. rewrite (wrap_small 64 (sendNonce kp + 1)) by lia.
  rewrite wrap_small by lia. lia.
Qed.

(** The packets get the next nonces in order until the limit; the rest waits. *)
Lemma assign_nonces_spec elems : ∀ kp, nonce_left kp →
  let '(kp', sent, waiting) := assign_nonces kp elems in
  nonce_left kp' ∧ sendNonce kp' = sendNonce kp + Z.of_nat (length sent) ∧ created kp' = created kp ∧
  sent.*1 = seqZ (sendNonce kp) (Z.of_nat (length sent)) ∧ sent.*2 ++ waiting = elems ∧ (waiting ≠ [] → sendNonce kp' = RejectAfterMessages).
Proof.
  pose proof reject_bound as Hb.
  assert (Hfull : ∀ elems kp, sendNonce kp = RejectAfterMessages → ∃ kp', assign_nonces kp elems = (kp', [], elems) ∧ sendNonce kp' = RejectAfterMessages ∧ created kp' = created kp).
  { clear elems. induction elems as [|x l IH]; intros kp Hk; [by exists kp|]. cbn [assign_nonces].
    destruct (take_nonce_eq kp) as (Hn & _ & Hc); [split; lia|]. destruct (take_nonce kp) as [kp1 n]. cbn [fst snd] in Hn, Hc. subst n.
    rewrite (proj2 (Z.leb_le _ _)) by lia. destruct (IH (reject_nonce kp1)) as (kp' & -> & H1 & H2); [done|]. exists kp'. by rewrite H2, <- Hc. }
  induction elems as [|x l IH]; intros kp Hk; cbn [assign_nonces].
  { rewrite Z.add_0_r. split_and!; try done. }
  destruct (decide (sendNonce kp = RejectAfterMessages)) as [E|E].
  { destruct (Hfull (x :: l) kp E) as (kp' & Hf & H1 & H2). cbn [assign_nonces] in Hf. rewrite Hf. cbn [length]. rewrite Z.add_0_r.
    split_and!; [split; lia|lia|done|done|done|done]. }
  destruct (take_nonce_eq kp Hk) as (Hn & Hs & Hc). destruct (take_nonce kp) as [kp1 n]. cbn [fst snd] in Hn, Hs, Hc. subst n. unfold nonce_left in Hk.
  rewrite (proj2 (Z.leb_gt _ _)) by lia. specialize (IH kp1 ltac:(split; lia)). destruct (assign_nonces kp1 l) as [[kp' sent] waiting].
  destruct IH as (H1 & H2 & H3 & H4 & H5 & H6). rewrite !fmap_cons. cbn [length fst snd]. rewrite Nat2Z.inj_succ, seqZ_cons by lia.
  rewrite Z.pred_succ. split_and!; [done|lia|lia|by rewrite H4, Hs, Z.add_1_r|cbn; by rewrite H5|done].
Qed.

Lemma staged_stuck fuel kp now staged : sendNonce kp = RejectAfterMessages → staged ≠ [] →
  usable kp now = false ∧ send_staged (S fuel) true true now staged kp = (kp, staged, [], NeedsHandshake).
Proof.
  intros Hk Hs. assert (usable kp now = false) as Hu by (unfold usable; by rewrite (proj2 (Z.leb_le _ _)) by lia).
  split; [done|]. destruct staged; [done|]. cbn [send_staged]. by rewrite Hu.
Qed.
Lemma staged_again waiting staged : (length staged < QueueStagedSize)%nat → waiting ≠ [] →
  StagePackets waiting staged = staged ++ [waiting] ∧ StagePackets waiting staged ≠ [].
Proof. intros Hl Hw. unfold StagePackets. rewrite (proj2 (Nat.ltb_lt _ _)) by done. split; [done|]. by destruct staged. Qed.

(** What a run of SendStagedPackets promises. *)
Definition staged_outcome (kp kp' : Keypair) (now : Z) (staged staged' : list (list bytes)) (sent : list (Z * bytes)) (r : staged_result) : Prop :=
  sendNonce kp' = sendNonce kp + Z.of_nat (length sent) ∧ nonce_left kp' ∧ sent.*1 = seqZ (sendNonce kp) (Z.of_nat (length sent)) ∧
  sent.*2 `prefix_of` concat staged ∧ sent.*2 ++ concat staged' ≡ₚ concat staged ∧
  (r = SentAll ∧ staged' = [] ∨ r = NeedsHandshake ∧ usable kp' now = false).

Lemma send_staged_spec fuel : ∀ top now staged kp, (length staged + 2 ≤ fuel)%nat → nonce_left kp → (length staged ≤ QueueStagedSize)%nat →
  let '(kp', staged', sent, r) := send_staged fuel top true now staged kp in staged_outcome kp kp' now staged staged' sent r.
Proof.
  induction fuel as [|fuel IH]; intros top now staged kp Hfuel Hk Hlen; [lia|]. destruct staged as [|elems staged].
  { cbn. unfold staged_outcome. rewrite Z.add_0_r. split_and!; try done. by left. }
  cbn [send_staged]. destruct (top && negb (usable kp now)) eqn:Etop.
  { apply andb_true_iff in Etop as [_ Hu%negb_true_iff]. unfold staged_outcome. cbn [length fmap list_fmap]. rewrite Z.add_0_r.
    split_and!; try done. { apply prefix_nil. } by right. }
  pose proof (assign_nonces_spec elems kp Hk) as Ha. destruct (assign_nonces kp elems) as [[kp1 sent] waiting].
  destruct Ha as (Hk1 & Hn1 & _ & Hs1 & Happ & Hw). cbn [length] in Hfuel, Hlen. unfold staged_outcome. destruct waiting as [|w ws].
  - rewrite app_nil_r in Happ. specialize (IH (match sent with _ :: _ => false | [] => true end) now staged kp1 ltac:(lia) Hk1 ltac:(lia)).
    replace (match sent with [] => true | _ :: _ => false end) with (match sent with _ :: _ => false | [] => true end) by done.
    destruct (send_staged _ _ _ _ _ _) as [[[kp' staged'] rest] r]. destruct IH as (H1 & H2 & H3 & H4 & H5 & H6).
    rewrite length_app, Nat2Z.inj_add, !fmap_app, H3, Hs1, seqZ_app by lia. cbn [concat]. rewrite <- Happ.
    split_and!; [lia|done|by rewrite Hn1|by apply prefix_app|by rewrite <- app_assoc, H5|done].
  - specialize (Hw ltac:(done)). destruct (staged_again (w :: ws) staged ltac:(lia) ltac:(done)) as [Hst Hne]. destruct fuel as [|fuel]; [lia|].
    destruct (staged_stuck fuel kp1 now _ Hw Hne) as [Hu Hrun].
    assert (match sent with _ :: _ | _ => true end = true) as -> by by destruct sent. rewrite Hrun, app_nil_r, Hst. split_and!; [done|done|done| | |by right].
    + cbn [concat]. rewrite <- Happ, <- app_assoc. apply prefix_app_r. done.
    + cbn [concat]. rewrite concat_app. cbn [concat]. rewrite app_nil_r, <- Happ, <- app_assoc. apply Permutation_app_head, Permutation_app_comm.
Qed.

(** C14: SendStagedPackets ends: with the staged packets all on their way, or with
    the rest staged again and a handshake asked for, because the session has run
    out of nonces or time.  No packet is lost or doubled, those sent are the oldest
    in order, and they carry consecutive nonces below the limit. *)
Theorem staged_packets_sent fuel top now staged kp : (length staged + 2 ≤ fuel)%nat → nonce_left kp → (length staged ≤ QueueStagedSize)%nat →
  let '(kp', staged', sent, r) := send_staged fuel top true now staged kp in staged_outcome kp kp' now staged staged' sent r.
Proof. apply send_staged_spec. Qed.

(** ** The type of a datagram *)

(** The type field replaced; it is not among what the seal covers. *)
Definition retag (t : Z) (datagram : bytes) : bytes := le_put 4 t ++ drop 4 datagram.

(** The only type under which a plaintext means something. *)
Definition content_type (packet : bytes) : Z :=
  if bool_decide (take 4 packet = p2pControlMagic) then MessageP2PControlType
  else if bool_decide (take 4 packet = tunControlMagic) then MessageTUNControlType
  else let version := Z.shiftr (le_get (slice 0 1 packet)) 4 in
  if (version =? 4) || (version =? 6) then MessageTransportType else MessageWUSPType.

Lemma first_byte b l : le_get (slice 0 1 (b :: l)) = b2z b.
Proof. cbn. apply Z.add_0_r. Qed.

Section Retagged.
Context `{SC : Schema, NC : NoiseCrypto}.

(** Whether the agent's handler of WUSP messages acts on a frame. *)
Definition ignored_frame (data : bytes) : Prop :=
  (∃ x, DecodeUSPTransferStreamFrame data = Err x) ∧ (∃ x, DecodeUSPAgentResponse data = Err x) ∧ (∃ x, DecodeUSPAgentRequest data = Err x).

Lemma first_byte_ignored b data : ¬ b2z b ∈ [uspTransferStreamMagic; uspTransportVersion; uspControlFragmentMagic] →
  ignored_frame (b :: data) ∧ DecodeUSPControlFragment (b :: data) = Ok None.
Proof.
  intros Hb. assert (Hne : ∀ m, m ∈ [uspTransferStreamMagic; uspTransportVersion; uspControlFragmentMagic] → (b2z b =? m) = false).
  { intros m Hm. apply Z.eqb_neq. by intros <-. }
  pose proof (first_byte b data) as Hget.
  assert (Hhead : ∃ x, readHeader (b :: data) = Err x).
  { unfold readHeader. destruct (_ <? _)%nat; [by eexists|]. cbn [hVersion]. rewrite Hget, Hne by set_solver. by eexists. }
  destruct Hhead as [x Hx]. split; [split_and!|].
  - unfold DecodeUSPTransferStreamFrame. destruct (_ <? _)%nat; [by eexists|]. rewrite Hget, Hne by set_solver. by eexists.
  - unfold DecodeUSPAgentResponse. rewrite Hx. by eexists.
  - unfold DecodeUSPAgentRequest. rewrite Hx. by eexists.
  - unfold DecodeUSPControlFragment. rewrite Hne by set_solver. done.
Qed.

Lemma p2p_magic_only pkt payload : consumeP2PControlPayload pkt = Ok payload → take 4 pkt = p2pControlMagic.
Proof. unfold consumeP2PControlPayload. destruct (_ <? _)%nat; [done|]. by case_bool_decide. Qed.
Lemma tun_magic_only pkt payload : consumeTUNControlPayload pkt = Ok payload → take 4 pkt = tunControlMagic.
Proof. unfold consumeTUNControlPayload. destruct (_ <? _)%nat; [done|]. by case_bool_decide. Qed.
(** Both magics start with 0x57. *)
Lemma magic_first m pkt : m = p2pControlMagic ∨ m = tunControlMagic → take 4 pkt = m → ∃ l, pkt = z2b 0x57 :: l.
Proof. intros [-> | ->] Ht; destruct pkt as [|b l]; try discriminate Ht; injection Ht as -> _; by exists l. Qed.

Lemma content_first pkt : content_type pkt ≠ MessageWUSPType → ∃ b l, pkt = b :: l ∧ (b2z b = 0x57 ∨ Z.shiftr (b2z b) 4 = 4 ∨ Z.shiftr (b2z b) 4 = 6).
Proof.
  unfold content_type. intros H. case_bool_decide as H1; [|case_bool_decide as H2].
  - destruct (magic_first _ pkt (or_introl eq_refl) H1) as [l ->]. eexists _, _. split; [done|]. by left.
  - destruct (magic_first _ pkt (or_intror eq_refl) H2) as [l ->]. eexists _, _. split; [done|]. by left.
  - destruct pkt as [|b l]; [by vm_compute in H|]. exists b, l. split; [done|]. right. revert H.
    rewrite first_byte.
    destruct (Z.eqb_spec (Z.shiftr (b2z b) 4) 4); [by left|]. destruct (Z.eqb_spec (Z.shiftr (b2z b) 4) 6); [by right|]. done.
Qed.
Lemma content_not_wusp b : b2z b = 0x57 ∨ Z.shiftr (b2z b) 4 = 4 ∨ Z.shiftr (b2z b) 4 = 6 →
  ¬ b2z b ∈ [uspTransferStreamMagic; uspTransportVersion; uspControlFragmentMagic].
Proof. intros H Hin. rewrite !elem_of_cons in Hin. destruct Hin as [E|[E|[E|E%elem_of_nil]]]; [..|done]; rewrite E in H; vm_compute in H; naive_solver. Qed.

Lemma ip_content pkt : let version := Z.shiftr (le_get (slice 0 1 pkt)) 4 in version = 4 ∨ version = 6 → content_type pkt = MessageTransportType.
Proof.
  intros version Hv. unfold content_type.
  assert (Hm : ∀ m, m = p2pControlMagic ∨ m = tunControlMagic → take 4 pkt ≠ m).
  { intros m Hm Ht. destruct (magic_first m pkt Hm Ht) as [l ->]. unfold version in Hv. vm_compute in Hv. naive_solver. }
  rewrite !bool_decide_false by (apply Hm; tauto). fold version. by destruct Hv as [-> | ->].
Qed.
Lemma inner_packet_ip allowed p pkt inner : inner_packet allowed p pkt = Some inner → content_type pkt = MessageTransportType.
Proof.
  intros H. apply ip_content. unfold inner_packet in H. destruct (Z.eqb_spec (Z.shiftr (le_get (slice 0 1 pkt)) 4) 4); [by left|].
  destruct (Z.eqb_spec (Z.shiftr (le_get (slice 0 1 pkt)) 4) 6); [by right|done].
Qed.

(** Under a type that is not the content's, nothing comes of a packet but a frame
    that the WUSP handler ignores. *)
Lemma dispatch_misfit p t pkt now e : transport_type t → t ≠ content_type pkt →
  (dispatch_packet p t pkt now e).1 = (e, []) ∨ (dispatch_packet p t pkt now e).1 = (e, [OWusp p pkt]) ∧ ignored_frame pkt.
Proof.
  intros Ht Hne. unfold dispatch_packet. destruct Ht as [-> |[-> |[-> | ->]]]; cbn [Z.eqb Pos.eqb MessageTransportType MessageTUNControlType MessageWUSPType MessageP2PControlType].
  - left. destruct (length pkt =? 0)%nat; [done|]. cbn [fst]. destruct (inner_packet _ _ _) as [inner|] eqn:E; [|done].
    by apply inner_packet_ip in E.
  - left. cbn [fst]. destruct (consumeTUNControlPayload pkt) as [payload| |] eqn:E; [|done|done]. apply tun_magic_only in E.
    exfalso. apply Hne. unfold content_type. rewrite E. rewrite bool_decide_false by done. by rewrite bool_decide_true.
  - right. destruct (content_first pkt) as (b & l & -> & Hb); [by intros H|]. destruct (first_byte_ignored b l (content_not_wusp b Hb)) as [Hi Hd].
    unfold consumeWUSPPayload. rewrite Hd. cbn [fst]. split; [|done]. by destruct e.
  - left. cbn [fst]. destruct (consumeP2PControlPayload pkt) as [payload| |] eqn:E; [|done|done]. apply p2p_magic_only in E.
    exfalso. apply Hne. unfold content_type. by rewrite E, bool_decide_true.
Qed.

(** The type of a datagram is not authenticated: with another type in its
    header a datagram still opens to the same plaintext under the same counter.
    But the kinds of content exclude each other, so that under a type that is not
    the content's own, an authentic plaintext changes nothing and produces nothing
    except possibly a frame that the WUSP handler can decode as none of its
    messages. *)
Theorem retagged_datagram_harmless d k ep datagram t p now e : (16 ≤ length datagram)%nat → transport_type t →
  let elem := decrypt d k ep (retag t datagram) in
  elPacket elem = elPacket (decrypt d k ep datagram) ∧ elCounter elem = elCounter (decrypt d k ep datagram) ∧ elMsgType elem = t ∧
  ∀ pkt, elPacket elem = Some pkt → t ≠ content_type pkt →
    (dispatch_packet p (elMsgType elem) pkt now e).1 = (e, []) ∨ (dispatch_packet p (elMsgType elem) pkt now e).1 = (e, [OWusp p pkt]) ∧ ignored_frame pkt.
Proof.
  intros Hl Ht elem. assert (Htype : elMsgType elem = t).
  { unfold elem, decrypt, retag. cbn [elMsgType]. rewrite slice_app_here by apply length_le_put. apply le_get_put_small. by apply transport_type_range. }
  assert (Hc : slice 8 16 (retag t datagram) = slice 8 16 datagram).
  { unfold retag. rewrite slice_app_r by (rewrite length_le_put; lia). rewrite length_le_put. unfold slice. by rewrite drop_drop. }
  assert (Hd : drop 16 (retag t datagram) = drop 16 datagram).
  { unfold retag. rewrite drop_app_ge by (rewrite length_le_put; lia). by rewrite length_le_put, drop_drop. }
  unfold elem, decrypt. cbn [elPacket elCounter]. rewrite Hc, Hd. split_and!; [done|done|done|]. intros pkt _ Hne.
  unfold elem, decrypt in Htype. cbn [elMsgType] in *. rewrite Htype. by apply dispatch_misfit.
Qed.
End Retagged.

(** ** Endpoints *)

Definition same_endpoint (e e' : Engine) (q : nat) : Prop :=
  epVal (endpoint_of e' q) = epVal (endpoint_of e q) ∧ disableRoaming (endpoint_of e' q) = disableRoaming (endpoint_of e q).
Definition same_endpoints (e e' : Engine) : Prop := ∀ q, same_endpoint e e' q.
#[export] Instance same_endpoints_preorder : PreOrder same_endpoints.
Proof. split; [by intros e q|]. intros e1 e2 e3 H12 H23 q. destruct (H12 q), (H23 q). split; congruence. Qed.
Lemma same_eq e e' : eEndpoints e' = eEndpoints e → same_endpoints e e'.
Proof. intros H q. unfold same_endpoint, endpoint_of. by rewrite H. Qed.

Lemma endpoint_insert e p x q : endpoint_of (with_endpoint e p x) q = if decide (q = p) then x else endpoint_of e q.
Proof. unfold endpoint_of, with_endpoint. cbn [eEndpoints]. case_decide as E; [subst; by rewrite lookup_insert_eq|by rewrite lookup_insert_ne]. Qed.
Lemma send_buffers_same p packet e : same_endpoints e (SendBuffers p packet e).1.
Proof.
  unfold SendBuffers. destruct (epVal (endpoint_of e p)) eqn:E; [|done]. intros q. unfold same_endpoint. cbn [fst]. rewrite endpoint_insert.
  by case_decide; subst.
Qed.

(** The endpoint of [p] may have become [ep] where it may roam. *)
Definition moved (e e' : Engine) (p : nat) (ep : Endpoint) : Prop :=
  ∀ q, same_endpoint e e' q ∨ q = p ∧ disableRoaming (endpoint_of e q) = false ∧ disableRoaming (endpoint_of e' q) = false ∧ epVal (endpoint_of e' q) = Some ep.
Lemma set_endpoint_moved p ep e : moved e (SetEndpointFromPacket p ep e) p ep.
Proof.
  intros q. unfold SetEndpointFromPacket. destruct (disableRoaming (endpoint_of e p)) eqn:E; [by left|].
  unfold same_endpoint. rewrite endpoint_insert. case_decide; [subst; by right|by left].
Qed.
Lemma moved_same e1 e2 e3 e4 p ep : same_endpoints e1 e2 → moved e2 e3 p ep → same_endpoints e3 e4 → moved e1 e4 p ep.
Proof.
  intros H12 H23 H34 q. destruct (H12 q) as [A B], (H34 q) as [C D]. destruct (H23 q) as [[E F]|(-> & E & F & G)].
  - left. split; congruence.
  - right. split_and!; congruence.
Qed.

Section Endpoints.
Context `{NC : NoiseCrypto, CC : !CookieCrypto}.

Lemma admit_frame packet ep queued c e : eEndpoints (admit_handshake packet ep queued c e).1.1 = eEndpoints e ∧ eDevice (admit_handshake packet ep queued c e).1.1 = eDevice e.
Proof.
  unfold admit_handshake, IsUnderLoad, SendHandshakeCookie. repeat case_match; simplify_eq; done.
Qed.
Lemma seal_same p m now e : eEndpoints (seal_packet p m now e).1 = eEndpoints e.
Proof. unfold seal_packet. by repeat case_match. Qed.
Lemma send_response_same p rnd draws clock e : same_endpoints e (SendHandshakeResponse p rnd draws clock e).1.
Proof.
  unfold SendHandshakeResponse. destruct (CreateMessageResponse _ _ _ _) as [d [[r| |]|]]; try by apply same_eq.
  set (e1 := with_device _ d). pose proof (seal_same p (response_marshal r (zeros MessageResponseSize)) (clock 1%nat) e1) as Hs.
  destruct (seal_packet _ _ _ e1) as [e2 [packet| |]]; try by apply same_eq. cbn [fst] in Hs.
  destruct (BeginSymmetricSession _ _ _) as [d' [u| |]]; try by apply same_eq.
  pose proof (send_buffers_same p packet (with_device e2 d')) as Hb. destruct (SendBuffers _ _ _) as [e3 out]. cbn [fst] in Hb |- *.
  etransitivity; [by apply same_eq|exact Hb].
Qed.

(** A message that proves to come from peer [q]. *)
Definition authentic (msgType : Z) (packet : bytes) (d : Device) (q : nat) : Prop :=
  (msgType = MessageInitiationType ∧ ∃ msg now v, initiation_unmarshal packet = Ok msg ∧ consume_initiation_check msg now d = Some v ∧ vPeer v = q) ∨
  (msgType = MessageResponseType ∧ ∃ msg v, response_unmarshal packet = Ok msg ∧ consume_response_check msg d = Some v ∧ wPeer v = Some q).

Lemma handle_moves msgType packet ep queued c e : let e' := (handle_handshake msgType packet ep queued c e).1 in
  same_endpoints e e' ∨ ∃ p, authentic msgType packet (eDevice e) p ∧ moved e e' p ep.
Proof.
  intros e'. subst e'. unfold handle_handshake. destruct (Z.eqb_spec msgType MessageCookieReplyType) as [E|_].
  { left. apply same_eq. by repeat case_match. }
  destruct ((msgType =? MessageInitiationType) || (msgType =? MessageResponseType)) eqn:Ety; [|by left].
  destruct (admit_frame packet ep queued c e) as [Hep Hdev]. destruct (admit_handshake packet ep queued c e) as [[e1 out] go]. cbn [fst] in Hep, Hdev.
  destruct go; [|left; by apply same_eq]. cbn [negb]. destruct (Z.eqb_spec msgType MessageInitiationType) as [->|Hni].
  - destruct (initiation_unmarshal packet) as [msg| |] eqn:Em; try (left; by apply same_eq).
    unfold ConsumeMessageInitiation. destruct (consume_initiation_check _ _ _) as [v|] eqn:Ev; [|left; by apply same_eq]. right. exists (vPeer v).
    rewrite Hdev in Ev. split; [left; split; [done|]; by eexists msg, _, v|].
    eapply moved_same; [|apply set_endpoint_moved|apply send_response_same]. by apply same_eq.
  - apply orb_true_iff in Ety as [Hf|Hr%Z.eqb_eq]; [discriminate Hf|]. subst msgType. destruct (response_unmarshal packet) as [msg| |] eqn:Em; try (left; by apply same_eq).
    unfold ConsumeMessageResponse. destruct (consume_response_check _ _) as [v|] eqn:Ev; [|left; by apply same_eq]. rewrite Hdev in Ev.
    destruct (consume_response_update v (eDevice e1)) as [d from] eqn:Eu. destruct from as [p|]; [|left; by apply same_eq].
    right. exists p. split.
    { right. split; [done|]. exists msg, v. split_and!; [done|done|]. unfold consume_response_update in Eu. repeat case_match; simplify_eq; done. }
    cbn [eDevice]. destruct (BeginSymmetricSession _ _ _) as [d' began]. cbn [fst].
    eapply moved_same; [|apply set_endpoint_moved|by apply same_eq]. by apply same_eq.
Qed.

(** An element the batch counts as valid. *)
Lemma receive_elem_moves p elem now e e' r : receive_elem p elem now e = (e', r) →
  match r with
  | None => same_endpoints e e'
  | Some _ => moved e e' p (elEndpoint elem) ∧ is_Some (elPacket elem)
  end.
Proof.
  unfold receive_elem. destruct (elPacket elem) as [pkt|] eqn:Ep; [|intros [= <- <-]; done].
  destruct (validate_counter _ _ _) as [d ok]. destruct ok; cbn [negb]; [|intros [= <- <-]; by apply same_eq].
  destruct (ReceivedWithKeypair _ _ _) as [d1 confirmed]. set (e1 := with_device _ d1).
  assert (He1 : same_endpoints e e1) by by apply same_eq.
  assert (Hd : ∀ e2, same_endpoints e2 (dispatch_packet p (elMsgType elem) pkt now e2).1.1).
  { intros e2. apply same_eq. unfold dispatch_packet. by repeat case_match. }
  assert (∃ e2 staged, (if confirmed then (SetEndpointFromPacket p (elEndpoint elem) e1, [OStaged p]) else (e1, [])) = (e2, staged) ∧ moved e1 e2 p (elEndpoint elem))
    as (e2 & staged & -> & Hm).
  { destruct confirmed; eexists _, _; (split; [reflexivity|]); [apply set_endpoint_moved|]. intros q. by left. }
  specialize (Hd e2). destruct (dispatch_packet _ _ _ _ e2) as [[e3 out] data]. cbn [fst] in Hd. intros [= <- <-]. split; [|done].
  eapply moved_same; [exact He1|exact Hm|exact Hd].
Qed.

(** Endpoints of valid elements are all that a peer's endpoint can become. *)
Definition moved_by (e e' : Engine) (p : nat) (elems : list inbound_elem) : Prop :=
  ∀ q, same_endpoint e e' q ∨ q = p ∧ disableRoaming (endpoint_of e q) = false ∧ disableRoaming (endpoint_of e' q) = false ∧
    ∃ elem, elem ∈ elems ∧ is_Some (elPacket elem) ∧ epVal (endpoint_of e' q) = Some (elEndpoint elem).

Lemma moved_by_step e1 e2 e3 p l l' : moved_by e1 e2 p l → moved_by e2 e3 p l' → moved_by e1 e3 p (l ++ l').
Proof.
  intros H12 H23 q. destruct (H23 q) as [[A B]|(Hq & A & B & x & Hx & Hs & Hv)], (H12 q) as [[C D]|(Hq' & C & D & y & Hy & Hs' & Hv')].
  - left. split; congruence.
  - right. split_and!; [done|done|congruence|]. exists y. rewrite elem_of_app. split_and!; [by left|done|congruence].
  - right. split_and!; [done|congruence|done|]. exists x. rewrite elem_of_app. split_and!; [by right|done|done].
  - right. split_and!; [done|done|done|]. exists x. rewrite elem_of_app. split_and!; [by right|done|done].
Qed.
Lemma moved_by_mono e e' p l l' : (∀ x, x ∈ l → x ∈ l') → moved_by e e' p l → moved_by e e' p l'.
Proof. intros Hl H q. destruct (H q) as [?|(-> & ? & ? & x & Hx & ?)]; [by left|]. right. split_and!; try done. exists x. split; [by apply Hl|done]. Qed.
Lemma moved_by_one e e' p elem : moved e e' p (elEndpoint elem) → is_Some (elPacket elem) → moved_by e e' p [elem].
Proof.
  intros H Hs q. destruct (H q) as [?|(-> & ? & ? & ?)]; [by left|]. right. split_and!; try done. exists elem. split_and!; [by left|done|done].
Qed.
Lemma receive_loop_moves p now elems : ∀ tail e, let '(e', _, tail') := receive_loop p elems now tail e in
  moved_by e e' p elems ∧ (tail' = tail ∨ ∃ elem, elem ∈ elems ∧ is_Some (elPacket elem) ∧ tail' = Some (elEndpoint elem)).
Proof.
  induction elems as [|elem elems IH]; intros tail e; cbn [receive_loop]; [split; [intros q; by left|by left]|].
  destruct (receive_elem p elem now e) as [e1 r] eqn:Er. apply receive_elem_moves in Er.
  destruct r as [[out data]|].
  - specialize (IH (Some (elEndpoint elem)) e1). destruct (receive_loop p elems now _ e1) as [[e' outs] tail']. destruct IH as [Hm Ht], Er as [Hm1 Hs]. split.
    + by apply (moved_by_step e e1 e' p [elem]); [apply moved_by_one|].
    + right. destruct Ht as [->|(x & Hx & ?)]; [exists elem|exists x]; rewrite elem_of_cons; split; by auto.
  - specialize (IH tail e1). destruct (receive_loop p elems now tail e1) as [[e' outs] tail']. destruct IH as [Hm Ht]. split.
    + apply (moved_by_step e e1 e' p [elem]); [|done]. intros q. left. apply Er.
    + destruct Ht as [->|(x & Hx & ?)]; [by left|right]. exists x. rewrite elem_of_cons. split; by auto.
Qed.
Lemma receive_batch_moves p elems now e : moved_by e (receive_batch p elems now e).1 p elems.
Proof.
  unfold receive_batch. pose proof (receive_loop_moves p now elems None e) as Hl. destruct (receive_loop p elems now None e) as [[e' out] tail].
  destruct Hl as [Hm Ht]. cbn [fst]. destruct tail as [ep|]; [|done]. destruct Ht as [?|(elem & Hin & Hs & E)]; [done|]. injection E as ->.
  apply (moved_by_mono _ _ _ (elems ++ [elem])); [intros x [?|Hx]%elem_of_app; [done|by apply list_elem_of_singleton in Hx as ->]|].
  apply (moved_by_step _ e'); [done|]. by apply moved_by_one; [apply set_endpoint_moved|].
Qed.

(** The address packets for a peer go to is only taken from authenticated
    packets of that peer, and only where it may roam: a handshake message changes it
    to the message's source if it is an initiation or response that proves to come
    from that peer, and a batch of its transport packets changes it to the source of
    one that was opened with a session key.  Everything else leaves every endpoint
    as it is; in particular a punch message does nothing at all. *)
Theorem endpoint_moves_authenticated e q :
  (∀ msgType packet ep queued c, let e' := (handle_handshake msgType packet ep queued c e).1 in
     same_endpoint e e' q ∨ authentic msgType packet (eDevice e) q ∧ disableRoaming (endpoint_of e q) = false ∧ epVal (endpoint_of e' q) = Some ep) ∧
  (∀ p elems now, let e' := (receive_batch p elems now e).1 in
     same_endpoint e e' q ∨ q = p ∧ disableRoaming (endpoint_of e q) = false ∧
       ∃ elem, elem ∈ elems ∧ is_Some (elPacket elem) ∧ epVal (endpoint_of e' q) = Some (elEndpoint elem)) ∧
  (∀ packet ep queued c, handle_handshake MessagePunchType packet ep queued c e = (e, Some [])).
Proof.
  split_and!.
  - intros msgType packet ep queued c e'. destruct (handle_moves msgType packet ep queued c e) as [H|(p & Ha & Hm)]; [left; apply H|].
    destruct (Hm q) as [?|(-> & ? & _ & ?)]; [by left|by right].
  - intros p elems now e'. destruct (receive_batch_moves p elems now e q) as [?|(-> & ? & _ & ?)]; [by left|by right].
  - done.
Qed.
End Endpoints.

(** ** Lengths *)

(** The length of an IPv6 packet is computed in 16 bits: one whose payload
    length field is 65496 or more, which no packet can have, is not dropped as too
    long but cut to fewer bytes than its own header, and what is left goes to the
    TUN device. *)
Theorem ipv6_length_wraps allowed p pkt : (40 ≤ length pkt)%nat → Z.shiftr (le_get (slice 0 1 pkt)) 4 = 6 → 65496 ≤ be_get (slice 4 6 pkt) →
  from_peer_source allowed p (slice 8 24 pkt) = true →
  ∃ inner, inner_packet allowed p pkt = Some inner ∧ inner = take (Z.to_nat (be_get (slice 4 6 pkt) - 65496)) pkt ∧ (length inner < 40)%nat.
Proof.
  intros Hl Hv Hf Hp. unfold inner_packet. rewrite Hv. cbn [Z.eqb Pos.eqb]. rewrite (proj2 (Nat.ltb_ge _ 40)) by lia.
  assert (be_get (slice 4 6 pkt) < 65536) as Hmax.
  { unfold be_get. pose proof (le_get_range (reverse (slice 4 6 pkt))) as Hr. rewrite length_reverse, length_slice in Hr by lia. change (256 ^ Z.of_nat (6 - 4)) with 65536 in Hr. lia. }
  assert (u16 (be_get (slice 4 6 pkt) + 40) = be_get (slice 4 6 pkt) - 65496) as ->.
  { replace (be_get (slice 4 6 pkt) + 40) with (be_get (slice 4 6 pkt) - 65496 + 1 * 2 ^ 16) by lia. unfold u16, wrap. rewrite Z.mod_add by lia. apply Z.mod_small. lia. }
  rewrite (proj2 (Z.ltb_ge _ _)) by lia. unfold from_peer_source in Hp. destruct (Lookup _ _) as [[q|]| |]; try done. rewrite Hp.
  eexists. split_and!; [done|done|]. rewrite length_take. lia.
Qed.

(** ** Control envelopes *)

Lemma envelope_parts (magic payload pad : bytes) : length magic = 4%nat → (length payload ≤ 1200)%nat →
  let data := (magic ++ le_put 2 (u16 (Z.of_nat (length payload))) ++ payload) ++ pad in
  length data = (6 + length payload + length pad)%nat ∧ take 4 data = magic ∧ le_get (slice 4 6 data) = Z.of_nat (length payload) ∧
  drop (6 + length payload) data = pad ∧ slice 6 (6 + length payload) data = payload.
Proof.
  intros Hm Hp data. assert (Hlen : length (magic ++ le_put 2 (u16 (Z.of_nat (length payload)))) = 6%nat) by (rewrite length_app, length_le_put; lia).
  unfold data. split_and!.
  - rewrite !length_app, length_le_put. lia.
  - rewrite <- !app_assoc. by apply take_app_length'.
  - rewrite <- !app_assoc, slice_app_r, Hm by lia. cbn [Nat.sub]. rewrite slice_app_here by apply length_le_put.
    rewrite wrap_small by lia. apply le_get_put_small. change (256 ^ Z.of_nat 2) with 65536. lia.
  - apply drop_app_length'. rewrite app_assoc, length_app. lia.
  - rewrite (app_assoc magic), <- app_assoc, slice_app_r by lia. rewrite Hlen. replace (6 - 6)%nat with 0%nat by lia. apply slice_app_here. lia.
Qed.
Lemma zero_padding n : forallb (fun b => b2z b =? 0) (replicate n (z2b 0)) = true.
Proof. by induction n. Qed.

(** Both envelopes are one, with another magic. *)
Definition consume_envelope (magic plaintext : bytes) : res eerr bytes :=
  if (length plaintext <? 6)%nat then Err EMissingHeader
  else if negb (bool_decide (take 4 plaintext = magic)) then Err EUnsupportedEnvelope
  else
    let len := Z.to_nat (le_get (slice 4 6 plaintext)) in
    if (1200 <? len)%nat || (length plaintext - 6 <? len)%nat then Err EInvalidLength else
    if (16 <=? length plaintext - (6 + len))%nat then Err EExcessPadding
    else if negb (forallb (fun b => b2z b =? 0) (drop (6 + len) plaintext)) then Err EInvalidPadding
    else Ok (slice 6 (6 + len) plaintext).
Lemma envelope_opens mtu magic payload : mtu = 0 ∨ 1216 ≤ mtu → length magic = 4%nat → (length payload ≤ 1200)%nat →
  consume_envelope magic (transported mtu (magic ++ le_put 2 (u16 (Z.of_nat (length payload))) ++ payload)) = Ok payload.
Proof.
  intros Hmtu Hm Hp. unfold transported. set (x := magic ++ le_put 2 _ ++ payload).
  destruct (calculatePaddingSize_spec (Z.of_nat (length x)) 1216 mtu) as [Hr _]; [|done|done|].
  { unfold x. rewrite !length_app, length_le_put. lia. }
  set (n := Z.to_nat _). assert (n < 16)%nat by lia.
  destruct (envelope_parts magic payload (replicate n (z2b 0)) Hm Hp) as (H1 & H2 & H3 & H4 & H5). unfold consume_envelope, x.
  rewrite H1, H2, H3, Nat2Z.id, H4, H5, length_replicate, zero_padding.
  rewrite (proj2 (Nat.ltb_ge _ 6)), bool_decide_true by (done || lia). cbn [negb].
  rewrite !(proj2 (Nat.ltb_ge _ _)) by lia. cbn [orb]. by rewrite (proj2 (Nat.leb_gt 16 _)) by lia.
Qed.

(** A control payload of at most 1200 bytes, for the P2P client or for the exit
    node, put into its envelope and sent through the transport, which pads it with
    zeros, is taken out of the envelope unchanged at the other end; one that is
    longer is refused. *)
Theorem control_envelope_roundtrip mtu payload : mtu = 0 ∨ 1216 ≤ mtu →
  if (length payload <=? 1200)%nat
  then (∃ x, frameP2PControlPayload payload = Ok x ∧ consumeP2PControlPayload (transported mtu x) = Ok payload) ∧
       (∃ x, frameTUNControlPayload payload = Ok x ∧ consumeTUNControlPayload (transported mtu x) = Ok payload)
  else frameP2PControlPayload payload = Err EPayloadTooLarge ∧ frameTUNControlPayload payload = Err EPayloadTooLarge.
Proof.
  intros Hmtu. unfold frameP2PControlPayload, frameTUNControlPayload. change maxP2PControlPayload with 1200%nat. change maxTUNControlPayload with 1200%nat.
  destruct (Nat.leb_spec (length payload) 1200) as [Hl|Hl]; [|by rewrite (proj2 (Nat.ltb_lt _ _)) by lia].
  rewrite (proj2 (Nat.ltb_ge _ _)) by lia. split; eexists; (split; [reflexivity|]).
  - by apply (envelope_opens mtu p2pControlMagic payload Hmtu).
  - by apply (envelope_opens mtu tunControlMagic payload Hmtu).
Qed.

(** ** Witnesses *)

#[local] Existing Instance toy_crypto.
#[local] Existing Instance toy_laws.

Definition key_a : bytes := replicate 32 (z2b 17).
Definition key_b : bytes := replicate 32 (z2b 18).
Definition pair_a : Keypair := MkKeypair 5 key_a key_b Filter_zero true 100 7 9.
Definition pair_b : Keypair := MkKeypair 0 key_b key_a Filter_zero false 100 9 7.
(** Peer 0 may send from 10.0.0.0/8 and has just made a session. *)
Definition demo_table : AllowedIPs nat :=
  match Insert AllowedIPs_zero {| prefix_addr := Addr4 (map z2b [10; 0; 0; 0]); prefix_bits := 8 |} 0%nat with
  | Ok t => match Insert t {| prefix_addr := Addr6 (zeros 16); prefix_bits := 0 |} 0%nat with Ok t => t | _ => t end
  | _ => AllowedIPs_zero
  end.
Definition demo_device : Device :=
  MkDevice key_b key_b ∅ {[0%nat := MkPeer Handshake_zero (MkKeypairs None None (Some 0%nat)) true 0]} {[9 := kp_entry 0 0]} {[0%nat := pair_b]} 1 1.
Definition demo_engine : Engine := MkEngine demo_device ∅ demo_table frags_empty (MkChecker [] [] None []) ∅ Init 0.
Definition demo_ipv4 : bytes := map z2b ([0x45; 0; 0; 28] ++ replicate 8 1 ++ [10; 1; 2; 3] ++ [10; 9; 9; 9] ++ replicate 8 33).
Definition demo_source : bytes := map z2b [10; 1; 2; 3].
Definition demo_endpoint : Endpoint := MkEndpoint (bs "192.0.2.1:51820") (map z2b [192; 0; 2; 1; 108; 202]) (map z2b [192; 0; 2; 1]).

Lemma transport_delivered_witness :
  let datagram := encrypt pair_a 5 0 1420 demo_ipv4 in
  receive_packet datagram 200 demo_device = Inbound 0 0 ∧
  let '(e', out) := receive_batch 0 [decrypt demo_device 0 demo_endpoint datagram] 200 demo_engine in
  out = [OStaged 0; OTun demo_ipv4] ∧ (receive_batch 0 [decrypt (eDevice e') 0 demo_endpoint datagram] 201 e').2 = [].
Proof.
  destruct (transport_delivered demo_engine 0 0 pair_a pair_b spec_empty 5 1420 demo_ipv4 demo_source demo_endpoint 200) as [Hr Hb].
  - reflexivity.
  - reflexivity.
  - split; reflexivity.
  - cbn. lia.
  - exact represents_zero.
  - vm_compute. split; [discriminate|reflexivity].
  - split; [vm_compute; discriminate|]. cbn. set_solver.
  - vm_compute. discriminate.
  - vm_compute. reflexivity.
  - cbv zeta. split; [exact Hr|]. revert Hb. change (eDevice demo_engine) with demo_device.
    destruct (receive_batch 0 [decrypt demo_device 0 demo_endpoint (encrypt pair_a 5 0 1420 demo_ipv4)] 200 demo_engine) as [e' out].
    intros [Hout Hagain]. split; [|apply Hagain]. rewrite Hout. vm_compute. reflexivity.
Defined.

(** One routine uses a nonce, the session expires, two routines find it so. *)
Lemma nonces_unique_witness : ∃ s, rtc (nonce_step {[1%nat; 2%nat]}) (MkNonces pair_b [] ∅) s ∧ nsUsed s = [0] ∧ nsStoring s ≠ ∅ ∧ NoDup (nsUsed s).
Proof.
  set (s1 := MkNonces (take_nonce pair_b).1 [0] ∅). set (s2 := MkNonces (reject_nonce (nsPair s1)) [0] ∅).
  set (s3 := MkNonces (take_nonce (nsPair s2)).1 [0] ({[1%nat]} ∪ ∅)).
  assert (Hs : rtc (nonce_step {[1%nat; 2%nat]}) (MkNonces pair_b [] ∅) s3).
  { eapply rtc_l; [apply (step_use _ (MkNonces pair_b [] ∅) 1 (take_nonce pair_b).1 0); [set_solver|set_solver|reflexivity|reflexivity]|].
    eapply rtc_l; [apply (step_expire _ s1)|].
    eapply rtc_l; [apply (step_exhausted _ s2 1 (take_nonce (nsPair s2)).1 RejectAfterMessages); [set_solver|set_solver|vm_compute; reflexivity|vm_compute; discriminate]|apply rtc_refl]. }
  exists s3. split; [exact Hs|]. split; [reflexivity|]. split; [set_solver|].
  apply (nonces_unique {[1%nat; 2%nat]} pair_b s3); [vm_compute; discriminate|reflexivity|exact Hs].
Defined.

(** Two nonces are left for three packets. *)
Definition nearly_spent : Keypair := MkKeypair (RejectAfterMessages - 2) key_b key_a Filter_zero false 100 9 7.
Lemma staged_packets_sent_witness : let '(_, staged', sent, r) := send_staged 4 true true 200 [[bs "a"; bs "b"; bs "c"]; [bs "d"]] nearly_spent in
  sent = [(RejectAfterMessages - 2, bs "a"); (RejectAfterMessages - 1, bs "b")] ∧ staged' = [[bs "d"]; [bs "c"]] ∧ r = NeedsHandshake ∧
  sent.*1 = seqZ (sendNonce nearly_spent) 2.
Proof.
  pose proof (staged_packets_sent 4 true 200 [[bs "a"; bs "b"; bs "c"]; [bs "d"]] nearly_spent) as H.
  assert (E : send_staged 4 true true 200 [[bs "a"; bs "b"; bs "c"]; [bs "d"]] nearly_spent =
    (MkKeypair RejectAfterMessages key_b key_a Filter_zero false 100 9 7, [[bs "d"]; [bs "c"]], [(RejectAfterMessages - 2, bs "a"); (RejectAfterMessages - 1, bs "b")], NeedsHandshake)) by (vm_compute; reflexivity).
  rewrite E in *. split; [reflexivity|]. split; [reflexivity|]. split; [reflexivity|].
  apply H; [cbn; lia|split; vm_compute; discriminate|vm_compute; lia].
Defined.

#[local] Existing Instance Request.demo_schema.
(** An IP packet of the session above, retagged on the way. *)
Definition retagged (t : Z) : inbound_elem := decrypt demo_device 0 demo_endpoint (retag t (encrypt pair_a 5 0 1420 demo_ipv4)).
Lemma retagged_datagram_harmless_witness :
  elPacket (retagged MessageWUSPType) = Some (transported 1420 demo_ipv4) ∧ elMsgType (retagged MessageWUSPType) = MessageWUSPType ∧
  ignored_frame (transported 1420 demo_ipv4).
Proof.
  destruct (retagged_datagram_harmless demo_device 0 demo_endpoint (encrypt pair_a 5 0 1420 demo_ipv4) MessageWUSPType 0 200 demo_engine) as (Hp & _ & Ht & Hd).
  - apply Nat.leb_le. vm_compute. reflexivity.
  - right. right. left. reflexivity.
  - assert (Hpkt : elPacket (retagged MessageWUSPType) = Some (transported 1420 demo_ipv4)) by (unfold retagged; rewrite Hp; vm_compute; reflexivity).
    split; [exact Hpkt|]. split; [exact Ht|].
    destruct (Hd _ Hpkt) as [Hnone|[_ Hi]]; [vm_compute; discriminate|exfalso; revert Hnone; vm_compute; discriminate|exact Hi].
Defined.

Definition demo_ipv6 : bytes := map z2b ([0x60; 0; 0; 0; 255; 248; 59; 64] ++ replicate 32 1 ++ replicate 8 33).
Lemma ipv6_length_wraps_witness : ∃ inner, inner_packet demo_table 0 demo_ipv6 = Some inner ∧ length inner = 32%nat ∧ (length inner < 40)%nat.
Proof.
  destruct (ipv6_length_wraps demo_table 0 demo_ipv6) as (inner & Hi & Ht & Hl).
  - apply Nat.leb_le. vm_compute. reflexivity.
  - vm_compute. reflexivity.
  - vm_compute. discriminate.
  - vm_compute. reflexivity.
  - exists inner. split; [exact Hi|]. split; [rewrite Ht; vm_compute; reflexivity|exact Hl].
Defined.

Lemma control_envelope_roundtrip_witness : ∃ x, frameTUNControlPayload (bs "exit") = Ok x ∧ consumeTUNControlPayload (transported 1420 x) = Ok (bs "exit").
Proof. destruct (control_envelope_roundtrip 1420 (bs "exit")) as [_ H]; [right; lia|exact H]. Defined.
