(* ===== verification/Transfer.v ===== *)
(** * Transfer sessions

    src/internal/agent/usp_stream.go: files sent to and fetched from the device as
    streams of chunks over the tunnel.  Sessions are shared by pointer and found by
    their ID, which is never given out twice: they live in a heap of their own next
    to the set of those registered in r.streams.  An upload is driven by the frames
    of the controller, each handled in a goroutine of its own and without a lock, so
    that the handling of a chunk is cut between the check of its sequence number and
    the rest.  A download is a goroutine that is cut where it waits for an
    acknowledgement.  The file of an upload is what the session has written to it,
    on a disk that holds [room] bytes of it; the source of a download is the list of
    its Read results, which end with io.EOF.  Sending may fail, as [fails] says of
    each attempt. *)

From S2P Require Import Prelude GoStr Wire Codec Fragments ReadReplay Transport Request Stream DeviceModel UspEvents UspStore UspAgent ControlReplay ControlResult UspRuntime.

Definition uspRecommendedChunkSize : Z := USPRecommendedChunkSize.
Definition uspTransferWindowSize : Z := 8.
Definition uspTransferAckTimeout : Z := 2 * 1000000000.
Definition TransferMetadataTransport : bytes := bs "transport".
Definition TransferMetadataSessionID : bytes := bs "session_id".
Definition TransferMetadataChunkSize : bytes := bs "chunk_size".
Definition TransferMetadataSource : bytes := bs "source".
Definition TransferMetadataDestination : bytes := bs "destination".

(** bufio.Writer, without its file; the error is sticky. *)
Record Writer := MkWriter { wBuf : bytes; wErr : bool }.
Record uspTransferSession := MkSession
  { sID : Z; sRequestID : Z; sMethod : Z; sPeer : bytes; sPath : bytes; sFile : bool; sContent : bytes; sWriter : option Writer;
    sTotalSize : Z; sTransferred : Z; sNextSequence : Z; sAcks : list Z }.

Inductive tstat :=
| transferSessionsStarted | transferSessionsCompleted | transferSessionsAborted | transferPayloadBytes | transferUnknownSessions
| transferFramesSent | transferFrameBytesSent | transferAckTimeouts | transferChunkResends.
#[export] Instance tstat_eq_dec : EqDecision tstat.
Proof. solve_decision. Defined.

Inductive terr :=
| TUnknownSession (id : Z) | TUnauthorized (id : Z) | TMethod (m : Z) | TMissingFile (id : Z) | TDisk | TSend | TWire (e : werr).

Record Transfers := MkTransfers
  { tSessions : gmap Z uspTransferSession; tStreams : gset Z; tStats : tstat → Z; tSent : list bytes; tRemoved : list bytes }.
Definition with_session (t : Transfers) (s : uspTransferSession) : Transfers :=
  MkTransfers (<[sID s := s]> (tSessions t)) (tStreams t) (tStats t) (tSent t) (tRemoved t).
Definition drop_stream (t : Transfers) (id : Z) : Transfers := MkTransfers (tSessions t) (tStreams t ∖ {[id]}) (tStats t) (tSent t) (tRemoved t).
Definition tcount (t : Transfers) (x : tstat) (n : Z) : Transfers :=
  MkTransfers (tSessions t) (tStreams t) (fun y => if decide (y = x) then u64 (tStats t y + n) else tStats t y) (tSent t) (tRemoved t).
Definition with_sent (t : Transfers) (payload : bytes) : Transfers :=
  MkTransfers (tSessions t) (tStreams t) (tStats t) (tSent t ++ [payload]) (tRemoved t).
Definition remove_file (t : Transfers) (path : bytes) : Transfers :=
  MkTransfers (tSessions t) (tStreams t) (tStats t) (tSent t) (tRemoved t ++ [path]).

Definition maxInt64 (values : list Z) : Z := foldl (fun m v => if m <? v then v else m) 0 values.
(** The durations only reach the log and a high-water mark. *)
Definition recordTransferSessionStart (t : Transfers) : Transfers := tcount t transferSessionsStarted 1.
Definition recordTransferSessionComplete (s : uspTransferSession) (t : Transfers) : Transfers :=
  tcount (tcount t transferSessionsCompleted 1) transferPayloadBytes (u64 (maxInt64 [sTransferred s; 0])).
Definition recordTransferSessionAbort (t : Transfers) : Transfers := tcount t transferSessionsAborted 1.

Definition parseTransferSize (value : bytes) : Z :=
  let value := TrimSpace value in
  if (length value =? 0)%nat then 0 else match Atoi value with Some n => n | None => 0 end.

(** ** The buffered writer *)

Definition bufferSize : nat := Z.to_nat (uspRecommendedChunkSize * uspTransferWindowSize).
(** file.Write: what the file holds then, how much was taken, whether all. *)
Definition file_write (room : nat) (content p : bytes) : bytes * nat * bool :=
  let n := Nat.min (room - length content) (length p) in (content ++ take n p, n, (n =? length p)%nat).
Definition Flush (room : nat) (w : Writer) (content : bytes) : Writer * bytes * bool :=
  if wErr w then (w, content, false)
  else if (length (wBuf w) =? 0)%nat then (w, content, true)
  else
    let '(content, n, ok) := file_write room content (wBuf w) in
    if ok then (MkWriter [] false, content, true) else (MkWriter (drop n (wBuf w)) true, content, false).
(** The number of bytes accepted, and whether without error.  The loop runs at
    most twice: it fills and flushes the buffer, then writes what is left directly. *)
Fixpoint buf_write (fuel : nat) (room : nat) (w : Writer) (content p : bytes) (nn : nat) : Writer * bytes * nat * bool :=
  match fuel with
  | O => (w, content, nn, false)
  | S fuel =>
      if (bufferSize - length (wBuf w) <? length p)%nat && negb (wErr w) then
        if (length (wBuf w) =? 0)%nat then
          let '(content, n, ok) := file_write room content p in buf_write fuel room (MkWriter [] (negb ok)) content (drop n p) (nn + n)
        else
          let n := (bufferSize - length (wBuf w))%nat in
          let '(w, content, _) := Flush room (MkWriter (wBuf w ++ take n p) (wErr w)) content in buf_write fuel room w content (drop n p) (nn + n)
      else if wErr w then (w, content, nn, false)
      else (MkWriter (wBuf w ++ p) false, content, nn + length p, true)%nat
  end.
Definition Writer_Write (room : nat) (w : Writer) (content p : bytes) : Writer * bytes * nat * bool := buf_write 3 room w content p 0.

Record uspTransferPendingChunk := MkChunk { pcFrame : USPTransferStreamFrame; pcSize : Z }.
Abbreviation pending_chunks := (gmap Z uspTransferPendingChunk).

(** ** Frames *)

Section Sessions.
Context `{UnicodeCase}.
Context (fails : nat → bool).

Definition sendStream (frame : USPTransferStreamFrame) (t : Transfers) : Transfers * res terr () :=
  match EncodeUSPTransferStreamFrame frame with
  | Err e => (t, Err (TWire e))
  | Panic => (t, Panic)
  | Ok payload =>
      let t := tcount (tcount t transferFramesSent 1) transferFrameBytesSent (Z.of_nat (length payload)) in
      let failed := fails (length (tSent t)) in
      (with_sent t payload, if failed then Err TSend else Ok ())
  end.

(** A frame of the session without chunk or names. *)
Definition stream_frame (s : uspTransferSession) (phase ack total : Z) (final : bool) (m : metadata) : USPTransferStreamFrame :=
  MkStreamFrame (sID s) (sRequestID s) (sMethod s) phase 0 ack (u64 (sTransferred s)) (u64 total) [] [] [] m [] final.
Definition ack_frame (s : uspTransferSession) (ack : Z) (final : bool) : USPTransferStreamFrame :=
  stream_frame s USPTransferStreamAck ack (maxInt64 [sTotalSize s; 0]) final ∅.

(** ** Upload *)

Definition with_writer (s : uspTransferSession) (file : bool) (content : bytes) (w : option Writer) : uspTransferSession :=
  MkSession (sID s) (sRequestID s) (sMethod s) (sPeer s) (sPath s) file content w (sTotalSize s) (sTransferred s) (sNextSequence s) (sAcks s).
Definition with_progress (s : uspTransferSession) (transferred next : Z) : uspTransferSession :=
  MkSession (sID s) (sRequestID s) (sMethod s) (sPeer s) (sPath s) (sFile s) (sContent s) (sWriter s) (sTotalSize s) transferred next (sAcks s).

Definition chunk_expected (s : uspTransferSession) (frame : USPTransferStreamFrame) : bool := sfSequence frame =? sNextSequence s.
(** What follows the check of the sequence number. *)
Definition chunk_accept (room : nat) (s : uspTransferSession) (frame : USPTransferStreamFrame) (t : Transfers) : Transfers * res terr () :=
  if negb (sFile s) then (t, Err (TMissingFile (sID s))) else
  let w := default (MkWriter [] false) (sWriter s) in
  let '(w, content, written, ok) := Writer_Write room w (sContent s) (sfData frame) in
  let s := with_writer s (sFile s) content (Some w) in
  if negb ok then (with_session t s, Err TDisk) else
  let '(w, content, ok) := if sfFinal frame then Flush room w content else (w, content, true) in
  let s := with_writer s (sFile s) content (Some w) in
  if negb ok then (with_session t s, Err TDisk) else
  let s := with_progress s (i64 (sTransferred s + Z.of_nat written)) (u32 (sNextSequence s + 1)) in
  sendStream (ack_frame s (sfSequence frame) (sfFinal frame)) (with_session t s).
Definition handleUploadStreamFrame (room : nat) (s : uspTransferSession) (frame : USPTransferStreamFrame) (t : Transfers) : Transfers * res terr () :=
  if sfPhase frame =? USPTransferStreamOpen then sendStream (ack_frame s 0 false) t
  else if sfPhase frame =? USPTransferStreamChunk then
    if negb (chunk_expected s frame) then sendStream (ack_frame s (u32 (sNextSequence s - 1)) false) t
    else chunk_accept room s frame t
  else if sfPhase frame =? USPTransferStreamComplete then
    let '(w, content, ok) := match sWriter s with
                             | None => (None, sContent s, true)
                             | Some w => let '(w, content, ok) := Flush room w (sContent s) in (Some w, content, ok)
                             end in
    if negb ok then (with_session t (with_writer s (sFile s) content w), Err TDisk) else
    let s := with_writer s false content None in
    let t := drop_stream (with_session t s) (sID s) in
    let reply := stream_frame s USPTransferStreamComplete (u32 (sNextSequence s - 1)) (maxInt64 [sTotalSize s; sTransferred s]) true
                   {[TransferMetadataDestination := sPath s]} in
    let '(t, out) := sendStream reply t in
    (match out with Ok _ => recordTransferSessionComplete s t | Err _ => recordTransferSessionAbort t | Panic => t end, out)
  else if sfPhase frame =? USPTransferStreamAbort then
    let content := match sWriter s with Some w => (Flush room w (sContent s)).1.2 | None => sContent s end in
    let s := with_writer s false content None in
    (recordTransferSessionAbort (remove_file (drop_stream (with_session t s) (sID s)) (sPath s)), Ok ())
  else (t, Ok ()).

(** ** Acknowledgements of a download *)

Definition handleDownloadStreamFrame (s : uspTransferSession) (frame : USPTransferStreamFrame) (t : Transfers) : Transfers * res terr () :=
  if negb (sfPhase frame =? USPTransferStreamAck) then (t, Ok ())
  else if Z.of_nat (length (sAcks s)) <? uspTransferWindowSize * 2 then
    (with_session t (MkSession (sID s) (sRequestID s) (sMethod s) (sPeer s) (sPath s) (sFile s) (sContent s) (sWriter s) (sTotalSize s)
       (sTransferred s) (sNextSequence s) (sAcks s ++ [sfAckSequence frame])), Ok ())
  else (t, Ok ()).

Definition handleTransferStreamFrame (room : nat) (peer : bytes) (frame : USPTransferStreamFrame) (t : Transfers) : Transfers * res terr () :=
  let id := sfSessionID frame in
  let unknown := tcount t transferUnknownSessions 1 in
  match (if decide (id ∈ tStreams t) then tSessions t !! id else None) with
  | None => (unknown, Err (TUnknownSession id))
  | Some s =>
      if negb (EqualFold (sPeer s) peer) then (unknown, Err (TUnauthorized id))
      else if sMethod s =? USPAgentMethodUpload then handleUploadStreamFrame room s frame t
      else if sMethod s =? USPAgentMethodDownload then handleDownloadStreamFrame s frame t
      else (t, Err (TMethod (sMethod s)))
  end.

(** ** Download *)

Definition pendingTransferredBytes (pending : pending_chunks) : Z := i64 (sumZ (pcSize ∘ snd <$> map_to_list pending)).
Definition releaseAckedPendingChunks (pending : pending_chunks) (ackSequence : Z) : pending_chunks * Z :=
  (filter (fun kv => ackSequence < kv.1) pending,
   i64 (sumZ (pcSize ∘ snd <$> map_to_list (filter (fun kv => kv.1 ≤ ackSequence) pending)))).
Fixpoint resend_loop (frames : list USPTransferStreamFrame) (resent : Z) (t : Transfers) : Transfers * Z * bool :=
  match frames with
  | [] => (t, resent, true)
  | f :: frames => let '(t, out) := sendStream f t in match out with Ok _ => resend_loop frames (resent + 1) t | _ => (t, resent, false) end
  end.
Definition resendPendingChunks (pending : pending_chunks) (t : Transfers) : Transfers * Z * bool :=
  let sequences := merge_sort Z.le (map_to_list pending).*1 in
  resend_loop (omap (fun q => pcFrame <$> pending !! q) sequences) 0 t.

Inductive read_status := RNil | REof | RErr.
Inductive download_status := DWaiting | DDone | DAborted.
(** The goroutine's own state. *)
Record Download := MkDownload { dSession : uspTransferSession; dReads : list (bytes * read_status); dPending : pending_chunks }.

Definition chunk_frame (s : uspTransferSession) (pending : pending_chunks) (data : bytes) (e : read_status) : USPTransferStreamFrame :=
  MkStreamFrame (sID s) (sRequestID s) (sMethod s) USPTransferStreamChunk (sNextSequence s) 0
    (u64 (i64 (sTransferred s + pendingTransferredBytes pending))) (u64 (maxInt64 [sTotalSize s; 0])) [] [] [] ∅ data (match e with REof => true | _ => false end).
(** The inner loop; [false] when the session was aborted. *)
Fixpoint fill_window (reads : list (bytes * read_status)) (s : uspTransferSession) (pending : pending_chunks) (t : Transfers)
    : Transfers * Download * bool :=
  if uspTransferWindowSize <=? Z.of_nat (size pending) then (t, MkDownload s reads pending, true) else
  match reads with
  | [] => (t, MkDownload s [] pending, true)
  | (data, e) :: reads =>
      let after s pending t := match e with
                               | REof => (t, MkDownload s reads pending, true)
                               | RErr => (recordTransferSessionAbort t, MkDownload s reads pending, false)
                               | RNil => fill_window reads s pending t
                               end in
      if (length data =? 0)%nat then after s pending t else
      let frame := chunk_frame s pending data e in
      let pending := <[sNextSequence s := MkChunk frame (Z.of_nat (length data))]> pending in
      let '(t, out) := sendStream frame t in
      match out with
      | Ok _ => after (with_progress s (sTransferred s) (u32 (sNextSequence s + 1))) pending t
      | _ => (recordTransferSessionAbort t, MkDownload s reads pending, false)
      end
  end.
(** After the window is filled: wait, or complete. *)
Definition download_round (d : Download) (t : Transfers) : Transfers * Download * download_status :=
  let id := sID (dSession d) in
  let '(t, d, ok) := fill_window (dReads d) (dSession d) (dPending d) t in
  if negb ok then (drop_stream t id, d, DAborted)
  else if negb (size (dPending d) =? 0)%nat then (t, d, DWaiting)
  else
    let s := dSession d in
    let '(t, out) := sendStream (stream_frame s USPTransferStreamComplete (u32 (sNextSequence s - 1)) (maxInt64 [sTotalSize s; sTransferred s]) true
                                   {[TransferMetadataSource := sPath s]}) t in
    match out with
    | Ok _ => (drop_stream (recordTransferSessionComplete s t) id, d, DDone)
    | _ => (drop_stream (recordTransferSessionAbort t) id, d, DAborted)
    end.
(** streamDownloadSession until it first waits. *)
Definition download_start (opened : bool) (contentType path filename : bytes) (s : uspTransferSession) (reads : list (bytes * read_status)) (t : Transfers)
    : Transfers * Download * download_status :=
  let d := MkDownload s reads ∅ in
  if negb opened then (recordTransferSessionAbort (drop_stream t (sID s)), d, DAborted) else
  let t := (sendStream (MkStreamFrame (sID s) (sRequestID s) (sMethod s) USPTransferStreamOpen 0 0 0 (u64 (maxInt64 [sTotalSize s; 0])) path filename contentType ∅ [] false) t).1 in
  download_round d t.
(** waitForAnyAck returned: an acknowledgement, or [None] on the timeout. *)
Definition download_event (ack : option Z) (d : Download) (t : Transfers) : Transfers * Download * download_status :=
  let s := dSession d in
  match ack with
  | None =>
      let t := tcount t transferAckTimeouts 1 in
      let '(t, resent, ok) := resendPendingChunks (dPending d) t in
      let t := if 0 <? resent then tcount t transferChunkResends resent else t in
      if ok then download_round d t else (drop_stream (recordTransferSessionAbort t) (sID s), d, DAborted)
  | Some ackSequence =>
      let '(pending, released) := releaseAckedPendingChunks (dPending d) ackSequence in
      download_round (MkDownload (with_progress s (i64 (sTransferred s + released)) (sNextSequence s)) (dReads d) pending) t
  end.
(** When waitForAnyAck returns, entered at [now] with [deadline] the end of the
    transfer's context, and nothing arrives. *)
Definition ack_wait_ends (now deadline : Z) : Z := Z.max now (Z.min (now + uspTransferAckTimeout) deadline).
End Sessions.

(** ** Opening sessions *)

(** What the operating system answers: making the directory of a path and the file
    itself, and the size of a file; net/url's Parse with the scheme and the path. *)
Record OS := MkOS { osCreate : bytes → res bytes (); osStat : bytes → res bytes Z; osTempDir : bytes; urlParse : bytes → option (bytes * bytes) }.

Fixpoint firstNonEmpty (values : list bytes) : bytes :=
  match values with
  | [] => []
  | value :: values => let value := TrimSpace value in if (length value =? 0)%nat then firstNonEmpty values else value
  end.
Definition sanitized (b : byte) : bytes :=
  if bool_decide (b ∈ bs "/\:.") then bs "_" else if bool_decide (b ∈ bs "{}") then [] else [b].
Definition sanitizeTransferName (path : bytes) : bytes :=
  let value := concat (sanitized <$> TrimSpace path) in
  if (length value =? 0)%nat then bs "transfer" else value.
(** filepath.Clean on the elements of a path, the last first. *)
Definition clean_step (rooted : bool) (out : list bytes) (elem : bytes) : list bytes :=
  if (length elem =? 0)%nat || bool_decide (elem = bs ".") then out
  else if bool_decide (elem = bs "..") then
    match out with
    | last :: rest => if bool_decide (last = bs "..") then elem :: out else rest
    | [] => if rooted then [] else [elem]
    end
  else elem :: out.
Definition Clean (path : bytes) : bytes :=
  let rooted := HasPrefix path (bs "/") in
  let elems := rev (foldl (clean_step rooted) [] (Split path (z2b 47))) in
  let joined := GoStr.Join elems (z2b 47) in
  if rooted then bs "/" ++ joined else if (length joined =? 0)%nat then bs "." else joined.
(** filepath.Join of two elements. *)
Definition filepath_Join (dir name : bytes) : bytes :=
  if (length dir =? 0)%nat then (if (length name =? 0)%nat then [] else Clean name)
  else Clean (dir ++ bs "/" ++ name).

Section Control.
Context `{UnicodeCase} `{Schema} {B : Type} (os : OS) (transferDir : bytes).

Definition transferDirectory : bytes := if (length (TrimSpace transferDir) =? 0)%nat then osTempDir os else transferDir.
Definition localPathFromURI (raw : bytes) : bytes :=
  let raw := TrimSpace raw in
  if (length raw =? 0)%nat then [] else
  match urlParse os raw with
  | None => raw
  | Some (scheme, path) =>
      let scheme := ToLower scheme in
      if (length scheme =? 0)%nat then raw else if bool_decide (scheme = bs "file") then path else []
  end.
Definition meta (m : metadata) (k : bytes) : bytes := default [] (m !! k).

Definition session_result (tr : USPTransferRequest) (path : bytes) (n id : Z) (key : bytes) : USPTransferResult :=
  MkTransferResult (trPath tr) (bs "file://" ++ path) n
    (<[TransferMetadataTransport := bs "wg-stream"]> (<[TransferMetadataSessionID := FormatUint id]>
      (<[TransferMetadataChunkSize := Itoa uspRecommendedChunkSize]> {[key := path]}))).
(** The new session with its result, or the text of the error; also r.nextID. *)
Definition startUploadSession (req : USPAgentRequest) (tr : USPTransferRequest) (peer : bytes) (nextID : Z) : Z * res bytes (uspTransferSession * USPTransferResult) :=
  let target := firstNonEmpty [localPathFromURI (trURI tr); TrimSpace (meta (trMetadata tr) TransferMetadataDestination); TrimSpace (trFilename tr)] in
  let target := if (length target =? 0)%nat then filepath_Join transferDirectory (sanitizeTransferName (trPath tr) ++ bs ".upload") else target in
  match osCreate os target with
  | Err e => (nextID, Err e)
  | Panic => (nextID, Panic)
  | Ok _ =>
      let total := parseTransferSize (meta (trMetadata tr) (bs "size")) in
      let id := u64 (nextID + 1) in
      (id, Ok (MkSession id (qID req) (qMethod req) peer target true [] (Some (MkWriter [] false)) total 0 1 [],
               session_result tr target 0 id TransferMetadataDestination))
  end.
Definition startDownloadSession (req : USPAgentRequest) (tr : USPTransferRequest) (peer : bytes) (nextID : Z) : Z * res bytes (uspTransferSession * USPTransferResult) :=
  let source := firstNonEmpty [localPathFromURI (trURI tr); TrimSpace (meta (trMetadata tr) TransferMetadataSource); TrimSpace (trFilename tr)] in
  if (length source =? 0)%nat then (nextID, Err (bs "download source not provided for tunnel transfer")) else
  match osStat os source with
  | Err e => (nextID, Err e)
  | Panic => (nextID, Panic)
  | Ok size =>
      let id := u64 (nextID + 1) in
      (id, Ok (MkSession id (qID req) (qMethod req) peer source false [] None size 0 1 [], session_result tr source size id TransferMetadataSource))
  end.

Abbreviation runtime := (uspRuntime B).
Definition with_nextID (r : runtime) (n : Z) : runtime := MkRuntime (rAgent r) (rCache r) (rPending r) (rStats r) n.
Definition add_stream (t : Transfers) (s : uspTransferSession) : Transfers :=
  MkTransfers (<[sID s := s]> (tSessions t)) ({[sID s]} ∪ tStreams t) (tStats t) (tSent t) (tRemoved t).
Inductive control_error := CMissingReply (id : Z) | CUnsupported (method : Z) | CReply (e : rterr).
(** The session started, if any, is the second result: a download then runs
    streamDownloadSession. *)
Definition handleTransferControlRequest (peer : bytes) (req : USPAgentRequest) (reply : option (bytes → B → B * res berr ())) (r : runtime) (t : Transfers)
    : runtime * Transfers * option uspTransferSession * res control_error () :=
  match qTransfer req with
  | None =>
      let '(r, out) := replyControlResponse reply req (response (qID req) (qMethod req) ∅ [] [] None None None None (bs "transfer request missing transfer block")) r in
      (r, t, None, match out with Panic => Panic | _ => Ok () end)
  | Some tr =>
      match reply with
      | None => (r, t, None, Err (CMissingReply (qID req)))
      | Some _ =>
          let upload := qMethod req =? USPAgentMethodUpload in
          if negb (upload || (qMethod req =? USPAgentMethodDownload)) then (r, t, None, Err (CUnsupported (qMethod req))) else
          let '(n, started) := if upload then startUploadSession req tr peer (rNextID r) else startDownloadSession req tr peer (rNextID r) in
          let r := with_nextID r n in
          match started with
          | Panic => (r, t, None, Panic)
          | Err e =>
              let '(r, out) := replyControlResponse reply req (response (qID req) (qMethod req) ∅ [] [] None None None None e) r in
              (r, t, None, match out with Panic => Panic | _ => Ok () end)
          | Ok (s, result) =>
              let t := recordTransferSessionStart (add_stream t s) in
              let '(r, out) := replyControlResponse reply req (response (qID req) (qMethod req) ∅ [] [] None (Some result) None None []) r in
              match out with
              | Ok _ => (r, t, Some s, Ok ())
              | Err e => (r, recordTransferSessionAbort (drop_stream t (sID s)), None, Err (CReply e))
              | Panic => (r, t, None, Panic)
              end
          end
      end
  end.
End Control.
