(* ===== verification/TransferProps.v ===== *)
(** * What transfer sessions guarantee

    Proofs about [Transfer]: an upload writes the chunks it has acknowledged and
    nothing else, whatever order they arrive in; a download keeps a window of
    unacknowledged chunks and completes only when everything was acknowledged; the
    two ends fit together.  Two ways in which the sessions go wrong are pinned down. *)

From S2P Require Import Prelude GoStr Wire Codec Fragments ReadReplay Transport Request Stream DeviceModel UspEvents UspStore UspAgent UspRuntime Lz4 Transfer.

(** ** The buffered writer *)

Lemma file_write_all room content p : (length content + length p ≤ room)%nat → file_write room content p = (content ++ p, length p, true).
Proof.
  intros Hr. unfold file_write. replace (Nat.min (room - length content) (length p)) with (length p) by lia.
  rewrite firstn_all. by rewrite Nat.eqb_refl.
Qed.
Lemma Flush_all room w content : wErr w = false → (length content + length (wBuf w) ≤ room)%nat → Flush room w content = (MkWriter [] false, content ++ wBuf w, true).
Proof.
  intros He Hr. unfold Flush. rewrite He. destruct (Nat.eqb_spec (length (wBuf w)) 0) as [E|E].
  - apply nil_length_inv in E. destruct w as [b e]. cbn in *. subst. by rewrite app_nil_r.
  - by rewrite file_write_all.
Qed.

Lemma buf_write_fills fuel room buf content p nn : (bufferSize - length buf < length p)%nat → length buf ≠ 0%nat →
  buf_write (S fuel) room (MkWriter buf false) content p nn =
    let n := (bufferSize - length buf)%nat in
    let '(w, content, _) := Flush room (MkWriter (buf ++ take n p) false) content in buf_write fuel room w content (drop n p) (nn + n).
Proof. intros H1 H2. cbn [buf_write wBuf wErr]. rewrite (proj2 (Nat.ltb_lt _ _)) by done. cbn [negb andb]. by rewrite (proj2 (Nat.eqb_neq _ _)) by done. Qed.

(** With room on the disk, the writer takes everything and keeps the order. *)
Lemma Writer_Write_all room w content p : wErr w = false → (length (wBuf w) ≤ bufferSize)%nat → (length content + length (wBuf w) + length p ≤ room)%nat →
  ∃ w' content', Writer_Write room w content p = (w', content', length p, true) ∧ wErr w' = false ∧ (length (wBuf w') ≤ bufferSize)%nat ∧
    content' ++ wBuf w' = content ++ wBuf w ++ p.
Proof.
  intros He Hb Hr. destruct w as [buf e]. cbn [wBuf wErr] in *. subst e.
  assert (Hlast : ∀ fuel buf content p nn, (length buf ≤ bufferSize)%nat → (length p ≤ bufferSize - length buf)%nat →
    buf_write (S fuel) room (MkWriter buf false) content p nn = (MkWriter (buf ++ p) false, content, nn + length p, true)%nat).
  { intros fuel b c q nn H1 H2. cbn [buf_write wBuf wErr]. by rewrite (proj2 (Nat.ltb_ge _ _)) by lia. }
  assert (Hdirect : ∀ fuel content p nn, (bufferSize < length p)%nat → (length content + length p ≤ room)%nat →
    buf_write (S (S fuel)) room (MkWriter [] false) content p nn = (MkWriter [] false, content ++ p, nn + length p, true)%nat).
  { intros fuel c q nn H1 H2. cbn [buf_write wBuf wErr length]. rewrite (proj2 (Nat.ltb_lt _ _)) by lia. cbn [negb andb]. change (0 =? 0)%nat with true. cbv iota.
    rewrite file_write_all by done. rewrite drop_all. cbn [negb wBuf wErr length]. rewrite (proj2 (Nat.ltb_ge _ _)) by lia. cbn [andb].
    by rewrite Nat.add_0_r. }
  unfold Writer_Write. destruct (Nat.le_gt_cases (length p) (bufferSize - length buf)) as [Hfit|Hbig].
  { rewrite Hlast by done. eexists _, _. split; [reflexivity|]. cbn [wBuf wErr]. split_and!; [done|rewrite length_app; lia|done]. }
  destruct (Nat.eqb_spec (length buf) 0) as [E0|E0].
  { apply nil_length_inv in E0 as ->. cbn [length] in *. rewrite Hdirect by lia. eexists _, _. split; [reflexivity|]. cbn. split_and!; [done|lia|by rewrite app_nil_r]. }
  rewrite buf_write_fills by lia. cbv zeta.
  set (n := (bufferSize - length buf)%nat) in *. rewrite Flush_all by (cbn [wBuf wErr]; try done; rewrite length_app, length_take; lia). cbn [wBuf].
  assert (Hlen : (length (drop n p) = length p - n)%nat) by apply length_drop.
  assert (Hcat : (content ++ buf ++ take n p) ++ drop n p = content ++ buf ++ p) by (by rewrite <- !app_assoc, take_drop).
  destruct (Nat.le_gt_cases (length (drop n p)) bufferSize) as [Hf|Hg].
  - rewrite Hlast by (cbn [length]; lia). eexists _, _. split; [f_equal; f_equal; lia|]. cbn [wBuf wErr app]. split_and!; [done|done|done].
  - rewrite Hdirect by (rewrite ?length_app, ?length_take; lia). eexists _, _. split; [f_equal; f_equal; lia|]. cbn [wBuf wErr length].
    split_and!; [done|lia|by rewrite app_nil_r].
Qed.

(** ** Sending *)

Definition encoding (f : USPTransferStreamFrame) : list bytes := match EncodeUSPTransferStreamFrame f with Ok payload => [payload] | _ => [] end.
Lemma sendStream_eq fails f t : let t' := (sendStream fails f t).1 in
  tSessions t' = tSessions t ∧ tStreams t' = tStreams t ∧ tRemoved t' = tRemoved t ∧ tSent t' = tSent t ++ encoding f.
Proof. unfold sendStream, encoding. destruct (EncodeUSPTransferStreamFrame f) as [p| |]; cbn; by rewrite ?app_nil_r. Qed.
Lemma sendStream_fine fails f t payload : EncodeUSPTransferStreamFrame f = Ok payload → fails (length (tSent t)) = false → (sendStream fails f t).2 = Ok ().
Proof. intros He Hf. unfold sendStream. rewrite He. cbn [snd tSent tcount]. by rewrite Hf. Qed.

(** ** Uploads *)

(** A session that can still be written to. *)
Definition pen (s : uspTransferSession) : Writer := default (MkWriter [] false) (sWriter s).
Definition open_for (s : uspTransferSession) (data : bytes) : Prop :=
  sFile s = true ∧ wErr (pen s) = false ∧ (length (wBuf (pen s)) ≤ bufferSize)%nat ∧ sContent s ++ wBuf (pen s) = data.

Lemma flush_split room (fin : bool) w content : wErr w = false → (length (wBuf w) ≤ bufferSize)%nat → (length (content ++ wBuf w) ≤ room)%nat →
  ∃ w' content', (if fin then Flush room w content else (w, content, true)) = (w', content', true) ∧ wErr w' = false ∧
    (length (wBuf w') ≤ bufferSize)%nat ∧ content' ++ wBuf w' = content ++ wBuf w.
Proof.
  intros He Hb Hr. rewrite length_app in Hr. destruct fin; [|by eexists _, _].
  rewrite Flush_all by done. eexists _, _. split; [reflexivity|]. cbn. split_and!; [done|lia|by rewrite app_nil_r].
Qed.


(** The chunk goes to the end of what was written. *)
Lemma chunk_accept_spec fails room s f t data : open_for s data → (length data + length (sfData f) ≤ room)%nat →
  let t' := (chunk_accept fails room s f t).1 in
  ∃ s', tSessions t' = <[sID s := s']> (tSessions t) ∧ tStreams t' = tStreams t ∧ tRemoved t' = tRemoved t ∧
    tSent t' = tSent t ++ encoding (ack_frame s' (sfSequence f) (sfFinal f)) ∧ open_for s' (data ++ sfData f) ∧
    sNextSequence s' = u32 (sNextSequence s + 1) ∧ sTransferred s' = i64 (sTransferred s + Z.of_nat (length (sfData f))) ∧
    sID s' = sID s ∧ sMethod s' = sMethod s ∧ sPeer s' = sPeer s ∧ sRequestID s' = sRequestID s.
Proof.
  intros (Hfile & Herr & Hbuf & Hdata) Hroom. unfold chunk_accept. rewrite Hfile. cbn [negb]. fold (pen s).
  assert (Hlw : (length (sContent s) + length (wBuf (pen s)) = length data)%nat) by (by rewrite <- Hdata, length_app).
  destruct (Writer_Write_all room (pen s) (sContent s) (sfData f) Herr Hbuf) as (w1 & c1 & -> & He1 & Hb1 & Hc1); [lia|]. cbn [negb].
  assert (Hc1' : c1 ++ wBuf w1 = data ++ sfData f) by (by rewrite Hc1, app_assoc, Hdata).
  destruct (flush_split room (sfFinal f) w1 c1 He1 Hb1) as (w2 & c2 & -> & He2 & Hb2 & Hc2); [rewrite Hc1', length_app; lia|]. cbn [negb].
  set (s2 := with_progress _ _ _). destruct (sendStream_eq fails (ack_frame s2 (sfSequence f) (sfFinal f)) (with_session t s2)) as (H1 & H2 & H3 & H4).
  exists s2. rewrite H1, H2, H3, H4. split_and!; try done. split_and!; [done|done|done|]. by rewrite <- Hc1', <- Hc2.
Qed.

Lemma u64_ok_wrap x : u64_ok (u64 x).
Proof. apply wrap_range. lia. Qed.

Section Uploads.
Context `{UC : UnicodeCase} (fails : nat → bool) (peer : bytes) (id : Z) (room : nat).
(** The file, cut into chunks by the controller. *)
Context (chunks : list bytes).

Definition written (n : nat) : bytes := concat (take n chunks).
(** A chunk frame carries the chunk of its number. *)
Definition honest (f : USPTransferStreamFrame) : Prop :=
  sfSessionID f = id ∧ (sfPhase f = USPTransferStreamChunk → ∃ i, chunks !! i = Some (sfData f) ∧ sfSequence f = Z.of_nat i + 1).

Record upload_ok (n : nat) (s : uspTransferSession) : Prop := {
  uo_id : sID s = id;
  uo_ids : u64_ok (sID s) ∧ u64_ok (sRequestID s);
  uo_method : sMethod s = USPAgentMethodUpload;
  uo_peer : EqualFold (sPeer s) peer = true;
  uo_next : sNextSequence s = Z.of_nat n + 1;
  uo_n : (n ≤ length chunks)%nat;
  uo_file : sFile s = true;
  uo_err : wErr (default (MkWriter [] false) (sWriter s)) = false;
  uo_buf : (length (wBuf (default (MkWriter [] false) (sWriter s))) ≤ bufferSize)%nat;
  uo_content : sContent s ++ wBuf (default (MkWriter [] false) (sWriter s)) = written n;
  uo_transferred : sTransferred s = Z.of_nat (length (written n)) }.
Definition serves (n : nat) (t : Transfers) : Prop := id ∈ tStreams t ∧ ∃ s, tSessions t !! id = Some s ∧ upload_ok n s.

Hypothesis few : Z.of_nat (length chunks) + 1 < 2 ^ 32.
Hypothesis fits : (length (concat chunks) ≤ room)%nat.
Hypothesis small : Z.of_nat room < 2 ^ 63.

Lemma written_le n : (length (written n) ≤ length (concat chunks))%nat.
Proof.
  unfold written. rewrite <- (take_drop n chunks) at 2. rewrite concat_app, length_app. lia.
Qed.
Lemma written_S n c : chunks !! n = Some c → written (S n) = written n ++ c.
Proof. intros H. unfold written. rewrite (take_S_r _ _ _ H), concat_app. cbn. by rewrite app_nil_r. Qed.

(** An answer that acknowledges no more than [n] chunks. *)
Definition good_ack (n : nat) (g : USPTransferStreamFrame) : Prop :=
  stream_ok g ∧ sfSessionID g = id ∧ (sfPhase g = USPTransferStreamAck ∨ sfPhase g = USPTransferStreamComplete) ∧ 0 ≤ sfAckSequence g ≤ Z.of_nat n.
Lemma answer_good n s phase ack total fin m : sID s = id → u64_ok (sID s) ∧ u64_ok (sRequestID s) → sMethod s = USPAgentMethodUpload → 0 ≤ ack ≤ Z.of_nat n → (n ≤ length chunks)%nat →
  phase = USPTransferStreamAck ∨ phase = USPTransferStreamComplete → good_ack n (stream_frame s phase ack total fin m).
Proof.
  intros Hi [H1 H2] Hm Ha Hn Hp. split_and!; [|done|done|apply Ha|apply Ha].
  split_and!; cbn [stream_frame sfSessionID sfRequestID sfMethod sfPhase sfSequence sfAckSequence sfOffset sfTotalSize sfPath sfFilename sfContentType sfData];
    first [done|lia|apply u64_ok_wrap|by rewrite Hm|by destruct Hp as [-> | ->]|by repeat constructor].
Qed.
Lemma ack_good n s ack fin : sID s = id → u64_ok (sID s) ∧ u64_ok (sRequestID s) → sMethod s = USPAgentMethodUpload → 0 ≤ ack ≤ Z.of_nat n ∧ (n ≤ length chunks)%nat →
  good_ack n (ack_frame s ack fin).
Proof. intros Hi Hu Hm [Ha Hn]. apply answer_good; try done. by left. Qed.

Lemma ok_open n s : upload_ok n s → open_for s (written n).
Proof. intros []. by split_and!. Qed.
Lemma chunk_accepted n s f t : upload_ok n s → honest f → sfPhase f = USPTransferStreamChunk → chunk_expected s f = true →
  let t' := (chunk_accept fails room s f t).1 in
  ∃ s' g, tSessions t' = <[id := s']> (tSessions t) ∧ tStreams t' = tStreams t ∧ tRemoved t' = tRemoved t ∧ upload_ok (S n) s' ∧
    tSent t' = tSent t ++ encoding g ∧ good_ack (S n) g ∧ sfAckSequence g = Z.of_nat (S n).
Proof.
  intros Hok [_ Hh] Hp He%Z.eqb_eq. destruct (Hh Hp) as (i & Hi & Hseq). pose proof (uo_next _ _ Hok) as Hx. rewrite Hx in He.
  assert (i = n) as -> by lia. pose proof (lookup_lt_Some _ _ _ Hi) as Hlt. pose proof (written_le (S n)) as Hw. pose proof (written_S n _ Hi) as HS.
  assert (Hsum : (length (written n) + length (sfData f) = length (written (S n)))%nat) by (by rewrite HS, length_app).
  destruct (chunk_accept_spec fails room s f t _ (ok_open n s Hok)) as (s' & H1 & H2 & H3 & H4 & (Hf & Her & Hb & Hd) & H5 & H6 & H7 & H8 & H9 & H10); [lia|].
  destruct Hok as [O1 O0 O2 O3 O4 O5 O6 O7 O8 O9 O10]. rewrite O1 in H1.
  eexists s', _. split_and!; [exact H1|exact H2|exact H3| |exact H4|apply ack_good; [congruence|by rewrite H7, H10|congruence|lia]|cbn; lia].
  split; try done; [congruence|by rewrite H7, H10|congruence|congruence|rewrite H5, O4, wrap_small; lia|by rewrite HS|].
  rewrite H6, O10, swrap_small by lia. lia.
Qed.

Lemma serves_frame n t s f : tSessions t !! id = Some s → upload_ok n s → id ∈ tStreams t → sfSessionID f = id →
  handleTransferStreamFrame fails room peer f t = handleUploadStreamFrame fails room s f t.
Proof.
  intros Hs Hok Hin Hf. unfold handleTransferStreamFrame. rewrite Hf, decide_True by done. rewrite Hs.
  by rewrite (uo_peer _ _ Hok), (uo_method _ _ Hok).
Qed.

(** What one frame that opens the stream or carries a chunk does. *)
Lemma upload_step n t f : serves n t → honest f → sfPhase f = USPTransferStreamOpen ∨ sfPhase f = USPTransferStreamChunk →
  let t' := (handleTransferStreamFrame fails room peer f t).1 in
  ∃ n' g, serves n' t' ∧ (n ≤ n')%nat ∧ (sfPhase f = USPTransferStreamChunk → sfSequence f = Z.of_nat n + 1 → n' = S n) ∧
    tSent t' = tSent t ++ encoding g ∧ good_ack n' g ∧ (sfPhase f = USPTransferStreamChunk → sfAckSequence g = Z.of_nat n').
Proof.
  intros (Hin & s & Hs & Hok) Hh Hp. rewrite (serves_frame n t s f) by (done || apply Hh). unfold handleUploadStreamFrame.
  destruct Hp as [Hp|Hp]; rewrite Hp; cbn [Z.eqb Pos.eqb USPTransferStreamOpen USPTransferStreamChunk].
  { destruct (sendStream_eq fails (ack_frame s 0 false) t) as (H1 & H2 & _ & H4). eexists n, _. split_and!; [split; [by rewrite H2|exists s; by rewrite H1]|done|done|exact H4|apply ack_good; [apply Hok..|pose proof (uo_n _ _ Hok); lia]|done]. }
  destruct (chunk_expected s f) eqn:He; cbn [negb].
  - destruct (chunk_accepted n s f t Hok Hh Hp He) as (s' & g & H1 & H2 & _ & Hok' & H4 & H5 & H6). exists (S n), g.
    split_and!; [split; [by rewrite H2|exists s'; rewrite H1; by rewrite lookup_insert_eq]|lia|done|done|done|done].
  - destruct (sendStream_eq fails (ack_frame s (u32 (sNextSequence s - 1)) false) t) as (H1 & H2 & _ & H4). eexists n, _.
    pose proof (uo_n _ _ Hok) as Hn. pose proof (uo_next _ _ Hok) as Hx. unfold chunk_expected in He. apply Z.eqb_neq in He.
    split_and!; [split; [by rewrite H2|exists s; by rewrite H1]|done|lia|exact H4|apply ack_good; [apply Hok..|]|]; cbn [ack_frame stream_frame sfAckSequence]; rewrite Hx, ?wrap_small by lia; lia.
Qed.

Definition upload_run (frames : list USPTransferStreamFrame) (t : Transfers) : Transfers :=
  foldl (fun t f => (handleTransferStreamFrame fails room peer f t).1) t frames.
(** The numbers of the chunk frames in the order of arrival. *)
Definition arrivals (frames : list USPTransferStreamFrame) : list Z :=
  omap (fun f => if sfPhase f =? USPTransferStreamChunk then Some (sfSequence f) else None) frames.

Lemma upload_run_serves frames : ∀ n t, serves n t → Forall (fun f => honest f ∧ (sfPhase f = USPTransferStreamOpen ∨ sfPhase f = USPTransferStreamChunk)) frames →
  ∃ n', serves n' (upload_run frames t) ∧ (n ≤ n')%nat ∧
    ∀ k m, (k ≤ n)%nat → seqZ (Z.of_nat k + 1) (Z.of_nat m) `sublist_of` arrivals frames → (k + m ≤ n')%nat.
Proof.
  induction frames as [|f frames IH]; intros n t Hs Hf; cbn [upload_run foldl].
  { exists n. split_and!; [done|lia|]. intros k m Hk Hsub. apply sublist_length in Hsub. rewrite length_seqZ in Hsub. cbn in Hsub. lia. }
  apply Forall_cons in Hf as [[Hh Hp] Hf]. destruct (upload_step n t f Hs Hh Hp) as (n1 & g & Hs1 & Hn1 & Hacc & _).
  destruct (IH n1 _ Hs1 Hf) as (n' & Hs' & Hn' & Hsub). exists n'. split_and!; [done|lia|]. intros k m Hk Hq. unfold arrivals in Hq. cbn [omap list_omap] in Hq.
  destruct (Z.eqb_spec (sfPhase f) USPTransferStreamChunk) as [Ec|Ec]; [|by apply Hsub; [lia|]].
  destruct m as [|m]; [lia|]. rewrite seqZ_cons in Hq by lia. rewrite Nat2Z.inj_succ, Z.pred_succ in Hq.
  apply sublist_cons_r in Hq as [Hq|(l & [= Hseq Hl] & Hq)].
  - rewrite <- (Z.pred_succ (Z.of_nat m)) in Hq. apply Hsub; [lia|]. rewrite seqZ_cons by lia. by rewrite Nat2Z.inj_succ.
  - replace (k + S m)%nat with (S k + m)%nat by lia. apply Hsub.
    + destruct (decide (k = n)) as [->|]; [|lia]. rewrite (Hacc Ec) by lia. lia.
    + subst l. by rewrite Nat2Z.inj_succ, <- Z.add_1_r.
Qed.

(** The end of an upload. *)
Lemma upload_complete n t f : serves n t → sfSessionID f = id → sfPhase f = USPTransferStreamComplete →
  let t' := (handleTransferStreamFrame fails room peer f t).1 in
  ∃ s' g, tSessions t' = <[id := s']> (tSessions t) ∧ tStreams t' = tStreams t ∖ {[id]} ∧ sContent s' = written n ∧ tRemoved t' = tRemoved t ∧
    tSent t' = tSent t ++ encoding g ∧ sfPhase g = USPTransferStreamComplete ∧ good_ack n g ∧ sfAckSequence g = Z.of_nat n ∧ sfOffset g = Z.of_nat (length (written n)).
Proof.
  intros (Hin & s & Hs & Hok) Hid Hp. rewrite (serves_frame n t s f) by done. unfold handleUploadStreamFrame. rewrite Hp. cbn [Z.eqb Pos.eqb USPTransferStreamOpen USPTransferStreamChunk USPTransferStreamComplete].
  pose proof (written_le n) as Hw. pose proof (uo_content _ _ Hok) as Hc. pose proof (uo_n _ _ Hok) as Hn.
  assert (∃ w, match sWriter s with None => (None, sContent s, true) | Some w => let '(w, content, ok) := Flush room w (sContent s) in (Some w, content, ok) end = (w, written n, true)) as [w ->].
  { destruct (sWriter s) as [w|] eqn:Ew; cbn [default from_option Datatypes.id] in Hc; [|rewrite app_nil_r in Hc; exists None; by rewrite Hc].
    rewrite Flush_all; [by eexists; rewrite Hc|pose proof (uo_err _ _ Hok) as He; by rewrite Ew in He|]. rewrite <- length_app, Hc. lia. }
  cbn [negb]. set (s' := with_writer s false (written n) None). set (g := stream_frame s' _ _ _ _ _).
  destruct (sendStream_eq fails g (drop_stream (with_session t s') (sID s'))) as (H1 & H2 & H3 & H4).
  assert (Hsid : sID s' = id) by apply Hok. exists s', g. rewrite Hsid in *.
  destruct (sendStream fails g _) as [t1 out]. cbn [fst] in *.
  assert (Ht : ∀ t2, t2 = match out with Ok _ => recordTransferSessionComplete s' t1 | Err _ => recordTransferSessionAbort t1 | Panic => t1 end →
    tSessions t2 = tSessions t1 ∧ tStreams t2 = tStreams t1 ∧ tRemoved t2 = tRemoved t1 ∧ tSent t2 = tSent t1) by (intros t2 ->; by destruct out).
  destruct (Ht _ eq_refl) as (-> & -> & -> & ->). rewrite H1, H2, H3, H4.
  pose proof (uo_next _ _ Hok) as Hx. pose proof (uo_transferred _ _ Hok) as Htr.
  assert (Hg : good_ack n g) by (apply answer_good; [apply Hok..| |done|by right]; cbn; rewrite Hx, wrap_small; lia).
  cbn. rewrite (uo_id _ _ Hok). split_and!; [done|done|done|done|done|done|done|rewrite Hx, wrap_small; lia|rewrite Htr, wrap_small; lia].
Qed.

(** Whatever opening frames and chunks of a file reach an upload session, lost,
    repeated or out of order, and handled one after the other, when the stream is
    completed the file holds exactly the first [n] chunks in order and the answer
    says so: its acknowledgement is [n], its offset the number of bytes.  [n] is at
    least the number of chunks that arrived in order.  (The disk has room, and the
    chunks can be numbered.) *)
Theorem upload_in_order frames t f : serves 0 t → sfSessionID f = id → sfPhase f = USPTransferStreamComplete →
  Forall (fun f => honest f ∧ (sfPhase f = USPTransferStreamOpen ∨ sfPhase f = USPTransferStreamChunk)) frames →
  ∃ n s g, let t' := (handleTransferStreamFrame fails room peer f (upload_run frames t)).1 in
    tSessions t' !! id = Some s ∧ sContent s = concat (take n chunks) ∧ id ∉ tStreams t' ∧ tSent t' = tSent (upload_run frames t) ++ encoding g ∧
    sfPhase g = USPTransferStreamComplete ∧ sfAckSequence g = Z.of_nat n ∧ sfOffset g = Z.of_nat (length (concat (take n chunks))) ∧
    (n ≤ length chunks)%nat ∧ ∀ m, seqZ 1 (Z.of_nat m) `sublist_of` arrivals frames → (m ≤ n)%nat.
Proof.
  intros Hs Hid Hp Hf. destruct (upload_run_serves frames 0 t Hs Hf) as (n & Hn & _ & Hsub).
  destruct (upload_complete n _ f Hn Hid Hp) as (s & g & H1 & H2 & H3 & _ & H4 & H5 & _ & H6 & H7). exists n, s, g. cbv zeta. rewrite H1, H2, lookup_insert_eq.
  destruct Hn as (_ & s0 & _ & Hok). pose proof (uo_n _ _ Hok). split_and!; try done; [set_solver|]. intros m Hm. apply (Hsub 0%nat m); [lia|done].
Qed.
End Uploads.

(** Frames of one session are handled concurrently and without a lock.  If the
    same chunk arrives twice, as it does when it is sent again, and both handlers
    compare its number before either goes on, it is written twice; and the chunk
    after it, which was never received, is then answered with an acknowledgement of
    itself, so that it will not be sent again. *)
Theorem upload_race_corrupts fails room s f f2 t data : open_for s data → (length data + 2 * length (sfData f) ≤ room)%nat →
  0 < sNextSequence s < 2 ^ 31 → chunk_expected s f = true → sfSequence f2 = sfSequence f + 1 → sfPhase f2 = USPTransferStreamChunk →
  ∃ s1 s2, let t1 := (chunk_accept fails room s f t).1 in let t2 := (chunk_accept fails room s1 f t1).1 in
    tSessions t1 !! sID s = Some s1 ∧ tSessions t2 !! sID s = Some s2 ∧ open_for s2 (data ++ sfData f ++ sfData f) ∧
    handleUploadStreamFrame fails room s2 f2 t2 = sendStream fails (ack_frame s2 (sfSequence f2) false) t2.
Proof.
  intros Ho Hr Hn He%Z.eqb_eq Hs2 Hp. destruct (chunk_accept_spec fails room s f t data Ho) as (s1 & H1 & _ & _ & _ & Ho1 & Hn1 & _ & Hi1 & _); [lia|].
  destruct (chunk_accept_spec fails room s1 f (chunk_accept fails room s f t).1 _ Ho1) as (s2 & H2 & _ & _ & _ & Ho2 & Hn2 & _ & Hi2 & _); [rewrite length_app; lia|].
  exists s1, s2. cbv zeta. rewrite H2, H1, Hi1, !lookup_insert_eq. rewrite wrap_small in Hn1 by lia. rewrite Hn1, wrap_small in Hn2 by lia.
  split_and!; [done|done|by rewrite app_assoc|]. unfold handleUploadStreamFrame. rewrite Hp. cbn [Z.eqb Pos.eqb USPTransferStreamOpen USPTransferStreamChunk].
  unfold chunk_expected. rewrite (proj2 (Z.eqb_neq _ _)) by lia. cbn [negb]. f_equal. f_equal. rewrite Hn2, wrap_small by lia. lia.
Qed.

(** ** The window of a download *)

Lemma compress_runs data : ∃ o, compressUSPTransferChunk data = Ok o.
Proof.
  unfold compressUSPTransferChunk. destruct (_ || _); [by eexists|]. destruct (lz4_compress_spec data) as (o & -> & _). cbn [mbind res_bind].
  destruct (_ || _); by eexists.
Qed.

Section Downloads.
Context (fails : nat → bool) (chunks : list bytes) (s0 : uspTransferSession).
Hypothesis few : Z.of_nat (length chunks) + 1 < 2 ^ 32.
Hypothesis filled : Forall (fun c => c ≠ []) chunks.
Hypothesis small : Z.of_nat (length (concat chunks)) < 2 ^ 63.

Definition sent_bytes (n : nat) : Z := Z.of_nat (length (concat (take n chunks))).
Definition chunk_at (i : nat) : bytes := default [] (chunks !! i).
(** The frame of chunk [i], and its entry in the window. *)
Definition frame_at (i : nat) : USPTransferStreamFrame :=
  MkStreamFrame (sID s0) (sRequestID s0) (sMethod s0) USPTransferStreamChunk (Z.of_nat i + 1) 0 (sent_bytes i) (u64 (maxInt64 [sTotalSize s0; 0])) [] [] [] ∅ (chunk_at i) false.
Definition entry_at (i : nat) : uspTransferPendingChunk := MkChunk (frame_at i) (Z.of_nat (length (chunk_at i))).
(** The chunks [a], ..., [a + k - 1]. *)
Fixpoint window (a k : nat) : pending_chunks :=
  match k with O => ∅ | S k => <[Z.of_nat (a + k) + 1 := entry_at (a + k)]> (window a k) end.

Lemma sent_bytes_S n : (n < length chunks)%nat → sent_bytes (S n) = sent_bytes n + Z.of_nat (length (chunk_at n)).
Proof.
  intros [c Hc]%lookup_lt_is_Some. unfold sent_bytes, chunk_at. rewrite Hc, (take_S_r _ _ _ Hc), concat_app, length_app. cbn. rewrite app_nil_r. lia.
Qed.
Lemma sent_bytes_range n : 0 ≤ sent_bytes n < 2 ^ 63.
Proof. unfold sent_bytes. pose proof (f_equal length (f_equal (@concat byte) (take_drop n chunks))) as H. rewrite concat_app, length_app in H. lia. Qed.

Lemma window_lookup a k q c : window a k !! q = Some c ↔ ∃ i, (a ≤ i < a + k)%nat ∧ q = Z.of_nat i + 1 ∧ c = entry_at i.
Proof.
  induction k as [|k IH]; cbn [window].
  { split; [by rewrite lookup_empty|intros (i & ? & _); lia]. }
  rewrite lookup_insert_Some, IH. split.
  - intros [[<- <-]|(Hne & i & Hi & -> & ->)]; [exists (a + k)%nat|exists i]; split_and!; try done; lia.
  - intros (i & Hi & -> & ->). destruct (decide (i = (a + k)%nat)) as [->|]; [by left|]. right. split; [lia|]. exists i. split_and!; [lia|lia|done|done].
Qed.
Lemma window_fresh a k : window a k !! (Z.of_nat (a + k) + 1) = None.
Proof. apply eq_None_not_Some. intros [c (i & Hi & Hq & _)%window_lookup]. lia. Qed.
Lemma window_size a k : size (window a k) = k.
Proof. induction k as [|k IH]; cbn [window]; [apply map_size_empty|]. by rewrite map_size_insert_None, IH by apply window_fresh. Qed.
Lemma window_sum a k : (a + k ≤ length chunks)%nat → sumZ (pcSize ∘ snd <$> map_to_list (window a k)) = sent_bytes (a + k) - sent_bytes a.
Proof.
  induction k as [|k IH]; intros Hk; cbn [window].
  { rewrite map_to_list_empty, Nat.add_0_r. cbn. lia. }
  rewrite (sumZ_perm _ _ (fmap_Permutation _ _ _ (map_to_list_insert _ _ _ (window_fresh a k)))). cbn [fmap list_fmap]. unfold sumZ at 1. cbn [foldr compose snd]. fold (sumZ (pcSize ∘ snd <$> map_to_list (window a k))).
  rewrite IH by lia. rewrite Nat.add_succ_r, sent_bytes_S by lia. cbn. lia.
Qed.
Lemma window_pending a k : (a + k ≤ length chunks)%nat → pendingTransferredBytes (window a k) = sent_bytes (a + k) - sent_bytes a.
Proof.
  intros H. unfold pendingTransferredBytes. rewrite window_sum by done. pose proof (sent_bytes_range a). pose proof (sent_bytes_range (a + k)). apply swrap_small; lia.
Qed.

(** The chunks of the window that an acknowledgement covers. *)
Definition covered (a k : nat) (ack : Z) : nat := Nat.min k (Z.to_nat (ack - Z.of_nat a)).
Lemma window_released a k ack : filter (fun kv => kv.1 ≤ ack) (window a k) = window a (covered a k ack).
Proof.
  apply map_eq. intros q. apply option_eq. intros c. rewrite map_lookup_filter_Some, !window_lookup. unfold covered. split.
  - intros [(i & Hi & -> & ->) Hle]. cbn in Hle. exists i. split_and!; [lia|lia|done|done].
  - intros (i & Hi & -> & ->). split; [exists i; split_and!; [lia|lia|done|done]|cbn; lia].
Qed.
Lemma window_left a k ack : filter (fun kv => ack < kv.1) (window a k) = window (a + covered a k ack) (k - covered a k ack).
Proof.
  apply map_eq. intros q. apply option_eq. intros c. rewrite map_lookup_filter_Some, !window_lookup. unfold covered. split.
  - intros [(i & Hi & -> & ->) Hle]. cbn in Hle. exists i. split_and!; [lia|lia|done|done].
  - intros (i & Hi & -> & ->). split; [exists i; split_and!; [lia|lia|done|done]|cbn; lia].
Qed.

(** The goroutine has read [a + k] chunks, of which [a] are acknowledged. *)
Definition at_window (a k : nat) (d : Download) : Prop :=
  (a + k ≤ length chunks)%nat ∧ Z.of_nat k ≤ uspTransferWindowSize ∧ dPending d = window a k ∧ dReads d = (fun c => (c, RNil)) <$> drop (a + k) chunks ∧
  dSession d = with_progress s0 (sent_bytes a) (Z.of_nat (a + k) + 1).
(** It has no more to send until something is acknowledged. *)
Definition at_rest (a k : nat) : Prop := Z.of_nat k = uspTransferWindowSize ∨ (a + k = length chunks)%nat.

Lemma chunk_frame_at a k : (a + k < length chunks)%nat →
  chunk_frame (with_progress s0 (sent_bytes a) (Z.of_nat (a + k) + 1)) (window a k) (chunk_at (a + k)) RNil = frame_at (a + k).
Proof.
  intros H. unfold chunk_frame, frame_at. cbn [with_progress sID sRequestID sMethod sNextSequence sTransferred sTotalSize].
  rewrite window_pending by lia. replace (sent_bytes a + (sent_bytes (a + k) - sent_bytes a)) with (sent_bytes (a + k)) by lia.
  pose proof (sent_bytes_range (a + k)). by rewrite swrap_small, wrap_small by lia.
Qed.

(** Nothing happened but payloads of some kind being sent. *)
Definition sends (P : bytes → Prop) (t t' : Transfers) : Prop := tSessions t' = tSessions t ∧ ∃ l, tSent t' = tSent t ++ l ∧ Forall P l.
Lemma sends_refl (P : bytes → Prop) t t' : tSessions t' = tSessions t → tSent t' = tSent t → sends P t t'.
Proof. intros H1 H2. split; [done|]. exists []. by rewrite app_nil_r. Qed.
Lemma sends_trans (P : bytes → Prop) t1 t2 t3 : sends P t1 t2 → sends P t2 t3 → sends P t1 t3.
Proof.
  intros (H1 & l & Hl & Hp) (H2 & l' & Hl' & Hp'). split; [congruence|]. exists (l ++ l'). split; [by rewrite Hl', Hl, app_assoc|by apply Forall_app].
Qed.
Lemma sends_weaken (P Q : bytes → Prop) t t' : (∀ x, P x → Q x) → sends P t t' → sends Q t t'.
Proof. intros HPQ (H1 & l & Hl & Hp). split; [done|]. exists l. split; [done|]. by eapply Forall_impl. Qed.
Lemma sends_frame (P : bytes → Prop) f t : (∀ x, x ∈ encoding f → P x) → sends P t (sendStream fails f t).1.
Proof. intros HP. destruct (sendStream_eq fails f t) as (H1 & _ & _ & H4). split; [done|]. exists (encoding f). split; [done|by apply Forall_forall]. Qed.

Definition a_chunk (x : bytes) : Prop := ∃ i, (i < length chunks)%nat ∧ x ∈ encoding (frame_at i).

Lemma fill_spec m : ∀ a k t, (a + k + m = length chunks)%nat → Z.of_nat k ≤ uspTransferWindowSize →
  let '(t', d, ok) := fill_window fails ((fun c => (c, RNil)) <$> drop (a + k) chunks) (with_progress s0 (sent_bytes a) (Z.of_nat (a + k) + 1)) (window a k) t in
  sends a_chunk t t' ∧ (ok = true → ∃ k', at_window a k' d ∧ at_rest a k').
Proof.
  induction m as [|m IH]; intros a k t Hm Hk.
  - rewrite drop_ge by lia. cbn [fmap list_fmap fill_window]. rewrite window_size.
    assert (Hd : at_window a k (MkDownload (with_progress s0 (sent_bytes a) (Z.of_nat (a + k) + 1)) [] (window a k))).
    { split_and!; [lia|done|done|by rewrite drop_ge by lia|done]. }
    destruct (_ <=? _); (split; [by apply sends_refl|]); intros _; exists k; (split; [done|right; lia]).
  - destruct (lookup_lt_is_Some_2 chunks (a + k)) as [c Hc]; [lia|]. assert (Hca : chunk_at (a + k) = c) by (unfold chunk_at; by rewrite Hc).
    rewrite (drop_S _ _ _ Hc). cbn [fmap list_fmap fill_window]. rewrite window_size. destruct (Z.leb_spec uspTransferWindowSize (Z.of_nat k)) as [Hfull|Hroom].
    { split; [by apply sends_refl|]. intros _. exists k. split; [|left; lia]. split_and!; [lia|done|done|cbn; by rewrite (drop_S _ _ _ Hc)|done]. }
    rewrite (proj2 (Nat.eqb_neq _ _)). 2:{ apply Forall_lookup with (i := (a + k)%nat) (x := c) in filled; [|done]. by destruct c. }
    rewrite <- Hca, chunk_frame_at by lia. pose proof (sends_frame a_chunk (frame_at (a + k)) t) as Hsend.
    destruct (sendStream fails (frame_at (a + k)) t) as [t1 out]. cbn [fst] in Hsend.
    assert (Hs1 : sends a_chunk t t1) by (apply Hsend; intros x Hx; exists (a + k)%nat; split; [lia|done]). clear Hsend.
    destruct out as [u| |]; [|split; [|done]; eapply sends_trans; [exact Hs1|by apply sends_refl]..].
    cbn [with_progress sNextSequence]. change (<[Z.of_nat (a + k) + 1 := MkChunk (frame_at (a + k)) (Z.of_nat (length (chunk_at (a + k))))]> (window a k)) with (window a (S k)).
    specialize (IH a (S k) t1 ltac:(lia) ltac:(lia)). rewrite Nat.add_succ_r in IH. rewrite wrap_small by lia. rewrite Nat2Z.inj_succ, <- Z.add_1_r in IH.
    unfold with_progress in IH |- *. cbn [sID sRequestID sMethod sPeer sPath sFile sContent sWriter sTotalSize sTransferred sAcks].
    destruct (fill_window _ _ _ _ _) as [[t2 d] ok]. destruct IH as [Hs2 Hok]. split; [by eapply sends_trans|done].
Qed.

Definition complete_frame : USPTransferStreamFrame :=
  let s := with_progress s0 (sent_bytes (length chunks)) (Z.of_nat (length chunks) + 1) in
  stream_frame s USPTransferStreamComplete (u32 (sNextSequence s - 1)) (maxInt64 [sTotalSize s; sTransferred s]) true {[TransferMetadataSource := sPath s]}.
(** What may be sent when [a] chunks are acknowledged. *)
Definition legit (a : nat) (x : bytes) : Prop := a_chunk x ∨ a = length chunks ∧ x ∈ encoding complete_frame.
Lemma chunk_legit a x : a_chunk x → legit a x.
Proof. by left. Qed.

Definition download_outcome (a : nat) (t t' : Transfers) (d' : Download) (st : download_status) : Prop :=
  sends (legit a) t t' ∧
  match st with
  | DWaiting => ∃ k, at_window a k d' ∧ at_rest a k ∧ k ≠ 0%nat
  | DDone => a = length chunks
  | DAborted => True
  end.

Lemma round_spec a k d t : at_window a k d → let '(t', d', st) := download_round fails d t in download_outcome a t t' d' st.
Proof.
  intros (Hak & Hk & Hp & Hr & Hs). unfold download_round. rewrite Hp, Hr, Hs.
  pose proof (fill_spec (length chunks - (a + k)) a k t ltac:(lia) Hk) as Hf. destruct (fill_window _ _ _ _ _) as [[t1 d1] ok]. destruct Hf as [Hsend Hok].
  assert (Hl : sends (legit a) t t1) by (eapply sends_weaken; [apply chunk_legit|done]).
  destruct ok; cbn [negb]; [|split; [|done]; eapply sends_trans; [exact Hl|by apply sends_refl]].
  destruct (Hok eq_refl) as (k' & Hw & Hrest). pose proof Hw as (Hak' & _ & Hp' & _ & Hs'). rewrite Hp', window_size.
  destruct (Nat.eqb_spec k' 0) as [->|Hk']; cbn [negb]; [|split; [done|by exists k']].
  assert (a = length chunks) as Ha by (destruct Hrest as [?|?]; [done|lia]). rewrite Nat.add_0_r, Ha in Hs'. rewrite Hs'.
  fold complete_frame. pose proof (sends_frame (legit a) complete_frame t1) as Hc. destruct (sendStream fails complete_frame t1) as [t2 out]. cbn [fst] in Hc.
  assert (Hall : sends (legit a) t t2) by (eapply sends_trans; [exact Hl|]; apply Hc; intros x Hx; by right).
  destruct out; (split; [eapply sends_trans; [exact Hall|by apply sends_refl]|done]).
Qed.

Lemma resend_sends (P : bytes → Prop) l : ∀ r t, (∀ f, f ∈ l → ∀ x, x ∈ encoding f → P x) → sends P t (resend_loop fails l r t).1.1.
Proof.
  induction l as [|f l IH]; intros r t HP; cbn [resend_loop]; [by apply sends_refl|].
  pose proof (sends_frame P f t (HP f ltac:(left))) as Hf. destruct (sendStream fails f t) as [t1 out]. cbn [fst] in Hf.
  destruct out; [|done..]. eapply sends_trans; [exact Hf|]. apply IH. intros g Hg. apply HP. by right.
Qed.
Lemma resent_frames a k f : f ∈ omap (fun q => pcFrame <$> window a k !! q) (merge_sort Z.le (map_to_list (window a k)).*1) → ∃ i, (a ≤ i < a + k)%nat ∧ f = frame_at i.
Proof.
  intros (q & _ & Hq)%list_elem_of_omap. apply fmap_Some in Hq as (c & (i & Hi & _ & ->)%window_lookup & ->). by exists i.
Qed.

Definition acknowledged (ack : option Z) (a k : nat) : nat := match ack with Some q => a + covered a k q | None => a end.
Lemma event_spec ack a k d t : at_window a k d → let '(t', d', st) := download_event fails ack d t in download_outcome (acknowledged ack a k) t t' d' st.
Proof.
  intros Hw. pose proof Hw as (Hak & Hk & Hp & Hr & Hs). unfold download_event. destruct ack as [q|]; cbn [acknowledged].
  - unfold releaseAckedPendingChunks. rewrite Hp, window_released, window_left. set (j := covered a k q). assert (j ≤ k)%nat by (unfold j, covered; lia).
    rewrite window_sum by lia. pose proof (sent_bytes_range a). pose proof (sent_bytes_range (a + j)). rewrite Hs, Hr. cbn [with_progress sTransferred sNextSequence].
    rewrite (swrap_small 64 (sent_bytes (a + j) - sent_bytes a)) by lia. replace (sent_bytes a + (sent_bytes (a + j) - sent_bytes a)) with (sent_bytes (a + j)) by lia.
    rewrite swrap_small by lia. apply (round_spec _ (k - j)). split_and!; cbn [dPending dReads dSession]; [lia|lia|done| |]; replace (a + j + (k - j))%nat with (a + k)%nat by lia; done.
  - rewrite Hp. unfold resendPendingChunks. pose proof (resend_sends (legit a) (omap (fun q => pcFrame <$> window a k !! q) (merge_sort Z.le (map_to_list (window a k)).*1)) 0 (tcount t transferAckTimeouts 1)) as Hsend.
    destruct (resend_loop _ _ _ _) as [[t1 resent] ok]. cbn [fst] in Hsend.
    assert (Hl : sends (legit a) t t1).
    { eapply sends_trans; [by apply (sends_refl _ t (tcount t transferAckTimeouts 1))|]. apply Hsend. intros f (i & Hi & ->)%resent_frames x Hx. left. exists i. split; [lia|done]. }
    set (t2 := if 0 <? resent then _ else _). assert (Hl2 : sends (legit a) t t2) by (eapply sends_trans; [exact Hl|]; unfold t2; destruct (0 <? resent); by apply sends_refl).
    destruct ok; [|split; [|done]; eapply sends_trans; [exact Hl2|by apply sends_refl]].
    pose proof (round_spec a k d t2 Hw) as Hround. destruct (download_round fails d t2) as [[t3 d3] st]. destruct Hround as [Hs3 Hst]. split; [by eapply sends_trans|done].
Qed.

(** ** Without acknowledgements *)

Hypothesis sound : sMethod s0 = USPAgentMethodUpload ∨ sMethod s0 = USPAgentMethodDownload.

Lemma frame_encodes i : (i < length chunks)%nat → ∃ x, EncodeUSPTransferStreamFrame (frame_at i) = Ok x.
Proof.
  intros [c Hc]%lookup_lt_is_Some. assert (Hne : chunk_at i ≠ []).
  { unfold chunk_at. rewrite Hc. by apply Forall_lookup with (i := i) (x := c) in filled. }
  assert (Hv : validateUSPTransferStreamFrame (frame_at i) = Ok ()).
  { unfold validateUSPTransferStreamFrame. cbn [frame_at sfMethod sfPhase sfData]. rewrite (proj2 (Nat.eqb_neq _ _)) by (by destruct (chunk_at i)). by destruct sound as [-> | ->]. }
  unfold EncodeUSPTransferStreamFrame. rewrite Hv. cbn [mbind res_bind]. destruct (compress_runs (sfData (frame_at i))) as [o ->]. by eexists.
Qed.

Lemma resend_all l : (∀ i, fails i = false) → ∀ r t, (∀ f, f ∈ l → ∃ x, EncodeUSPTransferStreamFrame f = Ok x) →
  let '(t', resent, ok) := resend_loop fails l r t in ok = true ∧ resent = r + Z.of_nat (length l) ∧ length (tSent t') = (length (tSent t) + length l)%nat.
Proof.
  intros Hf. induction l as [|f l IH]; intros r t Hl; cbn [resend_loop length]; [lia|]. destruct (Hl f ltac:(left)) as [x Hx].
  pose proof (sendStream_fine fails f t x Hx (Hf _)) as Hok. destruct (sendStream_eq fails f t) as (_ & _ & _ & Hsent). unfold encoding in Hsent. rewrite Hx in Hsent.
  destruct (sendStream fails f t) as [t1 out]. cbn [fst snd] in *. subst out. specialize (IH (r + 1) t1 ltac:(intros g Hg; apply Hl; by right)).
  destruct (resend_loop fails l (r + 1) t1) as [[t' resent] ok]. rewrite Hsent, length_app in IH. cbn [length] in IH. destruct IH as (? & ? & ?). split_and!; [done|lia|lia].
Qed.
Lemma omap_length_all {A B} (f : A → option B) l : (∀ x, x ∈ l → is_Some (f x)) → length (omap f l) = length l.
Proof.
  induction l as [|x l IH]; intros Hl; [done|]. cbn [omap list_omap length]. destruct (Hl x ltac:(left)) as [y ->]. cbn. rewrite IH; [done|]. intros z Hz. apply Hl. by right.
Qed.
Lemma resent_length a k : length (omap (fun q => pcFrame <$> window a k !! q) (merge_sort Z.le (map_to_list (window a k)).*1)) = k.
Proof.
  rewrite omap_length_all.
  - rewrite (Permutation_length (merge_sort_Permutation Z.le _)), length_fmap, length_map_to_list. apply window_size.
  - intros q Hq. rewrite (merge_sort_Permutation Z.le) in Hq. apply list_elem_of_fmap in Hq as ([q' c] & -> & Hin%elem_of_map_to_list). cbn. rewrite Hin. by eexists.
Qed.
Lemma rest_waits a k d t : at_window a k d → at_rest a k → k ≠ 0%nat → download_round fails d t = (t, d, DWaiting).
Proof.
  intros (Hak & Hk & Hp & Hr & Hs) Hrest Hk0. unfold download_round.
  assert (fill_window fails (dReads d) (dSession d) (dPending d) t = (t, d, true)) as ->.
  { destruct d as [s reads pending]. cbn [dReads dSession dPending] in *. subst pending. destruct Hrest as [Hfull|Hend].
    - destruct reads as [|[data e] reads]; cbn [fill_window]; by rewrite window_size, (proj2 (Z.leb_le _ _)) by lia.
    - rewrite Hend, drop_all in Hr. subst reads. cbn [fill_window fmap list_fmap]. by case_match. }
  cbn [negb]. rewrite Hp, window_size. by rewrite (proj2 (Nat.eqb_neq _ _)).
Qed.
(** One acknowledgement timeout after another. *)
Fixpoint timeouts (n : nat) (d : Download) (t : Transfers) : Transfers * Download * download_status :=
  match n with
  | O => (t, d, DWaiting)
  | S n => let '(t, d, st) := download_event fails None d t in match st with DWaiting => timeouts n d t | _ => (t, d, st) end
  end.
Lemma timeout_resends a k d t : (∀ i, fails i = false) → at_window a k d → at_rest a k → k ≠ 0%nat →
  ∃ t', download_event fails None d t = (t', d, DWaiting) ∧ length (tSent t') = (length (tSent t) + k)%nat.
Proof.
  intros Hf Hw Hrest Hk. pose proof Hw as (Hak & _ & Hp & _). unfold download_event, resendPendingChunks. rewrite Hp.
  pose proof (resend_all (omap (fun q => pcFrame <$> window a k !! q) (merge_sort Z.le (map_to_list (window a k)).*1)) Hf 0 (tcount t transferAckTimeouts 1)) as Hr.
  destruct (resend_loop _ _ _ _) as [[t1 resent] ok]. destruct Hr as (-> & _ & Hlen); [intros f (i & Hi & ->)%resent_frames; apply frame_encodes; lia|].
  rewrite resent_length in Hlen. cbn [tcount tSent] in Hlen. eexists. rewrite (rest_waits a k) by done. split; [reflexivity|]. by destruct (0 <? resent).
Qed.

(** A download whose chunks are not acknowledged never ends while sending
    succeeds: after any number of timeouts it still waits, with the same window,
    and has sent all of it again each time.  Once its context has expired, waiting
    takes no time at all, so that it sends its window over and over without pause. *)
Theorem download_never_gives_up a k d t now deadline n : (∀ i, fails i = false) → at_window a k d → at_rest a k → k ≠ 0%nat → deadline ≤ now →
  let '(t', d', st) := timeouts n d t in
  st = DWaiting ∧ d' = d ∧ length (tSent t') = (length (tSent t) + n * k)%nat ∧ ack_wait_ends now deadline = now.
Proof.
  intros Hf Hw Hrest Hk Hnow. assert (Hwait : ack_wait_ends now deadline = now) by (unfold ack_wait_ends; lia).
  revert t. induction n as [|n IH]; intros t; cbn [timeouts]; [split_and!; [done|done|lia|done]|].
  destruct (timeout_resends a k d t Hf Hw Hrest Hk) as (t1 & -> & Hlen). specialize (IH t1). destruct (timeouts n d t1) as [[t' d'] st].
  destruct IH as (-> & -> & Hl & _). split_and!; [done|done|lia|done].
Qed.
End Downloads.

(** ** Both ends *)

(** A download session here, an upload session there, and datagrams between them
    that may be lost, repeated and reordered, padded with up to 15 zeros. *)
Record transfer_net := MkTNet { nSender : Transfers; nDownload : Download; nStatus : download_status; nReceiver : Transfers }.

Section Network.
Context `{UC : UnicodeCase} (failsS failsR : nat → bool) (peerS peerR : bytes) (room : nat) (chunks : list bytes) (s0 : uspTransferSession).
Abbreviation id := (sID s0).

Definition received (payload : bytes) (pad : nat) (f : USPTransferStreamFrame) : Prop :=
  Z.of_nat (length payload + pad) ≤ 65535 ∧ DecodeUSPTransferStreamFrame (payload ++ replicate pad (z2b 0)) = Ok f.
Inductive tnet_step : transfer_net → transfer_net → Prop :=
| net_chunk ts d st tr payload pad f : payload ∈ tSent ts → received payload pad f →
    tnet_step (MkTNet ts d st tr) (MkTNet ts d st (handleTransferStreamFrame failsR room peerR f tr).1)
| net_answer ts d st tr payload pad f : payload ∈ tSent tr → received payload pad f →
    tnet_step (MkTNet ts d st tr) (MkTNet (handleTransferStreamFrame failsS room peerS f ts).1 d st tr)
| net_ack ts d tr s q acks ts' d' st' : tSessions ts !! id = Some s → sAcks s = q :: acks →
    download_event failsS (Some q) d (with_session ts (MkSession (sID s) (sRequestID s) (sMethod s) (sPeer s) (sPath s) (sFile s) (sContent s) (sWriter s)
      (sTotalSize s) (sTransferred s) (sNextSequence s) acks)) = (ts', d', st') →
    tnet_step (MkTNet ts d DWaiting tr) (MkTNet ts' d' st' tr)
| net_timeout ts d tr ts' d' st' : download_event failsS None d ts = (ts', d', st') → tnet_step (MkTNet ts d DWaiting tr) (MkTNet ts' d' st' tr).

Hypothesis few : Z.of_nat (length chunks) + 1 < 2 ^ 32.
Hypothesis filled : Forall (fun c => c ≠ []) chunks.
Hypothesis sizes : Forall (fun c => lenZ c ≤ maxDecodedPayload) chunks.
Hypothesis fits : (length (concat chunks) ≤ room)%nat.
Hypothesis small : Z.of_nat room < 2 ^ 63.
Hypothesis ids : u64_ok (sID s0) ∧ u64_ok (sRequestID s0).
Hypothesis method : sMethod s0 = USPAgentMethodDownload.

Lemma source_small : Z.of_nat (length (concat chunks)) < 2 ^ 63.
Proof. lia. Qed.
Lemma received_is payload pad f g : payload ∈ encoding g → stream_ok g → received payload pad f → f = g.
Proof.
  unfold encoding. destruct (EncodeUSPTransferStreamFrame g) as [e| |] eqn:He; [|by intros ?%elem_of_nil..]. intros ->%list_elem_of_singleton Hok [Hl Hd].
  rewrite (stream_roundtrip_aux g e pad Hok He) in Hd; [by injection Hd as ->|].
  unfold frame_fits. transitivity (128 * 65535); [lia|by vm_compute].
Qed.
Lemma frame_at_ok i : (i < length chunks)%nat → stream_ok (frame_at chunks s0 i).
Proof.
  intros Hi. pose proof (lookup_lt_is_Some_2 _ _ Hi) as [c Hc]. assert (Hs : lenZ (chunk_at chunks i) ≤ maxDecodedPayload).
  { unfold chunk_at. rewrite Hc. by apply Forall_lookup with (i := i) (x := c) in sizes. }
  pose proof (sent_bytes_range chunks source_small i). destruct ids as [? ?].
  split_and!; cbn [frame_at sfSessionID sfRequestID sfMethod sfPhase sfSequence sfAckSequence sfOffset sfTotalSize sfPath sfFilename sfContentType sfData];
    first [done|lia|apply u64_ok_wrap|by rewrite method|by repeat constructor|unfold u64_ok; lia].
Qed.
Lemma complete_ok : stream_ok (complete_frame chunks s0).
Proof.
  pose proof (sent_bytes_range chunks source_small (length chunks)). destruct ids as [? ?]. unfold complete_frame. cbn zeta.
  split_and!; cbn [stream_frame with_progress sID sRequestID sMethod sTransferred sTotalSize sNextSequence sPath sfSessionID sfRequestID sfMethod sfPhase sfSequence sfAckSequence sfOffset sfTotalSize sfPath sfFilename sfContentType sfData];
    first [done|apply u64_ok_wrap|apply (wrap_range 32); lia|by rewrite method|by repeat constructor].
Qed.

(** Payloads of the sender when the receiver has [n] chunks, and the reverse. *)
Definition sender_payload (n : nat) (x : bytes) : Prop := ∃ g, x ∈ encoding g ∧ stream_ok g ∧ sfSessionID g = id ∧
  (sfPhase g = USPTransferStreamOpen ∨ (∃ i, (i < length chunks)%nat ∧ g = frame_at chunks s0 i) ∨ n = length chunks ∧ g = complete_frame chunks s0).
Definition receiver_payload (n : nat) (x : bytes) : Prop := ∃ g, x ∈ encoding g ∧ good_ack id n g.

(** The receiver takes chunks, or has all of them and is done. *)
Definition receiver_ok (n : nat) (tr : Transfers) : Prop :=
  serves peerR id chunks n tr ∨ n = length chunks ∧ id ∉ tStreams tr ∧ ∃ s, tSessions tr !! id = Some s ∧ sContent s = concat chunks.
Record net_ok (n : nat) (w : transfer_net) : Prop := {
  nk_n : (n ≤ length chunks)%nat;
  nk_receiver : receiver_ok n (nReceiver w);
  nk_answers : Forall (receiver_payload n) (tSent (nReceiver w));
  nk_frames : Forall (sender_payload n) (tSent (nSender w));
  nk_session : ∃ s, tSessions (nSender w) !! id = Some s ∧ sID s = id ∧ sMethod s = USPAgentMethodDownload ∧ Forall (fun q => q ≤ Z.of_nat n) (sAcks s);
  nk_window : nStatus w = DWaiting → ∃ a k, at_window chunks s0 a k (nDownload w) ∧ (a ≤ n)%nat;
  nk_done : nStatus w = DDone → n = length chunks }.

Lemma sender_payload_mono n n' x : (n ≤ n' ≤ length chunks)%nat → sender_payload n x → sender_payload n' x.
Proof. intros Hn (g & Hx & Hok & Hid & Hg). exists g. split_and!; try done. destruct Hg as [?|[?|[-> ?]]]; [by left|by right; left|right; right]. split; [lia|done]. Qed.
Lemma receiver_payload_mono n n' x : (n ≤ n')%nat → receiver_payload n x → receiver_payload n' x.
Proof. intros Hn (g & Hx & H1 & H2 & H3 & H4). exists g. split; [done|]. split_and!; try done; lia. Qed.
Lemma legit_payload a n x : (a ≤ n ≤ length chunks)%nat → legit chunks s0 a x → sender_payload n x.
Proof.
  intros Ha [(i & Hi & Hx)|[-> Hx]].
  - exists (frame_at chunks s0 i). split_and!; [done|by apply frame_at_ok|done|]. right. left. by exists i.
  - exists (complete_frame chunks s0). split_and!; [done|apply complete_ok|done|]. right. right. split; [lia|done].
Qed.
Lemma frame_at_honest i : (i < length chunks)%nat → honest id chunks (frame_at chunks s0 i).
Proof. intros [c Hc]%lookup_lt_is_Some. split; [done|]. intros _. exists i. cbn [frame_at sfData sfSequence]. unfold chunk_at. by rewrite Hc. Qed.

(** A frame of the sender reaches the receiver. *)
Lemma receive_keeps n tr g : (n ≤ length chunks)%nat → receiver_ok n tr → Forall (receiver_payload n) (tSent tr) → sfSessionID g = id →
  (sfPhase g = USPTransferStreamOpen ∨ (∃ i, (i < length chunks)%nat ∧ g = frame_at chunks s0 i) ∨ n = length chunks ∧ g = complete_frame chunks s0) →
  let tr' := (handleTransferStreamFrame failsR room peerR g tr).1 in
  ∃ n', (n ≤ n' ≤ length chunks)%nat ∧ receiver_ok n' tr' ∧ Forall (receiver_payload n') (tSent tr').
Proof.
  intros Hn [Hs|(-> & Hout & s & Hs & Hc)] Hp Hid Hg; cbv zeta.
  - assert (Hstep : honest id chunks g → sfPhase g = USPTransferStreamOpen ∨ sfPhase g = USPTransferStreamChunk →
      ∃ n', (n ≤ n' ≤ length chunks)%nat ∧ receiver_ok n' (handleTransferStreamFrame failsR room peerR g tr).1 ∧
        Forall (receiver_payload n') (tSent (handleTransferStreamFrame failsR room peerR g tr).1)).
    { intros Hh Hph. destruct (upload_step failsR peerR id room chunks few fits small n tr g Hs Hh Hph) as (n' & a & Hs' & Hle & _ & Hsent & Hga & _).
      exists n'. pose proof Hs' as (_ & s' & _ & Hok'). pose proof (uo_n _ _ _ _ _ Hok'). split_and!; [done|done|by left|]. rewrite Hsent. apply Forall_app. split.
      - eapply Forall_impl; [exact Hp|]. intros x. by apply receiver_payload_mono.
      - apply Forall_forall. intros x Hx. by exists a. }
    destruct Hg as [Hopen|[(i & Hi & ->)|[Hall ->]]].
    + apply Hstep; [|by left]. split; [done|]. intros Hch. by rewrite Hopen in Hch.
    + apply Hstep; [by apply frame_at_honest|by right].
    + destruct (upload_complete failsR peerR id room chunks few fits small n tr (complete_frame chunks s0) Hs Hid eq_refl) as (s' & a & H1 & H2 & H3 & _ & H4 & _ & H5 & _).
      exists n. rewrite H4. split_and!; [lia|lia| |].
      * right. split; [done|]. rewrite H2, H1, lookup_insert_eq. split; [set_solver|]. exists s'. split; [done|]. rewrite H3. unfold written. by rewrite Hall, firstn_all.
      * apply Forall_app. split; [done|]. apply Forall_forall. intros x Hx. by exists a.
  - exists (length chunks). unfold handleTransferStreamFrame. rewrite Hid, decide_False by done. split_and!; [lia|lia| |done]. right. split; [done|]. split; [done|]. by exists s.
Qed.

(** An answer of the receiver reaches the sender. *)
Lemma answer_keeps n ts g : good_ack id n g → (∃ s, tSessions ts !! id = Some s ∧ sID s = id ∧ sMethod s = USPAgentMethodDownload ∧ Forall (fun q => q ≤ Z.of_nat n) (sAcks s)) →
  let ts' := (handleTransferStreamFrame failsS room peerS g ts).1 in
  tSent ts' = tSent ts ∧ ∃ s, tSessions ts' !! id = Some s ∧ sID s = id ∧ sMethod s = USPAgentMethodDownload ∧ Forall (fun q => q ≤ Z.of_nat n) (sAcks s).
Proof.
  intros (_ & Hid & _ & Hack) (s & Hs & Hsid & Hm & Hq). unfold handleTransferStreamFrame. rewrite Hid.
  destruct (decide _) as [Hin|_]; [|split; [done|by exists s]]. rewrite Hs. destruct (EqualFold _ _); cbn [negb]; [|split; [done|by exists s]].
  rewrite Hm. cbn [Z.eqb Pos.eqb USPAgentMethodUpload USPAgentMethodDownload]. unfold handleDownloadStreamFrame.
  destruct (negb _); [split; [done|by exists s]|]. destruct (_ <? _); [|split; [done|by exists s]]. split; [done|]. cbn [fst with_session tSessions sID]. rewrite Hsid, lookup_insert_eq.
  eexists. split; [reflexivity|]. cbn [sID sMethod sAcks]. split_and!; [done|done|]. apply Forall_app. split; [done|]. constructor; [apply Hack|done].
Qed.

(** The sender's goroutine goes on. *)
Lemma transfer_event_keeps ack n a k d ts ts' d' st' tr : net_ok n (MkTNet ts d DWaiting tr) → at_window chunks s0 a k d → (acknowledged ack a k ≤ n)%nat →
  download_event failsS ack d ts = (ts', d', st') → net_ok n (MkTNet ts' d' st' tr).
Proof.
  intros [N1 N2 N3 N4 N5 N6 N7] Hw Ha He. pose proof (event_spec failsS chunks s0 few filled source_small ack a k d ts Hw) as Hs. rewrite He in Hs.
  destruct Hs as [(Hsess & l & Hl & Hleg) Hst]. split; cbn [nReceiver nSender nDownload nStatus] in *; try done.
  - rewrite Hl. apply Forall_app. split; [done|]. eapply Forall_impl; [exact Hleg|]. intros x. apply legit_payload. lia.
  - by rewrite Hsess.
  - intros ->. destruct Hst as (k' & Hw' & _). by exists (acknowledged ack a k), k'.
  - intros ->. lia.
Qed.

Lemma transfer_net_keeps n w w' : net_ok n w → tnet_step w w' → ∃ n', (n ≤ n')%nat ∧ net_ok n' w'.
Proof.
  intros Hok Hstep. destruct Hstep as [ts d st tr payload pad f Hin Hrec|ts d st tr payload pad f Hin Hrec|ts d tr s q acks ts' d' st' Hs Hacks He|ts d tr ts' d' st' He].
  - destruct Hok as [N1 N2 N3 N4 N5 N6 N7]. cbn [nReceiver nSender nDownload nStatus] in *. pose proof (proj1 (Forall_forall _ _) N4 _ Hin) as (g & Hx & Hg & Hid & Hcase).
    rewrite (received_is _ _ _ _ Hx Hg Hrec). destruct (receive_keeps n tr g N1 N2 N3 Hid Hcase) as (n' & Hn' & Hr & Hp). exists n'. split; [lia|].
    split; cbn [nReceiver nSender nDownload nStatus]; try done; [lia| | | |].
    + eapply Forall_impl; [exact N4|]. intros x. by apply sender_payload_mono.
    + destruct N5 as (s & H1 & H2 & H3 & H4). exists s. split_and!; try done. eapply Forall_impl; [exact H4|]. intros q. cbn. lia.
    + intros Hst. destruct (N6 Hst) as (a & k & Hw & Ha). exists a, k. split; [done|lia].
    + intros Hst. specialize (N7 Hst). lia.
  - destruct Hok as [N1 N2 N3 N4 N5 N6 N7]. cbn [nReceiver nSender nDownload nStatus] in *. pose proof (proj1 (Forall_forall _ _) N3 _ Hin) as (g & Hx & Hg).
    rewrite (received_is _ _ _ _ Hx (proj1 Hg) Hrec). destruct (answer_keeps n ts g Hg N5) as [Hsent Hsess]. exists n. split; [lia|].
    split; cbn [nReceiver nSender nDownload nStatus]; try done. by rewrite Hsent.
  - pose proof (nk_window _ _ Hok eq_refl) as (a & k & Hw & Ha). cbn [nDownload] in Hw. exists n. split; [lia|]. pose proof (nk_session _ _ Hok) as (s' & Hs' & Hid & Hm & Hq).
    cbn [nSender] in Hs'. rewrite Hs in Hs'. injection Hs' as <-. rewrite Hacks in Hq. apply Forall_cons in Hq as [Hq Hrest].
    eapply (transfer_event_keeps (Some q) n a k); [|exact Hw| |exact He].
    + destruct Hok as [N1 N2 N3 N4 N5 N6 N7]. split; cbn [nReceiver nSender nDownload nStatus with_session tSent tSessions sID] in *; try done.
      rewrite Hid, lookup_insert_eq. eexists. split; [reflexivity|]. cbn. by split_and!.
    + cbn [acknowledged]. unfold covered. lia.
  - pose proof (nk_window _ _ Hok eq_refl) as (a & k & Hw & Ha). exists n. split; [lia|]. by eapply (transfer_event_keeps None n a k).
Qed.

Context (contentType path filename : bytes).
Hypothesis named : Forall (fun s => blank s = true → s = []) [path; filename; contentType].
Hypothesis fresh : sTransferred s0 = 0 ∧ sNextSequence s0 = 1 ∧ sAcks s0 = [].

(** Both sessions have just been set up. *)
Definition net_begins (w : transfer_net) : Prop :=
  ∃ ts, tSent ts = [] ∧ tSessions ts !! id = Some s0 ∧ tSent (nReceiver w) = [] ∧ serves peerR id chunks 0 (nReceiver w) ∧
    download_start failsS true contentType path filename s0 ((fun c => (c, RNil)) <$> chunks) ts = (nSender w, nDownload w, nStatus w).

Lemma start_window : at_window chunks s0 0 0 (MkDownload s0 ((fun c => (c, RNil)) <$> chunks) ∅).
Proof.
  destruct fresh as (H1 & H2 & H3). split_and!; cbn [dPending dReads dSession]; [lia|done|done|done|].
  transitivity (with_progress s0 (sTransferred s0) (sNextSequence s0)); [by case s0|by rewrite H1, H2].
Qed.
Lemma begins_ok w : net_begins w → net_ok 0 w.
Proof.
  intros (ts & Hsent & Hsess & Hr & Hserves & Hstart). unfold download_start in Hstart. cbn [negb] in Hstart.
  set (o := MkStreamFrame _ _ _ USPTransferStreamOpen _ _ _ _ _ _ _ _ _ _) in Hstart. destruct (sendStream_eq failsS o ts) as (H1 & _ & _ & H4).
  pose proof (round_spec failsS chunks s0 few filled source_small 0 0 _ (sendStream failsS o ts).1 start_window) as Hround. rewrite Hstart in Hround.
  destruct Hround as [(Hses & l & Hl & Hleg) Hst]. destruct fresh as (F1 & F2 & F3). rewrite H4, Hsent in Hl.
  assert (Hopen : stream_ok o).
  { destruct ids as [I1 I2]. unfold o. split_and!; cbn [sfSessionID sfRequestID sfMethod sfPhase sfSequence sfAckSequence sfOffset sfTotalSize sfPath sfFilename sfContentType sfData];
      first [done|lia|apply u64_ok_wrap|by rewrite method]. }
  split; [lia|by left|by rewrite Hr| | | |].
  - rewrite Hl. apply Forall_app. split.
    + apply Forall_forall. intros x Hx. exists o. split_and!; [done|done|done|by left].
    + eapply Forall_impl; [exact Hleg|]. intros x. apply legit_payload. lia.
  - rewrite Hses, H1. exists s0. split_and!; [done|done|done|]. by rewrite F3.
  - intros Hw. rewrite Hw in Hst. destruct Hst as (k & Hk & _). by exists 0%nat, k.
  - intros Hd. rewrite Hd in Hst. lia.
Qed.

End Network.

(** ** Opening a session *)

(** An upload request that is accepted registers a session of its own, under a new
    ID and for the peer that asked, which takes the chunks of any file. *)
Lemma upload_request_opens `{UnicodeCase} `{Schema} {B} os dir peer req reply (r r' : uspRuntime B) t t' s chunks :
  handleTransferControlRequest os dir peer req reply r t = (r', t', Some s, Ok ()) → qMethod req = USPAgentMethodUpload → EqualFold peer peer = true →
  0 ≤ rNextID r → rNextID r + 1 < 2 ^ 64 → u64_ok (qID req) →
  sID s = rNextID r + 1 ∧ serves peer (sID s) chunks 0 t' ∧ tStreams t' = {[sID s]} ∪ tStreams t ∧ ∀ id, id ≠ sID s → tSessions t' !! id = tSessions t !! id.
Proof.
  intros Hh Hm Hpeer Hlo Hhi Hid. unfold handleTransferControlRequest in Hh. destruct (qTransfer req) as [tr|]; [|by case_match].
  destruct reply as [reply|]; [|done]. rewrite Hm in Hh. change (USPAgentMethodUpload =? USPAgentMethodUpload) with true in Hh. cbn [orb negb] in Hh.
  unfold startUploadSession in Hh. destruct (osCreate os _) as [u|e|]; [|by case_match|done]. destruct (replyControlResponse _ _ _ _) as [r1 out]. destruct out as [v|e|]; [|done..].
  injection Hh as <- <- <-. rewrite wrap_small by lia. cbn [sID]. split; [done|]. split; [|split].
  - split; [cbn; set_solver|]. eexists. split; [cbn; apply lookup_insert_eq|]. rewrite Hm.
    split; cbn [sID sRequestID sMethod sPeer sNextSequence sFile sWriter sContent sTransferred default from_option Datatypes.id wErr wBuf app]; try done; [split; [split; lia|done]|lia|cbn; lia].
  - done.
  - intros id Hne. cbn. by rewrite lookup_insert_ne.
Qed.

(** ** Witnesses *)

#[local] Instance plain_case : UnicodeCase := {| unicode_ToLower s := s; unicode_EqualFold s t := bool_decide (s = t) |}.
Definition never : nat → bool := fun _ => false.
Definition up_session : uspTransferSession := MkSession 7 3 USPAgentMethodUpload (bs "AB") (bs "/tmp/x") true [] (Some (MkWriter [] false)) 6 0 1 [].
Definition idle (s : uspTransferSession) : Transfers := MkTransfers {[sID s := s]} {[sID s]} (fun _ => 0) [] [].
Definition up_chunks : list bytes := [bs "ab"; bs "cd"; bs "ef"].
Definition up_frame (phase seq : Z) (data : bytes) : USPTransferStreamFrame := MkStreamFrame 7 3 USPAgentMethodUpload phase seq 0 0 6 [] [] [] ∅ data false.
Definition up_frames : list USPTransferStreamFrame :=
  [up_frame USPTransferStreamOpen 0 []; up_frame USPTransferStreamChunk 2 (bs "cd"); up_frame USPTransferStreamChunk 1 (bs "ab");
   up_frame USPTransferStreamChunk 1 (bs "ab"); up_frame USPTransferStreamChunk 2 (bs "cd")].
Lemma up_serves : serves (bs "ab") 7 up_chunks 0 (idle up_session).
Proof. split; [set_solver|]. exists up_session. split; [reflexivity|]. split; try reflexivity; [split; split; vm_compute; first [discriminate|reflexivity]|apply Nat.leb_le; reflexivity..]. Qed.

Lemma upload_in_order_witness : ∃ n s, let t' := (handleTransferStreamFrame never 100 (bs "ab") (up_frame USPTransferStreamComplete 0 []) (upload_run never (bs "ab") 100 up_frames (idle up_session))).1 in
  tSessions t' !! 7 = Some s ∧ sContent s = concat (take n up_chunks) ∧ (2 ≤ n)%nat ∧ sContent s = bs "abcd".
Proof.
  destruct (upload_in_order never (bs "ab") 7 100 up_chunks) with (frames := up_frames) (t := idle up_session) (f := up_frame USPTransferStreamComplete 0 []) as (n & s & g & H1 & H2 & _ & _ & _ & _ & _ & _ & H3).
  - cbn. lia.
  - cbn. lia.
  - lia.
  - exact up_serves.
  - reflexivity.
  - reflexivity.
  - unfold up_frames. repeat constructor; cbn; try discriminate; try (left; reflexivity); try (right; reflexivity); intros _; [exists 1%nat|exists 0%nat|exists 0%nat|exists 1%nat]; split; reflexivity.
  - exists n, s. cbv zeta. split; [exact H1|]. split; [exact H2|]. split; [apply H3; vm_compute; repeat constructor|].
    revert H1. vm_compute. intros [= <-]. reflexivity.
Defined.

Lemma upload_race_corrupts_witness : ∃ s2, open_for s2 (bs "abab") ∧
  ∃ t2, handleUploadStreamFrame never 100 s2 (up_frame USPTransferStreamChunk 2 (bs "cd")) t2 = sendStream never (ack_frame s2 2 false) t2.
Proof.
  destruct (upload_race_corrupts never 100 up_session (up_frame USPTransferStreamChunk 1 (bs "ab")) (up_frame USPTransferStreamChunk 2 (bs "cd")) (idle up_session) [])
    as (s1 & s2 & _ & _ & Ho & Hr).
  - repeat split. apply Nat.leb_le. reflexivity.
  - cbn. lia.
  - cbn. lia.
  - reflexivity.
  - reflexivity.
  - reflexivity.
  - exists s2. split; [exact Ho|]. eexists. exact Hr.
Defined.

Definition down_session : uspTransferSession := MkSession 7 3 USPAgentMethodDownload (bs "ab") (bs "/etc/x") false [] None 5 0 1 [].
Definition down_chunks : list bytes := [bs "hello"].
Definition down_start := download_start never true [] (bs "Device.x") (bs "x") down_session ((fun c => (c, RNil)) <$> down_chunks) (idle down_session).
Definition down_waits : Download := down_start.1.2.
Lemma down_window : at_window down_chunks down_session 0 1 down_waits.
Proof. split_and!; [cbn; lia|vm_compute; discriminate|vm_compute; reflexivity..]. Qed.
Lemma down_started : down_start = (down_start.1.1, down_waits, DWaiting).
Proof. assert (H : down_start.2 = DWaiting) by (vm_compute; reflexivity). unfold down_waits. rewrite <- H. by destruct down_start as [[? ?] ?]. Qed.
Lemma down_filled : Forall (fun c => c ≠ []) down_chunks.
Proof. repeat constructor. discriminate. Qed.

Lemma download_never_gives_up_witness : let '(t', d', st) := timeouts never 100 down_waits down_start.1.1 in st = DWaiting ∧ d' = down_waits ∧ length (tSent t') = 102%nat.
Proof.
  pose proof (download_never_gives_up never down_chunks down_session) as H.
  assert (Hlen : length (tSent down_start.1.1) = 2%nat) by (vm_compute; reflexivity).
  specialize (H down_filled ltac:(right; reflexivity) 0%nat 1%nat down_waits down_start.1.1 0 0 100%nat ltac:(reflexivity) down_window ltac:(right; reflexivity) ltac:(discriminate) ltac:(lia)).
  destruct (timeouts never 100 down_waits down_start.1.1) as [[t' d'] st]. destruct H as (Hs & Hd & Hl & _). split; [exact Hs|]. split; [exact Hd|]. rewrite Hl, Hlen. reflexivity.
Defined.

(** A file of one chunk: it is received, acknowledged, and completed. *)
Definition rx_session : uspTransferSession := MkSession 7 3 USPAgentMethodUpload (bs "cd") (bs "/tmp/y") true [] None 5 0 1 [].
Definition payload_at (i : nat) (t : Transfers) : bytes := nth i (tSent t) [].
Definition frame_of (x : bytes) : USPTransferStreamFrame := match DecodeUSPTransferStreamFrame x with Ok f => f | _ => up_frame 0 0 [] end.
Definition rx1 : Transfers := (handleTransferStreamFrame never 100 (bs "cd") (frame_of (payload_at 1 down_start.1.1)) (idle rx_session)).1.
Definition tx1 : Transfers := (handleTransferStreamFrame never 100 (bs "ab") (frame_of (payload_at 0 rx1)) down_start.1.1).1.
Definition tx_session : uspTransferSession := default down_session (tSessions tx1 !! 7).
Definition tx2 := download_event never (Some 1) down_waits (with_session tx1 (MkSession (sID tx_session) (sRequestID tx_session) (sMethod tx_session) (sPeer tx_session) (sPath tx_session)
  (sFile tx_session) (sContent tx_session) (sWriter tx_session) (sTotalSize tx_session) (sTransferred tx_session) (sNextSequence tx_session) [])).
Definition rx2 : Transfers := (handleTransferStreamFrame never 100 (bs "cd") (frame_of (payload_at 2 tx2.1.1)) rx1).1.
Abbreviation demo_step := (tnet_step never never (bs "ab") (bs "cd") 100 down_session).

Lemma demo_received i t : (i < length (tSent t))%nat → Z.of_nat (length (payload_at i t)) ≤ 65535 → DecodeUSPTransferStreamFrame (payload_at i t) = Ok (frame_of (payload_at i t)) →
  payload_at i t ∈ tSent t ∧ received (payload_at i t) 0 (frame_of (payload_at i t)).
Proof.
  intros Hi Hl Hd. split; [apply list_elem_of_In, nth_In; exact Hi|]. split; [by rewrite Nat.add_0_r|]. cbn [replicate]. by rewrite app_nil_r.
Qed.
Ltac demo_received := apply demo_received; [apply Nat.ltb_lt; vm_compute; reflexivity|vm_compute; discriminate|vm_compute; reflexivity].
Lemma demo_transfer : rtc demo_step (MkTNet down_start.1.1 down_waits DWaiting (idle rx_session)) (MkTNet tx2.1.1 tx2.1.2 tx2.2 rx2).
Proof.
  assert (H1 : payload_at 1 down_start.1.1 ∈ tSent down_start.1.1 ∧ received (payload_at 1 down_start.1.1) 0 (frame_of (payload_at 1 down_start.1.1))) by demo_received.
  assert (H2 : payload_at 0 rx1 ∈ tSent rx1 ∧ received (payload_at 0 rx1) 0 (frame_of (payload_at 0 rx1))) by demo_received.
  assert (H3 : payload_at 2 tx2.1.1 ∈ tSent tx2.1.1 ∧ received (payload_at 2 tx2.1.1) 0 (frame_of (payload_at 2 tx2.1.1))) by demo_received.
  eapply rtc_l; [exact (net_chunk never never (bs "ab") (bs "cd") 100 down_session down_start.1.1 down_waits DWaiting (idle rx_session) _ 0 _ (proj1 H1) (proj2 H1))|]. fold rx1.
  eapply rtc_l; [exact (net_answer never never (bs "ab") (bs "cd") 100 down_session down_start.1.1 down_waits DWaiting rx1 _ 0 _ (proj1 H2) (proj2 H2))|]. fold tx1.
  assert (Hs : tSessions tx1 !! sID down_session = Some tx_session) by (vm_compute; reflexivity).
  assert (Ha : sAcks tx_session = [1]) by (vm_compute; reflexivity).
  eapply rtc_l; [eapply (net_ack never never (bs "ab") (bs "cd") 100 down_session tx1 down_waits rx1 tx_session 1 [] tx2.1.1 tx2.1.2 tx2.2 Hs Ha); fold tx2; destruct tx2 as [[? ?] ?]; reflexivity|].
  eapply rtc_l; [exact (net_chunk never never (bs "ab") (bs "cd") 100 down_session tx2.1.1 tx2.1.2 tx2.2 rx1 _ 0 _ (proj1 H3) (proj2 H3))|]. fold rx2. apply rtc_refl.
Qed.

