(* ===== verification/ModelCache.v ===== *)
(** * The data model cache

    src/internal/agent/usp_cache.go: the snapshot the agent answers reads from,
    its file, and the sweeps of the platform that refresh it.  The pure part (what
    a patch, a selection and a refreshed snapshot contain) comes first, then the
    operations on the cache's fields, then the whole as a transition system: every
    goroutine is cut where it takes the cache's mutex, calls the platform or
    writes a file, and [step] runs one such piece.  What the platform and the
    file system answer are arguments of the events. *)

From S2P Require Import Prelude GoStr Wire Codec Transport Request DeviceModel UspAgent.

(** ** Snapshots *)

Definition cloneCachedMessage (msg : option Message) : Message :=
  match msg with None => MkMessage [] None [] | Some m => MkMessage (DeviceID m) (Timestamp m) (Fields m) end.
Definition with_fields (m : Message) (fs : list Field) : Message := MkMessage (DeviceID m) (Timestamp m) fs.

(** byPath[field.Path] = i for every field: the last one wins. *)
Fixpoint index_from (i : nat) (fs : list Field) (byPath : gmap bytes nat) : gmap bytes nat :=
  match fs with [] => byPath | f :: fs => index_from (S i) fs (<[Path f := i]> byPath) end.
Definition index_by_path (fs : list Field) : gmap bytes nat := index_from 0 fs ∅.

(** out.Fields[i] = field, or append; [keep] tells when the field at i stays. *)
Definition put_field (keep : Field → bool) (s : gmap bytes nat * list Field) (f : Field) : gmap bytes nat * list Field :=
  match s.1 !! Path f with
  | Some i => match s.2 !! i with
              | Some old => if keep old then s else (s.1, <[i := f]> s.2)
              | None => s
              end
  | None => (<[Path f := length s.2]> s.1, s.2 ++ [f])
  end.

Definition merge_field (s : gmap bytes nat * list Field) (f : Field) : gmap bytes nat * list Field :=
  let f := trim_field f in
  if (length (Path f) =? 0)%nat then s else put_field (fun _ => false) s f.
Definition mergeCachedMessageFields (msg : option Message) (fields : list Field) : Message :=
  let out := cloneCachedMessage msg in
  with_fields out (foldl merge_field (index_by_path (Fields out), Fields out) fields).2.

Definition requested_field (requested : bytes) (f : Field) : bool :=
  bool_decide (requested = Path f) || HasSuffix requested (bs ".") && HasPrefix (Path f) requested.
Fixpoint subset_fields (requested : bytes) (fs : list Field) (s : gset bytes * list Field) : gset bytes * list Field :=
  match fs with
  | [] => s
  | f :: fs =>
      subset_fields requested fs
        (if negb (requested_field requested f) then s
         else if bool_decide (Path f ∈ s.1) then s
         else ({[Path f]} ∪ s.1, s.2 ++ [f]))
  end.
Definition subsetCachedMessage (msg : Message) (paths : list bytes) : Message :=
  match paths with
  | [] => msg
  | _ => with_fields msg (foldl (fun s requested => subset_fields (TrimSpace requested) (Fields msg) s) (∅, []) paths).2
  end.

Definition cellularSnapshotPrefixes : list bytes :=
  [bs "Device.Cellular."; bs "Device.TrustedElements.SIM."; bs "Device.WUSP_CellularTelemetry.";
   bs "Device.WUSP_CellularControl."; bs "Device.WUSP_GNSS."; bs "Device.DeviceInfo.Location.1."].
Definition hasSnapshotPrefix (path : bytes) (prefixes : list bytes) : bool := existsb (HasPrefix path) prefixes.
Definition countCellularSnapshotFields (msg : Message) : nat :=
  length (List.filter (fun f => hasSnapshotPrefix (Path f) cellularSnapshotPrefixes) (Fields msg)).
Definition indexed_cellular (path : bytes) : bool :=
  HasPrefix path (bs "Device.Cellular.Interface.") || HasPrefix path (bs "Device.WUSP_CellularTelemetry.Interface.")
  || HasPrefix path (bs "Device.WUSP_CellularControl.Interface.") || HasPrefix path (bs "Device.WUSP_GNSS.Receiver.").
Definition hasIndexedCellularSnapshot (msg : Message) : bool := existsb (fun f => indexed_cellular (Path f)) (Fields msg).
Definition isSMSInboxJSONPath (path : bytes) : bool :=
  HasPrefix path (bs "Device.WUSP_CellularControl.Interface.") && HasSuffix path (bs ".SMSInboxJSON").

(** The first segment below the telemetry interfaces, of a path that has two. *)
Definition telemetry_prefix : bytes := bs "Device.WUSP_CellularTelemetry.Interface.".
Definition stale_index (path : bytes) : option bytes :=
  if negb (HasPrefix path telemetry_prefix) then None
  else match Split (TrimPrefix path telemetry_prefix) dot with
       | p :: _ :: _ => if (length p =? 0)%nat then None else Some p
       | _ => None
       end.
Definition staleInterfaces (previous : Message) : gset bytes := list_to_set (omap (stale_index ∘ Path) (Fields previous)).

(** Counts of values and of the objects they belong to. *)
Definition counted_path (f : Field) : option bytes := let path := TrimSpace (Path f) in if (length path =? 0)%nat then None else Some path.
Definition object_of (path : bytes) : option bytes :=
  let i := LastIndexByte path dot in if 0 <? i then Some (take (Z.to_nat (i + 1)) path) else None.
Definition dataModelMessageCounts (msg : Message) : nat * nat :=
  let paths := omap counted_path (Fields msg) in (size (list_to_set (omap object_of paths) : gset bytes), length paths).

Section Snapshots.
Context `{UnicodeCase} `{Schema}.
(** The order in which a [for range] visits a set. *)
Context (irange : gset bytes → list bytes).

Definition EncodeMessageLZ4 (msg : Message) : res werr bytes := encodeMessageValidated msg true.

Definition cellularDiscoveryState (msg : Message) : bytes :=
  let '(value, ok) := Message_Get msg (bs "Device.WUSP_CellularTelemetry.DiscoveryState") in
  if ok then TrimSpace (ValueToString value) else [].

(** The three loops of preserveLastCompleteCellularSnapshot. *)
Definition missing_cellular (previous current : Message) : list Field :=
  let seen : gset bytes := list_to_set (Path <$> Fields current) in
  List.filter (fun f => hasSnapshotPrefix (Path f) cellularSnapshotPrefixes && negb (bool_decide (Path f ∈ seen))) (Fields previous).
Definition entry_count (path : bytes) : bool := HasSuffix path (bs "NumberOfEntries") && hasSnapshotPrefix path cellularSnapshotPrefixes.
Definition restore_count (m : Message) (f : Field) : Message :=
  if entry_count (Path f) then Message_Set schema_registry m (Path f) (Val f) else m.
Definition mark_stale (m : Message) (index : bytes) : Message :=
  let m := Message_Set schema_registry m (bs "Device.WUSP_CellularTelemetry.Interface." ++ index ++ bs ".Presence") (VString (bs "Stale")) in
  let m := Message_Set schema_registry m (bs "Device.Cellular.Interface." ++ index ++ bs ".Enable") (VBool false) in
  Message_Set schema_registry m (bs "Device.Cellular.Interface." ++ index ++ bs ".Status") (VString (bs "Unknown")).
Definition preserveLastCompleteCellularSnapshot (previous current : Message) : Message :=
  if negb (hasIndexedCellularSnapshot previous) || hasIndexedCellularSnapshot current then current
  else if EqualFold (cellularDiscoveryState current) (bs "Absent") then current
  else
    let merged := with_fields current (Fields current ++ missing_cellular previous current) in
    let merged := foldl restore_count merged (Fields previous) in
    foldl mark_stale merged (irange (staleInterfaces previous)).

Definition blank_field (f : Field) : bool := blank (ValueToString (Val f)).
Definition previousInbox (previous : Message) : list Field :=
  List.filter (fun f => isSMSInboxJSONPath (Path f) && negb (blank_field f)) (Fields previous).
Definition preserveLastSMSInboxSnapshot (previous current : Message) : Message :=
  match previousInbox previous with
  | [] => current
  | inbox => with_fields current (foldl (put_field (fun old => negb (blank_field old))) (index_by_path (Fields current), Fields current) inbox).2
  end.
Definition refreshed_message (previous current : Message) : Message :=
  preserveLastSMSInboxSnapshot previous (preserveLastCompleteCellularSnapshot previous current).
End Snapshots.

(** ** The file *)

Abbreviation files := (gmap bytes bytes).

(** What the operating system answers during one save: the name of the temporary
    file, the number of bytes written when the write fails, whether closing,
    each attempt to rename, and removing fail. *)
Record save_io := MkSaveIO
  { ioWindows : bool; ioMkdir : bool; ioTemp : option bytes; ioWrite : option nat; ioClose : bool; ioRename : nat → bool; ioRemove : bool }.

Fixpoint rename_loop (io : save_io) (attempts attempt : nat) : bool :=
  match attempts with
  | O => false
  | S attempts => ioRename io attempt || (ioWindows io && rename_loop io attempts (S attempt))
  end.
Definition replaceFile (io : save_io) (path data : bytes) (fs : files) : files * bool :=
  match ioTemp io with
  | None => (fs, false)
  | Some name =>
      let fs := <[name := match ioWrite io with None => data | Some n => take n data end]> fs in
      let written := match ioWrite io with None => ioClose io | Some _ => false end in
      if written && rename_loop io 5 0 then (<[path := default [] (fs !! name)]> (delete name fs), true)
      else (if ioRemove io then delete name fs else fs, false)
  end.
Definition writeCacheAtomically (io : save_io) (path data : bytes) (fs : files) : files * bool :=
  if ioMkdir io then replaceFile io path data fs else (fs, false).

(** ** The cache *)

Inductive cerr :=
| CCollect (e : berr)
| CEmpty
| CEncode (e : werr)
| CCommit.
#[export] Instance berr_eq_dec : EqDecision berr.
Proof. solve_decision. Defined.
#[export] Instance werr_eq_dec : EqDecision werr.
Proof. solve_decision. Defined.
#[export] Instance cerr_eq_dec : EqDecision cerr.
Proof. solve_decision. Defined.

(** [lastRefresh] and [watchedUntil] are [None] for the zero time. *)
Record cache := MkCache
  { msg : option Message; refreshing : bool; refreshDone : nat; rerun : bool; lastRefresh : option Z; watchedUntil : option Z;
    lastRefreshErr : option cerr; changeObserver : bool }.
Record refreshStatus := MkStatus { sReady : bool; sFieldCount : nat; sCellularFieldCount : nat; sError : option cerr }.

Definition nanoseconds : Z := 1000000000.
Definition dataModelCacheWatchedRefresh : Z := 15 * nanoseconds.
Definition dataModelCacheWatchWindow : Z := 120 * nanoseconds.
Definition dataModelCacheSettleDelay : Z := 4 * nanoseconds.

Definition with_msg (c : cache) (m : option Message) : cache :=
  MkCache m (refreshing c) (refreshDone c) (rerun c) (lastRefresh c) (watchedUntil c) (lastRefreshErr c) (changeObserver c).
Definition MarkWatched (now : Z) (c : cache) : cache :=
  MkCache (msg c) (refreshing c) (refreshDone c) (rerun c) (lastRefresh c) (Some (now + dataModelCacheWatchWindow)) (lastRefreshErr c) (changeObserver c).
Definition SetChangeObserver (observer : bool) (c : cache) : cache :=
  MkCache (msg c) (refreshing c) (refreshDone c) (rerun c) (lastRefresh c) (watchedUntil c) (lastRefreshErr c) observer.

(** time.Duration saturates. *)
Definition Time_Sub (now : Z) (t : option Z) : Z :=
  match t with None => 2 ^ 63 - 1 | Some t => Z.max (- 2 ^ 63) (Z.min (2 ^ 63 - 1) (now - t)) end.
Definition Before (now : Z) (t : option Z) : bool := match t with None => false | Some t => now <? t end.
Definition cache_interval (interval : Z) : Z := if interval <=? 0 then 60 * nanoseconds else interval.
Definition refresh_tick (interval : Z) : Z := Z.min interval dataModelCacheWatchedRefresh.
Definition refreshDue (interval now : Z) (c : cache) : bool :=
  let period := if Before now (watchedUntil c) && (dataModelCacheWatchedRefresh <? interval) then dataModelCacheWatchedRefresh else interval in
  period - dataModelCacheWatchedRefresh / 2 <=? Time_Sub now (lastRefresh c).

(** beginRefresh with the channel it makes. *)
Definition beginRefresh (done : nat) (c : cache) : cache * (nat * bool) :=
  if refreshing c then (c, (refreshDone c, false))
  else (MkCache (msg c) true done (rerun c) (lastRefresh c) (watchedUntil c) None (changeObserver c), (done, true)).
(** The critical section of refreshSoon, refreshAfterMutation and the settle timer. *)
Definition want_rerun (c : cache) : cache :=
  MkCache (msg c) (refreshing c) (refreshDone c) (refreshing c || rerun c) (lastRefresh c) (watchedUntil c) (lastRefreshErr c) (changeObserver c).
(** The critical section of refreshOwned's deferred function; returns rerun. *)
Definition end_refresh (now : Z) (err : option cerr) (c : cache) : cache * bool :=
  (MkCache (msg c) false (refreshDone c) false (Some now) (watchedUntil c) err (changeObserver c), rerun c).

Definition has_snapshot (c : cache) : bool := match msg c with None => false | Some m => negb (length (Fields m) =? 0)%nat end.
(** Collect on a warm cache; [None] sends the caller to ensureSnapshot. *)
Definition Collect_warm (paths : list bytes) (c : cache) : option Message :=
  if has_snapshot c then Some (subsetCachedMessage (cloneCachedMessage (msg c)) paths) else None.
(** ensureSnapshot after the joined sweep has ended. *)
Definition joined_outcome (c : cache) : res cerr () :=
  match lastRefreshErr c with Some e => Err e | None => if has_snapshot c then Ok () else Err CEmpty end.
Definition Collect_after (outcome : res cerr ()) (paths : list bytes) (c : cache) : res cerr Message :=
  _ ← outcome;
  match Collect_warm paths c with Some m => Ok m | None => Err CEmpty end.
Definition cache_Value (path : bytes) (c : cache) : Value * bool :=
  match msg c with None => (Null, false) | Some m => Message_Get m path end.

(** Patch up to the file: the merged snapshot. *)
Definition patch_memory (patch : Message) (c : cache) : cache * option Message :=
  match Fields patch with
  | [] => (c, None)
  | fields => let merged := mergeCachedMessageFields (msg c) fields in (with_msg c (Some (cloneCachedMessage (Some merged))), Some merged)
  end.

(** ** Goroutines *)

(** refreshOwned between its effects: waiting for the platform, with the message
    to save, with the message to publish, about to run the deferred function. *)
Inductive sweep_stage :=
| Collecting
| Saving (previous current : Message) (encoded : bytes)
| Publishing (previous current : Message)
| Ending (err : option cerr).
Record sweep := MkSweep { wDone : nat; wFields : nat; wCellular : nat; wStage : sweep_stage }.
(** Set, Delete and Add after the platform has accepted the change. *)
Inductive write_stage :=
| ToPatch (patch : Message)
| ToSave (encoded : bytes)
| ToRefresh.

(** [clock] counts steps, [requested] and [begun] are the times of the last
    request for a refresh and of the beginning of the last sweep, [collections]
    counts sweeps: these four are not in the code. *)
Record sys := MkSys
  { sCache : cache; fs : files; status : option refreshStatus; nextDone : nat; closed : gset nat; sweeps : list sweep; writers : list write_stage;
    async : nat; timers : nat; waiters : list nat; observed : list (Message * Message);
    clock : nat; requested : nat; begun : nat; collections : nat }.

Inductive ev :=
| EvSet (path : bytes) (v : Value)
| EvMutate
| EvPatch (i : nat)
| EvSave (i : nat) (io : save_io)
| EvReturn (i : nat)
| EvSettle
| EvTick (now : Z)
| EvAsync
| EvRefreshSoon
| EvRefresh
| EvCold
| EvResume (k : nat)
| EvGiveUp (k : nat)
| EvCollected (i : nat) (r : res berr (option Message))
| EvWritten (i : nat) (io : save_io)
| EvPublish (i : nat)
| EvEnd (i : nat) (saved : bool) (now : Z)
| EvWatch (now : Z).

Definition with_model_cache (s : sys) (c : cache) : sys :=
  MkSys c (fs s) (status s) (nextDone s) (closed s) (sweeps s) (writers s) (async s) (timers s) (waiters s) (observed s) (clock s) (requested s) (begun s) (collections s).
Definition with_fs (s : sys) (f : files) : sys :=
  MkSys (sCache s) f (status s) (nextDone s) (closed s) (sweeps s) (writers s) (async s) (timers s) (waiters s) (observed s) (clock s) (requested s) (begun s) (collections s).
Definition with_sweeps (s : sys) (l : list sweep) : sys :=
  MkSys (sCache s) (fs s) (status s) (nextDone s) (closed s) l (writers s) (async s) (timers s) (waiters s) (observed s) (clock s) (requested s) (begun s) (collections s).
Definition with_writers (s : sys) (l : list write_stage) : sys :=
  MkSys (sCache s) (fs s) (status s) (nextDone s) (closed s) (sweeps s) l (async s) (timers s) (waiters s) (observed s) (clock s) (requested s) (begun s) (collections s).
Definition with_async (s : sys) (n : nat) : sys :=
  MkSys (sCache s) (fs s) (status s) (nextDone s) (closed s) (sweeps s) (writers s) n (timers s) (waiters s) (observed s) (clock s) (requested s) (begun s) (collections s).
Definition with_timers (s : sys) (n : nat) : sys :=
  MkSys (sCache s) (fs s) (status s) (nextDone s) (closed s) (sweeps s) (writers s) (async s) n (waiters s) (observed s) (clock s) (requested s) (begun s) (collections s).
Definition with_waiters (s : sys) (l : list nat) : sys :=
  MkSys (sCache s) (fs s) (status s) (nextDone s) (closed s) (sweeps s) (writers s) (async s) (timers s) l (observed s) (clock s) (requested s) (begun s) (collections s).
Definition with_observed (s : sys) (l : list (Message * Message)) : sys :=
  MkSys (sCache s) (fs s) (status s) (nextDone s) (closed s) (sweeps s) (writers s) (async s) (timers s) (waiters s) l (clock s) (requested s) (begun s) (collections s).
Definition with_status (s : sys) (st : option refreshStatus) : sys :=
  MkSys (sCache s) (fs s) st (nextDone s) (closed s) (sweeps s) (writers s) (async s) (timers s) (waiters s) (observed s) (clock s) (requested s) (begun s) (collections s).
Definition with_closed (s : sys) (x : gset nat) : sys :=
  MkSys (sCache s) (fs s) (status s) (nextDone s) x (sweeps s) (writers s) (async s) (timers s) (waiters s) (observed s) (clock s) (requested s) (begun s) (collections s).
Definition tick_clock (s : sys) : sys :=
  MkSys (sCache s) (fs s) (status s) (nextDone s) (closed s) (sweeps s) (writers s) (async s) (timers s) (waiters s) (observed s) (S (clock s)) (requested s) (begun s) (collections s).
Definition note_request (s : sys) : sys :=
  MkSys (sCache s) (fs s) (status s) (nextDone s) (closed s) (sweeps s) (writers s) (async s) (timers s) (waiters s) (observed s) (clock s) (clock s) (begun s) (collections s).

Definition refreshAsync (s : sys) : sys := with_async s (S (async s)).
(** A refresh wanted because the platform has changed: refreshSoon. *)
Definition refreshSoon (s : sys) : sys := refreshAsync (note_request (with_model_cache s (want_rerun (sCache s)))).
Definition refreshAfterMutation (s : sys) : sys := let s := refreshSoon s in with_timers s (S (timers s)).
(** beginRefresh by a caller that runs refreshOwned when it has started the
    sweep; returns the channel and whether it has. *)
Definition start_refresh (s : sys) : sys * (nat * bool) :=
  let '(c, (done, started)) := beginRefresh (nextDone s) (sCache s) in
  if started then
    (MkSys c (fs s) (status s) (S (nextDone s)) (closed s) (sweeps s ++ [MkSweep done 0 0 Collecting]) (writers s) (async s) (timers s) (waiters s)
       (observed s) (clock s) (requested s) (clock s) (S (collections s)), (done, true))
  else (with_model_cache s c, (done, false)).
Definition set_stage (i : nat) (w : sweep) (s : sys) : sys := with_sweeps s (<[i := w]> (sweeps s)).
Definition set_writer (i : nat) (w : write_stage) (s : sys) : sys := with_writers s (<[i := w]> (writers s)).
Definition enabled {A} (o : option A) : res () A := match o with Some x => Ok x | None => Err () end.
Definition when_ (b : bool) : res () () := if b then Ok () else Err ().
Definition lookup_stage (i : nat) (s : sys) : res () sweep := enabled (sweeps s !! i).
Definition lookup_writer (i : nat) (s : sys) : res () write_stage := enabled (writers s !! i).

Section Cache.
Context `{UnicodeCase} `{Schema} (irange : gset bytes → list bytes).
(** c.path and c.interval. *)
Context (path : bytes) (interval : Z).

(** refreshOwned from the platform's answer to the encoded message. *)
Definition swept_message (w : sweep) (r : res berr (option Message)) (c : cache) : res () sweep :=
  match r with
  | Err e => Ok (MkSweep (wDone w) 0 0 (Ending (Some (CCollect e))))
  | Panic => Panic
  | Ok None => Ok (MkSweep (wDone w) 0 0 (Ending (Some CEmpty)))
  | Ok (Some m) =>
      if (length (Fields m) =? 0)%nat then Ok (MkSweep (wDone w) 0 0 (Ending (Some CEmpty)))
      else
        let previous := cloneCachedMessage (msg c) in
        let m := refreshed_message irange previous m in
        let n := length (Fields m) in
        let cellular := countCellularSnapshotFields m in
        match EncodeMessageLZ4 m with
        | Ok encoded => Ok (MkSweep (wDone w) n cellular (Saving previous m encoded))
        | Err e => Ok (MkSweep (wDone w) n cellular (Ending (Some (CEncode e))))
        | Panic => Panic
        end
  end.
Definition saved_stage (w : sweep) (ok : bool) (previous current : Message) : sweep :=
  MkSweep (wDone w) (wFields w) (wCellular w) (if ok then Publishing previous current else Ending (Some CCommit)).
Definition publish (previous current : Message) (s : sys) : sys :=
  let s := with_model_cache s (with_msg (sCache s) (Some (cloneCachedMessage (Some current)))) in
  if changeObserver (sCache s) && negb (length (Fields previous) =? 0)%nat
  then with_observed s (observed s ++ [(previous, cloneCachedMessage (Some current))]) else s.
(** The deferred function: the status file, the flags, the channel, the rerun. *)
Definition finish (i : nat) (w : sweep) (err : option cerr) (saved : bool) (now : Z) (s : sys) : res () sys :=
  let s := with_status s (if saved then Some (MkStatus (negb (bool_decide (is_Some err))) (wFields w) (wCellular w) err) else status s) in
  let '(c, again) := end_refresh now err (sCache s) in
  if bool_decide (wDone w ∈ closed s) then Panic
  else
    let s := with_sweeps (with_closed (with_model_cache s c) ({[wDone w]} ∪ closed s)) (delete i (sweeps s)) in
    Ok (if again then refreshAsync s else s).

Definition write_step (e : ev) (s : sys) : res () sys :=
  match e with
  | EvSet p v => Ok (with_writers s (writers s ++ [ToPatch (Message_Set schema_registry (MkMessage [] None []) p v)]))
  | EvMutate => Ok (with_writers s (writers s ++ [ToRefresh]))
  | EvPatch i =>
      w ← lookup_writer i s;
      match w with
      | ToPatch patch =>
          let '(c, merged) := patch_memory patch (sCache s) in
          let s := with_model_cache s c in
          match merged with
          | None => Ok (set_writer i ToRefresh s)
          | Some m =>
              match EncodeMessageLZ4 m with
              | Ok encoded => Ok (set_writer i (ToSave encoded) s)
              | Err _ => Ok (set_writer i ToRefresh s)
              | Panic => Panic
              end
          end
      | _ => Err ()
      end
  | EvSave i io =>
      w ← lookup_writer i s;
      match w with
      | ToSave encoded => Ok (set_writer i ToRefresh (with_fs s (writeCacheAtomically io path encoded (fs s)).1))
      | _ => Err ()
      end
  | EvReturn i =>
      w ← lookup_writer i s;
      match w with
      | ToRefresh => Ok (refreshAfterMutation (with_writers s (delete i (writers s))))
      | _ => Err ()
      end
  | _ => Err ()
  end.

Definition sweep_step (e : ev) (s : sys) : res () sys :=
  match e with
  | EvCollected i r =>
      w ← lookup_stage i s;
      match wStage w with
      | Collecting => w' ← swept_message w r (sCache s); Ok (set_stage i w' s)
      | _ => Err ()
      end
  | EvWritten i io =>
      w ← lookup_stage i s;
      match wStage w with
      | Saving previous current encoded =>
          let '(f, ok) := writeCacheAtomically io path encoded (fs s) in
          Ok (set_stage i (saved_stage w ok previous current) (with_fs s f))
      | _ => Err ()
      end
  | EvPublish i =>
      w ← lookup_stage i s;
      match wStage w with
      | Publishing previous current =>
          Ok (publish previous current (set_stage i (MkSweep (wDone w) (wFields w) (wCellular w) (Ending None)) s))
      | _ => Err ()
      end
  | EvEnd i saved now =>
      w ← lookup_stage i s;
      match wStage w with
      | Ending err => finish i w err saved now s
      | _ => Err ()
      end
  | _ => Err ()
  end.

Definition call_step (e : ev) (s : sys) : res () sys :=
  match e with
  | EvSettle => match timers s with O => Err () | S n => Ok (refreshSoon (with_timers s n)) end
  | EvTick now => Ok (if refreshDue interval now (sCache s) then refreshAsync s else s)
  | EvAsync => match async s with O => Err () | S n => Ok (start_refresh (with_async s n)).1 end
  | EvRefreshSoon => Ok (refreshSoon s)
  | EvRefresh => Ok (start_refresh s).1
  | EvCold =>
      _ ← when_ (negb (has_snapshot (sCache s)));
      let '(s, (done, started)) := start_refresh s in
      Ok (if started then s else with_waiters s (waiters s ++ [done]))
  | EvResume k =>
      done ← enabled (waiters s !! k);
      _ ← when_ (bool_decide (done ∈ closed s));
      Ok (with_waiters s (delete k (waiters s)))
  | EvGiveUp k => _ ← enabled (waiters s !! k); Ok (with_waiters s (delete k (waiters s)))
  | EvWatch now => Ok (with_model_cache s (MarkWatched now (sCache s)))
  | _ => Err ()
  end.

Definition step (e : ev) (s : sys) : res () sys :=
  let s := tick_clock s in
  match e with
  | EvSet _ _ | EvMutate | EvPatch _ | EvSave _ _ | EvReturn _ => write_step e s
  | EvCollected _ _ | EvWritten _ _ | EvPublish _ | EvEnd _ _ _ => sweep_step e s
  | _ => call_step e s
  end.

(** The constructor with load: the snapshot of the file, if it can be read. *)
Definition load (f : files) : option Message :=
  match f !! path with
  | None => None
  | Some data => match DecodeMessageLenient data with Ok m => Some m | _ => None end
  end.
Definition newPersistentDataModelCache (observer : bool) (f : files) : sys :=
  MkSys (MkCache (load f) false 0 false None None None observer) f None 0 ∅ [] [] 0 0 [] [] 0 0 0 0.

Fixpoint run (es : list ev) (s : sys) : res () sys :=
  match es with [] => Ok s | e :: es => s ← step e s; run es s end.
End Cache.
