(* ===== verification/ModelCacheSnap.v ===== *)
(** * What the data model cache holds

    For src/internal/agent/usp_cache.go: a patched value is read back, a selection
    holds exactly what was asked for, a refreshed snapshot keeps what the platform
    reported and holds what it must hold back, the file is replaced atomically and
    read back after a restart. *)

From S2P Require Import Prelude GoStr Wire Lz4 Codec Transport Request DeviceModel UspAgent ModelCache.

(** ** What snapshots contain *)

Definition field_at (fs : list Field) (p : bytes) : option Field := snd <$> list_find (fun f => Path f = p) fs.
Definition distinct (fs : list Field) : Prop := NoDup (Path <$> fs).

Lemma field_at_cons f fs p : field_at (f :: fs) p = if decide (Path f = p) then Some f else field_at fs p.
Proof. unfold field_at. cbn [list_find]. case_decide; [done|]. by destruct (list_find _ fs) as [[]|]. Qed.
Lemma field_at_app a b p : field_at (a ++ b) p = match field_at a p with Some f => Some f | None => field_at b p end.
Proof. induction a as [|f a IH]; [done|]. rewrite <- app_comm_cons, !field_at_cons. by case_decide. Qed.
Lemma field_at_Some fs p f : field_at fs p = Some f → f ∈ fs ∧ Path f = p.
Proof.
  induction fs as [|g fs IH]; [done|]. rewrite field_at_cons. case_decide as Hp; [intros [= <-]; split; [left|done]|].
  intros [? ?]%IH. split; [by right|done].
Qed.
Lemma field_at_None fs p : field_at fs p = None ↔ p ∉ Path <$> fs.
Proof.
  induction fs as [|g fs IH]; [split; [intros _ Hin; by apply elem_of_nil in Hin|done]|].
  rewrite field_at_cons, fmap_cons, not_elem_of_cons. case_decide as Hp; [|naive_solver]. split; [done|]. intros [? _]. congruence.
Qed.
Lemma field_at_elem fs f : distinct fs → f ∈ fs → field_at fs (Path f) = Some f.
Proof.
  intros Hd Hin. induction fs as [|g fs IH]; [by apply elem_of_nil in Hin|]. unfold distinct in Hd. rewrite fmap_cons in Hd. apply NoDup_cons in Hd as [Hg Hd].
  rewrite field_at_cons. apply elem_of_cons in Hin as [->|Hin]; [by rewrite decide_True|].
  rewrite decide_False; [by apply IH|]. intros Heq. apply Hg. rewrite Heq. by apply list_elem_of_fmap_2.
Qed.
Lemma field_at_insert fs i old f p : distinct fs → fs !! i = Some old → Path old = Path f →
  field_at (<[i := f]> fs) p = if decide (Path f = p) then Some f else field_at fs p.
Proof.
  revert i. induction fs as [|g fs IH]; intros [|i] Hd; cbn [lookup list_lookup]; try done.
  - intros [= ->] Ho. change (<[0%nat:=f]> (old :: fs)) with (f :: fs). rewrite !field_at_cons. by repeat case_decide; try congruence.
  - intros Hi Ho. unfold distinct in Hd. rewrite fmap_cons in Hd. apply NoDup_cons in Hd as [Hg Hd].
    change (<[S i:=f]> (g :: fs)) with (g :: <[i:=f]> fs). rewrite !field_at_cons, (IH i Hd Hi Ho).
    repeat case_decide; try done. destruct Hg. subst p. apply list_elem_of_fmap. exists old. split; [congruence|]. by eapply list_elem_of_lookup_2.
Qed.
Lemma Message_Get_at m p : Message_Get m p = match field_at (Fields m) p with Some f => (Val f, true) | None => (Null, false) end.
Proof. unfold Message_Get, field_at. by destruct (list_find _ _) as [[]|]. Qed.

(** The index: the position of the field with a path. *)
Definition indexes (s : gmap bytes nat * list Field) : Prop :=
  distinct s.2 ∧ ∀ p i, s.1 !! p = Some i ↔ Path <$> s.2 !! i = Some p.

Lemma index_from_spec fs : ∀ pre m, distinct (pre ++ fs) → (∀ p i, m !! p = Some i ↔ Path <$> pre !! i = Some p) →
  ∀ p i, index_from (length pre) fs m !! p = Some i ↔ Path <$> (pre ++ fs) !! i = Some p.
Proof.
  induction fs as [|f fs IH]; intros pre m Hd Hm; cbn [index_from]; [by rewrite app_nil_r|].
  rewrite cons_middle, app_assoc in *. replace (S (length pre)) with (length (pre ++ [f])) by (rewrite length_app; cbn; lia).
  apply IH; [done|]. intros p i. unfold distinct in Hd. rewrite !fmap_app in Hd. apply NoDup_app in Hd as (Hd & _ & _).
  apply NoDup_app in Hd as (_ & Hf & _). rewrite lookup_insert_Some, Hm. split.
  - intros [[<- <-]|[Hne Hi]]; [by rewrite list_lookup_middle|].
    rewrite lookup_app_l; [done|]. apply fmap_Some in Hi as (? & Hi & _). by eapply lookup_lt_Some.
  - destruct (decide (i < length pre)%nat).
    + rewrite lookup_app_l by done. intros Hi. right. split; [|done]. intros <-.
      apply fmap_Some in Hi as (g & Hi & Hg). apply (Hf (Path f)); [rewrite Hg|set_solver]. apply list_elem_of_fmap. eauto using list_elem_of_lookup_2.
    + rewrite lookup_app_r by lia. destruct (i - length pre)%nat eqn:E; [|done]. cbn. intros [= <-]. left. split; [done|lia].
Qed.
Lemma index_by_path_spec fs : distinct fs → indexes (index_by_path fs, fs).
Proof. intros Hd. split; [done|]. apply (index_from_spec fs [] ∅ Hd). intros p i. rewrite lookup_empty. cbn. by destruct i. Qed.

Lemma indexes_Some s p i : indexes s → s.1 !! p = Some i → ∃ old, s.2 !! i = Some old ∧ Path old = p ∧ field_at s.2 p = Some old.
Proof.
  intros [Hd Hx] Hi%Hx. apply fmap_Some in Hi as (old & Hi & ->). exists old. split_and!; [done|done|].
  apply field_at_elem; [done|]. by eapply list_elem_of_lookup_2.
Qed.
Lemma indexes_None s p : indexes s → s.1 !! p = None → field_at s.2 p = None.
Proof.
  intros [Hd Hx] Hn. apply field_at_None. intros (f & -> & Hin)%list_elem_of_fmap. apply list_elem_of_lookup_1 in Hin as (i & Hi).
  assert (s.1 !! Path f = Some i) by (apply Hx; by rewrite Hi). congruence.
Qed.

(** Which field put_field leaves at a path. *)
Lemma put_field_at keep s f p : indexes s →
  field_at (put_field keep s f).2 p =
  if decide (Path f = p)
  then match field_at s.2 p with Some old => if keep old then Some old else Some f | None => Some f end
  else field_at s.2 p.
Proof.
  intros Hx. unfold put_field. destruct (s.1 !! Path f) as [i|] eqn:Hi.
  - destruct (indexes_Some _ _ _ Hx Hi) as (old & Ho & Hp & Hat). rewrite Ho. destruct (keep old) eqn:Hk.
    + case_decide as Hd; [|done]. by rewrite <- Hd, Hat, Hk.
    + cbn [snd]. rewrite (field_at_insert _ _ old) by (done || apply Hx). case_decide as Hd; [|done]. by rewrite <- Hd, Hat, Hk.
  - apply (indexes_None _ _ Hx) in Hi. cbn [snd]. rewrite field_at_app, field_at_cons. case_decide as Hd; [by rewrite <- Hd, Hi|].
    by destruct (field_at s.2 p).
Qed.

Lemma put_field_indexes keep s f : indexes s → indexes (put_field keep s f).
Proof.
  intros Hx. unfold put_field. destruct (s.1 !! Path f) as [i|] eqn:Hi.
  - destruct (indexes_Some _ _ _ Hx Hi) as (old & Ho & Hp & _). rewrite Ho. destruct (keep old); [done|].
    destruct Hx as [Hd Hx]. assert (Heq : Path <$> <[i:=f]> s.2 = Path <$> s.2).
    { rewrite list_fmap_insert. apply list_insert_id. by rewrite list_lookup_fmap, Ho, <- Hp. }
    split; cbn [fst snd]; [unfold distinct; by rewrite Heq|].
    intros p j. rewrite Hx, <- !list_lookup_fmap. by rewrite Heq.
  - pose proof (indexes_None _ _ Hx Hi) as Hn%field_at_None. destruct Hx as [Hd Hx]. split; cbn [fst snd].
    + unfold distinct. rewrite fmap_app. apply NoDup_app. split_and!; [done| |apply NoDup_singleton].
      intros q Hq ->%list_elem_of_singleton. done.
    + intros p j. rewrite lookup_insert_Some, Hx. split.
      * intros [[<- <-]|[_ Hj]]; [by rewrite list_lookup_middle|]. rewrite lookup_app_l; [done|].
        apply fmap_Some in Hj as (? & Hj & _). by eapply lookup_lt_Some.
      * intros (g & Hg & ->)%fmap_Some. apply lookup_snoc_Some in Hg as [[Hlt Hg]|[-> <-]]; [|auto].
        right. rewrite Hg. split; [|done]. intros Heq. apply Hn. rewrite Heq. apply list_elem_of_fmap. eauto using list_elem_of_lookup_2.
Qed.

Lemma put_fields_indexes keep l : ∀ s, indexes s → indexes (foldl (put_field keep) s l).
Proof. induction l as [|f l IH]; intros s Hs; [done|]. apply IH. by apply put_field_indexes. Qed.

(** Message.Set *)
Lemma set_field_at fs q v : ∀ fs', set_field fs q v = Some fs' →
  Path <$> fs' = Path <$> fs ∧ ∀ p, Val <$> field_at fs' p = if decide (q = p) then Some v else Val <$> field_at fs p.
Proof.
  induction fs as [|f fs IH]; intros fs'; cbn [set_field]; [done|]. case_bool_decide as Hf.
  - intros [= <-]. split; [done|]. intros p. rewrite !field_at_cons. cbn. subst q. by case_decide.
  - intros (fs1 & H1 & ->)%fmap_Some. destruct (IH _ H1) as [Hp Hat]. split; [cbn; by rewrite Hp|].
    intros p. rewrite !field_at_cons. case_decide as Hq; [rewrite decide_False by congruence; done|]. apply Hat.
Qed.
Lemma set_field_None fs q v : set_field fs q v = None → q ∉ Path <$> fs.
Proof.
  induction fs as [|f fs IH]; cbn [set_field]; [intros _ Hin; by apply elem_of_nil in Hin|].
  case_bool_decide as Hf; [done|]. intros Hn%fmap_None%IH. rewrite fmap_cons. by apply not_elem_of_cons.
Qed.
Lemma Message_Set_at reg m q v p :
  Val <$> field_at (Fields (Message_Set reg m q v)) p = if decide (q = p) then Some v else Val <$> field_at (Fields m) p.
Proof.
  unfold Message_Set. cbn [Fields]. destruct (set_field (Fields m) q v) as [fs'|] eqn:E; [by apply set_field_at in E as [_ ->]|].
  apply set_field_None, field_at_None in E. rewrite field_at_app, field_at_cons. cbn [Path].
  case_decide as Hp; [subst; by rewrite E|]. by destruct (field_at (Fields m) p).
Qed.
Lemma Message_Set_distinct reg m q v : distinct (Fields m) → distinct (Fields (Message_Set reg m q v)).
Proof.
  intros Hd. unfold Message_Set, distinct. cbn [Fields]. destruct (set_field (Fields m) q v) as [fs'|] eqn:E; [by apply set_field_at in E as [-> _]|].
  apply set_field_None in E. rewrite fmap_app. apply NoDup_app. split_and!; [done| |apply NoDup_singleton].
  intros x Hx ->%list_elem_of_singleton. done.
Qed.
Lemma Message_Get_val m p : Message_Get m p = match Val <$> field_at (Fields m) p with Some v => (v, true) | None => (Null, false) end.
Proof. rewrite Message_Get_at. by destruct (field_at _ _). Qed.

(** ** Patches *)

Lemma cloneCachedMessage_fields (m : option Message) : Fields (cloneCachedMessage m) = match m with Some m => Fields m | None => [] end.
Proof. by destruct m. Qed.

Lemma cache_Value_at c p : cache_Value p c = match field_at (Fields (cloneCachedMessage (msg c))) p with Some f => (Val f, true) | None => (Null, false) end.
Proof. unfold cache_Value. rewrite cloneCachedMessage_fields. destruct (msg c); [apply Message_Get_at|done]. Qed.

(** The fields selected so far, all of the snapshot, with the set of their paths. *)
Definition selecting (all : list Field) (s : gset bytes * list Field) : Prop :=
  (∀ p, p ∈ s.1 ↔ p ∈ Path <$> s.2) ∧ s.2 ⊆ all ∧ distinct s.2.

Lemma subset_fields_spec all requested fs : distinct all → fs ⊆ all → ∀ s, selecting all s →
  selecting all (subset_fields requested fs s)
  ∧ ∀ f, f ∈ (subset_fields requested fs s).2 ↔ f ∈ s.2 ∨ f ∈ fs ∧ requested_field requested f = true.
Proof.
  intros Hd. induction fs as [|g fs IH]; intros Hsub s Hs; cbn [subset_fields].
  { split; [done|]. intros f. split; [auto|]. intros [?|[Hin _]]; [done|by apply elem_of_nil in Hin]. }
  assert (Hg : g ∈ all) by (apply Hsub; by left). assert (Hsub' : fs ⊆ all) by (intros x Hx; apply Hsub; by right).
  destruct (requested_field requested g) eqn:Hr; cbn [negb].
  - case_bool_decide as Hseen.
    + destruct (IH Hsub' s Hs) as [? Hin]. split; [done|]. intros f. rewrite Hin, elem_of_cons. split; [naive_solver|].
      intros [?|[[->|?] ?]]; auto. left. destruct Hs as (Hp & Hss & _). apply Hp, list_elem_of_fmap in Hseen as (h & Heq & Hh).
      assert (Some g = Some h) as [= ->]; [|done]. rewrite <- (field_at_elem all g Hd Hg), <- (field_at_elem all h Hd (Hss _ Hh)). by rewrite Heq.
    + assert (Hs' : selecting all ({[Path g]} ∪ s.1, s.2 ++ [g])).
      { destruct Hs as (Hp & Hss & Hds). split_and!; cbn [fst snd].
        - intros q. rewrite fmap_app, elem_of_union, elem_of_app, Hp. set_solver.
        - intros x [?%Hss| ->%list_elem_of_singleton]%elem_of_app; done.
        - unfold distinct. rewrite fmap_app. apply NoDup_app. split_and!; [done| |apply NoDup_singleton].
          intros q Hq ->%list_elem_of_singleton. by apply Hseen, Hp. }
      destruct (IH Hsub' _ Hs') as [? Hin]. split; [done|]. intros f. rewrite Hin. cbn [snd]. rewrite elem_of_app, list_elem_of_singleton, elem_of_cons. naive_solver.
  - destruct (IH Hsub' s Hs) as [? Hin]. split; [done|]. intros f. rewrite Hin, elem_of_cons. split; [naive_solver|].
    intros [?|[[->|?] ?]]; [auto|congruence|auto].
Qed.

Lemma subset_loop_spec all paths : distinct all → ∀ s, selecting all s →
  let s' := foldl (fun s requested => subset_fields (TrimSpace requested) all s) s paths in
  selecting all s' ∧ ∀ f, f ∈ s'.2 ↔ f ∈ s.2 ∨ f ∈ all ∧ Exists (fun p => requested_field (TrimSpace p) f = true) paths.
Proof.
  intros Hd. induction paths as [|p paths IH]; intros s Hs; cbn [foldl].
  { split; [done|]. intros f. rewrite Exists_nil. naive_solver. }
  destruct (subset_fields_spec all (TrimSpace p) all Hd ltac:(done) s Hs) as [Hs' Hin]. destruct (IH _ Hs') as [? Hin'].
  split; [done|]. intros f. rewrite Hin', Hin, Exists_cons. naive_solver.
Qed.

Lemma subset_spec m paths : distinct (Fields m) → paths ≠ [] →
  distinct (Fields (subsetCachedMessage m paths))
  ∧ ∀ f, f ∈ Fields (subsetCachedMessage m paths) ↔ f ∈ Fields m ∧ Exists (fun p => requested_field (TrimSpace p) f = true) paths.
Proof.
  intros Hd Hp. destruct paths as [|p paths]; [done|]. cbn [subsetCachedMessage with_fields Fields].
  destruct (subset_loop_spec (Fields m) (p :: paths) Hd (∅, [])) as [(_ & _ & ?) Hin].
  { split_and!; cbn [fst snd]; [set_solver|set_solver|apply NoDup_nil_2]. }
  split; [done|]. intros f. rewrite Hin. cbn [snd]. set_solver.
Qed.

Section Contents.
Context `{UC : UnicodeCase} `{SC : Schema} (irange : gset bytes → list bytes).

Definition set_patch (p : bytes) (v : Value) : Message := Message_Set schema_registry (MkMessage [] None []) p v.

Lemma patch_fields p v c : TrimSpace p ≠ [] →
  ∃ id, Fields (cloneCachedMessage (msg (patch_memory (set_patch p v) c).1)) =
        (put_field (fun _ => false) (index_by_path (Fields (cloneCachedMessage (msg c))), Fields (cloneCachedMessage (msg c))) (MkField id (TrimSpace p) v)).2.
Proof.
  intros Hp. exists (fst (IDFor schema_registry p)). unfold patch_memory, set_patch, Message_Set. cbn [Fields set_field app with_msg msg fst].
  rewrite cloneCachedMessage_fields. unfold mergeCachedMessageFields. cbn [foldl with_fields Fields cloneCachedMessage]. unfold merge_field, trim_field. cbn [Path fid Val].
  assert ((length (TrimSpace p) =? 0)%nat = false) as -> by (by destruct (TrimSpace p)). done.
Qed.

(** A value that has been set is read back at once.  After the patch of a Set,
    the cache answers the value itself and a read of the path with the new value,
    every other path with the value it had, and no path occurs twice. *)
Theorem patched_value_read p v c : distinct (Fields (cloneCachedMessage (msg c))) → TrimSpace p ≠ [] →
  let c' := (patch_memory (set_patch p v) c).1 in
  cache_Value (TrimSpace p) c' = (v, true) ∧ (∀ q, q ≠ TrimSpace p → cache_Value q c' = cache_Value q c)
  ∧ distinct (Fields (cloneCachedMessage (msg c')))
  ∧ ∃ m, Collect_warm [p] c' = Some m ∧ Message_Get m (TrimSpace p) = (v, true).
Proof.
  intros Hd Hp c'. destruct (patch_fields p v c Hp) as [id Hf]. fold c' in Hf.
  pose proof (index_by_path_spec _ Hd) as Hx. set (s := (index_by_path _, _)) in *. set (f := MkField id (TrimSpace p) v) in *.
  pose proof (fun q => put_field_at (fun _ => false) s f q Hx) as Hat. rewrite <- Hf in Hat. cbn [Path] in Hat.
  assert (Hd' : distinct (Fields (cloneCachedMessage (msg c')))) by (rewrite Hf; by apply put_field_indexes).
  assert (Hv : field_at (Fields (cloneCachedMessage (msg c'))) (TrimSpace p) = Some f).
  { rewrite Hat, decide_True by done. by destruct (field_at s.2 _). }
  split_and!; [by rewrite cache_Value_at, Hv| |done|].
  - intros q Hq. rewrite !cache_Value_at, Hat, decide_False by (intros <-; done). done.
  - pose proof (field_at_Some _ _ _ Hv) as [Hin _]. destruct (subset_spec (cloneCachedMessage (msg c')) [p] Hd' ltac:(done)) as [Hds Hsel].
    unfold Collect_warm, has_snapshot. rewrite cloneCachedMessage_fields in Hin.
    destruct (msg c') as [m|] eqn:Em; [|by apply elem_of_nil in Hin]. destruct (length (Fields m) =? 0)%nat eqn:El.
    { apply Nat.eqb_eq, nil_length_inv in El. rewrite El in Hin. by apply elem_of_nil in Hin. }
    eexists. split; [done|]. rewrite Message_Get_at. change (TrimSpace p) with (Path f). rewrite (field_at_elem _ f Hds); [done|].
    apply Hsel. rewrite cloneCachedMessage_fields. split; [done|]. apply Exists_cons. left. unfold requested_field. by rewrite bool_decide_true.
Qed.
End Contents.

(** ** Refreshed snapshots *)

Definition val_at (m : Message) (p : bytes) : option Value := Val <$> field_at (Fields m) p.

Lemma foldl_keeps {A} (P : Message → Prop) (f : Message → A → Message) l : (∀ m x, x ∈ l → P m → P (f m x)) → ∀ m, P m → P (foldl f m l).
Proof.
  induction l as [|x l IH]; intros Hf m Hm; [done|]. cbn [foldl]. apply IH; [|apply Hf; [left|done]].
  intros m' y Hy. apply Hf. by right.
Qed.

Section Refreshed.
Context `{UC : UnicodeCase} `{SC : Schema} (irange : gset bytes → list bytes).

Definition presence_path (index : bytes) : bytes := bs "Device.WUSP_CellularTelemetry.Interface." ++ index ++ bs ".Presence".
Definition enable_path (index : bytes) : bytes := bs "Device.Cellular.Interface." ++ index ++ bs ".Enable".
Definition status_path (index : bytes) : bytes := bs "Device.Cellular.Interface." ++ index ++ bs ".Status".

Lemma mark_stale_at m index p :
  val_at (mark_stale m index) p =
  if decide (status_path index = p) then Some (VString (bs "Unknown"))
  else if decide (enable_path index = p) then Some (VBool false)
  else if decide (presence_path index = p) then Some (VString (bs "Stale")) else val_at m p.
Proof. unfold val_at, mark_stale. by rewrite !Message_Set_at. Qed.

Lemma marked_cellular index p : p = status_path index ∨ p = enable_path index ∨ p = presence_path index →
  hasSnapshotPrefix p cellularSnapshotPrefixes = true.
Proof.
  unfold hasSnapshotPrefix. rewrite existsb_exists.
  intros [->|[->| ->]]; [exists (bs "Device.Cellular.")|exists (bs "Device.Cellular.")|exists (bs "Device.WUSP_CellularTelemetry.")];
    (split; [cbn; auto 7|apply HasPrefix_longer; vm_compute; reflexivity]).
Qed.
Lemma marked_last index p : p = status_path index ∨ p = enable_path index ∨ p = presence_path index →
  last p = Some (z2b 115) ∨ last p = Some (z2b 101).
Proof. intros [->|[->| ->]]; [left|right..]; unfold status_path, enable_path, presence_path; by rewrite app_assoc, last_app. Qed.

Lemma stale_marks_elsewhere p l m : (∀ index, p ≠ status_path index ∧ p ≠ enable_path index ∧ p ≠ presence_path index) →
  val_at (foldl mark_stale m l) p = val_at m p.
Proof.
  intros Hp. revert m. induction l as [|x l IH]; intros m; [done|]. cbn [foldl]. rewrite IH, mark_stale_at.
  destruct (Hp x) as (? & ? & ?). by rewrite !decide_False by congruence.
Qed.
Lemma restored_elsewhere p l m : entry_count p = false → val_at (foldl restore_count m l) p = val_at m p.
Proof.
  intros Hp. revert m. induction l as [|f l IH]; intros m; [done|]. cbn [foldl]. rewrite IH. unfold restore_count.
  destruct (entry_count (Path f)) eqn:He; [|done]. unfold val_at. rewrite Message_Set_at, decide_False; [done|]. congruence.
Qed.

(** Paths that the preservation of the cellular model only adds. *)
Lemma preserved_at previous current p :
  entry_count p = false → (∀ index, p ≠ status_path index ∧ p ≠ enable_path index ∧ p ≠ presence_path index) →
  val_at (preserveLastCompleteCellularSnapshot irange previous current) p =
  if negb (hasIndexedCellularSnapshot previous) || hasIndexedCellularSnapshot current || EqualFold (cellularDiscoveryState current) (bs "Absent")
  then val_at current p
  else match val_at current p with Some v => Some v | None => Val <$> field_at (missing_cellular previous current) p end.
Proof.
  intros Hc Hm. unfold preserveLastCompleteCellularSnapshot. destruct (negb _ || _); cbn [orb]; [done|]. destruct (EqualFold _ _); [done|].
  rewrite stale_marks_elsewhere, restored_elsewhere by done. unfold val_at, with_fields. cbn [Fields]. rewrite field_at_app.
  by destruct (field_at (Fields current) p).
Qed.

Lemma filter_distinct q fs : distinct fs → distinct (List.filter q fs).
Proof.
  unfold distinct. induction fs as [|f fs IH]; [done|]. rewrite fmap_cons. intros [Hf Hd]%NoDup_cons. cbn [List.filter].
  destruct (q f); [|by apply IH]. rewrite fmap_cons. apply NoDup_cons. split; [|by apply IH].
  intros (g & Heq & Hg)%list_elem_of_fmap. apply list_elem_of_In, filter_In in Hg as [Hg _]. apply Hf. rewrite Heq. apply list_elem_of_fmap. exists g. by rewrite list_elem_of_In.
Qed.
Lemma filter_at q fs p f : distinct fs → field_at fs p = Some f → q f = true → field_at (List.filter q fs) p = Some f.
Proof.
  intros Hd [Hin <-]%field_at_Some Hq. apply field_at_elem; [by apply filter_distinct|]. apply list_elem_of_In, filter_In. by rewrite <- list_elem_of_In.
Qed.
Lemma filter_not_at q fs p : (∀ f, Path f = p → q f = false) → field_at (List.filter q fs) p = None.
Proof.
  intros Hq. apply field_at_None. intros (f & -> & Hin)%list_elem_of_fmap. apply list_elem_of_In, filter_In in Hin as [_ Hf]. by rewrite Hq in Hf.
Qed.

Lemma missing_at previous current p f : distinct (Fields previous) → field_at (Fields previous) p = Some f →
  hasSnapshotPrefix p cellularSnapshotPrefixes = true → val_at current p = None → field_at (missing_cellular previous current) p = Some f.
Proof.
  intros Hd Hf Hp Hn. apply filter_at; [done|done|]. cbn beta. apply field_at_Some in Hf as [_ ->]. rewrite Hp, bool_decide_false; [done|].
  rewrite elem_of_list_to_set. by apply fmap_None, field_at_None in Hn.
Qed.
Lemma missing_not_at previous current p : hasSnapshotPrefix p cellularSnapshotPrefixes = false → field_at (missing_cellular previous current) p = None.
Proof. intros Hp. apply filter_not_at. intros f <-. by rewrite Hp. Qed.

(** The values put_field leaves when it puts a list of fields. *)
Lemma put_fields_at keep l p : distinct l → ∀ s, indexes s →
  field_at (foldl (put_field keep) s l).2 p =
  match field_at l p with
  | None => field_at s.2 p
  | Some f => match field_at s.2 p with Some old => if keep old then Some old else Some f | None => Some f end
  end.
Proof.
  induction l as [|f l IH]; intros Hd s Hs; [done|]. unfold distinct in Hd. rewrite fmap_cons in Hd. apply NoDup_cons in Hd as [Hf Hd].
  cbn [foldl]. rewrite (IH Hd _ (put_field_indexes keep s f Hs)), (put_field_at keep s f p Hs), field_at_cons. case_decide as Hp; [|done].
  subst p. by apply field_at_None in Hf as ->.
Qed.

Definition blank_value (v : Value) : bool := blank (ValueToString v).
(** The value of a path after the inbox has been preserved. *)
Lemma inbox_at previous current p : distinct (Fields previous) → distinct (Fields current) →
  val_at (preserveLastSMSInboxSnapshot previous current) p =
  match val_at previous p with
  | Some v => if isSMSInboxJSONPath p && negb (blank_value v)
              then match val_at current p with Some old => if blank_value old then Some v else Some old | None => Some v end
              else val_at current p
  | None => val_at current p
  end.
Proof.
  intros Hp Hc. assert (Hin : field_at (previousInbox previous) p =
    match field_at (Fields previous) p with Some f => if isSMSInboxJSONPath p && negb (blank_field f) then Some f else None | None => None end).
  { unfold previousInbox. destruct (field_at (Fields previous) p) as [f|] eqn:Hf.
    - destruct (isSMSInboxJSONPath p && negb (blank_field f)) eqn:Hq.
      + apply filter_at; [done|done|]. cbn beta. by apply field_at_Some in Hf as [_ ->].
      + apply field_at_None. intros (g & -> & Hg)%list_elem_of_fmap. apply list_elem_of_In, filter_In in Hg as [Hg Hqg].
        rewrite <- list_elem_of_In in Hg. apply (field_at_elem _ _ Hp) in Hg. rewrite Hg in Hf. injection Hf as ->. congruence.
    - apply field_at_None. apply field_at_None in Hf. intros (g & -> & Hg)%list_elem_of_fmap. apply list_elem_of_In, filter_In in Hg as [Hg _].
      apply Hf. apply list_elem_of_fmap. exists g. by rewrite list_elem_of_In. }
  assert (Heq : field_at (Fields (preserveLastSMSInboxSnapshot previous current)) p =
    match field_at (previousInbox previous) p with
    | None => field_at (Fields current) p
    | Some f => match field_at (Fields current) p with Some old => if negb (blank_field old) then Some old else Some f | None => Some f end
    end).
  { rewrite <- (put_fields_at (fun old => negb (blank_field old)) (previousInbox previous) p (filter_distinct _ _ Hp) _ (index_by_path_spec _ Hc)).
    unfold preserveLastSMSInboxSnapshot. by destruct (previousInbox previous). }
  unfold val_at. rewrite Heq, Hin. destruct (field_at (Fields previous) p) as [f|]; [|done]. cbn.
  change (blank_field f) with (blank_value (Val f)). destruct (isSMSInboxJSONPath p && negb (blank_value (Val f))); [|done].
  destruct (field_at (Fields current) p) as [old|]; [|done]. change (blank_field old) with (blank_value (Val old)). cbn. by destruct (blank_value (Val old)).
Qed.

Lemma inbox_distinct previous current : distinct (Fields current) → distinct (Fields (preserveLastSMSInboxSnapshot previous current)).
Proof.
  intros Hc. unfold preserveLastSMSInboxSnapshot. destruct (previousInbox previous) as [|f l]; [done|].
  by apply put_fields_indexes, index_by_path_spec.
Qed.
Lemma preserved_distinct previous current : distinct (Fields previous) → distinct (Fields current) →
  distinct (Fields (preserveLastCompleteCellularSnapshot irange previous current)).
Proof.
  intros Hp Hc. unfold preserveLastCompleteCellularSnapshot. destruct (negb _ || _); [done|]. destruct (EqualFold _ _); [done|].
  apply (foldl_keeps (fun m => distinct (Fields m))). { intros m x _ Hm. unfold mark_stale. by repeat apply Message_Set_distinct. }
  apply (foldl_keeps (fun m => distinct (Fields m))). { intros m x _ Hm. unfold restore_count. case_match; [by apply Message_Set_distinct|done]. }
  cbn [with_fields Fields]. unfold distinct. rewrite fmap_app. apply NoDup_app. split_and!; [done| |by apply filter_distinct].
  intros q Hq (f & -> & Hf)%list_elem_of_fmap. apply list_elem_of_In, filter_In in Hf as [_ [_ Hn]%andb_true_iff].
  apply negb_true_iff, bool_decide_eq_false in Hn. by rewrite elem_of_list_to_set in Hn.
Qed.

(** Inbox paths and paths outside the cellular model are none of those that the
    preservation of the cellular model sets. *)
Lemma inbox_last p : isSMSInboxJSONPath p = true → last p = Some (z2b 78).
Proof. unfold isSMSInboxJSONPath. intros [_ Hs]%andb_true_iff. apply HasSuffix_last in Hs; [|vm_compute; discriminate]. rewrite Hs. vm_compute. reflexivity. Qed.
Lemma inbox_not_set p : isSMSInboxJSONPath p = true →
  entry_count p = false ∧ ∀ index, p ≠ status_path index ∧ p ≠ enable_path index ∧ p ≠ presence_path index.
Proof.
  intros Hl%inbox_last. split.
  - unfold entry_count. destruct (HasSuffix p _) eqn:Hs; [|done]. apply HasSuffix_last in Hs; [|vm_compute; discriminate]. rewrite Hl in Hs. vm_compute in Hs. discriminate.
  - intros index. split_and!; intros Hp; destruct (marked_last index p) as [Hm|Hm]; auto; rewrite Hl in Hm; discriminate.
Qed.
Lemma other_not_set p : hasSnapshotPrefix p cellularSnapshotPrefixes = false →
  entry_count p = false ∧ ∀ index, p ≠ status_path index ∧ p ≠ enable_path index ∧ p ≠ presence_path index.
Proof.
  intros Hp. split; [unfold entry_count; by rewrite Hp, andb_false_r|]. intros index.
  split_and!; intros Heq; rewrite (marked_cellular index p) in Hp; auto; discriminate.
Qed.
Lemma inbox_cellular p : isSMSInboxJSONPath p = true → hasSnapshotPrefix p cellularSnapshotPrefixes = true ∧ indexed_cellular p = true.
Proof.
  unfold isSMSInboxJSONPath. intros [Hp _]%andb_true_iff. apply HasPrefix_app in Hp as [t ->]. split.
  - apply existsb_exists. exists (bs "Device.WUSP_CellularControl."). split; [cbn; auto 7|]. apply HasPrefix_longer. vm_compute. reflexivity.
  - unfold indexed_cellular. rewrite (HasPrefix_longer (bs "Device.WUSP_CellularControl.Interface.") t (bs "Device.WUSP_CellularControl.Interface.")) by (vm_compute; reflexivity).
    by rewrite !orb_true_r.
Qed.
Lemma not_indexed m p : hasIndexedCellularSnapshot m = false → indexed_cellular p = true → val_at m p = None.
Proof.
  intros Hm Hp. apply fmap_None, field_at_None. intros (f & -> & Hin)%list_elem_of_fmap. apply Bool.not_true_iff_false in Hm. apply Hm.
  apply existsb_exists. exists f. by rewrite <- list_elem_of_In.
Qed.

Definition reported (m : Message) (p : bytes) : bool := let '(v, ok) := Message_Get m p in ok && negb (blank_value v).

Lemma reported_val m p : reported m p = match val_at m p with Some v => negb (blank_value v) | None => false end.
Proof. unfold reported. rewrite Message_Get_val. fold (val_at m p). by destruct (val_at m p). Qed.

(** The values of a refreshed snapshot, by kind of path. *)
Lemma refreshed_other previous current p : distinct (Fields previous) → distinct (Fields current) →
  hasSnapshotPrefix p cellularSnapshotPrefixes = false → val_at (refreshed_message irange previous current) p = val_at current p.
Proof.
  intros Hp Hc Hn. destruct (other_not_set p Hn) as [He Hm]. unfold refreshed_message.
  rewrite (inbox_at _ _ p Hp (preserved_distinct _ _ Hp Hc)), (preserved_at _ _ p He Hm), missing_not_at by done.
  assert (Hi : isSMSInboxJSONPath p = false) by (destruct (isSMSInboxJSONPath p) eqn:E; [apply inbox_cellular in E as [? _]; congruence|done]).
  rewrite Hi. destruct (val_at previous p), (val_at current p); by destruct (_ || _).
Qed.
Lemma refreshed_inbox previous current p v : distinct (Fields previous) → distinct (Fields current) →
  isSMSInboxJSONPath p = true → val_at previous p = Some v → blank_value v = false →
  val_at (refreshed_message irange previous current) p = if reported current p then val_at current p else Some v.
Proof.
  intros Hp Hc Hi Hv Hb. destruct (inbox_not_set p Hi) as [He Hm]. destruct (inbox_cellular p Hi) as [Hs Hx].
  unfold refreshed_message. rewrite reported_val, (inbox_at _ _ p Hp (preserved_distinct _ _ Hp Hc)), (preserved_at _ _ p He Hm), Hi, Hv, Hb.
  cbn [negb andb]. destruct (negb _ || _ || _) eqn:Eo.
  - destruct (val_at current p) as [old|]; [|done]. cbn. by destruct (blank_value old).
  - apply orb_false_iff in Eo as [[_ Eo]%orb_false_iff _]. rewrite (not_indexed current p Eo Hx).
    unfold val_at in Hv. apply fmap_Some in Hv as (f & Hf & ->). rewrite (missing_at previous current p f Hp Hf Hs) by by apply not_indexed.
    cbn. by rewrite Hb.
Qed.
Lemma Get_val m p v : Message_Get m p = (v, true) ↔ val_at m p = Some v.
Proof. rewrite Message_Get_val. fold (val_at m p). destruct (val_at m p); split; congruence. Qed.


(** A modem that the collector has declared absent comes back from history,
    contrary to the comment in preserveLastCompleteCellularSnapshot: when the last
    snapshot had an inbox of one of its interfaces, the refreshed snapshot has
    that interface again, although the sweep reported none and the modem as
    absent; so it has an indexed cellular object, and the next sweep that reports
    no state holds it as a modem that was present. *)
Theorem absent_modem_returns previous current p v : distinct (Fields previous) → distinct (Fields current) →
  isSMSInboxJSONPath p = true → Message_Get previous p = (v, true) → blank_value v = false →
  EqualFold (cellularDiscoveryState current) (bs "Absent") = true → hasIndexedCellularSnapshot current = false →
  Message_Get (refreshed_message irange previous current) p = (v, true) ∧ hasIndexedCellularSnapshot (refreshed_message irange previous current) = true.
Proof.
  intros Hp Hc Hi Hv%Get_val Hb _ Hn. destruct (inbox_cellular p Hi) as [_ Hx].
  pose proof (refreshed_inbox previous current p v Hp Hc Hi Hv Hb) as Hr. rewrite reported_val, (not_indexed current p Hn Hx) in Hr.
  split; [by apply Get_val|]. apply existsb_exists. unfold val_at in Hr. apply fmap_Some in Hr as (f & [Hin <-]%field_at_Some & _).
  exists f. by rewrite <- list_elem_of_In.
Qed.

(** ** The modem that is not reported *)

Definition held_stale (m : Message) (index : bytes) : Prop :=
  val_at m (presence_path index) = Some (VString (bs "Stale")) ∧ val_at m (enable_path index) = Some (VBool false)
  ∧ val_at m (status_path index) = Some (VString (bs "Unknown")).

Lemma marks_differ i j : status_path i ≠ enable_path j ∧ status_path i ≠ presence_path j ∧ enable_path i ≠ presence_path j.
Proof.
  assert (Hs : last (status_path i) = Some (z2b 115)) by (unfold status_path; by rewrite app_assoc, last_app).
  assert (He : last (enable_path j) = Some (z2b 101)) by (unfold enable_path; by rewrite app_assoc, last_app).
  assert (Hp : last (presence_path j) = Some (z2b 101)) by (unfold presence_path; by rewrite app_assoc, last_app).
  split_and!; intros Heq; [rewrite Heq, He in Hs; discriminate|rewrite Heq, Hp in Hs; discriminate|].
  apply (f_equal (fun l => l !! 7%nat)) in Heq. vm_compute in Heq. discriminate.
Qed.
Lemma mark_stale_held m index : held_stale (mark_stale m index) index.
Proof.
  destruct (marks_differ index index) as (H1 & H2 & H3). unfold held_stale. rewrite !mark_stale_at.
  split_and!; repeat (first [rewrite decide_True by done|rewrite decide_False by congruence]); done.
Qed.
Lemma mark_stale_keeps m index other : held_stale m index → held_stale (mark_stale m other) index.
Proof.
  intros (Hp & He & Hs). destruct (marks_differ other index) as (H1 & H2 & H3). destruct (marks_differ index other) as (H4 & H5 & H6).
  unfold held_stale. rewrite !mark_stale_at. split_and!; repeat case_decide; congruence.
Qed.
Lemma marks_held l index : index ∈ l → ∀ m, held_stale (foldl mark_stale m l) index.
Proof.
  intros Hin. induction l as [|x l IH]; [by apply elem_of_nil in Hin|]. intros m. cbn [foldl].
  destruct (decide (index ∈ l)) as [Hl|Hl]; [by apply IH|]. apply elem_of_cons in Hin as [->|?]; [|done].
  apply (foldl_keeps (fun m => held_stale m x)); [intros; by apply mark_stale_keeps|apply mark_stale_held].
Qed.

Lemma not_inbox_refreshed previous current p : distinct (Fields previous) → distinct (Fields current) → isSMSInboxJSONPath p = false →
  val_at (refreshed_message irange previous current) p = val_at (preserveLastCompleteCellularSnapshot irange previous current) p.
Proof.
  intros Hp Hc Hi. unfold refreshed_message. rewrite (inbox_at _ _ p Hp (preserved_distinct _ _ Hp Hc)), Hi. by destruct (val_at previous p).
Qed.
Lemma marked_not_inbox index p : p = status_path index ∨ p = enable_path index ∨ p = presence_path index → isSMSInboxJSONPath p = false.
Proof.
  intros Hm%marked_last. destruct (isSMSInboxJSONPath p) eqn:E; [|done]. apply inbox_last in E. rewrite E in Hm. by destruct Hm.
Qed.

(** A modem that drops out of the sweeps without being declared absent stays in
    the model, as stale.  When the last snapshot had indexed cellular objects,
    the sweep reports none and does not say that the modem is absent, then every
    interface whose telemetry was known is marked stale, disabled and of unknown
    status, and every other cellular value that the sweep does not report keeps
    its last value. *)
Theorem modem_held_as_stale previous current : (∀ X, irange X ≡ₚ elements X) → distinct (Fields previous) → distinct (Fields current) →
  hasIndexedCellularSnapshot previous = true → hasIndexedCellularSnapshot current = false →
  EqualFold (cellularDiscoveryState current) (bs "Absent") = false →
  (∀ index, index ∈ staleInterfaces previous → held_stale (refreshed_message irange previous current) index)
  ∧ ∀ p v, hasSnapshotPrefix p cellularSnapshotPrefixes = true → entry_count p = false →
      (∀ index, p ≠ status_path index ∧ p ≠ enable_path index ∧ p ≠ presence_path index) →
      Message_Get previous p = (v, true) → (Message_Get current p).2 = false → Message_Get (refreshed_message irange previous current) p = (v, true).
Proof.
  intros Hr Hp Hc Hip Hic Ha. split.
  - intros index Hin.
    assert (Hh : held_stale (preserveLastCompleteCellularSnapshot irange previous current) index).
    { unfold preserveLastCompleteCellularSnapshot. rewrite Hip, Hic, Ha. apply marks_held. rewrite Hr. by apply elem_of_elements. }
    unfold held_stale. rewrite !not_inbox_refreshed by (done || apply (marked_not_inbox index); auto). exact Hh.
  - intros p v Hs He Hm Hv%Get_val Hn. apply Get_val.
    assert (Hcn : val_at current p = None) by (rewrite Message_Get_val in Hn; unfold val_at; by destruct (Val <$> _)).
    unfold val_at in Hv. apply fmap_Some in Hv as (f & Hf & ->).
    assert (Hpres : val_at (preserveLastCompleteCellularSnapshot irange previous current) p = Some (Val f)).
    { rewrite (preserved_at _ _ p He Hm), Hip, Hic, Ha, Hcn. cbn [negb orb]. by rewrite (missing_at previous current p f). }
    unfold refreshed_message. rewrite (inbox_at _ _ p Hp (preserved_distinct _ _ Hp Hc)), Hpres. unfold val_at. rewrite Hf. cbn.
    destruct (isSMSInboxJSONPath p); cbn; [|done]. by destruct (blank_value (Val f)).
Qed.

(** ** The file *)

Definition fresh_temp (io : save_io) (path : bytes) (fs : files) : Prop := ∀ name, ioTemp io = Some name → name ≠ path ∧ fs !! name = None.

Lemma replaceFile_atomic io path data fs : fresh_temp io path fs →
  let '(fs', ok) := replaceFile io path data fs in
  if ok then fs' = <[path := data]> fs else fs' !! path = fs !! path ∧ (ioRemove io = true → fs' = fs).
Proof.
  intros Hf. unfold replaceFile. destruct (ioTemp io) as [name|] eqn:Ht; [|done]. destruct (Hf name Ht) as [Hne Hn].
  destruct (ioWrite io) as [n|].
  - cbn [andb]. destruct (ioRemove io); [by rewrite delete_insert_id|]. by rewrite lookup_insert_ne.
  - destruct (ioClose io && _); [by rewrite lookup_insert_eq, delete_insert_id|].
    destruct (ioRemove io); [by rewrite delete_insert_id|]. by rewrite lookup_insert_ne.
Qed.

Lemma validated_decodes m compress frame : message_ok m → encodeMessageValidated m compress = Ok frame → DecodeMessageLenient frame = Ok m.
Proof.
  intros [Hwf Hsz] He. unfold encodeMessageValidated in He. pose proof He as Hp. unfold Encode in Hp. apply bind_ok in Hp as (payload & Hp & _).
  destruct (Decode_Encode schema_registry (safe_opts compress) true m payload Hwf Hp (Hsz _ _ Hp)) as (frame' & He' & Hd).
  rewrite He' in He. injection He as <-. unfold DecodeMessageLenient. by rewrite Hd, visible_safe.
Qed.

(** C18: The last snapshot survives a restart.  Whatever fails while a snapshot is
    saved, the cache that is started next either finds exactly that snapshot, when
    the save reported success, or the one that was there before. *)
Theorem snapshot_survives_restart io path m encoded fs : message_ok m → EncodeMessageLZ4 m = Ok encoded → fresh_temp io path fs →
  let '(fs', ok) := writeCacheAtomically io path encoded fs in load path fs' = if ok then Some m else load path fs.
Proof.
  intros Hm He Hf. unfold writeCacheAtomically. destruct (ioMkdir io); [|done].
  pose proof (replaceFile_atomic io path encoded fs Hf) as Ha. destruct (replaceFile io path encoded fs) as [fs' ok]. destruct ok; unfold load.
  - by rewrite Ha, lookup_insert_eq, (validated_decodes m true encoded Hm He).
  - by destruct Ha as [-> _].
Qed.
End Refreshed.

(** ** A device with a modem *)

#[local] Instance snap_case : UnicodeCase := {| unicode_ToLower s := s; unicode_EqualFold s t := bool_decide (s = t) |}.
#[local] Instance snap_schema : Schema :=
  {| schema_registry := buildRegistry []; SelectorForPath _ := None; PathForSelector _ _ := None; lookupSafeParam _ := true;
     ValidateFieldFast _ := Ok (); ValueToString := vblob |}.
Definition text_field (p v : bytes) : Field := MkField 0 p (VString v).
Definition inbox_path : bytes := bs "Device.WUSP_CellularControl.Interface.1.SMSInboxJSON".
Definition inbox_text : Value := VString (bs "[1]").
Definition state_path : bytes := bs "Device.WUSP_CellularTelemetry.DiscoveryState".
Definition uptime_path : bytes := bs "Device.DeviceInfo.UpTime".
(** Before: a modem with an inbox.  After: the sweep says that it is absent. *)
Definition with_modem : Message :=
  MkMessage [] None [text_field uptime_path (bs "1"); text_field (bs "Device.Cellular.Interface.1.Status") (bs "Up"); MkField 0 inbox_path inbox_text].
Definition without_modem : Message := MkMessage [] None [text_field uptime_path (bs "2"); text_field state_path (bs "Absent")].

Lemma with_modem_distinct : distinct (Fields with_modem).
Proof. unfold distinct. apply (bool_decide_unpack _). vm_compute. exact I. Qed.
Lemma without_modem_distinct : distinct (Fields without_modem).
Proof. unfold distinct. apply (bool_decide_unpack _). vm_compute. exact I. Qed.


Lemma absent_modem_returns_witness :
  cellularDiscoveryState without_modem = bs "Absent" ∧ hasIndexedCellularSnapshot without_modem = false
  ∧ hasIndexedCellularSnapshot (refreshed_message elements with_modem without_modem) = true.
Proof.
  split; [vm_compute; reflexivity|]. split; [vm_compute; reflexivity|].
  apply (absent_modem_returns elements with_modem without_modem inbox_path inbox_text with_modem_distinct without_modem_distinct);
    vm_compute; reflexivity.
Defined.

Lemma with_modem_ok : message_ok with_modem.
Proof.
  split; [vm_compute; reflexivity|]. intros payload c Hp.
  assert (E : encodePayload (safe_opts c) with_modem = encodePayload (safe_opts true) with_modem) by (destruct c; reflexivity).
  rewrite E in Hp. vm_compute in Hp. injection Hp as <-. vm_compute. discriminate.
Qed.
Definition with_modem_frame : bytes := match EncodeMessageLZ4 with_modem with Ok b => b | _ => [] end.
(** A save on Windows whose first two attempts to rename fail. *)
Definition slow_rename : save_io := MkSaveIO true true (Some (bs "/data/cache.1.tmp")) None true (fun n => (2 <=? n)%nat) true.

Lemma snapshot_survives_restart_witness :
  load (bs "/data/cache") (writeCacheAtomically slow_rename (bs "/data/cache") with_modem_frame ∅).1 = Some with_modem.
Proof.
  assert (He : EncodeMessageLZ4 with_modem = Ok with_modem_frame) by (vm_compute; reflexivity).
  pose proof (snapshot_survives_restart slow_rename (bs "/data/cache") with_modem with_modem_frame ∅ with_modem_ok He) as H.
  destruct (writeCacheAtomically slow_rename (bs "/data/cache") with_modem_frame ∅) as [fs' ok] eqn:E.
  assert (Hok : ok = true) by (apply (f_equal snd) in E; vm_compute in E; symmetry; exact E). rewrite Hok in H. apply H.
  intros name Hn. injection Hn as <-. split; [intros Heq; vm_compute in Heq; discriminate|reflexivity].
Defined.
