(* ===== verification/ModelCacheProps.v ===== *)
(** * Properties of the data model cache

    For src/internal/agent/usp_cache.go: sweeps never overlap, a channel is closed
    once and nobody waits for one that nobody will close, every write is followed
    by a sweep that begins after it, and the work a write causes ends. *)

From S2P Require Import Prelude GoStr Wire Codec Transport Request DeviceModel UspAgent ModelCache.

(** ** Sweeps *)

Record cache_inv (s : sys) : Prop := MkCacheInv
  { inv_flight : if refreshing (sCache s)
                 then (∃ w, sweeps s = [w] ∧ wDone w = refreshDone (sCache s)) ∧ refreshDone (sCache s) ∉ closed s ∧ (refreshDone (sCache s) < nextDone s)%nat
                 else sweeps s = [] ∧ rerun (sCache s) = false;
    inv_closed : set_Forall (fun d => (d < nextDone s)%nat) (closed s);
    inv_waiters : Forall (fun d => d ∈ closed s ∨ refreshing (sCache s) = true ∧ d = refreshDone (sCache s)) (waiters s);
    inv_requested : (requested s ≤ clock s)%nat;
    inv_swept : requested s = 0%nat ∨ (requested s < begun s)%nat
                ∨ (if refreshing (sCache s) then rerun (sCache s) = true else (0 < async s)%nat) }.

(** Everything the invariant looks at. *)
Definition same_control (s s' : sys) : Prop :=
  refreshing (sCache s') = refreshing (sCache s) ∧ refreshDone (sCache s') = refreshDone (sCache s) ∧ rerun (sCache s') = rerun (sCache s)
  ∧ wDone <$> sweeps s' = wDone <$> sweeps s ∧ nextDone s' = nextDone s ∧ closed s' = closed s ∧ waiters s' ⊆ waiters s
  ∧ (clock s ≤ clock s')%nat ∧ requested s' = requested s ∧ begun s' = begun s ∧ (async s ≤ async s')%nat.

Lemma same_control_inv s s' : same_control s s' → cache_inv s → cache_inv s'.
Proof.
  intros (Hr & Hd & Hre & Hw & Hn & Hc & Hwt & Hck & Hrq & Hb & Ha) [If Ic Iw Ir Is].
  split; rewrite ?Hr, ?Hd, ?Hre, ?Hn, ?Hc, ?Hrq, ?Hb.
  - destruct (refreshing (sCache s)).
    + destruct If as ((w & Hs & Hd') & Hnot & Hlt). rewrite Hs in Hw. split; [|done].
      apply fmap_cons_inv in Hw as (w' & l & Hw' & Hnil%eq_sym%fmap_nil_inv & ->). subst l. exists w'. split; [done|congruence].
    + destruct If as [Hs ->]. rewrite Hs in Hw. by apply fmap_nil_inv in Hw as ->.
  - done.
  - apply Forall_forall. intros d Hin%Hwt. revert d Hin. by apply Forall_forall.
  - lia.
  - destruct Is as [?|[?|Hf]]; [auto|auto|]. right. right. destruct (refreshing (sCache s)); [done|lia].
Qed.

Lemma same_control_refl s : same_control s s.
Proof. by unfold same_control. Qed.

Lemma start_refresh_inv n s : cache_inv s → cache_inv (start_refresh (with_async (tick_clock s) n)).1.
Proof.
  intros [If Ic Iw Ir Is]. unfold start_refresh, beginRefresh. cbn [sCache tick_clock with_async].
  destruct (refreshing (sCache s)) eqn:Er; cbn [fst snd].
  - split; cbn; rewrite ?Er; auto; lia.
  - destruct If as [Hs Hre]. split; cbn; rewrite ?Hs, ?Hre; cbn.
    + split; [by eexists|]. split; [|lia]. intros Hin%Ic. lia.
    + intros d Hin%Ic. lia.
    + eapply Forall_impl; [done|]. intros d [?|[? ?]]; [auto|congruence].
    + lia.
    + right. left. lia.
Qed.

Lemma refreshSoon_inv s : cache_inv s → cache_inv (refreshSoon s).
Proof.
  intros [If Ic Iw Ir Is]. split; cbn; [|done..|lia|].
  - destruct (refreshing (sCache s)); [done|]. destruct If as [? ->]. done.
  - right. right. destruct (refreshing (sCache s)); [done|lia].
Qed.

Lemma cold_waiter_inv s : cache_inv s → refreshing (sCache s) = true →
  cache_inv (with_waiters s (waiters s ++ [refreshDone (sCache s)])).
Proof.
  intros [If Ic Iw Ir Is] Hr. split; cbn; auto. apply Forall_app. split; [done|]. apply Forall_singleton. auto.
Qed.

Lemma finish_inv i w err saved now s : cache_inv s → sweeps s !! i = Some w →
  ∃ s', finish i w err saved now s = Ok s' ∧ cache_inv s'.
Proof.
  intros [If Ic Iw Ir Is] Hi. unfold finish. cbn [sCache with_status end_refresh closed].
  destruct (refreshing (sCache s)) eqn:Er; [|destruct If as [Hs _]; by rewrite Hs in Hi].
  destruct If as ((w' & Hs & Hd) & Hnot & Hlt). rewrite Hs in Hi. apply list_lookup_singleton_Some in Hi as [-> ->].
  rewrite bool_decide_false by congruence. eexists. split; [done|].
  assert (Hw : Forall (fun d => d ∈ {[wDone w]} ∪ closed s ∨ false = true ∧ d = refreshDone (sCache s)) (waiters s)).
  { eapply Forall_impl; [done|]. intros d [?|[_ ->]]; left; set_solver. }
  assert (Hc : set_Forall (fun d => (d < nextDone s)%nat) ({[wDone w]} ∪ closed s)).
  { intros d [->%elem_of_singleton|Hin%Ic]%elem_of_union; lia. }
  destruct (rerun (sCache s)); split; cbn; rewrite ?Hs; auto.
  - right. right. lia.
  - destruct Is as [?|[?|[=]]]; auto.
Qed.

(** A step that leaves what the invariant looks at alone. *)
Ltac keeps s := apply (same_control_inv s); [repeat split; cbn; auto|done].
Ltac keeps_fewer s := apply (same_control_inv s); [repeat split; cbn; auto using list_subseteq_delete|done].

#[local] Hint Resolve start_refresh_inv refreshSoon_inv : core.

Section Steps.
Context `{UC : UnicodeCase} `{SC : Schema} (irange : gset bytes → list bytes) (path : bytes) (interval : Z).
Abbreviation step := (step irange path interval).

Lemma set_stage_control i w w' s : sweeps s !! i = Some w → wDone w' = wDone w → same_control s (set_stage i w' s).
Proof.
  intros Hi Hd. unfold same_control. cbn. repeat split; auto.
  rewrite list_fmap_insert, Hd. apply list_insert_id. by rewrite list_lookup_fmap, Hi.
Qed.

Lemma swept_done w r c w' : swept_message irange w r c = Ok w' → wDone w' = wDone w.
Proof.
  unfold swept_message. destruct r as [[m|]|e|]; [|by intros [= <-]..|done].
  destruct (_ =? _)%nat; [by intros [= <-]|]. cbv zeta. by destruct (EncodeMessageLZ4 _); [intros [= <-]..|].
Qed.

Lemma enabled_ok {A} (o : option A) x : enabled o = Ok x → o = Some x.
Proof. destruct o; [by intros [= <-]|done]. Qed.
Lemma when_ok b x : when_ b = Ok x → b = true.
Proof. by destruct b. Qed.

Lemma write_step_inv e s s' : cache_inv s → write_step path e s = Ok s' → cache_inv s'.
Proof.
  intros HI. destruct e; cbn; try done.
  - intros [= <-]. keeps s.
  - intros [= <-]. keeps s.
  - intros ([p| |] & _ & Hk)%bind_ok; try done. revert Hk. unfold patch_memory.
    destruct (Fields p) as [|f l]; [intros [= <-]; keeps s|].
    destruct (EncodeMessageLZ4 _); [| |done]; intros [= <-]; keeps s.
  - intros ([|enc|] & _ & Hk)%bind_ok; try done. injection Hk as <-. keeps s.
  - intros ([| |] & _ & Hk)%bind_ok; try done. injection Hk as <-.
    apply (same_control_inv (refreshSoon (with_writers s (delete i (writers s))))); [by unfold same_control|].
    apply refreshSoon_inv. keeps s.
Qed.

(** close(done) on a closed channel would panic. *)
Lemma end_never_panics i saved now s : cache_inv s → step (EvEnd i saved now) s ≠ Panic.
Proof.
  intros HI. apply (same_control_inv _ (tick_clock s)) in HI; [|repeat split; cbn; auto].
  cbn [ModelCache.step sweep_step]. unfold lookup_stage. destruct (sweeps (tick_clock s) !! i) as [w|] eqn:Hi; [|done].
  cbn [enabled mbind res_bind]. destruct (wStage w); try done. by destruct (finish_inv i w err saved now _ HI Hi) as (s' & -> & _).
Qed.

Lemma sweep_step_keeps e s s' : cache_inv s → sweep_step irange path e s = Ok s' → cache_inv s'.
Proof.
  intros HI. destruct e; cbn [sweep_step]; try done; intros (w & Hi%enabled_ok & Hk)%bind_ok; destruct (wStage w) eqn:Hst; try done.
  - apply bind_ok in Hk as (w' & Hc%swept_done & [= <-]). eauto using same_control_inv, set_stage_control.
  - destruct (writeCacheAtomically _ _ _ _) as [f ok]. injection Hk as <-.
    apply (same_control_inv (set_stage i (saved_stage w ok previous current) s)); [by repeat split|].
    eauto using same_control_inv, set_stage_control.
  - injection Hk as <-. apply (same_control_inv (set_stage i (MkSweep (wDone w) (wFields w) (wCellular w) (Ending None)) s)).
    + unfold publish. case_match; by repeat split.
    + eauto using same_control_inv, set_stage_control.
  - destruct (finish_inv i w err saved now s HI Hi) as (s2 & Hs2 & HI2). congruence.
Qed.

Lemma call_step_keeps e s s' : cache_inv s → call_step interval e (tick_clock s) = Ok s' → cache_inv s'.
Proof.
  intros HI. destruct e; cbn [call_step]; try done.
  - destruct (timers (tick_clock s)); [done|]. intros [= <-]. apply refreshSoon_inv. keeps s.
  - intros [= <-]. case_match; keeps s.
  - destruct (async (tick_clock s)); [done|]. intros [= <-]. by apply start_refresh_inv.
  - intros [= <-]. apply refreshSoon_inv. keeps s.
  - intros [= <-]. by apply (start_refresh_inv (async s)).
  - intros (u & _ & Hk)%bind_ok. pose proof (start_refresh_inv (async s) s HI) as HI'.
    change (with_async (tick_clock s) (async s)) with (tick_clock s) in HI'. revert Hk HI'.
    unfold start_refresh, beginRefresh. destruct (refreshing (sCache (tick_clock s))) eqn:Er; cbn [fst]; intros [= <-] HI'; [|done].
    apply (cold_waiter_inv _ HI'). done.
  - intros (d & Hd & (u & Hu & [= <-])%bind_ok)%bind_ok. keeps_fewer s.
  - intros (d & Hd & [= <-])%bind_ok. keeps_fewer s.
  - intros [= <-]. keeps s.
Qed.

Lemma step_keeps e s s' : cache_inv s → step e s = Ok s' → cache_inv s'.
Proof.
  intros HI Hs. assert (HI' : cache_inv (tick_clock s)) by keeps s.
  unfold ModelCache.step in Hs. cbv zeta in Hs.
  destruct e; first [exact (call_step_keeps _ _ _ HI Hs)|exact (sweep_step_keeps _ _ _ HI' Hs)|exact (write_step_inv _ _ _ HI' Hs)].
Qed.

Lemma cache_run_keeps es s s' : cache_inv s → run irange path interval es s = Ok s' → cache_inv s'.
Proof.
  revert s. induction es as [|e es IH]; intros s HI; cbn [run]; [by intros [= <-]|].
  intros (s1 & H1 & Hr)%bind_ok. eauto using step_keeps.
Qed.

Lemma new_inv observer f : cache_inv (newPersistentDataModelCache path observer f).
Proof. split; cbn; auto. intros d Hd. set_solver. Qed.

(** States the cache can be in. *)
Definition reachable (s : sys) : Prop :=
  ∃ observer f es, run irange path interval es (newPersistentDataModelCache path observer f) = Ok s.
Lemma reachable_inv s : reachable s → cache_inv s.
Proof. intros (observer & f & es & Hr). eapply cache_run_keeps; [apply new_inv|done]. Qed.

(** ** The work a request causes ends *)

Definition stage_work (w : sweep) : nat :=
  match wStage w with Collecting => 4 | Saving _ _ _ => 3 | Publishing _ _ => 2 | Ending _ => 1 end.
Definition write_work (w : write_stage) : nat := match w with ToPatch _ => 24 | ToSave _ => 23 | ToRefresh => 22 end.
Definition work (s : sys) : nat :=
  sum_list (stage_work <$> sweeps s) + sum_list (write_work <$> writers s) + 5 * async s + 5 * Nat.b2n (rerun (sCache s)) + 11 * timers s
  + length (waiters s).
(** Steps of what has been begun; the others begin something new. *)
Definition internal (e : ev) : bool :=
  match e with EvSet _ _ | EvMutate | EvTick _ | EvRefreshSoon | EvRefresh | EvCold | EvWatch _ => false | _ => true end.
Definition quiescent (s : sys) : Prop := sweeps s = [] ∧ writers s = [] ∧ async s = 0%nat ∧ timers s = 0%nat ∧ waiters s = [].

Lemma sum_insert {A} (f : A → nat) i (x y : A) l : l !! i = Some x →
  (sum_list (f <$> <[i:=y]> l) + f x = sum_list (f <$> l) + f y)%nat.
Proof. revert i. induction l as [|z l IH]; intros [|i]; intros [=]; subst; simpl; [lia|]. match goal with Hl : _ !! _ = _ |- _ => specialize (IH i Hl) end. unfold fmap in IH. lia. Qed.
Lemma sum_delete {A} (f : A → nat) i (x : A) l : l !! i = Some x → (sum_list (f <$> delete i l) + f x = sum_list (f <$> l))%nat.
Proof. revert i. induction l as [|z l IH]; intros [|i]; intros [=]; subst; simpl; [unfold fmap; lia|]. match goal with Hl : _ !! _ = _ |- _ => specialize (IH i Hl) end. unfold fmap in IH. lia. Qed.

Lemma write_step_work e s s' : internal e = true → write_step path e s = Ok s' → (work s' < work s)%nat.
Proof.
  destruct e; cbn [internal write_step]; try done; intros _ (w & Hi%enabled_ok & Hk)%bind_ok; destruct w as [p|enc|]; try done.
  - revert Hk. unfold patch_memory. destruct (Fields p) as [|f l].
    + intros [= <-]. pose proof (sum_insert write_work i _ ToRefresh _ Hi). unfold work. cbn in *. lia.
    + pose proof (sum_insert write_work i _ ToRefresh _ Hi).
      destruct (EncodeMessageLZ4 _) as [enc|?|]; [|intros [= <-]; unfold work; cbn in *; lia|done].
      pose proof (sum_insert write_work i _ (ToSave enc) _ Hi). intros [= <-]. unfold work. cbn in *. lia.
  - injection Hk as <-. pose proof (sum_insert write_work i _ ToRefresh _ Hi). unfold work. cbn in *. lia.
  - injection Hk as <-. pose proof (sum_delete write_work i _ _ Hi). unfold work. cbn in *.
    destruct (refreshing (sCache s)), (rerun (sCache s)); cbn; lia.
Qed.

Lemma set_stage_work i w w' s : sweeps s !! i = Some w → (stage_work w' < stage_work w)%nat → (work (set_stage i w' s) < work s)%nat.
Proof. intros Hi Hlt. pose proof (sum_insert stage_work i w w' _ Hi). unfold work. cbn in *. lia. Qed.

Lemma swept_work w r c w' : wStage w = Collecting → swept_message irange w r c = Ok w' → (stage_work w' < stage_work w)%nat.
Proof.
  unfold stage_work at 2. intros ->. unfold swept_message. destruct r as [[m|]|e|]; [|intros [= <-]; cbn; lia..|done].
  destruct (_ =? _)%nat; [intros [= <-]; cbn; lia|]. cbv zeta. destruct (EncodeMessageLZ4 _); [intros [= <-]; cbn; lia..|done].
Qed.

Lemma finish_work i w err saved now s s' : sweeps s !! i = Some w → finish i w err saved now s = Ok s' → (work s' < work s)%nat.
Proof.
  intros Hi. unfold finish. cbn [sCache with_status end_refresh closed]. case_bool_decide; [done|]. intros [= <-].
  pose proof (sum_delete stage_work i _ _ Hi). assert (1 ≤ stage_work w)%nat by (unfold stage_work; case_match; lia).
  unfold work. destruct (rerun (sCache s)); cbn in *; lia.
Qed.

Lemma sweep_step_work e s s' : sweep_step irange path e s = Ok s' → (work s' < work s)%nat.
Proof.
  destruct e; cbn [sweep_step]; try done; intros (w & Hi%enabled_ok & Hk)%bind_ok; destruct (wStage w) eqn:Hst; try done.
  - apply bind_ok in Hk as (w' & Hc & [= <-]). eauto using set_stage_work, swept_work.
  - destruct (writeCacheAtomically _ _ _ _) as [f ok]. injection Hk as <-.
    apply (set_stage_work i w (saved_stage w ok previous current)) in Hi; [exact Hi|].
    unfold stage_work at 2. rewrite Hst. unfold saved_stage, stage_work. destruct ok; cbn; lia.
  - injection Hk as <-. apply (set_stage_work i w (MkSweep (wDone w) (wFields w) (wCellular w) (Ending None))) in Hi.
    + unfold publish. case_match; exact Hi.
    + unfold stage_work. rewrite Hst. cbn. lia.
  - eauto using finish_work.
Qed.

Lemma start_refresh_work s : (work (start_refresh s).1 ≤ work s + 4)%nat.
Proof.
  unfold start_refresh, beginRefresh. destruct (refreshing (sCache s)); cbn [fst]; [unfold work; cbn; lia|].
  unfold work. cbn. rewrite fmap_app, sum_list_with_app. cbn. lia.
Qed.

Lemma delete_shorter {A} k (l : list A) x : l !! k = Some x → (length (delete k l) < length l)%nat.
Proof. intros Hk. pose proof (lookup_lt_Some _ _ _ Hk). rewrite length_delete by eauto. lia. Qed.

Lemma call_step_work e s s' : internal e = true → call_step interval e s = Ok s' → (work s' < work s)%nat.
Proof.
  destruct e; cbn [internal call_step]; try done; intros _.
  - destruct (timers s) eqn:Ht; [done|]. intros [= <-]. unfold work. cbn. rewrite Ht.
    destruct (refreshing (sCache s)), (rerun (sCache s)); cbn; lia.
  - destruct (async s) eqn:Ha; [done|]. intros [= <-]. pose proof (start_refresh_work (with_async s n)).
    assert (work (with_async s n) + 5 = work s)%nat by (unfold work; cbn; rewrite Ha; lia). lia.
  - intros (d & Hd%enabled_ok & (u & Hu & [= <-])%bind_ok)%bind_ok. apply delete_shorter in Hd. unfold work. cbn in *. lia.
  - intros (d & Hd%enabled_ok & [= <-])%bind_ok. apply delete_shorter in Hd. unfold work. cbn in *. lia.
Qed.

Lemma step_work e s s' : internal e = true → step e s = Ok s' → (work s' < work s)%nat.
Proof.
  intros Hi Hs. change (work s) with (work (tick_clock s)). unfold ModelCache.step in Hs. cbv zeta in Hs.
  destruct e; first [exact (call_step_work _ _ _ Hi Hs)|exact (sweep_step_work _ _ _ Hs)|exact (write_step_work _ _ _ Hi Hs)].
Qed.

Lemma run_work es s s' : Forall (fun e => internal e = true) es → run irange path interval es s = Ok s' → (length es + work s' ≤ work s)%nat.
Proof.
  intros Hes. revert s. induction Hes as [|e es He _ IH]; intros s; cbn [run]; [by intros [= <-]|].
  intros (s1 & H1%step_work & Hr%IH)%bind_ok; [|done]. cbn. lia.
Qed.

(** Unless everything is done, some step of what has been begun is possible. *)
Definition no_io : save_io := MkSaveIO false false None None false (fun _ => false) false.
Lemma sweep_advances s w l : sweeps s = w :: l → ∃ e, internal e = true ∧ step e s ≠ Err ().
Proof.
  intros Hs. destruct (wStage w) eqn:Hst.
  - exists (EvCollected 0 (Ok None)). split; [done|]. cbn [ModelCache.step sweep_step]. unfold lookup_stage. cbn [sweeps tick_clock].
    rewrite Hs. cbn. by rewrite Hst.
  - exists (EvWritten 0 no_io). split; [done|]. cbn [ModelCache.step sweep_step]. unfold lookup_stage. cbn [sweeps tick_clock].
    rewrite Hs. cbn. by rewrite Hst.
  - exists (EvPublish 0). split; [done|]. cbn [ModelCache.step sweep_step]. unfold lookup_stage. cbn [sweeps tick_clock].
    rewrite Hs. cbn. by rewrite Hst.
  - exists (EvEnd 0 false 0). split; [done|]. cbn [ModelCache.step sweep_step]. unfold lookup_stage. cbn [sweeps tick_clock].
    rewrite Hs. cbn [lookup list_lookup enabled mbind res_bind]. rewrite Hst. unfold finish. cbn [sCache with_status end_refresh closed].
    by case_bool_decide.
Qed.

Lemma writer_advances s w l : writers s = w :: l → ∃ e, internal e = true ∧ step e s ≠ Err ().
Proof.
  intros Hs. destruct w.
  - exists (EvPatch 0). split; [done|]. cbn [ModelCache.step write_step]. unfold lookup_writer. cbn [writers tick_clock].
    rewrite Hs. cbn. unfold patch_memory. destruct (Fields patch); [done|]. by destruct (EncodeMessageLZ4 _).
  - exists (EvSave 0 no_io). split; [done|]. cbn [ModelCache.step write_step]. unfold lookup_writer. cbn [writers tick_clock]. by rewrite Hs.
  - exists (EvReturn 0). split; [done|]. cbn [ModelCache.step write_step]. unfold lookup_writer. cbn [writers tick_clock]. by rewrite Hs.
Qed.

Lemma call_advances s : (0 < async s)%nat ∨ (0 < timers s)%nat ∨ waiters s ≠ [] → ∃ e, internal e = true ∧ step e s ≠ Err ().
Proof.
  intros [Ha|[Ht|Hw]].
  - exists EvAsync. split; [done|]. cbn [ModelCache.step call_step async tick_clock]. destruct (async s); [lia|done].
  - exists EvSettle. split; [done|]. cbn [ModelCache.step call_step timers tick_clock]. destruct (timers s); [lia|done].
  - exists (EvGiveUp 0). split; [done|]. cbn [ModelCache.step call_step waiters tick_clock]. by destruct (waiters s).
Qed.

Lemma stuck_quiescent s : (∀ e, internal e = true → step e s = Err ()) → quiescent s.
Proof.
  intros Hstuck. assert (Hno : ¬ ∃ e, internal e = true ∧ step e s ≠ Err ()) by (intros (e & He & Hne); eauto).
  destruct (sweeps s) eqn:Hs; [|destruct Hno; by eapply sweep_advances].
  destruct (writers s) eqn:Hw; [|destruct Hno; by eapply writer_advances].
  assert (Hc : ¬ ((0 < async s)%nat ∨ (0 < timers s)%nat ∨ waiters s ≠ [])) by eauto using call_advances.
  repeat split; [done|done|lia|lia|]. destruct (waiters s); [done|]. destruct Hc. auto.
Qed.

Lemma idle_swept s : cache_inv s → sweeps s = [] → async s = 0%nat → requested s = 0%nat ∨ (requested s < begun s)%nat.
Proof.
  intros [If _ _ _ Is] Hs Ha. destruct Is as [?|[?|Hf]]; auto. destruct (refreshing (sCache s)); [|lia].
  destruct If as ((w & Hw & _) & _). congruence.
Qed.

(** C16: Sweeps of the platform never overlap: in every reachable state at most one
    is running, exactly when the cache says so; ending it closes a channel that
    is still open; and everybody who joined a sweep waits for a channel that is
    closed already or that the running sweep will close. *)
Theorem sweeps_single_flight s : reachable s →
  (length (sweeps s) ≤ 1)%nat ∧ (sweeps s ≠ [] ↔ refreshing (sCache s) = true)
  ∧ (∀ i saved now, step (EvEnd i saved now) s ≠ Panic)
  ∧ ∀ d, d ∈ waiters s → d ∈ closed s ∨ ∃ w, sweeps s = [w] ∧ wDone w = d.
Proof.
  intros HI%reachable_inv. pose proof (fun i saved now => end_never_panics i saved now s HI) as Hp.
  destruct HI as [If _ Iw _ _]. destruct (refreshing (sCache s)).
  - destruct If as ((w & -> & Hd) & _). repeat split; [done|done|exact Hp|].
    intros d Hin. rewrite Forall_forall in Iw. destruct (Iw d Hin) as [?|[_ ->]]; [auto|]. right. by exists w.
  - destruct If as [-> _]. split_and!; [cbn; lia|done|exact Hp|].
    intros d Hin. rewrite Forall_forall in Iw. destruct (Iw d Hin) as [?|[? _]]; [auto|done].
Qed.

(** C15: A write is never left to the periodic refresh.  Whatever has been begun
    (sweeps, patches, settle timers, queued goroutines, waiting readers) is over
    after at most [work s] steps if nothing new begins; and when nothing more can
    happen, nothing is pending and a sweep has begun after the last request for
    one, by a write or by its settle timer. *)
Theorem writes_are_swept s es s' : reachable s → Forall (fun e => internal e = true) es → run irange path interval es s = Ok s' →
  (length es ≤ work s)%nat
  ∧ ((∀ e, internal e = true → step e s' = Err ()) → quiescent s' ∧ (requested s' = 0%nat ∨ (requested s' < begun s')%nat)).
Proof.
  intros HI%reachable_inv Hes Hr. split; [apply run_work in Hr; [lia|done]|].
  intros Hq%stuck_quiescent. split; [done|]. destruct Hq as (Hs & _ & Ha & _).
  apply idle_swept; [by eapply cache_run_keeps|done|done].
Qed.

(** ** How many sweeps writes cost *)

Definition cost (e : ev) : nat :=
  match e with EvReturn _ => 4 | EvRefreshSoon => 2 | EvTick _ | EvRefresh | EvCold => 1 | _ => 0 end.
Definition owed (s : sys) : nat := collections s + async s + Nat.b2n (rerun (sCache s)) + 2 * timers s.

Lemma start_refresh_owed s : (owed (start_refresh s).1 ≤ S (owed s))%nat.
Proof. unfold start_refresh, beginRefresh. destruct (refreshing (sCache s)); unfold owed; cbn; lia. Qed.
Lemma refreshSoon_owed s : (owed (refreshSoon s) ≤ owed s + 2)%nat.
Proof. unfold owed. cbn. destruct (refreshing (sCache s)), (rerun (sCache s)); cbn; lia. Qed.
Lemma refreshAfterMutation_owed s : (owed (refreshAfterMutation s) ≤ owed s + 4)%nat.
Proof. pose proof (refreshSoon_owed s). unfold refreshAfterMutation, owed in *. cbn in *. lia. Qed.

Lemma write_step_owed e s s' : write_step path e s = Ok s' → (owed s' ≤ owed s + cost e)%nat.
Proof.
  destruct e; cbn [write_step cost]; try done; [intros [= <-]; unfold owed; cbn; lia..| | |];
    intros (w & Hi%enabled_ok & Hk)%bind_ok; destruct w as [p|enc|]; try done.
  - revert Hk. unfold patch_memory. destruct (Fields p); [intros [= <-]; unfold owed; cbn; lia|].
    destruct (EncodeMessageLZ4 _); [intros [= <-]; unfold owed; cbn; lia..|done].
  - injection Hk as <-. unfold owed. cbn. lia.
  - injection Hk as <-. apply (refreshAfterMutation_owed (with_writers s (delete i (writers s)))).
Qed.

Lemma sweep_step_owed e s s' : sweep_step irange path e s = Ok s' → (owed s' ≤ owed s + cost e)%nat.
Proof.
  destruct e; cbn [sweep_step cost]; try done; intros (w & Hi%enabled_ok & Hk)%bind_ok; destruct (wStage w); try done.
  - apply bind_ok in Hk as (w' & _ & [= <-]). unfold owed. cbn. lia.
  - destruct (writeCacheAtomically _ _ _ _). injection Hk as <-. unfold owed. cbn. lia.
  - injection Hk as <-. unfold publish. case_match; unfold owed; cbn; lia.
  - revert Hk. unfold finish. cbn [sCache with_status end_refresh closed]. case_bool_decide; [done|].
    intros [= <-]. unfold owed. destruct (rerun (sCache s)); cbn; lia.
Qed.

Lemma call_step_owed e s s' : call_step interval e s = Ok s' → (owed s' ≤ owed s + cost e)%nat.
Proof.
  destruct e; cbn [call_step cost]; try done.
  - destruct (timers s) eqn:Ht; [done|]. intros [= <-]. pose proof (refreshSoon_owed (with_timers s n)). unfold owed in *. cbn in *. lia.
  - intros [= <-]. case_match; unfold owed; cbn; lia.
  - destruct (async s) eqn:Ha; [done|]. intros [= <-]. pose proof (start_refresh_owed (with_async s n)). unfold owed in *. cbn in *. lia.
  - intros [= <-]. apply refreshSoon_owed.
  - intros [= <-]. pose proof (start_refresh_owed s). lia.
  - intros (u & _ & Hk)%bind_ok. pose proof (start_refresh_owed s) as Ho. destruct (start_refresh s) as [s1 [d b]].
    injection Hk as <-. cbn in Ho. destruct b; unfold owed in *; cbn in *; lia.
  - intros (d & Hd & (u & Hu & [= <-])%bind_ok)%bind_ok. unfold owed. cbn. lia.
  - intros (d & Hd & [= <-])%bind_ok. unfold owed. cbn. lia.
  - intros [= <-]. unfold owed. cbn. lia.
Qed.

Lemma run_owed es s s' : run irange path interval es s = Ok s' → (owed s' ≤ owed s + sum_list (cost <$> es))%nat.
Proof.
  revert s. induction es as [|e es IH]; intros s; cbn [run]; [intros [= <-]; cbn; lia|].
  intros (s1 & Hs & Hr%IH)%bind_ok. rewrite fmap_cons.
  enough (owed s1 ≤ owed s + cost e)%nat by (simpl; lia).
  change (owed s) with (owed (tick_clock s)). unfold ModelCache.step in Hs. cbv zeta in Hs.
  destruct e; first [exact (call_step_owed _ _ _ Hs)|exact (sweep_step_owed _ _ _ Hs)|exact (write_step_owed _ _ _ Hs)].
Qed.

(** Writes cost at most four sweeps each, a periodic tick, a read of an empty
    cache and a direct refresh at most one. *)
Theorem sweeps_bounded observer f es s : run irange path interval es (newPersistentDataModelCache path observer f) = Ok s →
  (collections s ≤ sum_list (cost <$> es))%nat.
Proof. intros Hr%run_owed. unfold owed in Hr. cbn in *. lia. Qed.
End Steps.

(** ** Runs *)

#[local] Instance cache_case : UnicodeCase := {| unicode_ToLower s := s; unicode_EqualFold s t := bool_decide (s = t) |}.
#[local] Instance cache_schema : Schema :=
  {| schema_registry := buildRegistry []; SelectorForPath _ := None; PathForSelector _ _ := None; lookupSafeParam _ := true;
     ValidateFieldFast _ := Ok (); ValueToString := vblob |}.
Definition cache_file : bytes := bs "/data/cache.wusp".
Definition demo_run (es : list ev) : res () sys := run elements cache_file (60 * nanoseconds) es (newPersistentDataModelCache cache_file false ∅).
Definition demo_state (es : list ev) : sys := match demo_run es with Ok s => s | _ => newPersistentDataModelCache cache_file false ∅ end.
Definition platform_busy : res berr (option Message) := Err (MkBackendError false (bs "busy")).

(** Two writes a little apart, each with its settle timer: the first sweep covers
    neither the second write nor the first timer, the second sweep not the second
    timer.  Every queued goroutine runs as soon as it can. *)
Definition burst : list ev :=
  [EvMutate; EvReturn 0; EvAsync; EvMutate; EvReturn 0; EvAsync; EvSettle; EvAsync; EvCollected 0 platform_busy; EvEnd 0 true 5;
   EvAsync; EvSettle; EvAsync; EvCollected 0 platform_busy; EvEnd 0 true 10; EvAsync; EvCollected 0 platform_busy; EvEnd 0 true 15].

(** A burst of writes can cause more than the two platform collections that the
    comment of refreshAfterMutation promises: here two writes cause three. *)
Theorem two_writes_three_sweeps : ∃ s, demo_run burst = Ok s ∧ quiescent s ∧ collections s = 3%nat.
Proof. exists (demo_state burst). vm_compute. auto 10. Qed.

(** A write on an empty cache, its sweep, and a reader that joins it. *)
Definition joined : list ev := [EvMutate; EvReturn 0; EvAsync; EvCold].
Lemma joined_reachable : reachable elements cache_file (60 * nanoseconds) (demo_state joined).
Proof. exists false, ∅, joined. vm_compute. reflexivity. Qed.

Lemma sweeps_single_flight_witness :
  refreshing (sCache (demo_state joined)) = true ∧ waiters (demo_state joined) = [0%nat] ∧ length (sweeps (demo_state joined)) = 1%nat
  ∧ (0%nat ∈ closed (demo_state joined) ∨ ∃ w, sweeps (demo_state joined) = [w] ∧ wDone w = 0%nat).
Proof.
  destruct (sweeps_single_flight elements cache_file (60 * nanoseconds) (demo_state joined) joined_reachable) as (Hl & Hr & _ & Hw).
  assert (E : waiters (demo_state joined) = [0%nat]) by (vm_compute; reflexivity).
  assert (F : refreshing (sCache (demo_state joined)) = true) by (vm_compute; reflexivity).
  split; [exact F|]. split; [exact E|]. split; [|apply Hw; rewrite E; left].
  apply Hr in F. destruct (sweeps (demo_state joined)); [destruct F; reflexivity|]. simpl in *. lia.
Defined.

(** From there: the sweep ends, its reader resumes, the settle timer fires and its
    sweep ends; nothing is left to do. *)
Definition settling : list ev := [EvCollected 0 platform_busy; EvEnd 0 true 5; EvResume 0; EvSettle; EvAsync; EvCollected 0 platform_busy; EvEnd 0 true 9].
Definition settled : sys := match run elements cache_file (60 * nanoseconds) settling (demo_state joined) with Ok s => s | _ => demo_state joined end.
Lemma settled_stuck e : internal e = true → step elements cache_file (60 * nanoseconds) e settled = Err ().
Proof. destruct e; try discriminate; intros _; vm_compute; by destruct i || destruct k || idtac. Qed.

Lemma writes_are_swept_witness : (7 ≤ work (demo_state joined))%nat ∧ quiescent settled ∧ (requested settled < begun settled)%nat.
Proof.
  assert (Hr : run elements cache_file (60 * nanoseconds) settling (demo_state joined) = Ok settled) by (vm_compute; reflexivity).
  destruct (writes_are_swept elements cache_file (60 * nanoseconds) (demo_state joined) settling settled joined_reachable
              ltac:(repeat constructor) Hr) as [Hl Hq].
  destruct (Hq settled_stuck) as [Hqs Hb]. split; [exact Hl|]. split; [exact Hqs|].
  destruct Hb as [Hb|Hb]; [vm_compute in Hb; discriminate|exact Hb].
Defined.
