(* ===== verification/Timers.v ===== *)
(** * The timers of a peer

    src/internal/device/wireguard-go/device/timers.go, and the places of send.go,
    receive.go, peer.go and device.go that call its hooks, composed with the
    handshake, session and staging models.  A [Timer] is the source's: the
    runtime's timer, which may have started callbacks that have not yet taken the
    lock, and the flag that they test.  The bytes of packets, endpoints and the
    sending itself are not part of this state.  Times are in nanoseconds. *)

From S2P Require Import Prelude GoStr Noise Handshake Cookie Engine.

(** ** One timer *)

Record Timer := MkTimer { isPending : bool; armed : option Z; fired : nat }.
Definition Timer_zero : Timer := MkTimer false None 0.
Definition Timer_Mod (now d : Z) (t : Timer) : Timer := MkTimer true (Some (now + d)) (fired t).
Definition Timer_Del (t : Timer) : Timer := MkTimer false None (fired t).
(** DelSync waits for a running callback between two deletions. *)
Definition DelSync (t : Timer) : Timer := Timer_Del (Timer_Del t).
(** The runtime starts the callback at the deadline or later. *)
Definition timer_fires (now : Z) (t : Timer) : option Timer :=
  match armed t with
  | Some d => if d <=? now then Some (MkTimer (isPending t) None (S (fired t))) else None
  | None => None
  end.
(** The callback up to the expiration function, and whether it calls that. *)
Definition timer_callback (t : Timer) : option (Timer * bool) :=
  match fired t with O => None | S n => Some (MkTimer false (armed t) n, isPending t) end.

(** ** The timers of a peer *)

Inductive which := retransmitHandshake | sendKeepalive | newHandshake | zeroKeyMaterial | persistentKeepalive.
#[export] Instance which_eq_dec : EqDecision which.
Proof. solve_decision. Defined.

Record PeerTimers := MkTimers
  { timer : which → Timer; handshakeAttempts : Z; needAnotherKeepalive : bool; sentLastMinuteHandshake : bool; lastHandshakeNano : Z;
    persistentKeepaliveInterval : Z }.
Definition set_timer (w : which) (t : Timer) (m : PeerTimers) : PeerTimers :=
  MkTimers (fun w' => if decide (w' = w) then t else timer m w') (handshakeAttempts m) (needAnotherKeepalive m) (sentLastMinuteHandshake m)
    (lastHandshakeNano m) (persistentKeepaliveInterval m).
Definition set_attempts (n : Z) (m : PeerTimers) : PeerTimers :=
  MkTimers (timer m) n (needAnotherKeepalive m) (sentLastMinuteHandshake m) (lastHandshakeNano m) (persistentKeepaliveInterval m).
Definition set_another (b : bool) (m : PeerTimers) : PeerTimers :=
  MkTimers (timer m) (handshakeAttempts m) b (sentLastMinuteHandshake m) (lastHandshakeNano m) (persistentKeepaliveInterval m).
Definition set_lastMinute (b : bool) (m : PeerTimers) : PeerTimers :=
  MkTimers (timer m) (handshakeAttempts m) (needAnotherKeepalive m) b (lastHandshakeNano m) (persistentKeepaliveInterval m).
Definition set_lastHandshake (t : Z) (m : PeerTimers) : PeerTimers :=
  MkTimers (timer m) (handshakeAttempts m) (needAnotherKeepalive m) (sentLastMinuteHandshake m) t (persistentKeepaliveInterval m).
Definition Mod (w : which) (now d : Z) (m : PeerTimers) : PeerTimers := set_timer w (Timer_Mod now d (timer m w)) m.
Definition Del (w : which) (m : PeerTimers) : PeerTimers := set_timer w (Timer_Del (timer m w)) m.
Definition IsPending (w : which) (m : PeerTimers) : bool := isPending (timer m w).

Definition millisecond : Z := 1000000.
Definition RekeyTimeoutJitterMaxMs : Z := 334.
Definition RekeyAttemptTime : Z := 24 * 365 * 10 * 3600 * 1000000000.
Definition MaxTimerHandshakes : Z := RekeyAttemptTime / RekeyTimeout.

(** The hooks; [active] is timersActive, [jitter] what fastrandn returns. *)
Definition timersDataSent (active : bool) (now jitter : Z) (m : PeerTimers) : PeerTimers :=
  if active && negb (IsPending newHandshake m) then Mod newHandshake now (KeepaliveTimeout + RekeyTimeout + millisecond * jitter) m else m.
Definition timersDataReceived (active : bool) (now : Z) (m : PeerTimers) : PeerTimers :=
  if active then if negb (IsPending sendKeepalive m) then Mod sendKeepalive now KeepaliveTimeout m else set_another true m else m.
Definition timersAnyAuthenticatedPacketSent (active : bool) (m : PeerTimers) : PeerTimers := if active then Del sendKeepalive m else m.
Definition timersAnyAuthenticatedPacketReceived (active : bool) (m : PeerTimers) : PeerTimers := if active then Del newHandshake m else m.
Definition timersHandshakeInitiated (active : bool) (now jitter : Z) (m : PeerTimers) : PeerTimers :=
  if active then Mod retransmitHandshake now (RekeyTimeout + millisecond * jitter) m else m.
Definition timersHandshakeComplete (active : bool) (now : Z) (m : PeerTimers) : PeerTimers :=
  set_lastHandshake now (set_lastMinute false (set_attempts 0 (if active then Del retransmitHandshake m else m))).
Definition timersSessionDerived (active : bool) (now : Z) (m : PeerTimers) : PeerTimers :=
  if active then Mod zeroKeyMaterial now (RejectAfterTime * 3) m else m.
Definition timersAnyAuthenticatedPacketTraversal (active : bool) (now : Z) (m : PeerTimers) : PeerTimers :=
  let keepalive := persistentKeepaliveInterval m in
  if (0 <? keepalive) && active then Mod persistentKeepalive now (keepalive * 1000000000) m else m.
Definition timersInit (keepalive : Z) : PeerTimers := MkTimers (fun _ => Timer_zero) 0 false false 0 keepalive.
Definition timersStart (m : PeerTimers) : PeerTimers := set_another false (set_lastMinute false (set_attempts 0 m)).
Definition timersStop (m : PeerTimers) : PeerTimers :=
  MkTimers (fun w => DelSync (timer m w)) (handshakeAttempts m) (needAnotherKeepalive m) (sentLastMinuteHandshake m) (lastHandshakeNano m)
    (persistentKeepaliveInterval m).

(** ** A peer of a device *)

(** [unsent] is what goes to RoutineSequentialSender; [deriving] are the
    handshake workers between BeginSymmetricSession and timersSessionDerived, with
    whether they consumed a response.
    The last four fields are not in the code: when a session was last derived
    since the keys were last wiped, whether one was derived while the timers were
    off, when the first data packet was sent since a packet was last received, and
    when the first one was received since a packet was last sent or the keepalive
    for it was renewed. *)
Record tsys := MkTsys
  { dev : Device; up : bool; tm : PeerTimers; staged : list (list bytes); unsent : list (Z * bytes); srcClearing : bool; deriving : list bool;
    derivedAt : option Z; orphaned : bool; unanswered : option Z; owed : option Z }.

Definition with_dev (s : tsys) (d : Device) : tsys :=
  MkTsys d (up s) (tm s) (staged s) (unsent s) (srcClearing s) (deriving s) (derivedAt s) (orphaned s) (unanswered s) (owed s).
Definition with_up (s : tsys) (b : bool) : tsys :=
  MkTsys (dev s) b (tm s) (staged s) (unsent s) (srcClearing s) (deriving s) (derivedAt s) (orphaned s) (unanswered s) (owed s).
Definition with_tm (s : tsys) (m : PeerTimers) : tsys :=
  MkTsys (dev s) (up s) m (staged s) (unsent s) (srcClearing s) (deriving s) (derivedAt s) (orphaned s) (unanswered s) (owed s).
Definition with_staged (s : tsys) (l : list (list bytes)) (u : list (Z * bytes)) : tsys :=
  MkTsys (dev s) (up s) (tm s) l u (srcClearing s) (deriving s) (derivedAt s) (orphaned s) (unanswered s) (owed s).
Definition with_clearing (s : tsys) : tsys :=
  MkTsys (dev s) (up s) (tm s) (staged s) (unsent s) true (deriving s) (derivedAt s) (orphaned s) (unanswered s) (owed s).
Definition with_deriving (s : tsys) (n : list bool) : tsys :=
  MkTsys (dev s) (up s) (tm s) (staged s) (unsent s) (srcClearing s) n (derivedAt s) (orphaned s) (unanswered s) (owed s).
Definition with_derived (s : tsys) (t : option Z) (b : bool) : tsys :=
  MkTsys (dev s) (up s) (tm s) (staged s) (unsent s) (srcClearing s) (deriving s) t b (unanswered s) (owed s).
Definition with_unanswered (s : tsys) (t : option Z) : tsys :=
  MkTsys (dev s) (up s) (tm s) (staged s) (unsent s) (srcClearing s) (deriving s) (derivedAt s) (orphaned s) t (owed s).
Definition with_owed (s : tsys) (t : option Z) : tsys :=
  MkTsys (dev s) (up s) (tm s) (staged s) (unsent s) (srcClearing s) (deriving s) (derivedAt s) (orphaned s) (unanswered s) t.

(** What chance decides in one call: randomness and index draws of a handshake
    message, its timestamp, the jitter. *)
Record luck := MkLuck { lkRandom : random; lkStamp : bytes; lkDraws : list (Z * bool); lkJitter : Z }.

Section Peer.
Context `{NoiseCrypto} (p : nat).

Definition peer_running (d : Device) : bool := match peers d !! p with Some x => isRunning x | None => false end.
Definition peer_keypairs (d : Device) : Keypairs := match peers d !! p with Some x => keypairs x | None => MkKeypairs None None None end.
Definition current_pair (d : Device) : option (nat * Keypair) := k ← current (peer_keypairs d); kp ← pairs d !! k; Some (k, kp).
Definition timersActive (s : tsys) : bool := peer_running (dev s) && up s.

(** The hooks with their notes. *)
Definition traversal (now : Z) (s : tsys) : tsys := with_tm s (timersAnyAuthenticatedPacketTraversal (timersActive s) now (tm s)).
Definition packet_sent (s : tsys) : tsys :=
  let a := timersActive s in with_owed (with_tm s (timersAnyAuthenticatedPacketSent a (tm s))) (if a then None else owed s).
Definition packet_received (s : tsys) : tsys :=
  let a := timersActive s in with_unanswered (with_tm s (timersAnyAuthenticatedPacketReceived a (tm s))) (if a then None else unanswered s).
Definition data_sent (now jitter : Z) (s : tsys) : tsys :=
  let a := timersActive s in
  with_unanswered (with_tm s (timersDataSent a now jitter (tm s))) (if a then Some (default now (unanswered s)) else unanswered s).
Definition data_received (now : Z) (s : tsys) : tsys :=
  let a := timersActive s in with_owed (with_tm s (timersDataReceived a now (tm s))) (if a then Some (default now (owed s)) else owed s).
Definition session_derived (now : Z) (s : tsys) : tsys :=
  let a := timersActive s in
  with_derived (with_tm s (timersSessionDerived a now (tm s))) (if a then Some now else derivedAt s) (if a then orphaned s else true).
Definition handshake_complete (now : Z) (s : tsys) : tsys := with_tm s (timersHandshakeComplete (timersActive s) now (tm s)).

(** ** Sending *)

Definition Peer_SendHandshakeInitiation (isRetry : bool) (lk : luck) (now : Z) (s : tsys) : tsys :=
  let s := if isRetry then s else with_tm s (set_attempts 0 (tm s)) in
  match peers (dev s) !! p with
  | None => s
  | Some x =>
      if sent_recently now (lastSentHandshake (handshake x)) then s else
      let '(d, out) := CreateMessageInitiation p (lkRandom lk) (lkStamp lk) (lkDraws lk) (touch_sent p now (dev s)) in
      let s := with_dev s d in
      match out with
      | Some (Ok _) =>
          let s := packet_sent (traversal now s) in
          with_tm s (timersHandshakeInitiated (timersActive s) now (lkJitter lk) (tm s))
      | _ => s
      end
  end.
Definition SendStagedPackets (lk : luck) (now : Z) (s : tsys) : tsys :=
  match staged s with
  | [] => s
  | _ =>
      if negb (up s) then s else
      match current_pair (dev s) with
      | None => Peer_SendHandshakeInitiation false lk now s
      | Some (k, kp) =>
          let '(kp, staged', sent, r) := send_staged (length (staged s) + 2) true (peer_running (dev s)) now (staged s) kp in
          let s := with_staged (with_dev s (with_pairs (dev s) (<[k := kp]> (pairs (dev s))))) staged' (unsent s ++ sent) in
          match r with NeedsHandshake => Peer_SendHandshakeInitiation false lk now s | _ => s end
      end
  end.
Definition SendKeepalive (lk : luck) (now : Z) (s : tsys) : tsys :=
  let s := match staged s with
           | [] => if peer_running (dev s) then with_staged s [[[]]] (unsent s) else s
           | _ => s
           end in
  SendStagedPackets lk now s.
Definition FlushStagedPackets (s : tsys) : tsys := with_staged s [] (unsent s).

(** ** Expirations *)

Definition expiredRetransmitHandshake (lk : luck) (now : Z) (s : tsys) : tsys :=
  if MaxTimerHandshakes <? handshakeAttempts (tm s) then
    let s := if timersActive s then with_owed (with_tm s (Del sendKeepalive (tm s))) None else s in
    let s := FlushStagedPackets s in
    if timersActive s && negb (IsPending zeroKeyMaterial (tm s)) then with_tm s (Mod zeroKeyMaterial now (RejectAfterTime * 3) (tm s)) else s
  else
    let s := with_tm s (set_attempts (u32 (handshakeAttempts (tm s) + 1)) (tm s)) in
    Peer_SendHandshakeInitiation true lk now (with_clearing s).
Definition expiredSendKeepalive (lk : luck) (now : Z) (s : tsys) : tsys :=
  let s := SendKeepalive lk now s in
  if needAnotherKeepalive (tm s) then
    let s := with_tm s (set_another false (tm s)) in
    if timersActive s then with_owed (with_tm s (Mod sendKeepalive now KeepaliveTimeout (tm s))) (Some now) else s
  else s.
Definition expiredNewHandshake (lk : luck) (now : Z) (s : tsys) : tsys := Peer_SendHandshakeInitiation false lk now (with_clearing s).
Definition wipe (s : tsys) : tsys := FlushStagedPackets (with_derived (with_dev s (ZeroAndFlushAll p (dev s))) None false).
Definition expiredZeroKeyMaterial (s : tsys) : tsys := wipe s.
Definition expiredPersistentKeepalive (lk : luck) (now : Z) (s : tsys) : tsys :=
  if 0 <? persistentKeepaliveInterval (tm s) then SendKeepalive lk now s else s.

(** The callback has cleared the flag: what its timer stood for is over. *)
Definition expired (w : which) (lk : luck) (now : Z) (s : tsys) : tsys :=
  match w with
  | retransmitHandshake => expiredRetransmitHandshake lk now s
  | sendKeepalive => expiredSendKeepalive lk now (with_owed s None)
  | newHandshake => expiredNewHandshake lk now (with_unanswered s None)
  | zeroKeyMaterial => expiredZeroKeyMaterial (with_derived s None (orphaned s))
  | persistentKeepalive => expiredPersistentKeepalive lk now s
  end.

(** ** Start and stop *)

Definition Peer_Start (now : Z) (s : tsys) : tsys :=
  if peer_running (dev s) then s else with_staged (with_dev (with_tm s (timersStart (tm s))) (Start p false now (dev s))) (staged s) [].
Definition Peer_Stop (s : tsys) : tsys :=
  if peer_running (dev s) then
    with_owed (with_unanswered (with_staged (with_derived (with_dev (with_tm s (timersStop (tm s))) (Stop p (dev s))) None false) [] []) None) None
  else s.

(** ** Receiving *)

(** SendHandshakeResponse up to timersSessionDerived, which the worker runs next
    if a session has begun. *)
Definition begin_response (lk : luck) (now : Z) (s : tsys) : tsys :=
  let '(d, out) := CreateMessageResponse p (lkRandom lk) (lkDraws lk) (touch_sent p now (dev s)) in
  let s := with_dev s d in
  match out with
  | Some (Ok _) =>
      let '(d, began) := BeginSymmetricSession p now (dev s) in
      let s := with_dev s d in
      match began with Ok _ => with_deriving s (deriving s ++ [false]) | _ => s end
  | _ => s
  end.
Definition receive_initiation (m : MessageInitiation) (lk : luck) (now : Z) (s : tsys) : tsys :=
  let '(d, q) := ConsumeMessageInitiation m now now (dev s) in
  if bool_decide (q = Some p) then begin_response lk now (packet_received (traversal now (with_dev s d))) else s.
Definition receive_response (m : MessageResponse) (now : Z) (s : tsys) : tsys :=
  let '(d, q) := ConsumeMessageResponse m (dev s) in
  if bool_decide (q = Some p) then
    let s := packet_received (traversal now (with_dev s d)) in
    let '(d, began) := BeginSymmetricSession p now (dev s) in
    let s := with_dev s d in
    match began with Ok _ => with_deriving s (deriving s ++ [true]) | _ => s end
  else s.
(** The rest of the worker's handling, after BeginSymmetricSession. *)
Definition derived (initiator : bool) (lk : luck) (now : Z) (s : tsys) : tsys :=
  let s := session_derived now s in
  if initiator then SendKeepalive lk now (handshake_complete now s) else packet_sent (traversal now s).

(** One valid packet of a batch, sealed under key pair [k]. *)
Definition receive_valid (lk : luck) (now : Z) (s : tsys) (k : nat) : tsys :=
  let '(d, confirmed) := ReceivedWithKeypair p k (dev s) in
  let s := with_dev s d in
  if confirmed then SendStagedPackets lk now (handshake_complete now s) else s.
Definition keep_fresh_receiving (lk : luck) (now : Z) (s : tsys) : tsys :=
  let '(b, due) := keepKeyFreshReceiving (sentLastMinuteHandshake (tm s)) (snd <$> current_pair (dev s)) now in
  let s := with_tm s (set_lastMinute b (tm s)) in
  if due then Peer_SendHandshakeInitiation false lk now s else s.
(** RoutineSequentialReceiver, a batch with the key pairs of its valid packets;
    [data] is whether one of them carries data. *)
Definition receive_transport (ks : list nat) (data : bool) (lk : luck) (now : Z) (s : tsys) : tsys :=
  let s := foldl (receive_valid lk now) s ks in
  let s := match ks with [] => s | _ => packet_received (traversal now (keep_fresh_receiving lk now s)) end in
  if data then data_received now s else s.
(** RoutineSequentialSender, a batch of what has been assigned nonces; [ok] is
    whether sending succeeds. *)
Definition send_batch (batch rest : list (Z * bytes)) (ok : bool) (lk : luck) (now : Z) (s : tsys) : tsys :=
  let s := with_staged s (staged s) rest in
  if negb (peer_running (dev s)) then s else
  let s := packet_sent (traversal now s) in
  let s := if existsb (fun e => negb (length e.2 =? 0)%nat) batch then data_sent now (lkJitter lk) s else s in
  if ok && keepKeyFreshSending (snd <$> current_pair (dev s)) now then Peer_SendHandshakeInitiation false lk now s else s.

(** ** Steps *)

Inductive ev :=
| EvFire (w : which)
| EvCallback (w : which) (lk : luck)
| EvStage (elems : list bytes) (lk : luck)
| EvSend (n : nat) (ok : bool) (lk : luck)
| EvInitiation (m : MessageInitiation) (lk : luck)
| EvResponse (m : MessageResponse)
| EvDerived (i : nat) (lk : luck)
| EvTransport (ks : list nat) (data : bool) (lk : luck)
| EvExpireKeys
| EvUp (lk : luck)
| EvDown
| EvStop
| EvConfigured (keepalive : bool) (lk : luck).

Definition step (e : ev) (now : Z) (s : tsys) : option tsys :=
  match e with
  | EvFire w => t ← timer_fires now (timer (tm s) w); Some (with_tm s (set_timer w t (tm s)))
  | EvCallback w lk =>
      r ← timer_callback (timer (tm s) w);
      let s := with_tm s (set_timer w r.1 (tm s)) in
      Some (if (r : Timer * bool).2 then expired w lk now s else s)
  | EvStage elems lk =>
      Some (if peer_running (dev s) then SendStagedPackets lk now (with_staged s (StagePackets elems (staged s)) (unsent s)) else s)
  | EvSend n ok lk =>
      match take n (unsent s) with
      | [] => None
      | batch => Some (send_batch batch (drop n (unsent s)) ok lk now s)
      end
  | EvInitiation m lk => Some (receive_initiation m lk now s)
  | EvResponse m => Some (receive_response m now s)
  | EvDerived i lk => initiator ← deriving s !! i; Some (derived initiator lk now (with_deriving s (delete i (deriving s))))
  | EvTransport ks data lk => match ks, data with [], true => None | _, _ => Some (receive_transport ks data lk now s) end
  | EvExpireKeys => Some (with_dev s (ExpireCurrentKeypairs p now (dev s)))
  | EvUp lk =>
      if up s || peer_running (dev s) then None
      else
        let s := Peer_Start now (with_up s true) in
        Some (if 0 <? persistentKeepaliveInterval (tm s) then SendKeepalive lk now s else s)
  | EvDown => Some (with_up s false)
  | EvStop => Some (Peer_Stop s)
  | EvConfigured keepalive lk =>
      if negb (up s) then None
      else
        let s := Peer_Start now s in
        Some (SendStagedPackets lk now (if keepalive then SendKeepalive lk now s else s))
  end.

Fixpoint run (es : list (ev * Z)) (s : tsys) : option tsys :=
  match es with [] => Some s | (e, now) :: es => s ← step e now s; run es s end.
End Peer.
