(* ===== verification/TimersProps.v ===== *)
(** * Properties of the timers

    For src/internal/device/wireguard-go/device/timers.go: session keys are wiped,
    silence is noticed, data is acknowledged in time, handshakes are retried as
    often as intended. *)

From S2P Require Import Prelude GoStr Noise Handshake HandshakeProps Cookie Engine Timers.

(** The expiration of [w] is certain to be called, at [b] or, if the runtime is
    late, after. *)
Definition covers (m : PeerTimers) (w : which) (b : Z) : Prop :=
  isPending (timer m w) = true ∧ ((0 < fired (timer m w))%nat ∨ ∃ d, armed (timer m w) = Some d ∧ d ≤ b).
Definition watched (m : PeerTimers) (w : which) (since : option Z) (bound : Z) : Prop :=
  match since with Some t => covers m w (t + bound) | None => isPending (timer m w) = false end.

Definition keysLifetime : Z := RejectAfterTime * 3.
Definition silenceLimit : Z := KeepaliveTimeout + RekeyTimeout + millisecond * RekeyTimeoutJitterMaxMs.

Section Props.
Context `{NC : NoiseCrypto} (p : nat).

Definition has_keys (d : Device) : Prop := peer_keypairs p d ≠ MkKeypairs None None None.

Record tinv (s : tsys) : Prop := MkTinv
  { inv_keys : has_keys (dev s) → is_Some (derivedAt s) ∨ orphaned s = true ∨ deriving s ≠ [];
    inv_zero : ∀ t, derivedAt s = Some t → covers (tm s) zeroKeyMaterial (t + keysLifetime);
    inv_silence : watched (tm s) newHandshake (unanswered s) silenceLimit;
    inv_owed : watched (tm s) sendKeepalive (owed s) KeepaliveTimeout }.

(** Steps of the device that give the peer no keys. *)
Definition quiet (d d' : Device) : Prop := (has_keys d' → has_keys d) ∧ peer_running p d' = peer_running p d.
#[global] Instance quiet_refl : Reflexive quiet.
Proof. by split. Qed.
#[global] Instance quiet_trans : Transitive quiet.
Proof. intros a b c [Hk Hr] [Hk' Hr']. split; [auto|congruence]. Qed.

Lemma peers_quiet d d' : peers d' = peers d → quiet d d'.
Proof. unfold quiet, has_keys, peer_keypairs, peer_running. by intros ->. Qed.
Lemma set_handshake_quiet q d d' x h : peers d' = peers d → peers d !! q = Some x → quiet d (set_handshake d' q x h).
Proof.
  intros Hp Hx. unfold quiet, has_keys, peer_keypairs, peer_running, set_handshake. cbn [peers with_peer]. rewrite Hp.
  destruct (decide (q = p)) as [->|Hne]; [by rewrite lookup_insert_eq, Hx|by rewrite lookup_insert_ne].
Qed.
Lemma touch_sent_quiet now d : quiet d (touch_sent p now d).
Proof. unfold touch_sent. destruct (peers d !! p) eqn:Hx; [by apply set_handshake_quiet|done]. Qed.

Lemma CreateMessageInitiation_quiet rnd stamp draws d : quiet d (CreateMessageInitiation p rnd stamp draws d).1.
Proof.
  unfold CreateMessageInitiation. destruct (peers d !! p) as [x|] eqn:Hx; [|done]. destruct (newPrivateKey rnd) as [sk failed].
  destruct failed; [by apply set_handshake_quiet|]. cbv zeta. destruct (sharedSecret _ _); [|by apply set_handshake_quiet].
  destruct (KDF2 _ _). destruct (isZero _); [by apply set_handshake_quiet|]. destruct (KDF2 _ _).
  destruct (NewIndexForHandshake _ _ _) as [[[t i] []]|]; by apply set_handshake_quiet.
Qed.
Lemma CreateMessageResponse_quiet rnd draws d : quiet d (CreateMessageResponse p rnd draws d).1.
Proof.
  unfold CreateMessageResponse. destruct (peers d !! p) as [x|] eqn:Hx; [|done]. destruct (negb _); [done|]. cbv zeta.
  destruct (NewIndexForHandshake _ _ _) as [[[t i] []]|]; [by apply set_handshake_quiet| |by apply peers_quiet].
  destruct (newPrivateKey rnd) as [sk failed]. destruct failed; [by apply set_handshake_quiet|].
  destruct (sharedSecret _ _); [|by apply set_handshake_quiet]. destruct (sharedSecret _ _); [|by apply set_handshake_quiet].
  destruct (KDF3 _ _) as [[? ?] ?]. by apply set_handshake_quiet.
Qed.
Lemma ConsumeMessageInitiation_quiet m now now' d : quiet d (ConsumeMessageInitiation m now now' d).1.
Proof.
  unfold ConsumeMessageInitiation. destruct (consume_initiation_check m now d) as [v|]; [|done]. cbn [fst]. unfold consume_initiation_update.
  destruct (peers d !! vPeer v) eqn:Hx; [|done]. by apply set_handshake_quiet.
Qed.
Lemma ConsumeMessageResponse_quiet m d : quiet d (ConsumeMessageResponse m d).1.
Proof.
  unfold ConsumeMessageResponse. destruct (consume_response_check m d) as [v|]; [|done]. unfold consume_response_update.
  destruct (peers d !! wHandshake v) eqn:Hx; [|done]. destruct (negb _); [done|]. by apply set_handshake_quiet.
Qed.
Lemma DeleteKeypair_peers d k : peers (DeleteKeypair d k) = peers d.
Proof. unfold DeleteKeypair. by destruct (k ≫= _). Qed.
Lemma reject_pair_peers d k : peers (reject_pair d k) = peers d.
Proof. unfold reject_pair. destruct k; [|done]. by destruct (pairs d !! _). Qed.
Lemma ReceivedWithKeypair_quiet k d : quiet d (ReceivedWithKeypair p k d).1.
Proof.
  unfold ReceivedWithKeypair. destruct (peers d !! p) as [x|] eqn:Hx; [|done]. case_bool_decide as Hn; [|done]. cbn [negb fst].
  unfold quiet, has_keys, set_keypairs. rewrite DeleteKeypair_peers, Hx. unfold peer_keypairs, peer_running. cbn [peers with_peer].
  rewrite DeleteKeypair_peers, lookup_insert_eq, Hx. cbn. split; [|done]. intros _ Hk. rewrite Hk in Hn. done.
Qed.
Lemma ExpireCurrentKeypairs_quiet now d : quiet d (ExpireCurrentKeypairs p now d).
Proof.
  unfold ExpireCurrentKeypairs. destruct (peers d !! p) as [x|] eqn:Hx; [|done]. cbv zeta.
  set (d1 := set_handshake _ _ _ _). transitivity d1; [by apply set_handshake_quiet|]. apply peers_quiet. by rewrite !reject_pair_peers.
Qed.
Lemma DeleteKeypair_running d k : peer_running p (DeleteKeypair d k) = peer_running p d.
Proof. unfold peer_running. by rewrite DeleteKeypair_peers. Qed.
Lemma set_keypairs_running d k : peer_running p (set_keypairs d p k) = peer_running p d.
Proof.
  unfold set_keypairs, peer_running. destruct (peers d !! p) eqn:Hx; [|by rewrite Hx]. cbn [peers with_peer]. by rewrite lookup_insert_eq.
Qed.
Lemma count_handshake_running d : peer_running p (count_handshake d p) = peer_running p d.
Proof.
  unfold count_handshake, peer_running. destruct (peers d !! p) eqn:Hx; [|by rewrite Hx]. cbn [peers with_peer]. by rewrite lookup_insert_eq.
Qed.
Lemma rotate_running k b d : peer_running p (rotate p k b d) = peer_running p d.
Proof.
  unfold rotate. destruct (peers d !! p) as [x|]; [|done]. cbv zeta.
  destruct b; [destruct (next (keypairs x))|]; by rewrite set_keypairs_running, !DeleteKeypair_running.
Qed.
Lemma BeginSymmetricSession_running now d : peer_running p (BeginSymmetricSession p now d).1 = peer_running p d.
Proof.
  unfold BeginSymmetricSession. destruct (peers d !! p) as [x|] eqn:Hx; [|done]. destruct (derive_keys _) as [[[sk rk] b]|?|]; [|done|done].
  cbn [fst]. cbv zeta. rewrite count_handshake_running, rotate_running. unfold peer_running, set_handshake. cbn [peers with_peer].
  by rewrite lookup_insert_eq, Hx.
Qed.
Lemma BeginSymmetricSession_fails now d d' e : BeginSymmetricSession p now d = (d', e) → e ≠ Ok () → d' = d.
Proof.
  unfold BeginSymmetricSession. destruct (peers d !! p) as [x|]; [|by intros [= <- <-]].
  destruct (derive_keys _) as [[[sk rk] b]|?|]; [|by intros [= <- <-]..]. intros [= _ <-]. done.
Qed.
Lemma ZeroAndFlushAll_keys d : ¬ has_keys (ZeroAndFlushAll p d) ∧ peer_running p (ZeroAndFlushAll p d) = peer_running p d.
Proof.
  unfold ZeroAndFlushAll, has_keys, peer_keypairs, peer_running. destruct (peers d !! p) as [x|] eqn:Hx; [|rewrite Hx; naive_solver].
  cbn [peers with_peer]. rewrite lookup_insert_eq. naive_solver.
Qed.

(** ** Calm operations

    They give no keys, and of what the invariant looks at they change at most the
    keepalive, by deleting it. *)
Record calm (s s' : tsys) : Prop := MkCalm
  { calm_dev : quiet (dev s) (dev s');
    calm_up : up s' = up s; calm_deriving : deriving s' = deriving s; calm_derived : derivedAt s' = derivedAt s;
    calm_orphaned : orphaned s' = orphaned s; calm_unanswered : unanswered s' = unanswered s;
    calm_zero : timer (tm s') zeroKeyMaterial = timer (tm s) zeroKeyMaterial;
    calm_new : timer (tm s') newHandshake = timer (tm s) newHandshake;
    calm_owed : owed s' = None ∧ isPending (timer (tm s') sendKeepalive) = false
                ∨ owed s' = owed s ∧ timer (tm s') sendKeepalive = timer (tm s) sendKeepalive }.

Lemma calm_refl s : calm s s.
Proof. split; auto; reflexivity. Qed.
Lemma calm_trans a b c : calm a b → calm b c → calm a c.
Proof.
  intros [] []. split; try congruence; [by transitivity (dev b)|].
  destruct calm_owed1 as [?|[Ho Ht]]; [by left|]. rewrite Ho, Ht. done.
Qed.
Lemma calm_same d m s : quiet (dev s) d → (∀ w, w ≠ retransmitHandshake → w ≠ persistentKeepalive → timer m w = timer (tm s) w) →
  calm s (with_dev (with_tm s m) d).
Proof. intros Hd Hm. assert (Ho : timer m sendKeepalive = timer (tm s) sendKeepalive) by (by apply Hm). split; cbn; auto. Qed.
Lemma calm_tm m s : (∀ w, w ≠ retransmitHandshake → w ≠ persistentKeepalive → timer m w = timer (tm s) w) → calm s (with_tm s m).
Proof. intros Hm. apply (calm_same (dev s) m s); [reflexivity|done]. Qed.
Lemma calm_device d s : quiet (dev s) d → calm s (with_dev s d).
Proof. intros Hd. apply (calm_same d (tm s) s); [done|done]. Qed.
Lemma calm_staged l u s : calm s (with_staged s l u).
Proof. split; auto; reflexivity. Qed.

Lemma set_timer_other w t m w' : w' ≠ w → timer (set_timer w t m) w' = timer m w'.
Proof. intros. unfold set_timer. cbn. by rewrite decide_False. Qed.
Lemma set_timer_same w t m : timer (set_timer w t m) w = t.
Proof. unfold set_timer. cbn. by rewrite decide_True. Qed.

Lemma traversal_calm now s : calm s (traversal p now s).
Proof.
  apply calm_tm. intros w _ Hw. unfold timersAnyAuthenticatedPacketTraversal. cbv zeta. destruct (_ && _); [|done]. by apply set_timer_other.
Qed.
Lemma packet_sent_calm s : calm s (packet_sent p s).
Proof.
  unfold packet_sent, timersAnyAuthenticatedPacketSent. destruct (timersActive p s); [|split; cbn; auto; reflexivity].
  split; cbn; auto. reflexivity.
Qed.
Lemma handshake_complete_calm now s : calm s (handshake_complete p now s).
Proof. apply calm_tm. intros w Hw _. cbn. destruct (timersActive p s); [|done]. by apply set_timer_other. Qed.

Lemma initiation_calm isRetry lk now s : calm s (Peer_SendHandshakeInitiation p isRetry lk now s).
Proof.
  unfold Peer_SendHandshakeInitiation. set (s1 := if isRetry then s else _).
  apply (calm_trans _ s1); [subst s1; destruct isRetry; [apply calm_refl|by apply calm_tm]|]. clearbody s1. clear s.
  destruct (peers (dev s1) !! p) as [x|]; [|apply calm_refl]. destruct (sent_recently _ _); [apply calm_refl|].
  pose proof (CreateMessageInitiation_quiet (lkRandom lk) (lkStamp lk) (lkDraws lk) (touch_sent p now (dev s1))) as Hq.
  destruct (CreateMessageInitiation _ _ _ _ _) as [d out]. cbn [fst] in Hq.
  assert (Hd : calm s1 (with_dev s1 d)) by (apply calm_device; transitivity (touch_sent p now (dev s1)); [apply touch_sent_quiet|done]).
  destruct out as [[m|e|]|]; try exact Hd. apply (calm_trans _ _ _ Hd). eapply calm_trans; [apply traversal_calm|].
  eapply calm_trans; [apply packet_sent_calm|]. apply calm_tm. intros w Hw _. unfold timersHandshakeInitiated.
  destruct (timersActive p _); [|done]. by apply set_timer_other.
Qed.
Lemma staged_calm lk now s : calm s (SendStagedPackets p lk now s).
Proof.
  unfold SendStagedPackets. destruct (staged s) as [|c l] eqn:Hst; [apply calm_refl|]. destruct (negb (up s)); [apply calm_refl|].
  destruct (current_pair p (dev s)) as [[k kp]|]; [|apply initiation_calm].
  destruct (send_staged _ _ _ _ _ _) as [[[kp' staged'] sent] r].
  assert (Hd : calm s (with_staged (with_dev s (with_pairs (dev s) (<[k:=kp']> (pairs (dev s))))) staged' (unsent s ++ sent))).
  { eapply calm_trans; [apply calm_device|apply calm_staged]. by apply peers_quiet. }
  destruct r; try exact Hd. eapply calm_trans; [exact Hd|apply initiation_calm].
Qed.
Lemma keepalive_calm lk now s : calm s (SendKeepalive p lk now s).
Proof.
  unfold SendKeepalive. eapply calm_trans; [|apply staged_calm]. destruct (staged s); [|apply calm_refl].
  destruct (peer_running p (dev s)); [apply calm_staged|apply calm_refl].
Qed.
Lemma receive_valid_calm lk now s k : calm s (receive_valid p lk now s k).
Proof.
  unfold receive_valid. pose proof (ReceivedWithKeypair_quiet k (dev s)) as Hq. destruct (ReceivedWithKeypair p k (dev s)) as [d b]. cbn [fst] in Hq.
  destruct b; [|by apply calm_device]. eapply calm_trans; [apply calm_device, Hq|]. eapply calm_trans; [apply handshake_complete_calm|apply staged_calm].
Qed.
Lemma receive_valids_calm lk now ks : ∀ s, calm s (foldl (receive_valid p lk now) s ks).
Proof. induction ks as [|k ks IH]; intros s; [apply calm_refl|]. eapply calm_trans; [apply receive_valid_calm|apply IH]. Qed.
Lemma keep_fresh_calm lk now s : calm s (keep_fresh_receiving p lk now s).
Proof.
  unfold keep_fresh_receiving. destruct (keepKeyFreshReceiving _ _ _) as [b due]. destruct due; [|by apply calm_tm].
  eapply calm_trans; [|apply initiation_calm]. by apply calm_tm.
Qed.

Lemma calm_tinv s s' : calm s s' → tinv s → tinv s'.
Proof.
  intros [Cd Cu Cv Cda Co Cun Cz Cn Cow] [Ik Iz Is Io]. split.
  - intros Hk%Cd. rewrite Cda, Co, Cv. auto.
  - intros t. rewrite Cda. intros Ht%Iz. unfold covers. by rewrite Cz.
  - rewrite Cun. unfold watched, covers. by rewrite Cn.
  - destruct Cow as [[-> Hp]|[-> Ht]]; [done|]. unfold watched, covers. by rewrite Ht.
Qed.

(** ** Every step keeps the invariant *)

(** What the runtime promises of fastrandn. *)
Definition ev_ok (e : ev) : Prop := match e with EvSend _ _ lk => 0 ≤ lkJitter lk < RekeyTimeoutJitterMaxMs | _ => True end.

Lemma packet_received_tinv s : tinv s → tinv (packet_received p s).
Proof.
  intros [Ik Iz Is Io]. unfold packet_received, timersAnyAuthenticatedPacketReceived. destruct (timersActive p s); split; cbn; auto.
Qed.
Lemma data_sent_tinv now j s : 0 ≤ j < RekeyTimeoutJitterMaxMs → tinv s → tinv (data_sent p now j s).
Proof.
  intros Hj [Ik Iz Is Io]. unfold data_sent, timersDataSent. destruct (timersActive p s); cbn [andb]; [|by split].
  unfold IsPending. destruct (unanswered s) as [t|] eqn:Hu; cbn [watched] in Is.
  - pose proof Is as [Hp _]. rewrite Hp. cbn [negb]. split; cbn; auto.
  - rewrite Is. cbn [negb]. split; cbn; auto. split; [done|]. right. eexists. split; [done|].
    unfold silenceLimit, millisecond in *. lia.
Qed.
Lemma data_received_tinv now s : tinv s → tinv (data_received p now s).
Proof.
  intros [Ik Iz Is Io]. unfold data_received, timersDataReceived. destruct (timersActive p s); [|by split].
  unfold IsPending. destruct (owed s) as [t|] eqn:Hu; cbn [watched] in Io.
  - pose proof Io as [Hp _]. rewrite Hp. cbn [negb]. split; cbn; auto.
  - rewrite Io. cbn [negb]. split; cbn; auto. split; [done|]. right. eexists. split; [done|]. lia.
Qed.

Lemma session_derived_tinv now l s : tinv s → tinv (session_derived p now (with_deriving s l)).
Proof.
  intros [Ik Iz Is Io]. unfold session_derived, timersSessionDerived, timersActive. cbn [dev up with_deriving tm orphaned derivedAt].
  destruct (_ && _); split; cbn; auto. intros t [= <-]. split; [done|]. right. eexists. split; [done|].
  unfold keysLifetime. lia.
Qed.
Lemma began_tinv b now s : tinv s →
  tinv (let '(d, began) := BeginSymmetricSession p now (dev s) in
        let s := with_dev s d in match began with Ok _ => with_deriving s (deriving s ++ [b]) | _ => s end).
Proof.
  intros HI. destruct (BeginSymmetricSession p now (dev s)) as [d e] eqn:E. destruct e as [[]|e|].
  - destruct HI as [Ik Iz Is Io]. split; cbn; auto. intros _. right. right. by destruct (deriving s).
  - apply BeginSymmetricSession_fails in E as ->; [|done]. by destruct s.
  - apply BeginSymmetricSession_fails in E as ->; [|done]. by destruct s.
Qed.
Lemma tinv_dev d s : (has_keys d → has_keys (dev s)) → tinv s → tinv (with_dev s d).
Proof. intros Hk [Ik Iz Is Io]. split; cbn; auto. Qed.

Lemma begin_response_tinv lk now s : tinv s → tinv (begin_response p lk now s).
Proof.
  intros HI. unfold begin_response. pose proof (CreateMessageResponse_quiet (lkRandom lk) (lkDraws lk) (touch_sent p now (dev s))) as Hq.
  destruct (CreateMessageResponse _ _ _ _) as [d out]. cbn [fst] in Hq.
  assert (HI' : tinv (with_dev s d)).
  { apply tinv_dev; [|done]. intros Hk%Hq. by apply touch_sent_quiet in Hk. }
  destruct out as [[m|e|]|]; try exact HI'. by apply (began_tinv false now (with_dev s d)).
Qed.
Lemma received_tinv now d s : quiet (dev s) d → tinv s → tinv (packet_received p (traversal p now (with_dev s d))).
Proof.
  intros Hq HI. apply packet_received_tinv. eapply calm_tinv; [apply traversal_calm|]. by apply tinv_dev; [apply Hq|].
Qed.
Lemma receive_initiation_tinv m lk now s : tinv s → tinv (receive_initiation p m lk now s).
Proof.
  intros HI. unfold receive_initiation. pose proof (ConsumeMessageInitiation_quiet m now now (dev s)) as Hq.
  destruct (ConsumeMessageInitiation _ _ _ _) as [d q]. case_bool_decide; [|done]. by apply begin_response_tinv, received_tinv.
Qed.
Lemma receive_response_tinv m now s : tinv s → tinv (receive_response p m now s).
Proof.
  intros HI. unfold receive_response. pose proof (ConsumeMessageResponse_quiet m (dev s)) as Hq.
  destruct (ConsumeMessageResponse _ _) as [d q]. case_bool_decide; [|done]. by apply began_tinv, received_tinv.
Qed.
Lemma derived_tinv b l lk now s : tinv s → tinv (derived p b lk now (with_deriving s l)).
Proof.
  intros HI. unfold derived. apply (session_derived_tinv now l) in HI. destruct b.
  - eapply calm_tinv; [|exact HI]. eapply calm_trans; [apply handshake_complete_calm|apply keepalive_calm].
  - eapply calm_tinv; [|exact HI]. eapply calm_trans; [apply traversal_calm|apply packet_sent_calm].
Qed.
Lemma receive_transport_tinv ks data lk now s : tinv s → tinv (receive_transport p ks data lk now s).
Proof.
  intros HI. unfold receive_transport. set (s1 := foldl _ s ks). assert (HI1 : tinv s1) by (eapply calm_tinv; [apply receive_valids_calm|done]).
  assert (HI2 : tinv (match ks with [] => s1 | _ => packet_received p (traversal p now (keep_fresh_receiving p lk now s1)) end)).
  { destruct ks; [done|]. apply packet_received_tinv. eapply calm_tinv; [|exact HI1]. eapply calm_trans; [apply keep_fresh_calm|apply traversal_calm]. }
  destruct data; [by apply data_received_tinv|done].
Qed.
Lemma send_batch_tinv batch rest ok lk now s : 0 ≤ lkJitter lk < RekeyTimeoutJitterMaxMs → tinv s → tinv (send_batch p batch rest ok lk now s).
Proof.
  intros Hj HI. unfold send_batch. set (s1 := with_staged s (staged s) rest). assert (HI1 : tinv s1) by (eapply calm_tinv; [apply calm_staged|done]).
  destruct (negb _); [done|]. set (s2 := packet_sent p (traversal p now s1)).
  assert (HI2 : tinv s2) by (eapply calm_tinv; [|exact HI1]; eapply calm_trans; [apply traversal_calm|apply packet_sent_calm]).
  set (s3 := if existsb _ batch then _ else s2). assert (HI3 : tinv s3) by (subst s3; destruct (existsb _ _); [by apply data_sent_tinv|done]).
  destruct (ok && _); [|done]. by eapply calm_tinv; [apply initiation_calm|].
Qed.

(** *** The runtime's part *)

Lemma fires_covers now w t m w' b : timer_fires now (timer m w) = Some t → covers m w' b → covers (set_timer w t m) w' b.
Proof.
  unfold timer_fires. intros Hf [Hp Hb]. destruct (decide (w' = w)) as [->|Hne]; unfold covers; [|by rewrite set_timer_other].
  rewrite set_timer_same. destruct (armed (timer m w)) as [d|]; [|done]. destruct (d <=? now); [|done]. injection Hf as <-. cbn. split; [done|]. left. lia.
Qed.
Lemma fires_pending now w t m w' : timer_fires now (timer m w) = Some t → isPending (timer (set_timer w t m) w') = isPending (timer m w').
Proof.
  unfold timer_fires. intros Hf. destruct (decide (w' = w)) as [->|Hne]; [|by rewrite set_timer_other].
  rewrite set_timer_same. destruct (armed (timer m w)) as [d|]; [|done]. destruct (d <=? now); [|done]. by injection Hf as <-.
Qed.
Lemma fires_watched now w t m w' o b : timer_fires now (timer m w) = Some t → watched m w' o b → watched (set_timer w t m) w' o b.
Proof. intros Hf. unfold watched. destruct o; [by eapply fires_covers|]. by rewrite (fires_pending now w t m w' Hf). Qed.
Lemma fire_tinv now w t s : timer_fires now (timer (tm s) w) = Some t → tinv s → tinv (with_tm s (set_timer w t (tm s))).
Proof. intros Hf [Ik Iz Is Io]. split; cbn [dev derivedAt orphaned deriving unanswered owed tm with_tm]; eauto using fires_covers, fires_watched. Qed.

(** A callback that finds the flag cleared does nothing that matters. *)
Lemma stale_callback_watched w a n m w' o b : isPending (timer m w) = false → watched m w' o b → watched (set_timer w (MkTimer false a n) m) w' o b.
Proof.
  intros Hp. destruct (decide (w' = w)) as [->|Hne]; unfold watched, covers; [|by rewrite set_timer_other].
  rewrite set_timer_same, Hp. destruct o; [by intros [? _]|done].
Qed.
Lemma stale_callback_tinv w a n s : isPending (timer (tm s) w) = false → tinv s → tinv (with_tm s (set_timer w (MkTimer false a n) (tm s))).
Proof.
  intros Hp [Ik Iz Is Io]. split; cbn [dev derivedAt orphaned deriving unanswered owed tm with_tm]; eauto using stale_callback_watched.
  intros t Ht. apply (stale_callback_watched w a n (tm s) zeroKeyMaterial (Some t) keysLifetime Hp). by apply Iz.
Qed.

Lemma wipe_tinv s : watched (tm s) newHandshake (unanswered s) silenceLimit → watched (tm s) sendKeepalive (owed s) KeepaliveTimeout → tinv (wipe p s).
Proof. intros Is Io. split; cbn; auto; [|done]. intros Hk. by apply ZeroAndFlushAll_keys in Hk. Qed.

Lemma retransmit_tinv lk now s : tinv s → tinv (expiredRetransmitHandshake p lk now s).
Proof.
  intros HI. unfold expiredRetransmitHandshake. destruct (_ <? _).
  - set (s1 := FlushStagedPackets _). assert (HI1 : tinv s1).
    { destruct HI as [Ik Iz Is Io]. subst s1. destruct (timersActive p s); split; cbn; auto. }
    clearbody s1. destruct (timersActive p s1 && _) eqn:Ea; [|done]. apply andb_true_iff in Ea as [_ Hn%negb_true_iff]. unfold IsPending in Hn.
    destruct HI1 as [Ik Iz Is Io]. split; cbn; auto. intros t Ht. destruct (Iz t Ht) as [Hp _]. congruence.
  - eapply calm_tinv; [apply initiation_calm|]. destruct HI as [Ik Iz Is Io]. split; cbn; auto.
Qed.
Lemma keepalive_expired_tinv lk now s : tinv s → owed s = None → tinv (expiredSendKeepalive p lk now s).
Proof.
  intros HI Ho. unfold expiredSendKeepalive. pose proof (keepalive_calm lk now s) as Hc. pose proof (calm_tinv _ _ Hc HI) as HI1.
  set (s1 := SendKeepalive p lk now s) in *. clearbody s1. destruct (needAnotherKeepalive (tm s1)); [|done].
  destruct (timersActive p _); [|by destruct HI1; split].
  destruct HI1 as [Ik Iz Is Io]. split; cbn; auto. split; [done|]. right. eexists. split; [done|]. lia.
Qed.
(** An expiration that the flag announced. *)
Lemma expired_tinv w a n lk now s : tinv s → tinv (expired p w lk now (with_tm s (set_timer w (MkTimer false a n) (tm s)))).
Proof.
  intros [Ik Iz Is Io]. destruct w; unfold expired.
  - apply retransmit_tinv. split; cbn; auto.
  - apply keepalive_expired_tinv; [|done]. split; cbn; auto.
  - unfold expiredNewHandshake. eapply calm_tinv; [apply initiation_calm|]. split; cbn; auto.
  - apply wipe_tinv; cbn; auto.
  - unfold expiredPersistentKeepalive. assert (HI : tinv (with_tm s (set_timer persistentKeepalive (MkTimer false a n) (tm s)))) by (split; cbn; auto).
    destruct (_ <? _); [|done]. by eapply calm_tinv; [apply keepalive_calm|].
Qed.
Lemma callback_tinv w r lk now s : timer_callback (timer (tm s) w) = Some r → tinv s →
  let s' := with_tm s (set_timer w r.1 (tm s)) in tinv (if r.2 then expired p w lk now s' else s').
Proof.
  unfold timer_callback. destruct (fired (timer (tm s) w)) as [|n]; [done|]. intros [= <-] HI. cbn [fst snd].
  destruct (isPending (timer (tm s) w)) eqn:Hp; [by apply expired_tinv|by apply stale_callback_tinv].
Qed.

(** *** Start and stop *)

Lemma Start_keys now d : has_keys (Start p false now d) → has_keys d.
Proof.
  unfold Start, has_keys, peer_keypairs, set_running, set_handshake. destruct (peers d !! p) as [x|] eqn:Hx; [|by rewrite Hx].
  destruct (isRunning x); [by rewrite Hx|]. cbn [peers with_peer]. rewrite lookup_insert_eq. cbn [peers with_peer]. by rewrite lookup_insert_eq.
Qed.
Lemma Stop_keys d : peer_running p d = true → ¬ has_keys (Stop p d).
Proof.
  unfold Stop, peer_running. destruct (peers d !! p) as [x|]; [|done]. intros ->. apply ZeroAndFlushAll_keys.
Qed.
Lemma Peer_Start_tinv now s : tinv s → tinv (Peer_Start p now s).
Proof.
  intros [Ik Iz Is Io]. unfold Peer_Start. destruct (peer_running p (dev s)); [by split|]. split; cbn; auto. intros Hk%Start_keys. auto.
Qed.
Lemma Peer_Stop_tinv s : tinv s → tinv (Peer_Stop p s).
Proof.
  intros HI. unfold Peer_Stop. destruct (peer_running p (dev s)) eqn:Hr; [|done]. split; cbn; auto; [|done]. intros Hk. by apply Stop_keys in Hk.
Qed.

Lemma step_tinv e now s s' : ev_ok e → tinv s → step p e now s = Some s' → tinv s'.
Proof.
  intros He HI. destruct e; cbn [step ev_ok] in *.
  - intros (t & Ht & [= <-])%bind_Some. by eapply fire_tinv.
  - intros (r & Hr & [= <-])%bind_Some. by apply (callback_tinv w r lk now s).
  - intros [= <-]. destruct (peer_running p (dev s)); [|done]. eapply calm_tinv; [|done]. eapply calm_trans; [apply calm_staged|apply staged_calm].
  - destruct (take n (unsent s)) as [|b l]; [done|]. intros [= <-]. by apply send_batch_tinv.
  - intros [= <-]. by apply receive_initiation_tinv.
  - intros [= <-]. by apply receive_response_tinv.
  - intros (b & Hb & [= <-])%bind_Some. by apply derived_tinv.
  - intros Hs. assert (E : s' = receive_transport p ks data lk now s) by (destruct ks, data; congruence). rewrite E. by apply receive_transport_tinv.
  - intros [= <-]. apply tinv_dev; [|done]. apply ExpireCurrentKeypairs_quiet.
  - destruct (_ || _); [done|]. intros [= <-]. assert (HI1 : tinv (Peer_Start p now (with_up s true))) by (apply Peer_Start_tinv; by destruct HI; split).
    destruct (_ <? _); [|done]. by eapply calm_tinv; [apply keepalive_calm|].
  - intros [= <-]. by destruct HI; split.
  - intros [= <-]. by apply Peer_Stop_tinv.
  - destruct (negb _); [done|]. intros [= <-]. apply (Peer_Start_tinv now) in HI. eapply calm_tinv; [|exact HI].
    eapply calm_trans; [|apply staged_calm]. destruct keepalive; [apply keepalive_calm|apply calm_refl].
Qed.
Lemma run_tinv es : ∀ s s', Forall (fun e => ev_ok e.1) es → tinv s → run p es s = Some s' → tinv s'.
Proof.
  induction es as [|[e now] es IH]; intros s s' Hok HI; cbn [run]; [by intros [= <-]|]. apply Forall_cons in Hok as [He Hok].
  intros (s1 & Hs & Hr)%bind_Some. eapply IH; [done| |done]. by eapply step_tinv.
Qed.

Definition new_peer (d : Device) (b : bool) (keepalive : Z) : tsys := MkTsys d b (timersInit keepalive) [] [] false [] None false None None.
Definition reachable (s : tsys) : Prop :=
  ∃ d b keepalive es, ¬ has_keys d ∧ Forall (fun e => ev_ok e.1) es ∧ run p es (new_peer d b keepalive) = Some s.
Lemma reachable_tinv s : reachable s → tinv s.
Proof. intros (d & b & keepalive & es & Hk & Hok & Hr). eapply run_tinv; [done| |done]. by split; cbn. Qed.

(** ** Keys *)

Lemma wipe_expires lk now s s' : step p (EvCallback zeroKeyMaterial lk) now s = Some s' → isPending (timer (tm s) zeroKeyMaterial) = true →
  ¬ has_keys (dev s').
Proof.
  cbn [step]. intros (r & Hr & [= <-])%bind_Some Hp. unfold timer_callback in Hr. destruct (fired _); [done|]. injection Hr as <-.
  cbn [snd]. rewrite Hp. apply ZeroAndFlushAll_keys.
Qed.


(** ** Silence *)

Lemma touch_sent_last now d x : peers d !! p = Some x → peers (touch_sent p now d) !! p = Some (with_handshake x (with_sent (handshake x) (Some now))).
Proof. intros Hx. unfold touch_sent, set_handshake. rewrite Hx. cbn [peers with_peer]. by rewrite lookup_insert_eq. Qed.
(** When the last handshake message was sent. *)
Definition last_sent (d : Device) : option Z := x ← peers d !! p; lastSentHandshake (handshake x).
Lemma set_handshake_last d x h : last_sent (set_handshake d p x h) = lastSentHandshake h.
Proof. unfold last_sent, set_handshake. cbn [peers with_peer]. by rewrite lookup_insert_eq. Qed.
Lemma CreateMessageInitiation_last rnd stamp draws d : last_sent (CreateMessageInitiation p rnd stamp draws d).1 = last_sent d.
Proof.
  unfold CreateMessageInitiation. destruct (peers d !! p) as [x|] eqn:Hx; [|done].
  assert (Hl : last_sent d = lastSentHandshake (handshake x)) by (unfold last_sent; by rewrite Hx).
  destruct (newPrivateKey rnd) as [sk failed]. destruct failed; cbn [fst]; [by rewrite set_handshake_last|]. cbv zeta.
  destruct (sharedSecret _ _); cbn [fst]; [|by rewrite set_handshake_last].
  destruct (KDF2 _ _). destruct (isZero _); cbn [fst]; [by rewrite set_handshake_last|]. destruct (KDF2 _ _).
  destruct (NewIndexForHandshake _ _ _) as [[[t i] []]|]; cbn [fst]; by rewrite set_handshake_last.
Qed.

(** After SendHandshakeInitiation a handshake message has been sent, or tried,
    less than RekeyTimeout ago. *)
Lemma initiation_recent isRetry lk now s : is_Some (peers (dev s) !! p) →
  sent_recently now (last_sent (dev (Peer_SendHandshakeInitiation p isRetry lk now s))) = true.
Proof.
  intros [x Hx]. unfold Peer_SendHandshakeInitiation. set (s1 := if isRetry then s else _).
  assert (Hd : dev s1 = dev s) by (by destruct isRetry). rewrite Hd, Hx.
  assert (Hl : last_sent (dev s) = lastSentHandshake (handshake x)) by (unfold last_sent; by rewrite Hx).
  destruct (sent_recently now (lastSentHandshake (handshake x))) eqn:Er; [by rewrite Hd, Hl|].
  pose proof (CreateMessageInitiation_last (lkRandom lk) (lkStamp lk) (lkDraws lk) (touch_sent p now (dev s))) as Hc.
  destruct (CreateMessageInitiation _ _ _ _ _) as [d out]. cbn [fst] in Hc.
  assert (Ht : last_sent (touch_sent p now (dev s)) = Some now) by (unfold last_sent; by rewrite (touch_sent_last now _ x Hx)).
  rewrite Ht in Hc. assert (Hs : sent_recently now (last_sent d) = true).
  { rewrite Hc. cbn. apply Z.ltb_lt. unfold RekeyTimeout. lia. }
  destruct out as [[m|e|]|]; exact Hs.
Qed.


(** ** Retries *)

(** A handshake has been started and [n] retries of it sent; the next one is due
    when its timer expires. *)
Definition awaiting (n : Z) (s : tsys) : Prop :=
  handshakeAttempts (tm s) = n ∧ timersActive p s = true
  ∧ ∃ t d, last_sent (dev s) = Some t ∧ timer (tm s) retransmitHandshake = MkTimer true (Some d) 0 ∧ t + RekeyTimeout ≤ d.
(** The timer expires: the runtime starts its callback at [now], which runs at [now']. *)
Definition expires (lk : luck) (now now' : Z) (s s' : tsys) : Prop :=
  now ≤ now' ∧ ∃ s1, step p (EvFire retransmitHandshake) now s = Some s1 ∧ step p (EvCallback retransmitHandshake lk) now' s1 = Some s'.
Definition creates (lk : luck) (now : Z) (s : tsys) : Prop :=
  0 ≤ lkJitter lk ∧ ∃ m, (CreateMessageInitiation p (lkRandom lk) (lkStamp lk) (lkDraws lk) (touch_sent p now (dev s))).2 = Some (Ok m).
(** An expiry at which an initiation can be created. *)
Definition retries (s s' : tsys) : Prop := ∃ lk now now', expires lk now now' s s' ∧ creates lk now' s.

Lemma expires_spec n lk now now' s s' : awaiting n s → expires lk now now' s s' →
  (∃ t, last_sent (dev s) = Some t ∧ sent_recently now' (Some t) = false)
  ∧ s' = expiredRetransmitHandshake p lk now'
           (with_tm s (set_timer retransmitHandshake (MkTimer false None 0) (set_timer retransmitHandshake (MkTimer true None 1) (tm s)))).
Proof.
  intros (_ & _ & t & d & Hl & Ht & Hd) (Hle & s1 & H1 & H2). cbn [step] in H1. rewrite Ht in H1. unfold timer_fires in H1. cbn [armed] in H1.
  destruct (Z.leb_spec d now); [|done]. injection H1 as <-. split.
  - exists t. split; [done|]. cbn. apply Z.ltb_ge. lia.
  - unfold step in H2. cbn [tm with_tm] in H2. rewrite set_timer_same in H2. injection H2 as <-. done.
Qed.

Lemma retry_sends n s s' : awaiting n s → 0 ≤ n ≤ MaxTimerHandshakes → retries s s' → awaiting (n + 1) s'.
Proof.
  intros Ha Hn (lk & now & now' & He & Hj & m & Hm). destruct (expires_spec _ _ _ _ _ _ Ha He) as [(t & Hl & Hr) ->]. destruct Ha as (Hat & Hact & _).
  unfold expiredRetransmitHandshake. cbn [tm with_tm set_timer handshakeAttempts]. rewrite Hat.
  destruct (Z.ltb_spec MaxTimerHandshakes n); [lia|]. set (s1 := with_clearing _).
  assert (Hd1 : dev s1 = dev s) by done. assert (Hu1 : up s1 = up s) by done.
  assert (Hn1 : handshakeAttempts (tm s1) = n + 1).
  { subst s1. cbn. apply wrap_small. assert (MaxTimerHandshakes = 157680000) by (vm_compute; reflexivity). lia. }
  assert (Ht1 : fired (timer (tm s1) retransmitHandshake) = 0%nat) by done. clearbody s1.
  unfold Peer_SendHandshakeInitiation. rewrite Hd1. unfold last_sent in Hl. apply bind_Some in Hl as (x & Hx & Hls). rewrite Hx, Hls, Hr.
  pose proof (CreateMessageInitiation_last (lkRandom lk) (lkStamp lk) (lkDraws lk) (touch_sent p now' (dev s))) as Hc.
  pose proof (CreateMessageInitiation_quiet (lkRandom lk) (lkStamp lk) (lkDraws lk) (touch_sent p now' (dev s))) as [_ Hq].
  pose proof (touch_sent_quiet now' (dev s)) as [_ Hq'].
  destruct (CreateMessageInitiation _ _ _ _ _) as [d' out]. cbn [fst snd] in *. subst out.
  assert (Hrun : peer_running p d' && up s = true) by (rewrite Hq, Hq'; exact Hact).
  unfold awaiting, packet_sent, traversal, timersActive. cbn [tm dev up with_tm with_owed with_dev]. rewrite Hu1, !Hrun. unfold timersHandshakeInitiated.
  split_and!; [|done|].
  - unfold timersAnyAuthenticatedPacketSent, timersAnyAuthenticatedPacketTraversal. cbv zeta. destruct (0 <? persistentKeepaliveInterval (tm s1)); exact Hn1.
  - exists now', (now' + (RekeyTimeout + millisecond * lkJitter lk)). split_and!.
    + rewrite Hc. unfold last_sent. by rewrite (touch_sent_last now' (dev s) x Hx).
    + unfold Mod. rewrite set_timer_same. unfold Timer_Mod. f_equal.
      unfold timersAnyAuthenticatedPacketSent, timersAnyAuthenticatedPacketTraversal. cbv zeta. destruct (0 <? persistentKeepaliveInterval (tm s1)); exact Ht1.
    + unfold millisecond. lia.
Qed.

(** Giving up. *)
Lemma retries_end n lk now now' s s' : awaiting n s → MaxTimerHandshakes < n → expires lk now now' s s' →
  staged s' = [] ∧ dev s' = dev s ∧ IsPending retransmitHandshake (tm s') = false ∧ IsPending zeroKeyMaterial (tm s') = true.
Proof.
  intros Ha Hn He. destruct (expires_spec _ _ _ _ _ _ Ha He) as [_ ->]. destruct Ha as (Hat & Hact & _).
  unfold expiredRetransmitHandshake. cbn [tm with_tm set_timer handshakeAttempts]. rewrite Hat.
  destruct (Z.ltb_spec MaxTimerHandshakes n); [|lia].
  set (s0 := with_tm s _). assert (Ha0 : timersActive p s0 = true) by exact Hact. rewrite Ha0. cbv zeta.
  set (s1 := FlushStagedPackets _). assert (Ha1 : timersActive p s1 = true) by exact Hact. rewrite Ha1. cbn [andb].
  destruct (IsPending zeroKeyMaterial (tm s1)) eqn:Ez; cbn [negb]; split_and!; done.
Qed.

(** An unanswered handshake is retried exactly as often as intended.  After an
    initiation has been sent, every expiry of its timer at which another one can
    be created sends it and sets the timer again, for MaxTimerHandshakes + 1
    retries; the next expiry sends nothing, drops what is staged and leaves only
    the timer that wipes the keys. *)
Theorem handshake_retried k s s' : awaiting 0 s → nsteps retries k s s' → Z.of_nat k ≤ MaxTimerHandshakes + 1 →
  awaiting (Z.of_nat k) s'
  ∧ (Z.of_nat k = MaxTimerHandshakes + 1 → ∀ lk now now' s'', expires lk now now' s' s'' →
       staged s'' = [] ∧ dev s'' = dev s' ∧ IsPending retransmitHandshake (tm s'') = false ∧ IsPending zeroKeyMaterial (tm s'') = true).
Proof.
  intros Ha Hk Hle. enough (Hw : awaiting (Z.of_nat k) s').
  { split; [done|]. intros Heq lk now now' s'' He. eapply retries_end; [done| |done]. lia. }
  revert s' Hk Hle. induction k as [|k IH]; intros s' Hk Hle; [by inv Hk|].
  apply nsteps_inv_r in Hk as (s1 & Hk & Hr). replace (Z.of_nat (S k)) with (Z.of_nat k + 1) by lia.
  eapply retry_sends; [apply IH; [done|lia]|lia|done].
Qed.
End Props.

(** ** A tunnel in use *)

#[local] Existing Instance toy_crypto.
Definition seconds (n : Z) : Z := n * 1000000000.
Definition plain_luck : luck := MkLuck (dice 40) (stamp 100 0) [(7, false)] 5.
(** Alice's device before its peer is started. *)
Definition alice_off : Device := (NewPeer (publicKey bob_key) false (device_init alice_key)).1.
Definition tunnel (es : list (ev * Z)) : option tsys := run 0 es (new_peer alice_off false 25).
Definition tunnel_state (es : list (ev * Z)) : tsys := default (new_peer alice_off false 25) (tunnel es).
Definition ran (es : list (ev * Z)) : bool := match tunnel es with Some _ => true | None => false end.
Lemma tunnel_reachable es : ran es = true → Forall (fun e => ev_ok e.1) es → reachable 0 (tunnel_state es).
Proof.
  unfold ran, tunnel_state. intros Hr Hok. exists alice_off, false, 25, es. split_and!; [|done|].
  - intros Hk. apply Hk. vm_compute. reflexivity.
  - fold (tunnel es). by destruct (tunnel es).
Qed.

(** The device comes up, a packet starts a handshake, the answer derives a session. *)
Definition connect : list (ev * Z) :=
  [(EvUp plain_luck, seconds 1); (EvStage [bs "hi"] plain_luck, seconds 4); (EvResponse reply, seconds 5); (EvDerived 0 plain_luck, seconds 6)].
(** What was staged is sent. *)
Definition talk : list (ev * Z) := connect ++ [(EvSend 2 true plain_luck, seconds 7)].

Lemma connect_ok : Forall (fun e => ev_ok e.1) connect.
Proof. repeat constructor. Qed.
Lemma talk_ok : Forall (fun e => ev_ok e.1) talk.
Proof. repeat constructor; vm_compute; discriminate. Qed.



(** A handshake that is not answered, and its first retry. *)
Definition hail : tsys := tunnel_state (take 2 connect).
Definition hail_again : tsys := tunnel_state (take 2 connect ++ [(EvFire retransmitHandshake, seconds 7); (EvCallback retransmitHandshake plain_luck, seconds 7)]).
Lemma handshake_retried_witness : handshakeAttempts (tm hail) = 0 ∧ handshakeAttempts (tm hail_again) = 1
  ∧ last_sent 0 (dev hail_again) = Some (seconds 7).
Proof.
  split; [vm_compute; reflexivity|].
  assert (Ha : awaiting 0 0 hail).
  { split; [vm_compute; reflexivity|]. split; [vm_compute; reflexivity|].
    exists (seconds 4), (seconds 4 + (RekeyTimeout + millisecond * 5)). split; [vm_compute; reflexivity|]. split; [vm_compute; reflexivity|].
    vm_compute. discriminate. }
  assert (Hn : nsteps (retries 0) 1 hail hail_again).
  { apply nsteps_once. exists plain_luck, (seconds 7), (seconds 7). split.
    - split; [apply Z.le_refl|]. exists (tunnel_state (take 2 connect ++ [(EvFire retransmitHandshake, seconds 7)])). split; vm_compute; reflexivity.
    - split; [vm_compute; discriminate|]. eexists. vm_compute. reflexivity. }
  destruct (handshake_retried 0 1 hail hail_again Ha Hn ltac:(vm_compute; discriminate)) as [(Hat & _ & _) _].
  split; [exact Hat|vm_compute; reflexivity].
Defined.
