(* ===== verification/Validate.v ===== *)
(** * Validation and sample values

    src/internal/wusp/methods.go: the checks of a field against its parameter's
    type and limits, and the values with which the model is filled.  Regular
    expressions, base64 and CIDR notation are the class [TextLib]; a compiled
    expression is its text.  Errors keep their reason without the numbers that are
    formatted into it.  A float64 is its IEEE 754 bits. *)

From S2P Require Import Prelude GoStr Wire Codec Transport Request NetAddr DeviceModel.

Class TextLib : Type := {
  regexp_compiles : bytes → bool;
  MatchString : bytes → bytes → bool;
  base64_decodes : bytes → bool;
  base64_encode : bytes → bytes;
  ParseCIDR_ok : bytes → bool }.

(** ** Types *)

Definition TypeString : bytes := bs "string".
Definition TypeInt : bytes := bs "int".
Definition TypeUnsignedInt : bytes := bs "unsignedInt".
Definition TypeLong : bytes := bs "long".
Definition TypeUnsignedLong : bytes := bs "unsignedLong".
Definition TypeBoolean : bytes := bs "boolean".
Definition TypeDateTime : bytes := bs "dateTime".
Definition TypeBase64 : bytes := bs "base64".
Definition TypeHexBinary : bytes := bs "hexBinary".
Definition TypeDecimal : bytes := bs "decimal".
Definition TypeIPv4Address : bytes := bs "IPv4Address".
Definition TypeIPv6Address : bytes := bs "IPv6Address".
Definition TypeIPv4Prefix : bytes := bs "IPv4Prefix".
Definition TypeIPv6Prefix : bytes := bs "IPv6Prefix".
Definition TypeMACAddress : bytes := bs "MACAddress".
Definition TypeAlias : bytes := bs "Alias".
Definition TypeStatsCounter : bytes := bs "StatsCounter".
Definition TypePathRef : bytes := bs "PathRef".
Definition TypeList : bytes := bs "list".

Definition is_type (t : bytes) (ts : list bytes) : bool := bool_decide (t ∈ ts).
Definition TagForParamType (t : bytes) : Z :=
  if is_type t [TypeBoolean] then TagFalse
  else if is_type t [TypeInt; TypeLong] then TagInt
  else if is_type t [TypeUnsignedInt; TypeUnsignedLong; TypeStatsCounter] then TagUint
  else if is_type t [TypeDecimal] then TagFloat
  else if is_type t [TypeBase64; TypeHexBinary] then TagBytes
  else if is_type t [TypeDateTime] then TagTime
  else if is_type t [TypeIPv4Address] then TagIP4
  else if is_type t [TypeIPv6Address] then TagIP6
  else if is_type t [TypeIPv4Prefix] then TagIP4Pfx
  else if is_type t [TypeIPv6Prefix] then TagIP6Pfx
  else if is_type t [TypeMACAddress] then TagMAC
  else if is_type t [TypeList] then TagList
  else TagString.
Definition tagMatchesParamType (t : bytes) (tag : Z) : bool :=
  if is_type t [TypeBoolean] then (tag =? TagFalse) || (tag =? TagTrue) else tag =? TagForParamType t.

(** ** float64 *)

Definition float_mantissa (b : Z) : Z := b mod 2 ^ 52.
Definition float_exponent (b : Z) : Z := b / 2 ^ 52 mod 2 ^ 11.
Definition IsNaN (b : Z) : bool := (float_exponent b =? 2047) && negb (float_mantissa b =? 0).
Definition IsInf (b : Z) : bool := (float_exponent b =? 2047) && (float_mantissa b =? 0).
(** The order of the bits: sign and magnitude. *)
Definition float_key (b : Z) : Z := if b <? 2 ^ 63 then b else - (b - 2 ^ 63).
Definition float_lt (a b : Z) : bool := negb (IsNaN a) && negb (IsNaN b) && (float_key a <? float_key b).
(** float64(z), to the nearest, ties to even. *)
Definition float64_of_int (z : Z) : Z :=
  if z =? 0 then 0 else
  let sign := if z <? 0 then 2 ^ 63 else 0 in
  let a := Z.abs z in
  let n := Z.log2 a in
  let q := if n <=? 52 then a * 2 ^ (52 - n)
           else let s := n - 52 in
                let q := a / 2 ^ s in
                let r := a mod 2 ^ s in
                if (2 ^ (s - 1) <? r) || ((2 ^ (s - 1) =? r) && Z.odd q) then q + 1 else q in
  sign + (n + 1023) * 2 ^ 52 + (q - 2 ^ 52).

(** ** Constructors of values with an address *)

(** copy into a fresh slice of the length. *)
Definition copied (n : nat) (b : bytes) : bytes := take n (b ++ replicate n (z2b 0)).
Definition IP4 (v : IP) : Value := match To4 v with None => Null | Some v4 => MkValue TagIP4 0 0 (copied 4 v4) [] end.
Definition IP6 (v : IP) : Value := match To16 v with None => Null | Some v6 => MkValue TagIP6 0 0 (copied 16 v6) [] end.
(** The network's address and the length of its mask. *)
Definition IP4Prefix (ip : IP) (ones : Z) : Value := MkValue TagIP4Pfx 0 0 (copied 4 (default [] (To4 ip)) ++ [z2b (ones mod 256)]) [].
Definition IP6Prefix (ip : IP) (ones : Z) : Value := MkValue TagIP6Pfx 0 0 (copied 16 (default [] (To16 ip)) ++ [z2b (ones mod 256)]) [].
Definition MAC (v : bytes) : Value := MkValue TagMAC 0 0 (copied 6 v) [].

(** ** The parameter index *)

Record safeParamInfo := MkInfo
  { iParam : Param; iIndex : nat; iEnumSet : gset bytes; iPattern : option bytes; expectsBase64String : bool; listPathRef : bool; listCIDR : bool }.

Section Validation.
Context `{UnicodeCase} `{TextLib}.

Definition param_info (i : nat) (param : Param) : safeParamInfo :=
  let limits := mLimits param in
  let lowerPath := ToLower (mPath param) in
  let lowerDesc := ToLower (mDescription param) in
  MkInfo param i (list_to_set (lEnums limits)) (if (length (lPattern limits) =? 0)%nat then None else Some (lPattern limits))
    (bool_decide (mType param = TypeString) && Contains lowerDesc (bs "base64-encoded"))
    (bool_decide (mType param = TypeList) && Contains lowerDesc (bs "pathref"))
    (bool_decide (mType param = TypeList) && (Contains lowerPath (bs "allowedips") || Contains lowerPath (bs "prefix"))).
(** A pattern that does not compile is a panic of the program's start. *)
Fixpoint index_params (i : nat) (params : list Param) (index : gmap bytes safeParamInfo) : res werr (gmap bytes safeParamInfo) :=
  match params with
  | [] => Ok index
  | param :: params =>
      let info := param_info i param in
      match iPattern info with
      | Some pattern => if regexp_compiles pattern then index_params (S i) params (<[mPath param := info]> index) else Panic
      | None => index_params (S i) params (<[mPath param := info]> index)
      end
  end.
Definition buildSafeParamIndex (params : list Param) : res werr (gmap bytes safeParamInfo) := index_params 0 params ∅.

(** ** Limits *)

Definition invalid (reason : string) : werr := ErrValidation reason.

Definition validateUnsignedLimits (limits : Limits) (value : Z) : res werr () :=
  _ ← fail_if (match lMin limits with Some m => value <? u64 m | None => false end) (invalid "value is below minimum");
  fail_if (match lMax limits with Some m => u64 m <? value | None => false end) (invalid "value is above maximum").
Definition validateSignedLimits (limits : Limits) (value : Z) : res werr () :=
  _ ← fail_if (match lMin limits with Some m => value <? m | None => false end) (invalid "value is below minimum");
  fail_if (match lMax limits with Some m => m <? value | None => false end) (invalid "value is above maximum").
Definition validateDecimalLimits (limits : Limits) (value : Z) : res werr () :=
  _ ← fail_if (IsNaN value || IsInf value) (invalid "decimal value must be finite");
  _ ← fail_if (match lMinF limits with Some m => float_lt value m | None => false end) (invalid "value is below minimum");
  _ ← fail_if (match lMaxF limits with Some m => float_lt m value | None => false end) (invalid "value is above maximum");
  _ ← fail_if (match lMin limits with Some m => float_lt value (float64_of_int m) | None => false end) (invalid "value is below minimum");
  fail_if (match lMax limits with Some m => float_lt (float64_of_int m) value | None => false end) (invalid "value is above maximum").
Definition below (n limit : Z) : bool := (0 <? limit) && (n <? limit).
Definition above (n limit : Z) : bool := (0 <? limit) && (limit <? n).
Definition validateBinaryLimits (limits : Limits) (rawLen : Z) : res werr () :=
  _ ← fail_if (below rawLen (lMinLength limits)) (invalid "raw length is below minimum");
  fail_if (above rawLen (lMaxLength limits)) (invalid "raw length is above maximum").
Definition validateStringValueFast (info : safeParamInfo) (value : bytes) (checkLength : bool) : res werr () :=
  let limits := mLimits (iParam info) in
  _ ← fail_if (checkLength && below (lenZ value) (lMinLength limits)) (invalid "length is below minimum");
  _ ← fail_if (checkLength && above (lenZ value) (lMaxLength limits)) (invalid "length is above maximum");
  _ ← fail_if (negb (size (iEnumSet info) =? 0)%nat && negb (bool_decide (value ∈ iEnumSet info))) (invalid "value is not in the allowed enum set");
  _ ← fail_if (match iPattern info with Some p => negb (MatchString p value) | None => false end) (invalid "value does not match pattern");
  fail_if (expectsBase64String info && negb (length value =? 0)%nat && negb (base64_decodes value)) (invalid "value is not valid base64").

(** The loop over the items; [first] is whether the item is the first one.
    Returns the length of the strings and whether all items are strings. *)
Fixpoint validate_items (info : safeParamInfo) (first : bool) (items : list Value) (total : Z) (allStrings : bool) : res werr (Z * bool) :=
  match items with
  | [] => Ok (total, allStrings)
  | item :: items =>
      _ ← fail_if ((vTag item =? TagNull) || (vTag item =? TagList)) (invalid "list item has unsupported tag");
      if negb (vTag item =? TagString) then
        _ ← fail_if (negb (size (iEnumSet info) =? 0)%nat || match iPattern info with Some _ => true | None => false end
                     || listPathRef info || listCIDR info) (invalid "list item must be a string");
        validate_items info false items total false
      else
        let s := vblob item in
        let total := total + lenZ s + (if first then 0 else 1) in
        _ ← validateStringValueFast info s false;
        _ ← fail_if (listPathRef info && (length s =? 0)%nat) (invalid "list item must not be empty");
        _ ← fail_if (listCIDR info && negb (length s =? 0)%nat && negb (ParseCIDR_ok s)) (invalid "list item is not a valid CIDR");
        validate_items info false items total allStrings
  end.
Definition validateListValueFast (info : safeParamInfo) (items : list Value) : res werr () :=
  let limits := mLimits (iParam info) in
  _ ← fail_if (below (lenZ items) (lMinItems limits)) (invalid "list has too few items");
  _ ← fail_if (above (lenZ items) (lMaxItems limits)) (invalid "list has too many items");
  r ← validate_items info true items 0 true;
  let '(total, allStrings) := (r : Z * bool) in
  if allStrings then
    _ ← fail_if (below total (lMinLength limits)) (invalid "list length is below minimum");
    fail_if (above total (lMaxLength limits)) (invalid "list length is above maximum")
  else Ok ().

Definition byte_at (b : bytes) (i : nat) : Z := b2z (default (z2b 0) (b !! i)).
Definition validateValueFast (info : safeParamInfo) (value : Value) : res werr () :=
  let limits := mLimits (iParam info) in
  let t := mType (iParam info) in
  let n := length (vblob value) in
  if is_type t [TypeBoolean] then Ok ()
  else if is_type t [TypeUnsignedInt; TypeUnsignedLong; TypeStatsCounter] then validateUnsignedLimits limits (AsUint value)
  else if is_type t [TypeInt; TypeLong] then validateSignedLimits limits (vival value)
  else if is_type t [TypeDecimal] then validateDecimalLimits limits (vfval value)
  else if is_type t [TypeDateTime] then Ok ()
  else if is_type t [TypeBase64; TypeHexBinary] then validateBinaryLimits limits (Z.of_nat n)
  else if is_type t [TypeIPv4Address] then fail_if (negb (n =? 4)%nat) (invalid "invalid IPv4 value length")
  else if is_type t [TypeIPv6Address] then fail_if (negb (n =? 16)%nat) (invalid "invalid IPv6 value length")
  else if is_type t [TypeIPv4Prefix] then fail_if (negb (n =? 5)%nat || (32 <? byte_at (vblob value) 4)) (invalid "invalid IPv4 prefix value")
  else if is_type t [TypeIPv6Prefix] then fail_if (negb (n =? 17)%nat || (128 <? byte_at (vblob value) 16)) (invalid "invalid IPv6 prefix value")
  else if is_type t [TypeMACAddress] then fail_if (negb (n =? 6)%nat) (invalid "invalid MAC value length")
  else if is_type t [TypeList] then validateListValueFast info (vlist value)
  else validateStringValueFast info (vblob value) true.

(** ** Fields *)

Context (safeParamIndex : gmap bytes safeParamInfo) (globalRegistry : registry).

Definition lookup_param (path : bytes) : option (safeParamInfo * bytes) :=
  match safeParamIndex !! path with
  | Some info => Some (info, path)
  | None => let canonical := canonicalParamPath path in (fun info => (info, canonical)) <$> safeParamIndex !! canonical
  end.
Definition validate_field (f : Field) : res werr () :=
  match lookup_param (Path f) with
  | None => Err (invalid "unknown parameter path")
  | Some (info, canonicalPath) =>
      _ ← (if negb (fid f =? 0) then
             _ ← fail_if (negb (bool_decide (canonicalPath = Path f))) (invalid "instance paths must be encoded inline (field id must be 0)");
             let '(expectedID, found) := IDFor globalRegistry canonicalPath in
             fail_if (found && negb (fid f =? expectedID)) (invalid "field id does not match registry id")
           else Ok ());
      if vTag (Val f) =? TagNull then Ok () else
      _ ← fail_if (negb (tagMatchesParamType (mType (iParam info)) (vTag (Val f)))) (invalid "tag does not match parameter type");
      validateValueFast info (Val f)
  end.
Definition validate_message (m : Message) : res werr () := validate_fields validate_field ∅ (Fields m).

(** ** Sample values *)

Context (rootVersion : bytes).

Inductive FillProfile := Realistic | MaxCompressible | OtherProfile (text : bytes).
#[global] Instance FillProfile_eq_dec : EqDecision FillProfile.
Proof. solve_decision. Defined.
Definition normalizeFillProfile (profile : FillProfile) : FillProfile :=
  match profile with MaxCompressible => MaxCompressible | _ => Realistic end.
Definition coalesceFillProfile (primary fallback : FillProfile) : FillProfile :=
  if bool_decide (normalizeFillProfile primary ≠ Realistic) then normalizeFillProfile primary
  else if bool_decide (primary = OtherProfile []) then normalizeFillProfile fallback
  else normalizeFillProfile primary.

Definition safeMaxUnsignedForParam (param : Param) (bits : Z) : Z :=
  match lMax (mLimits param) with Some m => u64 m | None => if bits =? 32 then 2 ^ 32 - 1 else 2 ^ 64 - 1 end.
Definition safeMaxSignedForParam (param : Param) (bits : Z) : Z :=
  match lMax (mLimits param) with Some m => m | None => if bits =? 32 then 2 ^ 31 - 1 else 2 ^ 63 - 1 end.
(** 999999.999999 *)
Definition large_decimal : Z := 4696837146684677746.
Definition safeMaxDecimalForParam (param : Param) : Z :=
  match lMaxF (mLimits param) with
  | Some m => m
  | None => match lMax (mLimits param) with Some m => float64_of_int m | None => large_decimal end
  end.
Definition safeIntMax (a b : Z) : Z := if b <? a then a else b.
Definition safeMaxBinaryLengthForParam (param : Param) : Z :=
  let maxLength := lMaxLength (mLimits param) in
  let path := ToLower (mPath param) in
  if is_type (mType param) [TypeHexBinary; TypeBase64] && (0 <? maxLength) then safeIntMax 1 maxLength
  else if Contains path (bs "privatekey") || Contains path (bs "publickey") || Contains path (bs "presharedkey") then 32
  else if Contains path (bs ".instruction") then 1024
  else if Contains path (bs ".value") then 256
  else 128.
Definition safeSanitizeSeed (seed : bytes) : bytes :=
  (fun c => let n := b2z c in
            if (97 <=? n) && (n <=? 122) then c else if (65 <=? n) && (n <=? 90) then z2b (n + 32)
            else if (48 <=? n) && (n <=? 57) then c else z2b 120) <$> seed.
(** Copies of the base, and the part of it that is left. *)
Fixpoint fit_loop (fuel : nat) (base : bytes) (remaining : nat) : bytes :=
  match fuel with
  | O => []
  | S fuel =>
      if (remaining =? 0)%nat then []
      else if (length base <=? remaining)%nat then base ++ fit_loop fuel base (remaining - length base) else take remaining base
  end.
Definition safeFitString (seed : bytes) (length_ : Z) : bytes :=
  if length_ <=? 0 then [] else
  let n := Z.to_nat length_ in
  let base := if (length seed =? 0)%nat then bs "wusp" else seed in
  if (n <=? length base)%nat then take n base else fit_loop (S n) base n.
Definition safePatternBytes (seed : bytes) (index : nat) (length_ : Z) : bytes :=
  let base := safeSanitizeSeed seed in
  let base := if (length base =? 0)%nat then bs "wusp" else base in
  (fun i => z2b (Z.lxor (b2z (default (z2b 0) (base !! ((i + index) mod length base)%nat))) (Z.of_nat (i * 31 + index) mod 251)))
    <$> seq 0 (Z.to_nat length_).
Definition safeRepeatedBytes (length_ value : Z) : bytes := replicate (Z.to_nat length_) (z2b value).
Definition safeMaxBinaryValueForParam (param : Param) (index : nat) : bytes :=
  safePatternBytes (mPath param) index (safeMaxBinaryLengthForParam param).
Definition safeLongestString (values : list bytes) : bytes :=
  foldl (fun longest value => if (length longest <? length value)%nat then value else longest) [] values.
Definition safeStringLengthTarget (limits : Limits) (fallback : Z) : Z :=
  let target := if 0 <? lMaxLength limits then lMaxLength limits else fallback in
  let target := if below target (lMinLength limits) then lMinLength limits else target in
  if target <? 1 then 1 else target.
Definition safeStringWithinLimits (limits : Limits) (value : bytes) : bool :=
  negb (below (lenZ value) (lMinLength limits)) && negb (above (lenZ value) (lMaxLength limits)).
Definition safePatternCandidateValid (re : bytes) (limits : Limits) (value : bytes) : bool :=
  safeStringWithinLimits limits value && MatchString re value.
Definition pattern_candidates : list bytes :=
  [rootVersion; bs "2.20.1"; bs "1 Firmware Upgrade Image"; bs "2 Web Content"; bs "3 Vendor Configuration File"; bs "4 Vendor Log File";
   bs "X ABCDEF VendorType"; bs "00000000-0000-0000-0000-000000000000"; bs "ABCDEF"; bs "rwxn"; bs "host.example"; bs "https://example.net/";
   bs "Device.WUSP.Certificate.1."; bs "Device.IP.Interface.1."; bs "Enabled"; bs "Success"; bs "1"; bs "A"].
Definition safePatternAwareString (param : Param) (fallback : bytes) : bytes :=
  let limits := mLimits param in
  let pattern := TrimSpace (lPattern limits) in
  if (length pattern =? 0)%nat || negb (regexp_compiles pattern) then fallback
  else if safePatternCandidateValid pattern limits fallback then fallback
  else default fallback (find (fun c => safeStringWithinLimits limits c && MatchString pattern c) pattern_candidates).

Definition safeSamplePathRef (path : bytes) : bytes :=
  let has p := Contains path (bs p) in
  let ends p := HasSuffix path (bs p) in
  if has "WUSP_MeshTelemetry.Protocol" && ends ".StandardMultiAPReference" then bs "Device.WiFi.MultiAP.APDevice.1."
  else if has "WUSP_MeshTelemetry.Protocol" && ends ".PrimaryObject" then bs "Device.WUSP_MeshTelemetry.BATMANAdv.1."
  else if has "WUSP_MeshTelemetry" && ends ".ProtocolReference" then bs "Device.WUSP_MeshTelemetry.Protocol.1."
  else if has "WUSP_MeshTelemetry.IEEE80211s" && ends ".RadioReference" then bs "Device.WiFi.Radio.1."
  else if has "WUSP_MeshTelemetry.Link" || has "WUSP_MeshTelemetry.Route" then
    if ends ".Interface" then bs "Device.IP.Interface.1." else bs "Device.WUSP_MeshTelemetry.Node.1."
  else if has "WUSP_MeshTelemetry.Node" && ends ".ParentNode" then bs "Device.WUSP_MeshTelemetry.Node.1."
  else if has "WUSP_MeshTelemetry.Node" && ends ".PeerReference" then bs "Device.WireGuard.Peer.1."
  else if has "WireGuard" then bs "Device.WireGuard.Peer.1."
  else if has "ManagementServer" then bs "Device.ManagementServer.ManageableDevice.1."
  else if has "WUSP.ControllerTrust.Role" || has "LocalAgent.ControllerTrust.Role" then bs "Device.WUSP.ControllerTrust.Role.1."
  else if has "WUSP.Certificate" || has "LocalAgent.Certificate" then bs "Device.WUSP.Certificate.1."
  else bs "Device.IP.Interface.1.".

Fixpoint drop_dashes (s : bytes) : bytes := match s with c :: t => if b2z c =? 45 then drop_dashes t else s | [] => [] end.
Definition trim_dashes (s : bytes) : bytes := reverse (drop_dashes (reverse (drop_dashes s))).
Definition safeSampleURL (path : bytes) : bytes :=
  let host := ToLower ((fun c => if b2z c =? 46 then z2b 45 else c) <$> safeSanitizeSeed path) in
  let host := trim_dashes host in
  let host := if (length host =? 0)%nat then bs "wantastic" else host in
  bs "https://" ++ host ++ bs ".example.net/" ++ safeSanitizeSeed path.

Definition mentions (param : Param) (what : bytes) : bool := Contains (ToLower (mDescription param)) what.
Definition hex6 (limits : Limits) : bool := bool_decide (lPattern limits = bs "^[0-9A-F]{6}$") || bool_decide (lPattern limits = bs "[0-9A-F]{6}").
Definition rwxn (limits : Limits) : bool := bool_decide (lPattern limits = bs "[r\-][w\-][x\-][n\-]").
Definition hostlike (limits : Limits) : bool := Contains (lPattern limits) (bs "^[a-zA-Z0-9\-\.]*$").
Definition safeMaxStringValueForParam (param : Param) (index : nat) : bytes :=
  let limits := mLimits param in
  if negb (length (lEnums limits) =? 0)%nat then safeLongestString (lEnums limits)
  else if bool_decide (mPath param = bs "Device.RootDataModelVersion") then rootVersion
  else if mentions param (bs "base64-encoded") then base64_encode (safeMaxBinaryValueForParam param index)
  else if bool_decide (mType param = TypeAlias) then safeFitString (bs "alias-" ++ safeSanitizeSeed (mPath param)) (safeStringLengthTarget limits 64)
  else if bool_decide (mType param = TypePathRef) || mentions param (bs "pathref") then
    let sample := safeSamplePathRef (mPath param) in safeFitString sample (safeStringLengthTarget limits (lenZ sample))
  else if HasSuffix (mPath param) (bs "URL") then safeFitString (safeSampleURL (mPath param)) (safeStringLengthTarget limits 256)
  else if hex6 limits then bs "ABCDEF"
  else if rwxn limits then bs "rwxn"
  else if hostlike limits then safeFitString (bs "host-" ++ safeSanitizeSeed (mPath param)) (safeStringLengthTarget limits 96)
  else safePatternAwareString param (safeFitString (safeSanitizeSeed (mPath param)) (safeStringLengthTarget limits 96)).
Definition safeMaxCompressibleStringValue (param : Param) : bytes :=
  let limits := mLimits param in
  if negb (length (lEnums limits) =? 0)%nat then safeLongestString (lEnums limits)
  else if bool_decide (mPath param = bs "Device.RootDataModelVersion") then rootVersion
  else if mentions param (bs "base64-encoded") then base64_encode (safeRepeatedBytes (safeMaxBinaryLengthForParam param) 0x41)
  else if bool_decide (mType param = TypeAlias) then safeRepeatedBytes (safeStringLengthTarget limits 64) 65
  else if bool_decide (mType param = TypePathRef) || mentions param (bs "pathref") then safeSamplePathRef (mPath param)
  else if HasSuffix (mPath param) (bs "URL") then safeFitString (bs "https://aaaaaaaa.example.net/aaaaaaaa") (safeStringLengthTarget limits 256)
  else if hex6 limits then bs "AAAAAA"
  else if rwxn limits then bs "rwxn"
  else if hostlike limits then safeRepeatedBytes (safeStringLengthTarget limits 96) 97
  else safePatternAwareString param (safeRepeatedBytes (safeStringLengthTarget limits 96) 65).

(** The number of items of a sample list. *)
Definition enum_count (limits : Limits) : Z :=
  let count := lenZ (lEnums limits) in if above count (lMaxItems limits) then lMaxItems limits else count.
Definition item_count (limits : Limits) : Z :=
  let count := lMaxItems limits in
  let count := if count =? 0 then
                 if 65535 <=? lMaxLength limits then 64 else if 1024 <=? lMaxLength limits then 32 else if 256 <=? lMaxLength limits then 12 else 4
               else count in
  if count <? 1 then 1 else count.
Definition item_length (limits : Limits) (itemCount : Z) : Z :=
  if 0 <? lMaxLength limits then safeIntMax 1 (Z.quot (lMaxLength limits - safeIntMax 0 (itemCount - 1)) itemCount) else 32.
(** %03d *)
Definition pad3 (n : Z) : bytes := let d := FormatUint n in replicate (3 - length d) (z2b 48) ++ d.
Definition cidr_pool : list bytes := [bs "0.0.0.0/0"; bs "::/0"; bs "10.0.0.0/8"; bs "192.168.0.0/16"; bs "2001:db8::/32"; bs "fd00::/8"].
Definition prefix_pool : list bytes := [bs "203.0.113.0/24"; bs "198.51.100.0/24"; bs "2001:db8::/48"; bs "fd00::/64"].
Definition safeListItemValue (param : Param) (index itemIndex : nat) (itemCount : Z) : bytes :=
  let lowerPath := ToLower (mPath param) in
  if Contains lowerPath (bs "allowedips") then default [] (cidr_pool !! (itemIndex mod 6)%nat)
  else if Contains lowerPath (bs "prefix") then default [] (prefix_pool !! (itemIndex mod 4)%nat)
  else if mentions param (bs "pathref") then safeSamplePathRef (mPath param)
  else safePatternAwareString param
         (safeFitString (safeSanitizeSeed (mPath param) ++ bs "-" ++ pad3 (Z.of_nat (index + itemIndex))) (item_length (mLimits param) itemCount)).
Definition safeMaxListValueForParam (param : Param) (index : nat) : Value :=
  let limits := mLimits param in
  if negb (length (lEnums limits) =? 0)%nat then VList (VString <$> take (Z.to_nat (enum_count limits)) (lEnums limits))
  else
    let count := item_count limits in
    VList ((fun i => VString (safeListItemValue param index i count)) <$> seq 0 (Z.to_nat count)).
Definition safeCompressibleListItemValue (param : Param) (itemCount : Z) : bytes :=
  let lowerPath := ToLower (mPath param) in
  if Contains lowerPath (bs "allowedips") then bs "0.0.0.0/0"
  else if Contains lowerPath (bs "prefix") then bs "255.255.255.0/24"
  else if mentions param (bs "pathref") then safeSamplePathRef (mPath param)
  else safePatternAwareString param (safeRepeatedBytes (item_length (mLimits param) itemCount) 65).
Definition safeMaxCompressibleListValue (param : Param) : Value :=
  let limits := mLimits param in
  if negb (length (lEnums limits) =? 0)%nat then VList (replicate (Z.to_nat (enum_count limits)) (VString (safeLongestString (lEnums limits))))
  else let count := item_count limits in VList (replicate (Z.to_nat count) (VString (safeCompressibleListItemValue param count))).

Definition byte_of (z : Z) : byte := z2b (z mod 256).
(** The two bytes of a group of an IPv6 address. *)
Definition group16 (z : Z) : bytes := [byte_of (z / 256); byte_of z].
(** The addresses are what net.IPv4, ParseIP and ParseCIDR make of the texts
    formatted here. *)
Definition safeRealisticValue (param : Param) (index : nat) : Value :=
  let t := mType param in
  let i := Z.of_nat index in
  if is_type t [TypeBoolean] then VBool true
  else if is_type t [TypeUnsignedInt] then Uint (safeMaxUnsignedForParam param 32)
  else if is_type t [TypeUnsignedLong; TypeStatsCounter] then Uint (safeMaxUnsignedForParam param 64)
  else if is_type t [TypeInt] then Int (safeMaxSignedForParam param 32)
  else if is_type t [TypeLong] then Int (safeMaxSignedForParam param 64)
  else if is_type t [TypeDecimal] then Float (safeMaxDecimalForParam param)
  else if is_type t [TypeDateTime] then Time (i64 (253402300799 * 1000000000 + i mod 1000000000))
  else if is_type t [TypeBase64; TypeHexBinary] then Bytes (safeMaxBinaryValueForParam param index)
  else if is_type t [TypeIPv4Address] then IP4 (v4InV6Prefix ++ (byte_of <$> [255; 255; 255; 1 + i mod 253]))
  else if is_type t [TypeIPv6Address] then IP6 (replicate 14 (z2b 255) ++ group16 (1 + i mod 65534))
  else if is_type t [TypeIPv4Prefix] then IP4Prefix (byte_of <$> [203; i mod 255; (i * 7) mod 255; 0]) 24
  else if is_type t [TypeIPv6Prefix] then
    IP6Prefix (group16 0x2001 ++ group16 0xdb8 ++ group16 (i mod 65535) ++ group16 ((i * 11) mod 65535) ++ replicate 8 (z2b 0)) 64
  else if is_type t [TypeMACAddress] then MAC (byte_of <$> [2; Z.shiftr i 16; Z.shiftr i 8; i; 0xaa; 0xbb])
  else if is_type t [TypeList] then safeMaxListValueForParam param index
  else VString (safeMaxStringValueForParam param index).
Definition safeMaxCompressibleValue (param : Param) (index : nat) : Value :=
  let t := mType param in
  if is_type t [TypeBoolean] then VBool true
  else if is_type t [TypeUnsignedInt] then Uint (safeMaxUnsignedForParam param 32)
  else if is_type t [TypeUnsignedLong; TypeStatsCounter] then Uint (safeMaxUnsignedForParam param 64)
  else if is_type t [TypeInt] then Int (safeMaxSignedForParam param 32)
  else if is_type t [TypeLong] then Int (safeMaxSignedForParam param 64)
  else if is_type t [TypeDecimal] then Float (safeMaxDecimalForParam param)
  else if is_type t [TypeDateTime] then Time (i64 (253402300799 * 1000000000))
  else if is_type t [TypeBase64] then Bytes (safeRepeatedBytes (safeMaxBinaryLengthForParam param) 0x41)
  else if is_type t [TypeHexBinary] then Bytes (safeRepeatedBytes (safeMaxBinaryLengthForParam param) 0x42)
  else if is_type t [TypeIPv4Address] then IP4 (v4InV6Prefix ++ replicate 4 (z2b 255))
  else if is_type t [TypeIPv6Address] then IP6 (replicate 16 (z2b 255))
  else if is_type t [TypeIPv4Prefix] then IP4Prefix (byte_of <$> [255; 255; 255; 0]) 24
  else if is_type t [TypeIPv6Prefix] then IP6Prefix (replicate 8 (z2b 255) ++ replicate 8 (z2b 0)) 64
  else if is_type t [TypeMACAddress] then MAC (replicate 6 (z2b 0xaa))
  else if is_type t [TypeList] then safeMaxCompressibleListValue param
  else VString (safeMaxCompressibleStringValue param).
Definition safeFilledValueForParam (param : Param) (index : nat) (profile : FillProfile) : Value :=
  let value := match profile with MaxCompressible => safeMaxCompressibleValue param index | _ => safeRealisticValue param index end in
  match validate_field (MkField 0 (mPath param) value) with Ok _ => value | _ => Null end.
Definition FilledValueForPath (path : bytes) (profile : FillProfile) : res werr Value :=
  match lookup_param path with
  | None => Err (invalid "unknown parameter path")
  | Some (info, _) => Ok (safeFilledValueForParam (iParam info) (iIndex info) (normalizeFillProfile profile))
  end.

Record FillOptions := MkFillOptions { foProfile : FillProfile; foDeviceID : bytes; foTimestamp : option Z; foOverwrite : bool }.
Context (AllDeviceParams : list Param).
Fixpoint filled_fields (i : nat) (params : list Param) (profile : FillProfile) : res werr (list Field) :=
  match params with
  | [] => Ok []
  | param :: params =>
      let '(id, ok) := IDFor globalRegistry (mPath param) in
      if negb ok || (id =? 0) then Err (invalid "parameter missing from registry")
      else fs ← filled_fields (S i) params profile; Ok (MkField id (mPath param) (safeFilledValueForParam param i profile) :: fs)
  end.
Definition BuildFilledMessage (opts : FillOptions) : res werr Message :=
  fs ← filled_fields 0 AllDeviceParams (normalizeFillProfile (foProfile opts));
  let m := MkMessage (foDeviceID opts) (foTimestamp opts) fs in
  _ ← validate_message m;
  Ok m.

(** existing[path]: the last field with that path. *)
Fixpoint existing_from (i : nat) (fs : list Field) (existing : gmap bytes nat) : gmap bytes nat :=
  match fs with [] => existing | f :: fs => existing_from (S i) fs (<[Path f := i]> existing) end.
Fixpoint fill_fields (i : nat) (params : list Param) (profile : FillProfile) (overwrite : bool) (existing : gmap bytes nat) (fs : list Field) : list Field :=
  match params with
  | [] => fs
  | param :: params =>
      let f := MkField (fst (IDFor globalRegistry (mPath param))) (mPath param) (safeFilledValueForParam param i profile) in
      let fs := match existing !! mPath param with
                | Some idx => if overwrite then <[idx := f]> fs else fs
                | None => fs ++ [f]
                end in
      fill_fields (S i) params profile overwrite existing fs
  end.
Definition FillMessageValues (m : Message) (opts : FillOptions) : Message * res werr () :=
  let m := MkMessage (if (length (foDeviceID opts) =? 0)%nat then DeviceID m else foDeviceID opts)
             (match foTimestamp opts with Some t => Some t | None => Timestamp m end)
             (fill_fields 0 AllDeviceParams (normalizeFillProfile (foProfile opts)) (foOverwrite opts) (existing_from 0 (Fields m) ∅) (Fields m)) in
  (m, validate_message m).
(** USPAgent.Bootstrap on the stored values. *)
Definition Bootstrap (fillProfile : FillProfile) (opts : FillOptions) (values : gmap bytes Field) : res werr (gmap bytes Field) :=
  m ← BuildFilledMessage (MkFillOptions (coalesceFillProfile (foProfile opts) fillProfile) (foDeviceID opts) (foTimestamp opts) false);
  Ok (foldl (fun v f => <[Path f := f]> v) (if foOverwrite opts then ∅ else values) (Fields m)).
End Validation.
