(* ===== verification/ValidateProps.v ===== *)
(** * Validation: what is accepted, and the filled model

    [fits] states without the code's order of checks which values a parameter takes.
    [validate_field_spec] shows that validation against the index built from a list of
    parameters accepts exactly those; [filled_store_valid] that the sample model is
    always built and leaves a valid field for every parameter. *)

From S2P Require Import Prelude GoStr Wire Codec Transport Request UspEvents DeviceModel Validate.

Section Spec.
Context `{UnicodeCase} `{TextLib}.

(** ** What a parameter takes *)

Definition between (lo hi : option Z) (v : Z) : Prop := (∀ m, lo = Some m → m ≤ v) ∧ (∀ m, hi = Some m → v ≤ m).
(** A bound of zero is no bound. *)
Definition sized (lo hi n : Z) : Prop := (0 < lo → lo ≤ n) ∧ (0 < hi → n ≤ hi).
Definition finite (b : Z) : Prop := float_exponent b ≠ 2047.
Definition float_within (lo hi : option Z) (b : Z) : Prop :=
  (∀ m, lo = Some m → float_lt b m = false) ∧ (∀ m, hi = Some m → float_lt m b = false).
Definition text_fits (p : Param) (s : bytes) : Prop :=
  (lEnums (mLimits p) ≠ [] → s ∈ lEnums (mLimits p)) ∧
  (lPattern (mLimits p) ≠ [] → MatchString (lPattern (mLimits p)) s = true) ∧
  (mType p = TypeString → Contains (ToLower (mDescription p)) (bs "base64-encoded") = true → s ≠ [] → base64_decodes s = true).
Definition names_paths (p : Param) : Prop := Contains (ToLower (mDescription p)) (bs "pathref") = true.
Definition names_prefixes (p : Param) : Prop :=
  Contains (ToLower (mPath p)) (bs "allowedips") = true ∨ Contains (ToLower (mPath p)) (bs "prefix") = true.
Inductive item_fits (p : Param) (item : Value) : Prop :=
  | item_text :
      vTag item = TagString → text_fits p (vblob item) → (names_paths p → vblob item ≠ []) →
      (names_prefixes p → vblob item ≠ [] → ParseCIDR_ok (vblob item) = true) → item_fits p item
  | item_other :
      vTag item ≠ TagString → vTag item ≠ TagNull → vTag item ≠ TagList → lEnums (mLimits p) = [] → lPattern (mLimits p) = [] →
      ¬ names_paths p → ¬ names_prefixes p → item_fits p item.
Definition typed_otherwise : list bytes :=
  [TypeBoolean; TypeUnsignedInt; TypeUnsignedLong; TypeStatsCounter; TypeInt; TypeLong; TypeDecimal; TypeDateTime; TypeBase64;
   TypeHexBinary; TypeIPv4Address; TypeIPv6Address; TypeIPv4Prefix; TypeIPv6Prefix; TypeMACAddress; TypeList].
Inductive fits (p : Param) (v : Value) : Prop :=
  | fits_boolean : mType p = TypeBoolean → vTag v = TagFalse ∨ vTag v = TagTrue → fits p v
  | fits_unsigned :
      mType p ∈ [TypeUnsignedInt; TypeUnsignedLong; TypeStatsCounter] → vTag v = TagUint →
      between (u64 <$> lMin (mLimits p)) (u64 <$> lMax (mLimits p)) (AsUint v) → fits p v
  | fits_signed :
      mType p ∈ [TypeInt; TypeLong] → vTag v = TagInt → between (lMin (mLimits p)) (lMax (mLimits p)) (vival v) → fits p v
  | fits_decimal :
      mType p = TypeDecimal → vTag v = TagFloat → finite (vfval v) →
      float_within (lMinF (mLimits p)) (lMaxF (mLimits p)) (vfval v) →
      float_within (float64_of_int <$> lMin (mLimits p)) (float64_of_int <$> lMax (mLimits p)) (vfval v) → fits p v
  | fits_time : mType p = TypeDateTime → vTag v = TagTime → fits p v
  | fits_binary :
      mType p ∈ [TypeBase64; TypeHexBinary] → vTag v = TagBytes →
      sized (lMinLength (mLimits p)) (lMaxLength (mLimits p)) (lenZ (vblob v)) → fits p v
  | fits_ip4 : mType p = TypeIPv4Address → vTag v = TagIP4 → length (vblob v) = 4%nat → fits p v
  | fits_ip6 : mType p = TypeIPv6Address → vTag v = TagIP6 → length (vblob v) = 16%nat → fits p v
  | fits_ip4_prefix ip ones :
      mType p = TypeIPv4Prefix → vTag v = TagIP4Pfx → vblob v = ip ++ [ones] → length ip = 4%nat → b2z ones ≤ 32 → fits p v
  | fits_ip6_prefix ip ones :
      mType p = TypeIPv6Prefix → vTag v = TagIP6Pfx → vblob v = ip ++ [ones] → length ip = 16%nat → b2z ones ≤ 128 → fits p v
  | fits_mac : mType p = TypeMACAddress → vTag v = TagMAC → length (vblob v) = 6%nat → fits p v
  | fits_list :
      mType p = TypeList → vTag v = TagList → sized (lMinItems (mLimits p)) (lMaxItems (mLimits p)) (lenZ (vlist v)) →
      Forall (item_fits p) (vlist v) →
      (Forall (fun item => vTag item = TagString) (vlist v) →
       sized (lMinLength (mLimits p)) (lMaxLength (mLimits p)) (lenZ (Join (vblob <$> vlist v) (z2b 44)))) → fits p v
  | fits_text :
      mType p ∉ typed_otherwise → vTag v = TagString →
      sized (lMinLength (mLimits p)) (lMaxLength (mLimits p)) (lenZ (vblob v)) → text_fits p (vblob v) → fits p v.

(** The parameter of a path: itself, or the template of an instance of it. *)
Definition parameter_of (params : list Param) (path : bytes) (p : Param) : Prop :=
  p ∈ params ∧ (mPath p = path ∨ path ∉ mPath <$> params ∧ mPath p = canonicalParamPath path).
(** A field id is that of the path, which is then no instance. *)
Definition id_fits (reg : registry) (f : Field) (p : Param) : Prop :=
  fid f ≠ 0 → mPath p = Path f ∧ (∀ id, IDFor reg (Path f) = (id, true) → fid f = id).

(** ** The checks one by one *)

Lemma fail_if_spec (c : bool) (e : werr) u : fail_if c e = Ok u ↔ c = false.
Proof. destruct u, c; cbn; naive_solver. Qed.
Lemma seq_ok {A} (m : res werr ()) (k : res werr A) r : (_ ← m; k) = Ok r ↔ m = Ok () ∧ k = Ok r.
Proof. split; [intros ([] & ? & ?)%bind_ok; done|intros [-> ->]; done]. Qed.
Lemma below_spec n limit : below n limit = false ↔ (0 < limit → limit ≤ n).
Proof. unfold below. destruct (Z.ltb_spec 0 limit), (Z.ltb_spec n limit); cbn; naive_solver lia. Qed.
Lemma above_spec n limit : above n limit = false ↔ (0 < limit → n ≤ limit).
Proof. unfold above. destruct (Z.ltb_spec 0 limit), (Z.ltb_spec limit n); cbn; naive_solver lia. Qed.

Lemma unsigned_spec l v : validateUnsignedLimits l v = Ok () ↔ between (u64 <$> lMin l) (u64 <$> lMax l) v.
Proof.
  unfold validateUnsignedLimits, between. rewrite seq_ok, !fail_if_spec.
  destruct (lMin l), (lMax l); cbn; rewrite ?Z.ltb_ge; naive_solver.
Qed.
Lemma signed_spec l v : validateSignedLimits l v = Ok () ↔ between (lMin l) (lMax l) v.
Proof.
  unfold validateSignedLimits, between. rewrite seq_ok, !fail_if_spec.
  destruct (lMin l), (lMax l); cbn; rewrite ?Z.ltb_ge; naive_solver.
Qed.
Lemma finite_spec b : IsNaN b || IsInf b = false ↔ finite b.
Proof. unfold IsNaN, IsInf, finite. destruct (Z.eqb_spec (float_exponent b) 2047), (_ =? 0); cbn; naive_solver. Qed.
Lemma decimal_spec l v :
  validateDecimalLimits l v = Ok () ↔
  finite v ∧ float_within (lMinF l) (lMaxF l) v ∧ float_within (float64_of_int <$> lMin l) (float64_of_int <$> lMax l) v.
Proof.
  unfold validateDecimalLimits, float_within. rewrite !seq_ok, !fail_if_spec, finite_spec.
  destruct (lMinF l), (lMaxF l), (lMin l), (lMax l); cbn [fmap option_fmap option_map]; naive_solver.
Qed.
Lemma binary_spec l n : validateBinaryLimits l n = Ok () ↔ sized (lMinLength l) (lMaxLength l) n.
Proof. unfold validateBinaryLimits. rewrite seq_ok, !fail_if_spec, below_spec, above_spec. done. Qed.

Lemma length_zero {A} (l : list A) : (length l =? 0)%nat = true ↔ l = [].
Proof. destruct l; cbn; naive_solver. Qed.
Lemma length_pos {A} (l : list A) : (length l =? 0)%nat = false ↔ l ≠ [].
Proof. destruct l; cbn; naive_solver. Qed.
Lemma enums_none i p : (size (iEnumSet (param_info i p)) =? 0)%nat = true ↔ lEnums (mLimits p) = [].
Proof.
  cbn. rewrite Nat.eqb_eq, size_empty_iff. destruct (lEnums (mLimits p)) as [|e es]; [done|]. cbn. set_solver.
Qed.
Lemma pattern_of i p : iPattern (param_info i p) = if decide (lPattern (mLimits p) = []) then None else Some (lPattern (mLimits p)).
Proof. cbn. destruct (_ =? _)%nat eqn:E; [apply length_zero in E|apply length_pos in E]; by destruct (decide _). Qed.

(** The checks of a text apart from its length. *)
Lemma text_spec i p s : validateStringValueFast (param_info i p) s false = Ok () ↔ text_fits p s.
Proof.
  unfold validateStringValueFast, text_fits. rewrite !seq_ok, !fail_if_spec, pattern_of. cbn [andb].
  rewrite !andb_false_iff, !negb_false_iff, enums_none, bool_decide_eq_true.
  cbn [param_info iEnumSet expectsBase64String]. rewrite elem_of_list_to_set, length_zero, andb_false_iff, bool_decide_eq_false.
  destruct (decide (lPattern (mLimits p) = [])); rewrite ?negb_false_iff;
    destruct (decide (lEnums (mLimits p) = [])), (decide (s = [])), (decide (mType p = TypeString)), (Contains _ _); naive_solver.
Qed.
Lemma sized_text_spec i p s :
  validateStringValueFast (param_info i p) s true = Ok () ↔
  sized (lMinLength (mLimits p)) (lMaxLength (mLimits p)) (lenZ s) ∧ text_fits p s.
Proof.
  rewrite <- (text_spec i). unfold validateStringValueFast. cbn [andb].
  rewrite !seq_ok, !fail_if_spec, below_spec, above_spec. unfold sized. cbn. tauto.
Qed.

(** ** Lists *)

Fixpoint items_length (first : bool) (items : list Value) : Z :=
  match items with
  | [] => 0
  | item :: items =>
      (if vTag item =? TagString then lenZ (vblob item) + (if first then 0 else 1) else 0) + items_length false items
  end.
Definition all_strings (items : list Value) : bool := forallb (fun item => vTag item =? TagString) items.
Definition item_check (info : safeParamInfo) (item : Value) : res werr () :=
  _ ← fail_if ((vTag item =? TagNull) || (vTag item =? TagList)) (invalid "list item has unsupported tag");
  if negb (vTag item =? TagString) then
    fail_if (negb (size (iEnumSet info) =? 0)%nat || match iPattern info with Some _ => true | None => false end
             || listPathRef info || listCIDR info) (invalid "list item must be a string")
  else
    let s := vblob item in
    _ ← validateStringValueFast info s false;
    _ ← fail_if (listPathRef info && (length s =? 0)%nat) (invalid "list item must not be empty");
    fail_if (listCIDR info && negb (length s =? 0)%nat && negb (ParseCIDR_ok s)) (invalid "list item is not a valid CIDR").

Lemma bind_assoc_res {A B C} (m : res werr A) (f : A → res werr B) (g : B → res werr C) : (x ← (x ← m; f x); g x) = x ← m; y ← f x; g y.
Proof. by destruct m. Qed.
Lemma validate_items_step info first item items total all :
  validate_items info first (item :: items) total all =
  _ ← item_check info item; validate_items info false items (total + items_length first [item]) (all && (vTag item =? TagString)).
Proof.
  cbn [validate_items items_length]. unfold item_check.
  destruct (vTag item =? TagString); cbn [negb]; rewrite ?andb_true_r, ?andb_false_r, ?Z.add_0_r, ?Z.add_assoc, !bind_assoc_res.
  - destruct (_ || _); [done|]. cbn [fail_if mbind res_bind]. destruct (validateStringValueFast _ _ _) as [[]|e|]; [|done..].
    cbn [mbind res_bind]. by destruct (listPathRef info && _).
  - by destruct (_ || _).
Qed.
Lemma list_flags i p :
  mType p = TypeList →
  (listPathRef (param_info i p) = true ↔ names_paths p) ∧ (listCIDR (param_info i p) = true ↔ names_prefixes p).
Proof.
  intros Ht. unfold names_paths, names_prefixes. cbn [param_info listPathRef listCIDR]. rewrite bool_decide_true by done.
  cbn [andb]. by rewrite orb_true_iff.
Qed.
Lemma item_spec i p item : mType p = TypeList → item_check (param_info i p) item = Ok () ↔ item_fits p item.
Proof.
  intros Ht. destruct (list_flags i p Ht) as [Hp Hc]. unfold item_check. rewrite seq_ok, fail_if_spec, orb_false_iff, !Z.eqb_neq.
  destruct (Z.eqb_spec (vTag item) TagString) as [Hs|Hs]; cbn [negb].
  - rewrite !seq_ok, text_spec, !fail_if_spec, !andb_false_iff, !negb_false_iff, length_pos, length_zero.
    rewrite <- !not_true_iff_false, Hp, Hc. split; [|intros [|]; [|done]].
    + intros (_ & ? & ? & ?). apply item_text; naive_solver.
    + rewrite Hs. split; [done|]. split; [done|]. destruct (decide (vblob item = [])), (ParseCIDR_ok (vblob item)) eqn:?;
        destruct (listPathRef (param_info i p)) eqn:?, (listCIDR (param_info i p)) eqn:?; naive_solver.
  - rewrite fail_if_spec, !orb_false_iff, negb_false_iff, enums_none, pattern_of.
    rewrite <- (not_true_iff_false (listPathRef _)), <- (not_true_iff_false (listCIDR _)), Hp, Hc.
    split; [|intros [|]; [done|]].
    + intros ([??] & ((? & ?) & ?) & ?). apply item_other; try done. by destruct (decide (lPattern (mLimits p) = [])).
    + split; [done|]. by rewrite decide_True.
Qed.
Lemma items_spec i p items :
  mType p = TypeList → ∀ first total all r,
  validate_items (param_info i p) first items total all = Ok r ↔
  Forall (item_fits p) items ∧ r = (total + items_length first items, all && all_strings items).
Proof.
  intros Ht. induction items as [|item items IH]; intros first total all r.
  - cbn. rewrite Z.add_0_r, andb_true_r. naive_solver.
  - rewrite validate_items_step, seq_ok, item_spec, IH, Forall_cons by done. cbn [items_length all_strings forallb].
    rewrite Z.add_0_r, Z.add_assoc, andb_assoc. unfold all_strings. tauto.
Qed.
Lemma items_length_joined items :
  all_strings items = true → items_length true items = lenZ (Join (vblob <$> items) (z2b 44)).
Proof.
  assert (∀ items, all_strings items = true → items ≠ [] → items_length false items = 1 + lenZ (Join (vblob <$> items) (z2b 44))) as Hrest.
  { clear items. induction items as [|item items IH]; [done|]. cbn [all_strings forallb]. intros [Ht Ha]%andb_true_iff _.
    cbn [items_length fmap list_fmap]. rewrite Ht. destruct items as [|item' items]; [cbn [items_length fmap list_fmap Join]; lia|].
    rewrite IH, Join_cons by done. unfold lenZ. rewrite length_app. cbn [length]. lia. }
  destruct items as [|item items]; [done|]. cbn [all_strings forallb]. intros [Ht Ha]%andb_true_iff.
  cbn [items_length fmap list_fmap]. rewrite Ht. destruct items as [|item' items]; [cbn [items_length fmap list_fmap Join]; lia|].
  rewrite Hrest, Join_cons by done. unfold lenZ. rewrite length_app. cbn [length]. lia.
Qed.
Lemma list_spec i p items :
  mType p = TypeList →
  validateListValueFast (param_info i p) items = Ok () ↔
  sized (lMinItems (mLimits p)) (lMaxItems (mLimits p)) (lenZ items) ∧ Forall (item_fits p) items ∧
  (Forall (fun item => vTag item = TagString) items →
   sized (lMinLength (mLimits p)) (lMaxLength (mLimits p)) (lenZ (Join (vblob <$> items) (z2b 44)))).
Proof.
  intros Ht. unfold validateListValueFast. rewrite !seq_ok, !fail_if_spec, below_spec, above_spec.
  assert (Forall (fun item => vTag item = TagString) items ↔ all_strings items = true) as Ha.
  { unfold all_strings. rewrite forallb_forall, Forall_forall. setoid_rewrite list_elem_of_In. by setoid_rewrite Z.eqb_eq. }
  rewrite Ha, bind_ok. setoid_rewrite items_spec; [|done]. cbn [andb]. rewrite Z.add_0_l. unfold sized at 1.
  destruct (all_strings items) eqn:E; [rewrite items_length_joined by done|].
  - split.
    + intros (? & ? & ? & [? ->] & ?). rewrite seq_ok, !fail_if_spec, below_spec, above_spec in *. unfold sized. tauto.
    + intros ([??] & ? & Hs). destruct (Hs eq_refl). split_and!; [done..|]. eexists. split; [done|]. cbn.
      rewrite seq_ok, !fail_if_spec, below_spec, above_spec. done.
  - split; [intros (? & ? & ? & [? ->] & _); naive_solver|]. intros ([??] & ? & _). split_and!; [done..|]. by eexists.
Qed.

(** ** Values *)

Lemma is_type_spec t ts : is_type t ts = true ↔ t ∈ ts.
Proof. apply bool_decide_eq_true. Qed.
Definition typed_check (p : Param) (i : nat) (v : Value) : res werr () :=
  _ ← fail_if (negb (tagMatchesParamType (mType p) (vTag v))) (invalid "tag does not match parameter type");
  validateValueFast (param_info i p) v.

Lemma prefix_spec b n m (e : werr) :
  fail_if (negb (length b =? S n)%nat || (m <? byte_at b n)) e = Ok () ↔ ∃ ip ones, b = ip ++ [ones] ∧ length ip = n ∧ b2z ones ≤ m.
Proof.
  rewrite fail_if_spec, orb_false_iff, negb_false_iff, Nat.eqb_eq, Z.ltb_ge. unfold byte_at. split.
  - intros [Hl Hm]. destruct b as [|ones ip _] using rev_ind; [done|]. rewrite length_app in Hl. cbn in Hl.
    rewrite lookup_app_r in Hm by lia. replace (n - length ip)%nat with 0%nat in Hm by lia. exists ip, ones. split_and!; [done|lia|done].
  - intros (ip & ones & -> & <- & Hm). rewrite length_app, lookup_app_r, Nat.sub_diag by done. split; [cbn; lia|done].
Qed.

(** A type named by its text decides the tests on it. *)
Ltac settle_types Ht :=
  rewrite Ht; repeat match goal with |- context [is_type ?t ?ts] => let b := eval vm_compute in (is_type t ts) in
    change (is_type t ts) with b; cbn iota end.
Ltac wrong_type :=
  exfalso; match goal with
  | E : mType ?p = ?t, E' : mType ?p = ?t' |- _ =>
      rewrite E in E'; apply list_elem_of_singleton, is_type_spec in E'; vm_compute in E'; discriminate E'
  | E : mType ?p = ?t, E' : mType ?p ∈ ?t' |- _ => rewrite E in E'; apply is_type_spec in E'; vm_compute in E'; discriminate E'
  | E : mType ?p = ?t, E' : mType ?p ∉ ?t' |- _ => rewrite E in E'; apply E', is_type_spec; vm_compute; reflexivity
  end.
Ltac right_type Ht := apply is_type_spec; rewrite Ht; vm_compute; reflexivity.

Lemma typed_spec i p v : typed_check p i v = Ok () ↔ fits p v.
Proof.
  unfold typed_check, tagMatchesParamType, TagForParamType, validateValueFast. rewrite seq_ok, fail_if_spec, negb_false_iff.
  cbn [param_info iParam].
  destruct (decide (mType p ∈ typed_otherwise)) as [Ht|Ht].
  2:{ assert (∀ ts, ts ⊆ typed_otherwise → is_type (mType p) ts = false) as Hn.
      { intros ts Hs. apply bool_decide_eq_false. intros Hin. by apply Ht, Hs. }
      rewrite !Hn by (apply (bool_decide_unpack _); vm_compute; exact I).
      rewrite sized_text_spec, Z.eqb_eq. split; [intros (? & ? & ?); by apply fits_text|].
      intros []; try done; exfalso; apply Ht; set_solver. }
  unfold typed_otherwise in Ht. repeat (apply elem_of_cons in Ht as [Ht|Ht]); [..|by apply elem_of_nil in Ht].
  all: settle_types Ht; rewrite ?unsigned_spec, ?signed_spec, ?decimal_spec, ?binary_spec, ?prefix_spec, ?fail_if_spec, ?orb_true_iff, ?Z.eqb_eq,
    ?negb_false_iff, ?Nat.eqb_eq.
  all: try (rewrite list_spec by done).
  all: split; [intros [? ?]; destruct_and?|intros []; try wrong_type; eauto 8].
  - by apply fits_boolean.
  - apply fits_unsigned; [right_type Ht|done..].
  - apply fits_unsigned; [right_type Ht|done..].
  - apply fits_unsigned; [right_type Ht|done..].
  - apply fits_signed; [right_type Ht|done..].
  - apply fits_signed; [right_type Ht|done..].
  - by apply fits_decimal.
  - by apply fits_time.
  - apply fits_binary; [right_type Ht|done..].
  - apply fits_binary; [right_type Ht|done..].
  - by apply fits_ip4.
  - by apply fits_ip6.
  - naive_solver eauto using fits_ip4_prefix.
  - naive_solver eauto using fits_ip6_prefix.
  - by apply fits_mac.
  - by apply fits_list.
Qed.

(** ** The index of parameters *)

Definition compiles (p : Param) : Prop := lPattern (mLimits p) ≠ [] → regexp_compiles (lPattern (mLimits p)) = true.

Lemma index_params_step i p params idx :
  compiles p → index_params i (p :: params) idx = index_params (S i) params (<[mPath p := param_info i p]> idx).
Proof.
  intros Hc. cbn [index_params]. rewrite pattern_of. destruct (decide (lPattern (mLimits p) = [])) as [|Hp]; [done|]. by rewrite (Hc Hp).
Qed.
Lemma index_params_total params : ∀ i idx, Forall compiles params → ∃ idx', index_params i params idx = Ok idx'.
Proof.
  induction params as [|p params IH]; intros i idx Hc; [by eexists|]. apply Forall_cons in Hc as [Hp Hc].
  rewrite index_params_step by done. by apply IH.
Qed.
Lemma index_params_compiles params : ∀ i idx idx', index_params i params idx = Ok idx' → Forall compiles params.
Proof.
  induction params as [|p params IH]; intros i idx idx' Hi; [done|]. cbn [index_params] in Hi. rewrite pattern_of in Hi. unfold compiles at 1.
  destruct (decide (lPattern (mLimits p) = [])); [|destruct (regexp_compiles _) eqn:E; [|done]]; constructor; eauto; naive_solver.
Qed.
Lemma index_params_lookup params : ∀ i idx idx' path info,
  NoDup (mPath <$> params) → index_params i params idx = Ok idx' →
  idx' !! path = Some info ↔
  (∃ j p, params !! j = Some p ∧ mPath p = path ∧ info = param_info (i + j) p) ∨ (path ∉ mPath <$> params ∧ idx !! path = Some info).
Proof.
  induction params as [|p params IH]; intros i idx idx' path info Hnd Hi.
  - cbn in Hi. injection Hi as ->. split; [|intros [(j & p & Hj & _)|[_ ?]]; [by rewrite lookup_nil in Hj|done]].
    right. split; [apply not_elem_of_nil|done].
  - pose proof (Forall_inv (index_params_compiles _ _ _ _ Hi)) as Hc. rewrite index_params_step in Hi by done.
    cbn [fmap list_fmap] in Hnd |- *. apply NoDup_cons in Hnd as [Hp Hnd]. rewrite (IH _ _ _ _ _ Hnd Hi), not_elem_of_cons. clear IH Hi. split.
    + intros [(j & q & Hj & Hq & ->)|[Hn Hl]]; [left; exists (S j), q; by rewrite Nat.add_succ_r|].
      destruct (decide (mPath p = path)) as [Heq|Hne].
      * rewrite Heq, lookup_insert_eq in Hl. injection Hl as <-. left. exists 0%nat, p. by rewrite Nat.add_0_r.
      * rewrite lookup_insert_ne in Hl by done. right. split; [|done]. split; [congruence|done].
    + intros [([|j] & q & Hj & Hq & ->)|[[Hne Hn] Hl]].
      * injection Hj as ->. right. subst path. rewrite lookup_insert_eq, Nat.add_0_r. done.
      * left. exists j, q. by rewrite Nat.add_succ_r.
      * right. split; [done|]. by rewrite lookup_insert_ne by done.
Qed.
Lemma index_lookup params idx path info :
  NoDup (mPath <$> params) → buildSafeParamIndex params = Ok idx →
  idx !! path = Some info ↔ ∃ j p, params !! j = Some p ∧ mPath p = path ∧ info = param_info j p.
Proof.
  intros Hnd Hi. rewrite (index_params_lookup _ _ _ _ _ _ Hnd Hi), lookup_empty. naive_solver.
Qed.
Lemma index_lookup_None params idx path :
  NoDup (mPath <$> params) → buildSafeParamIndex params = Ok idx → idx !! path = None ↔ path ∉ mPath <$> params.
Proof.
  intros Hnd Hi. destruct (idx !! path) as [info|] eqn:E.
  - apply (index_lookup _ _ _ _ Hnd Hi) in E as (j & p & Hj & <- & _). split; [done|]. intros []. by apply list_elem_of_fmap_2, (list_elem_of_lookup_2 _ j).
  - split; [|done]. intros _ (p & -> & [j Hj]%list_elem_of_lookup_1)%list_elem_of_fmap_1.
    assert (idx !! mPath p = Some (param_info j p)) by (apply (index_lookup _ _ _ _ Hnd Hi); eauto). congruence.
Qed.

Section Index.
Context (params : list Param) (safeParamIndex : gmap bytes safeParamInfo) (reg : registry).
Context (Hnd : NoDup (mPath <$> params)) (Hindex : buildSafeParamIndex params = Ok safeParamIndex).

Lemma lookup_param_spec path info canonical :
  lookup_param safeParamIndex path = Some (info, canonical) ↔
  ∃ i p, params !! i = Some p ∧ parameter_of params path p ∧ info = param_info i p ∧ canonical = mPath p.
Proof.
  unfold lookup_param, parameter_of. destruct (safeParamIndex !! path) as [info'|] eqn:E.
  - apply (index_lookup _ _ _ _ Hnd Hindex) in E as (i & p & Hi & <- & ->). split.
    + intros [= <- <-]. exists i, p. split_and!; [done|by eapply list_elem_of_lookup_2|by left|done..].
    + intros (j & q & Hj & (_ & [Hq|[Hn _]]) & -> & ->).
      * assert (i = j) as <-; [|naive_solver]. eapply (NoDup_lookup _ i j (mPath p) Hnd); rewrite list_lookup_fmap, ?Hi, ?Hj; cbn; congruence.
      * destruct Hn. by apply list_elem_of_fmap_2, (list_elem_of_lookup_2 _ i).
  - apply (index_lookup_None _ _ _ Hnd Hindex) in E. rewrite fmap_Some. setoid_rewrite (index_lookup _ _ _ _ Hnd Hindex). split.
    + intros (info' & (i & p & Hi & Hp & ->) & [= -> ->]). exists i, p. rewrite Hp. split_and!; [done|by eapply list_elem_of_lookup_2|by right|done..].
    + intros (i & p & Hi & (_ & [Hp|[_ Hp]]) & -> & ->).
      * destruct E. rewrite <- Hp. by apply list_elem_of_fmap_2, (list_elem_of_lookup_2 _ i).
      * exists (param_info i p). rewrite Hp. split; [by exists i, p|done].
Qed.
Lemma id_spec f p :
  (if negb (fid f =? 0) then
     _ ← fail_if (negb (bool_decide (mPath p = Path f))) (invalid "instance paths must be encoded inline (field id must be 0)");
     let '(expectedID, found) := IDFor reg (mPath p) in
     fail_if (found && negb (fid f =? expectedID)) (invalid "field id does not match registry id")
   else Ok ()) = Ok () ↔ id_fits reg f p.
Proof.
  unfold id_fits. destruct (Z.eqb_spec (fid f) 0); cbn [negb]; [by split|].
  rewrite seq_ok, fail_if_spec, negb_false_iff, bool_decide_eq_true. destruct (decide (mPath p = Path f)) as [->|]; [|naive_solver].
  destruct (IDFor reg (Path f)) as [id []]; rewrite fail_if_spec; cbn [andb]; rewrite ?negb_false_iff, ?Z.eqb_eq; naive_solver.
Qed.

Lemma parameter_index path p : parameter_of params path p → ∃ i, lookup_param safeParamIndex path = Some (param_info i p, mPath p).
Proof.
  intros Hp. destruct (list_elem_of_lookup_1 _ _ (proj1 Hp)) as [i Hi]. exists i. apply lookup_param_spec. by exists i, p.
Qed.
Lemma parameter_unique path p q : parameter_of params path p → parameter_of params path q → p = q.
Proof.
  intros [i Hi]%parameter_index [j Hj]%parameter_index. rewrite Hi in Hj. apply (f_equal (fmap (fun x => iParam x.1))) in Hj.
  cbn in Hj. congruence.
Qed.

(** Validation accepts exactly what the schema admits. *)
Lemma validate_field_spec f :
  validate_field safeParamIndex reg f = Ok () ↔
  ∃ p, parameter_of params (Path f) p ∧ id_fits reg f p ∧ (vTag (Val f) = TagNull ∨ fits p (Val f)).
Proof.
  unfold validate_field. destruct (lookup_param safeParamIndex (Path f)) as [[info canonical]|] eqn:E.
  - apply lookup_param_spec in E as (i & p & Hi & Hp & -> & ->). rewrite seq_ok, id_spec.
    assert ((if vTag (Val f) =? TagNull then Ok () else typed_check p i (Val f)) = Ok () ↔ vTag (Val f) = TagNull ∨ fits p (Val f)) as ->.
    { destruct (Z.eqb_spec (vTag (Val f)) TagNull); [naive_solver|]. rewrite typed_spec. naive_solver. }
    split; [intros [? ?]; by exists p|]. intros (q & Hq & ?). by rewrite (parameter_unique _ _ _ Hp Hq).
  - split; [done|]. intros (p & [i Hi]%parameter_index & _). congruence.
Qed.

(** ** Messages *)

Definition admitted (f : Field) : Prop :=
  ∃ p, parameter_of params (Path f) p ∧ id_fits reg f p ∧ (vTag (Val f) = TagNull ∨ fits p (Val f)).
Lemma validate_fields_spec check (fs : list Field) : ∀ seen,
  validate_fields check seen fs = Ok () ↔
  NoDup (Path <$> fs) ∧ Forall (fun f => Path f ≠ [] ∧ Path f ∉ seen ∧ check f = Ok ()) fs.
Proof.
  induction fs as [|f fs IH]; intros seen; cbn [validate_fields fmap list_fmap].
  { split; [|done]. intros _. split; constructor. }
  rewrite NoDup_cons, Forall_cons. destruct (length (Path f) =? 0)%nat eqn:E; [apply length_zero in E; naive_solver|].
  apply length_pos in E. case_bool_decide as Hs; [naive_solver|]. rewrite seq_ok, IH. split.
  - intros (Hc & Hnd' & Hall). split_and!; [|done..|].
    + intros (g & Heq & Hg)%list_elem_of_fmap. rewrite Forall_forall in Hall. destruct (Hall g Hg) as (_ & Hn & _). set_solver.
    + eapply Forall_impl; [exact Hall|]. cbn. set_solver.
  - intros [[Hf Hnd'] [(_ & _ & Hc) Hall]]. split_and!; [done..|]. rewrite Forall_forall in Hall |- *. intros g Hg.
    destruct (Hall g Hg) as (? & ? & ?). split_and!; [done| |done]. apply not_elem_of_union. split; [|done].
    rewrite elem_of_singleton. intros Heq. apply Hf. rewrite <- Heq. by apply list_elem_of_fmap_2.
Qed.
Lemma validate_message_spec m :
  validate_message safeParamIndex reg m = Ok () ↔
  NoDup (Path <$> Fields m) ∧ Forall (fun f => Path f ≠ [] ∧ admitted f) (Fields m).
Proof.
  unfold validate_message. rewrite validate_fields_spec. apply and_iff_compat_l, Forall_iff. intros f.
  rewrite validate_field_spec. unfold admitted. set_solver.
Qed.

(** ** The filled model *)

Context (rootVersion : bytes).
Abbreviation filled := (safeFilledValueForParam safeParamIndex reg rootVersion).

Lemma parameter_itself p : p ∈ params → parameter_of params (mPath p) p.
Proof. intros Hp. split; [done|by left]. Qed.
Lemma filled_fits p i profile : p ∈ params → vTag (filled p i profile) = TagNull ∨ fits p (filled p i profile).
Proof.
  intros Hp. unfold safeFilledValueForParam. set (v := match profile with MaxCompressible => _ | _ => _ end).
  destruct (validate_field _ _ _) as [[]|e|] eqn:E; [|by left..]. apply validate_field_spec in E as (q & Hq & _ & Hv).
  by rewrite (parameter_unique _ _ _ (parameter_itself p Hp) Hq).
Qed.
Definition filled_field (profile : FillProfile) (f : Field) (p : Param) : Prop :=
  Path f = mPath p ∧ fid f ≠ 0 ∧ IDFor reg (mPath p) = (fid f, true) ∧ ∃ i, params !! i = Some p ∧ Val f = filled p i profile.
Lemma filled_fields_total profile qs : ∀ i,
  (∀ p, p ∈ qs → ∃ id, IDFor reg (mPath p) = (id, true) ∧ id ≠ 0) → (∀ j p, qs !! j = Some p → params !! (i + j)%nat = Some p) →
  ∃ fs, filled_fields safeParamIndex reg rootVersion i qs profile = Ok fs ∧ Forall2 (filled_field profile) fs qs.
Proof.
  induction qs as [|p qs IH]; intros i Hid Hat; [exists []; split; [done|constructor]|]. cbn [filled_fields].
  destruct (Hid p) as (id & Hip & Hnz); [by left|]. rewrite Hip, (proj2 (Z.eqb_neq id 0)) by done. cbn [negb orb].
  destruct (IH (S i)) as (fs & -> & Hfs); [intros q Hq; apply Hid; by right|intros j q Hj; rewrite <- (Hat (S j) q Hj); f_equal; lia|].
  eexists. split; [done|]. constructor; [|done]. split_and!; [done..|]. exists i. split; [|done]. rewrite <- (Hat 0%nat p eq_refl). f_equal. lia.
Qed.
End Index.

(** The program's tables: distinct nonempty paths, patterns that compile, and at
    most 65535 of them. *)
Definition table_ok (params : list Param) : Prop :=
  NoDup (mPath <$> params) ∧ Forall (fun p => mPath p ≠ [] ∧ compiles p) params ∧ lenZ params ≤ 65535.
Lemma table_index params : table_ok params → ∃ idx, buildSafeParamIndex params = Ok idx.
Proof. intros (_ & Hall & _). apply index_params_total. eapply Forall_impl; [exact Hall|]. by intros p [_ ?]. Qed.

Lemma build_filled params idx rootVersion opts :
  table_ok params → buildSafeParamIndex params = Ok idx →
  let reg := buildRegistry (mPath <$> params) in
  ∃ fs, BuildFilledMessage idx reg rootVersion params opts = Ok (MkMessage (foDeviceID opts) (foTimestamp opts) fs) ∧
    Forall2 (filled_field params idx reg rootVersion (normalizeFillProfile (foProfile opts))) fs params ∧ Forall (admitted params reg) fs.
Proof.
  intros (Hnd & Hall & Hlen) Hidx reg. rewrite Forall_forall in Hall.
  destruct (registry_invertible (mPath <$> params)) as [Hreg _]; [by rewrite length_fmap|].
  destruct (filled_fields_total params idx reg rootVersion (normalizeFillProfile (foProfile opts)) params 0) as (fs & Hfs & Hrel).
  { intros p Hp. destruct (Hreg (mPath p)) as (id & Hid & ? & _); [by apply list_elem_of_fmap_2|]. exists id. split; [done|lia]. }
  { done. }
  assert (Forall (fun f => Path f ≠ [] ∧ admitted params reg f) fs) as Hadm.
  { apply Forall_forall. intros f [j Hj]%list_elem_of_lookup_1. destruct (Forall2_lookup_l _ _ _ _ _ Hrel Hj) as (p & Hp & Hpath & _ & Hid & i & Hi & Hv).
    apply list_elem_of_lookup_2 in Hp. rewrite Hpath. split; [by apply Hall|]. exists p. rewrite Hpath, Hv. split; [by apply parameter_itself|].
    split; [|by eapply filled_fits]. intros _. split; [done|]. rewrite Hpath, Hid. by intros id [= ->]. }
  exists fs. unfold BuildFilledMessage. fold reg. rewrite Hfs. cbn [mbind res_bind].
  assert (validate_message idx reg (MkMessage (foDeviceID opts) (foTimestamp opts) fs) = Ok ()) as ->.
  { apply (validate_message_spec params); [done..|]. cbn [Fields]. split; [|done].
    replace (Path <$> fs) with (mPath <$> params); [done|]. symmetry. apply list_eq_Forall2, Forall2_fmap.
    eapply Forall2_impl; [exact Hrel|]. by intros f p [? _]. }
  split_and!; [done..|]. eapply Forall_impl; [exact Hadm|]. by intros f [_ ?].
Qed.

Lemma file_fields fs : ∀ (v : gmap bytes Field),
  NoDup (Path <$> fs) →
  (∀ f, f ∈ fs → foldl (fun v f => <[Path f := f]> v) v fs !! Path f = Some f) ∧
  (∀ path, path ∉ Path <$> fs → foldl (fun v f => <[Path f := f]> v) v fs !! path = v !! path).
Proof.
  induction fs as [|f fs IH]; intros v Hnd.
  { split; [by intros f ?%elem_of_nil|done]. }
  cbn [fmap list_fmap foldl] in *. apply NoDup_cons in Hnd as [Hf Hnd]. destruct (IH (<[Path f := f]> v) Hnd) as [Hin Hout]. split.
  - intros g [Hg|Hg]%elem_of_cons; [|by apply Hin]. rewrite Hg, Hout by done. apply lookup_insert_eq.
  - intros path [Hne Hn]%not_elem_of_cons. rewrite Hout by done. by apply lookup_insert_ne.
Qed.

(** ** Properties *)

(** C25: Validation implements the schema.  For a table of parameters with distinct paths,
    patterns that compile and at most 65535 entries the index is built, and a message is
    accepted exactly when no path is empty or repeated and every field belongs to a
    parameter - by its own path, or as an instance of its template - carries no id or the
    one registered for that very path, and has no value or one the parameter takes:
    of its type, within its limits, and for texts and lists of texts with every item in
    the enumeration, matching the pattern and well-formed as base64 or CIDR, where the
    length of a list is that of its items joined with commas. *)
Theorem validation_exact params :
  table_ok params →
  ∃ idx, buildSafeParamIndex params = Ok idx ∧
    ∀ reg m, validate_message idx reg m = Ok () ↔
      NoDup (Path <$> Fields m) ∧
      Forall (fun f => Path f ≠ [] ∧
        ∃ p, parameter_of params (Path f) p ∧ id_fits reg f p ∧ (vTag (Val f) = TagNull ∨ fits p (Val f))) (Fields m).
Proof.
  intros Ht. destruct (table_index params Ht) as [idx Hidx]. exists idx. split; [done|]. intros reg m.
  apply validate_message_spec; [by destruct Ht|done].
Qed.

(** The sample model can always be built and is valid.  With the tables of the
    program Bootstrap succeeds whatever the profile, and afterwards the store has under the path of every
    parameter a field with its registered id and a value the parameter takes, or none;
    fields under other paths are kept unless the store is overwritten. *)
Theorem bootstrap_fills_model params idx rootVersion profile opts values :
  table_ok params → buildSafeParamIndex params = Ok idx →
  let reg := buildRegistry (mPath <$> params) in
  ∃ values', Bootstrap idx reg rootVersion params profile opts values = Ok values' ∧
    (∀ p, p ∈ params → ∃ f, values' !! mPath p = Some f ∧ Path f = mPath p ∧ IDFor reg (mPath p) = (fid f, true) ∧
       (vTag (Val f) = TagNull ∨ fits p (Val f))) ∧
    ∀ path, path ∉ mPath <$> params → values' !! path = if foOverwrite opts then None else values !! path.
Proof.
  intros Ht Hidx reg. unfold Bootstrap.
  set (opts' := MkFillOptions (coalesceFillProfile (foProfile opts) profile) (foDeviceID opts) (foTimestamp opts) false).
  destruct (build_filled params idx rootVersion opts' Ht Hidx) as (fs & Hb & Hrel & _). fold reg in Hb, Hrel. rewrite Hb. cbn [mbind res_bind Fields].
  assert (Path <$> fs = mPath <$> params) as Hpaths.
  { apply list_eq_Forall2, Forall2_fmap. eapply Forall2_impl; [exact Hrel|]. by intros f p [? _]. }
  destruct Ht as (Hnd & _). eexists. split; [done|]. edestruct (file_fields fs) as [Hin Hout]; [by rewrite Hpaths|]. split.
  - intros p [j Hj]%list_elem_of_lookup_1. destruct (Forall2_lookup_r _ _ _ _ _ Hrel Hj) as (f & Hf & Hp & _ & Hid & i & Hi & Hv).
    exists f. rewrite <- Hp at 1. split_and!; [apply Hin; by eapply list_elem_of_lookup_2|done..|]. rewrite Hv. eapply filled_fits; [done..|].
    by eapply list_elem_of_lookup_2.
  - intros path Hp. rewrite Hout by (by rewrite Hpaths). by destruct (foOverwrite opts).
Qed.

(** Limits that exclude each other.  When the lower bound of an integer parameter
    is above its upper bound validation rejects every value for it: such a field is accepted
    only without a value, and no sample value is generated. *)
Theorem contradictory_limits_reject_all params idx reg rootVersion p lo hi :
  NoDup (mPath <$> params) → buildSafeParamIndex params = Ok idx → p ∈ params →
  mType p = TypeUnsignedInt ∨ mType p = TypeUnsignedLong → lMin (mLimits p) = Some lo → lMax (mLimits p) = Some hi → u64 hi < u64 lo →
  (∀ f, parameter_of params (Path f) p → validate_field idx reg f = Ok () → vTag (Val f) = TagNull) ∧
  ∀ i profile, vTag (safeFilledValueForParam idx reg rootVersion p i profile) = TagNull.
Proof.
  intros Hnd Hidx Hp Ht Hlo Hhi Hlt. assert (∀ v, ¬ fits p v) as Hnone.
  { intros v Hv. destruct Hv as [E|E _ [Hl Hh]|E| | |E| | | | | | |E]; try (destruct Ht; wrong_type).
    rewrite Hlo, Hhi in *. cbn in *. specialize (Hl _ eq_refl). specialize (Hh _ eq_refl). lia. }
  split.
  - intros f Hf Hv. apply (validate_field_spec params) in Hv as (q & Hq & _ & [?|Hfit]); [done| |done..].
    rewrite <- (parameter_unique _ _ Hnd Hidx _ _ _ Hf Hq) in Hfit. by apply Hnone in Hfit.
  - intros i profile. destruct (filled_fits params idx reg Hnd Hidx rootVersion p i profile Hp) as [?|Hfit]; [done|by apply Hnone in Hfit].
Qed.

(** The sample of a time stands for a moment in the year 9999; the nanoseconds since
    1970 overflow 64 bits, and what is encoded lies before 1970. *)
Theorem filled_time_wraps param index rootVersion :
  mType param = TypeDateTime →
  vTag (safeRealisticValue rootVersion param index) = TagTime ∧ vival (safeRealisticValue rootVersion param index) < 0.
Proof.
  intros Ht. unfold safeRealisticValue. settle_types Ht. split; [done|]. cbn [Time vival].
  pose proof (Z.mod_pos_bound (Z.of_nat index) 1000000000 eq_refl) as Hm. set (n := Z.of_nat index mod 1000000000) in *.
  change (253402300799 * 1000000000) with 253402300799000000000. change (swrap 64 (253402300799000000000 + n) < 0). unfold swrap.
  change (2 ^ (64 - 1)) with 9223372036854775808. change (2 ^ 64) with 18446744073709551616.
  rewrite <- (Z.mod_unique_pos (253402300799000000000 + n + 9223372036854775808) 18446744073709551616 14 (4371255803921053184 + n)) by lia. lia.
Qed.
End Spec.

(** ** Witnesses *)

#[local] Instance plain_case : UnicodeCase := {| unicode_ToLower s := s; unicode_EqualFold s t := bool_decide (s = t) |}.
#[local] Instance plain_text : TextLib :=
  {| regexp_compiles _ := true; MatchString p s := bool_decide (p = s); base64_decodes _ := true; base64_encode b := b;
     ParseCIDR_ok s := Contains s (bs "/") |}.
Definition free : Limits := MkLimits None None None None 0 0 [] [] 0 0.
Definition allowed_ips : Param := MkParam (bs "Device.WireGuard.Peer.{i}.AllowedIPs") TypeList (bs "readWrite") (bs "2.20") (bs "Comma-separated list of CIDR-notation IP prefixes") free.
Definition tunnel_status : Param :=
  MkParam (bs "Device.WireGuard.Tunnel.{i}.Status") TypeString (bs "readOnly") (bs "2.20") (bs "Current operational status of the tunnel.")
    (MkLimits None None None None 0 0 [bs "Disabled"; bs "Enabled"; bs "Error"] [] 0 0).
Definition interim_interval : Param :=
  MkParam (bs "Device.WiFi.AccessPoint.{i}.Accounting.InterimInterval") TypeUnsignedInt (bs "readWrite") (bs "2.12") (bs "Specifies the default interim accounting interval")
    (MkLimits (Some 60) (Some 0) None None 0 0 [] [] 0 0).
Definition sample_params : list Param := [allowed_ips; tunnel_status; interim_interval].
Definition sample_index : gmap bytes safeParamInfo := match buildSafeParamIndex sample_params with Ok idx => idx | _ => ∅ end.
Definition sample_registry : registry := buildRegistry (mPath <$> sample_params).
Lemma sample_table : table_ok sample_params.
Proof.
  split; [|split].
  - apply (bool_decide_unpack _). vm_compute. exact I.
  - repeat (constructor; [split; [done|]; by intros _|]). constructor.
  - vm_compute. discriminate.
Qed.
Lemma sample_indexed : buildSafeParamIndex sample_params = Ok sample_index.
Proof. vm_refl. Qed.

Lemma sample_members : allowed_ips ∈ sample_params ∧ tunnel_status ∈ sample_params ∧ interim_interval ∈ sample_params.
Proof. unfold sample_params. rewrite !elem_of_cons. tauto. Qed.

Definition peer_routes : Value := VList [VString (bs "10.0.0.0/8"); VString (bs "::/0")].
Lemma peer_routes_fit : fits allowed_ips peer_routes.
Proof.
  apply fits_list; [done..| |intros _; by split].
  repeat (constructor; [apply item_text; [done|by split_and!|done|by intros _ _]|]). constructor.
Qed.
Lemma validation_exact_witness :
  ∃ idx, buildSafeParamIndex sample_params = Ok idx ∧
    validate_message idx sample_registry (MkMessage [] None [MkField 0 (bs "Device.WireGuard.Peer.7.AllowedIPs") peer_routes]) = Ok ().
Proof.
  destruct (validation_exact sample_params sample_table) as (idx & Hidx & Hv). exists idx. split; [done|].
  apply Hv. cbn [Fields]. split; [apply NoDup_singleton|]. apply Forall_singleton. split; [done|]. exists allowed_ips. split_and!.
  - split; [apply sample_members|]. right. split; [|vm_refl]. apply (bool_decide_unpack _). vm_compute. exact I.
  - done.
  - right. apply peer_routes_fit.
Defined.

Lemma bootstrap_fills_model_witness :
  ∃ values', Bootstrap sample_index sample_registry (bs "2.20") sample_params Realistic (MkFillOptions (OtherProfile []) [] None false) ∅ = Ok values' ∧
    ∃ f, values' !! mPath tunnel_status = Some f ∧ Path f = mPath tunnel_status.
Proof.
  destruct (bootstrap_fills_model sample_params sample_index (bs "2.20") Realistic (MkFillOptions (OtherProfile []) [] None false) ∅ sample_table sample_indexed)
    as (values' & Hb & Hall & _).
  exists values'. split; [exact Hb|]. destruct (Hall tunnel_status) as (f & Hf & Hp & _); [apply sample_members|]. exists f. split; [exact Hf|exact Hp].
Defined.

Lemma contradictory_limits_reject_all_witness :
  ∀ v, validate_field sample_index sample_registry (MkField 0 (bs "Device.WiFi.AccessPoint.1.Accounting.InterimInterval") v) = Ok () → vTag v = TagNull.
Proof.
  intros v. destruct (contradictory_limits_reject_all sample_params sample_index sample_registry (bs "2.20") interim_interval 60 0) as [Hno _].
  - apply sample_table.
  - exact sample_indexed.
  - apply sample_members.
  - by left.
  - done.
  - done.
  - vm_compute. reflexivity.
  - apply Hno. split; [apply sample_members|]. right. split; [|vm_refl]. apply (bool_decide_unpack _). vm_compute. exact I.
Defined.
