(* ===== verification/ValidStore.v ===== *)
(** * The store and the schema

    The agent of [UspAgent] over the validation of [Validate]: whatever requests and
    local calls do, what is stored is what validation admits, with one exception, the
    entry counts Add writes itself. *)

From S2P Require Import Prelude GoStr Wire Codec Fragments ReadReplay Transport Request DeviceModel DeviceModelProps UspEvents UspStore UspStoreProps UspAgent UspAgentProps.
From S2P Require Import Validate ValidateProps.

Lemma HasSuffix_appended s p : HasSuffix (s ++ p) p = true.
Proof.
  unfold HasSuffix. rewrite length_app. replace (length s + length p - length p)%nat with (length s) by lia. rewrite drop_app_length.
  rewrite bool_decide_true by done. rewrite andb_true_r. apply Nat.leb_le. lia.
Qed.
(** A path with a graphic template is graphic itself. *)
Lemma canonical_graphic path :
  Forall (fun c => graphic c = true) (canonicalParamPath path) → Forall (fun c => graphic c = true) path.
Proof.
  unfold canonicalParamPath. destruct (length path =? 0)%nat eqn:E; [by apply length_zero in E as ->|]. intros Hg.
  apply (Split_Forall _ _ dot) in Hg. rewrite Split_Join in Hg.
  - rewrite <- (Join_Split path dot). apply Join_Forall; [done|]. rewrite Forall_fmap in Hg. eapply Forall_impl; [exact Hg|].
    intros seg. cbn. unfold canonical_segment. destruct (_ || _); [done|]. destruct (isNumericPathSegment seg) eqn:En; [|done]. intros _.
    apply andb_true_iff in En as [_ Hd]. rewrite forallb_forall in Hd. apply Forall_forall. intros c Hc%list_elem_of_In. apply Hd in Hc.
    by destruct c.
  - intros Hn%fmap_nil_inv. by apply Split_nonempty in Hn.
  - apply Forall_fmap. eapply Forall_impl; [apply Split_no_dot|]. intros seg Hs. cbn. unfold canonical_segment.
    destruct (_ || _); [done|]. destruct (isNumericPathSegment seg); [|done]. apply (bool_decide_unpack _). vm_compute. exact I.
Qed.

Section Stored.
Context `{Schema} {B : Type} (P : Platform B).
Context (AllDeviceObjects : list Object) (AllDeviceParams : list Param).
Context (fill : Param → nat → Value).
Context (rootVersion : bytes) (models : list BroadbandDataModel).
Context (range : store → list (bytes * Field)) (srange : gmap bytes USPSubscription → list (bytes * USPSubscription)).
Context (mrange : metadata → list (bytes * bytes)).
Context (error_text : aerr → bytes).

Abbreviation agent := (Agent B).
Abbreviation storeFields := (storeFields P srange mrange).
Abbreviation Add := (Add P AllDeviceObjects AllDeviceParams fill range srange mrange).
Abbreviation HandleRequest := (HandleRequest P AllDeviceObjects AllDeviceParams fill rootVersion models range srange mrange error_text).

(** What a stored field goes back to: a field that was validated, or a count. *)
Definition was_checked (path : bytes) (v : Value) : Prop := ∃ g, ValidateFieldFast g = Ok () ∧ TrimSpace (Path g) = path ∧ Val g = v.
Definition entry_count (path : bytes) (v : Value) : Prop :=
  lookupSafeParam path = true ∧ HasSuffix path (bs "NumberOfEntries") = true ∧ ∃ n : nat, v = Uint (Z.of_nat n).
Definition store_checked (values : store) : Prop :=
  ∀ path f, values !! path = Some f → was_checked path (Val f) ∨ entry_count path (Val f).
Definition stays_checked (a a' : agent) : Prop := store_checked (values a) → store_checked (values a').

Lemma stored_value f : Val (stored_field f) = Val f.
Proof. unfold stored_field. by destruct (IDFor _ _) as [id []]. Qed.
Lemma store_all_checked fields : ∀ v, store_checked v → Forall (fun f => ValidateFieldFast f = Ok ()) fields → store_checked (store_all v fields).
Proof.
  induction fields as [|f fields IH]; intros v Hv Hf; [done|]. apply Forall_cons in Hf as [Hf Hfs]. rewrite store_all_cons. apply IH; [|done].
  intros path g [[<- <-]|[_ ?]]%lookup_insert_Some; [|by apply Hv]. left. exists f. by rewrite stored_value.
Qed.
Lemma message_checked m : ValidateMessageFast m = Ok () → Forall (fun f => ValidateFieldFast f = Ok ()) (Fields m).
Proof. intros Hv. apply Forall_forall. by apply (validate_fields_each _ _ ∅). Qed.
Lemma submap_checked v v' : v' ⊆ v → store_checked v → store_checked v'.
Proof. intros Hs Hv path f Hf. eapply Hv, lookup_weaken; done. Qed.

Lemma validated_write fields a :
  Forall (fun f => ValidateFieldFast f = Ok ()) fields → stays_checked a (storeFields fields true a).1.
Proof.
  intros Hf Ha. pose proof (storeFields_result P srange mrange fields true a) as Hs. destruct (UspAgent.storeFields _ _ _ _ _ a) as [a' r].
  destruct Hs as (_ & _ & _ & [Hv|Hv] & _); cbn [fst]; rewrite Hv; [done|by apply store_all_checked].
Qed.
Lemma checking_write fields a : stays_checked a (storeFields fields false a).1.
Proof.
  intros Ha. destruct (ValidateMessageFast (MkMessage [] None (trim_field <$> fields))) as [[]|e|] eqn:E.
  2-3: unfold UspAgent.storeFields; destruct (_ =? _)%nat; [done|]; rewrite E; done.
  pose proof (storeFields_result P srange mrange fields false a) as Hs. destruct (UspAgent.storeFields _ _ _ _ _ a) as [a' r].
  destruct Hs as (_ & _ & _ & [Hv|Hv] & _); cbn [fst]; rewrite Hv; [done|]. apply store_all_checked; [done|]. by apply message_checked in E.
Qed.

Lemma delete_submap v path : (deletePathLocked v path).1 ⊆ v.
Proof.
  unfold deletePathLocked. destruct (isObjectPath path); [apply map_filter_subseteq|]. destruct (v !! path); [apply delete_subseteq|done].
Qed.
Lemma delete_paths_checked paths h : ∀ a : agent, stays_checked a (delete_paths paths h a).1.
Proof.
  induction paths as [|p paths IH]; intros a Ha; cbn [delete_paths]; [done|]. pose proof (delete_submap (values a) p) as Hs.
  destruct (deletePathLocked (values a) p) as [v removed]. cbn [fst] in Hs. destruct (_ && _); [by eapply submap_checked|].
  apply IH. by eapply submap_checked.
Qed.
Lemma Delete_checked paths a : stays_checked a (Delete P paths a).1.
Proof.
  unfold Delete. destruct (_ =? _)%nat; [by intros ?|]. destruct (existsb _ _); [by intros ?|]. destruct (xSet P) as [set|]; [|apply delete_paths_checked].
  destruct (xDelete P _ _) as [b r].
  assert (∀ h, stays_checked a (delete_paths (TrimSpace <$> paths) h (with_platform a b)).1) as Hd by (intros h ?; by apply delete_paths_checked).
  destruct r as [|e|]; [apply Hd| |by intros ?]. destruct (bUnsupported e); [apply Hd|by intros ?].
Qed.

Lemma count_path_suffix path c : objectCountParamPath path = Some c → lookupSafeParam c = true ∧ HasSuffix c (bs "NumberOfEntries") = true.
Proof.
  unfold objectCountParamPath. destruct (List.filter _ _) as [|[|i] l]; [done..|]. cbv zeta. destruct (lookupSafeParam _) eqn:E; [|done].
  intros [= <-]. split; [exact E|]. rewrite app_assoc. apply HasSuffix_appended.
Qed.
Lemma add_local_checked path canonical initial a :
  stays_checked a (add_local P AllDeviceParams fill range srange mrange path canonical initial a).1.
Proof.
  intros Ha. unfold add_local. destruct (nextObjectInstance _ _ _ _) as [[iv actual]|e|]; [|done|done].
  destruct (initial_fields _ _ _ _ _) as [fields|e|]; [|done|done].
  pose proof (checking_write (sort_fields (range fields).*2) a Ha) as Hw. destruct (UspAgent.storeFields _ _ _ _ _ a) as [a1 [u|e|]]; [|done|done].
  cbn [fst] in *. unfold refreshEntryCount. destruct (objectCountParamPath canonical) as [c|] eqn:E; [|done].
  intros p f. cbn [with_values values]. intros [[<- <-]|[_ ?]]%lookup_insert_Some; [|by apply Hw]. right. destruct (count_path_suffix _ _ E). by split_and!; [..|eexists].
Qed.
Lemma Add_checked path initial a : stays_checked a (Add path initial a).1.
Proof.
  unfold UspAgent.Add. destruct (add_check _ _) as [canonical|e|]; [|by intros ?|by intros ?]. destruct (xSet P) as [set|]; [|apply add_local_checked].
  destruct (xAdd P) as [add|]; [|apply add_local_checked]. destruct (add _ _ _) as [b [l|e|]]; [by intros ?| |by intros ?].
  destruct (bUnsupported e); [|by intros ?]. intros Ha. by apply add_local_checked.
Qed.

(** ** Requests *)

Lemma same_checked (a a' : agent) : values a' = values a → stays_checked a a'.
Proof. unfold stays_checked. by intros ->. Qed.
Lemma request_checked q req a : validateUSPAgentRequestMessage req = Ok () → stays_checked a (HandleRequest q req a).1.
Proof.
  intros Hm. destruct (writes req) eqn:Hw.
  2:{ apply same_checked, (request_confined P AllDeviceObjects AllDeviceParams fill rootVersion models range srange mrange error_text q req a), Hw. }
  unfold UspAgent.HandleRequest. cbv zeta. set (rq := resolveFastRequestPaths req).
  change (qMethod rq) with (qMethod req). change (qMessage rq) with (qMessage req).
  destruct (_ && negb q); [by intros ?|]. unfold writes in Hw. rewrite !orb_true_iff, !Z.eqb_eq in Hw.
  unfold validateUSPAgentRequestMessage in Hm. destruct Hw as [[Hw|Hw]|Hw]; rewrite Hw in *;
    repeat match goal with |- context [?x =? ?y] => let b := eval vm_compute in (x =? y) in change (x =? y) with b; cbv iota end.
  - destruct (qMessage req) as [[dev ts [|f fields]]|]; [by intros ?| |by intros ?]. rewrite respond_state. apply validated_write.
    by apply message_checked in Hm.
  - rewrite respond_state. apply Add_checked.
  - destruct (_ =? 0)%nat; [by intros ?|]. rewrite respond_state. apply Delete_checked.
Qed.

(** The agent's own calls, and requests as the transport hands them over. *)
Inductive valid_move : agent → agent → Prop :=
| valid_request q req a : validateUSPAgentRequestMessage req = Ok () → valid_move a (HandleRequest q req a).1
| valid_set fields a : valid_move a (storeFields fields false a).1
| valid_add path initial a : valid_move a (Add path initial a).1
| valid_delete paths a : valid_move a (Delete P paths a).1
| valid_subscribe sub a : valid_move a (Subscribe sub a).1
| valid_unsubscribe id a : valid_move a (Unsubscribe id a)
| valid_sender on a : valid_move a (SetEventSender on a)
| valid_emit ev a : valid_move a (Emit P srange mrange ev a).1.
Lemma move_checked a a' : valid_move a a' → stays_checked a a'.
Proof.
  destruct 1; [by apply request_checked|apply checking_write|apply Add_checked|apply Delete_checked|apply same_checked..]; [|done|done|].
  - unfold Subscribe. by destruct (_ =? _)%nat.
  - apply (emit_quiet P srange mrange ev a).
Qed.
Lemma moves_checked sender b a : rtc valid_move (NewUSPAgent sender b) a → store_checked (values a).
Proof.
  intros Hr. assert (stays_checked (NewUSPAgent sender b) a) as Hk.
  { induction Hr as [|? ? ? Hm _ IH]; [by intros ?|]. intros Ha. by apply IH, (move_checked _ _ Hm). }
  apply Hk. intros path f. cbn. by rewrite lookup_empty.
Qed.
End Stored.

(** ** The schema of the program *)

Section Fits.
Context `{UnicodeCase} `{TextLib} {B : Type} (P : Platform B).
Context (d : Device) (AllDeviceObjects : list Object) (AllDeviceParams : list Param).
Context (rootVersion : bytes) (models : list BroadbandDataModel) (text : Value → bytes).
Context (range : store → list (bytes * Field)) (srange : gmap bytes USPSubscription → list (bytes * USPSubscription)).
Context (mrange : metadata → list (bytes * bytes)).
Context (error_text : aerr → bytes).

(** The data model [d] with the validation over the parameter table. *)
Definition checked_schema (idx : gmap bytes safeParamInfo) : Schema :=
  let reg := buildRegistry (mPath <$> AllDeviceParams) in
  device_schema d reg (fun p => bool_decide (is_Some (lookup_param idx p))) (validate_field idx reg) text.
(** The agent over it, with the sample values for new instances. *)
Definition agent_step (idx : gmap bytes safeParamInfo) : Agent B → Agent B → Prop :=
  let schema := checked_schema idx in
  @valid_move schema B P AllDeviceObjects AllDeviceParams
    (fun p i => safeFilledValueForParam idx (buildRegistry (mPath <$> AllDeviceParams)) rootVersion p i Realistic)
    rootVersion models range srange mrange error_text.

(** C26: What is stored fits the schema.  Over any sequence of requests the transport accepted,
    local writes, additions, deletions, subscriptions and events, whatever the platform does, every stored field belongs
    to a parameter of the schema and has no value or one the parameter takes; only an
    entry count that Add writes is stored without its limits being checked. *)
Theorem stored_values_fit idx sender b a path f :
  table_ok AllDeviceParams → Forall (fun p => Forall (fun c => graphic c = true) (mPath p)) AllDeviceParams →
  buildSafeParamIndex AllDeviceParams = Ok idx →
  rtc (agent_step idx) (NewUSPAgent sender b) a → values a !! path = Some f →
  ∃ p, parameter_of AllDeviceParams path p ∧
    (vTag (Val f) = TagNull ∨ fits p (Val f) ∨ HasSuffix path (bs "NumberOfEntries") = true ∧ ∃ n : nat, Val f = Uint (Z.of_nat n)).
Proof.
  intros (Hnd & _) Hg Hidx Hr Hf. rewrite Forall_forall in Hg.
  destruct (@moves_checked (checked_schema idx) B P AllDeviceObjects AllDeviceParams _ rootVersion models range srange mrange error_text sender b a Hr path f Hf)
    as [(g & Hv & Ht & Hval)|(Hl & Hs & n & Hn)].
  - apply (validate_field_spec AllDeviceParams) in Hv as (p & Hp & _ & Hfit); [|done..]. exists p.
    assert (TrimSpace (Path g) = Path g) as Htrim.
    { apply TrimSpace_graphic. destruct Hp as (Hin & [Hp|[_ Hp]]); [rewrite <- Hp; by apply Hg|]. apply canonical_graphic. rewrite <- Hp. by apply Hg. }
    rewrite <- Ht, Htrim, <- Hval. split; [done|]. destruct Hfit; [by left|by right; left].
  - cbn in Hl. apply bool_decide_eq_true in Hl as [[info canonical] Hl].
    apply (lookup_param_spec AllDeviceParams) in Hl as (i & p & _ & Hp & _); [|done..]. exists p. split; [done|]. right. right. eauto.
Qed.
End Fits.

(** ** Witnesses *)

#[local] Existing Instance plain_case.
#[local] Existing Instance plain_text.
Definition no_device : Device := MkDevice [] (MkSummary [] [] [] [] [] [] 0 0) [] [] ∅ ∅ ∅ ∅.
Definition tunnel_up : Field := MkField 0 (bs "Device.WireGuard.Tunnel.3.Status") (VString (bs "Enabled")).
Definition sample_schema : Schema := checked_schema no_device sample_params (fun _ => []) sample_index.
Definition tunnel_agent : Agent (list bytes) :=
  (@storeFields sample_schema _ recorder map_to_list map_to_list [tunnel_up] false (NewUSPAgent false [])).1.
Lemma tunnel_stored : values tunnel_agent !! Path tunnel_up = Some tunnel_up.
Proof. vm_refl. Qed.
Lemma stored_values_fit_witness :
  ∃ p, parameter_of sample_params (Path tunnel_up) p ∧
    (vTag (Val tunnel_up) = TagNull ∨ fits p (Val tunnel_up) ∨
     HasSuffix (Path tunnel_up) (bs "NumberOfEntries") = true ∧ ∃ n : nat, Val tunnel_up = Uint (Z.of_nat n)).
Proof.
  apply (stored_values_fit recorder no_device [] sample_params (bs "2.20") [] (fun _ => []) map_to_list map_to_list map_to_list (fun _ => [])
    sample_index false [] tunnel_agent).
  - exact sample_table.
  - apply (bool_decide_unpack _). vm_compute. exact I.
  - exact sample_indexed.
  - apply rtc_once. apply (@valid_set sample_schema).
  - exact tunnel_stored.
Defined.

(** ** Entry counts

    Add counts the instances under every parent and files the number under the schema's
    path of the count, not under the parent's, and Delete leaves it as it is. *)
Definition station : Object := MkObject (bs "Device.WiFi.AccessPoint.{i}.AssociatedDevice.{i}.") true (bs "2.0") [].
Definition station_mac : Param := MkParam (bs "Device.WiFi.AccessPoint.{i}.AssociatedDevice.{i}.MACAddress") TypeMACAddress (bs "readOnly") (bs "2.0") [] free.
Definition station_count : Param :=
  MkParam (bs "Device.WiFi.AccessPoint.{i}.AssociatedDeviceNumberOfEntries") TypeUnsignedInt (bs "readOnly") (bs "2.0") [] free.
Definition station_params : list Param := [station_mac; station_count].
Definition station_index : gmap bytes safeParamInfo := match buildSafeParamIndex station_params with Ok idx => idx | _ => ∅ end.
Definition station_schema : Schema := checked_schema no_device station_params (fun _ => []) station_index.
Definition station_fill (p : Param) (i : nat) : Value :=
  safeFilledValueForParam station_index (buildRegistry (mPath <$> station_params)) [] p i Realistic.
Definition station_added : Agent (list bytes) :=
  (@Add station_schema _ recorder [station] station_params station_fill map_to_list map_to_list map_to_list (bs "Device.WiFi.AccessPoint.1.AssociatedDevice.") None
     (NewUSPAgent false [])).1.
Definition station_removed : Agent (list bytes) := (Delete recorder [bs "Device.WiFi.AccessPoint.1.AssociatedDevice.1."] station_added).1.
Example entry_count_misfiled :
  (Val <$> values station_added !! bs "Device.WiFi.AccessPoint.{i}.AssociatedDeviceNumberOfEntries") = Some (Uint 1) ∧
  values station_added !! bs "Device.WiFi.AccessPoint.1.AssociatedDeviceNumberOfEntries" = None ∧
  instancePathsForObject map_to_list (values station_removed) (oPath station) = [] ∧
  (Val <$> values station_removed !! bs "Device.WiFi.AccessPoint.{i}.AssociatedDeviceNumberOfEntries") = Some (Uint 1).
Proof. split_and!; vm_compute; reflexivity. Qed.
