(* ===== verification/SmsText.v ===== *)
(** * Texts of short messages

    src/internal/modem/at_linux.go: cleaning of received and outgoing texts, the
    recognition of UCS-2 in hexadecimal, and the check of phone numbers.  Texts are
    bytes; [runes] is what ranging over a string yields.  Which runes are printable
    and which are letters, and upper case outside ASCII, is the class [UnicodeTables]. *)

From S2P Require Import Prelude GoStr.

Class UnicodeTables : Type := {
  IsPrint : Z → bool;
  IsLetter : Z → bool;
  unicode_ToUpper : bytes → bytes }.

(** ** Runes *)

Definition RuneError : Z := 0xFFFD.
Definition cbits (c : byte) : Z := b2z c mod 64.
(** The rune at the front and its width; an invalid byte is a RuneError of width 1. *)
Definition decode_rune (s : bytes) : Z * nat :=
  match rune_len s, s with
  | 1%nat, a :: _ => (b2z a, 1%nat)
  | 2%nat, a :: b :: _ => (b2z a mod 32 * 64 + cbits b, 2%nat)
  | 3%nat, a :: b :: c :: _ => (b2z a mod 16 * 4096 + cbits b * 64 + cbits c, 3%nat)
  | 4%nat, a :: b :: c :: d :: _ => (b2z a mod 8 * 262144 + cbits b * 4096 + cbits c * 64 + cbits d, 4%nat)
  | _, _ => (RuneError, 1%nat)
  end.
Fixpoint runes_loop (fuel : nat) (s : bytes) : list Z :=
  match fuel, s with
  | S fuel, _ :: _ => let '(r, n) := decode_rune s in r :: runes_loop fuel (drop n s)
  | _, _ => []
  end.
Definition runes (s : bytes) : list Z := runes_loop (length s) s.

Definition scalar (r : Z) : bool := (0 <=? r) && (r <=? 0x10FFFF) && negb ((0xD800 <=? r) && (r <=? 0xDFFF)).
Definition cbyte (z : Z) : byte := z2b (0x80 + z mod 64).
(** utf8.AppendRune *)
Definition encode_rune (r : Z) : bytes :=
  let r := if scalar r then r else RuneError in
  if r <? 0x80 then [z2b r]
  else if r <? 0x800 then [z2b (0xC0 + r / 64); cbyte r]
  else if r <? 0x10000 then [z2b (0xE0 + r / 4096); cbyte (r / 64); cbyte r]
  else [z2b (0xF0 + r / 262144); cbyte (r / 4096); cbyte (r / 64); cbyte r].
Definition encode_runes (rs : list Z) : bytes := concat (encode_rune <$> rs).

(** strings.ToValidUTF8(s, string(utf8.RuneError)): a run of invalid bytes becomes
    one replacement. *)
Fixpoint replace_invalid (fuel : nat) (invalid : bool) (s : bytes) : bytes :=
  match fuel, s with
  | S fuel, _ :: rest =>
      match rune_len s with
      | O => (if invalid then [] else encode_rune RuneError) ++ replace_invalid fuel true rest
      | n => take n s ++ replace_invalid fuel false (drop n s)
      end
  | _, _ => []
  end.
Definition ToValidUTF8_error (s : bytes) : bytes := replace_invalid (length s) false s.
(** strings.Map: a negative rune is dropped. *)
Definition strings_Map (mapping : Z → option Z) (s : bytes) : bytes := encode_runes (omap mapping (runes s)).

Definition IsControl (r : Z) : bool := ((0 <=? r) && (r <? 32)) || ((0x7F <=? r) && (r <=? 0x9F)).
Definition IsSpace (r : Z) : bool :=
  ((9 <=? r) && (r <=? 13)) || (r =? 32) || (r =? 0x85) || (r =? 0xA0) || (r =? 0x1680) || ((0x2000 <=? r) && (r <=? 0x200A))
  || (r =? 0x2028) || (r =? 0x2029) || (r =? 0x202F) || (r =? 0x205F) || (r =? 0x3000).
(** The formatting controls that reorder text. *)
Definition bidi (r : Z) : bool := ((0x202A <=? r) && (r <=? 0x202E)) || ((0x2066 <=? r) && (r <=? 0x2069)).

(** ** Cleaning *)

Definition sanitized_rune (r : Z) : option Z :=
  if (r =? 10) || (r =? 9) then Some r else if IsControl r || bidi r then None else Some r.
Definition sanitizeSMSText (value : bytes) : bytes := TrimSpace (strings_Map sanitized_rune (ToValidUTF8_error value)).
Definition outgoing_rune (r : Z) : option Z :=
  if (r =? 10) || (r =? 9) then Some r else if (r =? RuneError) || (r =? 0x1A) || IsControl r || bidi r then None else Some r.
(** ReplaceAll of CR LF and then of CR by LF. *)
Fixpoint crlf_to_lf (s : bytes) : bytes :=
  match s with
  | a :: (b :: t) as t' => if (b2z a =? 13) && (b2z b =? 10) then b :: crlf_to_lf t else a :: crlf_to_lf t'
  | _ => s
  end.
Definition cr_to_lf (s : bytes) : bytes := (fun c => if b2z c =? 13 then z2b 10 else c) <$> s.
Definition sanitizeOutgoingSMSText (value : bytes) : bytes :=
  TrimSpace (strings_Map outgoing_rune (cr_to_lf (crlf_to_lf (ToValidUTF8_error value)))).

Definition ContainsAny (s chars : bytes) : bool := existsb (fun c => bool_decide (c ∈ chars)) s.
Definition smsToolSendSupportsMessage (value : bytes) : bool := negb (ContainsAny value [z2b 32; z2b 9; z2b 10]).
Definition digitsOnly (value : bytes) : bytes := List.filter is_digit value.
(** A plus sign may stand first. *)
Definition validSMSPhoneNumber (value : bytes) : bool :=
  let body := match value with c :: t => if b2z c =? 43 then t else value | [] => [] end in
  forallb is_digit body && (let n := length (digitsOnly value) in (3 <=? n)%nat && (n <=? 15)%nat).
Definition validateOutgoingSMS (phoneNumber message : bytes) : res string (bytes * bytes) :=
  let phoneNumber := TrimSpace phoneNumber in
  let message := sanitizeOutgoingSMSText message in
  if (length phoneNumber =? 0)%nat || (length message =? 0)%nat then Err "phone number and message are required"
  else if negb (validSMSPhoneNumber phoneNumber) then Err "invalid SMS phone number"
  else if (1600 <? length message)%nat then Err "SMS message exceeds 1600 bytes"
  else Ok (phoneNumber, message).

(** ** Hexadecimal and UTF-16 *)

Definition is_hex (c : byte) : bool :=
  let n := b2z c in ((48 <=? n) && (n <=? 57)) || ((97 <=? n) && (n <=? 102)) || ((65 <=? n) && (n <=? 70)).
Definition hex_value (c : byte) : Z :=
  let n := b2z c in if n <=? 57 then n - 48 else if n <=? 70 then n - 55 else n - 87.
(** hex.DecodeString; [None] is an odd length or another digit. *)
Fixpoint hex_DecodeString (s : bytes) : option bytes :=
  match s with
  | [] => Some []
  | a :: b :: s => if is_hex a && is_hex b then (cons (z2b (hex_value a * 16 + hex_value b))) <$> hex_DecodeString s else None
  | [_] => None
  end.
Fixpoint code_units (littleEndian : bool) (b : bytes) : list Z :=
  match b with
  | x :: y :: b => (if littleEndian then b2z x + b2z y * 256 else b2z x * 256 + b2z y) :: code_units littleEndian b
  | _ => []
  end.
Definition high_surrogate (u : Z) : bool := (0xD800 <=? u) && (u <? 0xDC00).
Definition low_surrogate (u : Z) : bool := (0xDC00 <=? u) && (u <? 0xE000).
(** utf16.Decode *)
Fixpoint utf16_Decode (units : list Z) : list Z :=
  match units with
  | [] => []
  | u :: (v :: units) as rest =>
      if high_surrogate u && low_surrogate v then ((u - 0xD800) * 1024 + (v - 0xDC00) + 0x10000) :: utf16_Decode units
      else (if high_surrogate u || low_surrogate u then RuneError else u) :: utf16_Decode rest
  | [u] => [if high_surrogate u || low_surrogate u then RuneError else u]
  end.

Section Texts.
Context `{UnicodeTables}.

Definition ascii_upper (c : byte) : byte := if (97 <=? b2z c) && (b2z c <=? 122) then z2b (b2z c - 32) else c.
Definition ToUpper (s : bytes) : bytes := if forallb (fun c => b2z c <? 128) s then ascii_upper <$> s else unicode_ToUpper s.

(** The encoding markers; the text after one of them. *)
Definition ucs2_prefixes : list bytes := [bs "UCS2:"; bs "UCS-2:"; bs "UTF16BE:"].
Fixpoint strip_marker (prefixes : list bytes) (encoded : bytes) : bytes * bool :=
  match prefixes with
  | [] => (encoded, false)
  | p :: prefixes => if HasPrefix (ToUpper encoded) p then (TrimSpace (drop (length p) encoded), true) else strip_marker prefixes encoded
  end.
Definition decodeExplicitUCS2 (value : bytes) : option bytes :=
  let '(encoded, explicit) := strip_marker ucs2_prefixes (TrimSpace value) in
  if (length encoded <? 4)%nat || negb (length encoded mod 4 =? 0)%nat then None else
  match hex_DecodeString encoded with
  | None => None
  | Some b =>
      let starts x y := match b with p :: q :: _ => (b2z p =? x) && (b2z q =? y) | _ => false end in
      let littleEndian := starts 0xFF 0xFE in
      let hasBOM := littleEndian || starts 0xFE 0xFF in
      if negb explicit && negb hasBOM then None else
      let b := if hasBOM then drop 2 b else b in
      if (length b =? 0)%nat || negb (length b mod 2 =? 0)%nat then None else
      let decoded := utf16_Decode (code_units littleEndian b) in
      if existsb (Z.eqb RuneError) decoded then None else Some (encode_runes decoded)
  end.

Definition count_if {A} (f : A → bool) (l : list A) : Z := Z.of_nat (length (List.filter f l)).
Definition looksLikeHumanSMS (value : bytes) : bool :=
  let rs := runes (TrimSpace value) in
  let n := Z.of_nat (length rs) in
  if n <? 4 then false else
  let printable := count_if (fun r => (r =? 10) || (r =? 9) || IsPrint r) rs in
  let lettersOrSpaces := count_if (fun r => IsLetter r || IsSpace r) rs in
  if (n =? 0) || (printable * 100 / n <? 90) then false
  else (0 <? lettersOrSpaces) && (15 <=? lettersOrSpaces * 100 / n).
Definition decodeLikelyUCS2Body (value : bytes) : option bytes :=
  let encoded := TrimSpace value in
  if (length encoded <? 16)%nat || negb (length encoded mod 4 =? 0)%nat || ContainsAny encoded [z2b 32; z2b 9; z2b 13; z2b 10] then None
  else if negb (forallb is_hex encoded) then None else
  match hex_DecodeString encoded with
  | None => None
  | Some b =>
      if (length b <? 8)%nat || negb (length b mod 2 =? 0)%nat then None else
      let units := code_units false b in
      let zeroHighBytes := count_if (fun u => u <? 256) units in
      if zeroHighBytes * 2 <? Z.of_nat (length units) then None else
      let decoded := utf16_Decode units in
      if existsb (Z.eqb RuneError) decoded then None else
      let decoded := sanitizeSMSText (encode_runes decoded) in
      if negb (looksLikeHumanSMS decoded) then None else Some decoded
  end.
Definition normalizeSMSBody (value : bytes) : bytes :=
  let value := TrimSpace (sanitizeSMSText value) in
  sanitizeSMSText
    match decodeExplicitUCS2 value with
    | Some decoded => decoded
    | None => match decodeLikelyUCS2Body value with Some decoded => decoded | None => value end
    end.
End Texts.
