(* ===== verification/SmsTextProps.v ===== *)
(** * Short message texts: what cleaning leaves

    Encoding and decoding of runes are inverse, so that the result of a cleaning is
    described by its runes: [cleaned_runes] holds whatever bytes the modem sends. *)

From S2P Require Import Prelude GoStr SmsText.

(** ** UTF-8 *)

#[local] Ltac Zify.zify_post_hook ::= Z.to_euclidean_division_equations.

Lemma rune_cases r :
  scalar r = true →
  0 ≤ r < 0x80 ∨ 0x80 ≤ r < 0x800 ∨ (0x800 ≤ r < 0x10000 ∧ ¬ 0xD800 ≤ r ≤ 0xDFFF) ∨ 0x10000 ≤ r ≤ 0x10FFFF.
Proof. unfold scalar. lia. Qed.
Lemma cbyte_val z : b2z (cbyte z) = 0x80 + z mod 64.
Proof. unfold cbyte. apply b2z_z2b_small. lia. Qed.

(** The bytes of a rune as numbers. *)
Inductive rune_bytes (r : Z) : list Z → Prop :=
| bytes1 : 0 ≤ r < 0x80 → rune_bytes r [r]
| bytes2 a b : rune2 a b = true → r = a mod 32 * 64 + b mod 64 → rune_bytes r [a; b]
| bytes3 a b c : rune3 a b c = true → r = a mod 16 * 4096 + b mod 64 * 64 + c mod 64 → rune_bytes r [a; b; c]
| bytes4 a b c d : rune4 a b c d = true → r = a mod 8 * 262144 + b mod 64 * 4096 + c mod 64 * 64 + d mod 64 → rune_bytes r [a; b; c; d].

Lemma encode_bytes r : scalar r = true → rune_bytes r (b2z <$> encode_rune r).
Proof.
  intros Hs. unfold encode_rune. rewrite Hs. cbv zeta. apply rune_cases in Hs as [Hr|[Hr|[Hr|Hr]]].
  - rewrite (proj2 (Z.ltb_lt r _)) by lia. cbn [fmap list_fmap]. rewrite b2z_z2b_small by lia. by apply bytes1.
  - rewrite (proj2 (Z.ltb_ge r 0x80)), (proj2 (Z.ltb_lt r 0x800)) by lia. cbn [fmap list_fmap]. rewrite !cbyte_val, b2z_z2b_small by lia.
    apply bytes2; [unfold rune2, cont|]; lia.
  - rewrite (proj2 (Z.ltb_ge r 0x80)), (proj2 (Z.ltb_ge r 0x800)), (proj2 (Z.ltb_lt r 0x10000)) by lia. cbn [fmap list_fmap].
    rewrite !cbyte_val, b2z_z2b_small by lia. apply bytes3; [|lia]. unfold rune3, cont.
    destruct (Z.eqb_spec (0xE0 + r / 4096) 0xE0), (Z.eqb_spec (0xE0 + r / 4096) 0xED); lia.
  - rewrite (proj2 (Z.ltb_ge r 0x80)), (proj2 (Z.ltb_ge r 0x800)), (proj2 (Z.ltb_ge r 0x10000)) by lia. cbn [fmap list_fmap].
    rewrite !cbyte_val, b2z_z2b_small by lia. apply bytes4; [|lia]. unfold rune4, cont.
    destruct (Z.eqb_spec (0xF0 + r / 262144) 0xF0), (Z.eqb_spec (0xF0 + r / 262144) 0xF4); lia.
Qed.
(** The range of the rune determines the number of its bytes. *)
Lemma bytes_range r l :
  rune_bytes r l →
  (length l = 1%nat ∧ 0 ≤ r < 0x80) ∨ (length l = 2%nat ∧ 0x80 ≤ r < 0x800) ∨
  (length l = 3%nat ∧ 0x800 ≤ r < 0x10000 ∧ ¬ 0xD800 ≤ r ≤ 0xDFFF) ∨ (length l = 4%nat ∧ 0x10000 ≤ r ≤ 0x10FFFF).
Proof.
  destruct 1 as [?|a b H2 ->|a b c H3 ->|a b c d H4 ->].
  - left. done.
  - right. left. split; [done|]. unfold rune2, cont in H2. lia.
  - right. right. left. split; [done|]. unfold rune3, cont in H3. destruct (Z.eqb_spec a 0xE0), (Z.eqb_spec a 0xED); lia.
  - right. right. right. split; [done|]. unfold rune4, cont in H4. destruct (Z.eqb_spec a 0xF0), (Z.eqb_spec a 0xF4); lia.
Qed.
Lemma rune2_range a b : rune2 a b = true → 0xC0 ≤ a < 0xE0 ∧ 0x80 ≤ b < 0xC0.
Proof. unfold rune2, cont. lia. Qed.
Lemma rune3_range a b c : rune3 a b c = true → 0xE0 ≤ a < 0xF0 ∧ 0x80 ≤ b < 0xC0 ∧ 0x80 ≤ c < 0xC0.
Proof. unfold rune3, cont. destruct (a =? 0xE0), (a =? 0xED); lia. Qed.
Lemma rune4_range a b c d : rune4 a b c d = true → 0xF0 ≤ a < 0xF8 ∧ 0x80 ≤ b < 0xC0 ∧ 0x80 ≤ c < 0xC0 ∧ 0x80 ≤ d < 0xC0.
Proof. unfold rune4, cont. destruct (a =? 0xF0), (a =? 0xF4); lia. Qed.
Lemma bytes_unique r l l' : rune_bytes r l → rune_bytes r l' → l = l'.
Proof.
  intros Hl Hl'. pose proof (bytes_range _ _ Hl) as Hr. pose proof (bytes_range _ _ Hl') as Hr'.
  destruct Hl as [?|a b H2 E|a b c H3 E|a b c d H4 E], Hl' as [?|a' b' H2' E'|a' b' c' H3' E'|a' b' c' d' H4' E'];
    cbn [length] in Hr, Hr'; try (exfalso; lia); [done|..].
  - apply rune2_range in H2, H2'. repeat f_equal; lia.
  - apply rune3_range in H3, H3'. repeat f_equal; lia.
  - apply rune4_range in H4, H4'. repeat f_equal; lia.
Qed.
Lemma bytes_inj r r' l : rune_bytes r l → rune_bytes r' l → r' = r.
Proof. destruct 1; inversion 1; by subst. Qed.
Lemma bytes_encode r s : rune_bytes r (b2z <$> s) → scalar r = true ∧ s = encode_rune r.
Proof.
  intros Hb. assert (scalar r = true) as Hs by (apply bytes_range in Hb; unfold scalar; lia).
  split; [done|]. apply (inj (fmap b2z)). eapply bytes_unique; [exact Hb|by apply encode_bytes].
Qed.

(** What the decoder reads is a rune's bytes. *)
Lemma decode_front s : rune_len s ≠ 0%nat → ∃ r t, s = encode_rune r ++ t ∧ scalar r = true ∧ decode_rune s = (r, rune_len s) ∧ rune_len s = length (encode_rune r).
Proof.
  intros Hn. set (n := rune_len s). set (r := (decode_rune s).1). assert (rune_bytes r (b2z <$> take n s) ∧ (decode_rune s).2 = n ∧ length (take n s) = n) as (Hb & Hw & Hl).
  { unfold r, n, decode_rune, rune_len in *. destruct s as [|a [|b [|c [|d s]]]]; cbn [fmap list_fmap] in *; [done|..].
    all: destruct (Z.ltb_spec (b2z a) 0x80) as [Ha|Ha];
      [pose proof (b2z_range a); cbn [take fmap list_fmap fst snd length]; (split; [apply bytes1; lia|done])|].
    all: try done.
    all: destruct (rune2 (b2z a) (b2z b)) eqn:E2; [cbn [take fmap list_fmap fst snd length]; split; [by apply bytes2|done]|].
    all: try done.
    all: destruct (rune3 (b2z a) (b2z b) (b2z c)) eqn:E3; [cbn [take fmap list_fmap fst snd length]; split; [by apply bytes3|done]|].
    all: try done.
    all: destruct (rune4 (b2z a) (b2z b) (b2z c) (b2z d)) eqn:E4; [cbn [take fmap list_fmap fst snd length]; split; [by apply bytes4|done]|done]. }
  apply bytes_encode in Hb as [Hs He]. exists r, (drop n s). rewrite <- He, take_drop. split_and!; [done..| |done].
  unfold r. rewrite <- Hw. by destruct (decode_rune s).
Qed.
Lemma decode_encode r t : scalar r = true → decode_rune (encode_rune r ++ t) = (r, length (encode_rune r)) ∧ rune_len (encode_rune r ++ t) = length (encode_rune r).
Proof.
  intros Hs. pose proof (encode_bytes r Hs) as Hb. assert (rune_len (encode_rune r ++ t) = length (encode_rune r)) as Hl.
  { rewrite <- (length_fmap b2z). unfold rune_len. rewrite fmap_app. destruct Hb as [Hr|a b H2 _|a b c H3 _|a b c d H4 _]; cbn [app length].
    - by rewrite (proj2 (Z.ltb_lt r _)) by lia.
    - pose proof (rune2_range _ _ H2). by rewrite (proj2 (Z.ltb_ge a _)), H2 by lia.
    - pose proof (rune3_range _ _ _ H3). rewrite (proj2 (Z.ltb_ge a _)), H3 by lia.
      assert (rune2 a b = false) as ->; [|done]. apply not_true_iff_false. intros ?%rune2_range. lia.
    - pose proof (rune4_range _ _ _ _ H4). rewrite (proj2 (Z.ltb_ge a _)), H4 by lia.
      assert (rune2 a b = false) as -> by (apply not_true_iff_false; intros ?%rune2_range; lia).
      assert (rune3 a b c = false) as ->; [|done]. apply not_true_iff_false. intros ?%rune3_range. lia. }
  split; [|done]. destruct (decode_front (encode_rune r ++ t)) as (r' & t' & Heq & Hs' & Hd & Hn).
  { rewrite Hl. apply bytes_range in Hb. rewrite length_fmap in Hb. lia. }
  rewrite Hd, Hl. f_equal. rewrite Hl in Hn. apply app_inj_1 in Heq as [Heq _]; [|done].
  pose proof (encode_bytes r' Hs') as Hb'. rewrite <- Heq in Hb'. by eapply bytes_inj.
Qed.

(** ** Texts as runes *)

Abbreviation scalars := (Forall (fun r => scalar r = true)).

Lemma encode_pos r : (0 < length (encode_rune r))%nat.
Proof. unfold encode_rune. repeat case_match; cbn; lia. Qed.
Lemma encode_runes_cons r rs : encode_runes (r :: rs) = encode_rune r ++ encode_runes rs.
Proof. done. Qed.
Lemma encode_runes_app rs rs' : encode_runes (rs ++ rs') = encode_runes rs ++ encode_runes rs'.
Proof. unfold encode_runes. by rewrite fmap_app, concat_app. Qed.

Lemma runes_loop_encode rs : ∀ fuel, scalars rs → (length (encode_runes rs) ≤ fuel)%nat → runes_loop fuel (encode_runes rs) = rs.
Proof.
  induction rs as [|r rs IH]; intros fuel Hs Hf; [by destruct fuel|]. apply Forall_cons in Hs as [Hr Hs]. rewrite encode_runes_cons in *.
  rewrite length_app in Hf. pose proof (encode_pos r). destruct fuel as [|fuel]; [lia|]. destruct (encode_rune r ++ encode_runes rs) as [|c t] eqn:E.
  { apply (f_equal length) in E. rewrite length_app in E. cbn in E. lia. }
  cbn [runes_loop]. rewrite <- E. destruct (decode_encode r (encode_runes rs) Hr) as [-> _]. f_equal. rewrite drop_app_length. apply IH; [done|lia].
Qed.
Lemma runes_encode rs : scalars rs → runes (encode_runes rs) = rs.
Proof. intros Hs. by apply runes_loop_encode. Qed.

(** Ranging over any bytes yields code points. *)
Lemma decode_scalar s : scalar (decode_rune s).1 = true.
Proof.
  destruct (decide (rune_len s = 0%nat)) as [E|E]; [unfold decode_rune; by rewrite E|].
  by destruct (decode_front s E) as (r & t & _ & Hr & -> & _).
Qed.
Lemma runes_loop_scalars fuel : ∀ s, scalars (runes_loop fuel s).
Proof.
  induction fuel as [|fuel IH]; intros s; [done|]. destruct s as [|c s]; [done|]. cbn [runes_loop]. pose proof (decode_scalar (c :: s)) as Hd.
  destruct (decode_rune (c :: s)) as [r n]. by constructor.
Qed.
(** A mapping that keeps or drops runes. *)
Lemma map_runes mapping s :
  (∀ r r', mapping r = Some r' → r' = r) →
  ∃ rs, scalars rs ∧ Forall (fun r => mapping r = Some r) rs ∧ strings_Map mapping s = encode_runes rs.
Proof.
  intros Hm. exists (omap mapping (runes s)).
  split_and!; [| |done]; apply Forall_forall; intros r (r0 & Hin & Hr)%list_elem_of_omap; assert (r = r0) as -> by (by apply Hm).
  - by apply (proj1 (Forall_forall _ _) (runes_loop_scalars (length s) s)).
  - done.
Qed.

(** ** Trimming removes whole runes *)

Lemma space_front_rune s : space_front s ≠ 0%nat → rune_len s = space_front s.
Proof.
  unfold space_front, rune_len. destruct s as [|a [|b [|c s]]]; cbn [fmap list_fmap]; [done|..].
  all: destruct (space1 (b2z a)) eqn:E1; [intros _; unfold space1 in E1; by rewrite (proj2 (Z.ltb_lt (b2z a) _)) by lia|].
  all: try done.
  all: destruct (space2 (b2z a) (b2z b)) eqn:E2;
    [intros _; unfold space2 in E2; assert (rune2 (b2z a) (b2z b) = true) as Hr by (unfold rune2, cont; lia);
     by rewrite Hr, (proj2 (Z.ltb_ge (b2z a) _)) by lia|].
  all: try done.
  destruct (space3 (b2z a) (b2z b) (b2z c)) eqn:E3; [|done]. intros _. unfold space3 in E3.
  assert (rune3 (b2z a) (b2z b) (b2z c) = true) as -> by (unfold rune3, cont; destruct (Z.eqb_spec (b2z a) 0xE0), (Z.eqb_spec (b2z a) 0xED); lia).
  assert (rune2 (b2z a) (b2z b) = false) as -> by (unfold rune2, cont; lia). by rewrite (proj2 (Z.ltb_ge (b2z a) _)) by lia.
Qed.
Lemma trim_front fuel : ∀ rs, scalars rs → ∃ rs', scalars rs' ∧ rs' ⊆ rs ∧ trim_with space_front fuel (encode_runes rs) = encode_runes rs'.
Proof.
  induction fuel as [|fuel IH]; intros rs Hs; [by exists rs|]. cbn [trim_with]. destruct (space_front (encode_runes rs)) as [|n] eqn:E; [by exists rs|].
  pose proof (space_front_rune (encode_runes rs)) as Hr. rewrite E in Hr. specialize (Hr (Nat.neq_succ_0 n)).
  destruct rs as [|r rs]; [done|]. apply Forall_cons in Hs as [Hc Hs]. rewrite encode_runes_cons in *.
  destruct (decode_encode r (encode_runes rs) Hc) as [_ Hl]. rewrite Hl in Hr. rewrite <- Hr, drop_app_length.
  destruct (IH rs Hs) as (rs' & ? & ? & ->). exists rs'. split_and!; [done|set_solver|done].
Qed.
Lemma space_back_rune r t : scalar r = true → space_back (reverse (encode_rune r) ++ t) ≠ 0%nat → space_back (reverse (encode_rune r) ++ t) = length (encode_rune r).
Proof.
  intros Hs. pose proof (encode_bytes r Hs) as Hb. remember (b2z <$> encode_rune r) as l eqn:El.
  destruct Hb as [Hr|a b H2 _|a b c H3 _|a b c d H4 _].
  - destruct (encode_rune r) as [|x [|]]; try discriminate El. injection El as ->. unfold reverse. cbn [rev_append app length space_back].
    destruct (space1 (b2z x)); [done|]. destruct t as [|y [|z t]]; [done|..].
    all: assert (space2 (b2z y) (b2z x) = false) as -> by (unfold space2; lia). 1: done.
    assert (space3 (b2z z) (b2z y) (b2z x) = false) as -> by (unfold space3; lia). done.
  - apply rune2_range in H2. destruct (encode_rune r) as [|x [|y [|]]]; try discriminate El. injection El as -> ->. unfold reverse. cbn [rev_append app length space_back].
    assert (space1 (b2z y) = false) as -> by (unfold space1; lia). destruct (space2 _ _); [done|]. destruct t as [|z t]; [done|].
    assert (space3 (b2z z) (b2z x) (b2z y) = false) as -> by (unfold space3; lia). done.
  - apply rune3_range in H3. destruct (encode_rune r) as [|x [|y [|z [|]]]]; try discriminate El. injection El as -> -> ->. unfold reverse.
    cbn [rev_append app length space_back].
    assert (space1 (b2z z) = false) as -> by (unfold space1; lia). assert (space2 (b2z y) (b2z z) = false) as -> by (unfold space2; lia).
    by destruct (space3 _ _ _).
  - apply rune4_range in H4. destruct (encode_rune r) as [|x [|y [|z [|w [|]]]]]; try discriminate El. injection El as -> -> -> ->. unfold reverse.
    cbn [rev_append app length space_back].
    assert (space1 (b2z w) = false) as -> by (unfold space1; lia). assert (space2 (b2z z) (b2z w) = false) as -> by (unfold space2; lia).
    assert (space3 (b2z y) (b2z z) (b2z w) = false) as -> by (unfold space3; lia). done.
Qed.
Lemma trim_back fuel : ∀ rs, scalars rs →
  ∃ rs', scalars rs' ∧ rs' ⊆ rs ∧ trim_with space_back fuel (reverse (encode_runes rs)) = reverse (encode_runes rs').
Proof.
  induction fuel as [|fuel IH]; intros rs Hs; [by exists rs|]. cbn [trim_with]. destruct (space_back (reverse (encode_runes rs))) as [|n] eqn:E; [by exists rs|].
  destruct rs as [|r rs _] using rev_ind; [done|]. apply Forall_app in Hs as [Hs [Hr _]%Forall_cons].
  rewrite encode_runes_app, encode_runes_cons in *. cbn [encode_runes concat fmap list_fmap] in *. rewrite app_nil_r, reverse_app in *.
  pose proof (space_back_rune r (reverse (encode_runes rs)) Hr) as Hb. rewrite E in Hb. specialize (Hb (Nat.neq_succ_0 n)).
  rewrite Hb, <- (length_reverse (encode_rune r)), drop_app_length. destruct (IH rs Hs) as (rs' & ? & ? & ->). exists rs'. split_and!; [done|set_solver|done].
Qed.
Lemma TrimSpace_runes rs : scalars rs → ∃ rs', scalars rs' ∧ rs' ⊆ rs ∧ TrimSpace (encode_runes rs) = encode_runes rs'.
Proof.
  intros Hs. unfold TrimSpace. destruct (trim_front (length (encode_runes rs)) rs Hs) as (rs1 & Hs1 & Hsub1 & ->).
  destruct (trim_back (length (encode_runes rs1)) rs1 Hs1) as (rs2 & Hs2 & Hsub2 & ->). exists rs2. rewrite reverse_involutive. split_and!; [done|set_solver|done].
Qed.

(** What a cleaning leaves. *)
Definition displayable (r : Z) : Prop := scalar r = true ∧ (r = 9 ∨ r = 10 ∨ IsControl r = false) ∧ bidi r = false.
Lemma sanitized_displayable r : scalar r = true → sanitized_rune r = Some r → displayable r.
Proof.
  unfold sanitized_rune, displayable. intros Hs. destruct ((r =? 10) || (r =? 9)) eqn:E.
  - intros _. assert (r = 9 ∨ r = 10) as [-> | ->] by lia; by split_and!; auto.
  - destruct (IsControl r), (bidi r); naive_solver.
Qed.
Lemma cleaned_runes mapping (Q : Z → Prop) s :
  (∀ r, scalar r = true → mapping r = Some r → Q r) →
  (∃ rs, scalars rs ∧ Forall (fun r => mapping r = Some r) rs ∧ s = encode_runes rs) →
  TrimSpace s = encode_runes (runes (TrimSpace s)) ∧ Forall Q (runes (TrimSpace s)).
Proof.
  intros HQ (rs & Hs & Hm & ->). destruct (TrimSpace_runes rs Hs) as (rs' & Hs' & Hsub & ->).
  rewrite runes_encode by done. split; [done|]. rewrite Forall_forall in *. intros r Hr. apply HQ; auto.
Qed.
Lemma sanitized_runes value : sanitizeSMSText value = encode_runes (runes (sanitizeSMSText value)) ∧ Forall displayable (runes (sanitizeSMSText value)).
Proof.
  apply (cleaned_runes sanitized_rune); [apply sanitized_displayable|]. apply map_runes. intros r r'. unfold sanitized_rune. repeat case_match; naive_solver.
Qed.

(** An outgoing text: no replacement character, no control that ends or escapes it. *)
Definition sendable (r : Z) : Prop := displayable r ∧ r ≠ RuneError ∧ r ≠ 0x1A ∧ r ≠ 13.
Lemma outgoing_sendable r : scalar r = true → outgoing_rune r = Some r → sendable r.
Proof.
  unfold outgoing_rune, sendable, displayable. intros Hs. destruct ((r =? 10) || (r =? 9)) eqn:E.
  - intros _. assert (r = 9 ∨ r = 10) as [-> | ->] by lia; by split_and!; auto.
  - destruct (r =? RuneError) eqn:E1, (r =? 0x1A) eqn:E2, (IsControl r) eqn:E3, (bidi r); cbn [orb]; try done. intros _. unfold IsControl in E3.
    split_and!; auto; lia.
Qed.
Lemma outgoing_runes value :
  sanitizeOutgoingSMSText value = encode_runes (runes (sanitizeOutgoingSMSText value)) ∧ Forall sendable (runes (sanitizeOutgoingSMSText value)).
Proof.
  apply (cleaned_runes outgoing_rune); [apply outgoing_sendable|]. apply map_runes. intros r r'. unfold outgoing_rune. repeat case_match; naive_solver.
Qed.
Lemma phone_number_digits number :
  validSMSPhoneNumber number = true →
  ∃ plus digits, number = plus ++ digits ∧ (plus = [] ∨ plus = [z2b 43]) ∧ Forall (fun c => is_digit c = true) digits ∧ (3 ≤ length digits ≤ 15)%nat.
Proof.
  unfold validSMSPhoneNumber. rewrite !andb_true_iff, !Nat.leb_le. intros [Hd Hn].
  assert (∀ l, forallb is_digit l = true → digitsOnly l = l ∧ Forall (fun c => is_digit c = true) l) as Hall.
  { induction l as [|c l IH]; [done|]. cbn [forallb digitsOnly List.filter]. intros [Hc Hl]%andb_true_iff. rewrite Hc. destruct (IH Hl) as [E ?].
    split; [by f_equal|by constructor]. }
  destruct number as [|c t]; [cbn in Hn; lia|]. destruct (Z.eqb_spec (b2z c) 43) as [Hc|Hc].
  - destruct (Hall t Hd) as [E Ht]. assert (digitsOnly (c :: t) = t) as Hdt.
    { unfold digitsOnly. cbn [List.filter]. by replace (is_digit c) with false by (unfold is_digit; lia). }
    rewrite Hdt in Hn. exists [c], t. split_and!; [done| |done|..].
    + right. f_equal. by rewrite <- Hc, z2b_b2z.
    + lia.
    + lia.
  - destruct (Hall (c :: t) Hd) as [E Ht]. rewrite E in Hn. exists [], (c :: t). split_and!; [done|by left|done|lia|lia].
Qed.

Definition clean_text (t : bytes) : Prop := t = encode_runes (runes t) ∧ Forall displayable (runes t).
Lemma normalized_clean `{UnicodeTables} value : clean_text (normalizeSMSBody value).
Proof. apply sanitized_runes. Qed.
Lemma outgoing_checked phoneNumber message number text :
  validateOutgoingSMS phoneNumber message = Ok (number, text) →
  (∃ plus digits, number = plus ++ digits ∧ (plus = [] ∨ plus = [z2b 43]) ∧ Forall (fun c => is_digit c = true) digits ∧ (3 ≤ length digits ≤ 15)%nat) ∧
  text = encode_runes (runes text) ∧ Forall sendable (runes text) ∧ (0 < length text ≤ 1600)%nat.
Proof.
  unfold validateOutgoingSMS. cbv zeta.
  destruct ((length (TrimSpace phoneNumber) =? 0)%nat || _) eqn:E; [done|]. apply orb_false_iff in E as [_ Hne%Nat.eqb_neq].
  destruct (validSMSPhoneNumber (TrimSpace phoneNumber)) eqn:Ep; [|done]. cbn [negb]. destruct (_ <? _)%nat eqn:El; [done|]. intros [= <- <-].
  apply Nat.ltb_ge in El. destruct (outgoing_runes message). split_and!; try done; [by apply phone_number_digits|lia].
Qed.
