(* ===== verification/Sms.v ===== *)
(** * The message inbox

    src/internal/modem/smspdu.go and its callers in at_linux.go: the listing of stored
    PDUs, joining of parts, order of the inbox, and deletion.  The SMS codec (package
    github.com/warthog618/sms) is the class [SmsLib]; AT commands are the texts that are
    sent.  An error is its text. *)

From S2P Require Import Prelude GoStr SmsText.

Class SmsLib : Type := {
  TPDU : Type;
  SmsSubmit : Z;
  SmsDeliver : Z;
  SmsType : TPDU → Z;
  sms_Encode : bytes → bytes → bytes + list TPDU;
  MarshalBinary : TPDU → bytes + bytes;
  (** the flag: mobile originated *)
  sms_Unmarshal : bytes → bool → bytes + TPDU;
  DA_Number : TPDU → bytes;
  OA_Number : TPDU → bytes;
  (** segments, sequence number, reference *)
  ConcatInfo : TPDU → option (Z * Z * Z);
  sms_Decode : list TPDU → bytes + bytes;
  (** the service centre's time in the inbox format, if it is not zero *)
  SCTS_Format : TPDU → option bytes }.

Definition comma : byte := z2b 44.
Definition colon : byte := z2b 58.
Definition TrimPrefix (s p : bytes) : bytes := if HasPrefix s p then drop (length p) s else s.
Definition hex_digit (n : Z) : byte := if n <? 10 then z2b (48 + n) else z2b (55 + n).
(** ToUpper(hex.EncodeToString(b)) *)
Definition hex_upper (b : bytes) : bytes := c ← b; [hex_digit (b2z c / 16); hex_digit (b2z c mod 16)].

Record smsSubmitPDU := MkSubmit { hex : bytes; pdu_length : Z }.
Record smsInboxMessage := MkInbox
  { mStorage : bytes; mIndex : bytes; mStatus : bytes; mNumber : bytes; mTime : bytes; mBody : bytes; mError : bytes }.

Section Sms.
Context `{UnicodeTables} `{SmsLib}.

(** tpdu, or the error that takes its place *)
Record smsPDUEntry := MkEntry { eIndex : Z; eStatus : bytes; eTpdu : bytes + TPDU }.

Fixpoint submit_loop (i : Z) (pdus : list TPDU) : res bytes (list smsSubmitPDU) :=
  match pdus with
  | [] => Ok []
  | pdu :: pdus =>
      match MarshalBinary pdu with
      | inr raw => out ← submit_loop (i + 1) pdus; Ok (MkSubmit (bs "00" ++ hex_upper raw) (Z.of_nat (length raw)) :: out)
      | inl e => Err (bs "encode SMS part " ++ Itoa i ++ bs ": " ++ e)
      end
  end.
Definition encodeSMSSubmit (number message : bytes) : res bytes (list smsSubmitPDU) :=
  match sms_Encode message number with
  | inr pdus => submit_loop 1 pdus
  | inl e => Err (bs "encode SMS: " ++ e)
  end.

(** ** Reading a listing *)

Definition cmglStatus (stat : bytes) : bytes :=
  if bool_decide (stat = bs "0") then bs "REC UNREAD" else if bool_decide (stat = bs "1") then bs "REC READ"
  else if bool_decide (stat = bs "2") then bs "STO UNSENT" else if bool_decide (stat = bs "3") then bs "STO SENT" else [].
Definition isHexPDU (value : bytes) : bool :=
  if (length value <? 4)%nat || negb (length value mod 2 =? 0)%nat then false else forallb is_hex value.
Definition decodeStoredPDU (pduLine stat : bytes) : bytes + TPDU :=
  if (length pduLine =? 0)%nat then inl (bs "missing PDU") else
  match hex_DecodeString pduLine with
  | None => inl (bs "invalid PDU hex")
  | Some raw =>
      match raw with
      | [] => inl (bs "truncated PDU")
      | smsc :: _ =>
          if (length raw <? 1 + Z.to_nat (b2z smsc))%nat then inl (bs "truncated PDU") else
          let mobileOriginated := bool_decide (stat = bs "2") || bool_decide (stat = bs "3") in
          match sms_Unmarshal (drop (1 + Z.to_nat (b2z smsc)) raw) mobileOriginated with
          | inr pdu => inr pdu
          | inl e => inl (bs "decode PDU: " ++ e)
          end
      end
  end.
Definition cmgl : bytes := bs "+CMGL:".
(** The lines after a header up to its PDU: the PDU and how many lines it takes. *)
Fixpoint find_pdu (n : nat) (lines : list bytes) : option (bytes * nat) :=
  match lines with
  | [] => None
  | line :: lines =>
      let candidate := TrimSpace line in
      if HasPrefix candidate cmgl then None
      else if isHexPDU candidate then Some (candidate, S n) else find_pdu (S n) lines
  end.
(** [skip] lines belong to the message before. *)
Fixpoint parse_lines (skip : nat) (lines : list bytes) : list smsPDUEntry :=
  match lines with
  | [] => []
  | line :: lines =>
      match skip with
      | S skip => parse_lines skip lines
      | O =>
          let line := TrimSpace line in
          if negb (HasPrefix line cmgl) then parse_lines 0 lines else
          let fields := Split (TrimSpace (TrimPrefix line cmgl)) comma in
          match Atoi (TrimSpace (default [] (fields !! 0%nat))) with
          | None => parse_lines 0 lines
          | Some index =>
              if index <=? 0 then parse_lines 0 lines else
              let stat := if (1 <? length fields)%nat then TrimSpace (default [] (fields !! 1%nat)) else [] in
              let '(pduLine, skip) := match find_pdu 0 lines with Some r => r | None => ([], 0%nat) end in
              MkEntry index (cmglStatus stat) (decodeStoredPDU pduLine stat) :: parse_lines skip lines
          end
      end
  end.
Definition parseCMGLPDUs (lines : list bytes) : list smsPDUEntry := parse_lines 0 lines.

(** ** Joining parts *)

Definition smsPeerNumber (pdu : TPDU) : bytes := if SmsType pdu =? SmsSubmit then DA_Number pdu else OA_Number pdu.
(** emit: the row of a message's parts. *)
Definition emit (storage : bytes) (parts : list smsPDUEntry) : res bytes smsInboxMessage :=
  match parts with
  | [] => Panic
  | first :: _ =>
      let index := Join (Itoa ∘ eIndex <$> parts) comma in
      match eTpdu first with
      | inl err => Ok (MkInbox storage index (eStatus first) [] [] [] err)
      | inr pdu =>
          let segments := omap (fun part => match eTpdu part with inr t => Some t | inl _ => None end) parts in
          let time := if SmsType pdu =? SmsDeliver then default [] (SCTS_Format pdu) else [] in
          match sms_Decode segments with
          | inr body => Ok (MkInbox storage index (eStatus first) (smsPeerNumber pdu) time (normalizeSMSBody body) [])
          | inl e => Ok (MkInbox storage index (eStatus first) (smsPeerNumber pdu) time [] (bs "decode text: " ++ e))
          end
      end
  end.
Record group := MkGroup { gParts : gmap Z smsPDUEntry; gSegments : Z }.
Definition group_key (pdu : TPDU) (mref segments : Z) : bytes :=
  smsPeerNumber pdu ++ bs "|" ++ Itoa (SmsType pdu) ++ bs "|" ++ Itoa mref ++ bs "|" ++ Itoa segments.
(** The key, sequence number and segments of an entry that is one part of several. *)
Definition part_of (entry : smsPDUEntry) : option (bytes * Z * Z) :=
  match eTpdu entry with
  | inl _ => None
  | inr pdu =>
      match ConcatInfo pdu with
      | None => None
      | Some (segments, seqno, mref) => if segments <=? 1 then None else Some (group_key pdu mref segments, seqno, segments)
      end
  end.
Fixpoint collect_parts (storage : bytes) (entries : list smsPDUEntry) (groups : gmap bytes group) (order : list bytes) (out : list smsInboxMessage)
    : res bytes (gmap bytes group * list bytes * list smsInboxMessage) :=
  match entries with
  | [] => Ok (groups, order, out)
  | entry :: entries =>
      match part_of entry with
      | None => row ← emit storage [entry]; collect_parts storage entries groups order (out ++ [row])
      | Some (key, seqno, segments) =>
          match groups !! key with
          | None => collect_parts storage entries (<[key := MkGroup {[seqno := entry]} segments]> groups) (order ++ [key]) out
          | Some g => collect_parts storage entries (<[key := MkGroup (<[seqno := entry]> (gParts g)) (gSegments g)]> groups) order out
          end
      end
  end.
(** The parts by sequence number. *)
Definition le_seqno (a b : Z * smsPDUEntry) : Prop := a.1 ≤ b.1.
#[global] Instance le_seqno_dec : RelDecision le_seqno := fun a b => decide (a.1 ≤ b.1).
Definition sorted_parts (g : group) : list smsPDUEntry := (merge_sort le_seqno (map_to_list (gParts g))).*2.
Definition group_rows (g : group) : list (list smsPDUEntry) :=
  let parts := sorted_parts g in if Z.of_nat (length parts) =? gSegments g then [parts] else (fun p => [p]) <$> parts.
Definition joinSMSPDUs (storage : bytes) (entries : list smsPDUEntry) : res bytes (list smsInboxMessage) :=
  r ← collect_parts storage entries ∅ [] [];
  let '(groups, order, out) := (r : gmap bytes group * list bytes * list smsInboxMessage) in
  rows ← mapM_res (emit storage) (order ≫= fun key => match groups !! key with Some g => group_rows g | None => [] end);
  Ok (out ++ rows).

(** ** Order of the inbox *)

(** time.Parse with the layout 2006-01-02T15:04:05-07:00, as nanoseconds since the
    epoch; the parser also takes a fraction after the seconds. *)
Definition num1 (c : byte) : Z := b2z c - 48.
(** getnum: two digits, or one where the layout allows it. *)
Definition getnum (s : bytes) (fixed : bool) : option (Z * bytes) :=
  match s with
  | a :: s' =>
      if negb (is_digit a) then None else
      match s' with
      | b :: s'' => if is_digit b then Some (num1 a * 10 + num1 b, s'') else if fixed then None else Some (num1 a, s')
      | [] => if fixed then None else Some (num1 a, [])
      end
  | [] => None
  end.
Definition expect (c : byte) (s : bytes) : option bytes :=
  match s with x :: t => if bool_decide (x = c) then Some t else None | [] => None end.
Definition year4 (s : bytes) : option (Z * bytes) :=
  match s with
  | a :: b :: c :: d :: t =>
      if forallb is_digit [a; b; c; d] then Some (num1 a * 1000 + num1 b * 100 + num1 c * 10 + num1 d, t) else None
  | _ => None
  end.
Definition in_range (lo hi : Z) (r : Z * bytes) : option (Z * bytes) := if (lo <=? r.1) && (r.1 <=? hi) then Some r else None.
(** Nanoseconds from the digits after the point, at most nine of them. *)
Fixpoint fraction (weight : Z) (s : bytes) : Z * bytes :=
  match s with
  | c :: t => if is_digit c then let '(n, t) := fraction (weight / 10) t in (num1 c * weight + n, t) else (0, s)
  | [] => (0, [])
  end.
Definition seconds_fraction (s : bytes) : Z * bytes :=
  match s with
  | p :: (d :: _) as t => if ((b2z p =? 46) || (b2z p =? 44)) && is_digit d then fraction 100000000 t else (0, s)
  | _ => (0, s)
  end.
(** -07:00: the offset in seconds, and nothing after it. *)
Definition zone_offset (s : bytes) : option Z :=
  match s with
  | [sign; h1; h2; c; m1; m2] =>
      if negb (b2z c =? 58) || negb (forallb is_digit [h1; h2; m1; m2]) then None else
      let hr := num1 h1 * 10 + num1 h2 in
      let mm := num1 m1 * 10 + num1 m2 in
      if (24 <? hr) || (60 <? mm) then None else
      let off := (hr * 60 + mm) * 60 in
      if b2z sign =? 43 then Some off else if b2z sign =? 45 then Some (- off) else None
  | _ => None
  end.
Definition leap_year (y : Z) : bool := (y mod 4 =? 0) && (negb (y mod 100 =? 0) || (y mod 400 =? 0)).
Definition days_in (m y : Z) : Z :=
  if m =? 2 then (if leap_year y then 29 else 28) else if (m =? 4) || (m =? 6) || (m =? 9) || (m =? 11) then 30 else 31.
(** Days since 1970-01-01. *)
Definition days_from_civil (y m d : Z) : Z :=
  let y := if m <=? 2 then y - 1 else y in
  let era := y / 400 in
  let yoe := y mod 400 in
  let mp := (m + 9) mod 12 in
  let doy := (153 * mp + 2) / 5 + d - 1 in
  era * 146097 + yoe * 365 + yoe / 4 - yoe / 100 + doy - 719468.
Definition parse_time (s : bytes) : option Z :=
  '(year, s) ← year4 s; s ← expect (z2b 45) s;
  '(month, s) ← getnum s true ≫= in_range 1 12; s ← expect (z2b 45) s;
  '(day, s) ← getnum s true; s ← expect (z2b 84) s;
  '(hour, s) ← getnum s false ≫= in_range 0 23; s ← expect (z2b 58) s;
  '(minute, s) ← getnum s true ≫= in_range 0 59; s ← expect (z2b 58) s;
  '(sec, s) ← getnum s true ≫= in_range 0 59;
  let '(nsec, s) := seconds_fraction s in
  offset ← zone_offset s;
  if (day <? 1) || (days_in month year <? day) then None
  else Some ((days_from_civil year month day * 86400 + hour * 3600 + minute * 60 + sec - offset) * 1000000000 + nsec).
Definition parseSMSInboxTime (value : bytes) : option Z := if (length value =? 0)%nat then None else parse_time value.
(** The order sort.SliceStable is given. *)
Definition inbox_less (a b : smsInboxMessage) : bool :=
  match parseSMSInboxTime (mTime a), parseSMSInboxTime (mTime b) with
  | None, Some _ => true
  | Some ta, Some tb => ta <? tb
  | _, None => false
  end.
(** A stable sort: an element goes before the elements after it unless one of them is less. *)
Fixpoint insert_row (x : smsInboxMessage) (l : list smsInboxMessage) : list smsInboxMessage :=
  match l with [] => [x] | y :: l => if inbox_less y x then y :: insert_row x l else x :: y :: l end.
Definition sortSMSInbox (messages : list smsInboxMessage) : list smsInboxMessage := foldr insert_row [] messages.

(** listSMSPDU on the modem's answers: the rows of both storages, or the failures of
    both. *)
Fixpoint list_storages (answers : list (bytes * (bytes + list bytes))) : res bytes (list smsInboxMessage * list bytes) :=
  match answers with
  | [] => Ok ([], [])
  | (storage, inl e) :: answers => r ← list_storages answers; let '(rows, failures) := (r : _ * _) in Ok (rows, (storage ++ bs ": " ++ e) :: failures)
  | (storage, inr lines) :: answers =>
      own ← joinSMSPDUs storage (parseCMGLPDUs lines);
      r ← list_storages answers; let '(rows, failures) := (r : _ * _) in Ok (own ++ rows, failures)
  end.
Fixpoint join_with (ps : list bytes) (sep : bytes) : bytes :=
  match ps with [] => [] | [p] => p | p :: ps => p ++ sep ++ join_with ps sep end.
Definition listSMSPDU (sm me : bytes + list bytes) : res bytes (list smsInboxMessage) :=
  r ← list_storages [(bs "SM", sm); (bs "ME", me)];
  let '(messages, failures) := (r : list smsInboxMessage * list bytes) in
  if (length failures =? 2)%nat then Err (bs "list SMS failed: " ++ join_with failures (bs "; ")) else Ok (sortSMSInbox messages).

(** ** Deletion *)

(** SplitN(s, ":", 2) with two parts, storage and list. *)
Definition split_target (list_ : bytes) : bytes * bytes :=
  let '(before, after, found) := Cut list_ colon in
  if found then (ToUpper (TrimSpace before), TrimSpace after) else (bs "SM", list_).
Fixpoint parse_indexes (items : list bytes) : option (list Z) :=
  match items with
  | [] => Some []
  | item :: items =>
      match Atoi (TrimSpace item) with
      | None => None
      | Some index => if (index <=? 0) || (9999 <? index) then None else (cons index) <$> parse_indexes items
      end
  end.
Definition parseSMSDeleteTarget (value : bytes) : res string (bytes * list Z) :=
  let '(storage, list_) := split_target (TrimSpace value) in
  if negb (bool_decide (storage = bs "SM")) && negb (bool_decide (storage = bs "ME")) then Err "SMS storage must be SM or ME" else
  match parse_indexes (Split list_ comma) with
  | None => Err "SMS index must be a positive integer or storage:index[,index]"
  | Some indexes =>
      if (length indexes =? 0)%nat || (32 <? length indexes)%nat then Err "SMS index list is empty or too long" else Ok (storage, indexes)
  end.
Definition quote : byte := z2b 34.
Definition cmgd_command (mode storage : bytes) (index : Z) : bytes :=
  bs "AT+CMGF=" ++ mode ++ bs ";+CPMS=" ++ [quote] ++ storage ++ [quote] ++ bs ";+CMGD=" ++ Itoa index.
(** DeleteSMS of one target, on a port the agent holds: the commands it sends while
    none fails. *)
Definition delete_direct (index : bytes) : res string (list bytes) :=
  match parseSMSDeleteTarget (TrimSpace index) with
  | Ok (storage, indexes) => Ok (cmgd_command (bs "0") storage <$> indexes)
  | Err e => Err e
  | Panic => Panic
  end.
(** The same without such a port and without sms_tool: the one command. *)
Definition delete_bridged (index : bytes) : res string bytes :=
  let '(storage, index) := split_target (TrimSpace index) in
  if negb (bool_decide (storage = bs "SM")) && negb (bool_decide (storage = bs "ME")) then Err "SMS storage must be SM or ME" else
  match Atoi index with
  | None => Err "SMS index must be a positive integer or storage:index"
  | Some idx => if idx <=? 0 then Err "SMS index must be a positive integer or storage:index" else Ok (cmgd_command (bs "1") storage idx)
  end.

(** ** Text mode *)

Definition parseCMGFMode (lines : list bytes) : bytes :=
  default [] (head (omap (fun line =>
    let line := TrimSpace line in
    if HasPrefix line (bs "+CMGF:") then
      let mode := TrimSpace (TrimPrefix line (bs "+CMGF:")) in
      if bool_decide (mode = bs "0") || bool_decide (mode = bs "1") then Some mode else None
    else None) lines)).
(** Fields between commas outside quotes, without the quotes. *)
Fixpoint csv_fields (inQuote : bool) (field : bytes) (s : bytes) : list bytes :=
  match s with
  | [] => [TrimSpace field]
  | c :: s =>
      if b2z c =? 34 then csv_fields (negb inQuote) field s
      else if (b2z c =? 44) && negb inQuote then TrimSpace field :: csv_fields inQuote [] s
      else csv_fields inQuote (field ++ [c]) s
  end.
Definition splitATCSV (s : bytes) : list bytes := csv_fields false [] s.
Record atTextMessage := MkText { tStorage : bytes; tIndex : Z; tStatus : bytes; tNumber : bytes; tTime : bytes; tBody : bytes }.
Definition text_header (line : bytes) : option atTextMessage :=
  let values := splitATCSV (TrimSpace (TrimPrefix line cmgl)) in
  let field n := if (n <? length values)%nat then default [] (values !! n) else [] in
  match Atoi (TrimSpace (default [] (values !! 0%nat))) with
  | None => None
  | Some idx => if idx <=? 0 then None else Some (MkText [] idx (field 1%nat) (field 2%nat) (field 4%nat) [])
  end.
Definition add_line (m : atTextMessage) (line : bytes) : atTextMessage :=
  MkText (tStorage m) (tIndex m) (tStatus m) (tNumber m) (tTime m)
    (tBody m ++ (if (length (tBody m) =? 0)%nat then [] else [z2b 10]) ++ normalizeSMSBody line).
(** The lines over the messages read so far, the last one first. *)
Fixpoint text_lines (out : list atTextMessage) (lines : list bytes) : list atTextMessage :=
  match lines with
  | [] => reverse out
  | line :: lines =>
      let line := TrimSpace line in
      if HasPrefix line cmgl then
        text_lines (match text_header line with Some m => m :: out | None => out end) lines
      else match out with
           | m :: out' =>
               if negb (length line =? 0)%nat && negb (HasPrefix line (bs "+")) then text_lines (add_line m line :: out') lines else text_lines out lines
           | [] => text_lines out lines
           end
  end.
Definition cleaned_text (m : atTextMessage) : atTextMessage :=
  MkText (tStorage m) (tIndex m) (sanitizeSMSText (tStatus m)) (sanitizeSMSText (tNumber m)) (sanitizeSMSText (tTime m)) (normalizeSMSBody (tBody m)).
Definition parseATTextMessages (lines : list bytes) : list atTextMessage := cleaned_text <$> text_lines [] lines.

(** ** ModemManager *)

Definition modemManagerSMSStatus (state : Z) : bytes :=
  if state =? 1 then bs "STO UNSENT" else if state =? 2 then bs "REC PARTIAL" else if state =? 3 then bs "REC READ"
  else if state =? 4 then bs "STO SENDING" else if state =? 5 then bs "STO SENT" else [].
Definition modemManagerSMSStorage (storage : Z) : bytes :=
  if storage =? 1 then bs "SM" else if storage =? 2 then bs "ME" else if storage =? 3 then bs "MT" else if storage =? 4 then bs "SR"
  else if storage =? 5 then bs "BM" else if storage =? 6 then bs "TA" else [].
End Sms.
