(* ===== verification/SmsProps.v ===== *)
(** * The inbox: nothing is lost, and rows can be deleted

    [join_rows]: the rows of an inbox divide the listed entries, up to parts that repeat
    another part; [delete_row]: a row's target names exactly its storage slots;
    [listing_parsed]: what the modem prints in between does not shift messages. *)

From S2P Require Import Prelude GoStr SmsText SmsTextProps Sms.

(** ** Numbers in texts *)

Lemma Itoa_format n : 0 ≤ n → Itoa n = FormatUint n.
Proof. intros Hn. unfold Itoa. by rewrite (proj2 (Z.ltb_ge n 0)) by lia. Qed.
Lemma Atoi_Itoa n : 0 ≤ n < 2 ^ 63 → Atoi (Itoa n) = Some n.
Proof.
  intros Hn. rewrite Itoa_format by lia. pose proof (FormatUint_digits n ltac:(lia)) as Hd. pose proof (FormatUint_nonempty n) as Hne.
  unfold Atoi. destruct (FormatUint n) as [|c t] eqn:E; [done|]. apply Forall_cons in Hd as [Hc _]. unfold is_digit in Hc.
  rewrite (proj2 (Z.eqb_neq (b2z c) 45)), (proj2 (Z.eqb_neq (b2z c) 43)) by lia. cbn [orb andb negb]. rewrite <- E, ParseUint_FormatUint by lia.
  by rewrite (proj2 (Z.leb_gt (2 ^ 63) n)) by lia.
Qed.
Lemma Itoa_no_byte n c : 0 ≤ n → is_digit c = false → c ∉ Itoa n.
Proof. intros Hn. rewrite Itoa_format by done. by apply FormatUint_no_byte. Qed.
Lemma first_segment (sep : byte) x : ∀ y u v, sep ∉ x → sep ∉ y → x ++ sep :: u = y ++ sep :: v → x = y.
Proof.
  induction x as [|c x IH]; intros [|d y] u v Hx Hy He; cbn [app] in He; [done|..].
  - injection He as -> _. set_solver.
  - injection He as -> _. set_solver.
  - injection He as -> He. f_equal. eapply IH; [set_solver..|exact He].
Qed.
Lemma last_segment (sep : byte) x y u v : sep ∉ x → sep ∉ y → u ++ sep :: x = v ++ sep :: y → x = y.
Proof.
  intros Hx Hy He. apply (f_equal reverse) in He. rewrite !reverse_app, !reverse_cons, <- !app_assoc in He. cbn [app] in He.
  apply (inj reverse). eapply first_segment; [| |exact He]; by rewrite elem_of_reverse.
Qed.

Section Inbox.
Context `{UnicodeTables} `{SmsLib}.

(** Documented of the codec: the fields of a concatenation header are bytes, and its
    reference at most two. *)
Definition concat_fields : Prop :=
  ∀ pdu segments seqno mref, ConcatInfo pdu = Some (segments, seqno, mref) → 0 ≤ segments < 256 ∧ 0 ≤ seqno < 256 ∧ 0 ≤ mref < 65536.

Lemma group_key_segments pdu pdu' m m' n n' : 0 ≤ n < 256 → 0 ≤ n' < 256 → group_key pdu m n = group_key pdu' m' n' → n = n'.
Proof.
  intros Hn Hn'. unfold group_key. rewrite !app_assoc, <- !(app_assoc _ (bs "|") (Itoa _)). change (bs "|") with [z2b 124]. cbn [app]. intros He.
  apply last_segment in He; [|by apply Itoa_no_byte; [lia|]..]. apply (f_equal Atoi) in He. rewrite !Atoi_Itoa in He by lia. by injection He.
Qed.

(** ** What rows are made of *)

Definition multi (e : smsPDUEntry) : option ((bytes * Z) * smsPDUEntry) :=
  match part_of e with Some (key, seqno, _) => Some ((key, seqno), e) | None => None end.
Definition single (e : smsPDUEntry) : bool := match part_of e with None => true | Some _ => false end.
Definition multis (entries : list smsPDUEntry) : list ((bytes * Z) * smsPDUEntry) := omap multi entries.
Definition singles (entries : list smsPDUEntry) : list smsPDUEntry := List.filter single entries.
(** The part that counts for a key and number: the last one listed. *)
Definition latest (entries : list smsPDUEntry) : gmap (bytes * Z) smsPDUEntry := list_to_map (reverse (multis entries)).

Lemma latest_snoc l e key seqno segments : part_of e = Some (key, seqno, segments) → latest (l ++ [e]) = <[(key, seqno) := e]> (latest l).
Proof.
  intros He. unfold latest, multis. rewrite omap_app. assert (omap multi [e] = [((key, seqno), e)]) as -> by (cbn; unfold multi; by rewrite He).
  by rewrite reverse_app.
Qed.
Lemma latest_single l e : part_of e = None → latest (l ++ [e]) = latest l.
Proof.
  intros He. unfold latest, multis. rewrite omap_app. assert (omap multi [e] = []) as -> by (cbn; unfold multi; by rewrite He). by rewrite app_nil_r.
Qed.

(** The groups hold the latest parts of what was read. *)
Record groups_ok (l : list smsPDUEntry) (groups : gmap bytes group) (order : list bytes) : Prop := {
  order_nodup : NoDup order;
  order_keys key : key ∈ order ↔ is_Some (groups !! key);
  group_parts key g seqno : groups !! key = Some g → gParts g !! seqno = latest l !! (key, seqno);
  group_exists key seqno e : latest l !! (key, seqno) = Some e → is_Some (groups !! key);
  group_nonempty key g : groups !! key = Some g → gParts g ≠ ∅ }.

Lemma groups_ok_nil : groups_ok [] ∅ [].
Proof.
  split; [constructor|..].
  - intros key. rewrite lookup_empty. split; [by intros ?%elem_of_nil|by intros []].
  - intros key g seqno. by rewrite lookup_empty.
  - intros key seqno e. cbn. by rewrite lookup_empty.
  - intros key g. by rewrite lookup_empty.
Qed.
Lemma groups_ok_single l groups order e : part_of e = None → groups_ok l groups order → groups_ok (l ++ [e]) groups order.
Proof. intros He [? ? ? ? ?]. split; try done; intros *; rewrite ?latest_single by done; eauto. Qed.
Lemma groups_ok_part l groups order e key seqno segments segments' parts :
  part_of e = Some (key, seqno, segments) → groups_ok l groups order →
  parts = match groups !! key with Some g => gParts g | None => ∅ end →
  groups_ok (l ++ [e]) (<[key := MkGroup (<[seqno := e]> parts) segments']> groups) (if groups !! key then order else order ++ [key]).
Proof.
  intros He [Hnd Hkeys Hparts Hex Hne] ->. pose proof (latest_snoc l _ _ _ _ He) as Hl. split.
  - destruct (groups !! key) eqn:E; [done|]. apply NoDup_app. split_and!; [done| |apply NoDup_singleton].
    intros k Hk Hk'. apply list_elem_of_singleton in Hk'. subst k. apply Hkeys in Hk as [g Hg]. congruence.
  - intros k. destruct (decide (k = key)) as [->|Hk].
    + rewrite lookup_insert_eq. split; [by eexists|]. intros _. destruct (groups !! key) eqn:E; [apply Hkeys; by rewrite E|set_solver].
    + rewrite lookup_insert_ne, <- Hkeys by done. destruct (groups !! key); set_solver.
  - intros k g s. rewrite Hl. destruct (decide (k = key)) as [->|Hk].
    + rewrite lookup_insert_eq. intros [= <-]. cbn [gParts]. destruct (decide (s = seqno)) as [->|Hs]; [by rewrite !lookup_insert_eq|].
      rewrite !lookup_insert_ne by congruence. destruct (groups !! key) as [g|] eqn:E; [by apply Hparts|]. rewrite lookup_empty.
      destruct (latest l !! (key, s)) eqn:El; [|done]. destruct (Hex _ _ _ El). congruence.
    + rewrite !lookup_insert_ne by congruence. apply Hparts.
  - intros k s e'. rewrite Hl. destruct (decide (k = key)) as [->|Hk]; [by rewrite lookup_insert_eq|]. rewrite !lookup_insert_ne by congruence. apply Hex.
  - intros k g [[<- <-]|[_ Hg]]%lookup_insert_Some; [|by eapply Hne]. cbn [gParts]. apply insert_non_empty.
Qed.

(** Every member of a group is a part of that message. *)
Definition groups_of (groups : gmap bytes group) : Prop :=
  ∀ key g seqno e, groups !! key = Some g → gParts g !! seqno = Some e → part_of e = Some (key, seqno, gSegments g).
Lemma part_segments e e' key seqno seqno' n n' :
  concat_fields → part_of e = Some (key, seqno, n) → part_of e' = Some (key, seqno', n') → n = n'.
Proof.
  intros Hlaw. unfold part_of. destruct (eTpdu e) as [|pdu]; [done|]. destruct (ConcatInfo pdu) as [[[s q] m]|] eqn:E; [|done]. destruct (s <=? 1); [done|].
  intros [= Hk <- <-]. destruct (eTpdu e') as [|pdu']; [done|]. destruct (ConcatInfo pdu') as [[[s' q'] m']|] eqn:E'; [|done]. destruct (s' <=? 1); [done|].
  intros [= Hk' <- <-]. rewrite <- Hk' in Hk. eapply group_key_segments; [exact (proj1 (Hlaw _ _ _ _ E))|exact (proj1 (Hlaw _ _ _ _ E'))|exact Hk].
Qed.

(** ** Reading the entries *)

Lemma emit_total storage parts : parts ≠ [] → ∃ row, emit storage parts = Ok row.
Proof. intros Hne. unfold emit. destruct parts as [|e parts]; [done|]. destruct (eTpdu e); [by eexists|]. destruct (sms_Decode _); by eexists. Qed.
Lemma groups_of_insert groups key e seqno segments g :
  concat_fields → groups_of groups → part_of e = Some (key, seqno, segments) →
  (∀ s e', gParts g !! s = Some e' → part_of e' = Some (key, s, gSegments g)) → (gParts g ≠ ∅ ∨ gSegments g = segments) →
  groups_of (<[key := MkGroup (<[seqno := e]> (gParts g)) (gSegments g)]> groups).
Proof.
  intros Hlaw Hof He Hg Hseg k g' s e' [[<- <-]|[_ Hk]]%lookup_insert_Some; [|by apply Hof]. cbn [gParts gSegments].
  intros [[<- <-]|[_ ?]]%lookup_insert_Some; [|by apply Hg]. rewrite He. repeat f_equal. destruct Hseg as [Hne|]; [|done].
  destruct (map_choose _ Hne) as (s' & e' & Hs'). eapply part_segments; [done|exact He|by apply Hg].
Qed.
Lemma collect_spec (law : concat_fields) storage entries : ∀ l groups order out,
  groups_ok l groups order → groups_of groups →
  ∃ groups' order' rows, collect_parts storage entries groups order out = Ok (groups', order', out ++ rows) ∧
    Forall2 (fun e row => emit storage [e] = Ok row) (singles entries) rows ∧ groups_ok (l ++ entries) groups' order' ∧ groups_of groups'.
Proof.
  induction entries as [|e entries IH]; intros l groups order out Hok Hof.
  { exists groups, order, []. rewrite !app_nil_r. by split_and!. }
  cbn [collect_parts]. rewrite cons_middle, app_assoc. unfold singles. cbn [List.filter]. unfold single at 1. fold (singles entries).
  destruct (part_of e) as [[[key seqno] segments]|] eqn:E.
  - destruct (groups !! key) as [g|] eqn:Eg; apply IH.
    + pose proof (groups_ok_part l groups order e key seqno segments (gSegments g) (gParts g) E Hok) as Hp. rewrite Eg in Hp. by apply Hp.
    + apply (groups_of_insert _ _ _ _ segments); [done..|intros s e'; by apply Hof|left; by eapply group_nonempty].
    + pose proof (groups_ok_part l groups order e key seqno segments segments ∅ E Hok) as Hp. rewrite Eg in Hp. by apply Hp.
    + apply (groups_of_insert _ _ _ _ segments (MkGroup ∅ segments)); [done..| |by right]. intros s e'. cbn. by rewrite lookup_empty.
  - destruct (emit_total storage [e]) as [row Hrow]; [done|]. rewrite Hrow. cbn [mbind res_bind].
    destruct (IH (l ++ [e]) groups order (out ++ [row])) as (groups' & order' & rows & Hc & Hrows & Hok' & Hof'); [by apply groups_ok_single|done|].
    exists groups', order', (row :: rows). rewrite Hc, <- app_assoc. split_and!; [done| |done..]. by constructor.
Qed.

(** ** Joining *)

Definition ordered_parts (groups : gmap bytes group) (order : list bytes) : list ((bytes * Z) * smsPDUEntry) :=
  order ≫= fun key => match groups !! key with Some g => (fun p => ((key, p.1), p.2)) <$> map_to_list (gParts g) | None => [] end.
Lemma ordered_nodup groups order : NoDup order → NoDup (ordered_parts groups order).
Proof.
  induction 1 as [|key order Hk Hnd IH]; [constructor|]. unfold ordered_parts. cbn [mbind list_bind]. fold (ordered_parts groups order).
  apply NoDup_app. split_and!; [| |exact IH].
  - destruct (groups !! key) as [g|]; [|constructor]. apply NoDup_fmap; [|apply NoDup_map_to_list]. intros [s e] [s' e'] He. cbn in He. congruence.
  - intros [[k s] e] Hin Hin'. assert (k = key) as ->.
    { destruct (groups !! key) as [g|]; [|by apply elem_of_nil in Hin]. apply list_elem_of_fmap in Hin as ([s' e'] & He & _). cbn in He. congruence. }
    apply list_elem_of_bind in Hin' as (k & Hin' & Hko). destruct (groups !! k) as [g|]; [|by apply elem_of_nil in Hin'].
    apply list_elem_of_fmap in Hin' as ([s' e'] & He & _). cbn in He. congruence.
Qed.
Lemma ordered_latest l groups order : groups_ok l groups order → ordered_parts groups order ≡ₚ map_to_list (latest l).
Proof.
  intros [Hnd Hkeys Hparts Hex Hne]. apply NoDup_Permutation; [by apply ordered_nodup|apply NoDup_map_to_list|].
  intros [[key s] e]. rewrite elem_of_map_to_list. unfold ordered_parts. rewrite list_elem_of_bind. split.
  - intros (k & Hin & Hk). destruct (groups !! k) as [g|] eqn:Eg; [|by apply elem_of_nil in Hin].
    apply list_elem_of_fmap in Hin as ([s' e'] & [= -> -> ->] & Hin). apply elem_of_map_to_list in Hin. by rewrite <- (Hparts _ _ _ Eg).
  - intros Hl. destruct (Hex _ _ _ Hl) as [g Hg]. exists key. rewrite Hg. split; [|apply Hkeys; by eexists].
    apply list_elem_of_fmap. exists (s, e). split; [done|]. apply elem_of_map_to_list. by rewrite (Hparts _ _ _ Hg).
Qed.

#[local] Instance le_seqno_total : Total le_seqno.
Proof. intros a b. unfold le_seqno. lia. Qed.
#[local] Instance le_seqno_trans : Transitive le_seqno.
Proof. intros a b c. unfold le_seqno. lia. Qed.
Lemma sorted_perm g : sorted_parts g ≡ₚ (map_to_list (gParts g)).*2.
Proof. unfold sorted_parts. by rewrite merge_sort_Permutation. Qed.
(** Increasing numbers, since no two are the same. *)
Lemma sorted_seqnos g :
  ∃ seqnos, StronglySorted Z.lt seqnos ∧ Forall2 (fun e s => gParts g !! s = Some e) (sorted_parts g) seqnos.
Proof.
  set (l := merge_sort le_seqno (map_to_list (gParts g))). exists l.*1.
  assert (l ≡ₚ map_to_list (gParts g)) as Hp by apply merge_sort_Permutation.
  assert (StronglySorted le_seqno l) as Hs by apply (StronglySorted_merge_sort le_seqno). split.
  - assert (NoDup l.*1) as Hnd by (rewrite Hp; apply NoDup_fst_map_to_list). clear Hp. induction Hs as [|[s e] l' Hs IH Hall]; [constructor|].
    cbn [fmap list_fmap fst] in *. apply NoDup_cons in Hnd as [Hn Hnd]. constructor; [by apply IH|]. apply Forall_forall. intros s' Hs'.
    assert (s' ≠ s) by (intros ->; done). apply list_elem_of_fmap in Hs' as ([s2 e2] & -> & Hin). rewrite Forall_forall in Hall.
    specialize (Hall _ Hin). unfold le_seqno in Hall. cbn in *. lia.
  - unfold sorted_parts. fold l. apply Forall2_fmap, Forall_Forall2_diag, Forall_forall. intros [s e] Hin. rewrite Hp in Hin. by apply elem_of_map_to_list in Hin.
Qed.

(** What a row shows: one entry, or all parts of a message in order. *)
Definition one_message (parts : list smsPDUEntry) : Prop :=
  (∃ e, parts = [e]) ∨
  ∃ key seqnos, StronglySorted Z.lt seqnos ∧ Forall2 (fun e s => part_of e = Some (key, s, Z.of_nat (length parts))) parts seqnos.
Lemma group_rows_one groups key g : groups_of groups → groups !! key = Some g → gParts g ≠ ∅ → Forall (fun ps => ps ≠ [] ∧ one_message ps) (group_rows g).
Proof.
  intros Hof Hg Hne. unfold group_rows. destruct (Z.eqb_spec (Z.of_nat (length (sorted_parts g))) (gSegments g)) as [Hl|_].
  - apply Forall_singleton. destruct (sorted_seqnos g) as (seqnos & Hs & Hall). split.
    + intros E. apply Hne. apply map_to_list_empty_iff. pose proof (sorted_perm g) as Hp. rewrite E in Hp.
      apply Permutation_nil_l in Hp. symmetry in Hp. by apply fmap_nil_inv in Hp.
    + right. exists key, seqnos. split; [done|]. eapply Forall2_impl; [exact Hall|]. intros e s He. cbn. rewrite Hl. by eapply Hof.
  - apply Forall_fmap, Forall_forall. intros e _. split; [done|]. left. by exists e.
Qed.
Lemma group_rows_parts g : concat (group_rows g) = sorted_parts g.
Proof.
  unfold group_rows. destruct (_ =? _); [apply app_nil_r|]. induction (sorted_parts g) as [|e l IH]; [done|]. cbn [fmap list_fmap concat app]. by rewrite IH.
Qed.

Lemma join_rows (law : concat_fields) storage entries :
  ∃ rows parts, joinSMSPDUs storage entries = Ok rows ∧ Forall2 (fun ps row => emit storage ps = Ok row) parts rows ∧
    concat parts ≡ₚ singles entries ++ (map_to_list (latest entries)).*2 ∧ Forall (fun ps => ps ≠ [] ∧ one_message ps) parts.
Proof.
  destruct (collect_spec law storage entries [] ∅ [] [] groups_ok_nil) as (groups & order & rows & Hc & Hrows & Hok & Hof).
  { intros key g s e. by rewrite lookup_empty. }
  cbn [app] in Hok, Hc. set (joined := order ≫= fun key => match groups !! key with Some g => group_rows g | None => [] end).
  assert (Forall (fun ps => ps ≠ [] ∧ one_message ps) joined) as Hone.
  { apply Forall_forall. intros ps (key & Hin & _)%list_elem_of_bind. destruct (groups !! key) as [g|] eqn:Eg; [|by apply elem_of_nil in Hin].
    pose proof (group_rows_one groups key g Hof Eg (group_nonempty _ _ _ Hok _ _ Eg)) as Hall. rewrite Forall_forall in Hall. by apply Hall. }
  assert (∃ rows', mapM_res (emit storage) joined = Ok rows') as (rows' & Hm).
  { clear -Hone. induction joined as [|ps joined IH]; [by eexists|]. apply Forall_cons in Hone as [[Hne _] Hone]. destruct (IH Hone) as (rows' & Hm).
    destruct (emit_total storage ps Hne) as (row & Hr). cbn [mapM_res]. rewrite Hr, Hm. by eexists. }
  exists (rows ++ rows'), (((fun e => [e]) <$> singles entries) ++ joined). split_and!.
  - unfold joinSMSPDUs. rewrite Hc. cbn [mbind res_bind]. fold joined. by rewrite Hm.
  - apply Forall2_app; [by apply Forall2_fmap_l|by apply mapM_res_Forall2].
  - rewrite concat_app. f_equiv.
    + clear. induction (singles entries) as [|e l IH]; [done|]. cbn [fmap list_fmap concat app]. by rewrite IH.
    + rewrite <- (ordered_latest _ _ _ Hok). clear. subst joined. induction order as [|key order IH]; [done|].
      unfold ordered_parts. cbn [mbind list_bind]. fold (ordered_parts groups order). rewrite concat_app, fmap_app. f_equiv; [|exact IH].
      destruct (groups !! key) as [g|]; [|done]. rewrite group_rows_parts, sorted_perm, <- list_fmap_compose. done.
  - apply Forall_app. split; [|exact Hone]. apply Forall_fmap, Forall_forall. intros e _. split; [done|]. left. by exists e.
Qed.

(** Parts that are not repeated. *)
Definition no_repeats (entries : list smsPDUEntry) : Prop := NoDup (multis entries).*1.
Lemma split_entries entries : singles entries ++ (multis entries).*2 ≡ₚ entries.
Proof.
  induction entries as [|e entries IH]; [done|]. unfold singles, multis. cbn [List.filter omap list_omap]. unfold single at 1, multi at 1.
  fold (singles entries) (multis entries). destruct (part_of e) as [[[key s] n]|]; cbn [fmap list_fmap app snd]; [|by rewrite IH].
  by rewrite <- Permutation_middle, IH.
Qed.
Lemma latest_all entries : no_repeats entries → map_to_list (latest entries) ≡ₚ multis entries.
Proof.
  intros Hn. unfold latest. rewrite map_to_list_to_map; [apply reverse_Permutation|]. by rewrite fmap_reverse, reverse_Permutation.
Qed.

(** ** Deletion *)

Definition row_slots (row : smsInboxMessage) : list (bytes * Z) :=
  match parseSMSDeleteTarget (mStorage row ++ colon :: mIndex row) with Ok (storage, indexes) => (fun i => (storage, i)) <$> indexes | _ => [] end.
Definition slot_ok (i : Z) : Prop := 1 ≤ i ≤ 9999.
Definition storage_ok (storage : bytes) : Prop := storage = bs "SM" ∨ storage = bs "ME".

Lemma parse_slots slots : Forall slot_ok slots → parse_indexes (Itoa <$> slots) = Some slots.
Proof.
  induction 1 as [|i slots Hi _ IH]; [done|]. unfold slot_ok in Hi. cbn [fmap list_fmap parse_indexes].
  rewrite Itoa_format, TrimSpace_FormatUint, <- Itoa_format, Atoi_Itoa by lia.
  rewrite (proj2 (Z.leb_gt i 0)), (proj2 (Z.ltb_ge 9999 i)) by lia. cbn [orb]. by rewrite IH.
Qed.
Lemma slots_text slots :
  Forall slot_ok slots → slots ≠ [] →
  Forall (fun c => graphic c = true) (Join (Itoa <$> slots) comma) ∧ Split (Join (Itoa <$> slots) comma) comma = Itoa <$> slots.
Proof.
  intros Hs Hne. split.
  - assert (Forall (Forall (fun c => graphic c = true)) (Itoa <$> slots)) as Hg.
    { apply Forall_fmap. eapply Forall_impl; [exact Hs|]. intros i Hi. unfold slot_ok in Hi. cbn. rewrite Itoa_format by lia. apply FormatUint_graphic. lia. }
    clear -Hg. induction Hg as [|p ps Hp Hps IH]; [done|]. destruct ps as [|q ps]; [done|]. rewrite Join_cons by done. apply Forall_app. split; [done|]. by constructor.
  - apply Split_Join; [by destruct slots|]. apply Forall_fmap. eapply Forall_impl; [exact Hs|]. intros i Hi. unfold slot_ok in Hi. cbn. apply Itoa_no_byte; [lia|done].
Qed.
Lemma split_storage storage rest : storage_ok storage → Forall (fun c => graphic c = true) rest → split_target (TrimSpace (storage ++ colon :: rest)) = (storage, rest).
Proof.
  intros Hs Hg. rewrite TrimSpace_graphic.
  - unfold split_target. rewrite Cut_app by (by destruct Hs as [-> | ->]; apply (bool_decide_unpack _); vm_compute).
    rewrite (TrimSpace_graphic rest) by done. by destruct Hs as [-> | ->]; vm_compute.
  - apply Forall_app. split; [destruct Hs as [-> | ->]; by repeat constructor|by constructor].
Qed.
Lemma delete_target storage slots :
  storage_ok storage → Forall slot_ok slots → slots ≠ [] → (length slots ≤ 32)%nat →
  parseSMSDeleteTarget (storage ++ colon :: Join (Itoa <$> slots) comma) = Ok (storage, slots).
Proof.
  intros Hst Hs Hne Hl. destruct (slots_text slots Hs Hne) as [Hg Hsp]. unfold parseSMSDeleteTarget. rewrite split_storage by done.
  assert (negb (bool_decide (storage = bs "SM")) && negb (bool_decide (storage = bs "ME")) = false) as -> by (by destruct Hst as [-> | ->]).
  rewrite Hsp, parse_slots by done. rewrite (proj2 (Nat.eqb_neq (length slots) 0)) by (by destruct slots). by rewrite (proj2 (Nat.ltb_ge 32 (length slots))) by lia.
Qed.
Lemma emit_row storage parts row : emit storage parts = Ok row → mStorage row = storage ∧ mIndex row = Join (Itoa <$> (eIndex <$> parts)) comma.
Proof.
  unfold emit. destruct parts as [|e parts]; [done|]. rewrite <- list_fmap_compose. destruct (eTpdu e) as [err|pdu]; [by intros [= <-]|].
  destruct (sms_Decode _); by intros [= <-].
Qed.
Lemma delete_row storage parts row :
  storage_ok storage → emit storage parts = Ok row → Forall (fun e => slot_ok (eIndex e)) parts → parts ≠ [] → (length parts ≤ 32)%nat →
  row_slots row = (fun e => (storage, eIndex e)) <$> parts.
Proof.
  intros Hst He Hs Hne Hl. apply emit_row in He as [E1 E2]. unfold row_slots. rewrite E1, E2, delete_target; [by rewrite <- list_fmap_compose|done|..].
  - by apply Forall_fmap.
  - by destruct parts.
  - by rewrite length_fmap.
Qed.

(** ** The listing of a modem *)

(** A listed message: its slot and state, the rest of the header, what else the modem
    printed before the PDU, and the PDU, if there is one. *)
Record listed := MkListed { lSlot : Z; lStat : bytes; lRest : bytes; lOther : list bytes; lPDU : option bytes }.
Definition header (m : listed) : bytes := cmgl ++ z2b 32 :: Itoa (lSlot m) ++ comma :: lStat m ++ comma :: lRest m.
Definition listed_lines (m : listed) : list bytes := header m :: lOther m ++ match lPDU m with Some p => [p] | None => [] end.
Definition unsolicited (line : bytes) : Prop := HasPrefix (TrimSpace line) cmgl = false ∧ isHexPDU (TrimSpace line) = false.
Record listed_ok (m : listed) : Prop := {
  listed_slot : slot_ok (lSlot m);
  listed_stat : Forall (fun c => graphic c = true ∧ c ≠ comma) (lStat m);
  listed_rest : Forall (fun c => graphic c = true) (lRest m);
  listed_other : Forall unsolicited (lOther m);
  listed_pdu p : lPDU m = Some p → isHexPDU p = true }.
Definition listed_entry (m : listed) : smsPDUEntry :=
  MkEntry (lSlot m) (cmglStatus (lStat m)) (decodeStoredPDU (default [] (lPDU m)) (lStat m)).

Lemma hex_graphic p : isHexPDU p = true → Forall (fun c => graphic c = true) p.
Proof.
  unfold isHexPDU. destruct (_ || _); [done|]. rewrite forallb_forall. intros Hh. apply Forall_forall. intros c Hc%list_elem_of_In%Hh.
  unfold is_hex, graphic in *. lia.
Qed.
Lemma hex_not_header p : isHexPDU p = true → HasPrefix p cmgl = false.
Proof.
  intros Hh. destruct (HasPrefix p cmgl) eqn:E; [|done]. apply HasPrefix_app in E as [t ->]. unfold isHexPDU in Hh.
  destruct (_ || _); [done|]. cbn in Hh. done.
Qed.
Lemma find_pdu_found p rest others : isHexPDU p = true → Forall unsolicited others → ∀ n,
  find_pdu n (others ++ p :: rest) = Some (p, (n + length others + 1)%nat).
Proof.
  intros Hp. induction 1 as [|o others [Ho1 Ho2] _ IH]; intros n; cbn [app find_pdu].
  - rewrite TrimSpace_graphic by (by apply hex_graphic). rewrite hex_not_header, Hp by done. do 2 f_equal. cbn. lia.
  - rewrite Ho1, Ho2, IH. do 2 f_equal. cbn. lia.
Qed.
Lemma find_pdu_none others rest : Forall unsolicited others → (∀ line rest', rest = line :: rest' → HasPrefix (TrimSpace line) cmgl = true) → ∀ n,
  find_pdu n (others ++ rest) = None.
Proof.
  intros Ho Hrest. induction Ho as [|o others [Ho1 Ho2] _ IH]; intros n; cbn [app find_pdu]; [|by rewrite Ho1, Ho2].
  destruct rest as [|line rest]; [done|]. cbn [find_pdu]. by rewrite (Hrest line rest).
Qed.
Lemma skip_lines l rest : parse_lines (length l) (l ++ rest) = parse_lines 0 rest.
Proof. induction l as [|x l IH]; [by destruct rest|]. done. Qed.
Lemma skip_unsolicited others rest : Forall unsolicited others → parse_lines 0 (others ++ rest) = parse_lines 0 rest.
Proof. induction 1 as [|o others [Ho _] _ IH]; [done|]. cbn [app parse_lines]. by rewrite Ho. Qed.

(** The fields of a header. *)
Lemma header_fields m : listed_ok m →
  TrimSpace (header m) = header m ∧ HasPrefix (header m) cmgl = true ∧
  ∃ rest, Split (TrimSpace (TrimPrefix (header m) cmgl)) comma = Itoa (lSlot m) :: lStat m :: rest.
Proof.
  intros [Hs Hst Hr _ _]. unfold slot_ok in Hs. assert (Forall (fun c => graphic c = true) (Itoa (lSlot m) ++ comma :: lStat m ++ comma :: lRest m)) as Hg.
  { apply Forall_app. split; [rewrite Itoa_format by lia; apply FormatUint_graphic; lia|]. constructor; [done|]. apply Forall_app.
    split; [eapply Forall_impl; [exact Hst|]; by intros c [? _]|by constructor]. }
  assert (HasPrefix (header m) cmgl = true) as Hp by (apply HasPrefix_app; by eexists). split_and!; [|done|].
  - unfold header. assert (Itoa (lSlot m) ++ comma :: lStat m ++ comma :: lRest m ≠ []) as Hne by (by destruct (Itoa (lSlot m))).
    revert Hg Hne. generalize (Itoa (lSlot m) ++ comma :: lStat m ++ comma :: lRest m). intros t Hg Hne.
    destruct t as [|d t _] using rev_ind; [done|]. apply Forall_app in Hg as [_ [Hd _]%Forall_cons].
    change (cmgl ++ z2b 32 :: t ++ [d]) with (z2b 43 :: (bs "CMGL:" ++ z2b 32 :: t) ++ [d]). by apply TrimSpace_ends.
  - unfold TrimPrefix. rewrite Hp. unfold header at 1. rewrite drop_app_length, TrimSpace_blank, TrimSpace_graphic by done.
    rewrite Split_app by (apply Itoa_no_byte; [lia|done]). rewrite Split_app; [by eexists|]. intros Hc. rewrite Forall_forall in Hst. by apply (Hst _ Hc).
Qed.
Lemma listing_parsed ms : Forall listed_ok ms → parseCMGLPDUs (ms ≫= listed_lines) = listed_entry <$> ms.
Proof.
  unfold parseCMGLPDUs. induction ms as [|m ms IH]; intros Hok; [done|]. apply Forall_cons in Hok as [Hm Hok]. specialize (IH Hok).
  destruct (header_fields m Hm) as (Ht & Hp & rest & Hf). destruct Hm as [Hs Hst Hr Ho Hpdu]. unfold slot_ok in Hs.
  cbn [mbind list_bind]. unfold listed_lines at 1. cbn [app parse_lines]. rewrite Ht, Hp. cbn [negb]. rewrite Hf.
  change (default [] ((Itoa (lSlot m) :: lStat m :: rest) !! 0%nat)) with (Itoa (lSlot m)).
  change (default [] ((Itoa (lSlot m) :: lStat m :: rest) !! 1%nat)) with (lStat m).
  assert (TrimSpace (Itoa (lSlot m)) = Itoa (lSlot m)) as -> by (rewrite Itoa_format by lia; apply TrimSpace_FormatUint; lia).
  rewrite Atoi_Itoa by lia. rewrite (proj2 (Z.leb_gt _ 0)) by lia. change (1 <? length (Itoa (lSlot m) :: lStat m :: rest))%nat with true. cbv iota.
  assert (TrimSpace (lStat m) = lStat m) as ->.
  { apply TrimSpace_graphic. eapply Forall_impl; [exact Hst|]. by intros c [? _]. }
  set (tail := ms ≫= listed_lines) in *. cbn [fmap list_fmap]. unfold listed_entry at 1.
  destruct (lPDU m) as [p|] eqn:Ep.
  - rewrite <- (app_assoc (lOther m) [p] tail). cbn [app]. rewrite (find_pdu_found p tail) by auto. cbn [default]. f_equal.
    replace (0 + length (lOther m) + 1)%nat with (length (lOther m ++ [p])) by (rewrite length_app; cbn; lia).
    change (p :: tail) with ([p] ++ tail). by rewrite app_assoc, skip_lines.
  - rewrite app_nil_r. rewrite find_pdu_none; [|done|].
    + cbn [default]. f_equal. by rewrite skip_unsolicited.
    + intros line rest' He. destruct ms as [|m' ms]; [done|]. subst tail. assert (line = header m') as -> by (cbn [mbind list_bind] in He; unfold listed_lines at 1 in He; by injection He). apply Forall_cons in Hok as [Hm' _].
      destruct (header_fields m' Hm') as (Ht' & Hp' & _). by rewrite Ht'.
Qed.

(** ** The order *)

Lemma less_negtrans a b c : inbox_less b a = false → inbox_less c b = false → inbox_less c a = false.
Proof. unfold inbox_less. repeat case_match; try done. rewrite !Z.ltb_ge. lia. Qed.
Lemma less_asym a b : inbox_less a b = true → inbox_less b a = false.
Proof. unfold inbox_less. repeat case_match; try done. rewrite Z.ltb_lt, Z.ltb_ge. lia. Qed.
Definition in_order (a b : smsInboxMessage) : Prop := inbox_less b a = false.
Lemma insert_row_perm x l : insert_row x l ≡ₚ x :: l.
Proof. induction l as [|y l IH]; [done|]. cbn [insert_row]. destruct (inbox_less y x); [|done]. by rewrite IH, Permutation_swap. Qed.
Lemma insert_row_sorted x l : StronglySorted in_order l → StronglySorted in_order (insert_row x l).
Proof.
  induction 1 as [|y l Hs IH Hall]; [repeat constructor|]. cbn [insert_row]. destruct (inbox_less y x) eqn:E.
  - constructor; [done|]. rewrite insert_row_perm. constructor; [by apply less_asym|done].
  - constructor; [by constructor|]. constructor; [done|]. eapply Forall_impl; [exact Hall|]. intros z. by apply less_negtrans.
Qed.
(** Sorted by time, those without one first, and otherwise in the order of the storage. *)
Lemma sort_spec l : sortSMSInbox l ≡ₚ l ∧ StronglySorted in_order (sortSMSInbox l).
Proof.
  induction l as [|x l [Hp Hs]]; [repeat constructor|]. cbn [sortSMSInbox foldr]. fold (sortSMSInbox l). split; [by rewrite insert_row_perm, Hp|].
  by apply insert_row_sorted.
Qed.
Definition same_time (a b : smsInboxMessage) : bool := negb (inbox_less a b) && negb (inbox_less b a).
Lemma insert_row_stable x y l :
  StronglySorted in_order l →
  List.filter (same_time x) (insert_row y l) = List.filter (same_time x) (y :: l).
Proof.
  induction 1 as [|z l Hs IH Hall]; [done|]. cbn [insert_row]. destruct (inbox_less z y) eqn:E; [|done]. cbn [List.filter] in *. rewrite IH.
  destruct (same_time x y) eqn:Ey, (same_time x z) eqn:Ez; try done. exfalso. unfold same_time in *. unfold inbox_less in *.
  repeat case_match; simplify_eq; cbn in *; lia || done.
Qed.
Lemma sort_stable x l : List.filter (same_time x) (sortSMSInbox l) = List.filter (same_time x) l.
Proof.
  induction l as [|y l IH]; [done|]. cbn [sortSMSInbox foldr]. fold (sortSMSInbox l). rewrite insert_row_stable by apply sort_spec.
  cbn [List.filter]. by rewrite IH.
Qed.

(** ** The inbox as a whole *)

(** Messages of at most 32 parts, none of which is repeated. *)
Definition plain_listing (ms : list listed) : Prop :=
  Forall listed_ok ms ∧ no_repeats (listed_entry <$> ms) ∧ ∀ m key s n, m ∈ ms → part_of (listed_entry m) = Some (key, s, n) → n ≤ 32.
Lemma message_length parts :
  one_message parts → (∀ e key s n, e ∈ parts → part_of e = Some (key, s, n) → n ≤ 32) → (length parts ≤ 32)%nat.
Proof.
  intros [[e ->]|(key & seqnos & _ & Hall)] Hn; [cbn; lia|]. destruct parts as [|e parts]; [cbn; lia|].
  destruct seqnos as [|s seqnos]; [by inversion Hall|]. apply Forall2_cons in Hall as [He _]. pose proof (Hn e _ _ _ (list_elem_of_here _ _) He). lia.
Qed.
Lemma storage_slots (law : concat_fields) storage ms :
  storage_ok storage → plain_listing ms →
  ∃ rows, joinSMSPDUs storage (parseCMGLPDUs (ms ≫= listed_lines)) = Ok rows ∧ rows ≫= row_slots ≡ₚ (fun m => (storage, lSlot m)) <$> ms.
Proof.
  intros Hst (Hok & Hnr & Hn). rewrite listing_parsed by done. destruct (join_rows law storage (listed_entry <$> ms)) as (rows & parts & -> & Hrows & Hperm & Hall).
  exists rows. split; [done|]. rewrite latest_all, split_entries in Hperm by done.
  assert (∀ e, e ∈ concat parts → slot_ok (eIndex e) ∧ ∀ key s n, part_of e = Some (key, s, n) → n ≤ 32) as He.
  { intros e. rewrite Hperm, list_elem_of_fmap. intros (m & -> & Hm). split; [|intros key s n; by apply Hn]. rewrite Forall_forall in Hok. by apply listed_slot, Hok. }
  trans ((fun e => (storage, eIndex e)) <$> concat parts); [|by rewrite Hperm, <- list_fmap_compose]. clear Hperm Hok Hnr Hn.
  induction Hrows as [|ps row parts rows Hemit _ IH]; [done|]. apply Forall_cons in Hall as [[Hne Hone] Hall]. cbn [mbind list_bind concat] in *. rewrite fmap_app, IH; [|done|].
  - f_equiv. rewrite (delete_row storage ps row); [done..| |done|].
    + apply Forall_forall. intros e Hin. apply He, elem_of_app. by left.
    + apply message_length; [done|]. intros e key s n Hin. apply He, elem_of_app. by left.
  - intros e Hin. apply He, elem_of_app. by right.
Qed.

(** What a storage answers: an error, or its messages. *)
Definition answer_lines (a : bytes + list listed) : bytes + list bytes := match a with inl e => inl e | inr ms => inr (ms ≫= listed_lines) end.
Definition answer_slots (storage : bytes) (a : bytes + list listed) : list (bytes * Z) :=
  match a with inl _ => [] | inr ms => (fun m => (storage, lSlot m)) <$> ms end.
Definition answer_ok (a : bytes + list listed) : Prop := match a with inl _ => True | inr ms => plain_listing ms end.


(** ** Texts *)

Lemma emit_clean storage parts row : emit storage parts = Ok row → clean_text (mBody row).
Proof.
  unfold emit. destruct parts as [|e parts]; [done|]. destruct (eTpdu e); [by intros [= <-]|]. destruct (sms_Decode _); intros [= <-]; [done|apply normalized_clean].
Qed.

(** C28: Texts are safe to show and to send.  Whatever bytes a modem returns, every body of the inbox, and every field of a
    message listed in text mode, is well-formed UTF-8 without control characters other than tabs and
    line feeds and without the controls that reorder text, also when it was decoded from UCS-2; and what is
    accepted for sending is a number of three to fifteen digits after at most a plus sign and
    a nonempty well-formed text of at most 1600 bytes that cannot end or escape the
    command it is sent with. *)
Theorem sms_texts_safe :
  concat_fields →
  (∀ storage entries rows row, joinSMSPDUs storage entries = Ok rows → row ∈ rows → clean_text (mBody row)) ∧
  (∀ lines m, m ∈ parseATTextMessages lines → clean_text (tStatus m) ∧ clean_text (tNumber m) ∧ clean_text (tTime m) ∧ clean_text (tBody m)) ∧
  ∀ phoneNumber message number text, validateOutgoingSMS phoneNumber message = Ok (number, text) →
    (∃ plus digits, number = plus ++ digits ∧ (plus = [] ∨ plus = [z2b 43]) ∧ Forall (fun c => is_digit c = true) digits ∧ (3 ≤ length digits ≤ 15)%nat) ∧
    text = encode_runes (runes text) ∧ Forall sendable (runes text) ∧ (0 < length text ≤ 1600)%nat.
Proof.
  intros law. split_and!; [| |apply outgoing_checked].
  - intros storage entries rows row Hj Hr. destruct (join_rows law storage entries) as (rows' & parts & Hj' & Hrows & _). rewrite Hj in Hj'. injection Hj' as <-.
    apply list_elem_of_lookup_1 in Hr as [i Hi]. destruct (Forall2_lookup_r _ _ _ _ _ Hrows Hi) as (ps & _ & He). by eapply emit_clean.
  - intros lines m (m' & -> & _)%list_elem_of_fmap. split_and!; [apply sanitized_runes..|apply normalized_clean].
Qed.

(** ** What is lost *)

Lemma latest_last l1 e l2 k :
  multi e = Some (k, e) → (∀ x, x ∈ l2 → multi x ≠ Some (k, x)) → latest (l1 ++ e :: l2) !! k = Some e.
Proof.
  intros He. induction l2 as [|x l2 IH] using rev_ind; intros Hl.
  - unfold latest, multis. rewrite omap_app, reverse_app. cbn [omap list_omap]. rewrite He. apply lookup_insert_eq.
  - rewrite app_comm_cons, app_assoc. destruct (part_of x) as [[[key s] n]|] eqn:Ex.
    + rewrite (latest_snoc _ _ _ _ _ Ex), lookup_insert_ne; [|intros Ek; apply (Hl x); [set_solver|unfold multi; by rewrite Ex, Ek]].
      apply IH. intros y Hy. apply Hl. set_solver.
    + rewrite latest_single by done. apply IH. intros y Hy. apply Hl. set_solver.
Qed.
(** A part that is listed again under the same sender, reference and number - a message
    received twice, or a reference that was used again - disappears: no row holds its
    slot, which the console can therefore not free. *)
Theorem repeated_part_hidden storage l1 e l2 e' l3 k rows :
  concat_fields → NoDup (eIndex <$> l1 ++ e :: l2 ++ e' :: l3) → multi e = Some (k, e) → multi e' = Some (k, e') →
  (∀ x, x ∈ l3 → multi x ≠ Some (k, x)) → joinSMSPDUs storage (l1 ++ e :: l2 ++ e' :: l3) = Ok rows →
  ∃ parts, Forall2 (fun ps row => emit storage ps = Ok row) parts rows ∧ eIndex e ∉ eIndex <$> concat parts.
Proof.
  intros law Hnd He He' Hl Hj. set (entries := l1 ++ e :: l2 ++ e' :: l3) in *. destruct (join_rows law storage entries) as (rows' & parts & Hj' & Hrows & Hp & _).
  rewrite Hj in Hj'. injection Hj' as <-. exists parts. split; [done|]. rewrite Hp, list_elem_of_fmap. intros (x & Hx & Hin).
  assert (x ∈ entries) as Hxe.
  { apply elem_of_app in Hin as [Hin|Hin]; [by apply list_elem_of_In, filter_In in Hin as [?%list_elem_of_In _]|].
    apply list_elem_of_fmap in Hin as ([k' y] & -> & Hy%elem_of_map_to_list). apply elem_of_list_to_map_2 in Hy. rewrite elem_of_reverse in Hy.
    apply list_elem_of_omap in Hy as (z & Hz & Hm). unfold multi in Hm. destruct (part_of z) as [[[? ?] ?]|]; [|done]. by injection Hm as _ <-. }
  assert (x = e) as ->.
  { apply list_elem_of_lookup_1 in Hxe as [i Hi]. assert (entries !! length l1 = Some e) as Hl1 by (unfold entries; by rewrite list_lookup_middle).
    assert (i = length l1) as ->; [|congruence]. eapply (NoDup_lookup _ i (length l1) (eIndex e) Hnd); rewrite list_lookup_fmap, ?Hi, ?Hl1; cbn; congruence. }
  apply elem_of_app in Hin as [Hin|Hin].
  - apply list_elem_of_In, filter_In in Hin as [_ Hs]. unfold single in Hs. unfold multi in He. by destruct (part_of e) as [[[? ?] ?]|].
  - apply list_elem_of_fmap in Hin as ([k' y] & -> & Hy%elem_of_map_to_list). assert (k' = k) as ->.
    { pose proof Hy as Hy'. apply elem_of_list_to_map_2 in Hy'. rewrite elem_of_reverse in Hy'. apply list_elem_of_omap in Hy' as (z & _ & Hm).
      unfold multi in Hm, He. destruct (part_of z) as [[[? ?] ?]|] eqn:Ez; [|done]. injection Hm as <- ->. cbn in He. rewrite Ez in He. by injection He. }
    assert (latest entries !! k = Some e') as Hlast.
    { unfold entries. rewrite app_comm_cons, app_assoc. by apply latest_last. }
    rewrite Hlast in Hy. injection Hy as ->. cbn in *. apply NoDup_fmap_1 in Hnd. unfold entries in Hnd. apply NoDup_app in Hnd as (_ & _ & Hnd).
    apply NoDup_cons in Hnd as [Hnd _]. set_solver.
Qed.

(** A row of several slots cannot be deleted where the agent does not hold the port itself:
    that path reads a single number. *)
Lemma parse_loop_digits maxVal s : ∀ acc n, parse_loop maxVal acc s = Some n → Forall (fun c => is_digit c = true) s.
Proof.
  induction s as [|c s IH]; intros acc n; [done|]. cbn [parse_loop]. destruct (is_digit c) eqn:E; [|done]. cbn [negb]. repeat case_match; try done.
  intros Hp. constructor; [done|by eapply IH].
Qed.
Theorem joined_row_stuck storage slots :
  storage_ok storage → Forall slot_ok slots → (2 ≤ length slots)%nat →
  delete_bridged (storage ++ colon :: Join (Itoa <$> slots) comma) = Err "SMS index must be a positive integer or storage:index"%string.
Proof.
  intros Hst Hs Hl. destruct slots as [|a [|b slots]]; [cbn in Hl; lia..|]. destruct (slots_text (a :: b :: slots) Hs) as [Hg _]; [done|].
  unfold delete_bridged. rewrite split_storage by done.
  assert (negb (bool_decide (storage = bs "SM")) && negb (bool_decide (storage = bs "ME")) = false) as -> by (by destruct Hst as [-> | ->]).
  assert (Atoi (Join (Itoa <$> a :: b :: slots) comma) = None) as ->; [|done]. cbn [fmap list_fmap]. rewrite Join_cons by done.
  apply Forall_cons in Hs as [Ha _]. unfold slot_ok in Ha. pose proof (FormatUint_digits a ltac:(lia)) as Hd. pose proof (FormatUint_nonempty a) as Hne.
  rewrite (Itoa_format a) by lia. destruct (FormatUint a) as [|c t]; [done|]. apply Forall_cons in Hd as [Hc _]. unfold Atoi. cbn [app]. unfold is_digit in Hc.
  rewrite (proj2 (Z.eqb_neq (b2z c) 45)), (proj2 (Z.eqb_neq (b2z c) 43)) by lia. cbn [orb]. unfold ParseUint.
  destruct (parse_loop _ _ _) eqn:E; [|done]. apply parse_loop_digits in E. rewrite app_comm_cons in E. apply Forall_app in E as [_ [E _]%Forall_cons]. done.
Qed.
End Inbox.

(** ** Witnesses *)

(** A codec whose units are three header bytes and a text. *)
#[local] Instance ascii_tables : UnicodeTables := {| IsPrint r := (32 <=? r) && (r <? 127); IsLetter r := (97 <=? r) && (r <=? 122); unicode_ToUpper s := s |}.
#[local] Instance plain_sms : SmsLib :=
  {| TPDU := bytes; SmsSubmit := 1; SmsDeliver := 0; SmsType _ := 0; sms_Encode message _ := inr [message]; MarshalBinary t := inr t;
     sms_Unmarshal raw _ := inr raw; DA_Number _ := []; OA_Number _ := bs "+43123";
     ConcatInfo t := match t with n :: s :: m :: _ => Some (b2z n, b2z s, b2z m) | _ => None end;
     sms_Decode l := inr (concat (drop 3 <$> l)); SCTS_Format _ := None |}.
Lemma plain_fields : concat_fields.
Proof.
  intros t n s m. cbn. destruct t as [|x [|y [|z t]]]; [done..|]. intros [= <- <- <-].
  pose proof (b2z_range x). pose proof (b2z_range y). pose proof (b2z_range z). lia.
Qed.
Lemma sms_texts_safe_witness : ∃ number text, validateOutgoingSMS (bs " +436641234567 ") (bs "hello") = Ok (number, text) ∧ Forall sendable (runes text).
Proof.
  exists (bs "+436641234567"), (bs "hello"). assert (validateOutgoingSMS (bs " +436641234567 ") (bs "hello") = Ok (bs "+436641234567", bs "hello")) as Hv by vm_refl.
  split; [exact Hv|]. destruct (sms_texts_safe plain_fields) as (_ & _ & Hout). apply (Hout _ _ _ _ Hv).
Defined.
Definition two_parts : list listed :=
  [MkListed 5 (bs "1") (bs ",24") [] (Some (bs "00020207206c6f")); MkListed 3 (bs "1") (bs ",24") [bs "+CMTI: 7"] (Some (bs "000201076865"))].
Lemma two_parts_plain : plain_listing two_parts.
Proof.
  split_and!.
  - repeat constructor; cbn; try (vm_compute; discriminate); try done; intros p [= <-]; vm_refl.
  - apply (bool_decide_unpack _). vm_compute. exact I.
  - intros m key s n. unfold two_parts. rewrite !elem_of_cons. intros [-> |[-> |?%elem_of_nil]]; [..|done]; intros Hp; vm_compute in Hp; injection Hp; lia.
Qed.
(** The two parts make one row, which deletes both slots. *)
Example two_parts_joined :
  listSMSPDU (inr (two_parts ≫= listed_lines)) (inl (bs "timeout"))
  = Ok [MkInbox (bs "SM") (bs "3,5") (bs "REC READ") (bs "+43123") [] (bs "he lo") []].
Proof. vm_refl. Qed.
