(* ===== verification/Netip.v ===== *)
(** * Package net/netip

    Addresses, prefixes and their text as the exit node code uses them.  An
    address is the integer its bits denote; IPv6 addresses carry their zone. *)

From S2P Require Import Prelude GoStr.

Inductive Addr := AddrNone | Addr4 (x : Z) | Addr6 (x : Z) (zone : bytes).
#[export] Instance Addr_eq_dec : EqDecision Addr.
Proof. solve_decision. Defined.
Definition addr_enc (a : Addr) : option (Z + Z * bytes) :=
  match a with AddrNone => None | Addr4 x => Some (inl x) | Addr6 x z => Some (inr (x, z)) end.
Definition addr_dec (c : option (Z + Z * bytes)) : Addr :=
  match c with None => AddrNone | Some (inl x) => Addr4 x | Some (inr (x, z)) => Addr6 x z end.
#[export] Instance Addr_countable : Countable Addr.
Proof. apply (inj_countable' addr_enc addr_dec). by intros []. Defined.

Definition IsValid (a : Addr) : bool := match a with AddrNone => false | _ => true end.
Definition Is4 (a : Addr) : bool := match a with Addr4 _ => true | _ => false end.
Definition Is6 (a : Addr) : bool := match a with Addr6 _ _ => true | _ => false end.
Definition Is4In6 (a : Addr) : bool := match a with Addr6 x _ => Z.shiftr x 32 =? 0xffff | _ => false end.
Definition Unmap (a : Addr) : Addr :=
  match a with Addr6 x _ => if Is4In6 a then Addr4 (Z.land x 0xffffffff) else a | _ => a end.
(** [AddrFrom4], [AddrFrom16] of a byte array, [AddrFromSlice] of a slice. *)
Definition AddrFrom4 (b : bytes) : Addr := Addr4 (be_get b).
Definition AddrFrom16 (b : bytes) : Addr := Addr6 (be_get b) [].
Definition AddrFromSlice (b : bytes) : option Addr :=
  if (length b =? 4)%nat then Some (AddrFrom4 b) else if (length b =? 16)%nat then Some (AddrFrom16 b) else None.

(** [v4(i)], [v6u16(i)] *)
Definition v4 (x i : Z) : Z := Z.land (Z.shiftr x ((3 - i) * 8)) 255.
Definition v6u16 (x i : Z) : Z := Z.land (Z.shiftr x ((7 - i) * 16)) 0xffff.

Definition IsUnspecified (a : Addr) : bool :=
  match a with Addr4 x => x =? 0 | Addr6 x z => (x =? 0) && bool_decide (z = []) | AddrNone => false end.
Definition IsLoopback (a : Addr) : bool :=
  let a := if Is4In6 a then Unmap a else a in
  match a with Addr4 x => v4 x 0 =? 127 | Addr6 x _ => x =? 1 | AddrNone => false end.
Definition IsMulticast (a : Addr) : bool :=
  let a := if Is4In6 a then Unmap a else a in
  match a with
  | Addr4 x => Z.land (v4 x 0) 0xf0 =? 0xe0 | Addr6 x _ => Z.shiftr x 120 =? 0xff | AddrNone => false
  end.
Definition IsLinkLocalUnicast (a : Addr) : bool :=
  let a := if Is4In6 a then Unmap a else a in
  match a with
  | Addr4 x => (v4 x 0 =? 169) && (v4 x 1 =? 254)
  | Addr6 x _ => Z.land (v6u16 x 0) 0xffc0 =? 0xfe80
  | AddrNone => false
  end.
Definition IsPrivate (a : Addr) : bool :=
  let a := if Is4In6 a then Unmap a else a in
  match a with
  | Addr4 x => (v4 x 0 =? 10) || ((v4 x 0 =? 172) && (Z.land (v4 x 1) 0xf0 =? 16))
               || ((v4 x 0 =? 192) && (v4 x 1 =? 168))
  | Addr6 x _ => Z.land (Z.shiftr x 120) 0xfe =? 0xfc
  | AddrNone => false
  end.
Definition IPv4Broadcast : Addr := Addr4 0xffffffff.
Definition IsGlobalUnicast (a : Addr) : bool :=
  match a with
  | AddrNone => false
  | _ =>
      let a := if Is4In6 a then Unmap a else a in
      negb (Is4 a && ((match a with Addr4 x => x =? 0 | _ => false end) || bool_decide (a = IPv4Broadcast)))
      && negb (bool_decide (a = Addr6 0 [])) && negb (IsLoopback a) && negb (IsMulticast a)
      && negb (IsLinkLocalUnicast a)
  end.

(** [Less]: by bit length, then value, then zone. *)
Definition BitLen (a : Addr) : Z := match a with AddrNone => 0 | Addr4 _ => 32 | Addr6 _ _ => 128 end.
Definition addr_val (a : Addr) : Z := match a with AddrNone => 0 | Addr4 x => x | Addr6 x _ => x end.
Definition addr_zone (a : Addr) : bytes := match a with Addr6 _ z => z | _ => [] end.
Definition addr_leb (a b : Addr) : bool :=
  if BitLen a <? BitLen b then true else if BitLen b <? BitLen a then false
  else if addr_val a <? addr_val b then true else if addr_val b <? addr_val a then false
  else bytes_leb (addr_zone a) (addr_zone b).
Definition Less (a b : Addr) : bool := negb (addr_leb b a).
Definition addr_le (a b : Addr) : Prop := addr_leb a b = true.
#[export] Instance addr_le_dec : RelDecision addr_le.
Proof. intros a b. unfold addr_le. apply _. Defined.

(** ** Prefixes *)

(** [PrefixFrom] drops the zone and has no length (-1) for one out of range. *)
Record Prefix := MkPrefix { pAddr : Addr; pBits : Z }.
#[export] Instance Prefix_eq_dec : EqDecision Prefix.
Proof. solve_decision. Defined.
#[export] Instance Prefix_countable : Countable Prefix.
Proof. apply (inj_countable' (fun p => (pAddr p, pBits p)) (fun p => MkPrefix p.1 p.2)). by intros []. Defined.
Definition withoutZone (a : Addr) : Addr := match a with Addr6 x _ => Addr6 x [] | _ => a end.
Definition PrefixFrom (a : Addr) (bits : Z) : Prefix :=
  MkPrefix (withoutZone a) (if IsValid a && (0 <=? bits) && (bits <=? BitLen a) then bits else -1).
Definition prefix_valid (p : Prefix) : bool := 0 <=? pBits p.

Definition prefix_mask (w bits x : Z) : Z := Z.shiftl (Z.shiftr x (w - bits)) (w - bits).
(** [Masked]: the zero prefix when the length is missing. *)
Definition Masked (p : Prefix) : Prefix :=
  if negb (prefix_valid p) then MkPrefix AddrNone (-1) else
  match pAddr p with
  | AddrNone => MkPrefix AddrNone (-1)
  | Addr4 x => MkPrefix (Addr4 (prefix_mask 32 (pBits p) x)) (pBits p)
  | Addr6 x z => MkPrefix (Addr6 (prefix_mask 128 (pBits p) x) z) (pBits p)
  end.
(** [Contains]: the families match, the address has no zone, and the address
    agrees with the prefix on its leading bits. *)
Definition prefix_contains (p : Prefix) (a : Addr) : bool :=
  prefix_valid p &&
  match pAddr p, a with
  | Addr4 x, Addr4 y => Z.shiftr (Z.lxor y x) (32 - pBits p) =? 0
  | Addr6 x _, Addr6 y [] => Z.shiftr (Z.lxor y x) (128 - pBits p) =? 0
  | _, _ => false
  end.

(** ** Text *)

Definition hexdigit (d : Z) : byte := if d <? 10 then digit d else z2b (87 + d).
(** [appendHex]: no leading zeros. *)
Definition appendHex (x : Z) : bytes :=
  (if 0x1000 <=? x then [hexdigit (Z.shiftr x 12)] else [])
  ++ (if 0x100 <=? x then [hexdigit (Z.land (Z.shiftr x 8) 0xf)] else [])
  ++ (if 0x10 <=? x then [hexdigit (Z.land (Z.shiftr x 4) 0xf)] else [])
  ++ [hexdigit (Z.land x 0xf)].
Definition dot : byte := z2b 46.
Definition colon : byte := z2b 58.
Definition percent : byte := z2b 37.
Definition string4 (x : Z) : bytes :=
  FormatUint (v4 x 0) ++ dot :: FormatUint (v4 x 1) ++ dot :: FormatUint (v4 x 2) ++ dot :: FormatUint (v4 x 3).

(** The longest run of two or more zero groups, the first of equal ones. *)
Fixpoint zero_run (gs : list Z) : nat :=
  match gs with g :: gs => if g =? 0 then S (zero_run gs) else O | [] => O end.
Fixpoint longest_run (i : nat) (gs : list Z) (best : nat * nat) : nat * nat :=
  match gs with
  | [] => best
  | _ :: rest =>
      let l := zero_run gs in
      longest_run (S i) rest (if (2 <=? l)%nat && (best.2 <? l)%nat then (i, l) else best)
  end.
Definition groups (x : Z) : list Z := v6u16 x <$> [0; 1; 2; 3; 4; 5; 6; 7].
Fixpoint join_groups (gs : list Z) : bytes :=
  match gs with [] => [] | [g] => appendHex g | g :: gs => appendHex g ++ colon :: join_groups gs end.
Definition string6 (x : Z) : bytes :=
  let gs := groups x in
  let '(i, l) := longest_run 0 gs (0, 0)%nat in
  if (l =? 0)%nat then join_groups gs
  else join_groups (take i gs) ++ [colon; colon] ++ join_groups (drop (i + l) gs).
Definition zone_text (z : bytes) : bytes := match z with [] => [] | _ => percent :: z end.
Definition addr_String (a : Addr) : bytes :=
  match a with
  | AddrNone => bs "invalid IP"
  | Addr4 x => string4 x
  | Addr6 x z => if Is4In6 a then bs "::ffff:" ++ string4 (Z.land x 0xffffffff) ++ zone_text z
                 else string6 x ++ zone_text z
  end.
Definition slash : byte := z2b 47.
Definition prefix_String (p : Prefix) : bytes :=
  if negb (prefix_valid p) then bs "invalid Prefix" else addr_String (pAddr p) ++ slash :: Itoa (pBits p).

(** [parseIPv4Fields]: the loop over the text with the octets read so far. *)
Fixpoint ipv4_fields (s : bytes) (fields : list Z) (val : Z) (digLen : nat) : option (list Z) :=
  match s with
  | [] => if (digLen =? 0)%nat || negb (length fields =? 3)%nat then None else Some (fields ++ [val])
  | c :: s =>
      if is_digit c then
        if (digLen =? 1)%nat && (val =? 0) then None else
        let val := val * 10 + (b2z c - 48) in
        if 255 <? val then None else ipv4_fields s fields val (S digLen)
      else if decide (c = dot) then
        if (digLen =? 0)%nat || (length fields =? 3)%nat then None else ipv4_fields s (fields ++ [val]) 0 0
      else None
  end.
Definition parseIPv4 (s : bytes) : option Addr :=
  fs ← ipv4_fields s [] 0 0; Some (AddrFrom4 (z2b <$> fs)).

Definition hexval (c : byte) : option Z :=
  let z := b2z c in
  if is_digit c then Some (z - 48)
  else if (97 <=? z) && (z <=? 102) then Some (z - 87)
  else if (65 <=? z) && (z <=? 70) then Some (z - 55) else None.
(** The hex digits in front of [s]: the value, how many, and the rest; [None]
    for more than four. *)
Fixpoint hex_group (off : nat) (acc : Z) (s : bytes) : option (Z * nat * bytes) :=
  match s with
  | [] => Some (acc, off, [])
  | c :: rest =>
      match hexval c with
      | None => Some (acc, off, s)
      | Some d => if (3 <? off)%nat then None else hex_group (S off) (Z.shiftl acc 4 + d) rest
      end
  end.
Definition group_bytes (acc : Z) : list Z := [Z.shiftr acc 8; Z.land acc 255].
(** The loop of [parseIPv6]: [ip] holds the bytes filled so far, [ellipsis] the
    position of [::].  Eight rounds fill sixteen bytes. *)
Fixpoint ipv6_loop (fuel : nat) (s : bytes) (ip : list Z) (ellipsis : option nat) : option (list Z * option nat) :=
  match fuel with
  | O => match s with [] => Some (ip, ellipsis) | _ => None end
  | S fuel =>
      '(acc, off, rest) ← hex_group 0 0 s;
      if (off =? 0)%nat then None else
      match rest with
      | [] => Some (ip ++ group_bytes acc, ellipsis)
      | c :: rest' =>
          if decide (c = dot) then
            if (if ellipsis then false else negb (length ip =? 12)%nat) then None
            else if (16 <? length ip + 4)%nat then None
            else fs ← ipv4_fields s [] 0 0; Some (ip ++ fs, ellipsis)
          else if negb (bool_decide (c = colon)) then None else
          let ip := ip ++ group_bytes acc in
          match rest' with
          | [] => None
          | d :: rest'' =>
              if decide (d = colon) then
                if ellipsis then None
                else match rest'' with [] => Some (ip, Some (length ip)) | _ => ipv6_loop fuel rest'' ip (Some (length ip)) end
              else ipv6_loop fuel rest' ip ellipsis
          end
      end
  end.
Definition fill_ellipsis (ip : list Z) (ellipsis : option nat) : option (list Z) :=
  if (length ip <? 16)%nat then
    e ← ellipsis; Some (take e ip ++ replicate (16 - length ip) 0 ++ drop e ip)
  else match ellipsis with Some _ => None | None => Some ip end.
Definition parseIPv6 (s : bytes) : option Addr :=
  let '(s, zone, found) := Cut s percent in
  if found && bool_decide (zone = []) then None else
  let double := bool_decide (take 2 s = [colon; colon]) in
  let s := if double then drop 2 s else s in
  if double && bool_decide (s = []) then Some (Addr6 0 zone) else
  '(ip, ellipsis) ← ipv6_loop 8 s [] (if double then Some O else None);
  ip ← fill_ellipsis ip ellipsis;
  Some (Addr6 (be_get (z2b <$> ip)) zone).
Fixpoint addr_kind (s : bytes) : option byte :=
  match s with
  | [] => None
  | c :: s => if decide (c = dot ∨ c = colon ∨ c = percent) then Some c else addr_kind s
  end.
Definition ParseAddr (s : bytes) : option Addr :=
  match addr_kind s with
  | None => None
  | Some c => if decide (c = dot) then parseIPv4 s else if decide (c = colon) then parseIPv6 s else None
  end.

Definition ParsePrefix (s : bytes) : option Prefix :=
  let i := LastIndexByte s slash in
  if i <? 0 then None else
  a ← ParseAddr (take (Z.to_nat i) s);
  if negb (bool_decide (addr_zone a = [])) then None else
  let bitsStr := drop (S (Z.to_nat i)) s in
  if (1 <? length bitsStr)%nat &&
     match bitsStr with c :: _ => (b2z c <? 49) || (57 <? b2z c) | [] => false end then None else
  bits ← Atoi bitsStr;
  if (bits <? 0) || (BitLen a <? bits) then None else Some (PrefixFrom a bits).

(** [ParseAddrPort], with [splitAddrPort]; the port is not used further. *)
Definition lbracket : byte := z2b 91.
Definition rbracket : byte := z2b 93.
Definition ParseAddrPort (s : bytes) : option (Addr * Z) :=
  let i := LastIndexByte s colon in
  if i =? -1 then None else
  let ip := take (Z.to_nat i) s in
  let port := drop (S (Z.to_nat i)) s in
  match ip, port with
  | [], _ | _, [] => None
  | c :: _, _ =>
      let v6 := bool_decide (c = lbracket) in
      if v6 && ((length ip <? 2)%nat || negb (bool_decide (last ip = Some rbracket))) then None else
      let ip := if v6 then take (length ip - 2) (drop 1 ip) else ip in
      port16 ← ParseUint port 16;
      a ← ParseAddr ip;
      if v6 && Is4 a then None else if negb v6 && Is6 a then None else Some (a, port16)
  end.

(** ** An IPv4 address is read back from its text *)

Lemma fields_octet n s fs : (n < 256)%nat →
  ∃ k, ipv4_fields (FormatUint (Z.of_nat n) ++ s) fs 0 0 = ipv4_fields s fs (Z.of_nat n) (S k).
Proof. intros Hn. do 256 (destruct n as [|n]; [eexists; reflexivity|]). lia. Qed.
Lemma fields_octet_Z v s fs : 0 ≤ v < 256 →
  ∃ k, ipv4_fields (FormatUint v ++ s) fs 0 0 = ipv4_fields s fs v (S k).
Proof. intros Hv. destruct (fields_octet (Z.to_nat v) s fs) as [k Hk]; [lia|]. exists k. by rewrite Z2Nat.id in Hk by lia. Qed.
Lemma fields_dot fs v k s : (length fs < 3)%nat → ipv4_fields (dot :: s) fs v (S k) = ipv4_fields s (fs ++ [v]) 0 0.
Proof.
  intros Hl. cbn [ipv4_fields]. change (is_digit dot) with false. cbn iota. rewrite decide_True by done.
  rewrite (proj2 (Nat.eqb_neq (length fs) 3)) by lia. done.
Qed.
Lemma v4_div x i : 0 ≤ i < 4 → v4 x i = (x / 2 ^ ((3 - i) * 8)) mod 256.
Proof. intros Hi. unfold v4. rewrite Z.shiftr_div_pow2 by lia. apply (Z.land_ones _ 8). lia. Qed.
Lemma v4_range x i : 0 ≤ i < 4 → 0 ≤ v4 x i < 256.
Proof. intros. rewrite v4_div by done. by apply Z.mod_pos_bound. Qed.
Lemma v4_join x : 0 ≤ x < 2 ^ 32 → be_get (z2b <$> [v4 x 0; v4 x 1; v4 x 2; v4 x 3]) = x.
Proof.
  intros Hx. change (be_get _) with (b2z (z2b (v4 x 3)) + 256 * (b2z (z2b (v4 x 2)) + 256 *
    (b2z (z2b (v4 x 1)) + 256 * (b2z (z2b (v4 x 0)) + 256 * 0)))).
  rewrite !b2z_z2b_small by (apply v4_range; lia).
  rewrite !v4_div by lia. change ((3 - 3) * 8) with 0. change ((3 - 2) * 8) with 8. change ((3 - 1) * 8) with 16.
  change ((3 - 0) * 8) with 24. change (2 ^ 0) with 1. change (2 ^ 8) with 256. change (2 ^ 16) with 65536.
  change (2 ^ 24) with 16777216. change (2 ^ 32) with 4294967296 in Hx.
  Z.to_euclidean_division_equations. lia.
Qed.
Lemma kind_digits s t : Forall (fun c => is_digit c = true) s → addr_kind (s ++ dot :: t) = Some dot.
Proof.
  induction 1 as [|c s Hc _ IH]; [done|]. cbn [app addr_kind]. rewrite decide_False; [done|].
  intros [-> | [-> | ->]]; done.
Qed.
Lemma parse_string4 x : 0 ≤ x < 2 ^ 32 → ParseAddr (string4 x) = Some (Addr4 x).
Proof.
  intros Hx. pose proof (v4_range x 0 ltac:(lia)). pose proof (v4_range x 1 ltac:(lia)).
  pose proof (v4_range x 2 ltac:(lia)). pose proof (v4_range x 3 ltac:(lia)).
  unfold ParseAddr, string4. rewrite kind_digits by (apply FormatUint_digits; lia). rewrite decide_True by done.
  unfold parseIPv4.
  destruct (fields_octet_Z (v4 x 0) (dot :: FormatUint (v4 x 1) ++ dot :: FormatUint (v4 x 2) ++ dot :: FormatUint (v4 x 3)) []) as [k0 ->]; [done|].
  rewrite fields_dot by (simpl; lia).
  destruct (fields_octet_Z (v4 x 1) (dot :: FormatUint (v4 x 2) ++ dot :: FormatUint (v4 x 3)) ([] ++ [v4 x 0])) as [k1 ->]; [done|].
  rewrite fields_dot by (simpl; lia).
  destruct (fields_octet_Z (v4 x 2) (dot :: FormatUint (v4 x 3)) (([] ++ [v4 x 0]) ++ [v4 x 1])) as [k2 ->]; [done|].
  rewrite fields_dot by (simpl; lia).
  destruct (fields_octet_Z (v4 x 3) [] ((([] ++ [v4 x 0]) ++ [v4 x 1]) ++ [v4 x 2])) as [k3 Hk]; [done|].
  rewrite app_nil_r in Hk. rewrite Hk.
  change (Some (AddrFrom4 (z2b <$> [v4 x 0; v4 x 1; v4 x 2; v4 x 3])) = Some (Addr4 x)).
  unfold AddrFrom4. by rewrite v4_join.
Qed.
