(* ===== verification/ExitNode.v ===== *)
(** * Exit node: classification, routes and the default gateway

    src/internal/exitnode: classify.go, routes.go, gateway.go and the commands of
    cmd.go.  Every change of the host is a command built by a pure function; the
    host that runs it is modelled where the client uses it.  Text is bytes, times
    are nanoseconds, the zero time is [None]. *)

From S2P Require Import Prelude GoStr DeviceModel Netip.

(** ** classify.go *)

Definition cgnat : Prefix := MkPrefix (Addr4 0x64400000) 10.

Definition IsInternet (a : Addr) : bool :=
  let a := Unmap a in
  if negb (IsGlobalUnicast a) || IsPrivate a then false
  else if Is4 a then negb (prefix_contains cgnat a)
  else true.

(** Source and destination of an IP packet. *)
Definition PacketAddrs (pkt : bytes) : option (Addr * Addr) :=
  match pkt with
  | [] => None
  | b :: _ =>
      let version := Z.shiftr (b2z b) 4 in
      if version =? 4 then
        if (length pkt <? 20)%nat then None
        else Some (AddrFrom4 (slice 12 16 pkt), AddrFrom4 (slice 16 20 pkt))
      else if version =? 6 then
        if (length pkt <? 40)%nat then None
        else Some (AddrFrom16 (slice 8 24 pkt), AddrFrom16 (slice 24 40 pkt))
      else None
  end.

Definition HandshakeStaleAfter : Z := 200 * 10 ^ 9.

Inductive ClientPhase := PhaseOff | PhasePending | PhaseActive | PhaseStandby.
#[export] Instance ClientPhase_eq_dec : EqDecision ClientPhase.
Proof. solve_decision. Defined.
Definition phase_text (p : ClientPhase) : bytes :=
  match p with
  | PhaseOff => bs "off" | PhasePending => bs "pending" | PhaseActive => bs "active" | PhaseStandby => bs "standby"
  end.

Record PathHealth := MkHealth
  { hListed : bool; hDirect : bool; hLastHandshake : option Z; hOffered : option bool; hGranted : bool }.

Definition stale (last : option Z) (now : Z) : bool :=
  match last with None => true | Some t => HandshakeStaleAfter <? now - t end.

Definition NextPhase (h : PathHealth) (now : Z) : ClientPhase * bytes :=
  if negb (hListed h) then (PhaseStandby, bs "exit peer is offline or no longer in this network")
  else if bool_decide (hOffered h = Some false) then
    (PhaseStandby, bs "exit peer has not enabled exit-node (run `sudo wantasticd exit-node on` there)")
  else if negb (hDirect h) then
    (PhaseStandby, bs "no direct path to the exit peer yet (relayed exit traffic needs hub support); routing normally")
  else if stale (hLastHandshake h) now then
    (PhaseStandby, bs "direct path to the exit peer is stale; routing normally")
  else if negb (hGranted h) then (PhasePending, bs "waiting for the exit peer to confirm")
  else (PhaseActive, []).

(** ** routes.go *)

Inductive RouteKind := RouteTunnel | RouteBypass | RouteReject.
#[export] Instance RouteKind_eq_dec : EqDecision RouteKind.
Proof. solve_decision. Defined.
Definition kind_text (k : RouteKind) : bytes :=
  match k with RouteTunnel => bs "tunnel" | RouteBypass => bs "bypass" | RouteReject => bs "reject" end.

Record Route := MkRoute { Dst : Prefix; Kind : RouteKind }.
#[export] Instance Route_eq_dec : EqDecision Route.
Proof. solve_decision. Defined.
Definition key (r : Route) : bytes := kind_text (Kind r) ++ z2b 32 :: prefix_String (Dst r).

Record Gateway := MkGateway { gwInterface : bytes; gwAddr : Addr; gwIfIndex : Z }.
#[export] Instance Gateway_eq_dec : EqDecision Gateway.
Proof. solve_decision. Defined.
Definition no_gateway : Gateway := MkGateway [] AddrNone 0.
Definition gw_Valid (g : Gateway) : bool := negb (bool_decide (gwInterface g = [])) || IsValid (gwAddr g).

(** [0.0.0.0/1], [128.0.0.0/1]; [::/1], [8000::/1] *)
Definition splitV4 : list Prefix := [MkPrefix (Addr4 0) 1; MkPrefix (Addr4 (2 ^ 31)) 1].
Definition splitV6 : list Prefix := [MkPrefix (Addr6 0 []) 1; MkPrefix (Addr6 (2 ^ 127) []) 1].

Record ClientPlan := MkPlan
  { plBypass : list Addr; plOnLink : option (Addr → bool); plOverlay : list Prefix;
    plBlockIPv6 : bool; plMaxBypass : Z }.

Definition bypassable (a : Addr) : bool :=
  IsValid a && negb (IsUnspecified a) && negb (IsLoopback a) && negb (IsMulticast a)
  && negb (IsLinkLocalUnicast a) && negb (bool_decide (a = IPv4Broadcast)).

Definition inAny (a : Addr) (prefixes : list Prefix) : bool :=
  existsb (fun p => (0 <? pBits p) && prefix_contains p a) prefixes.

Definition on_link (p : ClientPlan) (a : Addr) : bool :=
  match plOnLink p with Some f => f a | None => false end.
Fixpoint bypass_loop (p : ClientPlan) (seen : gset Addr) (bypass : list Addr) (l : list Addr) : list Addr :=
  match l with
  | [] => bypass
  | a :: l =>
      let a := Unmap a in
      if negb (Is4 a) || bool_decide (a ∈ seen) || negb (bypassable a) then bypass_loop p seen bypass l
      else if inAny a (plOverlay p) || on_link p a then bypass_loop p seen bypass l
      else bypass_loop p ({[a]} ∪ seen) (bypass ++ [a]) l
  end.
Definition bypass_max (p : ClientPlan) : nat :=
  Z.to_nat (if plMaxBypass p <=? 0 then 64 else plMaxBypass p).
Definition PlanClientRoutes (p : ClientPlan) : list Route :=
  let bypass := merge_sort addr_le (bypass_loop p ∅ [] (plBypass p)) in
  let bypass := if (bypass_max p <? length bypass)%nat then take (bypass_max p) bypass else bypass in
  ((fun a => MkRoute (PrefixFrom a 32) RouteBypass) <$> bypass)
  ++ ((fun d => MkRoute d RouteTunnel) <$> splitV4)
  ++ (if plBlockIPv6 p then (fun d => MkRoute d RouteReject) <$> splitV6 else []).

(** What to add and, in reverse order of installation, what to remove. *)
Definition DiffRoutes (current desired : list Route) : list Route * list Route :=
  (filter (fun r => key r ∉ key <$> current) desired,
   filter (fun r => key r ∉ key <$> desired) (reverse current)).

Record Cmd := MkCmd { cName : bytes; cArgs : list bytes; cStdin : bytes }.
#[export] Instance Cmd_eq_dec : EqDecision Cmd.
Proof. solve_decision. Defined.

Definition family (r : Route) : bytes := if Is6 (pAddr (Dst r)) then bs "-inet6" else bs "-inet".
Definition no_gateway_for (dst : bytes) : bytes := bs "no gateway for bypass route " ++ dst.
Definition quote (s : bytes) : bytes := z2b 34 :: s ++ [z2b 34].
Definition unsupported_route (r : Route) (goos : bytes) : bytes :=
  bs "routes of kind " ++ quote (kind_text (Kind r)) ++ bs " are not supported on " ++ goos.

Definition route_darwin (r : Route) (tun : bytes) (gw : Gateway) (add : bool) : res bytes Cmd :=
  let dst := prefix_String (Masked (Dst r)) in
  let op := if add then bs "add" else bs "delete" in
  let cmd args := Ok (MkCmd (bs "/sbin/route") (bs "-n" :: args) []) in
  match Kind r with
  | RouteTunnel => cmd [op; family r; dst; bs "-interface"; tun]
  | RouteBypass =>
      if IsValid (gwAddr gw) then cmd [op; family r; dst; addr_String (gwAddr gw)]
      else if bool_decide (gwInterface gw = []) then Err (no_gateway_for dst)
      else cmd [op; family r; dst; bs "-interface"; gwInterface gw]
  | RouteReject =>
      if add then cmd [bs "add"; family r; dst; bs "::1"; bs "-reject"]
      else cmd [bs "delete"; family r; dst]
  end.
Definition route_linux (r : Route) (tun : bytes) (gw : Gateway) (add : bool) : res bytes Cmd :=
  let dst := prefix_String (Masked (Dst r)) in
  let op := if add then bs "replace" else bs "del" in
  let cmd args := Ok (MkCmd (bs "ip") args []) in
  match Kind r with
  | RouteTunnel => cmd [bs "route"; op; dst; bs "dev"; tun]
  | RouteBypass =>
      let args := [bs "route"; op; dst]
        ++ (if IsValid (gwAddr gw) then [bs "via"; addr_String (gwAddr gw)] else [])
        ++ (if bool_decide (gwInterface gw = []) then [] else [bs "dev"; gwInterface gw]) in
      if (length args =? 3)%nat then Err (no_gateway_for dst) else cmd args
  | RouteReject => cmd [bs "-6"; bs "route"; op; bs "unreachable"; dst]
  end.
Definition route_windows (r : Route) (tun : bytes) (gw : Gateway) (add : bool) : res bytes Cmd :=
  let dst := prefix_String (Masked (Dst r)) in
  let op := if add then bs "add" else bs "delete" in
  let cmd args := Ok (MkCmd (bs "netsh") ([bs "interface"; bs "ipv4"; op; bs "route"; bs "prefix=" ++ dst] ++ args) []) in
  match Kind r with
  | RouteTunnel => cmd ([bs "interface=" ++ tun] ++ if add then [bs "metric=5"; bs "store=active"] else [])
  | RouteBypass =>
      if (gwIfIndex gw <=? 0) || negb (IsValid (gwAddr gw)) then Err (no_gateway_for dst)
      else cmd ([bs "interface=" ++ Itoa (gwIfIndex gw); bs "nexthop=" ++ addr_String (gwAddr gw)]
                ++ if add then [bs "store=active"] else [])
  | RouteReject => Err (bs "IPv6 reject routes are not supported on Windows")
  end.
Definition routeCmd (goos : bytes) (r : Route) (tun : bytes) (gw : Gateway) (add : bool) : res bytes Cmd :=
  if decide (goos = bs "darwin") then route_darwin r tun gw add
  else if decide (goos = bs "linux") then route_linux r tun gw add
  else if decide (goos = bs "windows") then route_windows r tun gw add
  else Err (unsupported_route r goos).
Definition RouteAddCmd goos r tun gw := routeCmd goos r tun gw true.
Definition RouteDelCmd goos r tun gw := routeCmd goos r tun gw false.

(** ** Text helpers of the standard library *)

(** strings.Fields *)
Fixpoint fields_loop (fuel : nat) (cur s : bytes) : list bytes :=
  match fuel with
  | O => []
  | S fuel =>
      match s with
      | [] => if decide (cur = []) then [] else [cur]
      | c :: rest =>
          match space_front s with
          | O => fields_loop fuel (cur ++ [c]) rest
          | n => (if decide (cur = []) then [] else [cur]) ++ fields_loop fuel [] (drop n s)
          end
      end
  end.
Definition Fields (s : bytes) : list bytes := fields_loop (S (length s)) [] s.
(** The lines of bufio.Scanner: a final empty line is none, a carriage return
    before the newline goes, and a line beyond the buffer ends the scan. *)
Definition newline : byte := z2b 10.
Definition drop_cr (l : bytes) : bytes := TrimSuffix l [z2b 13].
Fixpoint take_short (ls : list bytes) : list bytes :=
  match ls with [] => [] | l :: ls => if (length l <? 65536)%nat then drop_cr l :: take_short ls else [] end.
Definition scan_lines (s : bytes) : list bytes :=
  let ls := Split s newline in
  take_short (if decide (last ls = Some []) then take (length ls - 1) ls else ls).
(** ParseUint(s, 16, 32): the value and whether there is no error. *)
Fixpoint hex_loop (acc : Z) (s : bytes) : Z * bool :=
  match s with
  | [] => (acc, true)
  | c :: s =>
      match hexval c with
      | None => (0, false)
      | Some d => let n := acc * 16 + d in if 2 ^ 32 - 1 <? n then (2 ^ 32 - 1, false) else hex_loop n s
      end
  end.
Definition ParseHex32 (s : bytes) : Z * bool := match s with [] => (0, false) | _ => hex_loop 0 s end.
(** The value Atoi returns beside an error: 0, or the bound that was passed. *)
Fixpoint overflows (acc : Z) (s : bytes) : bool :=
  match s with
  | [] => false
  | c :: s => if negb (is_digit c) then false
              else let n := acc * 10 + (b2z c - 48) in if 2 ^ 64 <=? n then true else overflows n s
  end.
Definition atoi_value (s : bytes) : Z :=
  match Atoi s with
  | Some n => n
  | None =>
      let neg := match s with c :: _ => b2z c =? 45 | [] => false end in
      let body := match s with c :: t => if neg || (b2z c =? 43) then t else s | [] => [] end in
      if overflows 0 body || (if ParseUint body 64 then true else false)
      then (if neg then - 2 ^ 63 else 2 ^ 63 - 1) else 0
  end.
Definition CutPrefix (s p : bytes) : option bytes := if HasPrefix s p then Some (drop (length p) s) else None.

(** ** gateway.go *)

Definition DarwinDefaultGatewayCmd : Cmd := MkCmd (bs "/sbin/route") [bs "-n"; bs "get"; bs "default"] [].

Definition darwin_line (gw : Gateway) (line : bytes) : Gateway :=
  let line := TrimSpace line in
  let gw := match CutPrefix line (bs "interface:") with
            | Some v => MkGateway (TrimSpace v) (gwAddr gw) (gwIfIndex gw) | None => gw end in
  match CutPrefix line (bs "gateway:") with
  | Some v => match ParseAddr (TrimSpace v) with
              | Some a => MkGateway (gwInterface gw) a (gwIfIndex gw) | None => gw end
  | None => gw
  end.
(** The gateway it read and, when it has no interface, the error beside it. *)
Definition ParseDarwinRouteGet (out : bytes) : res bytes Gateway :=
  let gw := foldl darwin_line no_gateway (Split out newline) in
  if decide (gwInterface gw = []) then Err (bs "no default route") else Ok gw.

Definition linux_line (tun : bytes) (st : Z * Gateway) (line : bytes) : Z * Gateway :=
  let '(best, gw) := st in
  match Fields line with
  | f0 :: f1 :: f2 :: f3 :: _ :: _ :: f6 :: f7 :: _ =>
      if negb (bool_decide (f1 = bs "00000000")) || negb (bool_decide (f7 = bs "00000000")) || bool_decide (f0 = tun)
      then st else
      let flags := (ParseHex32 f3).1 in
      if Z.land flags 1 =? 0 then st else
      let metric := atoi_value f6 in
      if (0 <=? best) && (best <=? metric) then st else
      let '(raw, ok) := ParseHex32 f2 in
      if negb ok then st else
      (metric,
       MkGateway f0 (if raw =? 0 then AddrNone
                     else AddrFrom4 (z2b <$> [raw; Z.shiftr raw 8; Z.shiftr raw 16; Z.shiftr raw 24])) 0)
  | _ => st
  end.
Definition ParseLinuxProcRoute (data tun : bytes) : res bytes Gateway :=
  let '(best, gw) := foldl (linux_line tun) (-1, no_gateway) (drop 1 (scan_lines data)) in
  if best <? 0 then Err (bs "no IPv4 default route") else Ok gw.

Section Gateway.
Context `{UnicodeCase}.

Definition windows_line (tun : bytes) (st : Z * Gateway) (line : bytes) : Z * Gateway :=
  let '(best, gw) := st in
  match Fields (TrimSpace line) with
  | f0 :: f1 :: f2 :: alias =>
      match Atoi f0 with
      | None => st
      | Some idx =>
          if idx <=? 0 then st else
          match ParseAddr f1 with
          | None => st
          | Some a =>
              if negb (Is4 a) || IsUnspecified a then st else
              match Atoi f2 with
              | None => st
              | Some metric =>
                  let alias := Join alias (z2b 32) in
                  if negb (bool_decide (tun = [])) && EqualFold alias tun then st
                  else if (0 <=? best) && (best <=? metric) then st
                  else (metric, MkGateway alias a idx)
              end
          end
      end
  | _ => st
  end.
Definition ParseWindowsGateway (out tun : bytes) : res bytes Gateway :=
  let '(best, gw) := foldl (windows_line tun) (-1, no_gateway) (Split out newline) in
  if best <? 0 then Err (bs "no IPv4 default route outside the tunnel") else Ok gw.
End Gateway.
