(* ===== verification/ExitNat.v ===== *)
(** * Exit node: forwarding and NAT

    src/internal/exitnode/nat.go and cmd.go.  Code that acts on the host is a
    computation over the host's state: it ends with a value, an error or a panic,
    and what it did to the host stays done in all three cases.  An error returned
    at once is the computation's error; one that is looked at is [attempt]ed. *)

From S2P Require Import Prelude GoStr DeviceModel Netip ExitNode.

Definition M (S A : Type) : Type := S → S * res bytes A.
#[export] Instance M_ret S : MRet (M S) := fun A a s => (s, Ok a).
#[export] Instance M_bind S : MBind (M S) := fun A B f m s =>
  match m s with (s', Ok a) => f a s' | (s', Err e) => (s', Err e) | (s', Panic) => (s', Panic) end.
Definition fail {S A} (e : bytes) : M S A := fun s => (s, Err e).
Definition attempt {S A} (m : M S A) : M S (A + bytes) := fun s =>
  match m s with (s', Ok a) => (s', Ok (inl a)) | (s', Err e) => (s', Ok (inr e)) | (s', Panic) => (s', Panic) end.
(** [_ = m], [_, _ = m]: the outcome is not looked at. *)
Definition ignore {S A} (m : M S A) : M S () := fun s =>
  match m s with (s', Panic) => (s', Panic) | (s', _) => (s', Ok ()) end.
(** [fmt.Errorf("...: %w", err)] around a call. *)
Definition wrap_err {S A} (what : bytes) (m : M S A) : M S A := fun s =>
  match m s with (s', Err e) => (s', Err (what ++ bs ": " ++ e)) | r => r end.
Definition skip {S} : M S () := mret ().

(** ** cmd.go: the host *)

Class Host (W : Type) : Type := {
  hOS : bytes;
  hRun : Cmd → M W bytes;
  hReadFile : bytes → M W bytes;
  hWriteFile : bytes → bytes → M W ();
  hExists : W → bytes → bool }.

(** ** Plans *)

Inductive NATBackend := BackendPF | BackendIPTables | BackendFW4 | BackendNft | BackendUserspace.
#[export] Instance NATBackend_eq_dec : EqDecision NATBackend.
Proof. solve_decision. Defined.
Inductive Mode := ModeExit | ModeClient.
#[export] Instance Mode_eq_dec : EqDecision Mode.
Proof. solve_decision. Defined.
Definition mode_text (m : Mode) : bytes := match m with ModeExit => bs "exit" | ModeClient => bs "client" end.

Definition PFAnchor : bytes := bs "com.apple/wantasticd-exit".

Record NATPlan := MkNATPlan
  { nBackend : NATBackend; nMode : Mode; nTun : bytes; nUplink : bytes; nSources : list Prefix; nOwn : Addr }.

(** [^[A-Za-z0-9_.:@-]{1,15}$] *)
Definition if_char (c : byte) : bool :=
  let z := b2z c in
  ((65 <=? z) && (z <=? 90)) || ((97 <=? z) && (z <=? 122)) || is_digit c
  || existsb (Z.eqb z) [95; 46; 58; 64; 45].
Definition ifNameRE (s : bytes) : bool :=
  (1 <=? length s)%nat && (length s <=? 15)%nat && forallb if_char s.

Definition validate (p : NATPlan) : res bytes () :=
  if negb (ifNameRE (nTun p)) then Err (bs "invalid tunnel interface " ++ quote (nTun p)) else
  match nMode p with
  | ModeExit =>
      if negb (ifNameRE (nUplink p)) then Err (bs "invalid uplink interface " ++ quote (nUplink p))
      else if (length (nSources p) =? 0)%nat then Err (bs "no overlay source prefixes")
      else match List.find (fun s => negb (prefix_valid s) || negb (Is4 (pAddr s)) || (pBits s =? 0)) (nSources p) with
           | Some s => Err (bs "invalid source prefix " ++ prefix_String s)
           | None => Ok ()
           end
  | ModeClient => if negb (Is4 (nOwn p)) then Err (bs "client NAT needs the device's overlay IPv4") else Ok ()
  end.
Definition tag (p : NATPlan) : bytes := bs "wantasticd-" ++ mode_text (nMode p).

(** ** pf *)

Definition line (parts : list bytes) : bytes := concat parts ++ [newline].
Definition masked_text (s : Prefix) : bytes := prefix_String (Masked s).
Definition PFRules (p : NATPlan) : bytes :=
  concat ((fun s => line [bs "nat on "; nUplink p; bs " inet from "; masked_text s; bs " to any -> ("; nUplink p; bs ")"])
          <$> nSources p).
Definition pfctl (args : list bytes) (stdin : bytes) : Cmd := MkCmd (bs "/sbin/pfctl") args stdin.
Definition PFLoadCmd (p : NATPlan) : Cmd := pfctl [bs "-a"; PFAnchor; bs "-f"; bs "-"] (PFRules p).
Definition PFFlushCmd : Cmd := pfctl [bs "-a"; PFAnchor; bs "-F"; bs "all"] [].
Definition PFShowNATCmd : Cmd := pfctl [bs "-a"; PFAnchor; bs "-s"; bs "nat"] [].
Definition PFEnableCmd : Cmd := pfctl [bs "-E"] [].
Definition PFReleaseCmd (token : bytes) : Cmd := pfctl [bs "-X"; token] [].

(** [\s] of a regular expression *)
Definition re_space (c : byte) : bool := existsb (Z.eqb (b2z c)) [9; 10; 12; 13; 32].
Fixpoint span (f : byte → bool) (s : bytes) : bytes * bytes :=
  match s with
  | [] => ([], [])
  | c :: t => if f c then let '(a, b) := span f t in (c :: a, b) else ([], s)
  end.
Definition skip_space (s : bytes) : bytes := (span re_space s).2.
(** [Token\s*:\s*(\d+)] at the front of [s] *)
Definition token_here (s : bytes) : option bytes :=
  s ← CutPrefix s (bs "Token");
  s ← CutPrefix (skip_space s) (bs ":");
  match span is_digit (skip_space s) with ([], _) => None | (ds, _) => Some ds end.
(** [(?m)^...]: at the beginning or after a newline *)
Fixpoint token_search (s : bytes) : option bytes :=
  match s with
  | [] => None
  | c :: t => match (if decide (c = newline) then token_here t else None) with Some ds => Some ds | None => token_search t end
  end.
Definition ParsePFToken (out : bytes) : bytes :=
  match token_here out with Some ds => ds | None => default [] (token_search out) end.

(** ** iptables *)

Record IPTRule := MkIPT { rTable : bytes; rChain : bytes; rInsert : bool; rArgs : list bytes }.
#[export] Instance IPTRule_eq_dec : EqDecision IPTRule.
Proof. solve_decision. Defined.

Definition source_rules (p : NATPlan) (s : Prefix) : list IPTRule :=
  let src := masked_text s in
  [MkIPT (bs "nat") (bs "POSTROUTING") false [bs "-s"; src; bs "-o"; nUplink p; bs "-j"; bs "MASQUERADE"];
   MkIPT (bs "filter") (bs "FORWARD") true [bs "-i"; nTun p; bs "-o"; nUplink p; bs "-s"; src; bs "-j"; bs "ACCEPT"];
   MkIPT (bs "filter") (bs "FORWARD") true
     [bs "-i"; nUplink p; bs "-o"; nTun p; bs "-d"; src; bs "-m"; bs "conntrack"; bs "--ctstate"; bs "RELATED,ESTABLISHED"; bs "-j"; bs "ACCEPT"]].
Definition IPTablesRules (p : NATPlan) : list IPTRule :=
  match nMode p with
  | ModeClient =>
      [MkIPT (bs "nat") (bs "POSTROUTING") false
         [bs "-o"; nTun p; bs "!"; bs "-s"; addr_String (nOwn p) ++ bs "/32"; bs "-j"; bs "MASQUERADE"]]
  | ModeExit => nSources p ≫= source_rules p
  end.
Definition CheckCmd (bin : bytes) (r : IPTRule) : Cmd := MkCmd bin ([bs "-t"; rTable r; bs "-C"; rChain r] ++ rArgs r) [].
Definition AddCmd (bin : bytes) (r : IPTRule) : Cmd :=
  if rInsert r then MkCmd bin ([bs "-t"; rTable r; bs "-I"; rChain r; bs "1"] ++ rArgs r) []
  else MkCmd bin ([bs "-t"; rTable r; bs "-A"; rChain r] ++ rArgs r) [].
Definition DelCmd (bin : bytes) (r : IPTRule) : Cmd := MkCmd bin ([bs "-t"; rTable r; bs "-D"; rChain r] ++ rArgs r) [].

(** ** nftables *)

Definition fw4_comment (p : NATPlan) : bytes := bs "comment " ++ quote (tag p).
Definition FW4Script (p : NATPlan) : bytes :=
  let c := fw4_comment p in
  let rule parts := line (bs "insert rule inet fw4 " :: parts ++ [c]) in
  match nMode p with
  | ModeClient =>
      rule [bs "forward oifname "; quote (nTun p); bs " counter accept "]
      ++ rule [bs "forward iifname "; quote (nTun p); bs " ct state established,related counter accept "]
      ++ rule [bs "srcnat oifname "; quote (nTun p); bs " ip saddr != "; addr_String (nOwn p); bs " counter masquerade "]
  | ModeExit =>
      concat ((fun s =>
        let src := masked_text s in
        rule [bs "forward iifname "; quote (nTun p); bs " oifname "; quote (nUplink p); bs " ip saddr "; src; bs " counter accept "]
        ++ rule [bs "forward iifname "; quote (nUplink p); bs " oifname "; quote (nTun p); bs " ip daddr "; src;
                 bs " ct state established,related counter accept "]
        ++ rule [bs "srcnat oifname "; quote (nUplink p); bs " ip saddr "; src; bs " counter masquerade "]) <$> nSources p)
  end.
Definition fw4RuleCount (p : NATPlan) : nat :=
  match nMode p with ModeClient => 3 | ModeExit => 3 * length (nSources p) end.

Definition nft (args : list bytes) (stdin : bytes) : Cmd := MkCmd (bs "nft") args stdin.
Definition NftScriptCmd (script : bytes) : Cmd := nft [bs "-f"; bs "-"] script.
Definition FW4ListCmd : Cmd := nft [bs "-a"; bs "list"; bs "table"; bs "inet"; bs "fw4"] [].
Definition FW4DeleteCmd (chain : bytes) (handle : Z) : Cmd :=
  nft [bs "delete"; bs "rule"; bs "inet"; bs "fw4"; chain; bs "handle"; Itoa handle] [].

Record NftHandle := MkNftHandle { hChain : bytes; hHandle : Z }.

(** [^\s*chain\s+(\S+)\s*\{]: the name is as long as a brace after it allows. *)
Definition lbrace : byte := z2b 123.
Definition nftChainRE (l : bytes) : option bytes :=
  s ← CutPrefix (skip_space l) (bs "chain");
  match span re_space s with
  | ([], _) => None
  | (_, s) =>
      let '(name, rest) := span (fun c => negb (re_space c)) s in
      if HasPrefix (skip_space rest) [lbrace] && negb (bool_decide (name = [])) then Some name else
      let k := LastIndexByte name lbrace in
      if 1 <=? k then Some (take (Z.to_nat k) name) else None
  end.
(** [#\s*handle\s+(\d+)\s*$], leftmost *)
Definition handle_here (s : bytes) : option bytes :=
  s ← CutPrefix s (bs "#");
  s ← CutPrefix (skip_space s) (bs "handle");
  match span re_space s with
  | ([], _) => None
  | (_, s) =>
      match span is_digit s with
      | ([], _) => None
      | (ds, rest) => if decide (skip_space rest = []) then Some ds else None
      end
  end.
Fixpoint nftHandleRE (s : bytes) : option bytes :=
  match handle_here s with
  | Some ds => Some ds
  | None => match s with [] => None | _ :: t => nftHandleRE t end
  end.

Definition handle_line (needle : bytes) (st : bytes * list NftHandle) (l : bytes) : bytes * list NftHandle :=
  let '(chain, out) := st in
  match nftChainRE l with
  | Some c => (c, out)
  | None =>
      if bool_decide (chain = []) || negb (Contains l needle) then st else
      match nftHandleRE l with
      | Some ds => (chain, out ++ [MkNftHandle chain (atoi_value ds)])
      | None => st
      end
  end.
Definition ParseNftHandles (out tag : bytes) : list NftHandle :=
  (foldl (handle_line (bs "comment " ++ quote tag)) ([], []) (Split out newline)).2.

Definition nftTableName (p : NATPlan) : bytes := bs "wantasticd_" ++ mode_text (nMode p).
Definition tab : byte := z2b 9.
Definition NftTableScript (p : NATPlan) : bytes :=
  let name := nftTableName p in
  let rule parts := [tab; tab] ++ line parts in
  line [bs "table ip "; name; bs " {"] ++ line [bs "}"] ++ line [bs "delete table ip "; name]
  ++ line [bs "table ip "; name; bs " {"]
  ++ tab :: line [bs "chain forward {"] ++ rule [bs "type filter hook forward priority -5; policy accept;"]
  ++ match nMode p with
     | ModeClient =>
         rule [bs "oifname "; quote (nTun p); bs " accept"]
         ++ rule [bs "iifname "; quote (nTun p); bs " ct state established,related accept"]
     | ModeExit =>
         concat ((fun s =>
           rule [bs "iifname "; quote (nTun p); bs " oifname "; quote (nUplink p); bs " ip saddr "; masked_text s; bs " accept"]
           ++ rule [bs "iifname "; quote (nUplink p); bs " oifname "; quote (nTun p); bs " ip daddr "; masked_text s;
                    bs " ct state established,related accept"]) <$> nSources p)
     end
  ++ tab :: line [bs "}"] ++ tab :: line [bs "chain postrouting {"]
  ++ rule [bs "type nat hook postrouting priority 100; policy accept;"]
  ++ match nMode p with
     | ModeClient => rule [bs "oifname "; quote (nTun p); bs " ip saddr != "; addr_String (nOwn p); bs " masquerade"]
     | ModeExit =>
         concat ((fun s => rule [bs "oifname "; quote (nUplink p); bs " ip saddr "; masked_text s; bs " masquerade"]) <$> nSources p)
     end
  ++ tab :: line [bs "}"] ++ line [bs "}"].
Definition NftTableDeleteCmd (p : NATPlan) : Cmd := nft [bs "delete"; bs "table"; bs "ip"; nftTableName p] [].
Definition NftTableListCmd (p : NATPlan) : Cmd := nft [bs "list"; bs "table"; bs "ip"; nftTableName p] [].

(** ** The manager *)

Definition linuxIPForward : bytes := bs "/proc/sys/net/ipv4/ip_forward".
Definition DarwinForwardGetCmd : Cmd := MkCmd (bs "/usr/sbin/sysctl") [bs "-n"; bs "net.inet.ip.forwarding"] [].
Definition DarwinForwardSetCmd (v : bytes) : Cmd :=
  MkCmd (bs "/usr/sbin/sysctl") [bs "-w"; bs "net.inet.ip.forwarding=" ++ v] [].

Record NATState := MkNATState { nPlan : NATPlan; nPFToken : bytes; nPrevForward : bytes }.
Definition zero : bytes := bs "0".
Definition one : bytes := bs "1".

Section Manager.
Context {W : Type} `{!Host W}.

Definition firstExisting (fallback : bytes) (paths : list bytes) : M W bytes := fun w =>
  (w, Ok (default fallback (List.find (hExists w) paths))).
Definition iptablesBin : M W bytes :=
  firstExisting (bs "iptables")
    [bs "/usr/sbin/iptables"; bs "/sbin/iptables"; bs "/usr/sbin/iptables-nft"; bs "/sbin/iptables-nft"].
Definition hasNft : M W bool := fun w =>
  (w, Ok (hExists w (bs "/usr/sbin/nft") || hExists w (bs "/sbin/nft") || hExists w (bs "/usr/bin/nft"))).

(** The lookups of [Exists] before and after the command see the same files
    unless the command changes them, which is the host's business. *)
Definition DetectBackend : M W NATBackend :=
  if decide (hOS = bs "darwin") then mret BackendUserspace
  else if decide (hOS = bs "linux") then
    nft1 ← hasNft;
    fw4 ← (if nft1 : bool then attempt (hRun (nft [bs "list"; bs "table"; bs "inet"; bs "fw4"] []))
           else mret (inr []));
    match fw4 with
    | inl _ => mret BackendFW4
    | inr _ =>
        bin ← iptablesBin;
        if negb (bool_decide (bin = bs "iptables")) then mret BackendIPTables else
        nft2 ← hasNft;
        if nft2 : bool then mret BackendNft else fail (bs "neither iptables nor nft is installed")
    end
  else if decide (hOS = bs "windows") then mret BackendUserspace
  else fail (bs "exit-node NAT is not supported on this platform (" ++ hOS ++ bs ")").

Definition removeFW4 (p : NATPlan) : M W () :=
  out ← attempt (hRun FW4ListCmd);
  match out with
  | inr _ => skip
  | inl out => foldr (fun x k => ignore (hRun (FW4DeleteCmd (hChain x) (hHandle x))) ;; k) skip (ParseNftHandles out (tag p))
  end.

Fixpoint apply_iptables (bin : bytes) (rules : list IPTRule) : M W () :=
  match rules with
  | [] => skip
  | r :: rules =>
      c ← attempt (hRun (CheckCmd bin r));
      match c with
      | inl _ => apply_iptables bin rules
      | inr _ => wrap_err (bs "iptables") (hRun (AddCmd bin r)) ;; apply_iptables bin rules
      end
  end.
(** The error, with the state as far as it got: the pf token is set in place. *)
Definition applyRules (st : NATState) : M W NATState :=
  let p := nPlan st in
  match nBackend p with
  | BackendPF =>
      match nMode p with
      | ModeClient => mret st
      | ModeExit =>
          wrap_err (bs "load pf anchor " ++ PFAnchor) (hRun (PFLoadCmd p)) ;;
          if decide (nPFToken st = []) then
            out ← wrap_err (bs "enable pf") (hRun PFEnableCmd);
            mret (MkNATState p (ParsePFToken out) (nPrevForward st))
          else mret st
      end
  | BackendIPTables => bin ← iptablesBin; apply_iptables bin (IPTablesRules p) ;; mret st
  | BackendFW4 => removeFW4 p ;; wrap_err (bs "nft fw4") (hRun (NftScriptCmd (FW4Script p))) ;; mret st
  | BackendNft => wrap_err (bs "nft") (hRun (NftScriptCmd (NftTableScript p))) ;; mret st
  | BackendUserspace => fail (bs "unknown NAT backend " ++ quote (bs "userspace"))
  end.

Definition enableForwarding : M W bytes :=
  if decide (hOS = bs "darwin") then
    out ← hRun DarwinForwardGetCmd;
    if decide (TrimSpace out = one) then mret one else hRun (DarwinForwardSetCmd one) ;; mret zero
  else if decide (hOS = bs "linux") then
    data ← hReadFile linuxIPForward;
    if decide (TrimSpace data = one) then mret one else hWriteFile linuxIPForward one ;; mret zero
  else fail (bs "not supported on this platform").
Definition restoreForwarding : M W () :=
  if decide (hOS = bs "darwin") then hRun (DarwinForwardSetCmd zero) ;; skip
  else if decide (hOS = bs "linux") then hWriteFile linuxIPForward zero
  else skip.

(** The first error noted, reported at the end. *)
Definition note (first : option bytes) (r : () + bytes) : option bytes :=
  match first, r with Some e, _ => Some e | None, inr e => Some e | None, inl _ => None end.
Definition report (first : option bytes) : M W () := match first with Some e => fail e | None => skip end.

(** Up to [n] copies of a rule. *)
Fixpoint delete_copies (n : nat) (bin : bytes) (r : IPTRule) (first : option bytes) : M W (option bytes) :=
  match n with
  | O => mret first
  | S n =>
      c ← attempt (hRun (CheckCmd bin r));
      match c with
      | inr _ => mret first
      | inl _ =>
          d ← attempt (hRun (DelCmd bin r) ;; skip);
          match d with inr _ => mret (note first d) | inl _ => delete_copies n bin r first end
      end
  end.
Fixpoint delete_rules (bin : bytes) (rules : list IPTRule) (first : option bytes) : M W (option bytes) :=
  match rules with
  | [] => mret first
  | r :: rules => first ← delete_copies 4 bin r first; delete_rules bin rules first
  end.
Definition removeRules (st : NATState) : M W (option bytes) :=
  let p := nPlan st in
  match nBackend p with
  | BackendPF =>
      f ← attempt (hRun PFFlushCmd ;; skip);
      (if decide (nPFToken st = []) then skip else ignore (hRun (PFReleaseCmd (nPFToken st)))) ;;
      mret (note None f)
  | BackendIPTables => bin ← iptablesBin; delete_rules bin (IPTablesRules p) None
  | BackendFW4 => removeFW4 p ;; mret None
  | BackendNft => ignore (hRun (NftTableDeleteCmd p)) ;; mret None
  | BackendUserspace => mret None
  end.
Definition DisableNAT (st : NATState) : M W () :=
  if decide (nBackend (nPlan st) = BackendUserspace) then skip else
  first ← removeRules st;
  if decide (nPrevForward st = zero) then r ← attempt restoreForwarding; report (note first r)
  else report first.

Definition of_res {A} (r : res bytes A) : M W A := fun w => (w, r).
(** On failure what was applied is rolled back; [applyRules] fails only before it
    sets the token, so the state rolled back is the one it was given. *)
Definition EnableNAT (plan : NATPlan) : M W NATState :=
  if decide (nBackend plan = BackendUserspace) then mret (MkNATState plan [] []) else
  of_res (validate plan) ;;
  prev ← (match nMode plan with
          | ModeExit => wrap_err (bs "enable IP forwarding") enableForwarding
          | ModeClient => mret []
          end);
  let st := MkNATState plan [] prev in
  r ← attempt (applyRules st);
  match r with
  | inl st => mret st
  | inr e => ignore (DisableNAT st) ;; fail e
  end.

Fixpoint rules_present (bin : bytes) (rules : list IPTRule) : M W bool :=
  match rules with
  | [] => mret true
  | r :: rules => c ← attempt (hRun (CheckCmd bin r)); match c with inl _ => rules_present bin rules | inr _ => mret false end
  end.
Definition nat_present (p : NATPlan) : M W bool :=
  match nBackend p with
  | BackendPF =>
      out ← attempt (hRun PFShowNATCmd);
      mret (match out with inl out => Contains out (bs "nat on") | inr _ => false end)
  | BackendIPTables => bin ← iptablesBin; rules_present bin (IPTablesRules p)
  | BackendFW4 =>
      out ← attempt (hRun FW4ListCmd);
      mret (match out with
            | inl out => (length (ParseNftHandles out (tag p)) =? fw4RuleCount p)%nat
            | inr _ => false end)
  | BackendNft => out ← attempt (hRun (NftTableListCmd p)); mret (match out with inl _ => true | inr _ => false end)
  | BackendUserspace => mret true
  end.
(** Whether a repair was needed, and the state after it. *)
Definition EnsureNAT (st : NATState) : M W (bool * NATState) :=
  if decide (nBackend (nPlan st) = BackendUserspace) then mret (false, st) else
  present ← nat_present (nPlan st);
  if present : bool then mret (false, st) else st' ← applyRules st; mret (true, st').

(** ** gateway.go *)

Context `{!UnicodeCase}.
Definition windows_script : bytes :=
  bs "Get-NetRoute -AddressFamily IPv4 -DestinationPrefix 0.0.0.0/0 -ErrorAction SilentlyContinue | ForEach-Object { $m = $_.RouteMetric; $i = Get-NetIPInterface -AddressFamily IPv4 -InterfaceIndex $_.ifIndex -ErrorAction SilentlyContinue; if ($i) { $m += $i.InterfaceMetric }; "
  ++ quote (bs "$($_.ifIndex) $($_.NextHop) $m $($_.InterfaceAlias)") ++ bs " }".
Definition WindowsDefaultGatewayCmd : Cmd :=
  MkCmd (bs "powershell.exe") [bs "-NoProfile"; bs "-NonInteractive"; bs "-Command"; windows_script] [].

Definition DefaultGateway (tun : bytes) : M W Gateway :=
  if decide (hOS = bs "darwin") then
    out ← hRun DarwinDefaultGatewayCmd;
    gw ← of_res (ParseDarwinRouteGet out);
    if decide (gwInterface gw = tun) then fail (bs "default route points into the tunnel") else mret gw
  else if decide (hOS = bs "linux") then
    data ← hReadFile (bs "/proc/net/route"); of_res (ParseLinuxProcRoute data tun)
  else if decide (hOS = bs "windows") then
    out ← hRun WindowsDefaultGatewayCmd; of_res (ParseWindowsGateway out tun)
  else fail (bs "default gateway lookup not supported on " ++ hOS).
End Manager.
