(* ===== verification/ExitNatProps.v ===== *)
(** * Exit node: NAT rules come and go without a trace

    On a Linux host with iptables: what [EnableNAT] applies, [DisableNAT] removes,
    and an [EnableNAT] that fails leaves the host as it was.  The host is seen
    through the number of copies of each rule and the forwarding switch; the laws
    say what the iptables commands and the switch's file do to them. *)

From S2P Require Import Prelude GoStr DeviceModel Netip ExitNode ExitNat.

(** A rule is found by its table, chain and arguments. *)
Definition rule_id (r : IPTRule) : bytes * bytes * list bytes := (rTable r, rChain r, rArgs r).

Class IptablesLaws (W : Type) `{!Host W} : Type := {
  copies : W → bytes * bytes * list bytes → nat;
  forward : W → bytes;
  linux_host : hOS = bs "linux";
  check_copies bin r w i : copies (hRun (CheckCmd bin r) w).1 i = copies w i;
  check_forward bin r w : forward (hRun (CheckCmd bin r) w).1 = forward w;
  check_outcome bin r w : match (hRun (CheckCmd bin r) w).2 with
                          | Ok _ => (0 < copies w (rule_id r))%nat | Err _ => copies w (rule_id r) = 0%nat | Panic => False end;
  add_copies bin r w i : copies (hRun (AddCmd bin r) w).1 i =
    match (hRun (AddCmd bin r) w).2 with
    | Ok _ => if decide (i = rule_id r) then S (copies w i) else copies w i | _ => copies w i end;
  add_forward bin r w : forward (hRun (AddCmd bin r) w).1 = forward w;
  add_outcome bin r w : (hRun (AddCmd bin r) w).2 ≠ Panic;
  del_copies bin r w i : (0 < copies w (rule_id r))%nat →
    copies (hRun (DelCmd bin r) w).1 i = if decide (i = rule_id r) then pred (copies w i) else copies w i;
  del_forward bin r w : forward (hRun (DelCmd bin r) w).1 = forward w;
  del_outcome bin r w : (0 < copies w (rule_id r))%nat → ∃ out, (hRun (DelCmd bin r) w).2 = Ok out;
  read_forward w : ∃ w', hReadFile linuxIPForward w = (w', Ok (forward w)) ∧ forward w' = forward w ∧ ∀ i, copies w' i = copies w i;
  write_forward b w : ∃ w', hWriteFile linuxIPForward b w = (w', Ok ()) ∧ forward w' = b ∧ ∀ i, copies w' i = copies w i }.

Section Nat.
Context {W : Type} `{!Host W} `{!IptablesLaws W}.
Implicit Types (w : W) (r : IPTRule).

Definition with_rules (D : list (bytes * bytes * list bytes)) w w' : Prop :=
  forward w' = forward w ∧ ∀ i, copies w' i = if decide (i ∈ D) then 1%nat else copies w i.

Lemma apply_spec bin rules : ∀ D w0 w,
  with_rules D w0 w → (∀ r, r ∈ rules → copies w0 (rule_id r) = 0%nat) →
  ∃ D' w' o, apply_iptables bin rules w = (w', o) ∧ with_rules D' w0 w' ∧ o ≠ Panic
    ∧ (∀ i, i ∈ D' → i ∈ D ∨ i ∈ rule_id <$> rules)
    ∧ (o = Ok () → ∀ i, i ∈ D' ↔ i ∈ D ∨ i ∈ rule_id <$> rules).
Proof.
  induction rules as [|r rules IH]; intros D w0 w Hw H0; cbn [apply_iptables].
  { exists D, w, (Ok ()). split; [done|]. split; [done|]. split; [done|]. split; set_solver. }
  unfold mbind, M_bind, attempt. pose proof (check_outcome bin r w) as Hc.
  pose proof (check_copies bin r w) as Hcc. pose proof (check_forward bin r w) as Hcf.
  destruct (hRun (CheckCmd bin r) w) as [w1 [out|er|]]; cbn [fst snd] in *; [| |done].
  - assert (Hw1 : with_rules D w0 w1) by (destruct Hw as [Hf Hi]; split; [congruence|intros i; by rewrite Hcc]).
    assert (Hin : rule_id r ∈ D).
    { destruct Hw as [_ Hi]. specialize (Hi (rule_id r)). case_decide; [done|]. rewrite H0 in Hi by set_solver. lia. }
    destruct (IH D w0 w1 Hw1) as (D' & w' & o & E & H1 & H2 & H3 & H4); [set_solver|].
    exists D', w', o. rewrite fmap_cons. split; [done|]. split; [done|]. split; [done|]. split; [set_solver|].
    intros Ho i. rewrite (H4 Ho i), elem_of_cons. split; [tauto|]. intros [?|[->|?]]; auto.
  - unfold wrap_err. pose proof (add_copies bin r w1) as Ha. pose proof (add_forward bin r w1) as Hf.
    pose proof (add_outcome bin r w1) as Hp. destruct (hRun (AddCmd bin r) w1) as [w2 [out|er2|]]; cbn [fst snd] in *; [| |done].
    + assert (Hw2 : with_rules (rule_id r :: D) w0 w2).
      { destruct Hw as [Hf0 Hi]. split; [congruence|]. intros i. rewrite Ha, Hcc, Hi. case_decide as Ei.
        - subst i. rewrite (decide_True (P:=rule_id r ∈ rule_id r :: D)) by set_solver. rewrite <- Hi, Hc. done.
        - destruct (decide (i ∈ D)); [rewrite decide_True by set_solver; done|].
          rewrite decide_False by set_solver. done. }
      destruct (IH (rule_id r :: D) w0 w2 Hw2) as (D' & w' & o & E & H1 & H2 & H3 & H4); [set_solver|].
      exists D', w', o. rewrite fmap_cons. split; [done|]. split; [done|]. split; [done|]. split.
      * intros i Hi. destruct (H3 i Hi) as [[->|?]%elem_of_cons|?]; set_solver.
      * intros Ho i. rewrite (H4 Ho i). set_solver.
    + exists D, w2. eexists. split; [done|]. split; [|split; [done|split; [set_solver|done]]].
      destruct Hw as [Hf0 Hi]. split; [congruence|]. intros i. by rewrite Ha, Hcc.
Qed.

Lemma copies_deleted n bin r w : (copies w (rule_id r) < n)%nat →
  ∃ w', delete_copies n bin r None w = (w', Ok None) ∧ forward w' = forward w
    ∧ ∀ i, copies w' i = if decide (i = rule_id r) then 0%nat else copies w i.
Proof.
  revert w. induction n as [|n IH]; intros w Hn; [lia|]. cbn [delete_copies]. unfold mbind, M_bind, attempt.
  pose proof (check_outcome bin r w) as Hc. pose proof (check_copies bin r w) as Hcc. pose proof (check_forward bin r w) as Hcf.
  destruct (hRun (CheckCmd bin r) w) as [w1 [out|er|]]; cbn [fst snd] in *; [| |done].
  - assert (Hpos : (0 < copies w1 (rule_id r))%nat) by (by rewrite Hcc).
    destruct (del_outcome bin r w1 Hpos) as [out2 Ho]. pose proof (λ i, del_copies bin r w1 i Hpos) as Hd.
    pose proof (del_forward bin r w1) as Hdf. destruct (hRun (DelCmd bin r) w1) as [w2 o2]; cbn [fst snd] in *. subst o2.
    cbn. destruct (IH w2) as (w' & E & Hf & Hi).
    { rewrite Hd, decide_True, Hcc by done. lia. }
    exists w'. split; [done|]. split; [congruence|]. intros i. rewrite Hi. case_decide; [done|].
    rewrite Hd, decide_False by done. by rewrite Hcc.
  - exists w1. split; [done|]. split; [done|]. intros i. rewrite Hcc. case_decide; [congruence|done].
Qed.
Lemma rules_deleted bin rules : ∀ w, (∀ r, r ∈ rules → copies w (rule_id r) ≤ 1)%nat →
  ∃ w', delete_rules bin rules None w = (w', Ok None) ∧ forward w' = forward w
    ∧ ∀ i, copies w' i = if decide (i ∈ rule_id <$> rules) then 0%nat else copies w i.
Proof.
  induction rules as [|r rules IH]; intros w Hle; cbn [delete_rules].
  { exists w. split; [done|]. split; [done|]. intros i. by rewrite decide_False by set_solver. }
  destruct (copies_deleted 4 bin r w) as (w1 & E & Hf & Hi); [specialize (Hle r ltac:(set_solver)); lia|].
  destruct (IH w1) as (w' & E' & Hf' & Hi').
  { intros x Hx. rewrite Hi. case_decide; [lia|]. apply Hle. set_solver. }
  exists w'. unfold mbind, M_bind. rewrite E. split; [done|]. split; [congruence|]. intros i. rewrite Hi', Hi, fmap_cons.
  destruct (decide (i ∈ rule_id <$> rules)); [by rewrite decide_True by set_solver|].
  destruct (decide (i = rule_id r)); [by rewrite decide_True by set_solver|]. by rewrite decide_False by set_solver.
Qed.

Definition restored w w' : Prop := TrimSpace (forward w') = TrimSpace (forward w) ∧ ∀ i, copies w' i = copies w i.
(** [wf] is [w] with forwarding switched on, [prev] what is remembered of it. *)
Definition forwarding (m : Mode) (prev : bytes) w wf : Prop :=
  (∀ i, copies wf i = copies w i)
  ∧ ((prev = zero ∧ TrimSpace (forward w) = zero ∧ forward wf = one) ∨ (prev ≠ zero ∧ forward wf = forward w))
  ∧ (m = ModeExit → TrimSpace (forward wf) = one).
Lemma forwarding_on w : TrimSpace (forward w) = zero ∨ TrimSpace (forward w) = one →
  ∃ wf prev, enableForwarding w = (wf, Ok prev) ∧ forwarding ModeExit prev w wf.
Proof.
  intros Hf. unfold enableForwarding. rewrite linux_host, decide_False, decide_True by done.
  destruct (read_forward w) as (w1 & E1 & Hf1 & Hc1). unfold mbind, M_bind. rewrite E1.
  destruct (decide (TrimSpace (forward w) = one)) as [Ho|Ho].
  - exists w1, one. split; [done|]. split; [done|]. split; [by right|]. intros _. by rewrite Hf1.
  - destruct (write_forward one w1) as (w2 & E2 & Hf2 & Hc2). rewrite E2. exists w2, zero. split; [done|].
    split; [intros i; by rewrite Hc2|]. split; [left; split; [done|]; split; [by destruct Hf|done]|]. intros _. by rewrite Hf2.
Qed.
Lemma disable_restores p tok prev m w wf w1 D :
  nBackend p = BackendIPTables → (∀ r, r ∈ IPTablesRules p → copies w (rule_id r) = 0%nat) →
  forwarding m prev w wf → with_rules D wf w1 → (∀ i, i ∈ D → i ∈ rule_id <$> IPTablesRules p) →
  ∃ w2, DisableNAT (MkNATState p tok prev) w1 = (w2, Ok ()) ∧ restored w w2.
Proof.
  intros Hb H0 (Hc & Hp & _) [Hf1 Hc1] HD. unfold DisableNAT. cbn [nPlan nPrevForward]. rewrite decide_False by (by rewrite Hb).
  unfold removeRules. cbn [nPlan]. rewrite Hb. unfold mbind, M_bind, iptablesBin, firstExisting.
  set (bin := default _ _). destruct (rules_deleted bin (IPTablesRules p) w1) as (w2 & E & Hf2 & Hc2).
  { intros r Hr. rewrite Hc1. case_decide; [lia|]. rewrite Hc, H0 by done. lia. }
  rewrite E. assert (Hcopies : ∀ i, copies w2 i = copies w i).
  { intros i. rewrite Hc2, Hc1, Hc. case_decide as Hi.
    - apply list_elem_of_fmap in Hi as (r & -> & Hr). by rewrite H0.
    - by rewrite decide_False by (intros Hd; by apply Hi, HD). }
  destruct Hp as [(-> & Hz & Hone)|[Hne Hsame]].
  - rewrite decide_True by done. unfold attempt, restoreForwarding. rewrite linux_host, decide_False, decide_True by done.
    destruct (write_forward zero w2) as (w3 & E3 & Hf3 & Hc3). rewrite E3. exists w3. split; [done|].
    split; [by rewrite Hf3, Hz|]. intros i. by rewrite Hc3.
  - rewrite decide_False by done. exists w2. split; [done|]. split; [by rewrite Hf2, Hf1, Hsame|done].
Qed.
Lemma apply_outcome p prev m w wf :
  nBackend p = BackendIPTables → (∀ r, r ∈ IPTablesRules p → copies w (rule_id r) = 0%nat) → forwarding m prev w wf →
  ∃ D w1, with_rules D wf w1 ∧ (∀ i, i ∈ D → i ∈ rule_id <$> IPTablesRules p)
    ∧ ((applyRules (MkNATState p [] prev) wf = (w1, Ok (MkNATState p [] prev)) ∧ ∀ i, i ∈ rule_id <$> IPTablesRules p → i ∈ D)
       ∨ ∃ e, applyRules (MkNATState p [] prev) wf = (w1, Err e)).
Proof.
  intros Hb H0 (Hc & _). unfold applyRules. cbn [nPlan]. rewrite Hb. unfold mbind, M_bind, iptablesBin, firstExisting.
  set (bin := default _ _). destruct (apply_spec bin (IPTablesRules p) [] wf wf) as (D & w1 & o & E & Hw & Hnp & HD & Hok).
  { split; [done|]. intros i. by rewrite decide_False by set_solver. }
  { intros r Hr. by rewrite Hc, H0. }
  rewrite E. exists D, w1. split; [done|]. split; [intros i Hi; destruct (HD i Hi); set_solver|].
  destruct o as [[]|e|]; [left|right; eauto|done]. split; [done|]. intros i Hi. apply (Hok eq_refl). by right.
Qed.
Lemma enable_from p prev m w wf :
  nBackend p = BackendIPTables → (∀ r, r ∈ IPTablesRules p → copies w (rule_id r) = 0%nat) → forwarding m prev w wf →
  match (r ← attempt (applyRules (MkNATState p [] prev));
         match r with inl st => mret st | inr e => ignore (DisableNAT (MkNATState p [] prev)) ;; fail e end) wf with
  | (w1, Ok st) => (∀ r, r ∈ IPTablesRules p → copies w1 (rule_id r) = 1%nat)
      ∧ (m = ModeExit → TrimSpace (forward w1) = one) ∧ ∃ w2, DisableNAT st w1 = (w2, Ok ()) ∧ restored w w2
  | (w1, Err _) => restored w w1
  | (_, Panic) => False
  end.
Proof.
  intros Hb H0 Hf. destruct (apply_outcome p prev m w wf Hb H0 Hf) as (D & w1 & Hw & HD & Hcase).
  destruct (disable_restores p [] prev m w wf w1 D Hb H0 Hf Hw HD) as (w2 & E2 & Hr).
  unfold mbind, M_bind, attempt, ignore. destruct Hcase as [[-> Hall]|[e ->]].
  - split; [|split; [|by exists w2]].
    + intros r Hin. destruct Hw as [_ Hc]. rewrite Hc, decide_True; [done|]. apply Hall. by apply list_elem_of_fmap_2.
    + intros Hm. destruct Hw as [Hf1 _]. rewrite Hf1. by apply Hf.
  - rewrite E2. exact Hr.
Qed.

(** C23: On a Linux host with iptables on which none of the plan's rules is present,
    enabling either puts every rule there once and switches forwarding on, and
    disabling later restores exactly the rules and the switch as they were; or it
    fails, at whatever command, and has already restored them itself. *)
Theorem nat_leaves_no_trace plan w :
  nBackend plan = BackendIPTables → TrimSpace (forward w) = zero ∨ TrimSpace (forward w) = one →
  (∀ r, r ∈ IPTablesRules plan → copies w (rule_id r) = 0%nat) →
  match EnableNAT plan w with
  | (w1, Ok st) => (∀ r, r ∈ IPTablesRules plan → copies w1 (rule_id r) = 1%nat)
      ∧ (nMode plan = ModeExit → TrimSpace (forward w1) = one) ∧ ∃ w2, DisableNAT st w1 = (w2, Ok ()) ∧ restored w w2
  | (w1, Err _) => restored w w1
  | (_, Panic) => False
  end.
Proof.
  intros Hb Hf H0. unfold EnableNAT. rewrite decide_False by (by rewrite Hb). unfold mbind at 1, M_bind, of_res.
  destruct (validate plan) as [[]|e|] eqn:Ev; [|by split|].
  2: { exfalso. revert Ev. unfold validate. by repeat case_match. }
  unfold mbind at 1, M_bind. destruct (nMode plan) eqn:Em.
  - destruct (forwarding_on w Hf) as (wf & prev & E & Hfo). unfold wrap_err. rewrite E.
    exact (enable_from plan prev ModeExit w wf Hb H0 Hfo).
  - apply (enable_from plan [] ModeClient w w Hb H0). split; [done|]. split; [by right|done].
Qed.
End Nat.

(** ** A host with iptables *)

Abbreviation rid := (bytes * bytes * list bytes)%type.
Definition ipt_count (l : list rid) (i : rid) : nat := length (filter (fun j => j = i) l).
Fixpoint ipt_remove (i : rid) (l : list rid) : list rid :=
  match l with [] => [] | j :: l => if decide (j = i) then l else j :: ipt_remove i l end.
Definition ipt_run (c : Cmd) : M (list rid * bytes) bytes := fun w =>
  match cArgs c with
  | _ :: t :: op :: ch :: args =>
      if decide (op = bs "-C") then if decide ((t, ch, args) ∈ w.1) then (w, Ok []) else (w, Err [])
      else if decide (op = bs "-A") then (((t, ch, args) :: w.1, w.2), Ok [])
      else if decide (op = bs "-I") then (((t, ch, drop 1 args) :: w.1, w.2), Ok [])
      else if decide ((t, ch, args) ∈ w.1) then ((ipt_remove (t, ch, args) w.1, w.2), Ok []) else (w, Err [])
  | _ => (w, Err [])
  end.
#[local] Instance ipt_host : Host (list rid * bytes) := {|
  hOS := bs "linux"; hRun := ipt_run; hReadFile _ w := (w, Ok w.2); hWriteFile _ b w := ((w.1, b), Ok ());
  hExists _ p := bool_decide (p = bs "/usr/sbin/iptables") |}.
Lemma ipt_count_pos l i : i ∈ l ↔ (0 < ipt_count l i)%nat.
Proof.
  unfold ipt_count. induction l as [|j l IH]; [split; [by intros ?%elem_of_nil|simpl; lia]|]. rewrite filter_cons, elem_of_cons, IH.
  case_decide as E; [subst; simpl; split; [lia|auto]|]. split; [by intros [->|?]|auto].
Qed.
Lemma ipt_count_remove l i j : (0 < ipt_count l j)%nat →
  ipt_count (ipt_remove j l) i = if decide (i = j) then pred (ipt_count l i) else ipt_count l i.
Proof.
  unfold ipt_count. induction l as [|x l IH]; [simpl; lia|]. cbn [ipt_remove]. rewrite filter_cons. intros Hp.
  rewrite (filter_cons (fun k => k = i)). destruct (decide (x = j)) as [->|Hx].
  - destruct (decide (i = j)) as [->|]; [by rewrite decide_True|]. rewrite decide_False by congruence. done.
  - rewrite filter_cons. destruct (decide (x = i)) as [->|]; cbn [length].
    + rewrite IH by done. by rewrite !decide_False by done.
    + by apply IH.
Qed.
Lemma ipt_check bin r w : ipt_run (CheckCmd bin r) w = if decide (rule_id r ∈ w.1) then (w, Ok []) else (w, Err []).
Proof. unfold ipt_run, CheckCmd. cbn [cArgs app]. by rewrite decide_True by done. Qed.
Lemma ipt_add bin r w : ipt_run (AddCmd bin r) w = ((rule_id r :: w.1, w.2), Ok []).
Proof.
  unfold ipt_run, AddCmd. destruct (rInsert r); cbn [cArgs app].
  - by rewrite !decide_False, decide_True by done.
  - by rewrite decide_False, decide_True by done.
Qed.
Lemma ipt_del bin r w :
  ipt_run (DelCmd bin r) w = if decide (rule_id r ∈ w.1) then ((ipt_remove (rule_id r) w.1, w.2), Ok []) else (w, Err []).
Proof. unfold ipt_run, DelCmd. cbn [cArgs app]. by rewrite !decide_False by done. Qed.
#[local] Instance ipt_laws : IptablesLaws (list rid * bytes).
Proof.
  refine {| copies := fun w i => ipt_count w.1 i; forward := fun w => w.2 |}; unfold hRun, hReadFile, hWriteFile, ipt_host.
  - reflexivity.
  - intros bin r w i. rewrite ipt_check. by case_decide.
  - intros bin r w. rewrite ipt_check. by case_decide.
  - intros bin r w. rewrite ipt_check. case_decide as E; cbn [snd]; [by apply ipt_count_pos|].
    rewrite ipt_count_pos in E. lia.
  - intros bin r w i. rewrite ipt_add. cbn [fst snd]. unfold ipt_count. rewrite filter_cons.
    destruct (decide (rule_id r = i)) as [<-|]; [by rewrite decide_True|by rewrite decide_False by done].
  - intros bin r w. by rewrite ipt_add.
  - intros bin r w. by rewrite ipt_add.
  - intros bin r w i Hp. rewrite ipt_del, decide_True by (by apply ipt_count_pos). by apply ipt_count_remove.
  - intros bin r w. rewrite ipt_del. by case_decide.
  - intros bin r w Hp. rewrite ipt_del, decide_True by (by apply ipt_count_pos). eauto.
  - intros w. by exists w.
  - intros b w. by exists (w.1, b).
Defined.
Definition ipt_plan : NATPlan :=
  MkNATPlan BackendIPTables ModeExit (bs "wantastic0") (bs "eth0") [MkPrefix (Addr4 (10 * 2 ^ 24)) 24] AddrNone.
Definition ipt_world : list rid * bytes := ([], bs "0" ++ [newline]).
Lemma nat_leaves_no_trace_witness :
  match EnableNAT ipt_plan ipt_world with
  | (w1, Ok st) => length w1.1 = 3%nat ∧ ∃ w2, DisableNAT st w1 = (w2, Ok ()) ∧ restored ipt_world w2
  | _ => False
  end.
Proof.
  pose proof (nat_leaves_no_trace ipt_plan ipt_world eq_refl) as H.
  assert (Hf : TrimSpace (forward ipt_world) = zero) by (vm_compute; reflexivity).
  specialize (H (or_introl Hf)). assert (H0 : ∀ r, r ∈ IPTablesRules ipt_plan → copies ipt_world (rule_id r) = 0%nat) by done.
  specialize (H H0). assert (Hlen : match EnableNAT ipt_plan ipt_world with (w1, Ok _) => length w1.1 = 3%nat | _ => False end)
    by (vm_compute; reflexivity).
  destruct (EnableNAT ipt_plan ipt_world) as [w1 [st|e|]]; [|done..]. split; [exact Hlen|]. apply H.
Defined.
