(* ===== verification/ExitGuard.v ===== *)
(** * Exit node: the guard on the receive path

    src/internal/device/exitnode_guard.go.  The counters are atomic and the users
    a concurrent map; a call is one step here, since what it lets through depends
    on the opt-in and the tenant prefixes only.  Times are Unix seconds. *)

From S2P Require Import Prelude GoStr DeviceModel Netip ExitNode.

Record exitGuard := MkGuard
  { gAllow : bool; gTenant : option (list Prefix); gUsers : gmap Addr Z; gLastDrop : Z; gDropped : Z;
    gAnnounced : list Addr (* sources handed to the callback for new users *) }.
Definition newExitGuard : exitGuard := MkGuard false None ∅ 0 0 [].
Definition with_allow (g : exitGuard) (b : bool) : exitGuard :=
  MkGuard b (gTenant g) (gUsers g) (gLastDrop g) (gDropped g) (gAnnounced g).

Definition setTenant (g : exitGuard) (addrs : list Prefix) (allowed : list bytes) : exitGuard :=
  let parsed := omap (fun s => p ← ParsePrefix s; if 0 <? pBits p then Some (Masked p) else None) allowed in
  MkGuard (gAllow g) (Some ((Masked <$> addrs) ++ parsed)) (gUsers g) (gLastDrop g) (gDropped g) (gAnnounced g).

Definition in_tenant (g : exitGuard) (a : Addr) : bool :=
  match gTenant g with Some ps => existsb (fun p => prefix_contains p a) ps | None => false end.

Definition exitBound (g : exitGuard) (pkt : bytes) : bool :=
  match PacketAddrs pkt with
  | None => false
  | Some (_, dst) => if negb (IsInternet dst) then false else negb (in_tenant g dst)
  end.

Definition dropped_one (g : exitGuard) (now : Z) : exitGuard :=
  MkGuard (gAllow g) (gTenant g) (gUsers g) (if 30 <=? now - gLastDrop g then now else gLastDrop g)
    (u64 (gDropped g + 1)) (gAnnounced g).
(** The last time a source was seen; [announce] hands it to the callback. *)
Definition saw (g : exitGuard) (src : Addr) (now : Z) (announce : bool) : exitGuard :=
  MkGuard (gAllow g) (gTenant g) (<[src := now]> (gUsers g)) (gLastDrop g) (gDropped g)
    (if announce then gAnnounced g ++ [src] else gAnnounced g).

Definition forwardable (g : exitGuard) (pkt : bytes) (now : Z) : exitGuard * bool :=
  match PacketAddrs pkt with
  | None => (g, true)
  | Some (src, dst) =>
      if negb (IsInternet dst) then (g, true)
      else if in_tenant g dst then (g, true)
      else if negb (gAllow g) then (dropped_one g now, false)
      else match gUsers g !! src with
           | Some prev => (if prev =? now then g else saw g src now (600 <? now - prev), true)
           | None => (saw g src now true, true)
           end
  end.

Definition recentUsers (g : exitGuard) (window now : Z) : gmap Addr Z :=
  filter (fun kv => now - window ≤ kv.2) (gUsers g).
Definition resetUsers (g : exitGuard) : exitGuard :=
  MkGuard (gAllow g) (gTenant g) ∅ (gLastDrop g) (gDropped g) (gAnnounced g).

(** [exitGuardTUN.Write]: the batch handed to the device and the packets handed
    to the userspace exit ([ux] says whether there is one).  [keep] is the whole
    batch until a packet is dropped. *)
Record batch := MkBatch { bGuard : exitGuard; bFiltered : bool; bKeep : list bytes; bInjected : list bytes }.
Definition write_one (bufs : list bytes) (offset : nat) (now : Z) (ux : bool) (i : nat) (b : bytes) (s : batch) : batch :=
  let pkt := drop offset b in
  let '(g, pass, injected) :=
    if (length b <=? offset)%nat then (bGuard s, true, bInjected s)
    else if ux && exitBound (bGuard s) pkt then
      let '(g, ok) := forwardable (bGuard s) pkt now in
      (g, false, if ok then bInjected s ++ [pkt] else bInjected s)
    else let '(g, ok) := forwardable (bGuard s) pkt now in (g, ok, bInjected s) in
  if pass then MkBatch g (bFiltered s) (if bFiltered s then bKeep s ++ [b] else bKeep s) injected
  else MkBatch g true (if bFiltered s then bKeep s else take i bufs) injected.
Fixpoint write_loop (bufs : list bytes) (offset : nat) (now : Z) (ux : bool) (i : nat) (rest : list bytes) (s : batch) : batch :=
  match rest with
  | [] => s
  | b :: rest => write_loop bufs offset now ux (S i) rest (write_one bufs offset now ux i b s)
  end.
(** The device is called only with a non-empty batch; an error of it is the
    call's, otherwise every packet counts as written. *)
Record written := MkWritten { wGuard : exitGuard; wDevice : option (list bytes); wInjected : list bytes; wCount : res () Z }.
Definition guard_Write (g : exitGuard) (ux : bool) (bufs : list bytes) (offset : nat) (now : Z)
    (device_ok : bool) : written :=
  let s := write_loop bufs offset now ux 0 bufs (MkBatch g false bufs []) in
  if (length (bKeep s) =? 0)%nat then MkWritten (bGuard s) None (bInjected s) (Ok (Z.of_nat (length bufs)))
  else MkWritten (bGuard s) (Some (bKeep s)) (bInjected s)
         (if device_ok then Ok (Z.of_nat (length bufs)) else Err ()).

(** ** What gets through *)

(** Internet-bound: a packet for a public address outside the tenant. *)
Definition passes (g : exitGuard) (ux : bool) (offset : nat) (b : bytes) : bool :=
  (length b <=? offset)%nat || negb (exitBound g (drop offset b)) || (negb ux && gAllow g).

Definition same_policy (g g' : exitGuard) : Prop := gAllow g' = gAllow g ∧ gTenant g' = gTenant g.
Lemma exitBound_policy g g' pkt : same_policy g g' → exitBound g' pkt = exitBound g pkt.
Proof. intros [_ Ht]. unfold exitBound, in_tenant. by rewrite Ht. Qed.
Lemma passes_policy g g' ux offset b : same_policy g g' → passes g' ux offset b = passes g ux offset b.
Proof. intros H. unfold passes. by rewrite (exitBound_policy _ _ _ H), (proj1 H). Qed.

Lemma forwardable_spec g pkt now :
  (forwardable g pkt now).2 = negb (exitBound g pkt) || gAllow g ∧ same_policy g (forwardable g pkt now).1.
Proof.
  unfold forwardable, exitBound. destruct (PacketAddrs pkt) as [[src dst]|]; [|done].
  destruct (IsInternet dst); simpl; [|done]. destruct (in_tenant g dst); simpl; [done|].
  destruct (gAllow g) eqn:Ea; simpl.
  - destruct (gUsers g !! src) as [prev|]; simpl; [destruct (prev =? now)|]; done.
  - by split; [|split].
Qed.

Lemma write_one_spec bufs offset now ux i b s :
  let s' := write_one bufs offset now ux i b s in
  let pass := passes (bGuard s) ux offset b in
  same_policy (bGuard s) (bGuard s')
  ∧ bFiltered s' = bFiltered s || negb pass
  ∧ bKeep s' = (if pass then if bFiltered s then bKeep s ++ [b] else bKeep s
                else if bFiltered s then bKeep s else take i bufs)
  ∧ bInjected s' = bInjected s ++
      (if ux && negb (length b <=? offset)%nat && exitBound (bGuard s) (drop offset b) && gAllow (bGuard s)
       then [drop offset b] else []).
Proof.
  unfold write_one, passes. destruct (length b <=? offset)%nat eqn:El; simpl.
  { rewrite andb_false_r, app_nil_r, orb_false_r. by repeat split. }
  destruct (forwardable_spec (bGuard s) (drop offset b) now) as [Hf Hp].
  destruct (forwardable (bGuard s) (drop offset b) now) as [g ok]. simpl in Hf, Hp. subst ok.
  destruct ux, (exitBound (bGuard s) (drop offset b)), (gAllow (bGuard s)), (bFiltered s); simpl;
    rewrite ?app_nil_r; (split; [exact Hp|done]).
Qed.

Definition injected_of (g : exitGuard) (ux : bool) (offset : nat) (bufs : list bytes) : list bytes :=
  drop offset <$> filter (fun b => ux && negb (length b <=? offset)%nat && exitBound g (drop offset b) && gAllow g = true) bufs.

Lemma write_loop_spec bufs offset now ux done rest s g :
  bufs = done ++ rest → same_policy g (bGuard s) →
  (bFiltered s = false → filter (fun b => passes g ux offset b = true) done = done) →
  bKeep s = (if bFiltered s then filter (fun b => passes g ux offset b = true) done else bufs) →
  let s' := write_loop bufs offset now ux (length done) rest s in
  bKeep s' = filter (fun b => passes g ux offset b = true) bufs
  ∧ bInjected s' = bInjected s ++ injected_of g ux offset rest ∧ same_policy g (bGuard s').
Proof.
  revert done s. induction rest as [|b rest IH]; intros done s Hb Hp Hall Hk; simpl.
  { unfold injected_of. simpl. rewrite app_nil_r in Hb |- *. subst done. split; [|done].
    rewrite Hk. destruct (bFiltered s); [done|]. by rewrite Hall. }
  destruct (write_one_spec bufs offset now ux (length done) b s) as (Hp' & Hf' & Hk' & Hi').
  set (s1 := write_one bufs offset now ux (length done) b s) in *.
  rewrite (passes_policy _ _ _ _ _ Hp) in Hf', Hk'.
  rewrite (exitBound_policy _ _ _ Hp), (proj1 Hp) in Hi'.
  assert (Hp1 : same_policy g (bGuard s1)) by (destruct Hp, Hp'; split; congruence).
  replace (S (length done)) with (length (done ++ [b])) by (rewrite length_app; simpl; lia).
  destruct (IH (done ++ [b]) s1) as (H1 & H2 & H3); [by rewrite <- app_assoc|done| | |].
  - rewrite Hf'. intros [Hs Hpass]%orb_false_elim. apply negb_false_iff in Hpass.
    rewrite filter_app, filter_cons_True, filter_nil by done. by rewrite Hall.
  - rewrite Hk', Hf'. destruct (passes g ux offset b) eqn:Ep; simpl.
    + rewrite filter_app, filter_cons_True, filter_nil by done. rewrite orb_false_r.
      destruct (bFiltered s); [by rewrite Hk|done].
    + rewrite filter_app, filter_cons_False, filter_nil, app_nil_r by (by rewrite Ep).
      rewrite orb_true_r. destruct (bFiltered s); [done|].
      rewrite Hall by done. by rewrite Hb, take_app_length.
  - split; [done|]. split; [|done]. rewrite H2, Hi', <- app_assoc. f_equal.
    unfold injected_of. rewrite filter_cons.
    destruct (ux && negb (length b <=? offset)%nat && exitBound g (drop offset b) && gAllow g) eqn:E;
      [rewrite decide_True by done|rewrite decide_False by done]; done.
Qed.

Lemma guard_write_spec g ux bufs offset now device_ok :
  let w := guard_Write g ux bufs offset now device_ok in
  let kept := filter (fun b => passes g ux offset b = true) bufs in
  wDevice w = (if decide (kept = []) then None else Some kept)
  ∧ wInjected w = injected_of g ux offset bufs
  ∧ gAllow (wGuard w) = gAllow g ∧ gTenant (wGuard w) = gTenant g
  ∧ (gAllow g = false → wInjected w = []
     ∧ ∀ b, b ∈ default [] (wDevice w) → (offset < length b)%nat → exitBound g (drop offset b) = false).
Proof.
  intros w kept.
  destruct (write_loop_spec bufs offset now ux [] bufs (MkBatch g false bufs []) g) as (Hk & Hi & Hp);
    [done|done|done|done|].
  cbn [length bInjected] in Hk, Hi, Hp. rewrite app_nil_l in Hi.
  assert (Hw : wDevice w = (if decide (kept = []) then None else Some kept)
    ∧ wInjected w = injected_of g ux offset bufs ∧ same_policy g (wGuard w)).
  { unfold w, guard_Write. rewrite Hk. fold kept. destruct (decide (kept = [])) as [He|Hne].
    - rewrite He. simpl. auto.
    - destruct kept; [done|]. simpl. auto. }
  destruct Hw as (Hd & Hj & Ha & Ht). split; [done|]. split; [done|]. split; [done|]. split; [done|].
  intros Hoff. rewrite Hj, Hd. split.
  { unfold injected_of. rewrite Hoff. clear. induction bufs as [|b bufs IH]; [done|].
    rewrite filter_cons_False by (rewrite andb_false_r; done). done. }
  intros b Hb Hlen. assert (Hin : b ∈ kept).
  { destruct (decide (kept = [])) as [->|]; done. }
  apply list_elem_of_filter in Hin as [Hpass _]. unfold passes in Hpass. rewrite Hoff, andb_false_r, orb_false_r in Hpass.
  apply orb_true_iff in Hpass as [Hl|Hn]; [apply Nat.leb_le in Hl; lia|by apply negb_true_iff in Hn].
Qed.

(** C21: Whatever a batch holds, the guard hands the device exactly the packets
    that are not internet-bound (destination public and outside the tenant) and,
    while sharing is on and the host forwards, also those; order and contents are
    kept and no call is made for an empty batch.  With a userspace exit the
    internet-bound packets go there instead, and only while sharing is on. *)
Theorem guard_write_filters g ux bufs offset now device_ok :
  let w := guard_Write g ux bufs offset now device_ok in
  let kept := filter (fun b => passes g ux offset b = true) bufs in
  wDevice w = (if decide (kept = []) then None else Some kept)
  ∧ wInjected w = injected_of g ux offset bufs
  ∧ gAllow (wGuard w) = gAllow g ∧ gTenant (wGuard w) = gTenant g
  ∧ (gAllow g = false → wInjected w = []
     ∧ ∀ b, b ∈ default [] (wDevice w) → (offset < length b)%nat → exitBound g (drop offset b) = false).
Proof. exact (guard_write_spec g ux bufs offset now device_ok). Qed.
