(* ===== verification/ExitEngine.v ===== *)
(** * Exit node: the engine

    src/internal/device/exitnode.go: the state behind [exitEngine.mu] and the
    operations on it, one definition per critical section (each holds the mutex
    from its first to its last line; [ensureNAT] gives it back in between and is
    cut there).  The machine around the engine is the class [Machine]: the host's
    commands, the WireGuard device, the P2P client, the state file and the clock.
    A computation may panic inside any of the machine's operations; what was done
    until then stays.  Logging is left out. *)

From S2P Require Import Prelude GoStr DeviceModel NetAddr Netip ExitNode ExitNat ExitGuard.

(** ** exitnode.State *)

Record State := MkState
  { sOffer : bool; sUse : bytes; sNAT : option NATState; sClientNAT : option NATState;
    sRoutes : list Route; sRouteTun : bytes; sRouteGW : Gateway; sServerHadV4Default : bool }.
Definition zero_state : State := MkState false [] None None [] [] no_gateway false.

Definition with_Offer (s : State) b := MkState b (sUse s) (sNAT s) (sClientNAT s) (sRoutes s) (sRouteTun s) (sRouteGW s) (sServerHadV4Default s).
Definition with_Use (s : State) u := MkState (sOffer s) u (sNAT s) (sClientNAT s) (sRoutes s) (sRouteTun s) (sRouteGW s) (sServerHadV4Default s).
Definition with_NAT (s : State) n := MkState (sOffer s) (sUse s) n (sClientNAT s) (sRoutes s) (sRouteTun s) (sRouteGW s) (sServerHadV4Default s).
Definition with_ClientNAT (s : State) n := MkState (sOffer s) (sUse s) (sNAT s) n (sRoutes s) (sRouteTun s) (sRouteGW s) (sServerHadV4Default s).
Definition with_Routes (s : State) r := MkState (sOffer s) (sUse s) (sNAT s) (sClientNAT s) r (sRouteTun s) (sRouteGW s) (sServerHadV4Default s).
Definition with_RoutePath (s : State) t g := MkState (sOffer s) (sUse s) (sNAT s) (sClientNAT s) (sRoutes s) t g (sServerHadV4Default s).
Definition with_HadDefault (s : State) b := MkState (sOffer s) (sUse s) (sNAT s) (sClientNAT s) (sRoutes s) (sRouteTun s) (sRouteGW s) b.

(** ** The machine *)

(** What the engine reads of a [DiscoveredPeer]. *)
Record Discovered := MkDP
  { dpID : Z; dpKey : bytes; dpObserved : UDPAddr; dpLocal : UDPAddr; dpCandidates : list UDPAddr;
    dpEstablished : bool; dpAssignedIP : IP }.
(** A network interface: its name, whether it is up, point-to-point, and the
    addresses of it that are IP networks. *)
Record Iface := MkIface { ifName : bytes; ifUp : bool; ifPointToPoint : bool; ifAddrs : list bytes }.

Class Machine (W : Type) : Type := {
  machine_host :: Host W;
  hasDevice : W → bool;                    (* d.device != nil *)
  hasP2P : W → bool;                       (* and it has a P2P client *)
  ipcGet : M W bytes;                      (* IpcGet *)
  ipcSet : bytes → M W ();
  discovered : W → list Discovered;        (* GetDiscoveredPeers, in map order *)
  hasPeer : W → bytes → bool;              (* LookupPeer != nil *)
  hostnameOf : W → bytes → bytes;          (* getPeerHostname of a hex key *)
  sendControl : bytes → bytes → M W ();    (* SendTUNControl to the peer with a key *)
  tryP2P : Z → M W ();
  saveState : State → M W ();              (* SaveState; a failure is logged *)
  netInterfaces : W → list Iface;
  newUserspaceExit : M W ();
  localAccess : W → bool;                  (* d.localAccessShared *)
  nowOf : W → Z }.                         (* time.Now() *)

(** The configuration and the tunnel's name, fixed while the engine runs;
    [cfgBase64] decodes standard base64. *)
Class Config : Type := {
  cfgServerKey : bytes;
  cfgAllowedIPs : list bytes;
  cfgAddresses : list Prefix;
  cfgTun : bytes;
  cfgBase64 : bytes → option bytes }.

(** ** The engine's state *)

Record exitEngine := MkEngine
  { eSt : State; eOfferErr : bytes; eUseKey : bytes; ePhase : ClientPhase; eReason : bytes; eSince : option Z;
    eGranted : bool; eLastRequest : option Z; eLastTry : option Z; eRetryAt : option Z; eTickPanics : Z;
    eDisabledReason : bytes; eAllowedSet : bool; eOffered : gmap bytes bool;
    eGuardAllow : bool; eUserspace : bool; (* d.exitGuard.allow, d.exitGuard.ux != nil *)
    eLastEnsure : option Z; eLastQuery : option Z (* variables of loop *) }.
Definition zero_pubkey : bytes := replicate 32 (z2b 0).
Definition new_engine (st : State) : exitEngine :=
  MkEngine st [] zero_pubkey PhaseOff [] None false None None None 0 [] false ∅ false false None None.

Definition set_st (e : exitEngine) st := MkEngine st (eOfferErr e) (eUseKey e) (ePhase e) (eReason e) (eSince e) (eGranted e) (eLastRequest e) (eLastTry e) (eRetryAt e) (eTickPanics e) (eDisabledReason e) (eAllowedSet e) (eOffered e) (eGuardAllow e) (eUserspace e) (eLastEnsure e) (eLastQuery e).
Definition set_offerErr (e : exitEngine) x := MkEngine (eSt e) x (eUseKey e) (ePhase e) (eReason e) (eSince e) (eGranted e) (eLastRequest e) (eLastTry e) (eRetryAt e) (eTickPanics e) (eDisabledReason e) (eAllowedSet e) (eOffered e) (eGuardAllow e) (eUserspace e) (eLastEnsure e) (eLastQuery e).
Definition set_useKey (e : exitEngine) k := MkEngine (eSt e) (eOfferErr e) k (ePhase e) (eReason e) (eSince e) (eGranted e) (eLastRequest e) (eLastTry e) (eRetryAt e) (eTickPanics e) (eDisabledReason e) (eAllowedSet e) (eOffered e) (eGuardAllow e) (eUserspace e) (eLastEnsure e) (eLastQuery e).
Definition set_phase (e : exitEngine) p r s := MkEngine (eSt e) (eOfferErr e) (eUseKey e) p r s (eGranted e) (eLastRequest e) (eLastTry e) (eRetryAt e) (eTickPanics e) (eDisabledReason e) (eAllowedSet e) (eOffered e) (eGuardAllow e) (eUserspace e) (eLastEnsure e) (eLastQuery e).
Definition set_granted (e : exitEngine) b := MkEngine (eSt e) (eOfferErr e) (eUseKey e) (ePhase e) (eReason e) (eSince e) b (eLastRequest e) (eLastTry e) (eRetryAt e) (eTickPanics e) (eDisabledReason e) (eAllowedSet e) (eOffered e) (eGuardAllow e) (eUserspace e) (eLastEnsure e) (eLastQuery e).
Definition set_times (e : exitEngine) req try retry := MkEngine (eSt e) (eOfferErr e) (eUseKey e) (ePhase e) (eReason e) (eSince e) (eGranted e) req try retry (eTickPanics e) (eDisabledReason e) (eAllowedSet e) (eOffered e) (eGuardAllow e) (eUserspace e) (eLastEnsure e) (eLastQuery e).
Definition set_breaker (e : exitEngine) n r := MkEngine (eSt e) (eOfferErr e) (eUseKey e) (ePhase e) (eReason e) (eSince e) (eGranted e) (eLastRequest e) (eLastTry e) (eRetryAt e) n r (eAllowedSet e) (eOffered e) (eGuardAllow e) (eUserspace e) (eLastEnsure e) (eLastQuery e).
Definition set_allowedSet (e : exitEngine) b := MkEngine (eSt e) (eOfferErr e) (eUseKey e) (ePhase e) (eReason e) (eSince e) (eGranted e) (eLastRequest e) (eLastTry e) (eRetryAt e) (eTickPanics e) (eDisabledReason e) b (eOffered e) (eGuardAllow e) (eUserspace e) (eLastEnsure e) (eLastQuery e).
Definition set_offered (e : exitEngine) m := MkEngine (eSt e) (eOfferErr e) (eUseKey e) (ePhase e) (eReason e) (eSince e) (eGranted e) (eLastRequest e) (eLastTry e) (eRetryAt e) (eTickPanics e) (eDisabledReason e) (eAllowedSet e) m (eGuardAllow e) (eUserspace e) (eLastEnsure e) (eLastQuery e).
Definition set_guard (e : exitEngine) a u := MkEngine (eSt e) (eOfferErr e) (eUseKey e) (ePhase e) (eReason e) (eSince e) (eGranted e) (eLastRequest e) (eLastTry e) (eRetryAt e) (eTickPanics e) (eDisabledReason e) (eAllowedSet e) (eOffered e) a u (eLastEnsure e) (eLastQuery e).
Definition set_last (e : exitEngine) x y := MkEngine (eSt e) (eOfferErr e) (eUseKey e) (ePhase e) (eReason e) (eSince e) (eGranted e) (eLastRequest e) (eLastTry e) (eRetryAt e) (eTickPanics e) (eDisabledReason e) (eAllowedSet e) (eOffered e) (eGuardAllow e) (eUserspace e) x y.

(** ** Pure helpers *)

(** hex.EncodeToString *)
Definition hex (b : bytes) : bytes := b ≫= fun c => [hexdigit (Z.shiftr (b2z c) 4); hexdigit (Z.land (b2z c) 15)].
Definition contains (l : list bytes) (s : bytes) : bool := existsb (fun x => bool_decide (x = s)) l.
Definition default_route : bytes := bs "0.0.0.0/0".

Record ipcPeer := MkIPC { ipEndpoint : bytes; ipLastHandshake : Z; ipAllowedIPs : list bytes }.
Definition no_ipc : ipcPeer := MkIPC [] 0 [].
Definition equals : byte := z2b 61.
Definition ipc_line (st : bytes * gmap bytes ipcPeer) (l : bytes) : bytes * gmap bytes ipcPeer :=
  let '(cur, out) := st in
  let '(k, v, ok) := Cut l equals in
  if negb ok then st
  else if decide (k = bs "public_key") then (v, <[v := no_ipc]> out)
  else if decide (cur = []) then st
  else
    let p := default no_ipc (out !! cur) in
    let p := if decide (k = bs "endpoint") then MkIPC v (ipLastHandshake p) (ipAllowedIPs p)
             else if decide (k = bs "last_handshake_time_sec") then MkIPC (ipEndpoint p) (atoi_value v) (ipAllowedIPs p)
             else if decide (k = bs "allowed_ip") then MkIPC (ipEndpoint p) (ipLastHandshake p) (ipAllowedIPs p ++ [v])
             else p in
    (cur, <[cur := p]> out).
Definition parseIPCPeers (s : bytes) : gmap bytes ipcPeer := (foldl ipc_line ([], ∅) (scan_lines s)).2.

Definition endpointAddr (ep : bytes) : option Addr := Unmap ∘ fst <$> ParseAddrPort ep.
Definition addAllowedIPCmd (peerHex prefix : bytes) : bytes :=
  line [bs "public_key="; peerHex] ++ line [bs "update_only=true"] ++ line [bs "allowed_ip="; prefix].
(** The peer's allowed IPs without the default route. *)
Definition removeDefaultCmd (peerHex : bytes) (allowed : list bytes) : bytes :=
  line [bs "public_key="; peerHex] ++ line [bs "update_only=true"] ++ line [bs "replace_allowed_ips=true"]
  ++ concat ((fun a => line [bs "allowed_ip="; a]) <$> filter (fun a => a ≠ default_route) allowed).
Definition routeExists (err : bytes) : bool := Contains err (bs "File exists") || Contains err (bs "already exists").
Fixpoint stripInterface (args : list bytes) : list bytes :=
  match args with
  | [] => []
  | a :: rest => if decide (a = bs "-interface") then match rest with [] => [] | _ :: rest => stripInterface rest end
                 else a :: stripInterface rest
  end.

(** [now.Sub(t) >= d], [now.Sub(t) > d], [now.Before(t)] with the zero time. *)
Definition since_ge (now : Z) (t : option Z) (d : Z) : bool := match t with None => true | Some t => d <=? now - t end.
Definition since_gt (now : Z) (t : option Z) (d : Z) : bool := match t with None => true | Some t => d <? now - t end.
Definition before (now : Z) (t : option Z) : bool := match t with None => false | Some t => now <? t end.
Definition second : Z := 10 ^ 9.
Definition exitEnsureEvery : Z := 30 * second.
Definition exitQueryEvery : Z := 60 * second.
Definition exitRequestEvery : Z := 5 * second.
Definition exitTickPanicGiveup : Z := 5.
Definition exitOpRelease : Z := 0.
Definition exitOpUse : Z := 1.
Definition exitOpQuery : Z := 2.
Definition exitFlagOffered : Z := 1.
Definition exitFlagGranted : Z := 2.
Definition TUNControlActionExitRequest : Z := 10.
Definition TUNControlActionExitStatus : Z := 11.
Definition TUNControlActionSetExitNodeOffer : Z := 4.
Definition exit_request (op : Z) : bytes := [z2b TUNControlActionExitRequest; z2b op].
Definition exit_status (flags : Z) : bytes := [z2b TUNControlActionExitStatus; z2b flags].

(** ** Operations *)

Section Engine.
Context {W : Type} `{!UnicodeCase} `{!Machine W} `{!Config}.

Abbreviation EM := (M (exitEngine * W)).
Definition lift {A} (m : M W A) : EM A := fun s => let '(w, r) := m s.2 in ((s.1, w), r).
Definition get {A} (f : exitEngine → A) : EM A := fun s => (s, Ok (f s.1)).
Definition upd (f : exitEngine → exitEngine) : EM () := fun s => ((f s.1, s.2), Ok ()).
Definition updSt (f : State → State) : EM () := upd (fun e => set_st e (f (eSt e))).
Definition look {A} (f : W → A) : EM A := fun s => (s, Ok (f s.2)).
Definition whenM (b : bool) (m : EM ()) : EM () := if b then m else skip.
(** [for _, x := range l { body }] without an early exit *)
Definition each {A} (l : list A) (body : A → EM ()) : EM () := foldr (fun x k => body x ;; k) skip l.

Definition mustHex (b64 : bytes) : bytes := match cfgBase64 b64 with Some db => hex db | None => [] end.
Definition serverHex : bytes := mustHex cfgServerKey.
Definition isServerTUNControlPeer (key : bytes) : bool :=
  match cfgBase64 (TrimSpace cfgServerKey) with
  | Some sk => (length sk =? 32)%nat && EqualFold (hex key) (hex sk)
  | None => false
  end.

Definition saveLocked : EM () := st ← get eSt; ignore (lift (saveState st)).
(** [SendTUNControl] of a peer reports nothing. *)
Definition send (key data : bytes) : EM () := ignore (lift (sendControl key data)).
Definition save : EM () := saveLocked.

Definition setPhaseLocked (p : ClientPhase) (reason : bytes) : EM () :=
  now ← look nowOf;
  upd (fun e =>
    if bool_decide (ePhase e = p) && bool_decide (eReason e = reason) then e
    else set_phase e p reason (if decide (ePhase e = p) then eSince e else Some now)).

(** The host's reachable subnets: [onLinkFunc]. *)
Definition link_prefixes (tun : bytes) (ifs : list Iface) : list Prefix :=
  ifs ≫= fun i => if bool_decide (ifName i = tun) || negb (ifUp i) || ifPointToPoint i then []
                  else omap (fun a => Masked <$> ParsePrefix a) (ifAddrs i).
Definition onLinkFunc (tun : bytes) (ifs : list Iface) : Addr → bool := fun a =>
  existsb (fun p => prefix_contains p a) (link_prefixes tun ifs).
Definition overlayPrefixes : list Prefix :=
  omap (fun s => p ← ParsePrefix (TrimSpace s); if 0 <? pBits p then Some (Masked p) else None) cfgAllowedIPs.

(** [overlaySources]: the add closure over what it has seen *)
Definition add_source (out : list Prefix) (p : Prefix) : list Prefix :=
  let p := Masked p in
  if Is4 (pAddr p) && (0 <? pBits p) && (pBits p <? 32) && negb (bool_decide (p ∈ out)) then out ++ [p] else out.
Definition overlaySources : list Prefix :=
  let out := foldl add_source [] (omap (fun s => ParsePrefix (TrimSpace s)) cfgAllowedIPs) in
  let out := foldl add_source out cfgAddresses in
  if (length out =? 0)%nat then
    foldl add_source [] ((fun a => PrefixFrom (pAddr a) 24) <$> filter (fun a => Is4 (pAddr a) = true) cfgAddresses)
  else out.

Definition peers_listed (w : W) : list Discovered := if hasDevice w && hasP2P w then discovered w else [].
Definition assigned (dp : Discovered) : option Addr := ip4 ← To4 (dpAssignedIP dp); AddrFromSlice ip4.
Definition find_ip (ip : Addr) (l : list Discovered) : option Discovered :=
  List.find (fun dp => bool_decide (assigned dp = Some ip)) l.
Definition discoveredByIP (ip : Addr) : EM (option Discovered) := look (fun w => find_ip ip (peers_listed w)).
Definition directPeers : EM (list bytes) :=
  look (fun w => dpKey <$> filter (fun dp => dpEstablished dp = true ∧ hasPeer w (dpKey dp) = true) (peers_listed w)).
Definition queryDirectPeers : EM () :=
  ps ← directPeers; each ps (fun k => send k (exit_request exitOpQuery)).

(** The device's peers; none when it is down or does not answer. *)
Definition ipcPeers : EM (gmap bytes ipcPeer) :=
  up ← look hasDevice;
  if negb up then mret ∅ else
  s ← attempt (lift ipcGet);
  mret (match s with inl s => parseIPCPeers s | inr _ => ∅ end).

Definition udp_addrs (dp : Discovered) : list Addr :=
  omap (fun u => a ← AddrFromSlice (aIP u); if IsInternet a then Some (Unmap a) else None)
    ([dpObserved dp; dpLocal dp] ++ dpCandidates dp).
(** Every address the tunnel's own UDP goes to, and which must be pinned. *)
Definition bypassAddrs (peers : gmap bytes ipcPeer) (exitKey : bytes) : EM (list Addr * gset Addr) :=
  dps ← look (fun w => if hasP2P w then discovered w else []);
  let eps := omap (fun kp => a ← endpointAddr (ipEndpoint kp.2); Some (kp.1, a)) (map_to_list peers) in
  mret (eps.*2 ++ (dps ≫= udp_addrs),
        list_to_set (filter (fun kp => kp.1 = serverHex ∨ kp.1 = exitKey) eps).*2).

(** Recorded routes that match go, newest first; the host's answer is only
    logged. *)
Fixpoint delete_loop (routes_rev : list Route) (match_ : Route → bool) (kept : list Route) : EM (list Route) :=
  match routes_rev with
  | [] => mret kept
  | r :: rest =>
      if negb (match_ r) then delete_loop rest match_ (r :: kept) else
      st ← get eSt;
      (match RouteDelCmd hOS r (sRouteTun st) (sRouteGW st) with
       | Ok c => ignore (lift (hRun c))
       | _ => skip
       end) ;;
      delete_loop rest match_ kept
  end.
Definition deleteRoutesLocked (match_ : Route → bool) : EM () :=
  st ← get eSt;
  kept ← delete_loop (reverse (sRoutes st)) match_ [];
  updSt (fun st => with_Routes st kept).

(** [_ = exitnode.DisableNAT(e.host, ns)] *)
Definition dropNAT (ns : NATState) : EM () := ignore (lift (DisableNAT ns)).

Definition removeDefaults (peers : gmap bytes ipcPeer) : EM () :=
  each (map_to_list peers) (fun kp =>
    whenM (negb (bool_decide (kp.1 = serverHex)) && contains (ipAllowedIPs kp.2) default_route)
      (ignore (lift (ipcSet (removeDefaultCmd kp.1 (ipAllowedIPs kp.2)))))).
Definition comeback : bytes := bs "comeback".
Definition deactivateLocked (reason : bytes) : EM () :=
  e ← get id;
  if (length (sRoutes (eSt e)) =? 0)%nat && bool_decide (sClientNAT (eSt e) = None) && negb (eAllowedSet e)
  then skip else
  deleteRoutesLocked (fun r => negb (bool_decide (Kind r = RouteBypass))) ;;
  up ← look hasDevice;
  whenM up (
    peers ← ipcPeers;
    removeDefaults peers ;;
    whenM (sServerHadV4Default (eSt e) && negb (bool_decide (cfgServerKey = [])))
      (ignore (lift (ipcSet (addAllowedIPCmd serverHex default_route))))) ;;
  upd (fun e => set_allowedSet e false) ;;
  updSt (fun st => with_HadDefault st false) ;;
  deleteRoutesLocked (fun _ => true) ;;
  st ← get eSt;
  (match sClientNAT st with
   | Some ns => dropNAT ns ;; updSt (fun st => with_ClientNAT st None)
   | None => skip
   end) ;;
  upd (fun e => set_granted e (eGranted e && negb (bool_decide (reason = comeback)))) ;;
  saveLocked.

(** ** Activation *)

Definition own4 : option Addr := pAddr <$> List.find (fun a => Is4 (pAddr a)) cfgAddresses.
Definition enableClientNATLocked (tun : bytes) : EM () :=
  backend ← attempt (lift DetectBackend);
  match backend, own4 with
  | inl backend, Some own =>
      ns ← attempt (lift (EnableNAT (MkNATPlan backend ModeClient tun [] [] own)));
      (match ns with inl ns => updSt (fun st => with_ClientNAT st (Some ns)) | inr _ => skip end)
  | _, _ => skip
  end.

(** One route of [add]: installed and recorded, passed over, or an error that
    ends the activation.  A route that is there already is replaced once, except
    a bypass route, which is left to whoever put it there. *)
Definition run_route (c : res bytes Cmd) : EM (() + bytes) :=
  match c with
  | Ok c => attempt (lift (hRun c) ;; skip)
  | Err e => mret (inr e)
  | Panic => fun s => (s, Panic)
  end.
Definition record_route (r : Route) : EM () := updSt (fun st => with_Routes st (sRoutes st ++ [r])).
Definition failed_route (tun : bytes) (critical : gset Addr) (r : Route) (e : bytes) : EM () :=
  match Kind r with
  | RouteTunnel => fail (bs "install " ++ prefix_String (Dst r) ++ bs " via " ++ tun ++ bs ": " ++ e)
  | RouteBypass =>
      if decide (pAddr (Dst r) ∈ critical) then
        fail (bs "pin " ++ addr_String (pAddr (Dst r)) ++ bs " to the physical gateway: " ++ e)
      else skip
  | RouteReject => skip
  end.
(** The second attempt; a command that could not be built is Go's empty one. *)
Definition replace_route (tun : bytes) (gw : Gateway) (r : Route) (c : res bytes Cmd) : EM (() + bytes) :=
  (match RouteDelCmd hOS (MkRoute (Dst r) (Kind r)) tun gw with
   | Ok d => ignore (lift (hRun (MkCmd (cName d) (stripInterface (cArgs d)) [])))
   | _ => skip
   end) ;;
  run_route (match c with Ok _ => c | _ => Ok (MkCmd [] [] []) end).
Definition install_route (tun : bytes) (gw : Gateway) (critical : gset Addr) (r : Route) : EM () :=
  let c := RouteAddCmd hOS r tun gw in
  o ← run_route c;
  match o with
  | inl _ => record_route r
  | inr err =>
      if negb (routeExists err) then failed_route tun critical r err
      else if decide (Kind r = RouteBypass) then skip
      else
        o ← replace_route tun gw r c;
        match o with inl _ => record_route r | inr err => failed_route tun critical r err end
  end.
Definition exit_hex (dp : Discovered) : bytes := hex (dpKey dp).
(** The gateway the bypass routes go through: the one found, else the last. *)
Definition find_gateway : EM Gateway :=
  gw ← attempt (lift (DefaultGateway cfgTun));
  match gw with
  | inl gw => mret gw
  | inr err =>
      st ← get eSt;
      if gw_Valid (sRouteGW st) then mret (sRouteGW st)
      else fail (bs "cannot find the physical default route: " ++ err)
  end.
Definition plan_routes (peers : gmap bytes ipcPeer) (exitHex : bytes) : EM (list Route * gset Addr) :=
  ac ← bypassAddrs peers exitHex;
  ifs ← look netInterfaces;
  mret (PlanClientRoutes (MkPlan ac.1 (Some (onLinkFunc cfgTun ifs)) overlayPrefixes
          (negb (bool_decide (hOS = bs "windows"))) 0), ac.2).
Definition own_default (peers : gmap bytes ipcPeer) (exitHex : bytes) : EM () :=
  if contains (ipAllowedIPs (default no_ipc (peers !! exitHex))) default_route then skip
  else wrap_err (bs "route 0.0.0.0/0 to the exit peer") (lift (ipcSet (addAllowedIPCmd exitHex default_route))) ;;
       upd (fun e => set_allowedSet e true).
(** From the recorded routes to the planned ones; whether anything changed. *)
Definition sync_routes (gw : Gateway) (dc : list Route * gset Addr) (peers : gmap bytes ipcPeer) (exitHex : bytes) : EM bool :=
  st ← get eSt;
  let add := (DiffRoutes (sRoutes st) dc.1).1 in
  let del := (DiffRoutes (sRoutes st) dc.1).2 in
  each del (fun r => deleteRoutesLocked (fun x => bool_decide (x = r))) ;;
  updSt (fun st => with_RoutePath st cfgTun gw) ;;
  own_default peers exitHex ;;
  before_add ← get (fun e => length (sRoutes (eSt e)));
  each add (install_route cfgTun gw dc.2) ;;
  after_add ← get (fun e => length (sRoutes (eSt e)));
  mret ((0 <? length del)%nat || (before_add <? after_add)%nat).
Definition activateLocked (dp : Discovered) (peers : gmap bytes ipcPeer) : EM () :=
  gw ← find_gateway;
  st ← get eSt;
  let exitHex := exit_hex dp in
  let first := (length (sRoutes st) =? 0)%nat in
  whenM (negb first && (negb (bool_decide (gw = sRouteGW st)) || negb (bool_decide (cfgTun = sRouteTun st))))
    (deleteRoutesLocked (fun r => bool_decide (Kind r = RouteBypass))) ;;
  dc ← plan_routes peers exitHex;
  whenM first
    (match peers !! serverHex with
     | Some srv => updSt (fun st => with_HadDefault st (contains (ipAllowedIPs srv) default_route))
     | None => skip
     end) ;;
  changed ← sync_routes gw dc peers exitHex;
  cnat ← get (fun e => sClientNAT (eSt e));
  whenM (bool_decide (hOS = bs "linux") && bool_decide (cnat = None)) (enableClientNATLocked cfgTun) ;;
  whenM (changed || first) saveLocked.

(** ** The client's pass *)

(** What is known of the exit peer; a new key withdraws the grant, a lost path
    too, and a peer that has not granted is asked. *)
Definition observe (dp : Discovered) (now : Z) : EM (PathHealth * gmap bytes ipcPeer) :=
  upd (fun e => if decide (dpKey dp = eUseKey e) then e else set_granted (set_useKey e (dpKey dp)) false) ;;
  offered ← get (fun e => eOffered e !! eUseKey e);
  peers ← ipcPeers;
  direct ← look (fun w => dpEstablished dp && hasPeer w (dpKey dp));
  let hs := ipLastHandshake (default no_ipc (peers !! exit_hex dp)) in
  (if negb direct then
     upd (fun e => set_granted e false) ;;
     e ← get id;
     whenM (since_gt now (eLastTry e) (10 * second))
       (upd (fun e => set_times e (eLastRequest e) (Some now) (eRetryAt e)) ;; ignore (lift (tryP2P (dpID dp))))
   else
     e ← get id;
     whenM (negb (eGranted e) && since_ge now (eLastRequest e) exitRequestEvery)
       (upd (fun e => set_times e (Some now) (eLastTry e) (eRetryAt e)) ;;
        here ← look (fun w => hasPeer w (dpKey dp));
        whenM here (send (dpKey dp) (exit_request exitOpUse)))) ;;
  granted ← get eGranted;
  mret (MkHealth true direct (if direct && (0 <? hs) then Some (hs * second) else None) offered granted, peers).

Definition stand_by (phase : ClientPhase) (reason : bytes) : EM () :=
  e ← get id;
  whenM ((0 <? length (sRoutes (eSt e)))%nat || eAllowedSet e) (deactivateLocked reason) ;;
  setPhaseLocked phase reason.
Definition go_active (dp : Discovered) (peers : gmap bytes ipcPeer) (now : Z) : EM () :=
  e ← get id;
  if before now (eRetryAt e) then skip else
  r ← attempt (activateLocked dp peers);
  match r with
  | inl _ => setPhaseLocked PhaseActive []
  | inr err =>
      upd (fun e => set_times e (eLastRequest e) (eLastTry e) (Some (now + 30 * second))) ;;
      deactivateLocked err ;;
      setPhaseLocked PhaseStandby err
  end.
(** The pass for the chosen address [ip]. *)
Definition reconcile_with (ip : Addr) (now : Z) : EM () :=
  dp ← discoveredByIP ip;
  match dp with
  | None =>
      granted ← get eGranted;
      let next := NextPhase (MkHealth false false None None granted) now in
      stand_by next.1 next.2
  | Some dp =>
      hp ← observe dp now;
      let next := NextPhase hp.1 now in
      if negb (bool_decide (next.1 = PhaseActive)) then stand_by next.1 next.2 else go_active dp hp.2 now
  end.
Definition reconcileClient (now : Z) : EM () :=
  st ← get eSt;
  if decide (sUse st = []) then whenM (0 <? length (sRoutes st))%nat (deactivateLocked (bs "not in use")) else
  match ParseAddr (sUse st) with
  | None => updSt (fun st => with_Use st [])
  | Some ip => reconcile_with ip now
  end.

(** ** The exit side *)

Definition startUserspaceExitLocked : EM () :=
  wrap_err (bs "userspace exit") (lift newUserspaceExit) ;; upd (fun e => set_guard e (eGuardAllow e) true).
Definition stopUserspaceExit : EM () := upd (fun e => set_guard e (eGuardAllow e) false).

(** An error is remembered for the status. *)
Definition noting {A} (what : bytes) (m : EM A) : EM A := fun s =>
  match m s with ((e, w), Err err) => ((set_offerErr e (what ++ err), w), Err err) | r => r end.
Definition exit_plan (backend : NATBackend) (uplink : bytes) : NATPlan :=
  MkNATPlan backend ModeExit cfgTun uplink overlaySources AddrNone.
(** The announcement it starts is an operation of its own. *)
Definition enableOffer : EM () :=
  st ← get eSt;
  if sOffer st && negb (bool_decide (sNAT st = None)) then skip else
  backend ← noting [] (lift DetectBackend);
  ns ← (if decide (backend = BackendUserspace) then
          noting [] startUserspaceExitLocked ;;
          mret (MkNATState (exit_plan backend (bs "host")) [] [])
        else
          gw ← wrap_err (bs "find uplink") (noting (bs "no default route: ") (lift (DefaultGateway cfgTun)));
          noting [] (lift (EnableNAT (exit_plan backend (gwInterface gw)))));
  updSt (fun st => with_Offer (with_NAT st (Some ns)) true) ;;
  upd (fun e => set_guard (set_offerErr e []) true (eUserspace e)).

Definition without_forward (ns : NATState) : NATState := MkNATState (nPlan ns) (nPFToken ns) [].
Definition disableNATLocked : EM () :=
  st ← get eSt;
  match sNAT st with
  | None => fun s => (s, Panic)
  | Some ns =>
      if decide (nBackend (nPlan ns) = BackendUserspace) then
        stopUserspaceExit ;; updSt (fun st => with_NAT st None)
      else
        local ← look localAccess;
        r ← attempt (lift (DisableNAT (if local : bool then without_forward ns else ns)));
        updSt (fun st => with_NAT st None) ;;
        match r with inl _ => skip | inr e => fail e end
  end.
(** The users of the guard are reset with the opt-in. *)
Definition disableOffer : EM () :=
  updSt (fun st => with_Offer st false) ;;
  upd (fun e => set_guard (set_offerErr e []) false (eUserspace e)) ;;
  nat ← get (fun e => sNAT (eSt e));
  whenM (negb (bool_decide (nat = None))) disableNATLocked.
(** [SetExitOffer]: the switch, then a save in a section of its own; the error is
    the switch's. *)
Definition SetExitOffer (on : bool) : EM () := fun s =>
  match attempt (if on then enableOffer else disableOffer) s with
  | (s', Ok r) => (save ;; match r with inl _ => skip | inr e => fail e end) s'
  | (s', Err e) => (s', Err e)
  | (s', Panic) => (s', Panic)
  end.

Definition is_userspace (ns : NATState) : bool := bool_decide (nBackend (nPlan ns) = BackendUserspace).
Definition move_uplink (ns : NATState) (uplink : bytes) : EM () :=
  ignore disableNATLocked ;;
  let p := nPlan ns in
  r ← attempt (lift (EnableNAT (MkNATPlan (nBackend p) (nMode p) (nTun p) uplink (nSources p) (nOwn p))));
  (match r with
   | inl ns => updSt (fun st => with_NAT st (Some ns))
   | inr e => upd (fun x => set_offerErr x e)
   end) ;;
  saveLocked.
Definition repair_nat (ns : NATState) : EM () :=
  r ← attempt (lift (EnsureNAT ns));
  match r with
  | inr _ => skip
  | inl (repaired, ns') =>
      updSt (fun st => with_NAT st (Some ns')) ;; whenM repaired saveLocked
  end.
(** [ensureNAT] up to where it gives the mutex back: whether the offer is to be
    enabled again.  [ensure_tail] is the rest; in between [enableOffer] runs and,
    when it succeeds, [save]. *)
Definition ensure_head : EM bool :=
  st ← get eSt;
  match sNAT st with
  | Some ns =>
      (if is_userspace ns then
         ux ← get eUserspace;
         whenM (negb ux) (ignore startUserspaceExitLocked)
       else
         gw ← attempt (lift (DefaultGateway cfgTun));
         match gw with
         | inl gw =>
             if negb (bool_decide (gwInterface gw = [])) && negb (bool_decide (gwInterface gw = nUplink (nPlan ns)))
             then move_uplink ns (gwInterface gw) else repair_nat ns
         | inr _ => repair_nat ns
         end) ;; mret false
  | None => mret (sOffer st)
  end.
Definition ensure_tail : EM () :=
  st ← get eSt;
  match sClientNAT st with
  | Some ns =>
      r ← attempt (lift (EnsureNAT ns));
      match r with inl (_, ns') => updSt (fun st => with_ClientNAT st (Some ns')) | inr _ => skip end
  | None => skip
  end.
Definition ensureNAT : EM () :=
  again ← ensure_head;
  (if again : bool then r ← attempt enableOffer; match r with inl _ => save | inr _ => skip end else skip) ;;
  ensure_tail.

Definition announceOffer (on : bool) : EM () :=
  whenM (negb (bool_decide (cfgServerKey = [])))
    (match cfgBase64 cfgServerKey with
     | Some pk => whenM (length pk =? 32)%nat
         (send pk [z2b TUNControlActionSetExitNodeOffer; z2b (if on then 1 else 0)])
     | None => skip
     end) ;;
  ps ← directPeers;
  each ps (fun k => send k (exit_status (if on then exitFlagOffered else 0))).

(** ** Negotiation *)

Definition answer_request (peer : bytes) (op : Z) : EM () :=
  offering ← get (fun e => sOffer (eSt e) && negb (bool_decide (sNAT (eSt e) = None)));
  let flags := if offering : bool then exitFlagOffered else 0 in
  let flags := if (op =? exitOpUse) && offering then Z.lor flags exitFlagGranted else flags in
  send peer (exit_status flags).
Definition take_status (peer : bytes) (flags : Z) : EM () :=
  let offered := negb (Z.land flags exitFlagOffered =? 0) in
  let granted := negb (Z.land flags exitFlagGranted =? 0) in
  upd (fun e =>
    let e := set_offered e (<[peer := offered]> (eOffered e)) in
    if bool_decide (peer = eUseKey e) && negb (bool_decide (sUse (eSt e) = [])) then
      if granted then set_granted e true else if negb offered then set_granted e false else e
    else e).
Definition handleControl (peer : bytes) (action : Z) (data : bytes) : EM () :=
  if isServerTUNControlPeer peer then skip else
  match data with
  | _ :: d1 :: _ =>
      if action =? TUNControlActionExitRequest then answer_request peer (b2z d1)
      else if action =? TUNControlActionExitStatus then take_status peer (b2z d1)
      else skip
  | _ => skip
  end.

(** ** The user's choice *)

Definition releaseLocked : EM () :=
  e ← get id;
  up ← look hasDevice;
  if bool_decide (eUseKey e = zero_pubkey) || negb up then skip else
  here ← look (fun w => hasPeer w (eUseKey e));
  whenM here (send (eUseKey e) (exit_request exitOpRelease)).

Definition addr_text (ip : IP) : bytes := match To4 ip with Some b => addr_String (AddrFrom4 b) | None => [] end.
Definition matches_target (w : W) (target : bytes) (dp : Discovered) : bool :=
  match To4 (dpAssignedIP dp) with
  | None => false
  | Some _ =>
      let name := hostnameOf w (exit_hex dp) in
      bool_decide (addr_text (dpAssignedIP dp) = target) || (negb (bool_decide (name = [])) && EqualFold name target)
  end.
Definition resolveTarget (target : bytes) : EM Discovered :=
  let target := TrimSpace target in
  if decide (target = []) then fail (bs "missing exit node VPN IP")
  else if existsb (fun a => bool_decide (addr_String (pAddr a) = target)) cfgAddresses
  then fail (bs "a device cannot be its own exit node") else
  up ← look (fun w => hasDevice w && hasP2P w);
  if negb up then fail (bs "peer discovery is not running") else
  ms ← look (fun w => filter (fun dp => matches_target w target dp = true) (discovered w));
  match ms with
  | [] => fail (bs "no peer " ++ target ++ bs " in this network (see `wantasticd peers`)")
  | [dp] => mret dp
  | _ => fail (quote target ++ bs " matches " ++ Itoa (Z.of_nat (length ms)) ++ bs " peers; use the VPN IP")
  end.
Definition client_supported : bool :=
  bool_decide (hOS = bs "darwin") || bool_decide (hOS = bs "linux") || bool_decide (hOS = bs "windows").
(** The critical section of [UseExitNode]. *)
Definition choose_exit (dp : Discovered) : EM () :=
  let ip := addr_text (dpAssignedIP dp) in
  use ← get (fun e => sUse (eSt e));
  whenM (negb (bool_decide (use = [])) && negb (bool_decide (use = ip)))
    (deactivateLocked (bs "switching exit node") ;; releaseLocked) ;;
  whenM (negb (bool_decide (use = ip)))
    (updSt (fun st => with_Use st ip) ;;
     upd (fun e => set_phase (set_times (set_offered (set_breaker (set_granted (set_useKey e (dpKey dp)) false) 0 [])
                                           (delete (dpKey dp) (eOffered e))) None None None)
                     PhaseOff (eReason e) (eSince e))) ;;
  saveLocked.
Definition use_begin (target : bytes) : EM Discovered :=
  if negb client_supported then fail (bs "exit-node client mode is not supported on " ++ hOS) else
  dp ← resolveTarget target;
  choose_exit dp ;; mret dp.
Definition ClearExitNode : EM () :=
  deactivateLocked comeback ;;
  releaseLocked ;;
  updSt (fun st => with_Use st []) ;;
  upd (fun e => set_phase (set_breaker (set_granted (set_useKey e zero_pubkey) false) 0 []) PhaseOff [] (eSince e)) ;;
  saveLocked.

(** ** Status *)

Record ExitUse := MkUse
  { uIP : bytes; uPublicKey : bytes; uHostname : bytes; uState : bytes; uPath : bytes; uReason : bytes; uSince : option Z }.
Definition offline : bytes := bs "offline".
Definition useStatusLocked : EM (option ExitUse) :=
  e ← get id;
  if decide (sUse (eSt e) = []) then
    if decide (eDisabledReason e = []) then mret None
    else mret (Some (MkUse [] [] [] (bs "disabled") offline (eDisabledReason e) (eSince e)))
  else
    let state := if decide (ePhase e = PhaseOff) then phase_text PhasePending else phase_text (ePhase e) in
    dp ← (match ParseAddr (sUse (eSt e)) with Some ip => discoveredByIP ip | None => mret (None : option Discovered) end);
    names ← look (fun w => hostnameOf w);
    mret (Some (match dp with
      | None => MkUse (sUse (eSt e)) [] [] state offline (eReason e) (eSince e)
      | Some dp => MkUse (sUse (eSt e)) (exit_hex dp) (names (exit_hex dp)) state
                     (if dpEstablished dp then bs "direct" else bs "relay") (eReason e) (eSince e)
      end)).
Inductive polled := PollCleared | PollRefused | PollDone (u : ExitUse) | PollAgain.
(** One round of the loop in which [UseExitNode] waits: two sections and, when the
    peer has refused, [ClearExitNode]. *)
Definition use_poll (expired : bool) : EM polled :=
  u ← useStatusLocked;
  match u with
  | None => mret PollCleared
  | Some u =>
      refused ← get (fun e => bool_decide (eOffered e !! eUseKey e = Some false));
      if refused : bool then ignore ClearExitNode ;; mret PollRefused
      else if bool_decide (uState u = phase_text PhaseActive) || expired then mret (PollDone u) else mret PollAgain
  end.

(** ** The loop *)

Definition resetTickPanics : EM () := upd (fun e => set_breaker e 0 (eDisabledReason e)).
(** [recordTickPanic] with its own recover: a panic of the save is swallowed. *)
Definition recovered (m : EM ()) : EM () := fun s => match m s with (s', Panic) => (s', Ok ()) | r => r end.
(** The choice is given up for good. *)
Definition disable_exit : EM () :=
  updSt (fun st => with_Use st []) ;;
  upd (fun e => set_breaker (set_granted (set_useKey e zero_pubkey) false) (eTickPanics e)
                  (bs "exit node disabled after repeated failures")) ;;
  setPhaseLocked PhaseOff (bs "disabled after repeated failures").
Definition recordTickPanic : EM () :=
  recovered (
    upd (fun e => set_breaker e (eTickPanics e + 1) (eDisabledReason e)) ;;
    e ← get id;
    whenM ((exitTickPanicGiveup <=? eTickPanics e) && negb (bool_decide (sUse (eSt e) = [])))
      (disable_exit ;; saveLocked ;; upd (fun e => set_breaker e 0 (eDisabledReason e)))).
Definition tick_work (now : Z) : EM () :=
  reconcileClient now ;;
  e ← get id;
  whenM (since_ge now (eLastEnsure e) exitEnsureEvery)
    (upd (fun e => set_last e (Some now) (eLastQuery e)) ;; ensureNAT) ;;
  whenM (since_ge now (eLastQuery e) exitQueryEvery)
    (upd (fun e => set_last e (eLastEnsure e) (Some now)) ;; queryDirectPeers).
Definition tick_body (now : Z) : EM () := tick_work now ;; resetTickPanics.
Definition runTick (now : Z) : EM () := fun s =>
  match tick_body now s with (s', Panic) => recordTickPanic s' | r => r end.

(** ** Start and stop *)

Definition cleanupStale : EM () :=
  st ← get eSt;
  each (reverse (sRoutes st)) (fun r =>
    match RouteDelCmd hOS r (sRouteTun st) (sRouteGW st) with Ok c => ignore (lift (hRun c)) | _ => skip end) ;;
  updSt (fun st => with_Routes st []) ;;
  (match sClientNAT st with Some ns => dropNAT ns ;; updSt (fun st => with_ClientNAT st None) | None => skip end) ;;
  (match sNAT st with Some ns => dropNAT ns ;; updSt (fun st => with_NAT st None) | None => skip end) ;;
  updSt (fun st => with_HadDefault st false).
(** [loaded] is what [LoadState] read, [exists_] whether there was a file,
    [legacy] the old configuration flag. *)
Definition loaded_state (loaded : State) (exists_ legacy : bool) : State :=
  if negb exists_ && legacy then with_Offer loaded true else loaded.
Definition startExitEngine : EM () :=
  cleanupStale ;;
  st ← get eSt;
  whenM (sOffer st) (ignore enableOffer) ;;
  st ← get eSt;
  whenM (negb (bool_decide (sUse st = []))) (setPhaseLocked PhaseStandby (bs "starting")) ;;
  save.
Definition stopExitEngine : EM () :=
  deactivateLocked (bs "daemon stopping") ;;
  nat ← get (fun e => sNAT (eSt e));
  whenM (negb (bool_decide (nat = None))) (ignore disableNATLocked) ;;
  upd (fun e => set_guard e false (eUserspace e)) ;;
  saveLocked.
End Engine.
