(* ===== verification/ExitRouteProps.v ===== *)
(** * Exit node: where the planned routes send traffic

    The host picks, among the routes that contain a destination, one of the
    longest prefix.  The plan is compared with what it is for: the tunnel's own
    endpoints stay on the gateway, everything else enters the tunnel, and IPv6,
    which the exit does not carry, goes nowhere. *)

From S2P Require Import Prelude GoStr DeviceModel Netip ExitNode.

(** ** The order of addresses *)

Ltac addr_cases :=
  unfold addr_le, addr_leb;
  repeat match goal with |- context [if ?a <? ?b then _ else _] => destruct (Z.ltb_spec a b) end;
  try done; try lia.
#[export] Instance addr_le_total : Total addr_le.
Proof. intros a b. pose proof (bytes_leb_total (addr_zone a) (addr_zone b)). addr_cases; auto. Qed.
#[export] Instance addr_le_trans : Transitive addr_le.
Proof. intros a b c. addr_cases; intros; try done; try lia; eauto using bytes_leb_trans. Qed.

(** ** Which addresses are pinned *)

Definition eligible (p : ClientPlan) (a : Addr) : Prop :=
  Is4 a = true ∧ bypassable a = true ∧ inAny a (plOverlay p) = false ∧ on_link p a = false.
(** An address the tunnel talks to and that may need a host route. *)
Definition endpoint_of (p : ClientPlan) (a : Addr) : Prop := a ∈ Unmap <$> plBypass p ∧ eligible p a.

Lemma bypass_loop_spec p l : ∀ seen acc, seen = list_to_set acc → NoDup acc →
  NoDup (bypass_loop p seen acc l)
  ∧ ∀ a, a ∈ bypass_loop p seen acc l ↔ a ∈ acc ∨ (a ∈ Unmap <$> l ∧ eligible p a).
Proof.
  induction l as [|b l IH]; intros seen acc -> Hnd; simpl; [set_solver|].
  assert (Hskip : ¬ eligible p (Unmap b) ∨ Unmap b ∈ acc →
    NoDup (bypass_loop p (list_to_set acc) acc l)
    ∧ ∀ a, a ∈ bypass_loop p (list_to_set acc) acc l ↔ a ∈ acc ∨ (a ∈ Unmap b :: (Unmap <$> l) ∧ eligible p a)).
  { intros Hs. destruct (IH (list_to_set acc) acc eq_refl Hnd) as [H1 H2]. split; [done|].
    intros a. rewrite H2, elem_of_cons. split; [tauto|]. intros [?|[[->|?] ?]]; tauto. }
  destruct (negb (Is4 (Unmap b)) || bool_decide (Unmap b ∈ list_to_set (C:=gset Addr) acc) || negb (bypassable (Unmap b))) eqn:E1.
  { apply Hskip. apply orb_true_iff in E1 as [E1|E1]; [apply orb_true_iff in E1 as [E1|E1]|].
    - left. intros (H & _). by rewrite H in E1.
    - right. apply bool_decide_eq_true in E1. by apply elem_of_list_to_set in E1.
    - left. intros (_ & H & _). by rewrite H in E1. }
  destruct (inAny (Unmap b) (plOverlay p) || on_link p (Unmap b)) eqn:E2.
  { apply Hskip. left. intros (_ & _ & H1 & H2). by rewrite H1, H2 in E2. }
  apply orb_false_elim in E1 as [E1 E3]. apply orb_false_elim in E1 as [E1 Es]. apply orb_false_elim in E2 as [E2 E4].
  apply bool_decide_eq_false in Es. rewrite elem_of_list_to_set in Es.
  destruct (IH ({[Unmap b]} ∪ list_to_set acc) (acc ++ [Unmap b])) as [H1 H2].
  { rewrite list_to_set_app_L. set_solver. }
  { apply NoDup_app. split; [done|]. split; [set_solver|apply NoDup_singleton]. }
  split; [done|]. intros a. rewrite H2, elem_of_app, list_elem_of_singleton, elem_of_cons.
  assert (eligible p (Unmap b)) by (by apply negb_false_iff in E1, E3; repeat split).
  change (list_fmap Addr Addr Unmap l) with (Unmap <$> l). split; [|tauto]. intros [[? | ->]|[? ?]]; tauto.
Qed.

Definition all_endpoints (p : ClientPlan) : list Addr := merge_sort addr_le (bypass_loop p ∅ [] (plBypass p)).
Definition pinned (p : ClientPlan) : list Addr := take (bypass_max p) (all_endpoints p).

Lemma all_endpoints_spec p : NoDup (all_endpoints p) ∧ (∀ a, a ∈ all_endpoints p ↔ endpoint_of p a)
  ∧ StronglySorted addr_le (all_endpoints p).
Proof.
  unfold all_endpoints. destruct (bypass_loop_spec p (plBypass p) ∅ []) as [H1 H2]; [done|constructor|].
  split; [by rewrite merge_sort_Permutation|]. split.
  - intros a. rewrite merge_sort_Permutation, H2. unfold endpoint_of. set_solver.
  - apply StronglySorted_merge_sort; apply _.
Qed.
Lemma endpoint_4 p a : a ∈ all_endpoints p → ∃ x, a = Addr4 x.
Proof. intros H. apply all_endpoints_spec in H as [_ (H & _)]. destruct a; naive_solver. Qed.
Lemma addr4_antisym x y : addr_le (Addr4 x) (Addr4 y) → addr_le (Addr4 y) (Addr4 x) → x = y.
Proof. addr_cases; intros; try done; simpl in *; lia. Qed.

(** The first [n] of a sorted list are the elements with fewer than [n] smaller
    ones. *)
Lemma take_by_rank (l : list Addr) (n : nat) a :
  NoDup l → StronglySorted addr_le l →
  (∀ x y, x ∈ l → y ∈ l → addr_le x y → addr_le y x → x = y) →
  a ∈ take n l ↔ a ∈ l ∧ (length (filter (fun b => Less b a = true) l) < n)%nat.
Proof.
  intros Hnd Hs. revert n Hnd. induction Hs as [|x l Hs IH Hx]; intros n Hnd Hanti.
  { rewrite take_nil. set_solver. }
  apply NoDup_cons in Hnd as [Hnx Hnd]. rewrite Forall_forall in Hx.
  assert (Hanti' : ∀ x y, x ∈ l → y ∈ l → addr_le x y → addr_le y x → x = y) by (intros; apply Hanti; set_solver).
  destruct n as [|n]; [split; [by intros ?%elem_of_nil|intros [_ ?]; lia]|]. cbn [take].
  rewrite elem_of_cons, IH, elem_of_cons by done. rewrite filter_cons.
  assert (Hlt : ∀ b, b ∈ l → Less x b = true).
  { intros b Hb. unfold Less. destruct (addr_leb b x) eqn:E; [|done]. exfalso.
    pose proof (Hanti x b ltac:(set_solver) ltac:(set_solver) (Hx b Hb) E). by subst. }
  assert (Hirr : ∀ b, addr_le x b → Less b x = false) by (intros b Hb; unfold Less; by rewrite Hb).
  split.
  - intros [->|[Ha Hl]]; [|rewrite decide_True by auto; simpl; split; [tauto|lia]].
    split; [tauto|]. rewrite decide_False.
    + assert (filter (fun b => Less b x = true) l = []) as ->; [|simpl; lia].
      clear -Hx Hirr. induction l as [|b l IH]; [done|]. rewrite filter_cons_False; [apply IH; set_solver|].
      rewrite Hirr by set_solver. done.
    + rewrite Hirr; [done|]. by destruct (addr_le_total x x).
  - intros [[->|Ha] Hl]; [by left|right]. split; [done|]. rewrite decide_True in Hl by auto. simpl in Hl. lia.
Qed.

Lemma pinned_spec p a :
  a ∈ pinned p ↔ endpoint_of p a ∧ (length (filter (fun b => Less b a = true) (all_endpoints p)) < bypass_max p)%nat.
Proof.
  destruct (all_endpoints_spec p) as (Hnd & Hin & Hs). unfold pinned.
  rewrite take_by_rank, Hin; [done..|]. intros x y Hx Hy.
  destruct (endpoint_4 _ _ Hx) as [u ->], (endpoint_4 _ _ Hy) as [v ->].
  intros H1 H2. f_equal. by apply addr4_antisym.
Qed.

(** The order in which the addresses were collected does not matter: the source
    collects them from a map. *)
Definition with_bypass (p : ClientPlan) (l : list Addr) : ClientPlan :=
  MkPlan l (plOnLink p) (plOverlay p) (plBlockIPv6 p) (plMaxBypass p).
Lemma all_endpoints_perm p l : plBypass p ≡ₚ l → all_endpoints (with_bypass p l) = all_endpoints p.
Proof.
  intros Hl. destruct (all_endpoints_spec p) as (Hnd & Hin & Hs).
  destruct (all_endpoints_spec (with_bypass p l)) as (Hnd' & Hin' & Hs').
  apply (StronglySorted_unique_strong addr_le); [|done|done|].
  - intros x y Hx Hy. destruct (endpoint_4 _ _ Hx) as [u ->], (endpoint_4 _ _ Hy) as [v ->].
    intros H1 H2. f_equal. by apply addr4_antisym.
  - apply NoDup_Permutation; [done..|]. intros a. rewrite Hin, Hin'. unfold endpoint_of. simpl. by rewrite Hl.
Qed.

Definition bypass_route (a : Addr) : Route := MkRoute (PrefixFrom a 32) RouteBypass.
Definition reject_routes (p : ClientPlan) : list Route :=
  if plBlockIPv6 p then (fun d => MkRoute d RouteReject) <$> splitV6 else [].
Lemma PlanClientRoutes_eq p :
  PlanClientRoutes p = (bypass_route <$> pinned p) ++ ((fun d => MkRoute d RouteTunnel) <$> splitV4) ++ reject_routes p.
Proof.
  unfold PlanClientRoutes, pinned. fold (all_endpoints p). do 2 f_equal.
  destruct (Nat.ltb_spec (bypass_max p) (length (all_endpoints p))); [done|].
  by rewrite take_ge by lia.
Qed.

(** ** Longest prefix *)

Definition picks (table : list Route) (a : Addr) (r : Route) : Prop :=
  r ∈ table ∧ prefix_contains (Dst r) a = true
  ∧ ∀ r', r' ∈ table → prefix_contains (Dst r') a = true → pBits (Dst r') ≤ pBits (Dst r).

Lemma contains_host x y : prefix_contains (PrefixFrom (Addr4 y) 32) (Addr4 x) = (x =? y).
Proof.
  unfold prefix_contains, PrefixFrom. simpl. rewrite Z.shiftr_0_r.
  apply eq_true_iff_eq. by rewrite !Z.eqb_eq, Z.lxor_eq_0_iff.
Qed.
Lemma half_of n x : 0 ≤ n → 0 ≤ x < 2 ^ (n + 1) → (Z.shiftr x n = 0 ∧ x < 2 ^ n) ∨ (Z.shiftr x n = 1 ∧ 2 ^ n ≤ x).
Proof.
  intros Hn Hx. rewrite Z.shiftr_div_pow2 by lia. rewrite Z.pow_add_r, Z.pow_1_r in Hx by lia.
  destruct (Z.lt_ge_cases x (2 ^ n)); [left; rewrite Z.div_small by lia; lia|right; split; [|lia]].
  symmetry. apply (Z.div_unique_pos x (2 ^ n) 1 (x - 2 ^ n)); lia.
Qed.
Lemma shift_split n x : 0 ≤ n → Z.shiftr (Z.lxor x (2 ^ n)) n = Z.lxor (Z.shiftr x n) 1.
Proof.
  intros Hn. rewrite Z.shiftr_lxor. f_equal. rewrite Z.shiftr_div_pow2 by lia. apply Z.div_same. lia.
Qed.
Lemma contains_split4 x : 0 ≤ x < 2 ^ 32 →
  ∃ d, d ∈ splitV4 ∧ prefix_contains d (Addr4 x) = true ∧ pBits d = 1.
Proof.
  intros Hx. destruct (half_of 31 x) as [[H _]|[H _]]; [lia|exact Hx| |].
  - exists (MkPrefix (Addr4 0) 1). split; [apply elem_of_cons; by left|]. split; [|exact eq_refl].
    unfold prefix_contains. cbn [pAddr pBits]. change (32 - 1) with 31. by rewrite Z.lxor_0_r, H.
  - exists (MkPrefix (Addr4 (2 ^ 31)) 1). split; [apply elem_of_cons; right; apply elem_of_cons; by left|].
    split; [|exact eq_refl]. unfold prefix_contains. cbn [pAddr pBits]. change (32 - 1) with 31.
    by rewrite shift_split, H by lia.
Qed.
Lemma contains_split6 x : 0 ≤ x < 2 ^ 128 →
  ∃ d, d ∈ splitV6 ∧ prefix_contains d (Addr6 x []) = true ∧ pBits d = 1.
Proof.
  intros Hx. destruct (half_of 127 x) as [[H _]|[H _]]; [lia|exact Hx| |].
  - exists (MkPrefix (Addr6 0 []) 1). split; [apply elem_of_cons; by left|]. split; [|exact eq_refl].
    unfold prefix_contains. cbn [pAddr pBits]. change (128 - 1) with 127. by rewrite Z.lxor_0_r, H.
  - exists (MkPrefix (Addr6 (2 ^ 127) []) 1). split; [apply elem_of_cons; right; apply elem_of_cons; by left|].
    split; [|exact eq_refl]. unfold prefix_contains. cbn [pAddr pBits]. change (128 - 1) with 127.
    by rewrite shift_split, H by lia.
Qed.

Lemma in_splitV4 d : d ∈ splitV4 → pBits d = 1 ∧ ∃ x, pAddr d = Addr4 x.
Proof. unfold splitV4. rewrite !elem_of_cons, elem_of_nil. intros [->|[->|[]]]; eauto. Qed.
Lemma in_splitV6 d : d ∈ splitV6 → pBits d = 1 ∧ ∃ x, pAddr d = Addr6 x [].
Proof. unfold splitV6. rewrite !elem_of_cons, elem_of_nil. intros [->|[->|[]]]; eauto. Qed.
Lemma contains_family d a : prefix_contains d a = true → Is4 (pAddr d) = Is4 a ∧ Is6 (pAddr d) = Is6 a.
Proof.
  unfold prefix_contains. intros H%andb_true_iff. destruct H as [_ H].
  destruct (pAddr d), a as [| |? [|]]; done.
Qed.

(** A planned route is one of three sorts, told by the family and length. *)
Lemma planned_cases p r : r ∈ PlanClientRoutes p →
  (∃ x, Addr4 x ∈ pinned p ∧ r = bypass_route (Addr4 x))
  ∨ (Kind r = RouteTunnel ∧ Dst r ∈ splitV4) ∨ (Kind r = RouteReject ∧ Dst r ∈ splitV6 ∧ plBlockIPv6 p = true).
Proof.
  rewrite PlanClientRoutes_eq, !elem_of_app, !list_elem_of_fmap. unfold reject_routes.
  intros [(a & -> & Ha)|[(d & -> & Hd)|Hr]].
  - left. assert (a ∈ all_endpoints p) as [x ->]%endpoint_4; [|eauto].
    unfold pinned in Ha. apply elem_of_take in Ha as (i & Ha & _). by eapply list_elem_of_lookup_2.
  - auto.
  - right; right. destruct (plBlockIPv6 p); [|by apply elem_of_nil in Hr].
    apply list_elem_of_fmap in Hr as (d & -> & Hd). auto.
Qed.

Lemma picks_v4 p x : 0 ≤ x < 2 ^ 32 →
  (∃ r, picks (PlanClientRoutes p) (Addr4 x) r)
  ∧ ∀ r, picks (PlanClientRoutes p) (Addr4 x) r →
         Kind r = if decide (Addr4 x ∈ pinned p) then RouteBypass else RouteTunnel.
Proof.
  intros Hx. destruct (contains_split4 x Hx) as (d & Hd & Hc & Hb).
  assert (Hsplit : MkRoute d RouteTunnel ∈ PlanClientRoutes p).
  { rewrite PlanClientRoutes_eq, !elem_of_app, !list_elem_of_fmap. right; left. eauto. }
  assert (Hcase : ∀ r, r ∈ PlanClientRoutes p → prefix_contains (Dst r) (Addr4 x) = true →
    (r = bypass_route (Addr4 x) ∧ Addr4 x ∈ pinned p) ∨ (Kind r = RouteTunnel ∧ pBits (Dst r) = 1)).
  { intros r Hr Hcr. apply planned_cases in Hr as [(y & Hy & ->)|[[Hk Hd']|(_ & Hd' & _)]].
    - left. unfold bypass_route in Hcr. cbn [Dst] in Hcr. rewrite contains_host in Hcr.
      apply Z.eqb_eq in Hcr as ->. done.
    - right. split; [done|]. by apply in_splitV4.
    - apply in_splitV6 in Hd' as [_ [y Hy]]. apply contains_family in Hcr as [H _]. by rewrite Hy in H. }
  destruct (decide (Addr4 x ∈ pinned p)) as [Hin|Hout].
  - assert (Hpin : bypass_route (Addr4 x) ∈ PlanClientRoutes p).
    { rewrite PlanClientRoutes_eq, elem_of_app. left. by apply list_elem_of_fmap_2. }
    assert (Hself : prefix_contains (Dst (bypass_route (Addr4 x))) (Addr4 x) = true)
      by (unfold bypass_route; cbn [Dst]; by rewrite contains_host, Z.eqb_refl).
    split.
    + exists (bypass_route (Addr4 x)). split; [done|]. split; [done|]. intros r' Hr' Hc'.
      destruct (Hcase r' Hr' Hc') as [[-> _]|[_ ->]]; unfold bypass_route; cbn; lia.
    + intros r (Hr & Hcr & Hmax). destruct (Hcase r Hr Hcr) as [[-> _]|[_ Hb1]]; [done|].
      pose proof (Hmax _ Hpin Hself) as Hle. rewrite Hb1 in Hle. unfold bypass_route in Hle. cbn in Hle. lia.
  - split.
    + exists (MkRoute d RouteTunnel). split; [done|]. split; [done|]. intros r' Hr' Hc'.
      destruct (Hcase r' Hr' Hc') as [[_ ?]|[_ ->]]; [done|]. cbn [Dst]. lia.
    + intros r (Hr & Hcr & _). by destruct (Hcase r Hr Hcr) as [[_ ?]|[? _]].
Qed.
Lemma picks_v6 p x r : picks (PlanClientRoutes p) (Addr6 x []) r → Kind r = RouteReject ∧ plBlockIPv6 p = true.
Proof.
  intros (Hr & Hcr & _). apply planned_cases in Hr as [(y & Hy & ->)|[[Hk Hd']|(Hk & _ & Hb)]]; [done| |done].
  apply in_splitV4 in Hd' as [_ [y Hy]]. apply contains_family in Hcr as [H _]. by rewrite Hy in H.
Qed.
Lemma picks_v6_some p x : 0 ≤ x < 2 ^ 128 → plBlockIPv6 p = true → ∃ r, picks (PlanClientRoutes p) (Addr6 x []) r.
Proof.
  intros Hx Hb. destruct (contains_split6 x Hx) as (d & Hd & Hc & Hl). exists (MkRoute d RouteReject).
  split; [|split; [done|]].
  - rewrite PlanClientRoutes_eq, !elem_of_app. right; right. unfold reject_routes. rewrite Hb.
    apply list_elem_of_fmap. eauto.
  - intros r' Hr' Hc'. cbn [Dst]. rewrite Hl.
    apply planned_cases in Hr' as [(y & Hy & ->)|[[_ Hd']|(_ & Hd' & _)]]; 
      [done|apply in_splitV4 in Hd' as [-> _]|apply in_splitV6 in Hd' as [-> _]]; lia.
Qed.

(** C22: With the planned routes in place the host sends every IPv4 packet for a
    pinned endpoint to the gateway and every other IPv4 packet into the tunnel,
    and refuses all IPv6 exactly when that is asked for.  Pinned are, of the
    eligible addresses (unicast IPv4, neither in the overlay nor on a connected
    subnet), the [max] lowest; the order they were collected in is irrelevant. *)
Theorem plan_routes_traffic p :
  let routes := PlanClientRoutes p in
  (∀ x, 0 ≤ x < 2 ^ 32 →
     (∃ r, picks routes (Addr4 x) r)
     ∧ ∀ r, picks routes (Addr4 x) r → Kind r = if decide (Addr4 x ∈ pinned p) then RouteBypass else RouteTunnel)
  ∧ (∀ x r, picks routes (Addr6 x []) r → Kind r = RouteReject ∧ plBlockIPv6 p = true)
  ∧ (∀ x, 0 ≤ x < 2 ^ 128 → plBlockIPv6 p = true → ∃ r, picks routes (Addr6 x []) r)
  ∧ (∀ a, a ∈ pinned p ↔
       endpoint_of p a ∧ (length (filter (fun b => Less b a = true) (all_endpoints p)) < bypass_max p)%nat)
  ∧ (∀ l, plBypass p ≡ₚ l → PlanClientRoutes (with_bypass p l) = routes).
Proof.
  intros routes. split; [apply picks_v4|]. split; [apply picks_v6|]. split; [apply picks_v6_some|].
  split; [apply pinned_spec|]. intros l Hl. unfold routes. rewrite !PlanClientRoutes_eq. f_equal.
  unfold pinned. by rewrite all_endpoints_perm.
Qed.

(** The hub at 203.0.113.9 and sixty-four endpoints of peers at lower addresses:
    the list is cut at sixty-four in the order of addresses, so the hub is not
    pinned and the tunnel's own packets to it enter the tunnel. *)
Definition hub : Addr := Addr4 (203 * 2 ^ 24 + 113 * 2 ^ 8 + 9).
Definition crowd : ClientPlan :=
  MkPlan (hub :: ((fun i => Addr4 (8 * 2 ^ 24 + i)) <$> seqZ 1 64)) None [] true 0.
Lemma crowded_plan_loops_hub :
  endpoint_of crowd hub ∧ ∀ r, picks (PlanClientRoutes crowd) hub r → Kind r = RouteTunnel.
Proof.
  split; [split; [apply list_elem_of_fmap; exists hub; split; [done|apply elem_of_cons; by left]|by repeat split]|].
  intros r Hr. destruct (picks_v4 crowd (203 * 2 ^ 24 + 113 * 2 ^ 8 + 9) ltac:(lia)) as [_ H].
  rewrite (H r Hr). rewrite decide_False; [done|].
  assert (bool_decide (hub ∈ pinned crowd) = false) as Hb by (vm_compute; reflexivity).
  by apply bool_decide_eq_false in Hb.
Qed.
