(* ===== verification/ExitEngineInv.v ===== *)
(** * Exit node: what the engine's sections preserve

    The host's routing table is seen through the commands that would undo what
    the agent put there.  [MachineLaws] is what is relied on of the host: only an
    add command that succeeds brings a route, a delete command that has run leaves
    no such route, and nothing else in the machine touches routes.  The invariant
    of the engine is preserved by every section, whether it ends with a value, an
    error or a panic. *)

From S2P Require Import Prelude GoStr DeviceModel NetAddr Netip ExitNode ExitNat ExitGuard ExitEngine.
From S2P Require Import ExitRouteProps.

(** ** Commands that bring routes *)

Definition verb (c : Cmd) : option bytes :=
  if decide (cName c = bs "ip") then
    if decide (cArgs c !! 0%nat = Some (bs "-6")) then cArgs c !! 2%nat else cArgs c !! 1%nat
  else if decide (cName c = bs "/sbin/route") then cArgs c !! 1%nat
  else if decide (cName c = bs "netsh") then cArgs c !! 2%nat
  else None.
Definition is_add (c : Cmd) : bool := bool_decide (verb c = Some (bs "add")) || bool_decide (verb c = Some (bs "replace")).

Lemma add_is_add os r tun gw c : RouteAddCmd os r tun gw = Ok c → is_add c = true.
Proof.
  unfold RouteAddCmd, routeCmd, route_darwin, route_linux, route_windows.
  generalize (prefix_String (Masked (Dst r))), (addr_String (gwAddr gw)), (Itoa (gwIfIndex gw)). intros dst ga ix.
  repeat case_match; intros [= <-]; reflexivity.
Qed.
Lemma del_not_add os r tun gw c : RouteDelCmd os r tun gw = Ok c →
  is_add c = false ∧ is_add (MkCmd (cName c) (stripInterface (cArgs c)) []) = false.
Proof.
  unfold RouteDelCmd, routeCmd, route_darwin, route_linux, route_windows, family.
  generalize (prefix_String (Masked (Dst r))), (addr_String (gwAddr gw)), (Itoa (gwIfIndex gw)). intros dst ga ix.
  repeat case_match; intros [= <-]; split; reflexivity.
Qed.
(** What was installed can be removed; the gateway matters for bypass routes. *)
Lemma add_del os r tun gw c : RouteAddCmd os r tun gw = Ok c → ∃ d, RouteDelCmd os r tun gw = Ok d.
Proof.
  unfold RouteAddCmd, RouteDelCmd, routeCmd, route_darwin, route_linux, route_windows.
  repeat case_match; simplify_eq; eauto.
Qed.
Lemma del_gateway os r tun gw gw' : Kind r ≠ RouteBypass → RouteDelCmd os r tun gw = RouteDelCmd os r tun gw'.
Proof.
  intros Hk. unfold RouteDelCmd, routeCmd, route_darwin, route_linux, route_windows.
  destruct (Kind r); [|done|]; done.
Qed.

Class MachineLaws (W : Type) `{!Machine W} : Type := {
  owned : W → Cmd → Prop;
  run_other c w d : is_add c = false → owned (hRun c w).1 d → owned w d;
  run_add r tun gw c w d : RouteAddCmd hOS r tun gw = Ok c → owned (hRun c w).1 d →
    owned w d ∨ (RouteDelCmd hOS r tun gw = Ok d ∧ ∃ out, (hRun c w).2 = Ok out);
  run_del r tun gw c w : RouteDelCmd hOS r tun gw = Ok c → (hRun c w).2 ≠ Panic → ¬ owned (hRun c w).1 c;
  read_quiet f w d : owned (hReadFile f w).1 d → owned w d;
  write_quiet f b w d : owned (hWriteFile f b w).1 d → owned w d;
  ipcGet_quiet w d : owned (ipcGet w).1 d → owned w d;
  ipcSet_quiet b w d : owned (ipcSet b w).1 d → owned w d;
  send_quiet k b w d : owned (sendControl k b w).1 d → owned w d;
  tryP2P_quiet i w d : owned (tryP2P i w).1 d → owned w d;
  save_quiet st w d : owned (saveState st w).1 d → owned w d;
  userspace_quiet w d : owned (newUserspaceExit w).1 d → owned w d }.

(** ** Preservation *)

Section Pres.
Context {S : Type} (I : S → Prop).
Definition pres {A} (m : M S A) : Prop := ∀ s, I s → I (m s).1.

Lemma pres_ret {A} (a : A) : pres (mret a). Proof. intros s Hs. exact Hs. Qed.
Lemma pres_skip : pres skip. Proof. intros s Hs. exact Hs. Qed.
Lemma pres_fail {A} e : pres (fail (A:=A) e). Proof. intros s Hs. exact Hs. Qed.
Lemma pres_bind {A B} (m : M S A) (f : A → M S B) : pres m → (∀ a, pres (f a)) → pres (m ≫= f).
Proof.
  intros Hm Hf s Hs. specialize (Hm s Hs). unfold mbind, M_bind. destruct (m s) as [s' [a|e|]]; [|done..].
  by apply Hf.
Qed.
Lemma pres_attempt {A} (m : M S A) : pres m → pres (attempt m).
Proof. intros Hm s Hs. specialize (Hm s Hs). unfold attempt. by destruct (m s) as [s' []]. Qed.
Lemma pres_ignore {A} (m : M S A) : pres m → pres (ignore m).
Proof. intros Hm s Hs. specialize (Hm s Hs). unfold ignore. by destruct (m s) as [s' []]. Qed.
Lemma pres_wrap {A} e (m : M S A) : pres m → pres (wrap_err e m).
Proof. intros Hm s Hs. specialize (Hm s Hs). unfold wrap_err. by destruct (m s) as [s' []]. Qed.
Lemma pres_of_res {A} (r : res bytes A) : pres (of_res r). Proof. intros s Hs. exact Hs. Qed.
Lemma pres_panic {A} : pres (fun s => (s, @Panic bytes A)). Proof. intros s Hs. exact Hs. Qed.
End Pres.
(** Binds associate. *)
Lemma pres_assoc {S A B C} (I : S → Prop) (m : M S A) (f : A → M S B) (g : B → M S C) :
  pres I (m ≫= fun a => f a ≫= g) → pres I ((m ≫= f) ≫= g).
Proof. intros H s Hs. specialize (H s Hs). unfold mbind, M_bind in *. by destruct (m s) as [s' []]. Qed.
(** From [P], [I] holds however [m] ends, and [Q] when it ends with a value. *)
Definition trip {S A} (I P : S → Prop) (m : M S A) (Q : A → S → Prop) : Prop :=
  ∀ s, P s → I (m s).1 ∧ ∀ a, (m s).2 = Ok a → Q a (m s).1.
Section Trip.
Context {S : Type} (I : S → Prop).
Lemma trip_bind {A B} P (m : M S A) Q (f : A → M S B) R :
  trip I P m Q → (∀ a, trip I (Q a) (f a) R) → trip I P (m ≫= f) R.
Proof.
  intros Hm Hf s Hs. destruct (Hm s Hs) as [Hi Hq]. unfold mbind, M_bind.
  destruct (m s) as [s' [a|e|]]; [|done..]. apply Hf, Hq. done.
Qed.
Lemma trip_pres {A} P (m : M S A) : (∀ s, P s → I s) → pres P m → trip I P m (fun _ => P).
Proof. intros Hpi Hm s Hs. specialize (Hm s Hs). split; [by apply Hpi|done]. Qed.
Lemma trip_conseq {A} P P' (m : M S A) Q Q' :
  trip I P' m Q' → (∀ s, P s → P' s) → (∀ a s, Q' a s → Q a s) → trip I P m Q.
Proof. intros Hm Hp Hq s Hs. destruct (Hm s (Hp s Hs)) as [Hi H]. split; [done|]. eauto. Qed.
Lemma trip_attempt {A} P (m : M S A) Q :
  trip I P m Q → trip I P (attempt m) (fun r s => match r with inl a => Q a s | inr _ => I s end).
Proof.
  intros Hm s Hs. destruct (Hm s Hs) as [Hi Hq]. unfold attempt. destruct (m s) as [s' [a|e|]]; simpl in *;
    (split; [done|]); intros r; [intros [= <-]; auto|intros [= <-]; auto|done].
Qed.
End Trip.

Create HintDb exit.
#[export] Hint Resolve pres_ret pres_skip pres_fail pres_attempt pres_ignore pres_wrap pres_of_res pres_panic : exit.

#[export] Hint Extern 1 (is_add _ = false) => reflexivity : exit.

(** Steps through a computation: binds, branches, then the database. *)
Ltac pres_step :=
  match goal with
  | |- pres _ (_ ≫= _) => apply pres_bind; [|intros ?]
  | |- pres _ (match ?x with _ => _ end) => destruct x
  | |- pres _ (let '(_, _) := ?x in _) => destruct x
  | |- pres _ (foldr _ _ _) => fail
  | |- _ => solve [eauto 3 with exit]
  | |- pres _ (attempt _) => apply pres_attempt
  | |- pres _ (ignore _) => apply pres_ignore
  | |- pres _ (wrap_err _ _) => apply pres_wrap
  end.
Ltac pres := repeat pres_step.

(** ** Quiet computations on the machine *)

Section Quiet.
Context {W : Type} `{!UnicodeCase} `{!Machine W} `{!MachineLaws W}.

(** Every route in place afterwards was in place before. *)
Definition within (P : Cmd → Prop) (w : W) : Prop := ∀ d, owned w d → P d.
Abbreviation quiet m := (∀ P, pres (within P) m).

Lemma quiet_run c : is_add c = false → quiet (hRun c).
Proof. intros Hc P w Hw d Hd. eapply Hw, run_other; eauto. Qed.
Lemma quiet_read f : quiet (hReadFile f).
Proof. intros P w Hw d Hd. eapply Hw, read_quiet; eauto. Qed.
Lemma quiet_write f b : quiet (hWriteFile f b).
Proof. intros P w Hw d Hd. eapply Hw, write_quiet; eauto. Qed.
Lemma quiet_ipcGet : quiet ipcGet.
Proof. intros P w Hw d Hd. eapply Hw, ipcGet_quiet; eauto. Qed.
Lemma quiet_ipcSet b : quiet (ipcSet b).
Proof. intros P w Hw d Hd. eapply Hw, ipcSet_quiet; eauto. Qed.
Lemma quiet_send k b : quiet (sendControl k b).
Proof. intros P w Hw d Hd. eapply Hw, send_quiet; eauto. Qed.
Lemma quiet_try i : quiet (tryP2P i).
Proof. intros P w Hw d Hd. eapply Hw, tryP2P_quiet; eauto. Qed.
Lemma quiet_save st : quiet (saveState st).
Proof. intros P w Hw d Hd. eapply Hw, save_quiet; eauto. Qed.
Lemma quiet_userspace : quiet newUserspaceExit.
Proof. intros P w Hw d Hd. eapply Hw, userspace_quiet; eauto. Qed.
Local Hint Resolve quiet_run quiet_read quiet_write : exit.

Definition other_program (bin : bytes) : Prop := bin ≠ bs "ip" ∧ bin ≠ bs "/sbin/route" ∧ bin ≠ bs "netsh".
Lemma other_not_add bin args stdin : other_program bin → is_add (MkCmd bin args stdin) = false.
Proof. intros (H1 & H2 & H3). unfold is_add, verb. simpl. by rewrite !decide_False by done. Qed.
Lemma quiet_bin {A} (f : bytes → M W A) : (∀ bin, other_program bin → quiet (f bin)) → quiet (iptablesBin ≫= f).
Proof.
  intros Hf P w Hw. unfold iptablesBin, firstExisting, mbind, M_bind. apply Hf; [|done].
  destruct (List.find _ _) as [b|] eqn:E; [|by repeat split].
  apply find_some in E as [Hin _]. simpl in Hin. repeat destruct Hin as [<-|Hin]; by repeat split.
Qed.
Lemma quiet_foldr {A} (f : A → M W ()) l : (∀ x, quiet (f x)) → quiet (foldr (fun x k => f x ;; k) skip l).
Proof. intros Hf P. induction l as [|x l IH]; simpl; [apply pres_skip|]. apply pres_bind; [apply Hf|done]. Qed.

Lemma quiet_cmd_bin bin args stdin : other_program bin → quiet (hRun (MkCmd bin args stdin)).
Proof. intros Hbin. apply quiet_run. by apply other_not_add. Qed.
Lemma quiet_check bin r : other_program bin → quiet (hRun (CheckCmd bin r)).
Proof. apply quiet_cmd_bin. Qed.
Lemma quiet_del bin r : other_program bin → quiet (hRun (DelCmd bin r)).
Proof. apply quiet_cmd_bin. Qed.
Lemma quiet_add_rule bin r : other_program bin → quiet (hRun (AddCmd bin r)).
Proof. intros Hbin. unfold AddCmd. destruct (rInsert r); by apply quiet_cmd_bin. Qed.
Local Hint Resolve quiet_check quiet_del quiet_add_rule : exit.

Lemma quiet_removeFW4 p : quiet (removeFW4 p).
Proof. intros P. unfold removeFW4. pres. apply quiet_foldr. intros x P'. pres. Qed.
Lemma quiet_apply_iptables bin rules : other_program bin → quiet (apply_iptables bin rules).
Proof. intros Hbin P. induction rules as [|r rules IH]; simpl; pres; apply IH. Qed.
Local Hint Resolve quiet_removeFW4 quiet_apply_iptables : exit.
Lemma quiet_applyRules st : quiet (applyRules st).
Proof.
  intros P. unfold applyRules. destruct (nBackend (nPlan st)); try (by pres).
  apply quiet_bin. intros bin Hb P'. pres.
Qed.
Lemma quiet_delete_copies n bin r first : other_program bin → quiet (delete_copies n bin r first).
Proof. intros Hbin P. induction n as [|n IH]; simpl; pres; apply IH. Qed.
Lemma quiet_delete_rules bin rules first : other_program bin → quiet (delete_rules bin rules first).
Proof.
  intros Hbin P. revert first. induction rules as [|r rules IH]; intros first; cbn [delete_rules]; [pres|].
  apply pres_bind; [by apply quiet_delete_copies|apply IH].
Qed.
Local Hint Resolve quiet_applyRules quiet_delete_rules : exit.
Lemma quiet_removeRules st : quiet (removeRules st).
Proof.
  intros P. unfold removeRules. destruct (nBackend (nPlan st)); try (by pres).
  apply quiet_bin. intros bin Hb P'. pres.
Qed.
Lemma quiet_DisableNAT st : quiet (DisableNAT st).
Proof. intros P. unfold DisableNAT, restoreForwarding, report. pres. apply quiet_removeRules. Qed.
Local Hint Resolve quiet_DisableNAT : exit.
Lemma quiet_EnableNAT plan : quiet (EnableNAT plan).
Proof. intros P. unfold EnableNAT, enableForwarding. pres. Qed.
Lemma quiet_present p : quiet (nat_present p).
Proof.
  intros P. unfold nat_present. destruct (nBackend p); try (by pres). apply quiet_bin. intros bin Hb P'.
  induction (IPTablesRules p) as [|r rules IH]; simpl; pres; apply IH.
Qed.
Lemma quiet_EnsureNAT st : quiet (EnsureNAT st).
Proof. intros P. unfold EnsureNAT. pres. apply quiet_present. Qed.
Lemma quiet_hasNft : quiet hasNft. Proof. intros P w Hw. exact Hw. Qed.
Local Hint Resolve quiet_hasNft : exit.
Lemma quiet_DetectBackend : quiet DetectBackend.
Proof. intros P. unfold DetectBackend. pres. Qed.
Lemma quiet_DefaultGateway tun : quiet (DefaultGateway tun).
Proof. intros P. unfold DefaultGateway. pres. Qed.
End Quiet.
#[export] Hint Resolve quiet_run quiet_read quiet_write quiet_ipcGet quiet_ipcSet quiet_send quiet_try quiet_save quiet_userspace quiet_DisableNAT quiet_EnableNAT
  quiet_EnsureNAT quiet_DetectBackend quiet_DefaultGateway : exit.

(** ** What a computation leaves alone *)

(** Computations that leave a part of the engine's state as it is. *)
Section Keeps.
Context {W : Type}.
Abbreviation EM := (M (exitEngine * W)).
Definition keeps {T A} (f : exitEngine → T) (m : EM A) : Prop := ∀ s, f (m s).1.1 = f s.1.
Context {T : Type} (f : exitEngine → T).
Lemma engine_lift {A} (m : M W A) (s : exitEngine * W) : (lift m s).1.1 = s.1.
Proof. unfold lift. by destruct (m s.2). Qed.
Lemma keeps_lift {A} (m : M W A) : keeps f (lift m).
Proof. intros s. by rewrite engine_lift. Qed.
Lemma keeps_bind {A B} (m : EM A) (g : A → EM B) : keeps f m → (∀ a, keeps f (g a)) → keeps f (m ≫= g).
Proof.
  intros Hm Hg s. specialize (Hm s). unfold mbind, M_bind. destruct (m s) as [s' [a|e|]]; [|done..].
  rewrite Hg. done.
Qed.
Lemma keeps_upd g : (∀ e, f (g e) = f e) → keeps f (upd g).
Proof. intros Hg s. apply Hg. Qed.
Lemma keeps_ignore {A} (m : EM A) : keeps f m → keeps f (ignore m).
Proof. intros Hm s. specialize (Hm s). unfold ignore. by destruct (m s) as [s' []]. Qed.
Lemma keeps_attempt {A} (m : EM A) : keeps f m → keeps f (attempt m).
Proof. intros Hm s. specialize (Hm s). unfold attempt. by destruct (m s) as [s' []]. Qed.
Lemma keeps_wrap {A} x (m : EM A) : keeps f m → keeps f (wrap_err x m).
Proof. intros Hm s. specialize (Hm s). unfold wrap_err. by destruct (m s) as [s' []]. Qed.
Lemma keeps_ret {A} (a : A) : keeps f (mret a). Proof. by intros s. Qed.
Lemma keeps_skip : keeps f skip. Proof. by intros s. Qed.
Lemma keeps_fail {A} e : keeps f (fail (A:=A) e). Proof. by intros s. Qed.
Lemma keeps_panic {A} : keeps f (fun s => (s, @Panic bytes A)). Proof. by intros s. Qed.
Lemma keeps_get {A} (g : exitEngine → A) : keeps f (get g). Proof. by intros s. Qed.
Lemma keeps_look {A} (g : W → A) : keeps f (look g). Proof. by intros s. Qed.
Lemma keeps_each {A} (l : list A) body : (∀ x, keeps f (body x)) → keeps f (each l body).
Proof. intros Hb. induction l as [|x l IH]; simpl; [apply keeps_skip|]. by apply keeps_bind. Qed.
End Keeps.
#[export] Hint Resolve keeps_lift keeps_ignore keeps_attempt keeps_wrap keeps_ret keeps_skip keeps_fail keeps_panic keeps_get keeps_look : exit.
#[export] Hint Extern 2 (keeps _ (upd _)) => solve [apply keeps_upd; reflexivity] : exit.
#[export] Hint Extern 2 (keeps _ (updSt _)) => solve [apply keeps_upd; reflexivity] : exit.
Ltac keeps_step :=
  match goal with
  | |- keeps _ (_ ≫= _) => apply keeps_bind; [|intros ?]
  | |- keeps _ (match ?x with _ => _ end) => destruct x
  | |- keeps _ (whenM ?b _) => destruct b; cbn [whenM]
  | |- keeps _ (each _ _) => apply keeps_each; intros ?
  | |- _ => solve [eauto 4 with exit]
  end.

(** ** The invariant of the engine *)

Section Inv.
Context {W : Type} `{!UnicodeCase} `{!Machine W} `{!Config} `{!MachineLaws W}.
Abbreviation EM := (M (exitEngine * W)).

(** The route whose delete command is [d] is recorded. *)
Definition recorded (st : State) (d : Cmd) : Prop :=
  ∃ r, r ∈ sRoutes st ∧ RouteDelCmd hOS r (sRouteTun st) (sRouteGW st) = Ok d.
(** [G]: the peers that have granted a request so far. *)
Record EInv (G : gset bytes) (e : exitEngine) : Prop := {
  inv_use : sUse (eSt e) = [] ∨ ParseAddr (sUse (eSt e)) ≠ None;
  inv_active : ePhase e = PhaseActive → ParseAddr (sUse (eSt e)) ≠ None;
  inv_offer : eGuardAllow e = true → sOffer (eSt e) = true;
  inv_granted : eGranted e = true → eUseKey e ∈ G;
  inv_tunnel : ∀ r, r ∈ sRoutes (eSt e) → Kind r = RouteTunnel → Dst r ∈ splitV4;
  inv_path : sRoutes (eSt e) ≠ [] → sRouteTun (eSt e) = cfgTun;
  inv_panics : 0 ≤ eTickPanics e }.
Definition Inv (G : gset bytes) (s : exitEngine * W) : Prop :=
  EInv G s.1 ∧ ∀ d, owned s.2 d → recorded (eSt s.1) d.

Lemma Inv_idle G e w d : Inv G (e, w) → sRoutes (eSt e) = [] → ¬ owned w d.
Proof. intros [_ Ho] Hr Hd. destruct (Ho d Hd) as (r & Hin & _). simpl in Hin. rewrite Hr in Hin. set_solver. Qed.

Lemma pres_lift {A} G (m : M W A) : (∀ P, pres (within P) m) → pres (Inv G) (lift m).
Proof.
  intros Hm [e w] [He Hw]. unfold lift. simpl in *. specialize (Hm _ w Hw).
  destruct (m w) as [w' r]. by split.
Qed.
Lemma pres_get {A} G (f : exitEngine → A) : pres (Inv G) (get f). Proof. intros s Hs. exact Hs. Qed.
Lemma pres_look {A} G (f : W → A) : pres (Inv G) (look f). Proof. intros s Hs. exact Hs. Qed.
(** Updates that keep the routes keep what is recorded. *)
Definition same_routes (st st' : State) : Prop :=
  sRoutes st' = sRoutes st ∧ sRouteTun st' = sRouteTun st ∧ sRouteGW st' = sRouteGW st.
Lemma pres_upd G f : (∀ e, EInv G e → EInv G (f e) ∧ same_routes (eSt e) (eSt (f e))) → pres (Inv G) (upd f).
Proof.
  intros Hf [e w] [He Hw]. destruct (Hf e He) as [He' (H1 & H2 & H3)]. split; [done|].
  intros d Hd. destruct (Hw d Hd) as (r & Hr & Hc). exists r. simpl in *. by rewrite H1, H2, H3.
Qed.
Lemma pres_when G b m : pres (Inv G) m → pres (Inv G) (whenM b m).
Proof. destruct b; [done|]. intros _. apply pres_skip. Qed.
Lemma pres_each {A} G (l : list A) body : (∀ x, x ∈ l → pres (Inv G) (body x)) → pres (Inv G) (each l body).
Proof.
  induction l as [|x l IH]; intros Hb; simpl; [apply pres_skip|].
  apply pres_bind; [apply Hb; set_solver|intros _]. apply IH. intros; apply Hb; set_solver.
Qed.
End Inv.
#[export] Hint Resolve pres_get pres_look : exit.
#[export] Hint Extern 2 (pres (Inv _) (lift _)) => apply pres_lift; eauto 3 with exit : exit.
(** An update of fields the invariant does not relate. *)
Ltac upd_plain := apply pres_upd; intros ? []; split; [constructor; simpl; auto with zarith|by repeat split].
#[export] Hint Extern 2 (pres (Inv _) (upd _)) => solve [upd_plain] : exit.
#[export] Hint Extern 2 (pres (Inv _) (updSt _)) => solve [upd_plain] : exit.
