(* ===== verification/ExitEnginePres.v ===== *)
(** * Exit node: every section of the engine preserves its invariant *)

From S2P Require Import Prelude GoStr DeviceModel NetAddr Netip ExitNode ExitNat ExitGuard ExitEngine.
From S2P Require Import ExitRouteProps ExitEngineInv.

Section Pres.
Context {W : Type} `{!UnicodeCase} `{!Machine W} `{!Config} `{!MachineLaws W}.
Abbreviation EM := (M (exitEngine * W)).

Lemma pres_save G : pres (Inv G) saveLocked.
Proof. unfold saveLocked. pres. Qed.
Lemma pres_send G k d : pres (Inv G) (send k d).
Proof. unfold send. pres. Qed.
Lemma pres_ipcPeers G : pres (Inv G) ipcPeers.
Proof. unfold ipcPeers. pres. Qed.
Lemma pres_phase G p reason : p ≠ PhaseActive → pres (Inv G) (setPhaseLocked p reason).
Proof.
  intros Hp. unfold setPhaseLocked. pres. apply pres_upd. intros e []. case_match; [done|].
  split; [constructor; simpl; auto; done|by repeat split].
Qed.

(** ** Deleting routes *)

(** One delete command: the engine's state stays, no route appears, and unless it
    panicked the route it names is gone. *)
Lemma delete_loop_spec l match_ : ∀ kept e w s' r,
  delete_loop l match_ kept (e, w) = (s', r) →
  s'.1 = e ∧ (∀ d, owned s'.2 d → owned w d)
  ∧ (∀ out, r = Ok out → out = reverse (filter (fun x => match_ x = false) l) ++ kept
      ∧ ∀ x d, x ∈ l → match_ x = true → RouteDelCmd hOS x (sRouteTun (eSt e)) (sRouteGW (eSt e)) = Ok d → ¬ owned s'.2 d)
  ∧ (∀ err, r ≠ Err err).
Proof.
  induction l as [|x l IH]; intros kept e w s' r Heq.
  { injection Heq as <- <-. split; [done|]. split; [done|]. split; [|done].
    intros out [= <-]. split; [done|]. set_solver. }
  cbn [delete_loop] in Heq. destruct (match_ x) eqn:Em; cbn [negb] in Heq.
  2: { apply IH in Heq as (H1 & H2 & H3 & H4). split; [done|]. split; [done|]. split; [|done].
       intros out Hout. destruct (H3 out Hout) as [Hk Hd]. split.
       - rewrite Hk, filter_cons_True, reverse_cons, <- app_assoc by done. done.
       - intros y d Hy Hm. apply elem_of_cons in Hy as [->|Hy]; [congruence|]. eauto. }
  cbn [mbind M_bind get] in Heq. unfold mbind, M_bind, get in Heq. cbn [fst] in Heq.
  destruct (RouteDelCmd hOS x (sRouteTun (eSt e)) (sRouteGW (eSt e))) as [c|err|] eqn:Ec.
  2,3: cbn in Heq; apply IH in Heq as (H1 & H2 & H3 & H4); split; [done|]; split; [done|]; split; [|done];
    intros out Hout; destruct (H3 out Hout) as [Hk Hd]; split;
    [rewrite Hk, filter_cons_False by (by rewrite Em); done|];
    intros y d Hy Hm Hd'; apply elem_of_cons in Hy as [->|Hy]; [congruence|eauto].
  unfold ignore, lift in Heq. cbn [fst snd] in Heq.
  pose proof (run_other c w) as Hq. pose proof (run_del x _ _ c w Ec) as Hgone.
  destruct (del_not_add _ _ _ _ _ Ec) as [Hna _].
  destruct (hRun c w) as [w1 o] eqn:Er. cbn [fst snd] in *.
  destruct o as [b|er|]; [| |by simplify_eq; split; [done|]; split; [|split]; [intros d Hd; eauto|done|done]].
  all: apply IH in Heq as (H1 & H2 & H3 & H4); split; [done|]; split; [intros d Hd; eauto|]; split; [|done];
    intros out Hout; destruct (H3 out Hout) as [Hk Hd]; split;
    [rewrite Hk, filter_cons_False by (by rewrite Em); done|];
    intros y d Hy Hm Hd'; apply elem_of_cons in Hy as [->|Hy]; [|eauto];
    rewrite Ec in Hd'; simplify_eq; intros Ho; exact (Hgone ltac:(done) (H2 _ Ho)).
Qed.

Definition survivors (match_ : Route → bool) (rs : list Route) : list Route := filter (fun x => match_ x = false) rs.
Lemma deleteRoutes_spec match_ e w s' r :
  deleteRoutesLocked match_ (e, w) = (s', r) →
  (∀ d, owned s'.2 d → owned w d)
  ∧ ((r = Panic ∧ s'.1 = e)
     ∨ (r = Ok () ∧ s'.1 = set_st e (with_Routes (eSt e) (survivors match_ (sRoutes (eSt e))))
        ∧ ∀ x d, x ∈ sRoutes (eSt e) → match_ x = true →
            RouteDelCmd hOS x (sRouteTun (eSt e)) (sRouteGW (eSt e)) = Ok d → ¬ owned s'.2 d)).
Proof.
  unfold deleteRoutesLocked, mbind, M_bind, get. cbn [fst].
  destruct (delete_loop (reverse (sRoutes (eSt e))) match_ [] (e, w)) as [s1 r1] eqn:E.
  apply delete_loop_spec in E as (H1 & H2 & H3 & H4). destruct r1 as [kept|er|]; [|by destruct (H4 er)|].
  - destruct (H3 kept eq_refl) as [Hk Hd]. unfold updSt, upd. intros [= <- <-]. cbn [fst snd]. split; [done|].
    right. split; [done|]. rewrite H1. split.
    + f_equal. f_equal. rewrite Hk, app_nil_r. unfold survivors.
      by rewrite filter_reverse, reverse_involutive.
    + intros x d Hx. apply Hd. by apply elem_of_reverse.
  - intros [= <- <-]. split; [done|]. left. done.
Qed.

Lemma recorded_survivors G e w match_ w' :
  Inv G (e, w) → (∀ d, owned w' d → owned w d) →
  (∀ x d, x ∈ sRoutes (eSt e) → match_ x = true →
     RouteDelCmd hOS x (sRouteTun (eSt e)) (sRouteGW (eSt e)) = Ok d → ¬ owned w' d) →
  Inv G (set_st e (with_Routes (eSt e) (survivors match_ (sRoutes (eSt e)))), w').
Proof.
  intros [[Hu Ha Hf Hgr Ht Hpath Hn] Ho] Hsub Hgone. cbn [fst snd] in *. split.
  - constructor; simpl; auto.
    + intros r Hr. apply list_elem_of_filter in Hr as [_ Hr]. auto.
    + intros Hne. apply Hpath. intros Hnil. apply Hne. unfold survivors. by rewrite Hnil.
  - intros d Hd. simpl in *. destruct (Ho d (Hsub d Hd)) as (r & Hr & Hc). exists r. split; [|done]. simpl in *.
    apply list_elem_of_filter. split; [|done]. destruct (match_ r) eqn:E; [|done]. by destruct (Hgone r d Hr E Hc).
Qed.
Lemma pres_deleteRoutes G match_ : pres (Inv G) (deleteRoutesLocked match_).
Proof.
  intros [e w] Hi. destruct (deleteRoutesLocked match_ (e, w)) as [[e' w'] r] eqn:E.
  apply deleteRoutes_spec in E as [Hsub [[_ He]|(_ & He & Hg)]]; simpl in *; subst e'.
  - destruct Hi as [He Ho]. split; [done|]. eauto.
  - eauto using recorded_survivors.
Qed.

Lemma pres_dropNAT G ns : pres (Inv G) (dropNAT ns).
Proof. unfold dropNAT. pres. Qed.
Local Hint Resolve pres_save pres_send pres_ipcPeers pres_phase pres_deleteRoutes pres_dropNAT pres_when : exit.

Lemma pres_deactivate G reason : pres (Inv G) (deactivateLocked reason).
Proof.
  unfold deactivateLocked, removeDefaults. pres.
  - apply pres_when. pres. apply pres_each. intros x _. pres.
  - apply pres_upd. intros e []. split; [|by repeat split]. constructor; simpl; auto.
    intros [? _]%andb_true_iff. auto.
Qed.

(** ** Installing routes *)

Lemma run_route_spec (c : res bytes Cmd) e w s' o :
  run_route c (e, w) = (s', o) → s'.1 = e ∧ (c = Panic → o = Panic)
  ∧ ∀ r tun gw, c = RouteAddCmd hOS r tun gw → ∀ d, owned s'.2 d →
      owned w d ∨ (RouteDelCmd hOS r tun gw = Ok d ∧ o = Ok (inl ())).
Proof.
  destruct c as [c|err|]; cbn; [|by intros [= <- <-]; split; [|split]; auto..].
  unfold attempt, mbind, M_bind, lift, skip, mret, M_ret. cbn [fst snd].
  pose proof (run_add (W:=W)) as Hadd. destruct (hRun c w) as [w1 r1] eqn:Er.
  destruct r1 as [b|er|]; intros [= <- <-]; (split; [done|]); (split; [done|]);
    intros r tun gw Hc d Hd; specialize (Hadd r tun gw c w d (eq_sym Hc)); rewrite Er in Hadd;
    destruct (Hadd Hd) as [?|[? [out Hout]]]; auto; done.
Qed.

(** While routes go in, the recorded path is the one they are installed with. *)
Definition At (G : gset bytes) (gw : Gateway) (s : exitEngine * W) : Prop :=
  Inv G s ∧ sRouteTun (eSt s.1) = cfgTun ∧ sRouteGW (eSt s.1) = gw.
Definition planned_route (r : Route) : Prop := Kind r = RouteTunnel → Dst r ∈ splitV4.

Lemma At_world G gw e w w' : At G gw (e, w) → (∀ d, owned w' d → owned w d) → At G gw (e, w').
Proof. intros [[He Ho] Hp] Hs. split; [|done]. split; [done|]. eauto. Qed.
Lemma At_record G gw e w w' r : At G gw (e, w) → planned_route r →
  (∀ d, owned w' d → owned w d ∨ RouteDelCmd hOS r cfgTun gw = Ok d) →
  At G gw (record_route r (e, w')).1.
Proof.
  intros [[[Hu Ha Hf Hgr Ht Hpath Hn] Ho] [Htun Hgw]] Hr Hs. cbn [fst snd] in *. split; [split|done]; cbn.
  - constructor; simpl; auto. intros x Hx. apply elem_of_app in Hx as [?| ->%list_elem_of_singleton]; auto.
  - intros d Hd. destruct (Hs d Hd) as [Hw|Hd'].
    + destruct (Ho d Hw) as (x & Hx & Hc). exists x. split; [|done]. simpl. set_solver.
    + exists r. simpl. split; [set_solver|]. by rewrite Htun, Hgw.
Qed.
Lemma pres_lift_At {A} G gw (m : M W A) : (∀ P, pres (within P) m) → pres (At G gw) (lift m).
Proof.
  intros Hm [e w] HA. unfold lift. cbn [fst snd]. pose proof (Hm (owned w) w (fun d H => H)) as Hw.
  destruct (m w) as [w' r]. by apply (At_world G gw e w).
Qed.
Lemma pres_failed G gw tun crit r err : pres (At G gw) (failed_route tun crit r err).
Proof. unfold failed_route. pres. Qed.

(** A command that is run and, when it succeeds, recorded; [k] handles a failure. *)
Lemma pres_run_record G gw r c (k : bytes → EM ()) :
  planned_route r → c = RouteAddCmd hOS r cfgTun gw ∨ (∃ x, c = Ok x ∧ is_add x = false) →
  (∀ err, pres (At G gw) (k err)) →
  pres (At G gw) (o ← run_route c; match o with inl _ => record_route r | inr err => k err end).
Proof.
  intros Hr Hc Hk [e w] HA. unfold mbind, M_bind.
  destruct (run_route c (e, w)) as [[e1 w1] o] eqn:E.
  assert (e1 = e ∧ ∀ d, owned w1 d → owned w d ∨ (RouteDelCmd hOS r cfgTun gw = Ok d ∧ o = Ok (inl ()))) as [-> Hs].
  { destruct Hc as [->|(x & -> & Hx)].
    - apply run_route_spec in E as (? & _ & Hadd). split; [done|]. by apply Hadd.
    - revert E. cbn. unfold attempt, mbind, M_bind, lift, skip, mret, M_ret. cbn [fst snd].
      pose proof (run_other x w) as Hq. destruct (hRun x w) as [w2 []]; intros [= <- <- <-]; split; eauto. }
  assert (Hno : ∀ a, o ≠ Ok (inl a) → At G gw (e, w1)).
  { intros a Ho. apply (At_world G gw e w); [done|]. intros d Hd. destruct (Hs d Hd) as [?|[_ ->]]; [done|].
    by destruct a, Ho. }
  destruct o as [[[]|err]|er|]; [|by apply Hk, (Hno ())|by apply (Hno ())..].
  apply (At_record G gw e w); [done..|]. intros d Hd. destruct (Hs d Hd) as [?|[? _]]; auto.
Qed.
Lemma pres_install G gw crit r : planned_route r → pres (At G gw) (install_route cfgTun gw crit r).
Proof.
  intros Hr. unfold install_route. apply pres_run_record; [done|by left|]. intros err.
  destruct (negb (routeExists err)); [apply pres_failed|]. destruct (decide (Kind r = RouteBypass)); [apply pres_skip|].
  unfold replace_route. apply pres_assoc, pres_bind.
  - destruct (RouteDelCmd hOS (MkRoute (Dst r) (Kind r)) cfgTun gw) as [d| |] eqn:E; [|apply pres_skip..].
    apply pres_ignore, pres_lift_At, quiet_run. by apply (del_not_add _ _ _ _ _ E).
  - intros _. apply pres_run_record; [done| |intros; apply pres_failed].
    destruct (RouteAddCmd hOS r cfgTun gw) as [x| |]; [by left|right..]; by eexists.
Qed.

(** ** Activation *)

(** The recorded path may be replaced by [gw]: nothing recorded depends on it. *)
Definition Ready (G : gset bytes) (gw : Gateway) (s : exitEngine * W) : Prop :=
  Inv G s ∧ (sRoutes (eSt s.1) ≠ [] → sRouteGW (eSt s.1) ≠ gw → ∀ r, r ∈ sRoutes (eSt s.1) → Kind r ≠ RouteBypass).

Lemma Ready_Inv G gw s : Ready G gw s → Inv G s. Proof. by intros [? _]. Qed.
Lemma At_Inv G gw s : At G gw s → Inv G s. Proof. by intros [? _]. Qed.
Lemma At_of_Ready G gw s : Ready G gw s → At G gw (updSt (fun st => with_RoutePath st cfgTun gw) s).1.
Proof.
  destruct s as [e w]. intros [[[Hu Ha Hf Hgr Ht Hpath Hn] Ho] Hr]. cbn [fst snd] in *. split; [|done]. split.
  - constructor; simpl; auto.
  - intros d Hd. destruct (Ho d Hd) as (r & Hin & Hc). exists r. split; [done|]. simpl in *.
    assert (Hne : sRoutes (eSt e) ≠ []) by (intros E; rewrite E in Hin; set_solver).
    rewrite <- (Hpath Hne). destruct (decide (sRouteGW (eSt e) = gw)) as [<-|Hgw]; [done|].
    rewrite (del_gateway _ _ _ gw (sRouteGW (eSt e))); [done|]. by apply Hr.
Qed.

Lemma pres_Ready_delete G gw match_ : pres (Ready G gw) (deleteRoutesLocked match_).
Proof.
  intros [e w] [Hi Hr]. split; [by apply pres_deleteRoutes|].
  destruct (deleteRoutesLocked match_ (e, w)) as [[e' w'] r] eqn:E.
  apply deleteRoutes_spec in E as [_ [[_ He]|(_ & He & _)]]; simpl in *; subst e'; [done|]. simpl.
  intros Hne Hg x [_ Hx]%list_elem_of_filter. apply Hr; [|done..]. intros E. by rewrite E in Hx; apply elem_of_nil in Hx.
Qed.
Lemma pres_Ready_each {A} G gw (l : list A) body : (∀ x, pres (Ready G gw) (body x)) → pres (Ready G gw) (each l body).
Proof. intros Hb. induction l as [|x l IH]; simpl; [apply pres_skip|]. apply pres_bind; [apply Hb|done]. Qed.

(** After bypass routes of another gateway are gone, the path may change. *)
Lemma trip_repin G gw st :
  trip (Inv G) (fun s => Inv G s ∧ eSt s.1 = st)
    (whenM (negb (length (sRoutes st) =? 0)%nat
            && (negb (bool_decide (gw = sRouteGW st)) || negb (bool_decide (cfgTun = sRouteTun st))))
       (deleteRoutesLocked (fun r => bool_decide (Kind r = RouteBypass))))
    (fun _ => Ready G gw).
Proof.
  intros [e w] [Hi <-]. simpl. destruct (negb _ && _) eqn:Ec; simpl.
  - split; [by apply pres_deleteRoutes|]. intros [] Hok. split; [by apply pres_deleteRoutes|].
    destruct (deleteRoutesLocked _ (e, w)) as [[e' w'] r] eqn:E.
    apply deleteRoutes_spec in E as [_ [[? _]|(_ & He & _)]]; simpl in *; [congruence|]. subst e'. simpl.
    intros _ _ x [Hx _]%list_elem_of_filter. by apply bool_decide_eq_false in Hx.
  - split; [done|]. intros [] _. split; [done|]. simpl. intros Hne Hgw.
    apply andb_false_iff in Ec as [Ec|Ec].
    + apply negb_false_iff, Nat.eqb_eq, length_zero_iff_nil in Ec. done.
    + apply orb_false_iff in Ec as [Ec _]. apply negb_false_iff, bool_decide_eq_true in Ec. by symmetry in Ec.
Qed.
(** The split default. *)
Definition tunnels : list Route := (fun d => MkRoute d RouteTunnel) <$> splitV4.
Lemma trip_plan G gw peers exitHex :
  trip (Inv G) (Ready G gw) (plan_routes peers exitHex)
    (fun dc s => Ready G gw s ∧ (∀ r, r ∈ dc.1 → planned_route r) ∧ ∀ r, r ∈ tunnels → r ∈ dc.1).
Proof.
  intros s Hs. split; [by apply Ready_Inv in Hs|]. intros dc [= <-]. split; [done|]. split.
  - intros r Hr Hk. simpl in Hr.
    apply planned_cases in Hr as [(x & _ & ->)|[[_ ?]|(Hk' & _)]]; [done|done|congruence].
  - intros r Hr. simpl. rewrite PlanClientRoutes_eq, !elem_of_app. auto.
Qed.

(** What an installation leaves recorded: the old routes, and the new one when it
    is a tunnel route and no error is reported. *)
Definition Holds (L : list Route) (s : exitEngine * W) : Prop := ∀ r, r ∈ L → r ∈ sRoutes (eSt s.1).
Lemma engine_run c s : (run_route c s).1.1 = s.1.
Proof.
  destruct s as [e w]. destruct (run_route c (e, w)) as [s' o] eqn:E. by apply run_route_spec in E as (? & _).
Qed.
Lemma engine_replace tun gw r c s : (replace_route tun gw r c s).1.1 = s.1.
Proof.
  unfold replace_route, mbind, M_bind.
  destruct (RouteDelCmd hOS (MkRoute (Dst r) (Kind r)) tun gw) as [d| |]; [|apply engine_run..].
  unfold ignore. match goal with |- context [lift ?m s] => pose proof (engine_lift m s) as He; destruct (lift m s) as [s1 [b|er|]] end;
    simpl in He |- *; [rewrite engine_run|rewrite engine_run|]; done.
Qed.
Lemma install_keeps tun gw crit r s L : Holds L s → Holds L (install_route tun gw crit r s).1
  ∧ (Kind r = RouteTunnel → (install_route tun gw crit r s).2 = Ok () → r ∈ sRoutes (eSt (install_route tun gw crit r s).1.1)).
Proof.
  intros HL. set (fin := fun (o : () + bytes) => match o with inl _ => record_route (W:=W) r | inr err => failed_route (W:=W) tun crit r err end).
  assert (Hfin : ∀ o (s1 : exitEngine * W), Holds L s1 → Holds L (fin o s1).1
    ∧ (Kind r = RouteTunnel → (fin o s1).2 = Ok () → r ∈ sRoutes (eSt (fin o s1).1.1))).
  { intros [[]|err] s1 H1; simpl.
    - split; [|intros _ _; simpl; set_solver]. intros x Hx. simpl. apply elem_of_app. left. by apply H1.
    - unfold failed_route. split; [by repeat case_match|]. intros ->. done. }
  unfold install_route, mbind, M_bind. pose proof (engine_run (RouteAddCmd hOS r tun gw) s) as He.
  destruct (run_route (RouteAddCmd hOS r tun gw) s) as [s1 [[[]|err]|er|]]; simpl in He.
  2: destruct (negb (routeExists err)); [apply (Hfin (inr err)); by unfold Holds; rewrite He|].
  2: destruct (decide (Kind r = RouteBypass)) as [Hk|];
    [split; [by unfold Holds; simpl; rewrite He|by rewrite Hk]|].
  2: pose proof (engine_replace tun gw r (RouteAddCmd hOS r tun gw) s1) as He2;
    destruct (replace_route tun gw r (RouteAddCmd hOS r tun gw) s1) as [s2 [o|er|]]; simpl in He2;
    [apply Hfin; by unfold Holds; rewrite He2, He|split; [by unfold Holds; simpl; rewrite He2, He|done]..].
  - apply (Hfin (inl ())). by unfold Holds; rewrite He.
  - split; [by unfold Holds; simpl; rewrite He|done].
  - split; [by unfold Holds; simpl; rewrite He|done].
Qed.
Lemma trip_install_all G gw crit add : ∀ L, (∀ r, r ∈ add → planned_route r) →
  trip (Inv G) (fun s => At G gw s ∧ Holds L s) (each add (install_route cfgTun gw crit))
    (fun _ s => At G gw s ∧ Holds (L ++ filter (fun r => Kind r = RouteTunnel) add) s).
Proof.
  induction add as [|r add IH]; intros L Hp; cbn [each foldr].
  { intros s [HA HL]. split; [by apply At_Inv in HA|]. intros [] _. by rewrite filter_nil, app_nil_r. }
  apply (trip_bind _ _ _ (fun _ s => At G gw s ∧ Holds (L ++ filter (fun r => Kind r = RouteTunnel) [r]) s)).
  - intros s [HA HL]. pose proof (pres_install G gw crit r (Hp r ltac:(set_solver)) s HA) as HA'.
    destruct (install_keeps cfgTun gw crit r s L HL) as [HL' Hr].
    split; [by apply At_Inv in HA'|]. intros [] Hok. split; [done|]. intros x [Hx|Hx]%elem_of_app; [by apply HL'|].
    apply list_elem_of_filter in Hx as [Hk ->%list_elem_of_singleton]. by apply Hr.
  - intros _. eapply trip_conseq; [apply (IH (L ++ filter (fun r => Kind r = RouteTunnel) [r])); set_solver|done|].
    intros _ s [HA HL]. split; [done|]. intros x Hx. apply HL. revert Hx. rewrite (filter_app _ [r] add). set_solver.
Qed.

(** ** The difference of plans *)

Lemma key_tunnel r t : (Kind r = RouteTunnel → Dst r ∈ splitV4) → t ∈ tunnels → key r = key t → r = t.
Proof.
  intros Hr Ht. unfold tunnels in Ht. apply list_elem_of_fmap in Ht as (d & -> & Hd).
  destruct r as [dst k]. unfold key. cbn [Kind Dst] in *.
  destruct k; [|intros E; discriminate E..]. specialize (Hr eq_refl). unfold splitV4 in Hr, Hd.
  rewrite !elem_of_cons, elem_of_nil in Hr, Hd.
  destruct Hr as [->|[->|[]]], Hd as [->|[->|[]]]; intros E; try done; exfalso; revert E;
    apply (bool_decide_eq_false (_ = _)); vm_compute; reflexivity.
Qed.
Lemma diff_tunnel current desired t :
  (∀ r, r ∈ current → Kind r = RouteTunnel → Dst r ∈ splitV4) → t ∈ tunnels → t ∈ desired →
  t ∈ (DiffRoutes current desired).1 ∨ (t ∈ current ∧ t ∉ (DiffRoutes current desired).2).
Proof.
  intros Hc Ht Hd. unfold DiffRoutes. cbn [fst snd].
  destruct (decide (key t ∈ key <$> current)) as [Hk|Hk]; [right|left; by apply list_elem_of_filter].
  apply list_elem_of_fmap in Hk as (r & E & Hr). rewrite <- (key_tunnel r t) by eauto. split; [done|].
  intros [Hn _]%list_elem_of_filter. apply Hn. rewrite <- E. by apply list_elem_of_fmap_2.
Qed.

(** ** The whole activation *)

Lemma pres_Holds_delete J L match_ : pres J (deleteRoutesLocked match_) → (∀ x, x ∈ L → match_ x = false) →
  pres (fun s => J s ∧ Holds L s) (deleteRoutesLocked match_).
Proof.
  intros HJ HL [e w] [Hj Hh]. split; [by apply HJ|].
  destruct (deleteRoutesLocked match_ (e, w)) as [[e' w'] r] eqn:E.
  apply deleteRoutes_spec in E as [_ [[_ He]|(_ & He & _)]]; simpl in *; subst e'; [done|].
  intros x Hx. simpl. apply list_elem_of_filter. split; [by apply HL|by apply Hh].
Qed.
Lemma keeps_delete {T} (f : exitEngine → T) match_ : (∀ e rs, f (set_st e (with_Routes (eSt e) rs)) = f e) → keeps f (deleteRoutesLocked match_).
Proof.
  intros Hf [e w]. destruct (deleteRoutesLocked match_ (e, w)) as [[e' w'] r] eqn:E.
  apply deleteRoutes_spec in E as [_ [[_ He]|(_ & He & _)]]; simpl in *; subst e'; auto.
Qed.
Local Hint Extern 2 (keeps _ (deleteRoutesLocked _)) => solve [apply keeps_delete; reflexivity] : exit.
Abbreviation steady := (keeps (fun e => sRoutes (eSt e))).
Lemma pres_steady {A} J L (m : EM A) : pres J m → steady m → pres (fun s => J s ∧ Holds L s) m.
Proof. intros Hm Hs s [Hj HL]. split; [by apply Hm|]. intros x Hx. rewrite Hs. by apply HL. Qed.
Lemma steady_save : steady saveLocked. Proof. unfold saveLocked. repeat keeps_step. Qed.
Lemma steady_clientNAT tun : steady (enableClientNATLocked tun).
Proof. unfold enableClientNATLocked. repeat keeps_step. Qed.
Lemma steady_own_default peers exitHex : steady (own_default peers exitHex).
Proof. unfold own_default. repeat keeps_step. Qed.
Lemma pres_clientNAT G tun : pres (Inv G) (enableClientNATLocked tun).
Proof. unfold enableClientNATLocked. pres. Qed.
Lemma pres_own_default G gw peers exitHex : pres (At G gw) (own_default peers exitHex).
Proof.
  unfold own_default. destruct (contains _ _); [apply pres_skip|]. apply pres_bind.
  - apply pres_wrap, pres_lift_At, quiet_ipcSet.
  - intros _ [e w] [Hi Hp]. split; [|done]. revert Hi. apply (pres_upd G (fun e => set_allowedSet e true)).
    intros x []. split; [by constructor|by repeat split].
Qed.

Lemma trip_get G (P : exitEngine * W → Prop) : (∀ s, P s → Inv G s) →
  trip (Inv G) P (get eSt) (fun st s => P s ∧ eSt s.1 = st).
Proof. intros HP s Hs. split; [by apply HP|]. by intros st [= <-]. Qed.
Lemma trip_delete_all G gw (del L : list Route) : (∀ x, x ∈ L → x ∉ del) →
  pres (fun s => Ready G gw s ∧ Holds L s) (each del (fun r => deleteRoutesLocked (fun x => bool_decide (x = r)))).
Proof.
  induction del as [|r del IH]; intros HL; simpl; [apply pres_skip|]. apply pres_bind.
  - apply pres_Holds_delete; [apply pres_Ready_delete|]. intros x Hx. apply bool_decide_eq_false. set_solver.
  - intros _. apply IH. set_solver.
Qed.
(** The tunnel routes that need not be added. *)
Definition kept_tunnels (st : State) (desired : list Route) : list Route :=
  filter (fun t => t ∈ sRoutes st ∧ t ∉ (DiffRoutes (sRoutes st) desired).2) tunnels.

Definition Planned (dc : list Route * gset Addr) : Prop :=
  (∀ r, r ∈ dc.1 → planned_route r) ∧ ∀ r, r ∈ tunnels → r ∈ dc.1.
Lemma trip_sync G gw dc peers exitHex : Planned dc →
  trip (Inv G) (Ready G gw) (sync_routes gw dc peers exitHex) (fun _ s => Inv G s ∧ Holds tunnels s).
Proof.
  intros [Hplan Htun]. unfold sync_routes.
  eapply trip_bind; [apply (trip_get G (Ready G gw)); apply Ready_Inv|]. intros st s0 [Hr0 Hst].
  pose proof Hr0 as [[[_ _ _ _ Hinv _ _] _] _]. rewrite Hst in Hinv. set (L := kept_tunnels st dc.1).
  assert (HL : Holds L s0).
  { intros t Ht. unfold L, kept_tunnels in Ht. apply list_elem_of_filter in Ht as [[Ht _] _]. by rewrite Hst. }
  revert s0 Hr0 Hst HL. cut (trip (Inv G) (fun s => Ready G gw s ∧ Holds L s)
    (each (DiffRoutes (sRoutes st) dc.1).2 (fun r => deleteRoutesLocked (fun x => bool_decide (x = r))) ;;
     updSt (fun st => with_RoutePath st cfgTun gw) ;; own_default peers exitHex ;;
     before_add ← get (fun e => length (sRoutes (eSt e)));
     each (DiffRoutes (sRoutes st) dc.1).1 (install_route cfgTun gw dc.2) ;;
     after_add ← get (fun e => length (sRoutes (eSt e)));
     mret ((0 <? length (DiffRoutes (sRoutes st) dc.1).2)%nat || (before_add <? after_add)%nat))
    (fun _ s => Inv G s ∧ Holds tunnels s)); [intros HT s0 ???; by apply HT|].
  apply (trip_bind _ _ _ (fun _ s => Ready G gw s ∧ Holds L s)).
  { apply trip_pres; [intros ? [? _]; by eapply Ready_Inv|]. apply trip_delete_all.
    intros x Hx. unfold L, kept_tunnels in Hx. by apply list_elem_of_filter in Hx as [[_ ?] _]. }
  intros []. apply (trip_bind _ _ _ (fun _ s => At G gw s ∧ Holds L s)).
  { intros x [Hx HLx]. pose proof (At_of_Ready _ _ _ Hx) as HA. split; [by eapply At_Inv|]. intros [] _. done. }
  intros []. apply (trip_bind _ _ _ (fun _ s => At G gw s ∧ Holds L s)).
  { apply trip_pres; [intros ? [? _]; by eapply At_Inv|]. apply pres_steady; [apply pres_own_default|apply steady_own_default]. }
  intros []. apply (trip_bind _ _ _ (fun _ s => At G gw s ∧ Holds L s)).
  { intros x Hx. split; [destruct Hx; by eapply At_Inv|]. by intros n [= <-]. }
  intros n. eapply trip_bind; [apply (trip_install_all G gw dc.2)|].
  { intros r Hin. apply Hplan. by apply list_elem_of_filter in Hin as [_ ?]. }
  intros [] x [HA HH]. split; [by eapply At_Inv|]. intros m _. split; [by eapply At_Inv|].
  intros t Ht. apply HH. apply elem_of_app.
  destruct (diff_tunnel (sRoutes st) dc.1 t) as [Hadd|Hkeep]; [done..|by apply Htun| |].
  - right. apply list_elem_of_filter. split; [|done]. unfold tunnels in Ht. by apply list_elem_of_fmap in Ht as (d & -> & _).
  - left. by apply list_elem_of_filter.
Qed.

Lemma pres_find_gateway G : pres (Inv G) find_gateway.
Proof. unfold find_gateway. pres. Qed.
Lemma pres_Ready_upd G gw f : (∀ st, same_routes st (f st) ∧ sUse (f st) = sUse st ∧ sOffer (f st) = sOffer st) →
  pres (Ready G gw) (updSt f).
Proof.
  intros Hf [e w] [Hi Hr]. destruct (Hf (eSt e)) as [(H1 & H2 & H3) [H4 H5]]. split.
  - revert Hi. apply (pres_upd G (fun e => set_st e (f (eSt e)))). clear e w Hr H1 H2 H3 H4 H5. intros e [].
    destruct (Hf (eSt e)) as [(H1 & H2 & H3) [H4 H5]].
    split; [constructor; simpl; rewrite ?H1, ?H2, ?H4, ?H5; auto|by repeat split].
  - simpl in *. by rewrite H1, H3.
Qed.
(** Activation keeps the invariant however it ends, and when it succeeds both
    halves of the address space are routed into the tunnel. *)
Lemma trip_activate G dp peers :
  trip (Inv G) (Inv G) (activateLocked dp peers) (fun _ s => Inv G s ∧ Holds tunnels s).
Proof.
  unfold activateLocked. eapply trip_bind; [apply trip_pres; [done|apply pres_find_gateway]|]. intros gw.
  eapply trip_bind; [apply (trip_get G (Inv G)); done|]. intros st.
  eapply trip_bind; [apply (trip_repin G gw st)|]. intros [].
  eapply trip_bind; [apply (trip_plan G gw)|]. intros dc s [Hr Hp]. revert s Hr.
  change (trip (Inv G) (Ready G gw)
    (whenM (length (sRoutes st) =? 0)%nat
       (match peers !! serverHex with
        | Some srv => updSt (fun st => with_HadDefault st (contains (ipAllowedIPs srv) default_route))
        | None => skip end) ;;
     changed ← sync_routes gw dc peers (exit_hex dp);
     cnat ← get (fun e => sClientNAT (eSt e));
     whenM (bool_decide (hOS = bs "linux") && bool_decide (cnat = None)) (enableClientNATLocked cfgTun) ;;
     whenM (changed || (length (sRoutes st) =? 0)%nat) saveLocked)
    (fun _ s => Inv G s ∧ Holds tunnels s)).
  apply (trip_bind _ _ _ (fun _ => Ready G gw)).
  { apply trip_pres; [apply Ready_Inv|]. destruct (length (sRoutes st) =? 0)%nat; [|apply pres_skip]. simpl.
    destruct (peers !! serverHex); [|apply pres_skip]. apply pres_Ready_upd. intros x. by repeat split. }
  intros []. eapply trip_bind; [by apply trip_sync|]. intros changed.
  apply trip_pres; [by intros ? [? _]|]. apply pres_steady.
  - pres. apply pres_when, pres_clientNAT.
  - repeat keeps_step; [apply steady_clientNAT|apply steady_save].
Qed.

(** ** Deactivation *)

Lemma keeps_save {T} (f : exitEngine → T) : keeps f saveLocked.
Proof. unfold saveLocked. repeat keeps_step. Qed.
Lemma keeps_ipcPeers {T} (f : exitEngine → T) : keeps f ipcPeers.
Proof. unfold ipcPeers. repeat keeps_step. Qed.
Local Hint Resolve keeps_save keeps_ipcPeers : exit.
(** The phase and the choice of an exit node. *)
Definition stance (e : exitEngine) : ClientPhase * bytes := (ePhase e, sUse (eSt e)).
Lemma keeps_deactivate reason : keeps stance (deactivateLocked reason).
Proof. unfold deactivateLocked, removeDefaults, dropNAT. repeat keeps_step. Qed.

Lemma trip_true {S A} (P : S → Prop) (m : M S A) : trip (fun _ => True) P m (fun _ _ => True).
Proof. by intros s _. Qed.
Definition Idle (s : exitEngine * W) : Prop := sRoutes (eSt s.1) = [].
Lemma trip_delete_rest :
  trip (fun _ => True) (fun _ => True) (deleteRoutesLocked (fun _ => true)) (fun _ => Idle).
Proof.
  intros [e w] _. split; [done|]. intros [] Hok. destruct (deleteRoutesLocked _ (e, w)) as [[e' w'] r] eqn:E.
  apply deleteRoutes_spec in E as [_ [[-> _]|(_ & He & _)]]; [done|]. simpl in *. subst e'. unfold Idle. simpl.
  unfold survivors. clear. induction (sRoutes (eSt e)) as [|x l IH]; [done|]. by rewrite filter_cons_False.
Qed.
Lemma pres_Idle {A} (m : EM A) : steady m → pres Idle m.
Proof. intros Hm s Hs. unfold Idle in *. by rewrite Hm. Qed.
Lemma trip_deactivate reason :
  trip (fun _ => True) (fun _ => True) (deactivateLocked reason) (fun _ => Idle).
Proof.
  unfold deactivateLocked. apply (trip_bind _ _ _ (fun e s => s.1 = e)).
  { intros s _. split; [done|]. by intros e [= <-]. }
  intros e. destruct (_ && _ && _) eqn:Ec.
  { intros s <-. split; [done|]. intros [] _. apply andb_true_iff in Ec as [Ec _]. apply andb_true_iff in Ec as [Ec _].
    by apply Nat.eqb_eq, length_zero_iff_nil in Ec. }
  do 5 (eapply trip_bind; [apply trip_true|intros ?]).
  eapply trip_bind; [apply trip_delete_rest|]. intros []. apply trip_pres; [done|]. apply pres_Idle.
  unfold dropNAT. repeat keeps_step.
Qed.
End Pres.
#[export] Hint Resolve pres_save pres_send pres_ipcPeers pres_phase pres_deleteRoutes pres_dropNAT pres_when
  pres_deactivate keeps_save keeps_ipcPeers : exit.
#[export] Hint Extern 2 (keeps _ (deleteRoutesLocked _)) => solve [apply keeps_delete; reflexivity] : exit.
