(* ===== verification/ExitProps.v ===== *)
(** * Exit node: the engine as a transition system

    The reconcile loop, the handlers of control messages and the user's calls run
    concurrently; each section under the mutex is a step, whatever its outcome (a
    section of the loop may panic).  Between sections the rest of the machine may
    change, except that nobody else installs routes in the agent's name. *)

From S2P Require Import Prelude GoStr DeviceModel NetAddr Netip ExitNode ExitNat ExitGuard ExitEngine.
From S2P Require Import ExitRouteProps ExitEngineInv ExitEnginePres.

Section System.
Context {W : Type} `{!UnicodeCase} `{!Machine W} `{!Config} `{!MachineLaws W}.
Abbreviation EM := (M (exitEngine * W)).

(** A status with the granted bit. *)
Definition grants (action : Z) (data : bytes) : bool :=
  match data with
  | _ :: d1 :: _ => (action =? TUNControlActionExitStatus) && negb (Z.land (b2z d1) exitFlagGranted =? 0)
  | _ => false
  end.
Definition now_granted (G : gset bytes) (peer : bytes) (action : Z) (data : bytes) : gset bytes :=
  if grants action data then {[peer]} ∪ G else G.

(** [G] collects the peers whose status carried the granted bit. *)
Inductive estep : gset bytes * (exitEngine * W) → gset bytes * (exitEngine * W) → Prop :=
| step_reconcile G s now : estep (G, s) (G, (reconcileClient now s).1)
| step_ensure_head G s : estep (G, s) (G, (ensure_head s).1)
| step_ensure_tail G s : estep (G, s) (G, (ensure_tail s).1)
| step_query G s : estep (G, s) (G, (queryDirectPeers s).1)
| step_reset G s : estep (G, s) (G, (resetTickPanics s).1)
| step_panic G s : estep (G, s) (G, (recordTickPanic s).1)
| step_enable G s : estep (G, s) (G, (enableOffer s).1)
| step_disable G s : estep (G, s) (G, (disableOffer s).1)
| step_save G s : estep (G, s) (G, (save s).1)
| step_announce G s on : estep (G, s) (G, (announceOffer on s).1)
| step_control G s peer action data :
    estep (G, s) (now_granted G peer action data, (handleControl peer action data s).1)
| step_use G s target : estep (G, s) (G, (use_begin target s).1)
| step_clear G s : estep (G, s) (G, (ClearExitNode s).1)
| step_other G e w w' : (∀ d, owned w' d → owned w d) → estep (G, (e, w)) (G, (e, w')).

(** A start over a state file whose choice is none or an address and which
    records every route left in place. *)
Definition starts (loaded : State) (w : W) : Prop :=
  (sUse loaded = [] ∨ ParseAddr (sUse loaded) ≠ None) ∧ ∀ d, owned w d → recorded loaded d.
Inductive reach : gset bytes → exitEngine * W → Prop :=
| reach_start loaded w s : starts loaded w → startExitEngine (new_engine loaded, w) = (s, Ok ()) → reach ∅ s
| reach_step G s G' s' : reach G s → estep (G, s) (G', s') → reach G' s'.

(** ** The client's sections *)

Local Hint Resolve pres_when : exit.
Lemma pres_query G : pres (Inv G) queryDirectPeers.
Proof. unfold queryDirectPeers, directPeers. pres. apply pres_each. intros k _. pres. Qed.
Lemma pres_observe G dp now : pres (Inv G) (observe dp now).
Proof.
  unfold observe. pres.
  - apply pres_upd. intros e []. destruct (decide (dpKey dp = eUseKey e)); [by split|].
    split; [constructor; simpl; auto; done|by repeat split].
  - apply pres_when. pres.
  - apply pres_when. pres.
Qed.
Lemma pres_stand_by G phase reason : phase ≠ PhaseActive → pres (Inv G) (stand_by phase reason).
Proof. intros Hp. unfold stand_by. pres. Qed.
Lemma pres_active_phase G :
  pres (fun s => Inv G s ∧ ParseAddr (sUse (eSt s.1)) ≠ None) (setPhaseLocked PhaseActive []).
Proof.
  intros [e w] [Hi Hu]. split.
  - revert Hi. intros [[H1 H2 H3 H4 H5 H6 H7] Ho]. unfold setPhaseLocked, mbind, M_bind, look, upd. cbn [fst snd] in *.
    case_match; [by split|]. split; [|done]. cbn [fst]. constructor; simpl; auto.
  - unfold setPhaseLocked, mbind, M_bind, look, upd. cbn [fst snd] in *. by case_match.
Qed.

(** ** What the loop leaves alone: the choice and the count of panics *)

Definition choice (e : exitEngine) : bytes * Z := (sUse (eSt e), eTickPanics e).
Lemma keeps_run {T} (f : exitEngine → T) c : keeps f (run_route c).
Proof. intros s. by rewrite engine_run. Qed.
Lemma keeps_replace {T} (f : exitEngine → T) tun gw r c : keeps f (replace_route tun gw r c).
Proof. intros s. by rewrite engine_replace. Qed.
Lemma keeps_send {T} (f : exitEngine → T) k d : keeps f (send k d).
Proof. unfold send. eauto with exit. Qed.
Local Hint Resolve keeps_run keeps_replace keeps_send : exit.
Lemma choice_phase p reason : keeps choice (setPhaseLocked p reason).
Proof. unfold setPhaseLocked. repeat keeps_step. apply keeps_upd. intros e. by case_match. Qed.
Lemma choice_install tun gw crit r : keeps choice (install_route tun gw crit r).
Proof. unfold install_route, record_route, failed_route. repeat keeps_step. Qed.
Lemma choice_deactivate reason : keeps choice (deactivateLocked reason).
Proof. unfold deactivateLocked, removeDefaults, dropNAT. repeat keeps_step. Qed.
Local Hint Resolve choice_phase choice_install choice_deactivate : exit.
Lemma choice_activate dp peers : keeps choice (activateLocked dp peers).
Proof.
  unfold activateLocked, find_gateway, plan_routes, bypassAddrs, sync_routes, own_default, enableClientNATLocked.
  repeat keeps_step.
Qed.
Lemma choice_observe dp now : keeps choice (observe dp now).
Proof. unfold observe. repeat keeps_step; apply keeps_upd; intros e; by case_match. Qed.
Local Hint Resolve choice_activate choice_observe : exit.

(** An exit node is chosen. *)
Definition Chosen (G : gset bytes) (s : exitEngine * W) : Prop := Inv G s ∧ ParseAddr (sUse (eSt s.1)) ≠ None.
Lemma pres_chosen {A} G (m : EM A) : pres (Inv G) m → keeps choice m → pres (Chosen G) m.
Proof.
  intros Hm Hc s [Hi Hu]. split; [by apply Hm|]. specialize (Hc s). unfold choice in Hc. by injection Hc as -> _.
Qed.
Lemma pres_go_active G dp peers now : pres (Chosen G) (go_active dp peers now).
Proof.
  unfold go_active. apply pres_bind; [apply pres_chosen; eauto with exit|]. intros e.
  destruct (before now (eRetryAt e)); [apply pres_skip|]. apply pres_bind.
  { apply pres_chosen; [|repeat keeps_step]. apply pres_attempt. intros s Hs. by apply trip_activate. }
  intros [[]|err]; [apply pres_active_phase|]. apply pres_chosen; [pres; by apply pres_phase|repeat keeps_step].
Qed.
Lemma choice_stand_by p reason : keeps choice (stand_by p reason).
Proof. unfold stand_by. repeat keeps_step. Qed.
Lemma pres_reconcile_with G ip now : pres (Chosen G) (reconcile_with ip now).
Proof.
  unfold reconcile_with. apply pres_bind; [by intros s Hs|]. intros [dp|].
  - apply pres_bind; [apply pres_chosen; eauto using pres_observe with exit|]. intros hp. cbn zeta.
    destruct (decide ((NextPhase hp.1 now).1 = PhaseActive)) as [Hp|Hp].
    + rewrite bool_decide_true by done. apply pres_go_active.
    + rewrite bool_decide_false by done. apply pres_chosen; [by apply pres_stand_by|apply choice_stand_by].
  - apply pres_bind; [by intros s Hs|]. intros g. apply pres_chosen; [by apply pres_stand_by|apply choice_stand_by].
Qed.
Lemma pres_reconcile G now : pres (Inv G) (reconcileClient now).
Proof.
  unfold reconcileClient. intros s Hs. unfold mbind at 1, M_bind, get at 1. cbn [fst].
  destruct (decide (sUse (eSt s.1) = [])) as [Hu|Hu]; [by apply pres_when; [apply pres_deactivate|]|].
  destruct (ParseAddr (sUse (eSt s.1))) as [ip|] eqn:Ep.
  - apply pres_reconcile_with. split; [done|]. by rewrite Ep.
  - destruct Hs as [[[?|?]] _]; simpl in *; congruence.
Qed.

(** ** The other sections *)

Lemma pres_noting {A} G what (m : EM A) : pres (Inv G) m → pres (Inv G) (noting what m).
Proof.
  intros Hm s Hs. specialize (Hm s Hs). unfold noting. destruct (m s) as [[e w] [a|err|]]; [done| |done].
  destruct Hm as [[] Ho]. split; [by constructor|done].
Qed.
Lemma pres_startUserspace G : pres (Inv G) startUserspaceExitLocked.
Proof. unfold startUserspaceExitLocked. pres. Qed.
Local Hint Resolve pres_noting pres_startUserspace : exit.
Lemma pres_enableOffer G : pres (Inv G) enableOffer.
Proof.
  unfold enableOffer. apply pres_bind; [apply pres_get|intros st].
  destruct (sOffer st && _); [apply pres_skip|]. apply pres_bind; [pres|intros backend]. apply pres_bind.
  - destruct (decide (backend = BackendUserspace)); pres.
  - intros ns [e w] [[H1 H2 H3 H4 H5 H6 H7] Ho]. cbn [fst snd] in *. split; [|done]. constructor; simpl; auto.
Qed.
Lemma pres_disableNAT G : pres (Inv G) disableNATLocked.
Proof. unfold disableNATLocked, stopUserspaceExit. pres. Qed.
Local Hint Resolve pres_disableNAT pres_enableOffer : exit.
(** The opt-in and the guard go together. *)
Lemma pres_disableOffer G : pres (Inv G) disableOffer.
Proof.
  unfold disableOffer. intros [e w] [[H1 H2 H3 H4 H5 H6 H7] Ho].
  match goal with |- Inv G (?m _).1 => change (Inv G ((nat ← get (fun e => sNAT (eSt e));
    whenM (negb (bool_decide (nat = None))) disableNATLocked)
    (set_guard (set_offerErr (set_st e (with_Offer (eSt e) false)) []) false (eUserspace e), w)).1) end.
  cbn [fst snd] in *.
  assert (Hi : Inv G (set_guard (set_offerErr (set_st e (with_Offer (eSt e) false)) []) false (eUserspace e), w)).
  { split; [constructor; simpl; auto; done|done]. }
  revert Hi. generalize (set_guard (set_offerErr (set_st e (with_Offer (eSt e) false)) []) false (eUserspace e)).
  clear. intros e Hi. revert Hi. generalize (e, w). clear e w.
  change (pres (Inv G) (nat ← get (fun e => sNAT (eSt e)); whenM (negb (bool_decide (nat = None))) disableNATLocked)). pres.
Qed.
Lemma pres_ensure_head G : pres (Inv G) ensure_head.
Proof. unfold ensure_head, move_uplink, repair_nat. pres. Qed.
Lemma pres_ensure_tail G : pres (Inv G) ensure_tail.
Proof. unfold ensure_tail. pres. Qed.
Lemma pres_announce G on : pres (Inv G) (announceOffer on).
Proof. unfold announceOffer, directPeers. pres. all: try (apply pres_when; pres). apply pres_each. intros k _. pres. Qed.
Lemma pres_release G : pres (Inv G) releaseLocked.
Proof. unfold releaseLocked. pres. Qed.
Local Hint Resolve pres_release : exit.

Lemma addr_text_parses ip : addr_text ip = [] ∨ ParseAddr (addr_text ip) ≠ None.
Proof.
  unfold addr_text. destruct (To4 ip) as [b|] eqn:E; [|by left]. right.
  change (ParseAddr (string4 (be_get b)) ≠ None). rewrite parse_string4; [done|]. apply To4_length in E. pose proof (be_get_range b) as Hr. rewrite E in Hr. exact Hr.
Qed.
Lemma pres_choose G dp : pres (Inv G) (choose_exit dp).
Proof.
  unfold choose_exit. apply pres_bind; [apply pres_get|intros use]. apply pres_bind; [apply pres_when; pres|intros _].
  apply pres_bind; [|intros _; apply pres_save]. apply pres_when.
  intros [e w] [[H1 H2 H3 H4 H5 H6 H7] Ho]. cbn [fst snd] in *. split; [|done].
  constructor; simpl; auto; [apply addr_text_parses|done..].
Qed.
Lemma pres_use G target : pres (Inv G) (use_begin target).
Proof. unfold use_begin, resolveTarget. pres. apply pres_choose. Qed.
Lemma pres_clear G : pres (Inv G) ClearExitNode.
Proof.
  unfold ClearExitNode. apply pres_bind; [pres|intros _]. apply pres_bind; [pres|intros _].
  intros [e w] [[H1 H2 H3 H4 H5 H6 H7] Ho]. cbn [fst snd] in *. apply pres_save. split; [|done].
  constructor; simpl; auto; done.
Qed.
Lemma pres_reset G : pres (Inv G) resetTickPanics.
Proof. unfold resetTickPanics. pres. Qed.
Lemma pres_recovered G m : pres (Inv G) m → pres (Inv G) (recovered m).
Proof. intros Hm s Hs. specialize (Hm s Hs). unfold recovered. by destruct (m s) as [s' []]. Qed.
(** The choice is given up together with the phase. *)
Lemma pres_disable_exit G : pres (Inv G) disable_exit.
Proof.
  intros [e w] [[H1 H2 H3 H4 H5 H6 H7] Ho]. cbn [fst snd] in *.
  unfold disable_exit, setPhaseLocked, mbind, M_bind, updSt, upd, look. cbn [fst snd]. case_match eqn:E.
  - apply andb_true_iff in E as [E _]. apply bool_decide_eq_true in E. simpl in E.
    split; [constructor; simpl; auto; try done; by rewrite E|done].
  - split; [constructor; simpl; auto; done|done].
Qed.
Lemma pres_record G : pres (Inv G) recordTickPanic.
Proof.
  unfold recordTickPanic. apply pres_recovered. pres. apply pres_when. pres. apply pres_disable_exit.
Qed.
Lemma Inv_granted_mono G G' s : G ⊆ G' → Inv G s → Inv G' s.
Proof. intros Hs [[H1 H2 H3 H4 H5 H6 H7] Ho]. split; [constructor; auto; set_solver|done]. Qed.
Lemma pres_control G peer action data s :
  Inv G s → Inv (now_granted G peer action data) (handleControl peer action data s).1.
Proof.
  intros Hi. assert (Hm : Inv (now_granted G peer action data) s).
  { revert Hi. apply Inv_granted_mono. unfold now_granted. case_match; set_solver. }
  unfold handleControl. destruct (isServerTUNControlPeer peer); [done|].
  destruct data as [|b0 [|d1 rest]]; [done..|].
  destruct (action =? TUNControlActionExitRequest) eqn:Er.
  { revert s Hi Hm. intros s _. revert s. change (pres (Inv (now_granted G peer action (b0 :: d1 :: rest))) (answer_request peer (b2z d1))).
    unfold answer_request. pres. }
  destruct (action =? TUNControlActionExitStatus) eqn:Es; [|done].
  destruct s as [e w]. destruct Hm as [[H1 H2 H3 H4 H5 H6 H7] Ho]. cbn [fst snd] in *. unfold take_status, upd. cbn [fst snd].
  assert (Hg : negb (Z.land (b2z d1) exitFlagGranted =? 0) = true → peer ∈ now_granted G peer action (b0 :: d1 :: rest)).
  { intros Hb. unfold now_granted, grants. rewrite Es, Hb. set_solver. }
  destruct (bool_decide _ && _) eqn:Ec; [|split; [by constructor|done]].
  apply andb_true_iff in Ec as [Ec _]. apply bool_decide_eq_true in Ec. simpl in Ec.
  destruct (negb (Z.land (b2z d1) exitFlagGranted =? 0)); [|destruct (negb (negb _))];
    (split; [constructor; simpl; auto; try done|done]). intros _. rewrite <- Ec. auto.
Qed.

Lemma estep_Inv G s G' s' : estep (G, s) (G', s') → Inv G s → Inv G' s'.
Proof.
  inversion 1; subst; intros Hi.
  all: first [by apply pres_reconcile | by apply pres_ensure_head | by apply pres_ensure_tail | by apply pres_query
    | by apply pres_reset | by apply pres_record | by apply pres_enableOffer | by apply pres_disableOffer
    | by apply pres_save | by apply pres_announce | by apply pres_control | by apply pres_use | by apply pres_clear | idtac].
  destruct Hi as [He Ho]. split; [done|]. simpl in *. eauto.
Qed.

(** ** Start *)

Lemma cleanup_each tun gw l : ∀ e w s',
  each l (fun r => match RouteDelCmd hOS r tun gw with Ok c => ignore (lift (hRun c)) | _ => skip end) (e, w) = (s', Ok ()) →
  s'.1 = e ∧ ∀ d, owned s'.2 d → owned w d ∧ ∀ r, r ∈ l → RouteDelCmd hOS r tun gw ≠ Ok d.
Proof.
  induction l as [|x l IH]; intros e w s'; cbn [each foldr].
  { intros [= <-]. split; [done|]. intros d Hd. split; [done|]. set_solver. }
  unfold mbind, M_bind. destruct (RouteDelCmd hOS x tun gw) as [c| |] eqn:Ec.
  2,3: intros Heq; apply IH in Heq as [-> Hd]; split; [done|]; intros d Ho; destruct (Hd d Ho) as [? Hl]; split; [done|];
    intros r Hr; apply elem_of_cons in Hr as [->|Hr]; [by rewrite Ec|by apply Hl].
  unfold ignore, lift. cbn [fst snd]. pose proof (run_other c w) as Hq. pose proof (run_del x _ _ c w Ec) as Hgone.
  destruct (del_not_add _ _ _ _ _ Ec) as [Hna _]. destruct (hRun c w) as [w1 o]. cbn [fst snd] in *.
  destruct o as [b|er|]; [| |done].
  all: intros Heq; apply IH in Heq as [-> Hd]; split; [done|]; intros d Ho; destruct (Hd d Ho) as [Hw1 Hl];
    split; [by eapply Hq|]; intros r Hr; apply elem_of_cons in Hr as [->|Hr]; [|by apply Hl];
    rewrite Ec; intros E; injection E as <-; by apply Hgone.
Qed.
Lemma trip_cleanup loaded w s : starts loaded w → cleanupStale (new_engine loaded, w) = (s, Ok ()) → Inv ∅ s.
Proof.
  intros [Hu Hrec]. unfold cleanupStale. unfold mbind at 1, M_bind, get. cbn [fst]. unfold mbind at 1, M_bind.
  destruct (each _ _ _) as [s1 [[]|er|]] eqn:E; [|done..]. apply cleanup_each in E as [He Hd].
  cbn [eSt new_engine] in *. destruct s1 as [e1 w1]. cbn [fst snd] in *. subst e1.
  assert (Hi : Inv ∅ (set_st (new_engine loaded) (with_Routes loaded []), w1)).
  { split; [constructor; simpl; auto; try done; set_solver|]. intros d Ho. exfalso.
    destruct (Hd d Ho) as [Hw Hno]. destruct (Hrec d Hw) as (r & Hr & Hc). apply (Hno r); [by apply elem_of_reverse|done]. }
  unfold mbind at 1, M_bind, updSt at 1, upd. cbn [fst snd]. intros Heq.
  match type of Heq with ?m ?x = _ => assert (Hp : pres (Inv ∅) m); [|specialize (Hp x Hi); by rewrite Heq in Hp] end.
  pres.
Qed.
Lemma reach_Inv G s : reach G s → Inv G s.
Proof.
  induction 1 as [loaded w s Hst Heq|G s G' s' _ IH Hstep]; [|by eapply estep_Inv].
  unfold startExitEngine in Heq. unfold mbind at 1, M_bind in Heq.
  destruct (cleanupStale _) as [s1 [[]|er|]] eqn:E; [|done..]. pose proof (trip_cleanup _ _ _ Hst E) as Hi.
  match type of Heq with ?m ?x = _ => assert (Hp : pres (Inv ∅) m); [|specialize (Hp x Hi); by rewrite Heq in Hp] end.
  unfold save. pres; apply pres_when; pres.
Qed.

(** ** A pass restores normal routing unless it ends active *)

Lemma keeps_retry_observe dp now : keeps eRetryAt (observe dp now).
Proof. unfold observe. repeat keeps_step; apply keeps_upd; intros e; by case_match. Qed.
Lemma phase_set p reason s : (setPhaseLocked p reason s).2 = Ok () ∧ ePhase (setPhaseLocked p reason s).1.1 = p
  ∧ sRoutes (eSt (setPhaseLocked p reason s).1.1) = sRoutes (eSt s.1).
Proof.
  unfold setPhaseLocked, mbind, M_bind, look, upd. cbn [fst snd]. case_match eqn:E; [|done].
  apply andb_true_iff in E as [E _]. by apply bool_decide_eq_true in E.
Qed.
Lemma trip_phase_idle p reason : trip (fun _ => True) Idle (setPhaseLocked p reason) (fun _ => Idle).
Proof. intros s Hs. split; [done|]. intros [] _. unfold Idle. by destruct (phase_set p reason s) as (_ & _ & ->). Qed.
Lemma trip_stand_by p reason : trip (fun _ => True) (fun _ => True) (stand_by p reason) (fun _ => Idle).
Proof.
  unfold stand_by. apply (trip_bind _ _ _ (fun e s => s.1 = e)).
  { intros s _. split; [done|]. by intros e [= <-]. }
  intros e. apply (trip_bind _ _ _ (fun _ => Idle)); [|intros []; apply trip_phase_idle].
  destruct (_ || _) eqn:E; cbn [whenM].
  - eapply trip_conseq; [apply trip_deactivate|done|intros ???; done].
  - intros s <-. split; [done|]. intros [] _. apply orb_false_iff in E as [E _].
    apply Nat.ltb_ge in E. change (sRoutes (eSt s.1) = []). destruct (sRoutes (eSt s.1)); [done|simpl in E; lia].
Qed.
Lemma trip_go_active dp peers now :
  trip (fun _ => True) (fun s => before now (eRetryAt s.1) = false) (go_active dp peers now)
    (fun _ s => ePhase s.1 ≠ PhaseActive → Idle s).
Proof.
  unfold go_active. apply (trip_bind _ _ _ (fun e s => before now (eRetryAt e) = false)).
  { intros s Hs. split; [done|]. by intros e [= <-]. }
  intros e s Hb. rewrite Hb. revert s Hb.
  cut (trip (fun _ => True) (fun _ => True)
    (r ← attempt (activateLocked dp peers);
     match r with
     | inl _ => setPhaseLocked PhaseActive []
     | inr err =>
         upd (fun e => set_times e (eLastRequest e) (eLastTry e) (Some (now + 30 * second))) ;;
         deactivateLocked err ;; setPhaseLocked PhaseStandby err
     end) (fun _ s => ePhase s.1 ≠ PhaseActive → Idle s)); [intros HT s _; by apply HT|].
  eapply trip_bind; [apply trip_true|]. intros [[]|err].
  - intros s _. split; [done|]. intros [] _. by destruct (phase_set PhaseActive [] s) as (_ & -> & _).
  - eapply trip_bind; [apply trip_true|]. intros []. eapply trip_bind; [apply trip_deactivate|]. intros [].
    eapply trip_conseq; [apply trip_phase_idle|done|intros ????; done].
Qed.
End System.
