(* ===== verification/ExitSafety.v ===== *)
(** * Exit node: normal routing, confirmation, opt-in and the breaker *)

From S2P Require Import Prelude GoStr DeviceModel NetAddr Netip ExitNode ExitNat ExitGuard ExitEngine.
From S2P Require Import ExitRouteProps ExitEngineInv ExitEnginePres ExitProps.

Section Safety.
Context {W : Type} `{!UnicodeCase} `{!Machine W} `{!Config} `{!MachineLaws W}.
Abbreviation EM := (M (exitEngine * W)).

Definition Settled (s : exitEngine * W) : Prop := ePhase s.1 ≠ PhaseActive → Idle s.
Lemma trip_reconcile_with ip now :
  trip (fun _ => True) (fun s => before now (eRetryAt s.1) = false) (reconcile_with ip now) (fun _ => Settled).
Proof.
  assert (Hsb : ∀ P p reason, trip (fun _ => True) P (stand_by (W:=W) p reason) (fun _ => Settled)).
  { intros P p reason. eapply trip_conseq; [apply trip_stand_by|done|]. intros a s Hs Hp. exact Hs. }
  unfold reconcile_with. apply (trip_bind _ _ _ (fun _ s => before now (eRetryAt s.1) = false)).
  { intros s Hs. split; [done|]. by intros dp [= <-]. }
  intros [dp|].
  - apply (trip_bind _ _ _ (fun _ s => before now (eRetryAt s.1) = false)).
    { intros s Hs. split; [done|]. intros hp _. by rewrite keeps_retry_observe. }
    intros hp. cbn zeta. destruct (negb (bool_decide ((NextPhase hp.1 now).1 = PhaseActive))); [apply Hsb|apply trip_go_active].
  - eapply trip_bind; [apply trip_true|]. intros g. apply Hsb.
Qed.
Lemma reconcile_settles G now s s' :
  Inv G s → before now (eRetryAt s.1) = false → reconcileClient now s = (s', Ok ()) → Settled s'.
Proof.
  intros Hi Hb. unfold reconcileClient, mbind at 1, M_bind, get. cbn [fst].
  destruct (decide (sUse (eSt s.1) = [])) as [Hu|Hu].
  - destruct (0 <? length (sRoutes (eSt s.1)))%nat eqn:El; cbn [whenM].
    + intros Heq _. destruct (trip_deactivate (bs "not in use") s I) as [_ Hq]. rewrite Heq in Hq. by apply (Hq ()).
    + intros [= <-] _. apply Nat.ltb_ge in El. unfold Idle. destruct (sRoutes (eSt s.1)); [done|simpl in El; lia].
  - destruct (ParseAddr (sUse (eSt s.1))) as [ip|] eqn:Ep.
    + intros Heq. destruct (trip_reconcile_with ip now s Hb) as [_ Hq]. rewrite Heq in Hq. by apply (Hq ()).
    + destruct Hi as [[[?|?]] _]; simpl in *; congruence.
Qed.

(** ** What a pass that ends active has seen *)

Lemma ipcPeers_up e w : hasDevice w = true → ipcPeers (e, w) =
  match ipcGet w with
  | (w', Ok t) => ((e, w'), Ok (parseIPCPeers t))
  | (w', Err _) => ((e, w'), Ok ∅)
  | (w', Panic) => ((e, w'), Panic)
  end.
Proof.
  intros Hd. unfold ipcPeers, mbind, M_bind, look, attempt, lift. cbn [fst snd]. rewrite Hd. cbn [negb fst snd].
  by destruct (ipcGet w) as [w' []].
Qed.
Definition handshake_of (peers : gmap bytes ipcPeer) (dp : Discovered) : Z :=
  ipLastHandshake (default no_ipc (peers !! exit_hex dp)).
Lemma observe_spec dp now e w s1 h peers :
  hasDevice w = true → observe dp now (e, w) = (s1, Ok (h, peers)) →
  hOffered h = eOffered e !! dpKey dp
  ∧ hDirect h = dpEstablished dp && hasPeer (ipcGet w).1 (dpKey dp)
  ∧ hGranted h = eGranted s1.1 ∧ eUseKey s1.1 = dpKey dp
  ∧ hLastHandshake h = (if hDirect h && (0 <? handshake_of peers dp) then Some (handshake_of peers dp * second) else None)
  ∧ (peers = ∅ ∨ ∃ t, (ipcGet w).2 = Ok t ∧ peers = parseIPCPeers t).
Proof.
  intros Hd. unfold observe. unfold mbind at 1, M_bind, upd at 1. cbn [fst snd].
  set (e1 := if decide (dpKey dp = eUseKey e) then e else set_granted (set_useKey e (dpKey dp)) false).
  assert (Hk : eUseKey e1 = dpKey dp) by (unfold e1; by case_decide).
  assert (Ho : eOffered e1 = eOffered e) by (unfold e1; by case_decide).
  unfold mbind at 1, M_bind, get at 1. cbn [fst snd]. unfold mbind at 1, M_bind. rewrite (ipcPeers_up _ _ Hd), Hk, Ho.
  destruct (ipcGet w) as [w1 o] eqn:Eg. cbn [fst snd].
  assert (Hmain : ∀ ps, (direct ← look (fun w => dpEstablished dp && hasPeer w (dpKey dp));
      (if negb direct then
         upd (fun e => set_granted e false) ;; e ← get id;
         whenM (since_gt now (eLastTry e) (10 * second))
           (upd (fun e => set_times e (eLastRequest e) (Some now) (eRetryAt e)) ;; ignore (lift (tryP2P (dpID dp))))
       else
         e ← get id;
         whenM (negb (eGranted e) && since_ge now (eLastRequest e) exitRequestEvery)
           (upd (fun e => set_times e (Some now) (eLastTry e) (eRetryAt e)) ;;
            here ← look (fun w => hasPeer w (dpKey dp));
            whenM here (send (dpKey dp) (exit_request exitOpUse)))) ;;
      granted ← get eGranted;
      mret (MkHealth true direct
              (if direct && (0 <? handshake_of ps dp) then Some (handshake_of ps dp * second) else None)
              (eOffered e !! dpKey dp) granted, ps)) (e1, w1) = (s1, Ok (h, peers)) →
    peers = ps ∧ hOffered h = eOffered e !! dpKey dp ∧ hDirect h = dpEstablished dp && hasPeer w1 (dpKey dp)
    ∧ hGranted h = eGranted s1.1 ∧ eUseKey s1.1 = dpKey dp
    ∧ hLastHandshake h = (if hDirect h && (0 <? handshake_of peers dp) then Some (handshake_of peers dp * second) else None)).
  { intros ps. unfold mbind at 1, M_bind, look at 1. cbn [fst snd]. unfold mbind at 1, M_bind.
    match goal with |- (match ?m ?x with _ => _ end) = _ → _ => assert (Hku : keeps eUseKey m) by (repeat keeps_step; apply keeps_send);
      specialize (Hku x); destruct (m x) as [s2 [[]|er|]]; [|done..] end.
    cbn [fst] in Hku. intros [= <- <- <-]. cbn. rewrite Hku, Hk. by repeat split. }
  destruct o as [t|er|]; [| |done].
  all: intros Heq; apply Hmain in Heq as (-> & H1 & H2 & H3 & H4 & H5); repeat (split; [done|]); eauto.
Qed.

(** The exit node is listed under the chosen address, has a direct path and a
    WireGuard peer, has shaken hands within the limit, has not withdrawn its offer
    and has granted use. *)
Definition confirmed (G : gset bytes) (e : exitEngine) (w : W) (now : Z) : Prop :=
  ∃ ip dp text, ParseAddr (sUse (eSt e)) = Some ip ∧ find_ip ip (peers_listed w) = Some dp
    ∧ dpEstablished dp = true ∧ hasPeer (ipcGet w).1 (dpKey dp) = true
    ∧ (ipcGet w).2 = Ok text
    ∧ 0 < handshake_of (parseIPCPeers text) dp
    ∧ now - handshake_of (parseIPCPeers text) dp * second ≤ HandshakeStaleAfter
    ∧ eOffered e !! dpKey dp ≠ Some false ∧ dpKey dp ∈ G.

Lemma NextPhase_active h now : (NextPhase h now).1 = PhaseActive →
  hListed h = true ∧ hOffered h ≠ Some false ∧ hDirect h = true ∧ stale (hLastHandshake h) now = false ∧ hGranted h = true.
Proof.
  unfold NextPhase. destruct (hListed h); [|done]. case_bool_decide; [done|]. destruct (hDirect h); [|done].
  destruct (stale _ _); [done|]. by destruct (hGranted h).
Qed.
Lemma stand_by_phase p reason s s' : stand_by p reason s = (s', Ok ()) → ePhase s'.1 = p.
Proof.
  unfold stand_by, mbind, M_bind, get. cbn [fst]. match goal with |- context [whenM ?b ?m s] => destruct (whenM b m s) as [s1 [[]|er|]] end;
    [|done..]. intros Heq. destruct (phase_set p reason s1) as (_ & Hp & _). by rewrite Heq in Hp.
Qed.
Lemma go_active_tunnels G dp peers now s s' : Inv G s → before now (eRetryAt s.1) = false →
  go_active dp peers now s = (s', Ok ()) → ePhase s'.1 = PhaseActive → Holds tunnels s'.
Proof.
  intros Hi Hb. unfold go_active. unfold mbind at 1, M_bind, get. cbn [fst id]. unfold id. rewrite Hb. unfold mbind at 1, M_bind, attempt.
  destruct (trip_activate G dp peers s Hi) as [_ Hq]. destruct (activateLocked dp peers s) as [s1 [[]|err|]]; [| |done].
  - intros Heq _. destruct (phase_set PhaseActive [] s1) as (_ & _ & Hr). rewrite Heq in Hr.
    destruct (Hq () eq_refl) as [_ Hh]. intros r Hin. cbn [fst] in *. rewrite Hr. by apply Hh.
  - unfold mbind, M_bind. cbn [fst snd upd]. destruct (deactivateLocked err _) as [s2 [[]|er|]]; [|done..].
    intros Heq Hp. destruct (phase_set PhaseStandby err s2) as (_ & Hs & _). rewrite Heq in Hs. cbn [fst] in Hs. congruence.
Qed.
Lemma reconcile_active G now e w s' :
  Inv G (e, w) → reconcileClient now (e, w) = (s', Ok ()) → ePhase s'.1 = PhaseActive →
  confirmed G e w now ∧ (before now (eRetryAt e) = false → Holds tunnels s').
Proof.
  intros Hi. unfold reconcileClient, mbind at 1, M_bind, get at 1. cbn [fst].
  destruct (decide (sUse (eSt e) = [])) as [Hu|Hu].
  { intros Heq Hp. exfalso. assert (Hs : stance s'.1 = stance e).
    { destruct (0 <? length (sRoutes (eSt e)))%nat; cbn [whenM] in Heq; [|by injection Heq as <-].
      pose proof (keeps_deactivate (bs "not in use") (e, w)) as Hk. by rewrite Heq in Hk. }
    destruct Hi as [[_ Ha] _]. unfold stance in Hs. injection Hs as Hs1 Hs2. cbn [fst] in Ha.
    apply Ha; [congruence|]. by rewrite Hu. }
  destruct (ParseAddr (sUse (eSt e))) as [ip|] eqn:Ep.
  2: { destruct Hi as [[[?|?]] _]; simpl in *; congruence. }
  unfold reconcile_with. unfold mbind at 1, M_bind, discoveredByIP, look. cbn [fst snd].
  destruct (find_ip ip (peers_listed w)) as [dp|] eqn:Ef.
  2: { unfold mbind, M_bind, get. cbn [fst]. intros Heq Hp. apply stand_by_phase in Heq. rewrite Hp in Heq. done. }
  unfold mbind at 1, M_bind. destruct (observe dp now (e, w)) as [s1 [[h peers]|er|]] eqn:Eo; [|done..].
  cbn zeta. cbn [fst snd]. case_bool_decide as Ha; cbn [negb].
  2: { intros Heq Hp. apply stand_by_phase in Heq. congruence. }
  intros Heq Hp. assert (Hd : hasDevice w = true).
  { unfold peers_listed in Ef. destruct (hasDevice w); [done|]. done. }
  pose proof (pres_observe G dp now (e, w) Hi) as Hi1. pose proof (keeps_retry_observe dp now (e, w)) as Hret.
  rewrite Eo in Hi1, Hret. cbn [fst] in Hi1, Hret.
  apply observe_spec in Eo as (H1 & H2 & H3 & H4 & H5 & H6); [|done].
  apply NextPhase_active in Ha as (_ & Hof & Hdir & Hst & Hgr). split.
  2: { intros Hb. apply (go_active_tunnels G dp peers now s1); [done|by rewrite Hret|done|done]. }
  rewrite Hdir in H5, H2. symmetry in H2. apply andb_true_iff in H2 as [H2a H2b].
  rewrite H5 in Hst. cbn [andb] in Hst. destruct (0 <? handshake_of peers dp) eqn:Ehs; [|done]. apply Z.ltb_lt in Ehs.
  apply Z.ltb_ge in Hst. destruct H6 as [->|(t & Ht & ->)]; [by vm_compute in Ehs|].
  exists ip, dp, t. repeat (split; [done|]). split; [congruence|]. destruct Hi1 as [[_ _ _ Hg] _].
  rewrite <- H4. apply Hg. congruence.
Qed.

(** ** The breaker *)

Lemma reconcile_unused now s s' : sUse (eSt s.1) = [] → reconcileClient now s = (s', Ok ()) → Idle s'.
Proof.
  intros Hu. unfold reconcileClient, mbind, M_bind, get. cbn [fst]. rewrite decide_True by done.
  destruct (0 <? length (sRoutes (eSt s.1)))%nat eqn:El; cbn [whenM].
  - intros Heq. destruct (trip_deactivate (bs "not in use") s I) as [_ Hq]. rewrite Heq in Hq. by apply (Hq ()).
  - intros [= <-]. apply Nat.ltb_ge in El. unfold Idle. destruct (sRoutes (eSt s.1)); [done|simpl in El; lia].
Qed.

Lemma keeps_noting {A} what (m : EM A) : keeps choice m → keeps choice (noting what m).
Proof. intros Hm s. specialize (Hm s). unfold noting. by destruct (m s) as [[e w] []]. Qed.
Local Hint Resolve keeps_noting keeps_send choice_phase choice_deactivate choice_activate choice_observe choice_stand_by : exit.
Lemma choice_enableOffer : keeps choice enableOffer.
Proof. unfold enableOffer, startUserspaceExitLocked. repeat keeps_step. apply keeps_noting. repeat keeps_step. Qed.
Local Hint Resolve choice_enableOffer : exit.
Lemma choice_ensure : keeps choice ensureNAT.
Proof.
  unfold ensureNAT, ensure_head, ensure_tail, save, move_uplink, repair_nat, disableNATLocked, stopUserspaceExit, startUserspaceExitLocked.
  repeat keeps_step. apply keeps_ignore. repeat keeps_step. apply keeps_ignore. repeat keeps_step.
Qed.
Lemma choice_query : keeps choice queryDirectPeers.
Proof. unfold queryDirectPeers, directPeers. repeat keeps_step. Qed.
Lemma choice_reconcile_with ip now : keeps choice (reconcile_with ip now).
Proof. unfold reconcile_with, discoveredByIP, go_active. repeat keeps_step. Qed.
Local Hint Resolve choice_ensure choice_query choice_reconcile_with : exit.

(** Ticks do not choose an exit node and count panics only after them. *)
Definition unchosen (c : Z) (s : exitEngine * W) : Prop := eTickPanics s.1 = c ∧ sUse (eSt s.1) = [].
Definition counted (c : Z) (s : exitEngine * W) : Prop := eTickPanics s.1 = c.
Lemma pres_choice {A} (m : EM A) c : keeps choice m → pres (unchosen c) m ∧ pres (counted c) m.
Proof.
  intros Hm. unfold unchosen, counted. split; intros s Hs; specialize (Hm s); unfold choice in Hm; injection Hm as Hu Hc; by rewrite ?Hu, Hc.
Qed.
Lemma tick_work_choice now c : pres (unchosen c) (tick_work now) ∧ pres (counted c) (tick_work now).
Proof.
  assert (Hrest : keeps choice (e ← get id;
    whenM (since_ge now (eLastEnsure e) exitEnsureEvery)
      (upd (fun e => set_last e (Some now) (eLastQuery e)) ;; ensureNAT) ;;
    whenM (since_ge now (eLastQuery e) exitQueryEvery)
      (upd (fun e => set_last e (eLastEnsure e) (Some now)) ;; queryDirectPeers))) by (repeat keeps_step).
  assert (Hrec : pres (unchosen c) (reconcileClient now) ∧ pres (counted c) (reconcileClient now)).
  { unfold reconcileClient. split; (apply pres_bind; [by intros s Hs|]); intros st;
      (destruct (decide (sUse st = [])); [destruct (0 <? _)%nat; cbn [whenM]; [by apply pres_choice, choice_deactivate|apply pres_skip]|]);
      (destruct (ParseAddr (sUse st)); [by apply pres_choice, choice_reconcile_with|]); intros s Hs; [destruct Hs; by split|done]. }
  unfold tick_work. split; (apply pres_bind; [apply Hrec|intros _; by apply pres_choice]).
Qed.

(** The state after ticks, and that each of them panicked. *)
Fixpoint ticks (nows : list Z) (s : exitEngine * W) : exitEngine * W :=
  match nows with [] => s | now :: nows => ticks nows (runTick now s).1 end.
Fixpoint all_panic (nows : list Z) (s : exitEngine * W) : Prop :=
  match nows with [] => True | now :: nows => (tick_body now s).2 = Panic ∧ all_panic nows (runTick now s).1 end.

Lemma record_effect s :
  let s' := (recordTickPanic s).1 in
  sUse (eSt s'.1) = [] ∨ (sUse (eSt s'.1) = sUse (eSt s.1) ∧ eTickPanics s'.1 = eTickPanics s.1 + 1 ∧ eTickPanics s.1 + 1 < 5).
Proof.
  destruct s as [e w]. cbn zeta. set (e1 := set_breaker e (eTickPanics e + 1) (eDisabledReason e)).
  assert ((recordTickPanic (e, w)).1 = (recovered
    (whenM ((exitTickPanicGiveup <=? eTickPanics e1) && negb (bool_decide (sUse (eSt e1) = [])))
       (disable_exit ;; saveLocked ;; upd (fun e => set_breaker e 0 (eDisabledReason e)))) (e1, w)).1) as -> by reflexivity.
  cbn [fst snd]. change (sUse (eSt e)) with (sUse (eSt e1)). change (eTickPanics e + 1) with (eTickPanics e1).
  destruct (decide (sUse (eSt e1) = [])) as [Hu|Hu].
  { rewrite bool_decide_true by done. rewrite andb_false_r. cbn [whenM]. by left. }
  rewrite bool_decide_false by done. cbn [negb]. rewrite andb_true_r.
  destruct (Z.leb_spec exitTickPanicGiveup (eTickPanics e1)) as [Hc|Hc]; cbn [whenM].
  - left. unfold recovered. match goal with |- sUse (eSt (match ?m ?x with _ => _ end).1.1) = [] =>
      assert (Hp : sUse (eSt (m x).1.1) = []); [|by destruct (m x) as [s' []]] end.
    unfold mbind at 1, M_bind. unfold disable_exit. unfold mbind at 1, M_bind, updSt, upd at 1. cbn [fst snd].
    unfold mbind at 1, M_bind, upd at 1. cbn [fst snd].
    match goal with |- context [setPhaseLocked ?p ?r ?x] => pose proof (choice_phase p r x) as Hk; destruct (setPhaseLocked p r x) as [s1 [[]|er|]] end.
    all: unfold choice in Hk; injection Hk as Hk _; cbn [fst] in Hk |- *; try done.
    match goal with |- sUse (eSt (?m ?x).1.1) = [] => assert (Hm : keeps (fun e => sUse (eSt e)) m) by (repeat keeps_step); by rewrite Hm end.
  - right. unfold exitTickPanicGiveup in Hc. split; [done|]. split; [done|lia].
Qed.
Lemma tick_panic now s : (tick_body now s).2 = Panic →
  tick_body now s = ((tick_work now s).1, Panic) ∧ (runTick now s).1 = (recordTickPanic (tick_work now s).1).1.
Proof.
  intros Hp. assert (Hb : tick_body now s = ((tick_work now s).1, Panic)).
  { revert Hp. unfold tick_body, mbind, M_bind. by destruct (tick_work now s) as [s' []]. }
  split; [done|]. unfold runTick. by rewrite Hb.
Qed.
Lemma breaker_trips nows : ∀ s, all_panic nows s →
  sUse (eSt s.1) = [] ∨ (nows ≠ [] ∧ 5 ≤ eTickPanics s.1 + Z.of_nat (length nows)) → sUse (eSt (ticks nows s).1) = [].
Proof.
  induction nows as [|now nows IH]; intros s Hall Hc; [by destruct Hc as [?|[? _]]|].
  cbn [all_panic ticks] in *. destruct Hall as [Hp Hall]. destruct (tick_panic now s Hp) as [_ Hrun].
  destruct (tick_work_choice now (eTickPanics s.1)) as [Hun Hco].
  pose proof (record_effect (tick_work now s).1) as Hrec. rewrite <- Hrun in Hrec.
  assert (Hcount : eTickPanics (tick_work now s).1.1 = eTickPanics s.1) by (by apply Hco).
  apply IH; [done|]. destruct Hrec as [?|(Hu & Hn & Hlt)]; [by left|].
  destruct Hc as [Hu0|[_ Hc]].
  - left. rewrite Hu. by apply (Hun s).
  - right. rewrite Hn, Hcount. cbn [length] in Hc. split; [|lia]. intros ->. cbn [length] in Hc. lia.
Qed.

Local Hint Resolve pres_reconcile pres_ensure_head pres_ensure_tail pres_query pres_reset pres_enableOffer : exit.
Lemma pres_ensureNAT G : pres (Inv G) ensureNAT.
Proof. unfold ensureNAT, save. pres. Qed.
Local Hint Resolve pres_ensureNAT : exit.
Lemma pres_tick G now : pres (Inv G) (runTick now).
Proof.
  assert (Hb : pres (Inv G) (tick_body now)).
  { unfold tick_body, tick_work. pres; apply pres_when; pres. }
  intros s Hs. specialize (Hb s Hs). unfold runTick. destruct (tick_body now s) as [s' []]; [done..|].
  by apply pres_record.
Qed.
Lemma ticks_Inv G nows : ∀ s, Inv G s → Inv G (ticks nows s).
Proof. induction nows as [|now nows IH]; intros s Hs; [done|]. apply IH. by apply pres_tick. Qed.
End Safety.
