(* ===== verification/ExitMain.v ===== *)
(** * Exit node: the theorems about the engine, and a small machine

    The machine at the end has a host that does what the laws say and one peer;
    on it the engine is run. *)

From S2P Require Import Prelude GoStr DeviceModel NetAddr Netip ExitNode ExitNat ExitGuard ExitEngine.
From S2P Require Import ExitRouteProps ExitEngineInv ExitEnginePres ExitProps ExitSafety.

(** ** A machine to run the engine on *)

(** The host's state is the delete commands of the routes in place. *)
Definition undo (c : Cmd) : Cmd :=
  match cArgs c with
  | a :: b :: rest =>
      if decide (a = bs "-6") then
        match rest with _ :: rest => MkCmd (cName c) (a :: b :: bs "del" :: rest) [] | [] => c end
      else MkCmd (cName c) (a :: bs "del" :: rest) []
  | _ => c
  end.
Definition toy_run (c : Cmd) : M (list Cmd) bytes := fun w =>
  if is_add c then (undo c :: w, Ok []) else (filter (fun d => d ≠ c) w, Ok []).
Definition toy_routes : bytes :=
  line [bs "Iface Destination Gateway Flags RefCnt Use Metric Mask"]
  ++ line [bs "eth0 00000000 0101A8C0 0003 0 0 100 00000000"].
Definition toy_key : bytes := replicate 32 (z2b 34).
Definition toy_peer : Discovered :=
  MkDP 7 toy_key (MkUDPAddr (ip4 203 0 113 9) 51820) (MkUDPAddr [] 0) [] true (ip4 10 0 0 7).
Definition toy_ipc : bytes :=
  line [bs "public_key="; hex toy_key] ++ line [bs "endpoint=203.0.113.9:51820"]
  ++ line [bs "last_handshake_time_sec=1000"] ++ line [bs "allowed_ip=10.0.0.7/32"].

Section Toy.
Context (os : bytes) (broken : bool).
Definition toy_host : Host (list Cmd) := {|
  hOS := os; hRun := toy_run;
  hReadFile f := mret (if decide (f = bs "/proc/net/route") then toy_routes else one);
  hWriteFile _ _ := skip;
  hExists _ _ := false |}.
Definition toy_machine : Machine (list Cmd) := {|
  machine_host := toy_host;
  hasDevice _ := true; hasP2P _ := true;
  ipcGet := if broken then fun w => (w, Panic) else mret toy_ipc;
  ipcSet _ := skip; discovered _ := [toy_peer]; hasPeer _ _ := true; hostnameOf _ _ := [];
  sendControl _ _ := skip; tryP2P _ := skip; saveState _ := skip; netInterfaces _ := [];
  newUserspaceExit := skip; localAccess _ := false; nowOf _ := 0 |}.
End Toy.
Lemma undo_add r tun gw c : RouteAddCmd (bs "linux") r tun gw = Ok c → RouteDelCmd (bs "linux") r tun gw = Ok (undo c).
Proof.
  unfold RouteAddCmd, RouteDelCmd, routeCmd, route_linux. rewrite !decide_False, !decide_True by done.
  generalize (prefix_String (Masked (Dst r))), (addr_String (gwAddr gw)). intros dst ga.
  destruct (Kind r); [by intros [= <-]| |by intros [= <-]].
  destruct (IsValid (gwAddr gw)), (bool_decide (gwInterface gw = [])); cbn; try done; by intros [= <-].
Qed.
Definition toy_laws (broken : bool) : @MachineLaws (list Cmd) (toy_machine (bs "linux") broken).
Proof.
  unshelve refine {| owned := fun w d => d ∈ w |}; cbn.
  - intros c w d Hc. unfold toy_run. rewrite Hc. cbn. by intros [_ ?]%list_elem_of_filter.
  - intros r tun gw c w d Hc. unfold toy_run. rewrite (add_is_add _ _ _ _ _ Hc). cbn.
    intros [->|?]%elem_of_cons; [right|by left]. split; [by apply undo_add|eauto].
  - intros r tun gw c w Hc _. unfold toy_run. rewrite (proj1 (del_not_add _ _ _ _ _ Hc)). cbn.
    by intros [? _]%list_elem_of_filter.
  - done.
  - done.
  - intros w d. by destruct broken.
  - done.
  - done.
  - done.
  - done.
  - done.
Defined.
#[export] Instance toy_case : UnicodeCase := {| unicode_ToLower s := s; unicode_EqualFold _ _ := false |}.
#[export] Instance toy_config : Config :=
  {| cfgServerKey := []; cfgAllowedIPs := [bs "10.0.0.0/24"]; cfgAddresses := [MkPrefix (Addr4 (10 * 2 ^ 24 + 1)) 24];
     cfgTun := bs "wantastic0"; cfgBase64 _ := None |}.

Section Run.
Context (broken : bool).
#[local] Instance run_machine : Machine (list Cmd) := toy_machine (bs "linux") broken.
#[local] Instance run_laws : MachineLaws (list Cmd) := toy_laws broken.
(** Start, choose 10.0.0.7, receive its grant, reconcile, lose the offer. *)
Definition toy0 : exitEngine * list Cmd := (startExitEngine (new_engine zero_state, [])).1.
Definition toy1 : exitEngine * list Cmd := (use_begin (bs "10.0.0.7") toy0).1.
Definition toy2 : exitEngine * list Cmd := (handleControl toy_key TUNControlActionExitStatus (exit_status 3) toy1).1.
Definition toy_now : Z := 1010 * second.
Definition toy3 : exitEngine * list Cmd := (reconcileClient toy_now toy2).1.
Definition toy4 : exitEngine * list Cmd := (handleControl toy_key TUNControlActionExitStatus (exit_status 0) toy3).1.
Definition toy_G : gset bytes := {[toy_key]}.

Lemma toy_start : reach ∅ toy0.
Proof.
  apply (reach_start zero_state []); [split; [by left|intros d Hd; by apply elem_of_nil in Hd]|].
  destruct broken; vm_compute; reflexivity.
Qed.
Lemma toy_chosen : reach ∅ toy1.
Proof. eapply reach_step; [apply toy_start|apply step_use]. Qed.
Lemma toy_granted : reach toy_G toy2.
Proof.
  replace toy_G with (now_granted ∅ toy_key TUNControlActionExitStatus (exit_status 3));
    [eapply reach_step; [apply toy_chosen|apply step_control]|].
  unfold now_granted, toy_G. assert (grants TUNControlActionExitStatus (exit_status 3) = true) as -> by reflexivity. set_solver.
Qed.
Lemma toy_active : reach toy_G toy3.
Proof. eapply reach_step; [apply toy_granted|apply step_reconcile]. Qed.
Lemma toy_withdrawn : reach toy_G toy4.
Proof.
  eapply reach_step; [apply toy_active|].
  replace toy_G with (now_granted toy_G toy_key TUNControlActionExitStatus (exit_status 0)) at 2 by reflexivity.
  apply step_control.
Qed.
End Run.
Lemma outcome {S A} (m : M S A) s a : (m s).2 = Ok a → m s = ((m s).1, Ok a).
Proof. intros H. by rewrite <- H, <- surjective_pairing. Qed.

(** ** Theorems *)

Section Theorems.
Context {W : Type} `{!UnicodeCase} `{!Machine W} `{!Config} `{!MachineLaws W}.





Lemma trip_enableOffer :
  trip (fun _ => True) (fun s => sOffer (eSt s.1) = false) enableOffer
    (fun _ s => sOffer (eSt s.1) = true ∧ eGuardAllow s.1 = true).
Proof.
  unfold enableOffer. apply (trip_bind _ _ _ (fun st _ => sOffer st = false)).
  { intros s Hs. split; [done|]. by intros st [= <-]. }
  intros st. destruct (sOffer st && _) eqn:E.
  { intros s Hs. by rewrite Hs in E. }
  eapply trip_bind; [apply trip_true|]. intros backend. eapply trip_bind; [apply trip_true|]. intros ns.
  intros s _. by split.
Qed.
(** [ensureNAT] decides to enable the offer again, gives the mutex back, and
    enables it without looking again: a user's opt-out in between is undone. *)
Lemma opt_out_overridden s s1 :
  ensure_head s = (s1, Ok true) →
  let s2 := (disableOffer s1).1 in
  (enableOffer s2).2 = Ok () → sOffer (eSt (enableOffer s2).1.1) = true ∧ eGuardAllow (enableOffer s2).1.1 = true.
Proof.
  intros _ s2. assert (Ho : sOffer (eSt s2.1) = false).
  { unfold s2, disableOffer. destruct s1 as [e w].
    match goal with |- sOffer (eSt (?m _).1.1) = _ => change (sOffer (eSt ((nat ← get (fun e => sNAT (eSt e));
      whenM (negb (bool_decide (nat = None))) disableNATLocked)
      (set_guard (set_offerErr (set_st e (with_Offer (eSt e) false)) []) false (eUserspace e), w)).1.1) = false) end.
    match goal with |- sOffer (eSt (?m ?x).1.1) = _ => assert (Hk : keeps (fun e => sOffer (eSt e)) m) end.
    { unfold disableNATLocked, stopUserspaceExit. repeat keeps_step. }
    by rewrite Hk. }
  intros Hok. destruct (trip_enableOffer s2 Ho) as [_ Hq]. by apply (Hq ()).
Qed.
End Theorems.

(** ** Witnesses *)




(** A packet for 1.1.1.1 and one for 10.0.0.9, of which only the second passes. *)
Definition toy_packet (a b c d : Z) : bytes := z2b 69 :: replicate 15 (z2b 0) ++ ip4 a b c d.

(** ** Runs that go wrong *)

(** The opt-out of a device that could not enable sharing at its start: the loop
    turns sharing on. *)
Definition toy_offering : exitEngine * list Cmd := (new_engine (with_Offer zero_state true), []).
Lemma opt_out_lost :
  let m := toy_machine (bs "darwin") false in
  let s1 := (ensure_head (Machine0:=m) toy_offering).1 in
  let s2 := (disableOffer (Machine0:=m) s1).1 in
  let s3 := (enableOffer (Machine0:=m) s2).1 in
  (ensure_head (Machine0:=m) toy_offering).2 = Ok true
  ∧ sOffer (eSt s2.1) = false ∧ sOffer (eSt s3.1) = true ∧ eGuardAllow s3.1 = true.
Proof. vm_compute. by repeat split. Qed.

(** A host that refuses to delete: the pass ends in standby with nothing recorded
    and the split default still in place. *)
Definition stuck_run (c : Cmd) : M (list Cmd) bytes := fun w =>
  if is_add c then (undo c :: w, Ok []) else (w, Err (bs "RTNETLINK answers: Operation not permitted")).
Definition stuck_machine : Machine (list Cmd) :=
  let m := toy_machine (bs "linux") false in {|
  machine_host := {| hOS := bs "linux"; hRun := stuck_run; hReadFile := hReadFile; hWriteFile := hWriteFile; hExists := hExists |};
  hasDevice := hasDevice; hasP2P := hasP2P; ipcGet := ipcGet; ipcSet := ipcSet; discovered := discovered; hasPeer := hasPeer;
  hostnameOf := hostnameOf; sendControl := sendControl; tryP2P := tryP2P; saveState := saveState;
  netInterfaces := netInterfaces; newUserspaceExit := newUserspaceExit; localAccess := localAccess; nowOf := nowOf |}.
Lemma failed_delete_forgotten :
  let s := (reconcileClient (Machine0:=stuck_machine) toy_now (toy4 false)).1 in
  ePhase s.1 = PhaseStandby ∧ sRoutes (eSt s.1) = [] ∧ s.2 = (toy3 false).2 ∧ s.2 ≠ [].
Proof. vm_compute. by repeat split. Qed.
